(* ===== verification/_CoqProject ===== *)
-Q . S2P
Prelude.v
GoErrors.v
Storage.v
Request.v
PersistentQueue.v
PersistentQueueLemmas.v
PersistentQueueSpec.v
PersistentQueueRefine.v
PData.v
Batch.v
TracesBatch.v
LogsBatch.v
MetricsBatch.v
BatchLemmas.v
TracesBatchProofs.v
LogsBatchProofs.v
MetricsBatchProofs.v
MemoryQueue.v
MemoryQueueProofs.v
MemoryQueueSystem.v
QueueConfig.v
PartitionBatcher.v
PartitionBatcherProofs.v
PartitionBatcherSystem.v
MultiBatcher.v
MultiBatcherProofs.v
RetrySender.v
Status.v
MemoryLimiter.v
ProtoWire.v
BatchProcessor.v
BatchProcessorSplit.v
BatchProcessorProofs.v
Consumers.v
ConsumersProofs.v
PCommon.v
PCommonProofs.v
Ids.v
Digraph.v
Graph.v
GraphNodes.v
GraphEdges.v
GraphBuild.v
GraphOrder.v
Lifecycle.v
LifecycleProofs.v
Collector.v
GoStrings.v
FeatureGate.v
ProtoMessage.v
ProtoMessageProofs.v
CommonProto.v
CommonProtoProofs.v
TracesProto.v
TracesProtoProofs.v
LogsProto.v
LogsProtoProofs.v
MetricsProto.v
MetricsProtoProofs.v
ProfilesProto.v
ProfilesProtoProofs.v
ProfilesMerge.v
ProfilesBatch.v
RequestProto.v
RequestProtoProofs.v
OtlpMessages.v
Cgroups.v
ConfMap.v
ConfResolver.v
ConfExpandProofs.v
ConfResolverProofs.v
ConfTheorems.v
ConfProviders.v
ConfValidate.v
SharedComponent.v
OtlpErrors.v
Factories.v
OtelConfig.v
