(* ===== verification/Prelude.v ===== *)
(** * The OpenTelemetry Collector: pipelines, life cycle and data path

    A model of the parts of the Collector (src/opentelemetry-collector) that build and
    run pipelines and that carry, batch, queue, retry and refuse telemetry data, with the
    theorems that make them correct.  Paths below are relative to that directory; EH
    stands for exporter/exporterhelper/internal.

    ** How the program works

    The collector reads a configuration that names components and pipelines by
    identifiers, builds a graph with a node per component, orders it, creates the
    components from the exporters back to the receivers and gives each the consumer of
    what follows it; where data takes several ways a fan-out consumer clones or shares it
    according to what each consumer declares.  The service starts extensions, then
    components downstream first, and shuts down in the opposite order; a changed
    configuration retires the service and builds another.  Feature gates select between
    behaviours when the process starts.

    A pipeline hands telemetry to processors and exporters.  The memory limiter refuses
    data when the process uses too much memory; the batch processor groups it.  An
    exporter built with exporterhelper puts each request in a sending queue, in memory
    or on disk; consumers take requests from the queue and give them to a batcher, which
    merges and splits them up to size limits (one batcher for each key, when partitions
    are by metadata) and calls the done callback of every request when all the batches that carry a part of it are exported; the retry sender
    repeats an export until it succeeds, fails for good or runs out of time.  The done
    callback gives the size back to the queue and, on disk, deletes the request, unless
    the error says that the collector is shutting down.  Each component reports its
    status through a state machine, and messages are read and written in the protobuf
    wire format.

    The configuration itself comes from providers: a resolver retrieves and merges files,
    expands the references in them, keeps a closer for every retrieved value and waits for
    changes; the result is validated part by part.  Receivers of one configuration share a
    component.

    ** Files and the code they model

    - Prelude: machine integers, sums, multiplicities, automation.
    - GoErrors: error values, their Unwrap chains, consumererror, experr.
    - Request: EH/request/request.go and sizer.go.
    - Storage: extension/xextension/storage/storage.go, as the interface of a client,
      with an in-memory instance.
    - PersistentQueue: EH/queue/persistent_queue.go, one definition per method;
      PersistentQueueLemmas, PersistentQueueSpec and PersistentQueueRefine prove it.
    - MemoryQueue: EH/queue/memory_queue.go, cond.go and async_queue.go;
      MemoryQueueProofs and MemoryQueueSystem prove it.
    - PData: the slices of pdata/ptrace, plog and pmetric and EH/sizer.
    - Batch, TracesBatch, LogsBatch, MetricsBatch: EH/queuebatch/{traces,logs,metrics}_batch.go;
      BatchLemmas and {Traces,Logs,Metrics}BatchProofs prove them.
    - QueueConfig: EH/queuebatch/config.go, batcher.go, queue_batch.go, EH/queue_sender.go.
    - PartitionBatcher: EH/queuebatch/partition_batcher.go and metadata_partitioner.go;
      PartitionBatcherProofs and PartitionBatcherSystem prove it.
    - MultiBatcher: EH/queuebatch/multi_batcher.go; MultiBatcherProofs proves it.
    - RetrySender: EH/retry_sender.go and config/configretry/backoff.go.
    - Status: service/internal/status/status.go and component/componentstatus/status.go.
    - MemoryLimiter: internal/memorylimiter and processor/memorylimiterprocessor.
      Cgroups: internal/memorylimiter/cgroups and iruntime, the total memory it is told.
    - ProtoWire: pdata/internal/proto.
    - BatchProcessor: processor/batchprocessor; BatchProcessorSplit and
      BatchProcessorProofs prove it.
    - Consumers: pdata's shared state (pdata/internal/state.go), consumer/,
      internal/fanoutconsumer, service/internal/capabilityconsumer, refconsumer and
      obsconsumer; ConsumersProofs proves it.
    - PCommon: the slices, values and maps of pdata/pcommon and their copies, over a heap;
      PCommonProofs proves it.
    - Ids: component/identifiable.go and config.go, pipeline/pipeline.go, pipeline/signal.go
      and the functions of strings, regexp and utf8 they call.
    - Digraph: the interface of the graph library; Graph: service/internal/graph (graph.go,
      one node file per kind) and internal/attribute.  GraphNodes, GraphEdges and
      GraphBuild prove its phases, GraphOrder the order and the whole.
    - Lifecycle: StartAll, ShutdownAll and GetExporters of graph.go, service/extensions,
      Start and Shutdown of service/service.go; LifecycleProofs proves it.
    - Collector: otelcol/collector.go; Module FatalError: the channels a fatal error takes
      from a component to Run; and what holds of its runs.
    - FeatureGate: featuregate.
    - ProtoMessage: the parts that the generated SizeProto, MarshalProto and UnmarshalProto
      of pdata/internal are made of; ProtoMessageProofs states when they form a codec.
      CommonProto: the messages of values, resources and scopes, trace and span identifiers;
      TracesProto, LogsProto, MetricsProto, ProfilesProto: the messages of the signals and
      the pb.go of ptrace, plog, pmetric and pprofile, and dictionary_helpers.go; each has
      its file of proofs.  RequestProto: pdata/xpdata/request and the encodings of the
      persistent queue, proved in RequestProtoProofs.  OtlpMessages: the requests and
      responses of OTLP, pdata/internal/otlp, the ExportRequests of the otlp packages and
      Export of receiver/otlpreceiver.
    - ProfilesMerge: MergeTo of pdata/pprofile and the switchDictionary of every message;
      ProfilesBatch: exporter/exporterhelper/xexporterhelper.
    - GoStrings: the functions of package strings, bufio and strconv the code uses.  ConfMap:
      confmap/provider.go, confmap/internal/conf.go and merge.go; ConfResolver:
      confmap/expand.go and resolver.go; ConfProviders: confmap/provider.  ConfExpandProofs,
      ConfResolverProofs and ConfTheorems prove them, on a tree of maps.
      ConfValidate: confmap/internal/validation.go; ConfProviders has the watcher channel too.
    - SharedComponent: internal/sharedcomponent, and what holds of its runs.
    - OtlpErrors: receiver/otlpreceiver (internal/errors, internal/trace, otlphttp.go),
      internal/statusutil, the error handling of exporter/otlpexporter and otlphttpexporter,
      consumer/consumererror/error.go.
    - Factories: the factories of receiver, processor, exporter, connector and extension,
      internal/componentalias, MakeFactoryMap, otelcol/internal/configunmarshaler,
      service/internal/builders.  OtelConfig: otelcol/config.go, service/pipelines/config.go,
      service.New, and what of them the graph is built from.

    The theorems about a file of definitions are in the files that follow it, or in its own
    second part.  Definitions keep the names of the code.

    ** State, concurrency and errors

    A Go int is a [Z]; where a wrap-around can matter, [i64], [u64] or [i32] is written
    out.  A method is a function from the state before to the state after; a section
    under a mutex is one such function, and components that several goroutines enter have
    a step relation over those functions (MemoryQueue.step, PartitionBatcher.step,
    PersistentQueueSpec's steps, MultiBatcher.mstep, BatchProcessor.consume_step): a run interleaves producers,
    consumers, timers, workers, cancellations, shutdowns and, for the persistent queue,
    crashes, in any order.  The shard of the batch processor and the status reporter are
    one goroutine or one mutex, so their runs are sequences of events.  Consumers share
    telemetry objects, so [ConsumeTraces] runs on a store of objects with their states and
    reference counts; slices share arrays, so PCommon has a heap of arrays and of the
    variables that hold slices.  Data that MarshalProfiles or MergeTo changes in place is
    one of their results.  Building a graph is a function of the settings, whose factories are
    functions that may fail; starting and stopping produce the [script] of the actions the
    components see and the error returned.  The collector is a function from what the
    outside does (configurations, signals, fatal errors) to a trace, except the race of
    Collector.FatalError and that of the watcher channel, which are step relations.  A nil
    error is [None].  A panic or a block for ever is [None] of an outer option.

    ** Interfaces

    Code that is not under src, and the parts of pdata that are generated, are classes
    whose laws state what the code relies on: [MultiErr], [StorageClient] (with
    [ReliableStorage]: a client that reports no error does what it was asked to),
    [MetadataCodec] and [Encoding] (decoding inverts encoding), [PData] (opaque resources,
    scopes and items, with sizes that are not negative), [DirectedGraph] (with
    [DirectedGraphLaws]: Sort returns an order of an acyclic graph and otherwise cycles can
    be listed), [UnicodeTables] (the classes of characters a name may have), [Versions]
    (parsing and comparing version strings), [RequestEnvironment] (the context, addresses and
    span contexts of a request), [LRU] (the cache of the multi batcher), [FileSystem] (the files of /proc and of cgroups), [KoanfMaps], [Koanf] and [YAML] (configuration trees, globs
    and YAML), [Grpc] (with [GrpcLaws]: a wrapped status keeps its code and
    details).  The provider of a value may answer every call differently, and RequestProto's
    tracesEncoding is the concrete [Encoding] of the persistent queue.  Each has a concrete
    instance, on which the witnesses evaluate.  Interfaces between the components are classes too: the
    generic merge and split is proved against [SignalItems], [SignalSizes] and
    [SignalCounts], which the three signals discharge; the batcher is proved against
    [MergeableLaws], which PartitionBatcherSystem discharges for the requests of any
    signal; the batch processor's shard is proved against [BatchDataLaws], which the
    three signals discharge in BatchProcessorSplit.  A stored request is proved against
    [WireLaws] (a message is a codec) and [SignalData] and [SignalLaws] (what pb.go
    promises), which the files of the messages discharge; the tables of a dictionary of
    profiles are instances of [Table].

    ** What the theorems show

    - Persistent queue: a run, with crashes, refines an abstract queue that never loses
      an accepted request; delivery is first in, first out; the storage client is closed
      once, after its last use.
    - Memory queue: bounds, order, delivery of the result of the right request, balanced
      references, progress of cancelled waiters, and a reachable deadlock.
    - Merge and split: no item is lost, duplicated or moved to another resource or scope;
      limits hold; splitting by count gives exact chunks; and cases in which a byte limit
      drops data or is exceeded.  Requests of profiles keep their profiles and dictionary,
      but their sizes do not keep the limits.
    - Partition batcher: every request is completed exactly once, with an error exactly
      when a part of it failed; no batch is forgotten; no item is lost; partition keys
      separate clients when keys have one value, and collide when they have several.
    - Multi batcher: each partition's part of a run is a run of a partition batcher on its
      requests; and deadlocks of evictions and of the shutdown.
    - Configuration: what validation promises to the components.
    - Retry: what is retried, with which request, for how long, and what is returned.
    - Status: announced events are paths of the life cycle.
    - Memory limiter: limits do not wrap, refusals follow the last reading, GCs are spaced;
      a path of a cgroup is found below its mount only, and the total memory is the quota of
      the process or that of the host, but for pages of 64 KiB.
    - Wire format: varints round-trip, parsing is memory safe and ends, groups are not
      skipped.
    - Graph: Build succeeds exactly under the stated conditions on the settings, each failure
      has its reason, and the consumers it builds deliver to the components the
      configuration names, with the capabilities of everything downstream.
    - Fan-out: sharing and cloning are unobservable: each consumer gets the data as it was
      sent, whatever the others do with it; with pooling, freed data can be delivered.
    - Life cycle: a component starts after what it sends to and stops before it, all are
      stopped even when some fail, statuses follow, extensions start after the extensions
      they depend on, at most one service runs, and a fatal error is received or blocks.
    - Configuration of the collector: validation accepts exactly the valid configurations,
      maps of factories are exact, and an accepted configuration builds, or fails only for
      a connector or a factory; service.New cleans up after a failure.
    - Identifiers and feature gates: printing and parsing round-trip, stages bound what a
      flag can change.
    - Messages: writing takes exactly SizeProto bytes, reading gives back every field; any
      bytes are read without a panic into values of the Go types; a stored request is
      restored with its context; an OTLP hop delivers what was sent.
    - Values, maps and slices: raw values round-trip, maps with distinct keys are finite
      maps, Equal is an equivalence on values without NaN, a copy shares the bytes of its
      source.
    - Profiles: strings go to the table and come back; merging keeps what indices lead to.
    - Configuration maps: every retrieved value is closed once; expansion ends in a value
      without references; escaped text is literal; merged lists keep order and are without
      repetitions; two changes during a close block it for ever; validation is complete.
    - Shared components: started and stopped once, and no status source misses a later event.
    - Errors between collectors: a permanent error stays permanent and another retryable over
      any chain of gRPC and HTTP; the two protocols classify codes alike, but for throttling.
    - Batch processor: every item is exported once and in order, in bounded batches; the
      number of shards is bounded; a race refuses data of an existing shard; a split
      drops the metadata of a metric.

    ** Fuel

    Loops that are not structural take fuel, and running out of it is [None], which the
    theorems exclude.  Batch.split: an extraction the loop goes on after takes an item,
    so the item count plus one is enough (splitLoop_total; profiles_splitLoop_conserves, with samples).  BatchProcessor.processItem:
    every round sends an item.  PersistentQueue.Read: the distance of the indexes
    (readLoop_total).  ProtoWire: nine rounds write a uint64, ten read one, and the loop
    of ConsumeUnknown consumes a byte per round, as do unmarshalLoop and unmarshalAnyValue,
    whose nested values are shorter (unmarshalAnyValue_fuel), and consumeVarints.  findURI: what remains after a
    bracket is shorter (rounds_enough).  expandValueRecursively: the 1000 rounds of the code.
    RetrySender.SendLoop is structural on the waits of its environment.

    ** Not modelled

    The telemetry providers that service.New makes and the zPages handlers, the decoding of
    configuration maps into structures and back (mapstructure), JSON and AsString, the pools
    of messages, and the API's wrappers of single messages.  A negative zero in a field of
    metrics that is left out when it is zero is not read back: [plain_double] excludes it.
    The order in which a range loop visits a
    configuration map is that of the entries of the map, any order, but the same in every
    round of an expansion.  Logging, metrics and trace links, the servers and
    clients of receivers and exporters, generated code and the code generators are outside
    what the kernel can check here: they are I/O, calls into third-party code, or templates. *)

From stdpp Require Export prelude gmap strings list pretty.
From Stdlib Require Export ZArith Lia.

#[global] Open Scope Z_scope.

(** ** Go's fixed-width integers, kept as [Z] with explicit wrap-around *)

Definition u64 (z : Z) : Z := z mod 2 ^ 64.
Definition i64 (z : Z) : Z := (z + 2 ^ 63) mod 2 ^ 64 - 2 ^ 63.
Definition u32 (z : Z) : Z := z mod 2 ^ 32.
Definition i32 (z : Z) : Z := (z + 2 ^ 31) mod 2 ^ 32 - 2 ^ 31.

Lemma u64_id z : 0 <= z < 2 ^ 64 -> u64 z = z.
Proof. intros; unfold u64; apply Z.mod_small; lia. Qed.

Lemma u64_range z : 0 <= u64 z < 2 ^ 64.
Proof. unfold u64; apply Z.mod_pos_bound; lia. Qed.

Lemma u64_nonneg z : 0 <= u64 z.
Proof. apply u64_range. Qed.

Lemma i64_id z : - 2 ^ 63 <= z < 2 ^ 63 -> i64 z = z.
Proof. intros; unfold i64; rewrite Z.mod_small; lia. Qed.

Lemma i64_range z : - 2 ^ 63 <= i64 z < 2 ^ 63.
Proof. unfold i64; pose proof (Z.mod_pos_bound (z + 2 ^ 63) (2 ^ 64)); lia. Qed.

(** ** Sums over lists *)

Fixpoint sum_of {A} (f : A -> Z) (l : list A) : Z :=
  match l with [] => 0 | x :: l => f x + sum_of f l end.

Lemma sum_of_app {A} (f : A -> Z) l k : sum_of f (l ++ k) = sum_of f l + sum_of f k.
Proof. induction l as [|a l IH]; simpl; lia. Qed.

Lemma sum_of_nonneg {A} (f : A -> Z) l : (forall a, 0 <= f a) -> 0 <= sum_of f l.
Proof. intros Hf. induction l as [|a l IH]; simpl; [|specialize (Hf a)]; lia. Qed.

Lemma sum_of_nonneg_in {A} (f : A -> Z) l : (forall a, a ∈ l -> 0 <= f a) -> 0 <= sum_of f l.
Proof.
  induction l as [|a l IH]; intros Hf; simpl; [lia|].
  pose proof (Hf a ltac:(by left)). pose proof (IH (fun x Hx => Hf x ltac:(by right))). lia.
Qed.

Lemma sum_of_ext {A} (f g : A -> Z) l : (forall a, f a = g a) -> sum_of f l = sum_of g l.
Proof. intros Hf. induction l as [|a l IH]; simpl; [|rewrite Hf]; lia. Qed.

Lemma sum_of_length {A B} (f : A -> list B) l :
  sum_of (fun a => Z.of_nat (length (f a))) l = Z.of_nat (length (concat (f <$> l))).
Proof. induction l as [|a l IH]; simpl; [done|]. rewrite length_app, Nat2Z.inj_add, IH. done. Qed.

Lemma sum_of_const {A} (f : A -> Z) l c : (forall a, f a = c) -> sum_of f l = c * Z.of_nat (length l).
Proof. intros Hf. induction l as [|a l IH]; cbn [length sum_of]; rewrite ?Hf; lia. Qed.

Lemma sum_of_insert {A} (f : A -> Z) l i x y :
  l !! i = Some x -> sum_of f (<[i := y]> l) = sum_of f l - f x + f y.
Proof.
  revert i. induction l as [|a l IH]; intros [|i]; simpl; intros; simplify_eq; [lia|].
  rewrite (IH i) by done. lia.
Qed.

Lemma sum_of_delete {A} (f : A -> Z) l i x :
  l !! i = Some x -> sum_of f (delete i l) = sum_of f l - f x.
Proof.
  revert i. induction l as [|a l IH]; intros [|i]; simpl; intros; simplify_eq; [lia|].
  rewrite (IH i) by done. lia.
Qed.

Lemma sum_of_perm {A} (f : A -> Z) l k : l ≡ₚ k -> sum_of f l = sum_of f k.
Proof. induction 1; simpl; lia. Qed.

Lemma sum_of_fmap {A B} (f : B -> Z) (g : A -> B) l : sum_of f (g <$> l) = sum_of (fun a => f (g a)) l.
Proof. induction l as [|a l IH]; [done|]. rewrite fmap_cons. simpl. by rewrite IH. Qed.

(** The number of occurrences of [x]. *)
Definition occ {A} `{EqDecision A} (x : A) (l : list A) : Z :=
  sum_of (fun y => if decide (y = x) then 1 else 0) l.

Section occ.
Context {A : Type} `{EqDecision A}.

Lemma occ_nil x : occ (A := A) x [] = 0.
Proof. done. Qed.
Lemma occ_cons x y l : occ x (y :: l) = (if decide (y = x) then 1 else 0) + occ (A := A) x l.
Proof. done. Qed.
Lemma occ_app x l k : occ (A := A) x (l ++ k) = occ x l + occ x k.
Proof. apply sum_of_app. Qed.
Lemma occ_perm x l k : l ≡ₚ k -> occ (A := A) x l = occ x k.
Proof. apply sum_of_perm. Qed.
Lemma occ_nonneg x l : 0 <= occ (A := A) x l.
Proof. apply sum_of_nonneg. intros a. case_decide; lia. Qed.
Lemma occ_notin x l : x ∉ l -> occ (A := A) x l = 0.
Proof.
  induction l as [|y l IH]; intros Hx; [done|]. apply not_elem_of_cons in Hx as [Hxy Hx].
  rewrite occ_cons, decide_False by congruence. by rewrite IH.
Qed.
Lemma occ_pos x l : x ∈ l -> 1 <= occ (A := A) x l.
Proof.
  induction l as [|y l IH]; intros Hx; [by apply elem_of_nil in Hx|]. rewrite occ_cons.
  pose proof (occ_nonneg x l). apply elem_of_cons in Hx as [->|Hx]; [rewrite decide_True by done; lia|].
  specialize (IH Hx). case_decide; lia.
Qed.
Lemma occ_replicate x y n : occ (A := A) x (replicate n y) = if decide (y = x) then Z.of_nat n else 0.
Proof. induction n as [|n IH]; [by case_decide|]. cbn [replicate]. rewrite occ_cons, IH. case_decide; lia. Qed.
End occ.

(** ** Loops over a list with a state *)

Definition traverse {X Y S} (f : X -> S -> Y * S) : list X -> S -> list Y * S :=
  fix go l s :=
    match l with
    | [] => ([], s)
    | x :: l => let '(y, s) := f x s in let '(l, s) := go l s in (y :: l, s)
    end.
Definition traverseM {X Y S} (f : X -> S -> option (Y * S)) : list X -> S -> option (list Y * S) :=
  fix go l s :=
    match l with
    | [] => Some ([], s)
    | x :: l => '(y, s) ← f x s; '(l, s) ← go l s; Some (y :: l, s)
    end.

(** ** Automation

    [go] holds the facts about machine integers, sums and multiplicities that close side
    conditions; [passes] walks through the guards of a validation whose result is no
    error; [flat_perm] compares concatenations over the batches or machines of a state up
    to order. *)

Create HintDb go.
#[export] Hint Resolve u64_range u64_nonneg i64_range occ_nonneg sum_of_nonneg : go.

Ltac passes := repeat (case_decide; [done|]).

Ltac flat_perm := rewrite ?fmap_app, ?concat_app; simpl; rewrite ?app_nil_r; solve_Permutation.
