(* ===== verification/GoErrors.v ===== *)
(** * GoErrors: Go error values and the error kinds the collector defines

    [error] is a Go error value as the modelled code builds it: [errors.New],
    [fmt.Errorf] with one [%w], and the wrapper types of
    consumer/consumererror/permanent.go and downstream.go, exporterhelper/internal/experr/err.go and
    exporterhelper/internal/retry_sender.go.  A nil error is [None] of
    [option error].  [errors.Is] / [errors.As] walk the [Unwrap] chain. *)

From S2P Require Import Prelude.

Inductive error :=
| ErrNew (msg : string)
| ErrWrap (msg : string) (err : error)
| permanent (err : error)
| shutdownErr (err : error)
| throttleRetry (err : error) (delay : Z)
| downstreamError (inner : error)
| joined (err1 err2 : error).

#[export] Instance error_eq_dec : EqDecision error.
Proof. solve_decision. Defined.

#[export] Instance error_inhabited : Inhabited error := populate (ErrNew "").

(** The [Unwrap] method of each error type. *)
Definition Unwrap (e : error) : option error :=
  match e with
  | ErrNew _ | joined _ _ => None
  | ErrWrap _ err | permanent err | shutdownErr err | throttleRetry err _ | downstreamError err => Some err
  end.

(** The first error of the tree that [Unwrap] spans on which [p] answers. *)
Fixpoint errors_As {A} (p : error -> option A) (e : error) : option A :=
  match p e with
  | Some a => Some a
  | None =>
      match e with
      | ErrNew _ => None
      | ErrWrap _ err | permanent err | shutdownErr err | throttleRetry err _
      | downstreamError err =>
          errors_As p err
      | joined err1 err2 =>
          match errors_As p err1 with
          | Some a => Some a
          | None => errors_As p err2
          end
      end
  end.

Definition errors_Is (e target : error) : bool :=
  match errors_As (fun x => if decide (x = target) then Some tt else None) e with
  | Some _ => true
  | None => false
  end.

(** errors.Join of two errors. *)
Definition errors_Join (err1 err2 : error) : error := joined err1 err2.

(** consumererror.NewPermanent / IsPermanent. *)
Definition NewPermanent (err : error) : error := permanent err.

Definition IsPermanent (err : option error) : bool :=
  match err with
  | None => false
  | Some e =>
      match errors_As (fun x => match x with permanent _ => Some tt | _ => None end) e with
      | Some _ => true
      | None => false
      end
  end.

(** experr.NewShutdownErr / IsShutdownErr. *)
Definition NewShutdownErr (err : error) : error := shutdownErr err.

Definition IsShutdownErr (err : option error) : bool :=
  match err with
  | None => false
  | Some e =>
      match errors_As (fun x => match x with shutdownErr _ => Some tt | _ => None end) e with
      | Some _ => true
      | None => false
      end
  end.

(** consumererror.NewDownstream / IsDownstream. *)
Definition NewDownstream (err : error) : error := downstreamError err.

Definition IsDownstream (err : error) : bool :=
  match errors_As (fun x => match x with downstreamError _ => Some tt | _ => None end) err with
  | Some _ => true
  | None => false
  end.

(** NewThrottleRetry and the [errors.As(err, &throttleErr)] of retrySender.Send. *)
Definition NewThrottleRetry (err : error) (delay : Z) : error := throttleRetry err delay.

Definition AsThrottleRetry (err : error) : option Z :=
  errors_As (fun x => match x with throttleRetry _ d => Some d | _ => None end) err.

(** go.uber.org/multierr is third-party code: [Append] is an interface with the
    part of its documentation the collector relies on. *)
Class MultiErr := { multierr_Append : option error -> option error -> option error }.

Class MultiErrLaws `{MultiErr} := {
  multierr_nil_l : forall e, multierr_Append None e = e;
  multierr_nil_r : forall e, multierr_Append e None = e;
  multierr_some : forall e1 e2, multierr_Append e1 e2 = None <-> e1 = None /\ e2 = None;
}.

(** A concrete instance for evaluation: keep the first error and note the rest. *)
Definition multierr_first : MultiErr := {|
  multierr_Append e1 e2 :=
    match e1, e2 with
    | None, _ => e2
    | _, None => e1
    | Some a, Some b => Some (ErrWrap "; " a)
    end |}.

Lemma multierr_first_laws : @MultiErrLaws multierr_first.
Proof.
  constructor; [done | by intros [] | ].
  intros [] []; simpl; split; try done; by intros [??].
Qed.

Lemma errors_As_wrap {A} (p : error -> option A) msg e :
  p (ErrWrap msg e) = None -> errors_As p (ErrWrap msg e) = errors_As p e.
Proof. intros Hp. simpl. by rewrite Hp. Qed.

Lemma errors_Is_refl e : errors_Is e e = true.
Proof. unfold errors_Is. destruct e; simpl; by rewrite decide_True. Qed.
