(* ===== verification/Storage.v ===== *)
(** * Storage: the storage.Client interface of extension/xextension/storage

    The client behind a persistent queue is chosen at run time (file storage, a
    database, the in-memory mock), so it is an interface: the operations are the
    class [StorageClient], and what extension/xextension/storage/storage.go documents
    of every client ("this mirrors the behavior of a golang map") and of a client that
    meets no storage problem is [ReliableStorage].  [MemStorage], a map in memory, is the
    instance the witnesses evaluate. *)

From S2P Require Import Prelude.
From S2P Require Import GoErrors.

Abbreviation bytes := (list Z).

Inductive OpType := Get | Set_ | Delete.

#[export] Instance OpType_eq_dec : EqDecision OpType.
Proof. solve_decision. Defined.

(** A Go []byte value: [None] is the nil slice. *)
Record Operation := mkOperation {
  op_Key : string;
  op_Value : option bytes;
  op_Type : OpType;
}.

Definition SetOperation (key : string) (value : option bytes) : Operation :=
  mkOperation key value Set_.
Definition GetOperation (key : string) : Operation := mkOperation key None Get.
Definition DeleteOperation (key : string) : Operation := mkOperation key None Delete.

(** The operations of a client over its own state [ST].  The pointers to
    [Operation]s a [Batch] mutates are returned with their new values. *)
Class StorageClient (ST : Type) := {
  client_Get : ST -> string -> ST * (option bytes * option error);
  client_Set : ST -> string -> option bytes -> ST * option error;
  client_Batch : ST -> list Operation -> ST * (list Operation * option error);
  client_Close : ST -> ST * option error;
}.

(** ** The documented meaning: a map from keys to values *)

Abbreviation storage_map := (gmap string (option bytes)).

Definition op_step (op : Operation) (m : storage_map) : storage_map * Operation :=
  match op_Type op with
  | Get =>
      (m, match m !! op_Key op with
          | None => op
          | Some v => mkOperation (op_Key op) v Get
          end)
  | Set_ => (<[op_Key op := op_Value op]> m, op)
  | Delete => (delete (op_Key op) m, op)
  end.

Fixpoint batch_map (ops : list Operation) (m : storage_map) : storage_map * list Operation :=
  match ops with
  | [] => (m, [])
  | op :: rest =>
      let '(m1, op') := op_step op m in
      let '(m2, rest') := batch_map rest m1 in
      (m2, op' :: rest')
  end.

(** What a client that does not fail must do, and that it does not fail. *)
Class ReliableStorage (ST : Type) `{StorageClient ST} (view : ST -> storage_map) := {
  batch_spec : forall st ops,
    exists st', client_Batch st ops = (st', (snd (batch_map ops (view st)), None)) /\
                view st' = fst (batch_map ops (view st));
  get_spec : forall st k,
    exists st', client_Get st k = (st', (default None (view st !! k), None)) /\
                view st' = view st;
  set_spec : forall st k v,
    exists st', client_Set st k v = (st', None) /\ view st' = <[k := v]> (view st);
  close_spec : forall st,
    exists st' err, client_Close st = (st', err) /\ view st' = view st;
}.

(** ** A client that keeps the map in memory *)

Record MemStorage := mkMem { st : storage_map; closed : bool }.

Definition Mem_Batch (m : MemStorage) (ops : list Operation)
  : MemStorage * (list Operation * option error) :=
  let '(st', ops') := batch_map ops (st m) in
  (mkMem st' (closed m), (ops', None)).

Definition Mem_Get (m : MemStorage) (s : string)
  : MemStorage * (option bytes * option error) :=
  let '(m', (ops, err)) := Mem_Batch m [GetOperation s] in
  (m', (match ops with op :: _ => op_Value op | [] => None end, err)).

Definition Mem_Set (m : MemStorage) (s : string) (bs : option bytes)
  : MemStorage * option error :=
  let '(m', (_, err)) := Mem_Batch m [SetOperation s bs] in (m', err).

Definition Mem_Close (m : MemStorage) : MemStorage * option error :=
  (mkMem (st m) true, None).

#[export] Instance Mem_client : StorageClient MemStorage := {|
  client_Get := Mem_Get;
  client_Set := Mem_Set;
  client_Batch := Mem_Batch;
  client_Close := Mem_Close;
|}.

#[export] Instance Mem_reliable : ReliableStorage MemStorage st.
Proof.
  split.
  - intros m ops. simpl. unfold Mem_Batch.
    destruct (batch_map ops (st m)) as [st' ops'] eqn:E. simpl. eauto.
  - intros m k. simpl. unfold Mem_Get, Mem_Batch. simpl.
    destruct (st m !! k) as [v|] eqn:E; simpl; eexists; split; try done; by destruct m.
  - intros m k v. simpl. eauto.
  - intros m. simpl. eauto.
Qed.
