(* ===== verification/Request.v ===== *)
(** * Request: exporterhelper/internal/request — requests and their sizers *)

From S2P Require Import Prelude.
From S2P Require Import GoErrors.

(** The part of the [Request] interface the queues use (request.go). *)
Class Request (T : Type) := {
  ItemsCount : T -> Z;
  BytesSize : T -> Z;
}.

(** SizerType is a struct around its name, so values other than the three
    constants exist (the zero value has an empty name). *)
Record SizerType := mkSizerType { val : string }.

#[export] Instance SizerType_eq_dec : EqDecision SizerType.
Proof. solve_decision. Defined.

Definition sizerTypeBytes : string := "bytes".
Definition sizerTypeItems : string := "items".
Definition sizerTypeRequests : string := "requests".

Definition SizerTypeBytes : SizerType := mkSizerType sizerTypeBytes.
Definition SizerTypeItems : SizerType := mkSizerType sizerTypeItems.
Definition SizerTypeRequests : SizerType := mkSizerType sizerTypeRequests.

Definition UnmarshalText (text : string) : SizerType + error :=
  if decide (text = sizerTypeItems) then inl SizerTypeItems
  else if decide (text = sizerTypeBytes) then inl SizerTypeBytes
  else if decide (text = sizerTypeRequests) then inl SizerTypeRequests
  else inr (ErrNew ("invalid sizer: " ++ text)).

Definition MarshalText (s : SizerType) : string := val s.

Inductive Sizer := RequestsSizer | itemsSizer | bytesSizer.

Definition NewSizer (sizerType : SizerType) : Sizer :=
  if decide (sizerType = SizerTypeBytes) then bytesSizer
  else if decide (sizerType = SizerTypeItems) then itemsSizer
  else RequestsSizer.

Definition Sizeof {T} `{Request T} (s : Sizer) (req : T) : Z :=
  match s with
  | RequestsSizer => 1
  | itemsSizer => ItemsCount req
  | bytesSizer => BytesSize req
  end.
