(* ===== verification/PersistentQueue.v ===== *)
(** * PersistentQueue: exporterhelper/internal/queue/persistent_queue.go

    The queue that stores its requests and its metadata through a storage.Client.
    Every method that takes the mutex is one function from the state to the new
    state and its result; a method that waits on a condition variable returns the
    state at the point where it releases the mutex ([OfferWait], [RdWait]) and runs
    again from its loop head when it is woken.  Log calls are left out. *)

From S2P Require Import Prelude.
From S2P Require Import GoErrors.
From S2P Require Import Storage.
From S2P Require Import Request.

Definition legacyReadIndexKey : string := "ri".
Definition legacyWriteIndexKey : string := "wi".
Definition legacyCurrentlyDispatchedItemsKey : string := "di".
Definition metadataKey : string := "qmv0".

Definition errValueNotSet : error := ErrNew "value not set".
Definition errInvalidValue : error := ErrNew "invalid value".
Definition errNoStorageClient : error := ErrNew "no storage client extension found".
Definition errWrongExtensionType : error := ErrNew "requested extension is not a storage extension".
Definition ErrQueueIsFull : error := ErrNew "sending queue is full".

(** message PersistentMetadata of meta.proto. *)
Record PersistentMetadata := mkMetadata {
  ItemsSize : Z;
  BytesSize' : Z;
  ReadIndex : Z;
  WriteIndex : Z;
  CurrentlyDispatchedItems : list Z;
}.

#[export] Instance PersistentMetadata_eq_dec : EqDecision PersistentMetadata.
Proof. solve_decision. Defined.

Definition zeroMetadata : PersistentMetadata := mkMetadata 0 0 0 0 [].

Definition set_sizes (items bytes : Z) (m : PersistentMetadata) : PersistentMetadata :=
  mkMetadata items bytes (ReadIndex m) (WriteIndex m) (CurrentlyDispatchedItems m).
Definition set_ReadIndex (i : Z) (m : PersistentMetadata) : PersistentMetadata :=
  mkMetadata (ItemsSize m) (BytesSize' m) i (WriteIndex m) (CurrentlyDispatchedItems m).
Definition set_WriteIndex (i : Z) (m : PersistentMetadata) : PersistentMetadata :=
  mkMetadata (ItemsSize m) (BytesSize' m) (ReadIndex m) i (CurrentlyDispatchedItems m).
Definition set_Dispatched (l : list Z) (m : PersistentMetadata) : PersistentMetadata :=
  mkMetadata (ItemsSize m) (BytesSize' m) (ReadIndex m) (WriteIndex m) l.

(** google.golang.org/protobuf on [PersistentMetadata]. *)
Class MetadataCodec := {
  proto_Marshal : PersistentMetadata -> bytes + error;
  proto_Unmarshal : bytes -> PersistentMetadata + error;
}.

(** The [Encoding] interface of queue.go. *)
Class Encoding (Ctx T : Type) := {
  encoding_Marshal : Ctx -> T -> bytes + error;
  encoding_Unmarshal : option bytes -> (Ctx * T) + error;
}.

(** The wake-ups a method sends to the two condition variables, oldest first. *)
Inductive wakeup := MoreElements | AllMoreElements | MoreSpace.

Record Config := mkConfig {
  capacity : Z;
  sizerType : SizerType;
  blockOnOverflow : bool;
}.

(** The fields guarded by [mu], with the client. *)
Record persistentQueue (ST : Type) := mkQueue {
  client : ST;
  metadata : PersistentMetadata;
  refClient : Z;
  stopped : bool;
  wakeups : list wakeup;
}.
Arguments mkQueue {ST} _ _ _ _ _.
Arguments client {ST} _.
Arguments metadata {ST} _.
Arguments refClient {ST} _.
Arguments stopped {ST} _.
Arguments wakeups {ST} _.

Record indexDone := mkIndexDone { index : Z; itemsSize : Z; bytesSize : Z }.

Inductive offer_result := OfferReturn (err : option error) | OfferWait.

Inductive read_result (Ctx T : Type) :=
| RdItem (ctx : Ctx) (req : T) (id : indexDone)
| RdStopped
| RdWait.
Arguments RdItem {Ctx T} _ _ _.
Arguments RdStopped {Ctx T}.
Arguments RdWait {Ctx T}.

Definition getItemKey (index : Z) : string := pretty (Z.to_N index).

(** binary.LittleEndian.Uint64 / Uint32 on the first bytes of a buffer. *)
Fixpoint le_uint (n : nat) (buf : bytes) : Z :=
  match n, buf with
  | S n', b :: rest => b + 256 * le_uint n' rest
  | _, _ => 0
  end.

Definition bytesToItemIndex (buf : option bytes) : Z + error :=
  match buf with
  | None => inr errValueNotSet
  | Some b =>
      if decide ((length b < 8)%nat) then inr errInvalidValue
      else inl (le_uint 8 b)
  end.

Fixpoint read_indexes (size : nat) (buf : bytes) : list Z :=
  match size with
  | O => []
  | S n => le_uint 8 buf :: read_indexes n (drop 8 buf)
  end.

Definition bytesToItemIndexArray (buf : option bytes) : list Z + error :=
  let b := default [] buf in
  if decide (length b = 0%nat) then inl []
  else if decide ((length b < 4)%nat) then inr errInvalidValue
  else
    let size := le_uint 4 b in
    if decide (size = 0) then inl []
    else
      let b := drop 4 b in
      if decide (Z.of_nat (length b) < size * 8) then inr errInvalidValue
      else inl (read_indexes (Z.to_nat size) b).

(** The in-place removal of [itemDispatchingFinish]: the first entry equal to
    [index] is overwritten by the last one and the slice is cut by one. *)
Definition removeDispatched (index : Z) (cdi : list Z) : list Z :=
  let lenCDI := length cdi in
  match list_find (eq index) cdi with
  | Some (i, _) =>
      take (lenCDI - 1) (<[i := default 0 (cdi !! (lenCDI - 1)%nat)]> cdi)
  | None => cdi
  end.

(** host.GetExtensions() as the queue sees it: an extension either is a
    storage.Extension, with its GetClient, or something else. *)
Inductive extension (ST : Type) :=
| StorageExtension (GetClient : ST + error)
| OtherExtension.
Arguments StorageExtension {ST} _.
Arguments OtherExtension {ST}.

Definition toStorageClient {ST} (storageID : string) (host : gmap string (extension ST))
  : ST + error :=
  match host !! storageID with
  | None => inr errNoStorageClient
  | Some OtherExtension => inr errWrongExtensionType
  | Some (StorageExtension client) => client
  end.

Section queue.
Context {Ctx T ST : Type}.
Context `{Request T} `{MetadataCodec} `{Encoding Ctx T} `{StorageClient ST}.
Context (cfg : Config).

Abbreviation pq := (persistentQueue ST).

Definition set_client (c : ST) (q : pq) : pq :=
  mkQueue c (metadata q) (refClient q) (stopped q) (wakeups q).
Definition set_metadata (m : PersistentMetadata) (q : pq) : pq :=
  mkQueue (client q) m (refClient q) (stopped q) (wakeups q).
Definition set_refClient (n : Z) (q : pq) : pq :=
  mkQueue (client q) (metadata q) n (stopped q) (wakeups q).
Definition wake (w : wakeup) (q : pq) : pq :=
  mkQueue (client q) (metadata q) (refClient q) (stopped q) (wakeups q ++ [w]).

(** newPersistentQueue, before Start has given it a client. *)
Definition newPersistentQueue (c : ST) : pq := mkQueue c zeroMetadata 0 false [].

Definition requestSize (q : pq) : Z :=
  i64 (i64 (u64 (WriteIndex (metadata q) - ReadIndex (metadata q)))
       + Z.of_nat (length (CurrentlyDispatchedItems (metadata q)))).

Definition internalSize (q : pq) : Z :=
  if decide (sizerType cfg = SizerTypeBytes) then BytesSize' (metadata q)
  else if decide (sizerType cfg = SizerTypeItems) then ItemsSize (metadata q)
  else requestSize q.

Definition Size (q : pq) : Z := internalSize q.
Definition Capacity : Z := capacity cfg.

Definition unrefClient (q : pq) : pq * option error :=
  let q := set_refClient (refClient q - 1) q in
  if decide (refClient q = 0) then
    let '(c, err) := client_Close (client q) in (set_client c q, err)
  else (q, None).

(** [None] is a queue whose client is nil: Start was never called. *)
Definition Shutdown (q : option pq) : option pq * option error :=
  match q with
  | None => (None, None)
  | Some q =>
      let q := mkQueue (client q) (metadata q) (refClient q) true (wakeups q) in
      let q := wake AllMoreElements q in
      let '(q, err) := unrefClient q in (Some q, err)
  end.

Definition putInternal (ctx : Ctx) (req : T) (q : pq) : pq * option error :=
  let q := set_metadata (set_WriteIndex (u64 (WriteIndex (metadata q) + 1)) (metadata q)) q in
  match proto_Marshal (metadata q) with
  | inr err => (q, Some err)
  | inl metadataBuf =>
      match encoding_Marshal ctx req with
      | inr err => (q, Some err)
      | inl reqBuf =>
          let ops := [SetOperation metadataKey (Some metadataBuf);
                      SetOperation (getItemKey (u64 (WriteIndex (metadata q) - 1))) (Some reqBuf)] in
          let '(c, (_, err)) := client_Batch (client q) ops in
          let q := set_client c q in
          match err with
          | Some err => (q, Some err)
          | None => (wake MoreElements q, None)
          end
      end
  end.

(** One pass of the loop of Offer. *)
Definition Offer (ctx : Ctx) (req : T) (q : pq) : pq * offer_result :=
  let size := Sizeof (NewSizer (sizerType cfg)) req in
  if decide (i64 (internalSize q + size) > capacity cfg) then
    if negb (blockOnOverflow cfg) then (q, OfferReturn (Some ErrQueueIsFull))
    else (q, OfferWait)
  else
    let m := metadata q in
    let q := set_metadata (set_sizes (i64 (ItemsSize m + Sizeof itemsSizer req))
                                     (i64 (BytesSize' m + Sizeof bytesSizer req)) m) q in
    let '(q, err) := putInternal ctx req q in (q, OfferReturn err).

(** "Ensure the used size are in sync when queue is drained." *)
Definition resetSizesIfDrained (q : pq) : pq :=
  if decide (requestSize q = 0) then set_metadata (set_sizes 0 0 (metadata q)) q else q.

Definition itemDispatchingFinish (index : Z) (q : pq) : pq * option error :=
  let m := metadata q in
  let q := set_metadata (set_Dispatched (removeDispatched index (CurrentlyDispatchedItems m)) m) q in
  let q := resetSizesIfDrained q in
  match proto_Marshal (metadata q) with
  | inr err => (q, Some err)
  | inl metadataBytes =>
      let setOp := SetOperation metadataKey (Some metadataBytes) in
      let deleteOp := DeleteOperation (getItemKey index) in
      let '(c, (_, err)) := client_Batch (client q) [setOp; deleteOp] in
      let q := set_client c q in
      match err with
      | None => (q, None)
      | Some _ =>
          let '(c, (_, err)) := client_Batch (client q) [deleteOp] in
          let q := set_client c q in
          match err with
          | Some err =>
              (q, Some (ErrWrap "failed deleting item from queue, got error from storage" err))
          | None =>
              let '(c, (_, err)) := client_Batch (client q) [setOp] in
              let q := set_client c q in
              match err with
              | Some err =>
                  (q, Some (ErrWrap "failed updating currently dispatched items, but deleted item successfully" err))
              | None => (q, None)
              end
          end
      end
  end.

(** [Some (index, req, ctx)] when an item was consumed. *)
Definition getNextItem (q : pq) : pq * option (Z * T * Ctx) :=
  let index := ReadIndex (metadata q) in
  let m := set_ReadIndex (u64 (ReadIndex (metadata q) + 1)) (metadata q) in
  let m := set_Dispatched (CurrentlyDispatchedItems m ++ [index]) m in
  let q := set_metadata m q in
  match proto_Marshal (metadata q) with
  | inr _ => (q, None)
  | inl metadataBytes =>
      let '(c, (ops, err)) :=
        client_Batch (client q)
          [SetOperation metadataKey (Some metadataBytes); GetOperation (getItemKey index)] in
      let q := set_client c q in
      let res :=
        match err with
        | Some err => inr err
        | None => encoding_Unmarshal (match ops with [_; getOp] => op_Value getOp | _ => None end)
        end in
      match res with
      | inr _ => let '(q, _) := itemDispatchingFinish index q in (q, None)
      | inl (restoredCtx, req) =>
          (set_refClient (refClient q + 1) q, Some (index, req, restoredCtx))
      end
  end.

(** The inner loop of Read, at most [fuel] items; [None]: out of fuel. *)
Fixpoint readLoop (fuel : nat) (q : pq) : option (pq * read_result Ctx T) :=
  if decide (ReadIndex (metadata q) = WriteIndex (metadata q)) then Some (q, RdWait)
  else
    match fuel with
    | O => None
    | S fuel =>
        let '(q, item) := getNextItem q in
        let q := resetSizesIfDrained q in
        match item with
        | Some (index, req, reqCtx) =>
            Some (q, RdItem reqCtx req
                       (mkIndexDone index (Sizeof itemsSizer req) (Sizeof bytesSizer req)))
        | None => readLoop fuel (wake MoreSpace q)
        end
    end.

(** One pass of the outer loop of Read: the distance from ReadIndex to WriteIndex
    (a uint64 difference) bounds the items it can skip. *)
Definition readFuel (q : pq) : nat :=
  Z.to_nat (u64 (WriteIndex (metadata q) - ReadIndex (metadata q))).

Definition Read (q : pq) : option (pq * read_result Ctx T) :=
  if stopped q then Some (q, RdStopped) else readLoop (readFuel q) q.

Definition onDone (id : indexDone) (consumeErr : option error) (q : pq) : pq :=
  let q :=
    if IsShutdownErr consumeErr then q
    else
      let bytes := i64 (BytesSize' (metadata q) - bytesSize id) in
      let bytes := if decide (bytes < 0) then 0 else bytes in
      let items := i64 (ItemsSize (metadata q) - itemsSize id) in
      let items := if decide (items < 0) then 0 else items in
      let q := set_metadata (set_sizes items bytes (metadata q)) q in
      let '(q, _) := itemDispatchingFinish (index id) q in
      wake MoreSpace q in
  fst (unrefClient q).

(** The requests found under the dispatched indexes go back to the queue. *)
Fixpoint putRetrieved (retrieveBatch : list Operation) (q : pq) : pq :=
  match retrieveBatch with
  | [] => q
  | op :: rest =>
      match op_Value op with
      | None => putRetrieved rest q
      | Some _ =>
          match encoding_Unmarshal (op_Value op) with
          | inr _ => putRetrieved rest q
          | inl (reqCtx, req) => putRetrieved rest (fst (putInternal reqCtx req q))
          end
      end
  end.

Definition enqueueNotDispatchedReqs (dispatchedItems : list Z) (q : pq) : pq :=
  match dispatchedItems with
  | [] => q
  | _ =>
      let retrieveBatch := map (fun it => GetOperation (getItemKey it)) dispatchedItems in
      let cleanupBatch := map (fun it => DeleteOperation (getItemKey it)) dispatchedItems in
      let '(c, (retrieveBatch, retrieveErr)) := client_Batch (client q) retrieveBatch in
      let '(c, (_, _)) := client_Batch c cleanupBatch in
      let q := set_client c q in
      match retrieveErr with
      | Some _ => q
      | None => putRetrieved retrieveBatch q
      end
  end.

Definition retrieveAndEnqueueNotDispatchedReqs (q : pq) : pq :=
  let '(c, (itemKeysBuf, err)) := client_Get (client q) legacyCurrentlyDispatchedItemsKey in
  let q := set_client c q in
  match err with
  | Some _ => q
  | None =>
      match bytesToItemIndexArray itemKeysBuf with
      | inr _ => q
      | inl dispatchedItems => enqueueNotDispatchedReqs dispatchedItems q
      end
  end.

Definition loadQueueMetadata (q : pq) : pq * option error :=
  let '(c, (buf, err)) := client_Get (client q) metadataKey in
  let q := set_client c q in
  match err with
  | Some err => (q, Some err)
  | None =>
      match default [] buf with
      | [] => (q, Some errValueNotSet)
      | b =>
          match proto_Unmarshal b with
          | inr err => (q, Some err)
          | inl m => (set_metadata m q, None)
          end
      end
  end.

Definition loadLegacyMetadata (q : pq) : pq :=
  let '(c, (ops, err)) :=
    client_Batch (client q) [GetOperation legacyReadIndexKey; GetOperation legacyWriteIndexKey] in
  let q := set_client c q in
  let '(riValue, wiValue) :=
    match ops with [riOp; wiOp] => (op_Value riOp, op_Value wiOp) | _ => (None, None) end in
  let indexes :=
    match err with
    | Some err => inr err
    | None =>
        match bytesToItemIndex riValue with
        | inr err => inr err
        | inl ri =>
            match bytesToItemIndex wiValue with
            | inr err => inr err
            | inl wi => inl (ri, wi)
            end
        end
    end in
  let '(ri, wi) := match indexes with inl p => p | inr _ => (0, 0) end in
  let q := set_metadata (set_WriteIndex wi (set_ReadIndex ri (metadata q))) q in
  let q := retrieveAndEnqueueNotDispatchedReqs q in
  match proto_Marshal (metadata q) with
  | inr _ => q
  | inl metadataBytes =>
      let '(c, err) := client_Set (client q) metadataKey (Some metadataBytes) in
      let q := set_client c q in
      match err with
      | Some _ => q
      | None =>
          let '(c, (_, _)) :=
            client_Batch (client q)
              [DeleteOperation legacyReadIndexKey; DeleteOperation legacyWriteIndexKey;
               DeleteOperation legacyCurrentlyDispatchedItemsKey] in
          set_client c q
      end
  end.

Definition initClient (q : pq) (c : ST) : pq :=
  let q := set_refClient 1 (set_client c q) in
  let '(q, err) := loadQueueMetadata q in
  match err with
  | None =>
      let q := enqueueNotDispatchedReqs (CurrentlyDispatchedItems (metadata q)) q in
      set_metadata (set_Dispatched [] (metadata q)) q
  | Some err =>
      if negb (errors_Is err errValueNotSet) then set_metadata zeroMetadata q
      else loadLegacyMetadata q
  end.

(** Start on a queue whose other fields are those of newPersistentQueue. *)
Definition Start (storageID : string) (host : gmap string (extension ST)) : pq + error :=
  match toStorageClient storageID host with
  | inr err => inr err
  | inl storageClient => inl (initClient (newPersistentQueue storageClient) storageClient)
  end.
End queue.
