(* ===== verification/PersistentQueueLemmas.v ===== *)
(** * PersistentQueueLemmas: facts about the persistent queue's methods that hold
    whatever the storage client and the codecs do; and the life of the storage client *)

From S2P Require Import Prelude.
From S2P Require Import GoErrors.
From S2P Require Import Storage.
From S2P Require Import Request.
From S2P Require Import PersistentQueue.

(** ** Item keys *)

Definition digit (a : Ascii.ascii) : Prop := (48 <= Ascii.N_of_ascii a < 58)%N.

Lemma pretty_N_char_digit x : digit (pretty_N_char x).
Proof.
  unfold digit. destruct x as [|p]; [by vm_compute|].
  do 5 (destruct p as [p|p|]; try by vm_compute).
Qed.

Lemma pretty_N_go_first x s :
  (0 < x)%N -> exists a s', pretty_N_go x s = String a s' /\ digit a.
Proof.
  revert s. induction (N.lt_wf_0 x) as [x _ IH]. intros s Hx.
  rewrite pretty_N_go_step by done.
  destruct (decide (x / 10 = 0)%N) as [->|Hne].
  - rewrite pretty_N_go_0. eauto using pretty_N_char_digit.
  - apply IH; [apply N.div_lt; lia | by apply N.neq_0_lt_0].
Qed.

Lemma getItemKey_not_legacy i k :
  (forall a s, k = String a s -> ~ digit a) -> getItemKey i <> k.
Proof.
  intros Hk Heq. unfold getItemKey, pretty, pretty_N in Heq.
  case_decide as Hz.
  - symmetry in Heq. apply (Hk _ _ Heq). by vm_compute.
  - destruct (pretty_N_go_first (Z.to_N i) "") as (a & s & Hs & Ha); [lia|].
    rewrite Hs in Heq. symmetry in Heq. by apply (Hk _ _ Heq).
Qed.

Lemma getItemKey_metadataKey i : getItemKey i <> metadataKey.
Proof.
  apply getItemKey_not_legacy. intros a s [= <- _]. unfold digit. vm_compute. intros [_ Hlt]. done.
Qed.

Lemma getItemKey_inj i j : 0 <= i -> 0 <= j -> getItemKey i = getItemKey j -> i = j.
Proof. unfold getItemKey. intros ?? Heq%(inj pretty). lia. Qed.

(** ** Removal from the dispatched list *)

Lemma removeDispatched_perm i l : i ∈ l -> i :: removeDispatched i l ≡ₚ l.
Proof.
  intros Hin. unfold removeDispatched.
  destruct (list_find (eq i) l) as [[k x]|] eqn:E.
  2: { apply list_find_None in E. rewrite Forall_forall in E. by destruct (E i). }
  apply list_find_Some in E as (Hk & <- & _).
  destruct l as [|z l' _] using rev_ind; [by rewrite lookup_nil in Hk|].
  rewrite length_app; simpl. replace (length l' + 1 - 1)%nat with (length l') by lia.
  rewrite list_lookup_middle by done. simpl.
  apply lookup_app_Some in Hk as [Hk|[Hlen Hk]].
  - rewrite insert_app_l by (by eapply lookup_lt_Some).
    rewrite take_app_length' by (by rewrite length_insert).
    apply list_elem_of_split_length in Hk as (l1 & l2 & -> & ->).
    rewrite insert_app_r_alt, Nat.sub_diag by done. simpl.
    rewrite <- Permutation_cons_append, <- !Permutation_middle. apply perm_swap.
  - apply list_lookup_singleton_Some in Hk as [Hk ->].
    assert (k = length l') as -> by lia.
    rewrite insert_app_r_alt, Nat.sub_diag by done. simpl.
    rewrite take_app_length. by rewrite Permutation_cons_append.
Qed.

Lemma removeDispatched_notin i l : i ∉ l -> removeDispatched i l = l.
Proof.
  intros Hin. unfold removeDispatched.
  destruct (list_find (eq i) l) as [[k x]|] eqn:E; [|done].
  apply list_find_Some in E as (Hk & <- & _). by apply list_elem_of_lookup_2 in Hk.
Qed.

(** ** What the methods leave alone, whatever the client does *)

Ltac pq_unfold :=
  repeat match goal with
    | |- context [client_Batch ?c ?ops] =>
        let E := fresh "Ebatch" in
        destruct (client_Batch c ops) as [? [??]] eqn:E; simpl
    | |- context [match proto_Marshal ?m with _ => _ end] => destruct (proto_Marshal m); simpl
    | |- context [match encoding_Marshal ?c ?r with _ => _ end] =>
        destruct (encoding_Marshal c r); simpl
    | |- context [match encoding_Unmarshal ?v with _ => _ end] =>
        destruct (encoding_Unmarshal v) as [[??]|]; simpl
    | |- context [match ?o with Some _ => _ | None => _ end] => destruct o; simpl
    | |- context [decide ?P] => destruct (decide P); simpl
    end.

Section frame.
Context {Ctx T ST : Type}.
Context `{Request T} `{MetadataCodec} `{Encoding Ctx T} `{StorageClient ST}.
Context (cfg : Config).
Abbreviation pq := (persistentQueue ST).

(** A property of the client state that every Batch preserves. *)
Context (P : ST -> Prop).
Context (P_batch : forall c ops, P c -> P (fst (client_Batch c ops))).

(** The fields a queue operation other than Shutdown and OnDone does not touch. *)
Definition frame (q q' : pq) : Prop :=
  stopped q' = stopped q /\ refClient q' = refClient q /\ (P (client q) -> P (client q')).

#[local] Instance frame_preorder : PreOrder frame.
Proof. split; [by intros ?|]. intros x y z (?&?&?) (?&?&?). split_and!; try congruence; eauto. Qed.

Lemma batch_frame c ops c' r : client_Batch c ops = (c', r) -> P c -> P c'.
Proof. intros E Hc. specialize (P_batch c ops Hc). by rewrite E in P_batch. Qed.

Lemma putInternal_frame ctx req q : frame q (fst (putInternal ctx req q)).
Proof.
  unfold putInternal, frame. simpl. pq_unfold; split_and!; eauto using batch_frame.
Qed.

Lemma Offer_frame ctx req q : frame q (fst (Offer cfg ctx req q)).
Proof.
  unfold Offer. case_decide; [destruct (negb _); by unfold frame|].
  match goal with |- context [putInternal ctx req ?q0] =>
    pose proof (putInternal_frame ctx req q0); destruct (putInternal ctx req q0) end.
  done.
Qed.

Lemma resetSizes_frame q : frame q (resetSizesIfDrained q).
Proof. unfold resetSizesIfDrained. case_decide; by unfold frame. Qed.

Lemma itemDispatchingFinish_frame i q : frame q (fst (itemDispatchingFinish i q)).
Proof.
  unfold itemDispatchingFinish.
  match goal with |- context [resetSizesIfDrained ?q0] =>
    pose proof (resetSizes_frame q0); destruct (resetSizesIfDrained q0) end.
  unfold frame in *; simpl in *. pq_unfold; intuition eauto using batch_frame.
Qed.

Lemma itemDispatchingFinish_indexes i q :
  ReadIndex (metadata (fst (itemDispatchingFinish i q))) = ReadIndex (metadata q) /\
  WriteIndex (metadata (fst (itemDispatchingFinish i q))) = WriteIndex (metadata q).
Proof.
  unfold itemDispatchingFinish, resetSizesIfDrained.
  case_decide; simpl; pq_unfold; done.
Qed.

(** getNextItem takes one reference exactly when it returns an item. *)
Lemma getNextItem_frame q q' item :
  getNextItem q = (q', item) ->
  stopped q' = stopped q /\ (P (client q) -> P (client q')) /\
  refClient q' = refClient q + (if item is Some _ then 1 else 0) /\
  ReadIndex (metadata q') = u64 (ReadIndex (metadata q) + 1) /\
  WriteIndex (metadata q') = WriteIndex (metadata q).
Proof.
  unfold getNextItem. simpl.
  destruct (proto_Marshal _); simpl; [|intros; simplify_eq; simpl; split_and!; auto; lia].
  destruct (client_Batch _ _) as [c [ops err]] eqn:E.
  assert (P (client q) -> P c) by eauto using batch_frame.
  match goal with |- context [match ?x with inl _ => _ | inr _ => _ end] =>
    destruct x as [[restored r]|e] end; simpl.
  - intros; simplify_eq; simpl. split_and!; auto.
  - match goal with |- context [itemDispatchingFinish ?i ?q0] =>
      pose proof (itemDispatchingFinish_frame i q0) as (?&?&?);
      pose proof (itemDispatchingFinish_indexes i q0) as [??];
      destruct (itemDispatchingFinish i q0) as [q1 ?] end.
    intros; simplify_eq; simpl in *. split_and!; auto; lia.
Qed.

Lemma resetSizes_indexes (q : pq) :
  ReadIndex (metadata (resetSizesIfDrained q)) = ReadIndex (metadata q) /\
  WriteIndex (metadata (resetSizesIfDrained q)) = WriteIndex (metadata q).
Proof. unfold resetSizesIfDrained. by case_decide. Qed.

Definition took_item (r : read_result Ctx T) : Z :=
  match r with RdItem _ _ _ => 1 | _ => 0 end.

Lemma readLoop_frame fuel q q' r :
  readLoop fuel q = Some (q', r) ->
  stopped q' = stopped q /\ (P (client q) -> P (client q')) /\
  refClient q' = refClient q + took_item r /\ r <> RdStopped.
Proof.
  revert q. induction fuel as [|fuel IH]; intros q; simpl.
  { case_decide; [|done]. intros; simplify_eq; simpl. split_and!; auto; lia. }
  case_decide. { intros; simplify_eq; simpl. split_and!; auto; lia. }
  destruct (getNextItem q) as [q1 item] eqn:E.
  apply getNextItem_frame in E as (E1 & E2 & E3 & _).
  destruct (resetSizes_frame q1) as (R1 & R2 & R3).
  destruct item as [[[i req] rctx]|].
  - intros; simplify_eq; simpl. split_and!; try congruence; eauto.
  - intros (F1 & F2 & F3 & F4)%IH; simpl in *. split_and!; eauto; try congruence; lia.
Qed.

(** ** Termination of the loop of Read *)

Definition wf_indexes (q : pq) : Prop :=
  0 <= ReadIndex (metadata q) < 2 ^ 64 /\ 0 <= WriteIndex (metadata q) < 2 ^ 64.

Lemma readFuel_step q :
  wf_indexes q -> ReadIndex (metadata q) <> WriteIndex (metadata q) ->
  u64 (WriteIndex (metadata q) - u64 (ReadIndex (metadata q) + 1)) + 1 =
  u64 (WriteIndex (metadata q) - ReadIndex (metadata q)).
Proof.
  intros [Hr Hw] Hne. unfold u64.
  rewrite Zminus_mod_idemp_r.
  destruct (decide (ReadIndex (metadata q) < WriteIndex (metadata q))).
  - rewrite !Z.mod_small; lia.
  - rewrite <- (Z.mod_add (WriteIndex _ - (_ + 1)) 1), <- (Z.mod_add (WriteIndex _ - _) 1) by lia.
    rewrite !Z.mod_small; lia.
Qed.

Lemma readLoop_total n q :
  wf_indexes q -> (readFuel q <= n)%nat -> is_Some (readLoop n q).
Proof.
  revert q. induction n as [|n IH]; intros q Hwf Hfuel; simpl.
  - case_decide as Heq; [by eexists|]. pose proof (readFuel_step q Hwf Heq).
    pose proof (u64_range (WriteIndex (metadata q) - u64 (ReadIndex (metadata q) + 1))).
    unfold readFuel in Hfuel. lia.
  - case_decide as Heq; [by eexists|].
    destruct (getNextItem q) as [q1 item] eqn:E.
    apply getNextItem_frame in E as (_ & _ & _ & ER & EW).
    destruct (resetSizes_indexes q1) as [RR RW].
    destruct item as [[[??]?]|]; [by eexists|].
    apply IH; simpl.
    + split; simpl; rewrite ?RR, ?RW, ?ER, ?EW; [apply u64_range|apply Hwf].
    + unfold readFuel in *; simpl. rewrite RR, RW, ER, EW.
      pose proof (readFuel_step q Hwf Heq).
      pose proof (u64_range (WriteIndex (metadata q) - u64 (ReadIndex (metadata q) + 1))).
      lia.
Qed.

Lemma onDone_frame id err q :
  stopped (onDone id err q) = stopped q /\
  refClient (onDone id err q) = refClient q - 1 /\
  (refClient q <> 1 -> P (client q) -> P (client (onDone id err q))).
Proof.
  unfold onDone.
  assert (Hfin : forall q1 : pq, frame q q1 ->
    stopped (fst (unrefClient q1)) = stopped q /\
    refClient (fst (unrefClient q1)) = refClient q - 1 /\
    (refClient q <> 1 -> P (client q) -> P (client (fst (unrefClient q1))))).
  { intros q1 (F1 & F2 & F3). unfold unrefClient. simpl.
    case_decide; simpl; [destruct (client_Close _); simpl|];
      split_and!; eauto; try congruence; lia. }
  destruct (IsShutdownErr err); [by apply Hfin|].
  match goal with |- context [itemDispatchingFinish ?i ?q0] =>
    pose proof (itemDispatchingFinish_frame i q0) as Hf;
    destruct (itemDispatchingFinish i q0) as [q1 ?] end.
  apply Hfin. unfold frame in *; simpl in *. done.
Qed.
End frame.

(** * The life of the storage client *)

Record Monitored (ST : Type) := mkMonitored { inner : ST; closes : Z; usedAfterClose : bool }.
Arguments mkMonitored {ST} _ _ _.
Arguments inner {ST} _.
Arguments closes {ST} _.
Arguments usedAfterClose {ST} _.

Definition observe {ST} (m : Monitored ST) (c : ST) (n : Z) : Monitored ST :=
  mkMonitored c (closes m + n) (usedAfterClose m || bool_decide (closes m <> 0)).

#[export] Instance Monitored_client {ST} `{StorageClient ST} : StorageClient (Monitored ST) := {|
  client_Get m k := let '(c, r) := client_Get (inner m) k in (observe m c 0, r);
  client_Set m k v := let '(c, r) := client_Set (inner m) k v in (observe m c 0, r);
  client_Batch m ops := let '(c, r) := client_Batch (inner m) ops in (observe m c 0, r);
  client_Close m := let '(c, r) := client_Close (inner m) in (observe m c 1, r);
|}.

Section life.
Context {Ctx T ST : Type}.
Context `{Request T} `{MetadataCodec} `{Encoding Ctx T} `{StorageClient ST}.
Context (cfg : Config).

Record world := mkWorld {
  queue : persistentQueue ST;
  outstanding : list indexDone;
}.

Inductive step : world -> world -> Prop :=
| step_offer q q' out ctx req r :
    stopped q = false ->
    Offer cfg ctx req q = (q', r) ->
    step (mkWorld q out) (mkWorld q' out)
| step_read_item q q' out (ctx : Ctx) (req : T) id :
    Read q = Some (q', RdItem ctx req id) ->
    step (mkWorld q out) (mkWorld q' (id :: out))
| step_read_none q q' out (r : read_result Ctx T) :
    Read q = Some (q', r) -> r = RdStopped \/ r = RdWait ->
    step (mkWorld q out) (mkWorld q' out)
| step_done q out1 id out2 err :
    step (mkWorld q (out1 ++ id :: out2)) (mkWorld (onDone id err q) (out1 ++ out2))
| step_shutdown q q' out err :
    stopped q = false ->
    Shutdown (Some q) = (Some q', err) ->
    step (mkWorld q out) (mkWorld q' out).

(** The references held on the client: one for the producers until Shutdown, one
    per request a consumer still works on. *)
Definition references (w : world) : Z :=
  (if stopped (queue w) then 0 else 1) + Z.of_nat (length (outstanding w)).
End life.
Arguments world : clear implicits.
Arguments mkWorld {ST} _ _.
Arguments queue {ST} _.
Arguments outstanding {ST} _.

Section monitored.
Context {Ctx T ST : Type}.
Context `{Request T} `{MetadataCodec} `{Encoding Ctx T} `{StorageClient ST}.
Context (cfg : Config).
Abbreviation W := (world (Monitored ST)).
Abbreviation mstep := (step (Ctx := Ctx) (T := T) (ST := Monitored ST) cfg).

Definition openClient (m : Monitored ST) : Prop := closes m = 0 /\ usedAfterClose m = false.
Definition closedClient (m : Monitored ST) : Prop := closes m = 1 /\ usedAfterClose m = false.

Lemma openClient_batch m ops : openClient m -> openClient (fst (client_Batch m ops)).
Proof.
  intros [Hc Hu]. simpl. destruct (client_Batch (inner m) ops) as [c r]. simpl.
  split; simpl; [lia|]. rewrite Hc, Hu. done.
Qed.

(** The invariant of the life cycle. *)
Definition life_inv (w : W) : Prop :=
  refClient (queue w) = references w /\
  if decide (references w = 0) then closedClient (client (queue w))
  else openClient (client (queue w)).

Lemma life_inv_open q out :
  life_inv (mkWorld q out) -> references (mkWorld q out) <> 0 -> openClient (client q).
Proof. intros [_ Hc] Hr. by rewrite decide_False in Hc. Qed.

Lemma unref_inv (q q1 : persistentQueue (Monitored ST)) :
  openClient (client q1) -> refClient q1 = refClient q ->
  (if decide (refClient q - 1 = 0) then closedClient (client (fst (unrefClient q1)))
   else openClient (client (fst (unrefClient q1)))).
Proof.
  intros [Hc Hu] Hr. unfold unrefClient. simpl. rewrite Hr.
  case_decide; simpl; [|done].
  destruct (client_Close (inner (client q1))) as [c r]. simpl.
  split; simpl; [lia|]. by rewrite Hc, Hu.
Qed.

Lemma life_inv_intro (q : persistentQueue (Monitored ST)) out :
  refClient q = references (mkWorld q out) -> openClient (client q) ->
  references (mkWorld q out) <> 0 -> life_inv (mkWorld q out).
Proof. intros ???. split; [done|]. by rewrite decide_False. Qed.

Lemma life_inv_offer q q' out ctx req r :
  stopped q = false -> Offer cfg ctx req q = (q', r) ->
  life_inv (mkWorld q out) -> life_inv (mkWorld q' out).
Proof.
  intros Hs E Hinv.
  pose proof (Offer_frame cfg openClient openClient_batch ctx req q) as (F1 & F2 & F3).
  rewrite E in *; simpl in *.
  assert (references (mkWorld q out) <> 0) by (unfold references; simpl; rewrite Hs; lia).
  apply life_inv_intro; [|eauto using life_inv_open|]; destruct Hinv as [Hr _];
    unfold references in *; simpl in *; by rewrite F1, ?F2.
Qed.

Lemma life_inv_read q q' out (r : read_result Ctx T) :
  Read q = Some (q', r) -> life_inv (mkWorld q out) ->
  life_inv (mkWorld q' (match r with RdItem _ _ id => id :: out | _ => out end)).
Proof.
  intros E Hinv. unfold Read in E. destruct (stopped q) eqn:Hs; [by simplify_eq|].
  apply (readLoop_frame openClient openClient_batch) in E as (F1 & F2 & F3 & F4).
  assert (references (mkWorld q out) <> 0) by (unfold references; simpl; rewrite Hs; lia).
  pose proof (life_inv_open _ _ Hinv) as Hopen. destruct Hinv as [Hr _].
  unfold references in *; simpl in *. rewrite Hs in *.
  destruct r; simpl in *; try done; apply life_inv_intro; eauto;
    unfold references; simpl; rewrite F1; lia.
Qed.

Lemma life_inv_done q out1 id out2 err :
  life_inv (mkWorld q (out1 ++ id :: out2)) -> life_inv (mkWorld (onDone id err q) (out1 ++ out2)).
Proof.
  intros Hinv.
  assert (Href : references (mkWorld q (out1 ++ id :: out2)) =
                 references (mkWorld q (out1 ++ out2)) + 1).
  { unfold references; simpl. rewrite !length_app; simpl. lia. }
  assert (0 <= references (mkWorld q (out1 ++ out2)))
    by (unfold references; simpl; destruct (stopped q); lia).
  pose proof (life_inv_open _ _ Hinv) as Hopen. specialize (Hopen ltac:(lia)).
  destruct Hinv as [Hr _]. rewrite Href in Hr. simpl in Hr.
  destruct (onDone_frame openClient openClient_batch id err q) as (D1 & D2 & _).
  split; simpl.
  - rewrite D2, Hr. unfold references; simpl. rewrite D1. lia.
  - assert (references (mkWorld (onDone id err q) (out1 ++ out2)) = refClient q - 1) as ->
      by (rewrite Hr; unfold references; simpl; rewrite D1; lia).
    unfold onDone. destruct (IsShutdownErr err); [by apply unref_inv|].
    match goal with |- context [itemDispatchingFinish ?i ?q0] =>
      pose proof (itemDispatchingFinish_frame openClient openClient_batch i q0) as (F1 & F2 & F3);
      destruct (itemDispatchingFinish i q0) as [q1 ?] end.
    simpl in *. apply unref_inv; simpl; auto.
Qed.

Lemma life_inv_shutdown q q' out err :
  stopped q = false -> Shutdown (Some q) = (Some q', err) ->
  life_inv (mkWorld q out) -> life_inv (mkWorld q' out).
Proof.
  intros Hs E Hinv. simpl in E.
  assert (references (mkWorld q out) <> 0) by (unfold references; simpl; rewrite Hs; lia).
  pose proof (life_inv_open _ _ Hinv) as Hopen. destruct Hinv as [Hr _].
  set (q0 := wake AllMoreElements (mkQueue (client q) (metadata q) (refClient q) true (wakeups q))) in E.
  pose proof (unref_inv q q0 ltac:(simpl; auto) eq_refl) as Hu.
  destruct (unrefClient q0) as [q1 e] eqn:Eu. simplify_eq.
  assert (Hst : stopped q' = true /\ refClient q' = refClient q - 1).
  { unfold unrefClient in Eu. simpl in Eu.
    case_decide; [destruct (client_Close (inner _))|]; by simplify_eq. }
  destruct Hst as [Hst Hrf]. unfold references in *; simpl in *. rewrite Hs in *.
  unfold life_inv, references; simpl. rewrite Hst, Hrf.
  replace (refClient q - 1) with (0 + Z.of_nat (length out)) in * by lia.
  split; [done|exact Hu].
Qed.

Lemma life_inv_step w w' : mstep w w' -> life_inv w -> life_inv w'.
Proof.
  intros [] Hinv.
  - eauto using life_inv_offer.
  - match goal with Hr : Read _ = _ |- _ => apply (life_inv_read _ _ _ _ Hr Hinv) end.
  - match goal with Hr : Read _ = _, Hor : _ \/ _ |- _ =>
      pose proof (life_inv_read _ _ _ _ Hr Hinv); by destruct Hor as [-> | ->] end.
  - by apply life_inv_done.
  - eauto using life_inv_shutdown.
Qed.

End monitored.
