(* ===== verification/PersistentQueueSpec.v ===== *)
(** * PersistentQueueSpec: what the persistent queue promises, and that it does

    The abstract queue is a list of pending requests and the requests in flight.
    Over a storage client that reports no error, the concrete queue refines it,
    crashes and restarts included: a crash puts the requests in flight back at the
    end of the queue and loses none. *)

From S2P Require Import Prelude.
From S2P Require Import GoErrors.
From S2P Require Import Storage.
From S2P Require Import Request.
From S2P Require Import PersistentQueue.
From S2P Require Import PersistentQueueLemmas.

(** ** What the queue relies on of the two codecs *)

Class MetadataCodecLaws `{MetadataCodec} := {
  marshal_roundtrip : forall m, exists b, proto_Marshal m = inl b /\ proto_Unmarshal b = inl m;
  (* proto3 writes no field that has its default value *)
  marshal_empty : forall m, proto_Marshal m = inl [] <-> m = zeroMetadata;
}.

Class EncodingLaws (Ctx T : Type) `{Encoding Ctx T} := {
  encoding_roundtrip : forall ctx r, exists b ctx',
    encoding_Marshal ctx r = inl b /\ encoding_Unmarshal (Some b) = inl (ctx', r);
}.

(** ** The abstract queue *)

Section abstract.
Context {T : Type}.

Record aqueue := mkAQueue {
  accepted : list T;
  pending : list T;
  inflight : list (Z * T);
  completed : list T;
}.

Inductive label :=
| LAccept (r : T)
| LReject
| LDeliver (i : Z) (r : T)
| LComplete (i : Z)
| LKeep
| LIdle
| LCrash.

Inductive astep : aqueue -> label -> aqueue -> Prop :=
| a_accept a p f c r : astep (mkAQueue a p f c) (LAccept r) (mkAQueue (a ++ [r]) (p ++ [r]) f c)
| a_deliver a p f c i r :
    astep (mkAQueue a (r :: p) f c) (LDeliver i r) (mkAQueue a p (f ++ [(i, r)]) c)
| a_complete a p f c i r f' :
    f ≡ₚ (i, r) :: f' ->
    astep (mkAQueue a p f c) (LComplete i) (mkAQueue a p f' (r :: c))
| a_crash a p f c f' :
    f ≡ₚ f' -> astep (mkAQueue a p f c) LCrash (mkAQueue a (p ++ f'.*2) [] c)
| a_silent s l : l = LReject \/ l = LKeep \/ l = LIdle -> astep s l s.

Definition conserved (s : aqueue) : Prop :=
  accepted s ≡ₚ completed s ++ pending s ++ (inflight s).*2.

Lemma astep_conserved s l s' : astep s l s' -> conserved s -> conserved s'.
Proof.
  unfold conserved. intros [] Hc; simpl in *.
  - rewrite Hc. solve_Permutation.
  - rewrite Hc, fmap_app. simpl. solve_Permutation.
  - rewrite Hc. match goal with Hf : f ≡ₚ _ |- _ => rewrite Hf end. simpl. solve_Permutation.
  - rewrite Hc. match goal with Hf : f ≡ₚ _ |- _ => rewrite Hf end. solve_Permutation.
  - done.
Qed.
End abstract.
Arguments aqueue : clear implicits.
Arguments label : clear implicits.
Arguments mkAQueue {T} _ _ _ _.

(** ** Batches of reads and of deletions *)

Lemma batch_map_gets ks (v : storage_map) :
  batch_map (map GetOperation ks) v =
  (v, map (fun k => mkOperation k (default None (v !! k)) Get) ks).
Proof.
  induction ks as [|k ks IH]; simpl; [done|]. unfold op_step; simpl. rewrite IH.
  by destruct (v !! k).
Qed.

Lemma batch_map_deletes ks (v : storage_map) k :
  fst (batch_map (map DeleteOperation ks) v) !! k = if decide (k ∈ ks) then None else v !! k.
Proof.
  revert v. induction ks as [|k0 ks IH]; intros v.
  - case_decide as Hin; [by apply elem_of_nil in Hin | done].
  - specialize (IH (delete k0 v)). simpl. unfold op_step; simpl.
    destruct (batch_map (map DeleteOperation ks) (delete k0 v)) as [v' ops]; simpl in *.
    rewrite IH. destruct (decide (k = k0)) as [->|Hne].
    + rewrite lookup_delete_eq. repeat case_decide; set_solver.
    + rewrite lookup_delete_ne by done. repeat case_decide; set_solver.
Qed.

Section refinement.
Context {Ctx T ST : Type}.
Context `{Request T} `{MetadataCodecLaws} `{EncodingLaws Ctx T} `{ReliableStorage ST view}.
Context (cfg : Config).
Abbreviation pq := (persistentQueue ST).

(** Request [r] is stored under index [i]. *)
Definition holds (v : storage_map) (i : Z) (r : T) : Prop :=
  exists b ctx, v !! getItemKey i = Some (Some b) /\
                encoding_Unmarshal (Some b) = inl ((ctx : Ctx), r).

(** Storage [v] and metadata [m] represent pending requests [p] and requests in
    flight [f]; an index of the dispatched list that is not in flight is gone. *)
Record tracks (v : storage_map) (m : PersistentMetadata) (p : list T) (f : list (Z * T)) : Prop := {
  tr_read : 0 <= ReadIndex m;
  tr_write : WriteIndex m = ReadIndex m + Z.of_nat (length p);
  tr_pending : forall k r, p !! k = Some r -> holds v (ReadIndex m + Z.of_nat k) r;
  tr_inflight : forall i r, (i, r) ∈ f -> i ∈ CurrentlyDispatchedItems m /\ holds v i r;
  tr_dispatched : forall i, i ∈ CurrentlyDispatchedItems m ->
    0 <= i < ReadIndex m /\ (i ∈ f.*1 \/ v !! getItemKey i = None);
  tr_nodup : NoDup (CurrentlyDispatchedItems m);
  tr_nodup_inflight : NoDup f.*1;
}.

Definition no_legacy (v : storage_map) : Prop :=
  v !! legacyReadIndexKey = None /\ v !! legacyWriteIndexKey = None /\
  v !! legacyCurrentlyDispatchedItemsKey = None.

(** The storage alone represents [p] and [f]. *)
Definition saved (v : storage_map) (p : list T) (f : list (Z * T)) : Prop :=
  (exists b m, v !! metadataKey = Some (Some b) /\ b <> [] /\
               proto_Unmarshal b = inl m /\ tracks v m p f) \/
  (p = [] /\ f = [] /\ default [] (default None (v !! metadataKey)) = []).

Record represents (q : pq) (p : list T) (f : list (Z * T)) : Prop := {
  rep_tracks : tracks (view (client q)) (metadata q) p f;
  rep_dispatched : CurrentlyDispatchedItems (metadata q) ≡ₚ f.*1;
  rep_saved : saved (view (client q)) p f;
  rep_legacy : no_legacy (view (client q));
}.

(** Fewer than 2^62 requests have been written. *)
Definition room (q : pq) : Prop :=
  WriteIndex (metadata q) + Z.of_nat (length (CurrentlyDispatchedItems (metadata q))) + 1 < 2 ^ 62.

Lemma tracks_sizes v m p f x y : tracks v (set_sizes x y m) p f <-> tracks v m p f.
Proof. by split; intros []; constructor. Qed.

Lemma holds_insert_other v i r j b : i <> j -> 0 <= i -> 0 <= j ->
  holds v i r -> holds (<[getItemKey j := b]> v) i r.
Proof.
  intros Hij ?? (b0 & ctx & Hl & Hd). exists b0, ctx. split; [|done].
  rewrite lookup_insert_ne; [done|]. intros ?%getItemKey_inj; [|done|done]. lia.
Qed.

Lemma tracks_ext v v' m p f :
  (forall i, v' !! getItemKey i = v !! getItemKey i) -> tracks v m p f -> tracks v' m p f.
Proof.
  intros Hv [].
  assert (Hh : forall i r, holds v i r -> holds v' i r).
  { intros i r (b & ctx & Hb & Hd). exists b, ctx. by rewrite Hv. }
  constructor; eauto.
  - intros i r Hin. destruct (tr_inflight0 i r Hin). eauto.
  - intros i Hin. rewrite Hv. eauto.
Qed.

Lemma lookup_metadata (v : storage_map) i b :
  <[metadataKey := b]> v !! getItemKey i = v !! getItemKey i.
Proof. apply lookup_insert_ne. intros Heq. by apply (getItemKey_metadataKey i). Qed.

Lemma lookup_item (v : storage_map) i j b :
  0 <= i -> 0 <= j -> i <> j -> <[getItemKey j := b]> v !! getItemKey i = v !! getItemKey i.
Proof. intros ??? . apply lookup_insert_ne. by intros ?%getItemKey_inj. Qed.

Lemma lookup_delete_item (v : storage_map) i j :
  0 <= i -> 0 <= j -> i <> j -> delete (getItemKey j) v !! getItemKey i = v !! getItemKey i.
Proof. intros ??? . apply lookup_delete_ne. by intros ?%getItemKey_inj. Qed.

Lemma tracks_lt v m p f i : tracks v m p f -> i ∈ f.*1 -> 0 <= i < ReadIndex m.
Proof.
  intros Ht ([i' r] & -> & Hin)%list_elem_of_fmap. simpl.
  apply (tr_inflight _ _ _ _ Ht) in Hin as [Hin _]. by apply (tr_dispatched _ _ _ _ Ht).
Qed.

(** ** Writing a request at the write index *)

Lemma tracks_put v m p f (b : bytes) ctx r :
  tracks v m p f -> encoding_Unmarshal (Some b) = inl ((ctx : Ctx), r) ->
  tracks (<[getItemKey (WriteIndex m) := Some b]> v) (set_WriteIndex (WriteIndex m + 1) m)
         (p ++ [r]) f.
Proof.
  intros Ht Hb. destruct Ht.
  assert (Hold : forall i r0, 0 <= i < WriteIndex m -> holds v i r0 ->
            holds (<[getItemKey (WriteIndex m) := Some b]> v) i r0).
  { intros i r0 Hi (b0 & ctx0 & Hl & Hd). exists b0, ctx0. by rewrite lookup_item by lia. }
  constructor; simpl; try done.
  - rewrite length_app; simpl. lia.
  - intros k r0 [Hk|[Hk Hr0]]%lookup_app_Some.
    + apply Hold; [|eauto]. apply lookup_lt_Some in Hk. lia.
    + apply list_lookup_singleton_Some in Hr0 as [Hk0 ->].
      replace (ReadIndex m + Z.of_nat k) with (WriteIndex m) by lia.
      exists b, ctx. by rewrite lookup_insert_eq.
  - intros i r0 Hin. destruct (tr_inflight0 i r0 Hin) as [Hi ?].
    destruct (tr_dispatched0 i Hi) as [? _]. split; [done|]. apply Hold; [lia|done].
  - intros i Hi. destruct (tr_dispatched0 i Hi) as [? Hd]. split; [done|].
    rewrite lookup_item by lia. done.
Qed.

Lemma no_legacy_insert v k b :
  k <> legacyReadIndexKey -> k <> legacyWriteIndexKey -> k <> legacyCurrentlyDispatchedItemsKey ->
  no_legacy v -> no_legacy (<[k := b]> v).
Proof. intros ??? (?&?&?). unfold no_legacy. rewrite !lookup_insert_ne by done. done. Qed.

Lemma getItemKey_legacy i :
  getItemKey i <> legacyReadIndexKey /\ getItemKey i <> legacyWriteIndexKey /\
  getItemKey i <> legacyCurrentlyDispatchedItemsKey.
Proof.
  split_and!; apply getItemKey_not_legacy; intros a s [= <- _]; unfold digit; vm_compute; by intros [].
Qed.

Lemma putInternal_spec ctx r q p f :
  tracks (view (client q)) (metadata q) p f -> no_legacy (view (client q)) -> room q ->
  exists q', putInternal ctx r q = (q', None) /\
    metadata q' = set_WriteIndex (WriteIndex (metadata q) + 1) (metadata q) /\
    tracks (view (client q')) (metadata q') (p ++ [r]) f /\
    saved (view (client q')) (p ++ [r]) f /\ no_legacy (view (client q')).
Proof.
  intros Ht Hl Hroom. unfold putInternal. cbv zeta. simpl.
  pose proof (tr_read _ _ _ _ Ht). pose proof (tr_write _ _ _ _ Ht). unfold room in Hroom.
  rewrite (u64_id (WriteIndex _ + 1)) by lia.
  set (m' := set_WriteIndex (WriteIndex (metadata q) + 1) (metadata q)).
  destruct (marshal_roundtrip m') as (mb & Hmb & Hum). rewrite Hmb.
  destruct (encoding_roundtrip ctx r) as (b & ctx' & -> & Hub).
  replace (u64 (WriteIndex (metadata q) + 1 - 1)) with (WriteIndex (metadata q))
    by (rewrite u64_id; lia).
  match goal with |- context [client_Batch ?c ?ops] =>
    destruct (batch_spec c ops) as (c' & -> & Hv) end.
  simpl in *. eexists; split; [done|]; simpl. split; [done|].
  assert (Htr : tracks (view c') m' (p ++ [r]) f).
  { rewrite Hv, insert_insert_ne by apply getItemKey_metadataKey.
    eapply tracks_ext; [intros i; apply lookup_metadata|]. by eapply tracks_put. }
  split; [done|]. split.
  - left. exists mb, m'. split_and!; try done.
    + rewrite Hv, lookup_insert_ne by apply getItemKey_metadataKey. by rewrite lookup_insert_eq.
    + intros ->. apply marshal_empty in Hmb. apply (f_equal WriteIndex) in Hmb. simpl in Hmb. lia.
  - rewrite Hv. destruct (getItemKey_legacy (WriteIndex (metadata q))) as (?&?&?).
    apply no_legacy_insert; try done. by apply no_legacy_insert.
Qed.

Lemma reset_tracks v (q : pq) p f :
  tracks v (metadata (resetSizesIfDrained q)) p f <-> tracks v (metadata q) p f.
Proof. unfold resetSizesIfDrained. case_decide; simpl; [apply tracks_sizes|done]. Qed.

Lemma reset_fields (q : pq) :
  client (resetSizesIfDrained q) = client q /\
  refClient (resetSizesIfDrained q) = refClient q /\ stopped (resetSizesIfDrained q) = stopped q /\
  CurrentlyDispatchedItems (metadata (resetSizesIfDrained q)) = CurrentlyDispatchedItems (metadata q).
Proof. unfold resetSizesIfDrained. by case_decide. Qed.

(** ** Taking the request at the read index *)

Lemma tracks_take v m p f r :
  tracks v m (r :: p) f -> ReadIndex m ∉ CurrentlyDispatchedItems m ->
  tracks v (set_Dispatched (CurrentlyDispatchedItems m ++ [ReadIndex m])
              (set_ReadIndex (ReadIndex m + 1) m)) p (f ++ [(ReadIndex m, r)]).
Proof.
  intros Ht Hnew. pose proof (tracks_lt v m (r :: p) f (ReadIndex m) Ht) as Hlt. destruct Ht.
  assert (Hr : holds v (ReadIndex m) r).
  { specialize (tr_pending0 0%nat r eq_refl). by rewrite Z.add_0_r in tr_pending0. }
  constructor; simpl in *; try lia.
  - intros k r0 Hk. replace (ReadIndex m + 1 + Z.of_nat k) with (ReadIndex m + Z.of_nat (S k)) by lia.
    by apply tr_pending0.
  - intros i r0 [Hin|Hin]%elem_of_app.
    + destruct (tr_inflight0 _ _ Hin). split; [set_solver|done].
    + apply list_elem_of_singleton in Hin as [= -> ->]. split; [set_solver|done].
  - intros i [Hin|Hin]%elem_of_app.
    + destruct (tr_dispatched0 _ Hin) as [? [?|?]]; (split; [lia|]); [left|by right].
      rewrite fmap_app. set_solver.
    + apply list_elem_of_singleton in Hin as ->. split; [lia|]. left. rewrite fmap_app. set_solver.
  - apply NoDup_app; split_and!; [done| |apply NoDup_singleton].
    intros i Hi Hri. apply list_elem_of_singleton in Hri as ->. done.
  - rewrite fmap_app. apply NoDup_app; split_and!; [done| |apply NoDup_singleton].
    intros i Hi Hri. apply list_elem_of_singleton in Hri as ->. simpl in Hi.
    apply Hlt in Hi. lia.
Qed.

Lemma tracks_fresh v m p f : tracks v m p f -> ReadIndex m ∉ CurrentlyDispatchedItems m.
Proof. intros Ht Hin. apply (tr_dispatched _ _ _ _ Ht) in Hin. lia. Qed.

Lemma saved_metadata v m p f b mb :
  v = <[metadataKey := Some mb]> b -> proto_Marshal m = inl mb -> m <> zeroMetadata ->
  tracks v m p f -> saved v p f.
Proof.
  intros Hv Hmb Hz Ht. left. destruct (marshal_roundtrip m) as (b0 & Hb0 & Hu).
  exists mb, m. rewrite Hmb in Hb0. simplify_eq. split_and!; try done.
  - by rewrite lookup_insert_eq.
  - intros ->. by apply marshal_empty in Hmb.
Qed.

Lemma getNextItem_spec q r p f :
  represents q (r :: p) f -> room q ->
  exists q' ctx, getNextItem q = (q', Some (ReadIndex (metadata q), r, ctx)) /\
    represents q' p (f ++ [(ReadIndex (metadata q), r)]).
Proof.
  intros [Ht Hd Hs Hl] Hroom. unfold getNextItem. cbv zeta. simpl.
  pose proof (tr_read _ _ _ _ Ht). pose proof (tr_write _ _ _ _ Ht). unfold room in Hroom.
  rewrite (u64_id (ReadIndex _ + 1)) by lia.
  match goal with |- context [set_metadata ?x _] => set (m' := x) end.
  assert (Ht' : tracks (view (client q)) m' p (f ++ [(ReadIndex (metadata q), r)]))
    by (apply tracks_take; eauto using tracks_fresh).
  destruct (marshal_roundtrip m') as (mb & Hmb & _). simpl. rewrite Hmb.
  match goal with |- context [client_Batch ?c ?ops] =>
    destruct (batch_spec c ops) as (c' & -> & Hv) end.
  simpl in *. unfold op_step; simpl. rewrite lookup_metadata.
  destruct (tr_pending _ _ _ _ Ht 0%nat r eq_refl) as (b & ctx & Hb & Hu).
  rewrite Z.add_0_r in Hb. rewrite Hb. simpl. rewrite Hu. eexists _, ctx. split; [done|].
  assert (Htr : tracks (view c') m' p (f ++ [(ReadIndex (metadata q), r)]))
    by (rewrite Hv; eapply tracks_ext; [intros i; apply lookup_metadata|done]).
  constructor; simpl; try done.
  - rewrite fmap_app, Hd. done.
  - eapply saved_metadata; [exact Hv|exact Hmb| |done].
    intros Hm. apply (f_equal ReadIndex) in Hm. simpl in Hm. lia.
  - rewrite Hv. by apply no_legacy_insert.
Qed.

Lemma represents_reset q p f : represents q p f -> represents (resetSizesIfDrained q) p f.
Proof.
  intros []. destruct (reset_fields q) as (E1 & _ & _ & E4).
  constructor; rewrite ?E1, ?E4; try done. by apply reset_tracks.
Qed.

(** Read delivers the oldest pending request; with none it waits. *)
Lemma Read_deliver q r p f :
  represents q (r :: p) f -> room q -> stopped q = false ->
  exists q' (ctx : Ctx),
    Read q = Some (q', RdItem ctx r (mkIndexDone (ReadIndex (metadata q)) (ItemsCount r) (BytesSize r))) /\
    represents q' p (f ++ [(ReadIndex (metadata q), r)]).
Proof.
  intros Hrep Hroom Hst. unfold Read. rewrite Hst.
  pose proof (tr_read _ _ _ _ (rep_tracks _ _ _ Hrep)).
  pose proof (tr_write _ _ _ _ (rep_tracks _ _ _ Hrep)) as Hw.
  unfold room in Hroom. simpl in Hw.
  destruct (getNextItem_spec q r p f Hrep Hroom) as (q1 & ctx & Eg & Hq1).
  unfold readFuel. destruct (Z.to_nat _) as [|n] eqn:En; [rewrite u64_id in En; lia|].
  simpl. rewrite decide_False by lia. rewrite Eg. simpl. eauto using represents_reset.
Qed.

Lemma Read_wait q f :
  represents q [] f -> stopped q = false -> Read q = Some (q, RdWait (Ctx := Ctx) (T := T)).
Proof.
  intros Hrep Hst. unfold Read. rewrite Hst.
  pose proof (tr_write _ _ _ _ (rep_tracks _ _ _ Hrep)) as Hw. simpl in Hw.
  destruct (readFuel q); simpl; by rewrite decide_True by lia.
Qed.

(** ** Completing a request in flight *)

Lemma tracks_remove v m p f i r f' :
  tracks v m p f -> f ≡ₚ (i, r) :: f' ->
  tracks (delete (getItemKey i) v)
    (set_Dispatched (removeDispatched i (CurrentlyDispatchedItems m)) m) p f'.
Proof.
  intros Ht Hf.
  assert (Hi : i ∈ f.*1) by (rewrite Hf; simpl; set_solver).
  pose proof (tracks_lt _ _ _ _ _ Ht Hi) as Hlt. destruct Ht.
  assert (Hin : i ∈ CurrentlyDispatchedItems m)
    by (apply (tr_inflight0 i r); rewrite Hf; set_solver).
  pose proof (removeDispatched_perm _ _ Hin) as Hperm.
  rewrite Hf in tr_nodup_inflight0; simpl in *. apply NoDup_cons in tr_nodup_inflight0 as [Hni Hnd].
  assert (Hndc : NoDup (i :: removeDispatched i (CurrentlyDispatchedItems m))) by by rewrite Hperm.
  apply NoDup_cons in Hndc as [Hnc Hndc].
  assert (Hkeep : forall j r0, j <> i -> 0 <= j -> holds v j r0 -> holds (delete (getItemKey i) v) j r0).
  { intros j r0 ?? (b & ctx & Hb & Hu). exists b, ctx. by rewrite lookup_delete_item by lia. }
  constructor; simpl; try done.
  - intros k r0 Hk. apply Hkeep; [lia|lia|eauto].
  - intros j r0 Hj. assert (j <> i).
    { intros ->. apply Hni. apply list_elem_of_fmap. by exists (i, r0). }
    destruct (tr_inflight0 j r0) as [Hjc Hjh]; [rewrite Hf; set_solver|].
    rewrite <- Hperm in Hjc. apply elem_of_cons in Hjc as [->|Hjc]; [done|]. split; [done|].
    apply Hkeep; [done| |done]. apply (tr_dispatched0 j). rewrite <- Hperm. by right.
  - intros j Hj. assert (j <> i) by (by intros ->).
    destruct (tr_dispatched0 j) as [? Hd]; [rewrite <- Hperm; by right|]. split; [done|].
    rewrite lookup_delete_item by lia. rewrite Hf in Hd. simpl in Hd. set_solver.
Qed.

Lemma no_legacy_delete v k : no_legacy v -> no_legacy (delete k v).
Proof. intros (?&?&?). unfold no_legacy. by rewrite !lookup_delete_None; auto. Qed.

Lemma itemDispatchingFinish_spec q p f i r f' :
  represents q p f -> f ≡ₚ (i, r) :: f' ->
  exists q', itemDispatchingFinish i q = (q', None) /\ represents q' p f' /\
    stopped q' = stopped q /\ refClient q' = refClient q.
Proof.
  intros [Ht Hd Hs Hl] Hf. unfold itemDispatchingFinish. cbv zeta.
  match goal with |- context [resetSizesIfDrained ?x] => set (q0 := x) end.
  destruct (reset_fields q0) as (E1 & E2 & E3 & E4).
  destruct (marshal_roundtrip (metadata (resetSizesIfDrained q0))) as (mb & Hmb & _). rewrite Hmb.
  rewrite E1. match goal with |- context [client_Batch ?c ?ops] =>
    destruct (batch_spec c ops) as (c' & -> & Hv) end.
  simpl in *. eexists. split; [done|]. simpl. rewrite E2, E3. split; [|done].
  pose proof (tracks_remove _ _ _ _ _ _ _ Ht Hf) as Hr.
  assert (Hi : i ∈ f.*1) by (rewrite Hf; simpl; set_solver).
  assert (Htr : tracks (view c') (metadata (resetSizesIfDrained q0)) p f').
  { apply reset_tracks. rewrite Hv. eapply tracks_ext; [|exact Hr]. intros j.
    rewrite !lookup_delete. case_decide; [done|]. apply lookup_metadata. }
  constructor; simpl; try done.
  - rewrite E4. simpl. apply (inj (cons i)). rewrite removeDispatched_perm.
    + by rewrite Hd, Hf.
    + by rewrite Hd.
  - eapply (saved_metadata _ _ _ _ (delete (getItemKey i) (view (client q)))); [|exact Hmb| |done].
    + rewrite Hv. rewrite delete_insert_ne; [done|]. apply getItemKey_metadataKey.
    + intros Hm. apply (f_equal ReadIndex) in Hm. simpl in Hm.
      apply (tracks_lt _ _ _ _ _ Ht) in Hi. unfold resetSizesIfDrained in Hm.
      case_decide; simpl in Hm; lia.
  - rewrite Hv. apply no_legacy_delete. by apply no_legacy_insert.
Qed.
End refinement.
