(* ===== verification/PersistentQueueRefine.v ===== *)
(** * PersistentQueueRefine: recovery after a crash, and the refinement

    [lstep] is the life cycle of PersistentQueueLemmas with labels and with crashes:
    between two critical sections the process may die, and Start runs on what the
    storage then holds.  Every run is a run of the abstract queue. *)

From S2P Require Import Prelude.
From S2P Require Import GoErrors.
From S2P Require Import Storage.
From S2P Require Import Request.
From S2P Require Import PersistentQueue.
From S2P Require Import PersistentQueueLemmas.
From S2P Require Import PersistentQueueSpec.

Section recovery.
Context {Ctx T ST : Type}.
Context `{Request T} `{MetadataCodecLaws} `{EncodingLaws Ctx T} `{ReliableStorage ST view}.
Context (cfg : Config).
Abbreviation pq := (persistentQueue ST).
Abbreviation tracks := (tracks (Ctx := Ctx) (T := T)).
Abbreviation saved := (saved (Ctx := Ctx) (T := T)).
Abbreviation represents := (represents (Ctx := Ctx) (T := T) (view := view)).

(** The requests in flight in the order of the dispatched list. *)
Definition dispatched_reqs (cdi : list Z) (f : list (Z * T)) : list (Z * T) :=
  omap (fun i => pair i <$> (list_to_map f : gmap Z T) !! i) cdi.

Lemma dispatched_reqs_perm v m p f :
  tracks v m p f -> dispatched_reqs (CurrentlyDispatchedItems m) f ≡ₚ f.
Proof.
  intros []. unfold dispatched_reqs. apply NoDup_Permutation.
  - clear - tr_nodup. induction tr_nodup as [|i l Hi Hl IH]; simpl; [constructor|].
    destruct ((list_to_map f : gmap Z T) !! i) as [r|]; simpl; [|done].
    constructor; [|done]. intros (j & Hj & Hjr)%list_elem_of_omap.
    destruct (_ !! j); simplify_eq/=. done.
  - by apply NoDup_fmap_1 in tr_nodup_inflight.
  - intros [i r]. rewrite list_elem_of_omap. split.
    + intros (j & Hj & Hjr). destruct (_ !! j) as [r'|] eqn:E; simplify_eq/=.
      by apply elem_of_list_to_map_2 in E.
    + intros Hin. exists i. destruct (tr_inflight _ _ Hin) as [? _]. split; [done|].
      apply elem_of_list_to_map_1 in Hin; [|done]. by rewrite Hin.
Qed.

(** ** putRetrieved appends the requests it can decode *)

Lemma putRetrieved_spec (v : storage_map) (idx : list Z) (q : pq) p f
    (lookup : Z -> option T) :
  tracks (view (client q)) (metadata q) p [] -> saved (view (client q)) p [] ->
  no_legacy (view (client q)) ->
  WriteIndex (metadata q) + Z.of_nat (length idx) +
    Z.of_nat (length (CurrentlyDispatchedItems (metadata q))) + 1 < 2 ^ 62 ->
  (forall i, i ∈ idx -> match lookup i with
     | Some r => exists b (ctx : Ctx), v !! getItemKey i = Some (Some b) /\
                   encoding_Unmarshal (Some b) = inl (ctx, r)
     | None => v !! getItemKey i = None
     end) ->
  f = omap lookup idx ->
  exists q',
    putRetrieved (map (fun k => mkOperation k (default None (v !! k)) Get)
                      (map getItemKey idx)) q = q' /\
    tracks (view (client q')) (metadata q') (p ++ f) [] /\
    saved (view (client q')) (p ++ f) [] /\ no_legacy (view (client q')) /\
    stopped q' = stopped q /\ refClient q' = refClient q.
Proof.
  revert q p f. induction idx as [|i idx IH]; intros q p f Ht Hs Hl Hroom Hlook ->; simpl.
  { exists q. rewrite app_nil_r. done. }
  pose proof (Hlook i ltac:(by left)) as Hi. simpl in Hroom.
  destruct (lookup i) as [r|]; simpl.
  - destruct Hi as (b & ctx & Hb & Hu). rewrite Hb. simpl. rewrite Hu.
    destruct (putInternal_spec ctx r q p [] Ht Hl) as (q1 & Hq1 & Hm & Ht1 & Hs1 & Hl1);
      [unfold room; lia|].
    pose proof (putInternal_frame (fun _ => True) (fun _ _ _ => I) ctx r q) as (F1 & F2 & _).
    rewrite Hq1 in *; simpl in *.
    destruct (IH q1 (p ++ [r]) (omap lookup idx)) as (q2 & -> & ?&?&?&?&?); try done.
    + rewrite Hm. simpl. lia.
    + intros j Hj. apply Hlook. by right.
    + exists q2. rewrite <- app_assoc in *. simpl in *. split_and!; try done; congruence.
  - rewrite Hi. simpl. destruct (IH q p (omap lookup idx)) as (q2 & -> & ?); try done.
    + lia.
    + intros j Hj. apply Hlook. by right.
    + eauto.
Qed.

Lemma saved_dispatched v m p f :
  tracks v m p f -> tracks v (set_Dispatched [] m) p [] \/ f <> [].
Proof.
  intros Ht. destruct f; [left|by right]. destruct Ht.
  constructor; simpl; try done; try (intros; set_solver); constructor.
Qed.

(** After the deletion of every dispatched item nothing is in flight. *)
Lemma tracks_cleanup v v1 m p f :
  tracks v m p f ->
  (forall k, v1 !! k = if decide (k ∈ map getItemKey (CurrentlyDispatchedItems m)) then None
                       else v !! k) ->
  tracks v1 m p [].
Proof.
  intros Ht Hv1. destruct Ht. constructor; try done.
  - intros k r Hk. destruct (tr_pending k r Hk) as (b & ctx & Hb & Hu). exists b, ctx.
    split; [|done]. rewrite Hv1, decide_False; [done|].
    intros (i & Heq & Hi)%list_elem_of_fmap. apply tr_dispatched in Hi as [? _].
    apply getItemKey_inj in Heq; lia.
  - intros i r Hin. by apply elem_of_nil in Hin.
  - intros i Hi. destruct (tr_dispatched i Hi) as [? _]. split; [done|]. right.
    rewrite Hv1, decide_True; [done|]. by apply list_elem_of_fmap_2.
  - constructor.
Qed.

Lemma dispatched_reqs_snd cdi f :
  (dispatched_reqs cdi f).*2 = omap (fun i => (list_to_map f : gmap Z T) !! i) cdi.
Proof.
  unfold dispatched_reqs. induction cdi as [|i cdi IH]; simpl; [done|].
  destruct (_ !! i); simpl; [f_equal|]; exact IH.
Qed.

Lemma tracks_lookup v m p f i :
  tracks v m p f -> i ∈ CurrentlyDispatchedItems m ->
  match (list_to_map f : gmap Z T) !! i with
  | Some r => exists b (ctx : Ctx), v !! getItemKey i = Some (Some b) /\
                encoding_Unmarshal (Some b) = inl (ctx, r)
  | None => v !! getItemKey i = None
  end.
Proof.
  intros Ht Hi. destruct ((list_to_map f : gmap Z T) !! i) as [r|] eqn:E.
  - apply elem_of_list_to_map_2 in E. exact (proj2 (tr_inflight _ _ _ _ Ht i r E)).
  - destruct (tr_dispatched _ _ _ _ Ht i Hi) as [_ [Hin|?]]; [|done].
    apply not_elem_of_list_to_map_2 in E. done.
Qed.

(** The metadata the storage holds leave room for the recovery. *)
Definition room_storage (v : storage_map) : Prop :=
  forall b m, v !! metadataKey = Some (Some b) -> proto_Unmarshal b = inl m ->
  WriteIndex m + 2 * Z.of_nat (length (CurrentlyDispatchedItems m)) + 1 < 2 ^ 62.

Lemma enqueue_spec (q : pq) p f :
  let cdi := CurrentlyDispatchedItems (metadata q) in
  tracks (view (client q)) (metadata q) p f ->
  (exists b, view (client q) !! metadataKey = Some (Some b) /\ b <> [] /\
             proto_Unmarshal b = inl (metadata q)) ->
  no_legacy (view (client q)) -> room_storage (view (client q)) ->
  exists q', enqueueNotDispatchedReqs (Ctx := Ctx) (T := T) cdi q = q' /\
    tracks (view (client q')) (metadata q') (p ++ (dispatched_reqs cdi f).*2) [] /\
    saved (view (client q')) (p ++ (dispatched_reqs cdi f).*2) [] /\ no_legacy (view (client q')) /\
    stopped q' = stopped q /\ refClient q' = refClient q.
Proof.
  intros cdi Ht (b & Hb & Hne & Hu) Hl Hroom.
  pose proof (Hroom b _ Hb Hu) as Hlim. fold cdi in Hlim.
  rewrite dispatched_reqs_snd. unfold enqueueNotDispatchedReqs.
  destruct (decide (cdi = [])) as [Hnil|Hcons].
  { rewrite Hnil. simpl. exists q. rewrite app_nil_r.
    assert (f = []) as ->.
    { destruct f as [|[i r] f]; [done|].
      destruct (tr_inflight _ _ _ _ Ht i r ltac:(by left)) as [Hi _]. fold cdi in Hi.
      rewrite Hnil in Hi. by apply elem_of_nil in Hi. }
    split_and!; try done. left. exists b, (metadata q). done. }
  destruct cdi as [|i0 cdi'] eqn:Ecdi; [done|]. rewrite <- Ecdi in *. cbv zeta.
  rewrite <- !(map_map getItemKey).
  destruct (batch_spec (client q) (map GetOperation (map getItemKey cdi))) as (c1 & -> & Hv1).
  rewrite batch_map_gets in *. simpl in Hv1 |- *.
  destruct (batch_spec c1 (map DeleteOperation (map getItemKey cdi))) as (c2 & -> & Hv2).
  simpl. rewrite Hv1 in Hv2.
  assert (Hlook : forall k, view c2 !! k =
            if decide (k ∈ map getItemKey cdi) then None else view (client q) !! k)
    by (intros k; by rewrite Hv2, batch_map_deletes).
  assert (Hmeta : view c2 !! metadataKey = Some (Some b)).
  { rewrite Hlook, decide_False; [done|].
    intros (i & Heq & _)%list_elem_of_fmap. by apply (getItemKey_metadataKey i). }
  assert (Htc : tracks (view c2) (metadata q) p []) by by eapply tracks_cleanup.
  eapply (putRetrieved_spec (view (client q)) cdi (set_client c2 q) p
            _ (fun i => (list_to_map f : gmap Z T) !! i)); simpl; try done.
  - left. exists b, (metadata q). done.
  - unfold no_legacy in *. rewrite !Hlook. destruct Hl as (-> & -> & ->). by repeat case_decide.
  - fold cdi. lia.
  - intros i Hi. by eapply tracks_lookup.
Qed.

Lemma initClient_fresh c :
  no_legacy (view c) -> default [] (default None (view c !! metadataKey)) = [] ->
  exists q', initClient (Ctx := Ctx) (T := T) (newPersistentQueue c) c = q' /\
    represents q' [] [] /\ stopped q' = false /\ refClient q' = 1.
Proof.
  intros (L1 & L2 & L3) Hm. unfold initClient, loadQueueMetadata. simpl.
  destruct (get_spec c metadataKey) as (c1 & -> & Hv1). rewrite Hm. simpl.
  unfold loadLegacyMetadata, retrieveAndEnqueueNotDispatchedReqs. simpl.
  match goal with |- context [client_Batch ?c ?ops] =>
    destruct (batch_spec c ops) as (c2 & -> & Hv2) end.
  simpl in *. unfold op_step in *; simpl in *. rewrite Hv1, L1, L2. simpl.
  destruct (get_spec c2 legacyCurrentlyDispatchedItemsKey) as (c3 & -> & Hv3).
  rewrite Hv2, Hv1, L3. simpl.
  assert (Hz : proto_Marshal zeroMetadata = inl []) by by apply marshal_empty.
  change (set_WriteIndex 0 (set_ReadIndex 0 zeroMetadata)) with zeroMetadata. rewrite Hz.
  destruct (set_spec c3 metadataKey (Some [])) as (c4 & -> & Hv4). simpl.
  match goal with |- context [client_Batch ?c ?ops] =>
    destruct (batch_spec c ops) as (c5 & -> & Hv5) end.
  simpl in *. eexists. split; [done|]. simpl. split; [|done].
  assert (Hlegacy : no_legacy (view c5)).
  { rewrite Hv5. unfold no_legacy. rewrite !lookup_delete. done. }
  constructor; simpl; try done.
  - constructor; simpl; try done; try (by intros; set_solver); constructor.
  - right. split_and!; try done. rewrite Hv5, !lookup_delete_ne by done.
    rewrite Hv4, lookup_insert_eq. done.
Qed.

(** ** Start on what a crash left in the storage *)

Lemma initClient_spec c p f :
  saved (view c) p f -> no_legacy (view c) -> room_storage (view c) ->
  exists q' f', initClient (Ctx := Ctx) (T := T) (newPersistentQueue c) c = q' /\ f ≡ₚ f' /\
    represents q' (p ++ f'.*2) [] /\ stopped q' = false /\ refClient q' = 1.
Proof.
  intros [(b & m & Hb & Hne & Hu & Ht)|(-> & -> & Hm)] Hl Hroom.
  2: { destruct (initClient_fresh c Hl Hm) as (q' & ? & ?). exists q', []. done. }
  unfold initClient, loadQueueMetadata. simpl.
  destruct (get_spec c metadataKey) as (c1 & -> & Hv1). rewrite Hb. simpl.
  destruct b as [|x b]; [done|]. rewrite Hu. simpl.
  match goal with |- context [enqueueNotDispatchedReqs _ ?q0] =>
    destruct (enqueue_spec q0 p f) as (q1 & Hq1 & Ht1 & Hs1 & Hl1 & St1 & Rf1) end;
    simpl; rewrite ?Hv1; eauto.
  simpl in *. eexists _, (dispatched_reqs (CurrentlyDispatchedItems m) f). split; [done|].
  split; [symmetry; by eapply dispatched_reqs_perm|]. rewrite Hq1. simpl.
  split; [|by rewrite St1, Rf1].
  constructor; simpl; try done.
  destruct (saved_dispatched _ _ _ _ Ht1); done.
Qed.
End recovery.

(** ** The labelled steps, and the simulation *)

Section simulation.
Context {Ctx T ST : Type}.
Context `{Request T} `{MetadataCodecLaws} `{EncodingLaws Ctx T} `{ReliableStorage ST view}.
Context (cfg : Config).
Abbreviation W := (world ST).
Abbreviation represents := (represents (Ctx := Ctx) (T := T) (view := view)).

(** Offer accepts the request, or leaves the queue as it was. *)
Lemma Offer_spec ctx r q p f :
  represents q p f -> room q ->
  (exists q', Offer cfg ctx r q = (q', OfferReturn None) /\ represents q' (p ++ [r]) f) \/
  (exists res, Offer cfg ctx r q = (q, res) /\ res <> OfferReturn None).
Proof.
  intros [Ht Hd Hs Hl] Hroom. unfold Offer. case_decide.
  { right. destruct (negb _); eexists; (split; [done|done]). }
  left. cbv zeta.
  match goal with |- context [putInternal ctx r ?x] => set (q0 := x) end.
  destruct (putInternal_spec ctx r q0 p f) as (q1 & -> & Hm & Ht1 & Hs1 & Hl1);
    [by apply tracks_sizes|done|done|].
  eexists; split; [done|]. constructor; try done. by rewrite Hm.
Qed.

Lemma Offer_inv ctx r q q' res p f :
  represents q p f -> room q -> Offer cfg ctx r q = (q', res) ->
  (res = OfferReturn None /\ represents q' (p ++ [r]) f) \/ (res <> OfferReturn None /\ q' = q).
Proof.
  intros Hrep Hroom E.
  destruct (Offer_spec ctx r q p f Hrep Hroom) as [(q1 & E' & ?)|(res' & E' & ?)];
    rewrite E' in E; simplify_eq; eauto.
Qed.

Lemma represents_unref q p f : represents q p f -> represents (fst (unrefClient q)) p f.
Proof.
  intros []. unfold unrefClient. case_decide; [|done].
  destruct (close_spec (client (set_refClient (refClient q - 1) q))) as (c & e & -> & Hv).
  simpl in *. constructor; simpl; rewrite ?Hv; done.
Qed.

Lemma represents_sizes x y q p f :
  represents q p f -> represents (set_metadata (set_sizes x y (metadata q)) q) p f.
Proof. intros []. constructor; simpl; try done. by apply tracks_sizes. Qed.

Lemma onDone_spec id err q p f i r f' :
  represents q p f -> f ≡ₚ (i, r) :: f' -> index id = i ->
  represents (onDone id err q) p (if IsShutdownErr err then f else f').
Proof.
  intros Hrep Hf Hi. unfold onDone. destruct (IsShutdownErr err);
    apply represents_unref; [done|]. rewrite Hi.
  match goal with |- context [itemDispatchingFinish i (set_metadata (set_sizes ?x ?y _) q)] =>
    destruct (itemDispatchingFinish_spec _ p f i r f' (represents_sizes x y _ _ _ Hrep) Hf)
      as (q' & -> & [] & _) end.
  by constructor.
Qed.

(** One critical section, or a crash followed by Start on the same storage.  The
    side conditions bound the number of requests ever written by 2^62. *)
Inductive lstep : label T -> W -> W -> Prop :=
| ls_accept q q' out (ctx : Ctx) (req : T) :
    room q -> Offer cfg ctx req q = (q', OfferReturn None) ->
    lstep (LAccept req) (mkWorld q out) (mkWorld q' out)
| ls_reject q q' out (ctx : Ctx) (req : T) res :
    room q -> Offer cfg ctx req q = (q', res) -> res <> OfferReturn None ->
    lstep LReject (mkWorld q out) (mkWorld q' out)
| ls_deliver q q' out (ctx : Ctx) (req : T) id :
    room q -> Read q = Some (q', RdItem ctx req id) ->
    lstep (LDeliver (index id) req) (mkWorld q out) (mkWorld q' (id :: out))
| ls_idle q q' out (r : read_result Ctx T) :
    room q -> Read q = Some (q', r) -> r = RdStopped \/ r = RdWait ->
    lstep LIdle (mkWorld q out) (mkWorld q' out)
| ls_done q out1 id out2 err :
    lstep (if IsShutdownErr err then LKeep else LComplete (index id))
          (mkWorld q (out1 ++ id :: out2)) (mkWorld (onDone id err q) (out1 ++ out2))
| ls_shutdown q q' out err :
    Shutdown (Some q) = (Some q', err) -> lstep LIdle (mkWorld q out) (mkWorld q' out)
| ls_crash q q' out sid :
    room_storage (view (client q)) ->
    Start (Ctx := Ctx) (T := T) sid {[sid := StorageExtension (inl (client q))]} = inl q' ->
    lstep LCrash (mkWorld q out) (mkWorld q' []).

Record refines (w : W) (s : aqueue T) : Prop := {
  ref_represents : represents (queue w) (pending s) (inflight s);
  ref_outstanding : index <$> outstanding w ⊆+ (inflight s).*1;
}.

Lemma outstanding_inflight out1 (id : indexDone) out2 (f : list (Z * T)) :
  index <$> (out1 ++ id :: out2) ⊆+ f.*1 ->
  exists r f', f ≡ₚ (index id, r) :: f' /\ index <$> (out1 ++ out2) ⊆+ f'.*1.
Proof.
  intros Hsub.
  assert (Hp : index <$> (out1 ++ id :: out2) ≡ₚ index id :: (index <$> (out1 ++ out2)))
    by (rewrite !fmap_app; simpl; solve_Permutation).
  rewrite Hp in Hsub.
  assert (Hin : index id ∈ f.*1) by (eapply elem_of_submseteq; [|exact Hsub]; by left).
  apply list_elem_of_fmap in Hin as ([i r] & Hi & Hin). simpl in Hi. subst i.
  apply elem_of_Permutation in Hin as [f' Hf']. exists r, f'. split; [done|].
  rewrite Hf' in Hsub. simpl in Hsub. by apply (submseteq_app_inv_l _ _ [index id]) in Hsub.
Qed.

Lemma Shutdown_represents q q' err p f :
  Shutdown (Some q) = (Some q', err) -> represents q p f -> represents q' p f.
Proof.
  intros E Hrep. simpl in E.
  match goal with E : context [unrefClient ?x] |- _ =>
    assert (Hx : represents x p f) by (destruct Hrep; by constructor);
    apply represents_unref in Hx; destruct (unrefClient x) end.
  by simplify_eq.
Qed.

Lemma Read_inv q q' (r : read_result Ctx T) p f :
  represents q p f -> room q -> Read q = Some (q', r) ->
  match r with
  | RdItem _ req id => exists p', p = req :: p' /\ represents q' p' (f ++ [(index id, req)])
  | _ => q' = q
  end.
Proof.
  intros Hrep Hroom E. destruct (stopped q) eqn:Hst.
  { unfold Read in E. rewrite Hst in E. by simplify_eq. }
  destruct p as [|r0 p].
  - rewrite (Read_wait (Ctx := Ctx) (T := T) q f Hrep Hst) in E. by simplify_eq.
  - destruct (Read_deliver (Ctx := Ctx) (T := T) q r0 p f Hrep Hroom Hst) as (q1 & ctx & Er & Hq1).
    rewrite Er in E. simplify_eq/=. eauto.
Qed.

Lemma lstep_simulated l w w' s :
  lstep l w w' -> refines w s -> exists s', astep s l s' /\ refines w' s'.
Proof.
  intros Hstep [Hrep Hout]. destruct s as [a p f c]; simpl in *. destruct Hstep; simpl in *.
  - match goal with Ho : Offer _ _ _ _ = _ |- _ =>
      destruct (Offer_inv _ _ _ _ _ _ _ Hrep ltac:(done) Ho) as [[_ Hq1]|[? _]]; [|done] end.
    eexists; split; [constructor|]. by split.
  - match goal with Ho : Offer _ _ _ _ = _ |- _ =>
      destruct (Offer_inv _ _ _ _ _ _ _ Hrep ltac:(done) Ho) as [[? _]|[_ ->]]; [done|] end.
    eexists; split; [constructor; by left|]. by split.
  - match goal with Hr : Read _ = _ |- _ =>
      destruct (Read_inv _ _ _ _ _ Hrep ltac:(done) Hr) as (p' & -> & Hq') end.
    eexists; split; [constructor|]. split; simpl; [done|].
    rewrite fmap_app, (comm (++)). simpl. by constructor.
  - match goal with Hr : Read _ = _ |- _ =>
      pose proof (Read_inv _ _ _ _ _ Hrep ltac:(done) Hr) as Hq end.
    assert (q' = q) as ->
      by (match goal with Ho : _ \/ _ |- _ => destruct Ho end; by subst).
    eexists; split; [constructor; by eauto|]. by split.
  - destruct (outstanding_inflight _ _ _ _ Hout) as (r & f' & Hf & Hsub).
    pose proof (onDone_spec id err q p f (index id) r f' Hrep Hf eq_refl) as Hd.
    destruct (IsShutdownErr err).
    + eexists; split; [constructor; by eauto|]. split; simpl; [done|].
      rewrite Hf. simpl. by constructor.
    + eexists; split; [by econstructor|]. by split.
  - eexists; split; [constructor; by eauto|]. split; simpl; [|done].
    eauto using Shutdown_represents.
  - destruct Hrep as [_ _ Hs Hl].
    match goal with Hr : Start _ _ = _ |- _ => unfold Start, toStorageClient in Hr;
      rewrite lookup_singleton in Hr; rewrite decide_True in Hr by done; simplify_eq end.
    destruct (initClient_spec (client q) p f Hs Hl) as (q' & f' & Hq' & Hf & Hr & _); [done|].
    eexists; split; [by econstructor|]. split; simpl; [by rewrite Hq'|]. constructor.
Qed.

(** A run and the labels it shows. *)
Inductive lsteps : list (label T) -> W -> W -> Prop :=
| lsteps_nil w : lsteps [] w w
| lsteps_snoc ls l w w1 w2 : lsteps ls w w1 -> lstep l w1 w2 -> lsteps (ls ++ [l]) w w2.

Lemma lsteps_cons ls l w w1 w2 : lstep l w w1 -> lsteps ls w1 w2 -> lsteps (l :: ls) w w2.
Proof.
  intros Hl. induction 1 as [w1|ls l' w1 w2 w3 _ IH Hl'].
  - exact (lsteps_snoc [] l w w w1 (lsteps_nil w) Hl).
  - exact (lsteps_snoc (l :: ls) l' w w2 w3 (IH Hl) Hl').
Qed.

Inductive asteps : list (label T) -> aqueue T -> aqueue T -> Prop :=
| asteps_nil s : asteps [] s s
| asteps_snoc ls l s s1 s2 : asteps ls s s1 -> astep s1 l s2 -> asteps (ls ++ [l]) s s2.

Definition accepts (ls : list (label T)) : list T :=
  omap (fun l => match l with LAccept r => Some r | _ => None end) ls.
Definition deliveries (ls : list (label T)) : list T :=
  omap (fun l => match l with LDeliver _ r => Some r | _ => None end) ls.
Definition completions (ls : list (label T)) : list Z :=
  omap (fun l => match l with LComplete i => Some i | _ => None end) ls.

Definition emptyQueue : aqueue T := mkAQueue [] [] [] [].

Lemma asteps_accounts ls s :
  asteps ls emptyQueue s ->
  conserved s /\ accepted s = accepts ls /\ length (completed s) = length (completions ls).
Proof.
  intros Hsteps. remember emptyQueue as s0. induction Hsteps as [|ls l s0 s1 s2 _ IH Hl]; subst.
  { unfold conserved. simpl. by split_and!. }
  destruct (IH eq_refl) as (Hc & Ha & Hn). split; [by eapply astep_conserved|].
  unfold accepts, completions in *. rewrite !omap_app, length_app.
  destruct Hl as [| | | |s l [-> | [-> | ->]]]; simpl in *; rewrite ?app_nil_r, ?Ha; split;
    first [done|lia].
Qed.

Lemma asteps_fifo ls s :
  asteps ls emptyQueue s -> LCrash ∉ ls -> accepts ls = deliveries ls ++ pending s.
Proof.
  intros Hsteps. remember emptyQueue as s0. induction Hsteps as [|ls l s0 s1 s2 _ IH Hl]; subst.
  { done. }
  intros Hnc. apply not_elem_of_app in Hnc as [Hnc Hl0].
  specialize (IH eq_refl Hnc). unfold accepts, deliveries in *. rewrite !omap_app, IH.
  destruct Hl as [| | | |s l [-> | [-> | ->]]]; simpl in *; rewrite ?app_nil_r;
    first [done|by rewrite <- !app_assoc|set_solver].
Qed.

Lemma lsteps_simulated ls w w' s :
  lsteps ls w w' -> refines w s -> exists s', asteps ls s s' /\ refines w' s'.
Proof.
  intros Hsteps Hr. induction Hsteps as [|ls l w w1 w2 _ IH Hl].
  - exists s. split; [constructor|done].
  - destruct (IH Hr) as (s1 & Hs1 & Hr1). destruct (lstep_simulated _ _ _ _ Hl Hr1) as (s2 & ? & ?).
    exists s2. split; [by econstructor|done].
Qed.

(** A storage no queue has written. *)
Definition fresh (v : storage_map) : Prop :=
  no_legacy v /\ default [] (default None (v !! metadataKey)) = [].

Lemma fresh_refines c : fresh (view c) ->
  refines (mkWorld (initClient (Ctx := Ctx) (T := T) (newPersistentQueue c) c) []) emptyQueue.
Proof.
  intros [Hl Hm]. destruct (initClient_fresh (Ctx := Ctx) (T := T) c Hl Hm) as (q' & -> & Hr & _).
  split; simpl; [done|constructor].
Qed.


End simulation.

(** * Concrete runs of the persistent queue *)

#[export] Instance Z_request : Request Z := {| ItemsCount := fun _ => 1; BytesSize := fun r => r |}.

#[export] Instance Z_encoding : Encoding unit Z := {|
  encoding_Marshal := fun _ r => inl [r];
  encoding_Unmarshal := fun b => match b with Some [r] => inl (tt, r) | _ => inr errInvalidValue end;
|}.

#[export] Instance Z_encoding_laws : EncodingLaws unit Z.
Proof. split. intros [] r. by exists [r], tt. Qed.

#[export] Instance list_codec : MetadataCodec := {|
  proto_Marshal m :=
    inl (if decide (m = zeroMetadata) then []
         else ItemsSize m :: BytesSize' m :: ReadIndex m :: WriteIndex m :: CurrentlyDispatchedItems m);
  proto_Unmarshal b :=
    match b with
    | [] => inl zeroMetadata
    | a :: b :: c :: d :: l => inl (mkMetadata a b c d l)
    | _ => inr errInvalidValue
    end;
|}.

#[export] Instance list_codec_laws : MetadataCodecLaws.
Proof.
  split; intros m; simpl.
  - case_decide as Hm; eexists; (split; [done|]); [by rewrite Hm|by destruct m].
  - case_decide; by split.
Qed.

Definition wcfg : Config := mkConfig 2 SizerTypeRequests false.
Definition emptyStore : MemStorage := mkMem ∅ false.
Definition wworld : world MemStorage :=
  mkWorld (initClient (Ctx := unit) (T := Z) (newPersistentQueue emptyStore) emptyStore) [].

Lemma complete_first (q : persistentQueue MemStorage) id out i :
  index id = i ->
  lstep (Ctx := unit) (T := Z) (view := st) wcfg (LComplete i)
    (mkWorld q (id :: out)) (mkWorld (onDone id None q) out).
Proof. intros <-. exact (ls_done (Ctx := unit) wcfg q [] id out None). Qed.

Lemma deliver_at (q q' : persistentQueue MemStorage) out i r id :
  room q -> Read q = Some (q', RdItem tt r id) -> index id = i ->
  lstep (Ctx := unit) (T := Z) (view := st) wcfg (LDeliver i r)
    (mkWorld q out) (mkWorld q' (id :: out)).
Proof. intros Hr E <-. by apply (ls_deliver wcfg _ _ _ tt). Qed.

Lemma room_storage_at (v : storage_map) b0 m0 :
  v !! metadataKey = Some (Some b0) -> proto_Unmarshal b0 = inl m0 ->
  WriteIndex m0 + 2 * Z.of_nat (length (CurrentlyDispatchedItems m0)) + 1 < 2 ^ 62 ->
  room_storage v.
Proof. intros Hb Hm Hlt b m Hb' Hm'. rewrite Hb in Hb'. simplify_eq. rewrite Hm in Hm'. by simplify_eq. Qed.

Ltac run_step :=
  first [ eapply (ls_reject (Ctx := unit) wcfg _ _ _ tt 30); [vm_compute; reflexivity|vm_compute; reflexivity|discriminate]
        | eapply (ls_accept (Ctx := unit) wcfg _ _ _ tt); [vm_compute; reflexivity|vm_compute; reflexivity]
        | eapply deliver_at; [vm_compute; reflexivity|vm_compute; reflexivity|reflexivity]
        | eapply (ls_crash (Ctx := unit) wcfg _ _ _ "file_storage");
          [eapply room_storage_at; [vm_compute; reflexivity|vm_compute; reflexivity|vm_compute; reflexivity]|vm_compute; reflexivity]
        | eapply complete_first; vm_compute; reflexivity ].

(** Two requests accepted, a third refused, one read, one completed, one read, a crash,
    and the request that was in flight read again. *)
Definition run_labels : list (label Z) :=
  [LAccept 10; LAccept 20; LReject; LDeliver 0 10; LComplete 0; LDeliver 1 20; LCrash; LDeliver 2 20].



Definition fifo_labels : list (label Z) :=
  [LAccept 10; LDeliver 0 10; LAccept 20; LComplete 0; LAccept 30].


(** ** The life cycle over a monitored client *)

Abbreviation MStore := (Monitored MemStorage).

Definition mstart : persistentQueue MStore :=
  initClient (Ctx := unit) (T := Z) (newPersistentQueue (mkMonitored emptyStore 0 false))
    (mkMonitored emptyStore 0 false).

