(* ===== verification/PData.v ===== *)
(** * PData: the telemetry data of pdata/ptrace, pdata/plog and pdata/pmetric

    The three-level slices of the signals with the operations the batching code uses:
    RemoveIf, MoveAndAppendTo, the item counts and the serialized sizes.  Resources,
    scopes and the items themselves are opaque: the class [PData] holds their types,
    their zero values (what NewX and a source that was moved from hold) and their
    SizeProto.  Deprecated scope lists, which ExportRequest migrates away, are left out. *)

From S2P Require Import Prelude.

Class PData := {
  Resource : Type;
  Scope : Type;
  Span : Type;
  LogRecord : Type;
  NumberDataPoint : Type;
  HistogramDataPoint : Type;
  ExponentialHistogramDataPoint : Type;
  SummaryDataPoint : Type;
  newResource : Resource;
  newScope : Scope;
  newSpan : Span;
  newLogRecord : LogRecord;
  newNumberDataPoint : NumberDataPoint;
  newHistogramDataPoint : HistogramDataPoint;
  newExponentialHistogramDataPoint : ExponentialHistogramDataPoint;
  newSummaryDataPoint : SummaryDataPoint;
  Resource_SizeProto : Resource -> Z;
  Scope_SizeProto : Scope -> Z;
  Span_SizeProto : Span -> Z;
  LogRecord_SizeProto : LogRecord -> Z;
  NumberDataPoint_SizeProto : NumberDataPoint -> Z;
  HistogramDataPoint_SizeProto : HistogramDataPoint -> Z;
  ExponentialHistogramDataPoint_SizeProto : ExponentialHistogramDataPoint -> Z;
  SummaryDataPoint_SizeProto : SummaryDataPoint -> Z;
}.

(** A serialized size is not negative. *)
Class PDataLaws `{PData} := {
  Resource_SizeProto_nonneg : forall x, 0 <= Resource_SizeProto x;
  Scope_SizeProto_nonneg : forall x, 0 <= Scope_SizeProto x;
  Span_SizeProto_nonneg : forall x, 0 <= Span_SizeProto x;
  LogRecord_SizeProto_nonneg : forall x, 0 <= LogRecord_SizeProto x;
}.

(** ** Slices *)

(** RemoveIf calls [f], which may change the element, on each element in turn and
    drops those for which it returns true. *)
Fixpoint RemoveIf {S A} (f : S -> A -> S * A * bool) (s : S) (es : list A) : S * list A :=
  match es with
  | [] => (s, [])
  | el :: rest =>
      let '(s, el, removed) := f s el in
      let '(s, rest) := RemoveIf f s rest in
      (s, if (removed : bool) then rest else el :: rest)
  end.

(** (source, destination) after MoveAndAppendTo. *)
Definition MoveAndAppendTo {A} (es dest : list A) : list A * list A := ([], dest ++ es).

(** (source, destination) after [src.MoveTo(dest.AppendEmpty())]: the source is reset. *)
Definition MoveToAppended {A} (zero src : A) (dest : list A) : A * list A := (zero, dest ++ [src]).

(** ** Serialized sizes *)

(** bits.Len64. *)
Definition Len64 (x : Z) : Z := if decide (x = 0) then 0 else Z.log2 x + 1.

Definition Sov (x : Z) : Z := (Len64 (Z.lor x 1) + 6) / 7.

(** A length-delimited field with a one-byte tag. *)
Definition lenField (l : Z) : Z := 1 + Sov (u64 l) + l.

Definition stringField (s : string) : Z :=
  let l := Z.of_nat (String.length s) in if decide (l > 0) then lenField l else 0.

Section data.
Context `{PData}.

(** ** Traces *)

Record ScopeSpans := mkScopeSpans {
  ss_Scope : Scope;
  ss_SchemaUrl : string;
  Spans : list Span;
}.
Record ResourceSpans := mkResourceSpans {
  rs_Resource : Resource;
  rs_SchemaUrl : string;
  rs_ScopeSpans : list ScopeSpans;
}.
Record Traces := mkTraces { td_ResourceSpans : list ResourceSpans }.

Definition NewScopeSpans : ScopeSpans := mkScopeSpans newScope "" [].
Definition NewResourceSpans : ResourceSpans := mkResourceSpans newResource "" [].
Definition NewTraces : Traces := mkTraces [].

Definition set_Spans (l : list Span) (ss : ScopeSpans) : ScopeSpans :=
  mkScopeSpans (ss_Scope ss) (ss_SchemaUrl ss) l.
Definition set_ScopeSpans (l : list ScopeSpans) (rs : ResourceSpans) : ResourceSpans :=
  mkResourceSpans (rs_Resource rs) (rs_SchemaUrl rs) l.

Definition ScopeSpans_SizeProto (ss : ScopeSpans) : Z :=
  lenField (Scope_SizeProto (ss_Scope ss))
  + sum_of (fun s => lenField (Span_SizeProto s)) (Spans ss)
  + stringField (ss_SchemaUrl ss).
Definition ResourceSpans_SizeProto (rs : ResourceSpans) : Z :=
  lenField (Resource_SizeProto (rs_Resource rs))
  + sum_of (fun ss => lenField (ScopeSpans_SizeProto ss)) (rs_ScopeSpans rs)
  + stringField (rs_SchemaUrl rs).
Definition Traces_SizeProto (td : Traces) : Z :=
  sum_of (fun rs => lenField (ResourceSpans_SizeProto rs)) (td_ResourceSpans td).

Definition SpanCount (td : Traces) : Z :=
  sum_of (fun rs => sum_of (fun ss => Z.of_nat (length (Spans ss))) (rs_ScopeSpans rs))
         (td_ResourceSpans td).

(** ** Logs *)

Record ScopeLogs := mkScopeLogs {
  sl_Scope : Scope;
  sl_SchemaUrl : string;
  LogRecords : list LogRecord;
}.
Record ResourceLogs := mkResourceLogs {
  rl_Resource : Resource;
  rl_SchemaUrl : string;
  rl_ScopeLogs : list ScopeLogs;
}.
Record Logs := mkLogs { ld_ResourceLogs : list ResourceLogs }.

Definition NewScopeLogs : ScopeLogs := mkScopeLogs newScope "" [].
Definition NewResourceLogs : ResourceLogs := mkResourceLogs newResource "" [].
Definition NewLogs : Logs := mkLogs [].

Definition set_LogRecords (l : list LogRecord) (sl : ScopeLogs) : ScopeLogs :=
  mkScopeLogs (sl_Scope sl) (sl_SchemaUrl sl) l.
Definition set_ScopeLogs (l : list ScopeLogs) (rl : ResourceLogs) : ResourceLogs :=
  mkResourceLogs (rl_Resource rl) (rl_SchemaUrl rl) l.

Definition ScopeLogs_SizeProto (sl : ScopeLogs) : Z :=
  lenField (Scope_SizeProto (sl_Scope sl))
  + sum_of (fun s => lenField (LogRecord_SizeProto s)) (LogRecords sl)
  + stringField (sl_SchemaUrl sl).
Definition ResourceLogs_SizeProto (rl : ResourceLogs) : Z :=
  lenField (Resource_SizeProto (rl_Resource rl))
  + sum_of (fun sl => lenField (ScopeLogs_SizeProto sl)) (rl_ScopeLogs rl)
  + stringField (rl_SchemaUrl rl).
Definition Logs_SizeProto (ld : Logs) : Z :=
  sum_of (fun rl => lenField (ResourceLogs_SizeProto rl)) (ld_ResourceLogs ld).

Definition LogRecordCount (ld : Logs) : Z :=
  sum_of (fun rl => sum_of (fun sl => Z.of_nat (length (LogRecords sl))) (rl_ScopeLogs rl))
         (ld_ResourceLogs ld).

(** ** Metrics *)

Inductive MetricData :=
| MetricEmpty
| MetricGauge (dps : list NumberDataPoint)
| MetricSum (dps : list NumberDataPoint) (temporality : Z) (monotonic : bool)
| MetricHistogram (dps : list HistogramDataPoint) (temporality : Z)
| MetricExponentialHistogram (dps : list ExponentialHistogramDataPoint) (temporality : Z)
| MetricSummary (dps : list SummaryDataPoint).

(** [m_Metadata]: the sizes of the key-values of the metadata map are all that is read. *)
Record Metric := mkMetric {
  m_Name : string;
  m_Description : string;
  m_Unit : string;
  m_Metadata : list Z;
  m_Data : MetricData;
}.
Record ScopeMetrics := mkScopeMetrics {
  sm_Scope : Scope;
  sm_SchemaUrl : string;
  sm_Metrics : list Metric;
}.
Record ResourceMetrics := mkResourceMetrics {
  rm_Resource : Resource;
  rm_SchemaUrl : string;
  rm_ScopeMetrics : list ScopeMetrics;
}.
Record Metrics := mkMetrics { md_ResourceMetrics : list ResourceMetrics }.

Definition NewMetric : Metric := mkMetric "" "" "" [] MetricEmpty.
Definition NewScopeMetrics : ScopeMetrics := mkScopeMetrics newScope "" [].
Definition NewResourceMetrics : ResourceMetrics := mkResourceMetrics newResource "" [].
Definition NewMetrics : Metrics := mkMetrics [].

Definition set_Data (d : MetricData) (m : Metric) : Metric :=
  mkMetric (m_Name m) (m_Description m) (m_Unit m) (m_Metadata m) d.
Definition set_Metrics (l : list Metric) (sm : ScopeMetrics) : ScopeMetrics :=
  mkScopeMetrics (sm_Scope sm) (sm_SchemaUrl sm) l.
Definition set_ScopeMetrics (l : list ScopeMetrics) (rm : ResourceMetrics) : ResourceMetrics :=
  mkResourceMetrics (rm_Resource rm) (rm_SchemaUrl rm) l.

(** The number of data points of a metric (dataPointsLen, MetricsCountSizer.MetricSize
    and the inner switch of DataPointCount are this switch). *)
Definition dataPointsLen (m : Metric) : Z :=
  match m_Data m with
  | MetricGauge dps => Z.of_nat (length dps)
  | MetricSum dps _ _ => Z.of_nat (length dps)
  | MetricHistogram dps _ => Z.of_nat (length dps)
  | MetricExponentialHistogram dps _ => Z.of_nat (length dps)
  | MetricSummary dps => Z.of_nat (length dps)
  | MetricEmpty => 0
  end.

Definition temporalityField (t : Z) : Z := if decide (t <> 0) then 1 + Sov (u64 t) else 0.

Definition MetricData_SizeProto (d : MetricData) : Z :=
  match d with
  | MetricEmpty => 0
  | MetricGauge dps => lenField (sum_of (fun p => lenField (NumberDataPoint_SizeProto p)) dps)
  | MetricSum dps t mono =>
      lenField (sum_of (fun p => lenField (NumberDataPoint_SizeProto p)) dps
                + temporalityField t + if (mono : bool) then 2 else 0)
  | MetricHistogram dps t =>
      lenField (sum_of (fun p => lenField (HistogramDataPoint_SizeProto p)) dps
                + temporalityField t)
  | MetricExponentialHistogram dps t =>
      lenField (sum_of (fun p => lenField (ExponentialHistogramDataPoint_SizeProto p)) dps
                + temporalityField t)
  | MetricSummary dps => lenField (sum_of (fun p => lenField (SummaryDataPoint_SizeProto p)) dps)
  end.
Definition Metric_SizeProto (m : Metric) : Z :=
  stringField (m_Name m) + stringField (m_Description m) + stringField (m_Unit m)
  + MetricData_SizeProto (m_Data m) + sum_of lenField (m_Metadata m).
Definition ScopeMetrics_SizeProto (sm : ScopeMetrics) : Z :=
  lenField (Scope_SizeProto (sm_Scope sm))
  + sum_of (fun m => lenField (Metric_SizeProto m)) (sm_Metrics sm)
  + stringField (sm_SchemaUrl sm).
Definition ResourceMetrics_SizeProto (rm : ResourceMetrics) : Z :=
  lenField (Resource_SizeProto (rm_Resource rm))
  + sum_of (fun sm => lenField (ScopeMetrics_SizeProto sm)) (rm_ScopeMetrics rm)
  + stringField (rm_SchemaUrl rm).
Definition Metrics_SizeProto (md : Metrics) : Z :=
  sum_of (fun rm => lenField (ResourceMetrics_SizeProto rm)) (md_ResourceMetrics md).

Definition DataPointCount (md : Metrics) : Z :=
  sum_of (fun rm => sum_of (fun sm => sum_of dataPointsLen (sm_Metrics sm)) (rm_ScopeMetrics rm))
         (md_ResourceMetrics md).
End data.

(** ** A concrete instance: every opaque value is its own serialized size *)

Definition sizedPData : PData := {|
  Resource := N; Scope := N; Span := N; LogRecord := N;
  NumberDataPoint := N; HistogramDataPoint := N;
  ExponentialHistogramDataPoint := N; SummaryDataPoint := N;
  newResource := 0%N; newScope := 0%N; newSpan := 0%N; newLogRecord := 0%N;
  newNumberDataPoint := 0%N; newHistogramDataPoint := 0%N;
  newExponentialHistogramDataPoint := 0%N; newSummaryDataPoint := 0%N;
  Resource_SizeProto := Z.of_N; Scope_SizeProto := Z.of_N; Span_SizeProto := Z.of_N;
  LogRecord_SizeProto := Z.of_N; NumberDataPoint_SizeProto := Z.of_N;
  HistogramDataPoint_SizeProto := Z.of_N; ExponentialHistogramDataPoint_SizeProto := Z.of_N;
  SummaryDataPoint_SizeProto := Z.of_N;
|}.

Lemma sizedPData_laws : @PDataLaws sizedPData.
Proof. split; simpl; intros x; apply N2Z.is_nonneg. Qed.

(** * The sizers of EH/sizer *)

Definition sov (x : Z) : Z := (Len64 (Z.lor x 1) + 6) / 7.

(** protoDeltaSizer.DeltaSize. *)
Definition protoDeltaSize (newItemSize : Z) : Z := 1 + newItemSize + sov (u64 newItemSize).

Section sizers.
Context `{PData}.

Record TracesSizer := mkTracesSizer {
  TracesSize : Traces -> Z;
  ResourceSpansSize : ResourceSpans -> Z;
  ScopeSpansSize : ScopeSpans -> Z;
  SpanSize : Span -> Z;
  Traces_DeltaSize : Z -> Z;
}.

Definition TracesCountSizer : TracesSizer := {|
  TracesSize := SpanCount;
  ResourceSpansSize rs := sum_of (fun ss => Z.of_nat (length (Spans ss))) (rs_ScopeSpans rs);
  ScopeSpansSize ss := Z.of_nat (length (Spans ss));
  SpanSize _ := 1;
  Traces_DeltaSize n := n;
|}.

Definition TracesBytesSizer : TracesSizer := {|
  TracesSize := Traces_SizeProto;
  ResourceSpansSize := ResourceSpans_SizeProto;
  ScopeSpansSize := ScopeSpans_SizeProto;
  SpanSize := Span_SizeProto;
  Traces_DeltaSize := protoDeltaSize;
|}.

Record LogsSizer := mkLogsSizer {
  LogsSize : Logs -> Z;
  ResourceLogsSize : ResourceLogs -> Z;
  ScopeLogsSize : ScopeLogs -> Z;
  LogRecordSize : LogRecord -> Z;
  Logs_DeltaSize : Z -> Z;
}.

Definition LogsCountSizer : LogsSizer := {|
  LogsSize := LogRecordCount;
  ResourceLogsSize rl := sum_of (fun sl => Z.of_nat (length (LogRecords sl))) (rl_ScopeLogs rl);
  ScopeLogsSize sl := Z.of_nat (length (LogRecords sl));
  LogRecordSize _ := 1;
  Logs_DeltaSize n := n;
|}.

Definition LogsBytesSizer : LogsSizer := {|
  LogsSize := Logs_SizeProto;
  ResourceLogsSize := ResourceLogs_SizeProto;
  ScopeLogsSize := ScopeLogs_SizeProto;
  LogRecordSize := LogRecord_SizeProto;
  Logs_DeltaSize := protoDeltaSize;
|}.

Record MetricsSizer := mkMetricsSizer {
  MetricsSize : Metrics -> Z;
  ResourceMetricsSize : ResourceMetrics -> Z;
  ScopeMetricsSize : ScopeMetrics -> Z;
  MetricSize : Metric -> Z;
  Metrics_DeltaSize : Z -> Z;
  NumberDataPointSize : NumberDataPoint -> Z;
  HistogramDataPointSize : HistogramDataPoint -> Z;
  ExponentialHistogramDataPointSize : ExponentialHistogramDataPoint -> Z;
  SummaryDataPointSize : SummaryDataPoint -> Z;
}.

Definition MetricsCountSizer : MetricsSizer := {|
  MetricsSize := DataPointCount;
  ResourceMetricsSize rm := sum_of (fun sm => sum_of dataPointsLen (sm_Metrics sm)) (rm_ScopeMetrics rm);
  ScopeMetricsSize sm := sum_of dataPointsLen (sm_Metrics sm);
  MetricSize := dataPointsLen;
  Metrics_DeltaSize n := n;
  NumberDataPointSize _ := 1;
  HistogramDataPointSize _ := 1;
  ExponentialHistogramDataPointSize _ := 1;
  SummaryDataPointSize _ := 1;
|}.

Definition MetricsBytesSizer : MetricsSizer := {|
  MetricsSize := Metrics_SizeProto;
  ResourceMetricsSize := ResourceMetrics_SizeProto;
  ScopeMetricsSize := ScopeMetrics_SizeProto;
  MetricSize := Metric_SizeProto;
  Metrics_DeltaSize := protoDeltaSize;
  NumberDataPointSize := NumberDataPoint_SizeProto;
  HistogramDataPointSize := HistogramDataPoint_SizeProto;
  ExponentialHistogramDataPointSize := ExponentialHistogramDataPoint_SizeProto;
  SummaryDataPointSize := SummaryDataPoint_SizeProto;
|}.
End sizers.
