(* ===== verification/Batch.v ===== *)
(** * Batch: the two RemoveIf callbacks of queuebatch/{traces,logs,metrics}_batch.go

    The extract functions of the three signals walk a slice with the same two callbacks,
    over the captured variables capacityLeft, removedSize and the destination slice:
    [moveOrExtract] for the slices of containers, [moveOrStop] for the items. *)

From S2P Require Import Prelude.
From S2P Require Import GoErrors.
From S2P Require Import Request.
From S2P Require Import PData.

Record extraction (A : Type) := mkExtraction { capacityLeft : Z; removedSize : Z; dest : list A }.
Arguments mkExtraction {A} _ _ _.
Arguments capacityLeft {A} _.
Arguments removedSize {A} _.
Arguments dest {A} _.

Definition moveOrExtract {A} (zero : A) (len : A -> Z) (rawSize DeltaSize : _)
    (extract : A -> Z -> A * (A * Z)) (x : extraction A) (src : A) : extraction A * A * bool :=
  if decide (capacityLeft x = 0) then (x, src, false)
  else
    let raw : Z := rawSize src in
    let size : Z := DeltaSize raw in
    if decide (size > capacityLeft x) then
      let '(src, (ext, extSize)) := extract src (capacityLeft x) in
      let removed := removedSize x + extSize in
      let removed := removed + (size - raw - (DeltaSize (raw - extSize) - (raw - extSize))) in
      let '(ext, dst) :=
        if decide (len ext > 0) then MoveToAppended zero ext (dest x) else (ext, dest x) in
      (mkExtraction 0 removed dst, src, negb (bool_decide (len ext = 0)))
    else
      let '(src, dst) := MoveToAppended zero src (dest x) in
      (mkExtraction (capacityLeft x - size) (removedSize x + size) dst, src, true).

Definition moveOrStop {A} (zero : A) (itemSize DeltaSize : _)
    (x : extraction A) (src : A) : extraction A * A * bool :=
  if decide (capacityLeft x = 0) then (x, src, false)
  else
    let size : Z := DeltaSize (itemSize src : Z) in
    if decide (size > capacityLeft x) then
      (mkExtraction 0 (removedSize x) (dest x), src, false)
    else
      let '(src, dst) := MoveToAppended zero src (dest x) in
      (mkExtraction (capacityLeft x - size) (removedSize x + size) dst, src, true).

(** ** Requests over the data of a signal

    tracesRequest, logsRequest and metricsRequest are the same struct over three data
    types, with the same methods: [Signal] is what the methods use of the data. *)

Class Signal (D Szr : Type) := {
  sizerOf : SizerType -> option Szr;
  dataSize : Szr -> D -> Z;
  dataBytes : D -> Z;
  itemCount : D -> Z;
  (** The source, what was extracted from it, and the removed size. *)
  extractData : Szr -> D -> Z -> D * (D * Z);
  (** (source, destination) after source.ResourceXs().MoveAndAppendTo(destination.ResourceXs()) *)
  moveData : D -> D -> D * D;
  errTooLarge : Z -> error;
}.

Record request (D : Type) := mkRequest { data : D; cachedSize : Z }.
Arguments mkRequest {D} _ _.
Arguments data {D} _.
Arguments cachedSize {D} _.

Section request.
Context {D Szr : Type} `{Signal D Szr}.

Definition newRequest (d : D) : request D := mkRequest d (-1).

Definition setCachedSize (size : Z) (req : request D) : request D := mkRequest (data req) size.

Definition size (sz : Szr) (req : request D) : request D * Z :=
  let req := if decide (cachedSize req = -1)
             then setCachedSize (dataSize sz (data req)) req else req in
  (req, cachedSize req).

(** The loop of split, at most [fuel] extractions; [None]: out of fuel. *)
Fixpoint splitLoop (fuel : nat) (maxSize : Z) (sz : Szr) (req : request D)
  : option (list (request D) * option error) :=
  let '(req, sz0) := size sz req in
  if decide (sz0 > maxSize) then
    match fuel with
    | O => None
    | S fuel =>
        let '(src, (ext, rmSize)) := extractData sz (data req) maxSize in
        let req := mkRequest src (cachedSize req) in
        if decide (itemCount ext = 0) then Some ([], Some (errTooLarge (itemCount (data req))))
        else
          let '(req, sz1) := size sz req in
          let req := setCachedSize (sz1 - rmSize) req in
          match splitLoop fuel maxSize sz req with
          | Some (res, err) => Some (newRequest ext :: res, err)
          | None => None
          end
    end
  else Some ([req], None).

(** Every extraction the loop goes on after takes at least one item. *)
Definition split (maxSize : Z) (sz : Szr) (req : request D) :=
  splitLoop (S (Z.to_nat (itemCount (data req)))) maxSize sz req.

(** (req, dst) after [req.mergeTo(dst, sz)]; MergeSplit never passes a nil sizer. *)
Definition mergeTo (sz : Szr) (req dst : request D) : request D * request D :=
  let '(dst, dsize) := size sz dst in
  let '(req, rsize) := size sz req in
  let dst := setCachedSize (dsize + rsize) dst in
  let req := setCachedSize 0 req in
  let '(src, dstData) := moveData (data req) (data dst) in
  (mkRequest src (cachedSize req), mkRequest dstData (cachedSize dst)).

(** [r2]: no request, a request of the same signal, or one of another type. *)
Definition MergeSplit {Other} (maxSize : Z) (szt : SizerType)
    (r2 : option (request D + Other)) (req : request D)
  : option (list (request D) * option error) :=
  match sizerOf szt with
  | None => Some ([], Some (ErrNew "unknown sizer type"))
  | Some sz =>
      match r2 with
      | Some (inr _) => Some ([], Some (ErrNew "invalid input type"))
      | _ =>
          let req := match r2 with
                     | Some (inl req2) => snd (mergeTo sz req2 req)
                     | _ => req
                     end in
          if decide (maxSize = 0) then Some ([req], None) else split maxSize sz req
      end
  end.
End request.

#[export] Instance request_Request {D Szr} `{Signal D Szr} : Request (request D) := {|
  ItemsCount req := itemCount (data req);
  BytesSize req := dataBytes (data req);
|}.
