(* ===== verification/TracesBatch.v ===== *)
(** * TracesBatch: queuebatch/traces_batch.go and the request of queuebatch/traces.go

    Merging and splitting of trace requests.  A request is a value; the method that
    changes it returns it. *)

From S2P Require Import Prelude.
From S2P Require Import GoErrors.
From S2P Require Import Request.
From S2P Require Import PData.
From S2P Require Import Batch.

Section traces.
Context `{PData}.

(** The source, what was extracted from it, and the removed size. *)
Definition extractScopeSpans (sz : TracesSizer) (srcSS : ScopeSpans) (capacity : Z)
  : ScopeSpans * (ScopeSpans * Z) :=
  let destSS := mkScopeSpans (ss_Scope srcSS) (ss_SchemaUrl srcSS) [] in
  let capLeft := capacity - (Traces_DeltaSize sz capacity - capacity) - ScopeSpansSize sz destSS in
  let '(x, rest) :=
    RemoveIf (moveOrStop newSpan (SpanSize sz) (Traces_DeltaSize sz))
             (mkExtraction capLeft 0 []) (Spans srcSS) in
  (set_Spans rest srcSS, (set_Spans (dest x) destSS, removedSize x)).

Definition extractResourceSpans (sz : TracesSizer) (srcRS : ResourceSpans) (capacity : Z)
  : ResourceSpans * (ResourceSpans * Z) :=
  let destRS := mkResourceSpans (rs_Resource srcRS) (rs_SchemaUrl srcRS) [] in
  let capLeft := capacity - (Traces_DeltaSize sz capacity - capacity) - ResourceSpansSize sz destRS in
  let '(x, rest) :=
    RemoveIf (moveOrExtract NewScopeSpans (fun ss => Z.of_nat (length (Spans ss)))
                (ScopeSpansSize sz) (Traces_DeltaSize sz) (extractScopeSpans sz))
             (mkExtraction capLeft 0 []) (rs_ScopeSpans srcRS) in
  (set_ScopeSpans rest srcRS, (set_ScopeSpans (dest x) destRS, removedSize x)).

Definition extractTraces (sz : TracesSizer) (srcTraces : Traces) (capacity : Z)
  : Traces * (Traces * Z) :=
  let destTraces := NewTraces in
  let capLeft := capacity - TracesSize sz destTraces in
  let '(x, rest) :=
    RemoveIf (moveOrExtract NewResourceSpans (fun rs => Z.of_nat (length (rs_ScopeSpans rs)))
                (ResourceSpansSize sz) (Traces_DeltaSize sz) (extractResourceSpans sz))
             (mkExtraction capLeft 0 []) (td_ResourceSpans srcTraces) in
  (mkTraces rest, (mkTraces (dest x), removedSize x)).

Definition errSpanTooLarge (count : Z) : error :=
  ErrNew ("one span size is greater than max size, dropping items: " +:+ pretty count).

Definition traces_sizer (szt : SizerType) : option TracesSizer :=
  if decide (szt = SizerTypeItems) then Some TracesCountSizer
  else if decide (szt = SizerTypeBytes) then Some TracesBytesSizer
  else None.

Definition traces_move (src dst : Traces) : Traces * Traces :=
  let '(es, rss) := MoveAndAppendTo (td_ResourceSpans src) (td_ResourceSpans dst) in
  (mkTraces es, mkTraces rss).

#[export] Instance traces_signal : Signal Traces TracesSizer := {|
  sizerOf := traces_sizer;
  dataSize := TracesSize;
  dataBytes := Traces_SizeProto;
  itemCount := SpanCount;
  extractData := extractTraces;
  moveData := traces_move;
  errTooLarge := errSpanTooLarge;
|}.

Definition tracesRequest := request Traces.
Definition newTracesRequest (td : Traces) : tracesRequest := newRequest td.
Definition traces_size (sz : TracesSizer) (req : tracesRequest) : tracesRequest * Z := size sz req.
Definition traces_mergeTo (sz : TracesSizer) (req dst : tracesRequest) : tracesRequest * tracesRequest :=
  mergeTo sz req dst.
Definition traces_split (maxSize : Z) (sz : TracesSizer) (req : tracesRequest)
  : option (list tracesRequest * option error) := split maxSize sz req.
Definition traces_MergeSplit {Other} (maxSize : Z) (szt : SizerType)
    (r2 : option (tracesRequest + Other)) (req : tracesRequest)
  : option (list tracesRequest * option error) := MergeSplit maxSize szt r2 req.
End traces.
