(* ===== verification/LogsBatch.v ===== *)
(** * LogsBatch: queuebatch/logs_batch.go and the request of queuebatch/logs.go

    Merging and splitting of log requests.  A request is a value; the method that
    changes it returns it. *)

From S2P Require Import Prelude.
From S2P Require Import GoErrors.
From S2P Require Import Request.
From S2P Require Import PData.
From S2P Require Import Batch.

Section logs.
Context `{PData}.

(** The source, what was extracted from it, and the removed size. *)
Definition extractScopeLogs (sz : LogsSizer) (srcSL : ScopeLogs) (capacity : Z)
  : ScopeLogs * (ScopeLogs * Z) :=
  let destSL := mkScopeLogs (sl_Scope srcSL) (sl_SchemaUrl srcSL) [] in
  let capLeft := capacity - (Logs_DeltaSize sz capacity - capacity) - ScopeLogsSize sz destSL in
  let '(x, rest) :=
    RemoveIf (moveOrStop newLogRecord (LogRecordSize sz) (Logs_DeltaSize sz))
             (mkExtraction capLeft 0 []) (LogRecords srcSL) in
  (set_LogRecords rest srcSL, (set_LogRecords (dest x) destSL, removedSize x)).

Definition extractResourceLogs (sz : LogsSizer) (srcRL : ResourceLogs) (capacity : Z)
  : ResourceLogs * (ResourceLogs * Z) :=
  let destRL := mkResourceLogs (rl_Resource srcRL) (rl_SchemaUrl srcRL) [] in
  let capLeft := capacity - (Logs_DeltaSize sz capacity - capacity) - ResourceLogsSize sz destRL in
  let '(x, rest) :=
    RemoveIf (moveOrExtract NewScopeLogs (fun sl => Z.of_nat (length (LogRecords sl)))
                (ScopeLogsSize sz) (Logs_DeltaSize sz) (extractScopeLogs sz))
             (mkExtraction capLeft 0 []) (rl_ScopeLogs srcRL) in
  (set_ScopeLogs rest srcRL, (set_ScopeLogs (dest x) destRL, removedSize x)).

Definition extractLogs (sz : LogsSizer) (srcLogs : Logs) (capacity : Z)
  : Logs * (Logs * Z) :=
  let destLogs := NewLogs in
  let capLeft := capacity - LogsSize sz destLogs in
  let '(x, rest) :=
    RemoveIf (moveOrExtract NewResourceLogs (fun rl => Z.of_nat (length (rl_ScopeLogs rl)))
                (ResourceLogsSize sz) (Logs_DeltaSize sz) (extractResourceLogs sz))
             (mkExtraction capLeft 0 []) (ld_ResourceLogs srcLogs) in
  (mkLogs rest, (mkLogs (dest x), removedSize x)).

Definition errLogRecordTooLarge (count : Z) : error :=
  ErrNew ("one log record size is greater than max size, dropping items: " +:+ pretty count).

Definition logs_sizer (szt : SizerType) : option LogsSizer :=
  if decide (szt = SizerTypeItems) then Some LogsCountSizer
  else if decide (szt = SizerTypeBytes) then Some LogsBytesSizer
  else None.

Definition logs_move (src dst : Logs) : Logs * Logs :=
  let '(es, rls) := MoveAndAppendTo (ld_ResourceLogs src) (ld_ResourceLogs dst) in
  (mkLogs es, mkLogs rls).

#[export] Instance logs_signal : Signal Logs LogsSizer := {|
  sizerOf := logs_sizer;
  dataSize := LogsSize;
  dataBytes := Logs_SizeProto;
  itemCount := LogRecordCount;
  extractData := extractLogs;
  moveData := logs_move;
  errTooLarge := errLogRecordTooLarge;
|}.

Definition logsRequest := request Logs.
Definition newLogsRequest (ld : Logs) : logsRequest := newRequest ld.
Definition logs_size (sz : LogsSizer) (req : logsRequest) : logsRequest * Z := size sz req.
Definition logs_mergeTo (sz : LogsSizer) (req dst : logsRequest) : logsRequest * logsRequest :=
  mergeTo sz req dst.
Definition logs_split (maxSize : Z) (sz : LogsSizer) (req : logsRequest)
  : option (list logsRequest * option error) := split maxSize sz req.
Definition logs_MergeSplit {Other} (maxSize : Z) (szt : SizerType)
    (r2 : option (logsRequest + Other)) (req : logsRequest)
  : option (list logsRequest * option error) := MergeSplit maxSize szt r2 req.
End logs.
