(* ===== verification/MetricsBatch.v ===== *)
(** * MetricsBatch: queuebatch/metrics_batch.go and the request of queuebatch/metrics.go

    Merging and splitting of metric requests: four levels, the last one a metric whose
    data points are one of five kinds. *)

From S2P Require Import Prelude.
From S2P Require Import GoErrors.
From S2P Require Import Request.
From S2P Require Import PData.
From S2P Require Import Batch.

Section metrics.
Context `{PData}.

(** The five kinds: what is left of the points, the destination metric and the removed size. *)
Definition extractGaugeDataPoints (sz : MetricsSizer) (src : list NumberDataPoint)
    (destMetric : Metric) (capacity : Z) : list NumberDataPoint * (Metric * Z) :=
  let destMetric := set_Data (MetricGauge []) destMetric in
  let capLeft := capacity - (Metrics_DeltaSize sz capacity - capacity) - MetricSize sz destMetric in
  let '(x, rest) :=
    RemoveIf (moveOrStop newNumberDataPoint (NumberDataPointSize sz) (Metrics_DeltaSize sz))
             (mkExtraction capLeft 0 []) src in
  (rest, (set_Data (MetricGauge (dest x)) destMetric, removedSize x)).

Definition extractSumDataPoints (sz : MetricsSizer) (src : list NumberDataPoint)
    (destMetric : Metric) (capacity : Z) : list NumberDataPoint * (Metric * Z) :=
  let destMetric := set_Data (MetricSum [] 0 false) destMetric in
  let capLeft := capacity - (Metrics_DeltaSize sz capacity - capacity) - MetricSize sz destMetric in
  let '(x, rest) :=
    RemoveIf (moveOrStop newNumberDataPoint (NumberDataPointSize sz) (Metrics_DeltaSize sz))
             (mkExtraction capLeft 0 []) src in
  (rest, (set_Data (MetricSum (dest x) 0 false) destMetric, removedSize x)).

Definition extractHistogramDataPoints (sz : MetricsSizer) (src : list HistogramDataPoint)
    (destMetric : Metric) (capacity : Z) : list HistogramDataPoint * (Metric * Z) :=
  let destMetric := set_Data (MetricHistogram [] 0) destMetric in
  let capLeft := capacity - (Metrics_DeltaSize sz capacity - capacity) - MetricSize sz destMetric in
  let '(x, rest) :=
    RemoveIf (moveOrStop newHistogramDataPoint (HistogramDataPointSize sz) (Metrics_DeltaSize sz))
             (mkExtraction capLeft 0 []) src in
  (rest, (set_Data (MetricHistogram (dest x) 0) destMetric, removedSize x)).

Definition extractExponentialHistogramDataPoints (sz : MetricsSizer)
    (src : list ExponentialHistogramDataPoint) (destMetric : Metric) (capacity : Z)
  : list ExponentialHistogramDataPoint * (Metric * Z) :=
  let destMetric := set_Data (MetricExponentialHistogram [] 0) destMetric in
  let capLeft := capacity - (Metrics_DeltaSize sz capacity - capacity) - MetricSize sz destMetric in
  let '(x, rest) :=
    RemoveIf (moveOrStop newExponentialHistogramDataPoint
                (ExponentialHistogramDataPointSize sz) (Metrics_DeltaSize sz))
             (mkExtraction capLeft 0 []) src in
  (rest, (set_Data (MetricExponentialHistogram (dest x) 0) destMetric, removedSize x)).

Definition extractSummaryDataPoints (sz : MetricsSizer) (src : list SummaryDataPoint)
    (destMetric : Metric) (capacity : Z) : list SummaryDataPoint * (Metric * Z) :=
  let destMetric := set_Data (MetricSummary []) destMetric in
  let capLeft := capacity - (Metrics_DeltaSize sz capacity - capacity) - MetricSize sz destMetric in
  let '(x, rest) :=
    RemoveIf (moveOrStop newSummaryDataPoint (SummaryDataPointSize sz) (Metrics_DeltaSize sz))
             (mkExtraction capLeft 0 []) src in
  (rest, (set_Data (MetricSummary (dest x)) destMetric, removedSize x)).

Definition SetTemporality (t : Z) (m : Metric) : Metric :=
  match m_Data m with
  | MetricSum dps _ mono => set_Data (MetricSum dps t mono) m
  | MetricHistogram dps _ => set_Data (MetricHistogram dps t) m
  | MetricExponentialHistogram dps _ => set_Data (MetricExponentialHistogram dps t) m
  | _ => m
  end.
Definition SetIsMonotonic (mono : bool) (m : Metric) : Metric :=
  match m_Data m with
  | MetricSum dps t _ => set_Data (MetricSum dps t mono) m
  | _ => m
  end.

Definition extractMetricDataPoints (sz : MetricsSizer) (srcMetric : Metric) (capacity : Z)
  : Metric * (Metric * Z) :=
  let destMetric := mkMetric (m_Name srcMetric) (m_Description srcMetric) (m_Unit srcMetric)
                             (m_Metadata srcMetric) MetricEmpty in
  match m_Data srcMetric with
  | MetricGauge dps =>
      let '(rest, (destMetric, removed)) := extractGaugeDataPoints sz dps destMetric capacity in
      (set_Data (MetricGauge rest) srcMetric, (destMetric, removed))
  | MetricSum dps t mono =>
      let '(rest, (destMetric, removed)) := extractSumDataPoints sz dps destMetric capacity in
      (set_Data (MetricSum rest t mono) srcMetric,
       (SetTemporality t (SetIsMonotonic mono destMetric), removed))
  | MetricHistogram dps t =>
      let '(rest, (destMetric, removed)) := extractHistogramDataPoints sz dps destMetric capacity in
      (set_Data (MetricHistogram rest t) srcMetric, (SetTemporality t destMetric, removed))
  | MetricExponentialHistogram dps t =>
      let '(rest, (destMetric, removed)) :=
        extractExponentialHistogramDataPoints sz dps destMetric capacity in
      (set_Data (MetricExponentialHistogram rest t) srcMetric, (SetTemporality t destMetric, removed))
  | MetricSummary dps =>
      let '(rest, (destMetric, removed)) := extractSummaryDataPoints sz dps destMetric capacity in
      (set_Data (MetricSummary rest) srcMetric, (destMetric, removed))
  | MetricEmpty => (srcMetric, (destMetric, 0))
  end.

Definition extractScopeMetrics (sz : MetricsSizer) (srcSM : ScopeMetrics) (capacity : Z)
  : ScopeMetrics * (ScopeMetrics * Z) :=
  let destSM := mkScopeMetrics (sm_Scope srcSM) (sm_SchemaUrl srcSM) [] in
  let capLeft := capacity - (Metrics_DeltaSize sz capacity - capacity) - ScopeMetricsSize sz destSM in
  let '(x, rest) :=
    RemoveIf (moveOrExtract NewMetric dataPointsLen
                (MetricSize sz) (Metrics_DeltaSize sz) (extractMetricDataPoints sz))
             (mkExtraction capLeft 0 []) (sm_Metrics srcSM) in
  (set_Metrics rest srcSM, (set_Metrics (dest x) destSM, removedSize x)).

Definition extractResourceMetrics (sz : MetricsSizer) (srcRM : ResourceMetrics) (capacity : Z)
  : ResourceMetrics * (ResourceMetrics * Z) :=
  let destRM := mkResourceMetrics (rm_Resource srcRM) (rm_SchemaUrl srcRM) [] in
  let capLeft := capacity - (Metrics_DeltaSize sz capacity - capacity) - ResourceMetricsSize sz destRM in
  let '(x, rest) :=
    RemoveIf (moveOrExtract NewScopeMetrics (fun sm => Z.of_nat (length (sm_Metrics sm)))
                (ScopeMetricsSize sz) (Metrics_DeltaSize sz) (extractScopeMetrics sz))
             (mkExtraction capLeft 0 []) (rm_ScopeMetrics srcRM) in
  (set_ScopeMetrics rest srcRM, (set_ScopeMetrics (dest x) destRM, removedSize x)).

Definition extractMetrics (sz : MetricsSizer) (srcMetrics : Metrics) (capacity : Z)
  : Metrics * (Metrics * Z) :=
  let destMetrics := NewMetrics in
  let capLeft := capacity - MetricsSize sz destMetrics in
  let '(x, rest) :=
    RemoveIf (moveOrExtract NewResourceMetrics (fun rm => Z.of_nat (length (rm_ScopeMetrics rm)))
                (ResourceMetricsSize sz) (Metrics_DeltaSize sz) (extractResourceMetrics sz))
             (mkExtraction capLeft 0 []) (md_ResourceMetrics srcMetrics) in
  (mkMetrics rest, (mkMetrics (dest x), removedSize x)).

Definition errDataPointTooLarge (count : Z) : error :=
  ErrNew ("one datapoint size is greater than max size, dropping items: " +:+ pretty count).

Definition metrics_sizer (szt : SizerType) : option MetricsSizer :=
  if decide (szt = SizerTypeItems) then Some MetricsCountSizer
  else if decide (szt = SizerTypeBytes) then Some MetricsBytesSizer
  else None.

Definition metrics_move (src dst : Metrics) : Metrics * Metrics :=
  let '(es, rms) := MoveAndAppendTo (md_ResourceMetrics src) (md_ResourceMetrics dst) in
  (mkMetrics es, mkMetrics rms).

#[export] Instance metrics_signal : Signal Metrics MetricsSizer := {|
  sizerOf := metrics_sizer;
  dataSize := MetricsSize;
  dataBytes := Metrics_SizeProto;
  itemCount := DataPointCount;
  extractData := extractMetrics;
  moveData := metrics_move;
  errTooLarge := errDataPointTooLarge;
|}.

Definition metricsRequest := request Metrics.
Definition newMetricsRequest (md : Metrics) : metricsRequest := newRequest md.
Definition metrics_size (sz : MetricsSizer) (req : metricsRequest) : metricsRequest * Z := size sz req.
Definition metrics_mergeTo (sz : MetricsSizer) (req dst : metricsRequest)
  : metricsRequest * metricsRequest := mergeTo sz req dst.
Definition metrics_split (maxSize : Z) (sz : MetricsSizer) (req : metricsRequest)
  : option (list metricsRequest * option error) := split maxSize sz req.
Definition metrics_MergeSplit {Other} (maxSize : Z) (szt : SizerType)
    (r2 : option (metricsRequest + Other)) (req : metricsRequest)
  : option (list metricsRequest * option error) := MergeSplit maxSize szt r2 req.
End metrics.
