(* ===== verification/BatchLemmas.v ===== *)
(** * BatchLemmas: what one level of an extraction does, for any signal and any sizer

    The extract functions of the three signals nest the same walk.  The lemmas here
    are about one level: given what the extraction of one element does, they say what
    the walk over a slice of elements does.  The second part merges and splits the requests
    of any signal that keeps [SignalItems], [SignalSizes] and [SignalCounts]. *)

From S2P Require Import Prelude.
From S2P Require Import PData.
From S2P Require Import Batch.
From S2P Require Import GoErrors.
From S2P Require Import Request.

(** ** The length of a varint grows with the number *)

Lemma Sov_pos x : 0 <= x -> 1 <= Sov x.
Proof.
  intros Hx. unfold Sov, Len64.
  assert (Z.lor x 1 <> 0) by (intros H0; apply Z.lor_eq_0_iff in H0; lia).
  rewrite decide_False by done. pose proof (Z.log2_nonneg (Z.lor x 1)).
  apply Z.div_le_lower_bound; lia.
Qed.

Lemma log2_lor_1 x : 0 <= x -> Z.log2 (Z.lor x 1) = Z.log2 (Z.max x 1).
Proof.
  intros Hx. rewrite Z.log2_lor by lia. simpl (Z.log2 1).
  destruct (Z.eq_dec x 0) as [->|]; [done|]. rewrite (Z.max_l x 1) by lia.
  pose proof (Z.log2_nonneg x). lia.
Qed.

Lemma Sov_mono x y : 0 <= x <= y -> Sov x <= Sov y.
Proof.
  intros Hxy. unfold Sov, Len64.
  assert (forall z, 0 <= z -> Z.lor z 1 <> 0) by (intros z Hz H0; apply Z.lor_eq_0_iff in H0; lia).
  rewrite !decide_False by (auto with lia). rewrite !log2_lor_1 by lia.
  apply Z.div_le_mono; [lia|]. assert (Z.log2 (Z.max x 1) <= Z.log2 (Z.max y 1)); [|lia].
  apply Z.log2_le_mono. lia.
Qed.

Lemma protoDeltaSize_lenField n : protoDeltaSize n = lenField n.
Proof. unfold protoDeltaSize, lenField, sov, Sov. lia. Qed.

Lemma lenField_nonneg n : 0 <= n -> 0 <= lenField n.
Proof. intros Hn. unfold lenField. pose proof (Sov_pos (u64 n) ltac:(auto with go)). lia. Qed.

Lemma stringField_nonneg s : 0 <= stringField s.
Proof. unfold stringField. case_decide; [apply lenField_nonneg|]; lia. Qed.

(** What the size arithmetic relies on of [DeltaSize]: what it adds to a size is not
    negative, and grows with sizes below 2^62. *)
Class DeltaLaws (DeltaSize : Z -> Z) := {
  delta_overhead : forall n, n <= DeltaSize n;
  delta_mono : forall a b, 0 <= a <= b -> b < 2 ^ 62 -> DeltaSize a - a <= DeltaSize b - b;
}.

#[export] Instance count_delta : DeltaLaws (fun n => n).
Proof. split; lia. Qed.

#[export] Instance proto_delta : DeltaLaws protoDeltaSize.
Proof.
  split; intros; rewrite !protoDeltaSize_lenField; unfold lenField.
  - pose proof (Sov_pos (u64 n) ltac:(auto with go)). lia.
  - rewrite !u64_id by lia. pose proof (Sov_mono a b). lia.
Qed.

(** ** The items of a slice *)

Section items.
Context {A : Type} (zero : A) (itemSize : A -> Z).
Context (Delta : Z -> Z).
Abbreviation step := (moveOrStop zero itemSize Delta).

Lemma moveOrStop_full (x : extraction A) es :
  capacityLeft x = 0 -> RemoveIf step x es = (x, es).
Proof.
  intros Hx. induction es as [|e es IH]; simpl; [done|].
  unfold moveOrStop at 1. rewrite decide_True by done. by rewrite IH.
Qed.

(** The items moved are a prefix of the slice, in order. *)
Lemma moveOrStop_spec (x : extraction A) es x' rest :
  RemoveIf step x es = (x', rest) ->
  dest x' ++ rest = dest x ++ es /\
  removedSize x' - removedSize x =
    sum_of (fun a => Delta (itemSize a)) (dest x') - sum_of (fun a => Delta (itemSize a)) (dest x).
Proof.
  revert x x' rest. induction es as [|e es IH]; intros x x' rest E; simpl in E.
  { simplify_eq. split; [done|lia]. }
  unfold moveOrStop in E at 1. case_decide as H0.
  { rewrite moveOrStop_full in E by done. simplify_eq. split; [done|lia]. }
  case_decide as Hgt.
  { rewrite moveOrStop_full in E by done. simplify_eq. simpl. split; [done|lia]. }
  simpl in E. destruct (RemoveIf _ _ es) as [x1 rest1] eqn:E1. simplify_eq.
  destruct (IH _ _ _ E1) as (Hd & Hr). simpl in *.
  rewrite sum_of_app in Hr. simpl in Hr. split; [|lia].
  rewrite Hd, <- app_assoc. done.
Qed.

Lemma moveOrStop_fits (x : extraction A) es x' rest :
  RemoveIf step x es = (x', rest) -> 0 <= capacityLeft x ->
  0 <= capacityLeft x' /\
  removedSize x' - removedSize x <= capacityLeft x - capacityLeft x'.
Proof.
  revert x x' rest. induction es as [|e es IH]; intros x x' rest E Hx; simpl in E.
  { simplify_eq. lia. }
  unfold moveOrStop in E at 1. case_decide as H0.
  { rewrite moveOrStop_full in E by done. simplify_eq. lia. }
  case_decide as Hgt.
  { rewrite moveOrStop_full in E by done. simplify_eq. simpl. lia. }
  simpl in E. destruct (RemoveIf _ _ es) as [x1 rest1] eqn:E1. simplify_eq.
  destruct (IH _ _ _ E1); simpl in *; lia.
Qed.

Lemma moveOrStop_negative (x : extraction A) es :
  (forall a, 0 <= Delta (itemSize a)) -> capacityLeft x < 0 ->
  dest (fst (RemoveIf step x es)) = dest x.
Proof.
  intros Hnn Hx. destruct es as [|e es]; simpl; [done|].
  unfold moveOrStop at 1. rewrite decide_False by lia.
  rewrite decide_True by (specialize (Hnn e); lia). by rewrite moveOrStop_full.
Qed.

Lemma moveOrStop_none (x : extraction A) es x' rest :
  (forall a, 0 <= Delta (itemSize a)) -> capacityLeft x < 0 ->
  RemoveIf step x es = (x', rest) -> removedSize x' = removedSize x /\ dest x' = dest x.
Proof.
  intros Hnn Hx E.
  assert (dest x' = dest x) as Hd by (rewrite <- (moveOrStop_negative x es Hnn Hx), E; done).
  apply moveOrStop_spec in E as [_ Hr]. rewrite Hd in *. split; [lia|done].
Qed.

(** With items of size one exactly as many are moved as fit. *)
Lemma moveOrStop_count (x : extraction A) es x' rest :
  (forall a, Delta (itemSize a) = 1) -> 0 <= capacityLeft x ->
  RemoveIf step x es = (x', rest) ->
  removedSize x' - removedSize x = Z.min (capacityLeft x) (Z.of_nat (length es)).
Proof.
  intros H1. revert x x' rest. induction es as [|e es IH]; intros x x' rest Hx E; simpl in E.
  { simplify_eq. simpl. lia. }
  unfold moveOrStop in E at 1. rewrite H1 in E. case_decide as H0.
  { rewrite moveOrStop_full in E by done. simplify_eq. cbn [length]. lia. }
  case_decide as Hgt; [lia|].
  simpl in E. destruct (RemoveIf _ _ es) as [x1 rest1] eqn:E1. simplify_eq.
  apply IH in E1; cbn [capacityLeft removedSize length] in *; lia.
Qed.
End items.

(** ** A slice of containers *)

Section containers.
Context {A I : Type} (items : A -> list I) (zero : A) (len raw : A -> Z) (Delta : Z -> Z).
Context (extract : A -> Z -> A * (A * Z)).
Abbreviation step := (moveOrExtract zero len raw Delta extract).

Context (len_zero : len zero = 0) (len_nonneg : forall a, 0 <= len a).
Context (extract_items : forall src cap src' ext r, extract src cap = (src', (ext, r)) ->
           items ext ++ items src' = items src /\ (len ext = 0 -> items ext = [])).

Lemma moveOrExtract_full (x : extraction A) es :
  capacityLeft x = 0 -> RemoveIf step x es = (x, es).
Proof.
  intros Hx. induction es as [|e es IH]; simpl; [done|].
  unfold moveOrExtract at 1. rewrite decide_True by done. by rewrite IH.
Qed.

(** The three outcomes of the callback on the first element of a slice. *)
Lemma moveOrExtract_cases (x : extraction A) e es x' rest :
  RemoveIf step x (e :: es) = (x', rest) ->
  (capacityLeft x = 0 /\ x' = x /\ rest = e :: es) \/
  (capacityLeft x <> 0 /\ Delta (raw e) > capacityLeft x /\
     exists e' ext r, extract e (capacityLeft x) = (e', (ext, r)) /\ rest = e' :: es /\
       capacityLeft x' = 0 /\
       removedSize x' = removedSize x + (Delta (raw e) - Delta (raw e - r)) /\
       dest x' = (if decide (len ext > 0) then dest x ++ [ext] else dest x)) \/
  (capacityLeft x <> 0 /\ Delta (raw e) <= capacityLeft x /\
     RemoveIf step (mkExtraction (capacityLeft x - Delta (raw e)) (removedSize x + Delta (raw e))
                                 (dest x ++ [e])) es = (x', rest)).
Proof.
  simpl. unfold moveOrExtract at 1. case_decide as H0.
  { rewrite moveOrExtract_full by done. intros [= <- <-]. by left. }
  case_decide as Hgt.
  - destruct (extract e (capacityLeft x)) as [e' [ext r]] eqn:Ee.
    intros E. right; left. split; [done|]. split; [done|]. exists e', ext, r. split; [done|].
    specialize (len_nonneg ext).
    case_decide as Hl; simpl in E; rewrite moveOrExtract_full in E by done; rewrite ?len_zero in E.
    + simpl in E. simplify_eq. simpl. split_and!; try done; lia.
    + rewrite bool_decide_true in E by lia. simpl in E. simplify_eq. simpl. split_and!; try done; lia.
  - intros E. right; right. split; [done|]. split; [lia|].
    simpl in E. destruct (RemoveIf _ _ es). by simplify_eq.
Qed.

Lemma moveOrExtract_items (x : extraction A) es x' rest :
  RemoveIf step x es = (x', rest) ->
  concat (items <$> dest x') ++ concat (items <$> rest) =
  concat (items <$> dest x) ++ concat (items <$> es).
Proof.
  revert x x' rest. induction es as [|e es IH]; intros x x' rest E.
  { simpl in E. by simplify_eq. }
  apply moveOrExtract_cases in E as [(_ & -> & ->)|[(_ & _ & e' & ext & r & Ee & -> & _ & _ & ->)|(_ & _ & E)]].
  - done.
  - destruct (extract_items _ _ _ _ _ Ee) as [Hi Hz]. pose proof (len_nonneg ext). simpl. rewrite <- Hi.
    case_decide; rewrite ?fmap_app, ?concat_app; simpl; rewrite ?app_nil_r, <- ?app_assoc; [done|].
    by rewrite Hz by lia.
  - apply IH in E. rewrite E. simpl. rewrite fmap_app, concat_app. simpl.
    by rewrite app_nil_r, <- app_assoc.
Qed.

Context (extract_size : forall src cap src' ext r, extract src cap = (src', (ext, r)) ->
           raw src' = raw src - r).

(** The removed size is what the slice shrank by. *)
Lemma moveOrExtract_removed (x : extraction A) es x' rest :
  RemoveIf step x es = (x', rest) ->
  sum_of (fun a => Delta (raw a)) rest =
  sum_of (fun a => Delta (raw a)) es - (removedSize x' - removedSize x).
Proof.
  revert x x' rest. induction es as [|e es IH]; intros x x' rest E.
  { simpl in E. simplify_eq. simpl. lia. }
  apply moveOrExtract_cases in E as [(_ & -> & ->)|[(_ & _ & e' & ext & r & Ee & -> & _ & -> & _)|(_ & _ & E)]].
  - lia.
  - simpl. rewrite (extract_size _ _ _ _ _ Ee). lia.
  - apply IH in E. simpl in *. lia.
Qed.

Context (delta_raw_nonneg : forall a, 0 <= Delta (raw a)).
Context (extract_fits : forall src cap src' ext r, extract src cap = (src', (ext, r)) ->
           cap < 2 ^ 62 -> len ext <> 0 -> Delta (raw ext) <= cap).

(** What was moved fits in the capacity that was left. *)
Lemma moveOrExtract_fits (x : extraction A) es x' rest :
  RemoveIf step x es = (x', rest) -> 0 <= capacityLeft x < 2 ^ 62 ->
  0 <= capacityLeft x' /\
  sum_of (fun a => Delta (raw a)) (dest x') + capacityLeft x' <=
  sum_of (fun a => Delta (raw a)) (dest x) + capacityLeft x.
Proof.
  revert x x' rest. induction es as [|e es IH]; intros x x' rest E Hx.
  { simpl in E. simplify_eq. lia. }
  apply moveOrExtract_cases in E as [(_ & -> & ->)|[(_ & _ & e' & ext & r & Ee & -> & -> & _ & ->)|(_ & Hle & E)]].
  - lia.
  - split; [lia|]. case_decide; [|lia]. rewrite sum_of_app. simpl.
    pose proof (extract_fits _ _ _ _ _ Ee ltac:(lia) ltac:(lia)). lia.
  - specialize (delta_raw_nonneg e). apply IH in E; simpl in *; [|lia].
    rewrite sum_of_app in E. simpl in E. lia.
Qed.

Lemma moveOrExtract_negative (x : extraction A) es :
  capacityLeft x < 0 -> dest (fst (RemoveIf step x es)) = dest x.
Proof.
  intros Hx. destruct es as [|e es]; [done|].
  destruct (RemoveIf step x (e :: es)) as [x' rest] eqn:E. cbn [fst].
  apply moveOrExtract_cases in E as [(? & _)|[(_ & _ & e' & ext & r & Ee & -> & _ & _ & ->)|(_ & Hle & _)]].
  - lia.
  - simpl. case_decide; [|done].
    pose proof (extract_fits _ _ _ _ _ Ee ltac:(lia) ltac:(lia)). specialize (delta_raw_nonneg ext). lia.
  - specialize (delta_raw_nonneg e). lia.
Qed.
End containers.

(** With sizes that are numbers of items, exactly as many items are moved as fit. *)
Lemma moveOrExtract_count {A} (zero : A) (len raw : A -> Z) extract (x : extraction A) es x' rest :
  len zero = 0 -> (forall a, 0 <= len a) -> (forall a, 0 <= raw a) ->
  (forall src cap src' ext r, extract src cap = (src', (ext, r)) ->
     0 <= cap -> r = Z.min cap (raw src)) ->
  RemoveIf (moveOrExtract zero len raw (fun n => n) extract) x es = (x', rest) ->
  0 <= capacityLeft x ->
  removedSize x' - removedSize x = Z.min (capacityLeft x) (sum_of raw es).
Proof.
  intros Hz Hl Hr Hext. revert x x' rest. induction es as [|e es IH]; intros x x' rest E Hx.
  { simpl in *. simplify_eq. lia. }
  pose proof (sum_of_nonneg raw es Hr). pose proof (Hr e).
  apply moveOrExtract_cases in E as [(? & -> & ->)|[(_ & Hgt & e' & ext & r & Ee & -> & _ & -> & _)|(_ & Hle & E)]];
    try done; simpl.
  - lia.
  - rewrite (Hext _ _ _ _ _ Ee Hx). lia.
  - apply IH in E; simpl in *; lia.
Qed.

(** The overhead of a container that was filled up to its capacity. *)
Lemma container_fits (Delta : Z -> Z) `{!DeltaLaws Delta} cap base total :
  0 <= base -> 0 <= total -> cap < 2 ^ 62 ->
  total <= cap - (Delta cap - cap) - base -> Delta (base + total) <= cap.
Proof.
  intros Hb Ht Hc Hle. pose proof (delta_overhead (DeltaSize := Delta) cap).
  pose proof (delta_mono (DeltaSize := Delta) (base + total) cap). lia.
Qed.

(** ** From the walk over its children to the extraction of a container *)

(** What the size arithmetic of a walk over a slice guarantees. *)
Record walk_laws {K} (kidSize : K -> Z)
    (walk : extraction K -> list K -> extraction K * list K) : Prop := {
  walk_removed : forall x es x' rest, walk x es = (x', rest) ->
    sum_of kidSize rest = sum_of kidSize es - (removedSize x' - removedSize x);
  walk_fits : forall x es x' rest, walk x es = (x', rest) -> 0 <= capacityLeft x < 2 ^ 62 ->
    0 <= capacityLeft x' /\
    sum_of kidSize (dest x') + capacityLeft x' <= sum_of kidSize (dest x) + capacityLeft x;
  walk_negative : forall x es, capacityLeft x < 0 -> dest (fst (walk x es)) = dest x;
}.

Lemma items_walk {A} (zero : A) (itemSize : A -> Z) Delta :
  (forall a, 0 <= Delta (itemSize a)) ->
  walk_laws (fun a => Delta (itemSize a)) (RemoveIf (moveOrStop zero itemSize Delta)).
Proof.
  intros Hnn. split.
  - intros x es x' rest E. apply moveOrStop_spec in E as [Hd Hr].
    apply (f_equal (sum_of (fun a => Delta (itemSize a)))) in Hd. rewrite !sum_of_app in Hd. lia.
  - intros x es x' rest E Hx. pose proof (moveOrStop_spec _ _ _ _ _ _ _ E) as [_ Hr].
    apply moveOrStop_fits in E; lia.
  - intros. by apply moveOrStop_negative.
Qed.

Lemma containers_walk {A} (zero : A) (len raw : A -> Z) Delta extract :
  len zero = 0 -> (forall a, 0 <= len a) -> (forall a, 0 <= Delta (raw a)) ->
  (forall src cap src' ext r, extract src cap = (src', (ext, r)) -> raw src' = raw src - r) ->
  (forall src cap src' ext r, extract src cap = (src', (ext, r)) ->
     cap < 2 ^ 62 -> len ext <> 0 -> Delta (raw ext) <= cap) ->
  walk_laws (fun a => Delta (raw a)) (RemoveIf (moveOrExtract zero len raw Delta extract)).
Proof.
  intros ?????. split; intros.
  - by eapply moveOrExtract_removed.
  - by eapply moveOrExtract_fits.
  - by apply moveOrExtract_negative.
Qed.

Section container.
Context {C K : Type} (kids : C -> list K) (set : list K -> C -> C).
Context (raw base : C -> Z) (kidSize : K -> Z) (Delta : Z -> Z) `{!DeltaLaws Delta}.
Context (raw_set : forall l c, raw (set l c) = base c + sum_of kidSize l).
Context (raw_kids : forall c, raw c = base c + sum_of kidSize (kids c)).
Context (base_nonneg : forall c, 0 <= base c) (kid_nonneg : forall k, 0 <= kidSize k).
Context (walk : extraction K -> list K -> extraction K * list K).
Context (laws : walk_laws kidSize walk).

Definition extractContainer (src : C) (capacity : Z) : C * (C * Z) :=
  let '(x, rest) :=
    walk (mkExtraction (capacity - (Delta capacity - capacity) - raw (set [] src)) 0 []) (kids src) in
  (set rest src, (set (dest x) src, removedSize x)).

Lemma raw_nonneg c : 0 <= raw c.
Proof. rewrite raw_kids. pose proof (sum_of_nonneg kidSize (kids c) kid_nonneg). specialize (base_nonneg c). lia. Qed.

Lemma delta_raw_nonneg c : 0 <= Delta (raw c).
Proof. pose proof (raw_nonneg c). pose proof (delta_overhead (DeltaSize := Delta) (raw c)). lia. Qed.

Lemma extractContainer_size src cap src' ext r :
  extractContainer src cap = (src', (ext, r)) -> raw src' = raw src - r.
Proof.
  unfold extractContainer. destruct (walk _ _) as [x rest] eqn:E. intros [= <- <- <-].
  apply (walk_removed _ _ laws) in E. rewrite raw_set, raw_kids. simpl in E. lia.
Qed.

Lemma extractContainer_fits src cap src' ext r :
  extractContainer src cap = (src', (ext, r)) -> cap < 2 ^ 62 ->
  (exists x, ext = set (dest x) src /\ (dest x = [] \/ Delta (raw ext) <= cap)).
Proof.
  unfold extractContainer. destruct (walk _ _) as [x rest] eqn:E. intros [= <- <- <-] Hc.
  exists x. split; [done|]. rewrite raw_set in *. simpl in E. rewrite Z.add_0_r in E.
  pose proof (delta_overhead (DeltaSize := Delta) cap). specialize (base_nonneg src).
  destruct (decide (cap - (Delta cap - cap) - base src < 0)).
  - left. match type of E with walk ?x0 ?l = _ =>
      pose proof (walk_negative _ _ laws x0 l ltac:(simpl; lia)) as Hd end.
    rewrite E in Hd. done.
  - right. apply (walk_fits _ _ laws) in E as [? Hle]; simpl in *; [|lia].
    apply container_fits; [done|done|by apply sum_of_nonneg|done|lia].
Qed.

Lemma extractContainer_kids_fits src cap src' ext r :
  (forall l c, kids (set l c) = l) ->
  extractContainer src cap = (src', (ext, r)) -> cap < 2 ^ 62 ->
  Z.of_nat (length (kids ext)) <> 0 -> Delta (raw ext) <= cap.
Proof.
  intros Hk E Hc Hl. destruct (extractContainer_fits _ _ _ _ _ E Hc) as (x & -> & [Hx|Hx]); [|done].
  rewrite Hk, Hx in Hl. simpl in Hl. lia.
Qed.
End container.

(** * Merging and splitting whatever the signal *)

Class SignalItems (D Szr I : Type) `{Signal D Szr} := {
  items : D -> list I;
  count_items : forall d, itemCount d = Z.of_nat (length (items d));
  extract_items : forall sz d cap src ext r, extractData sz d cap = (src, (ext, r)) ->
    items ext ++ items src = items d;
  move_items : forall s d s' d', moveData s d = (s', d') ->
    items d' = items d ++ items s /\ items s' = [];
}.

Class SignalSizes (D Szr : Type) `{Signal D Szr} (sz : Szr) := {
  size_nonneg : forall d, 0 <= dataSize sz d;
  extract_size : forall d cap src ext r, extractData sz d cap = (src, (ext, r)) ->
    dataSize sz src = dataSize sz d - r;
  extract_fits : forall d cap src ext r, extractData sz d cap = (src, (ext, r)) ->
    0 <= cap < 2 ^ 62 -> dataSize sz ext <= cap;
  move_size : forall s d s' d', moveData s d = (s', d') ->
    dataSize sz d' = dataSize sz d + dataSize sz s;
}.

(** The sizer that counts items: extractions take as many items as they may. *)
Class SignalCounts (D Szr : Type) `{Signal D Szr} (sz : Szr) := {
  count_size : forall d, dataSize sz d = itemCount d;
  extract_count : forall d cap src ext r, extractData sz d cap = (src, (ext, r)) ->
    0 <= cap -> itemCount ext = Z.min cap (itemCount d);
}.

(** The reference: a list cut into pieces of [n], the last one shorter. *)
Fixpoint chunks {A} (fuel n : nat) (l : list A) : list (list A) :=
  match fuel with
  | O => [l]
  | S fuel => if decide (length l <= n)%nat then [l] else take n l :: chunks fuel n (drop n l)
  end.

Section items.
Context {D Szr I : Type} `{SignalItems D Szr I}.
Abbreviation req_items := (fun r : request D => items (data r)).

Lemma items_nil d : itemCount d = 0 -> items d = [].
Proof. rewrite count_items. destruct (items d); [done|simpl; lia]. Qed.

Lemma itemCount_nonneg d : 0 <= itemCount d.
Proof. rewrite count_items. lia. Qed.

Lemma extract_itemCount sz d cap src ext r :
  extractData sz d cap = (src, (ext, r)) -> itemCount ext + itemCount src = itemCount d.
Proof.
  intros E. apply extract_items in E. rewrite !count_items, <- E, length_app. lia.
Qed.

(** The loop of split ends, whatever the sizer computes. *)
Lemma splitLoop_total fuel maxSize sz (req : request D) :
  itemCount (data req) < Z.of_nat fuel -> is_Some (splitLoop fuel maxSize sz req).
Proof.
  revert req. induction fuel as [|fuel IH]; intros req Hf.
  { pose proof (itemCount_nonneg (data req)). lia. }
  simpl. set (req0 := if decide (cachedSize req = -1) then _ else req).
  assert (data req0 = data req) as Hd by (unfold req0; by case_decide).
  case_decide; [|by eexists].
  destruct (extractData sz (data req0) maxSize) as [src [ext r]] eqn:E.
  apply extract_itemCount in E. rewrite Hd in E. pose proof (itemCount_nonneg ext).
  case_decide; [by eexists|].
  match goal with |- context [splitLoop fuel _ _ ?q] => destruct (IH q) as [[res err] ->] end;
    [|by eexists].
  unfold setCachedSize; simpl. case_decide; simpl; lia.
Qed.

(** The requests hold the items in order; an error names how many are dropped. *)
Lemma splitLoop_items fuel maxSize sz (req : request D) res err :
  splitLoop fuel maxSize sz req = Some (res, err) ->
  match err with
  | None => concat (req_items <$> res) = items (data req)
  | Some e => exists dropped, e = errTooLarge (Z.of_nat (length dropped)) /\
                concat (req_items <$> res) ++ dropped = items (data req)
  end.
Proof.
  revert req res err. induction fuel as [|fuel IH]; intros req res err; simpl;
    set (req0 := if decide (cachedSize req = -1) then _ else req);
    (assert (data req0 = data req) as Hd by (unfold req0; by case_decide));
    case_decide; try done; try (intros; simplify_eq; simpl; by rewrite app_nil_r, Hd).
  destruct (extractData sz (data req0) maxSize) as [src [ext r]] eqn:E.
  apply extract_items in E. rewrite Hd in E. case_decide as Hz.
  { intros [= <- <-]. apply items_nil in Hz. rewrite Hz in E. exists (items src). simpl.
    by rewrite count_items. }
  match goal with |- context [splitLoop fuel _ _ ?q] => set (req1 := q) end.
  assert (items (data req1) = items src) as Hi by (unfold req1, setCachedSize; simpl; by case_decide).
  destruct (splitLoop fuel _ _ req1) as [[res1 err1]|] eqn:El; [|done].
  intros [= <- <-]. apply IH in El. rewrite Hi in El.
  destruct err1 as [e|]; simpl; [destruct El as (dr & -> & Hl)|]; [exists dr; split; [done|]|];
    rewrite <- E; [by rewrite <- Hl, app_assoc|by rewrite <- El].
Qed.

Lemma mergeTo_items sz (req dst : request D) :
  req_items (snd (mergeTo sz req dst)) = items (data dst) ++ items (data req).
Proof.
  unfold mergeTo, size. cbv zeta.
  destruct (moveData _ _) as [s' d'] eqn:E. apply move_items in E as [E _].
  simpl in *. rewrite E. unfold setCachedSize; simpl.
  by do 2 case_decide.
Qed.
End items.

Section sizes.
Context {D Szr : Type} `{SignalSizes D Szr sz}.

(** The cached size is unset or the size of the data. *)
Definition cached_ok (req : request D) : Prop :=
  cachedSize req = -1 \/ cachedSize req = dataSize sz (data req).

Lemma size_spec req : cached_ok req ->
  size sz req = (mkRequest (data req) (dataSize sz (data req)), dataSize sz (data req)).
Proof.
  intros [Hc|Hc]; unfold size; destruct req as [d c]; simpl in *; subst.
  - by rewrite decide_True.
  - pose proof (size_nonneg d). by rewrite decide_False by lia.
Qed.

(** Every request made respects the limit and knows its size. *)
Lemma splitLoop_sizes fuel maxSize (req : request D) res err :
  0 <= maxSize < 2 ^ 62 -> cached_ok req ->
  splitLoop fuel maxSize sz req = Some (res, err) ->
  Forall (fun r => cached_ok r /\ dataSize sz (data r) <= maxSize) res.
Proof.
  intros Hm. revert req res err. induction fuel as [|fuel IH]; intros req res err Hc;
    unfold splitLoop; fold (splitLoop (D := D) (Szr := Szr)); rewrite (size_spec req Hc); case_decide; try done;
    try (intros; simplify_eq; constructor; [|constructor]; split; [by right|simpl; lia]).
  cbn [data cachedSize].
  destruct (extractData sz (data req) maxSize) as [src [ext r]] eqn:E. case_decide.
  { intros; simplify_eq. constructor. }
  assert (cachedSize (mkRequest src (dataSize sz (data req))) <> -1) as Hne
    by (simpl; pose proof (size_nonneg (data req)); lia).
  unfold size at 1. rewrite decide_False by done. cbn [data cachedSize setCachedSize].
  match goal with |- context [splitLoop fuel _ _ ?q] => set (req1 := q) end.
  assert (cached_ok req1) as Hc1.
  { right. unfold req1. simpl. by rewrite (extract_size _ _ _ _ _ E). }
  destruct (splitLoop fuel _ _ req1) as [[res1 err1]|] eqn:El; [|done].
  intros [= <- <-]. constructor; [|by eapply IH].
  split; [by left|]. simpl. by eapply extract_fits.
Qed.

Lemma mergeTo_cached req dst :
  cached_ok req -> cached_ok dst -> cached_ok (snd (mergeTo sz req dst)).
Proof.
  intros Hr Hd. right. unfold mergeTo. rewrite !size_spec by done.
  unfold setCachedSize; simpl. destruct (moveData _ _) as [s' d'] eqn:E.
  apply move_size in E. simpl. by rewrite E.
Qed.
End sizes.
Arguments cached_ok {D Szr _} sz req.

(** ** MergeSplit against the interfaces *)

Section merge_split.
Context {D Szr I : Type} `{SignalItems D Szr I}.
Abbreviation req_items := (fun r : request D => items (data r)).

Definition all_items {Other} (r2 : option (request D + Other)) (req : request D) : list I :=
  items (data req) ++ match r2 with Some (inl req2) => items (data req2) | _ => [] end.

Definition merged {Other} (sz : Szr) (r2 : option (request D + Other)) (req : request D) : request D :=
  match r2 with Some (inl req2) => snd (mergeTo sz req2 req) | _ => req end.

Lemma merged_items {Other} sz (r2 : option (request D + Other)) req :
  items (data (merged sz r2 req)) = all_items r2 req.
Proof.
  unfold merged, all_items. destruct r2 as [[req2|o]|]; simpl; [|by rewrite app_nil_r..].
  by rewrite mergeTo_items.
Qed.

Lemma MergeSplit_eq {Other} maxSize szt sz (r2 : option (request D + Other)) req :
  sizerOf szt = Some sz -> (forall o, r2 <> Some (inr o)) ->
  MergeSplit maxSize szt r2 req =
  if decide (maxSize = 0) then Some ([merged sz r2 req], None) else split maxSize sz (merged sz r2 req).
Proof.
  intros Hs Ho. unfold MergeSplit. rewrite Hs. destruct r2 as [[req2|o]|]; try done.
  by specialize (Ho o).
Qed.

Lemma MergeSplit_items {Other} maxSize szt sz (r2 : option (request D + Other)) req :
  sizerOf szt = Some sz -> (forall o, r2 <> Some (inr o)) ->
  exists res err dropped, MergeSplit maxSize szt r2 req = Some (res, err) /\
    concat (req_items <$> res) ++ dropped = all_items r2 req /\
    match err with
    | None => dropped = []
    | Some e => maxSize <> 0 /\ e = errTooLarge (Z.of_nat (length dropped))
    end.
Proof.
  intros Hs Ho. rewrite (MergeSplit_eq _ _ sz) by done. rewrite <- (merged_items sz).
  case_decide as Hz0.
  { exists [merged sz r2 req], None, []. simpl. by rewrite !app_nil_r. }
  unfold split. destruct (splitLoop_total (S (Z.to_nat (itemCount (data (merged sz r2 req)))))
    maxSize sz (merged sz r2 req)) as [[res err] E].
  { pose proof (itemCount_nonneg (data (merged sz r2 req))). lia. }
  rewrite E. apply splitLoop_items in E. destruct err as [e|].
  - destruct E as (dr & -> & Hd). by exists res, (Some (errTooLarge (Z.of_nat (length dr)))), dr.
  - exists res, None, []. by rewrite app_nil_r.
Qed.

Lemma MergeSplit_sizes {Other} maxSize szt sz `{!SignalSizes D Szr sz}
    (r2 : option (request D + Other)) req res err :
  sizerOf szt = Some sz -> (forall o, r2 <> Some (inr o)) ->
  0 <= maxSize < 2 ^ 62 -> cached_ok sz req ->
  (forall req2, r2 = Some (inl req2) -> cached_ok sz req2) ->
  MergeSplit maxSize szt r2 req = Some (res, err) ->
  Forall (fun r => cached_ok sz r /\ (maxSize <> 0 -> dataSize sz (data r) <= maxSize)) res.
Proof.
  intros Hs Ho Hm Hc Hc2. rewrite (MergeSplit_eq _ _ sz) by done.
  assert (cached_ok sz (merged sz r2 req)) as Hcm.
  { destruct r2 as [[req2|o]|]; simpl; [apply mergeTo_cached; auto|done..]. }
  case_decide.
  - intros [= <- <-]. by constructor.
  - intros E. apply splitLoop_sizes in E; [|done|done].
    eapply Forall_impl; [exact E|]. naive_solver.
Qed.

(** Splitting by number of items never fails and cuts the items into chunks. *)
Lemma splitLoop_chunks sz `{!SignalSizes D Szr sz, !SignalCounts D Szr sz} fuel maxSize req :
  0 < maxSize < 2 ^ 62 -> cached_ok sz req -> itemCount (data req) < Z.of_nat fuel ->
  exists res, splitLoop fuel maxSize sz req = Some (res, None) /\
    req_items <$> res = chunks fuel (Z.to_nat maxSize) (items (data req)).
Proof.
  intros Hm. revert req. induction fuel as [|fuel IH]; intros req Hc Hf.
  { pose proof (itemCount_nonneg (data req)). lia. }
  unfold splitLoop; fold (splitLoop (D := D) (Szr := Szr)). rewrite (size_spec req Hc). cbn [data cachedSize chunks].
  pose proof (count_size (sz := sz) (data req)) as Hsz. pose proof (count_items (data req)) as Hci.
  case_decide as Hgt; [|eexists; split; [done|]; rewrite decide_True by lia; done].
  rewrite decide_False by lia.
  destruct (extractData sz (data req) maxSize) as [src [ext r]] eqn:E.
  pose proof (extract_count _ _ _ _ _ E ltac:(lia)) as Hext.
  pose proof (extract_itemCount _ _ _ _ _ _ E) as Hsrc.
  pose proof (extract_items _ _ _ _ _ _ E) as Hit.
  pose proof (extract_size _ _ _ _ _ E) as Hsize.
  rewrite decide_False by lia.
  assert (cachedSize (mkRequest src (dataSize sz (data req))) <> -1) as Hne
    by (simpl; pose proof (size_nonneg (sz := sz) (data req)); lia).
  unfold size at 1. rewrite decide_False by done. cbn [data cachedSize setCachedSize].
  match goal with |- context [splitLoop fuel _ _ ?q] => destruct (IH q) as (res & -> & Hres) end.
  - right. simpl. by rewrite Hsize.
  - simpl. lia.
  - eexists. split; [done|]. rewrite fmap_cons, Hres. simpl.
    rewrite <- Hit. rewrite count_items in Hext.
    rewrite take_app_length', drop_app_length' by lia. done.
Qed.
End merge_split.
