(* ===== verification/TracesBatchProofs.v ===== *)
(** * TracesBatchProofs: the trace signal keeps the promises of BatchLemmas

    With MergeSplit of a trace request: no span is lost, duplicated or reordered, and
    each keeps its resource and scope; requests respect the size limit and know their
    sizes; splitting by number of spans cuts exact chunks. *)

From S2P Require Import Prelude.
From S2P Require Import GoErrors.
From S2P Require Import Request.
From S2P Require Import PData.
From S2P Require Import Batch.
From S2P Require Import TracesBatch.
From S2P Require Import BatchLemmas.

Section traces.
Context `{PData}.

(** A span with the scope and the resource it was recorded under. *)
Abbreviation scoped := (Scope * string * Span)%type.
Abbreviation located := (Resource * string * scoped)%type.

Definition scope_items (ss : ScopeSpans) : list scoped :=
  (fun s => (ss_Scope ss, ss_SchemaUrl ss, s)) <$> Spans ss.
Definition resource_items (rs : ResourceSpans) : list located :=
  (fun s => (rs_Resource rs, rs_SchemaUrl rs, s)) <$> concat (scope_items <$> rs_ScopeSpans rs).
Definition traces_items (td : Traces) : list located := concat (resource_items <$> td_ResourceSpans td).

(** ** Items *)

Lemma extractScopeSpans_items sz src cap src' ext r :
  extractScopeSpans sz src cap = (src', (ext, r)) ->
  scope_items ext ++ scope_items src' = scope_items src /\
  (Z.of_nat (length (Spans ext)) = 0 -> scope_items ext = []).
Proof.
  unfold extractScopeSpans. destruct (RemoveIf _ _ _) as [x rest] eqn:E. intros [= <- <- <-].
  apply moveOrStop_spec in E as [Hd _]. simpl in Hd. unfold scope_items; simpl.
  rewrite <- fmap_app, Hd. split; [done|]. destruct (dest x); [done|simpl; lia].
Qed.

Lemma extractResourceSpans_items sz src cap src' ext r :
  extractResourceSpans sz src cap = (src', (ext, r)) ->
  resource_items ext ++ resource_items src' = resource_items src /\
  (Z.of_nat (length (rs_ScopeSpans ext)) = 0 -> resource_items ext = []).
Proof.
  unfold extractResourceSpans. destruct (RemoveIf _ _ _) as [x rest] eqn:E. intros [= <- <- <-].
  apply (moveOrExtract_items scope_items) in E; [|done|lia|apply extractScopeSpans_items].
  simpl in E. unfold resource_items; simpl. rewrite <- fmap_app, E. split; [done|].
  destruct (dest x); [done|simpl; lia].
Qed.

Lemma extractTraces_items sz src cap src' ext r :
  extractTraces sz src cap = (src', (ext, r)) ->
  traces_items ext ++ traces_items src' = traces_items src.
Proof.
  unfold extractTraces. destruct (RemoveIf _ _ _) as [x rest] eqn:E. intros [= <- <- <-].
  apply (moveOrExtract_items resource_items) in E; [|done|lia|apply extractResourceSpans_items].
  done.
Qed.

Lemma trace_resource_items_count rs :
  Z.of_nat (length (resource_items rs)) =
  sum_of (fun ss => Z.of_nat (length (Spans ss))) (rs_ScopeSpans rs).
Proof.
  unfold resource_items. rewrite length_fmap, <- sum_of_length. apply sum_of_ext.
  intros ss. unfold scope_items. by rewrite length_fmap.
Qed.

#[export] Instance traces_signal_items : SignalItems Traces TracesSizer located.
Proof.
  refine {| items := traces_items |}.
  - intros td. simpl. unfold SpanCount, traces_items. rewrite <- sum_of_length.
    apply sum_of_ext. intros rs. by rewrite trace_resource_items_count.
  - apply extractTraces_items.
  - intros s d s' d'. simpl. unfold traces_move, MoveAndAppendTo. intros [= <- <-].
    unfold traces_items; simpl. by rewrite fmap_app, concat_app.
Defined.

(** ** Sizes *)

(** What a sizer promises: the size of a container is the size of its own fields and
    the delta sizes of its elements. *)
Class TracesSizerLaws (sz : TracesSizer) := {
  scopeBase : ScopeSpans -> Z;
  resourceBase : ResourceSpans -> Z;
  traces_delta :: DeltaLaws (Traces_DeltaSize sz);
  scopeBase_nonneg : forall ss, 0 <= scopeBase ss;
  resourceBase_nonneg : forall rs, 0 <= resourceBase rs;
  SpanSize_nonneg : forall s, 0 <= SpanSize sz s;
  ScopeSpansSize_set : forall l ss, ScopeSpansSize sz (set_Spans l ss) =
    scopeBase ss + sum_of (fun s => Traces_DeltaSize sz (SpanSize sz s)) l;
  ResourceSpansSize_set : forall l rs, ResourceSpansSize sz (set_ScopeSpans l rs) =
    resourceBase rs + sum_of (fun ss => Traces_DeltaSize sz (ScopeSpansSize sz ss)) l;
  TracesSize_eq : forall td, TracesSize sz td =
    sum_of (fun rs => Traces_DeltaSize sz (ResourceSpansSize sz rs)) (td_ResourceSpans td);
}.

Section laws.
Context (sz : TracesSizer) `{!TracesSizerLaws sz}.
Abbreviation Delta := (Traces_DeltaSize sz).

Lemma set_Spans_id ss : set_Spans (Spans ss) ss = ss.
Proof. by destruct ss. Qed.
Lemma set_ScopeSpans_id rs : set_ScopeSpans (rs_ScopeSpans rs) rs = rs.
Proof. by destruct rs. Qed.

Lemma ScopeSpansSize_eq ss : ScopeSpansSize sz ss =
  scopeBase ss + sum_of (fun s => Delta (SpanSize sz s)) (Spans ss).
Proof. by rewrite <- ScopeSpansSize_set, set_Spans_id. Qed.
Lemma ResourceSpansSize_eq rs : ResourceSpansSize sz rs =
  resourceBase rs + sum_of (fun ss => Delta (ScopeSpansSize sz ss)) (rs_ScopeSpans rs).
Proof. by rewrite <- ResourceSpansSize_set, set_ScopeSpans_id. Qed.

Lemma delta_span_nonneg s : 0 <= Delta (SpanSize sz s).
Proof.
  pose proof (delta_overhead (DeltaSize := Delta) (SpanSize sz s)).
  pose proof (SpanSize_nonneg s). lia.
Qed.
Lemma trace_delta_scope_nonneg ss : 0 <= Delta (ScopeSpansSize sz ss).
Proof.
  eapply delta_raw_nonneg; eauto using ScopeSpansSize_eq, scopeBase_nonneg, delta_span_nonneg with typeclass_instances.
Qed.
Lemma trace_delta_resource_nonneg rs : 0 <= Delta (ResourceSpansSize sz rs).
Proof.
  eapply delta_raw_nonneg; eauto using ResourceSpansSize_eq, resourceBase_nonneg, trace_delta_scope_nonneg with typeclass_instances.
Qed.

Lemma spans_walk :
  walk_laws (fun s => Delta (SpanSize sz s)) (RemoveIf (moveOrStop newSpan (SpanSize sz) Delta)).
Proof. apply items_walk, delta_span_nonneg. Qed.

(** extractScopeSpans is the extraction of a container over this walk. *)
Lemma extractScopeSpans_eq src cap : extractScopeSpans sz src cap =
  extractContainer Spans set_Spans (ScopeSpansSize sz) Delta
    (RemoveIf (moveOrStop newSpan (SpanSize sz) Delta)) src cap.
Proof. reflexivity. Qed.

Lemma trace_scopes_walk :
  walk_laws (fun ss => Delta (ScopeSpansSize sz ss))
    (RemoveIf (moveOrExtract NewScopeSpans (fun ss => Z.of_nat (length (Spans ss)))
                 (ScopeSpansSize sz) Delta (extractScopeSpans sz))).
Proof.
  apply containers_walk; [done|lia|apply trace_delta_scope_nonneg|..]; intros src cap src' ext r;
    rewrite extractScopeSpans_eq.
  - eapply extractContainer_size; eauto using ScopeSpansSize_set, ScopeSpansSize_eq, spans_walk.
  - intros. eapply (extractContainer_kids_fits Spans set_Spans (ScopeSpansSize sz) scopeBase);
      eauto using ScopeSpansSize_set, ScopeSpansSize_eq, scopeBase_nonneg, delta_span_nonneg, spans_walk
        with typeclass_instances.
Qed.

Lemma extractResourceSpans_eq src cap : extractResourceSpans sz src cap =
  extractContainer rs_ScopeSpans set_ScopeSpans (ResourceSpansSize sz) Delta
    (RemoveIf (moveOrExtract NewScopeSpans (fun ss => Z.of_nat (length (Spans ss)))
                 (ScopeSpansSize sz) Delta (extractScopeSpans sz))) src cap.
Proof. reflexivity. Qed.

Lemma trace_resources_walk :
  walk_laws (fun rs => Delta (ResourceSpansSize sz rs))
    (RemoveIf (moveOrExtract NewResourceSpans (fun rs => Z.of_nat (length (rs_ScopeSpans rs)))
                 (ResourceSpansSize sz) Delta (extractResourceSpans sz))).
Proof.
  apply containers_walk; [done|lia|apply trace_delta_resource_nonneg|..]; intros src cap src' ext r;
    rewrite extractResourceSpans_eq.
  - eapply extractContainer_size; eauto using ResourceSpansSize_set, ResourceSpansSize_eq, trace_scopes_walk.
  - intros. eapply (extractContainer_kids_fits rs_ScopeSpans set_ScopeSpans (ResourceSpansSize sz) resourceBase);
      eauto using ResourceSpansSize_set, ResourceSpansSize_eq, resourceBase_nonneg, trace_delta_scope_nonneg, trace_scopes_walk
        with typeclass_instances.
Qed.

#[export] Instance traces_signal_sizes : SignalSizes Traces TracesSizer sz.
Proof.
  split; simpl.
  - intros td. rewrite TracesSize_eq. apply sum_of_nonneg, trace_delta_resource_nonneg.
  - intros td cap src ext r. unfold extractTraces.
    destruct (RemoveIf _ _ _) as [x rest] eqn:E. intros [= <- <- <-].
    apply (walk_removed _ _ trace_resources_walk) in E. rewrite !TracesSize_eq. simpl in *. lia.
  - intros td cap src ext r. unfold extractTraces.
    destruct (RemoveIf _ _ _) as [x rest] eqn:E. intros [= <- <- <-] Hc.
    rewrite TracesSize_eq in E. simpl in E.
    apply (walk_fits _ _ trace_resources_walk) in E; simpl in *; [|lia]. rewrite TracesSize_eq. simpl. lia.
  - intros s d s' d'. unfold traces_move, MoveAndAppendTo. intros [= <- <-].
    rewrite !TracesSize_eq. simpl. by rewrite sum_of_app.
Qed.
End laws.
End traces.

(** ** The two sizers, and the theorems *)

Section sizers.
Context `{PData}.

#[export] Instance TracesCountSizer_laws : TracesSizerLaws TracesCountSizer.
Proof.
  refine {| scopeBase := fun _ => 0; resourceBase := fun _ => 0 |}; simpl; try done; try lia.
  intros l ss. rewrite (sum_of_const _ _ 1) by done. lia.
Defined.

#[export] Instance TracesBytesSizer_laws `{!PDataLaws} : TracesSizerLaws TracesBytesSizer.
Proof.
  refine {|
    scopeBase ss := lenField (Scope_SizeProto (ss_Scope ss)) + stringField (ss_SchemaUrl ss);
    resourceBase rs := lenField (Resource_SizeProto (rs_Resource rs)) + stringField (rs_SchemaUrl rs)
  |}; simpl.
  - intros ss. pose proof (lenField_nonneg _ (Scope_SizeProto_nonneg (ss_Scope ss))).
    pose proof (stringField_nonneg (ss_SchemaUrl ss)). lia.
  - intros rs. pose proof (lenField_nonneg _ (Resource_SizeProto_nonneg (rs_Resource rs))).
    pose proof (stringField_nonneg (rs_SchemaUrl rs)). lia.
  - apply Span_SizeProto_nonneg.
  - intros l ss. unfold ScopeSpans_SizeProto; simpl.
    rewrite (sum_of_ext _ _ _ (fun s => protoDeltaSize_lenField (Span_SizeProto s))). lia.
  - intros l rs. unfold ResourceSpans_SizeProto; simpl.
    rewrite (sum_of_ext _ _ _ (fun ss => protoDeltaSize_lenField (ScopeSpans_SizeProto ss))). lia.
  - intros td. unfold Traces_SizeProto. apply sum_of_ext. intros. by rewrite protoDeltaSize_lenField.
Defined.

Lemma extractScopeSpans_count src cap src' ext r :
  extractScopeSpans TracesCountSizer src cap = (src', (ext, r)) -> 0 <= cap ->
  r = Z.min cap (Z.of_nat (length (Spans src))).
Proof.
  unfold extractScopeSpans. destruct (RemoveIf _ _ _) as [x rest] eqn:E. intros [= <- <- <-] Hc.
  apply moveOrStop_count in E; simpl in *; try done; lia.
Qed.

Lemma extractResourceSpans_count src cap src' ext r :
  extractResourceSpans TracesCountSizer src cap = (src', (ext, r)) -> 0 <= cap ->
  r = Z.min cap (ResourceSpansSize TracesCountSizer src).
Proof.
  unfold extractResourceSpans. destruct (RemoveIf _ _ _) as [x rest] eqn:E. intros [= <- <- <-] Hc.
  apply moveOrExtract_count in E; simpl in *; try done; try lia.
  apply extractScopeSpans_count.
Qed.

#[export] Instance traces_signal_counts : SignalCounts Traces TracesSizer TracesCountSizer.
Proof.
  split; [done|]. simpl. intros td cap src ext r E Hc.
  pose proof (extract_size (sz := TracesCountSizer) td cap src ext r E) as Hs. simpl in Hs.
  pose proof (extract_itemCount (I := (Resource * string * (Scope * string * Span))%type) _ _ _ _ _ _ E) as Hi. simpl in Hi.
  assert (r = Z.min cap (SpanCount td)); [|lia].
  unfold extractTraces in E. destruct (RemoveIf _ _ _) as [x rest] eqn:Er. simplify_eq.
  change (TracesSize TracesCountSizer NewTraces) with 0 in Er.
  apply moveOrExtract_count in Er; simpl in *; try done; try lia.
  - rewrite !Z.sub_0_r in Er. exact Er.
  - intros a. apply sum_of_nonneg. lia.
  - apply extractResourceSpans_count.
Qed.

Abbreviation located_spans := (fun r : tracesRequest => traces_items (data r)).

(** Both sizers of a trace request are lawful. *)
Lemma traces_sizer_laws `{!PDataLaws} szt sz :
  traces_sizer szt = Some sz -> SignalSizes Traces TracesSizer sz.
Proof.
  unfold traces_sizer. repeat case_decide; intros; simplify_eq; apply _.
Qed.


(** Splitting by number of spans never fails, and cuts the spans of the request in
    order into pieces of exactly the limit, the last one excepted. *)
Theorem traces_split_chunks maxSize (req : tracesRequest) :
  0 < maxSize < 2 ^ 62 -> cached_ok TracesCountSizer req ->
  exists res, traces_split maxSize TracesCountSizer req = Some (res, None) /\
    located_spans <$> res =
      chunks (S (Z.to_nat (SpanCount (data req)))) (Z.to_nat maxSize) (traces_items (data req)).
Proof.
  intros Hm Hc. pose proof (itemCount_nonneg (D := Traces) (Szr := TracesSizer) (data req)).
  exact (splitLoop_chunks (D := Traces) (Szr := TracesSizer) TracesCountSizer
           (S (Z.to_nat (SpanCount (data req)))) maxSize req Hm Hc ltac:(simpl in *; lia)).
Qed.
End sizers.
