(* ===== verification/LogsBatchProofs.v ===== *)
(** * LogsBatchProofs: the log signal keeps the promises of BatchLemmas

    With MergeSplit of a log request: no record is lost, duplicated or reordered, and
    each keeps its resource and scope; requests respect the size limit and know their
    sizes; splitting by number of records cuts exact chunks. *)

From S2P Require Import Prelude.
From S2P Require Import GoErrors.
From S2P Require Import Request.
From S2P Require Import PData.
From S2P Require Import Batch.
From S2P Require Import LogsBatch.
From S2P Require Import BatchLemmas.

Section logs.
Context `{PData}.

(** A record with the scope and the resource it was recorded under. *)
Abbreviation scoped := (Scope * string * LogRecord)%type.
Abbreviation located := (Resource * string * scoped)%type.

Definition scope_items (sl : ScopeLogs) : list scoped :=
  (fun s => (sl_Scope sl, sl_SchemaUrl sl, s)) <$> LogRecords sl.
Definition resource_items (rl : ResourceLogs) : list located :=
  (fun s => (rl_Resource rl, rl_SchemaUrl rl, s)) <$> concat (scope_items <$> rl_ScopeLogs rl).
Definition logs_items (ld : Logs) : list located := concat (resource_items <$> ld_ResourceLogs ld).

(** ** Items *)

Lemma extractScopeLogs_items sz src cap src' ext r :
  extractScopeLogs sz src cap = (src', (ext, r)) ->
  scope_items ext ++ scope_items src' = scope_items src /\
  (Z.of_nat (length (LogRecords ext)) = 0 -> scope_items ext = []).
Proof.
  unfold extractScopeLogs. destruct (RemoveIf _ _ _) as [x rest] eqn:E. intros [= <- <- <-].
  apply moveOrStop_spec in E as [Hd _]. simpl in Hd. unfold scope_items; simpl.
  rewrite <- fmap_app, Hd. split; [done|]. destruct (dest x); [done|simpl; lia].
Qed.

Lemma extractResourceLogs_items sz src cap src' ext r :
  extractResourceLogs sz src cap = (src', (ext, r)) ->
  resource_items ext ++ resource_items src' = resource_items src /\
  (Z.of_nat (length (rl_ScopeLogs ext)) = 0 -> resource_items ext = []).
Proof.
  unfold extractResourceLogs. destruct (RemoveIf _ _ _) as [x rest] eqn:E. intros [= <- <- <-].
  apply (moveOrExtract_items scope_items) in E; [|done|lia|apply extractScopeLogs_items].
  simpl in E. unfold resource_items; simpl. rewrite <- fmap_app, E. split; [done|].
  destruct (dest x); [done|simpl; lia].
Qed.

Lemma extractLogs_items sz src cap src' ext r :
  extractLogs sz src cap = (src', (ext, r)) ->
  logs_items ext ++ logs_items src' = logs_items src.
Proof.
  unfold extractLogs. destruct (RemoveIf _ _ _) as [x rest] eqn:E. intros [= <- <- <-].
  apply (moveOrExtract_items resource_items) in E; [|done|lia|apply extractResourceLogs_items].
  done.
Qed.

Lemma log_resource_items_count rl :
  Z.of_nat (length (resource_items rl)) =
  sum_of (fun sl => Z.of_nat (length (LogRecords sl))) (rl_ScopeLogs rl).
Proof.
  unfold resource_items. rewrite length_fmap, <- sum_of_length. apply sum_of_ext.
  intros sl. unfold scope_items. by rewrite length_fmap.
Qed.

#[export] Instance logs_signal_items : SignalItems Logs LogsSizer located.
Proof.
  refine {| items := logs_items |}.
  - intros ld. simpl. unfold LogRecordCount, logs_items. rewrite <- sum_of_length.
    apply sum_of_ext. intros rl. by rewrite log_resource_items_count.
  - apply extractLogs_items.
  - intros s d s' d'. simpl. unfold logs_move, MoveAndAppendTo. intros [= <- <-].
    unfold logs_items; simpl. by rewrite fmap_app, concat_app.
Defined.

(** ** Sizes *)

(** What a sizer promises: the size of a container is the size of its own fields and
    the delta sizes of its elements. *)
Class LogsSizerLaws (sz : LogsSizer) := {
  scopeBase : ScopeLogs -> Z;
  resourceBase : ResourceLogs -> Z;
  logs_delta :: DeltaLaws (Logs_DeltaSize sz);
  scopeBase_nonneg : forall sl, 0 <= scopeBase sl;
  resourceBase_nonneg : forall rl, 0 <= resourceBase rl;
  LogRecordSize_nonneg : forall s, 0 <= LogRecordSize sz s;
  ScopeLogsSize_set : forall l sl, ScopeLogsSize sz (set_LogRecords l sl) =
    scopeBase sl + sum_of (fun s => Logs_DeltaSize sz (LogRecordSize sz s)) l;
  ResourceLogsSize_set : forall l rl, ResourceLogsSize sz (set_ScopeLogs l rl) =
    resourceBase rl + sum_of (fun sl => Logs_DeltaSize sz (ScopeLogsSize sz sl)) l;
  LogsSize_eq : forall ld, LogsSize sz ld =
    sum_of (fun rl => Logs_DeltaSize sz (ResourceLogsSize sz rl)) (ld_ResourceLogs ld);
}.

Section laws.
Context (sz : LogsSizer) `{!LogsSizerLaws sz}.
Abbreviation Delta := (Logs_DeltaSize sz).

Lemma set_LogRecords_id sl : set_LogRecords (LogRecords sl) sl = sl.
Proof. by destruct sl. Qed.
Lemma set_ScopeLogs_id rl : set_ScopeLogs (rl_ScopeLogs rl) rl = rl.
Proof. by destruct rl. Qed.

Lemma ScopeLogsSize_eq sl : ScopeLogsSize sz sl =
  scopeBase sl + sum_of (fun s => Delta (LogRecordSize sz s)) (LogRecords sl).
Proof. by rewrite <- ScopeLogsSize_set, set_LogRecords_id. Qed.
Lemma ResourceLogsSize_eq rl : ResourceLogsSize sz rl =
  resourceBase rl + sum_of (fun sl => Delta (ScopeLogsSize sz sl)) (rl_ScopeLogs rl).
Proof. by rewrite <- ResourceLogsSize_set, set_ScopeLogs_id. Qed.

Lemma delta_record_nonneg s : 0 <= Delta (LogRecordSize sz s).
Proof.
  pose proof (delta_overhead (DeltaSize := Delta) (LogRecordSize sz s)).
  pose proof (LogRecordSize_nonneg s). lia.
Qed.
Lemma log_delta_scope_nonneg sl : 0 <= Delta (ScopeLogsSize sz sl).
Proof.
  eapply delta_raw_nonneg; eauto using ScopeLogsSize_eq, scopeBase_nonneg, delta_record_nonneg with typeclass_instances.
Qed.
Lemma log_delta_resource_nonneg rl : 0 <= Delta (ResourceLogsSize sz rl).
Proof.
  eapply delta_raw_nonneg; eauto using ResourceLogsSize_eq, resourceBase_nonneg, log_delta_scope_nonneg with typeclass_instances.
Qed.

Lemma records_walk :
  walk_laws (fun s => Delta (LogRecordSize sz s)) (RemoveIf (moveOrStop newLogRecord (LogRecordSize sz) Delta)).
Proof. apply items_walk, delta_record_nonneg. Qed.

(** extractScopeLogs is the extraction of a container over this walk. *)
Lemma extractScopeLogs_eq src cap : extractScopeLogs sz src cap =
  extractContainer LogRecords set_LogRecords (ScopeLogsSize sz) Delta
    (RemoveIf (moveOrStop newLogRecord (LogRecordSize sz) Delta)) src cap.
Proof. reflexivity. Qed.

Lemma log_scopes_walk :
  walk_laws (fun sl => Delta (ScopeLogsSize sz sl))
    (RemoveIf (moveOrExtract NewScopeLogs (fun sl => Z.of_nat (length (LogRecords sl)))
                 (ScopeLogsSize sz) Delta (extractScopeLogs sz))).
Proof.
  apply containers_walk; [done|lia|apply log_delta_scope_nonneg|..]; intros src cap src' ext r;
    rewrite extractScopeLogs_eq.
  - eapply extractContainer_size; eauto using ScopeLogsSize_set, ScopeLogsSize_eq, records_walk.
  - intros. eapply (extractContainer_kids_fits LogRecords set_LogRecords (ScopeLogsSize sz) scopeBase);
      eauto using ScopeLogsSize_set, ScopeLogsSize_eq, scopeBase_nonneg, delta_record_nonneg, records_walk
        with typeclass_instances.
Qed.

Lemma extractResourceLogs_eq src cap : extractResourceLogs sz src cap =
  extractContainer rl_ScopeLogs set_ScopeLogs (ResourceLogsSize sz) Delta
    (RemoveIf (moveOrExtract NewScopeLogs (fun sl => Z.of_nat (length (LogRecords sl)))
                 (ScopeLogsSize sz) Delta (extractScopeLogs sz))) src cap.
Proof. reflexivity. Qed.

Lemma log_resources_walk :
  walk_laws (fun rl => Delta (ResourceLogsSize sz rl))
    (RemoveIf (moveOrExtract NewResourceLogs (fun rl => Z.of_nat (length (rl_ScopeLogs rl)))
                 (ResourceLogsSize sz) Delta (extractResourceLogs sz))).
Proof.
  apply containers_walk; [done|lia|apply log_delta_resource_nonneg|..]; intros src cap src' ext r;
    rewrite extractResourceLogs_eq.
  - eapply extractContainer_size; eauto using ResourceLogsSize_set, ResourceLogsSize_eq, log_scopes_walk.
  - intros. eapply (extractContainer_kids_fits rl_ScopeLogs set_ScopeLogs (ResourceLogsSize sz) resourceBase);
      eauto using ResourceLogsSize_set, ResourceLogsSize_eq, resourceBase_nonneg, log_delta_scope_nonneg, log_scopes_walk
        with typeclass_instances.
Qed.

#[export] Instance logs_signal_sizes : SignalSizes Logs LogsSizer sz.
Proof.
  split; simpl.
  - intros ld. rewrite LogsSize_eq. apply sum_of_nonneg, log_delta_resource_nonneg.
  - intros ld cap src ext r. unfold extractLogs.
    destruct (RemoveIf _ _ _) as [x rest] eqn:E. intros [= <- <- <-].
    apply (walk_removed _ _ log_resources_walk) in E. rewrite !LogsSize_eq. simpl in *. lia.
  - intros ld cap src ext r. unfold extractLogs.
    destruct (RemoveIf _ _ _) as [x rest] eqn:E. intros [= <- <- <-] Hc.
    rewrite LogsSize_eq in E. simpl in E.
    apply (walk_fits _ _ log_resources_walk) in E; simpl in *; [|lia]. rewrite LogsSize_eq. simpl. lia.
  - intros s d s' d'. unfold logs_move, MoveAndAppendTo. intros [= <- <-].
    rewrite !LogsSize_eq. simpl. by rewrite sum_of_app.
Qed.
End laws.
End logs.

(** ** The two sizers, and the theorems *)

Section sizers.
Context `{PData}.

#[export] Instance LogsCountSizer_laws : LogsSizerLaws LogsCountSizer.
Proof.
  refine {| scopeBase := fun _ => 0; resourceBase := fun _ => 0 |}; simpl; try done; try lia.
  intros l sl. rewrite (sum_of_const _ _ 1) by done. lia.
Defined.

#[export] Instance LogsBytesSizer_laws `{!PDataLaws} : LogsSizerLaws LogsBytesSizer.
Proof.
  refine {|
    scopeBase sl := lenField (Scope_SizeProto (sl_Scope sl)) + stringField (sl_SchemaUrl sl);
    resourceBase rl := lenField (Resource_SizeProto (rl_Resource rl)) + stringField (rl_SchemaUrl rl)
  |}; simpl.
  - intros sl. pose proof (lenField_nonneg _ (Scope_SizeProto_nonneg (sl_Scope sl))).
    pose proof (stringField_nonneg (sl_SchemaUrl sl)). lia.
  - intros rl. pose proof (lenField_nonneg _ (Resource_SizeProto_nonneg (rl_Resource rl))).
    pose proof (stringField_nonneg (rl_SchemaUrl rl)). lia.
  - apply LogRecord_SizeProto_nonneg.
  - intros l sl. unfold ScopeLogs_SizeProto; simpl.
    rewrite (sum_of_ext _ _ _ (fun s => protoDeltaSize_lenField (LogRecord_SizeProto s))). lia.
  - intros l rl. unfold ResourceLogs_SizeProto; simpl.
    rewrite (sum_of_ext _ _ _ (fun sl => protoDeltaSize_lenField (ScopeLogs_SizeProto sl))). lia.
  - intros ld. unfold Logs_SizeProto. apply sum_of_ext. intros. by rewrite protoDeltaSize_lenField.
Defined.

Lemma extractScopeLogs_count src cap src' ext r :
  extractScopeLogs LogsCountSizer src cap = (src', (ext, r)) -> 0 <= cap ->
  r = Z.min cap (Z.of_nat (length (LogRecords src))).
Proof.
  unfold extractScopeLogs. destruct (RemoveIf _ _ _) as [x rest] eqn:E. intros [= <- <- <-] Hc.
  apply moveOrStop_count in E; simpl in *; try done; lia.
Qed.

Lemma extractResourceLogs_count src cap src' ext r :
  extractResourceLogs LogsCountSizer src cap = (src', (ext, r)) -> 0 <= cap ->
  r = Z.min cap (ResourceLogsSize LogsCountSizer src).
Proof.
  unfold extractResourceLogs. destruct (RemoveIf _ _ _) as [x rest] eqn:E. intros [= <- <- <-] Hc.
  apply moveOrExtract_count in E; simpl in *; try done; try lia.
  apply extractScopeLogs_count.
Qed.

#[export] Instance logs_signal_counts : SignalCounts Logs LogsSizer LogsCountSizer.
Proof.
  split; [done|]. simpl. intros ld cap src ext r E Hc.
  pose proof (extract_size (sz := LogsCountSizer) ld cap src ext r E) as Hs. simpl in Hs.
  pose proof (extract_itemCount (I := (Resource * string * (Scope * string * LogRecord))%type) _ _ _ _ _ _ E) as Hi. simpl in Hi.
  assert (r = Z.min cap (LogRecordCount ld)); [|lia].
  unfold extractLogs in E. destruct (RemoveIf _ _ _) as [x rest] eqn:Er. simplify_eq.
  change (LogsSize LogsCountSizer NewLogs) with 0 in Er.
  apply moveOrExtract_count in Er; simpl in *; try done; try lia.
  - rewrite !Z.sub_0_r in Er. exact Er.
  - intros a. apply sum_of_nonneg. lia.
  - apply extractResourceLogs_count.
Qed.

Abbreviation located_records := (fun r : logsRequest => logs_items (data r)).

(** Both sizers of a log request are lawful. *)
Lemma logs_sizer_laws `{!PDataLaws} szt sz :
  logs_sizer szt = Some sz -> SignalSizes Logs LogsSizer sz.
Proof.
  unfold logs_sizer. repeat case_decide; intros; simplify_eq; apply _.
Qed.

(** Merging and splitting log requests loses, duplicates and reorders no record,
    and leaves each record under its resource and scope: MergeSplit returns, and the
    records of its requests followed by the records it drops are those of the request and
    of the merged one, in order; it drops records only with an error that counts them;
    and every request is within the limit and carries its exact size. *)
Theorem logs_MergeSplit_correct `{!PDataLaws} {Other} maxSize szt sz
    (r2 : option (logsRequest + Other)) (req : logsRequest) :
  logs_sizer szt = Some sz -> 0 <= maxSize < 2 ^ 62 ->
  (forall o, r2 <> Some (inr o)) ->
  cached_ok sz req -> (forall req2, r2 = Some (inl req2) -> cached_ok sz req2) ->
  exists res err dropped, logs_MergeSplit maxSize szt r2 req = Some (res, err) /\
    concat (located_records <$> res) ++ dropped =
      logs_items (data req) ++
      match r2 with Some (inl req2) => logs_items (data req2) | _ => [] end /\
    match err with
    | None => dropped = []
    | Some e => maxSize <> 0 /\ e = errLogRecordTooLarge (Z.of_nat (length dropped))
    end /\
    Forall (fun r => cached_ok sz r /\ (maxSize <> 0 -> LogsSize sz (data r) <= maxSize)) res.
Proof.
  intros Hs Hm Ho Hc Hc2. pose proof (logs_sizer_laws _ _ Hs).
  change (sizerOf szt = Some sz) in Hs.
  destruct (MergeSplit_items (D := Logs) (Szr := LogsSizer) maxSize szt sz r2 req Hs Ho) as (res & err & dr & E & Hi & He).
  exists res, err, dr. split; [done|]. split; [exact Hi|]. split; [exact He|].
  exact (MergeSplit_sizes (D := Logs) (Szr := LogsSizer) maxSize szt sz r2 req res err Hs Ho Hm Hc Hc2 E).
Qed.

(** Splitting by number of records never fails, and cuts the records of the request in
    order into pieces of exactly the limit, the last one excepted. *)
Theorem logs_split_chunks maxSize (req : logsRequest) :
  0 < maxSize < 2 ^ 62 -> cached_ok LogsCountSizer req ->
  exists res, logs_split maxSize LogsCountSizer req = Some (res, None) /\
    located_records <$> res =
      chunks (S (Z.to_nat (LogRecordCount (data req)))) (Z.to_nat maxSize) (logs_items (data req)).
Proof.
  intros Hm Hc. pose proof (itemCount_nonneg (D := Logs) (Szr := LogsSizer) (data req)).
  exact (splitLoop_chunks (D := Logs) (Szr := LogsSizer) LogsCountSizer
           (S (Z.to_nat (LogRecordCount (data req)))) maxSize req Hm Hc ltac:(simpl in *; lia)).
Qed.
End sizers.
