(* ===== verification/MetricsBatchProofs.v ===== *)
(** * MetricsBatchProofs: the metric signal and the promises of BatchLemmas; requests of all signals

    The items of a metric are its data points, each with the metric it belongs to.
    The metric signal keeps the promise on items with any sizer and the promise on
    sizes with the item sizer; with the bytes sizer it does not keep the latter, which
    [metrics_split_exceeds_limit] shows on a request.  The second part has the requests on
    which the theorems of the three signals are applied. *)

From S2P Require Import Prelude.
From S2P Require Import GoErrors.
From S2P Require Import Request.
From S2P Require Import PData.
From S2P Require Import Batch.
From S2P Require Import MetricsBatch.
From S2P Require Import BatchLemmas.
From S2P Require Import TracesBatch.
From S2P Require Import LogsBatch.
From S2P Require Import TracesBatchProofs.
From S2P Require Import LogsBatchProofs.

Section metrics.
Context `{PData}.

Inductive dataPoint :=
| NumberPoint (p : NumberDataPoint)
| HistogramPoint (p : HistogramDataPoint)
| ExponentialHistogramPoint (p : ExponentialHistogramDataPoint)
| SummaryPoint (p : SummaryDataPoint).

(** The metric without its points: name, description, unit, metadata, kind,
    temporality and monotonicity. *)
Definition metric_header (m : Metric) : Metric :=
  set_Data (match m_Data m with
            | MetricEmpty => MetricEmpty
            | MetricGauge _ => MetricGauge []
            | MetricSum _ t mono => MetricSum [] t mono
            | MetricHistogram _ t => MetricHistogram [] t
            | MetricExponentialHistogram _ t => MetricExponentialHistogram [] t
            | MetricSummary _ => MetricSummary []
            end) m.

Definition metric_points (m : Metric) : list dataPoint :=
  match m_Data m with
  | MetricEmpty => []
  | MetricGauge dps => NumberPoint <$> dps
  | MetricSum dps _ _ => NumberPoint <$> dps
  | MetricHistogram dps _ => HistogramPoint <$> dps
  | MetricExponentialHistogram dps _ => ExponentialHistogramPoint <$> dps
  | MetricSummary dps => SummaryPoint <$> dps
  end.

Abbreviation named := (Metric * dataPoint)%type.
Abbreviation scoped := (Scope * string * named)%type.
Abbreviation located := (Resource * string * scoped)%type.

Definition metric_items (m : Metric) : list named := pair (metric_header m) <$> metric_points m.
Definition scope_items (sm : ScopeMetrics) : list scoped :=
  pair (sm_Scope sm, sm_SchemaUrl sm) <$> concat (metric_items <$> sm_Metrics sm).
Definition resource_items (rm : ResourceMetrics) : list located :=
  pair (rm_Resource rm, rm_SchemaUrl rm) <$> concat (scope_items <$> rm_ScopeMetrics rm).
Definition metrics_items (md : Metrics) : list located :=
  concat (resource_items <$> md_ResourceMetrics md).

Lemma dataPointsLen_points m : dataPointsLen m = Z.of_nat (length (metric_points m)).
Proof. unfold dataPointsLen, metric_points. destruct (m_Data m); simpl; by rewrite ?length_fmap. Qed.

(** ** Items *)

(** One of the five kinds: [con] puts points in the data of a metric. *)
Lemma kind_items {P} (inj : P -> dataPoint) (zero : P) (size : P -> Z) Delta x0 src x rest :
  dest x0 = [] ->
  RemoveIf (moveOrStop zero size Delta) x0 src = (x, rest) ->
  (inj <$> dest x) ++ (inj <$> rest) = inj <$> src.
Proof. intros Hx E. apply moveOrStop_spec in E as [E _]. rewrite Hx in E. by rewrite <- fmap_app, E. Qed.

Lemma extractMetricDataPoints_items sz src cap src' ext r :
  extractMetricDataPoints sz src cap = (src', (ext, r)) ->
  metric_items ext ++ metric_items src' = metric_items src /\
  (dataPointsLen ext = 0 -> metric_items ext = []).
Proof.
  intros E.
  assert (metric_points ext ++ metric_points src' = metric_points src /\
          (metric_points ext <> [] -> metric_header ext = metric_header src) /\
          metric_header src' = metric_header src) as (Hp & He & Hs).
  { unfold extractMetricDataPoints in E. destruct src as [nm ds un meta d]. simpl in E. destruct d;
      [injection E as <- <- <-; repeat split|..];
      unfold extractGaugeDataPoints, extractSumDataPoints, extractHistogramDataPoints,
        extractExponentialHistogramDataPoints, extractSummaryDataPoints in E; simpl in E;
      (destruct (RemoveIf _ _ _) as [x rest] eqn:Er); simplify_eq/=;
      (split; [|done]);
      first [ (refine (kind_items NumberPoint _ _ _ _ _ _ _ _ Er); reflexivity)
            | (refine (kind_items HistogramPoint _ _ _ _ _ _ _ _ Er); reflexivity)
            | (refine (kind_items ExponentialHistogramPoint _ _ _ _ _ _ _ _ Er); reflexivity)
            | (refine (kind_items SummaryPoint _ _ _ _ _ _ _ _ Er); reflexivity) ]. }
  unfold metric_items. split.
  - rewrite Hs. destruct (decide (metric_points ext = [])) as [Hn|Hn].
    + rewrite Hn in *. simpl in *. by rewrite Hp.
    + by rewrite He, <- fmap_app, Hp.
  - rewrite dataPointsLen_points. destruct (metric_points ext); [done|simpl; lia].
Qed.

Lemma extractScopeMetrics_items sz src cap src' ext r :
  extractScopeMetrics sz src cap = (src', (ext, r)) ->
  scope_items ext ++ scope_items src' = scope_items src /\
  (Z.of_nat (length (sm_Metrics ext)) = 0 -> scope_items ext = []).
Proof.
  unfold extractScopeMetrics. destruct (RemoveIf _ _ _) as [x rest] eqn:E. intros [= <- <- <-].
  apply (moveOrExtract_items metric_items) in E;
    [|done|intros; rewrite dataPointsLen_points; lia|apply extractMetricDataPoints_items].
  simpl in E. unfold scope_items; simpl. rewrite <- fmap_app, E. split; [done|].
  destruct (dest x); [done|simpl; lia].
Qed.

Lemma extractResourceMetrics_items sz src cap src' ext r :
  extractResourceMetrics sz src cap = (src', (ext, r)) ->
  resource_items ext ++ resource_items src' = resource_items src /\
  (Z.of_nat (length (rm_ScopeMetrics ext)) = 0 -> resource_items ext = []).
Proof.
  unfold extractResourceMetrics. destruct (RemoveIf _ _ _) as [x rest] eqn:E. intros [= <- <- <-].
  apply (moveOrExtract_items scope_items) in E; [|done|lia|apply extractScopeMetrics_items].
  simpl in E. unfold resource_items; simpl. rewrite <- fmap_app, E. split; [done|].
  destruct (dest x); [done|simpl; lia].
Qed.

Lemma extractMetrics_items sz src cap src' ext r :
  extractMetrics sz src cap = (src', (ext, r)) ->
  metrics_items ext ++ metrics_items src' = metrics_items src.
Proof.
  unfold extractMetrics. destruct (RemoveIf _ _ _) as [x rest] eqn:E. intros [= <- <- <-].
  by apply (moveOrExtract_items resource_items) in E; [|done|lia|apply extractResourceMetrics_items].
Qed.

Lemma metrics_items_count md : DataPointCount md = Z.of_nat (length (metrics_items md)).
Proof.
  unfold DataPointCount, metrics_items. rewrite <- sum_of_length. apply sum_of_ext. intros rm.
  unfold resource_items. rewrite length_fmap, <- sum_of_length. apply sum_of_ext. intros sm.
  unfold scope_items. rewrite length_fmap, <- sum_of_length. apply sum_of_ext. intros m.
  unfold metric_items. by rewrite length_fmap, dataPointsLen_points.
Qed.

#[export] Instance metrics_signal_items : SignalItems Metrics MetricsSizer located.
Proof.
  refine {| items := metrics_items |}.
  - apply metrics_items_count.
  - apply extractMetrics_items.
  - intros s d s' d'. simpl. unfold metrics_move, MoveAndAppendTo. intros [= <- <-].
    unfold metrics_items; simpl. by rewrite fmap_app, concat_app.
Defined.

(** ** Sizes, for the sizer that counts *)

Abbreviation csz := MetricsCountSizer.

(** With this sizer the extraction of a metric takes as many points as may be taken. *)
Lemma extractMetricDataPoints_count src cap src' ext r :
  extractMetricDataPoints csz src cap = (src', (ext, r)) ->
  dataPointsLen src' = dataPointsLen src - r /\ dataPointsLen ext = r /\
  (0 <= cap -> r = Z.min cap (dataPointsLen src)) /\ (cap < 0 -> r = 0).
Proof.
  unfold extractMetricDataPoints. destruct src as [nm ds un meta d]. simpl. destruct d;
    [intros; simplify_eq; unfold dataPointsLen; simpl; lia|..];
    unfold extractGaugeDataPoints, extractSumDataPoints, extractHistogramDataPoints,
      extractExponentialHistogramDataPoints, extractSummaryDataPoints, dataPointsLen; simpl;
    (destruct (RemoveIf _ _ _) as [x rest] eqn:E); intros [= <- <- <-]; simpl;
    pose proof (moveOrStop_spec _ _ _ _ _ _ _ E) as [Hd Hr]; simpl in Hd, Hr;
    rewrite (sum_of_const _ (dest x) 1) in Hr by done;
    apply (f_equal length) in Hd; rewrite length_app in Hd;
    (split; [lia|]; split; [lia|]; split; intros Hc;
     [ apply moveOrStop_count in E; unfold dataPointsLen in *; simpl in *; [lia|done|lia]
     | apply moveOrStop_none in E as [? _]; unfold dataPointsLen in *; simpl in *; [lia|done|lia] ]).
Qed.

Lemma csz_scope_set l sm : ScopeMetricsSize csz (set_Metrics l sm) = 0 + sum_of dataPointsLen l.
Proof. done. Qed.
Lemma csz_resource_set l rm :
  ResourceMetricsSize csz (set_ScopeMetrics l rm) = 0 + sum_of (ScopeMetricsSize csz) l.
Proof. done. Qed.

Lemma dataPointsLen_nonneg m : 0 <= dataPointsLen m.
Proof. rewrite dataPointsLen_points. lia. Qed.
Lemma csz_scope_nonneg sm : 0 <= ScopeMetricsSize csz sm.
Proof. apply sum_of_nonneg, dataPointsLen_nonneg. Qed.
Lemma csz_resource_nonneg rm : 0 <= ResourceMetricsSize csz rm.
Proof. apply sum_of_nonneg, csz_scope_nonneg. Qed.

Lemma metrics_walk :
  walk_laws dataPointsLen
    (RemoveIf (moveOrExtract NewMetric dataPointsLen dataPointsLen (fun n => n)
                 (extractMetricDataPoints csz))).
Proof.
  apply (containers_walk NewMetric dataPointsLen dataPointsLen (fun n => n));
    [done|apply dataPointsLen_nonneg..| |];
    intros src cap src' ext r E; apply extractMetricDataPoints_count in E as (? & ? & Hr & Hn); [done|].
  intros. destruct (decide (cap < 0)); [rewrite Hn in * by done|rewrite Hr in * by lia]; lia.
Qed.

Lemma metric_scopes_walk :
  walk_laws (ScopeMetricsSize csz)
    (RemoveIf (moveOrExtract NewScopeMetrics (fun sm => Z.of_nat (length (sm_Metrics sm)))
                 (ScopeMetricsSize csz) (fun n => n) (extractScopeMetrics csz))).
Proof.
  apply (containers_walk NewScopeMetrics _ (ScopeMetricsSize csz) (fun n => n));
    [done|lia|apply csz_scope_nonneg|..]; intros src cap src' ext r E.
  - by eapply (extractContainer_size sm_Metrics set_Metrics (ScopeMetricsSize csz) (fun _ => 0)
                 dataPointsLen (fun n => n)); [..|apply metrics_walk|exact E].
  - intros Hc. by eapply (extractContainer_kids_fits sm_Metrics set_Metrics (ScopeMetricsSize csz)
      (fun _ => 0) dataPointsLen (fun n => n)); [..|apply dataPointsLen_nonneg|apply metrics_walk| |exact E|].
Qed.

Lemma metric_resources_walk :
  walk_laws (ResourceMetricsSize csz)
    (RemoveIf (moveOrExtract NewResourceMetrics (fun rm => Z.of_nat (length (rm_ScopeMetrics rm)))
                 (ResourceMetricsSize csz) (fun n => n) (extractResourceMetrics csz))).
Proof.
  apply (containers_walk NewResourceMetrics _ (ResourceMetricsSize csz) (fun n => n));
    [done|lia|apply csz_resource_nonneg|..]; intros src cap src' ext r E.
  - by eapply (extractContainer_size rm_ScopeMetrics set_ScopeMetrics (ResourceMetricsSize csz)
                 (fun _ => 0) (ScopeMetricsSize csz) (fun n => n)); [..|apply metric_scopes_walk|exact E].
  - intros Hc. by eapply (extractContainer_kids_fits rm_ScopeMetrics set_ScopeMetrics
      (ResourceMetricsSize csz) (fun _ => 0) (ScopeMetricsSize csz) (fun n => n));
      [..|apply csz_scope_nonneg|apply metric_scopes_walk| |exact E|].
Qed.

#[export] Instance metrics_signal_sizes : SignalSizes Metrics MetricsSizer csz.
Proof.
  split; simpl.
  - intros md. apply sum_of_nonneg, csz_resource_nonneg.
  - intros md cap src ext r. unfold extractMetrics.
    destruct (RemoveIf _ _ _) as [x rest] eqn:E. intros [= <- <- <-].
    apply (walk_removed _ _ metric_resources_walk) in E. unfold DataPointCount. simpl in *. lia.
  - intros md cap src ext r. unfold extractMetrics.
    destruct (RemoveIf _ _ _) as [x rest] eqn:E. intros [= <- <- <-] Hc.
    change (MetricsSize csz NewMetrics) with 0 in E.
    apply (walk_fits _ _ metric_resources_walk) in E; simpl in *; [|lia]. unfold DataPointCount. simpl. lia.
  - intros s d s' d'. unfold metrics_move, MoveAndAppendTo. intros [= <- <-].
    unfold DataPointCount. simpl. by rewrite sum_of_app.
Qed.

Lemma extractScopeMetrics_count src cap src' ext r :
  extractScopeMetrics csz src cap = (src', (ext, r)) -> 0 <= cap ->
  r = Z.min cap (ScopeMetricsSize csz src).
Proof.
  unfold extractScopeMetrics. destruct (RemoveIf _ _ _) as [x rest] eqn:E. intros [= <- <- <-] Hc.
  apply moveOrExtract_count in E; simpl in *; try done; try lia.
  - apply dataPointsLen_nonneg.
  - apply dataPointsLen_nonneg.
  - intros ????? E' ?. by apply extractMetricDataPoints_count in E' as (_ & _ & -> & _).
Qed.

Lemma extractResourceMetrics_count src cap src' ext r :
  extractResourceMetrics csz src cap = (src', (ext, r)) -> 0 <= cap ->
  r = Z.min cap (ResourceMetricsSize csz src).
Proof.
  unfold extractResourceMetrics. destruct (RemoveIf _ _ _) as [x rest] eqn:E. intros [= <- <- <-] Hc.
  apply moveOrExtract_count in E; simpl in *; try done; try lia.
  - apply csz_scope_nonneg.
  - apply extractScopeMetrics_count.
Qed.

#[export] Instance metrics_signal_counts : SignalCounts Metrics MetricsSizer csz.
Proof.
  split; [done|]. simpl. intros md cap src ext r E Hc.
  pose proof (extract_size (sz := csz) md cap src ext r E) as Hs. simpl in Hs.
  pose proof (extract_itemCount (I := located) _ _ _ _ _ _ E) as Hi. simpl in Hi.
  assert (r = Z.min cap (DataPointCount md)); [|lia].
  unfold extractMetrics in E. destruct (RemoveIf _ _ _) as [x rest] eqn:Er. simplify_eq.
  change (MetricsSize csz NewMetrics) with 0 in Er.
  apply moveOrExtract_count in Er; simpl in *; try done; try lia.
  - rewrite !Z.sub_0_r in Er. exact Er.
  - apply csz_resource_nonneg.
  - apply extractResourceMetrics_count.
Qed.

Abbreviation located_points := (fun r : metricsRequest => metrics_items (data r)).

(** Merging and splitting metric requests loses, duplicates and reorders no data
    point, whatever the sizer, and leaves each under its metric, scope and resource:
    MergeSplit returns, and the points of its requests followed by those it drops are
    the points of the request and of the merged one, in order; it drops points only
    with an error that counts them.  With the item sizer nothing more is dropped than
    the limit forces: every request has at most the limit's number of points. *)
Theorem metrics_MergeSplit_correct {Other} maxSize szt sz
    (r2 : option (metricsRequest + Other)) (req : metricsRequest) :
  metrics_sizer szt = Some sz -> (forall o, r2 <> Some (inr o)) ->
  exists res err dropped, metrics_MergeSplit maxSize szt r2 req = Some (res, err) /\
    concat (located_points <$> res) ++ dropped =
      metrics_items (data req) ++
      match r2 with Some (inl req2) => metrics_items (data req2) | _ => [] end /\
    match err with
    | None => dropped = []
    | Some e => maxSize <> 0 /\ e = errDataPointTooLarge (Z.of_nat (length dropped))
    end /\
    (szt = SizerTypeItems -> 0 < maxSize < 2 ^ 62 -> cached_ok sz req ->
     (forall req2, r2 = Some (inl req2) -> cached_ok sz req2) ->
     Forall (fun r => DataPointCount (data r) <= maxSize) res).
Proof.
  intros Hs Ho. change (sizerOf szt = Some sz) in Hs.
  destruct (MergeSplit_items (D := Metrics) (Szr := MetricsSizer) maxSize szt sz r2 req Hs Ho)
    as (res & err & dr & E & Hi & He).
  exists res, err, dr. split; [done|]. split; [exact Hi|]. split; [exact He|].
  intros -> Hm Hc Hc2. assert (sz = csz) as -> by (simpl in Hs; unfold metrics_sizer in Hs; rewrite decide_True in Hs by done; congruence).
  pose proof (MergeSplit_sizes (D := Metrics) (Szr := MetricsSizer) maxSize _ csz r2 req res err
                Hs Ho ltac:(lia) Hc Hc2 E) as Hf.
  eapply Forall_impl; [exact Hf|]. intros r [_ Hr]. apply Hr. lia.
Qed.

(** Splitting by number of data points never fails, and cuts the points in order
    into pieces of exactly the limit, the last one excepted. *)
Theorem metrics_split_chunks maxSize (req : metricsRequest) :
  0 < maxSize < 2 ^ 62 -> cached_ok csz req ->
  exists res, metrics_split maxSize csz req = Some (res, None) /\
    located_points <$> res =
      chunks (S (Z.to_nat (DataPointCount (data req)))) (Z.to_nat maxSize) (metrics_items (data req)).
Proof.
  intros Hm Hc. pose proof (itemCount_nonneg (D := Metrics) (Szr := MetricsSizer) (data req)).
  exact (splitLoop_chunks (D := Metrics) (Szr := MetricsSizer) csz
           (S (Z.to_nat (DataPointCount (data req)))) maxSize req Hm Hc ltac:(simpl in *; lia)).
Qed.
End metrics.

(** ** The bytes sizer does not account for the wrapper of the points

    A monotonic cumulative sum of ten points of 20 bytes.  The temporality and the
    monotonicity are set on the extracted metric after its capacity was filled, and
    the growth of the length prefix of the sum is not counted. *)

Definition tenPoints : @Metrics sizedPData :=
  @mkMetrics sizedPData
    [@mkResourceMetrics sizedPData 10%N ""
       [@mkScopeMetrics sizedPData 10%N ""
          [@mkMetric sizedPData "requests" "" "" [] (@MetricSum sizedPData (replicate 10 20%N) 2 true)]]].

(** With the bytes sizer a metric request may be split into requests larger than the
    limit without an error, and the size cached for the last one may be wrong. *)
Theorem metrics_split_exceeds_limit :
  exists res last, @metrics_MergeSplit sizedPData unit 108 SizerTypeBytes None
                     (newRequest tenPoints) = Some (res ++ [last], None) /\
    Forall (fun r => 108 < @Metrics_SizeProto sizedPData (data r)) res /\ res <> [] /\
    cachedSize last <> -1 /\ cachedSize last <> @Metrics_SizeProto sizedPData (data last).
Proof.
  destruct (@metrics_MergeSplit sizedPData unit 108 SizerTypeBytes None (newRequest tenPoints))
    as [[res err]|] eqn:E; vm_compute in E; [|discriminate].
  injection E as <- <-.
  match goal with |- context [Some (?a :: ?b :: ?c :: ?d :: [], _)] => exists [a; b; c], d end.
  split; [reflexivity|]. split; [repeat constructor|].
  split; [discriminate|]. split; vm_compute; discriminate.
Qed.

(** * Concrete requests *)

#[local] Existing Instance sizedPData.
#[local] Existing Instance sizedPData_laws.

Definition scope_spans (l : list N) : @ScopeSpans sizedPData := mkScopeSpans (3%N : Scope) "v1" l.
Definition two_resources : @Traces sizedPData :=
  mkTraces [mkResourceSpans (10%N : Resource) "" [scope_spans [20%N; 30%N]; scope_spans [40%N]];
            mkResourceSpans (11%N : Resource) "" [scope_spans [50%N]]].
Definition more_traces : @Traces sizedPData :=
  mkTraces [mkResourceSpans (12%N : Resource) "" [scope_spans [60%N; 70%N]]].


Lemma traces_split_chunks_witness :
  0 < 2 < 2 ^ 62 /\
  exists res, traces_split 2 TracesCountSizer (newRequest two_resources) = Some (res, None) /\
    (fun r => traces_items (data r)) <$> res =
      chunks (S (Z.to_nat (SpanCount two_resources))) (Z.to_nat 2) (traces_items two_resources).
Proof.
  split; [lia|]. apply (traces_split_chunks 2 (newRequest two_resources)); [lia|left; reflexivity].
Defined.

(** A resource without spans uses up the limit although nothing is exported with
    it: the split of this request fails and drops its span, although each resource
    alone is within the limit. *)
Definition empty_resource_first : @Traces sizedPData :=
  mkTraces [mkResourceSpans (10%N : Resource) "" [];
            mkResourceSpans (10%N : Resource) "" [scope_spans [20%N]]].

Theorem traces_split_drops_span_that_fits :
  Forall (fun rs => Traces_SizeProto (mkTraces [rs]) <= 60) (td_ResourceSpans empty_resource_first) /\
  traces_MergeSplit (Other := unit) 60 SizerTypeBytes None (newRequest empty_resource_first) =
    Some ([], Some (errSpanTooLarge 1)).
Proof. split; [|vm_compute; reflexivity]. repeat constructor; vm_compute; discriminate. Qed.

Definition scope_logs (l : list N) : @ScopeLogs sizedPData := mkScopeLogs (3%N : Scope) "v1" l.
Definition some_logs : @Logs sizedPData :=
  mkLogs [mkResourceLogs (10%N : Resource) "" [scope_logs [20%N; 30%N]; scope_logs [40%N]];
          mkResourceLogs (11%N : Resource) "" [scope_logs [50%N]]].

Lemma logs_MergeSplit_correct_witness :
  logs_sizer SizerTypeBytes = Some LogsBytesSizer /\ 0 <= 70 < 2 ^ 62 /\
  exists res err dropped,
    logs_MergeSplit (Other := unit) 70 SizerTypeBytes (Some (inl (newRequest some_logs)))
      (newRequest some_logs) = Some (res, err) /\
    concat ((fun r => logs_items (data r)) <$> res) ++ dropped =
      logs_items some_logs ++ logs_items some_logs /\
    match err with
    | None => dropped = []
    | Some e => 70 <> 0 /\ e = errLogRecordTooLarge (Z.of_nat (length dropped))
    end /\
    Forall (fun r => cached_ok LogsBytesSizer r /\
              (70 <> 0 -> LogsSize LogsBytesSizer (data r) <= 70)) res.
Proof.
  split; [reflexivity|]. split; [lia|].
  apply (logs_MergeSplit_correct (Other := unit) 70 SizerTypeBytes LogsBytesSizer
           (Some (inl (newRequest some_logs))) (newRequest some_logs)).
  - reflexivity.
  - lia.
  - intros o Ho. discriminate.
  - left. reflexivity.
  - intros req2 Hr. injection Hr as <-. left. reflexivity.
Defined.

Lemma logs_split_chunks_witness :
  0 < 3 < 2 ^ 62 /\
  exists res, logs_split 3 LogsCountSizer (newRequest some_logs) = Some (res, None) /\
    (fun r => logs_items (data r)) <$> res =
      chunks (S (Z.to_nat (LogRecordCount some_logs))) (Z.to_nat 3) (logs_items some_logs).
Proof.
  split; [lia|]. apply (logs_split_chunks 3 (newRequest some_logs)); [lia|left; reflexivity].
Defined.

Lemma metrics_MergeSplit_correct_witness :
  metrics_sizer SizerTypeItems = Some MetricsCountSizer /\
  exists res err dropped,
    metrics_MergeSplit (Other := unit) 4 SizerTypeItems (Some (inl (newRequest tenPoints)))
      (newRequest tenPoints) = Some (res, err) /\
    concat ((fun r => metrics_items (data r)) <$> res) ++ dropped =
      metrics_items tenPoints ++ metrics_items tenPoints /\
    match err with
    | None => dropped = []
    | Some e => 4 <> 0 /\ e = errDataPointTooLarge (Z.of_nat (length dropped))
    end /\
    (SizerTypeItems = SizerTypeItems -> 0 < 4 < 2 ^ 62 -> cached_ok MetricsCountSizer (newRequest tenPoints) ->
     (forall req2, Some (inl (newRequest tenPoints)) = Some (inl req2 : _ + unit) ->
        cached_ok MetricsCountSizer req2) ->
     Forall (fun r => DataPointCount (data r) <= 4) res).
Proof.
  split; [reflexivity|].
  apply (metrics_MergeSplit_correct (Other := unit) 4 SizerTypeItems MetricsCountSizer
           (Some (inl (newRequest tenPoints))) (newRequest tenPoints)).
  - reflexivity.
  - intros o Ho. discriminate.
Defined.

Lemma metrics_split_chunks_witness :
  0 < 4 < 2 ^ 62 /\
  exists res, metrics_split 4 MetricsCountSizer (newRequest tenPoints) = Some (res, None) /\
    (fun r => metrics_items (data r)) <$> res =
      chunks (S (Z.to_nat (DataPointCount tenPoints))) (Z.to_nat 4) (metrics_items tenPoints).
Proof.
  split; [lia|]. apply (metrics_split_chunks 4 (newRequest tenPoints)); [lia|left; reflexivity].
Defined.
