(* ===== verification/MemoryQueue.v ===== *)
(** * MemoryQueue: exporterhelper/internal/queue/{cond,memory_queue,async_queue}.go

    The in-memory queue.  Each method that takes the mutex is a function on the fields
    the mutex guards; [step] interleaves them: the goroutines in Offer that wait on the
    context-aware condition variable, those that wait for the result of their request,
    and the consumers of the asyncQueue.  Two operations block while they hold the
    mutex (the channel send of Signal and the receive of a cancelled Wait): [lock]
    records which. *)

From S2P Require Import Prelude.
From S2P Require Import GoErrors.
From S2P Require Import Request.

(** ** cond.go: a condition variable over a channel with a buffer of one *)

(** [ch] is the number of signals in the channel's buffer.  [waiting] counts
    goroutines, so that its int64 cannot overflow. *)
Record cond := mkCond { ch : Z; waiting : Z }.

Definition newCond : cond := mkCond 0 0.

(** [true]: a signal is to be sent on the channel. *)
Definition Signal (c : cond) : cond * bool :=
  if decide (waiting c = 0) then (c, false) else (mkCond (ch c) (waiting c - 1), true).

(** The send on [ch]: [None] when it blocks because the buffer is full. *)
Definition sendCh (c : cond) : option cond :=
  if decide (ch c < 1) then Some (mkCond (ch c + 1) (waiting c)) else None.

(** The receive on [ch]: [None] when it blocks because the buffer is empty. *)
Definition recvCh (c : cond) : option cond :=
  if decide (0 < ch c) then Some (mkCond (ch c - 1) (waiting c)) else None.

(** The part of Wait up to the select. *)
Definition WaitEnter (c : cond) : cond := mkCond (ch c) (waiting c + 1).

(** The ctx.Done() branch after the lock is taken; [true]: it has to receive on [ch]. *)
Definition WaitCancelled (c : cond) : cond * bool :=
  if decide (waiting c = 0) then (c, true) else (mkCond (ch c) (waiting c - 1), false).

(** ** linkedQueue: nodes in a store, addressed by numbers *)

Record node (Ctx T : Type) := mkNode { n_ctx : Ctx; n_data : T; n_done : nat; n_next : option nat }.
Arguments mkNode {Ctx T} _ _ _ _.
Arguments n_ctx {Ctx T} _.
Arguments n_data {Ctx T} _.
Arguments n_done {Ctx T} _.
Arguments n_next {Ctx T} _.

Record linkedQueue (Ctx T : Type) := mkLinkedQueue {
  nodes : gmap nat (node Ctx T);
  allocated : nat;
  head : option nat;
  tail : option nat;
}.
Arguments mkLinkedQueue {Ctx T} _ _ _ _.
Arguments nodes {Ctx T} _.
Arguments allocated {Ctx T} _.
Arguments head {Ctx T} _.
Arguments tail {Ctx T} _.

Section linked.
Context {Ctx T : Type}.

Definition emptyLinkedQueue : linkedQueue Ctx T := mkLinkedQueue ∅ 0 None None.

Definition push (ctx : Ctx) (data : T) (done : nat) (l : linkedQueue Ctx T) : linkedQueue Ctx T :=
  let n := allocated l in
  let ns := <[n := mkNode ctx data done None]> (nodes l) in
  match tail l with
  | None => mkLinkedQueue ns (S n) (Some n) (Some n)
  | Some t =>
      let ns := match ns !! t with
                | Some tn => <[t := mkNode (n_ctx tn) (n_data tn) (n_done tn) (Some n)]> ns
                | None => ns
                end in
      mkLinkedQueue ns (S n) (head l) (Some n)
  end.

Definition hasElements (l : linkedQueue Ctx T) : bool := bool_decide (head l <> None).

(** [None]: the head is nil or dangling, where Go would panic. *)
Definition pop (l : linkedQueue Ctx T) : option (linkedQueue Ctx T * (Ctx * T * nat)) :=
  match head l with
  | None => None
  | Some h =>
      match nodes l !! h with
      | None => None
      | Some n =>
          let hd := n_next n in
          let tl := match hd with None => None | Some _ => tail l end in
          let ns := <[h := mkNode (n_ctx n) (n_data n) (n_done n) None]> (nodes l) in
          Some (mkLinkedQueue ns (allocated l) hd tl, (n_ctx n, n_data n, n_done n))
      end
  end.
End linked.

(** ** The queue *)

Definition errInvalidSize : error := ErrNew "invalid element size".
Definition errSizeTooLarge : error := ErrNew "element size too large".
Definition ErrQueueIsFull : error := ErrNew "sending queue is full".

(** [bd_ch]: the content of the result channel, which has a buffer of one. *)
Record blockingDone := mkBlockingDone { bd_elSize : Z; bd_ch : option (option error) }.

Record Config := mkConfig {
  sizer : Sizer;
  cap : Z;
  waitForResult : bool;
  blockOnOverflow : bool;
}.

(** The fields the mutex guards; [dones] is the store of the blockingDone objects,
    [pool] the content of blockingDonePool. *)
Record memoryQueue (Ctx T : Type) := mkMemoryQueue {
  hasMoreSpace : cond;
  items : linkedQueue Ctx T;
  size : Z;
  stopped : bool;
  dones : gmap nat blockingDone;
  pool : list nat;
}.
Arguments mkMemoryQueue {Ctx T} _ _ _ _ _ _.
Arguments hasMoreSpace {Ctx T} _.
Arguments items {Ctx T} _.
Arguments size {Ctx T} _.
Arguments stopped {Ctx T} _.
Arguments dones {Ctx T} _.
Arguments pool {Ctx T} _.

Inductive add_result := AddErr (err : error) | AddWait | Added (done : nat).

Section queue.
Context {Ctx T : Type} `{Request T}.
Context (WithoutCancel : Ctx -> Ctx).
Context (cfg : Config).
Abbreviation mq := (memoryQueue Ctx T).

Definition newMemoryQueue : mq := mkMemoryQueue newCond emptyLinkedQueue 0 false ∅ [].

Definition set_cond (c : cond) (q : mq) : mq :=
  mkMemoryQueue c (items q) (size q) (stopped q) (dones q) (pool q).
Definition set_items (l : linkedQueue Ctx T) (q : mq) : mq :=
  mkMemoryQueue (hasMoreSpace q) l (size q) (stopped q) (dones q) (pool q).
Definition set_size (n : Z) (q : mq) : mq :=
  mkMemoryQueue (hasMoreSpace q) (items q) n (stopped q) (dones q) (pool q).
Definition set_dones (d : gmap nat blockingDone) (p : list nat) (q : mq) : mq :=
  mkMemoryQueue (hasMoreSpace q) (items q) (size q) (stopped q) d p.

(** The checks of Offer before it takes the mutex: [Some r] returns [r] at once. *)
Definition OfferCheck (el : T) : option (option error) :=
  let elSize := Sizeof (sizer cfg) el in
  if decide (elSize = 0) then Some None
  else if decide (elSize <= 0) then Some (Some errInvalidSize)
  else if decide (elSize > cap cfg) then Some (Some errSizeTooLarge)
  else None.

(** blockingDonePool.Get, and the reset of what it returns. *)
Definition getDone (elSize : Z) (q : mq) : mq * nat :=
  match pool q with
  | id :: rest =>
      let c := match dones q !! id with Some bd => bd_ch bd | None => None end in
      (set_dones (<[id := mkBlockingDone elSize c]> (dones q)) rest q, id)
  | [] =>
      let id := fresh (dom (dones q)) in
      (set_dones (<[id := mkBlockingDone elSize None]> (dones q)) [] q, id)
  end.

(** One pass of the loop of add, and what follows the loop. *)
Definition add (ctx : Ctx) (el : T) (q : mq) : mq * add_result :=
  let elSize := Sizeof (sizer cfg) el in
  if decide (i64 (size q + elSize) > cap cfg) then
    if negb (blockOnOverflow cfg) then (q, AddErr ErrQueueIsFull)
    else (set_cond (WaitEnter (hasMoreSpace q)) q, AddWait)
  else
    let q := set_size (i64 (size q + elSize)) q in
    let '(q, done) := getDone elSize q in
    let ctx := if negb (waitForResult cfg) then WithoutCancel ctx else ctx in
    (set_items (push ctx el done (items q)) q, Added done).

Inductive read_result := RdItem (ctx : Ctx) (el : T) (done : nat) | RdStopped | RdWait.

(** One pass of the loop of Read; [None]: pop would panic. *)
Definition Read (q : mq) : option (mq * read_result) :=
  if hasElements (items q) then
    match pop (items q) with
    | Some (l, (ctx, el, done)) => Some (set_items l q, RdItem ctx el done)
    | None => None
    end
  else if stopped q then Some (q, RdStopped)
  else Some (q, RdWait).

(** onDone up to the send of Signal ([true]: it sends), ... *)
Definition onDoneSignal (elSize : Z) (q : mq) : mq * bool :=
  let q := set_size (i64 (size q - elSize)) q in
  let '(c, send) := Signal (hasMoreSpace q) in
  (set_cond c q, send).

(** ... and after it.  The send on the result channel blocks when it is full: [None]. *)
Definition onDoneResult (done : nat) (err : option error) (q : mq) : option mq :=
  if waitForResult cfg then
    match dones q !! done with
    | Some (mkBlockingDone elSize None) =>
        Some (set_dones (<[done := mkBlockingDone elSize (Some err)]> (dones q)) (pool q) q)
    | _ => None
    end
  else Some (set_dones (dones q) (done :: pool q) q).

(** The receive of Offer on done.ch: the instance goes back to the pool. *)
Definition takeResult (done : nat) (q : mq) : option (mq * option error) :=
  match dones q !! done with
  | Some (mkBlockingDone elSize (Some err)) =>
      Some (set_dones (<[done := mkBlockingDone elSize None]> (dones q)) (done :: pool q) q, err)
  | _ => None
  end.

Definition Shutdown (q : mq) : mq :=
  mkMemoryQueue (hasMoreSpace q) (items q) (size q) true (dones q) (pool q).

Definition Size (q : mq) : Z := size q.
Definition Capacity : Z := cap cfg.
End queue.
Arguments RdItem {Ctx T} _ _ _.
Arguments RdStopped {Ctx T}.
Arguments RdWait {Ctx T}.

(** ** The goroutines *)

(** Where a producer is in Wait: in the select, past its ctx.Done() branch but without
    the mutex, past its receive but without the mutex. *)
Inductive waiter_state := InSelect | Cancelled | Signalled.

#[export] Instance waiter_state_eq_dec : EqDecision waiter_state.
Proof. solve_decision. Defined.

(** Who blocks while it holds the mutex: the consumer that completes [done] in the send
    of Signal, or the producer of [el] in the receive of a cancelled Wait. *)
Inductive lock_state (T : Type) :=
| Free
| Sending (el : T) (done : nat) (err : option error)
| Receiving (el : T).
Arguments Free {T}.
Arguments Sending {T} _ _ _.
Arguments Receiving {T} _.

Record system (Ctx T : Type) := mkSystem {
  q : memoryQueue Ctx T;
  lock : lock_state T;
  waiters : list (Ctx * T * waiter_state);
  awaiting : list (nat * T);    (** producers that wait for their result *)
  inflight : list (nat * T);    (** done callbacks not called yet *)
  consuming : list T;           (** requests in consumeFunc, not yet unreferenced *)
  references : list (bool * T); (** calls of Ref (true) and Unref (false), oldest first *)
}.
Arguments mkSystem {Ctx T} _ _ _ _ _ _ _.
Arguments q {Ctx T} _.
Arguments lock {Ctx T} _.
Arguments waiters {Ctx T} _.
Arguments awaiting {Ctx T} _.
Arguments inflight {Ctx T} _.
Arguments consuming {Ctx T} _.
Arguments references {Ctx T} _.

(** What a step shows: a request accepted or taken, and the results. *)
Inductive event (T : Type) :=
| EvNone
| EvAccept (el : T)
| EvReject (el : T) (err : option error)
| EvRead (el : T)
| EvDone (el : T) (err : option error)
| EvResult (el : T) (err : option error).
Arguments EvNone {T}.
Arguments EvAccept {T} _.
Arguments EvReject {T} _ _.
Arguments EvRead {T} _.
Arguments EvDone {T} _ _.
Arguments EvResult {T} _ _.

Section system.
Context {Ctx T : Type} `{Request T}.
Context (WithoutCancel : Ctx -> Ctx).
Context (cfg : Config).
Abbreviation sys := (system Ctx T).
Abbreviation add := (add WithoutCancel cfg).

(** What Offer does with the result of add: on success it returns or waits for the
    result, on an error it drops the reference. *)
Definition after_add (el : T) (r : add_result) (s : sys) : sys * event T :=
  match r with
  | AddErr err =>
      (mkSystem (q s) (lock s) (waiters s) (awaiting s) (inflight s) (consuming s)
                (references s ++ [(false, el)]), EvReject el (Some err))
  | AddWait => (s, EvNone)
  | Added done =>
      (mkSystem (q s) (lock s) (waiters s)
                (if waitForResult cfg then awaiting s ++ [(done, el)] else awaiting s)
                (inflight s) (consuming s) (references s), EvAccept el)
  end.

Inductive step : sys -> event T -> sys -> Prop :=
(* Offer: the checks *)
| step_offer_check s el r :
    OfferCheck cfg el = Some r -> step s (EvReject el r) s
(* Offer: Ref, and the first pass of add *)
| step_offer mq ws aw fl co rf ctx el mq' r s' ev :
    OfferCheck cfg el = None ->
    add ctx el mq = (mq', r) ->
    after_add el r
      (mkSystem mq' Free (match r with AddWait => ws ++ [(ctx, el, InSelect)] | _ => ws end)
                aw fl co (rf ++ [(true, el)])) = (s', ev) ->
    step (mkSystem mq Free ws aw fl co rf) ev s'
(* Wait: the select receives a signal, or the context is done *)
| step_wait_receive mq lk ws aw fl co rf i ctx el c :
    ws !! i = Some (ctx, el, InSelect) -> recvCh (hasMoreSpace mq) = Some c ->
    step (mkSystem mq lk ws aw fl co rf) EvNone
         (mkSystem (set_cond c mq) lk (<[i := (ctx, el, Signalled)]> ws) aw fl co rf)
| step_wait_done mq lk ws aw fl co rf i ctx el :
    ws !! i = Some (ctx, el, InSelect) ->
    step (mkSystem mq lk ws aw fl co rf) EvNone
         (mkSystem mq lk (<[i := (ctx, el, Cancelled)]> ws) aw fl co rf)
(* Wait returned nil: the next pass of add *)
| step_resume mq ws aw fl co rf i ctx el mq' r s' ev :
    ws !! i = Some (ctx, el, Signalled) ->
    add ctx el mq = (mq', r) ->
    after_add el r
      (mkSystem mq' Free (match r with AddWait => <[i := (ctx, el, InSelect)]> ws | _ => delete i ws end)
                aw fl co rf) = (s', ev) ->
    step (mkSystem mq Free ws aw fl co rf) ev s'
(* Wait in its ctx.Done() branch *)
| step_cancel mq ws aw fl co rf i ctx el c err :
    ws !! i = Some (ctx, el, Cancelled) ->
    WaitCancelled (hasMoreSpace mq) = (c, false) ->
    step (mkSystem mq Free ws aw fl co rf) (EvReject el (Some err))
         (mkSystem (set_cond c mq) Free (delete i ws) aw fl co (rf ++ [(false, el)]))
| step_cancel_receive mq ws aw fl co rf i ctx el c :
    ws !! i = Some (ctx, el, Cancelled) ->
    WaitCancelled (hasMoreSpace mq) = (c, true) ->
    step (mkSystem mq Free ws aw fl co rf) EvNone
         (mkSystem (set_cond c mq) (Receiving el) (delete i ws) aw fl co rf)
| step_received mq ws aw fl co rf el c err :
    recvCh (hasMoreSpace mq) = Some c ->
    step (mkSystem mq (Receiving el) ws aw fl co rf) (EvReject el (Some err))
         (mkSystem (set_cond c mq) Free ws aw fl co (rf ++ [(false, el)]))
(* the consumers of asyncQueue *)
| step_read mq ws aw fl co rf mq' ctx el done :
    Read mq = Some (mq', RdItem ctx el done) ->
    step (mkSystem mq Free ws aw fl co rf) (EvRead el)
         (mkSystem mq' Free ws aw ((done, el) :: fl) (el :: co) rf)
| step_unref mq lk ws aw fl co1 el co2 rf :
    step (mkSystem mq lk ws aw fl (co1 ++ el :: co2) rf) EvNone
         (mkSystem mq lk ws aw fl (co1 ++ co2) (rf ++ [(false, el)]))
| step_done mq ws aw fl1 done el fl2 co rf err bd mq' :
    dones mq !! done = Some bd ->
    onDoneSignal (bd_elSize bd) mq = (mq', true) ->
    step (mkSystem mq Free ws aw (fl1 ++ (done, el) :: fl2) co rf) EvNone
         (mkSystem mq' (Sending el done err) ws aw (fl1 ++ fl2) co rf)
| step_done_nobody mq ws aw fl1 done el fl2 co rf err bd mq' mq'' :
    dones mq !! done = Some bd ->
    onDoneSignal (bd_elSize bd) mq = (mq', false) ->
    onDoneResult cfg done err mq' = Some mq'' ->
    step (mkSystem mq Free ws aw (fl1 ++ (done, el) :: fl2) co rf) (EvDone el err)
         (mkSystem mq'' Free ws aw (fl1 ++ fl2) co rf)
| step_sent mq ws aw fl co rf done el err c mq' :
    sendCh (hasMoreSpace mq) = Some c ->
    onDoneResult cfg done err (set_cond c mq) = Some mq' ->
    step (mkSystem mq (Sending el done err) ws aw fl co rf) (EvDone el err)
         (mkSystem mq' Free ws aw fl co rf)
(* the producers that wait for a result *)
| step_result mq lk ws aw1 done el aw2 fl co rf mq' err :
    takeResult done mq = Some (mq', err) ->
    step (mkSystem mq lk ws (aw1 ++ (done, el) :: aw2) fl co rf) (EvResult el err)
         (mkSystem mq' lk ws (aw1 ++ aw2) fl co rf)
| step_result_cancelled mq lk ws aw1 done el aw2 fl co rf :
    step (mkSystem mq lk ws (aw1 ++ (done, el) :: aw2) fl co rf) EvNone
         (mkSystem mq lk ws (aw1 ++ aw2) fl co rf)
| step_shutdown mq ws aw fl co rf :
    step (mkSystem mq Free ws aw fl co rf) EvNone
         (mkSystem (Shutdown mq) Free ws aw fl co rf).

Definition initial : sys := mkSystem newMemoryQueue Free [] [] [] [] [].

Inductive run : list (event T) -> sys -> sys -> Prop :=
| run_nil s : run [] s s
| run_snoc evs ev s s1 s2 : run evs s s1 -> step s1 ev s2 -> run (evs ++ [ev]) s s2.
End system.
