(* ===== verification/MemoryQueueProofs.v ===== *)
(** * MemoryQueueProofs: invariants of the in-memory queue and its condition variable *)

From S2P Require Import Prelude.
From S2P Require Import GoErrors.
From S2P Require Import Request.
From S2P Require Import MemoryQueue.

(** ** linkedQueue implements a list *)

Section linked.
Context {Ctx T : Type}.
Abbreviation entry := (Ctx * T * nat)%type.
Abbreviation store := (gmap nat (node Ctx T)).

(** From [p], the nodes of [ps] in order, up to nil. *)
Fixpoint chain (ns : store) (p : option nat) (ps : list (nat * entry)) : Prop :=
  match ps with
  | [] => p = None
  | (a, (c, d, i)) :: rest =>
      p = Some a /\ exists nx, ns !! a = Some (mkNode c d i nx) /\ chain ns nx rest
  end.

Record represents (lq : linkedQueue Ctx T) (ps : list (nat * entry)) : Prop := {
  rep_chain : chain (nodes lq) (head lq) ps;
  rep_nodup : NoDup ps.*1;
  rep_fresh : forall a, a ∈ ps.*1 -> (a < allocated lq)%nat;
  rep_tail : tail lq = last ps.*1;
}.

(** The list a linked queue stands for. *)
Definition holds (lq : linkedQueue Ctx T) (l : list entry) : Prop :=
  exists ps, represents lq ps /\ l = ps.*2.

Lemma chain_frame ns p ps a x : a ∉ ps.*1 -> chain ns p ps -> chain (<[a := x]> ns) p ps.
Proof.
  revert p. induction ps as [|[b [[c d] i]] ps IH]; intros p Ha; [done|].
  simpl in *. apply not_elem_of_cons in Ha as [Hab Ha]. intros (-> & nx & Hb & Hc).
  split; [done|]. exists nx. rewrite lookup_insert_ne by done. auto.
Qed.

Lemma chain_snoc ns p ps t ct dt it n :
  chain ns p (ps ++ [(t, (ct, dt, it))]) -> NoDup (ps ++ [(t, (ct, dt, it))]).*1 ->
  n ∉ (ps ++ [(t, (ct, dt, it))]).*1 ->
  ns !! t = Some (mkNode ct dt it None) /\
  forall cn dn im, chain (<[t := mkNode ct dt it (Some n)]> (<[n := mkNode cn dn im None]> ns)) p
          (ps ++ [(t, (ct, dt, it)); (n, (cn, dn, im))]).
Proof.
  intros Hc Hnd Hn. revert p Hc Hnd Hn.
  induction ps as [|[b [[c d] i]] ps IH]; intros p Hc Hnd Hn; simpl in *.
  - destruct Hc as (-> & nx & Ht & ->). split; [done|]. intros cn dn im.
    split; [done|]. exists (Some n). rewrite lookup_insert_eq. split; [done|]. split; [done|].
    exists None. rewrite lookup_insert_ne by set_solver. by rewrite lookup_insert_eq.
  - destruct Hc as (-> & nx & Hb & Hc). apply NoDup_cons in Hnd as [Hb' Hnd].
    apply not_elem_of_cons in Hn as [Hbn Hn].
    destruct (IH nx Hc Hnd Hn) as [Ht Hch]. split; [done|]. intros cn dn im. split; [done|].
    exists nx. rewrite fmap_app in Hb'.
    rewrite lookup_insert_ne by set_solver. rewrite lookup_insert_ne by done. eauto.
Qed.

Lemma empty_holds : holds emptyLinkedQueue [].
Proof. exists []. split; [|done]. split; try done. - constructor. - set_solver. Qed.

Lemma push_holds c d i lq l : holds lq l -> holds (push c d i lq) (l ++ [(c, d, i)]).
Proof.
  intros (ps & [Hc Hnd Hf Ht] & ->). exists (ps ++ [(allocated lq, (c, d, i))]).
  rewrite fmap_app. split; [|done]. unfold push.
  assert (allocated lq ∉ ps.*1) as Hnew by (intros Hin; apply Hf in Hin; lia).
  destruct ps as [|[t e] ps _] using rev_ind.
  { simpl in *. rewrite Ht. split; simpl; [|apply NoDup_singleton|set_solver by lia|done].
    split; [done|]. exists None. by rewrite lookup_insert_eq. }
  destruct e as [[ct dt] it].
  destruct (chain_snoc _ _ _ _ _ _ _ (allocated lq) Hc Hnd Hnew) as [Hn Hch].
  rewrite fmap_app, last_app in Ht. simpl in Ht. rewrite Ht.
  assert (t <> allocated lq) by (rewrite fmap_app in Hnew; set_solver).
  rewrite lookup_insert_ne by done. rewrite Hn. simpl.
  rewrite <- app_assoc. simpl. split; simpl.
  - apply Hch.
  - rewrite fmap_app in *. simpl in *. replace (ps.*1 ++ [t; allocated lq]) with ((ps.*1 ++ [t]) ++ [allocated lq])
      by by rewrite <- app_assoc.
    apply NoDup_app. split; [done|]. split; [set_solver|apply NoDup_singleton].
  - intros a. rewrite fmap_app in *. simpl. intros Ha.
    assert (a ∈ (ps.*1 ++ [t]) \/ a = allocated lq) as [Hin| ->] by set_solver; [|lia].
    apply Hf in Hin. lia.
  - by rewrite fmap_app, last_app.
Qed.

Lemma pop_holds lq c d i l :
  holds lq ((c, d, i) :: l) ->
  hasElements lq = true /\ exists lq', pop lq = Some (lq', (c, d, i)) /\ holds lq' l.
Proof.
  intros (ps & [Hc Hnd Hf Ht] & Hl). destruct ps as [|[a e] ps]; simplify_eq/=.
  destruct Hc as (Hh & nx & Ha & Hc). unfold hasElements, pop. rewrite Hh, Ha.
  split; [by apply bool_decide_eq_true|]. eexists. split; [done|]. exists ps. split; [|done].
  apply NoDup_cons in Hnd as [Hna Hnd]. split; simpl; try done.
  - by apply chain_frame.
  - intros b Hb. apply Hf. by right.
  - rewrite Ht. destruct ps as [|[b [[??]?]] ps]; simpl in *; [by subst|]. by destruct Hc as [-> _].
Qed.

Lemma hasElements_nil lq : holds lq [] -> hasElements lq = false.
Proof.
  intros (ps & [Hc _ _ _] & Hl). destruct ps; [|done]. simpl in Hc. unfold hasElements.
  by rewrite Hc.
Qed.
End linked.

(** ** The invariant of the requests *)

Section core.
Context {Ctx T : Type} `{Request T}.
Context (WithoutCancel : Ctx -> Ctx).
Context (cfg : Config) (cap_range : cap cfg < 2 ^ 62).
Abbreviation mq := (memoryQueue Ctx T).
Abbreviation add := (add WithoutCancel cfg).
Abbreviation sz := (fun el : T => Sizeof (sizer cfg) el).

Definition accepts (evs : list (event T)) : list T :=
  omap (fun ev => match ev with EvAccept el => Some el | _ => None end) evs.
Definition reads (evs : list (event T)) : list T :=
  omap (fun ev => match ev with EvRead el => Some el | _ => None end) evs.

Definition entry_el (e : Ctx * T * nat) : T := e.1.2.
Definition entry_id (e : Ctx * T * nat) : nat * T := (e.2, e.1.2).

(** The requests accepted whose done callback has not finished: in the queue [l],
    with a consumer [fl], or in the callback [snd]. *)
Definition live (snd fl : list (nat * T)) (l : list (Ctx * T * nat)) : list (nat * T) :=
  (entry_id <$> l) ++ fl ++ snd.

Record core (m : mq) (snd aw fl : list (nat * T)) (l : list (Ctx * T * nat))
    (evs : list (event T)) : Prop := {
  c_items : holds (items m) l;
  c_fifo : accepts evs = reads evs ++ (entry_el <$> l);
  c_nodup : NoDup ((live snd fl l).*1 ++ pool m);
  c_live : forall id el, (id, el) ∈ live snd fl l ->
    dones m !! id = Some (mkBlockingDone (sz el) None) /\ 0 < sz el;
  c_pool : forall id, id ∈ pool m -> exists n, dones m !! id = Some (mkBlockingDone n None);
  c_size : size m = sum_of (fun e => sz (entry_el e)) l + sum_of (fun p => sz p.2) fl;
  c_bound : 0 <= size m <= Z.max 0 (cap cfg);
  c_await : forall id el, (id, el) ∈ aw -> waitForResult cfg = true /\ id ∉ pool m /\
    ((id, el) ∈ live snd fl l \/
     exists n err, dones m !! id = Some (mkBlockingDone n (Some err)) /\ EvDone el err ∈ evs);
  c_await_nodup : NoDup aw.*1;
  c_result : forall k el err, evs !! k = Some (EvResult el err) ->
    exists j, (j < k)%nat /\ evs !! j = Some (EvDone el err);
}.

Lemma core_cond m c snd aw fl l evs :
  core m snd aw fl l evs -> core (set_cond c m) snd aw fl l evs.
Proof. intros []. by constructor. Qed.

Lemma core_shutdown m snd aw fl l evs :
  core m snd aw fl l evs -> core (Shutdown m) snd aw fl l evs.
Proof. intros []. by constructor. Qed.

Lemma accepts_app e1 e2 : accepts (e1 ++ e2) = accepts e1 ++ accepts e2.
Proof. apply omap_app. Qed.
Lemma reads_app e1 e2 : reads (e1 ++ e2) = reads e1 ++ reads e2.
Proof. apply omap_app. Qed.

Lemma result_snoc (evs : list (event T)) ev :
  (forall k el err, evs !! k = Some (EvResult el err) ->
     exists j, (j < k)%nat /\ evs !! j = Some (EvDone el err)) ->
  (forall el err, ev = EvResult el err -> EvDone el err ∈ evs) ->
  forall k el err, (evs ++ [ev]) !! k = Some (EvResult el err) ->
     exists j, (j < k)%nat /\ (evs ++ [ev]) !! j = Some (EvDone el err).
Proof.
  intros Hold Hnew k el err [Hk|[Hk Hr]]%lookup_app_Some.
  - destruct (Hold _ _ _ Hk) as (j & ? & Hj). exists j. split; [done|].
    by apply lookup_app_l_Some.
  - apply list_lookup_singleton_Some in Hr as [Hk0 ->].
    destruct (proj1 (list_elem_of_lookup _ _) (Hnew _ _ eq_refl)) as [j Hj].
    exists j. pose proof (lookup_lt_Some _ _ _ Hj). split; [lia|]. by apply lookup_app_l_Some.
Qed.

(** Events that neither accept, read nor deliver a result leave the invariant. *)
Lemma core_event m snd aw fl l evs ev :
  match ev with EvAccept _ | EvRead _ | EvResult _ _ => False | _ => True end ->
  core m snd aw fl l evs -> core m snd aw fl l (evs ++ [ev]).
Proof.
  intros Hev []. constructor; try done.
  - rewrite accepts_app, reads_app, c_fifo0. destruct ev; try done; simpl; by rewrite !app_nil_r.
  - intros id el Hin. destruct (c_await0 id el Hin) as (? & ? & [?|(n & err & ? & ?)]);
      (split; [done|]; split; [done|]); [by left|]. right. exists n, err. split; [done|].
    apply elem_of_app. by left.
  - apply result_snoc; [done|]. intros ? ? ->. done.
Qed.

(** ** blockingDonePool.Get returns an instance nobody holds *)

Lemma getDone_spec m n snd aw fl l evs m' id :
  core m snd aw fl l evs -> getDone n m = (m', id) ->
  items m' = items m /\ size m' = size m /\ hasMoreSpace m' = hasMoreSpace m /\
  stopped m' = stopped m /\
  id ∉ (live snd fl l).*1 /\ id ∉ aw.*1 /\ id ∉ pool m' /\
  (forall x, x ∈ pool m' -> x ∈ pool m) /\
  NoDup ((live snd fl l).*1 ++ pool m') /\
  dones m' = <[id := mkBlockingDone n None]> (dones m).
Proof.
  intros [] E. unfold getDone in E. destruct (pool m) as [|x rest] eqn:Ep; simplify_eq/=.
  - pose proof (is_fresh (dom (dones m))) as Hf.
    assert (forall i bd, dones m !! i = Some bd -> i <> fresh (dom (dones m))) as Hne.
    { intros i bd Hi ->. apply Hf. by apply elem_of_dom. }
    do 4 (split; [done|]). split; [|split; [|split; [|split; [|split]]]].
    + intros ([i el] & Hi & Hin)%list_elem_of_fmap. destruct (c_live0 i el Hin) as [Hi' _].
      by apply Hne in Hi'.
    + intros ([i el] & Hi & Hin)%list_elem_of_fmap.
      destruct (c_await0 i el Hin) as (_ & _ & [Hl|(? & ? & Hi' & _)]); [|by apply Hne in Hi'].
      destruct (c_live0 i el Hl) as [Hi' _]. by apply Hne in Hi'.
    + apply not_elem_of_nil.
    + by intros x ?%elem_of_nil.
    + done.
    + done.
  - destruct (c_pool0 id ltac:(by left)) as [n0 Hid]. rewrite Hid. simpl.
    assert (NoDup (id :: (live snd fl l).*1 ++ rest)) as Hnd
      by (by rewrite Permutation_middle).
    apply NoDup_cons in Hnd as [Hni Hnd].
    rewrite elem_of_app in Hni.
    do 4 (split; [done|]). split; [tauto|]. split; [|split; [tauto|split; [|split]]].
    + intros ([i el] & Hi & Hin)%list_elem_of_fmap. simpl in Hi. subst i.
      destruct (c_await0 id el Hin) as (_ & Hp & _). apply Hp. by left.
    + intros x Hx. by right.
    + done.
    + done.
Qed.

Lemma live_perm m snd fl l snd' fl' l' aw evs :
  live snd fl l ≡ₚ live snd' fl' l' -> core m snd aw fl l evs ->
  NoDup ((live snd' fl' l').*1 ++ pool m) /\
  (forall id el, (id, el) ∈ live snd' fl' l' ->
     dones m !! id = Some (mkBlockingDone (sz el) None) /\ 0 < sz el) /\
  (forall id el, (id, el) ∈ aw -> waitForResult cfg = true /\ id ∉ pool m /\
     ((id, el) ∈ live snd' fl' l' \/
      exists n err, dones m !! id = Some (mkBlockingDone n (Some err)) /\ EvDone el err ∈ evs)).
Proof.
  intros Hp []. split; [by rewrite <- Hp|]. split.
  - intros id el Hin. rewrite <- Hp in Hin. auto.
  - intros id el Hin. destruct (c_await0 id el Hin) as (? & ? & Hor).
    split; [done|]. split; [done|]. destruct Hor as [Hin'|?]; [|by right]. left. by rewrite <- Hp.
Qed.

Lemma await_event (m : mq) id el evs ev :
  (exists n err, dones m !! id = Some (mkBlockingDone n (Some err)) /\ EvDone el err ∈ evs) ->
  exists n err, dones m !! id = Some (mkBlockingDone n (Some err)) /\ EvDone (T := T) el err ∈ evs ++ [ev].
Proof. intros (n & err & ? & ?). exists n, err. split; [done|]. apply elem_of_app. by left. Qed.

(** ** Offer *)

Lemma live_sizes_nonneg (m : mq) snd fl l :
  (forall id el, (id, el) ∈ live snd fl l ->
     dones m !! id = Some (mkBlockingDone (sz el) None) /\ 0 < sz el) ->
  0 <= sum_of (fun e => sz (entry_el e)) l /\ 0 <= sum_of (fun p => sz p.2) fl.
Proof.
  intros Hlv. split; apply sum_of_nonneg_in.
  - intros [[c el] i] He. apply Z.lt_le_incl, (Hlv i el). unfold live. apply elem_of_app. left.
    apply list_elem_of_fmap. by exists (c, el, i).
  - intros [i el] He. apply Z.lt_le_incl, (Hlv i el). unfold live. apply elem_of_app. right.
    apply elem_of_app. by left.
Qed.

Lemma add_spec m snd aw fl l evs ctx el m' r :
  core m snd aw fl l evs -> 0 < sz el <= cap cfg -> add ctx el m = (m', r) ->
  match r with
  | AddErr _ => m' = m
  | AddWait => m' = set_cond (WaitEnter (hasMoreSpace m)) m
  | Added id => hasMoreSpace m' = hasMoreSpace m /\ exists ctx',
      core m' snd (if waitForResult cfg then aw ++ [(id, el)] else aw) fl
           (l ++ [(ctx', el, id)]) (evs ++ [EvAccept el])
  end.
Proof.
  intros Hcore Hsz E. unfold MemoryQueue.add in E. case_decide as Hfull.
  { destruct (negb _); by simplify_eq. }
  cbv zeta in E. destruct (getDone (sz el) (set_size (i64 (size m + sz el)) m)) as [m1 id] eqn:Eg.
  rewrite Eg in E. simplify_eq/=.
  assert (core (set_size (size m) m) snd aw fl l evs) as Hcore' by (by destruct m).
  pose proof (c_bound _ _ _ _ _ _ Hcore) as Hb. pose proof (c_size _ _ _ _ _ _ Hcore) as Hs.
  rewrite i64_id in Hfull, Eg by lia.
  assert (exists m2, getDone (sz el) m = (m2, id) /\ m1 = set_size (size m + sz el) m2) as (m2 & Eg' & ->).
  { unfold getDone in *. destruct m as [? ? ? ? ? pl]; simpl in *. destruct pl; simplify_eq/=; eauto. }
  destruct (getDone_spec _ _ _ _ _ _ _ _ _ Hcore Eg')
    as (Ei & Es & Ec & Est & Hnl & Hna & Hnp & Hsub & Hnd & Ed).
  split; [done|]. eexists.
  assert (live snd fl (l ++ [(if negb (waitForResult cfg) then WithoutCancel ctx else ctx, el, id)])
          ≡ₚ (id, el) :: live snd fl l) as Hlive.
  { unfold live. rewrite fmap_app. simpl. unfold entry_id at 2; simpl. solve_Permutation. }
  destruct Hcore. constructor; simpl.
  - rewrite Ei. by apply push_holds.
  - rewrite accepts_app, reads_app, c_fifo0, fmap_app. simpl. by rewrite app_nil_r, <- app_assoc.
  - rewrite Hlive. simpl. apply NoDup_cons. split; [|done]. rewrite elem_of_app. tauto.
  - intros i e. rewrite Hlive, elem_of_cons, Ed. intros [[= -> ->]|Hin].
    + rewrite lookup_insert_eq. split; [done|lia].
    + rewrite lookup_insert_ne; [by apply c_live0|]. intros ->. apply Hnl.
      apply list_elem_of_fmap. by exists (i, e).
  - intros i Hi. rewrite Ed, lookup_insert_ne by (intros ->; done). auto.
  - rewrite sum_of_app. unfold entry_el in *. simpl in *. lia.
  - lia.
  - assert (forall i e, (i, e) ∈ aw -> waitForResult cfg = true /\ i ∉ pool m2 /\
      ((i, e) ∈ live snd fl (l ++ [(if negb (waitForResult cfg) then WithoutCancel ctx else ctx, el, id)]) \/
       exists n err, dones m2 !! i = Some (mkBlockingDone n (Some err)) /\ EvDone e err ∈ evs ++ [EvAccept el]))
      as Hold.
    { intros i e Hin. destruct (c_await0 i e Hin) as (? & Hp & Hor). split; [done|]. split; [auto|].
      destruct Hor as [Hl|(n & err & Hd & Hev)]; [left; rewrite Hlive; by right|right].
      exists n, err. rewrite Ed, lookup_insert_ne.
      - split; [done|]. apply elem_of_app. by left.
      - intros ->. apply Hna. apply list_elem_of_fmap. by exists (i, e). }
    destruct (waitForResult cfg) eqn:Ew; [|done].
    intros i e [Hin|Hin]%elem_of_app; [auto|]. apply list_elem_of_singleton in Hin as [= -> ->].
    split; [done|]. split; [done|]. left. rewrite Hlive. by left.
  - destruct (waitForResult cfg); [|done]. rewrite fmap_app. simpl. apply NoDup_app.
    split; [done|]. split; [|apply NoDup_singleton]. intros x Hx ->%list_elem_of_singleton. done.
  - by apply result_snoc.
Qed.

(** ** Read *)

Lemma read_spec m snd aw fl l evs m' ctx el done :
  core m snd aw fl l evs -> Read m = Some (m', RdItem ctx el done) ->
  hasMoreSpace m' = hasMoreSpace m /\ exists l', l = (ctx, el, done) :: l' /\
  core m' snd aw ((done, el) :: fl) l' (evs ++ [EvRead el]).
Proof.
  intros Hcore E. pose proof (c_items _ _ _ _ _ _ Hcore) as Hi.
  unfold Read in E. destruct l as [|[[c0 e0] d0] l].
  { rewrite (hasElements_nil _ Hi) in E. by destruct (stopped m). }
  destruct (pop_holds _ _ _ _ _ Hi) as (Hh & lq' & Hp & Hl'). rewrite Hh, Hp in E. simplify_eq/=.
  split; [done|]. exists l. split; [done|].
  assert (live snd fl ((ctx, el, done) :: l) ≡ₚ live snd ((done, el) :: fl) l) as Hperm
    by (unfold live; simpl; unfold entry_id at 1; simpl; solve_Permutation).
  destruct (live_perm m _ _ _ _ _ _ aw evs Hperm Hcore) as (Hnd & Hlv & Haw).
  destruct Hcore. constructor; simpl; try done.
  - rewrite accepts_app, reads_app, c_fifo0. simpl. by rewrite app_nil_r, <- app_assoc.
  - simpl in c_size0. unfold entry_el at 1 in c_size0. simpl in c_size0. lia.
  - intros id e Hin. destruct (Haw id e Hin) as (? & ? & Hor). split; [done|]. split; [done|].
    destruct Hor as [?|Hor]; [by left|]. right. by apply await_event.
  - by apply result_snoc.
Qed.

(** ** onDone *)

Lemma onDoneSignal_spec m aw fl1 done el fl2 l evs bd m' b :
  core m [] aw (fl1 ++ (done, el) :: fl2) l evs -> dones m !! done = Some bd ->
  onDoneSignal (bd_elSize bd) m = (m', b) ->
  core m' [(done, el)] aw (fl1 ++ fl2) l evs /\ Signal (hasMoreSpace m) = (hasMoreSpace m', b).
Proof.
  intros Hcore Hbd E. unfold onDoneSignal in E. destruct (Signal _) as [c send] eqn:Es.
  simpl in Es. simplify_eq/=. split; [|done].
  assert (live [] (fl1 ++ (done, el) :: fl2) l ≡ₚ live [(done, el)] (fl1 ++ fl2) l) as Hperm
    by (unfold live; rewrite app_nil_r; solve_Permutation).
  destruct (live_perm m _ _ _ _ _ _ aw evs Hperm Hcore) as (Hnd & Hlv & Haw).
  destruct (live_sizes_nonneg _ _ _ _ Hlv) as [Hn1 Hn2].
  destruct (Hlv done el) as [Hd Hpos].
  { unfold live. rewrite !elem_of_app. right. right. by left. }
  rewrite Hbd in Hd. simplify_eq/=.
  destruct Hcore. rewrite sum_of_app in *. simpl in *.
  rewrite i64_id by lia. constructor; simpl; try done; [|lia].
  rewrite sum_of_app. lia.
Qed.

Lemma onDoneResult_spec m aw fl l evs done el err m' :
  core m [(done, el)] aw fl l evs -> onDoneResult cfg done err m = Some m' ->
  hasMoreSpace m' = hasMoreSpace m /\ core m' [] aw fl l (evs ++ [EvDone el err]).
Proof.
  intros Hcore E.
  assert (live [(done, el)] fl l ≡ₚ (done, el) :: live [] fl l) as Hperm
    by (unfold live; rewrite app_nil_r; solve_Permutation).
  pose proof (c_nodup _ _ _ _ _ _ Hcore) as Hnd. rewrite Hperm in Hnd. simpl in Hnd.
  apply NoDup_cons in Hnd as [Hni Hnd]. rewrite elem_of_app in Hni.
  destruct (c_live _ _ _ _ _ _ Hcore done el) as [Hd Hpos]; [rewrite Hperm; by left|].
  unfold onDoneResult in E. rewrite Hd in E.
  assert (forall i e, (i, e) ∈ live [] fl l -> i <> done) as Hne.
  { intros i e Hin ->. apply Hni. left. apply list_elem_of_fmap. by exists (done, e). }
  destruct Hcore.
  destruct (waitForResult cfg) eqn:Ew; simplify_eq/=; (split; [done|]); constructor; simpl; try done.
  - rewrite accepts_app, reads_app, c_fifo0. simpl. by rewrite !app_nil_r.
  - intros i e Hin. rewrite lookup_insert_ne by (symmetry; eauto). apply c_live0.
    rewrite Hperm. by right.
  - intros i Hi. rewrite lookup_insert_ne by (intros ->; tauto). auto.
  - intros i e Hin. destruct (c_await0 i e Hin) as (? & ? & Hor). split; [done|]. split; [done|].
    rewrite Hperm, elem_of_cons in Hor. destruct Hor as [[[= -> ->]|Hl]|(n & er & Hi & Hev)].
    + right. exists (sz el), err. rewrite lookup_insert_eq. split; [done|].
      apply elem_of_app. right. by left.
    + by left.
    + right. exists n, er. rewrite lookup_insert_ne by (intros ->; by rewrite Hd in Hi).
      split; [done|]. apply elem_of_app. by left.
  - by apply result_snoc.
  - rewrite accepts_app, reads_app, c_fifo0. simpl. by rewrite !app_nil_r.
  - rewrite <- Permutation_middle. apply NoDup_cons. split; [rewrite elem_of_app; tauto|done].
  - intros i e Hin. apply c_live0. rewrite Hperm. by right.
  - intros i [->|Hi]%elem_of_cons; [by exists (sz el)|auto].
  - intros i e Hin. by destruct (c_await0 i e Hin) as (? & _).
  - by apply result_snoc.
Qed.

(** The result channel of a live request is empty: the send does not block. *)
Lemma onDoneResult_total m aw fl l evs done el err :
  core m [(done, el)] aw fl l evs -> is_Some (onDoneResult cfg done err m).
Proof.
  intros Hcore. destruct (c_live _ _ _ _ _ _ Hcore done el) as [Hd _].
  { unfold live. rewrite !elem_of_app. right. right. by left. }
  unfold onDoneResult. rewrite Hd. destruct (waitForResult cfg); by eexists.
Qed.

(** ** The result of a request *)

Lemma drop_await m snd aw1 p aw2 fl l evs :
  core m snd (aw1 ++ p :: aw2) fl l evs -> core m snd (aw1 ++ aw2) fl l evs.
Proof.
  intros []. constructor; try done.
  - intros id el Hin. apply c_await0. rewrite elem_of_app in *. rewrite elem_of_cons. tauto.
  - rewrite fmap_app in *. simpl in *. rewrite <- Permutation_middle in c_await_nodup0.
    by apply NoDup_cons in c_await_nodup0 as [_ ?].
Qed.

Lemma takeResult_spec m snd aw1 done el aw2 fl l evs m' err :
  core m snd (aw1 ++ (done, el) :: aw2) fl l evs -> takeResult done m = Some (m', err) ->
  hasMoreSpace m' = hasMoreSpace m /\ core m' snd (aw1 ++ aw2) fl l (evs ++ [EvResult el err]).
Proof.
  intros Hcore E. unfold takeResult in E.
  destruct (dones m !! done) as [[n [e|]]|] eqn:Hd; simplify_eq/=. split; [done|].
  destruct (c_await _ _ _ _ _ _ Hcore done el) as (Hw & Hnp & Hor).
  { rewrite elem_of_app. right. by left. }
  assert (forall i e, (i, e) ∈ live snd fl l -> i <> done) as Hne.
  { intros i e Hin ->. apply (c_live _ _ _ _ _ _ Hcore) in Hin as [Hin _]. by rewrite Hd in Hin. }
  assert (EvDone el err ∈ evs) as Hev.
  { destruct Hor as [Hl|(n' & e' & Hd' & ?)]; [by apply Hne in Hl|]. by simplify_eq. }
  pose proof (c_await_nodup _ _ _ _ _ _ Hcore) as Hnda. rewrite fmap_app in Hnda. simpl in Hnda.
  rewrite <- Permutation_middle in Hnda. apply NoDup_cons in Hnda as [Hna _].
  apply drop_await in Hcore as []. constructor; simpl; try done.
  - rewrite accepts_app, reads_app, c_fifo0. simpl. by rewrite !app_nil_r.
  - rewrite <- Permutation_middle. apply NoDup_cons. split; [|done]. rewrite elem_of_app.
    intros [Hin|?]; [|done]. apply list_elem_of_fmap in Hin as ([i x] & -> & Hin). by apply Hne in Hin.
  - intros i x Hin. rewrite lookup_insert_ne by (symmetry; eauto). auto.
  - intros i [->|Hi]%elem_of_cons; [exists n; by rewrite lookup_insert_eq|].
    rewrite lookup_insert_ne by (intros ->; done). auto.
  - intros i x Hin. destruct (c_await0 i x Hin) as (_ & Hp & Hor').
    assert (i <> done) as Hid.
    { intros ->. apply Hna. rewrite <- fmap_app. apply list_elem_of_fmap. by exists (done, x). }
    split; [done|]. split; [rewrite not_elem_of_cons; done|].
    destruct Hor' as [?|(n' & e' & Hi & He)]; [by left|]. right. exists n', e'.
    rewrite lookup_insert_ne by done. split; [done|]. apply elem_of_app. by left.
  - apply result_snoc; [done|]. by intros ? ? [= -> ->].
Qed.
End core.
