(* ===== verification/MemoryQueueSystem.v ===== *)
(** * MemoryQueueSystem: what every run of the in-memory queue guarantees

    The invariant of the goroutines, by induction on the steps, and the theorems: the
    capacity is respected, accepted requests are delivered once and in order, producers
    get the result of their own request, references are balanced, a cancelled Wait
    never blocks in its receive; and a deadlock that two cancelled producers allow. *)

From S2P Require Import Prelude.
From S2P Require Import GoErrors.
From S2P Require Import Request.
From S2P Require Import MemoryQueue.
From S2P Require Import MemoryQueueProofs.

Section system.
Context {Ctx T : Type} `{Request T}.
Context (WithoutCancel : Ctx -> Ctx).
Context (cfg : Config) (cap_range : cap cfg < 2 ^ 62).
Abbreviation sys := (system Ctx T).
Abbreviation step := (step WithoutCancel cfg).
Abbreviation run := (run WithoutCancel cfg).
Abbreviation sz := (fun el : T => Sizeof (sizer cfg) el).

Definition sending_of (lk : lock_state T) : list (nat * T) :=
  match lk with Sending el done _ => [(done, el)] | _ => [] end.
Definition receiving_of (lk : lock_state T) : list T :=
  match lk with Receiving el => [el] | _ => [] end.

(** Producers that counted themselves in [waiting] and have not taken a signal. *)
Definition unresumed (ws : list (Ctx * T * waiter_state)) : Z :=
  sum_of (fun w => match w.2 with Signalled => 0 | _ => 1 end) ws.

Record cond_inv (c : cond) (lk : lock_state T) (ws : list (Ctx * T * waiter_state)) : Prop := {
  ci_waiting : 0 <= waiting c;
  ci_ch : 0 <= ch c <= 1;
  ci_count : waiting c + ch c + Z.of_nat (length (sending_of lk)) =
             unresumed ws + Z.of_nat (length (receiving_of lk));
  ci_receiving : receiving_of lk <> [] -> waiting c = 0;
}.

(** The balance of Ref and Unref calls, weighted by any function of the request. *)
Definition ref_balance (w : T -> Z) (rf : list (bool * T)) : Z :=
  sum_of (fun r : bool * T => if r.1 then w r.2 else - w r.2) rf.

Definition referenced (s : sys) (l : list (Ctx * T * nat)) : list T :=
  (entry_el <$> l) ++ ((fun wt => wt.1.2) <$> waiters s) ++ receiving_of (lock s) ++ consuming s.

Record sys_inv (s : sys) (l : list (Ctx * T * nat)) (evs : list (event T)) : Prop := {
  si_core : core cfg (q s) (sending_of (lock s)) (awaiting s) (inflight s) l evs;
  si_cond : cond_inv (hasMoreSpace (q s)) (lock s) (waiters s);
  si_sizes : forall ctx el st, (ctx, el, st) ∈ waiters s -> 0 < sz el <= cap cfg;
  si_refs : forall w, ref_balance w (references s) = sum_of w (referenced s l);
}.

Lemma unresumed_insert ws i ctx el st st' :
  ws !! i = Some (ctx, el, st) ->
  unresumed (<[i := (ctx, el, st')]> ws) =
    unresumed ws - (if decide (st = Signalled) then 0 else 1) + (if decide (st' = Signalled) then 0 else 1).
Proof. intros Hi. unfold unresumed. rewrite (sum_of_insert _ _ _ _ _ Hi). by destruct st, st'. Qed.

Lemma unresumed_delete ws i ctx el st :
  ws !! i = Some (ctx, el, st) ->
  unresumed (delete i ws) = unresumed ws - (if decide (st = Signalled) then 0 else 1).
Proof. intros Hi. unfold unresumed. rewrite (sum_of_delete _ _ _ _ Hi). by destruct st. Qed.

Lemma unresumed_wait ws ctx el : unresumed (ws ++ [(ctx, el, InSelect)]) = unresumed ws + 1.
Proof. apply sum_of_app. Qed.

Lemma sizes_insert (ws : list (Ctx * T * waiter_state)) i ctx el st st' :
  ws !! i = Some (ctx, el, st) ->
  (forall c e s0, (c, e, s0) ∈ ws -> 0 < sz e <= cap cfg) ->
  forall c e s0, (c, e, s0) ∈ <[i := (ctx, el, st')]> ws -> 0 < sz e <= cap cfg.
Proof.
  intros Hi Hall c e s0 Hin. apply list_elem_of_lookup in Hin as [j Hj].
  apply list_lookup_insert_Some in Hj as [(-> & [= -> -> ->] & _)|[_ Hj]].
  - eapply Hall, list_elem_of_lookup_2, Hi.
  - eapply Hall, list_elem_of_lookup_2, Hj.
Qed.

Lemma sizes_delete (ws : list (Ctx * T * waiter_state)) i :
  (forall c e s0, (c, e, s0) ∈ ws -> 0 < sz e <= cap cfg) ->
  forall c e s0, (c, e, s0) ∈ delete i ws -> 0 < sz e <= cap cfg.
Proof.
  intros Hall c e s0 Hin. eapply Hall, list_elem_of_delete_inv, Hin.
Qed.

Lemma els_insert (ws : list (Ctx * T * waiter_state)) i ctx el st st' w :
  ws !! i = Some (ctx, el, st) ->
  sum_of w ((fun wt => wt.1.2) <$> <[i := (ctx, el, st')]> ws) = sum_of w ((fun wt => wt.1.2) <$> ws).
Proof. intros Hi. rewrite !sum_of_fmap, (sum_of_insert _ _ _ _ _ Hi). simpl. lia. Qed.

Lemma els_delete (ws : list (Ctx * T * waiter_state)) i ctx el st w :
  ws !! i = Some (ctx, el, st) ->
  sum_of w ((fun wt => wt.1.2) <$> delete i ws) = sum_of w ((fun wt => wt.1.2) <$> ws) - w el.
Proof. intros Hi. by rewrite !sum_of_fmap, (sum_of_delete _ _ _ _ Hi). Qed.

Lemma ref_snoc w rf b el :
  ref_balance w (rf ++ [(b, el)]) = ref_balance w rf + (if (b : bool) then w el else - w el).
Proof. unfold ref_balance. rewrite ?sum_of_app. simpl. destruct b; lia. Qed.

Lemma cond_inv_signal c c' ws :
  cond_inv c Free ws -> Signal c = (c', false) -> c' = c.
Proof. intros _. unfold Signal. case_decide; congruence. Qed.

Lemma cond_inv_signal_send c c' ws el done err :
  cond_inv c Free ws -> Signal c = (c', true) -> cond_inv c' (Sending el done err) ws.
Proof.
  intros [Hw Hch Hn _]. unfold Signal. case_decide; [done|]. intros [= <-]. simpl in Hn.
  split; simpl; try done; lia.
Qed.

Lemma cond_inv_sent c c' ws el done err :
  cond_inv c (Sending el done err) ws -> sendCh c = Some c' -> cond_inv c' Free ws.
Proof.
  intros [Hw Hch Hn _]. unfold sendCh. case_decide; [|done]. intros [= <-]. simpl in Hn.
  split; simpl; try done; lia.
Qed.

Lemma cond_inv_receive c c' lk ws i ctx el :
  cond_inv c lk ws -> ws !! i = Some (ctx, el, InSelect) -> recvCh c = Some c' ->
  cond_inv c' lk (<[i := (ctx, el, Signalled)]> ws).
Proof.
  intros [Hw Hch Hn Hr] Hi. unfold recvCh. case_decide; [|done]. intros [= <-].
  split; simpl; try done; [lia|]. rewrite (unresumed_insert _ _ _ _ _ _ Hi). simpl. lia.
Qed.

Lemma cond_inv_done c lk ws i ctx el :
  cond_inv c lk ws -> ws !! i = Some (ctx, el, InSelect) ->
  cond_inv c lk (<[i := (ctx, el, Cancelled)]> ws).
Proof.
  intros [Hw Hch Hn Hr] Hi. split; try done.
  rewrite (unresumed_insert _ _ _ _ _ _ Hi). simpl. lia.
Qed.

Lemma cond_inv_cancel c c' ws i ctx el b :
  cond_inv c Free ws -> ws !! i = Some (ctx, el, Cancelled) -> WaitCancelled c = (c', b) ->
  cond_inv c' (if b then Receiving el else Free) (delete i ws).
Proof.
  intros [Hw Hch Hn Hr] Hi. unfold WaitCancelled.
  case_decide; intros [= <- <-]; split; simpl in *; try done; try lia;
    rewrite (unresumed_delete _ _ _ _ _ Hi); simpl; lia.
Qed.

Lemma cond_inv_received c c' ws el :
  cond_inv c (Receiving el) ws -> recvCh c = Some c' -> cond_inv c' Free ws.
Proof.
  intros [Hw Hch Hn Hr]. unfold recvCh. case_decide; [|done]. intros [= <-].
  split; simpl in *; try done; lia.
Qed.

(** ** Offer *)

Lemma after_add_inv mq wsW wsR aw fl co rf l evs ctx el mq' r s' ev :
  core cfg mq [] aw fl l evs -> 0 < sz el <= cap cfg ->
  add WithoutCancel cfg ctx el mq = (mq', r) ->
  after_add cfg el r (mkSystem mq' Free (match r with AddWait => wsW | _ => wsR end) aw fl co rf)
    = (s', ev) ->
  cond_inv (WaitEnter (hasMoreSpace mq)) Free wsW -> cond_inv (hasMoreSpace mq) Free wsR ->
  (forall c e st, (c, e, st) ∈ wsW -> 0 < sz e <= cap cfg) ->
  (forall c e st, (c, e, st) ∈ wsR -> 0 < sz e <= cap cfg) ->
  (forall w, sum_of w ((fun wt => wt.1.2) <$> wsW) = sum_of w ((fun wt => wt.1.2) <$> wsR) + w el) ->
  (forall w, ref_balance w rf =
     sum_of w (entry_el <$> l) + sum_of w ((fun wt => wt.1.2) <$> wsR) + w el + sum_of w co) ->
  exists l', sys_inv s' l' (evs ++ [ev]).
Proof.
  intros Hcore Hsz Ea Es HcW HcR HsW HsR Hels Hrf.
  pose proof (add_spec _ _ cap_range _ _ _ _ _ _ _ _ _ _ Hcore Hsz Ea) as Hadd.
  destruct r as [err| |id]; simpl in Es; simplify_eq.
  - exists l. split; simpl; try done.
    + by apply core_event.
    + intros w. rewrite ref_snoc, Hrf. unfold referenced; simpl. rewrite !sum_of_app. simpl. lia.
  - exists l. split; simpl; try done.
    + apply core_event; [done|]. by apply core_cond.
    + intros w. rewrite Hrf. unfold referenced; simpl. rewrite !sum_of_app, Hels. lia.
  - destruct Hadd as (Hc & ctx' & Hcore'). exists (l ++ [(ctx', el, id)]). split; simpl; try done.
    + by rewrite Hc.
    + intros w. rewrite Hrf. unfold referenced; simpl. rewrite fmap_app, !sum_of_app. simpl.
      unfold entry_el at 3; simpl. lia.
Qed.

Lemma OfferCheck_sizes el : OfferCheck cfg el = None -> 0 < sz el <= cap cfg.
Proof. unfold OfferCheck. repeat case_decide; try done. lia. Qed.

Lemma sizes_app (ws : list (Ctx * T * waiter_state)) ctx el st :
  0 < sz el <= cap cfg ->
  (forall c e s0, (c, e, s0) ∈ ws -> 0 < sz e <= cap cfg) ->
  forall c e s0, (c, e, s0) ∈ ws ++ [(ctx, el, st)] -> 0 < sz e <= cap cfg.
Proof.
  intros Hsz Hall c e s0 [Hin|Hin]%elem_of_app; [eauto|].
  by apply list_elem_of_singleton in Hin as [= -> -> ->].
Qed.

Lemma step_inv s ev s' l evs :
  step s ev s' -> sys_inv s l evs -> exists l', sys_inv s' l' (evs ++ [ev]).
Proof.
  intros Hstep [Hcore Hcond Hsz Hrf]. destruct Hstep; simpl in *.
  - exists l. split; simpl; try done. by apply core_event.
  - eapply after_add_inv; try done.
    + by apply OfferCheck_sizes.
    + destruct Hcond. split; simpl in *; try done; rewrite ?unresumed_wait; simpl; lia.
    + apply sizes_app; [by apply OfferCheck_sizes|done].
    + intros w. rewrite fmap_app, sum_of_app. simpl. lia.
    + intros w. rewrite ref_snoc, Hrf. unfold referenced; simpl. rewrite !sum_of_app. lia.
  - exists l. split; simpl.
    + apply core_event; [done|]. by apply core_cond.
    + by eapply cond_inv_receive.
    + by eapply sizes_insert.
    + intros w. rewrite Hrf. unfold referenced; simpl. rewrite !sum_of_app. by erewrite els_insert.
  - exists l. split; simpl.
    + by apply core_event.
    + by apply cond_inv_done.
    + by eapply sizes_insert.
    + intros w. rewrite Hrf. unfold referenced; simpl. rewrite !sum_of_app. by erewrite els_insert.
  - eapply after_add_inv; try done.
    + eapply Hsz, list_elem_of_lookup_2. done.
    + destruct Hcond. split; simpl in *; try done; try lia.
      erewrite unresumed_insert by done. simpl. lia.
    + destruct Hcond. split; simpl in *; try done. erewrite unresumed_delete by done. simpl. lia.
    + by eapply sizes_insert.
    + by apply sizes_delete.
    + intros w. erewrite els_insert, els_delete by done. lia.
    + intros w. rewrite Hrf. unfold referenced; simpl. rewrite !sum_of_app.
      erewrite els_delete by done. lia.
  - exists l. split; simpl.
    + apply core_event; [done|]. by apply core_cond.
    + by eapply (cond_inv_cancel _ _ _ _ _ _ false).
    + by apply sizes_delete.
    + intros w. rewrite ref_snoc, Hrf. unfold referenced; simpl. rewrite !sum_of_app.
      erewrite els_delete by done. lia.
  - exists l. split; simpl.
    + apply core_event; [done|]. by apply core_cond.
    + by eapply (cond_inv_cancel _ _ _ _ _ _ true).
    + by apply sizes_delete.
    + intros w. rewrite Hrf. unfold referenced; simpl. rewrite !sum_of_app. simpl.
      erewrite els_delete by done. rewrite ?sum_of_app. simpl. lia.
  - exists l. split; simpl.
    + apply core_event; [done|]. by apply core_cond.
    + by eapply cond_inv_received.
    + done.
    + intros w. rewrite ref_snoc, Hrf. unfold referenced; simpl. rewrite !sum_of_app. simpl. lia.
  - match goal with Hr : Read _ = _ |- _ =>
      destruct (read_spec _ _ _ _ _ _ _ _ _ _ _ Hcore Hr) as (Hc & l' & -> & Hcore') end.
    exists l'. split; simpl; try done; [by rewrite Hc|].
    intros w. rewrite Hrf. unfold referenced; cbn [waiters lock consuming]. rewrite fmap_cons, !sum_of_app. cbn [sum_of].
    change (entry_el (ctx, el, done)) with el. lia.
  - exists l. split; simpl; try done; [by apply core_event|].
    intros w. rewrite ref_snoc, Hrf. unfold referenced; simpl. rewrite !sum_of_app. simpl.
    rewrite ?sum_of_app. lia.
  - match goal with Hs : onDoneSignal _ _ = _ |- _ =>
      destruct (onDoneSignal_spec _ cap_range _ _ _ _ _ _ _ _ _ _ _ Hcore ltac:(done) Hs) as [Hcore' Hsig] end.
    exists l. split; simpl; try done; [by apply core_event|by eapply cond_inv_signal_send].
  - match goal with Hs : onDoneSignal _ _ = _, Hr : onDoneResult _ _ _ _ = _ |- _ =>
      destruct (onDoneSignal_spec _ cap_range _ _ _ _ _ _ _ _ _ _ _ Hcore ltac:(done) Hs) as [Hcore' Hsig];
      destruct (onDoneResult_spec _ _ _ _ _ _ _ _ _ _ Hcore' Hr) as [Hc Hcore''] end.
    exists l. split; simpl; try done. rewrite Hc.
    by rewrite (cond_inv_signal _ _ _ Hcond Hsig).
  - match goal with Hr : onDoneResult _ _ _ _ = _ |- _ =>
      destruct (onDoneResult_spec _ _ _ _ _ _ _ _ _ _ (core_cond _ _ c _ _ _ _ _ Hcore) Hr) as [Hc Hcore'] end.
    exists l. split; simpl; try done. rewrite Hc. simpl. by eapply cond_inv_sent.
  - match goal with Hr : takeResult _ _ = _ |- _ =>
      destruct (takeResult_spec _ _ _ _ _ _ _ _ _ _ _ _ Hcore Hr) as [Hc Hcore'] end.
    exists l. split; simpl; try done. by rewrite Hc.
  - exists l. split; simpl; try done. apply core_event; [done|]. by eapply drop_await.
  - exists l. split; simpl; try done. apply core_event; [done|]. by apply core_shutdown.
Qed.

Lemma initial_inv : sys_inv initial [] [].
Proof.
  split; simpl.
  - split; simpl; first [apply empty_holds|done|lia|intros ?? Hin; by apply elem_of_nil in Hin
                        |intros ? Hin; by apply elem_of_nil in Hin|constructor].
  - split; simpl; done || lia.
  - intros ??? Hin. by apply elem_of_nil in Hin.
  - done.
Qed.

Lemma run_inv evs s : run evs initial s -> exists l, sys_inv s l evs.
Proof.
  intros Hrun. remember initial as s0. induction Hrun as [|evs ev s0 s1 s2 _ IH Hs]; subst.
  - exists []. apply initial_inv.
  - destruct (IH eq_refl) as [l Hl]. by eapply step_inv.
Qed.

(** In every run of the queue, however producers, consumers and cancellations are
    interleaved, the size is between zero and the capacity, and is the total size of
    the requests that are queued or whose done callback was not called. *)
Theorem memory_queue_bounded evs s :
  run evs initial s -> 0 <= cap cfg ->
  0 <= Size (q s) <= cap cfg /\
  exists l, holds (items (q s)) l /\
    Size (q s) = sum_of (fun e => sz (entry_el e)) l + sum_of (fun p => sz p.2) (inflight s).
Proof.
  intros Hrun Hc. destruct (run_inv _ _ Hrun) as (l & [[] _ _ _]). unfold Size. split; [lia|].
  by exists l.
Qed.

(** C27: in every run the requests the queue accepted are, in order, those the consumers
    read followed by those still in the linked list: each is delivered once, first in
    first out, and none is lost. *)
Theorem memory_queue_fifo evs s :
  run evs initial s ->
  exists l, holds (items (q s)) l /\ accepts evs = reads evs ++ (entry_el <$> l).
Proof. intros Hrun. destruct (run_inv _ _ Hrun) as (l & [[] _ _ _]). by exists l. Qed.

(** With waitForResult, and although the blockingDone instances are pooled and
    reused, the error an Offer returns is one its own request was completed with
    before: no producer gets the result of another request. *)
Theorem memory_queue_own_result evs s k el err :
  run evs initial s -> evs !! k = Some (EvResult el err) ->
  exists j, (j < k)%nat /\ evs !! j = Some (EvDone el err).
Proof. intros Hrun. destruct (run_inv _ _ Hrun) as (l & [[] _ _ _]). apply c_result. Qed.

(** Ref and Unref are balanced: in every run, for any weight of the requests, the
    references taken and not released are one for each request that is queued, held by
    a waiting producer, or in a consumer's consumeFunc. *)
Theorem memory_queue_references evs s (w : T -> Z) :
  run evs initial s ->
  exists l, holds (items (q s)) l /\
    ref_balance w (references s) = sum_of w (referenced s l).
Proof.
  intros Hrun. destruct (run_inv _ _ Hrun) as (l & [[] _ _ Hrf]). by exists l.
Qed.

(** A producer whose context is done never blocks on the channel while it holds
    the mutex: whenever it has to receive, the signal is in the buffer.  And no wake-up
    is lost: the producers that wait are counted in [waiting] or a signal is under way
    for them. *)
Theorem cancelled_wait_never_blocks evs s :
  run evs initial s ->
  (forall el, lock s = Receiving el -> is_Some (recvCh (hasMoreSpace (q s)))) /\
  unresumed (waiters s) <=
    waiting (hasMoreSpace (q s)) + ch (hasMoreSpace (q s)) + Z.of_nat (length (sending_of (lock s))).
Proof.
  intros Hrun. destruct (run_inv _ _ Hrun) as (l & [_ [Hw Hch Hn Hr] _ _]). split; [|lia].
  intros el Hlk. rewrite Hlk in *. simpl in *. specialize (Hr ltac:(done)).
  assert (0 <= unresumed (waiters s)).
  { apply sum_of_nonneg. intros [? []]; simpl; lia. }
  unfold recvCh. rewrite decide_True by lia. by eexists.
Qed.

(** The done callback never blocks on the result channel. *)
Theorem done_result_never_blocks evs s el done err :
  run evs initial s -> lock s = Sending el done err ->
  forall e, is_Some (onDoneResult cfg done e (q s)).
Proof.
  intros Hrun Hlk e. destruct (run_inv _ _ Hrun) as (l & [Hcore _ _ _]). rewrite Hlk in Hcore.
  by eapply onDoneResult_total.
Qed.
End system.

(** ** A deadlock

    Two producers wait for space and their contexts are done; before either of them
    gets the mutex, two requests complete.  The second Signal still counts a waiter and
    blocks in its send, holding the mutex, because nobody receives any more: the
    producers have left the select and need the mutex. *)

Definition onesRequest : Request Z := {| ItemsCount := fun _ => 1; BytesSize := fun r => r |}.

Definition two_slots : Config := mkConfig RequestsSizer 2 false true.

Section deadlock.
#[local] Existing Instance onesRequest.
Abbreviation dstep := (step (Ctx := unit) (T := Z) id two_slots).

Definition stuck (s : system unit Z) : Prop :=
  inflight s = [] /\ awaiting s = [] /\ consuming s = [] /\
  (exists el done err, lock s = Sending el done err) /\
  sendCh (hasMoreSpace (q s)) = None /\
  Forall (fun w => w.2 = Cancelled) (waiters s).

(** In a stuck state no Offer, Wait, Read, OnDone or Shutdown can go on. *)
Lemma stuck_forever s ev s' : stuck s -> dstep s ev s' -> s' = s.
Proof.
  intros (Hfl & Haw & Hco & (el & done & err & Hlk) & Hs & Hws) Hstep.
  destruct Hstep; simpl in *; try done; try congruence;
    try (match goal with Hl : ?l ++ _ :: _ = [] |- _ => by destruct l end);
    match goal with Hi : _ !! _ = Some _ |- _ =>
      by apply (Forall_lookup_1 _ _ _ _ Hws) in Hi end.
Qed.

Lemma run_cons evs ev (s s1 s2 : system unit Z) :
  dstep s ev s1 -> run id two_slots evs s1 s2 -> run id two_slots (ev :: evs) s s2.
Proof.
  intros Hs. induction 1 as [s1|evs ev' s1 s2 s3 _ IH Hs'].
  - exact (run_snoc id two_slots [] ev s s s1 (run_nil id two_slots s) Hs).
  - exact (run_snoc id two_slots (ev :: evs) ev' s s2 s3 (IH Hs) Hs').
Qed.

Ltac offer r := eapply run_cons; [eapply (step_offer id two_slots _ _ _ _ _ _ tt r); [vm_compute; reflexivity|vm_compute; reflexivity|reflexivity]|].

(** The deadlock is reachable: a run of the queue ends in a state in which a
    consumer holds the mutex and blocks in the send of Signal, two producers whose
    context is done wait for the mutex, and no step of any goroutine changes
    anything any more. *)
Theorem cancelled_waiters_deadlock :
  exists evs s, run id two_slots evs initial s /\ length (waiters s) = 2%nat /\
    (exists el done err, lock s = Sending el done err) /\
    forall ev s', dstep s ev s' -> s' = s.
Proof.
  assert (exists evs s, run id two_slots evs initial s /\ length (waiters s) = 2%nat /\ stuck s)
    as (evs & s & Hrun & Hw & Hst).
  { eexists _, _. split; [|split].
    - offer 1. offer 2. offer 3. offer 4.
      do 2 (eapply run_cons; [eapply step_read; vm_compute; reflexivity|]).
      do 2 (eapply run_cons; [eapply (step_unref id two_slots _ _ _ _ _ [])|]).
      eapply run_cons; [eapply (step_wait_done id two_slots _ _ _ _ _ _ _ 0); vm_compute; reflexivity|].
      eapply run_cons; [eapply (step_wait_done id two_slots _ _ _ _ _ _ _ 1); vm_compute; reflexivity|].
      eapply run_cons; [eapply (step_done id two_slots _ _ _ [] _ _ _ _ _ None); [vm_compute; reflexivity|vm_compute; reflexivity]|].
      eapply run_cons; [eapply (step_sent id two_slots); [vm_compute; reflexivity|vm_compute; reflexivity]|].
      eapply run_cons; [eapply (step_done id two_slots _ _ _ [] _ _ _ _ _ None); [vm_compute; reflexivity|vm_compute; reflexivity]|].
      apply run_nil.
    - reflexivity.
    - repeat split; try reflexivity; [by eexists _, _, _|]. repeat constructor. }
  exists evs, s. split; [done|]. split; [done|]. split; [apply Hst|].
  intros ev s'. by apply stuck_forever.
Qed.
End deadlock.

(** * Concrete runs of the memory queue *)

#[local] Existing Instance onesRequest.

Definition waiting_cfg : Config := mkConfig RequestsSizer 2 true true.
Abbreviation wrun := (run (Ctx := unit) (T := Z) id waiting_cfg).

Lemma wrun_cons evs ev (s s1 s2 : system unit Z) :
  step id waiting_cfg s ev s1 -> wrun evs s1 s2 -> wrun (ev :: evs) s s2.
Proof.
  intros Hs. induction 1 as [s1|evs ev' s1 s2 s3 _ IH Hs'].
  - exact (run_snoc id waiting_cfg [] ev s s s1 (run_nil id waiting_cfg s) Hs).
  - exact (run_snoc id waiting_cfg (ev :: evs) ev' s s2 s3 (IH Hs) Hs').
Qed.

Ltac compute_goals := vm_compute; reflexivity.
Ltac w_offer r := eapply wrun_cons;
  [eapply (step_offer id waiting_cfg _ _ _ _ _ _ tt r); [compute_goals|compute_goals|reflexivity]|].
Ltac w_read := eapply wrun_cons; [eapply step_read; compute_goals|].

(** Three producers, the third waits for space; one request is read and completed, its
    producer gets the result and the third producer is woken. *)
Definition first_events : list (event Z) :=
  [EvAccept 1; EvAccept 2; EvNone; EvRead 1; EvNone; EvDone 1 None; EvResult 1 None; EvNone; EvAccept 3].

Lemma first_run : exists s, wrun first_events initial s.
Proof.
  eexists. unfold first_events.
  w_offer 1. w_offer 2. w_offer 3. w_read.
  eapply wrun_cons; [eapply (step_done id waiting_cfg _ _ _ [] _ _ _ _ _ None); [compute_goals|compute_goals]|].
  eapply wrun_cons; [eapply (step_sent id waiting_cfg); [compute_goals|compute_goals]|].
  eapply wrun_cons; [eapply (step_result id waiting_cfg _ _ _ []); compute_goals|].
  eapply wrun_cons; [eapply (step_wait_receive id waiting_cfg _ _ _ _ _ _ _ 0); [compute_goals|compute_goals]|].
  eapply wrun_cons; [eapply (step_resume id waiting_cfg _ _ _ _ _ _ 0); [compute_goals|compute_goals|reflexivity]|].
  apply run_nil.
Qed.

Lemma waiting_cap : cap waiting_cfg < 2 ^ 62.
Proof. reflexivity. Qed.

Lemma memory_queue_bounded_witness :
  exists s, wrun first_events initial s /\ 0 <= Size (q s) <= cap waiting_cfg /\
    exists l, holds (items (q s)) l /\
      Size (q s) = sum_of (fun e => Sizeof (sizer waiting_cfg) (entry_el e)) l +
                   sum_of (fun p => Sizeof (sizer waiting_cfg) p.2) (inflight s).
Proof.
  destruct first_run as [s Hs]. exists s. split; [exact Hs|].
  apply (memory_queue_bounded id waiting_cfg waiting_cap first_events s Hs).
  vm_compute. discriminate.
Defined.

Lemma memory_queue_fifo_witness :
  exists s, wrun first_events initial s /\
    exists l, holds (items (q s)) l /\ accepts first_events = reads first_events ++ (entry_el <$> l).
Proof.
  destruct first_run as [s Hs]. exists s. split; [exact Hs|].
  apply (memory_queue_fifo id waiting_cfg waiting_cap first_events s Hs).
Defined.

Lemma memory_queue_own_result_witness :
  first_events !! 6%nat = Some (EvResult 1 None) /\
  exists j, (j < 6)%nat /\ first_events !! j = Some (EvDone 1 None).
Proof.
  split; [reflexivity|]. destruct first_run as [s Hs].
  apply (memory_queue_own_result id waiting_cfg waiting_cap first_events s 6 1 None Hs). reflexivity.
Defined.

Lemma memory_queue_references_witness :
  exists s, wrun first_events initial s /\
    exists l, holds (items (q s)) l /\
      ref_balance (fun r => r) (references s) = sum_of (fun r => r) (referenced s l).
Proof.
  destruct first_run as [s Hs]. exists s. split; [exact Hs|].
  apply (memory_queue_references id waiting_cfg waiting_cap first_events s (fun r => r) Hs).
Defined.

(** A third producer waits, its context is done and it is about to receive the signal
    that was sent meanwhile; and a done callback is about to signal. *)
Definition second_events : list (event Z) :=
  [EvAccept 1; EvAccept 2; EvNone; EvRead 1; EvNone; EvNone; EvDone 1 None; EvNone].

Lemma second_run : exists s, wrun second_events initial s /\ lock s = Receiving 3.
Proof.
  eexists. unfold second_events. split.
  - w_offer 1. w_offer 2. w_offer 3. w_read.
    eapply wrun_cons; [eapply (step_wait_done id waiting_cfg _ _ _ _ _ _ _ 0); compute_goals|].
    eapply wrun_cons; [eapply (step_done id waiting_cfg _ _ _ [] _ _ _ _ _ None); [compute_goals|compute_goals]|].
    eapply wrun_cons; [eapply (step_sent id waiting_cfg); [compute_goals|compute_goals]|].
    eapply wrun_cons; [eapply (step_cancel_receive id waiting_cfg _ _ _ _ _ _ 0); [compute_goals|compute_goals]|].
    apply run_nil.
  - reflexivity.
Qed.

Lemma cancelled_wait_never_blocks_witness :
  exists s, wrun second_events initial s /\ lock s = Receiving 3 /\
    (forall el, lock s = Receiving el -> is_Some (recvCh (hasMoreSpace (q s)))) /\
    unresumed (waiters s) <=
      waiting (hasMoreSpace (q s)) + ch (hasMoreSpace (q s)) + Z.of_nat (length (sending_of (lock s))).
Proof.
  destruct second_run as (s & Hs & Hlk). exists s. split; [exact Hs|]. split; [exact Hlk|].
  apply (cancelled_wait_never_blocks id waiting_cfg waiting_cap second_events s Hs).
Defined.

Definition third_events : list (event Z) :=
  [EvAccept 1; EvAccept 2; EvNone; EvRead 1; EvNone].

Lemma third_run : exists s done, wrun third_events initial s /\ lock s = Sending 1 done None.
Proof.
  eexists _, _. unfold third_events. split.
  - w_offer 1. w_offer 2. w_offer 3. w_read.
    eapply wrun_cons; [eapply (step_done id waiting_cfg _ _ _ [] _ _ _ _ _ None); [compute_goals|compute_goals]|].
    apply run_nil.
  - reflexivity.
Qed.

Lemma done_result_never_blocks_witness :
  exists s done, wrun third_events initial s /\ lock s = Sending 1 done None /\
    forall e, is_Some (onDoneResult waiting_cfg done e (q s)).
Proof.
  destruct third_run as (s & done & Hs & Hlk). exists s, done. split; [exact Hs|]. split; [exact Hlk|].
  exact (done_result_never_blocks id waiting_cfg waiting_cap third_events s 1 done None Hs Hlk).
Defined.
