(* ===== verification/QueueConfig.v ===== *)
(** * QueueConfig: exporterhelper/internal/queuebatch/config.go and the choices of
    queue_batch.go, batcher.go and queue_sender.go that depend on it *)

From stdpp Require Import pretty.
From S2P Require Import Prelude.
From S2P Require Import GoErrors.
From S2P Require Import Request.

(** [MetadataKeys] is the one field of Partition. *)
Record BatchConfig := mkBatchConfig {
  FlushTimeout : Z;
  Sizer : SizerType;
  MinSize : Z;
  MaxSize : Z;
  MetadataKeys : list string;
}.

(** configoptional.Optional: the default of a value that is not enabled has no value. *)
Inductive Optional (A : Type) := None' | Default (a : A) | Some' (a : A).
Arguments None' {A}.
Arguments Default {A} _.
Arguments Some' {A} _.

Definition HasValue {A} (o : Optional A) : bool := match o with Some' _ => true | _ => false end.
Definition Get {A} (o : Optional A) : option A := match o with Some' a => Some a | _ => None end.

Record Config := mkConfig {
  WaitForResult : bool;
  QueueSizer : SizerType;
  QueueSize : Z;
  BlockOnOverflow : bool;
  StorageID : option string;
  NumConsumers : Z;
  BatchCfg : Optional BatchConfig;
}.

(** What Unmarshal asks the configuration map after it filled [cfg]. *)
Record ConfKeys := mkConfKeys { isSet : string -> bool; batchIsNil : bool }.

Definition Unmarshal (conf : ConfKeys) (cfg : Config) : Config :=
  if isSet conf "sizer" && negb (isSet conf "batch::sizer") && isSet conf "batch" &&
     negb (batchIsNil conf) && HasValue (BatchCfg cfg)
  then
    match BatchCfg cfg with
    | Some' b =>
        mkConfig (WaitForResult cfg) (QueueSizer cfg) (QueueSize cfg) (BlockOnOverflow cfg)
          (StorageID cfg) (NumConsumers cfg)
          (Some' (mkBatchConfig (FlushTimeout b) (QueueSizer cfg) (MinSize b) (MaxSize b) (MetadataKeys b)))
    | _ => cfg
    end
  else cfg.

Definition Config_Validate (cfg : Config) : option error :=
  if decide (NumConsumers cfg <= 0) then Some (ErrNew "`num_consumers` must be positive")
  else if decide (QueueSize cfg <= 0) then Some (ErrNew "`queue_size` must be positive")
  else if bool_decide (StorageID cfg <> None) && WaitForResult cfg then
    Some (ErrNew "`wait_for_result` is not supported with a persistent queue configured with `storage`")
  else
    match Get (BatchCfg cfg) with
    | Some b =>
        if decide (Sizer b = QueueSizer cfg) then
          if decide (MinSize b > QueueSize cfg) then
            Some (ErrNew "`min_size` must be less than or equal to `queue_size`")
          else None
        else None
    | None => None
    end.

Definition BatchConfig_Validate (cfg : BatchConfig) : option error :=
  if bool_decide (Sizer cfg <> SizerTypeItems) && bool_decide (Sizer cfg <> SizerTypeBytes) then
    Some (ErrNew ("`batch` supports only `items` or `bytes` sizer, found " +:+ val (Sizer cfg)))
  else if decide (FlushTimeout cfg <= 0) then
    Some (ErrNew ("`flush_timeout` must be positive, found " +:+ pretty (FlushTimeout cfg)))
  else if decide (MinSize cfg < 0) then
    Some (ErrNew ("`min_size` must be non-negative, found " +:+ pretty (MinSize cfg)))
  else if decide (MaxSize cfg < 0) then
    Some (ErrNew ("`max_size` must be non-negative, found " +:+ pretty (MaxSize cfg)))
  else if decide (MaxSize cfg > 0 /\ MaxSize cfg < MinSize cfg) then
    Some (ErrNew ("`max_size` (" +:+ pretty (MaxSize cfg) +:+
      ") must be greater or equal to `min_size` (" +:+ pretty (MinSize cfg) +:+ ")"))
  else None.

(** [ToLower] is strings.ToLower. *)
Fixpoint uniqueKeys (ToLower : string -> string) (uniq : gset string) (keys : list string) : option error :=
  match keys with
  | [] => None
  | k :: keys =>
      let l := ToLower k in
      if decide (l ∈ uniq) then
        Some (ErrNew ("duplicate entry in metadata_keys: " +:+ l +:+ " (case-insensitive)"))
      else uniqueKeys ToLower ({[ l ]} ∪ uniq) keys
  end.

Definition PartitionConfig_Validate (ToLower : string -> string) (keys : list string) : option error :=
  uniqueKeys ToLower ∅ keys.

(** The validation of a configuration calls Validate of its parts too. *)
Definition validated (ToLower : string -> string) (cfg : Config) : Prop :=
  Config_Validate cfg = None /\
  forall b, Get (BatchCfg cfg) = Some b ->
    BatchConfig_Validate b = None /\ PartitionConfig_Validate ToLower (MetadataKeys b) = None.

Definition NewDefaultQueueConfig : Config :=
  mkConfig false SizerTypeRequests 1000 false None 10
    (Default (mkBatchConfig 200000000 SizerTypeItems 8192 0 [])).

(** ** NewQueueBatch: which batcher, and how many consumers read the queue *)

Inductive BatcherKind :=
  | disabledBatcher
  | newPartitionBatcher (cfg : BatchConfig) (maxWorkers : Z)
  | newMultiBatcher (cfg : BatchConfig) (maxWorkers : Z).

Definition NewBatcher (cfg : Optional BatchConfig) (partitioner : bool) (maxWorkers : Z) : BatcherKind :=
  match Get cfg with
  | None => disabledBatcher
  | Some b => if partitioner then newMultiBatcher b maxWorkers else newPartitionBatcher b maxWorkers
  end.

Definition NewQueueBatch (cfg : Config) (partitioner : bool) : BatcherKind * Z :=
  (NewBatcher (BatchCfg cfg) partitioner (NumConsumers cfg),
   if HasValue (BatchCfg cfg) && negb partitioner then 1 else NumConsumers cfg).

(** ** What validation promises to the components *)

Lemma uniqueKeys_NoDup ToLower uniq keys :
  uniqueKeys ToLower uniq keys = None ->
  NoDup (ToLower <$> keys) /\ forall k, k ∈ keys -> ToLower k ∉ uniq.
Proof.
  revert uniq. induction keys as [|k keys IH]; intros uniq; simpl.
  { split; [constructor|]. set_solver. }
  case_decide as Hk; [done|]. intros [Hnd Hf]%IH. split.
  - constructor; [|done]. rewrite list_elem_of_fmap. intros (k' & E & Hin). specialize (Hf k' Hin). set_solver.
  - intros k'. rewrite elem_of_cons. intros [->|Hin]; [done|]. specialize (Hf k' Hin). set_solver.
Qed.

(** What the batcher and the queues rely on holds of every validated configuration:
    there is a worker and a consumer, the capacity is positive, the batcher measures
    items or bytes and has a timer, its limits are ordered and fit the queue when they
    are measured alike, and its metadata keys differ in more than case. *)
Theorem validated_config ToLower cfg partitioner :
  validated ToLower cfg ->
  0 < snd (NewQueueBatch cfg partitioner) <= NumConsumers cfg /\ 0 < QueueSize cfg /\
  (WaitForResult cfg = true -> StorageID cfg = None) /\
  match fst (NewQueueBatch cfg partitioner) with
  | disabledBatcher => Get (BatchCfg cfg) = None
  | newPartitionBatcher b w | newMultiBatcher b w =>
      0 < w /\ NewSizer (Sizer b) <> RequestsSizer /\ 0 < FlushTimeout b /\ 0 <= MinSize b /\
      (MaxSize b = 0 \/ MinSize b <= MaxSize b) /\
      (Sizer b = QueueSizer cfg -> MinSize b <= QueueSize cfg) /\ NoDup (ToLower <$> MetadataKeys b)
  end.
Proof.
  intros [Hv Hb]. unfold Config_Validate in Hv.
  case_decide; [done|]. case_decide; [done|]. 
  destruct (bool_decide (StorageID cfg <> None) && WaitForResult cfg) eqn:Hst; [done|].
  split; [unfold NewQueueBatch; simpl; destruct (HasValue _ && negb _); lia|]. split; [lia|].
  split; [intros Hw; rewrite Hw, andb_true_r in Hst; by apply bool_decide_eq_false, dec_stable in Hst|].
  unfold NewQueueBatch, NewBatcher. simpl. destruct (Get (BatchCfg cfg)) as [b|] eqn:Eb; [|done].
  destruct (Hb b eq_refl) as [Hbv [Hnd _]%uniqueKeys_NoDup]. unfold BatchConfig_Validate in Hbv.
  destruct (_ && _) eqn:Hsz in Hbv; [done|]. passes.
  assert (NewSizer (Sizer b) <> RequestsSizer) as Hns.
  { unfold NewSizer. destruct (decide (Sizer b = SizerTypeBytes)); [done|]. destruct (decide (Sizer b = SizerTypeItems)); [done|].
    rewrite !bool_decide_eq_true_2 in Hsz by done. done. }
  assert (Sizer b = QueueSizer cfg -> MinSize b <= QueueSize cfg) as Hfit
    by (intros He; rewrite decide_True in Hv by done; case_decide; [done|lia]).
  destruct partitioner; split_and!; try done; lia.
Qed.
