(* ===== verification/PartitionBatcher.v ===== *)
(** * PartitionBatcher: exporterhelper/internal/queuebatch/partition_batcher.go

    The batcher that merges requests up to a minimum size, flushes on size, on a timer
    and at shutdown, and calls the done callback of every request when all the batches
    it is part of are exported.  A critical section of currentBatchMu is a function on
    the state; [step] interleaves the callers of Consume, the timer goroutine, the
    workers and the shutdown. *)

From S2P Require Import Prelude.
From S2P Require Import GoErrors.
From S2P Require Import Request.
From S2P Require Import QueueConfig.

(** What the batcher uses of a request.  MergeSplit mutates its receiver, which stays
    the request of the current batch when it returns no request: [ms_self] is the
    receiver then. *)
Record merge_result (T : Type) := mkMergeResult {
  ms_list : list T;
  ms_err : option error;
  ms_self : T;
}.
Arguments mkMergeResult {T} _ _ _.
Arguments ms_list {T} _.
Arguments ms_err {T} _.
Arguments ms_self {T} _.

Class Mergeable (T : Type) := { MergeSplit : Z -> SizerType -> option T -> T -> merge_result T }.

Definition partitionIdleCycles : Z := 10.

(** ** Done callbacks: the queue's own, by number, or a reference counter of the store *)

Inductive Done := QueueDone (id : nat) | RefCount (r : nat).

#[export] Instance Done_eq_dec : EqDecision Done.
Proof. solve_decision. Defined.

Record refCountDone := mkRefCountDone { rc_done : nat; refCount : Z; rc_err : option error }.

Abbreviation multiDone := (list Done).

Section done.
Context `{MultiErr}.

(** The store after the call, and the callbacks of the queue that it calls. *)
Definition OnDone (err : option error) (d : Done) (rcs : gmap nat refCountDone)
  : gmap nat refCountDone * list (nat * option error) :=
  match d with
  | QueueDone id => (rcs, [(id, err)])
  | RefCount r =>
      match rcs !! r with
      | None => (rcs, [])
      | Some (mkRefCountDone done count e) =>
          let e := multierr_Append e err in
          let count := count - 1 in
          (<[r := mkRefCountDone done count e]> rcs,
           if decide (count = 0) then [(done, e)] else [])
      end
  end.

Fixpoint multiOnDone (err : option error) (mdc : multiDone) (rcs : gmap nat refCountDone)
  : gmap nat refCountDone * list (nat * option error) :=
  match mdc with
  | [] => (rcs, [])
  | d :: rest =>
      let '(rcs, c1) := OnDone err d rcs in
      let '(rcs, c2) := multiOnDone err rest rcs in
      (rcs, c1 ++ c2)
  end.

Definition newRefCountDone (done : nat) (count : Z) (rcs : gmap nat refCountDone)
  : gmap nat refCountDone * Done :=
  let r := fresh (dom rcs) in
  (<[r := mkRefCountDone done count None]> rcs, RefCount r).
End done.

Record batch (Ctx T : Type) := mkBatch { b_ctx : Ctx; b_req : T; b_done : multiDone }.
Arguments mkBatch {Ctx T} _ _ _.
Arguments b_ctx {Ctx T} _.
Arguments b_req {Ctx T} _.
Arguments b_done {Ctx T} _.

(** [armed]: the timer will fire; [hasOnEmpty]: onEmpty is not nil.  [flushing] are the
    batches passed to flush that wait for a worker, [running] those a worker exports,
    [workers] the tokens left in the pool; [flushCalls] counts the goroutines about to
    call flushCurrentBatchOrRemovePartition; [called] is what the queue's callbacks were
    called with and [log] the calls of OnDone on the callbacks the batches hold, oldest
    first. *)
Record partitionBatcher (Ctx T : Type) := mkPartitionBatcher {
  currentBatch : option (batch Ctx T);
  armed : bool;
  hasOnEmpty : bool;
  lastDataTime : Z;
  active : bool;
  rcs : gmap nat refCountDone;
  flushing : list (batch Ctx T);
  running : list (batch Ctx T);
  workers : nat;
  flushCalls : nat;
  emptied : bool;
  called : list (nat * option error);
  log : list (Done * option error);
}.
Arguments mkPartitionBatcher {Ctx T} _ _ _ _ _ _ _ _ _ _ _ _ _.
Arguments currentBatch {Ctx T} _.
Arguments armed {Ctx T} _.
Arguments hasOnEmpty {Ctx T} _.
Arguments lastDataTime {Ctx T} _.
Arguments active {Ctx T} _.
Arguments rcs {Ctx T} _.
Arguments flushing {Ctx T} _.
Arguments running {Ctx T} _.
Arguments workers {Ctx T} _.
Arguments flushCalls {Ctx T} _.
Arguments emptied {Ctx T} _.
Arguments called {Ctx T} _.
Arguments log {Ctx T} _.

Section batcher.
Context {Ctx T : Type} `{Request T} `{Mergeable T} `{MultiErr}.
(** mergeCtx (or context.Background when it is nil), with the merged trace links. *)
Context (mergeCtx : Ctx -> Ctx -> Ctx).
Context (cfg : BatchConfig).
Abbreviation pb := (partitionBatcher Ctx T).
Abbreviation sizeof := (fun r : T => Sizeof (NewSizer (Sizer cfg)) r).

Definition newPartitionBatcher (maxWorkers : nat) (onEmpty : bool) (now : Z) : pb :=
  mkPartitionBatcher None false onEmpty now true ∅ [] [] maxWorkers 0 false [] [].

(** Start with a positive flush timeout creates the timer. *)
Definition Start (qb : pb) : pb :=
  mkPartitionBatcher (currentBatch qb) (bool_decide (FlushTimeout cfg > 0)) (hasOnEmpty qb)
    (lastDataTime qb) (active qb) (rcs qb) (flushing qb) (running qb) (workers qb)
    (flushCalls qb) (emptied qb) (called qb) (log qb).

Definition set_current (b : option (batch Ctx T)) (qb : pb) : pb :=
  mkPartitionBatcher b (armed qb) (hasOnEmpty qb) (lastDataTime qb) (active qb) (rcs qb)
    (flushing qb) (running qb) (workers qb) (flushCalls qb) (emptied qb) (called qb) (log qb).
Definition set_lastDataTime (now : Z) (qb : pb) : pb :=
  mkPartitionBatcher (currentBatch qb) (armed qb) (hasOnEmpty qb) now (active qb) (rcs qb)
    (flushing qb) (running qb) (workers qb) (flushCalls qb) (emptied qb) (called qb) (log qb).
Definition set_rcs (s : gmap nat refCountDone) (qb : pb) : pb :=
  mkPartitionBatcher (currentBatch qb) (armed qb) (hasOnEmpty qb) (lastDataTime qb) (active qb) s
    (flushing qb) (running qb) (workers qb) (flushCalls qb) (emptied qb) (called qb) (log qb).

Definition resetTimer (qb : pb) : pb :=
  if decide (FlushTimeout cfg > 0) then
    mkPartitionBatcher (currentBatch qb) true (hasOnEmpty qb) (lastDataTime qb) (active qb)
      (rcs qb) (flushing qb) (running qb) (workers qb) (flushCalls qb) (emptied qb) (called qb) (log qb)
  else qb.

(** done.OnDone(err), with the callbacks of the queue recorded. *)
Definition callDone (err : option error) (done : multiDone) (qb : pb) : pb :=
  let '(s, c) := multiOnDone err done (rcs qb) in
  mkPartitionBatcher (currentBatch qb) (armed qb) (hasOnEmpty qb) (lastDataTime qb) (active qb)
    s (flushing qb) (running qb) (workers qb) (flushCalls qb) (emptied qb) (called qb ++ c)
    (log qb ++ ((fun d => (d, err)) <$> done)).

(** flush: the batch waits for a worker. *)
Definition flush (b : batch Ctx T) (qb : pb) : pb :=
  mkPartitionBatcher (currentBatch qb) (armed qb) (hasOnEmpty qb) (lastDataTime qb) (active qb)
    (rcs qb) (flushing qb ++ [b]) (running qb) (workers qb) (flushCalls qb) (emptied qb) (called qb) (log qb).

(** "If more than one flush is required for this request, call done only when all
    flushes are done." *)
Definition countRefs (id : nat) (reqList : list T) (mergeSplitErr : option error) (qb : pb)
  : pb * Done :=
  let numRefs := Z.of_nat (length reqList) in
  let numRefs := if mergeSplitErr then numRefs + 1 else numRefs in
  if decide (numRefs > 1) then
    let '(s, done) := newRefCountDone id numRefs (rcs qb) in
    let qb := set_rcs s qb in
    let qb := if mergeSplitErr then callDone mergeSplitErr [done] qb else qb in
    (qb, done)
  else (qb, QueueDone id).

(** The last request becomes the current batch when it is below the minimum size;
    the others are left to flush. *)
Definition keepLast (ctx : Ctx) (done : Done) (reqList : list T) (qb : pb) : pb * list T :=
  match last reqList with
  | Some lastReq =>
      if decide (sizeof lastReq < MinSize cfg) then
        (resetTimer (set_current (Some (mkBatch ctx lastReq [done])) qb),
         take (length reqList - 1) reqList)
      else (qb, reqList)
  | None => (qb, reqList)
  end.

Definition flushAll (ctx : Ctx) (done : Done) (reqList : list T) (qb : pb) : pb :=
  foldl (fun qb r => flush (mkBatch ctx r [done]) qb) qb reqList.

(** consumeInternal for the request whose done callback is the queue's [id]; the
    flushes come after the unlock and touch no field the mutex guards. *)
Definition consumeInternal (now : Z) (ctx : Ctx) (req : T) (id : nat) (qb : pb) : pb * bool :=
  let isActive := active qb in
  let qb := set_lastDataTime now qb in
  match currentBatch qb with
  | None =>
      let r := MergeSplit (MaxSize cfg) (Sizer cfg) None req in
      match ms_list r with
      | [] => (callDone (ms_err r) [QueueDone id] qb, isActive)
      | reqList =>
          let '(qb, done) := countRefs id reqList (ms_err r) qb in
          let '(qb, reqList) := keepLast ctx done reqList qb in
          (flushAll ctx done reqList qb, isActive)
      end
  | Some cb =>
      let r := MergeSplit (MaxSize cfg) (Sizer cfg) (Some req) (b_req cb) in
      let qb := set_current (Some (mkBatch (b_ctx cb) (ms_self r) (b_done cb))) qb in
      match ms_list r with
      | [] => (callDone (ms_err r) [QueueDone id] qb, isActive)
      | first :: rest =>
          let '(qb, done) := countRefs id (first :: rest) (ms_err r) qb in
          let cb := mkBatch (mergeCtx (b_ctx cb) ctx) first (b_done cb ++ [done]) in
          if negb (length rest =? 0)%nat || (MinSize cfg <=? sizeof first) then
            let qb := set_current None qb in
            let '(qb, rest) := keepLast ctx done rest qb in
            (flushAll ctx done rest (flush cb qb), isActive)
          else (set_current (Some cb) qb, isActive)
      end
  end.

Definition callFlush (qb : pb) : pb :=
  mkPartitionBatcher (currentBatch qb) (armed qb) (hasOnEmpty qb) (lastDataTime qb) (active qb)
    (rcs qb) (flushing qb) (running qb) (workers qb) (S (flushCalls qb)) (emptied qb) (called qb) (log qb).

(** Consume up to the call of flushCurrentBatchOrRemovePartition, if it makes it. *)
Definition Consume (now : Z) (ctx : Ctx) (req : T) (id : nat) (qb : pb) : pb :=
  let '(qb, isActive) := consumeInternal now ctx req id qb in
  if (isActive : bool) then qb else callFlush qb.

(** [timer]: the timer was created. *)
Definition flushCurrentBatchOrRemovePartition (timer : bool) (now : Z) (qb : pb) : pb :=
  match currentBatch qb with
  | None =>
      let idleDuration := now - lastDataTime qb in
      if (partitionIdleCycles * FlushTimeout cfg <=? idleDuration) && hasOnEmpty qb then
        mkPartitionBatcher (currentBatch qb) (armed qb) (hasOnEmpty qb) (lastDataTime qb) (active qb)
          (rcs qb) (flushing qb) (running qb) (workers qb) (flushCalls qb) true (called qb) (log qb)
      else if timer then resetTimer qb else qb
  | Some b => flush b (resetTimer (set_current None (set_lastDataTime now qb)))
  end.

(** shutdownInternal up to its call of flushCurrentBatchOrRemovePartition. *)
Definition shutdownInternal (qb : pb) : pb :=
  if active qb then
    callFlush
      (mkPartitionBatcher (currentBatch qb) (armed qb) false (lastDataTime qb) false (rcs qb)
         (flushing qb) (running qb) (workers qb) (flushCalls qb) (emptied qb) (called qb) (log qb))
  else qb.

(** ** The goroutines.  [ids] are the callbacks the queue has passed so far. *)

Inductive step : list nat * pb -> list nat * pb -> Prop :=
| step_consume ids qb now ctx req id :
    id ∉ ids -> step (ids, qb) (id :: ids, Consume now ctx req id qb)
(* the timer goroutine takes the tick; the select may still do so after shutdown *)
| step_timer ids qb :
    armed qb = true ->
    step (ids, qb)
      (ids, callFlush
         (mkPartitionBatcher (currentBatch qb) false (hasOnEmpty qb) (lastDataTime qb) (active qb)
            (rcs qb) (flushing qb) (running qb) (workers qb) (flushCalls qb) (emptied qb) (called qb) (log qb)))
| step_flush_call ids qb n now :
    flushCalls qb = S n ->
    step (ids, qb)
      (ids, flushCurrentBatchOrRemovePartition (bool_decide (FlushTimeout cfg > 0)) now
         (mkPartitionBatcher (currentBatch qb) (armed qb) (hasOnEmpty qb) (lastDataTime qb) (active qb)
            (rcs qb) (flushing qb) (running qb) (workers qb) n (emptied qb) (called qb) (log qb)))
(* wp.execute: a worker token is taken, and put back when the batch was exported *)
| step_execute ids qb f1 b f2 n :
    flushing qb = f1 ++ b :: f2 -> workers qb = S n ->
    step (ids, qb)
      (ids, mkPartitionBatcher (currentBatch qb) (armed qb) (hasOnEmpty qb) (lastDataTime qb) (active qb)
              (rcs qb) (f1 ++ f2) (b :: running qb) n (flushCalls qb) (emptied qb) (called qb) (log qb))
| step_exported ids qb r1 b r2 err :
    running qb = r1 ++ b :: r2 ->
    step (ids, qb)
      (ids, callDone err (b_done b)
         (mkPartitionBatcher (currentBatch qb) (armed qb) (hasOnEmpty qb) (lastDataTime qb) (active qb)
            (rcs qb) (flushing qb) (r1 ++ r2) (S (workers qb)) (flushCalls qb) (emptied qb) (called qb) (log qb)))
| step_shutdown ids qb : step (ids, qb) (ids, shutdownInternal qb).

Definition started (maxWorkers : nat) (onEmpty : bool) (now : Z) : list nat * pb :=
  ([], Start (newPartitionBatcher maxWorkers onEmpty now)).
End batcher.

(** ** metadata_partitioner.go *)

(** GetKey on the metadata of the client; bytes.Buffer as a string. *)
Fixpoint GetKeyLoop (Get : string -> list string) (keys : list string) (afterFirst : bool) (kb : string)
  : string :=
  let zero := String Ascii.zero EmptyString in
  match keys with
  | [] => kb
  | k :: keys =>
      match Get k with
      | [] => GetKeyLoop Get keys afterFirst kb
      | values =>
          let kb := if afterFirst then kb +:+ zero else kb in
          let kb := kb +:+ k in
          let kb := foldl (fun kb val => kb +:+ zero +:+ val) kb values in
          GetKeyLoop Get keys true kb
      end
  end.

Definition GetKey (keys : list string) (Get : string -> list string) : string :=
  GetKeyLoop Get keys false "".
