(* ===== verification/PartitionBatcherProofs.v ===== *)
(** * PartitionBatcherProofs: every request is completed once, when its batches are

    [accounted] relates the callbacks held by the batches, the reference counters and
    the callbacks called; each operation of the batcher preserves it. *)

From S2P Require Import Prelude.
From S2P Require Import GoErrors.
From S2P Require Import Request.
From S2P Require Import QueueConfig.
From S2P Require Import PartitionBatcher.

Section accounting.
Context `{MultiErr}.

(** The reference counters of [id] that still have to be released. *)
Definition live_counters (id : nat) (rcs : gmap nat refCountDone) : Z :=
  Z.of_nat (size (filter (fun p => rc_done p.2 = id /\ refCount p.2 <> 0) rcs)).

Record accounted (ids : list nat) (held : list Done) (rcs : gmap nat refCountDone)
    (called : list (nat * option error)) : Prop := {
  ac_counters : forall r, match rcs !! r with
    | Some rc => refCount rc = occ (RefCount r) held
    | None => RefCount r ∉ held
    end;
  ac_ids : forall id,
    occ id called.*1 + occ (QueueDone id) held + live_counters id rcs =
    if decide (id ∈ ids) then 1 else 0;
}.

Lemma live_counters_empty id : live_counters id ∅ = 0.
Proof. unfold live_counters. rewrite map_filter_empty. by rewrite map_size_empty. Qed.

(** Setting a counter changes the count by what it was and what it becomes. *)
Lemma live_counters_insert id r rc rcs :
  live_counters id (<[r := rc]> rcs) =
    live_counters id (delete r rcs) + if decide (rc_done rc = id /\ refCount rc <> 0) then 1 else 0.
Proof.
  unfold live_counters. case_decide as Hp.
  - rewrite map_filter_insert_True by done. rewrite <- insert_delete_eq.
    rewrite map_size_insert_None; [|by rewrite lookup_delete_eq].
    rewrite map_filter_delete. lia.
  - rewrite map_filter_insert_False by done. lia.
Qed.

Lemma live_counters_delete id r rc rcs :
  rcs !! r = Some rc ->
  live_counters id rcs =
    live_counters id (delete r rcs) + if decide (rc_done rc = id /\ refCount rc <> 0) then 1 else 0.
Proof. intros Hr. rewrite <- live_counters_insert. by rewrite insert_id. Qed.

Lemma accounted_perm ids held held' rcs called :
  held ≡ₚ held' -> accounted ids held rcs called -> accounted ids held' rcs called.
Proof.
  intros Hp [Hc Hi]. split.
  - intros r. specialize (Hc r). destruct (rcs !! r); [by rewrite <- (occ_perm _ _ _ Hp)|by rewrite <- Hp].
  - intros id. by rewrite <- (occ_perm _ _ _ Hp).
Qed.

Lemma accounted_OnDone ids err d held rcs called rcs' c :
  accounted ids (d :: held) rcs called -> OnDone err d rcs = (rcs', c) ->
  accounted ids held rcs' (called ++ c).
Proof.
  intros [Hc Hi] E. destruct d as [id|r]; simpl in E.
  - simplify_eq. split.
    + intros r. specialize (Hc r). destruct (rcs' !! r); [by rewrite occ_cons, decide_False in Hc by done|].
      set_solver.
    + intros id'. specialize (Hi id'). rewrite occ_cons in Hi. rewrite fmap_app, occ_app. simpl.
      rewrite occ_cons, occ_nil.
      destruct (decide (id = id')) as [->|Hne].
      * rewrite (decide_True (P := QueueDone id' = QueueDone id')) in Hi by done. lia.
      * rewrite (decide_False (P := QueueDone id = QueueDone id')) in Hi by congruence. lia.
  - destruct (rcs !! r) as [[id n e]|] eqn:Er; [|specialize (Hc r); rewrite Er in Hc; set_solver].
    simplify_eq. pose proof (Hc r) as Hr. rewrite Er in Hr. simpl in Hr.
    rewrite occ_cons, decide_True in Hr by done. pose proof (occ_nonneg (RefCount r) held).
    split.
    + intros r'. specialize (Hc r'). destruct (decide (r = r')) as [->|Hne].
      * rewrite lookup_insert_eq. simpl. lia.
      * rewrite lookup_insert_ne by done. rewrite occ_cons, decide_False in Hc by congruence.
        destruct (rcs !! r'); [done|set_solver].
    + intros id'. specialize (Hi id'). rewrite occ_cons, decide_False in Hi by done.
      rewrite (live_counters_delete _ _ _ _ Er) in Hi. rewrite live_counters_insert.
      rewrite fmap_app, occ_app. simpl in *.
      destruct (decide (id = id')) as [->|Hne].
      * rewrite (decide_True (P := _ /\ _)) in Hi by (split; [done|lia]).
        destruct (decide (n - 1 = 0)); simpl.
        -- rewrite (decide_False (P := _ /\ _)) by tauto.
           rewrite occ_cons, (decide_True (P := id' = id')), occ_nil by done. lia.
        -- rewrite (decide_True (P := _ /\ _)) by done. rewrite occ_nil. lia.
      * rewrite (decide_False (P := _ /\ _)) in Hi by tauto.
        rewrite (decide_False (P := _ /\ _)) by tauto.
        destruct (decide (n - 1 = 0)); simpl; rewrite ?occ_cons, ?occ_nil; [|lia].
        rewrite (decide_False (P := id = id')) by done. lia.
Qed.

Lemma accounted_multiOnDone ids err mdc held rcs called rcs' c :
  accounted ids (mdc ++ held) rcs called -> multiOnDone err mdc rcs = (rcs', c) ->
  accounted ids held rcs' (called ++ c).
Proof.
  revert rcs called c. induction mdc as [|d mdc IH]; intros rcs called c Ha E; simpl in E.
  { simplify_eq. by rewrite app_nil_r. }
  destruct (OnDone err d rcs) as [rcs1 c1] eqn:E1. destruct (multiOnDone err mdc rcs1) as [rcs2 c2] eqn:E2.
  simplify_eq. rewrite app_assoc. eapply IH; [|exact E2]. by eapply accounted_OnDone.
Qed.

Lemma accounted_fresh ids held rcs called id :
  accounted ids held rcs called -> id ∉ ids ->
  occ id called.*1 = 0 /\ occ (QueueDone id) held = 0 /\ live_counters id rcs = 0.
Proof.
  intros [_ Hi] Hid. specialize (Hi id). rewrite decide_False in Hi by done.
  pose proof (occ_nonneg id called.*1). pose proof (occ_nonneg (QueueDone id) held).
  assert (0 <= live_counters id rcs) by (unfold live_counters; lia). lia.
Qed.

(** A new request whose callback is held as it is, or through a counter. *)
Lemma accounted_direct ids held rcs called id :
  accounted ids held rcs called -> id ∉ ids ->
  accounted (id :: ids) (QueueDone id :: held) rcs called.
Proof.
  intros Ha Hid. pose proof (accounted_fresh _ _ _ _ id Ha Hid) as (H1 & H2 & H3).
  destruct Ha as [Hc Hi]. split.
  - intros r. specialize (Hc r). rewrite occ_cons, decide_False by done.
    destruct (rcs !! r); [done|set_solver].
  - intros id'. specialize (Hi id'). rewrite occ_cons. destruct (decide (id = id')) as [->|Hne].
    + rewrite (decide_True (P := QueueDone id' = _)), (decide_True (P := id' ∈ _)) by set_solver. lia.
    + rewrite (decide_False (P := QueueDone id = _)) by congruence.
      rewrite (decide_ext (id' ∈ id :: ids) (id' ∈ ids)) by set_solver. lia.
Qed.

Lemma accounted_counter ids held rcs called id n rcs' d :
  accounted ids held rcs called -> id ∉ ids -> (0 < n)%nat ->
  newRefCountDone id (Z.of_nat n) rcs = (rcs', d) ->
  accounted (id :: ids) (replicate n d ++ held) rcs' called.
Proof.
  intros Ha Hid Hn E. pose proof (accounted_fresh _ _ _ _ id Ha Hid) as (H1 & H2 & H3).
  destruct Ha as [Hc Hi]. unfold newRefCountDone in E. simplify_eq.
  set (r := fresh (dom rcs)).
  assert (rcs !! r = None) as Hr by (apply not_elem_of_dom, is_fresh). split.
  - intros r'. specialize (Hc r'). destruct (decide (r = r')) as [<-|Hne].
    + rewrite Hr in Hc. rewrite lookup_insert_eq, occ_app, occ_replicate, decide_True by done. simpl.
      rewrite occ_notin by done. lia.
    + rewrite lookup_insert_ne by done. rewrite occ_app, occ_replicate, decide_False by congruence.
      destruct (rcs !! r'); [done|]. rewrite elem_of_app, elem_of_replicate. intros [[[= ->] _]|?]; done.
  - intros id'. specialize (Hi id'). rewrite occ_app, occ_replicate, decide_False by done.
    rewrite live_counters_insert, delete_id by done. simpl. destruct (decide (id = id')) as [->|Hne].
    + rewrite (decide_True (P := _ /\ _)) by lia. rewrite (decide_True (P := id' ∈ _)) by set_solver. lia.
    + rewrite (decide_False (P := _ /\ _)) by tauto. rewrite (decide_ext (id' ∈ id :: ids) (id' ∈ ids)) by set_solver. lia.
Qed.

(** ** Errors *)

Definition owner (rcs : gmap nat refCountDone) (d : Done) : option nat :=
  match d with QueueDone id => Some id | RefCount r => rc_done <$> rcs !! r end.

(** The error a callback is called with is nil exactly when every OnDone on a callback
    that stands for it was. *)
Record errors_ok (rcs : gmap nat refCountDone) (called : list (nat * option error))
    (log : list (Done * option error)) : Prop := {
  er_counter : forall r rc, rcs !! r = Some rc ->
    (rc_err rc = None <-> forall e, (RefCount r, e) ∈ log -> e = None);
  er_called : forall id e, (id, e) ∈ called ->
    (e = None <-> forall d er, (d, er) ∈ log -> owner rcs d = Some id -> er = None);
  er_known : forall r e, (RefCount r, e) ∈ log -> is_Some (rcs !! r);
  er_direct : forall id e, (QueueDone id, e) ∈ log -> id ∈ called.*1;
  er_released : forall r rc, rcs !! r = Some rc -> refCount rc = 0 -> rc_done rc ∈ called.*1;
}.

Lemma counter_live ids held rcs called id r rc :
  accounted ids held rcs called -> rcs !! r = Some rc -> rc_done rc = id -> refCount rc <> 0 ->
  id ∉ called.*1 /\ QueueDone id ∉ held /\
  forall r' rc', rcs !! r' = Some rc' -> rc_done rc' = id -> r' <> r -> refCount rc' = 0.
Proof.
  intros [_ Hi] Hr Hid Hn. specialize (Hi id).
  pose proof (occ_nonneg id called.*1). pose proof (occ_nonneg (QueueDone id) held).
  assert (forall x, 0 <= live_counters x rcs) as Hnn by (unfold live_counters; lia).
  rewrite (live_counters_delete _ _ _ _ Hr), decide_True in Hi by done.
  assert (0 <= live_counters id (delete r rcs)) by (unfold live_counters; lia).
  assert (occ id called.*1 = 0 /\ occ (QueueDone id) held = 0 /\ live_counters id (delete r rcs) = 0)
    as (Hz1 & Hz2 & Hz3) by (case_decide; lia).
  split; [intros ?%occ_pos; lia|]. split; [intros ?%occ_pos; lia|].
  intros r' rc' Hr' Hid' Hne. destruct (decide (refCount rc' = 0)); [done|exfalso].
  assert (delete r rcs !! r' = Some rc') as Hd by by rewrite lookup_delete_ne.
  rewrite (live_counters_delete _ _ _ _ Hd), decide_True in Hz3 by done.
  unfold live_counters in Hz3. lia.
Qed.

Lemma direct_live ids held rcs called id :
  accounted ids (QueueDone id :: held) rcs called ->
  id ∉ called.*1 /\ forall r rc, rcs !! r = Some rc -> rc_done rc = id -> refCount rc = 0.
Proof.
  intros [_ Hi]. specialize (Hi id). rewrite occ_cons, (decide_True (P := QueueDone id = _)) in Hi by done.
  pose proof (occ_nonneg id called.*1). pose proof (occ_nonneg (QueueDone id) held).
  assert (0 <= live_counters id rcs) by (unfold live_counters; lia).
  assert (occ id called.*1 = 0 /\ live_counters id rcs = 0) as (Hz1 & Hz3) by (case_decide; lia).
  split; [intros ?%occ_pos; lia|]. intros r rc Hr Hid.
  destruct (decide (refCount rc = 0)); [done|exfalso].
  rewrite (live_counters_delete _ _ _ _ Hr), decide_True in Hz3 by done.
  unfold live_counters in Hz3. lia.
Qed.

Context `{!MultiErrLaws}.

Lemma errors_OnDone ids err d held rcs called log rcs' c :
  accounted ids (d :: held) rcs called -> errors_ok rcs called log ->
  OnDone err d rcs = (rcs', c) -> errors_ok rcs' (called ++ c) (log ++ [(d, err)]).
Proof.
  intros Ha [Ec El Ek Ed Er] E. destruct d as [id|r]; simpl in E.
  - destruct (direct_live _ _ _ _ _ Ha) as [Hnc Hrel]. simplify_eq. split.
    + intros r rc Hr. rewrite (Ec r rc Hr). split; intros Hall e.
      * rewrite elem_of_app, list_elem_of_singleton. intros [?|[=]]; auto.
      * intros Hin. apply Hall. apply elem_of_app. by left.
    + intros id' e. rewrite elem_of_app, list_elem_of_singleton. intros [Hin|[= -> ->]].
      * assert (id' <> id) by (intros ->; apply Hnc, list_elem_of_fmap; by exists (id, e)).
        rewrite (El id' e Hin). split; intros Hall d er.
        -- rewrite elem_of_app, list_elem_of_singleton. intros [?|[= -> ->]] Ho; eauto. by simplify_eq/=.
        -- intros Hd. apply Hall. apply elem_of_app. by left.
      * split.
        -- intros -> d er. rewrite elem_of_app, list_elem_of_singleton. intros [Hd|[= -> ->]] Ho; [|done].
           exfalso. apply Hnc. destruct d as [id'|r]; simpl in Ho; [simplify_eq; eauto|].
           destruct (rcs' !! r) as [rc|] eqn:Hr; simplify_eq/=. apply (Er r rc Hr). eauto.
        -- intros Hall. apply (Hall (QueueDone id) err); [|done]. apply elem_of_app. right. by left.
    + intros r e. rewrite elem_of_app, list_elem_of_singleton. intros [?|[=]]; eauto.
    + intros id' e. rewrite fmap_app, !elem_of_app, list_elem_of_singleton. intros [?|[= -> ->]]; [left; eauto|].
      right. simpl. by left.
    + intros r rc Hr Hz0. rewrite fmap_app, elem_of_app. left. eauto.
  - destruct (rcs !! r) as [[id n e0]|] eqn:Hr.
    2: { destruct Ha as [Hc _]. specialize (Hc r). rewrite Hr in Hc. set_solver. }
    assert (n <> 0) as Hn.
    { destruct Ha as [Hc _]. specialize (Hc r). rewrite Hr in Hc. simpl in Hc.
      rewrite occ_cons, decide_True in Hc by done. pose proof (occ_nonneg (RefCount r) held). lia. }
    destruct (counter_live _ _ _ _ id r _ Ha Hr eq_refl Hn) as (Hnc & _ & Huniq).
    simplify_eq. set (rc' := mkRefCountDone id (n - 1) (multierr_Append e0 err)).
    assert (forall d, owner (<[r := rc']> rcs) d = owner rcs d) as Hown.
    { intros [?|r']; [done|]. simpl. destruct (decide (r = r')) as [<-|]; [by rewrite lookup_insert_eq, Hr|].
      by rewrite lookup_insert_ne. }
    assert (multierr_Append e0 err = None <-> forall e, (RefCount r, e) ∈ log ++ [(RefCount r, err)] -> e = None)
      as Hr0.
    { rewrite multierr_some. pose proof (Ec r _ Hr) as Hec. simpl in Hec. rewrite Hec. split.
      - intros [Hall ->] e. rewrite elem_of_app, list_elem_of_singleton. intros [?|[= ->]]; auto.
      - intros Hall. split; [intros e Hin|]; apply Hall; rewrite elem_of_app, list_elem_of_singleton; auto. }
    split.
    + intros r' rc. destruct (decide (r = r')) as [<-|Hne].
      * rewrite lookup_insert_eq. intros [= <-]. exact Hr0.
      * rewrite lookup_insert_ne by done. intros Hr'. rewrite (Ec r' rc Hr'). split; intros Hall e.
        -- rewrite elem_of_app, list_elem_of_singleton. intros [?|[= -> _]]; [auto|done].
        -- intros Hin. apply Hall. apply elem_of_app. by left.
    + intros id' e. rewrite elem_of_app. intros [Hin|Hin].
      * assert (id' <> id) by (intros ->; apply Hnc, list_elem_of_fmap; by exists (id, e)).
        rewrite (El id' e Hin). split; intros Hall d er.
        -- rewrite elem_of_app, list_elem_of_singleton, Hown. intros [?|[= -> ->]] Ho; eauto.
           simpl in Ho. rewrite Hr in Ho. by simplify_eq/=.
        -- intros Hd Ho. apply (Hall d er); [apply elem_of_app; by left|by rewrite Hown].
      * case_decide; [|by apply elem_of_nil in Hin]. apply list_elem_of_singleton in Hin as [= -> ->].
        rewrite Hr0. split; intros Hall.
        -- intros d er Hd Ho. rewrite Hown in Ho.
           destruct d as [id'|r']; simpl in Ho.
           ++ simplify_eq. apply elem_of_app in Hd as [Hd|Hd]; [|by apply list_elem_of_singleton in Hd].
              exfalso. eauto.
           ++ destruct (decide (r' = r)) as [->|Hne]; [by apply Hall|]. exfalso.
              destruct (rcs !! r') as [rc|] eqn:Hr'; simplify_eq/=.
              apply Hnc, (Er r' rc Hr'). by apply (Huniq r' rc).
        -- intros e Hd. apply (Hall (RefCount r) e Hd). rewrite Hown. simpl. by rewrite Hr.
    + intros r' e. rewrite elem_of_app, list_elem_of_singleton.
      destruct (decide (r = r')) as [<-|Hne]; [by rewrite lookup_insert_eq|].
      rewrite lookup_insert_ne by done. intros [?|[= -> _]]; [eauto|done].
    + intros id' e. rewrite fmap_app, !elem_of_app, list_elem_of_singleton. intros [?|[=]]; left; eauto.
    + intros r' rc. rewrite fmap_app, elem_of_app. destruct (decide (r = r')) as [<-|Hne].
      * rewrite lookup_insert_eq. intros [= <-]. simpl. intros Hz0. right. rewrite decide_True by done. by left.
      * rewrite lookup_insert_ne by done. intros ??. left. eauto.
Qed.

Lemma errors_multiOnDone ids err mdc held rcs called log rcs' c :
  accounted ids (mdc ++ held) rcs called -> errors_ok rcs called log ->
  multiOnDone err mdc rcs = (rcs', c) ->
  errors_ok rcs' (called ++ c) (log ++ ((fun d => (d, err)) <$> mdc)).
Proof.
  revert rcs called log c. induction mdc as [|d mdc IH]; intros rcs called log c Ha He E; simpl in E.
  { simplify_eq. simpl. by rewrite !app_nil_r. }
  destruct (OnDone err d rcs) as [rcs1 c1] eqn:E1. destruct (multiOnDone err mdc rcs1) as [rcs2 c2] eqn:E2.
  simplify_eq. rewrite fmap_cons, app_assoc, (cons_middle (d, err)), app_assoc.
  eapply IH; [|by eapply errors_OnDone|exact E2]. by eapply accounted_OnDone.
Qed.

Lemma errors_counter rcs called log id n rcs' d :
  errors_ok rcs called log -> 0 < n -> newRefCountDone id n rcs = (rcs', d) ->
  errors_ok rcs' called log.
Proof.
  intros [Ec El Ek Ed Er] Hn E. unfold newRefCountDone in E. simplify_eq. set (r := fresh (dom rcs)).
  assert (rcs !! r = None) as Hr by (apply not_elem_of_dom, is_fresh).
  assert (forall e, (RefCount r, e) ∉ log) as Hnl.
  { intros e Hin. destruct (Ek r e Hin) as [rc Hrc]. by rewrite Hr in Hrc. }
  split.
  - intros r' rc. destruct (decide (r = r')) as [<-|Hne].
    + rewrite lookup_insert_eq. intros [= <-]. simpl. split; [|done]. intros _ e He. by apply Hnl in He.
    + rewrite lookup_insert_ne by done. auto.
  - intros id' e Hin. rewrite (El id' e Hin). split; intros Hall d er Hd Ho; apply (Hall d er Hd);
      destruct d as [?|r']; try done; simpl in *; (destruct (decide (r = r')) as [<-|Hne];
        [by apply Hnl in Hd|by rewrite lookup_insert_ne in * by done]).
  - intros r' e Hin. destruct (decide (r = r')) as [<-|Hne]; [by apply Hnl in Hin|].
    rewrite lookup_insert_ne by done. eauto.
  - done.
  - intros r' rc. destruct (decide (r = r')) as [<-|Hne].
    + rewrite lookup_insert_eq. intros [= <-]. simpl. lia.
    + rewrite lookup_insert_ne by done. eauto.
Qed.
End accounting.
