(* ===== verification/PartitionBatcherSystem.v ===== *)
(** * PartitionBatcherSystem: what every run of the partition batcher guarantees

    The second part is the batcher over the requests of traces_batch.go, logs_batch.go and
    metrics_batch.go ([request_laws] discharges the batcher's interface), and the keys of
    metadata_partitioner.go. *)

From S2P Require Import Prelude.
From S2P Require Import GoErrors.
From S2P Require Import PData.
From S2P Require Import Batch.
From S2P Require Import BatchLemmas.
From S2P Require Import TracesBatch.
From S2P Require Import TracesBatchProofs.
From S2P Require Import Request.
From S2P Require Import QueueConfig.
From S2P Require Import PartitionBatcher.
From S2P Require Import PartitionBatcherProofs.

(** What the batcher relies on of MergeSplit: no item is lost.  The items that the
    requests returned do not hold were dropped with the error; when no request is
    returned for a merge, the receiver holds the items of both. *)
Class MergeableLaws (T I : Type) `{Mergeable T} (szt : SizerType) := {
  req_items : T -> list I;
  MergeSplit_items : forall max r2 r, exists dropped,
    let res := MergeSplit max szt r2 r in
    let all := req_items r ++ from_option req_items [] r2 in
    (ms_err res = None -> dropped = []) /\
    match ms_list res, r2 with
    | [], Some _ => dropped = [] /\ req_items (ms_self res) ≡ₚ all
    | l, _ => concat (req_items <$> l) ++ dropped ≡ₚ all
    end;
}.

Section system.
Context {Ctx T : Type} `{Request T} `{Mergeable T} `{MultiErr}.
Context (mergeCtx : Ctx -> Ctx -> Ctx).
Context (cfg : BatchConfig).
Abbreviation pb := (partitionBatcher Ctx T).
Abbreviation step := (step mergeCtx cfg).

(** The batches that wait to be filled, for a worker, or to be exported. *)
Definition batches (qb : pb) : list (batch Ctx T) :=
  option_list (currentBatch qb) ++ flushing qb ++ running qb.
Definition held (qb : pb) : list Done := concat (b_done <$> batches qb).

Definition ok (ids : list nat) (qb : pb) : Prop := accounted ids (held qb) (rcs qb) (called qb).
Definition errs (qb : pb) : Prop := errors_ok (rcs qb) (called qb) (log qb).

Lemma held_eq qb : held qb =
  from_option b_done [] (currentBatch qb) ++ concat (b_done <$> flushing qb) ++ concat (b_done <$> running qb).
Proof.
  unfold held, batches. rewrite !fmap_app, !concat_app.
  destruct (currentBatch qb); simpl; by rewrite ?app_nil_r.
Qed.

(** ** The pieces of Consume *)

Lemma callDone_ok `{!MultiErrLaws} ids err mdc (qb : pb) hs :
  accounted ids (mdc ++ hs) (rcs qb) (called qb) -> errs qb ->
  let qb' := callDone err mdc qb in
  accounted ids hs (rcs qb') (called qb') /\ errs qb' /\
  currentBatch qb' = currentBatch qb /\ flushing qb' = flushing qb /\ running qb' = running qb.
Proof.
  intros Ha He. unfold callDone, errs. destruct (multiOnDone err mdc (rcs qb)) as [s c] eqn:E. simpl.
  split; [by eapply accounted_multiOnDone|]. split; [by eapply errors_multiOnDone|done].
Qed.

Lemma flushAll_eq ctx done l (qb : pb) :
  let qb' := flushAll ctx done l qb in
  held qb' ≡ₚ replicate (length l) done ++ held qb /\ rcs qb' = rcs qb /\ called qb' = called qb /\
  log qb' = log qb /\ currentBatch qb' = currentBatch qb /\ active qb' = active qb /\
  armed qb' = armed qb /\ flushCalls qb' = flushCalls qb /\ workers qb' = workers qb /\
  running qb' = running qb.
Proof.
  unfold flushAll. revert qb. induction l as [|r l IH]; intros qb; simpl; [done|].
  destruct (IH (flush (mkBatch ctx r [done]) qb)) as (Hh & ?). split; [|done].
  rewrite Hh, !held_eq. simpl. flat_perm.
Qed.

Lemma keepLast_eq ctx done l (qb qb' : pb) l' :
  keepLast cfg ctx done l qb = (qb', l') -> currentBatch qb = None ->
  held qb' ++ replicate (length l') done ≡ₚ held qb ++ replicate (length l) done /\
  rcs qb' = rcs qb /\ called qb' = called qb /\ log qb' = log qb /\ active qb' = active qb /\
  flushCalls qb' = flushCalls qb /\ workers qb' = workers qb /\ running qb' = running qb /\
  (FlushTimeout cfg > 0 -> currentBatch qb' <> None -> armed qb' = true).
Proof.
  intros E Hc. unfold keepLast in E. destruct (last l) as [r|] eqn:Hl.
  2: { simplify_eq. split; [done|]. rewrite Hc. done. }
  case_decide; simplify_eq; [|split; [done|]; by rewrite Hc].
  apply last_Some in Hl as [l0 ->]. rewrite length_app. simpl.
  rewrite length_take, length_app. simpl.
  replace ((length l0 + 1 - 1) `min` (length l0 + 1))%nat with (length l0) by lia.
  replace (length l0 + 1)%nat with (S (length l0)) by lia.
  assert (held (resetTimer cfg (set_current (Some (mkBatch ctx r [done])) qb)) ≡ₚ [done] ++ held qb) as Hh.
  { rewrite !held_eq, Hc. unfold resetTimer. by case_decide. }
  split; [rewrite Hh; simpl; solve_Permutation|].
  unfold resetTimer. case_decide; simpl; split_and!; try done; lia.
Qed.

Lemma countRefs_ok `{!MultiErrLaws} ids id l err (qb qb' : pb) done :
  ok ids qb -> errs qb -> id ∉ ids -> l <> [] -> countRefs id l err qb = (qb', done) ->
  accounted (id :: ids) (replicate (length l) done ++ held qb) (rcs qb') (called qb') /\ errs qb' /\
  currentBatch qb' = currentBatch qb /\ flushing qb' = flushing qb /\ running qb' = running qb /\
  active qb' = active qb /\ armed qb' = armed qb /\ flushCalls qb' = flushCalls qb /\
  workers qb' = workers qb.
Proof.
  intros Hok He Hid Hl E. unfold countRefs in E.
  assert (0 < length l)%nat as Hlen by (destruct l; simpl; [done|lia]).
  destruct err as [e|].
  - rewrite decide_True in E by lia.
    destruct (newRefCountDone id (Z.of_nat (length l) + 1) (rcs qb)) as [s d] eqn:En. simplify_eq.
    replace (Z.of_nat (length l) + 1) with (Z.of_nat (S (length l))) in En by lia.
    pose proof (accounted_counter _ _ _ _ _ (S (length l)) _ _ Hok Hid (Nat.lt_0_succ _) En) as Ha.
    pose proof (errors_counter _ _ _ _ (Z.of_nat (S (length l))) _ _ He ltac:(lia) En) as He'.
    destruct (callDone_ok (id :: ids) (Some e) [done] (set_rcs s qb) (replicate (length l) done ++ held qb))
      as (Ha' & He'' & E1 & E2 & E3); [exact Ha|exact He'|].
    split; [exact Ha'|]. split; [exact He''|]. split; [exact E1|]. split; [exact E2|]. split; [exact E3|].
    unfold callDone. by destruct (multiOnDone _ _ _).
  - case_decide as Hn.
    + destruct (newRefCountDone id (Z.of_nat (length l)) (rcs qb)) as [s d] eqn:En. simplify_eq.
      split; [|split; [eapply errors_counter; [exact He| |exact En]; lia|done]].
      eapply accounted_counter; [exact Hok|exact Hid|lia|exact En].
    + simplify_eq. destruct l as [|r [|]]; simpl in *; try lia.
      split; [by apply accounted_direct|done].
Qed.

(** A new request is completed at once when no request is returned for it. *)
Lemma callDone_direct `{!MultiErrLaws} ids err id (qb : pb) :
  ok ids qb -> errs qb -> id ∉ ids ->
  let qb' := callDone err [QueueDone id] qb in ok (id :: ids) qb' /\ errs qb'.
Proof.
  intros Hok He Hid qb'.
  destruct (callDone_ok (id :: ids) err [QueueDone id] qb (held qb)) as (Ha & He' & E1 & E2 & E3);
    [by apply accounted_direct|done|].
  split; [|done]. unfold ok. subst qb'. by rewrite held_eq, E1, E2, E3, <- held_eq.
Qed.

(** The requests kept as the current batch and flushed hold the callback. *)
Lemma keepLast_flushAll `{!MultiErrLaws} ids ctx done l (qb qb1 qb' : pb) l' :
  keepLast cfg ctx done l qb = (qb1, l') -> currentBatch qb = None ->
  accounted ids (replicate (length l) done ++ held qb) (rcs qb) (called qb) -> errs qb ->
  qb' = flushAll ctx done l' qb1 ->
  ok ids qb' /\ errs qb' /\ active qb' = active qb /\ flushCalls qb' = flushCalls qb /\
  workers qb' = workers qb /\ running qb' = running qb /\
  (FlushTimeout cfg > 0 -> currentBatch qb' <> None -> armed qb' = true).
Proof.
  intros E Hc Ha He ->. apply keepLast_eq in E as (Hh & E1 & E2 & E3 & E4 & E5 & E6 & E7 & E8); [|done].
  destruct (flushAll_eq ctx done l' qb1) as (Hh' & F1 & F2 & F3 & F4 & F5 & F6 & F7 & F8 & F9).
  unfold ok, errs. rewrite F1, F2, F3, F4, F5, F6, F7, F8, F9, E1, E2, E3.
  split; [|split_and!; done]. eapply accounted_perm; [|exact Ha].
  rewrite Hh', (Permutation_app_comm _ (held qb)), <- Hh. apply Permutation_app_comm.
Qed.

Lemma keepLast_flush ctx done b l (qb qb' : pb) l' :
  keepLast cfg ctx done l qb = (qb', l') ->
  keepLast cfg ctx done l (flush b qb) = (flush b qb', l').
Proof.
  unfold keepLast, resetTimer. destruct (last l); [|by intros [= <- <-]].
  case_decide; [|by intros [= <- <-]]. case_decide; by intros [= <- <-].
Qed.

Lemma consumeInternal_ok `{!MultiErrLaws} ids now ctx req id (qb qb' : pb) a :
  ok ids qb -> errs qb -> id ∉ ids -> consumeInternal mergeCtx cfg now ctx req id qb = (qb', a) ->
  ok (id :: ids) qb' /\ errs qb' /\ a = active qb /\ active qb' = active qb /\
  flushCalls qb' = flushCalls qb /\ workers qb' = workers qb /\ running qb' = running qb /\
  (currentBatch qb' <> None ->
   currentBatch qb <> None /\ armed qb' = armed qb \/ (FlushTimeout cfg > 0 -> armed qb' = true)).
Proof.
  intros Hok He Hid E. unfold consumeInternal in E.
  change (ok ids (set_lastDataTime now qb)) in Hok. change (errs (set_lastDataTime now qb)) in He.
  change (currentBatch qb) with (currentBatch (set_lastDataTime now qb)).
  change (active qb) with (active (set_lastDataTime now qb)).
  change (flushCalls qb) with (flushCalls (set_lastDataTime now qb)).
  change (workers qb) with (workers (set_lastDataTime now qb)).
  change (running qb) with (running (set_lastDataTime now qb)).
  change (armed qb) with (armed (set_lastDataTime now qb)).
  change (active qb) with (active (set_lastDataTime now qb)) in E.
  generalize dependent (set_lastDataTime now qb). clear qb. intros qb Hok He E.
  destruct (currentBatch qb) as [cb|] eqn:Ecb.
  - set (r := MergeSplit _ _ _ _) in *.
    set (qb0 := set_current _ qb) in *.
    assert (held qb0 = held qb) as Hh0 by (rewrite !held_eq, Ecb; done).
    assert (ok ids qb0) as Hok0 by (unfold ok; rewrite Hh0; exact Hok).
    destruct (ms_list r) as [|first rest] eqn:El.
    + simplify_eq. destruct (callDone_direct ids (ms_err r) id qb0 Hok0 He Hid) as [H1' H2'].
      split; [exact H1'|]. split; [exact H2'|].
      unfold callDone. destruct (multiOnDone _ _ _). simpl. split_and!; try done. by left.
    + destruct (countRefs id (first :: rest) (ms_err r) qb0) as [qb1 done] eqn:E1.
      eapply countRefs_ok in E1 as (Ha & He1 & F1 & F2 & F3 & F4 & F5 & F6 & F7); [|done..].
      set (cb' := mkBatch _ first _) in *.
      assert (replicate (length (first :: rest)) done ++ held qb0 ≡ₚ
              b_done cb' ++ replicate (length rest) done ++ held (set_current None qb1)) as Hp.
      { rewrite !held_eq. simpl. rewrite F2, F3. simpl. solve_Permutation. }
      assert (replicate (length (first :: rest)) done ++ held qb0 ≡ₚ
              replicate (length rest) done ++ held (set_current (Some cb') qb1)) as Hp2.
      { rewrite Hp, !held_eq. simpl. solve_Permutation. }
      assert (errs (flush cb' (set_current None qb1))) as He2 by exact He1.
      assert (held (flush cb' (set_current None qb1)) ≡ₚ b_done cb' ++ held (set_current None qb1)) as Hf.
      { rewrite !held_eq. simpl. flat_perm. }
      case_match eqn:Hb.
      * destruct (keepLast cfg ctx done rest (set_current None qb1)) as [qb2 l] eqn:E2. simplify_eq.
        apply (keepLast_flush _ _ cb') in E2.
        eapply keepLast_flushAll in E2 as (G1 & G2 & G3 & G4 & G5 & G6 & G7); [|done| |done|reflexivity].
        2: { eapply accounted_perm; [|exact Ha]. rewrite Hf, Hp. solve_Permutation. }
        rewrite G3, G4, G5, G6. simpl. rewrite F3, F4, F6, F7. split_and!; try done. intros Hc. right. auto.
      * simplify_eq. simpl. apply orb_false_iff in Hb as [Hb _]. apply negb_false_iff, Nat.eqb_eq in Hb.
        destruct rest; [|done]. rewrite F4, F5, F6, F7, F3. split_and!; try done; [|by left].
        by eapply accounted_perm; [exact Hp2|].
  - set (r := MergeSplit _ _ _ _) in *. destruct (ms_list r) as [|first rest] eqn:El.
    + simplify_eq. destruct (callDone_direct ids (ms_err r) id qb Hok He Hid) as [H1' H2'].
      split; [exact H1'|]. split; [exact H2'|].
      unfold callDone. destruct (multiOnDone _ _ _). simpl. by rewrite Ecb.
    + destruct (countRefs id (first :: rest) (ms_err r) qb) as [qb1 done] eqn:E1.
      destruct (keepLast cfg ctx done (first :: rest) qb1) as [qb2 l] eqn:E2. simplify_eq.
      eapply countRefs_ok in E1 as (Ha & He1 & F1 & F2 & F3 & F4 & F5 & F6 & F7); [|done..].
      rewrite Ecb in F1. rewrite <- F4, <- F5, <- F6, <- F7, <- F3.
      assert (held qb1 = held qb) as Hh1 by (rewrite !held_eq, F1, F2, F3, Ecb; done).
      rewrite <- Hh1 in Ha.
      eapply keepLast_flushAll in E2 as (G1 & G2 & G3 & G4 & G5 & G6 & G7); [|done|exact Ha|done|reflexivity].
      split_and!; try done. intros Hc. right. auto.
Qed.
(** ** Every step *)

(** A waiting batch will be flushed: a flush is on its way, or the timer is armed, or
    there is no timer and the shutdown will flush it. *)
Definition attended (qb : pb) : Prop :=
  currentBatch qb <> None ->
  (0 < flushCalls qb)%nat \/ active qb = true /\ (FlushTimeout cfg > 0 -> armed qb = true).

Record inv (maxWorkers : nat) (s : list nat * pb) : Prop := {
  inv_ok : ok s.1 s.2;
  inv_errs : errs s.2;
  inv_attended : attended s.2;
  inv_workers : (workers s.2 + length (running s.2))%nat = maxWorkers;
}.

Lemma inv_started maxWorkers onEmpty now : inv maxWorkers (started cfg maxWorkers onEmpty now).
Proof.
  split; simpl.
  - split; [intros r; simpl; rewrite lookup_empty; set_solver|].
    intros id. simpl. by rewrite live_counters_empty.
  - split; simpl; try set_solver; intros r rc; by rewrite lookup_empty.
  - intros Hn; by destruct Hn.
  - lia.
Qed.

Lemma flushCurrentBatch_ok ids timer now (qb : pb) :
  ok ids qb -> errs qb ->
  let qb' := flushCurrentBatchOrRemovePartition cfg timer now qb in
  ok ids qb' /\ errs qb' /\ currentBatch qb' = None /\ workers qb' = workers qb /\
  running qb' = running qb /\ (length (flushing qb') + length (running qb))%nat = length (batches qb) /\
  flushCalls qb' = flushCalls qb.
Proof.
  intros Hok He. unfold flushCurrentBatchOrRemovePartition, batches.
  destruct (currentBatch qb) as [b|] eqn:Eb.
  - assert (held (flush b (resetTimer cfg (set_current None (set_lastDataTime now qb)))) ≡ₚ held qb) as Hp.
    { rewrite !held_eq. unfold resetTimer. case_decide; simpl; rewrite Eb, fmap_app, concat_app; simpl;
        rewrite app_nil_r; solve_Permutation. }
    split; [unfold ok; eapply accounted_perm; [symmetry; exact Hp|]|];
      unfold resetTimer; case_decide; simpl; try done;
      split_and!; try done; rewrite !length_app; simpl; lia.
  - case_match; [|case_match; unfold resetTimer; [case_decide|]]; simpl;
      (split; [unfold ok in *; rewrite held_eq in *; simpl in *; by rewrite ?Eb in *|]);
      split_and!; try done; rewrite length_app; lia.
Qed.
Lemma inv_step `{!MultiErrLaws} maxWorkers s s' :
  step s s' -> inv maxWorkers s -> inv maxWorkers s'.
Proof.
  intros Hst [Hok He Hat Hw]. destruct Hst as [ids qb now ctx req id Hid|ids qb Harm|ids qb n now Hn|ids qb f1 b f2 n Hf Hn
    |ids qb r1 b r2 err Hr|ids qb]; simpl in *.
  - unfold Consume. destruct (consumeInternal mergeCtx cfg now ctx req id qb) as [qb' a] eqn:E.
    apply (consumeInternal_ok ids) in E as (Ho & He' & -> & Ea & Ef & Ew & Er & Hc); [|done..].
    split; [by case_match|by case_match|..].
    + unfold attended in *. destruct (active qb) eqn:Eact; simpl; [|intros _; left; lia].
      rewrite Ef, Ea. intros Hn. destruct (Hc Hn) as [[Hn' ->]|]; auto.
    + destruct (active qb); simpl; by rewrite Ew, Er.
  - split; simpl; try done. intros _. left. simpl. lia.
  - destruct (flushCurrentBatch_ok ids (bool_decide (FlushTimeout cfg > 0)) now
      (mkPartitionBatcher (currentBatch qb) (armed qb) (hasOnEmpty qb) (lastDataTime qb) (active qb)
        (rcs qb) (flushing qb) (running qb) (workers qb) n (emptied qb) (called qb) (log qb)))
      as (Ho & He' & Ec & Ew & Er & _); [done..|].
    split; simpl; try done; [by intros ?|by rewrite Ew, Er].
  - split; simpl; try done; [|rewrite <- Hw, Hn; simpl; lia].
    eapply accounted_perm; [|exact Hok]. rewrite !held_eq. simpl. rewrite Hf. flat_perm.
  - destruct (callDone_ok ids err (b_done b) (mkPartitionBatcher (currentBatch qb) (armed qb) (hasOnEmpty qb)
       (lastDataTime qb) (active qb) (rcs qb) (flushing qb) (r1 ++ r2) (S (workers qb)) (flushCalls qb)
       (emptied qb) (called qb) (log qb))
      (from_option b_done [] (currentBatch qb) ++ concat (b_done <$> flushing qb) ++ concat (b_done <$> r1 ++ r2)))
      as (Ha & He' & E1 & E2 & E3); [|done|].
    { eapply accounted_perm; [|exact Hok]. rewrite held_eq, Hr. flat_perm. }
    split; simpl; try done.
    + unfold ok. rewrite held_eq, E1, E2, E3. exact Ha.
    + unfold attended, callDone. destruct (multiOnDone _ _ _). exact Hat.
    + unfold callDone. destruct (multiOnDone _ _ _). simpl. rewrite <- Hw, Hr, !length_app. simpl. lia.
  - unfold shutdownInternal. case_match eqn:Ea; [|done]. split; simpl; try done. intros _. left. simpl. lia.
Qed.

Lemma inv_reachable `{!MultiErrLaws} maxWorkers onEmpty now s :
  rtc step (started cfg maxWorkers onEmpty now) s -> inv maxWorkers s.
Proof.
  intros Hr. remember (started cfg maxWorkers onEmpty now) as s0.
  assert (inv maxWorkers s0) as Hi by (subst; apply inv_started). clear Heqs0.
  induction Hr; [done|]. eauto using inv_step.
Qed.
(** ** Draining *)

Lemma drain_flush_calls `{!MultiErrLaws} ids maxWorkers n (qb : pb) :
  inv maxWorkers (ids, qb) -> active qb = false -> flushCalls qb = n ->
  exists qb', rtc step (ids, qb) (ids, qb') /\ inv maxWorkers (ids, qb') /\
    active qb' = false /\ flushCalls qb' = 0%nat.
Proof.
  revert qb. induction n as [|n IH]; intros qb Hi Ha Hn; [by exists qb|].
  pose proof (step_flush_call mergeCtx cfg ids qb n (lastDataTime qb) Hn) as Hst.
  pose proof (inv_step _ _ _ Hst Hi) as Hi'.
  destruct (IH _ Hi') as (qb' & Hr & Hi'' & ?).
  - unfold flushCurrentBatchOrRemovePartition, resetTimer. simpl.
    repeat case_match; simplify_eq; done.
  - unfold flushCurrentBatchOrRemovePartition, resetTimer. simpl.
    repeat case_match; simplify_eq; done.
  - exists qb'. split; [|done]. by eapply rtc_l.
Qed.

Lemma callDone_fields err d (qb : pb) :
  active (callDone err d qb) = active qb /\ flushCalls (callDone err d qb) = flushCalls qb /\
  flushing (callDone err d qb) = flushing qb /\ running (callDone err d qb) = running qb.
Proof. unfold callDone. by destruct (multiOnDone _ _ _). Qed.

Lemma drain_batches `{!MultiErrLaws} ids maxWorkers n (qb : pb) :
  (0 < maxWorkers)%nat -> inv maxWorkers (ids, qb) -> active qb = false -> flushCalls qb = 0%nat ->
  (2 * length (flushing qb) + length (running qb) <= n)%nat ->
  exists qb', rtc step (ids, qb) (ids, qb') /\ inv maxWorkers (ids, qb') /\ batches qb' = [].
Proof.
  intros Hm. revert qb. induction n as [|n IH]; intros qb Hi Ha Hf Hn.
  all: pose proof (inv_attended _ _ Hi) as Hat; pose proof (inv_workers _ _ Hi) as Hw; simpl in *.
  all: assert (currentBatch qb = None) as Hc
    by (destruct (currentBatch qb) eqn:Ec; [|done]; unfold attended in Hat; rewrite Ec in Hat; destruct (Hat ltac:(done)) as [?|[]]; [lia|congruence]).
  { exists qb. split; [done|]. split; [done|]. unfold batches. rewrite Hc.
    destruct (flushing qb), (running qb); simpl in *; try done; lia. }
  destruct (running qb) as [|b r2] eqn:Hr.
  - destruct (flushing qb) as [|b f2] eqn:Hfl.
    { exists qb. split; [done|]. split; [done|]. unfold batches. by rewrite Hc, Hr, Hfl. }
    destruct maxWorkers as [|m]; [lia|]. simpl in Hw.
    pose proof (step_execute mergeCtx cfg ids qb [] b f2 m Hfl ltac:(lia)) as Hst.
    pose proof (inv_step _ _ _ Hst Hi) as Hi'.
    destruct (IH _ Hi') as (qb' & Hrt & ?); simpl in *; try done.
    + rewrite Hr. simpl. lia.
    + exists qb'. split; [|done]. by eapply rtc_l.
  - pose proof (step_exported mergeCtx cfg ids qb [] b r2 None Hr) as Hst.
    pose proof (inv_step _ _ _ Hst Hi) as Hi'. simpl in Hst, Hi'.
    match type of Hi' with inv _ (_, callDone ?e ?d ?q) =>
      destruct (callDone_fields e d q) as (E1 & E2 & E3 & E4) end. simpl in *.
    destruct (IH _ Hi') as (qb' & Hrt & ?); rewrite ?E1, ?E2, ?E3, ?E4; simpl in *; try done; [lia|].
    exists qb'. split; [|done]. by eapply rtc_l.
Qed.

Lemma shutdown_inactive (qb : pb) : active (shutdownInternal qb) = false.
Proof. unfold shutdownInternal. by case_match eqn:E. Qed.

Lemma called_once maxWorkers ids (qb : pb) :
  inv maxWorkers (ids, qb) -> batches qb = [] -> forall id, id ∈ ids -> occ id (called qb).*1 = 1.
Proof.
  intros Hi Hb id Hid. destruct (inv_ok _ _ Hi) as [Hc Hids]. simpl in *. specialize (Hids id).
  unfold held in *. rewrite Hb in *. rewrite decide_True in Hids by done. simpl in *.
  rewrite occ_nil in Hids. assert (live_counters id (rcs qb) = 0); [|lia].
  unfold live_counters. rewrite map_empty_filter_2; [by rewrite map_size_empty|].
  intros r rc Hr [_ Hz0]. specialize (Hc r). rewrite Hr, occ_nil in Hc. done.
Qed.

(** C18: whatever the interleaving of Consume, the timer, the flushes, the workers and
    the shutdown, the done callback of a request is called at most once and never for
    a request that was not consumed; from every state reached the shutdown and the
    workers can still bring the batcher to a state without batches, and there every
    request consumed has had its callback called exactly once. *)
Theorem batcher_completes_each_request_once `{!MultiErrLaws} maxWorkers onEmpty now ids qb :
  (0 < maxWorkers)%nat ->
  rtc step (started cfg maxWorkers onEmpty now) (ids, qb) ->
  (forall id, occ id (called qb).*1 <= if decide (id ∈ ids) then 1 else 0) /\
  (batches qb = [] -> forall id, id ∈ ids -> occ id (called qb).*1 = 1) /\
  exists qb', rtc step (ids, qb) (ids, qb') /\ batches qb' = [] /\
    forall id, id ∈ ids -> occ id (called qb').*1 = 1.
Proof.
  intros Hm Hr%inv_reachable. split; [|split].
  - intros id. destruct (inv_ok _ _ Hr) as [_ Hids]. specialize (Hids id). simpl in *.
    pose proof (occ_nonneg (QueueDone id) (held qb)).
    assert (0 <= live_counters id (rcs qb)) by (unfold live_counters; lia). lia.
  - eauto using called_once.
  - pose proof (step_shutdown mergeCtx cfg ids qb) as Hst. pose proof (inv_step _ _ _ Hst Hr) as Hi.
    destruct (drain_flush_calls _ _ _ _ Hi (shutdown_inactive qb) eq_refl) as (q1 & R1 & I1 & A1 & F1).
    destruct (drain_batches _ _ _ _ Hm I1 A1 F1 (Nat.le_refl _)) as (q2 & R2 & I2 & B2).
    exists q2. split; [eapply rtc_l; [exact Hst|by etrans]|]. split; [done|]. eauto using called_once.
Qed.


(** A batch that waits to be filled is never forgotten: a flush is on its way, or
    the batcher is active and its timer, if it has one, is armed; and the workers
    export at most maxWorkers batches at a time. *)
Theorem batcher_attends_current_batch `{!MultiErrLaws} maxWorkers onEmpty now ids qb :
  rtc step (started cfg maxWorkers onEmpty now) (ids, qb) ->
  (currentBatch qb <> None ->
     (0 < flushCalls qb)%nat \/ active qb = true /\ (FlushTimeout cfg > 0 -> armed qb = true)) /\
  (length (running qb) <= maxWorkers)%nat.
Proof.
  intros Hr%inv_reachable. split; [apply (inv_attended _ _ Hr)|].
  pose proof (inv_workers _ _ Hr). simpl in *. lia.
Qed.
(** ** No item is lost *)

Context {I : Type} `{!MergeableLaws T I (Sizer cfg)}.

Definition batch_items (qb : pb) : list I := concat ((fun b => req_items (b_req b)) <$> batches qb).

Lemma batch_items_eq qb : batch_items qb =
  from_option (fun b => req_items (b_req b)) [] (currentBatch qb) ++
  concat ((fun b => req_items (b_req b)) <$> flushing qb) ++
  concat ((fun b => req_items (b_req b)) <$> running qb).
Proof.
  unfold batch_items, batches. rewrite !fmap_app, !concat_app.
  destruct (currentBatch qb); simpl; by rewrite ?app_nil_r.
Qed.

Lemma flush_items b qb : batch_items (flush b qb) ≡ₚ req_items (b_req b) ++ batch_items qb.
Proof. rewrite !batch_items_eq. simpl. flat_perm. Qed.

Lemma flushAll_items ctx done l qb :
  batch_items (flushAll ctx done l qb) ≡ₚ concat (req_items <$> l) ++ batch_items qb.
Proof.
  unfold flushAll. revert qb. induction l as [|r l IH]; intros qb; simpl; [done|].
  rewrite IH, flush_items. simpl. solve_Permutation.
Qed.

Lemma keepLast_items ctx done l (qb qb' : pb) l' :
  keepLast cfg ctx done l qb = (qb', l') -> currentBatch qb = None ->
  batch_items qb' ++ concat (req_items <$> l') ≡ₚ batch_items qb ++ concat (req_items <$> l).
Proof.
  intros E Hc. unfold keepLast in E. destruct (last l) as [r|] eqn:Hl; [|by simplify_eq].
  case_decide; simplify_eq; [|done].
  apply last_Some in Hl as [l0 ->]. rewrite length_app. simpl.
  rewrite take_app_le, take_ge by lia. rewrite fmap_app, concat_app. simpl.
  rewrite !batch_items_eq, Hc. unfold resetTimer. case_decide; simpl; solve_Permutation.
Qed.

(** The error of MergeSplit is told to the callback of the request. *)
Definition told (id : nat) (qb : pb) : Prop :=
  exists d e, (d, Some e) ∈ log qb /\ owner (rcs qb) d = Some id.

Lemma callDone_told e d id (qb : pb) :
  owner (rcs qb) d = Some id -> told id (callDone (Some e) [d] qb).
Proof.
  intros Ho. exists d, e. unfold callDone. simpl. destruct (OnDone (Some e) d (rcs qb)) as [s c] eqn:E. simpl.
  split; [apply elem_of_app; right; by left|]. destruct d as [i|r]; [done|]. simpl in *.
  destruct (rcs qb !! r) as [[dn n e0]|] eqn:Er; simplify_eq/=. by rewrite lookup_insert_eq.
Qed.

Lemma countRefs_items id l err (qb qb' : pb) done :
  l <> [] -> countRefs id l err qb = (qb', done) ->
  currentBatch qb' = currentBatch qb /\ flushing qb' = flushing qb /\ running qb' = running qb /\
  (err <> None -> told id qb').
Proof.
  intros Hl E. unfold countRefs in E. assert (0 < length l)%nat by (destruct l; [done|simpl; lia]).
  destruct err as [e|].
  - rewrite decide_True in E by lia. destruct (newRefCountDone _ _ _) as [s d] eqn:En. simplify_eq.
    unfold newRefCountDone in En. simplify_eq.
    pose proof (callDone_fields (Some e) [RefCount (fresh (dom (rcs qb)))]
      (set_rcs (<[fresh (dom (rcs qb)) := mkRefCountDone id (Z.of_nat (length l) + 1) None]> (rcs qb)) qb))
      as (_ & _ & E3 & E4).
    split; [unfold callDone; by destruct (multiOnDone _ _ _)|]. split; [exact E3|]. split; [exact E4|].
    intros _. apply callDone_told. simpl. by rewrite lookup_insert_eq.
  - case_decide; [|by simplify_eq]. destruct (newRefCountDone _ _ _) as [s d]. by simplify_eq.
Qed.
Lemma keepLast_flushAll_items ctx done l (qb qb1 : pb) l' :
  keepLast cfg ctx done l qb = (qb1, l') -> currentBatch qb = None ->
  batch_items (flushAll ctx done l' qb1) ≡ₚ concat (req_items <$> l) ++ batch_items qb /\
  log (flushAll ctx done l' qb1) = log qb /\ rcs (flushAll ctx done l' qb1) = rcs qb.
Proof.
  intros E Hc. pose proof (keepLast_items _ _ _ _ _ _ E Hc) as Hi.
  apply keepLast_eq in E as (_ & E1 & _ & E3 & _); [|done].
  destruct (flushAll_eq ctx done l' qb1) as (_ & F1 & _ & F3 & _). rewrite F1, F3. split; [|done].
  rewrite flushAll_items, (Permutation_app_comm (concat _)), Hi. apply Permutation_app_comm.
Qed.

(** The request is merged into the current batch. *)
Lemma consume_merge_items now ctx req id (qb qb' : pb) a cb :
  currentBatch qb = Some cb ->
  consumeInternal mergeCtx cfg now ctx req id qb = (qb', a) ->
  exists dropped, batch_items qb' ++ dropped ≡ₚ batch_items qb ++ req_items req /\
    (dropped <> [] -> told id qb').
Proof.
  intros Ecb E. unfold consumeInternal in E.
  change (batch_items qb) with (batch_items (set_lastDataTime now qb)).
  change (active qb) with (active (set_lastDataTime now qb)) in E.
  change (currentBatch qb) with (currentBatch (set_lastDataTime now qb)) in Ecb, E.
  generalize dependent (set_lastDataTime now qb). clear qb. intros qb Ecb E. rewrite Ecb in E.
  pose proof (MergeSplit_items (MaxSize cfg) (Some req) (b_req cb)) as (dr & He & Hi).
  set (r := MergeSplit _ _ _ _) in *. exists dr.
  assert (batch_items qb ++ req_items req ≡ₚ (req_items (b_req cb) ++ req_items req) ++
            concat ((fun b => req_items (b_req b)) <$> flushing qb) ++
            concat ((fun b => req_items (b_req b)) <$> running qb)) as Hqb.
  { rewrite batch_items_eq, Ecb. simpl. solve_Permutation. }
  rewrite Hqb. clear Hqb. simpl in Hi.
  set (qb0 := set_current _ qb) in *.
  destruct (ms_list r) as [|first rest] eqn:El.
  - simplify_eq. destruct Hi as [-> Hi]. split; [|done]. rewrite app_nil_r.
    destruct (callDone_fields (ms_err r) [QueueDone id] qb0) as (_ & _ & E3 & E4).
    rewrite batch_items_eq, E3, E4.
    replace (currentBatch (callDone (ms_err r) [QueueDone id] qb0)) with (currentBatch qb0)
      by (unfold callDone; by destruct (multiOnDone _ _ _)).
    simpl. by rewrite Hi.
  - rewrite <- Hi. simpl.
    destruct (countRefs id (first :: rest) (ms_err r) qb0) as [qb1 done] eqn:E1.
    apply countRefs_items in E1 as (F1 & F2 & F3 & Ht); [|done].
    assert (dr <> [] -> told id qb1) as Htd by (intros Hd; apply Ht; intros ?; by apply Hd, He).
    clear He Ht Hi. case_match eqn:Hb.
    + destruct (keepLast cfg ctx done rest (set_current None qb1)) as [qb2 l] eqn:E2. simplify_eq.
      apply (keepLast_flush _ _ (mkBatch (mergeCtx (b_ctx cb) ctx) first (b_done cb ++ [done]))) in E2.
      destruct (keepLast_flushAll_items _ _ _ _ _ _ E2 eq_refl) as (G1 & G2 & G3).
      unfold told. rewrite G1, G2, G3, flush_items. split; [|exact Htd].
      rewrite batch_items_eq. simpl. rewrite F2, F3. simpl. solve_Permutation.
    + simplify_eq. split; [|exact Htd].
      apply orb_false_iff in Hb as [Hb _]. apply negb_false_iff, Nat.eqb_eq in Hb. destruct rest; [|done].
      rewrite batch_items_eq. simpl. rewrite F2, F3. simpl. solve_Permutation.
Qed.

(** The request starts a batch. *)
Lemma consume_new_items now ctx req id (qb qb' : pb) a :
  currentBatch qb = None ->
  consumeInternal mergeCtx cfg now ctx req id qb = (qb', a) ->
  exists dropped, batch_items qb' ++ dropped ≡ₚ batch_items qb ++ req_items req /\
    (dropped <> [] -> told id qb').
Proof.
  intros Ecb E. unfold consumeInternal in E.
  change (batch_items qb) with (batch_items (set_lastDataTime now qb)).
  change (active qb) with (active (set_lastDataTime now qb)) in E.
  change (currentBatch qb) with (currentBatch (set_lastDataTime now qb)) in Ecb, E.
  generalize dependent (set_lastDataTime now qb). clear qb. intros qb Ecb E. rewrite Ecb in E.
  pose proof (MergeSplit_items (MaxSize cfg) None req) as (dr & He & Hi).
  set (r := MergeSplit _ _ _ _) in *. exists dr.
  destruct (ms_list r) as [|first rest] eqn:El.
  - simplify_eq. simpl in Hi. destruct (callDone_fields (ms_err r) [QueueDone id] qb) as (_ & _ & E3 & E4).
    rewrite !batch_items_eq, E3, E4.
    replace (currentBatch (callDone (ms_err r) [QueueDone id] qb)) with (currentBatch qb)
      by (unfold callDone; by destruct (multiOnDone _ _ _)).
    rewrite app_nil_r in Hi. split; [by rewrite Hi|]. intros Hd. destruct (ms_err r) as [e|]; [|by specialize (He eq_refl)].
    by apply callDone_told.
  - destruct (countRefs id (first :: rest) (ms_err r) qb) as [qb1 done] eqn:E1.
    destruct (keepLast cfg ctx done (first :: rest) qb1) as [qb2 l] eqn:E2. simplify_eq.
    apply countRefs_items in E1 as (F1 & F2 & F3 & Ht); [|done].
    destruct (keepLast_flushAll_items _ _ _ _ _ _ E2 ltac:(congruence)) as (G1 & G2 & G3).
    unfold told. rewrite G1, G2, G3. split.
    + rewrite <- (app_nil_r (req_items req)). change [] with (from_option req_items [] (@None T)). rewrite <- Hi.
      rewrite !batch_items_eq, F1, F2, F3. solve_Permutation.
    + intros Hd. apply Ht. intros ?. by apply Hd, He.
Qed.

End system.

(** * The batcher over the requests of a signal *)

Section signal.
Context {D Szr I : Type} `{SignalItems D Szr I}.

Definition firstExtraction (max : Z) (sz : Szr) (r : request D) : request D :=
  let '(r, s) := size sz r in
  if decide (s > max) then mkRequest (fst (extractData sz (data r) max)) (cachedSize r) else r.

(** The receiver when no request is returned: it was merged, and the first extraction
    took what it could. *)
Definition receiver (max : Z) (szt : SizerType) (r2 : option (request D)) (r : request D) : request D :=
  match sizerOf szt with
  | None => r
  | Some sz =>
      let r := match r2 with Some req2 => snd (mergeTo sz req2 r) | None => r end in
      if decide (max = 0) then r else firstExtraction max sz r
  end.

#[global] Instance request_Mergeable : Mergeable (request D) := {|
  MergeSplit max szt r2 r :=
    match Batch.MergeSplit (Other := Empty_set) max szt (inl <$> r2) r with
    | Some (res, err) => mkMergeResult res err (receiver max szt r2 r)
    | None => mkMergeResult [] None r
    end;
|}.

Lemma split_nothing max sz r err :
  split max sz r = Some ([], err) ->
  items (data (firstExtraction max sz r)) = items (data r).
Proof.
  unfold firstExtraction, split, splitLoop; fold (splitLoop (D := D) (Szr := Szr)).
  destruct (size sz r) as [r1 s] eqn:Es. assert (data r1 = data r) as Hd.
  { unfold size in Es. by case_decide; simplify_eq. }
  case_decide; [|done]. rewrite Hd.
  destruct (extractData sz (data r) max) as [src [ext rm]] eqn:Ee. simpl.
  apply extract_items in Ee. case_decide as Hz0.
  - intros _. rewrite count_items in Hz0. destruct (items ext); [done|]. simpl in Hz0. lia.
  - destruct (size sz (mkRequest src (cachedSize r1))). by destruct (splitLoop _ _ _ _) as [[]|].
Qed.

#[global, program] Instance request_laws szt sz (Hs : sizerOf szt = Some sz) :
  MergeableLaws (request D) I szt := {| req_items r := items (data r) |}.
Next Obligation.
  intros szt sz Hs max r2 r. simpl.
  destruct (BatchLemmas.MergeSplit_items (Other := Empty_set) max szt sz (inl <$> r2) r Hs) as (res & err & dr & E & Hi & He).
  { by destruct r2 as [r2|]. }
  rewrite E. simpl.
  assert (all_items (Other := Empty_set) (inl <$> r2) r =
          items (data r) ++ from_option (fun r => items (data r)) [] r2) as Ha by (by destruct r2).
  rewrite Ha in Hi. assert (err = None -> dr = []) as Hn by (by intros ->).
  destruct res as [|r1 res], r2 as [req2|].
  2-4: exists dr; split; [done|]; by rewrite <- Hi.
  exists []. split; [done|]. split; [done|].
  change (inl <$> Some req2) with (@Some (request D + Empty_set) (inl req2)) in E, Ha.
  rewrite (MergeSplit_eq (Other := Empty_set) max szt sz (Some (inl req2)) r Hs) in E by done.
  simpl in Ha. cbn [from_option]. rewrite <- Ha, <- (merged_items (Other := Empty_set) sz (Some (inl req2)) r).
  cbn [ms_self]. unfold receiver. rewrite Hs. case_decide; [done|]. apply split_nothing in E.
  unfold merged in *. by rewrite E.
Qed.
End signal.

(** ** The partition keys *)

#[local] Arguments String.append !_ _ / : simpl nomatch.

Definition tokens (Get : string -> list string) (keys : list string) : list string :=
  concat ((fun k => match Get k with [] => [] | values => k :: values end) <$> keys).

Definition zero : Ascii.ascii := Ascii.zero.

Fixpoint nul_free (s : string) : Prop :=
  match s with EmptyString => True | String a s => a <> zero /\ nul_free s end.

Fixpoint flat (ts : list string) : string :=
  match ts with [] => "" | t :: ts => String zero (t +:+ flat ts) end.

Lemma string_app_assoc (a b c : string) : (a +:+ b) +:+ c = a +:+ (b +:+ c).
Proof. induction a as [|x a IH]; simpl; [done|]. by rewrite IH. Qed.

Lemma string_app_nil (a : string) : a +:+ "" = a.
Proof. induction a as [|x a IH]; simpl; [done|]. by rewrite IH. Qed.

Lemma flat_app l1 l2 : flat (l1 ++ l2) = flat l1 +:+ flat l2.
Proof. induction l1 as [|t l1 IH]; simpl; [done|]. by rewrite IH, string_app_assoc. Qed.

Lemma foldl_flat kb values :
  foldl (fun kb val => kb +:+ String Ascii.zero EmptyString +:+ val) kb values = kb +:+ flat values.
Proof.
  revert kb. induction values as [|v values IH]; intros kb; simpl; [by rewrite string_app_nil|].
  by rewrite IH, !string_app_assoc.
Qed.

Lemma GetKeyLoop_true Get keys kb : GetKeyLoop Get keys true kb = kb +:+ flat (tokens Get keys).
Proof.
  revert kb. induction keys as [|k keys IH]; intros kb; simpl; [by rewrite string_app_nil|].
  unfold tokens in *. simpl. destruct (Get k) as [|v values]; simpl; [apply IH|].
  rewrite foldl_flat, IH, !flat_app. simpl. by rewrite !string_app_assoc.
Qed.

Lemma GetKey_tokens Get keys :
  GetKey keys Get = match tokens Get keys with [] => "" | t :: ts => t +:+ flat ts end.
Proof.
  unfold GetKey. induction keys as [|k keys IH]; simpl; [done|].
  unfold tokens in *. simpl. destruct (Get k) as [|v values]; simpl; [apply IH|].
  rewrite foldl_flat, GetKeyLoop_true, flat_app. simpl. by rewrite !string_app_assoc.
Qed.

Lemma nul_free_split a b ts us :
  nul_free a -> nul_free b -> a +:+ flat ts = b +:+ flat us -> a = b /\ flat ts = flat us.
Proof.
  revert b. induction a as [|x a IH]; intros [|y b]; simpl.
  - done.
  - intros _ [Hy _] E. destruct ts; simplify_eq/=.
  - intros [Hx _] _ E. destruct us; simplify_eq/=.
  - intros [_ Ha] [_ Hb] [= -> E]. by destruct (IH b Ha Hb E) as [-> ?].
Qed.

Lemma flat_inj ts us : Forall nul_free ts -> Forall nul_free us -> flat ts = flat us -> ts = us.
Proof.
  intros Ht. revert us. induction Ht as [|t ts Ht Hts IH]; intros us Hu; destruct Hu as [|u us Hu Hus]; simpl; try done.
  intros [= E]. destruct (nul_free_split _ _ _ _ Ht Hu E) as [-> E']. f_equal. auto.
Qed.

Lemma tokens_nul_free Get keys :
  Forall nul_free keys -> (forall k, k ∈ keys -> Forall nul_free (Get k)) -> Forall nul_free (tokens Get keys).
Proof.
  intros Hk Hv. apply Forall_forall. intros t. unfold tokens.
  rewrite list_elem_of_In, in_concat. intros (l & Hl & Ht).
  apply list_elem_of_In, list_elem_of_fmap in Hl as (k & -> & Hin). apply list_elem_of_In in Ht.
  specialize (Hv k Hin). rewrite Forall_forall in Hk. destruct (Get k); [by apply elem_of_nil in Ht|].
  apply elem_of_cons in Ht as [->|Ht]; [by apply Hk|]. rewrite Forall_forall in Hv. auto.
Qed.

Lemma tokens_inj Get1 Get2 keys :
  NoDup keys -> (forall k, k ∈ keys -> (length (Get1 k) <= 1 /\ length (Get2 k) <= 1)%nat) ->
  tokens Get1 keys = tokens Get2 keys -> forall k, k ∈ keys -> Get1 k = Get2 k.
Proof.
  assert (forall G ks t ts, tokens G ks = t :: ts -> exists k, k ∈ ks /\ t = k) as Hfirst.
  { intros G ks t ts. unfold tokens. induction ks as [|k ks IH]; simpl; [done|].
    destruct (G k); simpl; [intros (k' & ? & ?)%IH; exists k'; split; [by right|done]|].
    intros [= -> _]. exists t. split; [by left|done]. }
  intros Hnd. induction Hnd as [|k keys Hk Hnd IH]; intros Hl E; [set_solver|].
  destruct (Hl k ltac:(by left)) as [H1 H2].
  assert (Get1 k = Get2 k /\ tokens Get1 keys = tokens Get2 keys) as [Hkk Et].
  { unfold tokens in E. simpl in E.
    destruct (Get1 k) as [|v1 []] eqn:E1, (Get2 k) as [|v2 []] eqn:E2; simpl in *; try lia; try done.
    - destruct (Hfirst _ _ _ _ E) as (k' & ? & ->). done.
    - symmetry in E. destruct (Hfirst _ _ _ _ E) as (k' & ? & ->). done.
    - by simplify_eq. }
  intros k'. rewrite elem_of_cons. intros [->|Hin]; [done|]. apply IH; [|done..].
  intros k'' ?. apply Hl. by right.
Qed.

(** Requests of the same partition agree on the metadata that the keys name, when
    the keys differ and each has at most one value and no key or value holds a zero
    byte. *)
Theorem GetKey_separates Get1 Get2 keys :
  NoDup keys -> Forall nul_free keys ->
  (forall k, k ∈ keys -> (length (Get1 k) <= 1 /\ length (Get2 k) <= 1)%nat /\
     Forall nul_free (Get1 k) /\ Forall nul_free (Get2 k)) ->
  GetKey keys Get1 = GetKey keys Get2 -> forall k, k ∈ keys -> Get1 k = Get2 k.
Proof.
  intros Hnd Hk Hv E. apply tokens_inj; [done|naive_solver|].
  pose proof (tokens_nul_free Get1 keys Hk ltac:(naive_solver)) as F1.
  pose proof (tokens_nul_free Get2 keys Hk ltac:(naive_solver)) as F2.
  rewrite !GetKey_tokens in E.
  assert (forall G t, tokens G keys <> [t]) as Hone.
  { clear. intros G t. unfold tokens. induction keys as [|k keys IH]; simpl; [done|].
    destruct (G k) as [|v l]; simpl; done. }
  pose proof (Hone Get1) as O1. pose proof (Hone Get2) as O2.
  destruct F1 as [|t1 l1 Ht1 F1], F2 as [|t2 l2 Ht2 F2]; [done|..].
  - destruct F2; [by destruct (O2 t2)|]. by destruct t2.
  - destruct F1; [by destruct (O1 t1)|]. by destruct t1.
  - destruct (nul_free_split _ _ _ _ Ht1 Ht2 E) as [-> E']. f_equal. by apply flat_inj.
Qed.

(** With several values of a key the partition key is ambiguous: a client that sends
    the values x, tenant and y of one key shares the partition, and so the batches, of a
    client that sends x for it and y for the key tenant. *)
Theorem GetKey_collides :
  exists keys (Get1 Get2 : string -> list string),
    NoDup keys /\ Forall nul_free keys /\ (forall k, Forall nul_free (Get1 k) /\ Forall nul_free (Get2 k)) /\
    GetKey keys Get1 = GetKey keys Get2 /\ exists k, k ∈ keys /\ Get1 k <> Get2 k.
Proof.
  exists ["user"; "tenant"],
    (fun k => if decide (k = "user") then ["x"; "tenant"; "y"] else []),
    (fun k => if decide (k = "user") then ["x"] else if decide (k = "tenant") then ["y"] else []).
  split; [|split; [|split; [|split]]].
  - repeat constructor; set_solver.
  - repeat constructor; done.
  - intros k. split; repeat case_decide; repeat constructor; done.
  - reflexivity.
  - exists "tenant". split; [set_solver|done].
Qed.

(** * Concrete runs of the batcher *)

#[local] Existing Instance sizedPData.
#[local] Existing Instance sizedPData_laws.
#[local] Existing Instance multierr_first.
#[local] Existing Instance multierr_first_laws.

Definition example_spans (l : list N) : request (@Traces sizedPData) :=
  newRequest (mkTraces [mkResourceSpans (10%N : Resource) "" [mkScopeSpans (3%N : Scope) "v1" l]]).

Definition example_cfg : BatchConfig := mkBatchConfig 200 SizerTypeItems 3 4 [].
Definition first_ctx (c1 c2 : unit) : unit := c1.
Abbreviation batcher := (partitionBatcher unit (request (@Traces sizedPData))).
Abbreviation example_step := (step (Ctx := unit) (T := request (@Traces sizedPData)) first_ctx example_cfg).

(** Four spans are flushed, two wait, and the last four are split over two batches. *)
Definition q0 : batcher := Start example_cfg (PartitionBatcher.newPartitionBatcher 2 false 0).
Definition q1 : batcher := Consume first_ctx example_cfg 1 tt (example_spans [20%N; 30%N; 40%N; 50%N]) 7 q0.
Definition q2 : batcher := Consume first_ctx example_cfg 2 tt (example_spans [21%N; 31%N]) 8 q1.
Definition q3 : batcher := Consume first_ctx example_cfg 3 tt (example_spans [22%N; 32%N; 42%N; 52%N]) 9 q2.
Abbreviation ids3 := [9%nat; 8%nat; 7%nat].

Example three_batches :
  length (flushing q3) = 2%nat /\ is_Some (currentBatch q3) /\
  b_done <$> flushing q3 = [[QueueDone 7]; [QueueDone 8; RefCount 0]].
Proof. vm_compute. eauto. Qed.

Lemma three_consumed : rtc example_step ([], q0) (ids3, q3).
Proof.
  eapply rtc_l; [apply (step_consume first_ctx example_cfg [] q0 1 tt (example_spans [20%N; 30%N; 40%N; 50%N]) 7); set_solver|].
  eapply rtc_l; [apply (step_consume first_ctx example_cfg [7%nat] q1 2 tt (example_spans [21%N; 31%N]) 8); set_solver|].
  apply rtc_once, (step_consume first_ctx example_cfg [8%nat; 7%nat] q2 3 tt (example_spans [22%N; 32%N; 42%N; 52%N]) 9).
  set_solver.
Qed.

Lemma batcher_completes_each_request_once_witness :
  (0 < 2)%nat /\ rtc example_step ([], q0) (ids3, q3) /\
  exists qb', rtc example_step (ids3, q3) (ids3, qb') /\ batches qb' = [] /\
      forall id, id ∈ ids3 -> occ id (called qb').*1 = 1.
Proof.
  split; [lia|]. split; [exact three_consumed|].
  exact (proj2 (proj2 (batcher_completes_each_request_once first_ctx example_cfg 2 false 0 ids3 q3
    (Nat.lt_0_succ 1) three_consumed))).
Defined.

Lemma batcher_attends_current_batch_witness :
  rtc example_step ([], q0) (ids3, q3) /\ currentBatch q3 <> None /\
  ((0 < flushCalls q3)%nat \/ active q3 = true /\ (FlushTimeout example_cfg > 0 -> armed q3 = true)).
Proof.
  assert (currentBatch q3 <> None) as Hc by (vm_compute; discriminate).
  split; [exact three_consumed|]. split; [exact Hc|].
  exact (proj1 (batcher_attends_current_batch first_ctx example_cfg 2 false 0 ids3 q3 three_consumed) Hc).
Defined.

(** A span above the limit: the callback is called at once, with the error. *)
Definition tiny_cfg : BatchConfig := mkBatchConfig 200 SizerTypeBytes 0 10 [].
Definition t0 : batcher := Start tiny_cfg (PartitionBatcher.newPartitionBatcher 2 false 0).
Definition t1 : batcher := Consume first_ctx tiny_cfg 1 tt (example_spans [90%N]) 7 t0.


#[local] Instance example_laws : MergeableLaws (request (@Traces sizedPData)) _ (Sizer example_cfg) :=
  request_laws (D := @Traces sizedPData) SizerTypeItems TracesCountSizer eq_refl.


Lemma validated_config_witness :
  let cfg := mkConfig false SizerTypeItems 100 false None 4 (Some' example_cfg) in
  validated (fun s => s) cfg /\ 0 < snd (NewQueueBatch cfg false) <= 4.
Proof.
  intros cfg.
  assert (validated (fun s => s) cfg) as Hv.
  { split; [reflexivity|]. intros b Hb. injection Hb as <-. split; reflexivity. }
  split; [exact Hv|]. apply (validated_config (fun s => s) cfg false Hv).
Defined.

(** Two clients of one partition that differ in a header the partition does not use. *)
Definition client_x (k : string) : list string := if decide (k = "user") then ["x"] else [].
Definition client_x_eu (k : string) : list string :=
  if decide (k = "user") then ["x"] else if decide (k = "region") then ["eu"] else [].

Lemma GetKey_separates_witness :
  client_x "user" = client_x_eu "user" /\ client_x "region" <> client_x_eu "region".
Proof.
  split; [|done]. apply (GetKey_separates client_x client_x_eu ["user"; "tenant"]).
  - repeat constructor; set_solver.
  - repeat constructor; done.
  - intros k Hk. apply elem_of_cons in Hk as [->|Hk].
    { split_and!; [simpl; lia..| |]; repeat constructor; done. }
    apply list_elem_of_singleton in Hk as ->.
    split_and!; [simpl; lia..| |]; repeat constructor; done.
  - reflexivity.
  - by left.
Defined.
