(* ===== verification/MultiBatcher.v ===== *)
(** * MultiBatcher: exporterhelper/internal/queuebatch/multi_batcher.go

    The batcher with a partition per key: a map of partition batchers in an LRU cache,
    created on demand and removed when they are idle or when there are too many.  The
    partitions share the pool of workers.  [mstep] interleaves the callers of Consume, the
    timers, the workers, the evictions and the shutdown; mb.lock is a field that says who
    holds it and what for.

    The cache is github.com/hashicorp/golang-lru's simplelru, an interface; a partition is a
    number, its place in [pbs].  The field [workers] of a partition counts the tokens it
    would have if it were alone; the shared pool is [pool]. *)

From S2P Require Import Prelude.
From S2P Require Import GoErrors.
From S2P Require Import Request.
From S2P Require Import QueueConfig.
From S2P Require Import PartitionBatcher.
From S2P Require Import PartitionBatcherProofs.
From S2P Require Import PartitionBatcherSystem.

(** ** The cache: its operations, and what its documentation says of them *)

Class LRU := {
  lru : Type;
  NewLRU : N -> lru;
  (** the value of a key, which becomes the most recent one *)
  lru_Get : string -> lru -> option nat * lru;
  (** a new entry, and the oldest one when there are too many *)
  lru_Add : string -> nat -> lru -> lru * option (string * nat);
  lru_Remove : string -> lru -> lru * option nat;
  (** the entries, from the oldest to the newest *)
  lru_entries : lru -> list (string * nat);
}.

Definition without (k : string) (l : list (string * nat)) : list (string * nat) := filter (fun e => e.1 <> k) l.

Class LRULaws `{LRU} := {
  NewLRU_entries n : lru_entries (NewLRU n) = [];
  lru_Get_value k l v : (lru_Get k l).1 = Some v -> (k, v) ∈ lru_entries l;
  lru_Get_none k l : (lru_Get k l).1 = None -> k ∉ (lru_entries l).*1;
  lru_Get_entries k l : lru_entries (lru_Get k l).2 ≡ₚ lru_entries l;
  lru_Add_entries k v l : k ∉ (lru_entries l).*1 ->
    lru_entries (lru_Add k v l).1 ++ option_list (lru_Add k v l).2 ≡ₚ (k, v) :: lru_entries l;
  lru_Remove_entries k l : lru_entries (lru_Remove k l).1 = without k (lru_entries l);
  lru_Remove_value k l v : (lru_Remove k l).2 = Some v -> (k, v) ∈ lru_entries l;
}.

Definition maxActivePartitionsCount : N := 10000.

Section multi.
Context {Ctx T : Type} `{Request T} `{Mergeable T} `{MultiErr} `{LRU}.
Context (mergeCtx : Ctx -> Ctx -> Ctx) (cfg : BatchConfig) (maxWorkers : nat).
(** partitioner.GetKey *)
Context (partitionKey : Ctx -> T -> string).
Abbreviation pb := (partitionBatcher Ctx T).

(** A call of Consume: the partition it was given, the request and its callback. *)
Record call := mkCall { c_pid : nat; c_ctx : Ctx; c_req : T; c_id : nat }.

(** What a goroutine that holds mb.lock waits for: a worker for the shutdown of the evicted
    partition, before it starts a new one and returns it; the partitions whose Shutdown
    still has to begin, and to end; a worker for each entry of the cache. *)
Inductive holder :=
| Evicting (old : nat) (new : option (string * pb * call))
| ShuttingDown (todo waiting : list nat)
| Purging (left : list nat).

(** [calling]: the timer goroutine of the partition has seen that it is idle and unlocked;
    [emptying]: it is in onEmpty, before mb.lock; [shutting] and [draining]: a worker runs
    shutdownInternal, before and after the partition is made inactive; [late]: a call of
    Consume found the partition inactive and is to flush it, which nobody waits for. *)
Record multiBatcher := mkMulti {
  partitions : lru;
  pbs : list pb;
  keys : list string;
  ids : list nat;
  consuming : list call;
  pool : nat;
  lock : option holder;
  calling : list nat;
  emptying : list nat;
  shutting : list nat;
  draining : list nat;
  late : list nat;
}.

Definition newMultiBatcher : multiBatcher :=
  mkMulti (NewLRU maxActivePartitionsCount) [] [] [] [] maxWorkers None [] [] [] [] [].

Definition set_pb (pid : nat) (qb : pb) (m : multiBatcher) : multiBatcher :=
  mkMulti (partitions m) (<[pid := qb]> (pbs m)) (keys m) (ids m) (consuming m) (pool m) (lock m)
    (calling m) (emptying m) (shutting m) (draining m) (late m).
Definition set_partitions (l : lru) (m : multiBatcher) : multiBatcher :=
  mkMulti l (pbs m) (keys m) (ids m) (consuming m) (pool m) (lock m) (calling m) (emptying m) (shutting m) (draining m) (late m).
Definition set_lock (h : option holder) (m : multiBatcher) : multiBatcher :=
  mkMulti (partitions m) (pbs m) (keys m) (ids m) (consuming m) (pool m) h (calling m) (emptying m) (shutting m)
    (draining m) (late m).
Definition set_pool (n : nat) (m : multiBatcher) : multiBatcher :=
  mkMulti (partitions m) (pbs m) (keys m) (ids m) (consuming m) n (lock m) (calling m) (emptying m) (shutting m)
    (draining m) (late m).
Definition set_consuming (l : list call) (m : multiBatcher) : multiBatcher :=
  mkMulti (partitions m) (pbs m) (keys m) (ids m) l (pool m) (lock m) (calling m) (emptying m) (shutting m) (draining m) (late m).
Definition set_waits (c e s d : list nat) (m : multiBatcher) : multiBatcher :=
  mkMulti (partitions m) (pbs m) (keys m) (ids m) (consuming m) (pool m) (lock m) c e s d (late m).
Definition set_late (l : list nat) (m : multiBatcher) : multiBatcher :=
  mkMulti (partitions m) (pbs m) (keys m) (ids m) (consuming m) (pool m) (lock m) (calling m) (emptying m) (shutting m)
    (draining m) l.
Definition add_id (id : nat) (m : multiBatcher) : multiBatcher :=
  mkMulti (partitions m) (pbs m) (keys m) (id :: ids m) (consuming m) (pool m) (lock m) (calling m) (emptying m)
    (shutting m) (draining m) (late m).

(** newPB.Start, and its caller goes on to Consume. *)
Definition startPartition (new : string * pb * call) (m : multiBatcher) : multiBatcher :=
  let '(key, qb, c) := new in
  mkMulti (partitions m) (pbs m ++ [Start cfg qb]) (keys m ++ [key]) (ids m) (c :: consuming m) (pool m) (lock m)
    (calling m) (emptying m) (shutting m) (draining m) (late m).

(** getPartition, up to the end of its critical section or to the wait for a worker. *)
Definition getPartition (now : Z) (ctx : Ctx) (req : T) (id : nat) (m : multiBatcher) : multiBatcher :=
  let key := partitionKey ctx req in
  match lru_Get key (partitions m) with
  | (Some pid, l) => set_consuming (mkCall pid ctx req id :: consuming m) (set_partitions l m)
  | (None, l) =>
      let pid := length (pbs m) in
      let new := (key, newPartitionBatcher maxWorkers true now, mkCall pid ctx req id) in
      let '(l, evicted) := lru_Add key pid l in
      let m := set_partitions l m in
      match evicted with
      | None => startPartition new m
      | Some (_, old) => set_lock (Some (Evicting old (Some new))) m
      end
  end.

(** ** The pieces of a partition's own steps *)

Definition with_flushCalls (n : nat) (qb : pb) : pb :=
  mkPartitionBatcher (currentBatch qb) (armed qb) (hasOnEmpty qb) (lastDataTime qb) (active qb)
    (rcs qb) (flushing qb) (running qb) (workers qb) n (emptied qb) (called qb) (log qb).

(** The timer fires. *)
Definition ticked (qb : pb) : pb :=
  callFlush
    (mkPartitionBatcher (currentBatch qb) false (hasOnEmpty qb) (lastDataTime qb) (active qb)
       (rcs qb) (flushing qb) (running qb) (workers qb) (flushCalls qb) (emptied qb) (called qb) (log qb)).

(** A worker starts on a batch, and is done with it. *)
Definition startedExport (f : list (batch Ctx T)) (b : batch Ctx T) (n : nat) (qb : pb) : pb :=
  mkPartitionBatcher (currentBatch qb) (armed qb) (hasOnEmpty qb) (lastDataTime qb) (active qb)
    (rcs qb) f (b :: running qb) n (flushCalls qb) (emptied qb) (called qb) (log qb).
Definition endedExport (r : list (batch Ctx T)) (b : batch Ctx T) (err : option error) (qb : pb) : pb :=
  callDone err (b_done b)
    (mkPartitionBatcher (currentBatch qb) (armed qb) (hasOnEmpty qb) (lastDataTime qb) (active qb)
       (rcs qb) (flushing qb) r (S (workers qb)) (flushCalls qb) (emptied qb) (called qb) (log qb)).

(** flushCurrentBatchOrRemovePartition finds the partition idle. *)
Definition idle (now : Z) (qb : pb) : bool :=
  bool_decide (currentBatch qb = None) && (partitionIdleCycles * FlushTimeout cfg <=? now - lastDataTime qb) &&
  hasOnEmpty qb.

Definition lates (pid : nat) (m : multiBatcher) : nat := count_occ Nat.eq_dec (late m) pid.

(** stopWG.Wait returns: every batch flushed was exported, and the timer goroutine and the
    shutdown have no flush left; the timer goroutine is not in onEmpty either. *)
Definition quiet (pid : nat) (m : multiBatcher) : Prop :=
  exists qb, pbs m !! pid = Some qb /\ flushCalls qb = lates pid m /\ flushing qb = [] /\ running qb = [] /\
    pid ∉ calling m /\ pid ∉ emptying m.

Inductive mstep : multiBatcher -> multiBatcher -> Prop :=
(* Consume calls getPartition *)
| m_get m now ctx req id :
    lock m = None -> id ∉ ids m -> mstep m (add_id id (getPartition now ctx req id m))
(* the eviction callback: mb.wp.execute(pb.shutdownInternal) *)
| m_evict m old new n :
    lock m = Some (Evicting old new) -> pool m = S n ->
    mstep m (from_option startPartition id new
      (set_lock None (set_pool n (set_waits (calling m) (emptying m) (old :: shutting m) (draining m) m))))
(* shard.Consume *)
| m_consume m l1 c l2 now qb :
    consuming m = l1 ++ c :: l2 -> pbs m !! c_pid c = Some qb ->
    mstep m (set_late (if active qb then late m else c_pid c :: late m)
      (set_pb (c_pid c) (Consume mergeCtx cfg now (c_ctx c) (c_req c) (c_id c) qb) (set_consuming (l1 ++ l2) m)))
(* the timer goroutine takes the tick: it is not in onEmpty *)
| m_tick m pid qb :
    pbs m !! pid = Some qb -> armed qb = true -> pid ∉ calling m -> pid ∉ emptying m -> mstep m (set_pb pid (ticked qb) m)
| m_flush_call m pid qb n now :
    pbs m !! pid = Some qb -> flushCalls qb = S n -> (lates pid m <= n)%nat -> idle now qb = false ->
    mstep m (set_pb pid (flushCurrentBatchOrRemovePartition cfg (bool_decide (FlushTimeout cfg > 0)) now
                           (with_flushCalls n qb)) m)
| m_late_flush m l1 pid l2 qb n now :
    late m = l1 ++ pid :: l2 -> pbs m !! pid = Some qb -> flushCalls qb = S n ->
    mstep m (set_late (l1 ++ l2)
      (set_pb pid (flushCurrentBatchOrRemovePartition cfg (bool_decide (FlushTimeout cfg > 0)) now
                     (with_flushCalls n qb)) m))
| m_idle m pid qb n now :
    pbs m !! pid = Some qb -> flushCalls qb = S n -> (lates pid m <= n)%nat -> idle now qb = true ->
    mstep m (set_waits (pid :: calling m) (emptying m) (shutting m) (draining m)
      (set_pb pid (flushCurrentBatchOrRemovePartition cfg (bool_decide (FlushTimeout cfg > 0)) now
                     (with_flushCalls n qb)) m))
(* qb.onEmpty(), read again after the unlock: the call of a nil function would panic *)
| m_onEmpty m l1 pid l2 qb :
    calling m = l1 ++ pid :: l2 -> pbs m !! pid = Some qb -> hasOnEmpty qb = true ->
    mstep m (set_waits (l1 ++ l2) (pid :: emptying m) (shutting m) (draining m) m)
| m_remove m l1 pid l2 key :
    emptying m = l1 ++ pid :: l2 -> lock m = None -> keys m !! pid = Some key ->
    mstep m (let '(l, removed) := lru_Remove key (partitions m) in
             set_lock ((fun old => Evicting old None) <$> removed)
               (set_partitions l (set_waits (calling m) (l1 ++ l2) (shutting m) (draining m) m)))
(* a token of the pool and a batch that waits for it *)
| m_execute m pid qb f1 b f2 n k :
    pbs m !! pid = Some qb -> flushing qb = f1 ++ b :: f2 -> workers qb = S k -> pool m = S n ->
    mstep m (set_pool n (set_pb pid (startedExport (f1 ++ f2) b k qb) m))
| m_exported m pid qb r1 b r2 err :
    pbs m !! pid = Some qb -> running qb = r1 ++ b :: r2 ->
    mstep m (set_pool (S (pool m)) (set_pb pid (endedExport (r1 ++ r2) b err qb) m))
(* a worker runs shutdownInternal of an evicted partition *)
| m_shut m s1 pid s2 qb :
    shutting m = s1 ++ pid :: s2 -> pbs m !! pid = Some qb ->
    mstep m (if active qb then
               set_waits (calling m) (emptying m) (s1 ++ s2) (pid :: draining m) (set_pb pid (shutdownInternal qb) m)
             else set_pool (S (pool m)) (set_waits (calling m) (emptying m) (s1 ++ s2) (draining m) m))
| m_release m d1 pid d2 :
    draining m = d1 ++ pid :: d2 -> quiet pid m ->
    mstep m (set_pool (S (pool m)) (set_waits (calling m) (emptying m) (shutting m) (d1 ++ d2) m))
(* Shutdown: a goroutine per partition, then Purge, all under the lock *)
| m_Shutdown m :
    lock m = None -> mstep m (set_lock (Some (ShuttingDown (lru_entries (partitions m)).*2 [])) m)
| m_stop m t1 pid t2 w qb :
    lock m = Some (ShuttingDown (t1 ++ pid :: t2) w) -> pbs m !! pid = Some qb ->
    mstep m (set_lock (Some (ShuttingDown (t1 ++ t2) (if active qb then pid :: w else w)))
               (set_pb pid (shutdownInternal qb) m))
| m_stopped m w1 pid w2 t :
    lock m = Some (ShuttingDown t (w1 ++ pid :: w2)) -> quiet pid m ->
    mstep m (set_lock (Some (ShuttingDown t (w1 ++ w2))) m)
| m_purge m :
    lock m = Some (ShuttingDown [] []) ->
    mstep m (set_partitions (NewLRU maxActivePartitionsCount)
               (set_lock (Some (Purging (lru_entries (partitions m)).*2)) m))
| m_purge_next m l1 pid l2 n :
    lock m = Some (Purging (l1 ++ pid :: l2)) -> pool m = S n ->
    mstep m (set_lock (Some (Purging (l1 ++ l2))) (set_pool n (set_waits (calling m) (emptying m) (pid :: shutting m) (draining m) m)))
| m_purged m :
    lock m = Some (Purging []) -> mstep m (set_lock None m).

(** A partition whose timer goroutine is about to call an onEmpty that was set to nil. *)
Definition nil_call (m : multiBatcher) : Prop :=
  exists pid qb, pid ∈ calling m /\ pbs m !! pid = Some qb /\ hasOnEmpty qb = false.
End multi.
