(* ===== verification/MultiBatcherProofs.v ===== *)
(** * MultiBatcherProofs: the partitions of the multi batcher

    Every partition goes through the states of a partition batcher of its own, requests
    reach the partition of their key, and the tokens of the pool are all accounted for.
    Then the ways in which the evictions and the shutdown block for ever. *)

From S2P Require Import Prelude.
From S2P Require Import GoErrors.
From S2P Require Import PData.
From S2P Require Import Batch.
From S2P Require Import TracesBatch.
From S2P Require Import Request.
From S2P Require Import QueueConfig.
From S2P Require Import BatchLemmas.
From S2P Require Import PartitionBatcher.
From S2P Require Import PartitionBatcherProofs.
From S2P Require Import PartitionBatcherSystem.
From S2P Require Import MultiBatcher.

(** ** Lists with one element changed *)

Lemma concat_grow {A} (L : list (list A)) i l x :
  L !! i = Some l -> concat (<[i := x :: l]> L) ≡ₚ x :: concat L.
Proof.
  revert i. induction L as [|l0 L IH]; intros [|i] Hi; simplify_eq/=; [done|]. rewrite IH by done. solve_Permutation.
Qed.

Lemma sum_of_update {A} (f : A -> Z) l i x y :
  l !! i = Some x -> sum_of f (<[i := y]> l) = sum_of f l - f x + f y.
Proof.
  revert i. induction l as [|z l IH]; intros [|i] Hi; simplify_eq/=; [lia|]. rewrite IH by done. lia.
Qed.

Lemma sum_of_lookup {A} (f : A -> Z) l i x : (forall a, 0 <= f a) -> l !! i = Some x -> f x <= sum_of f l.
Proof.
  intros Hf. revert i. induction l as [|y l IH]; intros [|i] Hi; simplify_eq/=.
  - pose proof (sum_of_nonneg f l Hf). lia.
  - pose proof (IH _ Hi). specialize (Hf y). lia.
Qed.

Section multi.
Context {Ctx T : Type} `{Request T} `{Mergeable T} `{MultiErr} `{!MultiErrLaws} `{LRU} `{!LRULaws}.
Context (mergeCtx : Ctx -> Ctx -> Ctx) (cfg : BatchConfig) (maxWorkers : nat).
Context (partitionKey : Ctx -> T -> string).
Abbreviation pb := (partitionBatcher Ctx T).
Abbreviation multi := (@multiBatcher Ctx T _).
Abbreviation mstep := (mstep mergeCtx cfg maxWorkers partitionKey).
Abbreviation pstep := (step mergeCtx cfg).
Abbreviation initial := (newMultiBatcher (Ctx := Ctx) (T := T) maxWorkers).

(** ** Every partition is a partition batcher *)

(** What a partition batcher with a pool of its own goes through, for the callbacks [l]. *)
Definition run (qb : pb) (l : list nat) : Prop :=
  exists now, rtc pstep (started cfg maxWorkers true now) (l, qb).

Lemma run_step qb l qb' l' : run qb l -> pstep (l, qb) (l', qb') -> run qb' l'.
Proof. intros [now R] S. exists now. by eapply rtc_r. Qed.

(** The call that waits for an eviction. *)
Definition pending (m : multi) : list (string * pb * call) :=
  match lock m with Some (Evicting _ (Some new)) => [new] | _ => [] end.

Definition waiting_ids (m : multi) : list nat :=
  (c_id <$> consuming m) ++ ((fun new => c_id new.2) <$> pending m).

Record parts (m : multi) (L : list (list nat)) : Prop := {
  parts_runs : Forall2 run (pbs m) L;
  parts_ids : concat L ++ waiting_ids m ≡ₚ ids m;
  parts_nodup : NoDup (ids m);
  parts_new : forall new, new ∈ pending m -> exists now, new.1.2 = newPartitionBatcher maxWorkers true now;
}.

Lemma parts_initial : parts initial [].
Proof. split; try done; [constructor|]. intros new. by rewrite list_elem_of_In. Qed.

(** A step of one partition that calls no Consume. *)
Lemma parts_update m L pid qb qb' :
  parts m L -> pbs m !! pid = Some qb -> (forall l, pstep (l, qb) (l, qb')) ->
  Forall2 run (<[pid := qb']> (pbs m)) L.
Proof.
  intros [R _ _ _] Hq S. destruct (Forall2_lookup_l _ _ _ _ _ R Hq) as (l & Hl & Hr).
  rewrite <- (list_insert_id L pid l Hl). apply Forall2_insert; [done|]. by eapply run_step.
Qed.

Lemma shutdown_pstep l (qb : pb) : pstep (l, qb) (l, shutdownInternal qb).
Proof. apply step_shutdown. Qed.

Lemma flush_call_pstep l (qb : pb) n now :
  flushCalls qb = S n ->
  pstep (l, qb) (l, flushCurrentBatchOrRemovePartition cfg (bool_decide (FlushTimeout cfg > 0)) now (with_flushCalls n qb)).
Proof. apply step_flush_call. Qed.

(** A run as a list with one more id for a call of Consume. *)
Lemma parts_consume m L l1 c l2 now qb :
  parts m L -> consuming m = l1 ++ c :: l2 -> pbs m !! c_pid c = Some qb ->
  exists L', parts (set_late (if active qb then late m else c_pid c :: late m)
    (set_pb (c_pid c) (Consume mergeCtx cfg now (c_ctx c) (c_req c) (c_id c) qb) (set_consuming (l1 ++ l2) m))) L'.
Proof.
  intros [R P N New] Hc Hq. destruct (Forall2_lookup_l _ _ _ _ _ R Hq) as (l & Hl & Hr).
  exists (<[c_pid c := c_id c :: l]> L). unfold waiting_ids in P. rewrite Hc, fmap_app, fmap_cons in P.
  assert (c_id c ∉ l) as Hid.
  { intros Hin. rewrite <- P in N. apply NoDup_app in N as (_ & D & _). apply (D (c_id c)).
    - apply list_elem_of_In, in_concat. exists l. split; apply list_elem_of_In; [by eapply list_elem_of_lookup_2|done].
    - set_solver. }
  split; simpl; [|..|done|done].
  - apply Forall2_insert; [done|]. eapply run_step; [done|]. by apply step_consume.
  - unfold waiting_ids, pending. simpl. rewrite concat_grow by done. rewrite <- P, fmap_app. unfold pending. solve_Permutation.
Qed.

(** A new partition has had no request yet. *)
Lemma parts_start m L key qb c :
  Forall2 run (pbs m) L -> (exists now, qb = newPartitionBatcher maxWorkers true now) ->
  Forall2 run (pbs (startPartition cfg (key, qb, c) m)) (L ++ [[]]).
Proof.
  intros R [now ->]. apply Forall2_app; [done|]. constructor; [|constructor]. exists now. apply rtc_refl.
Qed.

Lemma concat_snoc_nil {A} (L : list (list A)) : concat (L ++ [[]]) = concat L.
Proof. rewrite concat_app. simpl. by rewrite !app_nil_r. Qed.

Lemma parts_get m L now ctx req id :
  parts m L -> lock m = None -> id ∉ ids m ->
  exists L', parts (add_id id (getPartition cfg maxWorkers partitionKey now ctx req id m)) L'.
Proof.
  intros [R P N New] Hlock Hid. unfold waiting_ids, pending in *. rewrite Hlock in *. unfold getPartition.
  destruct (lru_Get _ _) as [[pid|] l]; [|destruct (lru_Add _ _ _) as [l' [[k old]|]]].
  - exists L. split; unfold waiting_ids, pending; simpl; rewrite ?Hlock; simpl in *;
      [done|rewrite <- P; solve_Permutation|by constructor|done].
  - exists L. split; unfold waiting_ids, pending; simpl; [done|simpl in P; rewrite <- P; solve_Permutation|by constructor|].
    intros new ->%list_elem_of_singleton. by exists now.
  - exists (L ++ [[]]). split; unfold waiting_ids, pending; simpl; rewrite ?Hlock; simpl in *; [| |by constructor|done].
    + apply Forall2_app; [done|]. constructor; [|constructor]. exists now. apply rtc_refl.
    + rewrite concat_snoc_nil, <- P. solve_Permutation.
Qed.

(** A step that changes neither the partitions nor the calls. *)
Lemma parts_same (m m' : multi) L :
  parts m L -> pbs m' = pbs m -> ids m' = ids m -> consuming m' = consuming m -> pending m' = pending m -> parts m' L.
Proof. intros [R P N New] E1 E2 E3 E4. split; unfold waiting_ids in *; rewrite ?E1, ?E2, ?E3, ?E4; done. Qed.

Lemma parts_one (m m' : multi) L pid qb qb' :
  parts m L -> pbs m !! pid = Some qb -> (forall l, pstep (l, qb) (l, qb')) ->
  pbs m' = <[pid := qb']> (pbs m) -> ids m' = ids m -> consuming m' = consuming m -> pending m' = pending m -> parts m' L.
Proof.
  intros HP Hq S E1 E2 E3 E4. pose proof (parts_update _ _ _ _ _ HP Hq S). destruct HP as [R P N New].
  split; unfold waiting_ids in *; rewrite ?E1, ?E2, ?E3, ?E4; done.
Qed.

Lemma parts_step m m' L : parts m L -> mstep m m' -> exists L', parts m' L'.
Proof.
  intros HP St. destruct St as [m now ctx req id Hlock Hid|m old new n Hlock Hpool|m l1 c l2 now qb Hc Hq|m pid qb Hq Ha Hnc Hne
    |m pid qb n now Hq Hn Hla Hi|m l1 pid l2 qb n now Hla Hq Hn|m pid qb n now Hq Hn Hla Hi|m l1 pid l2 qb Hc Hq Ho|m l1 pid l2 key He Hlock Hk
    |m pid qb f1 b f2 n k Hq Hf Hw Hpool|m pid qb r1 b r2 err Hq Hr|m s1 pid s2 qb Hs Hq|m d1 pid d2 Hd Hquiet
    |m Hlock|m t1 pid t2 w qb Hlock Hq|m w1 pid w2 t Hlock Hquiet|m Hlock|m l1 pid l2 n Hlock Hpool|m Hlock].
  - by eapply parts_get.
  - destruct HP as [R P N New]. unfold waiting_ids, pending in *. rewrite Hlock in *.
    destruct new as [[[key qb] c]|]; simpl in *.
    + exists (L ++ [[]]). split; unfold waiting_ids, pending; simpl; [| |done|by intros new ?%elem_of_nil].
      * apply Forall2_app; [done|]. destruct (New (key, qb, c) ltac:(by apply list_elem_of_singleton)) as [now Hnew].
        simpl in Hnew. subst qb. constructor; [|constructor]. exists now. apply rtc_refl.
      * rewrite concat_snoc_nil, <- P. solve_Permutation.
    + exists L. split; unfold waiting_ids, pending; simpl; [done| |done|by intros new ?%elem_of_nil].
      by rewrite <- P.
  - by eapply parts_consume.
  - exists L. by eapply (parts_one m _ L pid qb (ticked qb)); [..|intros l; apply step_timer| | | |].
  - exists L. by eapply (parts_one m _ L pid qb _); [..|intros l; apply flush_call_pstep| | | |].
  - exists L. by eapply (parts_one m _ L pid qb _); [..|intros l; apply flush_call_pstep| | | |].
  - exists L. by eapply (parts_one m _ L pid qb _); [..|intros l; apply flush_call_pstep| | | |].
  - exists L. by eapply parts_same.
  - exists L. destruct (lru_Remove _ _) as [l [old|]]; (eapply parts_same; [done..|]); unfold pending; simpl; by rewrite Hlock.
  - exists L. eapply (parts_one m _ L pid qb _ HP Hq); [intros l; by eapply step_execute|done..].
  - exists L. eapply (parts_one m _ L pid qb _ HP Hq); [intros l; by eapply step_exported|done..].
  - exists L. destruct (active qb); [|by eapply parts_same].
    eapply (parts_one m _ L pid qb _ HP Hq); [intros l; apply shutdown_pstep|done..].
  - exists L. by eapply parts_same.
  - exists L. eapply parts_same; [done..|]. unfold pending. simpl. by rewrite Hlock.
  - exists L. eapply (parts_one m _ L pid qb _ HP Hq); [intros l; apply shutdown_pstep|done..|].
    unfold pending. simpl. by rewrite Hlock.
  - exists L. eapply parts_same; [done..|]. unfold pending. simpl. by rewrite Hlock.
  - exists L. eapply parts_same; [done..|]. unfold pending. simpl. by rewrite Hlock.
  - exists L. eapply parts_same; [done..|]. unfold pending. simpl. by rewrite Hlock.
  - exists L. eapply parts_same; [done..|]. unfold pending. simpl. by rewrite Hlock.
Qed.

Lemma parts_reachable m : rtc mstep initial m -> exists L, parts m L.
Proof.
  intros R. remember initial as m0 eqn:E. assert (exists L, parts m0 L) as HP by (subst; exists []; apply parts_initial).
  clear E. induction R as [|m0 m1 m2 St _ IH]; [done|]. apply IH. destruct HP as [L HP]. by eapply parts_step.
Qed.


(** ** The shared pool *)

Definition exporting (m : multi) : Z := sum_of (fun qb => Z.of_nat (length (running qb))) (pbs m).

(** Every token is in the pool, with a batch that is exported, or with a worker that shuts
    a partition down. *)
Definition tokens (m : multi) : Prop :=
  Z.of_nat (pool m) + exporting m + Z.of_nat (length (shutting m)) + Z.of_nat (length (draining m)) = Z.of_nat maxWorkers.

Lemma exporting_snoc qb l : running qb = [] ->
  sum_of (fun qb : pb => Z.of_nat (length (running qb))) (l ++ [qb]) =
  sum_of (fun qb : pb => Z.of_nat (length (running qb))) l.
Proof. intros E. rewrite sum_of_app. simpl. rewrite E. simpl. lia. Qed.

(** ** What a partition does without a worker: batches are flushed, none is exported *)

Definition grows (q1 q2 : pb) : Prop := running q2 = running q1 /\ flushing q1 `prefix_of` flushing q2.

#[local] Instance grows_preorder : PreOrder grows.
Proof. split; [done|]. intros q1 q2 q3 [E1 P1] [E2 P2]. split; [congruence|]. by etrans. Qed.

Lemma grows_callDone err d q : grows q (callDone err d q).
Proof. unfold callDone. by destruct (multiOnDone _ _ _). Qed.

Lemma grows_resetTimer q : grows q (resetTimer cfg q).
Proof. unfold resetTimer. by case_decide. Qed.

Lemma grows_flush b q : grows q (flush b q).
Proof. split; [done|]. by apply prefix_app_r. Qed.

Lemma grows_flushAll ctx d l q : grows q (flushAll ctx d l q).
Proof. unfold flushAll. revert q. induction l as [|r l IH]; intros q; simpl; [done|]. by etrans; [apply grows_flush|]. Qed.

Lemma grows_countRefs id l err q : grows q (countRefs id l err q).1.
Proof.
  unfold countRefs. case_decide; [|done]. destruct (newRefCountDone _ _ _) as [s d].
  destruct err; [|done]. apply (grows_callDone _ _ (set_rcs s q)).
Qed.

Lemma grows_keepLast ctx d l q : grows q (keepLast cfg ctx d l q).1.
Proof. unfold keepLast. destruct (last l); [|done]. case_decide; [|done]. apply (grows_resetTimer (set_current _ q)). Qed.

Lemma grows_consumeInternal now ctx req id q : grows q (consumeInternal mergeCtx cfg now ctx req id q).1.
Proof.
  unfold consumeInternal. trans (set_lastDataTime now q); [done|].
  generalize (active q), (set_lastDataTime now q). clear q. intros a q.
  destruct (currentBatch q) as [cb|]; set (r := MergeSplit _ _ _ _); simpl; [set (q0 := set_current _ q); trans q0; [done|]|].
  - destruct (ms_list r) as [|first rest]; [apply grows_callDone|].
    pose proof (grows_countRefs id (first :: rest) (ms_err r) q0) as G1.
    destruct (countRefs _ _ _ q0) as [q1 d]. simpl in G1. trans q1; [done|].
    set (cb' := mkBatch _ _ _). destruct (_ || _); [|done].
    pose proof (grows_keepLast ctx d rest (set_current None q1)) as G2. destruct (keepLast _ _ _ _ _) as [q2 l]. simpl in *.
    trans (set_current None q1); [done|]. etrans; [exact G2|]. etrans; [apply grows_flush|apply grows_flushAll].
  - destruct (ms_list r) as [|first rest]; [apply grows_callDone|].
    pose proof (grows_countRefs id (first :: rest) (ms_err r) q) as G1.
    destruct (countRefs _ _ _ q) as [q1 d]. simpl in G1. trans q1; [done|].
    pose proof (grows_keepLast ctx d (first :: rest) q1) as G2. destruct (keepLast _ _ _ _ _) as [q2 l]. simpl in *.
    etrans; [exact G2|]. apply grows_flushAll.
Qed.

Lemma grows_Consume now ctx req id q : grows q (Consume mergeCtx cfg now ctx req id q).
Proof.
  unfold Consume. pose proof (grows_consumeInternal now ctx req id q) as G.
  destruct (consumeInternal _ _ _ _ _ _ _) as [q' a]. by destruct a.
Qed.

Lemma grows_flush_call now n q :
  grows q (flushCurrentBatchOrRemovePartition cfg (bool_decide (FlushTimeout cfg > 0)) now (with_flushCalls n q)).
Proof.
  unfold flushCurrentBatchOrRemovePartition. simpl. destruct (currentBatch q) as [b|].
  - etrans; [|apply grows_flush]. by etrans; [|apply grows_resetTimer].
  - destruct (_ && _); [done|]. case_match; [|done]. by etrans; [|apply grows_resetTimer].
Qed.

Lemma grows_shutdown q : grows q (shutdownInternal q).
Proof. unfold shutdownInternal. by destruct (active q). Qed.

(** ** Every token is accounted for *)

Lemma exporting_grows (m m' : multi) pid qb qb' :
  pbs m !! pid = Some qb -> grows qb qb' -> pbs m' = <[pid := qb']> (pbs m) -> exporting m' = exporting m.
Proof.
  intros Hq [E _] Ep. unfold exporting. rewrite Ep, (sum_of_update _ _ _ _ _ Hq), E. lia.
Qed.

Lemma tokens_same (m m' : multi) :
  tokens m -> exporting m' = exporting m ->
  (pool m' + length (shutting m') + length (draining m') = pool m + length (shutting m) + length (draining m))%nat ->
  tokens m'.
Proof. unfold tokens. lia. Qed.

Lemma tokens_get (m : multi) now ctx req id :
  tokens m -> tokens (add_id id (getPartition cfg maxWorkers partitionKey now ctx req id m)).
Proof.
  intros Tm. eapply tokens_same; [exact Tm|..]; unfold getPartition;
    (destruct (lru_Get _ _) as [[pid|] l]; [|destruct (lru_Add _ _ _) as [l' [[k old]|]]]); simpl; try done.
  by apply exporting_snoc.
Qed.

Lemma tokens_step m m' L : parts m L -> tokens m -> mstep m m' -> tokens m'.
Proof.
  intros HP Tm St. destruct St as [m now ctx req id Hlock Hid|m old new n Hlock Hpool|m l1 c l2 now qb Hc Hq|m pid qb Hq Ha Hnc Hne
    |m pid qb n now Hq Hn Hla Hi|m l1 pid l2 qb n now Hla Hq Hn|m pid qb n now Hq Hn Hla Hi|m l1 pid l2 qb Hc Hq Ho|m l1 pid l2 key He Hlock Hk
    |m pid qb f1 b f2 n k Hq Hf Hw Hpool|m pid qb r1 b r2 err Hq Hr|m s1 pid s2 qb Hs Hq|m d1 pid d2 Hd Hquiet
    |m Hlock|m t1 pid t2 w qb Hlock Hq|m w1 pid w2 t Hlock Hquiet|m Hlock|m l1 pid l2 n Hlock Hpool|m Hlock].
  - by apply tokens_get.
  - eapply tokens_same; [exact Tm|..]; destruct new as [[[key qb] c]|]; simpl; rewrite ?Hpool; try lia; [|done].
    apply exporting_snoc. destruct (parts_new _ _ HP (key, qb, c)) as [now E]; [|simpl in E; by subst qb].
    unfold pending. rewrite Hlock. by apply list_elem_of_singleton.
  - eapply tokens_same; [exact Tm| |done]. by eapply exporting_grows; [..|apply grows_Consume|].
  - eapply tokens_same; [exact Tm| |done]. by eapply (exporting_grows m _ pid qb (ticked qb)).
  - eapply tokens_same; [exact Tm| |done]. by eapply exporting_grows; [..|apply grows_flush_call|].
  - eapply tokens_same; [exact Tm| |done]. by eapply exporting_grows; [..|apply grows_flush_call|].
  - eapply tokens_same; [exact Tm| |done]. by eapply exporting_grows; [..|apply grows_flush_call|].
  - by eapply tokens_same.
  - destruct (lru_Remove _ _). by eapply tokens_same.
  - unfold tokens, exporting in *. simpl. rewrite (sum_of_update _ _ _ _ _ Hq). simpl. lia.
  - unfold tokens, exporting in *. simpl. rewrite (sum_of_update _ _ _ _ _ Hq).
    destruct (grows_callDone err (b_done b) (mkPartitionBatcher (currentBatch qb) (armed qb) (hasOnEmpty qb) (lastDataTime qb)
      (active qb) (rcs qb) (flushing qb) (r1 ++ r2) (S (workers qb)) (flushCalls qb) (emptied qb) (called qb) (log qb))) as [E _].
    unfold endedExport. rewrite E, Hr. simpl. rewrite !length_app. simpl. lia.
  - eapply tokens_same; [exact Tm|..]; destruct (active qb); simpl; rewrite ?Hs, ?length_app; simpl; try lia; [|done].
    by eapply exporting_grows; [..|apply grows_shutdown|].
  - eapply tokens_same; [exact Tm|done|]. simpl. rewrite Hd, !length_app. simpl. lia.
  - by eapply tokens_same.
  - eapply tokens_same; [exact Tm| |done]. by eapply exporting_grows; [..|apply grows_shutdown|].
  - by eapply tokens_same.
  - by eapply tokens_same.
  - eapply tokens_same; [exact Tm|done|]. simpl. lia.
  - by eapply tokens_same.
Qed.

Lemma tokens_reachable m : rtc mstep initial m -> exists L, parts m L /\ tokens m.
Proof.
  intros R. remember initial as m0 eqn:E. assert (exists L, parts m0 L /\ tokens m0) as HP.
  { subst. exists []. split; [apply parts_initial|]. unfold tokens, exporting. simpl. lia. }
  clear E. induction R as [|m0 m1 m2 St _ IH]; [done|]. apply IH. destruct HP as (L & HP & Tm).
  destruct (parts_step _ _ _ HP St) as [L' HP']. exists L'. split; [done|]. exact (tokens_step _ _ _ HP Tm St).
Qed.

(** The partitions share the workers: the batches exported and the partitions that a worker
    shuts down are at most maxWorkers together, and a partition with a batch to export
    waits for the pool only, never for a token of its own. *)
Theorem partitions_share_the_workers m :
  rtc mstep initial m ->
  sum_of (fun qb => Z.of_nat (length (running qb))) (pbs m) + Z.of_nat (length (draining m)) <= Z.of_nat maxWorkers /\
  forall pid qb, pbs m !! pid = Some qb -> (0 < pool m)%nat -> (0 < workers qb)%nat.
Proof.
  intros R. destruct (tokens_reachable _ R) as (L & HP & Tm). unfold tokens, exporting in Tm. split; [lia|].
  intros pid qb Hq Hpool. destruct (Forall2_lookup_l _ _ _ _ _ (parts_runs _ _ HP) Hq) as (l & _ & now & Hr).
  pose proof (inv_workers _ _ _ (inv_reachable _ _ _ _ _ _ Hr)) as Hw. simpl in Hw.
  assert (forall q : pb, 0 <= Z.of_nat (length (running q))) as Hp by lia.
  pose proof (sum_of_lookup _ _ _ _ Hp Hq). simpl in *. lia.
Qed.

(** ** Requests reach the partition of their key *)

(** The keys of the partitions and the calls of Consume, with the partition that waits for
    an eviction before it starts. *)
Definition all_keys (m : multi) : list string := keys m ++ ((fun new => new.1.1) <$> pending m).
Definition all_calls (m : multi) : list call := consuming m ++ (snd <$> pending m).

Record routed (m : multi) : Prop := {
  routed_length : length (keys m) = length (pbs m);
  routed_entries : forall k pid, (k, pid) ∈ lru_entries (partitions m) -> all_keys m !! pid = Some k;
  routed_nodup : NoDup (lru_entries (partitions m)).*1;
  routed_calls : forall c, c ∈ all_calls m -> all_keys m !! c_pid c = Some (partitionKey (c_ctx c) (c_req c));
}.

Lemma routed_same (m m' : multi) :
  routed m -> length (keys m') = length (pbs m') -> all_keys m' = all_keys m ->
  (forall c, c ∈ all_calls m' -> c ∈ all_calls m) ->
  lru_entries (partitions m') ⊆+ lru_entries (partitions m) -> routed m'.
Proof.
  intros [L E N C] El Ek Ec Es. split; [done|..].
  - intros k pid Hin. rewrite Ek. apply E. by eapply elem_of_submseteq.
  - apply submseteq_Permutation in Es as [k Hk]. rewrite Hk, fmap_app in N. by apply NoDup_app in N as [? _].
  - intros c Hc. rewrite Ek. by apply C, Ec.
Qed.

(** The operations of the cache only lose entries. *)
Lemma Remove_entries_submseteq k l : lru_entries (lru_Remove k l).1 ⊆+ lru_entries l.
Proof. rewrite lru_Remove_entries. apply sublist_submseteq, sublist_filter. Qed.

Lemma no_pending (m : multi) : lock m = None -> all_keys m = keys m /\ all_calls m = consuming m.
Proof. intros E. unfold all_keys, all_calls, pending. rewrite E. simpl. by rewrite !app_nil_r. Qed.

Lemma all_keys_get (m : multi) (L : length (keys m) = length (pbs m)) key :
  (keys m ++ [key]) !! length (pbs m) = Some key.
Proof. rewrite <- L. by apply list_lookup_middle. Qed.

Lemma routed_add (m m' : multi) key c :
  routed m -> lock m = None -> key ∉ (lru_entries (partitions m)).*1 ->
  length (keys m') = length (pbs m') -> all_keys m' = keys m ++ [key] -> all_calls m' ≡ₚ c :: consuming m ->
  c_pid c = length (pbs m) -> key = partitionKey (c_ctx c) (c_req c) ->
  lru_entries (partitions m') ⊆+ (key, length (pbs m)) :: lru_entries (partitions m) -> routed m'.
Proof.
  intros [L E N C] Hlock Hk L' Ek Ec Hp -> Es. destruct (no_pending m Hlock) as [Ek0 Ec0]. rewrite Ek0 in E, C. rewrite Ec0 in C.
  split; [done|..]; rewrite ?Ek.
  - intros k pid Hin. apply (elem_of_submseteq _ _ _ Hin) in Es. apply elem_of_cons in Es as [?|Hin'].
    + simplify_eq. by apply all_keys_get.
    + apply lookup_app_l_Some. by apply E.
  - apply submseteq_Permutation in Es as [k Es]. assert (NoDup (partitionKey (c_ctx c) (c_req c) :: (lru_entries (partitions m)).*1))
      as N' by by constructor. change (NoDup ((partitionKey (c_ctx c) (c_req c), length (pbs m)) :: lru_entries (partitions m)).*1) in N'.
    rewrite Es, fmap_app in N'. by apply NoDup_app in N' as [? _].
  - intros c' Hc'. rewrite Ec in Hc'. apply elem_of_cons in Hc' as [->|Hc'].
    + rewrite Hp. by apply all_keys_get.
    + apply lookup_app_l_Some. by apply C.
Qed.

Lemma routed_get (m : multi) now ctx req id :
  routed m -> lock m = None -> routed (add_id id (getPartition cfg maxWorkers partitionKey now ctx req id m)).
Proof.
  intros Rm Hlock. unfold getPartition. pose proof (lru_Get_entries (partitionKey ctx req) (partitions m)) as Hp.
  destruct (lru_Get _ _) as [o l] eqn:Eg. destruct o as [pid|].
  - pose proof (lru_Get_value (partitionKey ctx req) (partitions m) pid) as Hv. rewrite Eg in Hv. specialize (Hv eq_refl).
    destruct Rm as [L E N C]. destruct (no_pending m Hlock) as [Ek Ec]. rewrite Ek in E, C. rewrite Ec in C.
    set (m' := add_id _ _). destruct (no_pending m' Hlock) as [Ek' Ec'].
    split; rewrite ?Ek', ?Ec'; simpl in *; [done|..].
    + intros k p. rewrite Hp. apply E.
    + by rewrite Hp.
    + intros c [->|Hc]%elem_of_cons; [by apply E|by apply C].
  - pose proof (lru_Get_none (partitionKey ctx req) (partitions m)) as Hn. rewrite Eg in Hn. specialize (Hn eq_refl).
    simpl in Hp. assert (partitionKey ctx req ∉ (lru_entries l).*1) as Hn' by by rewrite Hp.
    pose proof (lru_Add_entries (partitionKey ctx req) (length (pbs m)) l Hn') as Ha. rewrite Hp in Ha.
    destruct (lru_Add _ _ _) as [l' [[k old]|]]; simpl in Ha;
      (eapply (routed_add m _ (partitionKey ctx req) (mkCall (length (pbs m)) ctx req id)); [exact Rm|done|done|..];
       unfold all_keys, all_calls, pending; simpl; rewrite ?Hlock; simpl; try done).
    + apply Rm.
    + solve_Permutation.
    + rewrite <- Ha. apply submseteq_inserts_r. done.
    + rewrite !length_app. simpl. by rewrite (routed_length _ Rm).
    + by rewrite app_nil_r.
    + by rewrite app_nil_r.
    + rewrite <- Ha. by apply submseteq_inserts_r.
Qed.

Lemma routed_evict (m : multi) old new n :
  routed m -> lock m = Some (Evicting old new) ->
  routed (from_option (startPartition cfg) id new
    (set_lock None (set_pool n (set_waits (calling m) (emptying m) (old :: shutting m) (draining m) m)))).
Proof.
  intros Rm Hlock. pose proof (routed_length _ Rm) as L. apply (routed_same _ _ Rm).
  - destruct new as [[[key qb] c]|]; simpl; [|done]. rewrite !length_app. simpl. lia.
  - unfold all_keys, pending. destruct new as [[[key qb] c]|]; simpl; rewrite Hlock; simpl; by rewrite ?app_nil_r.
  - intros c'. unfold all_calls, pending. destruct new as [[[key qb] c]|]; simpl; rewrite Hlock; simpl; set_solver.
  - by destruct new as [[[key qb] c]|].
Qed.

Lemma routed_one (m m' : multi) pid qb :
  routed m -> pbs m' = <[pid := qb]> (pbs m) -> keys m' = keys m -> pending m' = pending m ->
  (forall c, c ∈ consuming m' -> c ∈ consuming m) -> partitions m' = partitions m -> routed m'.
Proof.
  intros Rm E1 E2 E3 E4 E5. apply (routed_same _ _ Rm).
  - rewrite E1, E2, length_insert. apply Rm.
  - unfold all_keys. by rewrite E2, E3.
  - unfold all_calls. rewrite E3. set_solver.
  - by rewrite E5.
Qed.

(** A step that ends with another holder of the lock, none of them an eviction that starts
    a partition. *)
Lemma routed_lock (m m' : multi) :
  routed m -> pbs m' = pbs m -> keys m' = keys m -> pending m' = pending m -> consuming m' = consuming m ->
  lru_entries (partitions m') ⊆+ lru_entries (partitions m) -> routed m'.
Proof.
  intros Rm E1 E2 E3 E4 E5. apply (routed_same _ _ Rm); unfold all_keys, all_calls; rewrite ?E1, ?E2, ?E3, ?E4; [|done..].
  apply Rm.
Qed.

Lemma routed_step m m' : routed m -> mstep m m' -> routed m'.
Proof.
  intros Rm St. destruct St as [m now ctx req id Hlock Hid|m old new n Hlock Hpool|m l1 c l2 now qb Hc Hq|m pid qb Hq Ha Hnc Hne
    |m pid qb n now Hq Hn Hla Hi|m l1 pid l2 qb n now Hla Hq Hn|m pid qb n now Hq Hn Hla Hi|m l1 pid l2 qb Hc Hq Ho|m l1 pid l2 key He Hlock Hk
    |m pid qb f1 b f2 n k Hq Hf Hw Hpool|m pid qb r1 b r2 err Hq Hr|m s1 pid s2 qb Hs Hq|m d1 pid d2 Hd Hquiet
    |m Hlock|m t1 pid t2 w qb Hlock Hq|m w1 pid w2 t Hlock Hquiet|m Hlock|m l1 pid l2 n Hlock Hpool|m Hlock].
  - by apply routed_get.
  - by apply routed_evict.
  - eapply routed_one; [done..|simpl; rewrite Hc; set_solver|done].
  - by eapply routed_one.
  - by eapply routed_one.
  - by eapply routed_one.
  - by eapply routed_one.
  - by eapply routed_lock.
  - pose proof (Remove_entries_submseteq key (partitions m)) as Hs.
    destruct (lru_Remove _ _) as [l removed]. eapply routed_lock; [done..| |done|done].
    unfold pending. simpl. rewrite Hlock. by destruct removed.
  - by eapply routed_one.
  - by eapply routed_one.
  - destruct (active qb); [by eapply routed_one|by eapply routed_lock].
  - by eapply routed_lock.
  - eapply routed_lock; [done..| |done|done]. unfold pending. simpl. by rewrite Hlock.
  - eapply routed_one; [done..| |done|done]. unfold pending. simpl. by rewrite Hlock.
  - eapply routed_lock; [done..| |done|done]. unfold pending. simpl. by rewrite Hlock.
  - eapply routed_lock; [done..| |done|simpl; rewrite NewLRU_entries; apply submseteq_nil_l].
    unfold pending. simpl. by rewrite Hlock.
  - eapply routed_lock; [done..| |done|done]. unfold pending. simpl. by rewrite Hlock.
  - eapply routed_lock; [done..| |done|done]. unfold pending. simpl. by rewrite Hlock.
Qed.

(** C19: requests are batched with requests of their key only: a partition is passed only
    requests of the key it was created for, and the cache has one partition per key, the
    one whose key it is. *)
Theorem requests_reach_their_partition m :
  rtc mstep initial m ->
  (forall c qb, c ∈ consuming m -> pbs m !! c_pid c = Some qb ->
    keys m !! c_pid c = Some (partitionKey (c_ctx c) (c_req c))) /\
  NoDup (lru_entries (partitions m)).*1 /\
  (lock m = None -> forall k pid, (k, pid) ∈ lru_entries (partitions m) -> keys m !! pid = Some k).
Proof.
  intros R. assert (routed m) as Rm.
  { remember initial as m0 eqn:E. assert (routed m0) as R0.
    - subst. split; unfold all_keys, all_calls; simpl; try done; rewrite ?NewLRU_entries; [|constructor|].
      + by intros k pid ?%elem_of_nil.
      + by intros c ?%elem_of_nil.
    - clear E. induction R as [|m0 m1 m2 St _ IH]; [done|]. by eapply IH, routed_step. }
  destruct Rm as [L E N C]. split_and!; [|done|].
  - intros c qb Hc Hq. rewrite <- (C c) by (unfold all_calls; set_solver). symmetry. apply lookup_app_l.
    rewrite L. by eapply lookup_lt_Some.
  - intros Hlock. destruct (no_pending m Hlock) as [Ek _]. by rewrite Ek in E.
Qed.

(** ** Evictions can take every worker *)

(** No token is left, nothing is exported, and every worker runs the shutdown of a
    partition whose flushed batches wait for a worker. *)
Record starved (m : multi) : Prop := {
  starved_pool : pool m = 0%nat;
  starved_shutting : shutting m = [];
  starved_running : Forall (fun qb => running qb = []) (pbs m);
  starved_draining : forall pid, pid ∈ draining m -> exists qb, pbs m !! pid = Some qb /\ flushing qb <> [];
}.

(** The partitions of [m] are still there, and have exported nothing. *)
Definition kept (m m' : multi) : Prop :=
  draining m' = draining m /\
  forall pid qb, pbs m !! pid = Some qb -> exists qb', pbs m' !! pid = Some qb' /\ grows qb qb'.

#[local] Instance kept_preorder : PreOrder kept.
Proof.
  split; [intros m; split; [done|]; intros pid qb Hq; by exists qb|].
  intros m1 m2 m3 [E1 K1] [E2 K2]. split; [congruence|]. intros pid qb Hq.
  destruct (K1 _ _ Hq) as (q1 & Hq1 & G1). destruct (K2 _ _ Hq1) as (q2 & Hq2 & G2). exists q2. split; [done|]. by etrans.
Qed.

Lemma starved_kept (m m' : multi) :
  starved m -> kept m m' -> pool m' = pool m -> shutting m' = shutting m ->
  Forall (fun qb => running qb = []) (pbs m') -> starved m'.
Proof.
  intros [P S R D] [Ed K] Ep Es Hr. split; [congruence..|done|]. rewrite Ed. intros pid Hp.
  destruct (D pid Hp) as (qb & Hq & Hf). destruct (K _ _ Hq) as (q' & Hq' & [_ [l E]]). exists q'. split; [done|].
  rewrite E. by destruct (flushing qb).
Qed.

Lemma starved_same (m m' : multi) :
  starved m -> pbs m' = pbs m -> draining m' = draining m -> pool m' = pool m -> shutting m' = shutting m ->
  starved m' /\ kept m m'.
Proof.
  intros Sm E1 E2 E3 E4. assert (kept m m') as K by (split; [done|]; rewrite E1; intros pid qb Hq; by exists qb).
  split; [|done]. eapply starved_kept; [done..|]. rewrite E1. apply Sm.
Qed.

Lemma starved_one (m m' : multi) pid qb qb' :
  starved m -> pbs m !! pid = Some qb -> grows qb qb' -> pbs m' = <[pid := qb']> (pbs m) ->
  draining m' = draining m -> pool m' = pool m -> shutting m' = shutting m -> starved m' /\ kept m m'.
Proof.
  intros Sm Hq G E1 E2 E3 E4. assert (kept m m') as K.
  { split; [done|]. rewrite E1. intros p q Hp. destruct (decide (p = pid)) as [->|].
    - simplify_eq. exists qb'. split; [|done]. apply list_lookup_insert_eq. by eapply lookup_lt_Some.
    - exists q. split; [by rewrite list_lookup_insert_ne|done]. }
  split; [|done]. eapply starved_kept; [done..|]. rewrite E1. apply Forall_insert; [apply Sm|].
  destruct G as [-> _]. pose proof (starved_running _ Sm) as R. rewrite Forall_lookup in R. by eapply R.
Qed.

Lemma starved_new (m m' : multi) qb :
  starved m -> running qb = [] -> pbs m' = pbs m ++ [qb] -> draining m' = draining m -> pool m' = pool m ->
  shutting m' = shutting m -> starved m' /\ kept m m'.
Proof.
  intros Sm Hr E1 E2 E3 E4. assert (kept m m') as K.
  { split; [done|]. rewrite E1. intros p q Hp. exists q. split; [|done]. by apply lookup_app_l_Some. }
  split; [|done]. eapply starved_kept; [done..|]. rewrite E1. apply Forall_app. split; [apply Sm|by constructor].
Qed.

Lemma starved_get (m : multi) now ctx req id :
  starved m -> let m' := add_id id (getPartition cfg maxWorkers partitionKey now ctx req id m) in starved m' /\ kept m m'.
Proof.
  intros Sm. unfold getPartition. destruct (lru_Get _ _) as [[pid|] l]; [by apply starved_same|].
  destruct (lru_Add _ _ _) as [l' [[k old]|]]; simpl; [by apply starved_same|].
  by eapply (starved_new m _ (Start cfg (newPartitionBatcher maxWorkers true now))).
Qed.

Lemma starved_quiet (m : multi) d1 pid d2 : starved m -> draining m = d1 ++ pid :: d2 -> quiet pid m -> False.
Proof.
  intros Sm Hd (qb & Hq & _ & Hf & _). destruct (starved_draining _ Sm pid) as (q & Hq' & Hf'); [|by simplify_eq].
  rewrite Hd. set_solver.
Qed.

Lemma starved_step m m' : starved m -> mstep m m' -> starved m' /\ kept m m'.
Proof.
  intros Sm St. pose proof (starved_pool _ Sm) as P0. destruct St as [m now ctx req id Hlock Hid|m old new n Hlock Hpool|m l1 c l2 now qb Hc Hq|m pid qb Hq Ha Hnc Hne
    |m pid qb n now Hq Hn Hla Hi|m l1 pid l2 qb n now Hla Hq Hn|m pid qb n now Hq Hn Hla Hi|m l1 pid l2 qb Hc Hq Ho|m l1 pid l2 key He Hlock Hk
    |m pid qb f1 b f2 n k Hq Hf Hw Hpool|m pid qb r1 b r2 err Hq Hr|m s1 pid s2 qb Hs Hq|m d1 pid d2 Hd Hquiet
    |m Hlock|m t1 pid t2 w qb Hlock Hq|m w1 pid w2 t Hlock Hquiet|m Hlock|m l1 pid l2 n Hlock Hpool|m Hlock]; try congruence.
  - by apply starved_get.
  - by eapply starved_one; [..|apply grows_Consume|done|done|done|done].
  - by eapply (starved_one m _ pid qb (ticked qb)).
  - by eapply starved_one; [..|apply grows_flush_call|done|done|done|done].
  - by eapply starved_one; [..|apply grows_flush_call|done|done|done|done].
  - by eapply starved_one; [..|apply grows_flush_call|done|done|done|done].
  - by apply starved_same.
  - destruct (lru_Remove _ _). by apply starved_same.
  - pose proof (starved_running _ Sm) as R. rewrite Forall_lookup in R. rewrite (R _ _ Hq) in Hr. by destruct r1.
  - rewrite (starved_shutting _ Sm) in Hs. by destruct s1.
  - by destruct (starved_quiet _ _ _ _ Sm Hd Hquiet).
  - by apply starved_same.
  - by eapply starved_one; [..|apply grows_shutdown|done|done|done|done].
  - by apply starved_same.
  - by apply starved_same.
  - by apply starved_same.
Qed.

(** Once every worker runs the shutdown of a partition whose last batch waits for a worker,
    the exporter has stopped for good: no batch is exported any more, whatever is consumed,
    and every batch flushed waits for ever. *)
Theorem evictions_stop_the_workers m m' :
  starved m -> rtc mstep m m' ->
  pool m' = 0%nat /\ draining m' = draining m /\
  forall pid qb, pbs m !! pid = Some qb ->
    exists qb', pbs m' !! pid = Some qb' /\ running qb' = [] /\ flushing qb `prefix_of` flushing qb'.
Proof.
  intros Sm R. assert (starved m' /\ kept m m') as [S' [Ed K]].
  { induction R as [m|m m1 m2 St _ IH]; [done|]. destruct (starved_step _ _ Sm St) as [S1 K1].
    destruct (IH S1) as [S2 K2]. split; [done|by etrans]. }
  split; [apply S'|]. split; [done|]. intros pid qb Hq. destruct (K _ _ Hq) as (q' & Hq' & [_ F]).
  exists q'. split; [done|]. split; [|done]. pose proof (starved_running _ S') as R'. rewrite Forall_lookup in R'. by eapply R'.
Qed.

(** ** The shutdown can wait for a goroutine that waits for it *)

(** Shutdown holds mb.lock and waits for a partition whose timer goroutine is in onEmpty,
    which takes mb.lock. *)
Definition entangled (pid : nat) (m : multi) : Prop :=
  (exists todo waiting, lock m = Some (ShuttingDown todo waiting) /\ pid ∈ waiting) /\ pid ∈ emptying m.

Lemma entangled_step pid m m' : entangled pid m -> mstep m m' -> entangled pid m'.
Proof.
  intros [(todo & waiting & El & Hw) He] St. destruct St as [m now ctx req id Hlock Hid|m old new n Hlock Hpool|m l1 c l2 now qb Hc Hq|m p qb Hq Ha Hnc Hne
    |m p qb n now Hq Hn Hla Hi|m l1 p l2 qb n now Hla Hq Hn|m p qb n now Hq Hn Hla Hi|m l1 p l2 qb Hc Hq Ho|m l1 p l2 key He' Hlock Hk
    |m p qb f1 b f2 n k Hq Hf Hwk Hpool|m p qb r1 b r2 err Hq Hr|m s1 p s2 qb Hs Hq|m d1 p d2 Hd Hquiet
    |m Hlock|m t1 p t2 w qb Hlock Hq|m w1 p w2 t Hlock Hquiet|m Hlock|m l1 p l2 n Hlock Hpool|m Hlock]; simplify_eq.
  all: try (split; [by exists todo, waiting|done]).
  - split; [by exists todo, waiting|]. simpl. by right.
  - destruct (active qb); by (split; [exists todo, waiting|]).
  - split; [|done]. eexists _, _. split; [done|]. destruct (active qb); [by right|done].
  - assert (pid <> p) as Hne.
    { intros ->. destruct Hquiet as (qb & _ & _ & _ & _ & _ & Hn). done. }
    split; [|done]. eexists _, _. split; [done|]. set_solver.
  - by apply elem_of_nil in Hw.
Qed.

(** Shutdown waits, under mb.lock, for the partitions to stop; a partition found idle at
    that moment waits for mb.lock to remove itself, and neither ever goes on: the lock is
    never released, and no call of Consume gets a partition. *)
Theorem shutdown_waits_for_idle_partition pid m m' :
  entangled pid m -> rtc mstep m m' ->
  pid ∈ emptying m' /\ (exists todo waiting, lock m' = Some (ShuttingDown todo waiting) /\ pid ∈ waiting) /\
  ids m' = ids m.
Proof.
  intros E R. cut (entangled pid m' /\ ids m' = ids m); [by intros [[? ?] ?]|].
  induction R as [m|m m1 m2 St _ IH]; [done|]. pose proof (entangled_step _ _ _ E St) as E1.
  destruct (IH E1) as [E2 Ei]. split; [done|]. rewrite Ei. destruct E as [(todo & waiting & El & _) _].
  destruct St; try done; [congruence|congruence|by destruct (lru_Remove _ _)|by destruct (active qb)].
Qed.
End multi.

(** * Concrete runs *)

(** The cache as a list, from the oldest entry to the newest. *)
Module ListLRU.
Definition cache : Type := N * list (string * nat).
Definition find (k : string) (c : cache) : option (nat * (string * nat)) := list_find (fun e => e.1 = k) c.2.
Definition Get (k : string) (c : cache) : option nat * cache :=
  match find k c with Some (i, e) => (Some e.2, (c.1, delete i c.2 ++ [e])) | None => (None, c) end.
Definition Add (k : string) (v : nat) (c : cache) : cache * option (string * nat) :=
  match find k c with
  | Some (i, _) => ((c.1, delete i c.2 ++ [(k, v)]), None)
  | None =>
      match c.2 ++ [(k, v)] with
      | old :: l => if (c.1 <? N.of_nat (length (old :: l)))%N then ((c.1, l), Some old) else ((c.1, old :: l), None)
      | [] => (c, None)
      end
  end.
Definition Remove (k : string) (c : cache) : cache * option nat :=
  ((c.1, without k c.2), (fun e => e.2.2) <$> find k c).
End ListLRU.

#[local] Instance list_lru : LRU := {
  lru := ListLRU.cache; NewLRU n := (n, []); lru_Get := ListLRU.Get; lru_Add := ListLRU.Add; lru_Remove := ListLRU.Remove;
  lru_entries c := c.2;
}.

Lemma find_Some k c i e : ListLRU.find k c = Some (i, e) -> c.2 !! i = Some e /\ e.1 = k.
Proof. intros E. apply list_find_Some in E. naive_solver. Qed.

Lemma find_None k c : ListLRU.find k c = None -> k ∉ c.2.*1.
Proof.
  intros E Hin. apply list_find_None in E. apply list_elem_of_fmap in Hin as (e & -> & Hin).
  rewrite Forall_forall in E. by apply (E e).
Qed.

#[local] Instance list_lru_laws : LRULaws.
Proof.
  split; simpl.
  - done.
  - intros k c v. unfold ListLRU.Get. destruct (ListLRU.find k c) as [[i [k' v']]|] eqn:E; [|done].
    intros [= <-]. apply find_Some in E as [Hi <-]. by eapply list_elem_of_lookup_2.
  - intros k c. unfold ListLRU.Get. destruct (ListLRU.find k c) as [[i e]|] eqn:E; [done|]. intros _. by apply find_None.
  - intros k c. unfold ListLRU.Get. destruct (ListLRU.find k c) as [[i e]|] eqn:E; [|done].
    apply find_Some in E as [Hi _]. simpl. rewrite (delete_Permutation c.2 i e Hi) at 2. solve_Permutation.
  - intros k v c Hk. unfold ListLRU.Add. destruct (ListLRU.find k c) as [[i e]|] eqn:E.
    + apply find_Some in E as [Hi <-]. destruct Hk. apply list_elem_of_fmap. exists e. split; [done|]. by eapply list_elem_of_lookup_2.
    + trans (c.2 ++ [(k, v)]); [|solve_Permutation]. destruct (c.2 ++ [(k, v)]) as [|old l] eqn:El; [by destruct (c.2)|].
      destruct (_ <? _)%N; simpl; solve_Permutation.
  - done.
  - intros k c v. unfold ListLRU.Remove. simpl. destruct (ListLRU.find k c) as [[i [k' v']]|] eqn:E; [|done].
    intros [= <-]. apply find_Some in E as [Hi <-]. by eapply list_elem_of_lookup_2.
Qed.

#[local] Existing Instance sizedPData.
#[local] Existing Instance sizedPData_laws.
#[local] Existing Instance multierr_first.
#[local] Existing Instance multierr_first_laws.

Module Runs.
Abbreviation multi := (multiBatcher (Ctx := unit) (T := request (@Traces sizedPData))).
Definition key (ctx : unit) (r : request (@Traces sizedPData)) : string := "tenant".
Definition spans := example_spans [20%N].
Definition first (m : multi) : batcher := default q0 (pbs m !! 0%nat).
Definition c7 := mkCall 0 tt spans 7.

(** One worker.  The partition is found idle while a call of Consume that already has it
    passes it a request. *)
Definition m0 : multi := newMultiBatcher 1.
Definition m1 : multi := add_id 7 (getPartition example_cfg 1 key 0 tt spans 7 m0).
Definition m2 : multi := set_pb 0 (ticked (first m1)) m1.
Definition m3 : multi := set_waits [0%nat] [] [] []
  (set_pb 0 (flushCurrentBatchOrRemovePartition example_cfg (bool_decide (FlushTimeout example_cfg > 0)) 2000 (with_flushCalls 0 (first m2))) m2).
Definition m4 : multi := set_waits [] [0%nat] [] [] m3.
Definition m5 : multi := set_late []
  (set_pb 0 (Consume first_ctx example_cfg 2001 tt spans 7 (first m4)) (set_consuming [] m4)).
Definition m6 : multi :=
  let '(l, removed) := lru_Remove "tenant" (partitions m5) in
  set_lock ((fun old => Evicting old None) <$> removed) (set_partitions l (set_waits [] [] [] [] m5)).
Definition m7 : multi := set_lock None (set_pool 0 (set_waits [] [] [0%nat] [] m6)).
Definition m8 : multi := set_waits [] [] [] [0%nat] (set_pb 0 (shutdownInternal (first m7)) m7).
Definition m9 : multi :=
  set_pb 0 (flushCurrentBatchOrRemovePartition example_cfg (bool_decide (FlushTimeout example_cfg > 0)) 2002 (with_flushCalls 0 (first m8))) m8.

(** The partition is idle when Shutdown begins: it is in onEmpty, or about to call it. *)
Definition n4 : multi := set_lock (Some (ShuttingDown [0%nat] [])) m4.
Definition n5 : multi := set_lock (Some (ShuttingDown [] [0%nat])) (set_pb 0 (shutdownInternal (first n4)) n4).
Definition o4 : multi := set_lock (Some (ShuttingDown [0%nat] [])) m3.
Definition o5 : multi := set_lock (Some (ShuttingDown [] [0%nat])) (set_pb 0 (shutdownInternal (first o4)) o4).
End Runs.

Abbreviation example_mstep := (mstep first_ctx example_cfg 1 Runs.key).

Lemma run_idle : rtc example_mstep Runs.m0 Runs.m3.
Proof.
  eapply rtc_l; [apply (m_get first_ctx example_cfg 1 Runs.key Runs.m0 0 tt Runs.spans 7); [done|set_solver]|].
  eapply rtc_l; [apply (m_tick first_ctx example_cfg 1 Runs.key Runs.m1 0 (Runs.first Runs.m1)); set_solver|].
  apply rtc_once, (m_idle first_ctx example_cfg 1 Runs.key Runs.m2 0 (Runs.first Runs.m2) 0 2000); done.
Qed.

Lemma run_onEmpty : rtc example_mstep Runs.m0 Runs.m4.
Proof.
  eapply rtc_r; [exact run_idle|].
  by apply (m_onEmpty first_ctx example_cfg 1 Runs.key Runs.m3 [] 0 [] (Runs.first Runs.m3)).
Qed.

(** The eviction of the partition of [Runs.m7]. *)
Lemma run_shut : example_mstep Runs.m7 Runs.m8.
Proof.
  assert (pbs Runs.m7 !! 0%nat = Some (Runs.first Runs.m7)) as Hq by (vm_compute; reflexivity).
  assert (active (Runs.first Runs.m7) = true) as Ha by (vm_compute; reflexivity).
  pose proof (m_shut first_ctx example_cfg 1 Runs.key Runs.m7 [] 0 [] (Runs.first Runs.m7) eq_refl Hq) as S.
  rewrite Ha in S. exact S.
Qed.

Lemma run_starved : rtc example_mstep Runs.m0 Runs.m9.
Proof.
  etrans; [exact run_onEmpty|].
  eapply rtc_l; [by apply (m_consume first_ctx example_cfg 1 Runs.key Runs.m4 [] Runs.c7 [] 2001 (Runs.first Runs.m4))|].
  eapply rtc_l; [by apply (m_remove first_ctx example_cfg 1 Runs.key Runs.m5 [] 0 [] "tenant")|].
  eapply rtc_l; [by apply (m_evict first_ctx example_cfg 1 Runs.key Runs.m6 0 None 0)|].
  eapply rtc_l; [exact run_shut|].
  apply rtc_once, (m_flush_call first_ctx example_cfg 1 Runs.key Runs.m8 0 (Runs.first Runs.m8) 0 2002); vm_compute;
    [reflexivity..|lia|reflexivity].
Qed.

Lemma run_shutdown m :
  lock m = None -> (lru_entries (partitions m)).*2 = [0%nat] -> pbs m !! 0%nat = Some (Runs.first m) ->
  active (Runs.first m) = true ->
  rtc example_mstep m (set_lock (Some (ShuttingDown [] [0%nat]))
    (set_pb 0 (shutdownInternal (Runs.first m)) (set_lock (Some (ShuttingDown [0%nat] [])) m))).
Proof.
  intros Hl He Hq Ha. eapply rtc_l; [by apply m_Shutdown|]. rewrite He. apply rtc_once.
  pose proof (m_stop first_ctx example_cfg 1 Runs.key (set_lock (Some (ShuttingDown [0%nat] [])) m) [] 0 [] []
    (Runs.first m) eq_refl Hq) as S. by rewrite Ha in S.
Qed.

Lemma run_entangled : rtc example_mstep Runs.m0 Runs.n5.
Proof. etrans; [exact run_onEmpty|]. by apply (run_shutdown Runs.m4). Qed.

Lemma starved_example : starved Runs.m9.
Proof.
  assert (pbs Runs.m9 = [Runs.first Runs.m9]) as E by (vm_compute; reflexivity).
  assert (running (Runs.first Runs.m9) = [] /\ flushing (Runs.first Runs.m9) <> []) as [Hr Hf] by (vm_compute; done).
  split; [done|done|rewrite E; by repeat constructor|]. intros pid Hp. apply list_elem_of_singleton in Hp as ->.
  exists (Runs.first Runs.m9). by rewrite E.
Qed.

Lemma evictions_stop_the_workers_witness :
  rtc example_mstep Runs.m0 Runs.m9 /\ starved Runs.m9 /\ forall m', rtc example_mstep Runs.m9 m' -> pool m' = 0%nat.
Proof.
  split; [exact run_starved|]. split; [exact starved_example|]. intros m' R.
  exact (proj1 (evictions_stop_the_workers first_ctx example_cfg 1 Runs.key Runs.m9 m' starved_example R)).
Defined.

Lemma entangled_example : entangled 0 Runs.n5.
Proof. split; [exists [], [0%nat]; split; [done|]|]; by apply list_elem_of_singleton. Qed.

Lemma shutdown_waits_for_idle_partition_witness :
  rtc example_mstep Runs.m0 Runs.n5 /\ forall m', rtc example_mstep Runs.n5 m' -> ids m' = ids Runs.n5.
Proof.
  split; [exact run_entangled|]. intros m' R.
  exact (proj2 (proj2 (shutdown_waits_for_idle_partition first_ctx example_cfg 1 Runs.key 0 Runs.n5 m' entangled_example R))).
Defined.

(** The race on onEmpty: the timer goroutine finds the partition idle and unlocks, the
    shutdown sets onEmpty to nil, and the goroutine calls it. *)
Theorem onEmpty_is_called_when_nil : exists m, rtc example_mstep Runs.m0 m /\ nil_call m.
Proof.
  exists Runs.o5. split; [etrans; [exact run_idle|]; by apply (run_shutdown Runs.m3)|].
  exists 0%nat, (Runs.first Runs.o5). split; [by apply list_elem_of_singleton|]. vm_compute. done.
Qed.


Lemma partitions_share_the_workers_witness :
  rtc example_mstep Runs.m0 Runs.m9 /\ Z.of_nat (length (draining Runs.m9)) <= 1.
Proof.
  split; [exact run_starved|].
  exact (proj1 (partitions_share_the_workers first_ctx example_cfg 1 Runs.key Runs.m9 run_starved)).
Defined.

Lemma requests_reach_their_partition_witness :
  rtc example_mstep Runs.m0 Runs.m4 /\ keys Runs.m4 !! 0%nat = Some (Runs.key tt Runs.spans).
Proof.
  split; [exact run_onEmpty|].
  apply (proj1 (requests_reach_their_partition first_ctx example_cfg 1 Runs.key Runs.m4 run_onEmpty) Runs.c7 (Runs.first Runs.m4)).
  - by apply list_elem_of_singleton.
  - reflexivity.
Defined.
