(* ===== verification/RetrySender.v ===== *)
(** * RetrySender: exporterhelper/internal/retry_sender.go and config/configretry/backoff.go

    The loop of Send against an environment: what the next sender answers to every
    attempt, what the back-off library and the clock say, and how each wait ends. *)

From Stdlib Require Import SpecFloat.
From S2P Require Import Prelude.
From S2P Require Import GoErrors.

(** ** configretry: float64 by its standard value *)

Record BackOffConfig := mkBackOffConfig {
  Enabled : bool;
  InitialInterval : Z;
  RandomizationFactor : spec_float;
  Multiplier : spec_float;
  MaxInterval : Z;
  MaxElapsedTime : Z;
}.

Definition float_zero : spec_float := S754_zero false.
Definition float_one : spec_float := S754_finite false 4503599627370496 (-52).

Definition BackOffConfig_Validate (bs : BackOffConfig) : option error :=
  if negb (Enabled bs) then None
  else if decide (InitialInterval bs < 0) then Some (ErrNew "'initial_interval' must be non-negative")
  else if SFltb (RandomizationFactor bs) float_zero || SFltb float_one (RandomizationFactor bs) then
    Some (ErrNew "'randomization_factor' must be within [0, 1]")
  else if SFltb (Multiplier bs) float_zero then Some (ErrNew "'multiplier' must be non-negative")
  else if decide (MaxInterval bs < 0) then Some (ErrNew "'max_interval' must be non-negative")
  else if decide (MaxElapsedTime bs < 0) then Some (ErrNew "'max_elapsed_time' must be non-negative")
  else if decide (MaxElapsedTime bs > 0) then
    if decide (MaxElapsedTime bs < InitialInterval bs) then
      Some (ErrNew "'max_elapsed_time' must not be less than 'initial_interval'")
    else if decide (MaxElapsedTime bs < MaxInterval bs) then
      Some (ErrNew "'max_elapsed_time' must not be less than 'max_interval'")
    else None
  else None.

(** ** The sender *)

(** backoff.Stop *)
Definition backoff_Stop : Z := -1.

(** How a wait of the back-off ends: the context is done, the sender was shut down, or
    the time has passed. *)
Inductive Wake := CtxDone | Stopped | After.

(** What the environment does after a failed attempt: NextBackOff, time.Now and the
    select. *)
Record wait := mkWait { NextBackOff : Z; Now : Z; wake : Wake }.

Inductive event (Req : Type) :=
  | Sent (req : Req)
  | Slept (from delay : Z).
Arguments Sent {Req} _.
Arguments Slept {Req} _ _.

(** The call returned, or it still waits. *)
Inductive outcome := Returned (err : option error) | Waiting.

(** The time, when there is one, is before [t]. *)
Definition Before (limit : option Z) (t : Z) : bool :=
  match limit with Some l => l <? t | None => false end.

Section sender.
Context {Req : Type}.
(** The answer of next.Send to the attempt of this number. *)
Context (next : nat -> Req -> option error).
(** OnError, when the request is an ErrorHandler. *)
Context (OnError : option (error -> Req -> Req)).

(** The wait after an attempt that failed with the retryable [err]: the error to return,
    or the wait. *)
Definition retryAfter (maxElapsedTime deadline : option Z) (err : error) (w : wait) : error + (Z * Z) :=
  if decide (NextBackOff w = backoff_Stop) then inl (ErrWrap "no more retries left: " err)
  else
    let backoffDelay :=
      match AsThrottleRetry err with
      | Some delay => Z.max (NextBackOff w) delay
      | None => NextBackOff w
      end in
    let nextRetryTime := Now w + backoffDelay in
    if Before maxElapsedTime nextRetryTime then
      inl (ErrWrap "no more retries left: " err)
    else if Before deadline nextRetryTime then
      inl (ErrWrap "request will be cancelled before next retry: " err)
    else inr (Now w, backoffDelay).

(** The loop from attempt [retryNum] on, against the waits [ws] of the environment. *)
Fixpoint SendLoop (maxElapsedTime deadline : option Z) (retryNum : nat) (req : Req) (ws : list wait)
  : list (event Req) * outcome :=
  match next retryNum req with
  | None => ([Sent req], Returned None)
  | Some err =>
      if IsPermanent (Some err) then
        ([Sent req], Returned (Some (ErrWrap "not retryable error: " err)))
      else
        let req' := match OnError with Some f => f err req | None => req end in
        match ws with
        | [] => ([Sent req], Waiting)
        | w :: ws =>
            match retryAfter maxElapsedTime deadline err w with
            | inl e => ([Sent req], Returned (Some e))
            | inr (now, delay) =>
                match wake w with
                | CtxDone => ([Sent req], Returned (Some (ErrWrap "request is cancelled or timed out: " err)))
                | Stopped => ([Sent req], Returned (Some (NewShutdownErr err)))
                | After =>
                    let '(log, out) := SendLoop maxElapsedTime deadline (S retryNum) req' ws in
                    (Sent req :: Slept now delay :: log, out)
                end
            end
        end
  end.

(** Send, called at [start] with a context of this deadline. *)
Definition Send (cfg : BackOffConfig) (start : Z) (deadline : option Z) (req : Req) (ws : list wait) :=
  let maxElapsedTime :=
    if decide (MaxElapsedTime cfg > 0) then Some (start + MaxElapsedTime cfg) else None in
  SendLoop maxElapsedTime deadline 0 req ws.
End sender.

(** * What Send retries, when it stops, and what it returns *)

#[local] Arguments IsPermanent : simpl never.
#[local] Arguments IsShutdownErr : simpl never.

Section proofs.
Context {Req : Type} (next : nat -> Req -> option error) (OnError : option (error -> Req -> Req)).

Definition sent (log : list (event Req)) : list Req :=
  omap (fun ev => match ev with Sent r => Some r | Slept _ _ => None end) log.

Definition sleeps (log : list (event Req)) : list (Z * Z) :=
  omap (fun ev => match ev with Slept from d => Some (from, d) | Sent _ => None end) log.

Definition reduced (err : error) (req : Req) : Req :=
  match OnError with Some f => f err req | None => req end.

(** From attempt [n] with [req] to attempt [m] with [req']: the attempts between failed
    with errors that are not permanent, and each sends what the one before left. *)
Inductive retried : nat -> Req -> list Req -> nat -> Req -> Prop :=
  | retried_last n req : retried n req [req] n req
  | retried_again n req err reqs m req' :
      next n req = Some err -> IsPermanent (Some err) = false ->
      retried (S n) (reduced err req) reqs m req' ->
      retried n req (req :: reqs) m req'.

Lemma IsPermanent_wrap msg err : IsPermanent (Some (ErrWrap msg err)) = IsPermanent (Some err).
Proof. done. Qed.

Lemma IsShutdownErr_wrap msg err : IsShutdownErr (Some (ErrWrap msg err)) = IsShutdownErr (Some err).
Proof. done. Qed.

(** The error of a wait that is not begun is the last one, wrapped. *)
Lemma retryAfter_error maxE deadline err w e :
  retryAfter maxE deadline err w = inl e -> exists msg, e = ErrWrap msg err.
Proof. unfold retryAfter. repeat case_match; intros [= <-]; eauto. Qed.

Lemma retryAfter_delay maxE deadline err w from d :
  retryAfter maxE deadline err w = inr (from, d) ->
  from = Now w /\ NextBackOff w <= d /\ (forall t, AsThrottleRetry err = Some t -> t <= d) /\
  (forall t, maxE = Some t -> from + d <= t) /\ (forall t, deadline = Some t -> from + d <= t).
Proof.
  unfold retryAfter. destruct (decide _); [done|].
  set (delay := match AsThrottleRetry err with Some d => _ | None => _ end).
  destruct (Before maxE _) eqn:Em; [done|]. destruct (Before deadline _) eqn:Ed; [done|].
  intros [= <- <-]. unfold delay in *. split; [done|].
  destruct (AsThrottleRetry err); (split; [lia|]); (split; [intros ? [= ->]; lia || done|]);
    (split; intros t ->; simpl in *; lia).
Qed.

(** What the loop returns. *)
Definition result_ok (n : nat) (ws : list wait) (log : list (event Req)) (out : outcome)
    (m : nat) (last : Req) : Prop :=
  match out with
  | Returned None => next m last = None
  | Returned (Some e) =>
      exists err, next m last = Some err /\ IsPermanent (Some e) = IsPermanent (Some err) /\
        (IsShutdownErr (Some err) = false ->
         IsShutdownErr (Some e) = true -> exists w, ws !! (m - n)%nat = Some w /\ wake w = Stopped)
  | Waiting => length (sleeps log) = length ws
  end.

Lemma SendLoop_result maxE deadline n req ws log out :
  SendLoop next OnError maxE deadline n req ws = (log, out) ->
  exists m last, retried n req (sent log) m last /\ result_ok n ws log out m last.
Proof.
  revert n req log out. induction ws as [|w ws IH]; intros n req log out; simpl.
  - destruct (next n req) as [err|] eqn:En; [|intros [= <- <-]; exists n, req; split; [constructor|done]].
    destruct (IsPermanent (Some err)) eqn:Ep; intros [= <- <-]; exists n, req; (split; [constructor|]); simpl; [|done].
    exists err. split; [done|]. split; [done|]. intros Hs Hs'. by rewrite ?IsShutdownErr_wrap, Hs in Hs'.
  - destruct (next n req) as [err|] eqn:En; [|intros [= <- <-]; exists n, req; split; [constructor|done]].
    destruct (IsPermanent (Some err)) eqn:Ep.
    { intros [= <- <-]. exists n, req. split; [constructor|]. exists err. split; [done|]. split; [done|].
      intros Hs Hs'. by rewrite ?IsShutdownErr_wrap, Hs in Hs'. }
    destruct (retryAfter maxE deadline err w) as [e|[from d]] eqn:Er.
    { intros [= <- <-]. exists n, req. split; [constructor|]. apply retryAfter_error in Er as [msg ->].
      exists err. split; [done|]. split; [done|]. intros Hs Hs'. by rewrite IsShutdownErr_wrap, Hs in Hs'. }
    destruct (wake w) eqn:Ew.
    + intros [= <- <-]. exists n, req. split; [constructor|]. exists err. split; [done|]. split; [done|].
      intros Hs Hs'. by rewrite IsShutdownErr_wrap, Hs in Hs'.
    + intros [= <- <-]. exists n, req. split; [constructor|]. exists err. split; [done|]. split; [done|].
      intros _ _. exists w. by rewrite Nat.sub_diag.
    + destruct (SendLoop _ _ _ _ (S n) _ ws) as [log' out'] eqn:El. intros [= <- <-].
      destruct (IH _ _ _ _ El) as (m & last & Hr & Hres). exists m, last. split.
      { eapply retried_again; [exact En|exact Ep|exact Hr]. }
      assert (S n <= m)%nat as Hle by (clear -Hr; induction Hr; lia).
      destruct out' as [[e|]|]; simpl in *; [|done|by f_equal].
      destruct Hres as (err' & ? & ? & Hst). exists err'. split; [done|]. split; [done|].
      intros Hs Hs'. destruct (Hst Hs Hs') as (w' & Hw' & ?). exists w'.
      replace (m - n)%nat with (S (m - S n)) by lia. done.
Qed.


(** ** Time *)

(** The clock does not run backwards, and a wait takes at least its delay. *)
Fixpoint clock_ok (t : Z) (ss : list (Z * Z)) : Prop :=
  match ss with
  | [] => True
  | (from, d) :: ss => t <= from /\ clock_ok (from + d) ss
  end.

Lemma SendLoop_sleeps b maxE deadline n req ws log out :
  Forall (fun w => b <= NextBackOff w) ws ->
  SendLoop next OnError maxE deadline n req ws = (log, out) ->
  Forall (fun s => b <= s.2 /\ (forall t, maxE = Some t -> s.1 + s.2 <= t) /\
                   (forall t, deadline = Some t -> s.1 + s.2 <= t)) (sleeps log).
Proof.
  intros Hb. revert n req log out. induction Hb as [|w ws Hw Hb IH]; intros n req log out; simpl.
  - destruct (next n req); [destruct (IsPermanent _)|]; intros [= <- _]; constructor.
  - destruct (next n req) as [err|]; [|intros [= <- _]; constructor].
    destruct (IsPermanent (Some err)); [intros [= <- _]; constructor|].
    destruct (retryAfter maxE deadline err w) as [e|[from d]] eqn:Er; [intros [= <- _]; constructor|].
    destruct (wake w); [intros [= <- _]; constructor..|].
    destruct (SendLoop _ _ _ _ (S n) _ ws) as [log' out'] eqn:El. intros [= <- _]. simpl.
    apply retryAfter_delay in Er as (-> & Hd & _ & Hm & Hdl). constructor; [|by eapply IH].
    simpl. split_and!; [lia|done|done].
Qed.

(** Sleeps of at least [b] fit at most so often before the limit. *)
Lemma clock_bound b t limit ss :
  0 <= b -> clock_ok t ss -> Forall (fun s => b <= s.2 /\ s.1 + s.2 <= limit) ss ->
  ss = [] \/ t + Z.of_nat (length ss) * b <= limit.
Proof.
  intros Hb. revert t. induction ss as [|[from d] ss IH]; intros t; [by left|].
  intros [Ht Hc] [[Hd Hl] Hf]%Forall_cons. right. simpl in *.
  destruct (IH _ Hc Hf) as [->|]; simpl; nia.
Qed.

(** Send never waits beyond the deadline of its context or max_elapsed_time, so
    with back-offs of at least [b] it makes at most max_elapsed_time / b retries; it
    returns: no environment with a longer sequence of waits leaves it waiting. *)
Theorem Send_bounded b cfg start deadline req ws log out :
  0 < b -> 0 < MaxElapsedTime cfg ->
  Forall (fun w => b <= NextBackOff w) ws ->
  Send next OnError cfg start deadline req ws = (log, out) ->
  clock_ok start (sleeps log) ->
  Forall (fun s => s.1 + s.2 <= start + MaxElapsedTime cfg /\
                   forall t, deadline = Some t -> s.1 + s.2 <= t) (sleeps log) /\
  Z.of_nat (length (sleeps log)) * b <= MaxElapsedTime cfg /\
  (MaxElapsedTime cfg < Z.of_nat (length ws) * b -> out <> Waiting).
Proof.
  intros Hb Hm Hws E Hc. unfold Send in E. rewrite decide_True in E by lia.
  pose proof (SendLoop_sleeps _ _ _ _ _ _ _ _ Hws E) as Hs.
  assert (Z.of_nat (length (sleeps log)) * b <= MaxElapsedTime cfg) as Hlen.
  { destruct (clock_bound b start (start + MaxElapsedTime cfg) (sleeps log)) as [->|]; [lia|done| |simpl; lia|lia].
    eapply Forall_impl; [exact Hs|]. intros s (? & Hl & _). split; [done|by apply Hl]. }
  split; [|split; [exact Hlen|]].
  - eapply Forall_impl; [exact Hs|]. intros s (? & Hl & Hd). split; [by apply Hl|done].
  - intros Hlong ->. apply SendLoop_result in E as (m & last & _ & Hw). simpl in Hw. rewrite Hw in Hlen. lia.
Qed.
End proofs.

(** A randomization factor or a multiplier that is not a number passes the
    validation, which means to keep the factor within [0, 1]. *)
Theorem BackOffConfig_accepts_nan :
  BackOffConfig_Validate (mkBackOffConfig true 1 S754_nan S754_nan 1 1) = None /\
  SFleb float_zero S754_nan = false /\ SFleb S754_nan float_one = false.
Proof. done. Qed.

(** ** Witnesses *)

(** Two spans are sent; the first attempt is throttled for 7 and leaves one. *)
Definition two_attempts (n : nat) (req : nat) : option error :=
  match n with
  | 0%nat => Some (NewThrottleRetry (ErrNew "busy") 7)
  | 1%nat => Some (ErrNew "unavailable")
  | _ => None
  end.
Definition halve (_ : error) (req : nat) : nat := (req / 2)%nat.
Definition short_retries : BackOffConfig := mkBackOffConfig true 5 float_zero float_one 5 20.
Definition three_waits : list wait := [mkWait 5 100 After; mkWait 5 108 After; mkWait 5 115 Stopped].


Definition always_fails (n : nat) (req : nat) : option error := Some (ErrNew "unavailable").
Definition five_waits : list wait := (fun t => mkWait 5 t After) <$> [100; 106; 112; 118; 124].

Lemma Send_bounded_witness :
  20 < Z.of_nat (length five_waits) * 5 /\
  snd (Send always_fails None short_retries 100 None 2%nat five_waits) <> Waiting.
Proof.
  split; [reflexivity|].
  destruct (Send_bounded always_fails None 5 short_retries 100 None 2%nat five_waits
    [Sent 2%nat; Slept 100 5; Sent 2%nat; Slept 106 5; Sent 2%nat; Slept 112 5; Sent 2%nat]
    (Returned (Some (ErrWrap "no more retries left: " (ErrNew "unavailable"))))) as (_ & _ & Hw).
  - lia.
  - simpl. lia.
  - unfold five_waits. simpl. repeat (constructor; [simpl; lia|]). constructor.
  - reflexivity.
  - simpl. lia.
  - exact (Hw eq_refl).
Defined.
