(* ===== verification/Status.v ===== *)
(** * Status: service/internal/status/status.go and component/componentstatus/status.go

    The state machine of the status of a component and the reporter that keeps one for
    every component instance.  ReportStatus and ReportOKIfStarting hold the reporter's
    mutex throughout, so an execution is a sequence of calls. *)

From S2P Require Import Prelude.
From S2P Require Import GoErrors.

(** Status is an int32, and values without a name exist. *)
Abbreviation Status := Z.
Definition StatusNone : Status := 0.
Definition StatusStarting : Status := 1.
Definition StatusOK : Status := 2.
Definition StatusRecoverableError : Status := 3.
Definition StatusPermanentError : Status := 4.
Definition StatusFatalError : Status := 5.
Definition StatusStopping : Status := 6.
Definition StatusStopped : Status := 7.

Definition status_String (s : Status) : string :=
  if decide (s = StatusStarting) then "StatusStarting"
  else if decide (s = StatusOK) then "StatusOK"
  else if decide (s = StatusRecoverableError) then "StatusRecoverableError"
  else if decide (s = StatusPermanentError) then "StatusPermanentError"
  else if decide (s = StatusFatalError) then "StatusFatalError"
  else if decide (s = StatusStopping) then "StatusStopping"
  else if decide (s = StatusStopped) then "StatusStopped"
  else "StatusNone".

Record Event := mkEvent { status : Status; err : option error; timestamp : Z }.

Definition NewEvent (now : Z) (st : Status) : Event := mkEvent st None now.
Definition WithError (e : error) (ev : Event) : Event := mkEvent (status ev) (Some e) (timestamp ev).
Definition NewRecoverableErrorEvent (now : Z) (e : error) := WithError e (NewEvent now StatusRecoverableError).
Definition NewPermanentErrorEvent (now : Z) (e : error) := WithError e (NewEvent now StatusPermanentError).
Definition NewFatalErrorEvent (now : Z) (e : error) := WithError e (NewEvent now StatusFatalError).

Definition StatusIsError (s : Status) : bool :=
  bool_decide (s = StatusRecoverableError) || bool_decide (s = StatusPermanentError) ||
  bool_decide (s = StatusFatalError).

(** The map that newFSM builds, the same for every machine. *)
Definition transitions : gmap Status (gset Status) :=
  list_to_map [
    (StatusNone, {[StatusStarting]});
    (StatusStarting, {[StatusOK; StatusRecoverableError; StatusPermanentError; StatusFatalError; StatusStopping]});
    (StatusOK, {[StatusOK; StatusRecoverableError; StatusPermanentError; StatusFatalError; StatusStopping]});
    (StatusRecoverableError,
      {[StatusRecoverableError; StatusOK; StatusPermanentError; StatusFatalError; StatusStopping]});
    (StatusPermanentError, {[StatusStopping]});
    (StatusFatalError, ∅);
    (StatusStopping, {[StatusRecoverableError; StatusPermanentError; StatusFatalError; StatusStopped]});
    (StatusStopped, ∅)].

Definition allowed (from to : Status) : bool :=
  match transitions !! from with Some next => bool_decide (to ∈ next) | None => false end.

Record fsm := mkFSM { current : Event }.

Definition newFSM (now : Z) : fsm := mkFSM (NewEvent now StatusNone).

Definition errInvalidStateTransition : error := ErrNew "invalid state transition".

(** The machine and the error; the caller's onTransition runs when there is none. *)
Definition transition (ev : Event) (m : fsm) : fsm * option error :=
  if negb (allowed (status (current m)) (status ev)) then
    (m, Some (ErrWrap ("cannot transition from " +:+ status_String (status (current m)) +:+ " to " +:+
                       status_String (status ev) +:+ ": ") errInvalidStateTransition))
  else (mkFSM ev, None).

(** ** The reporter: component instances by number *)

Record reporter := mkReporter { fsmMap : gmap nat fsm }.

(** What a call tells the service: a status change or an invalid transition. *)
Inductive notice :=
  | onStatusChange (id : nat) (ev : Event)
  | onInvalidTransition (e : error).

Definition NewReporter : reporter := mkReporter ∅.

Definition componentFSM (now : Z) (id : nat) (r : reporter) : reporter * fsm :=
  match fsmMap r !! id with
  | Some m => (r, m)
  | None => (mkReporter (<[id := newFSM now]> (fsmMap r)), newFSM now)
  end.

(** transition through the pointer in the map, with its notices. *)
Definition transitionOf (id : nat) (ev : Event) (m : fsm) (r : reporter) : reporter * list notice :=
  let '(m, e) := transition ev m in
  (mkReporter (<[id := m]> (fsmMap r)),
   match e with None => [onStatusChange id ev] | Some e => [onInvalidTransition e] end).

Definition ReportStatus (now : Z) (id : nat) (ev : Event) (r : reporter) : reporter * list notice :=
  let '(r, m) := componentFSM now id r in transitionOf id ev m r.

Definition ReportOKIfStarting (now : Z) (id : nat) (r : reporter) : reporter * list notice :=
  let '(r, m) := componentFSM now id r in
  if decide (status (current m) = StatusStarting) then transitionOf id (NewEvent now StatusOK) m r
  else (r, []).

Inductive call := Report (now : Z) (id : nat) (ev : Event) | ReportOK (now : Z) (id : nat).

Definition run_call (c : call) (r : reporter) : reporter * list notice :=
  match c with
  | Report now id ev => ReportStatus now id ev r
  | ReportOK now id => ReportOKIfStarting now id r
  end.

Fixpoint run (cs : list call) (r : reporter) : reporter * list notice :=
  match cs with
  | [] => (r, [])
  | c :: cs =>
      let '(r, n1) := run_call c r in
      let '(r, n2) := run cs r in
      (r, n1 ++ n2)
  end.

(** * The status events of every component follow the life cycle *)

(** The status of an instance, StatusNone before the first report. *)
Definition status_of (id : nat) (r : reporter) : Status :=
  match fsmMap r !! id with Some m => status (current m) | None => StatusNone end.

(** The statuses announced for an instance, in order. *)
Definition announced (id : nat) (ns : list notice) : list Status :=
  omap (fun n => match n with
                 | onStatusChange id' ev => if decide (id' = id) then Some (status ev) else None
                 | onInvalidTransition _ => None
                 end) ns.

(** [path s l s']: the statuses [l] lead from [s] to [s'] along allowed transitions. *)
Fixpoint path (s : Status) (l : list Status) (s' : Status) : Prop :=
  match l with
  | [] => s = s'
  | t :: l => allowed s t = true /\ path t l s'
  end.

Lemma path_app s l1 l2 s' s'' : path s l1 s' -> path s' l2 s'' -> path s (l1 ++ l2) s''.
Proof.
  revert s. induction l1 as [|t l1 IH]; intros s; simpl; [by intros ->|]. intros [? ?] ?. eauto.
Qed.

Lemma allowed_spec s t : allowed s t = true ->
  s = StatusNone /\ t = StatusStarting \/
  s ∈ [StatusStarting; StatusOK; StatusRecoverableError] /\
    t ∈ [StatusOK; StatusRecoverableError; StatusPermanentError; StatusFatalError; StatusStopping] \/
  s = StatusPermanentError /\ t = StatusStopping \/
  s = StatusStopping /\ t ∈ [StatusRecoverableError; StatusPermanentError; StatusFatalError; StatusStopped].
Proof.
  unfold allowed. destruct (transitions !! s) as [next|] eqn:E; [|done].
  intros Ht%bool_decide_eq_true.
  unfold transitions in E. apply elem_of_list_to_map_2 in E.
  repeat (apply elem_of_cons in E as [[= -> ->]|E]); try set_solver.
Qed.

(** Distinct statuses. *)
Ltac statuses :=
  unfold StatusFatalError, StatusStopped, StatusNone, StatusStarting, StatusOK, StatusRecoverableError,
    StatusPermanentError, StatusStopping in *; set_solver.

Lemma run_call_path c r r' ns id :
  run_call c r = (r', ns) -> path (status_of id r) (announced id ns) (status_of id r').
Proof.
  assert (forall now i m r r', componentFSM now i r = (r', m) ->
    status_of id r' = status_of id r /\ status_of i r' = status (current m)) as Hc.
  { clear. intros now i m r r'. unfold componentFSM, status_of.
    destruct (fsmMap r !! i) as [m'|] eqn:E; intros [= <- <-]; simpl; [by rewrite E|].
    rewrite lookup_insert_eq. destruct (decide (i = id)) as [->|]; [by rewrite lookup_insert_eq, E|].
    by rewrite lookup_insert_ne. }
  assert (forall i ev m r r' ns, transitionOf i ev m r = (r', ns) -> status_of i r = status (current m) ->
    path (status_of id r) (announced id ns) (status_of id r')) as Ht.
  { clear. intros i ev m r r' ns. unfold transitionOf, transition.
    destruct (allowed _ _) eqn:Ea; simpl; intros [= <- <-] Hs; unfold announced, status_of in *; simpl.
    - destruct (decide (i = id)) as [->|Hne]; simpl.
      + rewrite lookup_insert_eq. simpl. by rewrite Hs.
      + by rewrite lookup_insert_ne.
    - destruct (decide (i = id)) as [->|Hne]; [by rewrite lookup_insert_eq|by rewrite lookup_insert_ne]. }
  destruct c as [now i ev|now i]; simpl; unfold ReportStatus, ReportOKIfStarting;
    destruct (componentFSM now i r) as [r1 m] eqn:E; destruct (Hc now i m r r1 E) as [<- Hm].
  - intros Hr. by eapply Ht.
  - case_decide; [intros Hr; by eapply Ht|by intros [= <- <-]].
Qed.

(** A path from None that ends has started with Starting. *)
Lemma path_final s l s' : path s l s' -> (s = StatusFatalError \/ s = StatusStopped) -> l = [].
Proof.
  destruct l as [|t l]; [done|]. simpl. intros [Ha _]. apply allowed_spec in Ha.
  intros [->| ->]; statuses.
Qed.

Lemma run_path cs r r' ns id :
  run cs r = (r', ns) -> path (status_of id r) (announced id ns) (status_of id r').
Proof.
  revert r ns. induction cs as [|c cs IH]; intros r ns; simpl; [by intros [= <- <-]|].
  destruct (run_call c r) as [r1 n1] eqn:E1. destruct (run cs r1) as [r2 n2] eqn:E2. intros [= <- <-].
  unfold announced. rewrite omap_app. eapply path_app; [by eapply run_call_path|by apply IH].
Qed.

Lemma path_split s l1 t l2 s' : path s (l1 ++ t :: l2) s' -> path s (l1 ++ [t]) t /\ path t l2 s'.
Proof.
  revert s. induction l1 as [|u l1 IH]; intros s; simpl; [by intros [? ?]|]. intros [? [? ?]%IH]. done.
Qed.

(** C37: whatever the components report, in whatever order, what the service is told of a
    component instance is a path of its own life cycle: it begins with Starting, every
    status follows the one before along an allowed transition, nothing comes after
    FatalError or Stopped, and after PermanentError only Stopping.  The machine is in
    the status last told. *)
Theorem reporter_follows_life_cycle cs id r ns :
  run cs NewReporter = (r, ns) ->
  path StatusNone (announced id ns) (status_of id r) /\
  (forall s, announced id ns !! 0%nat = Some s -> s = StatusStarting) /\
  (forall l1 s l2, announced id ns = l1 ++ s :: l2 ->
     ((s = StatusFatalError \/ s = StatusStopped) -> l2 = []) /\
     (s = StatusPermanentError -> forall t, l2 !! 0%nat = Some t -> t = StatusStopping)).
Proof.
  intros E. apply (run_path _ _ _ _ id) in E as Hp. unfold status_of at 1 in Hp. simpl in Hp.
  rewrite lookup_empty in Hp. split; [done|]. split.
  - intros s Hs. destruct (announced id ns) as [|t l]; simplify_eq/=. destruct Hp as [Ha _].
    apply allowed_spec in Ha. statuses.
  - intros l1 s l2 El. rewrite El in Hp. apply path_split in Hp as [_ Hp]. split; [by eapply path_final|].
    intros -> t Ht. destruct l2 as [|t' l2]; simplify_eq/=. destruct Hp as [Ha _].
    apply allowed_spec in Ha. statuses.
Qed.

(** A repeated status is announced again for OK and RecoverableError, and is an
    invalid transition for every other status. *)
Theorem repeated_status s : allowed s s = true <-> s = StatusOK \/ s = StatusRecoverableError.
Proof.
  split.
  - intros Ha%allowed_spec. statuses.
  - by intros [->| ->].
Qed.

Definition some_calls : list call :=
  [Report 1 0 (NewEvent 1 StatusStarting); Report 2 1 (NewEvent 2 StatusStarting); ReportOK 3 0;
   Report 4 0 (NewEvent 4 StatusOK); Report 5 1 (NewPermanentErrorEvent 5 (ErrNew "bad"));
   Report 6 1 (NewEvent 6 StatusOK); Report 7 1 (NewEvent 7 StatusStopping)].

Lemma reporter_follows_life_cycle_witness :
  exists r ns, run some_calls NewReporter = (r, ns) /\
    announced 1 ns = [StatusStarting; StatusPermanentError; StatusStopping] /\
    path StatusNone (announced 1 ns) (status_of 1 r).
Proof.
  exists (fst (run some_calls NewReporter)), (snd (run some_calls NewReporter)).
  split; [apply surjective_pairing|]. split; [vm_compute; reflexivity|].
  apply (reporter_follows_life_cycle some_calls 1 _ (snd (run some_calls NewReporter))).
  apply surjective_pairing.
Defined.
