(* ===== verification/MemoryLimiter.v ===== *)
(** * MemoryLimiter: internal/memorylimiter/memorylimiter.go and config.go, and the
    refusals of processor/memorylimiterprocessor/memorylimiter.go *)

From S2P Require Import Prelude.
From S2P Require Import GoErrors.

Definition mibBytes : Z := 1024 * 1024.

Definition ErrDataRefused : error := ErrNew "data refused due to high memory usage".

(** Times are in nanoseconds, the memory fields are uint32. *)
Record Config := mkConfig {
  CheckInterval : Z;
  MinGCIntervalWhenSoftLimited : Z;
  MinGCIntervalWhenHardLimited : Z;
  MemoryLimitMiB : Z;
  MemorySpikeLimitMiB : Z;
  MemoryLimitPercentage : Z;
  MemorySpikePercentage : Z;
}.

Definition NewDefaultConfig : Config := mkConfig 0 (10 * 10 ^ 9) 0 0 0 0 0.

Definition Validate (cfg : Config) : option error :=
  if decide (CheckInterval cfg <= 0) then Some (ErrNew "'check_interval' must be greater than zero")
  else if decide (MinGCIntervalWhenSoftLimited cfg < MinGCIntervalWhenHardLimited cfg) then
    Some (ErrNew "'min_gc_interval_when_soft_limited' should be larger than 'min_gc_interval_when_hard_limited'")
  else if decide (MemoryLimitMiB cfg = 0 /\ MemoryLimitPercentage cfg = 0) then
    Some (ErrNew "'limit_mib' or 'limit_percentage' must be greater than zero")
  else if decide (MemoryLimitPercentage cfg > 100 \/ MemorySpikePercentage cfg > 100) then
    Some (ErrNew "'limit_percentage' and 'spike_limit_percentage' must be greater than zero and less than or equal to hundred")
  else if decide (MemoryLimitMiB cfg > 0 /\ MemoryLimitMiB cfg <= MemorySpikeLimitMiB cfg) then
    Some (ErrNew "'spike_limit_mib' must be smaller than 'limit_mib'")
  else if decide (MemoryLimitPercentage cfg > 0 /\ MemoryLimitPercentage cfg <= MemorySpikePercentage cfg) then
    Some (ErrNew "'spike_limit_percentage' must be smaller than 'limit_percentage'")
  else None.

(** ** The limits, in uint64 arithmetic *)

Record memUsageChecker := mkMemUsageChecker { memAllocLimit : Z; memSpikeLimit : Z }.

Definition aboveSoftLimit (alloc : Z) (d : memUsageChecker) : bool :=
  u64 (memAllocLimit d - memSpikeLimit d) <=? alloc.

Definition aboveHardLimit (alloc : Z) (d : memUsageChecker) : bool := memAllocLimit d <=? alloc.

Definition newFixedMemUsageChecker (memAllocLimit memSpikeLimit : Z) : memUsageChecker :=
  let memSpikeLimit := if decide (memSpikeLimit = 0) then memAllocLimit / 5 else memSpikeLimit in
  mkMemUsageChecker memAllocLimit memSpikeLimit.

Definition newPercentageMemUsageChecker (totalMemory percentageLimit percentageSpike : Z) : memUsageChecker :=
  newFixedMemUsageChecker (u64 (percentageLimit * totalMemory) / 100) (u64 (percentageSpike * totalMemory) / 100).

(** [GetMemoryFn]: the total memory the host or its cgroup reports. *)
Definition getMemUsageChecker (GetMemoryFn : Z + error) (cfg : Config) : memUsageChecker + error :=
  let memAllocLimit := u64 (MemoryLimitMiB cfg * mibBytes) in
  let memSpikeLimit := u64 (MemorySpikeLimitMiB cfg * mibBytes) in
  if decide (MemoryLimitMiB cfg <> 0) then inl (newFixedMemUsageChecker memAllocLimit memSpikeLimit)
  else
    match GetMemoryFn with
    | inr err => inr (ErrWrap "failed to get total memory, use fixed memory settings (limit_mib): " err)
    | inl totalMemory =>
        inl (newPercentageMemUsageChecker totalMemory (MemoryLimitPercentage cfg) (MemorySpikePercentage cfg))
    end.

(** ** The limiter *)

(** [closed]: no channel yet, or a channel that is closed or not; [ticking]: the ticker
    runs; [monitoring]: the goroutine that checks runs. *)
Record MemoryLimiter := mkMemoryLimiter {
  usageChecker : memUsageChecker;
  minGCSoft : Z;
  minGCHard : Z;
  lastGCDone : Z;
  mustRefuse : bool;
  refCounter : Z;
  closed : option bool;
  ticking : bool;
  monitoring : bool;
}.

Definition NewMemoryLimiter (GetMemoryFn : Z + error) (now : Z) (cfg : Config) : MemoryLimiter + error :=
  match getMemUsageChecker GetMemoryFn cfg with
  | inr err => inr err
  | inl usageChecker =>
      inl (mkMemoryLimiter usageChecker (MinGCIntervalWhenSoftLimited cfg) (MinGCIntervalWhenHardLimited cfg)
             now false 0 None true false)
  end.

Definition Start (ml : MemoryLimiter) : MemoryLimiter :=
  let refCounter := refCounter ml + 1 in
  if decide (refCounter = 1) then
    mkMemoryLimiter (usageChecker ml) (minGCSoft ml) (minGCHard ml) (lastGCDone ml) (mustRefuse ml)
      refCounter (Some false) (ticking ml) true
  else
    mkMemoryLimiter (usageChecker ml) (minGCSoft ml) (minGCHard ml) (lastGCDone ml) (mustRefuse ml)
      refCounter (closed ml) (ticking ml) (monitoring ml).

(** [None]: closing a channel that is nil or closed panics. *)
Definition Shutdown (ml : MemoryLimiter) : option MemoryLimiter :=
  if decide (refCounter ml = 0) then Some ml
  else if decide (refCounter ml = 1) then
    match closed ml with
    | Some false =>
        Some (mkMemoryLimiter (usageChecker ml) (minGCSoft ml) (minGCHard ml) (lastGCDone ml) (mustRefuse ml)
                (refCounter ml - 1) (Some true) false false)
    | _ => None
    end
  else
    Some (mkMemoryLimiter (usageChecker ml) (minGCSoft ml) (minGCHard ml) (lastGCDone ml) (mustRefuse ml)
            (refCounter ml - 1) (closed ml) (ticking ml) (monitoring ml)).

Definition MustRefuse (ml : MemoryLimiter) : bool := mustRefuse ml.

Definition set_mustRefuse (b : bool) (ml : MemoryLimiter) : MemoryLimiter :=
  mkMemoryLimiter (usageChecker ml) (minGCSoft ml) (minGCHard ml) (lastGCDone ml) b
    (refCounter ml) (closed ml) (ticking ml) (monitoring ml).

(** What a check reads: the memory, the clock, and both again should it run a GC. *)
Record reading := mkReading { alloc : Z; at_ : Z; allocAfterGC : Z; gcDone : Z }.

Definition doGCandReadMemStats (r : reading) (ml : MemoryLimiter) : MemoryLimiter * Z :=
  (mkMemoryLimiter (usageChecker ml) (minGCSoft ml) (minGCHard ml) (gcDone r) (mustRefuse ml)
     (refCounter ml) (closed ml) (ticking ml) (monitoring ml), allocAfterGC r).

(** The limiter after the check, and whether it ran a GC. *)
Definition CheckMemLimits (r : reading) (ml : MemoryLimiter) : MemoryLimiter * bool :=
  let above := aboveSoftLimit (alloc r) (usageChecker ml) in
  if negb above then (set_mustRefuse above ml, false)
  else
    let minGC := if aboveHardLimit (alloc r) (usageChecker ml) then minGCHard ml else minGCSoft ml in
    if decide (at_ r - lastGCDone ml > minGC) then
      let '(ml, ms) := doGCandReadMemStats r ml in
      let above := aboveSoftLimit ms (usageChecker ml) in
      (set_mustRefuse above ml, true)
    else (set_mustRefuse above ml, false).

(** ** The processor: processTraces, processMetrics, processLogs, processProfiles *)

(** The items of the signal that were accepted and refused so far. *)
Record obsReport := mkObsReport { accepted : Z; refused : Z }.

Definition process {D} (count : D -> Z) (ml : MemoryLimiter) (d : D) (obsrep : obsReport)
  : D * option error * obsReport :=
  if MustRefuse ml then (d, Some ErrDataRefused, mkObsReport (accepted obsrep) (refused obsrep + count d))
  else (d, None, mkObsReport (accepted obsrep + count d) (refused obsrep)).

(** * Limits, decisions and the life of a shared limiter *)

(** The memory fields are uint32. *)
Definition fields_ok (cfg : Config) : Prop :=
  0 <= MemoryLimitMiB cfg < 2 ^ 32 /\ 0 <= MemorySpikeLimitMiB cfg < 2 ^ 32 /\
  0 <= MemoryLimitPercentage cfg < 2 ^ 32 /\ 0 <= MemorySpikePercentage cfg < 2 ^ 32.

(** The limits make sense: the soft limit does not wrap around below zero. *)
Definition limits_ok (d : memUsageChecker) : Prop := 0 <= memSpikeLimit d <= memAllocLimit d /\ memAllocLimit d < 2 ^ 64.

Lemma newFixed_ok alloc spike :
  0 <= spike <= alloc -> alloc < 2 ^ 64 -> limits_ok (newFixedMemUsageChecker alloc spike).
Proof.
  intros Hs Ha. unfold newFixedMemUsageChecker, limits_ok. simpl.
  case_decide; [|lia]. split; [|lia]. split; [apply Z.div_pos; lia|].
  apply Z.div_le_upper_bound; lia.
Qed.

Lemma soft_limit_exact d alloc :
  limits_ok d -> aboveSoftLimit alloc d = bool_decide (memAllocLimit d - memSpikeLimit d <= alloc).
Proof.
  intros Hd. unfold limits_ok, aboveSoftLimit in *. rewrite u64_id by lia.
  case_bool_decide; [by apply Z.leb_le|apply Z.leb_gt; lia].
Qed.

Lemma limits_validated Mem cfg d :
  fields_ok cfg -> Validate cfg = None -> (forall total, Mem = inl total -> 0 <= total < 2 ^ 57) ->
  getMemUsageChecker Mem cfg = inl d -> limits_ok d.
Proof.
  intros (H1 & H2 & H3 & H4) Hv Hm E. unfold Validate in Hv. passes.
  unfold getMemUsageChecker, mibBytes in E. case_decide.
  - simplify_eq. rewrite !u64_id by lia. apply newFixed_ok; lia.
  - destruct Mem as [total|]; [|done]. simplify_eq. specialize (Hm total eq_refl).
    unfold newPercentageMemUsageChecker. rewrite !u64_id by nia. apply newFixed_ok.
    + split; [apply Z.div_pos; nia|]. apply Z.div_le_mono; nia.
    + apply Z.div_lt_upper_bound; nia.
Qed.


(** ** Forced GCs are spaced *)

Fixpoint checks (rs : list reading) (ml : MemoryLimiter) : MemoryLimiter * list (Z * Z) :=
  match rs with
  | [] => (ml, [])
  | r :: rs =>
      let '(ml, gc) := CheckMemLimits r ml in
      let '(ml, gcs) := checks rs ml in
      (ml, if gc then (at_ r, gcDone r) :: gcs else gcs)
  end.

(** Each GC begins more than [gap] after the end of the one before. *)
Fixpoint spaced (gap last : Z) (gcs : list (Z * Z)) : Prop :=
  match gcs with
  | [] => True
  | (start, done) :: gcs => gap < start - last /\ spaced gap done gcs
  end.

(** A limiter with validated intervals never runs two GCs closer together than
    min_gc_interval_when_hard_limited, whatever it reads. *)
Theorem forced_gcs_are_spaced Mem now cfg ml rs ml' gcs :
  Validate cfg = None -> NewMemoryLimiter Mem now cfg = inl ml ->
  checks rs ml = (ml', gcs) -> spaced (MinGCIntervalWhenHardLimited cfg) now gcs.
Proof.
  intros Hv E. unfold NewMemoryLimiter in E.
  destruct (getMemUsageChecker Mem cfg) as [d|]; [|done]. injection E as <-.
  assert (MinGCIntervalWhenHardLimited cfg <= MinGCIntervalWhenSoftLimited cfg) as Hle.
  { unfold Validate in Hv. passes. lia. }
  set (ml := mkMemoryLimiter _ _ _ _ _ _ _ _ _).
  assert (minGCSoft ml = MinGCIntervalWhenSoftLimited cfg /\ minGCHard ml = MinGCIntervalWhenHardLimited cfg)
    as Hi by done.
  change now with (lastGCDone ml). clearbody ml. clear Hv.
  revert ml Hi gcs. induction rs as [|r rs IH]; intros ml [Es Eh] gcs; simpl; [by intros [= <- <-]|].
  destruct (CheckMemLimits r ml) as [ml1 gc] eqn:E1. destruct (checks rs ml1) as [ml2 gcs'] eqn:E2.
  intros [= <- <-]. unfold CheckMemLimits, doGCandReadMemStats in E1.
  destruct (aboveSoftLimit _ _); simpl in E1; [|injection E1 as <- <-; by apply IH in E2].
  case_decide as Hg; injection E1 as <- <-; [|by apply IH in E2].
  simpl. split; [|by apply IH in E2].
  destruct (aboveHardLimit _ _); lia.
Qed.

(** ** Start and Shutdown of a limiter that components share *)

Fixpoint life (starts : list bool) (ml : MemoryLimiter) : option MemoryLimiter :=
  match starts with
  | [] => Some ml
  | true :: starts => life starts (Start ml)
  | false :: starts => match Shutdown ml with Some ml => life starts ml | None => None end
  end.

Definition life_inv (ml : MemoryLimiter) : Prop :=
  0 <= refCounter ml /\ monitoring ml = bool_decide (0 < refCounter ml) /\
  (0 < refCounter ml -> closed ml = Some false) /\
  (ticking ml = true -> refCounter ml = 0 -> closed ml = None).

(** In any sequence of starts and shutdowns of a shared limiter no channel is closed
    twice and the goroutine that checks runs exactly while some component is started. *)
Theorem limiter_life Mem now cfg ml starts :
  NewMemoryLimiter Mem now cfg = inl ml ->
  exists ml', life starts ml = Some ml' /\
    0 <= refCounter ml' /\ monitoring ml' = bool_decide (0 < refCounter ml').
Proof.
  intros E. unfold NewMemoryLimiter in E. destruct (getMemUsageChecker Mem cfg); [|done]. injection E as <-.
  set (ml := mkMemoryLimiter _ _ _ _ _ _ _ _ _). assert (life_inv ml) as Hi by done. clearbody ml.
  assert (forall starts ml, life_inv ml -> exists ml', life starts ml = Some ml' /\ life_inv ml') as Hl.
  { clear. intros starts. induction starts as [|[] starts IH]; intros ml Hi; simpl; [by exists ml|..].
    - apply IH. unfold Start. cbv zeta. destruct Hi as (H1 & H2 & H3 & H4).
      destruct (decide (refCounter ml + 1 = 1)); split_and!; simpl; rewrite ?H2; repeat case_bool_decide; try done; try lia; auto with lia.
    - unfold Shutdown. destruct (decide (refCounter ml = 0)); [by apply IH|].
      destruct Hi as (H1 & H2 & H3 & H4). destruct (decide (refCounter ml = 1)).
      + rewrite H3 by lia. apply IH.
        split_and!; simpl; rewrite ?H2; repeat case_bool_decide; try done; try lia; auto with lia.
      + apply IH. split_and!; simpl; rewrite ?H2; repeat case_bool_decide; try done; try lia; auto with lia. }
  destruct (Hl starts ml Hi) as (ml' & ? & ? & ? & _). by exists ml'.
Qed.

(** ** Witnesses *)

Definition percentage_cfg : Config := mkConfig 1000 10 5 0 0 80 20.
Definition percentage_limiter : MemoryLimiter :=
  mkMemoryLimiter (mkMemUsageChecker 800 200) 10 5 0 false 0 None true false.


Lemma forced_gcs_are_spaced_witness :
  snd (checks [mkReading 900 6 850 7; mkReading 900 9 850 10; mkReading 900 20 100 21] percentage_limiter) =
    [(6, 7); (20, 21)] /\
  spaced 5 0 [(6, 7); (20, 21)].
Proof.
  split; [reflexivity|].
  apply (forced_gcs_are_spaced (inl 1000) 0 percentage_cfg percentage_limiter
    [mkReading 900 6 850 7; mkReading 900 9 850 10; mkReading 900 20 100 21]
    (fst (checks [mkReading 900 6 850 7; mkReading 900 9 850 10; mkReading 900 20 100 21] percentage_limiter)));
    reflexivity.
Defined.

Lemma limiter_life_witness :
  NewMemoryLimiter (inl 1000) 0 percentage_cfg = inl percentage_limiter /\
  exists ml', life [true; true; false; false; false; true] percentage_limiter = Some ml' /\
    0 <= refCounter ml' /\ monitoring ml' = bool_decide (0 < refCounter ml').
Proof.
  split; [reflexivity|]. apply (limiter_life (inl 1000) 0 percentage_cfg). reflexivity.
Defined.
