(* ===== verification/ProtoWire.v ===== *)
(** * ProtoWire: pdata/internal/proto — the protobuf wire format of the generated code

    Buffers are lists of bytes, each in [0, 256), and positions are Go ints.  An access
    out of range panics: the outer [None]. *)

From S2P Require Import Prelude.
From S2P Require Import GoErrors.
From S2P Require Import PData.
From S2P Require Import BatchLemmas.

Definition ErrInvalidLength : error := ErrNew "proto: negative length found during unmarshaling".
Definition ErrIntOverflow : error := ErrNew "proto: integer overflow".
Definition ErrUnexpectedEndOfGroup : error := ErrNew "proto: unexpected end of group".
(** io.ErrUnexpectedEOF *)
Definition ErrUnexpectedEOF : error := ErrNew "unexpected EOF".

Definition WireTypeVarint : Z := 0.
Definition WireTypeI64 : Z := 1.
Definition WireTypeLen : Z := 2.
Definition WireTypeStartGroup : Z := 3.
Definition WireTypeEndGroup : Z := 4.
Definition WireTypeI32 : Z := 5.

Definition len (buf : list Z) : Z := Z.of_nat (length buf).

Definition load (buf : list Z) (i : Z) : option Z :=
  if decide (0 <= i) then buf !! Z.to_nat i else None.

Definition store (buf : list Z) (i : Z) (b : Z) : option (list Z) :=
  if decide (0 <= i < len buf) then Some (<[Z.to_nat i := b]> buf) else None.

(** ** marshal.go *)

(** The loop of EncodeVarint, at most [fuel] times: the buffer and the last offset. *)
Fixpoint encodeLoop (fuel : nat) (buf : list Z) (offset v : Z) : option (list Z * Z * Z) :=
  if decide (v >= Z.shiftl 1 7) then
    match fuel with
    | O => None
    | S fuel =>
        match store buf offset (Z.lor (Z.land v 127) 128) with
        | None => None
        | Some buf => encodeLoop fuel buf (i64 (offset + 1)) (Z.shiftr v 7)
        end
    end
  else Some (buf, offset, v).

(** A uint64 is shifted out in nine rounds. *)
Definition EncodeVarint (buf : list Z) (offset v : Z) : option (list Z * Z) :=
  let offset := i64 (offset - Sov v) in
  let base := offset in
  match encodeLoop 9 buf offset v with
  | None => None
  | Some (buf, offset, v) =>
      match store buf offset v with
      | None => None
      | Some buf => Some (buf, base)
      end
  end.

(** ** size.go; Sov is in PData.v *)

Definition Soz (x : Z) : Z := Sov (Z.lxor (u64 (Z.shiftl x 1)) (u64 (Z.shiftr (i64 x) 63))).

(** ** unmarshal.go: a value and the new position, or an error *)

(** The loop of ConsumeVarint; it stops at a shift of 70, after ten rounds. *)
Fixpoint consumeLoop (fuel : nat) (buf : list Z) (pos shift num : Z) : option ((Z * Z) + error) :=
  if decide (shift >= 64) then Some (inr ErrIntOverflow)
  else if decide (pos >= len buf) then Some (inr ErrUnexpectedEOF)
  else
    match load buf pos with
    | None => None
    | Some b =>
        let pos := i64 (pos + 1) in
        let num := Z.lor num (u64 (Z.shiftl (Z.land b 127) shift)) in
        if decide (b < 128) then Some (inl (num, pos))
        else match fuel with
             | O => None
             | S fuel => consumeLoop fuel buf pos (shift + 7) num
             end
    end.

Definition ConsumeVarint (buf : list Z) (pos : Z) : option ((Z * Z) + error) := consumeLoop 10 buf pos 0 0.

Fixpoint littleEndian (bs : list Z) : Z :=
  match bs with [] => 0 | b :: bs => Z.lor b (Z.shiftl (littleEndian bs) 8) end.

(** buf[pos-n:], of which the first [n] bytes are read. *)
Definition ConsumeFixed (n : Z) (buf : list Z) (pos : Z) : option ((Z * Z) + error) :=
  let pos := i64 (pos + n) in
  if decide (pos < 0 \/ pos > len buf) then Some (inr ErrUnexpectedEOF)
  else if decide (0 <= pos - n) then
    Some (inl (littleEndian (take (Z.to_nat n) (drop (Z.to_nat (pos - n)) buf)), pos))
  else None.

Definition ConsumeI64 : list Z -> Z -> option ((Z * Z) + error) := ConsumeFixed 8.
Definition ConsumeI32 : list Z -> Z -> option ((Z * Z) + error) := ConsumeFixed 4.

Definition ConsumeLen (buf : list Z) (pos : Z) : option ((Z * Z) + error) :=
  match ConsumeVarint buf pos with
  | Some (inl (num, pos)) =>
      let length := i64 num in
      if decide (length < 0) then Some (inr ErrInvalidLength)
      else
        let pos := i64 (pos + length) in
        if decide (pos < 0 \/ pos > len buf) then Some (inr ErrUnexpectedEOF)
        else Some (inl (length, pos))
  | Some (inr err) => Some (inr err)
  | None => None
  end.

(** The field number, the wire type and the new position. *)
Definition ConsumeTag (buf : list Z) (pos : Z) : option ((Z * Z * Z) + error) :=
  match ConsumeVarint buf pos with
  | Some (inl (tag, pos)) =>
      let fieldNum := i32 (Z.shiftr tag 3) in
      let wireType := Z.land tag 7 in
      if decide (fieldNum <= 0) then Some (inr (ErrNew "proto: Link: illegal field"))
      else Some (inl (fieldNum, wireType, pos))
  | Some (inr err) => Some (inr err)
  | None => None
  end.

(** The new position of a field whose value is dropped. *)
Definition dropValue (r : option ((Z * Z) + error)) : option (Z + error) :=
  match r with
  | Some (inl (_, pos)) => Some (inl pos)
  | Some (inr err) => Some (inr err)
  | None => None
  end.

(** The loop of ConsumeUnknown: every round but the last consumes a tag. *)
Fixpoint unknownLoop (fuel : nat) (buf : list Z) (pos wireType depth : Z) : option (Z + error) :=
  if decide (pos >= len buf) then Some (inr ErrUnexpectedEOF)
  else if decide (wireType = WireTypeVarint) then dropValue (ConsumeVarint buf pos)
  else if decide (wireType = WireTypeI64) then dropValue (ConsumeI64 buf pos)
  else if decide (wireType = WireTypeLen) then dropValue (ConsumeLen buf pos)
  else if decide (wireType = WireTypeI32) then dropValue (ConsumeI32 buf pos)
  else if decide (wireType <> WireTypeStartGroup /\ wireType <> WireTypeEndGroup) then
    Some (inr (ErrNew "proto: illegal wireType"))
  else if decide (wireType = WireTypeEndGroup /\ depth = 0) then Some (inr ErrUnexpectedEndOfGroup)
  else
    let depth := if decide (wireType = WireTypeStartGroup) then depth + 1 else depth - 1 in
    if decide (depth = 0) then Some (inl pos)
    else
      match fuel with
      | O => None
      | S fuel =>
          match ConsumeTag buf pos with
          | Some (inl (_, wireType, pos)) => unknownLoop fuel buf pos wireType depth
          | Some (inr err) => Some (inr err)
          | None => None
          end
      end.

Definition ConsumeUnknown (buf : list Z) (pos wireType : Z) : option (Z + error) :=
  unknownLoop (length buf) buf pos wireType 0.

(** * The wire format is sound *)

(** The base-128 digits of [v], the least significant first, at most [S fuel] of them. *)
Fixpoint varint (fuel : nat) (v : Z) : list Z :=
  match fuel with
  | O => [v]
  | S fuel => if decide (v < 128) then [v] else (v mod 128 + 128) :: varint fuel (v / 128)
  end.

(** Nine continuation bytes are enough for a uint64. *)
Definition varint_bytes (v : Z) : list Z := varint 9 v.

(** ** Bits *)

Lemma lor_shiftl num c k : 0 <= k -> 0 <= num < 2 ^ k -> Z.lor num (Z.shiftl c k) = num + c * 2 ^ k.
Proof.
  intros Hk Hn. rewrite <- Z.add_nocarry_lor; [by rewrite Z.shiftl_mul_pow2|].
  apply Z.bits_inj'. intros n Hn0. rewrite Z.land_spec, Z.bits_0, Z.shiftl_spec by done.
  destruct (decide (n < k)).
  - by rewrite (Z.testbit_neg_r c), andb_false_r by lia.
  - rewrite <- (Z.mod_small num (2 ^ k)), Z.mod_pow2_bits_high by lia. done.
Qed.

Lemma land_127 v : Z.land v 127 = v mod 128.
Proof. exact (Z.land_ones v 7 ltac:(lia)). Qed.

Lemma continuation_byte v : Z.lor (Z.land v 127) 128 = v mod 128 + 128.
Proof.
  rewrite land_127. pose proof (Z.mod_pos_bound v 128).
  exact (lor_shiftl (v mod 128) 1 7 ltac:(lia) ltac:(lia)).
Qed.

(** ** The length of an encoding *)

Lemma Sov_small v : 0 <= v < 128 -> Sov v = 1.
Proof.
  intros Hv. unfold Sov, Len64. rewrite decide_False by (intros H0; apply Z.lor_eq_0_iff in H0; lia).
  rewrite log2_lor_1 by lia.
  assert (0 <= Z.log2 (Z.max v 1) < 7) by (split; [apply Z.log2_nonneg|apply Z.log2_lt_pow2; lia]).
  symmetry. apply (Z.div_unique _ _ _ (Z.log2 (Z.max v 1))); lia.
Qed.

Lemma Sov_step v : 128 <= v -> Sov v = 1 + Sov (v / 128).
Proof.
  intros Hv. assert (1 <= v / 128) by (apply Z.div_le_lower_bound; lia).
  unfold Sov, Len64. rewrite !decide_False by (intros H0; apply Z.lor_eq_0_iff in H0; lia).
  rewrite !log2_lor_1, !Z.max_l by lia.
  replace (Z.log2 v) with (Z.log2 (v / 128) + 7).
  { replace (Z.log2 (v / 128) + 7 + 1 + 6) with (Z.log2 (v / 128) + 1 + 6 + 1 * 7) by lia.
    rewrite Z.div_add by lia. lia. }
  change (v / 128) with (v / 2 ^ 7). rewrite <- (Z.shiftr_div_pow2 v 7), Z.log2_shiftr by lia.
  assert (7 <= Z.log2 v) by (apply Z.log2_le_pow2; lia). lia.
Qed.

Lemma varint_length fuel v :
  0 <= v < 2 ^ (7 * Z.of_nat (S fuel)) -> Z.of_nat (length (varint fuel v)) = Sov v.
Proof.
  revert v. induction fuel as [|fuel IH]; intros v Hv; cbn [varint].
  - rewrite Sov_small by (simpl in Hv; lia). done.
  - case_decide; [rewrite Sov_small by lia; done|]. rewrite Sov_step by lia. cbn [length].
    rewrite Nat2Z.inj_succ, IH; [lia|]. split; [apply Z.div_pos; lia|].
    apply Z.div_lt_upper_bound; [lia|].
    replace (7 * Z.of_nat (S (S fuel))) with (7 + 7 * Z.of_nat (S fuel)) in Hv by lia.
    rewrite Z.pow_add_r in Hv by lia. exact (proj2 Hv).
Qed.

(** ** Writing *)

Lemma store_middle pre b0 post b :
  store (pre ++ b0 :: post) (len pre) b = Some (pre ++ b :: post).
Proof.
  unfold store, len. rewrite decide_True by (rewrite length_app; simpl; lia).
  by rewrite Nat2Z.id, insert_app_r_alt, Nat.sub_diag by lia.
Qed.

Lemma len_snoc pre b : len (pre ++ [b]) = len pre + 1.
Proof. unfold len. rewrite length_app. simpl. lia. Qed.

Lemma encodeLoop_varint fuel pre old post v :
  0 <= v < 2 ^ (7 * Z.of_nat (S fuel)) -> length old = length (varint fuel v) ->
  len (pre ++ old ++ post) < 2 ^ 63 ->
  exists buf offset last, encodeLoop fuel (pre ++ old ++ post) (len pre) v = Some (buf, offset, last) /\
    store buf offset last = Some (pre ++ varint fuel v ++ post).
Proof.
  revert pre old v. induction fuel as [|fuel IH]; intros pre old v Hv Hl Hb; cbn [varint encodeLoop] in *.
  - change (7 * Z.of_nat 1) with 7 in Hv. change (Z.shiftl 1 7) with 128. rewrite decide_False by lia.
    destruct old as [|b0 []]; simpl in Hl; try lia. eexists _, _, _. split; [done|]. apply store_middle.
  - change (Z.shiftl 1 7) with 128. destruct (decide (v < 128)) as [Hs|Hs].
    { rewrite decide_False by lia. destruct old as [|b0 []]; simpl in Hl; try lia.
      eexists _, _, _. split; [done|]. apply store_middle. }
    rewrite decide_True by lia. destruct old as [|b0 old]; simpl in Hl; [lia|]. cbn [app].
    rewrite store_middle, continuation_byte, i64_id.
    2: { unfold len in *. rewrite !length_app in Hb. simpl in Hb. lia. }
    rewrite <- (len_snoc pre (v mod 128 + 128)), cons_middle, app_assoc, Z.shiftr_div_pow2 by lia.
    destruct (IH (pre ++ [v mod 128 + 128]) old (v / 128)) as (buf & off & last & E & Est).
    + split; [apply Z.div_pos; lia|]. apply Z.div_lt_upper_bound; [lia|].
      replace (7 * Z.of_nat (S (S fuel))) with (7 + 7 * Z.of_nat (S fuel)) in Hv by lia.
      rewrite Z.pow_add_r in Hv by lia. exact (proj2 Hv).
    + lia.
    + unfold len in *. rewrite !length_app in *. simpl in *. lia.
    + exists buf, off, last. split; [exact E|]. rewrite Est. by rewrite <- app_assoc.
Qed.

Lemma EncodeVarint_spec buf offset v :
  0 <= v < 2 ^ 64 -> Sov v <= offset <= len buf -> len buf < 2 ^ 63 ->
  EncodeVarint buf offset v =
    Some (take (Z.to_nat (offset - Sov v)) buf ++ varint_bytes v ++ drop (Z.to_nat offset) buf, offset - Sov v).
Proof.
  intros Hv Ho Hb. unfold EncodeVarint. pose proof (Sov_pos v ltac:(lia)).
  rewrite i64_id by lia. set (base := offset - Sov v).
  assert (0 <= v < 2 ^ (7 * Z.of_nat 10)) as Hv' by (change (7 * Z.of_nat 10) with 70; lia).
  pose proof (varint_length 9 v Hv') as Hlen.
  assert (buf = take (Z.to_nat base) buf ++ take (Z.to_nat (Sov v)) (drop (Z.to_nat base) buf) ++
                drop (Z.to_nat offset) buf) as Hbuf.
  { replace (Z.to_nat offset) with (Z.to_nat base + Z.to_nat (Sov v))%nat by lia.
    rewrite <- drop_drop, take_drop. symmetry. apply take_drop. }
  destruct (encodeLoop_varint 9 (take (Z.to_nat base) buf) (take (Z.to_nat (Sov v)) (drop (Z.to_nat base) buf))
    (drop (Z.to_nat offset) buf) v Hv') as (buf' & off & last & E & Est).
  - unfold len in *. rewrite length_take, length_drop. lia.
  - rewrite <- Hbuf. lia.
  - rewrite <- Hbuf in E. unfold len at 1 in E. rewrite length_take in E.
    replace (Z.of_nat (Z.to_nat base `min` length buf)) with base in E by (unfold len in *; lia).
    rewrite E, Est. done.
Qed.

(** ** Reading *)

Lemma load_middle pre b post : load (pre ++ b :: post) (len pre) = Some b.
Proof.
  unfold load, len. rewrite decide_True by lia. rewrite Nat2Z.id, lookup_app_r, Nat.sub_diag by lia. done.
Qed.

Lemma shift_in num b shift :
  0 <= shift -> 0 <= num < 2 ^ shift -> 0 <= (b mod 128) * 2 ^ shift < 2 ^ 64 ->
  Z.lor num (u64 (Z.shiftl (Z.land b 127) shift)) = num + (b mod 128) * 2 ^ shift.
Proof.
  intros Hs Hn Hb. rewrite land_127, u64_id by (rewrite Z.shiftl_mul_pow2; lia). by apply lor_shiftl.
Qed.

Lemma consumeLoop_varint g v shift num pre post f :
  0 <= v < 2 ^ (7 * Z.of_nat (S g)) -> v * 2 ^ shift < 2 ^ 64 -> 0 <= shift -> shift + 7 * Z.of_nat g < 64 ->
  0 <= num < 2 ^ shift -> (g <= f)%nat -> len (pre ++ varint g v ++ post) < 2 ^ 63 ->
  consumeLoop f (pre ++ varint g v ++ post) (len pre) shift num =
    Some (inl (num + v * 2 ^ shift, len pre + Z.of_nat (length (varint g v)))).
Proof.
  revert v shift num pre f. induction g as [|g IH]; intros v shift num pre f Hv Hvs Hs Hsg Hn Hf Hb.
  all: assert (0 < 2 ^ shift) by (apply Z.pow_pos_nonneg; lia).
  all: assert (forall w l, w < 128 -> 0 <= w -> w * 2 ^ shift < 2 ^ 64 -> len (pre ++ w :: l) < 2 ^ 63 ->
    consumeLoop f (pre ++ w :: l) (len pre) shift num = Some (inl (num + w * 2 ^ shift, len pre + 1))) as Hlast.
  1,3: intros w l Hw Hw0 Hws Hl; destruct f; cbn [consumeLoop];
    (rewrite decide_False by lia); (rewrite decide_False by (unfold len; rewrite length_app; simpl; lia));
    rewrite load_middle, shift_in, (Z.mod_small w 128), decide_True, i64_id by
      (rewrite ?(Z.mod_small w 128) by lia; unfold len in *; rewrite ?length_app in Hl; simpl in Hl; nia); done.
  - cbn [varint length app] in *. change (7 * Z.of_nat 1) with 7 in Hv. apply Hlast; [lia..|done].
  - cbn [varint] in *. destruct (decide (v < 128)); cbn [length app] in *; [apply Hlast; [lia..|done]|].
    destruct f as [|f]; [lia|]. cbn [consumeLoop]. rewrite decide_False by lia.
    rewrite decide_False by (unfold len; rewrite length_app; simpl; lia). rewrite load_middle.
    pose proof (Z.mod_pos_bound v 128 ltac:(lia)) as Hm. pose proof (Z.div_mod v 128 ltac:(lia)) as Hd.
    assert ((v mod 128 + 128) mod 128 = v mod 128) as Hmm
      by (rewrite <- (Z.mul_1_l 128) at 2; rewrite Z_mod_plus_full, Z.mod_mod; lia).
    rewrite shift_in, Hmm by (rewrite ?Hmm; nia). rewrite decide_False by lia. rewrite i64_id.
    2: { unfold len in *. rewrite length_app in Hb. simpl in Hb. lia. }
    rewrite <- (len_snoc pre (v mod 128 + 128)), cons_middle, app_assoc.
    assert (2 ^ (shift + 7) = 128 * 2 ^ shift) as Hpow by (rewrite Z.pow_add_r by lia; lia).
    rewrite IH.
    + rewrite len_snoc, Hpow. do 2 f_equal. f_equal; [nia|lia].
    + split; [apply Z.div_pos; lia|]. apply Z.div_lt_upper_bound; [lia|].
      replace (7 * Z.of_nat (S (S g))) with (7 + 7 * Z.of_nat (S g)) in Hv by lia.
      rewrite Z.pow_add_r in Hv by lia. exact (proj2 Hv).
    + rewrite Hpow. nia.
    + lia.
    + lia.
    + rewrite Hpow. nia.
    + lia.
    + unfold len in *. rewrite !length_app in *. simpl in *. rewrite length_app in *. lia.
Qed.

(** EncodeVarint writes the base-128 digits of a uint64 in the Sov bytes before the
    offset, touches nothing else, and ConsumeVarint at the position it returns reads the
    number back and ends at the offset. *)
Theorem varint_roundtrip buf offset v :
  0 <= v < 2 ^ 64 -> Sov v <= offset <= len buf -> len buf < 2 ^ 63 ->
  exists buf' base, EncodeVarint buf offset v = Some (buf', base) /\
    base = offset - Sov v /\ length buf' = length buf /\
    (forall i, 0 <= i < base \/ offset <= i -> load buf' i = load buf i) /\
    ConsumeVarint buf' base = Some (inl (v, offset)).
Proof.
  intros Hv Ho Hb. pose proof (Sov_pos v ltac:(lia)).
  assert (0 <= v < 2 ^ (7 * Z.of_nat 10)) as Hv' by (change (7 * Z.of_nat 10) with 70; lia).
  pose proof (varint_length 9 v Hv') as Hlen. fold (varint_bytes v) in Hlen.
  rewrite (EncodeVarint_spec buf offset v Hv Ho Hb). set (base := offset - Sov v).
  assert (len (take (Z.to_nat base) buf) = base) as Hbase
    by (unfold len in *; rewrite length_take; lia).
  eexists _, _. split; [done|]. split; [done|].
  assert (length (take (Z.to_nat base) buf ++ varint_bytes v ++ drop (Z.to_nat offset) buf) = length buf) as Hl
    by (unfold len in *; rewrite !length_app, length_take, length_drop; lia).
  split; [done|]. split.
  - intros i Hi. unfold load. case_decide; [|done]. destruct Hi as [Hi|Hi].
    + rewrite lookup_app_l by (rewrite length_take; unfold len in *; lia). apply lookup_take_lt. lia.
    + rewrite app_assoc, lookup_app_r by (rewrite length_app, length_take; unfold len in *; lia).
      rewrite lookup_drop. f_equal. rewrite length_app, length_take. unfold len in *. lia.
  - unfold ConsumeVarint, varint_bytes. rewrite <- Hbase at 2. rewrite consumeLoop_varint.
    + do 2 f_equal. f_equal; [lia|]. rewrite Hbase. fold (varint_bytes v). lia.
    + exact Hv'.
    + lia.
    + lia.
    + lia.
    + lia.
    + lia.
    + unfold len. fold (varint_bytes v). rewrite Hl. exact Hb.
Qed.

(** ** Safety *)

Definition bytes_ok (buf : list Z) : Prop := Forall (fun b => 0 <= b < 256) buf.

Lemma load_some buf pos : 0 <= pos < len buf -> exists b, load buf pos = Some b /\ b ∈ buf.
Proof.
  intros Hp. unfold load. rewrite decide_True by lia.
  destruct (lookup_lt_is_Some_2 buf (Z.to_nat pos)) as [b Hb]; [unfold len in Hp; lia|].
  exists b. split; [done|]. by eapply list_elem_of_lookup_2.
Qed.

Lemma lor_u64 a b : 0 <= a < 2 ^ 64 -> 0 <= b < 2 ^ 64 -> 0 <= Z.lor a b < 2 ^ 64.
Proof.
  intros Ha Hb. assert (0 <= Z.lor a b) as Hn by (apply Z.lor_nonneg; lia). split; [done|].
  destruct (decide (Z.lor a b = 0)) as [->|]; [lia|]. apply Z.log2_lt_pow2; [lia|].
  rewrite Z.log2_lor by lia. apply Z.max_lub_lt.
  - destruct (decide (a = 0)) as [->|]; [simpl; lia|]. apply Z.log2_lt_pow2; lia.
  - destruct (decide (b = 0)) as [->|]; [simpl; lia|]. apply Z.log2_lt_pow2; lia.
Qed.

Lemma consumeLoop_safe f buf pos shift num :
  len buf < 2 ^ 63 -> 0 <= pos -> 64 <= shift + 7 * Z.of_nat f -> 0 <= num < 2 ^ 64 ->
  exists r, consumeLoop f buf pos shift num = Some r /\
    forall v p, r = inl (v, p) -> pos < p <= len buf /\ 0 <= v < 2 ^ 64.
Proof.
  intros Hb. revert pos shift num. induction f as [|f IH]; intros pos shift num Hp Hf Hn; cbn [consumeLoop].
  { rewrite decide_True by lia. eexists. split; [done|]. done. }
  case_decide; [eexists; split; [done|]; done|]. case_decide; [eexists; split; [done|]; done|].
  destruct (load_some buf pos) as (b & -> & _); [lia|]. rewrite i64_id by lia.
  pose proof (lor_u64 num (u64 (Z.shiftl (Z.land b 127) shift)) Hn ltac:(auto with go)) as Hl.
  case_decide.
  - eexists. split; [done|]. intros v p [= <- <-]. split; [lia|done].
  - destruct (IH (pos + 1) (shift + 7) _ ltac:(lia) ltac:(lia) Hl) as (r & -> & Hr).
    exists r. split; [done|]. intros v p E. destruct (Hr v p E). split; [lia|done].
Qed.

Lemma ConsumeVarint_safe buf pos :
  len buf < 2 ^ 63 -> 0 <= pos ->
  exists r, ConsumeVarint buf pos = Some r /\ forall v p, r = inl (v, p) -> pos < p <= len buf /\ 0 <= v < 2 ^ 64.
Proof. intros Hb Hp. apply consumeLoop_safe; [done|done|simpl; lia|lia]. Qed.

Lemma ConsumeFixed_safe n buf pos :
  0 < n < 2 ^ 32 -> len buf < 2 ^ 63 -> 0 <= pos <= len buf ->
  exists r, ConsumeFixed n buf pos = Some r /\ forall v p, r = inl (v, p) -> pos < p <= len buf.
Proof.
  intros Hn Hb Hp. unfold ConsumeFixed.
  case_decide as Hr; [eexists; split; [done|]; done|].
  assert (i64 (pos + n) = pos + n) as E.
  { unfold i64 in *. destruct (decide (pos + n < 2 ^ 63)); [rewrite Z.mod_small; lia|]. exfalso.
    apply Hr. left. replace (pos + n + 2 ^ 63) with ((pos + n - 2 ^ 63) + 1 * 2 ^ 64) by lia.
    rewrite Z_mod_plus_full, Z.mod_small by lia. lia. }
  rewrite E in *. rewrite decide_True by lia. eexists. split; [done|]. intros v p [= _ <-]. lia.
Qed.

Lemma ConsumeLen_safe buf pos :
  len buf < 2 ^ 63 -> 0 <= pos ->
  exists r, ConsumeLen buf pos = Some r /\ forall v p, r = inl (v, p) -> 0 <= v /\ pos < p - v /\ p <= len buf.
Proof.
  intros Hb Hp. unfold ConsumeLen. destruct (ConsumeVarint_safe buf pos Hb Hp) as ([[v p]|e] & -> & Hr);
    [|eexists; split; [done|]; done].
  destruct (Hr v p eq_refl) as [Hpp Hv]. case_decide as Hneg; [eexists; split; [done|]; done|].
  pose proof (i64_range v). case_decide as Hend; [eexists; split; [done|]; done|].
  eexists. split; [done|]. intros v' p' [= <- <-].
  assert (i64 (p + i64 v) = p + i64 v) as E.
  { destruct (decide (p + i64 v < 2 ^ 63)); [apply i64_id; lia|]. exfalso. apply Hend. left.
    unfold i64 at 1. replace (p + i64 v + 2 ^ 63) with ((p + i64 v - 2 ^ 63) + 1 * 2 ^ 64) by lia.
    rewrite Z_mod_plus_full, Z.mod_small by lia. lia. }
  rewrite E in *. lia.
Qed.

Lemma ConsumeTag_safe buf pos :
  len buf < 2 ^ 63 -> 0 <= pos ->
  exists r, ConsumeTag buf pos = Some r /\
    forall f w p, r = inl (f, w, p) -> pos < p <= len buf /\ 0 < f < 2 ^ 31 /\ 0 <= w < 8.
Proof.
  intros Hb Hp. unfold ConsumeTag. destruct (ConsumeVarint_safe buf pos Hb Hp) as ([[v p]|e] & -> & Hr);
    [|eexists; split; [done|]; done].
  destruct (Hr v p eq_refl) as [Hpp Hv]. case_decide; [eexists; split; [done|]; done|].
  eexists. split; [done|]. intros f w p' [= <- <- <-]. split; [done|]. split.
  - assert (i32 (Z.shiftr v 3) < 2 ^ 31); [|lia].
    unfold i32. pose proof (Z.mod_pos_bound (Z.shiftr v 3 + 2 ^ 31) (2 ^ 32)). lia.
  - change 7 with (Z.ones 3). rewrite Z.land_ones by lia. apply Z.mod_pos_bound. lia.
Qed.

(** Dropping a value whose parse is safe. *)
Lemma dropValue_safe (c : option ((Z * Z) + error)) pos buf :
  (exists r, c = Some r /\ forall v p, r = inl (v, p) -> pos < p <= len buf) ->
  exists r, dropValue c = Some r /\ forall p, r = inl p -> pos <= p <= len buf.
Proof.
  intros (r & -> & Hr). destruct r as [[v p]|e]; simpl; eexists; (split; [done|]); [|done].
  intros p' [= <-]. specialize (Hr v p eq_refl). lia.
Qed.

Lemma unknownLoop_safe fuel buf pos wireType depth :
  len buf < 2 ^ 63 -> 0 <= pos -> len buf - pos <= Z.of_nat fuel ->
  exists r, unknownLoop fuel buf pos wireType depth = Some r /\
    forall p, r = inl p -> pos <= p <= len buf.
Proof.
  intros Hb. revert pos wireType depth. induction fuel as [|fuel IH]; intros pos wireType depth Hp Hf;
    cbn [unknownLoop].
  { rewrite decide_True by lia. eexists. split; [done|]. done. }
  case_decide as Hend; [eexists; split; [done|]; done|].
  case_decide. { apply dropValue_safe. destruct (ConsumeVarint_safe buf pos Hb Hp) as (r & -> & Hr). naive_solver. }
  case_decide. { apply dropValue_safe. apply ConsumeFixed_safe; lia. }
  case_decide. { apply dropValue_safe. destruct (ConsumeLen_safe buf pos Hb Hp) as (r & -> & Hr).
    exists r. split; [done|]. intros v p E. specialize (Hr v p E). lia. }
  case_decide. { apply dropValue_safe. apply ConsumeFixed_safe; lia. }
  case_decide; [eexists; split; [done|]; done|]. case_decide; [eexists; split; [done|]; done|].
  set (d := if decide _ then depth + 1 else depth - 1). clearbody d.
  case_decide. { eexists. split; [done|]. intros p [= <-]. lia. }
  destruct (ConsumeTag_safe buf pos Hb Hp) as ([[[f w] p]|e] & -> & Hr); [|eexists; split; [done|]; done].
  destruct (Hr f w p eq_refl) as [Hpp _].
  destruct (IH p w d ltac:(lia) ltac:(lia)) as (r & -> & Hr'). exists r. split; [done|].
  intros p' E. specialize (Hr' p' E). lia.
Qed.

(** Whatever the buffer holds, parsing a field from a position inside it never reads
    out of range and ends: tags, varints, lengths, fixed values and unknown fields give
    an error or a position in the buffer that is not before the one they began at; a
    tag's field number and wire type are in range, and the bytes of a length are all in
    the buffer, after it. *)
Theorem consume_safe buf pos wireType :
  len buf < 2 ^ 63 -> 0 <= pos <= len buf ->
  (exists r, ConsumeVarint buf pos = Some r /\ forall v p, r = inl (v, p) -> pos < p <= len buf /\ 0 <= v < 2 ^ 64) /\
  (exists r, ConsumeTag buf pos = Some r /\
     forall f w p, r = inl (f, w, p) -> pos < p <= len buf /\ 0 < f < 2 ^ 31 /\ 0 <= w < 8) /\
  (exists r, ConsumeLen buf pos = Some r /\ forall v p, r = inl (v, p) -> 0 <= v /\ pos < p - v /\ p <= len buf) /\
  (exists r, ConsumeI64 buf pos = Some r /\ forall v p, r = inl (v, p) -> pos < p <= len buf) /\
  (exists r, ConsumeI32 buf pos = Some r /\ forall v p, r = inl (v, p) -> pos < p <= len buf) /\
  (exists r, ConsumeUnknown buf pos wireType = Some r /\ forall p, r = inl p -> pos <= p <= len buf).
Proof.
  intros Hb Hp. split; [apply ConsumeVarint_safe; lia|]. split; [apply ConsumeTag_safe; lia|].
  split; [apply ConsumeLen_safe; lia|]. split; [apply ConsumeFixed_safe; lia|].
  split; [apply ConsumeFixed_safe; lia|]. apply unknownLoop_safe; [done|lia|]. unfold len in *. lia.
Qed.

(** ConsumeUnknown does not skip groups that hold fields.  In a message that ends
    with a group, the one that holds the varint field 1 is left after that field,
    before the end-group tag, and an empty group is rejected as truncated. *)
Theorem group_not_skipped :
  ConsumeUnknown [8; 1; 12] 0 WireTypeStartGroup = Some (inl 2) /\
  ConsumeUnknown [12] 0 WireTypeStartGroup = Some (inr ErrUnexpectedEOF) /\
  ConsumeTag [8; 1; 12] 2 = Some (inl (1, WireTypeEndGroup, 3)).
Proof. repeat split; reflexivity. Qed.

Lemma varint_roundtrip_witness :
  EncodeVarint [7; 0; 0; 0; 9] 4 300 = Some ([7; 0; 172; 2; 9], 2) /\
  exists buf' base, EncodeVarint [7; 0; 0; 0; 9] 4 300 = Some (buf', base) /\
    ConsumeVarint buf' base = Some (inl (300, 4)).
Proof.
  split; [reflexivity|].
  destruct (varint_roundtrip [7; 0; 0; 0; 9] 4 300) as (buf' & base & E & _ & _ & _ & Ec).
  - lia.
  - split; vm_compute; discriminate.
  - vm_compute. reflexivity.
  - exists buf', base. split; [exact E|exact Ec].
Defined.

Lemma consume_safe_witness :
  len [8; 1; 12] < 2 ^ 63 /\
  exists r, ConsumeUnknown [8; 1; 12] 0 WireTypeLen = Some r /\ forall p, r = inl p -> 0 <= p <= 3.
Proof.
  split; [vm_compute; reflexivity|].
  apply (consume_safe [8; 1; 12] 0 WireTypeLen).
  - vm_compute. reflexivity.
  - split; vm_compute; discriminate.
Defined.
