(* ===== verification/BatchProcessor.v ===== *)
(** * BatchProcessor: processor/batchprocessor — batch_processor.go, splittraces.go,
    splitlogs.go, splitmetrics.go and config.go

    A shard is one goroutine, so its behaviour is a function of the sequence of events
    its select takes; the shards of the metadata keys are kept by callers that
    interleave, as a step relation.  pref's reference counts, telemetry and logging are
    left out. *)

From S2P Require Import Prelude.
From S2P Require Import GoErrors.
From S2P Require Import PData.

(** ** The walk that splittraces.go, splitlogs.go and splitmetrics.go nest

    The state is the number of items copied so far and the destination slice. *)

(** An element that fully fits is moved; of another, [part] splits off a part. *)
Definition fitOrSplit {A} (size : Z) (zero : A) (count : A -> Z) (part : Z -> A -> Z * A * A * bool)
    (s : Z * list A) (src : A) : (Z * list A) * A * bool :=
  let '(totalCopied, dest) := s in
  if decide (totalCopied = size) then (s, src, false)
  else if decide (totalCopied + count src <= size) then
    let '(src', dest) := MoveToAppended zero src dest in
    ((totalCopied + count src, dest), src', true)
  else
    let '(totalCopied, ext, src, removed) := part totalCopied src in
    ((totalCopied, dest ++ [ext]), src, removed).

(** The innermost slice, item by item. *)
Definition moveItem {A} (size : Z) (zero : A) (s : Z * list A) (src : A) : (Z * list A) * A * bool :=
  let '(totalCopied, dest) := s in
  if decide (totalCopied = size) then (s, src, false)
  else
    let '(src, dest) := MoveToAppended zero src dest in
    ((totalCopied + 1, dest), src, true).

Section split.
Context `{PData}.

(** *** splittraces.go *)

Definition resourceSC (rs : ResourceSpans) : Z :=
  sum_of (fun ss => Z.of_nat (length (Spans ss))) (rs_ScopeSpans rs).

Definition splitScopeSpans (size totalCopied : Z) (src : ScopeSpans) : Z * ScopeSpans * ScopeSpans * bool :=
  let '((totalCopied, dest), rest) := RemoveIf (moveItem size newSpan) (totalCopied, []) (Spans src) in
  (totalCopied, mkScopeSpans (ss_Scope src) (ss_SchemaUrl src) dest, set_Spans rest src, false).

Definition splitResourceSpans (size totalCopied : Z) (src : ResourceSpans)
  : Z * ResourceSpans * ResourceSpans * bool :=
  let '((totalCopied, dest), rest) :=
    RemoveIf (fitOrSplit size NewScopeSpans (fun ss => Z.of_nat (length (Spans ss))) (splitScopeSpans size))
      (totalCopied, []) (rs_ScopeSpans src) in
  (totalCopied, mkResourceSpans (rs_Resource src) (rs_SchemaUrl src) dest, set_ScopeSpans rest src,
   bool_decide (length rest = 0%nat)).

(** The source afterwards and the data split off; all of it when it is not larger. *)
Definition splitTraces (size : Z) (src : Traces) : Traces * Traces :=
  if decide (SpanCount src <= size) then (src, src)
  else
    let '((_, dest), rest) :=
      RemoveIf (fitOrSplit size NewResourceSpans resourceSC (splitResourceSpans size)) (0, [])
        (td_ResourceSpans src) in
    (mkTraces rest, mkTraces dest).

(** *** splitlogs.go *)

Definition resourceLRC (rl : ResourceLogs) : Z :=
  sum_of (fun sl => Z.of_nat (length (LogRecords sl))) (rl_ScopeLogs rl).

Definition splitScopeLogs (size totalCopied : Z) (src : ScopeLogs) : Z * ScopeLogs * ScopeLogs * bool :=
  let '((totalCopied, dest), rest) := RemoveIf (moveItem size newLogRecord) (totalCopied, []) (LogRecords src) in
  (totalCopied, mkScopeLogs (sl_Scope src) (sl_SchemaUrl src) dest, set_LogRecords rest src, false).

Definition splitResourceLogs (size totalCopied : Z) (src : ResourceLogs)
  : Z * ResourceLogs * ResourceLogs * bool :=
  let '((totalCopied, dest), rest) :=
    RemoveIf (fitOrSplit size NewScopeLogs (fun sl => Z.of_nat (length (LogRecords sl))) (splitScopeLogs size))
      (totalCopied, []) (rl_ScopeLogs src) in
  (totalCopied, mkResourceLogs (rl_Resource src) (rl_SchemaUrl src) dest, set_ScopeLogs rest src,
   bool_decide (length rest = 0%nat)).

Definition splitLogs (size : Z) (src : Logs) : Logs * Logs :=
  if decide (LogRecordCount src <= size) then (src, src)
  else
    let '((_, dest), rest) :=
      RemoveIf (fitOrSplit size NewResourceLogs resourceLRC (splitResourceLogs size)) (0, [])
        (ld_ResourceLogs src) in
    (mkLogs rest, mkLogs dest).

(** *** splitmetrics.go *)

Definition metricDPC (m : Metric) : Z := dataPointsLen m.
Definition scopeMetricsDPC (sm : ScopeMetrics) : Z := sum_of metricDPC (sm_Metrics sm).
Definition resourceMetricsDPC (rm : ResourceMetrics) : Z := sum_of scopeMetricsDPC (rm_ScopeMetrics rm).

(** The four slices of data points are split alike: what is left, what was moved. *)
Definition splitDataPoints {A} (zero : A) (src : list A) (size : Z) : list A * list A :=
  let '((_, dst), rest) :=
    RemoveIf (fun s dp =>
      let '(i, dst) := s in
      if decide (i < size) then
        let '(dp, dst) := MoveToAppended zero dp dst in ((i + 1, dst), dp, true)
      else (s, dp, false)) (0, []) src in
  (rest, dst).
Definition splitNumberDataPoints := splitDataPoints newNumberDataPoint.
Definition splitHistogramDataPoints := splitDataPoints newHistogramDataPoint.
Definition splitExponentialHistogramDataPoints := splitDataPoints newExponentialHistogramDataPoint.
Definition splitSummaryDataPoints := splitDataPoints newSummaryDataPoint.

(** The metric afterwards and the metric split off; [size] points are reported moved. *)
Definition splitMetric (ms : Metric) (size : Z) : Metric * Metric :=
  let dest := mkMetric (m_Name ms) (m_Description ms) (m_Unit ms) [] MetricEmpty in
  match m_Data ms with
  | MetricGauge dps =>
      let '(rest, dst) := splitNumberDataPoints dps size in
      (set_Data (MetricGauge rest) ms, set_Data (MetricGauge dst) dest)
  | MetricSum dps t mono =>
      let '(rest, dst) := splitNumberDataPoints dps size in
      (set_Data (MetricSum rest t mono) ms, set_Data (MetricSum dst t mono) dest)
  | MetricHistogram dps t =>
      let '(rest, dst) := splitHistogramDataPoints dps size in
      (set_Data (MetricHistogram rest t) ms, set_Data (MetricHistogram dst t) dest)
  | MetricExponentialHistogram dps t =>
      let '(rest, dst) := splitExponentialHistogramDataPoints dps size in
      (set_Data (MetricExponentialHistogram rest t) ms, set_Data (MetricExponentialHistogram dst t) dest)
  | MetricSummary dps =>
      let '(rest, dst) := splitSummaryDataPoints dps size in
      (set_Data (MetricSummary rest) ms, set_Data (MetricSummary dst) dest)
  | MetricEmpty => (ms, dest)
  end.

Definition splitOneMetric (size totalCopied : Z) (src : Metric) : Z * Metric * Metric * bool :=
  let '(src, ext) := splitMetric src (size - totalCopied) in
  (totalCopied + (size - totalCopied), ext, src, false).

Definition splitScopeMetrics (size totalCopied : Z) (src : ScopeMetrics)
  : Z * ScopeMetrics * ScopeMetrics * bool :=
  let '((totalCopied, dest), rest) :=
    RemoveIf (fitOrSplit size NewMetric metricDPC (splitOneMetric size)) (totalCopied, []) (sm_Metrics src) in
  (totalCopied, mkScopeMetrics (sm_Scope src) (sm_SchemaUrl src) dest, set_Metrics rest src, false).

Definition splitResourceMetrics (size totalCopied : Z) (src : ResourceMetrics)
  : Z * ResourceMetrics * ResourceMetrics * bool :=
  let '((totalCopied, dest), rest) :=
    RemoveIf (fitOrSplit size NewScopeMetrics scopeMetricsDPC (splitScopeMetrics size))
      (totalCopied, []) (rm_ScopeMetrics src) in
  (totalCopied, mkResourceMetrics (rm_Resource src) (rm_SchemaUrl src) dest, set_ScopeMetrics rest src,
   bool_decide (length rest = 0%nat)).

Definition splitMetrics (size : Z) (src : Metrics) : Metrics * Metrics :=
  if decide (DataPointCount src <= size) then (src, src)
  else
    let '((_, dest), rest) :=
      RemoveIf (fitOrSplit size NewResourceMetrics resourceMetricsDPC (splitResourceMetrics size)) (0, [])
        (md_ResourceMetrics src) in
    (mkMetrics rest, mkMetrics dest).
End split.

(** ** batchTraces, batchLogs and batchMetrics over their data *)

Class BatchData (D : Type) := {
  newData : D;
  dataCount : D -> Z;
  (** (source, destination) after the resources moved and were appended. *)
  moveAppend : D -> D -> D * D;
  splitData : Z -> D -> D * D;
}.

#[export] Instance traces_data `{PData} : BatchData Traces := {|
  newData := NewTraces; dataCount := SpanCount; splitData := splitTraces;
  moveAppend src dst := (mkTraces [], mkTraces (td_ResourceSpans dst ++ td_ResourceSpans src)) |}.
#[export] Instance logs_data `{PData} : BatchData Logs := {|
  newData := NewLogs; dataCount := LogRecordCount; splitData := splitLogs;
  moveAppend src dst := (mkLogs [], mkLogs (ld_ResourceLogs dst ++ ld_ResourceLogs src)) |}.
#[export] Instance metrics_data `{PData} : BatchData Metrics := {|
  newData := NewMetrics; dataCount := DataPointCount; splitData := splitMetrics;
  moveAppend src dst := (mkMetrics [], mkMetrics (md_ResourceMetrics dst ++ md_ResourceMetrics src)) |}.

Record batch (D : Type) := mkBatch { b_data : D; b_count : Z }.
Arguments mkBatch {D} _ _.
Arguments b_data {D} _.
Arguments b_count {D} _.

Section batch.
Context {D : Type} `{BatchData D}.

Definition newBatch : batch D := mkBatch newData 0.
Definition itemCount (b : batch D) : Z := b_count b.

Definition add (td : D) (b : batch D) : batch D :=
  let newCount := dataCount td in
  if decide (newCount = 0) then b
  else mkBatch (snd (moveAppend td (b_data b))) (b_count b + newCount).

Definition split (sendBatchMaxSize : Z) (b : batch D) : Z * D * batch D :=
  if decide (sendBatchMaxSize > 0 /\ itemCount b > sendBatchMaxSize) then
    let '(src, td) := splitData sendBatchMaxSize (b_data b) in
    (sendBatchMaxSize, td, mkBatch src (b_count b - sendBatchMaxSize))
  else (b_count b, b_data b, mkBatch newData 0).
End batch.

(** ** The shard *)

Record Config := mkConfig {
  Timeout : Z;
  SendBatchSize : Z;
  SendBatchMaxSize : Z;
  MetadataKeys : list string;
  MetadataCardinalityLimit : Z;
}.

(** [ToLower] is strings.ToLower. *)
Fixpoint uniqueKeys (ToLower : string -> string) (uniq : gset string) (keys : list string) : option error :=
  match keys with
  | [] => None
  | k :: keys =>
      let l := ToLower k in
      if decide (l ∈ uniq) then
        Some (ErrNew ("duplicate entry in metadata_keys: " +:+ l +:+ " (case-insensitive)"))
      else uniqueKeys ToLower ({[ l ]} ∪ uniq) keys
  end.

Definition Validate (ToLower : string -> string) (cfg : Config) : option error :=
  if decide (SendBatchMaxSize cfg > 0 /\ SendBatchMaxSize cfg < SendBatchSize cfg) then
    Some (ErrNew "send_batch_max_size must be greater or equal to send_batch_size")
  else
    match uniqueKeys ToLower ∅ (MetadataKeys cfg) with
    | Some err => Some err
    | None =>
        if decide (Timeout cfg < 0) then Some (ErrNew "timeout must be greater or equal to 0") else None
    end.

Inductive trigger := triggerTimeout | triggerBatchSize.

(** [timer]: none, or whether it is set (running, or fired and not received yet);
    [exports]: what export was called with. *)
Record shard (D : Type) := mkShard {
  sbatch : batch D;
  timer : option bool;
  exports : list (trigger * Z * D);
}.
Arguments mkShard {D} _ _ _.
Arguments sbatch {D} _.
Arguments timer {D} _.
Arguments exports {D} _.

(** What the select of startLoop takes. *)
Inductive event (D : Type) := NewItem (item : D) | TimerFires.
Arguments NewItem {D} _.
Arguments TimerFires {D}.

Section shard.
Context {D : Type} `{BatchData D}.
Context (cfg : Config).
Abbreviation shard := (shard D).

Definition newShard : shard := mkShard newBatch None [].

Definition hasTimer (b : shard) : bool := bool_decide (timer b <> None).

(** [None]: the receive from a timer that was received already blocks for ever. *)
Definition stopTimer (b : shard) : option shard :=
  match timer b with
  | None => Some b
  | Some true => Some (mkShard (sbatch b) (Some false) (exports b))
  | Some false => None
  end.

Definition resetTimer (b : shard) : shard :=
  match timer b with
  | None => b
  | Some _ => mkShard (sbatch b) (Some true) (exports b)
  end.

Definition sendItems (trg : trigger) (b : shard) : shard :=
  let '(sent, req, bt) := split (SendBatchMaxSize cfg) (sbatch b) in
  mkShard bt (timer b) (exports b ++ [(trg, sent, req)]).

(** The loop of processItem, at most [fuel] times, and whether it sent. *)
Fixpoint sendLoop (fuel : nat) (sent : bool) (b : shard) : option (shard * bool) :=
  if decide (itemCount (sbatch b) > 0) then
    if negb (hasTimer b) || bool_decide (itemCount (sbatch b) >= SendBatchSize cfg) then
      match fuel with
      | O => None
      | S fuel => sendLoop fuel true (sendItems triggerBatchSize b)
      end
    else Some (b, sent)
  else Some (b, sent).

(** Every round sends an item. *)
Definition processItem (item : D) (b : shard) : option shard :=
  let b := mkShard (add item (sbatch b)) (timer b) (exports b) in
  match sendLoop (Z.to_nat (itemCount (sbatch b))) false b with
  | None => None
  | Some (b, sent) =>
      if (sent : bool) then
        match stopTimer b with Some b => Some (resetTimer b) | None => None end
      else Some b
  end.

Definition startTimer (b : shard) : shard :=
  if bool_decide (Timeout cfg <> 0) && bool_decide (SendBatchSize cfg <> 0) then
    mkShard (sbatch b) (Some true) (exports b)
  else b.

Definition handle (ev : event D) (b : shard) : option shard :=
  match ev with
  | NewItem item => processItem item b
  | TimerFires =>
      match timer b with
      | Some true =>
          let b := mkShard (sbatch b) (Some false) (exports b) in
          let b := if decide (itemCount (sbatch b) > 0) then sendItems triggerTimeout b else b in
          Some (resetTimer b)
      | _ => None (* the select cannot take it *)
      end
  end.

Fixpoint loop (evs : list (event D)) (b : shard) : option shard :=
  match evs with
  | [] => Some b
  | ev :: evs => match handle ev b with Some b => loop evs b | None => None end
  end.

(** The shutdown branch: the items left in the channel, then what is pending. *)
Definition finish (pending : list D) (b : shard) : option shard :=
  match loop (NewItem <$> pending) b with
  | None => None
  | Some b => Some (if decide (itemCount (sbatch b) > 0) then sendItems triggerTimeout b else b)
  end.

Definition startLoop (evs : list (event D)) : option shard := loop evs (startTimer newShard).
End shard.

(** ** multiShardBatcher *)

Definition errTooManyBatchers : error :=
  NewPermanent (ErrNew "too many batcher metadata-value combinations").

(** attribute.KeyValue, of a string or of a string slice. *)
Abbreviation KeyValue := (string * (string + list string))%type.

(** The attributes of the metadata of a request. *)
Definition requestAttrs (metadataKeys : list string) (Get : string -> list string) : list KeyValue :=
  (fun k => match Get k with [v] => (k, inl v) | vs => (k, inr vs) end) <$> metadataKeys.

Section multi.
(** attribute.Set *)
Context {K : Type} `{Countable K}.
Context (metadataLimit : Z).

(** [batchers]: the shard of an attribute set, by number; [started]: the shards whose
    goroutine was started; [msize]: the field size. *)
Record multiShardBatcher := mkMulti { batchers : gmap K nat; msize : Z; mstarted : list nat }.

Definition newMulti : multiShardBatcher := mkMulti ∅ 0 [].

(** The first Load of consume. *)
Definition loadShard (aset : K) (mb : multiShardBatcher) : option nat := batchers mb !! aset.

(** The section under the lock, with the number of the new shard. *)
Definition storeShard (aset : K) (mb : multiShardBatcher) : multiShardBatcher * (nat + error) :=
  if bool_decide (metadataLimit <> 0) && bool_decide (msize mb >= metadataLimit) then
    (mb, inr errTooManyBatchers)
  else
    match batchers mb !! aset with
    | Some b => (mb, inl b)
    | None =>
        let b := size (batchers mb) in
        (mkMulti (<[aset := b]> (batchers mb)) (msize mb + 1) (mstarted mb ++ [b]), inl b)
    end.

(** The callers: [waiting] found no shard and wait for the lock; [results] are the
    shards that were sent an item, or the errors. *)
Record callers := mkCallers {
  mb : multiShardBatcher;
  waiting : list K;
  results : list (K * (nat + error));
}.

Inductive consume_step : callers -> callers -> Prop :=
  | consume_hit s aset b :
      loadShard aset (mb s) = Some b ->
      consume_step s (mkCallers (mb s) (waiting s) (results s ++ [(aset, inl b)]))
  | consume_miss s aset :
      loadShard aset (mb s) = None ->
      consume_step s (mkCallers (mb s) (aset :: waiting s) (results s))
  | consume_locked s w1 aset w2 :
      waiting s = w1 ++ aset :: w2 ->
      consume_step s
        (mkCallers (fst (storeShard aset (mb s))) (w1 ++ w2)
           (results s ++ [(aset, snd (storeShard aset (mb s)))])).
End multi.
Arguments multiShardBatcher K {_ _}.
Arguments callers K {_ _}.
