(* ===== verification/BatchProcessorSplit.v ===== *)
(** * BatchProcessorSplit: splitting takes the first items and leaves the rest, in order

    [BatchDataLaws] is what the shard relies on of the data of a signal; the three
    signals discharge it.  The walk is handled once, for any level. *)

From S2P Require Import Prelude.
From S2P Require Import GoErrors.
From S2P Require Import PData.
From S2P Require Import MetricsBatchProofs.
From S2P Require Import BatchProcessor.

Class BatchDataLaws (D I : Type) `{BatchData D} := {
  data_items : D -> list I;
  data_count : forall d, dataCount d = Z.of_nat (length (data_items d));
  data_new : data_items newData = [];
  data_move : forall s d, data_items (snd (moveAppend s d)) = data_items d ++ data_items s;
  data_split : forall size d s ext, 0 < size -> size < dataCount d -> splitData size d = (s, ext) ->
    data_items ext = take (Z.to_nat size) (data_items d) /\
    data_items s = drop (Z.to_nat size) (data_items d);
}.

(** ** One level *)

Section walk.
Context {A I : Type} (items : A -> list I) (size : Z).
Abbreviation all := (fun es => concat (items <$> es)).

(** What [f] does to one element: it takes the items that still fit. *)
Definition takes (f : Z * list A -> A -> (Z * list A) * A * bool) : Prop :=
  forall c d src c' d' src' removed, 0 <= c <= size -> f (c, d) src = ((c', d'), src', removed) ->
    c' = Z.min size (c + Z.of_nat (length (items src))) /\
    all d' = all d ++ take (Z.to_nat (size - c)) (items src) /\
    (if (removed : bool) then [] else items src') = drop (Z.to_nat (size - c)) (items src).

Lemma RemoveIf_takes f c d es c' d' rest :
  takes f -> 0 <= c <= size -> RemoveIf f (c, d) es = ((c', d'), rest) ->
  c' = Z.min size (c + Z.of_nat (length (all es))) /\
  all d' = all d ++ take (Z.to_nat (size - c)) (all es) /\
  all rest = drop (Z.to_nat (size - c)) (all es).
Proof.
  intros Hf. revert c d c' d' rest. induction es as [|e es IH]; intros c d c' d' rest Hc; csimpl.
  { intros [= <- <- <-]. rewrite take_nil, drop_nil, app_nil_r. simpl. split; [lia|done]. }
  destruct (f (c, d) e) as [[[c1 d1] e1] removed] eqn:Ef.
  destruct (RemoveIf f (c1, d1) es) as [[c2 d2] rest2] eqn:Er. intros [= <- <- <-].
  apply Hf in Ef as (E1 & E2 & E3); [|done].
  apply IH in Er as (E4 & E5 & E6); [|lia]. rewrite length_app.
  split; [lia|]. split.
  - rewrite E5, E2, <- app_assoc. f_equal. rewrite take_app. f_equal. f_equal. lia.
  - rewrite drop_app. transitivity ((if (removed : bool) then [] else items e1) ++ all rest2).
    { by destruct removed. }
    rewrite E3, E6. f_equal. f_equal. lia.
Qed.

(** [part] splits an element that does not fit. *)
Definition parts (part : Z -> A -> Z * A * A * bool) : Prop :=
  forall c src c' ext src' removed,
    0 <= c < size -> size < c + Z.of_nat (length (items src)) -> part c src = (c', ext, src', removed) ->
    c' = size /\ items ext = take (Z.to_nat (size - c)) (items src) /\
    items src' = drop (Z.to_nat (size - c)) (items src) /\ (removed = true -> items src' = []).

Lemma fitOrSplit_takes zero count part :
  (forall a, count a = Z.of_nat (length (items a))) -> parts part ->
  takes (fitOrSplit size zero count part).
Proof.
  intros Hcount Hpart c d src c' d' src' removed Hc. unfold fitOrSplit, MoveToAppended.
  rewrite Hcount. case_decide as Hfull.
  { intros [= <- <- <- <-]. replace (size - c) with 0 by lia. simpl. rewrite app_nil_r.
    split; [lia|done]. }
  case_decide as Hfit.
  - intros [= <- <- <- <-]. rewrite fmap_app, concat_app. simpl. rewrite app_nil_r.
    rewrite take_ge, drop_ge by lia. split; [lia|done].
  - destruct (part c src) as [[[c1 ext] src1] rem] eqn:E. intros [= <- <- <- <-].
    apply Hpart in E as (-> & E1 & E2 & E3); [|lia|lia].
    rewrite fmap_app, concat_app. simpl. rewrite app_nil_r, E1. split; [lia|]. split; [done|].
    destruct rem; [|done]. by rewrite <- E2, E3.
Qed.
End walk.

(** The items of a slice are its elements. *)
Lemma moveItem_takes {A} size (zero : A) : takes (fun a => [a]) size (moveItem size zero).
Proof.
  intros c d src c' d' src' removed Hc. unfold moveItem, MoveToAppended. case_decide as Hfull.
  - intros [= <- <- <- <-]. replace (size - c) with 0 by lia. simpl. rewrite app_nil_r. split; [lia|done].
  - intros [= <- <- <- <-]. rewrite fmap_app, concat_app. simpl.
    assert (exists n, Z.to_nat (size - c) = S n) as [n ->] by (exists (Z.to_nat (size - c - 1)); lia).
    simpl. by rewrite take_nil, drop_nil; split; [lia|].
Qed.

Lemma concat_singletons {A} (l : list A) : concat ((fun a => [a]) <$> l) = l.
Proof. induction l as [|a l IH]; simpl; [done|by f_equal]. Qed.

Lemma moveItem_walk {A} size (zero : A) c es c' d' rest :
  0 <= c < size -> size < c + Z.of_nat (length es) ->
  RemoveIf (moveItem size zero) (c, []) es = ((c', d'), rest) ->
  c' = size /\ d' = take (Z.to_nat (size - c)) es /\ rest = drop (Z.to_nat (size - c)) es.
Proof.
  intros Hc Hl E. apply (RemoveIf_takes (fun a => [a]) size _ _ _ _ _ _ _ (moveItem_takes size zero)) in E
    as (E1 & E2 & E3); [|lia]. rewrite !concat_singletons in *. simpl in E2. split; [lia|done].
Qed.

Lemma parts_scope {A B I J} (items : A -> list I) (items' : B -> list J) size
    (f : Z * list A -> A -> (Z * list A) * A * bool) (slice : B -> list A) (tag : B -> I -> J) (part : _) :
  takes items size f ->
  (forall b, items' b = tag b <$> concat (items <$> slice b)) ->
  (forall c b c' ext b' removed, part c b = (c', ext, b', removed) ->
     exists d rest, RemoveIf f (c, []) (slice b) = ((c', d), rest) /\
       slice ext = d /\ tag ext = tag b /\ slice b' = rest /\ tag b' = tag b /\
       (removed = true -> rest = [])) ->
  parts items' size part.
Proof.
  intros Hf Hi Hp c b c' ext b' removed Hc Hl E. apply Hp in E as (d & rest & E & <- & Et & <- & Et' & Hr).
  rewrite Hi, length_fmap in Hl.
  apply (RemoveIf_takes items size) in E as (E1 & E2 & E3); [|done|lia]. simpl in E2.
  rewrite !Hi, Et, Et', E2, E3, fmap_take, fmap_drop.
  split; [lia|]. split; [done|]. split; [done|]. intros Hrem. rewrite <- fmap_drop, <- E3, (Hr Hrem). done.
Qed.

(** The top level of a split that does not take everything. *)
Lemma split_top {A I} (items : A -> list I) size zero count part es c' d' rest :
  (forall a, count a = Z.of_nat (length (items a))) -> parts items size part -> 0 < size ->
  RemoveIf (fitOrSplit size zero count part) (0, []) es = ((c', d'), rest) ->
  concat (items <$> d') = take (Z.to_nat size) (concat (items <$> es)) /\
  concat (items <$> rest) = drop (Z.to_nat size) (concat (items <$> es)).
Proof.
  intros Hcount Hpart Hs E.
  apply (RemoveIf_takes items size) in E as (_ & E1 & E2); [|by apply fitOrSplit_takes|lia].
  rewrite Z.sub_0_r in *. done.
Qed.

Lemma bool_decide_length_nil {A} (l : list A) : bool_decide (length l = 0%nat) = true -> l = [].
Proof. intros Hl%bool_decide_eq_true. by apply nil_length_inv. Qed.

(** ** The three signals *)

Section signals.
Context `{PData}.

(** A span or a record with the scope and the resource it was recorded under. *)
Definition scope_spans (ss : ScopeSpans) : list (Scope * string * Span) :=
  (fun s => (ss_Scope ss, ss_SchemaUrl ss, s)) <$> Spans ss.
Definition resource_spans (rs : ResourceSpans) : list (Resource * string * (Scope * string * Span)) :=
  (fun s => (rs_Resource rs, rs_SchemaUrl rs, s)) <$> concat (scope_spans <$> rs_ScopeSpans rs).

Lemma splitScopeSpans_parts size : parts scope_spans size (splitScopeSpans size).
Proof.
  apply (parts_scope (fun a => [a]) scope_spans size (moveItem size newSpan) Spans
           (fun ss s => (ss_Scope ss, ss_SchemaUrl ss, s))); [apply moveItem_takes| |].
  - intros ss. unfold scope_spans. by rewrite concat_singletons.
  - intros c ss c' ext ss' removed. unfold splitScopeSpans.
    destruct (RemoveIf _ _ _) as [[c1 d] rest] eqn:E. intros [= <- <- <- <-].
    exists d, rest. split_and!; done.
Qed.

Lemma splitResourceSpans_parts size : parts resource_spans size (splitResourceSpans size).
Proof.
  apply (parts_scope scope_spans resource_spans size
           (fitOrSplit size NewScopeSpans (fun ss => Z.of_nat (length (Spans ss))) (splitScopeSpans size))
           rs_ScopeSpans (fun rs s => (rs_Resource rs, rs_SchemaUrl rs, s))); [|done|].
  - apply fitOrSplit_takes; [intros ss; unfold scope_spans; by rewrite length_fmap|apply splitScopeSpans_parts].
  - intros c rs c' ext rs' removed. unfold splitResourceSpans.
    destruct (RemoveIf _ _ _) as [[c1 d] rest] eqn:E. intros [= <- <- <- <-].
    exists d, rest. split_and!; try done. apply bool_decide_length_nil.
Qed.

Lemma resourceSC_length rs : resourceSC rs = Z.of_nat (length (resource_spans rs)).
Proof.
  unfold resourceSC, resource_spans. rewrite length_fmap, <- sum_of_length.
  apply sum_of_ext. intros ss. unfold scope_spans. by rewrite length_fmap.
Qed.

Definition traces_spans (td : Traces) := concat (resource_spans <$> td_ResourceSpans td).

Lemma SpanCount_length td : SpanCount td = Z.of_nat (length (traces_spans td)).
Proof.
  unfold SpanCount, traces_spans. rewrite <- sum_of_length. apply sum_of_ext. exact resourceSC_length.
Qed.

#[export, program] Instance traces_data_laws :
  BatchDataLaws Traces (Resource * string * (Scope * string * Span)) := {| data_items := traces_spans |}.
Next Obligation. exact SpanCount_length. Qed.
Next Obligation. done. Qed.
Next Obligation. intros s d. unfold traces_spans. simpl. by rewrite fmap_app, concat_app. Qed.
Next Obligation.
  intros size d s ext Hs Hl. simpl in *. unfold splitTraces. rewrite decide_False by lia.
  destruct (RemoveIf _ _ _) as [[c dest] rest] eqn:E. intros [= <- <-].
  eapply (split_top resource_spans); [exact resourceSC_length|apply splitResourceSpans_parts|done|exact E].
Qed.

Definition scope_records (sl : ScopeLogs) : list (Scope * string * LogRecord) :=
  (fun s => (sl_Scope sl, sl_SchemaUrl sl, s)) <$> LogRecords sl.
Definition resource_records (rl : ResourceLogs) : list (Resource * string * (Scope * string * LogRecord)) :=
  (fun s => (rl_Resource rl, rl_SchemaUrl rl, s)) <$> concat (scope_records <$> rl_ScopeLogs rl).
Definition logs_records (ld : Logs) := concat (resource_records <$> ld_ResourceLogs ld).

Lemma splitScopeLogs_parts size : parts scope_records size (splitScopeLogs size).
Proof.
  apply (parts_scope (fun a => [a]) scope_records size (moveItem size newLogRecord) LogRecords
           (fun sl s => (sl_Scope sl, sl_SchemaUrl sl, s))); [apply moveItem_takes| |].
  - intros sl. unfold scope_records. by rewrite concat_singletons.
  - intros c sl c' ext sl' removed. unfold splitScopeLogs.
    destruct (RemoveIf _ _ _) as [[c1 d] rest] eqn:E. intros [= <- <- <- <-].
    exists d, rest. split_and!; done.
Qed.

Lemma splitResourceLogs_parts size : parts resource_records size (splitResourceLogs size).
Proof.
  apply (parts_scope scope_records resource_records size
           (fitOrSplit size NewScopeLogs (fun sl => Z.of_nat (length (LogRecords sl))) (splitScopeLogs size))
           rl_ScopeLogs (fun rl s => (rl_Resource rl, rl_SchemaUrl rl, s))); [|done|].
  - apply fitOrSplit_takes; [intros sl; unfold scope_records; by rewrite length_fmap|apply splitScopeLogs_parts].
  - intros c rl c' ext rl' removed. unfold splitResourceLogs.
    destruct (RemoveIf _ _ _) as [[c1 d] rest] eqn:E. intros [= <- <- <- <-].
    exists d, rest. split_and!; try done. apply bool_decide_length_nil.
Qed.

Lemma resourceLRC_length rl : resourceLRC rl = Z.of_nat (length (resource_records rl)).
Proof.
  unfold resourceLRC, resource_records. rewrite length_fmap, <- sum_of_length.
  apply sum_of_ext. intros sl. unfold scope_records. by rewrite length_fmap.
Qed.

Lemma LogRecordCount_length ld : LogRecordCount ld = Z.of_nat (length (logs_records ld)).
Proof.
  unfold LogRecordCount, logs_records. rewrite <- sum_of_length. apply sum_of_ext. exact resourceLRC_length.
Qed.

#[export, program] Instance logs_data_laws :
  BatchDataLaws Logs (Resource * string * (Scope * string * LogRecord)) := {| data_items := logs_records |}.
Next Obligation. exact LogRecordCount_length. Qed.
Next Obligation. done. Qed.
Next Obligation. intros s d. unfold logs_records. simpl. by rewrite fmap_app, concat_app. Qed.
Next Obligation.
  intros size d s ext Hs Hl. simpl in *. unfold splitLogs. rewrite decide_False by lia.
  destruct (RemoveIf _ _ _) as [[c dest] rest] eqn:E. intros [= <- <-].
  eapply (split_top resource_records); [exact resourceLRC_length|apply splitResourceLogs_parts|done|exact E].
Qed.

(** A data point with its metric, without the metric's metadata. *)
Definition point_header (m : Metric) : Metric :=
  metric_header (mkMetric (m_Name m) (m_Description m) (m_Unit m) [] (m_Data m)).
Definition metric_dps (m : Metric) : list (Metric * dataPoint) := pair (point_header m) <$> metric_points m.
Definition scope_dps (sm : ScopeMetrics) : list (Scope * string * (Metric * dataPoint)) :=
  pair (sm_Scope sm, sm_SchemaUrl sm) <$> concat (metric_dps <$> sm_Metrics sm).
Definition resource_dps (rm : ResourceMetrics) :=
  pair (rm_Resource rm, rm_SchemaUrl rm) <$> concat (scope_dps <$> rm_ScopeMetrics rm).
Definition metrics_dps (md : Metrics) := concat (resource_dps <$> md_ResourceMetrics md).

Lemma splitDataPoints_eq {A} (zero : A) src size :
  0 <= size -> splitDataPoints zero src size = (drop (Z.to_nat size) src, take (Z.to_nat size) src).
Proof.
  intros Hs. unfold splitDataPoints, MoveToAppended.
  match goal with |- context [RemoveIf ?f (0, []) src] => set (step := f) end.
  assert (takes (fun a : A => [a]) size step) as Ht.
  { intros c d a c' d' a' removed Hc. subst step. simpl. case_decide as Hlt; intros [= <- <- <- <-].
    - rewrite fmap_app, concat_app. simpl.
      assert (exists n, Z.to_nat (size - c) = S n) as [n ->] by (exists (Z.to_nat (size - c - 1)); lia).
      simpl. by rewrite take_nil, drop_nil; split; [lia|].
    - replace (size - c) with 0 by lia. simpl. rewrite app_nil_r. split; [lia|done]. }
  destruct (RemoveIf step (0, []) src) as [[c d] rest] eqn:E.
  apply (RemoveIf_takes (fun a => [a]) size) in E as (_ & E1 & E2); [|done|lia].
  rewrite !concat_singletons, Z.sub_0_r in *. by rewrite E1, E2.
Qed.

Lemma splitOneMetric_parts size : parts metric_dps size (splitOneMetric size).
Proof.
  intros c m c' ext m' removed Hc Hl. unfold metric_dps in Hl. rewrite length_fmap in Hl.
  unfold splitOneMetric, splitMetric, splitNumberDataPoints, splitHistogramDataPoints,
    splitExponentialHistogramDataPoints, splitSummaryDataPoints. unfold metric_points in Hl.
  destruct (m_Data m) eqn:Ed; simpl in Hl; rewrite ?length_fmap in Hl; [lia|..];
    rewrite splitDataPoints_eq by lia; intros [= <- <- <- <-]; (split; [lia|]);
    unfold metric_dps, point_header, metric_header, metric_points; simpl;
    rewrite Ed, <- !fmap_take, <- !fmap_drop; split_and!; done.
Qed.

Lemma metricDPC_length m : metricDPC m = Z.of_nat (length (metric_dps m)).
Proof. unfold metricDPC, metric_dps. by rewrite length_fmap, dataPointsLen_points. Qed.

Lemma scopeMetricsDPC_length sm : scopeMetricsDPC sm = Z.of_nat (length (scope_dps sm)).
Proof.
  unfold scopeMetricsDPC, scope_dps. rewrite length_fmap, <- sum_of_length.
  apply sum_of_ext. exact metricDPC_length.
Qed.

Lemma resourceMetricsDPC_length rm : resourceMetricsDPC rm = Z.of_nat (length (resource_dps rm)).
Proof.
  unfold resourceMetricsDPC, resource_dps. rewrite length_fmap, <- sum_of_length.
  apply sum_of_ext. exact scopeMetricsDPC_length.
Qed.

Lemma DataPointCount_length md : DataPointCount md = Z.of_nat (length (metrics_dps md)).
Proof.
  unfold DataPointCount, metrics_dps. rewrite <- sum_of_length. apply sum_of_ext. exact resourceMetricsDPC_length.
Qed.

Lemma splitScopeMetrics_parts size : parts scope_dps size (splitScopeMetrics size).
Proof.
  apply (parts_scope metric_dps scope_dps size
           (fitOrSplit size NewMetric metricDPC (splitOneMetric size)) sm_Metrics
           (fun sm => pair (sm_Scope sm, sm_SchemaUrl sm))); [|done|].
  - apply fitOrSplit_takes; [exact metricDPC_length|apply splitOneMetric_parts].
  - intros c sm c' ext sm' removed. unfold splitScopeMetrics.
    destruct (RemoveIf _ _ _) as [[c1 d] rest] eqn:E. intros [= <- <- <- <-].
    exists d, rest. split_and!; done.
Qed.

Lemma splitResourceMetrics_parts size : parts resource_dps size (splitResourceMetrics size).
Proof.
  apply (parts_scope scope_dps resource_dps size
           (fitOrSplit size NewScopeMetrics scopeMetricsDPC (splitScopeMetrics size))
           rm_ScopeMetrics (fun rm => pair (rm_Resource rm, rm_SchemaUrl rm))); [|done|].
  - apply fitOrSplit_takes; [exact scopeMetricsDPC_length|apply splitScopeMetrics_parts].
  - intros c rm c' ext rm' removed. unfold splitResourceMetrics.
    destruct (RemoveIf _ _ _) as [[c1 d] rest] eqn:E. intros [= <- <- <- <-].
    exists d, rest. split_and!; try done. apply bool_decide_length_nil.
Qed.

#[export, program] Instance metrics_data_laws :
  BatchDataLaws Metrics (Resource * string * (Scope * string * (Metric * dataPoint))) :=
  {| data_items := metrics_dps |}.
Next Obligation. exact DataPointCount_length. Qed.
Next Obligation. done. Qed.
Next Obligation. intros s d. unfold metrics_dps. simpl. by rewrite fmap_app, concat_app. Qed.
Next Obligation.
  intros size d s ext Hs Hl. simpl in *. unfold splitMetrics. rewrite decide_False by lia.
  destruct (RemoveIf _ _ _) as [[c dest] rest] eqn:E. intros [= <- <-].
  eapply (split_top resource_dps); [exact resourceMetricsDPC_length|apply splitResourceMetrics_parts|done|exact E].
Qed.
End signals.
