(* ===== verification/BatchProcessorProofs.v ===== *)
(** * BatchProcessorProofs: a shard exports every item once, in order, in bounded batches,
    and the shards of the metadata keys stay within the limit *)

From S2P Require Import Prelude.
From S2P Require Import GoErrors.
From S2P Require Import PData.
From S2P Require Import MetricsBatchProofs.
From S2P Require Import BatchProcessor.
From S2P Require Import BatchProcessorSplit.

Section shard.
Context {D I : Type} `{BatchDataLaws D I}.
Context (cfg : Config) (Hmax : 0 <= SendBatchMaxSize cfg) (Hsize : 0 <= SendBatchSize cfg).

Definition batch_ok (b : batch D) : Prop := b_count b = Z.of_nat (length (data_items (b_data b))).

Definition export_items (es : list (trigger * Z * D)) : list I := concat ((fun e => data_items e.2) <$> es).

(** A batch is not empty, is counted right, is not above the maximum, and is at least
    the batch size when the size triggered it. *)
Definition export_ok (timed : bool) (e : trigger * Z * D) : Prop :=
  e.1.2 = Z.of_nat (length (data_items e.2)) /\ 0 < e.1.2 /\
  (SendBatchMaxSize cfg > 0 -> e.1.2 <= SendBatchMaxSize cfg) /\
  (timed = true -> e.1.1 = triggerBatchSize ->
   ~ (SendBatchMaxSize cfg > 0 /\ SendBatchMaxSize cfg < SendBatchSize cfg) -> SendBatchSize cfg <= e.1.2).

Lemma add_ok td b : batch_ok b ->
  batch_ok (add td b) /\ data_items (b_data (add td b)) = data_items (b_data b) ++ data_items td.
Proof.
  intros Hb. unfold add, batch_ok in *. case_decide as Hz0; rewrite data_count in *.
  - destruct (data_items td) eqn:E; [by rewrite app_nil_r|]. simpl in Hz0. lia.
  - simpl. rewrite data_move, length_app. split; [lia|done].
Qed.

Lemma split_ok b sent req b' : batch_ok b -> 0 < b_count b -> split (SendBatchMaxSize cfg) b = (sent, req, b') ->
  batch_ok b' /\ data_items req ++ data_items (b_data b') = data_items (b_data b) /\
  sent = Z.of_nat (length (data_items req)) /\ 0 < sent /\ b_count b' = b_count b - sent /\
  sent = (if decide (SendBatchMaxSize cfg > 0 /\ b_count b > SendBatchMaxSize cfg)
          then SendBatchMaxSize cfg else b_count b).
Proof.
  intros Hb Hc. unfold split, itemCount, batch_ok in *. case_decide as Hm.
  - destruct (splitData _ _) as [s ext] eqn:E. intros [= <- <- <-]. simpl.
    apply data_split in E as [E1 E2]; [|lia|rewrite data_count; lia].
    rewrite E1, E2, take_drop, length_take, length_drop. split_and!; try done; lia.
  - intros [= <- <- <-]. simpl. rewrite data_new, app_nil_r. split_and!; simpl; try done; lia.
Qed.

Definition has (b : shard D) : bool := hasTimer b.

Record shard_ok (timed : bool) (ins : list I) (b : shard D) : Prop := {
  so_batch : batch_ok (sbatch b);
  so_timed : hasTimer b = timed;
  so_items : export_items (exports b) ++ data_items (b_data (sbatch b)) = ins;
  so_exports : Forall (export_ok timed) (exports b);
}.

Lemma sendItems_ok timed ins trg b :
  shard_ok timed ins b -> 0 < itemCount (sbatch b) ->
  (trg = triggerBatchSize -> timed = true -> SendBatchSize cfg <= itemCount (sbatch b)) ->
  let b' := sendItems cfg trg b in
  shard_ok timed ins b' /\ timer b' = timer b /\
  (SendBatchMaxSize cfg = 0 \/ itemCount (sbatch b) <= SendBatchMaxSize cfg -> itemCount (sbatch b') = 0) /\
  0 <= itemCount (sbatch b') < itemCount (sbatch b).
Proof.
  intros [Hb Ht Hi He] Hc Htrg. unfold sendItems, itemCount in *.
  destruct (split _ _) as [[sent req] b1] eqn:E. apply split_ok in E as (E1 & E2 & E3 & E4 & E5 & E6); [|done..].
  simpl. split; [split; simpl; try done|].
  - unfold export_items in *. rewrite fmap_app, concat_app. simpl. by rewrite app_nil_r, <- app_assoc, E2.
  - apply Forall_app. split; [done|]. constructor; [|done]. unfold export_ok. simpl.
    split; [done|]. split; [done|]. split; [intros ?; case_decide; lia|].
    intros Htm Htr Hval. specialize (Htrg Htr Htm). case_decide; lia.
  - split; [done|]. unfold batch_ok in *. split; [|lia]. intros Hor. rewrite E5, E6. case_decide; lia.
Qed.

Lemma sendLoop_ok timed ins fuel sent b :
  shard_ok timed ins b -> itemCount (sbatch b) <= Z.of_nat fuel -> 0 <= itemCount (sbatch b) ->
  exists b' sent', sendLoop cfg fuel sent b = Some (b', sent') /\ shard_ok timed ins b' /\ timer b' = timer b /\
    (sent' = false -> sent = false /\ b' = b) /\
    (itemCount (sbatch b') <= 0 \/ timed = true /\ itemCount (sbatch b') < SendBatchSize cfg).
Proof.
  revert sent b. induction fuel as [|fuel IH]; intros sent b Hb Hf Hn; simpl.
  - rewrite decide_False by lia. exists b, sent. split_and!; try done. left. lia.
  - pose proof (so_timed _ _ _ Hb) as Ht. rewrite Ht. case_decide as Hpos; [|exists b, sent; split_and!; try done; left; lia].
    destruct (negb timed || bool_decide _) eqn:Hgo.
    + destruct (sendItems_ok timed ins triggerBatchSize b Hb ltac:(lia)) as (H1 & H2 & H3 & H4).
      { intros _ ->. simpl in Hgo. apply bool_decide_eq_true in Hgo. lia. }
      destruct (IH true _ H1 ltac:(lia) ltac:(lia)) as (b' & sent' & E & H5 & H6 & H7 & H8).
      exists b', sent'. split; [done|]. split; [done|]. split; [congruence|]. split; [|done].
      intros Hs. by destruct (H7 Hs).
    + exists b, sent. apply orb_false_iff in Hgo as [Htm Hlt]. apply negb_false_iff in Htm.
      apply bool_decide_eq_false in Hlt. split_and!; try done. right. split; [done|lia].
Qed.

(** Between two events: the timer is set, and what is pending waits for it. *)
Definition resting (b : shard D) : Prop :=
  timer b <> Some false /\
  (itemCount (sbatch b) <= 0 \/ timer b = Some true /\ itemCount (sbatch b) < SendBatchSize cfg).

Lemma processItem_ok timed ins item b :
  shard_ok timed ins b -> resting b ->
  exists b', processItem cfg item b = Some b' /\ shard_ok timed (ins ++ data_items item) b' /\ resting b'.
Proof.
  intros [Hb Ht Hi He] [Hr _]. destruct (add_ok item _ Hb) as [Hb1 Hi1].
  unfold processItem. set (b1 := mkShard (add item (sbatch b)) (timer b) (exports b)).
  assert (shard_ok timed (ins ++ data_items item) b1) as Hok.
  { split; simpl; [done|exact Ht| |done]. by rewrite Hi1, app_assoc, Hi. }
  assert (0 <= itemCount (sbatch b1)) as Hn by (unfold itemCount; simpl; unfold batch_ok in Hb1; rewrite Hb1; lia).
  destruct (sendLoop_ok _ _ (Z.to_nat (itemCount (sbatch b1))) false b1 Hok) as (b2 & sent & E & H2 & H3 & H4 & H5);
    [lia|lia|].
  change (timer b1) with (timer b) in H3. cbn [sbatch] in E. rewrite E.
  assert (timed = true -> timer b = Some true) as Htt.
  { intros ->. unfold hasTimer in Ht. apply bool_decide_eq_true in Ht. destruct (timer b) as [[]|]; done. }
  destruct sent; [|exists b2; split; [done|]; split; [done|]; unfold resting; rewrite H3; split; [done|];
    destruct H5 as [|[? ?]]; [by left|right; auto]].
  destruct H2 as [G1 G2 G3 G4].
  unfold stopTimer. rewrite H3. destruct (timer b) as [[]|] eqn:Etm; [|done|].
  - eexists. split; [done|]. unfold resetTimer, resting. simpl. split.
    + split; simpl; try done. unfold hasTimer in *. rewrite H3 in G2. simpl in *. done.
    + split; [done|]. destruct H5 as [|[? ?]]; [by left|by right].
  - eexists. split; [done|]. unfold resetTimer. rewrite H3. split; [done|].
    unfold resting. rewrite H3. split; [done|]. left. destruct H5 as [|[Htm _]]; [done|].
    by specialize (Htt Htm).
Qed.

Lemma startTimer_ok :
  let b := startTimer cfg newShard in
  exists timed, shard_ok timed [] b /\ resting b /\ (timed = true -> timer b = Some true).
Proof.
  unfold startTimer, newShard, newBatch, resting. destruct (_ && _) eqn:E.
  - exists true. apply andb_true_iff in E as [_ Es%bool_decide_eq_true].
    split; [|by split; [split; [done|right; split; [done|unfold itemCount; simpl; lia]]|]].
    split; simpl; [unfold batch_ok; simpl; by rewrite data_new|done|by rewrite data_new|done].
  - exists false. split; [|split; [split; [done|left; unfold itemCount; simpl; lia]|done]].
    split; simpl; [unfold batch_ok; simpl; by rewrite data_new|done|by rewrite data_new|done].
Qed.

(** The items of the events taken. *)
Definition consumed (evs : list (event D)) : list I :=
  concat ((fun ev => match ev with NewItem item => data_items item | TimerFires => [] end) <$> evs).

Lemma loop_ok timed evs ins b :
  shard_ok timed ins b -> resting b -> (timed = false -> TimerFires ∉ evs) ->
  exists b', loop cfg evs b = Some b' /\ shard_ok timed (ins ++ consumed evs) b' /\ resting b'.
Proof.
  revert ins b. induction evs as [|ev evs IH]; intros ins b Hb Hr Ht; simpl.
  { exists b. unfold consumed. simpl. by rewrite app_nil_r. }
  assert (forall b1 i1, shard_ok timed (ins ++ i1) b1 -> resting b1 ->
    consumed (ev :: evs) = i1 ++ consumed evs ->
    exists b', loop cfg evs b1 = Some b' /\ shard_ok timed (ins ++ consumed (ev :: evs)) b' /\ resting b') as Hgo.
  { intros b1 i1 H1 H2 ->. rewrite app_assoc. apply IH; [done|done|]. intros Hf Hin. apply (Ht Hf). by right. }
  destruct ev as [item|]; simpl.
  - destruct (processItem_ok timed ins item b Hb Hr) as (b1 & -> & H1 & H2). by apply (Hgo b1 (data_items item)).
  - destruct (timer b) as [[]|] eqn:Etm; [|by destruct Hr|].
    2: { exfalso. destruct (so_timed _ _ _ Hb). unfold hasTimer in *. rewrite Etm in Ht. apply Ht; [done|by left]. }
    case_decide as Hc; simpl.
    + set (b0 := mkShard (sbatch b) (Some false) (exports b)).
      assert (shard_ok timed ins b0) as Hb0.
      { destruct Hb as [? Htm ? ?]. split; simpl; try done. unfold hasTimer in *. by rewrite Etm in Htm. }
      destruct (sendItems_ok timed ins triggerTimeout b0 Hb0) as (H1 & H2 & _ & H3); [simpl; lia|done|].
      apply (Hgo _ []); [|by unfold resetTimer; rewrite H2; simpl; split; [done|];
        destruct Hr as [_ [Hr|[_ Hr]]]; [simpl in *; lia|right; split; [done|simpl in *; lia]]|done].
      rewrite app_nil_r. unfold resetTimer. rewrite H2. simpl. destruct H1 as [? Htm ? ?].
      split; simpl; try done. unfold hasTimer in *. by rewrite H2 in Htm.
    + apply (Hgo _ []); [|split; [done|left; simpl; lia]|done]. rewrite app_nil_r.
      destruct Hb as [? Htm ? ?]. split; simpl; try done. unfold hasTimer in *. by rewrite Etm in Htm.
Qed.

(** C35: whatever the shard's goroutine takes from its channel and its timer, it never
    blocks on the timer and every loop ends; what it exported followed by what is
    pending is what it consumed, in order; every batch exported is not empty, not
    above send_batch_max_size and, when the size triggered it, not below
    send_batch_size; without a timer nothing is pending, and with one what is pending
    is below send_batch_size and the timer is set.  After the shutdown, which drains
    the channel, nothing is pending. *)
Theorem shard_exports_everything evs pending :
  (timer (startTimer cfg newShard) = None -> TimerFires ∉ evs) ->
  exists b b', startLoop cfg evs = Some b /\
    export_items (exports b) ++ data_items (b_data (sbatch b)) = consumed evs /\
    (itemCount (sbatch b) <= 0 \/ timer b = Some true /\ itemCount (sbatch b) < SendBatchSize cfg) /\
    finish cfg pending b = Some b' /\
    (~ (SendBatchMaxSize cfg > 0 /\ SendBatchMaxSize cfg < SendBatchSize cfg) ->
     export_items (exports b') = consumed evs ++ concat (data_items <$> pending)) /\
    Forall (export_ok (hasTimer (startTimer cfg newShard))) (exports b').
Proof.
  intros Ht. destruct startTimer_ok as (timed & H1 & H2 & H3). unfold startLoop.
  pose proof (so_timed _ _ _ H1) as Htm.
  destruct (loop_ok timed evs [] _ H1 H2) as (b & E & Hb & Hr).
  { intros ->. apply Ht. unfold hasTimer in Htm. by apply bool_decide_eq_false, dec_stable in Htm. }
  destruct (loop_ok timed (NewItem <$> pending) _ b Hb Hr) as (b1 & E1 & Hb1 & Hr1).
  { intros _ Hin. apply list_elem_of_fmap in Hin as (? & ? & _). done. }
  assert (consumed (NewItem <$> pending) = concat (data_items <$> pending)) as Hp.
  { unfold consumed. by rewrite <- list_fmap_compose. }
  exists b. unfold finish. rewrite E1. eexists. split; [exact E|].
  split; [exact (so_items _ _ _ Hb)|]. split; [apply Hr|]. split; [done|].
  rewrite Hp in Hb1. simpl in Hb1. case_decide as Hc.
  - destruct (sendItems_ok timed _ triggerTimeout b1 Hb1) as (G1 & G2 & G3 & G4); [lia|done|].
    split.
    + intros Hval. rewrite <- (so_items _ _ _ G1).
      assert (itemCount (sbatch (sendItems cfg triggerTimeout b1)) = 0) as Hz0.
      { apply G3. destruct Hr1 as [_ [Hr1|[_ Hr1]]]; lia. }
      pose proof (so_batch _ _ _ G1) as Hbo. unfold batch_ok, itemCount in *. rewrite Hz0 in Hbo.
      destruct (data_items _); [by rewrite app_nil_r|done].
    + rewrite Htm. apply G1.
  - split; [|rewrite Htm; apply Hb1]. intros _. rewrite <- (so_items _ _ _ Hb1).
    pose proof (so_batch _ _ _ Hb1) as Hbo. unfold batch_ok, itemCount in *.
    destruct (data_items (b_data (sbatch b1))); [by rewrite app_nil_r|simpl in *; lia].
Qed.
End shard.

(** ** The shards of the metadata keys *)

Section multi.
Context {K : Type} `{Countable K}.
Context (metadataLimit : Z).

Record multi_ok (m : multiShardBatcher K) : Prop := {
  mo_size : msize m = Z.of_nat (size (batchers m));
  mo_started : mstarted m = seq 0 (size (batchers m));
  mo_ids : forall k b, batchers m !! k = Some b -> (b < size (batchers m))%nat;
  mo_limit : metadataLimit > 0 -> msize m <= metadataLimit;
  mo_inj : forall k1 k2 b, batchers m !! k1 = Some b -> batchers m !! k2 = Some b -> k1 = k2;
}.

Lemma storeShard_ok aset m : multi_ok m ->
  multi_ok (fst (storeShard metadataLimit aset m)) /\ batchers m ⊆ batchers (fst (storeShard metadataLimit aset m)) /\
  match snd (storeShard metadataLimit aset m) with
  | inl b => batchers (fst (storeShard metadataLimit aset m)) !! aset = Some b
  | inr e => e = errTooManyBatchers /\ fst (storeShard metadataLimit aset m) = m /\ msize m >= metadataLimit
  end.
Proof.
  intros [H1 H2 H3 H4 H5]. unfold storeShard. destruct (_ && _) eqn:Efull.
  { apply andb_true_iff in Efull as [_ Hf%bool_decide_eq_true]. simpl. done. }
  destruct (batchers m !! aset) as [b|] eqn:Eb; simpl; [done|].
  split; [|split; [by apply insert_subseteq|by rewrite lookup_insert_eq]].
  split; simpl.
  - rewrite map_size_insert_None by done. lia.
  - rewrite map_size_insert_None by done. by rewrite seq_S, H2.
  - intros k b. rewrite map_size_insert_None by done. destruct (decide (aset = k)) as [<-|].
    + rewrite lookup_insert_eq. intros [= <-]. lia.
    + rewrite lookup_insert_ne by done. intros ?%H3. lia.
  - intros Hl. apply andb_false_iff in Efull as [Hz0%bool_decide_eq_false|Hf%bool_decide_eq_false]; lia.
  - intros k1 k2 b. destruct (decide (aset = k1)) as [<-|], (decide (aset = k2)) as [<-|];
      rewrite ?lookup_insert_eq, ?lookup_insert_ne by done; try done.
    + intros [= <-] ?%H3. lia.
    + intros ?%H3 [= <-]. lia.
    + eauto.
Qed.

Definition callers_ok (s : callers K) : Prop :=
  multi_ok (mb s) /\ forall aset r, (aset, r) ∈ results s ->
    match r with inl b => batchers (mb s) !! aset = Some b | inr e => e = errTooManyBatchers end.

Lemma consume_step_ok s s' : consume_step metadataLimit s s' -> callers_ok s -> callers_ok s'.
Proof.
  intros Hst [Hm Hr]. destruct Hst as [s aset b Hb|s aset Hb|s w1 aset w2 Hw].
  - split; [done|]. intros a r. simpl. rewrite elem_of_app, list_elem_of_singleton.
    intros [?|[= -> ->]]; [by apply Hr|done].
  - done.
  - destruct (storeShard_ok aset _ Hm) as (H1 & H2 & H3). split; [done|]. simpl.
    intros a r. rewrite elem_of_app, list_elem_of_singleton. intros [Hin|[= -> ->]].
    + specialize (Hr a r Hin). destruct r; [|done]. by eapply lookup_weaken.
    + destruct (snd _); [done|tauto].
Qed.

(** Whatever the interleaving of the callers, there are never more shards than
    metadata_cardinality_limit, the size counts them, the goroutine of every shard is
    started exactly once, different attribute sets never share a shard, and the
    requests of one attribute set are all sent to the shard of that set or refused
    with errTooManyBatchers. *)
Theorem shards_within_limit s :
  rtc (consume_step metadataLimit) (mkCallers (K := K) newMulti [] []) s ->
  msize (mb s) = Z.of_nat (size (batchers (mb s))) /\
  (metadataLimit > 0 -> msize (mb s) <= metadataLimit) /\
  mstarted (mb s) = seq 0 (size (batchers (mb s))) /\
  (forall k1 k2 b, batchers (mb s) !! k1 = Some b -> batchers (mb s) !! k2 = Some b -> k1 = k2) /\
  forall aset r, (aset, r) ∈ results s ->
    match r with inl b => batchers (mb s) !! aset = Some b | inr e => e = errTooManyBatchers end.
Proof.
  intros Hr. remember (mkCallers (K := K) newMulti [] []) as s0 eqn:E.
  assert (callers_ok s0) as Hok.
  { subst. split; [|set_solver]. split; simpl; try done; try (intros; lia); intros *; rewrite lookup_empty; done. }
  clear E. induction Hr as [s|s s1 s' Hst Hr IH]; [|by apply IH; eapply consume_step_ok].
  destruct Hok as [[] ?]. split_and!; done.
Qed.
End multi.

(** The lock is taken before the shard is looked up again, and the limit is checked
    first: of two callers that send the first data of the last attribute set allowed,
    the one that takes the lock second is refused although the shard of its set
    exists. *)
Theorem existing_shard_refused :
  exists s, rtc (consume_step 1) (mkCallers (K := nat) newMulti [] []) s /\
    loadShard 7%nat (mb s) = Some 0%nat /\ (7%nat, inr errTooManyBatchers) ∈ results s.
Proof.
  eexists. split; [|split].
  - eapply rtc_l; [apply (consume_miss 1 _ 7%nat); reflexivity|].
    eapply rtc_l; [apply (consume_miss 1 _ 7%nat); reflexivity|].
    eapply rtc_l; [apply (consume_locked 1 _ [] 7%nat [7%nat]); reflexivity|].
    apply rtc_once. apply (consume_locked 1 _ [] 7%nat []). reflexivity.
  - reflexivity.
  - simpl. right. by left.
Qed.

(** The attributes of two requests agree exactly when their metadata do. *)
Lemma requestAttrs_separate keys Get1 Get2 :
  requestAttrs keys Get1 = requestAttrs keys Get2 <-> forall k, k ∈ keys -> Get1 k = Get2 k.
Proof.
  unfold requestAttrs. induction keys as [|k keys IH]; csimpl; [set_solver|]. split.
  - intros E. injection E as Ek Er. intros k'. rewrite elem_of_cons. intros [->|Hin].
    + destruct (Get1 k) as [|v1 [|]] eqn:E1, (Get2 k) as [|v2 [|]] eqn:E2; by simplify_eq.
    + by apply IH.
  - intros Hall. rewrite (Hall k) by (by left). f_equal. apply IH. intros k' Hin. apply Hall. by right.
Qed.

(** A metric that is split over two batches loses its metadata in the first one. *)
Theorem split_metric_drops_metadata :
  let m := @mkMetric sizedPData "requests" "" "1" [5; 7] (@MetricGauge sizedPData [1%N; 2%N; 3%N]) in
  @splitMetric sizedPData m 2 =
    (@mkMetric sizedPData "requests" "" "1" [5; 7] (@MetricGauge sizedPData [3%N]),
     @mkMetric sizedPData "requests" "" "1" [] (@MetricGauge sizedPData [1%N; 2%N])).
Proof. reflexivity. Qed.

(** ** Witnesses *)

#[local] Existing Instance sizedPData.

Definition resource_of_spans (r : N) (l : list N) : @ResourceSpans sizedPData :=
  mkResourceSpans (r : Resource) "" [mkScopeSpans (3%N : Scope) "v1" l].
Definition batch_cfg : Config := mkConfig 200 4 5 [] 0.
Definition batch_events : list (event (@Traces sizedPData)) :=
  [NewItem (mkTraces [resource_of_spans 1 [20%N; 21%N]; resource_of_spans 2 [22%N]]);
   NewItem (mkTraces [resource_of_spans 1 [23%N; 24%N; 25%N; 26%N]]); TimerFires].
Definition batch_pending : list (@Traces sizedPData) := [mkTraces [resource_of_spans 3 [27%N]]].

Example batch_export_counts :
  (b ← startLoop batch_cfg batch_events; b' ← finish batch_cfg batch_pending b;
   Some ((fun e => (e.1.1, e.1.2)) <$> exports b')) =
  Some [(triggerBatchSize, 5); (triggerTimeout, 2); (triggerTimeout, 1)].
Proof. reflexivity. Qed.

Lemma shard_exports_everything_witness :
  0 <= SendBatchMaxSize batch_cfg /\ 0 <= SendBatchSize batch_cfg /\
  exists b b', startLoop batch_cfg batch_events = Some b /\ finish batch_cfg batch_pending b = Some b' /\
    export_items (exports b') = consumed batch_events ++ concat (data_items <$> batch_pending).
Proof.
  split; [simpl; lia|]. split; [simpl; lia|].
  destruct (shard_exports_everything (D := @Traces sizedPData) batch_cfg (ltac:(simpl; lia)) (ltac:(simpl; lia)) batch_events batch_pending)
    as (b & b' & E & _ & _ & E' & Hall & _).
  - simpl. discriminate.
  - exists b, b'. split; [exact E|]. split; [exact E'|]. apply Hall. simpl. lia.
Defined.

Lemma shards_within_limit_witness :
  exists s, rtc (consume_step 1) (mkCallers (K := nat) newMulti [] []) s /\ msize (mb s) = 1 /\ msize (mb s) <= 1.
Proof.
  set (s := fst (storeShard 1 7%nat (newMulti (K := nat)))).
  assert (rtc (consume_step 1) (mkCallers (K := nat) newMulti [] []) (mkCallers s [] [(7%nat, inl 0%nat)])) as Hr.
  { apply (rtc_l _ _ (mkCallers (K := nat) newMulti [7%nat] [])).
    - apply (consume_miss 1 (mkCallers (K := nat) newMulti [] []) 7%nat). reflexivity.
    - apply rtc_once. apply (consume_locked 1 (mkCallers (K := nat) newMulti [7%nat] []) [] 7%nat []). reflexivity. }
  exists (mkCallers s [] [(7%nat, inl 0%nat)]). split; [exact Hr|]. split; [reflexivity|].
  apply (shards_within_limit 1 _ Hr). lia.
Defined.
