(* ===== verification/Consumers.v ===== *)
(** * Consumers: how telemetry is shared between the components of a pipeline

    Models pdata/internal/state.go and pdata/xpdata/pref (the state of a telemetry
    object: references, read-only and pipeline-owned bits), internal/fanoutconsumer,
    service/internal/capabilityconsumer, service/internal/refconsumer and
    service/internal/obsconsumer.  The code exists once for traces, metrics, logs and
    profiles with the same text; the names are those of traces.

    A telemetry value is a pointer to its data and to its state, so a value that is passed
    to two consumers is one object of the heap.  A consumer is the tree of the wrappers
    the graph builds around the components.  A component is known by what
    consumer.Capabilities documents: it changes its argument only if it says so.  A copy
    is an object that shares nothing; PCommon shows the one thing CopyTo does share, the
    bytes of bytes values. *)

From S2P Require Import Prelude.
From S2P Require Import GoErrors.

(** ** pdata/internal/state.go *)

Record State := mkState { refs : Z; state : Z }.

Definition defaultState : Z := 0.
Definition stateReadOnlyBit : Z := Z.shiftl 1 0.
Definition statePipelineOwnedBit : Z := Z.shiftl 1 1.

Definition NewState : State := mkState 1 defaultState.
Definition MarkReadOnly (st : State) : State := mkState (refs st) (Z.lor (state st) stateReadOnlyBit).
Definition IsReadOnly (st : State) : bool := negb (Z.land (state st) stateReadOnlyBit =? 0).

(** [None]: the panic "invalid access to shared data". *)
Definition AssertMutable (st : State) : option unit :=
  if negb (Z.land (state st) stateReadOnlyBit =? 0) then None else Some tt.

Definition MarkPipelineOwned (st : State) : State * bool :=
  if negb (Z.land (state st) statePipelineOwnedBit =? 0) then (st, false)
  else (mkState (refs st) (Z.lor (state st) statePipelineOwnedBit), true).

Definition Ref (st : State) : State := mkState (i32 (refs st + 1)) (state st).

(** [None]: the panic "Cannot unref freed data". *)
Definition Unref (st : State) : option (State * bool) :=
  let r := i32 (refs st - 1) in
  if decide (r > 0) then Some (mkState r (state st), false)
  else if decide (r = 0) then Some (mkState r (state st), true)
  else None.

(** ** Components and wrappers *)

(** What a component does with its argument: reads it, changes it in place, or copies it
    and changes the copy.  consumer.Capabilities: MutatesData must be set in the second
    case and may be left out in the others. *)
Inductive behaviour := Reads | InPlace | Copies.

#[export] Instance behaviour_eq_dec : EqDecision behaviour.
Proof. solve_decision. Defined.

Inductive consumer :=
(* a component that ends the pipeline; [async]: it keeps a reference, as the queue of an exporter does *)
| exporter (id : Z) (b : behaviour) (async : bool)
(* a processor, or a connector between pipelines of one signal *)
| processor (id : Z) (b : behaviour) (next : consumer)
| refTraces (c : consumer)
| obsTraces (c : consumer)
| capTraces (c : consumer) (cap : bool)
| tracesConsumer (mutable readonly : list consumer).

(** Capabilities().MutatesData *)
Fixpoint Capabilities (c : consumer) : bool :=
  match c with
  | exporter _ b _ | processor _ b _ => bool_decide (b = InPlace)
  | refTraces c | obsTraces c => Capabilities c
  | capTraces _ cap => cap
  | tracesConsumer mutable readonly => (0 <? length mutable)%nat && (length readonly =? 0)%nat
  end.

(** fanoutconsumer.NewTraces *)
Definition NewFanout (tcs : list consumer) : consumer :=
  let wrap := tracesConsumer (filter (fun c => Capabilities c = true) tcs)
                             (filter (fun c => Capabilities c <> true) tcs) in
  match tcs with
  | [c] => if negb (Capabilities c) then c else wrap
  | _ => wrap
  end.

(** capabilityconsumer.NewTraces *)
Definition NewCapabilities (c : consumer) (cap : bool) : consumer :=
  if eqb (Capabilities c) cap then c else capTraces c cap.

(** refconsumer.NewTraces *)
Definition NewRef (c : consumer) : consumer := refTraces c.

(** obsconsumer.NewTraces; [newTelemetry]: the gate telemetry.newPipelineTelemetry. *)
Definition NewObs (newTelemetry : bool) (c : consumer) : consumer :=
  if negb newTelemetry then c else obsTraces c.

(** ** ConsumeTraces *)

(** One call of a component: the object, what it held then, and whether the component
    ends the pipeline. *)
Record delivery (D : Type) := mkDelivery { d_comp : Z; d_how : behaviour; d_last : bool; d_td : nat; d_data : D }.
Arguments mkDelivery {D}.
Arguments d_comp {D}.
Arguments d_how {D}.
Arguments d_last {D}.
Arguments d_td {D}.
Arguments d_data {D}.

Section heap.
Context {D : Type} (empty : D) `{MultiErr}.
(** what a component makes of the data, and the error it returns for it *)
Context (process : Z -> D -> D) (result : Z -> D -> option error).
(** the feature gate pdata.useProtoPooling *)
Context (pooling : bool).

(** The objects that exist, those given back to the pool, and the calls so far. *)
Record heap := mkHeap { objs : list (D * State); pool : list nat; calls : list (delivery D) }.

(** A computation on the heap; [None] is a panic. *)
Definition M (A : Type) : Type := heap -> option (A * heap).
Definition ret {A} (a : A) : M A := fun h => Some (a, h).
Definition bind {A B} (m : M A) (f : A -> M B) : M B :=
  fun h => match m h with Some (a, h) => f a h | None => None end.
#[local] Notation "x <- m ;; f" := (bind m (fun x => f)) (at level 100, m at next level, right associativity).
#[local] Notation "m ;;; f" := (bind m (fun _ => f)) (at level 100, right associativity).

Definition get (td : nat) : M (D * State) := fun h => match objs h !! td with Some o => Some (o, h) | None => None end.
Definition put (td : nat) (o : D * State) : M unit :=
  fun h => Some (tt, mkHeap (<[td := o]> (objs h)) (pool h) (calls h)).
Definition record_call (x : delivery D) : M unit := fun h => Some (tt, mkHeap (objs h) (pool h) (calls h ++ [x])).

Definition setState (td : nat) (f : State -> State) : M unit := o <- get td;; put td (o.1, f o.2).

(** ptrace.NewTraces: sync.Pool.Get may always make a new object, and does here. *)
Definition NewTraces : M nat :=
  fun h => Some (length (objs h), mkHeap (objs h ++ [(empty, NewState)]) (pool h) (calls h)).

(** DeleteExportTraceServiceRequest with the gate enabled and [nullable] set. *)
Definition DeleteTraces (td : nat) : M unit :=
  o <- get td;;
  put td (empty, o.2);;;
  fun h => Some (tt, mkHeap (objs h) (pool h ++ [td]) (calls h)).

(** A write through the accessors of ptrace, which begin with AssertMutable. *)
Definition write (td : nat) (d : D) : M unit :=
  o <- get td;;
  match AssertMutable o.2 with Some _ => put td (d, o.2) | None => fun _ => None end.

Definition CopyTo (td dest : nat) : M unit := o <- get td;; write dest o.1.

Definition cloneTraces (td : nat) : M nat :=
  clonedTraces <- NewTraces;;
  CopyTo td clonedTraces;;;
  ret clonedTraces.

(** pref.MarkPipelineOwnedTraces, RefTraces, UnrefTraces *)
Definition MarkPipelineOwnedTraces (td : nat) : M bool :=
  o <- get td;;
  let '(st, r) := MarkPipelineOwned o.2 in
  put td (o.1, st);;; ret r.

Definition RefTraces (td : nat) : M unit := setState td Ref.

Definition UnrefTraces (td : nat) : M unit :=
  o <- get td;;
  match Unref o.2 with
  | None => fun _ => None
  | Some (st, last) =>
      put td (o.1, st);;;
      if negb last then ret tt else if pooling then DeleteTraces td else ret tt
  end.

(** The end of obsTraces.ConsumeTraces. *)
Definition obsError (err : option error) : option error :=
  match err with
  | Some e => if IsDownstream e then Some e else Some (NewDownstream e)
  | None => None
  end.

(** The loops of tracesConsumer.ConsumeTraces.  All mutating consumers but the last get a
    clone; the last gets the data itself if nobody else does and it is not read-only. *)
Definition toMutable (consume : consumer -> nat -> M (option error)) (alone : bool) (td : nat) :
    list consumer -> option error -> M (option error) :=
  fix go (mutable : list consumer) (errs : option error) : M (option error) :=
    match mutable with
    | [] => ret errs
    | c :: rest =>
        o <- get td;;
        td' <- (if (length rest =? 0)%nat && alone && negb (IsReadOnly o.2) then ret td else cloneTraces td);;
        err <- consume c td';;
        go rest (multierr_Append errs err)
    end.

Definition toReadonly (consume : consumer -> nat -> M (option error)) (td : nat) :
    list consumer -> option error -> M (option error) :=
  fix go (readonly : list consumer) (errs : option error) : M (option error) :=
    match readonly with
    | [] => ret errs
    | c :: rest => err <- consume c td;; go rest (multierr_Append errs err)
    end.

Fixpoint ConsumeTraces (c : consumer) (td : nat) {struct c} : M (option error) :=
  match c with
  | exporter id b async =>
      o <- get td;;
      record_call (mkDelivery id b true td o.1);;;
      (if decide (b = InPlace) then write td (process id o.1) else ret tt);;;
      (if async then RefTraces td else ret tt);;;
      ret (result id o.1)
  | processor id b next =>
      o <- get td;;
      record_call (mkDelivery id b false td o.1);;;
      match b with
      | Reads => ConsumeTraces next td
      | InPlace => write td (process id o.1);;; ConsumeTraces next td
      | Copies => td' <- cloneTraces td;; write td' (process id o.1);;; ConsumeTraces next td'
      end
  | refTraces c =>
      owned <- MarkPipelineOwnedTraces td;;
      err <- ConsumeTraces c td;;
      (if (owned : bool) then UnrefTraces td else ret tt);;;
      ret err
  | obsTraces c => err <- ConsumeTraces c td;; ret (obsError err)
  | capTraces c _ => ConsumeTraces c td
  | tracesConsumer mutable readonly =>
      errs <- toMutable ConsumeTraces (length readonly =? 0)%nat td mutable None;;
      o <- get td;;
      (if (1 <? length readonly)%nat && negb (IsReadOnly o.2) then setState td MarkReadOnly else ret tt);;;
      toReadonly ConsumeTraces td readonly errs
  end.

(** ** The reference: every component has data of its own *)

Definition deliverAll (deliver : consumer -> list (Z * D) * option error) :
    list consumer -> list (Z * D) * option error -> list (Z * D) * option error :=
  fix go (l : list consumer) (acc : list (Z * D) * option error) :=
    match l with
    | [] => acc
    | c :: l => go l (acc.1 ++ (deliver c).1, multierr_Append acc.2 (deliver c).2)
    end.

Fixpoint deliver (d : D) (c : consumer) {struct c} : list (Z * D) * option error :=
  match c with
  | exporter id _ _ => ([(id, d)], result id d)
  | processor id b next =>
      let r := deliver (if decide (b = Reads) then d else process id d) next in
      ((id, d) :: r.1, r.2)
  | refTraces c | capTraces c _ => deliver d c
  | obsTraces c => let r := deliver d c in (r.1, obsError r.2)
  | tracesConsumer mutable readonly =>
      deliverAll (deliver d) readonly (deliverAll (deliver d) mutable ([], None))
  end.
End heap.

Arguments heap : clear implicits.
