(* ===== verification/ConsumersProofs.v ===== *)
(** * ConsumersProofs: sharing telemetry is unobservable

    The fan-out shares an object between consumers and copies only where somebody may
    change it.  ConsumeTraces never panics and does what would be done if every component
    had data of its own, and what a component holds is never changed by another one. *)

From S2P Require Import Prelude.
From S2P Require Import GoErrors.
From S2P Require Import Consumers.

(** ** The bits of the state *)

Lemma land_bit s k : 0 <= k -> (Z.land s (Z.shiftl 1 k) =? 0) = negb (Z.testbit s k).
Proof.
  intros Hk. rewrite Z.shiftl_1_l. apply Bool.eq_true_iff_eq. rewrite Z.eqb_eq, negb_true_iff. split.
  - intros E%(f_equal (fun z => Z.testbit z k)).
    by rewrite Z.land_spec, Z.pow2_bits_true, andb_true_r, Z.bits_0 in E.
  - intros E. apply Z.bits_inj_iff'. intros n Hn. rewrite Z.land_spec, Z.bits_0, Z.pow2_bits_eqb by done.
    destruct (Z.eqb_spec k n) as [->|]; [by rewrite E|by rewrite andb_false_r].
Qed.

Definition owned (st : State) : bool := Z.testbit (state st) 1.

Lemma IsReadOnly_bit st : IsReadOnly st = Z.testbit (state st) 0.
Proof. unfold IsReadOnly, stateReadOnlyBit. by rewrite land_bit, negb_involutive. Qed.

Lemma AssertMutable_bit st : AssertMutable st = if IsReadOnly st then None else Some tt.
Proof. done. Qed.

Lemma MarkPipelineOwned_eq st :
  MarkPipelineOwned st =
    if owned st then (st, false) else (mkState (refs st) (Z.lor (state st) statePipelineOwnedBit), true).
Proof. unfold MarkPipelineOwned, statePipelineOwnedBit, owned. by rewrite land_bit, negb_involutive. Qed.

(** How the state of an object evolves while [n] components may take a reference. *)
Record evolves (n : Z) (st st' : State) : Prop := {
  ev_readonly : IsReadOnly st = true -> IsReadOnly st' = true;
  ev_owned : owned st = true -> owned st' = true;
  ev_low : refs st + Z.b2z (owned st) - Z.b2z (owned st') <= refs st';
  ev_high : refs st' <= refs st + n;
}.

(** The owner of the object has not released it. *)
Definition alive (st : State) : Prop := 0 <= refs st /\ (owned st = false -> 1 <= refs st).

Lemma evolves_refl n st : 0 <= n -> evolves n st st.
Proof. split; [done..|lia|lia]. Qed.

Lemma evolves_trans n m st st1 st2 : evolves n st st1 -> evolves m st1 st2 -> evolves (n + m) st st2.
Proof. intros [] []; split; [auto..|lia|lia]. Qed.

Lemma evolves_alive n st st' : alive st -> evolves n st st' -> alive st'.
Proof.
  unfold alive. intros [] [_ Ho]. destruct (owned st), (owned st'); simpl in *; lia.
Qed.

Lemma owned_MarkReadOnly st : owned (MarkReadOnly st) = owned st.
Proof. unfold owned, MarkReadOnly, stateReadOnlyBit. simpl state. by rewrite Z.lor_spec, orb_false_r. Qed.

Lemma IsReadOnly_MarkReadOnly st : IsReadOnly (MarkReadOnly st) = true.
Proof. rewrite IsReadOnly_bit. unfold MarkReadOnly, stateReadOnlyBit. simpl state. by rewrite Z.lor_spec, orb_true_r. Qed.

Lemma evolves_MarkReadOnly st : evolves 0 st (MarkReadOnly st).
Proof.
  split; [by rewrite IsReadOnly_MarkReadOnly|by rewrite owned_MarkReadOnly|..];
    rewrite ?owned_MarkReadOnly; simpl; lia.
Qed.

Lemma alive_NewState : alive NewState.
Proof. by split; simpl. Qed.

Lemma evolves_Ref st : 0 <= refs st -> refs st + 1 < 2 ^ 31 -> evolves 1 st (Ref st).
Proof.
  intros ??. unfold Ref. assert (i32 (refs st + 1) = refs st + 1) as E by (unfold i32; rewrite Z.mod_small; lia).
  rewrite E. split; rewrite ?IsReadOnly_bit; unfold owned; simpl; try done; lia.
Qed.

(** ** Well-formed consumers *)

Fixpoint mutates_input (c : consumer) : bool :=
  match c with
  | exporter _ b _ => bool_decide (b = InPlace)
  | processor _ InPlace _ => true
  | processor _ Reads next => mutates_input next
  | processor _ Copies _ => false
  | refTraces c | obsTraces c | capTraces c _ => mutates_input c
  | tracesConsumer _ _ => Capabilities c
  end.

(** The consumer writes to its argument without looking whether it is read-only. *)
Fixpoint needs_mutable (c : consumer) : bool :=
  match c with
  | exporter _ b _ => bool_decide (b = InPlace)
  | processor _ InPlace _ => true
  | processor _ Reads next => needs_mutable next
  | processor _ Copies _ => false
  | refTraces c | obsTraces c | capTraces c _ => needs_mutable c
  | tracesConsumer _ _ => false
  end.

(** No read-only consumer of a fan-out changes its argument. *)
Fixpoint well_formed (c : consumer) : Prop :=
  match c with
  | exporter _ _ _ => True
  | processor _ _ c | refTraces c | obsTraces c | capTraces c _ => well_formed c
  | tracesConsumer mutable readonly =>
      let all := fix all (l : list consumer) := match l with [] => True | c :: l => well_formed c /\ all l end in
      all mutable /\ all readonly /\ Forall (fun c => mutates_input c = false) readonly
  end.

(** The references the components of a consumer may take. *)
Fixpoint asyncs (c : consumer) : Z :=
  match c with
  | exporter _ _ async => Z.b2z async
  | processor _ _ c | refTraces c | obsTraces c | capTraces c _ => asyncs c
  | tracesConsumer mutable readonly =>
      let all := fix all (l : list consumer) := match l with [] => 0 | c :: l => asyncs c + all l end in
      all mutable + all readonly
  end.

(** The declaration of a consumer covers what it does. *)
Definition honest (c : consumer) : Prop := mutates_input c = true -> Capabilities c = true.

Lemma well_formed_fanout mutable readonly :
  well_formed (tracesConsumer mutable readonly) <->
  Forall well_formed mutable /\ Forall well_formed readonly /\ Forall (fun c => mutates_input c = false) readonly.
Proof.
  simpl. match goal with |- (?all _ /\ _ /\ _) <-> _ => assert (forall l, all l <-> Forall well_formed l) as E end.
  { intros l. induction l as [|c l IH]; [done|]. rewrite Forall_cons, <- IH. done. }
  by rewrite !E.
Qed.

Lemma asyncs_fanout mutable readonly :
  asyncs (tracesConsumer mutable readonly) = sum_of asyncs mutable + sum_of asyncs readonly.
Proof.
  simpl. match goal with |- ?all _ + _ = _ => assert (forall l, all l = sum_of asyncs l) as E end.
  { intros l. induction l as [|c l IH]; [done|]. simpl. by rewrite IH. }
  by rewrite !E.
Qed.

Section consumer_ind.
Context (P : consumer -> Prop).
Context (Pe : forall i b a, P (exporter i b a)) (Pp : forall i b c, P c -> P (processor i b c)).
Context (Pr : forall c, P c -> P (refTraces c)) (Po : forall c, P c -> P (obsTraces c)).
Context (Pc : forall c v, P c -> P (capTraces c v)).
Context (Pt : forall m r, Forall P m -> Forall P r -> P (tracesConsumer m r)).

Fixpoint consumer_nested (c : consumer) : P c :=
  let all := fix all (l : list consumer) : Forall P l :=
    match l with [] => Forall_nil_2 P | c :: l => Forall_cons_2 P c l (consumer_nested c) (all l) end in
  match c with
  | exporter i b a => Pe i b a
  | processor i b c => Pp i b c (consumer_nested c)
  | refTraces c => Pr c (consumer_nested c)
  | obsTraces c => Po c (consumer_nested c)
  | capTraces c v => Pc c v (consumer_nested c)
  | tracesConsumer m r => Pt m r (all m) (all r)
  end.
End consumer_ind.

Lemma asyncs_nonneg c : 0 <= asyncs c.
Proof.
  induction c as [i b a|i b c IH|c IH|c IH|c v IH|m r IHm IHr] using consumer_nested; try done.
  - destruct a; simpl; lia.
  - rewrite asyncs_fanout. rewrite Forall_forall in IHm, IHr.
    pose proof (sum_of_nonneg_in asyncs m IHm). pose proof (sum_of_nonneg_in asyncs r IHr). lia.
Qed.

Lemma needs_mutates c : mutates_input c = false -> needs_mutable c = false.
Proof. induction c as [| i [] c IH| | | |] using consumer_nested; simpl; auto. Qed.

(** ** What one call does *)

Section served.
Context {D : Type} (process : Z -> D -> D).
Notation heap := (heap D).
Notation delivery := (delivery D).

(** What a component that ends the pipeline leaves in the object it was called with. *)
Definition final (x : delivery) : D :=
  if decide (d_how x = InPlace) then process (d_comp x) (d_data x) else d_data x.

Definition comp_data (x : delivery) : Z * D := (d_comp x, d_data x).

(** Two components at the ends of the pipeline share an object only if both just read it. *)
Definition exclusive (L : list delivery) : Prop :=
  forall i j x y, L !! i = Some x -> L !! j = Some y -> i <> j ->
    d_last x = true -> d_last y = true -> d_td x = d_td y -> d_how x <> InPlace.

(** A call on [td], which held [d] and [st], took the heap from [h] to [h']; [mut]: it may
    have changed [td]; [n]: the references it may have taken; [L]: the components called. *)
Record served (mut : bool) (n : Z) (td : nat) (d : D) (st : State) (h h' : heap) (L : list delivery) : Prop := {
  sv_calls : calls h' = calls h ++ L;
  sv_len : (length (objs h) <= length (objs h'))%nat;
  sv_frame : forall l, (l < length (objs h))%nat -> l <> td -> objs h' !! l = objs h !! l;
  sv_td : exists d' st', objs h' !! td = Some (d', st') /\ evolves n st st' /\ (mut = false -> d' = d);
  sv_tds : forall x, x ∈ L -> d_td x = td \/ (length (objs h) <= d_td x < length (objs h'))%nat;
  sv_final : forall x, x ∈ L -> d_last x = true -> exists st, objs h' !! d_td x = Some (final x, st);
  sv_excl : exclusive L;
  sv_reads : mut = false -> forall x, x ∈ L -> d_last x = true -> d_td x = td -> d_how x <> InPlace;
}.

Lemma served_refl mut td d st h : objs h !! td = Some (d, st) -> served mut 0 td d st h h [].
Proof.
  intros E. split; try done; [by rewrite app_nil_r|..]; try (intros; by destruct (elem_of_nil x)).
  - exists d, st. split_and!; [done|by apply evolves_refl|done].
Qed.

Lemma served_lookup mut n td d st h h' L : served mut n td d st h h' L -> (td < length (objs h'))%nat.
Proof. intros Hs. destruct (sv_td _ _ _ _ _ _ _ _ Hs) as (d' & st' & E & _). by apply lookup_lt_Some in E. Qed.

(** Only the state of the object changes. *)
Lemma served_state n td d st st' h :
  objs h !! td = Some (d, st) -> evolves n st st' ->
  served false n td d st h (mkHeap (<[td := (d, st')]> (objs h)) (pool h) (calls h)) [].
Proof.
  intros E Hev. split; simpl; try (intros; by destruct (elem_of_nil x)).
  - by rewrite app_nil_r.
  - by rewrite length_insert.
  - intros l _ Hl. by rewrite list_lookup_insert_ne.
  - exists d, st'. rewrite list_lookup_insert_eq by (by eapply lookup_lt_Some). done.
  - intros i j x y Hi. by rewrite lookup_nil in Hi.
Qed.

Lemma served_weaken mut mut' n n' td d st h h' L :
  served mut n td d st h h' L -> n <= n' -> (mut' = false -> mut = false) -> served mut' n' td d st h h' L.
Proof.
  intros [] Hn Hm. split; auto. destruct sv_td0 as (d' & st' & ? & [] & ?). exists d', st'.
  split_and!; [done| |auto]. split; [done..|lia].
Qed.

Lemma exclusive_app (L1 L2 : list delivery) :
  exclusive L1 -> exclusive L2 ->
  (forall x y, x ∈ L1 -> y ∈ L2 -> d_last x = true -> d_last y = true -> d_td x = d_td y ->
     d_how x <> InPlace /\ d_how y <> InPlace) ->
  exclusive (L1 ++ L2).
Proof.
  intros H1 H2 Hx i j x y Hi Hj Hij Lx Ly Ht.
  apply lookup_app_Some in Hi as [Hi|[Hi' Hi]]; apply lookup_app_Some in Hj as [Hj|[Hj' Hj]].
  - by eapply H1.
  - apply (Hx x y); eauto using list_elem_of_lookup_2.
  - apply (Hx y x); eauto using list_elem_of_lookup_2.
  - eapply (H2 (i - length L1)%nat (j - length L1)%nat); eauto. lia.
Qed.

(** Two calls in a row, the second of which changes the object only if no component
    called by the first holds it. *)
Lemma served_trans mut n1 n2 td d st h h1 h2 L1 L2 d1 st1 :
  served false n1 td d st h h1 L1 -> objs h1 !! td = Some (d1, st1) ->
  served mut n2 td d1 st1 h1 h2 L2 ->
  (mut = false \/ forall x, x ∈ L1 -> d_last x = true -> d_td x <> td) ->
  (td < length (objs h))%nat ->
  served mut (n1 + n2) td d st h h2 (L1 ++ L2).
Proof.
  intros S1 E1 S2 Hm Htd. destruct S1 as [C1 Len1 F1 T1 D1 Fin1 X1 R1], S2 as [C2 Len2 F2 T2 D2 Fin2 X2 R2].
  destruct T1 as (d1' & st1' & E1' & Ev1 & Hd1). rewrite E1 in E1'. simplify_eq.
  destruct T2 as (d2 & st2 & E2 & Ev2 & Hd2). split.
  - by rewrite C2, C1, app_assoc.
  - lia.
  - intros l Hl Hne. rewrite F2, F1; [done|lia|done|lia|done].
  - exists d2, st2. split_and!; [done|by eapply evolves_trans|].
    intros ->. rewrite Hd2 by done. by apply Hd1.
  - intros x [Hx|Hx]%elem_of_app; [destruct (D1 x Hx)|destruct (D2 x Hx)]; lia.
  - intros x [Hx|Hx]%elem_of_app Hl; [|by apply Fin2]. destruct (Fin1 x Hx Hl) as [s Es].
    destruct (decide (d_td x = td)) as [Ht|Ht].
    + destruct Hm as [->|Hm]; [|by destruct (Hm x Hx Hl)]. exists st2.
      rewrite Ht in *. rewrite E1 in Es. simplify_eq. by rewrite E2, Hd2.
    + exists s. rewrite F2; [done| |done]. destruct (D1 x Hx); [done|lia].
  - apply exclusive_app; [done..|]. intros x y Hx Hy Lx Ly Ht.
    assert (d_td x = td /\ d_td y = td) as [Tx Ty].
    { destruct (D1 x Hx), (D2 y Hy); lia. }
    destruct Hm as [->|Hm]; [|by destruct (Hm x Hx Lx)]. eauto.
  - intros -> x [Hx|Hx]%elem_of_app; eauto.
Qed.

(** A call on a clone of the object. *)
Lemma served_clone mut n td d st d' st' h h' L :
  objs h !! td = Some (d, st) -> 0 <= n ->
  served mut n (length (objs h)) d' st' (mkHeap (objs h ++ [(d', st')]) (pool h) (calls h)) h' L ->
  served false 0 td d st h h' L /\ (forall x, x ∈ L -> d_last x = true -> d_td x <> td).
Proof.
  intros E Hn [C Len F T D' Fin X R]. simpl in *. rewrite length_app in *. simpl in *.
  pose proof (lookup_lt_Some _ _ _ E) as Hlt.
  assert (forall x, x ∈ L -> d_td x <> td) as Hne.
  { intros x Hx Ht. destruct (D' x Hx); lia. }
  assert (objs h' !! td = objs h !! td) as Et by (rewrite F by lia; by rewrite lookup_app_l by done).
  split; [split|auto]; try done.
  - lia.
  - intros l Hl _. rewrite F by lia. by rewrite lookup_app_l.
  - exists d, st. rewrite Et. split_and!; [done|by apply evolves_refl|done].
  - intros x Hx. right. destruct (D' x Hx); [|lia]. destruct T as (? & ? & ET & _).
    apply lookup_lt_Some in ET. lia.
  - intros _ x Hx _ Ht. by destruct (Hne x Hx).
Qed.

(** A component is called. *)
Lemma served_call x mut n td d st h h' L :
  d_last x = false -> d_td x = td ->
  served mut n td d st (mkHeap (objs h) (pool h) (calls h ++ [x])) h' L ->
  served mut n td d st h h' (x :: L).
Proof.
  intros Hl Ht [C Len F T D' Fin X R]. simpl in *. split; auto.
  - by rewrite C, <- app_assoc.
  - intros y [->|Hy]%elem_of_cons; [by left|auto].
  - intros y [->|Hy]%elem_of_cons Hy'; [congruence|auto].
  - intros [|i] [|j] y z Hi Hj Hij; simpl in *; simplify_eq; try congruence. eapply X; eauto.
  - intros Hm y [->|Hy]%elem_of_cons Hy'; [congruence|auto].
Qed.
End served.

(** ** ConsumeTraces *)

Section consume.
Context {D : Type} (empty : D) `{MultiErr}.
Context (process : Z -> D -> D) (result : Z -> D -> option error).
Notation heap := (heap D).
Notation consume := (ConsumeTraces empty process result false).
Notation deliver := (deliver process result).
Notation served := (served process).

(** The counters do not overflow. *)
Definition few (c : consumer) (st : State) : Prop := refs st + asyncs c < 2 ^ 31 /\ 1 + asyncs c < 2 ^ 31.

Definition serves (c : consumer) : Prop :=
  forall td (h : heap) d st, objs h !! td = Some (d, st) -> alive st -> few c st ->
    (needs_mutable c = true -> IsReadOnly st = false) ->
    exists err h' L, consume c td h = Some (err, h') /\
      served (mutates_input c) (asyncs c) td d st h h' L /\
      deliver d c = (comp_data <$> L, err).

Lemma get_eq td (h : heap) o : objs h !! td = Some o -> get td h = Some (o, h).
Proof. intros E. unfold get. by rewrite E. Qed.

Lemma clone_eq td (h : heap) d st : objs h !! td = Some (d, st) ->
  cloneTraces empty td h = Some (length (objs h), mkHeap (objs h ++ [(d, NewState)]) (pool h) (calls h)).
Proof.
  intros E. pose proof (lookup_lt_Some _ _ _ E). unfold cloneTraces, bind, NewTraces, CopyTo, bind.
  rewrite (get_eq td _ (d, st)) by (simpl; by rewrite lookup_app_l).
  unfold write, bind. erewrite get_eq by (simpl; rewrite lookup_app_r, Nat.sub_diag by done; done). simpl.
  unfold put. simpl. by rewrite insert_app_r_alt, Nat.sub_diag by done.
Qed.

Lemma write_eq td (h : heap) d0 st d : objs h !! td = Some (d0, st) -> IsReadOnly st = false ->
  write td d h = Some (tt, mkHeap (<[td := (d, st)]> (objs h)) (pool h) (calls h)).
Proof.
  intros E Hr. unfold write, bind. rewrite (get_eq _ _ _ E). simpl. rewrite AssertMutable_bit, Hr. done.
Qed.

(** A consumer that changes nothing it is given can be called with anything. *)
Lemma reads_mutable c st : mutates_input c = false -> needs_mutable c = true -> IsReadOnly st = false.
Proof. intros Hm Hn. by rewrite needs_mutates in Hn. Qed.

Lemma few_later c n st st' : few c st -> evolves n st st' -> refs st + n + asyncs c < 2 ^ 31 -> few c st'.
Proof. unfold few. intros [] [] ?. lia. Qed.

(** *** The loop over the read-only consumers *)

Lemma toReadonly_spec l : Forall serves l -> Forall (fun c => mutates_input c = false) l ->
  forall td (h : heap) d st errs acc, objs h !! td = Some (d, st) -> alive st ->
    0 <= refs st -> refs st + sum_of asyncs l < 2 ^ 31 -> 1 + sum_of asyncs l < 2 ^ 31 ->
    exists err h' L, toReadonly consume td l errs h = Some (err, h') /\
      served false (sum_of asyncs l) td d st h h' L /\
      deliverAll (deliver d) l (acc, errs) = (acc ++ (comp_data <$> L), err).
Proof.
  induction l as [|c l IH]; intros Hs Hm td h d st errs acc E Ha H0 H1 H2; simpl.
  { exists errs, h, []. rewrite app_nil_r. split_and!; [done|by apply served_refl|done]. }
  apply Forall_cons in Hs as [Hc Hs], Hm as [Hmc Hm]. simpl in *.
  pose proof (asyncs_nonneg c). pose proof (sum_of_nonneg asyncs l asyncs_nonneg).
  destruct (Hc td h d st E Ha) as (err & h1 & L1 & E1 & S1 & D1); [split; lia|by apply reads_mutable|].
  rewrite Hmc in S1. destruct (sv_td _ _ _ _ _ _ _ _ _ S1) as (d1 & st1 & Ed & Ev & Hd). rewrite Hd in Ed by done.
  pose proof (evolves_alive _ _ _ Ha Ev) as Ha1. pose proof (ev_high _ _ _ Ev).
  destruct (IH Hs Hm td h1 d st1 (multierr_Append errs err) (acc ++ (deliver d c).1) Ed Ha1)
    as (err' & h2 & L2 & E2 & S2 & D2); [apply Ha1|lia..|].
  exists err', h2, (L1 ++ L2). unfold bind. rewrite E1. split; [done|]. split.
  - eapply served_trans; eauto. by eapply lookup_lt_Some.
  - rewrite D1 in *. simpl in *. rewrite D2, fmap_app, app_assoc. done.
Qed.

(** *** The loop over the mutating consumers *)

Lemma consume_clone c td (h : heap) d st :
  serves c -> objs h !! td = Some (d, st) -> 1 + asyncs c < 2 ^ 31 ->
  exists err h' L, bind (cloneTraces empty td) (consume c) h = Some (err, h') /\
    served false 0 td d st h h' L /\ (forall x, x ∈ L -> d_last x = true -> d_td x <> td) /\
    deliver d c = (comp_data <$> L, err).
Proof.
  intros Hc E Ha. set (h0 := mkHeap (objs h ++ [(d, NewState)]) (pool h) (calls h)).
  destruct (Hc (length (objs h)) h0 d NewState) as (err & h' & L & E' & S & Dl).
  - simpl. by rewrite lookup_app_r, Nat.sub_diag by done.
  - apply alive_NewState.
  - split; simpl; lia.
  - done.
  - exists err, h', L. unfold bind. rewrite (clone_eq _ _ _ _ E). split; [exact E'|].
    destruct (served_clone _ _ _ _ _ _ _ _ _ _ _ E (asyncs_nonneg c) S). done.
Qed.

Lemma toMutable_spec l : Forall serves l ->
  forall alone td (h : heap) d st errs acc, objs h !! td = Some (d, st) -> alive st ->
    refs st + sum_of asyncs l < 2 ^ 31 -> 1 + sum_of asyncs l < 2 ^ 31 ->
    exists err h' L, toMutable empty consume alone td l errs h = Some (err, h') /\
      served ((0 <? length l)%nat && alone) (sum_of asyncs l) td d st h h' L /\
      deliverAll (deliver d) l (acc, errs) = (acc ++ (comp_data <$> L), err).
Proof.
  induction l as [|c l IH]; intros Hs alone td h d st errs acc E Ha H1 H2; simpl.
  { exists errs, h, []. rewrite app_nil_r. split_and!; [done|by apply served_refl|done]. }
  apply Forall_cons in Hs as [Hc Hs]. simpl in *.
  pose proof (asyncs_nonneg c). pose proof (sum_of_nonneg asyncs l asyncs_nonneg).
  pose proof (lookup_lt_Some _ _ _ E) as Hlt.
  unfold bind at 1. rewrite (get_eq _ _ _ E). simpl.
  destruct ((length l =? 0)%nat && alone && negb (IsReadOnly st)) eqn:Eb.
  - apply andb_true_iff in Eb as [[Hl%Nat.eqb_eq ->]%andb_true_iff Hro%negb_true_iff].
    destruct l; [clear Hl|done]. destruct (Hc td h d st E Ha) as (err & h1 & L1 & E1 & S1 & D1); [split; simpl in *; lia|done|].
    exists (multierr_Append errs err), h1, L1. unfold bind, ret at 1. rewrite E1. split; [done|]. split.
    + eapply served_weaken; [exact S1|simpl; lia|done].
    + simpl. by rewrite D1.
  - destruct (consume_clone c td h d st Hc E ltac:(lia)) as (err & h1 & L1 & E1 & S1 & Hne & D1).
    unfold bind in E1 |- *. destruct (cloneTraces empty td h) as [[td' h0]|]; [|done]. rewrite E1.
    destruct (sv_td _ _ _ _ _ _ _ _ _ S1) as (d1 & st1 & Ed & Ev & Hd). rewrite Hd in Ed by done.
    pose proof (evolves_alive _ _ _ Ha Ev) as Ha1. pose proof (ev_high _ _ _ Ev).
    destruct (IH Hs alone td h1 d st1 (multierr_Append errs err) (acc ++ (deliver d c).1) Ed Ha1)
      as (err' & h2 & L2 & E2 & S2 & D2); [lia..|].
    exists err', h2, (L1 ++ L2). split; [done|]. split.
    + eapply served_weaken; [eapply served_trans; eauto|lia|]. intros ->. apply andb_false_r.
    + rewrite D1 in *. simpl in *. rewrite D2, fmap_app, app_assoc. done.
Qed.

(** *** All consumers *)

Lemma exporter_serves i b a : serves (exporter i b a).
Proof.
  intros td h d st E Ha Hf Hn. destruct Hf as [Hf _]. simpl in Hf, Hn.
  pose proof (lookup_lt_Some _ _ _ E) as Hlt.
  set (x := mkDelivery i b true td d).
  set (st' := if a then Ref st else st).
  exists (result i d), (mkHeap (<[td := (final process x, st')]> (objs h)) (pool h) (calls h ++ [x])), [x].
  assert (evolves (Z.b2z a) st st') as Hev.
  { unfold st'. destruct a; [apply evolves_Ref; [apply Ha|done]|by apply evolves_refl]. }
  split; [|split; [|done]].
  - simpl. unfold bind at 1. rewrite (get_eq _ _ _ E). simpl. unfold bind at 1, record_call. fold x.
    set (h1 := mkHeap (objs h) (pool h) (calls h ++ [x])).
    assert ((if decide (b = InPlace) then write td (process i d) else ret tt) h1 =
      Some (tt, mkHeap (<[td := (final process x, st)]> (objs h)) (pool h) (calls h ++ [x]))) as Ew.
    { unfold final. simpl. destruct (decide (b = InPlace)) as [->|].
      - erewrite write_eq; [done|exact E|by apply Hn].
      - unfold ret, h1. by rewrite list_insert_id. }
    unfold bind at 1. rewrite Ew. unfold st'. destruct a; [|done].
    unfold bind, RefTraces, setState, bind. erewrite get_eq by (simpl; by rewrite list_lookup_insert_eq).
    unfold put. simpl. by rewrite list_insert_insert_eq.
  - split; simpl; try done.
    + by rewrite length_insert.
    + intros l _ Hl. by rewrite list_lookup_insert_ne.
    + exists (final process x), st'. rewrite list_lookup_insert_eq by done. split_and!; [done..|].
      intros Hb%bool_decide_eq_false. unfold final. simpl. by rewrite decide_False.
    + intros y ->%list_elem_of_singleton. by left.
    + intros y ->%list_elem_of_singleton _. exists st'. simpl. by rewrite list_lookup_insert_eq.
    + intros [|j] [|k] y z Hj Hk Hjk; simpl in *; simplify_eq; congruence.
    + intros Hb%bool_decide_eq_false y ->%list_elem_of_singleton _ _. done.
Qed.

Lemma processor_reads i c : serves c -> serves (processor i Reads c).
Proof.
  intros IH td h d st E Ha Hf Hn.
  set (x := mkDelivery i Reads false td d). set (h1 := mkHeap (objs h) (pool h) (calls h ++ [x])).
  destruct (IH td h1 d st E Ha Hf Hn) as (err & h' & L & E' & S & Dl).
  exists err, h', (x :: L). split; [|split].
  - simpl. unfold bind at 1. rewrite (get_eq _ _ _ E). exact E'.
  - by apply served_call.
  - simpl. by rewrite Dl.
Qed.

Lemma processor_inPlace i c : serves c -> serves (processor i InPlace c).
Proof.
  intros IH td h d st E Ha Hf Hn. pose proof (lookup_lt_Some _ _ _ E) as Hlt.
  set (x := mkDelivery i InPlace false td d).
  set (h1 := mkHeap (<[td := (process i d, st)]> (objs h)) (pool h) (calls h ++ [x])).
  destruct (IH td h1 (process i d) st) as (err & h' & L & E' & S & Dl);
    [by apply list_lookup_insert_eq|done|done|auto|].
  exists err, h', (x :: L). split; [|split].
  - simpl. unfold bind at 1. rewrite (get_eq _ _ _ E). simpl. unfold bind at 1, record_call. unfold bind at 1.
    erewrite write_eq; [exact E'|exact E|by apply Hn].
  - apply served_call; [done..|]. destruct S as [C Len F T D' Fin X R]. simpl in *. rewrite length_insert in *. split; auto.
    + intros l Hl Hne. rewrite F by done. by rewrite list_lookup_insert_ne.
    + destruct T as (d' & st' & ? & ? & _). by exists d', st'.
  - simpl. by rewrite Dl.
Qed.

Lemma processor_copies i c : serves c -> serves (processor i Copies c).
Proof.
  intros IH td h d st E Ha Hf Hn. pose proof (lookup_lt_Some _ _ _ E) as Hlt.
  set (x := mkDelivery i Copies false td d).
  set (h0 := mkHeap (objs h) (pool h) (calls h ++ [x])).
  set (h1 := mkHeap (objs h ++ [(process i d, NewState)]) (pool h) (calls h ++ [x])).
  destruct (IH (length (objs h)) h1 (process i d) NewState) as (err & h' & L & E' & S & Dl).
  { simpl. by rewrite lookup_app_r, Nat.sub_diag by done. }
  { apply alive_NewState. }
  { destruct Hf as [? Hf]. split; simpl in *; lia. }
  { done. }
  exists err, h', (x :: L). split; [|split].
  - simpl. unfold bind at 1. rewrite (get_eq _ _ _ E). simpl. unfold bind at 1, record_call. fold x h0.
    unfold bind at 1. rewrite (clone_eq td h0 d st E). unfold bind at 1. erewrite write_eq.
    2: { simpl. by rewrite lookup_app_r, Nat.sub_diag by done. } 2: done.
    simpl. by rewrite insert_app_r_alt, Nat.sub_diag by done.
  - apply served_call; [done..|]. eapply served_weaken; [|apply asyncs_nonneg|done].
    by destruct (served_clone process _ _ _ d st _ _ h0 _ _ E (asyncs_nonneg c) S).
  - simpl. by rewrite Dl.
Qed.

Lemma refTraces_serves c : serves c -> serves (refTraces c).
Proof.
  intros IH td h d st E Ha Hf Hn. pose proof (lookup_lt_Some _ _ _ E) as Hlt.
  simpl. unfold MarkPipelineOwnedTraces, bind at 1 2. rewrite (get_eq _ _ _ E). simpl.
  rewrite MarkPipelineOwned_eq. unfold bind at 1, put. simpl. destruct (owned st) eqn:Eo.
  { rewrite list_insert_id by done. destruct h as [o p k]. simpl in *.
    destruct (IH td (mkHeap o p k) d st E Ha Hf Hn) as (err & h' & L & E' & S & Dl).
    exists err, h', L. split; [|done]. unfold bind at 1. by rewrite E'. }
  set (st1 := mkState (refs st) (Z.lor (state st) statePipelineOwnedBit)).
  assert (owned st1 = true) as Ho1 by (unfold owned, st1, statePipelineOwnedBit; cbn [state]; by rewrite Z.lor_spec, orb_true_r).
  assert (IsReadOnly st1 = IsReadOnly st) as Hr1.
  { rewrite !IsReadOnly_bit. unfold st1, statePipelineOwnedBit. cbn [state]. by rewrite Z.lor_spec, orb_false_r. }
  set (h1 := mkHeap (<[td := (d, st1)]> (objs h)) (pool h) (calls h)).
  destruct Ha as [Ha Ha']. specialize (Ha' Eo).
  destruct (IH td h1 d st1) as (err & h2 & L & E' & S & Dl);
    [by apply list_lookup_insert_eq|split; simpl; [lia|congruence]|done|by rewrite Hr1|].
  destruct S as [C Len F T D' Fin X R]. destruct T as (d2 & st2 & E2 & [Ro Ow Lo Hi] & Hd2). simpl in *.
  rewrite length_insert in *. specialize (Ow Ho1). rewrite Ho1, Ow in Lo. simpl in Lo.
  destruct Hf as [Hf _]. simpl in Hf.
  assert (i32 (refs st2 - 1) = refs st2 - 1) as Ei by (unfold i32; rewrite Z.mod_small; lia).
  assert (exists r, Unref st2 = Some (mkState (refs st2 - 1) (state st2), r)) as [r Hu].
  { unfold Unref. rewrite Ei. case_decide; [eauto|]. rewrite decide_True by lia. eauto. }
  set (st3 := mkState (refs st2 - 1) (state st2)) in *.
  exists err, (mkHeap (<[td := (d2, st3)]> (objs h2)) (pool h2) (calls h2)), L. split; [|split; [|done]].
  { unfold bind at 1. rewrite E'. unfold bind at 1. unfold UnrefTraces, bind.
    rewrite (get_eq _ _ _ E2). simpl. rewrite Hu. unfold put. simpl. by destruct r. }
  assert (td < length (objs h2))%nat as Hlt2 by lia.
  split; simpl; auto.
  - by rewrite length_insert.
  - intros l Hl Hne. rewrite list_lookup_insert_ne, F by done. by rewrite list_lookup_insert_ne.
  - exists d2, st3. rewrite list_lookup_insert_eq by done. split_and!; [done| |done]. split.
    + rewrite <- Hr1. exact Ro.
    + congruence.
    + rewrite Eo. unfold owned, st3 in *. simpl in *. rewrite Ow. simpl. lia.
    + simpl. lia.
  - intros y Hy. rewrite length_insert. auto.
  - intros y Hy Hl. destruct (Fin y Hy Hl) as [s Es]. destruct (decide (d_td y = td)) as [Ht|Ht].
    + rewrite Ht in *. exists st3. rewrite list_lookup_insert_eq by done. congruence.
    + exists s. by rewrite list_lookup_insert_ne.
Qed.

Lemma fanout_serves m r :
  Forall serves m -> Forall serves r -> Forall (fun c => mutates_input c = false) r -> serves (tracesConsumer m r).
Proof.
  intros Hm Hr Hmr td h d st E Ha [H1 H2] _. rewrite asyncs_fanout in *.
  pose proof (sum_of_nonneg asyncs m asyncs_nonneg). pose proof (sum_of_nonneg asyncs r asyncs_nonneg).
  pose proof (lookup_lt_Some _ _ _ E) as Hlt.
  destruct (toMutable_spec m Hm (length r =? 0)%nat td h d st None [] E Ha) as (e1 & h1 & L1 & E1 & S1 & D1); [lia..|].
  simpl. unfold bind at 1. rewrite E1. destruct r as [|r0 r].
  { exists e1, h1, L1. destruct (sv_td _ _ _ _ _ _ _ _ _ S1) as (d1 & st1 & Ed & _).
    unfold bind. rewrite (get_eq _ _ _ Ed). split; [done|]. split; [|done].
    eapply served_weaken; [exact S1|simpl; lia|by rewrite andb_true_r]. }
  set (rs := r0 :: r) in *. assert ((length rs =? 0)%nat = false) as El by done.
  rewrite El, andb_false_r in *.
  destruct (sv_td _ _ _ _ _ _ _ _ _ S1) as (d1 & st1 & Ed & Ev & Hd). rewrite Hd in Ed by done.
  unfold bind at 1. rewrite (get_eq _ _ _ Ed). simpl snd.
  set (b := (1 <? length rs)%nat && negb (IsReadOnly st1)).
  set (st2 := if b then MarkReadOnly st1 else st1).
  set (h2 := mkHeap (<[td := (d, st2)]> (objs h1)) (pool h1) (calls h1)).
  assert ((if b then setState td MarkReadOnly else ret tt) h1 = Some (tt, h2)) as Eb.
  { unfold h2, st2. destruct b.
    - unfold setState, bind. by rewrite (get_eq _ _ _ Ed).
    - rewrite list_insert_id by done. by destruct h1. }
  assert (evolves 0 st1 st2) as Ev2 by (unfold st2; destruct b; [apply evolves_MarkReadOnly|by apply evolves_refl]).
  pose proof (served_state process 0 td d st1 st2 h1 Ed Ev2) as S2.
  pose proof (evolves_alive _ _ _ (evolves_alive _ _ _ Ha Ev) Ev2) as Ha2.
  pose proof (ev_high _ _ _ Ev). pose proof (ev_high _ _ _ Ev2). pose proof (proj1 Ha2).
  assert (objs h2 !! td = Some (d, st2)) as Ed2
    by (apply list_lookup_insert_eq; by eapply lookup_lt_Some).
  destruct (toReadonly_spec rs Hr Hmr td h2 d st2 e1 (comp_data <$> L1) Ed2 Ha2) as (e2 & h3 & L2 & E2 & S3 & D2); [lia..|].
  exists e2, h3, (L1 ++ [] ++ L2). unfold bind. rewrite Eb. split; [exact E2|]. split.
  - replace (sum_of asyncs m + sum_of asyncs rs) with (sum_of asyncs m + (0 + sum_of asyncs rs)) by lia.
    eapply served_trans; [exact S1|exact Ed| |by left|done].
    eapply served_trans; [exact S2|exact Ed2|exact S3|by left|by eapply lookup_lt_Some].
  - rewrite app_nil_l, fmap_app, <- D2. simpl. by rewrite D1.
Qed.

Lemma consume_spec c : well_formed c -> serves c.
Proof.
  induction c as [i b a|i b c IH|c IH|c IH|c v IH|m r IHm IHr] using consumer_nested.
  - intros _. apply exporter_serves.
  - intros Hw%IH. destruct b; [by apply processor_reads|by apply processor_inPlace|by apply processor_copies].
  - intros Hw%IH. by apply refTraces_serves.
  - intros Hw%IH td h d st E Ha Hf Hn. destruct (Hw td h d st E Ha Hf Hn) as (err & h' & L & E' & S & Dl).
    exists (obsError err), h', L. simpl. unfold bind. rewrite E', Dl. done.
  - intros Hw%IH. exact Hw.
  - intros (Hm & Hr & Hmr)%well_formed_fanout. rewrite Forall_forall in *. apply fanout_serves; apply Forall_forall; auto.
Qed.

End consume.

(** ** The consumers the wrappers build *)

Lemma NewFanout_well_formed cs :
  Forall well_formed cs -> Forall honest cs -> well_formed (NewFanout cs).
Proof.
  intros Hw Hh. assert (well_formed (tracesConsumer (filter (fun c => Capabilities c = true) cs)
    (filter (fun c => Capabilities c <> true) cs))) as Hwrap.
  { apply well_formed_fanout. rewrite !Forall_forall in *. split_and!; intros c [Hc Hin]%list_elem_of_filter; auto.
    apply not_true_iff_false. intros Hm. by apply Hc, Hh. }
  unfold NewFanout. destruct cs as [|c [|? ?]]; try exact Hwrap.
  destruct (negb (Capabilities c)); [|exact Hwrap]. by apply Forall_cons in Hw as [? _].
Qed.

Lemma NewFanout_honest cs : Forall honest cs -> honest (NewFanout cs).
Proof.
  intros Hh. unfold NewFanout. destruct cs as [|c [|? ?]]; try by intros ?.
  destruct (negb (Capabilities c)); [by apply Forall_cons in Hh as [? _]|by intros ?].
Qed.

Lemma NewFanout_needs_nothing cs : Forall honest cs -> needs_mutable (NewFanout cs) = false.
Proof.
  intros Hh. unfold NewFanout. destruct cs as [|c [|? ?]]; [done| |done].
  destruct (Capabilities c) eqn:Ec; [done|]. simpl. apply needs_mutates, not_true_iff_false.
  apply Forall_cons in Hh as [Hh _]. intros Hm%Hh. congruence.
Qed.

Lemma NewCapabilities_eq c cap :
  Capabilities (NewCapabilities c cap) = cap /\ mutates_input (NewCapabilities c cap) = mutates_input c /\
  needs_mutable (NewCapabilities c cap) = needs_mutable c /\
  (well_formed (NewCapabilities c cap) <-> well_formed c) /\ asyncs (NewCapabilities c cap) = asyncs c.
Proof. unfold NewCapabilities. destruct (eqb (Capabilities c) cap) eqn:E; [apply eqb_prop in E|]; done. Qed.

Lemma NewObs_eq t c :
  Capabilities (NewObs t c) = Capabilities c /\ mutates_input (NewObs t c) = mutates_input c /\
  needs_mutable (NewObs t c) = needs_mutable c /\ (well_formed (NewObs t c) <-> well_formed c).
Proof. by destruct t. Qed.


(** ** Pooled data

    With the gate pdata.useProtoPooling the object is given back to the pool when the
    first consumer that owns it returns.  A fan-out in front of the owners goes on to
    deliver it. *)

(** With pooling, a receiver that feeds two exporters that only read loses the data
    of the second: the first exporter owns the object and releases it when it returns,
    and the fan-out then gives the second one the emptied object; if that exporter queues
    the data, it gives the object back to the pool again when it is done. *)
Theorem pooled_fanout_delivers_freed_data {D} (empty : D) `{MultiErr} process result d i j :
  exists err h,
    ConsumeTraces empty process result true
      (NewFanout [NewRef (exporter i Reads false); NewRef (exporter j Reads true)]) 0
      (mkHeap [(d, NewState)] [] []) = Some (err, h) /\
    (comp_data <$> calls h) = [(i, d); (j, empty)] /\ pool h = [0%nat] /\
    exists h', UnrefTraces empty true 0 h = Some (tt, h') /\ pool h' = [0%nat; 0%nat].
Proof.
  eexists _, _; split; [vm_compute; reflexivity|split; [done|split; [done|]]].
  eexists; split; [vm_compute; reflexivity|done].
Qed.

#[local] Existing Instance multierr_first.
#[local] Existing Instance multierr_first_laws.

(** A processor that changes its data, an exporter that keeps a reference and one that
    changes its data, behind one fan-out. *)
Definition some_consumers : list consumer :=
  [NewCapabilities (processor 3 InPlace (NewRef (exporter 4 Reads false))) true; NewRef (exporter 1 Reads true);
   exporter 2 InPlace true].

Definition some_heap : heap Z := mkHeap [(10, MarkReadOnly NewState)] [] [].

