(* ===== verification/PCommon.v ===== *)
(** * PCommon: the slices, values and maps of pdata/pcommon

    generated_byteslice.go and the slices of the other plain types (one text for all),
    value.go, map.go, slice.go, generated_slice.go and the copies of
    generated_proto_anyvalue.go and generated_proto_keyvalue.go.

    A Go slice is nil or an array and a length, and two slices can have one array: the
    arrays and the variables that hold slices are the cells of a heap.  What a method does
    in place is done to the array.  The []byte of a bytes value is such a variable; the
    other values are trees that nothing else points into, so that a method takes what its
    receiver points to and returns what it then points to.  Every method takes the state
    of its receiver, and [None] is a panic: of AssertMutable, of an index, or of a method
    called on the zero Map or Slice.  [extra] is what append allocates beyond what it
    needs.  Strings are lists of bytes, a float64 is its bits. *)

From S2P Require Import Prelude.
From S2P Require Import GoErrors.
From S2P Require Import Storage.
From S2P Require Import Consumers.

(** ** Go slices *)

Abbreviation header := (option (nat * nat)).

Record heap (A : Type) := mkHeap { arrays : list (list A); cells : list header }.
Arguments mkHeap {A} _ _.
Arguments arrays {A} _.
Arguments cells {A} _.

(** The loops of RemoveIf: [i] counts up, [k] rounds are left.  A map also resets the
    elements it removes. *)
Fixpoint removeLoop {A} (zero : A) (reset : bool) (f : A -> bool) (k i newLen : nat) (l : list A) : list A * nat :=
  match k with
  | O => (l, newLen)
  | S k =>
      match l !! i with
      | None => (l, newLen)
      | Some x =>
          if f x then removeLoop zero reset f k (S i) newLen (if reset then <[i := zero]> l else l)
          else if decide (newLen = i) then removeLoop zero reset f k (S i) (S newLen) l
          else removeLoop zero reset f k (S i) (S newLen) (<[i := zero]> (<[newLen := x]> l))
      end
  end.

Section slices.
Context {A : Type} (zero : A) (eqA : A -> A -> bool) (extra : nat -> nat -> nat).
Abbreviation heap := (heap A).

Definition Slice_array (a : nat) (h : heap) : list A := default [] (arrays h !! a).
Definition Slice_contents (s : header) (h : heap) : list A :=
  match s with None => [] | Some (a, n) => take n (Slice_array a h) end.
Definition Slice_capacity (s : header) (h : heap) : nat := match s with None => 0 | Some (a, _) => length (Slice_array a h) end.
Definition Slice_empty_of (s : header) : header := (fun p => (p.1, 0%nat)) <$> s.
Definition Slice_size (s : header) : nat := match s with None => 0 | Some (_, n) => n end.

Definition Slice_getOrig (c : nat) (h : heap) : header := default None (cells h !! c).
Definition Slice_setOrig (c : nat) (s : header) (h : heap) : heap := mkHeap (arrays h) (<[c := s]> (cells h)).
Definition Slice_set_array (a : nat) (l : list A) (h : heap) : heap := mkHeap (<[a := l]> (arrays h)) (cells h).
Definition Slice_make (l : list A) (n : nat) (h : heap) : header * heap :=
  (Some (length (arrays h), n), mkHeap (arrays h ++ [l]) (cells h)).
(** A new variable. *)
Definition Slice_new (s : header) (h : heap) : nat * heap := (length (cells h), mkHeap (arrays h) (cells h ++ [s])).

(** append(s, xs...) *)
Definition Slice_append (s : header) (xs : list A) (h : heap) : header * heap :=
  match xs with
  | [] => (s, h)
  | _ =>
      let needed := (Slice_size s + length xs)%nat in
      match s with
      | Some (a, n) =>
          if decide (needed <= Slice_capacity s h)%nat then
            (Some (a, needed), Slice_set_array a (take n (Slice_array a h) ++ xs ++ drop needed (Slice_array a h)) h)
          else Slice_make (Slice_contents s h ++ xs ++ replicate (extra (Slice_capacity s h) needed) zero) needed h
      | None => Slice_make (xs ++ replicate (extra 0 needed) zero) needed h
      end
  end.

Definition Slice_NewSlice (h : heap) : nat * heap := Slice_new None h.
Definition Slice_AsRaw (c : nat) (h : heap) : list A := Slice_contents (Slice_getOrig c h) h.
Definition Slice_Len (c : nat) (h : heap) : Z := Z.of_nat (length (Slice_contents (Slice_getOrig c h) h)).
Definition Slice_At (c : nat) (i : Z) (h : heap) : option A :=
  if decide (0 <= i) then Slice_contents (Slice_getOrig c h) h !! Z.to_nat i else None.

Definition Slice_copySlice (dst : header) (src : list A) (h : heap) : header * heap := Slice_append (Slice_empty_of dst) src h.

Definition Slice_FromRaw (st : State) (c : nat) (val : list A) (h : heap) : option heap :=
  _ ← AssertMutable st;
  let '(s, h) := Slice_copySlice (Slice_getOrig c h) val h in Some (Slice_setOrig c s h).

Definition Slice_SetAt (st : State) (c : nat) (i : Z) (val : A) (h : heap) : option heap :=
  _ ← AssertMutable st;
  match Slice_getOrig c h with
  | Some (a, n) => if decide (0 <= i < Z.of_nat n) then Some (Slice_set_array a (<[Z.to_nat i := val]> (Slice_array a h)) h) else None
  | None => None
  end.

Definition Slice_EnsureCapacity (st : State) (c : nat) (newCap : Z) (h : heap) : option heap :=
  _ ← AssertMutable st;
  let s := Slice_getOrig c h in
  if decide (newCap <= Z.of_nat (Slice_capacity s h)) then Some h
  else
    let l := Slice_contents s h in
    let '(s, h) := Slice_make (l ++ replicate (Z.to_nat newCap - length l) zero) (length l) h in
    Some (Slice_setOrig c s h).

Definition Slice_Append (st : State) (c : nat) (elms : list A) (h : heap) : option heap :=
  _ ← AssertMutable st;
  let '(s, h) := Slice_append (Slice_getOrig c h) elms h in Some (Slice_setOrig c s h).

Definition Slice_MoveTo (st st' : State) (c dest : nat) (h : heap) : option heap :=
  _ ← AssertMutable st; _ ← AssertMutable st';
  if decide (c = dest) then Some h
  else Some (Slice_setOrig c None (Slice_setOrig dest (Slice_getOrig c h) h)).

(** The method of a plain slice: it does not ask whether both are the same. *)
Definition Slice_MoveAndAppendTo (st st' : State) (c dest : nat) (h : heap) : option heap :=
  _ ← AssertMutable st; _ ← AssertMutable st';
  let h :=
    match Slice_getOrig dest h with
    | None => Slice_setOrig dest (Slice_getOrig c h) h
    | s => let '(s, h) := Slice_append s (Slice_contents (Slice_getOrig c h) h) h in Slice_setOrig dest s h
    end in
  Some (Slice_setOrig c None h).

Definition Slice_RemoveIf (st : State) (f : A -> bool) (c : nat) (h : heap) : option heap :=
  _ ← AssertMutable st;
  match Slice_getOrig c h with
  | None => Some h
  | Some (a, n) =>
      let '(l, newLen) := removeLoop zero false f n 0 0 (take n (Slice_array a h)) in
      Some (Slice_setOrig c (Some (a, newLen)) (Slice_set_array a (l ++ drop n (Slice_array a h)) h))
  end.

Definition Slice_CopyTo (st' : State) (c dest : nat) (h : heap) : option heap :=
  _ ← AssertMutable st';
  if decide (c = dest) then Some h
  else let '(s, h) := Slice_copySlice (Slice_getOrig dest h) (Slice_contents (Slice_getOrig c h) h) h in Some (Slice_setOrig dest s h).

(** slices.Equal *)
Fixpoint Slice_equal (l k : list A) : bool :=
  match l, k with
  | [], [] => true
  | x :: l, y :: k => eqA x y && Slice_equal l k
  | _, _ => false
  end.
Definition Slice_Equal (c c' : nat) (h : heap) : bool := Slice_equal (Slice_contents (Slice_getOrig c h) h) (Slice_contents (Slice_getOrig c' h) h).
End slices.

(** ** Values *)

Inductive ValueType :=
| ValueTypeEmpty | ValueTypeStr | ValueTypeInt | ValueTypeDouble | ValueTypeBool | ValueTypeMap | ValueTypeSlice
| ValueTypeBytes.

#[export] Instance ValueType_eq_dec : EqDecision ValueType.
Proof. solve_decision. Defined.

Definition ValueType_String (avt : ValueType) : string :=
  match avt with
  | ValueTypeEmpty => "Empty" | ValueTypeStr => "Str" | ValueTypeBool => "Bool" | ValueTypeInt => "Int"
  | ValueTypeDouble => "Double" | ValueTypeMap => "Map" | ValueTypeSlice => "Slice" | ValueTypeBytes => "Bytes"
  end.

(** What a Value points to: AnyValue.Value.  The array and the list of a oneof can be nil;
    [BytesValue] is the variable of the []byte. *)
Inductive value :=
| Empty
| StringValue (s : bytes)
| BoolValue (b : bool)
| IntValue (z : Z)
| DoubleValue (bits : Z)
| ArrayValue (a : option (list value))
| KvlistValue (l : option (list keyValue))
| BytesValue (c : nat)
| StringValueStrindex (z : Z)
with keyValue := mkKeyValue (k : bytes) (v : value) (i : Z).

Definition Key (kv : keyValue) : bytes := let '(mkKeyValue k _ _) := kv in k.
Definition Val (kv : keyValue) : value := let '(mkKeyValue _ v _) := kv in v.
Definition set_Val (v : value) (kv : keyValue) : keyValue := let '(mkKeyValue k _ i) := kv in mkKeyValue k v i.

Definition Type_ (v : value) : ValueType :=
  match v with
  | StringValue _ => ValueTypeStr
  | BoolValue _ => ValueTypeBool
  | IntValue _ => ValueTypeInt
  | DoubleValue _ => ValueTypeDouble
  | KvlistValue _ => ValueTypeMap
  | ArrayValue _ => ValueTypeSlice
  | BytesValue _ => ValueTypeBytes
  | _ => ValueTypeEmpty
  end.

Definition Str (v : value) : bytes := match v with StringValue s => s | _ => [] end.
Definition Int (v : value) : Z := match v with IntValue z => z | _ => 0 end.
Definition Double (v : value) : Z := match v with DoubleValue bits => bits | _ => 0 end.
Definition Bool (v : value) : bool := match v with BoolValue b => b | _ => false end.
(** [None]: the zero Map, Slice or ByteSlice. *)
Definition Map_ (v : value) : option (list keyValue) := match v with KvlistValue l => l | _ => None end.
Definition Slice_ (v : value) : option (list value) := match v with ArrayValue l => l | _ => None end.
Definition Bytes_ (v : value) : option nat := match v with BytesValue c => Some c | _ => None end.

(** ** Bytes *)

Section bytes.
Context (extra : nat -> nat -> nat).
Abbreviation heap := (heap Z).
Definition ByteSlice_FromRaw : State -> nat -> bytes -> heap -> option heap := Slice_FromRaw 0 extra.
Definition ByteSlice_AsRaw : nat -> heap -> bytes := Slice_AsRaw.
Definition ByteSlice_SetAt : State -> nat -> Z -> Z -> heap -> option heap := Slice_SetAt.
Definition ByteSlice_Equal : nat -> nat -> heap -> bool := Slice_Equal Z.eqb.
End bytes.

(** ** Numbers *)

(** float64(tv) of a float32, both as bits; the NaN that results is quiet. *)
Definition float64_of_float32 (b : Z) : Z :=
  let sign := Z.shiftl (Z.shiftr b 31) 63 in
  let e := Z.land (Z.shiftr b 23) 255 in
  let m := Z.land b (Z.ones 23) in
  let magnitude :=
    if decide (e = 255) then
      Z.lor (Z.shiftl 2047 52) (if decide (m = 0) then 0 else Z.lor (Z.shiftl m 29) (Z.shiftl 1 51))
    else if decide (e <> 0) then Z.shiftl (e + 896) 52 + Z.shiftl m 29
    else if decide (m = 0) then 0
    else let k := Z.log2 m in Z.shiftl (k + 874) 52 + Z.shiftl (m - Z.shiftl 1 k) (52 - k) in
  sign + magnitude.

(** == of two float64 *)
Definition float64_isNaN (b : Z) : bool := Z.shiftl 2047 52 <? Z.land b (Z.ones 63).
Definition float64_eqb (a b : Z) : bool :=
  negb (float64_isNaN a) && negb (float64_isNaN b) &&
  ((a =? b) || ((Z.land a (Z.ones 63) =? 0) && (Z.land b (Z.ones 63) =? 0))).

(** ** Raw values: what an [any] holds *)

(** [RInt] is a value of any integer type, [RMap] the entries of a map in the order in
    which range visits them, [ROther] a value of a type that FromRaw does not know. *)
Inductive raw :=
| RNil
| RString (s : bytes)
| RInt (z : Z)
| RFloat32 (bits : Z)
| RFloat64 (bits : Z)
| RBool (b : bool)
| RBytes (s : bytes)
| RMap (l : list (bytes * raw))
| RSlice (l : list raw)
| ROther (T : string).

Definition errInvalidValueType (T : string) : error := ErrNew ("<Invalid value type " +:+ T +:+ ">").

(** *** New values *)

Definition NewValueEmpty : value * State := (Empty, NewState).
Definition NewValueStr (v : bytes) : value * State := (StringValue v, NewState).
Definition NewValueInt (v : Z) : value * State := (IntValue v, NewState).
Definition NewValueDouble (v : Z) : value * State := (DoubleValue v, NewState).
Definition NewValueBool (v : bool) : value * State := (BoolValue v, NewState).
Definition NewValueMap : value * State := (KvlistValue (Some []), NewState).
Definition NewValueSlice : value * State := (ArrayValue (Some []), NewState).
Definition NewValueBytes (h : heap Z) : value * State * heap Z :=
  let '(c, h) := Slice_NewSlice h in ((BytesValue c, NewState), h).

Section values.
Context `{MultiErr} (extra : nat -> nat -> nat).
Abbreviation heap := (heap Z).

(** *** Setters: what the value is then *)

Definition SetStr (st : State) (sv : bytes) : option value := _ ← AssertMutable st; Some (StringValue sv).
Definition SetInt (st : State) (iv : Z) : option value := _ ← AssertMutable st; Some (IntValue iv).
Definition SetDouble (st : State) (dv : Z) : option value := _ ← AssertMutable st; Some (DoubleValue dv).
Definition SetBool (st : State) (bv : bool) : option value := _ ← AssertMutable st; Some (BoolValue bv).
Definition SetEmptyBytes (st : State) (h : heap) : option (value * heap) :=
  _ ← AssertMutable st; let '(c, h) := Slice_NewSlice h in Some (BytesValue c, h).
Definition SetEmptyMap (st : State) : option value := _ ← AssertMutable st; Some (KvlistValue (Some [])).
Definition SetEmptySlice (st : State) : option value := _ ← AssertMutable st; Some (ArrayValue (Some [])).

(** *** FromRaw: the value, the heap and the error after it, for the value [v] *)

Definition bytesFromRaw (st : State) (tv : bytes) (h : heap) : option (value * heap) :=
  '(v, h) ← SetEmptyBytes st h;
  match v with
  | BytesValue c => h ← ByteSlice_FromRaw extra st c tv h; Some (v, h)
  | _ => None
  end.

Fixpoint Value_FromRaw (st : State) (iv : raw) (v : value) (h : heap) : option (value * (heap * option error)) :=
  let set (x : option value) : option (value * (heap * option error)) := v ← x; Some (v, (h, None)) in
  match iv with
  | RNil => Some (Empty, (h, None))
  | RString s => set (SetStr st s)
  | RInt z => set (SetInt st (i64 z))
  | RFloat32 b => set (SetDouble st (float64_of_float32 b))
  | RFloat64 b => set (SetDouble st b)
  | RBool b => set (SetBool st b)
  | RBytes s => '(v, h) ← bytesFromRaw st s h; Some (v, (h, None))
  | RMap rawMap =>
      _ ← SetEmptyMap st; _ ← AssertMutable st;
      '(origs, s) ← traverseM (fun kv '(h, errs) =>
          '(v, (h, err)) ← Value_FromRaw st kv.2 Empty h; Some (mkKeyValue kv.1 v 0, (h, multierr_Append errs err)))
        rawMap (h, None);
      Some (KvlistValue (Some origs), s)
  | RSlice rawSlice =>
      _ ← SetEmptySlice st; _ ← AssertMutable st;
      '(origs, s) ← traverseM (fun iv '(h, errs) =>
          '(v, (h, err)) ← Value_FromRaw st iv Empty h; Some (v, (h, multierr_Append errs err)))
        rawSlice (h, None);
      Some (ArrayValue (Some origs), s)
  | ROther T => Some (v, (h, Some (errInvalidValueType T)))
  end.

(** *** AsRaw *)

(** rawMap[k] = v *)
Fixpoint rawPut (k : bytes) (r : raw) (l : list (bytes * raw)) : list (bytes * raw) :=
  match l with
  | [] => [(k, r)]
  | (k', r') :: l => if decide (k' = k) then (k, r) :: l else (k', r') :: rawPut k r l
  end.

Fixpoint Value_AsRaw (h : heap) (v : value) : option raw :=
  match v with
  | Empty | StringValueStrindex _ => Some RNil
  | StringValue s => Some (RString s)
  | BoolValue b => Some (RBool b)
  | DoubleValue b => Some (RFloat64 b)
  | IntValue z => Some (RInt z)
  | BytesValue c => Some (RBytes (ByteSlice_AsRaw c h))
  | KvlistValue None | ArrayValue None => None
  | KvlistValue (Some l) =>
      (fix go l rawMap := match l with
        | [] => Some (RMap rawMap)
        | mkKeyValue k v _ :: l => r ← Value_AsRaw h v; go l (rawPut k r rawMap)
        end) l []
  | ArrayValue (Some l) =>
      (fix go l rawSlice := match l with
        | [] => Some (RSlice rawSlice)
        | v :: l => r ← Value_AsRaw h v; go l (rawSlice ++ [r])
        end) l []
  end.

(** *** Copies *)

(** internal.CopyAnyValue to another object, without the pools: the []byte is assigned. *)
Fixpoint CopyAnyValue (src : value) (h : heap) : value * heap :=
  match src with
  | BytesValue c => let '(c', h) := Slice_new (Slice_getOrig c h) h in (BytesValue c', h)
  | ArrayValue (Some l) => let '(l, h) := traverse CopyAnyValue l h in (ArrayValue (Some l), h)
  | ArrayValue None => (ArrayValue (Some []), h)
  | KvlistValue (Some l) =>
      let '(l, h) := traverse (fun kv h => let '(mkKeyValue k v i) := kv in
        let '(v, h) := CopyAnyValue v h in (mkKeyValue k v i, h)) l h in
      (KvlistValue (Some l), h)
  | KvlistValue None => (KvlistValue (Some []), h)
  | v => (v, h)
  end.

Definition CopyKeyValue (kv : keyValue) (h : heap) : keyValue * heap :=
  let '(mkKeyValue k v i) := kv in let '(v, h) := CopyAnyValue v h in (mkKeyValue k v i, h).
Definition CopyKeyValueSlice (src : list keyValue) (h : heap) : list keyValue * heap := traverse CopyKeyValue src h.
Definition CopyAnyValueSlice (src : list value) (h : heap) : list value * heap := traverse CopyAnyValue src h.

(** (receiver, destination) after MoveTo and CopyTo; [same]: they point to one object. *)
Definition Value_MoveTo (same : bool) (st st' : State) (v dest : value) : option (value * value) :=
  _ ← AssertMutable st; _ ← AssertMutable st';
  if same then Some (v, dest) else Some (Empty, v).
Definition Value_CopyTo (same : bool) (st' : State) (v dest : value) (h : heap) : option (value * heap) :=
  _ ← AssertMutable st';
  if same then Some (dest, h) else Some (CopyAnyValue v h).
End values.

(** ** Maps: the entries a Map points to *)

(** The entry of a key is known by its place. *)
Fixpoint GetFrom (i : nat) (key : bytes) (m : list keyValue) : option nat :=
  match m with
  | [] => None
  | kv :: m => if decide (Key kv = key) then Some i else GetFrom (S i) key m
  end.
Definition Get : bytes -> list keyValue -> option nat := GetFrom 0.
(** What the Value that Get returns points to. *)
Definition GetValue (key : bytes) (m : list keyValue) : option value := i ← Get key m; kv ← m !! i; Some (Val kv).

(** *** Equal *)

Fixpoint Value_Equal (h : heap Z) (v c : value) : option bool :=
  if decide (Type_ v <> Type_ c) then Some false
  else
    match v with
    | Empty | StringValueStrindex _ => Some true
    | StringValue s => Some (bool_decide (s = Str c))
    | BoolValue b => Some (Bool.eqb b (Bool c))
    | DoubleValue b => Some (float64_eqb b (Double c))
    | IntValue z => Some (z =? Int c)
    | BytesValue a => b ← Bytes_ c; Some (ByteSlice_Equal a b h)
    | KvlistValue (Some m) =>
        val ← Map_ c;
        if decide (length m <> length val) then Some false
        else
          (fix go m := match m with
            | [] => Some true
            | mkKeyValue k v _ :: m =>
                match GetValue k val with
                | None => Some false
                | Some vv => e ← Value_Equal h v vv; if (e : bool) then go m else Some false
                end
            end) m
    | ArrayValue (Some es) =>
        val ← Slice_ c;
        if decide (length es <> length val) then Some false
        else
          (fix go es val := match es, val with
            | v :: es, c :: val => e ← Value_Equal h v c; if (e : bool) then go es val else Some false
            | _, _ => Some true
            end) es val
    | KvlistValue None | ArrayValue None => None
    end.

Section map.
Context `{MultiErr} (extra : nat -> nat -> nat).
Abbreviation heap := (heap Z).

Definition Map_Clear (st : State) (m : list keyValue) : option (list keyValue) := _ ← AssertMutable st; Some [].

(** The entry of the key becomes the last one. *)
Definition Map_Remove (st : State) (key : bytes) (m : list keyValue) : option (list keyValue * bool) :=
  _ ← AssertMutable st;
  match Get key m with
  | Some i => Some (take (length m - 1) (default m ((fun akv => <[i := akv]> m) <$> last m)), true)
  | None => Some (m, false)
  end.

Definition Map_zeroKeyValue : keyValue := mkKeyValue [] Empty 0.

Definition Map_RemoveIf (st : State) (f : bytes -> value -> bool) (m : list keyValue) : option (list keyValue) :=
  _ ← AssertMutable st;
  let '(m, newLen) := removeLoop Map_zeroKeyValue true (fun kv => f (Key kv) (Val kv)) (length m) 0 0 m in Some (take newLen m).

(** The map and the place of the value returned. *)
Definition Map_PutEmpty (st : State) (k : bytes) (m : list keyValue) : option (list keyValue * nat) :=
  _ ← AssertMutable st;
  match Get k m with
  | Some i => Some (alter (set_Val Empty) i m, i)
  | None => Some (m ++ [mkKeyValue k Empty 0], length m)
  end.
Definition Map_GetOrPutEmpty (st : State) (k : bytes) (m : list keyValue) : option (list keyValue * (nat * bool)) :=
  _ ← AssertMutable st;
  match Get k m with
  | Some i => Some (m, (i, true))
  | None => Some (m ++ [mkKeyValue k Empty 0], (length m, false))
  end.

Definition Map_PutStr (st : State) (k v : bytes) (m : list keyValue) : option (list keyValue) :=
  _ ← AssertMutable st;
  match Get k m with
  | Some i => av ← SetStr st v; Some (alter (set_Val av) i m)
  | None => Some (m ++ [mkKeyValue k (StringValue v) 0])
  end.
Definition Map_PutInt (st : State) (k : bytes) (v : Z) (m : list keyValue) : option (list keyValue) :=
  _ ← AssertMutable st;
  match Get k m with
  | Some i => av ← SetInt st v; Some (alter (set_Val av) i m)
  | None => Some (m ++ [mkKeyValue k (IntValue v) 0])
  end.
Definition Map_PutDouble (st : State) (k : bytes) (v : Z) (m : list keyValue) : option (list keyValue) :=
  _ ← AssertMutable st;
  match Get k m with
  | Some i => av ← SetDouble st v; Some (alter (set_Val av) i m)
  | None => Some (m ++ [mkKeyValue k (DoubleValue v) 0])
  end.
Definition Map_PutBool (st : State) (k : bytes) (v : bool) (m : list keyValue) : option (list keyValue) :=
  _ ← AssertMutable st;
  match Get k m with
  | Some i => av ← SetBool st v; Some (alter (set_Val av) i m)
  | None => Some (m ++ [mkKeyValue k (BoolValue v) 0])
  end.
Definition Map_PutEmptyBytes (st : State) (k : bytes) (m : list keyValue) (h : heap) : option (list keyValue * heap) :=
  _ ← AssertMutable st;
  match Get k m with
  | Some i => '(av, h) ← SetEmptyBytes st h; Some (alter (set_Val av) i m, h)
  | None => let '(c, h) := Slice_NewSlice h in Some (m ++ [mkKeyValue k (BytesValue c) 0], h)
  end.
Definition Map_PutEmptyMap (st : State) (k : bytes) (m : list keyValue) : option (list keyValue) :=
  _ ← AssertMutable st;
  match Get k m with
  | Some i => av ← SetEmptyMap st; Some (alter (set_Val av) i m)
  | None => Some (m ++ [mkKeyValue k (KvlistValue (Some [])) 0])
  end.
Definition Map_PutEmptySlice (st : State) (k : bytes) (m : list keyValue) : option (list keyValue) :=
  _ ← AssertMutable st;
  match Get k m with
  | Some i => av ← SetEmptySlice st; Some (alter (set_Val av) i m)
  | None => Some (m ++ [mkKeyValue k (ArrayValue (Some [])) 0])
  end.

Definition Map_Len (m : list keyValue) : Z := Z.of_nat (length m).
(** Range calls f until it returns false; [s] is what f keeps. *)
Fixpoint Map_Range {S} (f : bytes -> value -> S -> S * bool) (m : list keyValue) (s : S) : S :=
  match m with
  | [] => s
  | kv :: m => let '(s, go) := f (Key kv) (Val kv) s in if (go : bool) then Map_Range f m s else s
  end.

Definition Map_MoveTo (same : bool) (st st' : State) (m dest : list keyValue) : option (list keyValue * list keyValue) :=
  _ ← AssertMutable st; _ ← AssertMutable st';
  if same then Some (m, dest) else Some ([], m).
Definition Map_CopyTo (same : bool) (st' : State) (m dest : list keyValue) (h : heap) : option (list keyValue * heap) :=
  _ ← AssertMutable st';
  if same then Some (dest, h) else Some (CopyKeyValueSlice m h).

Definition Map_AsRaw (h : heap) (m : list keyValue) : option raw := Value_AsRaw h (KvlistValue (Some m)).
Definition Map_FromRaw (st : State) (rawMap : list (bytes * raw)) (h : heap) : option (list keyValue * (heap * option error)) :=
  _ ← AssertMutable st;
  traverseM (fun kv '(h, errs) =>
      '(v, (h, err)) ← Value_FromRaw extra st kv.2 Empty h; Some (mkKeyValue kv.1 v 0, (h, multierr_Append errs err)))
    rawMap (h, None).
Definition Map_Equal (h : heap) (m val : list keyValue) : option bool :=
  Value_Equal h (KvlistValue (Some m)) (KvlistValue (Some val)).
End map.

(** ** Slices of values: the values a Slice points to *)

Section valueSlices.
Context `{MultiErr} (extra : nat -> nat -> nat).
Abbreviation heap := (heap Z).

Definition Values_Len (es : list value) : Z := Z.of_nat (length es).
Definition Values_At (i : Z) (es : list value) : option value := if decide (0 <= i) then es !! Z.to_nat i else None.

(** The slice and the place of the value returned. *)
Definition Values_AppendEmpty (st : State) (es : list value) : option (list value * nat) :=
  _ ← AssertMutable st; Some (es ++ [Empty], length es).

Definition Values_MoveAndAppendTo (same : bool) (st st' : State) (es dest : list value) : option (list value * list value) :=
  _ ← AssertMutable st; _ ← AssertMutable st';
  if same then Some (es, dest) else Some ([], dest ++ es).

Definition Values_RemoveIf (st : State) (f : value -> bool) (es : list value) : option (list value) :=
  _ ← AssertMutable st;
  let '(es, newLen) := removeLoop Empty true f (length es) 0 0 es in Some (take newLen es).

Definition Values_CopyTo (same : bool) (st' : State) (es dest : list value) (h : heap) : option (list value * heap) :=
  _ ← AssertMutable st';
  if same then Some (dest, h) else Some (CopyAnyValueSlice es h).

Definition Values_AsRaw (h : heap) (es : list value) : option raw := Value_AsRaw h (ArrayValue (Some es)).
Definition Values_FromRaw (st : State) (rawSlice : list raw) (h : heap) : option (list value * (heap * option error)) :=
  _ ← AssertMutable st;
  traverseM (fun iv '(h, errs) =>
      '(v, (h, err)) ← Value_FromRaw extra st iv Empty h; Some (v, (h, multierr_Append errs err)))
    rawSlice (h, None).
Definition Values_Equal (h : heap) (es val : list value) : option bool :=
  Value_Equal h (ArrayValue (Some es)) (ArrayValue (Some val)).
End valueSlices.

(** ** trace_state.go: (receiver, destination) after MoveTo *)

Definition TraceState_FromRaw (st : State) (v : bytes) : option bytes := _ ← AssertMutable st; Some v.
Definition TraceState_MoveTo (same : bool) (st st' : State) (ms dest : bytes) : option (bytes * bytes) :=
  _ ← AssertMutable st; _ ← AssertMutable st';
  if same then Some (ms, dest) else Some ([], ms).
Definition TraceState_CopyTo (st' : State) (ms : bytes) : option bytes := _ ← AssertMutable st'; Some ms.
