(* ===== verification/PCommonProofs.v ===== *)
(** * PCommonProofs: values and maps are what their raw values say, and what copies share

    Round trip with raw values, maps as finite maps, Equal as an equivalence, what a
    read-only state protects, and the []byte that a copy shares with its source. *)

From S2P Require Import Prelude.
From S2P Require Import GoErrors.
From S2P Require Import Storage.
From S2P Require Import Consumers.
From S2P Require Import PCommon.

(** ** Induction on values and on raw values *)

Section value_ind.
Context (P : value -> Prop).
Context (Hleaf : forall v, (forall l, v <> ArrayValue (Some l)) -> (forall l, v <> KvlistValue (Some l)) -> P v).
Context (Harray : forall l, Forall P l -> P (ArrayValue (Some l))).
Context (Hkvlist : forall l, Forall (fun kv => P (Val kv)) l -> P (KvlistValue (Some l))).

Fixpoint value_nested_ind (v : value) : P v.
Proof.
  refine (
    let array := fix go l : Forall P l :=
      match l with [] => Forall_nil_2 _ | v :: l => Forall_cons_2 _ _ _ (value_nested_ind v) (go l) end in
    let kvlist := fix go l : Forall (fun kv => P (Val kv)) l :=
      match l with
      | [] => Forall_nil_2 _
      | mkKeyValue k v i :: l => Forall_cons_2 (fun kv => P (Val kv)) (mkKeyValue k v i) l (value_nested_ind v) (go l)
      end in
    match v with
    | ArrayValue (Some l) => Harray l (array l)
    | KvlistValue (Some l) => Hkvlist l (kvlist l)
    | v => Hleaf v _ _
    end); intros ? [=].
Defined.
End value_ind.

Section raw_ind.
Context (P : raw -> Prop).
Context (Hleaf : forall r, (forall l, r <> RMap l) -> (forall l, r <> RSlice l) -> P r).
Context (Hmap : forall l, Forall (fun e => P e.2) l -> P (RMap l)).
Context (Hslice : forall l, Forall P l -> P (RSlice l)).

Fixpoint raw_nested_ind (r : raw) : P r.
Proof.
  refine (
    let map := fix go l : Forall (fun e => P e.2) l :=
      match l with
      | [] => Forall_nil_2 _
      | (k, r) :: l => Forall_cons_2 (fun e => P e.2) (k, r) l (raw_nested_ind r) (go l)
      end in
    let slice := fix go l : Forall P l :=
      match l with [] => Forall_nil_2 _ | r :: l => Forall_cons_2 _ _ _ (raw_nested_ind r) (go l) end in
    match r with
    | RMap l => Hmap l (map l)
    | RSlice l => Hslice l (slice l)
    | r => Hleaf r _ _
    end); intros ? [=].
Defined.
End raw_ind.

(** ** Raw values *)

(** The raw values that AsRaw gives: one integer and one float type, distinct keys. *)
Fixpoint canonical (r : raw) : Prop :=
  match r with
  | RInt z => - 2 ^ 63 <= z < 2 ^ 63
  | RFloat32 _ | ROther _ => False
  | RMap l =>
      NoDup l.*1 /\ (fix go l := match l with [] => True | (_, r) :: l => canonical r /\ go l end) l
  | RSlice l => (fix go l := match l with [] => True | r :: l => canonical r /\ go l end) l
  | _ => True
  end.

Lemma canonical_map l : canonical (RMap l) <-> NoDup l.*1 /\ Forall (fun e => canonical e.2) l.
Proof.
  simpl. split; intros [N C]; (split; [done|]); clear N.
  - induction l as [|[k r] l IH]; constructor; naive_solver.
  - induction C as [|[k r] l]; naive_solver.
Qed.

Lemma canonical_slice l : canonical (RSlice l) <-> Forall canonical l.
Proof. simpl. split; intros C; [induction l; constructor; naive_solver|induction C; naive_solver]. Qed.

Lemma rawPut_fresh k r l : k ∉ l.*1 -> rawPut k r l = l ++ [(k, r)].
Proof.
  induction l as [|[k' r'] l IH]; simpl; intros Hk; [done|]. apply not_elem_of_cons in Hk as [Hne Hk].
  rewrite decide_False by done. by rewrite IH.
Qed.

(** AsRaw of a list of entries is the raw map of what they hold. *)
Definition holds (h : heap Z) (kv : keyValue) (e : bytes * raw) : Prop := Key kv = e.1 /\ Value_AsRaw h (Val kv) = Some e.2.

Lemma AsRaw_kvlist h m l : Forall2 (holds h) m l -> NoDup l.*1 -> Value_AsRaw h (KvlistValue (Some m)) = Some (RMap l).
Proof.
  intros F N. simpl. change l with ([] ++ l) at 1. change l with ([] ++ l) in N. revert N. generalize (@nil (bytes * raw)).
  induction F as [|[k v i] [k' r] m l [Ek Er] F IH]; intros acc N; [by rewrite app_nil_r|]. simpl in Ek, Er. subst k'.
  rewrite Er. simpl. rewrite rawPut_fresh.
  - rewrite IH; rewrite <- app_assoc; done.
  - rewrite fmap_app, NoDup_app in N. intros Hk. by apply (proj1 (proj2 N) k Hk); left.
Qed.

Lemma AsRaw_array h es l : Forall2 (fun v r => Value_AsRaw h v = Some r) es l -> Value_AsRaw h (ArrayValue (Some es)) = Some (RSlice l).
Proof.
  intros F. simpl. change l with ([] ++ l). generalize (@nil raw) at 2 3.
  induction F as [|v r es l Er F IH]; intros acc; [by rewrite app_nil_r|]. rewrite Er. simpl.
  rewrite IH. by rewrite <- app_assoc.
Qed.

(** ** Heaps that grow *)

Definition extends (h h' : heap Z) : Prop := arrays h `prefix_of` arrays h' /\ cells h `prefix_of` cells h'.

#[export] Instance extends_preorder : PreOrder extends.
Proof. split; [done|]. intros h1 h2 h3 [A1 C1] [A2 C2]. split; by etrans. Qed.

Lemma extends_AsRaw c s h h' a l :
  cells h !! c = Some s -> s = Some (a, length l) -> arrays h !! a = Some l -> extends h h' -> ByteSlice_AsRaw c h' = l.
Proof.
  intros Hc -> Ha [[la Ea] [lc Ec]]. unfold ByteSlice_AsRaw, Slice_AsRaw, Slice_getOrig, Slice_contents, Slice_array.
  rewrite Ec, Ea, (lookup_app_l_Some _ _ _ _ Hc). simpl. rewrite (lookup_app_l_Some _ _ _ _ Ha). simpl. by rewrite firstn_all.
Qed.

Section raws.
Context `{MultiErr} `{!MultiErrLaws} (extra : nat -> nat -> nat).
Abbreviation heap := (heap Z).
Abbreviation Value_FromRaw := (Value_FromRaw extra).

(** A value that says [r], in every heap that extends [h]. *)
Definition says (h : heap) (v : value) (r : raw) : Prop := forall h', extends h h' -> Value_AsRaw h' v = Some r.

Lemma says_mono h h' v r : says h v r -> extends h h' -> says h' v r.
Proof. intros S E h2 E2. apply S. by etrans. Qed.

Lemma bytesFromRaw_says st s h :
  AssertMutable st = Some tt ->
  exists v h', bytesFromRaw extra st s h = Some (v, h') /\ extends h h' /\ says h' v (RBytes s).
Proof.
  intros M. unfold bytesFromRaw, SetEmptyBytes, Slice_NewSlice, Slice_new, ByteSlice_FromRaw, Slice_FromRaw, Slice_copySlice.
  rewrite M. simpl. unfold Slice_getOrig. simpl. rewrite list_lookup_middle by done. simpl.
  destruct s as [|b s]; simpl.
  - eexists _, _. split; [done|]. unfold Slice_setOrig. simpl. rewrite insert_app_r_alt, Nat.sub_diag by lia. simpl.
    split; [split; [done|by apply prefix_app_r]|]. intros h' [_ [lc Ec]]. simpl in Ec. simpl. f_equal. f_equal.
    unfold ByteSlice_AsRaw, Slice_AsRaw, Slice_getOrig. rewrite Ec, <- app_assoc. simpl. by rewrite list_lookup_middle.
  - eexists _, _. split; [done|]. unfold Slice_setOrig. simpl.
    rewrite insert_app_r_alt, Nat.sub_diag by lia. simpl.
    split; [split; by apply prefix_app_r|]. intros h' E. simpl. f_equal. f_equal.
    destruct E as [[la Ea] [lc Ec]]. simpl in Ea, Ec.
    unfold ByteSlice_AsRaw, Slice_AsRaw, Slice_getOrig. rewrite Ec, <- app_assoc. simpl. rewrite list_lookup_middle by done. simpl.
    unfold Slice_array. rewrite Ea, <- app_assoc. simpl. rewrite list_lookup_middle by done. simpl.
    f_equal. rewrite take_app_le by lia. by rewrite take_ge by lia.
Qed.

Definition reads_back (st : State) (r : raw) : Prop := forall v h,
  exists v' h', Value_FromRaw st r v h = Some (v', (h', None)) /\ extends h h' /\ says h' v' r.

Lemma traverse_map st l h :
  Forall (fun e => reads_back st e.2) l ->
  exists m h', traverseM (fun kv '(h, errs) =>
      '(v, (h, err)) ← Value_FromRaw st kv.2 Empty h; Some (mkKeyValue kv.1 v 0, (h, multierr_Append errs err)))
    l (h, None) = Some (m, (h', None)) /\ extends h h' /\
    forall h2, extends h' h2 -> Forall2 (holds h2) m l.
Proof.
  intros F. revert h. induction F as [|[k r] l Hr F IH]; intros h; simpl; [eexists _, _; split; [done|]; split; done|].
  destruct (Hr Empty h) as (v & h1 & E1 & X1 & S1). simpl in E1. rewrite E1. simpl. rewrite multierr_nil_l.
  destruct (IH h1) as (m & h2 & E2 & X2 & S2). rewrite E2. simpl. eexists _, _. split; [done|]. split; [by etrans|].
  intros h3 X3. constructor; [|by apply S2]. split; [done|]. simpl. apply S1. by etrans.
Qed.

Lemma traverse_slice st l h :
  Forall (reads_back st) l ->
  exists es h', traverseM (fun iv '(h, errs) =>
      '(v, (h, err)) ← Value_FromRaw st iv Empty h; Some (v, (h, multierr_Append errs err)))
    l (h, None) = Some (es, (h', None)) /\ extends h h' /\
    forall h2, extends h' h2 -> Forall2 (fun v r => Value_AsRaw h2 v = Some r) es l.
Proof.
  intros F. revert h. induction F as [|r l Hr F IH]; intros h; simpl; [eexists _, _; split; [done|]; split; done|].
  destruct (Hr Empty h) as (v & h1 & E1 & X1 & S1). rewrite E1. simpl. rewrite multierr_nil_l.
  destruct (IH h1) as (es & h2 & E2 & X2 & S2). rewrite E2. simpl. eexists _, _. split; [done|]. split; [by etrans|].
  intros h3 X3. constructor; [|by apply S2]. apply S1. by etrans.
Qed.

Lemma canonical_reads_back st r : AssertMutable st = Some tt -> canonical r -> reads_back st r.
Proof.
  intros M. induction r as [r Hm Hs|l IH|l IH] using raw_nested_ind; intros C v h.
  - destruct r; try done; simpl; unfold SetStr, SetInt, SetDouble, SetBool; rewrite ?M; simpl.
    + eexists _, _. split; [done|]. split; [done|]. by intros h' _.
    + eexists _, _. split; [done|]. split; [done|]. by intros h' _.
    + simpl in C. rewrite i64_id by done. eexists _, _. split; [done|]. split; [done|]. by intros h' _.
    + eexists _, _. split; [done|]. split; [done|]. by intros h' _.
    + eexists _, _. split; [done|]. split; [done|]. by intros h' _.
    + destruct (bytesFromRaw_says st s h M) as (v' & h' & -> & X & S). simpl. by eexists _, _.
    + by destruct (Hm l).
    + by destruct (Hs l).
  - apply canonical_map in C as [N C]. simpl. unfold SetEmptyMap. rewrite M. simpl.
    destruct (traverse_map st l h) as (m & h' & -> & X & S).
    { rewrite Forall_forall in *. intros e He. by apply IH, C. }
    simpl. eexists _, _. split; [done|]. split; [done|]. intros h2 X2. apply AsRaw_kvlist; [by apply S|done].
  - rewrite canonical_slice in C. simpl. unfold SetEmptySlice. rewrite M. simpl.
    destruct (traverse_slice st l h) as (es & h' & -> & X & S).
    { rewrite Forall_forall in *. intros e He. by apply IH, C. }
    simpl. eexists _, _. split; [done|]. split; [done|]. intros h2 X2. by apply AsRaw_array, S.
Qed.

(** C8: raw values are kept: what FromRaw puts in a value AsRaw gives back, at any depth and
    whatever bytes values are made later. *)
Theorem raw_values_roundtrip st r v h :
  AssertMutable st = Some tt -> canonical r ->
  exists v' h', Value_FromRaw st r v h = Some (v', (h', None)) /\
    arrays h `prefix_of` arrays h' /\ cells h `prefix_of` cells h' /\
    forall h2, extends h' h2 -> Value_AsRaw h2 v' = Some r.
Proof.
  intros M C. destruct (canonical_reads_back st r M C v h) as (v' & h' & E & [X1 X2] & S).
  exists v', h'. by split_and!.
Qed.
End raws.

(** ** Copies *)

(** No nil list in a oneof, and every variable of bytes is on the heap. *)
Fixpoint well_formed (h : heap Z) (v : value) : Prop :=
  match v with
  | BytesValue c => (c < length (cells h))%nat
  | ArrayValue (Some l) => (fix go l := match l with [] => True | v :: l => well_formed h v /\ go l end) l
  | KvlistValue (Some l) =>
      (fix go l := match l with [] => True | mkKeyValue _ v _ :: l => well_formed h v /\ go l end) l
  | ArrayValue None | KvlistValue None => False
  | _ => True
  end.

Lemma well_formed_array h l : well_formed h (ArrayValue (Some l)) <-> Forall (well_formed h) l.
Proof. simpl. split; intros C; [induction l; constructor; naive_solver|induction C; naive_solver]. Qed.

Lemma well_formed_kvlist h l : well_formed h (KvlistValue (Some l)) <-> Forall (fun kv => well_formed h (Val kv)) l.
Proof.
  simpl. split; intros C; [induction l as [|[k v i] l IH]; constructor; naive_solver|].
  induction C as [|[k v i] l]; naive_solver.
Qed.

Lemma well_formed_extends h h' v : extends h h' -> well_formed h v -> well_formed h' v.
Proof.
  intros X. induction v as [v Ha Hk|l IH|l IH] using value_nested_ind; intros W.
  - destruct v as [| | | | |[l|]|[l|]|c|]; try done; [by destruct (Ha l)|by destruct (Hk l)|]. simpl in *.
    destruct X as [_ X]. apply prefix_length in X. lia.
  - rewrite well_formed_array in *. rewrite Forall_forall in *. auto.
  - rewrite well_formed_kvlist in *. rewrite Forall_forall in *. auto.
Qed.

Lemma AsRaw_array_congr h h' l l' :
  Forall2 (fun v v' => Value_AsRaw h v = Value_AsRaw h' v') l l' -> Value_AsRaw h (ArrayValue (Some l)) = Value_AsRaw h' (ArrayValue (Some l')).
Proof.
  intros F. simpl. generalize (@nil raw) at 2 4. induction F as [|v v' l l' E F IH]; intros acc; [done|].
  rewrite E. destruct (Value_AsRaw h' v'); simpl; [apply IH|done].
Qed.

Lemma AsRaw_kvlist_congr h h' l l' :
  Forall2 (fun kv kv' => Key kv = Key kv' /\ Value_AsRaw h (Val kv) = Value_AsRaw h' (Val kv')) l l' ->
  Value_AsRaw h (KvlistValue (Some l)) = Value_AsRaw h' (KvlistValue (Some l')).
Proof.
  intros F. simpl. generalize (@nil (bytes * raw)). induction F as [|[k v i] [k' v' i'] l l' [Ek E] F IH]; intros acc; [done|].
  simpl in Ek, E. subst k'. rewrite E. destruct (Value_AsRaw h' v'); simpl; [apply IH|done].
Qed.

(** Copies make new variables only. *)
Definition grown (h h' : heap Z) : Prop := arrays h' = arrays h /\ cells h `prefix_of` cells h'.

#[export] Instance grown_preorder : PreOrder grown.
Proof. split; [done|]. intros h1 h2 h3 [A1 C1] [A2 C2]. split; [congruence|by etrans]. Qed.

Lemma grown_extends h h' : grown h h' -> extends h h'.
Proof. intros [A C]. split; [by rewrite A|done]. Qed.

Lemma AsRaw_grown h h' v : grown h h' -> well_formed h v -> Value_AsRaw h' v = Value_AsRaw h v.
Proof.
  intros X. induction v as [v Ha Hk|l IH|l IH] using value_nested_ind; intros W.
  - destruct v as [| | | | |[l|]|[l|]|c|]; try done; [by destruct (Ha l)|by destruct (Hk l)|]. simpl in *.
    destruct X as [Ea [lc Ec]]. destruct (lookup_lt_is_Some_2 _ _ W) as [s Hs].
    unfold ByteSlice_AsRaw, Slice_AsRaw, Slice_getOrig, Slice_contents, Slice_array.
    by rewrite Ea, Ec, (lookup_app_l_Some _ _ _ _ Hs), Hs.
  - apply AsRaw_array_congr. rewrite well_formed_array in W. apply Forall_Forall2_diag.
    rewrite Forall_forall in *. auto.
  - apply AsRaw_kvlist_congr. rewrite well_formed_kvlist in W. apply Forall_Forall2_diag.
    rewrite Forall_forall in *. auto.
Qed.

Definition copied (v : value) (h : heap Z) (v' : value) (h' : heap Z) : Prop :=
  grown h h' /\ well_formed h' v' /\ forall h2, extends h' h2 -> Value_AsRaw h2 v' = Value_AsRaw h2 v.

Lemma copied_array l h :
  Forall (fun v => forall h, well_formed h v -> copied v h (CopyAnyValue v h).1 (CopyAnyValue v h).2) l ->
  Forall (well_formed h) l ->
  let '(l', h') := traverse CopyAnyValue l h in
  grown h h' /\ Forall (well_formed h') l' /\
  forall h2, extends h' h2 -> Forall2 (fun v v' => Value_AsRaw h2 v = Value_AsRaw h2 v') l' l.
Proof.
  intros F. revert h. induction F as [|v l Hv F IH]; intros h W; simpl; [by repeat constructor|].
  apply Forall_cons in W as [Wv W]. destruct (Hv h Wv) as (X1 & W1 & E1). destruct (CopyAnyValue v h) as [v' h1].
  simpl in X1, W1, E1. assert (Forall (well_formed h1) l) as W' by (eapply Forall_impl; [exact W|intros ?; by apply well_formed_extends, grown_extends]).
  specialize (IH h1 W'). destruct (traverse _ l h1) as [l' h2]. destruct IH as (X2 & W2 & E2).
  split; [by etrans|]. split; [constructor; [by eapply well_formed_extends, W1; apply grown_extends|done]|].
  intros h3 X3. constructor; [|by apply E2]. apply E1. etrans; [by apply grown_extends|done].
Qed.

Lemma copied_kvlist l h :
  Forall (fun kv => forall h, well_formed h (Val kv) -> copied (Val kv) h (CopyAnyValue (Val kv) h).1 (CopyAnyValue (Val kv) h).2) l ->
  Forall (fun kv => well_formed h (Val kv)) l ->
  let '(l', h') := traverse CopyKeyValue l h in
  grown h h' /\ Forall (fun kv => well_formed h' (Val kv)) l' /\
  forall h2, extends h' h2 -> Forall2 (fun kv kv' => Key kv = Key kv' /\ Value_AsRaw h2 (Val kv) = Value_AsRaw h2 (Val kv')) l' l.
Proof.
  intros F. revert h. induction F as [|[k v i] l Hv F IH]; intros h W; simpl; [by repeat constructor|].
  apply Forall_cons in W as [Wv W]. destruct (Hv h Wv) as (X1 & W1 & E1). simpl in X1, W1, E1. destruct (CopyAnyValue v h) as [v' h1].
  simpl in X1, W1, E1. assert (Forall (fun kv => well_formed h1 (Val kv)) l) as W'
    by (eapply Forall_impl; [exact W|intros ?; by apply well_formed_extends, grown_extends]).
  specialize (IH h1 W'). destruct (traverse _ l h1) as [l' h2]. destruct IH as (X2 & W2 & E2).
  split; [by etrans|]. split; [constructor; [by eapply well_formed_extends, W1; apply grown_extends|done]|].
  intros h3 X3. constructor; [|by apply E2]. split; [done|]. apply E1. etrans; [by apply grown_extends|done].
Qed.

Lemma CopyAnyValue_copied v h : well_formed h v -> copied v h (CopyAnyValue v h).1 (CopyAnyValue v h).2.
Proof.
  revert h. induction v as [v Ha Hk|l IH|l IH] using value_nested_ind; intros h W.
  - destruct v as [| | | | |[l|]|[l|]|c|]; try (by split_and!); [by destruct (Ha l)|by destruct (Hk l)|].
    simpl in *. split; [split; [done|by apply prefix_app_r]|]. split; [simpl; rewrite length_app; simpl; lia|].
    intros h2 [[la Ea] [lc Ec]]. simpl in Ea, Ec. simpl. f_equal. f_equal.
    destruct (lookup_lt_is_Some_2 _ _ W) as [s Hs]. unfold Slice_getOrig in Ec. rewrite Hs in Ec. simpl in Ec.
    unfold ByteSlice_AsRaw, Slice_AsRaw, Slice_getOrig. rewrite Ec, <- !app_assoc. simpl.
    rewrite list_lookup_middle by done. by rewrite (lookup_app_l_Some _ _ _ _ Hs).
  - apply well_formed_array in W. pose proof (copied_array l h IH W) as C. simpl.
    destruct (traverse CopyAnyValue l h) as [l' h']. destruct C as (X & W' & E). simpl.
    split; [done|]. split; [by apply well_formed_array|]. intros h2 X2. by apply AsRaw_array_congr, E.
  - apply well_formed_kvlist in W. pose proof (copied_kvlist l h IH W) as C. simpl.
    change (traverse _ l h) with (traverse CopyKeyValue l h).
    destruct (traverse CopyKeyValue l h) as [l' h']. destruct C as (X & W' & E). simpl.
    split; [done|]. split; [by apply well_formed_kvlist|]. intros h2 X2. by apply AsRaw_kvlist_congr, E.
Qed.

(** A copy says what its source says, the source is as it was, and only the destination
    has to be mutable. *)
Theorem copies_read_the_same st v dest h :
  AssertMutable st = Some tt -> well_formed h v ->
  exists v' h', Value_CopyTo false st v dest h = Some (v', h') /\ Value_AsRaw h' v' = Value_AsRaw h v /\ Value_AsRaw h' v = Value_AsRaw h v /\
    arrays h' = arrays h.
Proof.
  intros M W. unfold Value_CopyTo. rewrite M. simpl. destruct (CopyAnyValue_copied v h W) as (X & W' & E).
  destruct (CopyAnyValue v h) as [v' h']. simpl in *. eexists _, _. split; [done|].
  pose proof (AsRaw_grown _ _ _ X W) as G. rewrite (E h' (reflexivity h')). by destruct X.
Qed.

(** C10: the copy of a bytes value has a variable of its own with the array of the source: a
    byte set in the copy, which is mutable, is set in the source, which is read-only. *)
Theorem copied_bytes_are_shared st st' c h a n b dest :
  AssertMutable st = None -> AssertMutable st' = Some tt ->
  cells h !! c = Some (Some (a, S n)) -> (S n <= length (Slice_array a h))%nat ->
  exists c' h1 h2, Value_CopyTo false st' (BytesValue c) dest h = Some (BytesValue c', h1) /\ c' <> c /\
    ByteSlice_SetAt st c 0 b h1 = None /\ ByteSlice_SetAt st' c' 0 b h1 = Some h2 /\
    ByteSlice_AsRaw c h2 = <[0%nat := b]> (ByteSlice_AsRaw c h).
Proof.
  intros M M' Hc Hn. unfold Value_CopyTo, ByteSlice_SetAt, Slice_SetAt. rewrite M, M'. simpl.
  eexists _, _, _. split; [done|]. split; [apply lookup_lt_Some in Hc; simpl; lia|]. split; [done|].
  unfold Slice_getOrig. simpl. rewrite list_lookup_middle by done. rewrite Hc. simpl. split; [done|].
  unfold ByteSlice_AsRaw, Slice_AsRaw, Slice_getOrig. simpl. rewrite (lookup_app_l_Some _ _ _ _ Hc), Hc. simpl.
  unfold Slice_array in *. simpl in *. destruct (arrays h !! a) as [l|] eqn:Ea; [|simpl in Hn; lia].
  rewrite list_lookup_insert_eq by (by eapply lookup_lt_Some). simpl in *. by destruct l.
Qed.

(** ** Read-only data *)

(** FromRaw on a value of read-only data panics, except for nil, which empties the value,
    and for a value of an unknown type. *)
Theorem read_only_values_can_be_emptied `{MultiErr} extra st r v h :
  AssertMutable st = None ->
  Value_FromRaw extra st RNil v h = Some (Empty, (h, None)) /\
  (Value_FromRaw extra st r v h = None <-> r <> RNil /\ forall T, r <> ROther T).
Proof.
  intros M. split; [done|]. destruct r; simpl; unfold bytesFromRaw, SetStr, SetInt, SetDouble, SetBool, SetEmptyBytes, SetEmptyMap,
    SetEmptySlice; rewrite ?M; simpl; split; try done; try (by intros [? ?]); naive_solver.
Qed.

(** ** Maps as finite maps *)

Definition keys_of (m : list keyValue) : list bytes := Key <$> m.
Definition as_map (m : list keyValue) : gmap bytes value := list_to_map ((fun kv => (Key kv, Val kv)) <$> m).

Lemma keys_of_fst m : ((fun kv => (Key kv, Val kv)) <$> m).*1 = keys_of m.
Proof. unfold keys_of. rewrite <- list_fmap_compose. done. Qed.

Lemma as_map_cons kv m : as_map (kv :: m) = <[Key kv := Val kv]> (as_map m).
Proof. done. Qed.

Lemma as_map_perm m m' : NoDup (keys_of m) -> m ≡ₚ m' -> as_map m = as_map m'.
Proof. intros N P. unfold as_map. apply list_to_map_proper; [by rewrite keys_of_fst|by rewrite P]. Qed.

Lemma as_map_lookup m kv : NoDup (keys_of m) -> kv ∈ m -> as_map m !! Key kv = Some (Val kv).
Proof.
  intros N Hin. apply elem_of_list_to_map_1; [by rewrite keys_of_fst|]. apply list_elem_of_fmap. by exists kv.
Qed.

Lemma as_map_None m k : k ∉ keys_of m <-> as_map m !! k = None.
Proof. unfold as_map. rewrite <- keys_of_fst. apply not_elem_of_list_to_map. Qed.

(** Get finds the first entry of a key. *)
Lemma GetFrom_spec i k m :
  match GetFrom i k m with
  | Some j => exists m1 kv m2, m = m1 ++ kv :: m2 /\ Key kv = k /\ k ∉ keys_of m1 /\ j = (i + length m1)%nat
  | None => k ∉ keys_of m
  end.
Proof.
  revert i. induction m as [|kv m IH]; intros i; simpl; [by apply not_elem_of_nil|]. case_decide as Hk.
  - exists [], kv, m. split_and!; [done|done|by apply not_elem_of_nil|simpl; lia].
  - specialize (IH (S i)). destruct (GetFrom (S i) k m) as [j|].
    + destruct IH as (m1 & kv' & m2 & -> & Ek & Hn & ->). exists (kv :: m1), kv', m2.
      split_and!; [done|done| |simpl; lia]. apply not_elem_of_cons. split; [congruence|done].
    + apply not_elem_of_cons. split; [congruence|done].
Qed.

Lemma Get_spec k m :
  match Get k m with
  | Some i => exists m1 kv m2, m = m1 ++ kv :: m2 /\ Key kv = k /\ k ∉ keys_of m1 /\ i = length m1
  | None => k ∉ keys_of m
  end.
Proof. exact (GetFrom_spec 0 k m). Qed.

Lemma GetValue_as_map k m : NoDup (keys_of m) -> GetValue k m = as_map m !! k.
Proof.
  intros N. unfold GetValue. pose proof (Get_spec k m) as G. destruct (Get k m) as [i|]; simpl.
  - destruct G as (m1 & kv & m2 & -> & <- & Hn & ->). rewrite list_lookup_middle by done. simpl. symmetry.
    apply as_map_lookup; [done|]. set_solver.
  - symmetry. by apply as_map_None.
Qed.

Lemma Key_set_Val v kv : Key (set_Val v kv) = Key kv.
Proof. by destruct kv. Qed.
Lemma Val_set_Val v kv : Val (set_Val v kv) = v.
Proof. by destruct kv. Qed.

(** A put: the value of the key is replaced, or the entry is added. *)
Lemma put_spec k v m :
  NoDup (keys_of m) ->
  let m' := match Get k m with Some i => alter (set_Val v) i m | None => m ++ [mkKeyValue k v 0] end in
  NoDup (keys_of m') /\ as_map m' = <[k := v]> (as_map m).
Proof.
  intros N. pose proof (Get_spec k m) as G. destruct (Get k m) as [i|]; simpl.
  - destruct G as (m1 & kv & m2 & -> & <- & Hn & ->).
    assert (alter (set_Val v) (length m1) (m1 ++ kv :: m2) = m1 ++ set_Val v kv :: m2) as ->.
    { clear. induction m1; simpl; [done|]. by f_equal. }
    assert (keys_of (m1 ++ set_Val v kv :: m2) = keys_of (m1 ++ kv :: m2)) as Ek.
    { unfold keys_of. by rewrite !fmap_app, !fmap_cons, Key_set_Val. }
    split; [by rewrite Ek|].
    rewrite (as_map_perm (m1 ++ kv :: m2) (kv :: m1 ++ m2) N) by (by rewrite Permutation_middle).
    rewrite <- Ek in N. rewrite (as_map_perm _ (set_Val v kv :: m1 ++ m2) N) by (by rewrite Permutation_middle).
    rewrite !as_map_cons, Key_set_Val, Val_set_Val. by rewrite insert_insert_eq.
  - split; [unfold keys_of; rewrite fmap_app; apply NoDup_app; split_and!; [done| |by apply NoDup_singleton]|].
    + intros k' Hk'. simpl. intros ->%list_elem_of_singleton. done.
    + assert (NoDup (keys_of (mkKeyValue k v 0 :: m))) as N' by by constructor.
      rewrite (as_map_perm (m ++ [_]) (mkKeyValue k v 0 :: m)); [done| |solve_Permutation].
      unfold keys_of in *. rewrite fmap_app. simpl in *. rewrite Permutation_app_comm. done.
Qed.

Lemma delete_entry kv m1 m2 :
  NoDup (keys_of (m1 ++ kv :: m2)) ->
  NoDup (keys_of (m1 ++ m2)) /\ as_map (m1 ++ m2) = delete (Key kv) (as_map (m1 ++ kv :: m2)).
Proof.
  intros N. rewrite (as_map_perm (m1 ++ kv :: m2) (kv :: m1 ++ m2) N) by (by rewrite Permutation_middle).
  assert (NoDup (keys_of (kv :: m1 ++ m2))) as N' by (unfold keys_of in *; by rewrite Permutation_middle).
  unfold keys_of in N'. rewrite fmap_cons in N'. apply NoDup_cons in N' as [Hn N']. split; [done|].
  rewrite as_map_cons, delete_insert_id; [done|]. by apply as_map_None.
Qed.

Lemma Remove_perm (m1 m2 : list keyValue) kv :
  take (length (m1 ++ kv :: m2) - 1) (default (m1 ++ kv :: m2)
    ((fun akv => <[length m1 := akv]> (m1 ++ kv :: m2)) <$> last (m1 ++ kv :: m2))) ≡ₚ m1 ++ m2.
Proof.
  destruct m2 as [|x m2 _] using rev_ind; simpl.
  - rewrite last_snoc. simpl. rewrite list_insert_id by (by apply list_lookup_middle).
    rewrite length_app, take_app_le, take_ge, app_nil_r by (simpl; lia). done.
  - rewrite app_comm_cons, app_assoc, last_snoc. simpl. rewrite <- app_assoc. simpl.
    rewrite insert_app_r_alt, Nat.sub_diag by lia. simpl.
    replace (m1 ++ x :: m2 ++ [x]) with ((m1 ++ x :: m2) ++ [x]) by (by rewrite <- app_assoc).
    rewrite take_app_length'; [solve_Permutation|]. rewrite !length_app. simpl. rewrite length_app. simpl. lia.
Qed.

Lemma removeLoop_filter {A} (zero : A) reset f k i n (l : list A) :
  (n <= i)%nat -> (i + k)%nat = length l ->
  let '(l', n') := removeLoop zero reset f k i n l in
  length l' = length l /\ (n' <= length l)%nat /\ take n' l' = take n l ++ filter (fun x => f x = false) (drop i l).
Proof.
  revert i n l. induction k as [|k IH]; intros i n l Hn Hk; simpl.
  { split; [done|]. split; [lia|]. rewrite drop_ge by lia. simpl. by rewrite app_nil_r. }
  destruct (lookup_lt_is_Some_2 l i ltac:(lia)) as [x Hx]. rewrite Hx, (drop_S _ _ _ Hx). destruct (f x) eqn:Ef.
  - rewrite filter_cons_False by congruence.
    specialize (IH (S i) n (if reset then <[i := zero]> l else l)). destruct (removeLoop _ _ _ _ _ _ _) as [l' n'].
    destruct reset; rewrite ?length_insert in IH; destruct IH as (E1 & E0 & E2); try lia; [|done].
    split; [done|]. split; [done|]. rewrite E2, take_insert_ge, drop_insert_lt by lia. done.
  - rewrite filter_cons_True by done. case_decide as Hni.
    + subst n. specialize (IH (S i) (S i) l). destruct (removeLoop _ _ _ _ _ _ _) as [l' n'].
      destruct IH as (E1 & E0 & E2); [lia..|]. split; [done|]. split; [done|]. rewrite E2, (take_S_r _ _ _ Hx), <- app_assoc. done.
    + specialize (IH (S i) (S n) (<[i := zero]> (<[n := x]> l))). destruct (removeLoop _ _ _ _ _ _ _) as [l' n'].
      rewrite !length_insert in IH. destruct IH as (E1 & E0 & E2); [lia..|]. split; [done|]. split; [done|].
      rewrite E2, drop_insert_lt, drop_insert_lt by lia.
      rewrite take_insert_ge by lia. rewrite (take_S_r _ _ x) by (apply list_lookup_insert_eq; lia).
      rewrite take_insert_ge by lia. by rewrite <- app_assoc.
Qed.

Lemma keys_of_filter (P : keyValue -> Prop) `{!forall x, Decision (P x)} m : NoDup (keys_of m) -> NoDup (keys_of (filter P m)).
Proof.
  unfold keys_of. induction m as [|kv m IH]; intros N; [done|]. rewrite fmap_cons in N. apply NoDup_cons in N as [Hn N].
  rewrite filter_cons. case_decide; [|auto]. rewrite fmap_cons. apply NoDup_cons. split; [|auto].
  intros Hin. apply Hn. apply list_elem_of_fmap in Hin as (x & -> & Hx). apply list_elem_of_filter in Hx as [_ Hx].
  apply list_elem_of_fmap. by exists x.
Qed.

Lemma as_map_filter (f : bytes -> value -> bool) m :
  NoDup (keys_of m) ->
  as_map (filter (fun kv => f (Key kv) (Val kv) = false) m) = filter (fun e => f e.1 e.2 = false) (as_map m).
Proof.
  induction m as [|kv m IH]; intros N; [done|]. unfold keys_of in N. rewrite fmap_cons in N. apply NoDup_cons in N as [Hn N].
  assert (as_map m !! Key kv = None) as Hk by by apply as_map_None.
  rewrite filter_cons, as_map_cons. case_decide as Hf.
  - rewrite as_map_cons, map_filter_insert_True by done. by rewrite IH.
  - rewrite map_filter_insert_False by done. by rewrite IH, delete_id.
Qed.

(** The methods of a Slice of values are those of a list. *)
Lemma Values_RemoveIf_filter st f es :
  AssertMutable st = Some tt -> Values_RemoveIf st f es = Some (filter (fun v => f v = false) es).
Proof.
  intros M. unfold Values_RemoveIf. rewrite M. simpl.
  pose proof (removeLoop_filter Empty true f (length es) 0 0 es (Nat.le_refl _) eq_refl) as L.
  destruct (removeLoop _ _ _ _ _ _ _) as [l n]. destruct L as (_ & _ & ->). done.
Qed.

(** The methods that change a Map, and what they are on a finite map. *)
Inductive mapOp :=
| OpClear
| OpRemove (k : bytes)
| OpRemoveIf (f : bytes -> value -> bool)
| OpPutEmpty (k : bytes)
| OpGetOrPutEmpty (k : bytes)
| OpPutStr (k s : bytes)
| OpPutInt (k : bytes) (z : Z)
| OpPutDouble (k : bytes) (bits : Z)
| OpPutBool (k : bytes) (b : bool)
| OpPutEmptyMap (k : bytes)
| OpPutEmptySlice (k : bytes).

Definition call (st : State) (op : mapOp) (m : list keyValue) : option (list keyValue) :=
  match op with
  | OpClear => Map_Clear st m
  | OpRemove k => fst <$> Map_Remove st k m
  | OpRemoveIf f => Map_RemoveIf st f m
  | OpPutEmpty k => fst <$> Map_PutEmpty st k m
  | OpGetOrPutEmpty k => fst <$> Map_GetOrPutEmpty st k m
  | OpPutStr k s => Map_PutStr st k s m
  | OpPutInt k z => Map_PutInt st k z m
  | OpPutDouble k bits => Map_PutDouble st k bits m
  | OpPutBool k b => Map_PutBool st k b m
  | OpPutEmptyMap k => Map_PutEmptyMap st k m
  | OpPutEmptySlice k => Map_PutEmptySlice st k m
  end.

Definition meant (op : mapOp) (g : gmap bytes value) : gmap bytes value :=
  match op with
  | OpClear => ∅
  | OpRemove k => delete k g
  | OpRemoveIf f => filter (fun e => f e.1 e.2 = false) g
  | OpPutEmpty k => <[k := Empty]> g
  | OpGetOrPutEmpty k => if g !! k then g else <[k := Empty]> g
  | OpPutStr k s => <[k := StringValue s]> g
  | OpPutInt k z => <[k := IntValue z]> g
  | OpPutDouble k bits => <[k := DoubleValue bits]> g
  | OpPutBool k b => <[k := BoolValue b]> g
  | OpPutEmptyMap k => <[k := KvlistValue (Some [])]> g
  | OpPutEmptySlice k => <[k := ArrayValue (Some [])]> g
  end.

Fixpoint calls (st : State) (ops : list mapOp) (m : list keyValue) : option (list keyValue) :=
  match ops with [] => Some m | op :: ops => m ← call st op m; calls st ops m end.

Lemma call_meant st op m :
  AssertMutable st = Some tt -> NoDup (keys_of m) ->
  exists m', call st op m = Some m' /\ NoDup (keys_of m') /\ as_map m' = meant op (as_map m).
Proof.
  intros M N. destruct op as [|k|f|k|k|k s|k z|k bits|k b|k|k]; simpl;
    unfold Map_Clear, Map_Remove, Map_RemoveIf, Map_PutEmpty, Map_GetOrPutEmpty, Map_PutStr, Map_PutInt, Map_PutDouble,
      Map_PutBool, Map_PutEmptyMap, Map_PutEmptySlice, SetStr, SetInt, SetDouble, SetBool, SetEmptyMap, SetEmptySlice;
    rewrite M; simpl.
  - exists []. split; [done|]. split; [constructor|done].
  - pose proof (Get_spec k m) as G. destruct (Get k m) as [i|]; simpl.
    + destruct G as (m1 & kv & m2 & -> & <- & Hn & ->). pose proof (Remove_perm m1 m2 kv) as P.
      destruct (delete_entry kv m1 m2 N) as [N' E]. eexists. split; [done|]. rewrite <- E. symmetry in P.
      split; [unfold keys_of in *; by rewrite <- P|]. symmetry. by apply as_map_perm.
    + exists m. split; [done|]. split; [done|]. rewrite delete_id; [done|]. by apply as_map_None.
  - pose proof (removeLoop_filter Map_zeroKeyValue true (fun kv => f (Key kv) (Val kv)) (length m) 0 0 m (Nat.le_refl _) eq_refl) as L.
    destruct (removeLoop _ _ _ _ _ _ _) as [l n]. destruct L as (_ & _ & L). simpl in L. eexists. split; [done|].
    rewrite L. split; [by apply keys_of_filter|by apply as_map_filter].
  - pose proof (put_spec k Empty m N) as P. destruct (Get k m); simpl in *; eexists; (split; [done|]); exact P.
  - pose proof (put_spec k Empty m N) as P. pose proof (Get_spec k m) as G. destruct (Get k m) as [i|]; simpl in *.
    + exists m. split; [done|]. split; [done|]. destruct G as (m1 & kv & m2 & -> & <- & _ & _).
      by rewrite (as_map_lookup _ kv N) by set_solver.
    + apply as_map_None in G. eexists. split; [done|]. rewrite G. exact P.
  - pose proof (put_spec k (StringValue s) m N) as P. destruct (Get k m); simpl in *; eexists; (split; [done|]); exact P.
  - pose proof (put_spec k (IntValue z) m N) as P. destruct (Get k m); simpl in *; eexists; (split; [done|]); exact P.
  - pose proof (put_spec k (DoubleValue bits) m N) as P. destruct (Get k m); simpl in *; eexists; (split; [done|]); exact P.
  - pose proof (put_spec k (BoolValue b) m N) as P. destruct (Get k m); simpl in *; eexists; (split; [done|]); exact P.
  - pose proof (put_spec k (KvlistValue (Some [])) m N) as P. destruct (Get k m); simpl in *; eexists; (split; [done|]); exact P.
  - pose proof (put_spec k (ArrayValue (Some [])) m N) as P. destruct (Get k m); simpl in *; eexists; (split; [done|]); exact P.
Qed.


(** ** Equal *)

(** Distinct keys at every depth. *)
Fixpoint distinct (v : value) : Prop :=
  match v with
  | ArrayValue (Some l) => (fix go l := match l with [] => True | v :: l => distinct v /\ go l end) l
  | KvlistValue (Some l) =>
      NoDup (keys_of l) /\ (fix go l := match l with [] => True | mkKeyValue _ v _ :: l => distinct v /\ go l end) l
  | _ => True
  end.

Lemma distinct_array l : distinct (ArrayValue (Some l)) <-> Forall distinct l.
Proof. simpl. split; intros C; [induction l; constructor; naive_solver|induction C; naive_solver]. Qed.

Lemma distinct_kvlist l : distinct (KvlistValue (Some l)) <-> NoDup (keys_of l) /\ Forall (fun kv => distinct (Val kv)) l.
Proof.
  simpl. split; intros [N C]; (split; [done|]); clear N; [induction l as [|[k v i] l IH]; constructor; naive_solver|].
  induction C as [|[k v i] l]; naive_solver.
Qed.

(** No NaN at any depth. *)
Fixpoint no_NaN (v : value) : Prop :=
  match v with
  | DoubleValue b => float64_isNaN b = false
  | ArrayValue (Some l) => (fix go l := match l with [] => True | v :: l => no_NaN v /\ go l end) l
  | KvlistValue (Some l) => (fix go l := match l with [] => True | mkKeyValue _ v _ :: l => no_NaN v /\ go l end) l
  | _ => True
  end.

Lemma no_NaN_array l : no_NaN (ArrayValue (Some l)) <-> Forall no_NaN l.
Proof. simpl. split; intros C; [induction l; constructor; naive_solver|induction C; naive_solver]. Qed.

Lemma no_NaN_kvlist l : no_NaN (KvlistValue (Some l)) <-> Forall (fun kv => no_NaN (Val kv)) l.
Proof.
  simpl. split; intros C; [induction l as [|[k v i] l IH]; constructor; naive_solver|].
  induction C as [|[k v i] l]; naive_solver.
Qed.

Abbreviation eqv h v c := (Value_Equal h v c = Some true).

Lemma equal_bytes l k : Slice_equal Z.eqb l k = true <-> l = k.
Proof.
  revert k. induction l as [|x l IH]; intros [|y k]; simpl; try done. rewrite andb_true_iff, Z.eqb_eq, IH. naive_solver.
Qed.

Lemma ByteSlice_Equal a b h : ByteSlice_Equal a b h = true <-> ByteSlice_AsRaw a h = ByteSlice_AsRaw b h.
Proof. apply equal_bytes. Qed.

Lemma Equal_array h l c :
  eqv h (ArrayValue (Some l)) c <-> exists l', c = ArrayValue (Some l') /\ Forall2 (fun v c => eqv h v c) l l'.
Proof.
  split.
  - intros E. destruct c as [| | | | |l'| | |]; simpl in E; try done.
    destruct l' as [l'|]; simpl in E; [|done]. exists l'. split; [done|]. case_decide as Hl; [done|].
    assert (length l = length l') as Hlen by lia. clear Hl. revert l' E Hlen.
    induction l as [|v l IH]; intros [|c l'] E Hlen; simplify_eq/=; [constructor|].
    destruct (Value_Equal h v c) as [[]|] eqn:Ev; simplify_eq/=. constructor; [done|]. by apply IH.
  - intros (l' & -> & F). simpl. rewrite decide_False by (intros Hn; by rewrite (Forall2_length _ _ _ F) in Hn).
    induction F as [|v c l l' E F IH]; [done|]. rewrite E. simpl. exact IH.
Qed.

Lemma Equal_kvlist h m c :
  eqv h (KvlistValue (Some m)) c <->
  exists val, c = KvlistValue (Some val) /\ length m = length val /\
    Forall (fun kv => exists vv, GetValue (Key kv) val = Some vv /\ eqv h (Val kv) vv) m.
Proof.
  split.
  - intros E. destruct c as [| | | | | |val| |]; simpl in E; try done.
    destruct val as [val|]; simpl in E; [|done]. exists val. split; [done|]. case_decide as Hl; [done|]. split; [lia|].
    clear Hl. induction m as [|[k v i] m IH]; [constructor|].
    destruct (GetValue k val) as [vv|] eqn:Eg; [|done]. destruct (Value_Equal h v vv) as [[]|] eqn:Ev; simplify_eq/=.
    constructor; [by exists vv|]. by apply IH.
  - intros (val & -> & Hl & F). simpl. rewrite decide_False by lia. clear Hl.
    induction F as [|[k v i] m (vv & Eg & Ev) F IH]; [done|]. simpl in Eg, Ev. rewrite Eg, Ev. simpl. exact IH.
Qed.

Lemma GetValue_elem k m vv : GetValue k m = Some vv -> exists kv, kv ∈ m /\ Key kv = k /\ Val kv = vv.
Proof.
  unfold GetValue. intros E. pose proof (Get_spec k m) as G. destruct (Get k m) as [i|]; simplify_eq/=.
  destruct G as (m1 & kv & m2 & -> & <- & _ & ->). rewrite list_lookup_middle in E by done. simplify_eq/=.
  exists kv. split; [set_solver|done].
Qed.

Lemma Equal_leaf_sym h v c :
  (forall l, v <> ArrayValue (Some l)) -> (forall l, v <> KvlistValue (Some l)) -> eqv h v c -> eqv h c v.
Proof.
  intros Ha Hk E. destruct v as [|s|b|z|bits|[l|]|[l|]|a|z]; [| | | | |by destruct (Ha l)| |by destruct (Hk l)| | |];
    destruct c as [|s'|b'|z'|bits'|l'|l'|a'|z']; simplify_eq/=; try done; f_equal.
  - apply bool_decide_eq_true_2. symmetry. by eapply bool_decide_eq_true_1.
  - by destruct b, b'.
  - by rewrite Z.eqb_sym.
  - unfold float64_eqb in *. destruct (float64_isNaN bits), (float64_isNaN bits'); simpl in *; try done.
    rewrite orb_true_iff, andb_true_iff, !Z.eqb_eq in *. naive_solver.
  - apply ByteSlice_Equal. symmetry. by apply ByteSlice_Equal.
Qed.

Lemma Equal_symmetric h v c : distinct v -> distinct c -> eqv h v c -> eqv h c v.
Proof.
  revert c. induction v as [v Ha Hk|l IH|m IH] using value_nested_ind; intros c D D' E; [by apply Equal_leaf_sym|..].
  - apply Equal_array in E as (l' & -> & F). apply Equal_array. exists l. split; [done|].
    rewrite distinct_array in D, D'. induction F as [|v c l l' E F IHF]; [constructor|].
    apply Forall_cons in IH as [IHv IH]. apply Forall_cons in D as [Dv D]. apply Forall_cons in D' as [Dc D'].
    constructor; auto.
  - apply Equal_kvlist in E as (val & -> & Hl & F). apply Equal_kvlist. exists m. split; [done|]. split; [done|].
    apply distinct_kvlist in D as [N D]. apply distinct_kvlist in D' as [N' D'].
    rewrite Forall_forall in *. intros kv' Hkv'.
    assert (keys_of m ≡ₚ keys_of val) as P.
    { apply submseteq_length_Permutation; [|unfold keys_of; rewrite !length_fmap; lia].
      apply NoDup_submseteq; [done|]. intros k Hk. apply list_elem_of_fmap in Hk as (kv & -> & Hkv).
      destruct (F kv Hkv) as (vv & Eg & _). apply GetValue_elem in Eg as (kv2 & Hin & <- & _). apply list_elem_of_fmap. by exists kv2. }
    assert (Key kv' ∈ keys_of m) as Hk by (rewrite P; apply list_elem_of_fmap; by exists kv').
    apply list_elem_of_fmap in Hk as (kv & Ek & Hkv). exists (Val kv).
    rewrite GetValue_as_map, Ek by done. split; [by apply as_map_lookup|].
    destruct (F kv Hkv) as (vv & Eg & Ev). rewrite <- Ek, GetValue_as_map, (as_map_lookup val kv' N' Hkv') in Eg by done.
    simplify_eq. by apply IH; [done|apply D|apply D'|].
Qed.

Lemma Equal_reflexive h v : well_formed h v -> distinct v -> no_NaN v -> eqv h v v.
Proof.
  induction v as [v Ha Hk|l IH|m IH] using value_nested_ind; intros W D Z0.
  - destruct v as [|s|b|z|bits|[l|]|[l|]|a|z]; try done; simpl; [..|by destruct (Ha l)|by destruct (Hk l)|]; f_equal.
    + by apply bool_decide_eq_true_2.
    + by destruct b.
    + apply Z.eqb_refl.
    + simpl in Z0. unfold float64_eqb. by rewrite Z0, Z.eqb_refl.
    + by apply ByteSlice_Equal.
  - apply Equal_array. exists l. split; [done|]. rewrite well_formed_array in W. rewrite distinct_array in D. rewrite no_NaN_array in Z0.
    apply Forall_Forall2_diag. rewrite Forall_forall in *. auto.
  - apply Equal_kvlist. exists m. split; [done|]. split; [done|]. rewrite well_formed_kvlist in W. rewrite distinct_kvlist in D.
    rewrite no_NaN_kvlist in Z0. destruct D as [N D]. rewrite Forall_forall in *. intros kv Hkv. exists (Val kv).
    rewrite GetValue_as_map by done. split; [by apply as_map_lookup|]. auto.
Qed.

Lemma Equal_leaf_trans h v c d :
  (forall l, v <> ArrayValue (Some l)) -> (forall l, v <> KvlistValue (Some l)) -> eqv h v c -> eqv h c d -> eqv h v d.
Proof.
  intros Ha Hk E1 E2. destruct v as [|s|b|z|bits|[l|]|[l|]|a|z]; [| | | | |by destruct (Ha l)| |by destruct (Hk l)| | |];
    destruct c as [|s'|b'|z'|bits'|l'|l'|a'|z']; simplify_eq/=; try done;
    destruct d as [|s2|b2|z2|bits2|l2|l2|a2|z2]; simplify_eq/=; try done; f_equal.
  - apply bool_decide_eq_true in E1, E2. apply bool_decide_eq_true. congruence.
  - by destruct b, b', b2.
  - apply Z.eqb_eq in E1, E2. apply Z.eqb_eq. lia.
  - unfold float64_eqb in *. destruct (float64_isNaN bits), (float64_isNaN bits'), (float64_isNaN bits2); simpl in *; try done.
    apply orb_true_iff in E1, E2. apply orb_true_iff. rewrite !andb_true_iff, !Z.eqb_eq in *. naive_solver.
  - apply ByteSlice_Equal. trans (ByteSlice_AsRaw a' h); by apply ByteSlice_Equal.
Qed.

Lemma Equal_transitive h v c d : eqv h v c -> eqv h c d -> eqv h v d.
Proof.
  revert c d. induction v as [v Ha Hk|l IH|m IH] using value_nested_ind; intros c d E1 E2; [by eapply Equal_leaf_trans|..].
  - apply Equal_array in E1 as (l' & -> & F1). apply Equal_array in E2 as (l2 & -> & F2). apply Equal_array.
    exists l2. split; [done|]. revert l2 F2. induction F1 as [|v c l l' E F1 IHF]; intros l2 F2; inversion F2; subst; [constructor|].
    apply Forall_cons in IH as [IHv IH]. constructor; [by eapply IHv|by apply IHF].
  - apply Equal_kvlist in E1 as (m2 & -> & Hl1 & F1). apply Equal_kvlist in E2 as (m3 & -> & Hl2 & F2). apply Equal_kvlist.
    exists m3. split; [done|]. split; [lia|]. rewrite Forall_forall in *. intros kv Hkv.
    destruct (F1 kv Hkv) as (v2 & E2 & Ev2). apply GetValue_elem in E2 as (kv2 & Hin & Ek & <-).
    destruct (F2 kv2 Hin) as (v3 & E3 & Ev3). exists v3. rewrite <- Ek. split; [done|]. by eapply IH.
Qed.

(** C17: on the values whose maps have distinct keys and that hold no NaN, Equal is an
    equivalence: it does not depend on the order of the entries nor on which of the two is
    asked. *)
Theorem Equal_is_an_equivalence h :
  (forall v, well_formed h v -> distinct v -> no_NaN v -> eqv h v v) /\
  (forall v c, distinct v -> distinct c -> (eqv h v c <-> eqv h c v)) /\
  (forall v c d, eqv h v c -> eqv h c d -> eqv h v d).
Proof.
  split; [apply Equal_reflexive|]. split; [|apply Equal_transitive].
  intros v c D D'. split; by apply Equal_symmetric.
Qed.

(** With a key twice, which the wire allows, Equal depends on which of the two is asked. *)
Lemma duplicate_keys_break_symmetry (h : heap Z) :
  let a := [mkKeyValue [97] (IntValue 1) 0; mkKeyValue [97] (IntValue 1) 0] in
  let b := [mkKeyValue [97] (IntValue 1) 0; mkKeyValue [98] (IntValue 2) 0] in
  Map_Equal h a b = Some true /\ Map_Equal h b a = Some false.
Proof. done. Qed.

(** ** Slices as lists *)

Section slices.
Context {A : Type} (zero : A) (extra : nat -> nat -> nat).
Abbreviation heap := (heap A).
Abbreviation append := (Slice_append zero extra).

(** Every variable has an array of its own, as long as its length at least. *)
Record owned (h : heap) : Prop := {
  owned_valid : forall c a n, cells h !! c = Some (Some (a, n)) -> exists l, arrays h !! a = Some l /\ (n <= length l)%nat;
  owned_unshared : forall c c' a n n', cells h !! c = Some (Some (a, n)) -> cells h !! c' = Some (Some (a, n')) -> c = c';
}.

(** [h'] is [h] with [l] in the variable [c]. *)
Record updated (h h' : heap) (c : nat) (l : list A) : Prop := {
  updated_owned : owned h';
  updated_length : length (cells h') = length (cells h);
  updated_contents : Slice_AsRaw c h' = l;
  updated_others : forall c', c' <> c -> Slice_AsRaw c' h' = Slice_AsRaw c' h;
}.

Lemma array_lookup a l (h : heap) : arrays h !! a = Some l -> Slice_array a h = l.
Proof. unfold Slice_array. by intros ->. Qed.

Lemma update_in_place (h : heap) c a n n' l :
  owned h -> cells h !! c = Some (Some (a, n)) -> (n' <= length l)%nat ->
  updated h (Slice_setOrig c (Some (a, n')) (Slice_set_array a l h)) c (take n' l).
Proof.
  intros O Hc Hn. destruct (owned_valid _ O _ _ _ Hc) as (l0 & Ha & _).
  assert (c < length (cells h))%nat as Hlt by by eapply lookup_lt_Some.
  assert (a < length (arrays h))%nat as Hlta by by eapply lookup_lt_Some.
  split; unfold Slice_setOrig, Slice_set_array; simpl.
  - split; simpl.
    + intros c' a' m. rewrite list_lookup_insert. case_decide as Hd.
      * intros [= <- <-]. exists l. by rewrite list_lookup_insert_eq.
      * intros Hc'. destruct (owned_valid _ O _ _ _ Hc') as (l' & Ha' & Hm). exists l'. split; [|done].
        rewrite list_lookup_insert_ne; [done|]. intros <-. apply Hd. split; [|done]. by eapply owned_unshared.
    + intros c1 c2 a' m1 m2. rewrite !list_lookup_insert. case_decide as H1; case_decide as H2.
      * destruct H1 as [<- _], H2 as [<- _]. done.
      * intros [= <- <-] H2'. destruct H1 as [<- _]. by eapply owned_unshared.
      * intros H1' [= <- <-]. destruct H2 as [<- _]. by eapply owned_unshared.
      * by apply owned_unshared.
  - by rewrite length_insert.
  - unfold Slice_AsRaw, Slice_getOrig, Slice_contents, Slice_array. simpl.
    rewrite list_lookup_insert_eq by done. simpl. by rewrite list_lookup_insert_eq.
  - intros c' Hne. unfold Slice_AsRaw, Slice_getOrig, Slice_contents, Slice_array. simpl.
    rewrite list_lookup_insert_ne by done. destruct (cells h !! c') as [[[a' m]|]|] eqn:Hc'; simpl; [|done..].
    rewrite list_lookup_insert_ne; [done|]. intros <-. apply Hne. symmetry. by eapply owned_unshared.
Qed.

Lemma update_fresh (h : heap) c n l :
  owned h -> (c < length (cells h))%nat -> (n <= length l)%nat ->
  updated h (let '(s, h) := Slice_make l n h in Slice_setOrig c s h) c (take n l).
Proof.
  intros O Hlt Hn. split; unfold Slice_setOrig, Slice_make; simpl.
  - split; simpl.
    + intros c' a' m. rewrite list_lookup_insert. case_decide as Hd.
      * intros [= <- <-]. exists l. by rewrite list_lookup_middle.
      * intros Hc'. destruct (owned_valid _ O _ _ _ Hc') as (l' & Ha' & Hm). exists l'. split; [|done].
        by apply lookup_app_l_Some.
    + intros c1 c2 a' m1 m2. rewrite !list_lookup_insert. case_decide as H1; case_decide as H2.
      * destruct H1 as [<- _], H2 as [<- _]. done.
      * intros [= <- <-] H2'. destruct (owned_valid _ O _ _ _ H2') as (l' & Ha' & _). apply lookup_lt_Some in Ha'. lia.
      * intros H1' [= <- <-]. destruct (owned_valid _ O _ _ _ H1') as (l' & Ha' & _). apply lookup_lt_Some in Ha'. lia.
      * by apply owned_unshared.
  - by rewrite length_insert.
  - unfold Slice_AsRaw, Slice_getOrig, Slice_contents, Slice_array. simpl.
    rewrite list_lookup_insert_eq by done. simpl. by rewrite list_lookup_middle.
  - intros c' Hne. unfold Slice_AsRaw, Slice_getOrig, Slice_contents, Slice_array. simpl.
    rewrite list_lookup_insert_ne by done. destruct (cells h !! c') as [[[a' m]|]|] eqn:Hc'; simpl; [|done..].
    destruct (owned_valid _ O _ _ _ Hc') as (l' & Ha' & _). by rewrite (lookup_app_l_Some _ _ _ _ Ha'), Ha'.
Qed.

Lemma update_nil (h : heap) c : owned h -> cells h !! c = Some None -> updated h (Slice_setOrig c None h) c [].
Proof.
  intros O Hc. assert (Slice_setOrig c None h = h) as ->.
  { unfold Slice_setOrig. destruct h as [ar ce]. simpl in *. by rewrite list_insert_id. }
  split; [done|done| |done]. unfold Slice_AsRaw, Slice_getOrig. by rewrite Hc.
Qed.

(** The header of a variable, with the length [n] or less. *)
Lemma update_append (h : heap) c s xs :
  owned h -> (c < length (cells h))%nat ->
  match s with
  | None => cells h !! c = Some None
  | Some (a, n) => exists n0, cells h !! c = Some (Some (a, n0)) /\ (n <= n0)%nat
  end ->
  let '(s', h') := append s xs h in updated h (Slice_setOrig c s' h') c (Slice_contents s h ++ xs).
Proof.
  intros O Hlt Hs. destruct s as [[a n]|].
  - destruct Hs as (n0 & Hc & Hn). destruct (owned_valid _ O _ _ _ Hc) as (l & Ha & Hl).
    pose proof (array_lookup _ _ _ Ha) as El. unfold Slice_append. destruct xs as [|x xs].
    + rewrite app_nil_r. simpl. rewrite El. pose proof (update_in_place h c a n0 n l O Hc ltac:(lia)) as U.
      replace (Slice_set_array a l h) with h in U; [done|]. unfold Slice_set_array. destruct h. simpl in *. by rewrite list_insert_id.
    + unfold Slice_contents, Slice_capacity, Slice_size. rewrite El. case_decide as Hcap.
      * set (l' := take n l ++ _).
        assert (take (n + length (x :: xs)) l' = take n l ++ x :: xs) as E.
        { unfold l'. rewrite app_assoc. apply take_app_length'. rewrite length_app, length_take. lia. }
        rewrite <- E. eapply update_in_place; [done|exact Hc|]. unfold l'. rewrite !length_app, length_take. lia.
      * set (l' := take n l ++ _).
        assert (take (n + length (x :: xs)) l' = take n l ++ x :: xs) as E.
        { unfold l'. rewrite app_assoc. apply take_app_length'. rewrite length_app, length_take. lia. }
        rewrite <- E. apply update_fresh; [done|done|]. unfold l'. rewrite !length_app, length_take. lia.
  - unfold Slice_append. destruct xs as [|x xs]; [by apply update_nil|]. simpl.
    pose proof (update_fresh h c (length (x :: xs)) ((x :: xs) ++ replicate (extra 0 (length (x :: xs))) zero) O Hlt) as U.
    rewrite take_app_length, length_app in U. apply U. lia.
Qed.

Lemma getOrig_cases (h : heap) c :
  (c < length (cells h))%nat ->
  cells h !! c = Some None /\ Slice_getOrig c h = None \/
  exists a n, cells h !! c = Some (Some (a, n)) /\ Slice_getOrig c h = Some (a, n).
Proof.
  intros Hlt. destruct (lookup_lt_is_Some_2 _ _ Hlt) as [[[a n]|] Hc]; unfold Slice_getOrig; rewrite Hc; [right|left]; eauto.
Qed.

(** The methods that change one slice, and what they are on a list. *)
Inductive sliceOp :=
| OpFromRaw (val : list A)
| OpSetAt (i : Z) (x : A)
| OpAppend (elms : list A)
| OpEnsureCapacity (newCap : Z)
| OpSliceRemoveIf (f : A -> bool).

Definition slice_call (st : State) (op : sliceOp) (c : nat) (h : heap) : option heap :=
  match op with
  | OpFromRaw val => Slice_FromRaw zero extra st c val h
  | OpSetAt i x => Slice_SetAt st c i x h
  | OpAppend elms => Slice_Append zero extra st c elms h
  | OpEnsureCapacity newCap => Slice_EnsureCapacity zero st c newCap h
  | OpSliceRemoveIf f => Slice_RemoveIf zero st f c h
  end.

Definition slice_meant (op : sliceOp) (l : list A) : option (list A) :=
  match op with
  | OpFromRaw val => Some val
  | OpSetAt i x => if decide (0 <= i < Z.of_nat (length l)) then Some (<[Z.to_nat i := x]> l) else None
  | OpAppend elms => Some (l ++ elms)
  | OpEnsureCapacity _ => Some l
  | OpSliceRemoveIf f => Some (filter (fun x => f x = false) l)
  end.

(** A method of a slice does to its elements what it says, panics on an index out of range
    only, and changes no other slice, as long as no two slices have one array; and it keeps
    that so. *)
Theorem slices_refine_lists st op c (h : heap) :
  AssertMutable st = Some tt -> owned h -> (c < length (cells h))%nat ->
  match slice_meant op (Slice_AsRaw c h) with
  | Some l => exists h', slice_call st op c h = Some h' /\ updated h h' c l
  | None => slice_call st op c h = None
  end.
Proof.
  intros M O Hlt. unfold Slice_AsRaw. destruct op as [val|i x|elms|newCap|f]; simpl;
    unfold Slice_FromRaw, Slice_SetAt, Slice_Append, Slice_EnsureCapacity, Slice_RemoveIf, Slice_copySlice; rewrite M; simpl;
    destruct (getOrig_cases h c Hlt) as [[Hc ->]|(a & n & Hc & ->)]; simpl.
  - pose proof (update_append h c None val O Hlt Hc) as U. destruct (append None val h) as [s h']. by eexists.
  - pose proof (update_append h c (Some (a, 0%nat)) val O Hlt (ex_intro _ n (conj Hc (Nat.le_0_l n)))) as U.
    destruct (append (Some (a, 0%nat)) val h) as [s h']. by eexists.
  - rewrite decide_False by lia. done.
  - destruct (owned_valid _ O _ _ _ Hc) as (l & Ha & Hl). rewrite (array_lookup _ _ _ Ha), length_take, Nat.min_l by done.
    case_decide as Hi; [|done]. eexists. split; [done|]. rewrite <- take_insert_lt by lia.
    pose proof (update_in_place h c a n n (<[Z.to_nat i := x]> l) O Hc ltac:(by rewrite length_insert)) as U.
    replace (Slice_set_array a (<[Z.to_nat i := x]> l) h) with
      (Slice_setOrig c (Some (a, n)) (Slice_set_array a (<[Z.to_nat i := x]> l) h)); [done|].
    unfold Slice_setOrig, Slice_set_array. simpl. by rewrite (list_insert_id (cells h) c).
  - pose proof (update_append h c None elms O Hlt Hc) as U. destruct (append None elms h) as [s h']. by eexists.
  - pose proof (update_append h c (Some (a, n)) elms O Hlt (ex_intro _ n (conj Hc (Nat.le_refl n)))) as U.
    destruct (append (Some (a, n)) elms h) as [s h']. by eexists.
  - case_decide; [eexists; split; [done|]|eexists; split; [done|]].
    + assert (h = Slice_setOrig c None h) as E
        by (unfold Slice_setOrig; destruct h; simpl in *; by rewrite list_insert_id).
      rewrite E at 2. by apply update_nil.
    + apply (update_fresh h c 0 (replicate _ zero) O Hlt). lia.
  - destruct (owned_valid _ O _ _ _ Hc) as (l & Ha & Hl). rewrite (array_lookup _ _ _ Ha).
    case_decide; (eexists; split; [done|]).
    + pose proof (update_append h c (Some (a, n)) [] O Hlt (ex_intro _ n (conj Hc (Nat.le_refl n)))) as U. simpl in U.
      rewrite app_nil_r, (array_lookup _ _ _ Ha) in U. assert (Slice_setOrig c (Some (a, n)) h = h) as E
        by (unfold Slice_setOrig; destruct h; simpl in *; by rewrite list_insert_id). by rewrite E in U.
    + rewrite length_take, Nat.min_l by done.
      pose proof (update_fresh h c n (take n l ++ replicate (Z.to_nat newCap - n) zero) O Hlt) as U.
      rewrite length_app, length_take, Nat.min_l in U by done. specialize (U ltac:(lia)). simpl in U.
      rewrite take_app_length' in U by (rewrite length_take; lia). done.
  - eexists. split; [done|]. assert (h = Slice_setOrig c None h) as E
      by (unfold Slice_setOrig; destruct h; simpl in *; by rewrite list_insert_id).
    rewrite E at 2. by apply update_nil.
  - destruct (owned_valid _ O _ _ _ Hc) as (l & Ha & Hl). rewrite (array_lookup _ _ _ Ha).
    pose proof (removeLoop_filter zero false f n 0 0 (take n l) (Nat.le_refl _)) as L.
    destruct (removeLoop _ _ _ _ _ _ _) as [l' n']. rewrite length_take, Nat.min_l in L by done.
    destruct (L eq_refl) as (E1 & Hn' & E2). eexists. split; [done|]. rewrite drop_0 in E2. simpl in E2.
    rewrite <- E2. rewrite <- (take_app_le l' (drop n l)) by lia. apply (update_in_place h c a n n'); [done|done|].
    rewrite length_app. lia.
Qed.

(** CopyTo copies the elements, to an array that is not shared. *)
Lemma CopyTo_copies st' c dest (h : heap) :
  AssertMutable st' = Some tt -> owned h -> (dest < length (cells h))%nat -> c <> dest ->
  exists h', Slice_CopyTo zero extra st' c dest h = Some h' /\ updated h h' dest (Slice_AsRaw c h).
Proof.
  intros M O Hlt Hne. unfold Slice_CopyTo, Slice_copySlice. rewrite M, decide_False by done. simpl.
  change (Slice_contents (Slice_getOrig c h) h) with (Slice_AsRaw c h). generalize (Slice_AsRaw c h). intros l.
  destruct (getOrig_cases h dest Hlt) as [[Hc ->]|(a & n & Hc & ->)]; simpl.
  - pose proof (update_append h dest None l O Hlt Hc) as U. destruct (append None l h) as [s h']. by eexists.
  - pose proof (update_append h dest (Some (a, 0%nat)) l O Hlt (ex_intro _ n (conj Hc (Nat.le_0_l n)))) as U.
    destruct (append (Some (a, 0%nat)) l h) as [s h']. by eexists.
Qed.

(** MoveAndAppendTo of a plain slice to itself empties it. *)
Lemma self_append_loses_elements st c (h : heap) :
  AssertMutable st = Some tt -> (c < length (cells h))%nat ->
  exists h', Slice_MoveAndAppendTo zero extra st st c c h = Some h' /\ Slice_AsRaw c h' = [].
Proof.
  intros M Hlt. unfold Slice_MoveAndAppendTo. rewrite M. simpl. eexists. split; [done|].
  set (h1 := match Slice_getOrig c h with None => _ | _ => _ end).
  assert (length (cells h1) = length (cells h)) as E.
  { unfold h1. destruct (Slice_getOrig c h) as [s|]; [|simpl; by rewrite length_insert].
    unfold Slice_append. destruct (Slice_contents _ _); [simpl; by rewrite length_insert|].
    destruct s as [a' n']. case_decide; simpl; by rewrite length_insert. }
  unfold Slice_AsRaw, Slice_getOrig. simpl. by rewrite list_lookup_insert_eq by lia.
Qed.
End slices.

(** * Concrete values *)

Definition writable : State := NewState.
Definition shared : State := MarkReadOnly NewState.
Definition no_bytes : heap Z := mkHeap [] [].
Definition one_bytes : heap Z := mkHeap [[1; 2; 3]] [Some (0%nat, 3%nat)].
Definition no_extra (a b : nat) : nat := 0.
Definition example_raw : raw :=
  RMap [([97], RSlice [RInt 5; RNil; RBytes [7; 8]]); ([98], RMap [([97], RBool true)])].
Definition example_map : list keyValue := [mkKeyValue [97] (IntValue 1) 0; mkKeyValue [98] (BytesValue 0) 0].

#[local] Existing Instance multierr_first.
#[local] Existing Instance multierr_first_laws.

Lemma raw_values_roundtrip_witness :
  canonical example_raw /\ exists v' h', Value_FromRaw no_extra writable example_raw Empty no_bytes = Some (v', (h', None)) /\
    Value_AsRaw h' v' = Some example_raw.
Proof.
  assert (canonical example_raw) as C.
  { simpl. split_and!; try done; try lia; repeat constructor; set_solver. }
  split; [exact C|].
  destruct (raw_values_roundtrip no_extra writable example_raw Empty no_bytes eq_refl C) as (v' & h' & E & _ & _ & R).
  exists v', h'. split; [exact E|]. apply R. reflexivity.
Defined.

Lemma copies_read_the_same_witness :
  well_formed one_bytes (KvlistValue (Some example_map)) /\
  exists v' h', Value_CopyTo false writable (KvlistValue (Some example_map)) Empty one_bytes = Some (v', h') /\
    Value_AsRaw h' v' = Some (RMap [([97], RInt 1); ([98], RBytes [1; 2; 3])]).
Proof.
  assert (well_formed one_bytes (KvlistValue (Some example_map))) as W by (simpl; lia).
  split; [exact W|]. destruct (copies_read_the_same writable _ Empty one_bytes eq_refl W) as (v' & h' & E & R & _ & _).
  exists v', h'. split; [exact E|]. rewrite R. reflexivity.
Defined.

Lemma copied_bytes_are_shared_witness :
  exists h2, ByteSlice_AsRaw 0 one_bytes = [1; 2; 3] /\ ByteSlice_AsRaw 0 h2 = [9; 2; 3].
Proof.
  destruct (copied_bytes_are_shared shared writable 0 one_bytes 0 2 9 Empty eq_refl eq_refl eq_refl (Nat.le_refl 3))
    as (c' & h1 & h2 & _ & _ & _ & _ & R).
  exists h2. split; [reflexivity|]. rewrite R. reflexivity.
Defined.

Lemma read_only_values_can_be_emptied_witness :
  AssertMutable shared = None /\ Value_FromRaw no_extra shared RNil (IntValue 1) no_bytes = Some (Empty, (no_bytes, None)).
Proof. split; [reflexivity|]. exact (proj1 (read_only_values_can_be_emptied no_extra shared RNil (IntValue 1) no_bytes eq_refl)). Defined.


Lemma Equal_is_an_equivalence_witness :
  Value_Equal no_bytes (KvlistValue (Some (take 1 example_map))) (KvlistValue (Some (take 1 example_map))) = Some true.
Proof.
  apply (proj1 (Equal_is_an_equivalence no_bytes)); simpl; [done| |done]. split; [|done]. repeat constructor; set_solver.
Defined.

Lemma slices_refine_lists_witness :
  owned one_bytes /\ exists h', Slice_Append 0 no_extra writable 0 [4] one_bytes = Some h' /\ Slice_AsRaw 0 h' = [1; 2; 3; 4].
Proof.
  assert (owned one_bytes) as O.
  { split; intros [|c]; simpl; try done.
    - intros a n [= <- <-]. exists [1; 2; 3]. split; [done|]. simpl. lia.
    - intros [|c'] a n n'; simpl; [done|]. by rewrite lookup_nil. }
  split; [exact O|].
  destruct (slices_refine_lists 0 no_extra writable (OpAppend [4]) 0 one_bytes eq_refl O (Nat.lt_0_succ 0)) as (h' & E & U).
  exists h'. split; [exact E|]. exact (updated_contents _ _ _ _ U).
Defined.
