(* ===== verification/Ids.v ===== *)
(** * Ids: component and pipeline identifiers

    Models component/identifiable.go, pipeline/pipeline.go,
    pipeline/internal/globalsignal/signal.go and what they use of the packages strings,
    unicode and regexp.  A string is its bytes.  Errors keep the constant text of their
    format. *)

From Stdlib Require Import Ascii.
From S2P Require Import Prelude.
From S2P Require Import GoErrors.

Abbreviation byte_of c := (Z.of_N (Ascii.N_of_ascii c)).

(** ** UTF-8, as a range loop over a string decodes it *)

(** The length of the sequence a byte begins, the bits of the code point it holds and the
    range of the next byte; [None] if no sequence begins with it. *)
Definition leading (b : Z) : option (nat * Z * Z * Z) :=
  if b <? 128 then Some (0%nat, b, 0, 0)
  else if b <? 194 then None
  else if b <? 224 then Some (1%nat, b - 192, 128, 191)
  else if b =? 224 then Some (2%nat, 0, 160, 191)
  else if b =? 237 then Some (2%nat, 13, 128, 159)
  else if b <? 240 then Some (2%nat, b - 224, 128, 191)
  else if b =? 240 then Some (3%nat, 0, 144, 191)
  else if b <? 244 then Some (3%nat, b - 240, 128, 191)
  else if b =? 244 then Some (3%nat, 4, 128, 143)
  else None.

(** The [n] continuation bytes of a code point. *)
Fixpoint continuation (n : nat) (acc lo hi : Z) (s : string) : option (string * Z * string) :=
  match n with
  | O => Some ("", acc, s)
  | S n =>
      match s with
      | String c s' =>
          let b := byte_of c in
          if (lo <=? b) && (b <=? hi) then
            match continuation n (acc * 64 + (b - 128)) 128 191 s' with
            | Some (t, r, rest) => Some (String c t, r, rest)
            | None => None
            end
          else None
      | EmptyString => None
      end
  end.

Definition RuneError : Z := 65533.

(** The first rune of a string that is not empty: its bytes, its code point, the rest. *)
Definition decodeRune (c : ascii) (s : string) : string * Z * string :=
  match leading (byte_of c) with
  | Some (n, acc, lo, hi) =>
      match continuation n acc lo hi s with
      | Some (t, r, rest) => (String c t, r, rest)
      | None => (String c "", RuneError, s)
      end
  | None => (String c "", RuneError, s)
  end.

Fixpoint runesFuel (fuel : nat) (s : string) : list (string * Z) :=
  match fuel, s with
  | S fuel, String c s => let '(t, r, rest) := decodeRune c s in (t, r) :: runesFuel fuel rest
  | _, _ => []
  end.

Definition runes (s : string) : list (string * Z) := runesFuel (String.length s) s.

Definition concat_runes (l : list (string * Z)) : string := foldr (fun x s => x.1 +:+ s) "" l.

(** ** unicode, strings *)

(** unicode.IsSpace *)
Definition IsSpace (r : Z) : bool :=
  ((9 <=? r) && (r <=? 13)) || (r =? 32) || (r =? 133) || (r =? 160) || (r =? 5760) ||
  ((8192 <=? r) && (r <=? 8202)) || (r =? 8232) || (r =? 8233) || (r =? 8239) || (r =? 8287) || (r =? 12288).

Fixpoint dropSpace (l : list (string * Z)) : list (string * Z) :=
  match l with
  | x :: l' => if IsSpace x.2 then dropSpace l' else l
  | [] => []
  end.

Definition TrimSpace (s : string) : string :=
  concat_runes (reverse (dropSpace (reverse (dropSpace (runes s))))).

(** strings.Cut with a separator of one byte. *)
Fixpoint Cut (s : string) (sep : ascii) : string * string * bool :=
  match s with
  | EmptyString => ("", "", false)
  | String c s' =>
      if decide (c = sep) then ("", s', true)
      else let '(before, after, found) := Cut s' sep in
        if (found : bool) then (String c before, after, true) else (s, "", false)
  end.

Definition typeAndNameSeparator : ascii := "/"%char.

(** The tables of the Unicode categories Z, C and S, for code points above ASCII. *)
Class UnicodeTables := { categoryZCS : Z -> bool }.

(** White space is in Z or C, and the replacement character, which stands for bytes that
    are not UTF-8, is a symbol. *)
Class UnicodeLaws `{UnicodeTables} := {
  space_ZCS : forall r, 128 <= r -> IsSpace r = true -> categoryZCS r = true;
  error_ZCS : categoryZCS RuneError = true;
}.

Section ids.
Context `{UnicodeTables}.

Definition letter (b : Z) : bool := ((65 <=? b) && (b <=? 90)) || ((97 <=? b) && (b <=? 122)).
Definition digit (b : Z) : bool := (48 <=? b) && (b <=? 57).

Fixpoint all_bytes (p : Z -> bool) (s : string) : bool :=
  match s with EmptyString => true | String c s => p (byte_of c) && all_bytes p s end.

(** typeRegexp: ^[a-zA-Z][0-9a-zA-Z_]{0,62}$ *)
Definition typeRegexp_MatchString (s : string) : bool :=
  match s with
  | EmptyString => false
  | String c s =>
      letter (byte_of c) && all_bytes (fun b => digit b || letter b || (b =? 95)) s && (String.length s <=? 62)%nat
  end.

(** A rune of \pZ, \pC or \pS; of ASCII: the space, the controls and $+<=>^`|~. *)
Definition pZ_pC_pS (r : Z) : bool :=
  if r <? 128 then
    (r <=? 32) || (r =? 127) || (r =? 36) || (r =? 43) || ((60 <=? r) && (r <=? 62)) || (r =? 94) || (r =? 96) ||
    (r =? 124) || (r =? 126)
  else categoryZCS r.

(** nameRegexp: ^[^\pZ\pC\pS]+$ *)
Definition nameRegexp_MatchString (s : string) : bool :=
  match runes s with
  | [] => false
  | l => forallb (fun x => negb (pZ_pC_pS x.2)) l
  end.

Definition errNameTooLong : error := ErrNew "name is longer than 1024 characters".
Definition errNameCharacters : error := ErrNew "invalid character(s) in name".
Definition errTypeCharacters : error := ErrNew "invalid character(s) in type".
Definition errEmptyID : error := ErrNew "id must not be empty".
Definition errEmptyBefore : error := ErrNew "the part before / should not be empty".
Definition errEmptyAfter : error := ErrNew "the part after / should not be empty".

Definition validateName (nameStr : string) : option error :=
  if decide (Z.of_nat (String.length nameStr) > 1024) then Some errNameTooLong
  else if negb (nameRegexp_MatchString nameStr) then Some errNameCharacters
  else None.

(** ** component.Type and component.ID *)

Record Type_ := mkType { type_name : string }.
Record ID := mkID { typeVal : Type_; nameVal : string }.

Definition NewType (ty : string) : Type_ + error :=
  if decide (ty = "") then inr errEmptyID
  else if negb (typeRegexp_MatchString ty) then inr errTypeCharacters
  else inl (mkType ty).

Definition ID_String (id : ID) : string :=
  if decide (nameVal id = "") then type_name (typeVal id)
  else type_name (typeVal id) +:+ String typeAndNameSeparator (nameVal id).

(** What UnmarshalText of both kinds of identifiers does before it reads the first part:
    that part, and the name. *)
Definition splitID (text : string) : (string * string) + error :=
  let '(typeStr, nameStr, hasName) := Cut text typeAndNameSeparator in
  let typeStr := TrimSpace typeStr in
  if decide (typeStr = "") then inr (if (hasName : bool) then errEmptyBefore else errEmptyID)
  else if hasName then
    let nameStr := TrimSpace nameStr in
    if decide (nameStr = "") then inr errEmptyAfter
    else match validateName nameStr with
         | Some err => inr (ErrWrap "in id" err)
         | None => inl (typeStr, nameStr)
         end
  else inl (typeStr, nameStr).

Definition ID_UnmarshalText (text : string) : ID + error :=
  match splitID text with
  | inr err => inr err
  | inl (typeStr, nameStr) =>
      match NewType typeStr with
      | inr err => inr (ErrWrap "in id" err)
      | inl ty => inl (mkID ty nameStr)
      end
  end.

(** ** pipeline.Signal and pipeline.ID *)

Inductive Signal := SignalProfiles | SignalTraces | SignalMetrics | SignalLogs.

Definition Signal_String (s : Signal) : string :=
  match s with
  | SignalProfiles => "profiles"
  | SignalTraces => "traces"
  | SignalMetrics => "metrics"
  | SignalLogs => "logs"
  end.

Definition Signal_UnmarshalText (text : string) : Signal + error :=
  if decide (text = "profiles") then inl SignalProfiles
  else if decide (text = "traces") then inl SignalTraces
  else if decide (text = "metrics") then inl SignalMetrics
  else if decide (text = "logs") then inl SignalLogs
  else inr (ErrNew "unknown pipeline signal").

Record pipelineID := mkPipelineID { signal : Signal; pipeline_name : string }.

Definition pipelineID_String (i : pipelineID) : string :=
  if decide (pipeline_name i = "") then Signal_String (signal i)
  else Signal_String (signal i) +:+ String typeAndNameSeparator (pipeline_name i).

Definition pipelineID_UnmarshalText (text : string) : pipelineID + error :=
  match splitID text with
  | inr err => inr err
  | inl (signalStr, nameStr) =>
      match Signal_UnmarshalText signalStr with
      | inr err => inr (ErrWrap "in id" err)
      | inl s => inl (mkPipelineID s nameStr)
      end
  end.
End ids.

#[export] Instance Type_eq_dec : EqDecision Type_.
Proof. solve_decision. Defined.
#[export] Instance ID_eq_dec : EqDecision ID.
Proof. solve_decision. Defined.
#[export] Instance Signal_eq_dec : EqDecision Signal.
Proof. solve_decision. Defined.
#[export] Instance pipelineID_eq_dec : EqDecision pipelineID.
Proof. solve_decision. Defined.

(** * Identifiers round-trip through text *)

(** ** Runes *)

Lemma string_cons_app c s t : String c s +:+ t = String c (s +:+ t).
Proof. done. Qed.

Lemma string_length_app s t : String.length (s +:+ t) = (String.length s + String.length t)%nat.
Proof. induction s as [|c s IH]; [done|]. rewrite string_cons_app. simpl. by rewrite IH. Qed.

Lemma continuation_app n acc lo hi s t r rest :
  continuation n acc lo hi s = Some (t, r, rest) -> t +:+ rest = s.
Proof.
  revert acc lo hi s t r rest. induction n as [|n IH]; intros acc lo hi s t r rest E; simpl in E; [by simplify_eq|].
  destruct s as [|c s]; [done|]. destruct (_ && _); [|done].
  destruct (continuation n _ _ _ s) as [[[t' r'] rest']|] eqn:E'; [|done]. simplify_eq.
  apply IH in E'. by rewrite string_cons_app, E'.
Qed.

Lemma decodeRune_app c s t r rest : decodeRune c s = (t, r, rest) -> t +:+ rest = String c s.
Proof.
  unfold decodeRune. destruct (leading _) as [[[[n acc] lo] hi]|]; [|intros; by simplify_eq].
  destruct (continuation n acc lo hi s) as [[[t' r'] rest']|] eqn:E; intros; simplify_eq; [|done].
  apply continuation_app in E. by rewrite string_cons_app, E.
Qed.

Lemma decodeRune_shorter c s t r rest : decodeRune c s = (t, r, rest) -> (String.length rest <= String.length s)%nat.
Proof.
  intros E. pose proof (decodeRune_app _ _ _ _ _ E) as Ea. apply (f_equal String.length) in Ea.
  rewrite string_length_app in Ea. simpl in Ea.
  assert (t <> "") as Ht.
  { unfold decodeRune in E. destruct (leading _) as [[[[n acc] lo] hi]|]; [|by simplify_eq].
    destruct (continuation n acc lo hi s) as [[[t' r'] rest']|]; by simplify_eq. }
  destruct t; [done|]. simpl in Ea. lia.
Qed.

Lemma concat_runesFuel fuel s : (String.length s <= fuel)%nat -> concat_runes (runesFuel fuel s) = s.
Proof.
  revert s. induction fuel as [|fuel IH]; intros [|c s] Hl; simpl in *; [done|lia|done|].
  destruct (decodeRune c s) as [[t r] rest] eqn:E. simpl. pose proof (decodeRune_shorter _ _ _ _ _ E).
  rewrite IH by lia. by apply decodeRune_app in E.
Qed.

(** Decoding loses no byte. *)
Lemma concat_runes_runes s : concat_runes (runes s) = s.
Proof. by apply concat_runesFuel. Qed.

(** ** TrimSpace and Cut *)

Lemma dropSpace_id l : Forall (fun x => IsSpace x.2 = false) l -> dropSpace l = l.
Proof. destruct 1 as [|x l Hx _]; [done|]. simpl. by rewrite Hx. Qed.

Lemma TrimSpace_id s : Forall (fun x => IsSpace x.2 = false) (runes s) -> TrimSpace s = s.
Proof.
  intros Hs. unfold TrimSpace. rewrite (dropSpace_id (runes s)) by done.
  rewrite dropSpace_id by by apply Forall_reverse. by rewrite reverse_involutive, concat_runes_runes.
Qed.

Definition no_byte (sep : ascii) (s : string) : Prop := all_bytes (fun b => negb (b =? byte_of sep)) s = true.

Lemma byte_of_inj c d : byte_of c = byte_of d -> c = d.
Proof. intros E%N2Z.inj. by rewrite <- (ascii_N_embedding c), E, ascii_N_embedding. Qed.

Lemma Cut_found sep a b : no_byte sep a -> Cut (a +:+ String sep b) sep = (a, b, true).
Proof.
  unfold no_byte. induction a as [|c a IH]; [simpl; by rewrite decide_True|]. rewrite string_cons_app. simpl.
  intros [Hc%negb_true_iff%Z.eqb_neq Ha]%andb_true_iff. rewrite decide_False by congruence. by rewrite IH.
Qed.

Lemma Cut_not_found sep s : no_byte sep s -> Cut s sep = (s, "", false).
Proof.
  unfold no_byte. induction s as [|c s IH]; simpl; [done|].
  intros [Hc%negb_true_iff%Z.eqb_neq Hs]%andb_true_iff. rewrite decide_False by congruence. by rewrite IH.
Qed.

Lemma Cut_false s sep t n : Cut s sep = (t, n, false) -> n = "".
Proof.
  revert t n. induction s as [|c s IH]; intros t n; simpl; [by intros [=]|]. case_decide; [done|].
  destruct (Cut s sep) as [[t' n'] []] eqn:E; [done|]. by intros [=].
Qed.

(** ** Valid identifiers *)

Section ids.
Context `{UnicodeLaws}.

Definition type_byte (b : Z) : bool := digit b || letter b || (b =? 95).

Lemma all_bytes_impl (p q : Z -> bool) s :
  (forall b, p b = true -> q b = true) -> all_bytes p s = true -> all_bytes q s = true.
Proof.
  intros Hpq. induction s as [|c s IH]; [done|]. simpl. intros [Hc Hs]%andb_true_iff.
  by rewrite (Hpq _ Hc), IH.
Qed.

(** Bytes of ASCII are runes. *)
Lemma runes_ascii (p : Z -> bool) s : (forall b, p b = true -> b < 128) -> all_bytes p s = true ->
  Forall (fun x => p x.2 = true) (runes s).
Proof.
  intros Hp. unfold runes. induction s as [|c s IH]; intros Hs; [constructor|].
  simpl in Hs. apply andb_true_iff in Hs as [Hc Hs]. simpl. unfold decodeRune, leading.
  pose proof (Hp _ Hc) as Hb. apply Z.ltb_lt in Hb. rewrite Hb. simpl. constructor; [done|by apply IH].
Qed.

Lemma type_bytes ty : typeRegexp_MatchString ty = true -> all_bytes type_byte ty = true.
Proof.
  destruct ty as [|c ty]; [done|]. simpl. intros [[Hc Hs]%andb_true_iff _]%andb_true_iff.
  change (all_bytes type_byte ty = true) in Hs. rewrite Hs. unfold type_byte. by rewrite Hc, orb_true_r.
Qed.

Ltac bytes := unfold type_byte, digit, letter, IsSpace in *;
  rewrite ?orb_true_iff, ?andb_true_iff, ?Z.leb_le, ?Z.eqb_eq, ?negb_true_iff, ?Z.eqb_neq in *; lia.

Lemma type_trim ty : typeRegexp_MatchString ty = true -> TrimSpace ty = ty.
Proof.
  intros Ht%type_bytes. apply TrimSpace_id. eapply Forall_impl; [eapply (runes_ascii type_byte); [|done]|].
  - intros b Hb. bytes.
  - intros x Hx. apply not_true_iff_false. intros Hs. bytes.
Qed.

Lemma type_no_separator ty : typeRegexp_MatchString ty = true -> no_byte typeAndNameSeparator ty.
Proof.
  intros Ht%type_bytes. eapply all_bytes_impl; [|exact Ht]. intros b Hb.
  apply negb_true_iff, Z.eqb_neq. change (byte_of typeAndNameSeparator) with 47. bytes.
Qed.

Lemma name_trim name : nameRegexp_MatchString name = true -> TrimSpace name = name.
Proof.
  intros Hn. apply TrimSpace_id. unfold nameRegexp_MatchString in Hn.
  assert (forallb (fun x : string * Z => negb (pZ_pC_pS x.2)) (runes name) = true) as Hf by (by destruct (runes name)).
  rewrite forallb_forall in Hf. apply Forall_forall. intros [t r] Hx%list_elem_of_In%Hf%negb_true_iff.
  simpl in *. apply not_true_iff_false. intros Hs. unfold pZ_pC_pS in Hx.
  destruct (Z.ltb_spec r 128) as [Hr|Hr]; [|by rewrite (space_ZCS r) in Hx].
  rewrite !orb_false_iff, Z.leb_gt in Hx. bytes.
Qed.

(** A name that [NewID] or UnmarshalText accept. *)
Definition valid_name (name : string) : Prop := name = "" \/ validateName name = None.

Lemma splitID_app first name :
  typeRegexp_MatchString first = true -> valid_name name ->
  splitID (if decide (name = "") then first else first +:+ String typeAndNameSeparator name) = inl (first, name).
Proof.
  intros Hf Hn. pose proof (type_no_separator _ Hf) as Hs. unfold splitID.
  assert (first <> "") as Hne by by destruct first.
  case_decide as Hd.
  - rewrite Cut_not_found, type_trim, decide_False by done. by rewrite Hd.
  - rewrite Cut_found, type_trim, decide_False by done. destruct Hn as [|Hn]; [done|].
    assert (nameRegexp_MatchString name = true) as Hm.
    { unfold validateName in Hn. case_decide; [done|]. by destruct (nameRegexp_MatchString name). }
    by rewrite name_trim, decide_False, Hn.
Qed.

Lemma splitID_valid text first name : splitID text = inl (first, name) -> valid_name name.
Proof.
  unfold splitID. destruct (Cut text _) as [[t n] []] eqn:E; (case_decide; [done|]).
  - case_decide; [done|]. destruct (validateName (TrimSpace n)) eqn:Ev; [done|]. intros; simplify_eq. by right.
  - intros; simplify_eq. left. by eapply Cut_false.
Qed.

Lemma NewType_regexp ty t : NewType ty = inl t -> typeRegexp_MatchString ty = true /\ t = mkType ty.
Proof. unfold NewType. case_decide; [done|]. destruct (typeRegexp_MatchString ty); [|done]. simpl. by intros [= ->]. Qed.

Definition valid_ID (id : ID) : Prop := NewType (type_name (typeVal id)) = inl (typeVal id) /\ valid_name (nameVal id).
Definition valid_pipelineID (i : pipelineID) : Prop := valid_name (pipeline_name i).

Lemma Signal_roundtrip s : typeRegexp_MatchString (Signal_String s) = true /\ Signal_UnmarshalText (Signal_String s) = inl s.
Proof. by destruct s. Qed.

Lemma ID_roundtrip id : valid_ID id -> ID_UnmarshalText (ID_String id) = inl id.
Proof.
  destruct id as [ty name]. intros [Ht Hn]. simpl in *. pose proof (NewType_regexp _ _ Ht) as [Hr _].
  unfold ID_UnmarshalText, ID_String. simpl. by rewrite splitID_app, Ht.
Qed.

Lemma pipelineID_roundtrip i : valid_pipelineID i -> pipelineID_UnmarshalText (pipelineID_String i) = inl i.
Proof.
  destruct i as [s name]. intros Hn. unfold pipelineID_UnmarshalText, pipelineID_String. simpl.
  destruct (Signal_roundtrip s) as [Hr Hs]. by rewrite splitID_app, Hs.
Qed.

Lemma ID_String_inj id1 id2 : valid_ID id1 -> valid_ID id2 -> ID_String id1 = ID_String id2 -> id1 = id2.
Proof. intros H1%ID_roundtrip H2%ID_roundtrip E. rewrite E in H1. congruence. Qed.

Lemma pipelineID_String_inj i1 i2 :
  valid_pipelineID i1 -> valid_pipelineID i2 -> pipelineID_String i1 = pipelineID_String i2 -> i1 = i2.
Proof. intros H1%pipelineID_roundtrip H2%pipelineID_roundtrip E. rewrite E in H1. congruence. Qed.
End ids.

(** What UnmarshalText accepts is a valid identifier, and the text of every valid
    identifier, of a component or of a pipeline, is read back as that identifier. *)
Theorem ids_roundtrip `{UnicodeLaws} text :
  (forall id, ID_UnmarshalText text = inl id -> valid_ID id) /\
  (forall id, valid_ID id -> ID_UnmarshalText (ID_String id) = inl id) /\
  (forall i, pipelineID_UnmarshalText text = inl i -> valid_pipelineID i) /\
  (forall i, valid_pipelineID i -> pipelineID_UnmarshalText (pipelineID_String i) = inl i).
Proof.
  split_and!; intros x E; [| by apply ID_roundtrip | | by apply pipelineID_roundtrip].
  - unfold ID_UnmarshalText in E. destruct (splitID text) as [[t n]|] eqn:Es; [|done].
    destruct (NewType t) as [ty|] eqn:Et; [|done]. simplify_eq. split; [|by eapply splitID_valid].
    simpl. by destruct (NewType_regexp _ _ Et) as [_ ->].
  - unfold pipelineID_UnmarshalText in E. destruct (splitID text) as [[t n]|] eqn:Es; [|done].
    destruct (Signal_UnmarshalText t); [|done]. simplify_eq. by eapply splitID_valid.
Qed.

(** ** Witness: the white space of Unicode is Z or C *)

Definition some_tables : UnicodeTables := {| categoryZCS r := IsSpace r || (r =? RuneError) |}.

Lemma some_tables_laws : @UnicodeLaws some_tables.
Proof. by split; [intros r _ Hr; simpl; rewrite Hr|]. Qed.

Lemma ids_roundtrip_witness :
  @ID_UnmarshalText some_tables (ID_String (mkID (mkType "otlp") "2")) = inl (mkID (mkType "otlp") "2").
Proof.
  apply (proj1 (proj2 (@ids_roundtrip some_tables some_tables_laws ""))). split; [reflexivity|]. right. reflexivity.
Defined.
