(* ===== verification/Digraph.v ===== *)
(** * Digraph: the directed graphs of gonum, as the pipeline graph uses them

    gonum.org/v1/gonum is third-party code, so a graph is an interface: its operations,
    and the laws that its documentation states.  A node is anything with an int64
    identifier.  The last part is an instance, on which the witnesses evaluate. *)

From S2P Require Import Prelude.

(** A node of a graph. *)
Class HasID (N : Type) := node_ID : N -> Z.

Class DirectedGraph (N : Type) `{HasID N} := {
  digraph : Type;
  NewDirectedGraph : digraph;
  Node : digraph -> Z -> option N;
  (* the nodes reached by an edge, in the order of the iterator *)
  From : digraph -> Z -> list N;
  (* [None]: the panic of a duplicate identifier *)
  AddNode : N -> digraph -> option digraph;
  (* SetEdge of NewEdge; [None]: the panic of an edge from a node to itself *)
  SetEdge : N -> N -> digraph -> option digraph;
  (* topo.Sort; [None]: the error Unorderable *)
  Sort : digraph -> option (list N);
  (* topo.DirectedCyclesIn; each cycle ends with the node it begins with *)
  DirectedCyclesIn : digraph -> list (list N);
}.

(** [x] comes before [y]. *)
Definition before {A} (l : list A) (x y : A) : Prop := exists l1 l2 l3, l = l1 ++ x :: l2 ++ y :: l3.

(** A numbering that every edge increases shows that a graph has no cycle. *)
Definition ranked {N} `{DirectedGraph N} (g : digraph) : Prop :=
  exists rank : Z -> nat, forall u n v, Node g u = Some n -> v ∈ From g u -> (rank u < rank (node_ID v))%nat.

(** The node is in the graph, or its identifier is not. *)
Definition fits {N} `{DirectedGraph N} (g : digraph) (n : N) : Prop :=
  Node g (node_ID n) = None \/ Node g (node_ID n) = Some n.

(** [graph_ok]: the graph was built by the operations. *)
Class DirectedGraphLaws (N : Type) `{DirectedGraph N} := {
  graph_ok : digraph -> Prop;
  new_ok : graph_ok NewDirectedGraph;
  Node_new : forall id, Node NewDirectedGraph id = None;
  From_new : forall id, From NewDirectedGraph id = [];
  Node_ID : forall g id n, graph_ok g -> Node g id = Some n -> id = node_ID n;
  From_Node : forall g id v, graph_ok g -> v ∈ From g id -> is_Some (Node g id) /\ Node g (node_ID v) = Some v;
  From_NoDup : forall g id, graph_ok g -> NoDup (node_ID <$> From g id);
  AddNode_new : forall n g, graph_ok g -> Node g (node_ID n) = None ->
    exists g', AddNode n g = Some g' /\ graph_ok g' /\
      (forall id, Node g' id = if decide (id = node_ID n) then Some n else Node g id) /\
      (forall id, From g' id = From g id);
  SetEdge_new : forall u v g, graph_ok g -> node_ID u <> node_ID v -> fits g u -> fits g v ->
    exists g', SetEdge u v g = Some g' /\ graph_ok g' /\
      (forall id, Node g' id = if decide (id = node_ID v) then Some v
                              else if decide (id = node_ID u) then Some u else Node g id) /\
      (forall id x, x ∈ From g' id <-> x ∈ From g id \/ (id = node_ID u /\ x = v));
  SetEdge_self : forall u v g, node_ID u = node_ID v -> SetEdge u v g = None;
  Sort_nodes : forall g l, graph_ok g -> Sort g = Some l -> forall n, n ∈ l <-> Node g (node_ID n) = Some n;
  Sort_nodup : forall g l, graph_ok g -> Sort g = Some l -> NoDup l;
  Sort_order : forall g l u v, graph_ok g -> Sort g = Some l -> Node g (node_ID u) = Some u ->
    v ∈ From g (node_ID u) -> before l u v;
  Sort_total : forall g, graph_ok g -> ranked g -> exists l, Sort g = Some l;
  Cycles_closed : forall g c, graph_ok g -> c ∈ DirectedCyclesIn g -> exists n l, c = n :: l ++ [n];
}.

(** ** An instance: association lists, and repeated removal of a node without predecessors *)

Section instance.
Context {N : Type} `{HasID N}.

Record adjacency := mkAdjacency { nodes : list N; arcs : list (N * N) }.

Definition find_node (l : list N) (id : Z) : option N := List.find (fun n => node_ID n =? id) l.
Definition set_node (n : N) (l : list N) : list N := filter (fun m => node_ID m <> node_ID n) l ++ [n].
Definition arcs_from (g : adjacency) (id : Z) : list N :=
  snd <$> filter (fun e : N * N => node_ID e.1 = id) (arcs g).

(** No arc of the graph leads from a node of [rest] to [n]. *)
Definition is_source (g : adjacency) (rest : list N) (n : N) : bool :=
  forallb (fun m => forallb (fun x => negb (node_ID x =? node_ID n)) (arcs_from g (node_ID m))) rest.

Fixpoint kahn (fuel : nat) (g : adjacency) (rest : list N) : option (list N) :=
  match fuel, rest with
  | _, [] => Some []
  | O, _ => None
  | S fuel, _ =>
      match List.find (is_source g rest) rest with
      | None => None
      | Some n => cons n <$> kahn fuel g (filter (fun m => node_ID m <> node_ID n) rest)
      end
  end.

Definition adjacency_graph : DirectedGraph N := {|
  digraph := adjacency;
  NewDirectedGraph := mkAdjacency [] [];
  Node g id := find_node (nodes g) id;
  From := arcs_from;
  AddNode n g := match find_node (nodes g) (node_ID n) with
                 | Some _ => None
                 | None => Some (mkAdjacency (nodes g ++ [n]) (arcs g))
                 end;
  SetEdge u v g :=
    if node_ID u =? node_ID v then None
    else Some (mkAdjacency (set_node v (set_node u (nodes g)))
      (filter (fun e : N * N => ~ (node_ID e.1 = node_ID u /\ node_ID e.2 = node_ID v)) (arcs g) ++ [(u, v)]));
  Sort g := kahn (length (nodes g)) g (nodes g);
  DirectedCyclesIn _ := [];
|}.

Record adjacency_ok (g : adjacency) : Prop := {
  ok_nodup : NoDup (node_ID <$> nodes g);
  ok_arcs : forall e, e ∈ arcs g -> e.1 ∈ nodes g /\ e.2 ∈ nodes g;
  ok_arcs_nodup : NoDup ((fun e : N * N => (node_ID e.1, node_ID e.2)) <$> arcs g);
}.

Lemma find_node_Some l id n : find_node l id = Some n -> n ∈ l /\ node_ID n = id.
Proof. intros [Hi He%Z.eqb_eq]%List.find_some. split; [by apply list_elem_of_In|done]. Qed.

Lemma find_node_None l id n : find_node l id = None -> n ∈ l -> node_ID n <> id.
Proof. intros Hf Hn%list_elem_of_In He. pose proof (List.find_none _ _ Hf n Hn) as Hx. by apply Z.eqb_neq in Hx. Qed.

Lemma find_node_in l n : NoDup (node_ID <$> l) -> find_node l (node_ID n) = Some n <-> n ∈ l.
Proof.
  intros Hnd. split; [by intros [? _]%find_node_Some|]. intros Hn.
  destruct (find_node l (node_ID n)) as [m|] eqn:E; [|by destruct (find_node_None _ _ n E)].
  apply find_node_Some in E as [Hm He]. f_equal.
  apply list_elem_of_lookup in Hn as [i Hi], Hm as [j Hj].
  assert (i = j) as ->; [|congruence].
  eapply NoDup_lookup; [exact Hnd|by rewrite list_lookup_fmap, Hi|rewrite list_lookup_fmap, Hj; simpl; congruence].
Qed.

Lemma elem_of_arcs_from g id v : v ∈ arcs_from g id <-> exists u, (u, v) ∈ arcs g /\ node_ID u = id.
Proof.
  unfold arcs_from. rewrite list_elem_of_fmap. split.
  - intros ([u w] & -> & [Hu Hin]%list_elem_of_filter). by exists u.
  - intros (u & Hin & Hu). exists (u, v). by rewrite list_elem_of_filter.
Qed.

Lemma set_node_elem n l m : m ∈ set_node n l <-> (m ∈ l /\ node_ID m <> node_ID n) \/ m = n.
Proof. unfold set_node. rewrite elem_of_app, list_elem_of_filter, list_elem_of_singleton. tauto. Qed.

Lemma set_node_nodup n l : NoDup (node_ID <$> l) -> NoDup (node_ID <$> set_node n l).
Proof.
  intros Hnd. unfold set_node. rewrite fmap_app. apply NoDup_app. split_and!.
  - eapply sublist_NoDup; [exact Hnd|]. apply fmap_sublist, sublist_filter.
  - intros x (m & -> & [Hm _]%list_elem_of_filter)%list_elem_of_fmap.
    by intros Hx%list_elem_of_singleton.
  - apply NoDup_singleton.
Qed.
(** *** The sort *)

Lemma is_source_spec g rest n : is_source g rest n = true ->
  forall m v, m ∈ rest -> v ∈ arcs_from g (node_ID m) -> node_ID v <> node_ID n.
Proof.
  unfold is_source. rewrite forallb_forall. intros Hs m v Hm%list_elem_of_In Hv%list_elem_of_In.
  specialize (Hs m Hm). rewrite forallb_forall in Hs. by apply Hs, negb_true_iff, Z.eqb_neq in Hv.
Qed.

Lemma filter_all {A} (P : A -> Prop) `{!forall x, Decision (P x)} (l : list A) : (forall x, x ∈ l -> P x) -> filter P l = l.
Proof.
  induction l as [|x l IH]; intros Hl; [done|]. rewrite filter_cons_True by (apply Hl; by left).
  f_equal. apply IH. intros y Hy. apply Hl. by right.
Qed.

Lemma remove_node_perm (n : N) l : NoDup (node_ID <$> l) -> n ∈ l ->
  l ≡ₚ n :: filter (fun m => node_ID m <> node_ID n) l.
Proof.
  intros Hnd Hn. apply list_elem_of_split in Hn as (l1 & l2 & ->).
  rewrite fmap_app, fmap_cons in Hnd. apply NoDup_app in Hnd as (_ & H1 & H2). apply NoDup_cons in H2 as [H2 _].
  rewrite filter_app, filter_cons_False by tauto. rewrite !filter_all; [by rewrite Permutation_middle|..].
  - intros m Hm E. apply H2. rewrite <- E. by apply list_elem_of_fmap_2.
  - intros m Hm E. apply (H1 (node_ID m)); [by apply list_elem_of_fmap_2|].
    rewrite E. by left.
Qed.

Lemma filter_nodup (P : N -> Prop) `{!forall x, Decision (P x)} l :
  NoDup (node_ID <$> l) -> NoDup (node_ID <$> filter P l).
Proof. intros Hnd. eapply sublist_NoDup; [exact Hnd|]. apply fmap_sublist, sublist_filter. Qed.

Lemma before_cons {A} (x : A) l u v : before l u v -> before (x :: l) u v.
Proof. intros (l1 & l2 & l3 & ->). by exists (x :: l1), l2, l3. Qed.

Lemma before_head {A} (u : A) l v : v ∈ l -> before (u :: l) u v.
Proof. intros (l1 & l2 & ->)%list_elem_of_split. by exists [], l1, l2. Qed.

Lemma kahn_spec g fuel rest l : kahn fuel g rest = Some l -> NoDup (node_ID <$> rest) ->
  l ≡ₚ rest /\
  forall u v, u ∈ rest -> v ∈ rest -> v ∈ arcs_from g (node_ID u) -> before l u v.
Proof.
  revert rest l. induction fuel as [|fuel IH]; intros [|r0 rest0] l E Hnd; cbn [kahn] in E; try done;
    try (simplify_eq; split; [done|]; by intros u v Hu%elem_of_nil).
  set (rest := r0 :: rest0) in *. destruct (List.find (is_source g rest) rest) as [n|] eqn:En; [|done].
  apply List.find_some in En as [Hn%list_elem_of_In Hs].
  destruct (kahn fuel g _) as [l'|] eqn:E'; [|done]. injection E as <-.
  pose proof (remove_node_perm n rest Hnd Hn) as Hp.
  destruct (IH _ _ E') as [Hl Ho]; [by apply filter_nodup|]. split; [by rewrite Hl, <- Hp|].
  intros u v Hu Hv Huv. pose proof (is_source_spec _ _ _ Hs u v Hu Huv) as Hvn.
  assert (v ∈ filter (fun m => node_ID m <> node_ID n) rest) as Hv' by by apply list_elem_of_filter.
  destruct (decide (node_ID u = node_ID n)) as [He|He].
  - assert (u = n) as ->.
    { rewrite Hp in Hu. apply elem_of_cons in Hu as [->|Hu]; [done|]. by apply list_elem_of_filter in Hu as [? _]. }
    apply before_head. by rewrite Hl.
  - apply before_cons, Ho; [by apply list_elem_of_filter|done|done].
Qed.

Lemma least_rank (rank : Z -> nat) (rest : list N) : rest <> [] ->
  exists n, n ∈ rest /\ forall m, m ∈ rest -> (rank (node_ID n) <= rank (node_ID m))%nat.
Proof.
  induction rest as [|x rest IH]; [done|]. intros _. destruct (decide (rest = [])) as [->|Hr].
  - exists x. split; [by left|]. by intros m ->%list_elem_of_singleton.
  - destruct (IH Hr) as (n & Hn & Hm). destruct (decide (rank (node_ID x) <= rank (node_ID n))%nat) as [Hx|Hx].
    + exists x. split; [by left|]. intros m [->|Hin]%elem_of_cons; [done|]. specialize (Hm m Hin). lia.
    + exists n. split; [by right|]. intros m [->|Hin]%elem_of_cons; [lia|auto].
Qed.

Lemma kahn_total g (rank : Z -> nat) fuel rest :
  (length rest <= fuel)%nat -> NoDup (node_ID <$> rest) ->
  (forall u v, u ∈ rest -> v ∈ arcs_from g (node_ID u) -> (rank (node_ID u) < rank (node_ID v))%nat) ->
  exists l, kahn fuel g rest = Some l.
Proof.
  revert rest. induction fuel as [|fuel IH]; intros [|r0 rest0] Hl Hnd Hr;
    [by exists []|simpl in Hl; lia|by exists []|].
  cbn [kahn]. set (rest := r0 :: rest0) in *. destruct (List.find (is_source g rest) rest) as [n|] eqn:En.
  - apply List.find_some in En as [Hn%list_elem_of_In _].
    assert (length rest = S (length (filter (fun m => node_ID m <> node_ID n) rest))) as Hp
      by exact (Permutation_length (remove_node_perm n rest Hnd Hn)).
    change (length rest <= S fuel)%nat in Hl.
    destruct (IH (filter (fun m => node_ID m <> node_ID n) rest)) as [l ->]; [lia|by apply filter_nodup| |by eexists].
    intros u v [_ Hu]%list_elem_of_filter. auto.
  - destruct (least_rank rank rest) as (n & Hn & Hmin); [done|]. exfalso.
    pose proof (List.find_none _ _ En n) as Hx. rewrite <- list_elem_of_In in Hx. specialize (Hx Hn).
    assert (is_source g rest n = true) as Ht; [|congruence].
    apply forallb_forall. intros m Hm%list_elem_of_In. apply forallb_forall. intros v Hv%list_elem_of_In.
    apply negb_true_iff, Z.eqb_neq. intros E. pose proof (Hr m v Hm Hv) as Hlt. rewrite E in Hlt. specialize (Hmin m Hm). lia.
Qed.

(** *** The laws *)

Lemma adjacency_SetEdge u v g : adjacency_ok g -> node_ID u <> node_ID v ->
  find_node (nodes g) (node_ID u) = None \/ find_node (nodes g) (node_ID u) = Some u ->
  find_node (nodes g) (node_ID v) = None \/ find_node (nodes g) (node_ID v) = Some v ->
  let g' := mkAdjacency (set_node v (set_node u (nodes g)))
    (filter (fun e : N * N => ~ (node_ID e.1 = node_ID u /\ node_ID e.2 = node_ID v)) (arcs g) ++ [(u, v)]) in
  adjacency_ok g' /\
  (forall m, m ∈ nodes g' <-> m ∈ nodes g \/ m = u \/ m = v) /\
  (forall e, e ∈ arcs g' <-> e ∈ arcs g \/ e = (u, v)).
Proof.
  intros [Hnd Ha Han] Huv Fu Fv g'.
  assert (forall n, find_node (nodes g) (node_ID n) = None \/ find_node (nodes g) (node_ID n) = Some n ->
            forall m, m ∈ nodes g -> node_ID m = node_ID n -> m = n) as Hfit.
  { intros n [E|E] m Hm He; [by destruct (find_node_None _ _ _ E Hm)|].
    apply (find_node_in _ _ Hnd) in Hm. congruence. }
  assert (forall m, m ∈ nodes g' <-> m ∈ nodes g \/ m = u \/ m = v) as Hn.
  { intros m. simpl. rewrite !set_node_elem. split; [tauto|].
    intros [Hm|[->| ->]]; [|by left; split; [right|]|by right].
    destruct (decide (node_ID m = node_ID v)); [right; eauto|left; split; [|done]].
    destruct (decide (node_ID m = node_ID u)); [right; eauto|by left]. }
  assert (forall e, e ∈ arcs g' <-> e ∈ arcs g \/ e = (u, v)) as He.
  { intros [x y]. simpl. rewrite elem_of_app, list_elem_of_filter, list_elem_of_singleton. simpl. split; [tauto|].
    intros [Hin|]; [|by right].
    destruct (decide (node_ID x = node_ID u /\ node_ID y = node_ID v)) as [[Ex Ey]|]; [right|by left].
    destruct (Ha _ Hin) as [Hx Hy]. f_equal; eauto. }
  split; [|done]. split.
  - by apply set_node_nodup, set_node_nodup.
  - intros e He'%He. rewrite !Hn. destruct He' as [[??]%Ha| ->]; simpl; tauto.
  - simpl. rewrite fmap_app. apply NoDup_app. split_and!.
    + eapply sublist_NoDup; [exact Han|]. apply fmap_sublist, sublist_filter.
    + intros p (e & -> & [Hne _]%list_elem_of_filter)%list_elem_of_fmap Hp%list_elem_of_singleton.
      apply Hne. by simplify_eq/=.
    + apply NoDup_singleton.
Qed.

Lemma arcs_from_nodup g id : adjacency_ok g -> NoDup (node_ID <$> arcs_from g id).
Proof.
  intros [_ _ Hnd]. unfold arcs_from. revert Hnd. induction (arcs g) as [|[x y] l IH]; [constructor|].
  rewrite fmap_cons. intros [Hx Hnd]%NoDup_cons. destruct (decide (node_ID x = id)) as [Hid|Hid].
  - rewrite filter_cons_True by done. rewrite !fmap_cons. apply NoDup_cons. split; [|auto].
    intros (v & Hv & ([u w] & -> & [Hu Hin]%list_elem_of_filter)%list_elem_of_fmap)%list_elem_of_fmap.
    apply Hx. apply list_elem_of_fmap. exists (u, w). simpl in *. by rewrite Hv, Hu, Hid.
  - rewrite filter_cons_False by done. auto.
Qed.

Lemma adjacency_laws : @DirectedGraphLaws N _ adjacency_graph.
Proof.
  refine (@Build_DirectedGraphLaws N _ adjacency_graph adjacency_ok _ _ _ _ _ _ _ _ _ _ _ _ _ _); simpl.
  - split; simpl; [constructor| |constructor]. by intros e He%elem_of_nil.
  - done.
  - done.
  - by intros g id n _ [_ ?]%find_node_Some.
  - intros g id v [Hnd Ha _] (u & [Hu Hv]%Ha & <-)%elem_of_arcs_from. simpl in *.
    split; [eexists|]; by apply find_node_in.
  - intros g id. apply arcs_from_nodup.
  - intros n g [Hnd Ha Han] E. rewrite E. eexists. split; [done|]. simpl. split_and!; [split; simpl|..].
    + rewrite fmap_app. apply NoDup_app. split_and!; [done| |apply NoDup_singleton].
      intros x (m & -> & Hm)%list_elem_of_fmap Hx%list_elem_of_singleton.
      by destruct (find_node_None _ _ _ E Hm).
    + intros e [??]%Ha. by rewrite !elem_of_app; tauto.
    + done.
    + intros id. assert (NoDup (node_ID <$> nodes g ++ [n])) as Hnd'.
      { rewrite fmap_app. apply NoDup_app. split_and!; [done| |apply NoDup_singleton].
        intros x (m & -> & Hm)%list_elem_of_fmap Hx%list_elem_of_singleton. by destruct (find_node_None _ _ _ E Hm). }
      case_decide as Hd; [subst; apply find_node_in; [done|]; apply elem_of_app; right; by left|].
      destruct (find_node (nodes g) id) as [m|] eqn:Em.
      * apply find_node_Some in Em as [Hm <-]. apply find_node_in; [done|]. apply elem_of_app. by left.
      * destruct (find_node (nodes g ++ [n]) id) as [m|] eqn:Em'; [|done].
        apply find_node_Some in Em' as [[Hm|Hm%list_elem_of_singleton]%elem_of_app <-]; [|congruence].
        by destruct (find_node_None _ _ _ Em Hm).
    + done.
  - intros u v g Hok Huv Fu Fv. rewrite (proj2 (Z.eqb_neq _ _) Huv). eexists. split; [done|].
    destruct (adjacency_SetEdge u v g Hok Huv Fu Fv) as (Hok' & Hn & He). split; [done|]. split.
    + intros id. simpl in *. pose proof (ok_nodup _ Hok') as Hnd. simpl in Hnd.
      case_decide; [subst; apply find_node_in; [done|]; apply Hn; tauto|].
      case_decide; [subst; apply find_node_in; [done|]; apply Hn; tauto|].
      destruct (find_node (nodes g) id) as [m|] eqn:Em.
      * apply find_node_Some in Em as [Hm <-]. apply find_node_in; [done|]. apply Hn. by left.
      * destruct (find_node (set_node _ _) id) as [m|] eqn:Em'; [|done].
        apply find_node_Some in Em' as [Hm <-]. apply Hn in Hm as [Hm|[->| ->]]; [|done..].
        by destruct (find_node_None _ _ _ Em Hm).
    + intros id x. rewrite !elem_of_arcs_from. split.
      * intros (w & [Hw|Hw]%He & <-); [left; eauto|]. simplify_eq. by right.
      * intros [(w & Hw & <-)|[-> ->]]; eexists; (split; [apply He|]); eauto.
  - intros u v g E. by rewrite (proj2 (Z.eqb_eq _ _) E).
  - intros g l [Hnd _ _] E n. destruct (kahn_spec _ _ _ _ E Hnd) as [-> _]. by rewrite find_node_in.
  - intros g l [Hnd _ _] E. destruct (kahn_spec _ _ _ _ E Hnd) as [-> _]. by apply NoDup_fmap_1 in Hnd.
  - intros g l u v [Hnd Ha _] E Hu Hv. destruct (kahn_spec _ _ _ _ E Hnd) as [_ Ho].
    apply find_node_in in Hu; [|done]. apply Ho; [done| |done].
    by apply elem_of_arcs_from in Hv as (w & [_ ?]%Ha & _).
  - intros g [Hnd Ha _] [rank Hr]. apply (kahn_total g rank); [done..|].
    intros u v Hu Hv. eapply Hr; [|exact Hv]. simpl. by apply find_node_in.
  - by intros g c _ Hc%elem_of_nil.
Qed.
End instance.
