(* ===== verification/Graph.v ===== *)
(** * Graph: the pipeline graph

    Models service/internal/graph (graph.go and the nodes of receiver.go, processor.go,
    exporter.go, connector.go, capabilities.go and fanout.go),
    service/internal/attribute/attribute.go and the parts of service/internal/builders it
    asks: how a configuration becomes a graph of components, in which order they are
    built, started and stopped, and which consumers they are given.

    A Go map that is ranged over is a list in the order of the iteration, which is any.
    The graph is the interface of Digraph.  A computation returns [None] when the code
    panics. *)

From Stdlib Require Import Ascii.
From S2P Require Import Prelude.
From S2P Require Import GoErrors.
From S2P Require Import Ids.
From S2P Require Import Digraph.
From S2P Require Import Consumers.
From S2P Require Import Status.

(** ** Computations that return an error or panic *)

Definition result (A : Type) : Type := option (A + error).
Definition ok {A} (a : A) : result A := Some (inl a).
Definition fails {A} (e : error) : result A := Some (inr e).
Definition rbind {A B} (m : result A) (f : A -> result B) : result B :=
  match m with
  | Some (inl a) => f a
  | Some (inr e) => Some (inr e)
  | None => None
  end.
Definition must {A} (o : option A) : result A := match o with Some a => ok a | None => None end.

Fixpoint foldM {A B} (f : A -> B -> result A) (l : list B) (a : A) : result A :=
  match l with
  | [] => ok a
  | b :: l => rbind (f a b) (foldM f l)
  end.

Declare Scope result_scope.
Delimit Scope result_scope with result.
Notation "x <- m ;; f" := (rbind m (fun x => f)) (at level 100, m at next level, right associativity) : result_scope.
#[local] Open Scope result_scope.

(** ** Nodes *)

Inductive node :=
| receiverNode (pipelineType : Signal) (componentID : ID)
| processorNode (pipeline : pipelineID) (componentID : ID)
| exporterNode (pipelineType : Signal) (componentID : ID)
| connectorNode (exprPipelineType rcvrPipelineType : Signal) (componentID : ID)
| capabilitiesNode (pipeline : pipelineID)
| fanOutNode (pipeline : pipelineID).

#[export] Instance node_eq_dec : EqDecision node.
Proof. solve_decision. Defined.

(** internal/telemetry: the keys of the attributes. *)
Definition ComponentKindKey := "otelcol.component.kind".
Definition ComponentIDKey := "otelcol.component.id".
Definition PipelineIDKey := "otelcol.pipeline.id".
Definition SignalKey := "otelcol.signal".
Definition SignalOutputKey := "otelcol.signal.output".

(** The functions of attribute.go, by the node they are for. *)
Definition node_attributes (n : node) : list (string * string) :=
  match n with
  | receiverNode s id =>
      [(ComponentKindKey, "receiver"); (SignalKey, Signal_String s); (ComponentIDKey, ID_String id)]
  | processorNode p id =>
      [(ComponentKindKey, "processor"); (SignalKey, Signal_String (signal p));
       (PipelineIDKey, pipelineID_String p); (ComponentIDKey, ID_String id)]
  | exporterNode s id =>
      [(ComponentKindKey, "exporter"); (SignalKey, Signal_String s); (ComponentIDKey, ID_String id)]
  | connectorNode e r id =>
      [(ComponentKindKey, "connector"); (SignalKey, Signal_String e); (SignalOutputKey, Signal_String r);
       (ComponentIDKey, ID_String id)]
  | capabilitiesNode p => [(ComponentKindKey, "capabilities"); (PipelineIDKey, pipelineID_String p)]
  | fanOutNode p => [(ComponentKindKey, "fanout"); (PipelineIDKey, pipelineID_String p)]
  end.

(** hash/fnv: New64a, Write and Sum64; the product is modulo 2^64. *)
Definition fnv_offset64 : Z := 14695981039346656037.
Definition fnv_prime64 : Z := 1099511628211.
Fixpoint fnv_Write (h : Z) (s : string) : Z :=
  match s with
  | EmptyString => h
  | String c s => fnv_Write (Z.land (fnv_prime64 * Z.lxor h (byte_of c)) 18446744073709551615) s
  end.

(** newAttributes: the identifier of a node. *)
Definition attributes_id (attrs : list (string * string)) : Z :=
  i64 (foldl (fun h kv => fnv_Write h ("(" +:+ kv.1 +:+ "|" +:+ kv.2 +:+ ")")) fnv_offset64 attrs).

#[export] Instance node_HasID : HasID node := fun n => attributes_id (node_attributes n).

(** component.Component: the nodes that are components. *)
Definition is_component (n : node) : bool :=
  match n with capabilitiesNode _ | fanOutNode _ => false | _ => true end.

(** ** Configuration, factories and builders *)

Record PipelineConfig := mkPipelineConfig { Receivers : list ID; Processors : list ID; Exporters : list ID }.

Definition StabilityLevelUndefined : Z := 0.

(** connector.Factory: the stability of the pairs of core signals, and, if the factory is
    an xconnector.Factory, of the pairs with profiles. *)
Record Factory := mkFactory { coreStability : Signal -> Signal -> Z; xStability : option (Signal -> Signal -> Z) }.

Definition connectorStability (f : Factory) (expType recType : Signal) : Z :=
  match expType with
  | SignalProfiles =>
      match xStability f with None => StabilityLevelUndefined | Some x => x SignalProfiles recType end
  | _ =>
      match recType with
      | SignalProfiles =>
          match xStability f with None => StabilityLevelUndefined | Some x => x expType SignalProfiles end
      | _ => coreStability f expType recType
      end
  end.

(** What a factory makes of a node: how the component treats its data, and whether it
    keeps a reference; or the error of the factory or of the telemetry builder. *)
Record component := mkComponent { how : behaviour; async : bool }.

Record Settings := mkSettings {
  PipelineConfigs : list (pipelineID * PipelineConfig);
  IsConfigured : ID -> bool;
  ConnectorFactory : Type_ -> option Factory;
  Create : node -> component + error;
  newPipelineTelemetry : bool;
}.

(** ** The graph *)

(** componentstatus.InstanceID, with the pipelines as a list. *)
Inductive Kind := KindReceiver | KindProcessor | KindExporter | KindConnector.
Record InstanceID := mkInstanceID { inst_component : ID; inst_kind : Kind; inst_pipelines : list pipelineID }.

Definition NewInstanceID (c : ID) (k : Kind) (ps : list pipelineID) : InstanceID := mkInstanceID c k (remove_dups ps).
Definition WithPipelines (i : InstanceID) (ps : list pipelineID) : InstanceID :=
  mkInstanceID (inst_component i) (inst_kind i) (remove_dups (inst_pipelines i ++ ps)).

(** The nodes of a pipeline; [receivers] and [exporters] are maps from the identifier. *)
Record pipelineNodes := mkPipelineNodes {
  receivers : gmap Z node;
  capabilities : option node;
  processors : list node;
  fanOut : option node;
  exporters : gmap Z node;
}.

Definition newPipelineNodes : pipelineNodes := mkPipelineNodes ∅ None [] None ∅.
Definition add_receiver (n : node) (p : pipelineNodes) : pipelineNodes :=
  mkPipelineNodes (<[node_ID n := n]> (receivers p)) (capabilities p) (processors p) (fanOut p) (exporters p).
Definition set_capabilities (n : node) (p : pipelineNodes) : pipelineNodes :=
  mkPipelineNodes (receivers p) (Some n) (processors p) (fanOut p) (exporters p).
Definition add_processor (n : node) (p : pipelineNodes) : pipelineNodes :=
  mkPipelineNodes (receivers p) (capabilities p) (processors p ++ [n]) (fanOut p) (exporters p).
Definition set_fanOut (n : node) (p : pipelineNodes) : pipelineNodes :=
  mkPipelineNodes (receivers p) (capabilities p) (processors p) (Some n) (exporters p).
Definition add_exporter (n : node) (p : pipelineNodes) : pipelineNodes :=
  mkPipelineNodes (receivers p) (capabilities p) (processors p) (fanOut p) (<[node_ID n := n]> (exporters p)).

#[export] Instance pipelineID_countable : Countable pipelineID.
Proof.
  refine (inj_countable'
    (fun p => (match signal p with SignalProfiles => 0 | SignalTraces => 1 | SignalMetrics => 2 | SignalLogs => 3 end, pipeline_name p))
    (fun x => mkPipelineID (if decide (x.1 = 0) then SignalProfiles else if decide (x.1 = 1) then SignalTraces
                            else if decide (x.1 = 2) then SignalMetrics else SignalLogs) x.2) _).
  by intros [[] ?].
Defined.

#[export] Instance ID_countable : Countable ID.
Proof.
  refine (inj_countable' (fun i => (type_name (typeVal i), nameVal i)) (fun x => mkID (mkType x.1) x.2) _).
  by intros [[] ?].
Defined.

#[export] Instance Signal_countable : Countable Signal.
Proof.
  refine (inj_countable'
    (fun s => match s with SignalProfiles => 0 | SignalTraces => 1 | SignalMetrics => 2 | SignalLogs => 3 end)
    (fun x => if decide (x = 0) then SignalProfiles else if decide (x = 1) then SignalTraces
              else if decide (x = 2) then SignalMetrics else SignalLogs) _).
  by intros [].
Defined.

Section graph.
Context {DG : DirectedGraph node}.

Record Graph := mkGraph {
  componentGraph : digraph;
  pipelines : gmap pipelineID pipelineNodes;
  instanceIDs : gmap Z InstanceID;
}.

Definition set_componentGraph (cg : digraph) (g : Graph) : Graph := mkGraph cg (pipelines g) (instanceIDs g).
Definition alter_pipeline (p : pipelineID) (f : pipelineNodes -> pipelineNodes) (g : Graph) : Graph :=
  mkGraph (componentGraph g) (alter f p (pipelines g)) (instanceIDs g).
Definition set_instance (id : Z) (i : InstanceID) (g : Graph) : Graph :=
  mkGraph (componentGraph g) (pipelines g) (<[id := i]> (instanceIDs g)).

(** *** createNodes *)

(** createReceiver, createExporter and createConnector: the node if it is new, or the one
    with its identifier, which must be of the same kind. *)
Definition createShared (n : node) (same_kind : node -> bool) (c : ID) (k : Kind) (ps : list pipelineID) (g : Graph) :
    result (Graph * node) :=
  match Node (componentGraph g) (node_ID n) with
  | Some m =>
      i <- must (instanceIDs g !! node_ID n);;
      if same_kind m then ok (set_instance (node_ID n) (WithPipelines i ps) g, m) else None
  | None =>
      cg <- must (AddNode n (componentGraph g));;
      ok (set_instance (node_ID n) (NewInstanceID c k ps) (set_componentGraph cg g), n)
  end.

Definition createReceiver (p : pipelineID) (recvID : ID) (g : Graph) : result (Graph * node) :=
  createShared (receiverNode (signal p) recvID)
    (fun m => match m with receiverNode _ _ => true | _ => false end) recvID KindReceiver [p] g.

Definition createProcessor (p : pipelineID) (procID : ID) (g : Graph) : result (Graph * node) :=
  let procNode := processorNode p procID in
  cg <- must (AddNode procNode (componentGraph g));;
  ok (set_instance (node_ID procNode) (NewInstanceID procID KindProcessor [p]) (set_componentGraph cg g), procNode).

Definition createExporter (p : pipelineID) (exprID : ID) (g : Graph) : result (Graph * node) :=
  createShared (exporterNode (signal p) exprID)
    (fun m => match m with exporterNode _ _ => true | _ => false end) exprID KindExporter [p] g.

Definition createConnector (exprPipelineID rcvrPipelineID : pipelineID) (connID : ID) (g : Graph) : result (Graph * node) :=
  createShared (connectorNode (signal exprPipelineID) (signal rcvrPipelineID) connID)
    (fun m => match m with connectorNode _ _ _ => true | _ => false end) connID KindConnector
    [exprPipelineID; rcvrPipelineID] g.

(** The graph and where the connectors are used. *)
Record usage := mkUsage {
  u_graph : Graph;
  connectors : list ID;
  connectorsAsExporter : gmap ID (list pipelineID);
  connectorsAsReceiver : gmap ID (list pipelineID);
}.

Definition uses (m : gmap ID (list pipelineID)) (c : ID) : list pipelineID := default [] (m !! c).
Definition add_connector (c : ID) (l : list ID) : list ID := if decide (c ∈ l) then l else l ++ [c].

Section settings.
Context (set : Settings).

Definition addReceiver (p : pipelineID) (u : usage) (recvID : ID) : result usage :=
  if IsConfigured set recvID then
    ok (mkUsage (u_graph u) (add_connector recvID (connectors u)) (connectorsAsExporter u)
          (<[recvID := uses (connectorsAsReceiver u) recvID ++ [p]]> (connectorsAsReceiver u)))
  else
    gn <- createReceiver p recvID (u_graph u);;
    ok (mkUsage (alter_pipeline p (add_receiver gn.2) gn.1) (connectors u) (connectorsAsExporter u) (connectorsAsReceiver u)).

Definition addProcessor (p : pipelineID) (u : usage) (procID : ID) : result usage :=
  gn <- createProcessor p procID (u_graph u);;
  ok (mkUsage (alter_pipeline p (add_processor gn.2) gn.1) (connectors u) (connectorsAsExporter u) (connectorsAsReceiver u)).

Definition addExporter (p : pipelineID) (u : usage) (exprID : ID) : result usage :=
  if IsConfigured set exprID then
    ok (mkUsage (u_graph u) (add_connector exprID (connectors u))
          (<[exprID := uses (connectorsAsExporter u) exprID ++ [p]]> (connectorsAsExporter u)) (connectorsAsReceiver u))
  else
    gn <- createExporter p exprID (u_graph u);;
    ok (mkUsage (alter_pipeline p (add_exporter gn.2) gn.1) (connectors u) (connectorsAsExporter u) (connectorsAsReceiver u)).

Definition with_graph (f : Graph -> Graph) (u : usage) : usage :=
  mkUsage (f (u_graph u)) (connectors u) (connectorsAsExporter u) (connectorsAsReceiver u).

Definition addPipeline (u : usage) (pc : pipelineID * PipelineConfig) : result usage :=
  let '(p, cfg) := pc in
  u <- foldM (addReceiver p) (Receivers cfg) u;;
  let u := with_graph (alter_pipeline p (set_capabilities (capabilitiesNode p))) u in
  u <- foldM (addProcessor p) (Processors cfg) u;;
  let u := with_graph (alter_pipeline p (set_fanOut (fanOutNode p))) u in
  foldM (addExporter p) (Exporters cfg) u.

Definition errNoConnectorFactory : error := ErrNew "connector factory not available for".
Definition errConnectorAsExporter : error :=
  ErrNew "connector used as exporter in pipeline but not used in any supported receiver pipeline".
Definition errConnectorAsReceiver : error :=
  ErrNew "connector used as receiver in pipeline but not used in any supported exporter pipeline".

Definition supported (f : Factory) (e r : Signal) : bool := negb (connectorStability f e r =? StabilityLevelUndefined).

(** expTypes and recTypes: the signals of the uses, first with false. *)
Definition signal_types (ps : list pipelineID) : gmap Signal bool :=
  foldl (fun m p => <[signal p := false]> m) ∅ ps.

(** The double loop that sets the supported uses. *)
Definition mark_supported (f : Factory) (exps recs : list Signal) (m : gmap Signal bool * gmap Signal bool) :
    gmap Signal bool * gmap Signal bool :=
  foldl (fun m e =>
    foldl (fun m r => if supported f e r then (<[e := true]> m.1, <[r := true]> m.2) else m) m recs) m exps.

Definition unsupported (m : gmap Signal bool) : bool := existsb (fun x => negb x.2) (map_to_list m).

Definition addConnector (u : usage) (g : Graph) (connID : ID) : result Graph :=
  match ConnectorFactory set (typeVal connID) with
  | None => fails errNoConnectorFactory
  | Some f =>
      let es := uses (connectorsAsExporter u) connID in
      let rs := uses (connectorsAsReceiver u) connID in
      let expTypes := signal_types es in
      let recTypes := signal_types rs in
      let '(expTypes, recTypes) :=
        mark_supported f (map_to_list expTypes).*1 (map_to_list recTypes).*1 (expTypes, recTypes) in
      if unsupported expTypes then fails errConnectorAsExporter
      else if unsupported recTypes then fails errConnectorAsReceiver
      else
        foldM (fun g e =>
          foldM (fun g r =>
            if supported f (signal e) (signal r) then
              gn <- createConnector e r connID g;;
              ok (alter_pipeline r (add_receiver gn.2) (alter_pipeline e (add_exporter gn.2) gn.1))
            else ok g) rs g) es g
  end.

Definition createNodes (g : Graph) : result Graph :=
  u <- foldM addPipeline (PipelineConfigs set) (mkUsage g [] ∅ ∅);;
  foldM (addConnector u) (connectors u) (u_graph u).

(** *** createEdges *)

Definition addEdge (cg : digraph) (uv : node * node) : result digraph := must (SetEdge uv.1 uv.2 cg).

(** The edges of a pipeline in the order they are set. *)
Definition chain (from : node) (ps : list node) (to : node) : list (node * node) := zip (from :: ps) (ps ++ [to]).

Definition pipelineEdges (pg : pipelineNodes) : option (list (node * node)) :=
  match capabilities pg, fanOut pg with
  | Some c, Some f =>
      Some (((fun x => (x.2, c)) <$> map_to_list (receivers pg)) ++ chain c (processors pg) f ++
            ((fun x => (f, x.2)) <$> map_to_list (exporters pg)))
  | _, _ => None
  end.

Definition createEdges (g : Graph) : result Graph :=
  cg <- foldM (fun cg (x : pipelineID * pipelineNodes) => es <- must (pipelineEdges x.2);; foldM addEdge es cg)
          (map_to_list (pipelines g)) (componentGraph g);;
  ok (set_componentGraph cg g).

(** *** buildComponents *)

(** What getConsumer returns for a node: its consumer, the signal of the consumer
    interface it implements, and the pipeline if it is a capabilities node. *)
Record baseConsumer := mkBaseConsumer { cons : consumer; cons_signal : Signal; cons_pipeline : option pipelineID }.

(** The consumers of the nodes built so far, and the consumers that receivers and
    connectors were created with. *)
Record built := mkBuilt { consumers : gmap Z baseConsumer; feeds : gmap Z consumer }.

Definition set_consumer (id : Z) (c : baseConsumer) (b : built) : built := mkBuilt (<[id := c]> (consumers b)) (feeds b).
Definition set_feed (id : Z) (c : consumer) (b : built) : built := mkBuilt (consumers b) (<[id := c]> (feeds b)).

(** nextConsumers, with a nil consumer for a node that is not built. *)
Definition nextConsumers (g : Graph) (b : built) (id : Z) : list (option baseConsumer) :=
  (fun n => consumers b !! node_ID n) <$> From (componentGraph g) id.

(** The type assertion next.(consumer.Traces). *)
Definition asSignal (s : Signal) (c : option baseConsumer) : option consumer :=
  match c with
  | Some c => if decide (cons_signal c = s) then Some (cons c) else None
  | None => None
  end.

(** The assertion next.(capabilitiesNode), then that of the signal. *)
Definition asCapabilities (s : Signal) (c : option baseConsumer) : option (pipelineID * consumer) :=
  match c with
  | Some c' => match cons_pipeline c' with Some p => pair p <$> asSignal s c | None => None end
  | None => None
  end.

(** aggregateCap *)
Definition aggregateCap (base : consumer) (nexts : list consumer) : bool :=
  Capabilities base || existsb Capabilities nexts.

Definition buildReceiver (n : node) (s : Signal) (nexts : list (option baseConsumer)) (b : built) : result built :=
  consumers <- must (mapM (asSignal s) nexts);;
  match Create set n with
  | inr err => fails (ErrWrap "failed to create receiver" err)
  | inl _ => ok (set_feed (node_ID n) (NewObs (newPipelineTelemetry set) (NewFanout consumers)) b)
  end.

Definition buildProcessor (n : node) (s : Signal) (next : option baseConsumer) (b : built) : result built :=
  next <- must (asSignal s next);;
  match Create set n with
  | inr err => fails (ErrWrap "failed to create processor" err)
  | inl c =>
      let t := newPipelineTelemetry set in
      let comp := processor (node_ID n) (how c) (NewObs t next) in
      ok (set_consumer (node_ID n) (mkBaseConsumer (NewRef (NewObs t comp)) s None) b)
  end.

Definition buildExporter (n : node) (s : Signal) (b : built) : result built :=
  match Create set n with
  | inr err => fails (ErrWrap "failed to create exporter" err)
  | inl c =>
      let comp := exporter (node_ID n) (how c) (async c) in
      ok (set_consumer (node_ID n) (mkBaseConsumer (NewRef (NewObs (newPipelineTelemetry set) comp)) s None) b)
  end.

(** buildTraces, buildMetrics, buildLogs and buildProfiles of a connector.  A connector
    between pipelines of one signal may pass its data along; the data of another signal
    ends in it.  [consumers] is the map of the router, in the order of its iteration. *)
Definition buildConnector (n : node) (e r : Signal) (nexts : list (option baseConsumer)) (b : built) : result built :=
  nexts <- must (mapM (asCapabilities r) nexts);;
  let t := newPipelineTelemetry set in
  let consumers := NewObs t <$> (map_to_list (list_to_map nexts : gmap pipelineID consumer)).*2 in
  let next := NewFanout consumers in
  match Create set n with
  | inr err => fails err
  | inl c =>
      let i := node_ID n in
      let cons :=
        if decide (e = r) then
          let comp := processor i (how c) next in
          NewRef (NewObs t (NewCapabilities comp (aggregateCap comp nexts.*2)))
        else NewRef (NewObs t (exporter i (how c) (async c))) in
      ok (set_consumer (node_ID n) (mkBaseConsumer cons e None) (set_feed (node_ID n) next b))
  end.

Definition buildCapabilities (g : Graph) (n : node) (p : pipelineID) (nexts : list (option baseConsumer)) (b : built) :
    result built :=
  pg <- must (pipelines g !! p);;
  f <- must (fanOut pg ≫= fun f => consumers b !! node_ID f);;
  procs <- must (mapM (fun x => consumers b !! node_ID x) (processors pg));;
  let capability := Capabilities (cons f) || existsb (fun c => Capabilities (cons c)) procs in
  next <- must (match nexts with next :: _ => asSignal (signal p) next | [] => None end);;
  ok (set_consumer (node_ID n) (mkBaseConsumer (NewCapabilities next capability) (signal p) (Some p)) b).

Definition buildFanOut (n : node) (p : pipelineID) (nexts : list (option baseConsumer)) (b : built) : result built :=
  consumers <- must (mapM (asSignal (signal p)) nexts);;
  ok (set_consumer (node_ID n) (mkBaseConsumer (NewFanout consumers) (signal p) None) b).

Definition buildNode (g : Graph) (b : built) (n : node) : result built :=
  let nexts := nextConsumers g b (node_ID n) in
  match n with
  | receiverNode s _ => buildReceiver n s nexts b
  | processorNode p _ => match nexts with next :: _ => buildProcessor n (signal p) next b | [] => None end
  | exporterNode s _ => buildExporter n s b
  | connectorNode e r _ => buildConnector n e r nexts b
  | capabilitiesNode p => buildCapabilities g n p nexts b
  | fanOutNode p => buildFanOut n p nexts b
  end.

(** cycleErr *)
Definition errCycle (cycle : list node) : error := ErrNew "cycle detected".
Definition errUnorderable : error := ErrNew "no topological ordering".

Definition is_connector (n : node) : bool := match n with connectorNode _ _ _ => true | _ => false end.

Definition rotate_to_connector (cycle : list node) : list node :=
  match list_find (fun n => is_connector n = true) cycle with
  | Some (i, _) => drop i cycle ++ take i cycle
  | None => cycle
  end.

Definition cycleErr (cycles : list (list node)) : result error :=
  match cycles with
  | [] | [] :: _ => ok errUnorderable
  | cycle :: _ =>
      let cycle := rotate_to_connector (take (length cycle - 1) cycle) in
      match cycle with [] => None | n :: _ => ok (errCycle (cycle ++ [n])) end
  end.

Definition buildComponents (g : Graph) : result built :=
  match Sort (componentGraph g) with
  | None => err <- cycleErr (DirectedCyclesIn (componentGraph g));; fails err
  | Some nodes => foldM (buildNode g) (reverse nodes) (mkBuilt ∅ ∅)
  end.

Definition newGraph : Graph :=
  mkGraph NewDirectedGraph (list_to_map ((fun pc => (pc.1, newPipelineNodes)) <$> PipelineConfigs set)) ∅.

Definition Build : result (Graph * built) :=
  g <- createNodes newGraph;;
  g <- createEdges g;;
  b <- buildComponents g;;
  ok (g, b).
End settings.
End graph.
