(* ===== verification/GraphNodes.v ===== *)
(** * GraphNodes: the nodes createNodes makes

    createNodes walks through the pipelines and then through the connectors.  Its result is
    described by lists that grow with it: the nodes of the graph, and which of them are
    receivers, processors and exporters of which pipeline; the second part is about
    connectors. *)

From S2P Require Import Prelude.
From S2P Require Import GoErrors.
From S2P Require Import Ids.
From S2P Require Import Digraph.
From S2P Require Import Consumers.
From S2P Require Import Graph.

(** ** Folds of computations *)

Lemma foldM_app {A B} (f : A -> B -> result A) l k a :
  foldM f (l ++ k) a = rbind (foldM f l a) (foldM f k).
Proof.
  revert a. induction l as [|b l IH]; intros a; [done|]. simpl. destruct (f a b) as [[a'|e]|]; [apply IH|done..].
Qed.

(** An invariant of the part of the list that was visited. *)
Lemma foldM_inv {A B} (f : A -> B -> result A) (I : list B -> A -> Prop) l a :
  I [] a ->
  (forall k b r a, l = k ++ b :: r -> I k a -> exists a', f a b = ok a' /\ I (k ++ [b]) a') ->
  exists a', foldM f l a = ok a' /\ I l a'.
Proof.
  intros H0 Hstep. enough (forall k r a, l = k ++ r -> I k a -> exists a', foldM f r a = ok a' /\ I l a') as He
    by by apply (He [] l).
  clear H0 a. intros k r. revert k. induction r as [|b r IH]; intros k a Hl Hk.
  - exists a. rewrite app_nil_r in Hl. by subst.
  - destruct (Hstep k b r a Hl Hk) as (a' & E & Hk'). simpl. rewrite E. simpl.
    apply (IH (k ++ [b])); [by rewrite <- app_assoc|done].
Qed.

(** The same for a function that may return an error. *)
Lemma foldM_inv_err {A B} (f : A -> B -> result A) (I : list B -> A -> Prop) (Q : error -> Prop) l a :
  I [] a ->
  (forall k b r a, l = k ++ b :: r -> I k a ->
     (exists a', f a b = ok a' /\ I (k ++ [b]) a') \/ (exists e, f a b = fails e /\ Q e)) ->
  (exists a', foldM f l a = ok a' /\ I l a') \/ (exists e, foldM f l a = fails e /\ Q e).
Proof.
  intros H0 Hstep. enough (forall k r a, l = k ++ r -> I k a ->
    (exists a', foldM f r a = ok a' /\ I l a') \/ (exists e, foldM f r a = fails e /\ Q e)) as He
    by by apply (He [] l).
  clear H0 a. intros k r. revert k. induction r as [|b r IH]; intros k a Hl Hk.
  - left. exists a. rewrite app_nil_r in Hl. by subst.
  - simpl. destruct (Hstep k b r a Hl Hk) as [(a' & E & Hk')|(e & E & He)]; rewrite E; simpl; [|right; by exists e].
    apply (IH (k ++ [b])); [by rewrite <- app_assoc|done].
Qed.

Lemma lookup_alter_pipelines {A} (f : A -> A) p q (m : gmap pipelineID A) :
  alter f p m !! q = if decide (p = q) then f <$> m !! q else m !! q.
Proof. case_decide as E; [subst; apply lookup_alter_eq|by apply lookup_alter_ne]. Qed.

(** ** The nodes of a configuration *)

Section nodes.
Context {DG : DirectedGraph node} {DGL : DirectedGraphLaws node} (set : Settings).

Definition plain (l : list ID) : list ID := filter (fun c => IsConfigured set c = false) l.
Definition connected (l : list ID) : list ID := filter (fun c => IsConfigured set c = true) l.

Definition receiver_nodes (pc : pipelineID * PipelineConfig) : list node := receiverNode (signal pc.1) <$> plain (Receivers pc.2).
Definition processor_nodes (pc : pipelineID * PipelineConfig) : list node := processorNode pc.1 <$> Processors pc.2.
Definition exporter_nodes (pc : pipelineID * PipelineConfig) : list node := exporterNode (signal pc.1) <$> plain (Exporters pc.2).

(** The pipelines in which a connector is an exporter, and a receiver. *)
Definition exporter_uses (c : ID) (pcs : list (pipelineID * PipelineConfig)) : list pipelineID :=
  pcs ≫= fun pc => (fun _ => pc.1) <$> filter (fun x => x = c) (connected (Exporters pc.2)).
Definition receiver_uses (c : ID) (pcs : list (pipelineID * PipelineConfig)) : list pipelineID :=
  pcs ≫= fun pc => (fun _ => pc.1) <$> filter (fun x => x = c) (connected (Receivers pc.2)).

Definition connector_pairs (c : ID) (pcs : list (pipelineID * PipelineConfig)) : list (pipelineID * pipelineID) :=
  match ConnectorFactory set (typeVal c) with
  | None => []
  | Some f =>
      exporter_uses c pcs ≫= fun e => pair e <$> filter (fun r => supported f (signal e) (signal r) = true) (receiver_uses c pcs)
  end.

Definition pair_node (c : ID) (er : pipelineID * pipelineID) : node := connectorNode (signal er.1) (signal er.2) c.

(** What the graph holds: its nodes, the receivers, processors and exporters of the
    pipelines, and the pipelines whose own nodes were made. *)
Record view := mkView {
  v_nodes : list node;
  v_receivers : list (pipelineID * node);
  v_processors : list (pipelineID * node);
  v_exporters : list (pipelineID * node);
  v_capabilities : list pipelineID;
  v_fanOuts : list pipelineID;
}.

Definition of_pipeline (p : pipelineID) (l : list (pipelineID * node)) : list node := (filter (fun x => x.1 = p) l).*2.

(** The nodes that may occur have different identifiers. *)
Context (U : list node) (HU : forall n m, n ∈ U -> m ∈ U -> node_ID n = node_ID m -> n = m).

(** The nodes of a pipeline, and of a connector. *)
Definition pipeline_nodes (pc : pipelineID * PipelineConfig) : list node :=
  receiver_nodes pc ++ [capabilitiesNode pc.1] ++ processor_nodes pc ++ [fanOutNode pc.1] ++ exporter_nodes pc.
Definition used_connectors (pcs : list (pipelineID * PipelineConfig)) : list ID :=
  pcs ≫= fun pc => connected (Receivers pc.2) ++ connected (Exporters pc.2).
Definition connector_nodes (pcs : list (pipelineID * PipelineConfig)) (c : ID) : list node :=
  pair_node c <$> connector_pairs c pcs.

Record agrees (v : view) (g : Graph) : Prop := {
  ag_ok : graph_ok (componentGraph g);
  ag_nodes : forall n, Node (componentGraph g) (node_ID n) = Some n <-> n ∈ v_nodes v;
  ag_U : v_nodes v ⊆ U;
  ag_edges : forall id, From (componentGraph g) id = [];
  ag_instances : forall n, n ∈ v_nodes v -> is_Some (instanceIDs g !! node_ID n);
  ag_receivers : forall p pg, pipelines g !! p = Some pg ->
    forall id n, receivers pg !! id = Some n <-> id = node_ID n /\ (p, n) ∈ v_receivers v;
  ag_processors : forall p pg, pipelines g !! p = Some pg -> processors pg = of_pipeline p (v_processors v);
  ag_exporters : forall p pg, pipelines g !! p = Some pg ->
    forall id n, exporters pg !! id = Some n <-> id = node_ID n /\ (p, n) ∈ v_exporters v;
  ag_capabilities : forall p pg, pipelines g !! p = Some pg ->
    capabilities pg = if decide (p ∈ v_capabilities v) then Some (capabilitiesNode p) else None;
  ag_fanOuts : forall p pg, pipelines g !! p = Some pg ->
    fanOut pg = if decide (p ∈ v_fanOuts v) then Some (fanOutNode p) else None;
  ag_linked : forall p n, (p, n) ∈ v_receivers v \/ (p, n) ∈ v_exporters v -> n ∈ v_nodes v;
}.

Lemma agrees_node v g id n : agrees v g -> Node (componentGraph g) id = Some n -> n ∈ v_nodes v /\ id = node_ID n.
Proof. intros Hag E. pose proof (Node_ID _ _ _ (ag_ok _ _ Hag) E) as ->. split; [by apply (ag_nodes _ _ Hag)|done]. Qed.

(** *** One node more *)

Definition add_node (n : node) (v : view) : view :=
  mkView (v_nodes v ++ [n]) (v_receivers v) (v_processors v) (v_exporters v) (v_capabilities v) (v_fanOuts v).

Lemma agrees_ext v w g : agrees v g ->
  v_nodes w ⊆ v_nodes v -> v_nodes v ⊆ v_nodes w ->
  v_receivers w = v_receivers v -> v_processors w = v_processors v -> v_exporters w = v_exporters v ->
  v_capabilities w = v_capabilities v -> v_fanOuts w = v_fanOuts v -> agrees w g.
Proof.
  intros [] Hn1 Hn2 Er Ep Ee Ec Ef. split; rewrite ?Er, ?Ep, ?Ee, ?Ec, ?Ef; auto.
  - intros n. rewrite ag_nodes0. split; auto.
  - etrans; [exact Hn1|done].
  - intros p n Hl. apply Hn2. eauto.
Qed.

Lemma add_new v g n cg i : agrees v g -> n ∈ U -> Node (componentGraph g) (node_ID n) = None ->
  AddNode n (componentGraph g) = Some cg ->
  agrees (add_node n v) (set_instance (node_ID n) i (set_componentGraph cg g)).
Proof.
  intros Hag Hn E Ea. destruct (AddNode_new n _ (ag_ok _ _ Hag) E) as (cg' & E' & Hok & Hnode & Hfrom).
  rewrite Ea in E'. simplify_eq. destruct Hag. split; simpl; auto.
  - intros m. rewrite Hnode, elem_of_app, list_elem_of_singleton. case_decide as Hd.
    + split; [intros; simplify_eq; by right|]. intros [Hm|Hm]; [|by subst].
      apply ag_nodes0 in Hm. rewrite Hd in Hm. congruence.
    + rewrite ag_nodes0. split; [by left|]. by intros [?| ->].
  - apply list_subseteq_app_iff_l. split; [done|]. by intros m ->%list_elem_of_singleton.
  - intros id. by rewrite Hfrom.
  - intros m [Hm| ->%list_elem_of_singleton]%elem_of_app.
    + destruct (decide (node_ID n = node_ID m)) as [He|He]; [rewrite He, lookup_insert_eq|rewrite lookup_insert_ne by done]; eauto.
    + rewrite lookup_insert_eq. eauto.
  - intros p m Hl. apply elem_of_app. left. eauto.
Qed.

Lemma add_old v g n i : agrees v g -> n ∈ v_nodes v -> agrees (add_node n v) (set_instance (node_ID n) i g).
Proof.
  intros Hag Hn. assert (agrees v (set_instance (node_ID n) i g)) as Hag'.
  { destruct Hag. split; simpl; auto. intros m Hm.
    destruct (decide (node_ID n = node_ID m)) as [->|He]; [rewrite lookup_insert_eq|rewrite lookup_insert_ne by done]; eauto. }
  eapply agrees_ext; [exact Hag'|..]; try done; simpl.
  - intros m [?| ->%list_elem_of_singleton]%elem_of_app; done.
  - intros m Hm. apply elem_of_app. by left.
Qed.

Lemma createShared_ok v g n same c k ps : agrees v g -> n ∈ U -> same n = true ->
  exists g', createShared n same c k ps g = ok (g', n) /\ agrees (add_node n v) g' /\ pipelines g' = pipelines g.
Proof.
  intros Hag Hn Hs. unfold createShared. destruct (Node (componentGraph g) (node_ID n)) as [m|] eqn:E.
  - destruct (agrees_node _ _ _ _ Hag E) as [Hm He].
    assert (m = n) as -> by (apply HU; [by apply (ag_U _ _ Hag)|done|done]).
    destruct (ag_instances _ _ Hag n Hm) as [i Ei]. rewrite Ei. simpl. rewrite Hs.
    eexists. split; [done|]. split; [by apply add_old|done].
  - destruct (AddNode_new n _ (ag_ok _ _ Hag) E) as (cg & Ea & _). rewrite Ea. simpl.
    eexists. split; [done|]. split; [by apply add_new|done].
Qed.

Lemma createProcessor_ok v g p c : agrees v g -> processorNode p c ∈ U -> processorNode p c ∉ v_nodes v ->
  exists g', createProcessor p c g = ok (g', processorNode p c) /\ agrees (add_node (processorNode p c) v) g' /\
    pipelines g' = pipelines g.
Proof.
  intros Hag Hn Hnew. unfold createProcessor. set (n := processorNode p c) in *.
  assert (Node (componentGraph g) (node_ID n) = None) as E.
  { destruct (Node (componentGraph g) (node_ID n)) as [m|] eqn:E; [|done].
    destruct (agrees_node _ _ _ _ Hag E) as [Hm He].
    assert (m = n) as -> by (apply HU; [by apply (ag_U _ _ Hag)|done|done]). done. }
  destruct (AddNode_new n _ (ag_ok _ _ Hag) E) as (cg & Ea & _). rewrite Ea. simpl.
  eexists. split; [done|]. split; [by apply add_new|done].
Qed.

(** *** Nodes of a pipeline *)

Lemma linked_insert p q n (m : gmap Z node) (l : list (pipelineID * node)) :
  n ∈ U -> (forall p n, (p, n) ∈ l -> n ∈ U) ->
  (forall id x, m !! id = Some x <-> id = node_ID x /\ (q, x) ∈ l) ->
  forall id x, (if decide (p = q) then <[node_ID n := n]> m else m) !! id = Some x <->
    id = node_ID x /\ (q, x) ∈ l ++ [(p, n)].
Proof.
  intros Hn Hl Hm id x. rewrite elem_of_app, list_elem_of_singleton. case_decide as Hpq.
  - subst q. rewrite lookup_insert_Some, Hm. split.
    + intros [[<- <-]|(Hne & -> & Hx)]; [by split; [|right]|by split; [|left]].
    + intros [-> [Hx|Hx]]; [|simplify_eq; by left].
      destruct (decide (node_ID n = node_ID x)) as [He|He]; [|by right].
      left. split; [done|]. apply HU; eauto.
  - rewrite Hm. split; [by intros [? ?]; split; [|left]|]. intros [? [?|?]]; [done|congruence].
Qed.

Lemma agrees_pipeline v g p f w :
  agrees v g ->
  (forall q pg, pipelines g !! q = Some pg ->
     let pg' := if decide (p = q) then f pg else pg in
     (forall id n, receivers pg' !! id = Some n <-> id = node_ID n /\ (q, n) ∈ v_receivers w) /\
     processors pg' = of_pipeline q (v_processors w) /\
     (forall id n, exporters pg' !! id = Some n <-> id = node_ID n /\ (q, n) ∈ v_exporters w) /\
     capabilities pg' = (if decide (q ∈ v_capabilities w) then Some (capabilitiesNode q) else None) /\
     fanOut pg' = (if decide (q ∈ v_fanOuts w) then Some (fanOutNode q) else None)) ->
  v_nodes w = v_nodes v -> (forall q n, (q, n) ∈ v_receivers w \/ (q, n) ∈ v_exporters w -> n ∈ v_nodes v) ->
  agrees w (alter_pipeline p f g).
Proof.
  intros Hag Hp Hn Hl.
  assert (forall q pg', pipelines (alter_pipeline p f g) !! q = Some pg' ->
    exists pg, pipelines g !! q = Some pg /\ pg' = if decide (p = q) then f pg else pg) as Hinv.
  { intros q pg'. simpl. rewrite lookup_alter_pipelines. case_decide; [|eauto].
    intros (pg & ? & ?)%fmap_Some. eauto. }
  destruct Hag. split; rewrite ?Hn; auto;
    intros q pg' (pg & Eg & ->)%Hinv; destruct (Hp q pg Eg) as (? & ? & ? & ? & ?); done.
Qed.

Definition link_receiver (p : pipelineID) (n : node) (v : view) : view :=
  mkView (v_nodes v) (v_receivers v ++ [(p, n)]) (v_processors v) (v_exporters v) (v_capabilities v) (v_fanOuts v).
Definition link_exporter (p : pipelineID) (n : node) (v : view) : view :=
  mkView (v_nodes v) (v_receivers v) (v_processors v) (v_exporters v ++ [(p, n)]) (v_capabilities v) (v_fanOuts v).
Definition link_processor (p : pipelineID) (n : node) (v : view) : view :=
  mkView (v_nodes v) (v_receivers v) (v_processors v ++ [(p, n)]) (v_exporters v) (v_capabilities v) (v_fanOuts v).
Definition link_capabilities (p : pipelineID) (v : view) : view :=
  mkView (v_nodes v) (v_receivers v) (v_processors v) (v_exporters v) (v_capabilities v ++ [p]) (v_fanOuts v).
Definition link_fanOut (p : pipelineID) (v : view) : view :=
  mkView (v_nodes v) (v_receivers v) (v_processors v) (v_exporters v) (v_capabilities v) (v_fanOuts v ++ [p]).

Lemma linked_U v g p n : agrees v g -> (p, n) ∈ v_receivers v \/ (p, n) ∈ v_exporters v -> n ∈ U.
Proof. intros Hag Hl. apply (ag_U _ _ Hag). by eapply ag_linked. Qed.

Lemma agrees_receiver v g p n : agrees v g -> n ∈ v_nodes v -> agrees (link_receiver p n v) (alter_pipeline p (add_receiver n) g).
Proof.
  intros Hag Hn. eapply agrees_pipeline; [exact Hag| |done|].
  - intros q pg Eg. simpl. split_and!.
    + pose proof (linked_insert p q n (receivers pg) (v_receivers v) (ag_U _ _ Hag n Hn)
        ltac:(intros; eapply linked_U; eauto) (ag_receivers _ _ Hag q pg Eg)) as Hl. revert Hl. destruct (decide (p = q)); exact (fun Hl => Hl).
    + rewrite <- (ag_processors _ _ Hag q pg Eg). by case_decide.
    + destruct (decide (p = q)); exact (ag_exporters _ _ Hag q pg Eg).
    + rewrite <- (ag_capabilities _ _ Hag q pg Eg). by destruct (decide (p = q)).
    + rewrite <- (ag_fanOuts _ _ Hag q pg Eg). by destruct (decide (p = q)).
  - simpl. intros q m [[Hm|Hm%list_elem_of_singleton]%elem_of_app|Hm]; [by eapply ag_linked; eauto|congruence|by eapply ag_linked; eauto].
Qed.

Lemma agrees_exporter v g p n : agrees v g -> n ∈ v_nodes v -> agrees (link_exporter p n v) (alter_pipeline p (add_exporter n) g).
Proof.
  intros Hag Hn. eapply agrees_pipeline; [exact Hag| |done|].
  - intros q pg Eg. simpl. split_and!.
    + destruct (decide (p = q)); exact (ag_receivers _ _ Hag q pg Eg).
    + rewrite <- (ag_processors _ _ Hag q pg Eg). by case_decide.
    + pose proof (linked_insert p q n (exporters pg) (v_exporters v) (ag_U _ _ Hag n Hn)
        ltac:(intros; eapply linked_U; eauto) (ag_exporters _ _ Hag q pg Eg)) as Hl. revert Hl. destruct (decide (p = q)); exact (fun Hl => Hl).
    + rewrite <- (ag_capabilities _ _ Hag q pg Eg). by destruct (decide (p = q)).
    + rewrite <- (ag_fanOuts _ _ Hag q pg Eg). by destruct (decide (p = q)).
  - simpl. intros q m [Hm|[Hm|Hm%list_elem_of_singleton]%elem_of_app]; [by eapply ag_linked; eauto| |congruence].
    eapply ag_linked; eauto.
Qed.

Lemma of_pipeline_snoc p q n l : of_pipeline q (l ++ [(p, n)]) = of_pipeline q l ++ (if decide (p = q) then [n] else []).
Proof.
  unfold of_pipeline. rewrite filter_app, fmap_app. f_equal. case_decide as Hd.
  - by rewrite filter_cons_True.
  - by rewrite filter_cons_False.
Qed.

Lemma agrees_processor v g p n : agrees v g -> agrees (link_processor p n v) (alter_pipeline p (add_processor n) g).
Proof.
  intros Hag. eapply agrees_pipeline; [exact Hag| |done|]; [|intros q m; apply (ag_linked _ _ Hag)].
  intros q pg Eg. simpl. rewrite of_pipeline_snoc, <- (ag_processors _ _ Hag q pg Eg). split_and!.
  - destruct (decide (p = q)); exact (ag_receivers _ _ Hag q pg Eg).
  - case_decide; [done|by rewrite app_nil_r].
  - destruct (decide (p = q)); exact (ag_exporters _ _ Hag q pg Eg).
  - rewrite <- (ag_capabilities _ _ Hag q pg Eg). by destruct (decide (p = q)).
  - rewrite <- (ag_fanOuts _ _ Hag q pg Eg). by destruct (decide (p = q)).
Qed.

Lemma decide_snoc {A} p q (l : list pipelineID) (x y : A) :
  (if decide (q ∈ l ++ [p]) then x else y) = if decide (p = q) then x else if decide (q ∈ l) then x else y.
Proof.
  destruct (decide (p = q)) as [->|Hpq].
  - rewrite decide_True; [done|]. apply elem_of_app. right. by left.
  - destruct (decide (q ∈ l)) as [Hq|Hq].
    + rewrite decide_True; [done|]. apply elem_of_app. by left.
    + rewrite decide_False; [done|]. rewrite elem_of_app, list_elem_of_singleton. by intros [?|?].
Qed.

Lemma agrees_capabilities v g p : agrees v g ->
  agrees (link_capabilities p v) (alter_pipeline p (set_capabilities (capabilitiesNode p)) g).
Proof.
  intros Hag. eapply agrees_pipeline; [exact Hag| |done|]; [|intros q m; apply (ag_linked _ _ Hag)].
  intros q pg Eg. simpl. rewrite decide_snoc, <- (ag_capabilities _ _ Hag q pg Eg). split_and!.
  - destruct (decide (p = q)); exact (ag_receivers _ _ Hag q pg Eg).
  - rewrite <- (ag_processors _ _ Hag q pg Eg). by case_decide.
  - destruct (decide (p = q)); exact (ag_exporters _ _ Hag q pg Eg).
  - by case_decide; subst.
  - rewrite <- (ag_fanOuts _ _ Hag q pg Eg). by destruct (decide (p = q)).
Qed.

Lemma agrees_fanOut v g p : agrees v g -> agrees (link_fanOut p v) (alter_pipeline p (set_fanOut (fanOutNode p)) g).
Proof.
  intros Hag. eapply agrees_pipeline; [exact Hag| |done|]; [|intros q m; apply (ag_linked _ _ Hag)].
  intros q pg Eg. simpl. rewrite decide_snoc, <- (ag_fanOuts _ _ Hag q pg Eg). split_and!.
  - destruct (decide (p = q)); exact (ag_receivers _ _ Hag q pg Eg).
  - rewrite <- (ag_processors _ _ Hag q pg Eg). by case_decide.
  - destruct (decide (p = q)); exact (ag_exporters _ _ Hag q pg Eg).
  - rewrite <- (ag_capabilities _ _ Hag q pg Eg). by destruct (decide (p = q)).
  - by case_decide; subst.
Qed.
(** *** A pipeline *)

(** The view after more receivers, processors and exporters of [p] were made. *)
Definition extend (p : pipelineID) (rs ps es : list node) (cs fs : list pipelineID) (v : view) : view :=
  mkView (v_nodes v ++ rs ++ ps ++ es) (v_receivers v ++ (pair p <$> rs)) (v_processors v ++ (pair p <$> ps))
    (v_exporters v ++ (pair p <$> es)) (v_capabilities v ++ cs) (v_fanOuts v ++ fs).

Lemma extend_nil p v g : agrees v g <-> agrees (extend p [] [] [] [] [] v) g.
Proof. unfold extend. simpl. rewrite !app_nil_r. by destruct v. Qed.

Ltac same_view := unfold extend, link_receiver, link_exporter, link_processor, link_capabilities, link_fanOut, add_node;
  simpl; rewrite ?fmap_app, ?app_assoc, ?app_nil_r; try done; set_solver.

(** Where connectors are used, as the list of uses in the order they were met. *)
Definition used (c : ID) (l : list (ID * pipelineID)) : list pipelineID := (filter (fun x => x.1 = c) l).*2.

Record tracks (v : view) (ux ur : list (ID * pipelineID)) (u : usage) : Prop := {
  tr_graph : agrees v (u_graph u);
  tr_connectors : forall c, c ∈ connectors u <-> c ∈ ux.*1 \/ c ∈ ur.*1;
  tr_exporter : forall c, uses (connectorsAsExporter u) c = used c ux;
  tr_receiver : forall c, uses (connectorsAsReceiver u) c = used c ur;
}.

Lemma uses_insert m c d l : uses (<[c := l]> m) d = if decide (c = d) then l else uses m d.
Proof.
  unfold uses. case_decide as Hd; [subst; by rewrite lookup_insert_eq|by rewrite lookup_insert_ne].
Qed.

Lemma used_snoc c d p l : used d (l ++ [(c, p)]) = if decide (c = d) then used d l ++ [p] else used d l.
Proof.
  unfold used. rewrite filter_app, fmap_app. case_decide as Hd.
  - by rewrite filter_cons_True.
  - rewrite filter_cons_False by done. apply app_nil_r.
Qed.

Lemma add_connector_elem c d l : d ∈ add_connector c l <-> d = c \/ d ∈ l.
Proof. unfold add_connector. case_decide; [|rewrite elem_of_app, list_elem_of_singleton]; set_solver. Qed.

Lemma snd_snoc {A B} (l : list (A * B)) a b : (l ++ [(a, b)]).*1 = l.*1 ++ [a].
Proof. by rewrite fmap_app. Qed.

Lemma usage_tracks_ext v w ux ur u : tracks v ux ur u -> agrees w (u_graph u) -> tracks w ux ur u.
Proof. intros [] Hw. by split. Qed.

Lemma addReceivers_ok v ux ur u p rs : tracks v ux ur u -> (receiverNode (signal p) <$> plain rs) ⊆ U ->
  exists u', foldM (addReceiver set p) rs u = ok u' /\
    tracks (extend p (receiverNode (signal p) <$> plain rs) [] [] [] [] v) ux
           (ur ++ ((fun c => (c, p)) <$> connected rs)) u' /\ dom (pipelines (u_graph u')) = dom (pipelines (u_graph u)).
Proof.
  intros Ht HrU. apply (foldM_inv _ (fun k u' =>
    tracks (extend p (receiverNode (signal p) <$> plain k) [] [] [] [] v) ux (ur ++ ((fun c => (c, p)) <$> connected k)) u' /\
    dom (pipelines (u_graph u')) = dom (pipelines (u_graph u)))).
  { split; [|done]. simpl. rewrite app_nil_r. eapply usage_tracks_ext; [exact Ht|]. apply extend_nil, Ht. }
  intros k c r u1 -> [[Hg Hc He Hr] Hd]. unfold addReceiver. destruct (IsConfigured set c) eqn:Ec.
  - eexists. split; [done|]. split; [|done]. unfold plain, connected in *. rewrite !filter_app.
    rewrite filter_cons_False, filter_cons_True by congruence. simpl. rewrite app_nil_r, fmap_app, app_assoc. simpl.
    split; simpl; [done| | |].
    + intros d. rewrite add_connector_elem, Hc, snd_snoc, elem_of_app, list_elem_of_singleton. tauto.
    + done.
    + intros d. rewrite uses_insert, used_snoc, !Hr. case_decide; by subst.
  - destruct (createShared_ok _ (u_graph u1) (receiverNode (signal p) c)
      (fun m => match m with receiverNode _ _ => true | _ => false end) c KindReceiver [p] Hg) as (g' & E & Hag & Hp).
    { apply HrU. apply list_elem_of_fmap_2. unfold plain. apply list_elem_of_filter. split; [done|].
      apply elem_of_app. right. by left. } { done. }
    unfold createReceiver. rewrite E. simpl. eexists. split; [done|]. simpl. split.
    + unfold plain, connected in *. rewrite !filter_app, filter_cons_True, filter_cons_False by congruence.
      simpl. rewrite app_nil_r. split; try done. simpl.
      eapply agrees_ext; [apply agrees_receiver; [exact Hag|]|..]; same_view.
    + by rewrite dom_alter_L, Hp.
Qed.

Lemma addExporters_ok v ux ur u p rs : tracks v ux ur u -> (exporterNode (signal p) <$> plain rs) ⊆ U ->
  exists u', foldM (addExporter set p) rs u = ok u' /\
    tracks (extend p [] [] (exporterNode (signal p) <$> plain rs) [] [] v)
           (ux ++ ((fun c => (c, p)) <$> connected rs)) ur u' /\ dom (pipelines (u_graph u')) = dom (pipelines (u_graph u)).
Proof.
  intros Ht HrU. apply (foldM_inv _ (fun k u' =>
    tracks (extend p [] [] (exporterNode (signal p) <$> plain k) [] [] v) (ux ++ ((fun c => (c, p)) <$> connected k)) ur u' /\
    dom (pipelines (u_graph u')) = dom (pipelines (u_graph u)))).
  { split; [|done]. simpl. rewrite app_nil_r. eapply usage_tracks_ext; [exact Ht|]. apply extend_nil, Ht. }
  intros k c r u1 -> [[Hg Hc He Hr] Hd]. unfold addExporter. destruct (IsConfigured set c) eqn:Ec.
  - eexists. split; [done|]. split; [|done]. unfold plain, connected in *. rewrite !filter_app.
    rewrite filter_cons_False, filter_cons_True by congruence. simpl. rewrite app_nil_r, fmap_app, app_assoc. simpl.
    split; simpl; [done| | |].
    + intros d. rewrite add_connector_elem, Hc, snd_snoc, elem_of_app, list_elem_of_singleton. tauto.
    + intros d. rewrite uses_insert, used_snoc, !He. case_decide; by subst.
    + done.
  - destruct (createShared_ok _ (u_graph u1) (exporterNode (signal p) c)
      (fun m => match m with exporterNode _ _ => true | _ => false end) c KindExporter [p] Hg) as (g' & E & Hag & Hp).
    { apply HrU. apply list_elem_of_fmap_2. unfold plain. apply list_elem_of_filter. split; [done|].
      apply elem_of_app. right. by left. } { done. }
    unfold createExporter. rewrite E. simpl. eexists. split; [done|]. simpl. split.
    + unfold plain, connected in *. rewrite !filter_app, filter_cons_True, filter_cons_False by congruence.
      simpl. rewrite app_nil_r. split; try done. simpl.
      eapply agrees_ext; [apply agrees_exporter; [exact Hag|]|..]; same_view.
    + by rewrite dom_alter_L, Hp.
Qed.

Lemma addProcessors_ok v ux ur u p ps : tracks v ux ur u -> (processorNode p <$> ps) ⊆ U -> NoDup ps ->
  (forall c, processorNode p c ∉ v_nodes v) ->
  exists u', foldM (addProcessor p) ps u = ok u' /\
    tracks (extend p [] (processorNode p <$> ps) [] [] [] v) ux ur u' /\
    dom (pipelines (u_graph u')) = dom (pipelines (u_graph u)).
Proof.
  intros Ht HpU Hnd Hnew. apply (foldM_inv _ (fun k u' =>
    tracks (extend p [] (processorNode p <$> k) [] [] [] v) ux ur u' /\
    dom (pipelines (u_graph u')) = dom (pipelines (u_graph u)))).
  { split; [|done]. simpl. eapply usage_tracks_ext; [exact Ht|]. apply extend_nil, Ht. }
  intros k c r u1 -> [[Hg Hc He Hr] Hd]. unfold addProcessor.
  destruct (createProcessor_ok _ (u_graph u1) p c Hg) as (g' & E & Hag & Hp).
  { apply HpU. apply list_elem_of_fmap_2, elem_of_app. right. by left. }
  { simpl. rewrite app_nil_r, elem_of_app, list_elem_of_fmap. intros [?|(d & ? & Hin)]; [by eapply Hnew|].
    simplify_eq. apply NoDup_app in Hnd as (_ & Hnd & _). apply (Hnd d Hin). by left. }
  rewrite E. simpl. eexists. split; [done|]. simpl. split.
  - split; try done. simpl. eapply agrees_ext; [apply agrees_processor; exact Hag|..]; same_view.
  - by rewrite dom_alter_L, Hp.
Qed.

Lemma addPipeline_ok v ux ur u pc : tracks v ux ur u -> pipeline_nodes pc ⊆ U -> NoDup (Processors pc.2) ->
  (forall c, processorNode pc.1 c ∉ v_nodes v) ->
  exists u', addPipeline set u pc = ok u' /\
    tracks (extend pc.1 (receiver_nodes pc) (processor_nodes pc) (exporter_nodes pc) [pc.1] [pc.1] v)
      (ux ++ ((fun c => (c, pc.1)) <$> connected (Exporters pc.2)))
      (ur ++ ((fun c => (c, pc.1)) <$> connected (Receivers pc.2))) u' /\
    dom (pipelines (u_graph u')) = dom (pipelines (u_graph u)).
Proof.
  destruct pc as [p cfg]. intros Ht HU' Hnd Hnew. unfold pipeline_nodes, receiver_nodes, processor_nodes, exporter_nodes in *. simpl in *.
  destruct (addReceivers_ok v ux ur u p (Receivers cfg) Ht) as (u1 & -> & [T1 C1 E1 R1] & D1); [set_solver|]. simpl.
  set (u2 := with_graph _ u1).
  assert (tracks (link_capabilities p (extend p (receiverNode (signal p) <$> plain (Receivers cfg)) [] [] [] [] v)) ux
    (ur ++ ((fun c => (c, p)) <$> connected (Receivers cfg))) u2) as T2 by (split; [by apply agrees_capabilities|done..]).
  destruct (addProcessors_ok _ _ _ _ p (Processors cfg) T2) as (u3 & -> & [T3 C3 E3 R3] & D3); [set_solver|done| |].
  { intros c. simpl. rewrite app_nil_r, elem_of_app, list_elem_of_fmap. intros [?|(d & ? & _)]; [by eapply Hnew|done]. }
  simpl. set (u4 := with_graph _ u3).
  match type of T3 with agrees ?w _ => assert (tracks (link_fanOut p w) ux
    (ur ++ ((fun c => (c, p)) <$> connected (Receivers cfg))) u4) as T4 by (split; [by apply agrees_fanOut|done..]) end.
  destruct (addExporters_ok _ _ _ _ p (Exporters cfg) T4) as (u5 & -> & T5 & D5); [set_solver|].
  exists u5. split; [done|]. split.
  - eapply usage_tracks_ext; [exact T5|]. eapply agrees_ext; [apply T5|..]; same_view.
  - rewrite D5. unfold u4. simpl. rewrite dom_alter_L, D3. unfold u2. simpl. by rewrite dom_alter_L.
Qed.

(** *** All pipelines *)

Definition exporters_met (pcs : list (pipelineID * PipelineConfig)) : list (ID * pipelineID) :=
  pcs ≫= fun pc => (fun c => (c, pc.1)) <$> connected (Exporters pc.2).
Definition receivers_met (pcs : list (pipelineID * PipelineConfig)) : list (ID * pipelineID) :=
  pcs ≫= fun pc => (fun c => (c, pc.1)) <$> connected (Receivers pc.2).

Definition view_of (pcs : list (pipelineID * PipelineConfig)) : view :=
  mkView (pcs ≫= fun pc => receiver_nodes pc ++ processor_nodes pc ++ exporter_nodes pc)
    (pcs ≫= fun pc => pair pc.1 <$> receiver_nodes pc) (pcs ≫= fun pc => pair pc.1 <$> processor_nodes pc)
    (pcs ≫= fun pc => pair pc.1 <$> exporter_nodes pc) pcs.*1 pcs.*1.

Lemma new_agrees : agrees (view_of []) (newGraph set).
Proof.
  assert (forall p pg, pipelines (newGraph set) !! p = Some pg -> pg = newPipelineNodes) as Hp.
  { intros p pg E. simpl in E. apply elem_of_list_to_map_2, list_elem_of_fmap in E as (pc & E & _). congruence. }
  split; simpl; try (intros p pg E; apply Hp in E as ->); try done.
  - apply new_ok.
  - intros n. rewrite Node_new. split; [done|]. by intros ?%elem_of_nil.
  - by intros n ?%elem_of_nil.
  - intros id. apply From_new.
  - by intros n ?%elem_of_nil.
  - intros id n. simpl. rewrite lookup_empty. split; [done|]. by intros [_ ?%elem_of_nil].
  - intros id n. simpl. rewrite lookup_empty. split; [done|]. by intros [_ ?%elem_of_nil].
  - by intros p n [?%elem_of_nil|?%elem_of_nil].
Qed.

Lemma view_of_snoc k pc :
  view_of (k ++ [pc]) = extend pc.1 (receiver_nodes pc) (processor_nodes pc) (exporter_nodes pc) [pc.1] [pc.1] (view_of k).
Proof. unfold view_of, extend. simpl. by rewrite !bind_app, !fmap_app, !bind_singleton. Qed.

Lemma addPipelines_ok :
  NoDup (PipelineConfigs set).*1 -> (forall pc, pc ∈ PipelineConfigs set -> NoDup (Processors pc.2) /\ pipeline_nodes pc ⊆ U) ->
  exists u, foldM (addPipeline set) (PipelineConfigs set) (mkUsage (newGraph set) [] ∅ ∅) = ok u /\
    tracks (view_of (PipelineConfigs set)) (exporters_met (PipelineConfigs set)) (receivers_met (PipelineConfigs set)) u /\
    dom (pipelines (u_graph u)) = list_to_set (PipelineConfigs set).*1.
Proof.
  intros Hnd Hpc. apply (foldM_inv _ (fun k u => tracks (view_of k) (exporters_met k) (receivers_met k) u /\
    dom (pipelines (u_graph u)) = list_to_set (PipelineConfigs set).*1)).
  { split; [split; simpl|].
    - apply new_agrees.
    - intros c. split; [by intros ?%elem_of_nil|by intros [?%elem_of_nil|?%elem_of_nil]].
    - done.
    - done.
    - simpl. rewrite dom_list_to_map_L. f_equal. rewrite <- list_fmap_compose. by apply list_fmap_ext. }
  intros k pc r u El [Ht Hd]. destruct (Hpc pc) as [Hps HpU]; [rewrite El; apply elem_of_app; right; by left|].
  destruct (addPipeline_ok _ _ _ _ pc Ht HpU Hps) as (u' & E & Ht' & Hd').
  { intros c (pc' & [Hc|[(d & Hc & _)%list_elem_of_fmap|Hc]%elem_of_app]%elem_of_app & Hin)%list_elem_of_bind.
    - by apply list_elem_of_fmap in Hc as (? & ? & _).
    - simplify_eq. rewrite El, fmap_app, fmap_cons in Hnd. apply NoDup_app in Hnd as (_ & Hnd & _).
      apply (Hnd pc'.1); [by apply list_elem_of_fmap_2|]. replace pc'.1 with pc.1 by done. by left.
    - by apply list_elem_of_fmap in Hc as (? & ? & _). }
  exists u'. split; [done|]. split; [|by rewrite Hd'].
  unfold exporters_met, receivers_met. rewrite !bind_app, !bind_singleton. by rewrite view_of_snoc.
Qed.

Lemma used_exporters c pcs : used c (exporters_met pcs) = exporter_uses c pcs.
Proof.
  unfold used, exporters_met, exporter_uses. induction pcs as [|pc pcs IH]; [done|].
  rewrite !bind_cons, filter_app, fmap_app, IH. f_equal. clear IH.
  induction (connected (Exporters pc.2)) as [|d l IH]; [done|]. rewrite fmap_cons, !filter_cons. cbn [fst].
  case_decide; rewrite ?fmap_cons; by rewrite IH.
Qed.

Lemma used_receivers c pcs : used c (receivers_met pcs) = receiver_uses c pcs.
Proof.
  unfold used, receivers_met, receiver_uses. induction pcs as [|pc pcs IH]; [done|].
  rewrite !bind_cons, filter_app, fmap_app, IH. f_equal. clear IH.
  induction (connected (Receivers pc.2)) as [|d l IH]; [done|]. rewrite fmap_cons, !filter_cons. cbn [fst].
  case_decide; rewrite ?fmap_cons; by rewrite IH.
Qed.

Lemma met_used c pcs : c ∈ (exporters_met pcs).*1 \/ c ∈ (receivers_met pcs).*1 <-> c ∈ used_connectors pcs.
Proof.
  clear HU. unfold exporters_met, receivers_met, used_connectors. induction pcs as [|pc pcs IH]; [set_solver|].
  rewrite !bind_cons, !fmap_app, !elem_of_app, <- IH. rewrite <- !list_fmap_compose.
  assert (forall l, (fst ∘ (fun c : ID => (c, pc.1))) <$> l = l) as Hid by (intros l; apply list_fmap_id).
  rewrite !Hid. tauto.
Qed.
End nodes.

(** * Connectors *)

(** ** The maps expTypes and recTypes *)

Lemma signal_types_snoc ps p : signal_types (ps ++ [p]) = <[signal p := false]> (signal_types ps).
Proof. unfold signal_types. by rewrite foldl_app. Qed.

Lemma signal_types_lookup ps s : signal_types ps !! s = if decide (s ∈ signal <$> ps) then Some false else None.
Proof.
  induction ps as [|p ps IH] using rev_ind; [done|]. rewrite signal_types_snoc, fmap_app.
  destruct (decide (signal p = s)) as [<-|Hne].
  - rewrite lookup_insert_eq, decide_True; [done|]. apply elem_of_app. right. by left.
  - rewrite lookup_insert_ne, IH by done. destruct (decide (s ∈ signal <$> ps)) as [Hin|Hin].
    + rewrite decide_True; [done|]. apply elem_of_app. by left.
    + rewrite decide_False; [done|]. rewrite elem_of_app. by intros [?|?%list_elem_of_singleton].
Qed.

Lemma existsb_true {A} (f : A -> bool) l : existsb f l = true <-> exists x, x ∈ l /\ f x = true.
Proof. rewrite existsb_exists. by setoid_rewrite list_elem_of_In. Qed.

Section marks.
Context (f : Factory).

Abbreviation mark_one e := (fun (m : gmap Signal bool * gmap Signal bool) r =>
  if supported f e r then (<[e := true]> m.1, <[r := true]> m.2) else m).

Lemma mark_inner e recs m : let m' := foldl (mark_one e) m recs in
  (forall s, m'.1 !! s = if bool_decide (s = e) && existsb (supported f e) recs then Some true else m.1 !! s) /\
  (forall s, m'.2 !! s = if bool_decide (s ∈ recs) && supported f e s then Some true else m.2 !! s).
Proof.
  induction recs as [|r recs [IH1 IH2]] using rev_ind; [split; intros s; simpl; [by rewrite andb_false_r|done]|].
  rewrite foldl_app. simpl. destruct (supported f e r) eqn:Er; simpl; split; intros s.
  - rewrite existsb_app. simpl. rewrite Er, orb_true_r, andb_true_r. case_bool_decide as Hs.
    + subst. by rewrite lookup_insert_eq.
    + rewrite lookup_insert_ne by done. rewrite IH1. by rewrite bool_decide_eq_false_2.
  - destruct (decide (r = s)) as [<-|Hrs].
    + rewrite lookup_insert_eq, Er, bool_decide_eq_true_2; [done|]. apply elem_of_app. right. by left.
    + rewrite lookup_insert_ne, IH2 by done. erewrite (bool_decide_ext (s ∈ recs ++ [r])); [done|].
      rewrite elem_of_app, list_elem_of_singleton. split; [by intros [?|?]|by left].
  - rewrite existsb_app. simpl. by rewrite Er, orb_false_r.
  - rewrite IH2. destruct (decide (s = r)) as [->|Hrs]; [by rewrite Er, !andb_false_r|].
    erewrite (bool_decide_ext (s ∈ recs ++ [r])); [done|].
    rewrite elem_of_app, list_elem_of_singleton. split; [by intros [?|?]|by left].
Qed.

Lemma mark_spec exps recs m : let m' := mark_supported f exps recs m in
  (forall s, m'.1 !! s = if bool_decide (s ∈ exps) && existsb (supported f s) recs then Some true else m.1 !! s) /\
  (forall s, m'.2 !! s = if bool_decide (s ∈ recs) && existsb (fun e => supported f e s) exps then Some true else m.2 !! s).
Proof.
  unfold mark_supported. induction exps as [|e exps [IH1 IH2]] using rev_ind.
  { split; intros s; simpl; [done|by rewrite andb_false_r]. }
  rewrite foldl_app. simpl. destruct (mark_inner e recs (foldl (fun m e => foldl (mark_one e) m recs) m exps)) as [I1 I2].
  split; intros s.
  - rewrite I1, IH1. destruct (decide (s = e)) as [->|Hs].
    + rewrite (bool_decide_eq_true_2 (e = e)) by done.
      rewrite (bool_decide_eq_true_2 (e ∈ exps ++ [e])) by (apply elem_of_app; right; by left). simpl.
      destruct (existsb _ recs); [done|]. by rewrite andb_false_r.
    + rewrite (bool_decide_eq_false_2 (s = e)) by done. simpl.
      erewrite (bool_decide_ext (s ∈ exps ++ [e])); [done|].
      rewrite elem_of_app, list_elem_of_singleton. split; [by intros [?|?]|by left].
  - rewrite I2, IH2, existsb_app. simpl. rewrite orb_false_r.
    destruct (bool_decide (s ∈ recs)); [|done]. simpl. destruct (supported f e s); [by rewrite orb_true_r|by rewrite orb_false_r].
Qed.

Lemma unsupported_true m : unsupported m = true <-> exists s, m !! s = Some false.
Proof.
  unfold unsupported. rewrite existsb_true. split.
  - intros ([s []] & Hin%elem_of_map_to_list & Hb); [done|]. by exists s.
  - intros [s Hs]. exists (s, false). by rewrite elem_of_map_to_list.
Qed.

Lemma signal_types_dom ps s : s ∈ (map_to_list (signal_types ps)).*1 <-> s ∈ signal <$> ps.
Proof.
  rewrite list_elem_of_fmap. split.
  - intros ([s' b] & -> & Hin%elem_of_map_to_list). rewrite signal_types_lookup in Hin. simpl. by case_decide.
  - intros Hs. exists (s, false). rewrite elem_of_map_to_list, signal_types_lookup. by rewrite decide_True.
Qed.

(** The checks of the uses of a connector. *)
Lemma marked es rs :
  let '(e', r') := mark_supported f (map_to_list (signal_types es)).*1 (map_to_list (signal_types rs)).*1
    (signal_types es, signal_types rs) in
  (unsupported e' = true <->
     exists e, e ∈ es /\ forall r, r ∈ rs -> supported f (signal e) (signal r) = false) /\
  (unsupported r' = true <->
     exists r, r ∈ rs /\ forall e, e ∈ es -> supported f (signal e) (signal r) = false).
Proof.
  destruct (mark_supported _ _ _ _) as [e' r'] eqn:E.
  destruct (mark_spec (map_to_list (signal_types es)).*1 (map_to_list (signal_types rs)).*1 (signal_types es, signal_types rs))
    as [M1 M2]. rewrite E in M1, M2. simpl in M1, M2. rewrite !unsupported_true. split; split.
  - intros [s Hs]. rewrite M1, signal_types_lookup in Hs. destruct (_ && _) eqn:Eb; [done|]. case_decide as Hin; [|done].
    apply list_elem_of_fmap in Hin as (e & -> & He). exists e. split; [done|]. intros r Hr.
    rewrite bool_decide_eq_true_2 in Eb by (apply signal_types_dom; by apply list_elem_of_fmap_2). simpl in Eb.
    apply not_true_iff_false. intros Hsup. apply not_true_iff_false in Eb. apply Eb, existsb_true. exists (signal r).
    split; [|done]. apply signal_types_dom. by apply list_elem_of_fmap_2.
  - intros (e & He & Hno). exists (signal e). rewrite M1, signal_types_lookup.
    rewrite (decide_True (P := signal e ∈ _)) by by apply list_elem_of_fmap_2.
    destruct (existsb _ _) eqn:Eb; [|by rewrite andb_false_r].
    apply existsb_true in Eb as (s & Hs%signal_types_dom & Hsup). apply list_elem_of_fmap in Hs as (r & -> & Hr).
    rewrite Hno in Hsup by done. done.
  - intros [s Hs]. rewrite M2, signal_types_lookup in Hs. destruct (_ && _) eqn:Eb; [done|]. case_decide as Hin; [|done].
    apply list_elem_of_fmap in Hin as (r & -> & Hr). exists r. split; [done|]. intros e He.
    rewrite bool_decide_eq_true_2 in Eb by (apply signal_types_dom; by apply list_elem_of_fmap_2). simpl in Eb.
    apply not_true_iff_false. intros Hsup. apply not_true_iff_false in Eb. apply Eb, existsb_true. exists (signal e).
    split; [|done]. apply signal_types_dom. by apply list_elem_of_fmap_2.
  - intros (r & Hr & Hno). exists (signal r). rewrite M2, signal_types_lookup.
    rewrite (decide_True (P := signal r ∈ _)) by by apply list_elem_of_fmap_2.
    destruct (existsb _ _) eqn:Eb; [|by rewrite andb_false_r].
    apply existsb_true in Eb as (s & Hs%signal_types_dom & Hsup). apply list_elem_of_fmap in Hs as (e & -> & He).
    rewrite Hno in Hsup by done. done.
Qed.
End marks.

(** ** addConnector *)

Section connectors.
Context {DG : DirectedGraph node} {DGL : DirectedGraphLaws node} (set : Settings).
Context (U : list node) (HU : forall n m, n ∈ U -> m ∈ U -> node_ID n = node_ID m -> n = m).
Notation agrees := (agrees U).

(** The connector has a factory, and every use of it a supported counterpart. *)
Definition connector_ok (pcs : list (pipelineID * PipelineConfig)) (c : ID) : Prop :=
  exists f, ConnectorFactory set (typeVal c) = Some f /\
    (forall e, e ∈ exporter_uses set c pcs ->
       exists r, r ∈ receiver_uses set c pcs /\ supported f (signal e) (signal r) = true) /\
    (forall r, r ∈ receiver_uses set c pcs ->
       exists e, e ∈ exporter_uses set c pcs /\ supported f (signal e) (signal r) = true).

(** The error about a connector: it has no factory, or one of its uses joins no use of the
    other kind. *)
Definition connector_error (pcs : list (pipelineID * PipelineConfig)) (c : ID) (e : error) : Prop :=
  (e = errNoConnectorFactory /\ ConnectorFactory set (typeVal c) = None) \/
  exists f, ConnectorFactory set (typeVal c) = Some f /\
    ((e = errConnectorAsExporter /\ exists p, p ∈ exporter_uses set c pcs /\
        forall r, r ∈ receiver_uses set c pcs -> supported f (signal p) (signal r) = false) \/
     (e = errConnectorAsReceiver /\ exists p, p ∈ receiver_uses set c pcs /\
        forall r, r ∈ exporter_uses set c pcs -> supported f (signal r) (signal p) = false)).

(** The nodes of a list of pairs of uses. *)
Definition link_pairs (c : ID) (prs : list (pipelineID * pipelineID)) (v : view) : view :=
  mkView (v_nodes v ++ (pair_node c <$> prs)) (v_receivers v ++ ((fun er => (er.2, pair_node c er)) <$> prs))
    (v_processors v) (v_exporters v ++ ((fun er => (er.1, pair_node c er)) <$> prs)) (v_capabilities v) (v_fanOuts v).

Lemma link_pairs_nil c v g : agrees v g <-> agrees (link_pairs c [] v) g.
Proof. unfold link_pairs. simpl. rewrite !app_nil_r. by destruct v. Qed.

(** The loop over the pairs of uses is a loop over the supported pairs. *)
Definition pair_step (c : ID) (g : Graph) (er : pipelineID * pipelineID) : result Graph :=
  rbind (createConnector er.1 er.2 c g) (fun gn =>
  ok (alter_pipeline er.2 (add_receiver gn.2) (alter_pipeline er.1 (add_exporter gn.2) gn.1))).

Lemma pairs_loop c f es rs g :
  foldM (fun g e => foldM (fun g r =>
    if supported f (signal e) (signal r) then pair_step c g (e, r) else ok g) rs g) es g =
  foldM (pair_step c) (es ≫= fun e => pair e <$> filter (fun r => supported f (signal e) (signal r) = true) rs) g.
Proof.
  revert g. induction es as [|e es IH]; intros g; [done|]. rewrite bind_cons, foldM_app. simpl.
  assert (forall g, foldM (fun g r => if supported f (signal e) (signal r) then pair_step c g (e, r) else ok g) rs g =
    foldM (pair_step c) (pair e <$> filter (fun r => supported f (signal e) (signal r) = true) rs) g) as Hin.
  { clear. induction rs as [|r rs IH]; intros g; [done|]. simpl. rewrite filter_cons.
    destruct (supported f (signal e) (signal r)) eqn:E.
    - rewrite decide_True by done. cbn [foldM fmap list_fmap]. destruct (pair_step c g (e, r)) as [[g'|]|]; [apply IH|done..].
    - rewrite decide_False by done. apply IH. }
  rewrite Hin. destruct (foldM (pair_step c) (pair e <$> _) g) as [[g'|]|]; [apply IH|done..].
Qed.

Lemma pair_steps_ok v g c prs : agrees v g -> (pair_node c <$> prs) ⊆ U ->
  exists g', foldM (pair_step c) prs g = ok g' /\ agrees (link_pairs c prs v) g' /\ dom (pipelines g') = dom (pipelines g).
Proof.
  intros Hag HpU. apply (foldM_inv _ (fun k g' => agrees (link_pairs c k v) g' /\ dom (pipelines g') = dom (pipelines g))).
  { split; [by apply link_pairs_nil|done]. }
  intros k [e r] rest g1 El [Hg Hd]. unfold pair_step, createConnector. simpl.
  destruct (createShared_ok U HU _ g1 (connectorNode (signal e) (signal r) c)
    (fun m => match m with connectorNode _ _ _ => true | _ => false end) c KindConnector [e; r] Hg) as (g2 & E & Hag2 & Hp).
  { apply HpU. rewrite El, fmap_app. apply elem_of_app. right. by left. } { done. }
  rewrite E. simpl. eexists. split; [done|]. set (n := connectorNode (signal e) (signal r) c) in *. split.
  - eapply agrees_ext; [apply agrees_receiver; [exact HU|apply agrees_exporter; [exact HU|exact Hag2|]|]|..];
      unfold link_pairs, link_receiver, link_exporter, add_node; simpl;
      rewrite ?fmap_app, ?app_assoc; try done; set_solver.
  - simpl. by rewrite !dom_alter_L, Hp.
Qed.

Context (pcs : list (pipelineID * PipelineConfig)).

Lemma addConnector_spec v g u c :
  agrees v g -> connector_nodes set pcs c ⊆ U ->
  (forall c, uses (connectorsAsExporter u) c = exporter_uses set c pcs) ->
  (forall c, uses (connectorsAsReceiver u) c = receiver_uses set c pcs) ->
  (connector_ok pcs c /\ exists g', addConnector set u g c = ok g' /\
     agrees (link_pairs c (connector_pairs set c pcs) v) g' /\ dom (pipelines g') = dom (pipelines g)) \/
  (~ connector_ok pcs c /\ exists e, addConnector set u g c = fails e /\ connector_error pcs c e).
Proof.
  intros Hag HcU He Hr. unfold addConnector, connector_ok, connector_error, connector_nodes, connector_pairs in *.
  destruct (ConnectorFactory set (typeVal c)) as [f|] eqn:Ef.
  2: { right. split; [by intros (f & ? & _)|]. eexists. split; [done|]. by left. }
  rewrite He, Hr. pose proof (marked f (exporter_uses set c pcs) (receiver_uses set c pcs)) as Hmark.
  destruct (mark_supported _ _ _ _) as [e' r']. destruct Hmark as [Me Mr].
  destruct (unsupported e') eqn:Ee.
  { right. destruct (proj1 Me eq_refl) as (e & Hin & Hno). split; [|eexists; split; [done|]; right; exists f; split; [done|]; left; by eauto].
    intros (f' & ? & Hall & _). simplify_eq. destruct (Hall e Hin) as (r & Hrin & Hsup). by rewrite Hno in Hsup. }
  destruct (unsupported r') eqn:Er.
  { right. destruct (proj1 Mr eq_refl) as (r & Hin & Hno). split; [|eexists; split; [done|]; right; exists f; split; [done|]; right; by eauto].
    intros (f' & ? & _ & Hall). simplify_eq. destruct (Hall r Hin) as (e & Hein & Hsup). by rewrite Hno in Hsup. }
  left. split.
  - exists f. split; [done|]. split; intros x Hin.
    + destruct (existsb (fun r => supported f (signal x) (signal r)) (receiver_uses set c pcs)) eqn:Ex;
        [by apply existsb_true in Ex|].
      assert (false = true) as Hf; [|done]. apply Me. exists x. split; [done|]. intros y Hy.
      apply not_true_iff_false. intros Hs. apply not_true_iff_false in Ex. apply Ex, existsb_true. by exists y.
    + destruct (existsb (fun e => supported f (signal e) (signal x)) (exporter_uses set c pcs)) eqn:Ex;
        [by apply existsb_true in Ex|].
      assert (false = true) as Hf; [|done]. apply Mr. exists x. split; [done|]. intros y Hy.
      apply not_true_iff_false. intros Hs. apply not_true_iff_false in Ex. apply Ex, existsb_true. by exists y.
  - pose proof (pairs_loop c f (exporter_uses set c pcs) (receiver_uses set c pcs) g) as El.
    unfold pair_step at 1 in El. simpl in El. rewrite El. by apply pair_steps_ok.
Qed.
End connectors.
