(* ===== verification/GraphEdges.v ===== *)
(** * GraphEdges: the graph a configuration becomes

    The nodes and the edges of the graph after createNodes and createEdges are exactly
    those the configuration asks for. *)

From S2P Require Import Prelude.
From S2P Require Import GoErrors.
From S2P Require Import Ids.
From S2P Require Import Digraph.
From S2P Require Import Consumers.
From S2P Require Import Graph.
From S2P Require Import GraphNodes.

Lemma NoDup_fst_unique {A B} (l : list (A * B)) k a b : NoDup l.*1 -> (k, a) ∈ l -> (k, b) ∈ l -> a = b.
Proof.
  intros Hnd [i Hi]%list_elem_of_lookup [j Hj]%list_elem_of_lookup.
  assert (i = j) as ->; [|congruence].
  eapply NoDup_lookup; [exact Hnd|by rewrite list_lookup_fmap, Hi|by rewrite list_lookup_fmap, Hj].
Qed.

(** ** What the configuration asks for *)

Section spec.
Context (set : Settings).
Notation pcs := (PipelineConfigs set).

Definition all_nodes : list node := (pcs ≫= pipeline_nodes set) ++ (used_connectors set pcs ≫= connector_nodes set pcs).

(** The pipelines have different identifiers, and PipelineConfig.Validate accepted them;
    the hashes of the nodes differ. *)
Record valid_settings : Prop := {
  vs_pipelines : NoDup pcs.*1;
  vs_processors : forall pc, pc ∈ pcs -> NoDup (Processors pc.2);
  vs_no_collision : forall n m, n ∈ all_nodes -> m ∈ all_nodes -> node_ID n = node_ID m -> n = m;
}.

Inductive edge : node -> node -> Prop :=
| edge_receiver p cfg r :
    (p, cfg) ∈ pcs -> r ∈ plain set (Receivers cfg) -> edge (receiverNode (signal p) r) (capabilitiesNode p)
| edge_from_connector c e r :
    c ∈ used_connectors set pcs -> (e, r) ∈ connector_pairs set c pcs ->
    edge (connectorNode (signal e) (signal r) c) (capabilitiesNode r)
| edge_chain p cfg u v :
    (p, cfg) ∈ pcs -> (u, v) ∈ chain (capabilitiesNode p) (processorNode p <$> Processors cfg) (fanOutNode p) ->
    edge u v
| edge_exporter p cfg x :
    (p, cfg) ∈ pcs -> x ∈ plain set (Exporters cfg) -> edge (fanOutNode p) (exporterNode (signal p) x)
| edge_to_connector c e r :
    c ∈ used_connectors set pcs -> (e, r) ∈ connector_pairs set c pcs ->
    edge (fanOutNode e) (connectorNode (signal e) (signal r) c).

(** The nodes and edges of the graph, and the nodes of each pipeline. *)
Record shape {DG : DirectedGraph node} {DGL : DirectedGraphLaws node} (g : Graph) : Prop := {
  sh_ok : graph_ok (componentGraph g);
  sh_nodes : forall id n, Node (componentGraph g) id = Some n <-> id = node_ID n /\ n ∈ all_nodes;
  sh_edges : forall id v, v ∈ From (componentGraph g) id <-> exists u, id = node_ID u /\ edge u v;
  sh_pipelines : forall p, is_Some (pipelines g !! p) <-> p ∈ pcs.*1;
  sh_fanOut : forall p pg, pipelines g !! p = Some pg -> fanOut pg = Some (fanOutNode p);
  sh_processors : forall p pg cfg, pipelines g !! p = Some pg -> (p, cfg) ∈ pcs ->
    processors pg = processorNode p <$> Processors cfg;
  sh_exporters : forall p pg id n, pipelines g !! p = Some pg ->
    exporters pg !! id = Some n <-> id = node_ID n /\ edge (fanOutNode p) n;
  sh_instances : forall n, n ∈ all_nodes -> is_component n = true -> is_Some (instanceIDs g !! node_ID n);
}.
End spec.

(** ** createNodes *)

Section nodes.
Context {DG : DirectedGraph node} {DGL : DirectedGraphLaws node} (set : Settings).
Notation pcs := (PipelineConfigs set).
Context (Hvalid : valid_settings set).
Notation agrees := (agrees (all_nodes set)).

(** The view after the connectors [cs]. *)
Definition with_connectors (cs : list ID) (v : view) : view :=
  mkView (v_nodes v ++ (cs ≫= connector_nodes set pcs))
    (v_receivers v ++ (cs ≫= fun c => (fun er => (er.2, pair_node c er)) <$> connector_pairs set c pcs))
    (v_processors v)
    (v_exporters v ++ (cs ≫= fun c => (fun er => (er.1, pair_node c er)) <$> connector_pairs set c pcs))
    (v_capabilities v) (v_fanOuts v).

Lemma pipeline_nodes_in pc : pc ∈ pcs -> pipeline_nodes set pc ⊆ all_nodes set.
Proof. intros Hpc n Hn. apply elem_of_app. left. apply list_elem_of_bind. by exists pc. Qed.

Lemma connector_nodes_in c : c ∈ used_connectors set pcs -> connector_nodes set pcs c ⊆ all_nodes set.
Proof. intros Hc n Hn. apply elem_of_app. right. apply list_elem_of_bind. by exists c. Qed.

Lemma with_connectors_snoc c cs v :
  with_connectors (cs ++ [c]) v = link_pairs c (connector_pairs set c pcs) (with_connectors cs v).
Proof. unfold with_connectors, link_pairs, connector_nodes. simpl. by rewrite !bind_app, !bind_singleton, !app_assoc. Qed.

Lemma createNodes_spec :
  ((forall c, c ∈ used_connectors set pcs -> connector_ok set pcs c) /\
   exists g cs, createNodes set (newGraph set) = ok g /\ (forall c, c ∈ cs <-> c ∈ used_connectors set pcs) /\
     agrees (with_connectors cs (view_of set pcs)) g /\ dom (pipelines g) = list_to_set pcs.*1) \/
  (exists c e, c ∈ used_connectors set pcs /\ ~ connector_ok set pcs c /\
     createNodes set (newGraph set) = fails e /\ connector_error set pcs c e).
Proof.
  destruct (addPipelines_ok set (all_nodes set) (vs_no_collision _ Hvalid)) as (u & E & [Hg Hc He Hr] & Hd).
  { apply Hvalid. } { intros pc Hpc. split; [by apply Hvalid|by apply pipeline_nodes_in]. }
  unfold createNodes. rewrite E. simpl.
  assert (forall c, c ∈ connectors u <-> c ∈ used_connectors set pcs) as Hcs by (intros c; rewrite Hc; apply met_used).
  assert (forall c, uses (connectorsAsExporter u) c = exporter_uses set c pcs) as He' by (intros c; by rewrite He, used_exporters).
  assert (forall c, uses (connectorsAsReceiver u) c = receiver_uses set c pcs) as Hr' by (intros c; by rewrite Hr, used_receivers).
  set (Q := fun e => exists c, c ∈ used_connectors set pcs /\ ~ connector_ok set pcs c /\ connector_error set pcs c e).
  destruct (foldM_inv_err (addConnector set u) (fun k g => (forall c, c ∈ k -> connector_ok set pcs c) /\
    agrees (with_connectors k (view_of set pcs)) g /\ dom (pipelines g) = list_to_set pcs.*1) Q (connectors u) (u_graph u))
    as [(g & Eg & Hok & Hag & Hd')|(e & Ef & c & Hin & Hno & Herr)].
  - split; [by intros c ?%elem_of_nil|]. split; [|done]. unfold with_connectors. simpl. rewrite !app_nil_r. exact Hg.
  - intros k c r g El (Hok & Hag & Hdg).
    assert (c ∈ used_connectors set pcs) as Hin by (apply Hcs; rewrite El; apply elem_of_app; right; by left).
    destruct (addConnector_spec set (all_nodes set) (vs_no_collision _ Hvalid) pcs _ g u c Hag (connector_nodes_in c Hin) He' Hr')
      as [(Hc1 & g' & Eg & Hag' & Hdg')|(Hno & e & Ee & Herr)].
    + left. exists g'. split; [done|]. split_and!; [|by rewrite with_connectors_snoc|by rewrite Hdg'].
      intros d [?| ->%list_elem_of_singleton]%elem_of_app; auto.
    + right. exists e. split; [done|]. by exists c.
  - left. split; [intros c ?; by apply Hok, Hcs|]. by exists g, (connectors u).
  - right. by exists c, e.
Qed.

(** ** What the view holds *)

Lemma used_in (c : ID) (q : pipelineID) (l : pipelineID * PipelineConfig -> list ID) :
  q ∈ (pcs ≫= fun pc => (fun _ => pc.1) <$> filter (fun x => x = c) (connected set (l pc))) -> q ∈ pcs.*1.
Proof.
  intros (pc & (d & -> & _)%list_elem_of_fmap & Hpc)%list_elem_of_bind. by apply list_elem_of_fmap_2.
Qed.

Lemma pair_pipelines c e r : (e, r) ∈ connector_pairs set c pcs -> e ∈ pcs.*1 /\ r ∈ pcs.*1.
Proof.
  unfold connector_pairs. destruct (ConnectorFactory set (typeVal c)) as [f|]; [|by intros ?%elem_of_nil].
  intros (e' & (r' & ? & [_ Hr]%list_elem_of_filter)%list_elem_of_fmap & He)%list_elem_of_bind. simplify_eq.
  unfold exporter_uses, receiver_uses in *.
  split; [by apply (used_in c e' (fun pc => Exporters pc.2))|by apply (used_in c r' (fun pc => Receivers pc.2))].
Qed.

Lemma elem_of_pipeline_nodes n pc : n ∈ pipeline_nodes set pc <->
  (n ∈ receiver_nodes set pc \/ n ∈ processor_nodes pc \/ n ∈ exporter_nodes set pc) \/
  n = capabilitiesNode pc.1 \/ n = fanOutNode pc.1.
Proof. unfold pipeline_nodes. rewrite !elem_of_app, !list_elem_of_singleton. tauto. Qed.

Context (cs : list ID) (Hcs : forall c, c ∈ cs <-> c ∈ used_connectors set pcs).
Abbreviation v := (with_connectors cs (view_of set pcs)).

Lemma view_nodes n : n ∈ all_nodes set <->
  n ∈ v_nodes v \/ exists p, p ∈ pcs.*1 /\ (n = capabilitiesNode p \/ n = fanOutNode p).
Proof.
  unfold all_nodes, with_connectors. simpl. rewrite !elem_of_app, !list_elem_of_bind.
  setoid_rewrite Hcs. setoid_rewrite elem_of_pipeline_nodes. repeat setoid_rewrite elem_of_app. split.
  - intros [(pc & Hn & Hpc)|Hn]; [|by left; right].
    assert (pc.1 ∈ pcs.*1) by by apply list_elem_of_fmap_2.
    destruct Hn as [Hn|Hn]; [left; left; by exists pc|right; eauto].
  - intros [[(pc & Hn & Hpc)|Hn]|(p & (pc & -> & Hpc)%list_elem_of_fmap & Hn)]; [left; exists pc|by right|left; exists pc];
      (split; [tauto|done]).
Qed.

Lemma view_receivers p n : (p, n) ∈ v_receivers v <->
  (exists cfg, (p, cfg) ∈ pcs /\ n ∈ receiver_nodes set (p, cfg)) \/
  (exists c e, c ∈ used_connectors set pcs /\ (e, p) ∈ connector_pairs set c pcs /\ n = pair_node c (e, p)).
Proof.
  simpl. rewrite elem_of_app, !list_elem_of_bind. split.
  - intros [([q cfg] & (m & ? & Hm)%list_elem_of_fmap & Hpc)|(c & ([e r] & ? & Her)%list_elem_of_fmap & Hc%Hcs)];
      simplify_eq/=; [left; eauto|].
    right. by exists c, e.
  - intros [(cfg & Hpc & Hn)|(c & e & Hc & Her & ->)]; [left; exists (p, cfg); split; [by apply list_elem_of_fmap_2|done]|].
    right. exists c. split; [|by apply Hcs]. apply list_elem_of_fmap. by exists (e, p).
Qed.

Lemma view_exporters p n : (p, n) ∈ v_exporters v <->
  (exists cfg, (p, cfg) ∈ pcs /\ n ∈ exporter_nodes set (p, cfg)) \/
  (exists c r, c ∈ used_connectors set pcs /\ (p, r) ∈ connector_pairs set c pcs /\ n = pair_node c (p, r)).
Proof.
  simpl. rewrite elem_of_app, !list_elem_of_bind. split.
  - intros [([q cfg] & (m & ? & Hm)%list_elem_of_fmap & Hpc)|(c & ([e r] & ? & Her)%list_elem_of_fmap & Hc%Hcs)];
      simplify_eq/=; [left; eauto|].
    right. by exists c, r.
  - intros [(cfg & Hpc & Hn)|(c & r & Hc & Her & ->)]; [left; exists (p, cfg); split; [by apply list_elem_of_fmap_2|done]|].
    right. exists c. split; [|by apply Hcs]. apply list_elem_of_fmap. by exists (p, r).
Qed.

Lemma of_pipeline_app p l k : of_pipeline p (l ++ k) = of_pipeline p l ++ of_pipeline p k.
Proof. unfold of_pipeline. by rewrite filter_app, fmap_app. Qed.

Lemma of_pipeline_pair p q l : of_pipeline p (pair q <$> l) = if decide (q = p) then l else [].
Proof.
  unfold of_pipeline. induction l as [|n l IH]; [by case_decide|]. rewrite fmap_cons, filter_cons. cbn [fst].
  case_decide; [rewrite fmap_cons|]; rewrite IH; done.
Qed.

Lemma view_processors p cfg (l : list (pipelineID * PipelineConfig)) : NoDup l.*1 -> (p, cfg) ∈ l ->
  of_pipeline p (l ≫= fun pc => pair pc.1 <$> processor_nodes pc) = processorNode p <$> Processors cfg.
Proof.
  assert (forall l : list (pipelineID * PipelineConfig), p ∉ l.*1 ->
    of_pipeline p (l ≫= fun pc => pair pc.1 <$> processor_nodes pc) = []) as Hno.
  { clear. intros l. induction l as [|pc l IH]; [done|]. rewrite fmap_cons, not_elem_of_cons. intros [Hp Hl].
    rewrite bind_cons, of_pipeline_app, of_pipeline_pair, decide_False by congruence. by apply IH. }
  induction l as [|pc l IH]; intros Hnd Hin; [by apply elem_of_nil in Hin|].
  rewrite fmap_cons in Hnd. apply NoDup_cons in Hnd as [Hpc Hnd].
  rewrite bind_cons, of_pipeline_app, of_pipeline_pair. apply elem_of_cons in Hin as [<-|Hin].
  - simpl in *. rewrite decide_True, Hno by done. by rewrite app_nil_r.
  - rewrite decide_False by (intros E; apply Hpc; rewrite E; by apply (list_elem_of_fmap_2 fst l (p, cfg))).
    by apply IH.
Qed.

(** ** createEdges *)

Lemma elem_of_chain u w a ps b : (u, w) ∈ chain a ps b -> u ∈ a :: ps /\ w ∈ ps ++ [b].
Proof. unfold chain. intros Hin. split; [by eapply elem_of_zip_l|by eapply elem_of_zip_r]. Qed.

Lemma chain_distinct u w a ps b : NoDup (a :: ps ++ [b]) -> (u, w) ∈ chain a ps b -> u <> w.
Proof.
  unfold chain. intros Hnd [i Hi]%list_elem_of_lookup. apply lookup_zip_Some in Hi as [Hu Hw]. intros ->.
  assert ((a :: ps ++ [b]) !! i = Some w) as H1.
  { change (a :: ps ++ [b]) with ((a :: ps) ++ [b]). by apply lookup_app_l_Some. }
  assert ((a :: ps ++ [b]) !! S i = Some w) as H2 by done.
  pose proof (NoDup_lookup _ _ _ _ Hnd H1 H2). lia.
Qed.

Lemma chain_cons a n ps b : chain a (n :: ps) b = (a, n) :: chain n ps b.
Proof. done. Qed.

Lemma chain_first a ps b : exists x, (a, x) ∈ chain a ps b.
Proof. destruct ps as [|n ps]; [exists b|exists n]; by left. Qed.

Lemma chain_last a ps b : exists y, (y, b) ∈ chain a ps b.
Proof.
  revert a. induction ps as [|n ps IH]; intros a; [exists a; by left|].
  destruct (IH n) as [y Hy]. exists y. rewrite chain_cons. by right.
Qed.

(** A graph after the edges [done] were set. *)
Record drawn (N0 : list node) (done : list (node * node)) (cg : digraph) : Prop := {
  dr_ok : graph_ok cg;
  dr_nodes : forall id n, Node cg id = Some n <-> id = node_ID n /\ (n ∈ N0 \/ exists e, e ∈ done /\ (n = e.1 \/ n = e.2));
  dr_edges : forall id x, x ∈ From cg id <-> exists u, id = node_ID u /\ (u, x) ∈ done;
}.

Lemma addEdges_ok N0 done es cg : N0 ⊆ all_nodes set -> drawn N0 done cg ->
  (forall e, e ∈ done ++ es -> e.1 ∈ all_nodes set /\ e.2 ∈ all_nodes set /\ e.1 <> e.2) ->
  exists cg', foldM addEdge es cg = ok cg' /\ drawn N0 (done ++ es) cg'.
Proof.
  intros HN Hd He. apply (foldM_inv _ (fun k cg' => drawn N0 (done ++ k) cg')); [by rewrite app_nil_r|].
  intros k [a b] r cg1 El Hk. destruct (He (a, b)) as (Ha & Hb & Hab).
  { rewrite El, !elem_of_app. right. right. by left. } simpl in *.
  pose proof (vs_no_collision _ Hvalid) as Hinj.
  assert (forall n, n ∈ all_nodes set -> fits cg1 n) as Hfits.
  { intros n Hn. unfold fits. destruct (Node cg1 (node_ID n)) as [m|] eqn:E; [right|by left].
    apply (dr_nodes _ _ _ Hk) in E as [Hid Hm]. f_equal. symmetry. apply Hinj; [done| |done].
    destruct Hm as [?|(e & Hin & Hm)]; [auto|]. destruct (He e) as (?&?&?); [rewrite El, app_assoc; apply elem_of_app; by left|].
    destruct Hm; by subst. }
  destruct (SetEdge_new a b cg1 (dr_ok _ _ _ Hk)) as (cg2 & E2 & Hok2 & Hn2 & He2); [|by apply Hfits..|].
  { intros Hid. apply Hab. by apply Hinj. }
  unfold addEdge. simpl. rewrite E2. exists cg2. split; [done|]. rewrite app_assoc. split; [done| |].
  - intros id n. rewrite Hn2. setoid_rewrite elem_of_app. setoid_rewrite list_elem_of_singleton. split.
    + case_decide as Hb'; [intros; simplify_eq; split; [done|]; right; exists (a, n); naive_solver|].
      case_decide as Ha'; [intros; simplify_eq; split; [done|]; right; exists (n, b); naive_solver|].
      intros [-> Hn]%(dr_nodes _ _ _ Hk). split; [done|]. destruct Hn as [?|(e & ? & ?)]; [by left|right]. exists e. naive_solver.
    + intros [-> Hn].
      assert (n ∈ all_nodes set) as HnU.
      { destruct Hn as [?|(e & [Hin| ->] & Hn)]; [auto| |naive_solver].
        destruct (He e) as (?&?&?); [rewrite El, app_assoc; apply elem_of_app; by left|]. naive_solver. }
      case_decide as Hb'; [f_equal; symmetry; by apply Hinj|]. case_decide as Ha'; [f_equal; symmetry; by apply Hinj|].
      apply (dr_nodes _ _ _ Hk). split; [done|]. destruct Hn as [?|(e & [Hin| ->] & Hn)]; [by left|right; by exists e|].
      simpl in Hn. destruct Hn; by subst.
  - intros id x. rewrite He2, (dr_edges _ _ _ Hk). split.
    + intros [(u & -> & Hu)|[-> ->]]; [exists u|exists a]; (split; [done|]); apply elem_of_app; [by left|right; by left].
    + intros (u & -> & [Hu|Hu%list_elem_of_singleton]%elem_of_app); [left; by exists u|]. simplify_eq. by right.
Qed.

(** *** The edges of a pipeline *)

Context (g : Graph) (Hag : agrees v g) (Hdom : dom (pipelines g) = list_to_set pcs.*1).

Lemma pipelines_in p : is_Some (pipelines g !! p) <-> p ∈ pcs.*1.
Proof. by rewrite <- elem_of_dom, Hdom, elem_of_list_to_set. Qed.

Lemma pipeline_config p pg : pipelines g !! p = Some pg -> exists cfg, (p, cfg) ∈ pcs.
Proof.
  intros E. assert (p ∈ pcs.*1) as Hp by (apply pipelines_in; eauto).
  apply list_elem_of_fmap in Hp as ([q cfg] & -> & Hin). by exists cfg.
Qed.

Lemma pipeline_own p pg cfg : pipelines g !! p = Some pg -> (p, cfg) ∈ pcs ->
  capabilities pg = Some (capabilitiesNode p) /\ fanOut pg = Some (fanOutNode p) /\
  processors pg = processorNode p <$> Processors cfg.
Proof.
  intros E Hin. assert (p ∈ pcs.*1) as Hp by by apply (list_elem_of_fmap_2 fst _ (p, cfg)).
  rewrite (ag_capabilities _ _ _ Hag p pg E), (ag_fanOuts _ _ _ Hag p pg E), (ag_processors _ _ _ Hag p pg E).
  simpl. rewrite !decide_True by done. split_and!; [done..|]. apply (view_processors p cfg); [apply Hvalid|done].
Qed.

Definition edges_of (p : pipelineID) (cfg : PipelineConfig) (pg : pipelineNodes) : list (node * node) :=
  ((fun x => (x.2, capabilitiesNode p)) <$> map_to_list (receivers pg)) ++
  chain (capabilitiesNode p) (processorNode p <$> Processors cfg) (fanOutNode p) ++
  ((fun x => (fanOutNode p, x.2)) <$> map_to_list (exporters pg)).

Lemma pipelineEdges_eq p pg cfg : pipelines g !! p = Some pg -> (p, cfg) ∈ pcs ->
  pipelineEdges pg = Some (edges_of p cfg pg).
Proof.
  intros E Hin. destruct (pipeline_own p pg cfg E Hin) as (Ec & Ef & Ep). unfold pipelineEdges. by rewrite Ec, Ef, Ep.
Qed.

(** The edges drawn for a pipeline are those of the configuration that touch its nodes. *)
Lemma edges_of_edge p cfg pg e : pipelines g !! p = Some pg -> (p, cfg) ∈ pcs ->
  e ∈ edges_of p cfg pg -> edge set e.1 e.2.
Proof.
  intros E Hin. unfold edges_of. rewrite !elem_of_app, !list_elem_of_fmap.
  intros [([id n] & -> & Hn%elem_of_map_to_list)|[Hc|([id n] & -> & Hn%elem_of_map_to_list)]]; simpl.
  - apply (ag_receivers _ _ _ Hag p pg E) in Hn as [_ Hn]. apply view_receivers in Hn as [(cfg' & Hin' & Hn)|(c & e' & Hc & Her & ->)].
    + apply list_elem_of_fmap in Hn as (r & -> & Hr). by eapply edge_receiver.
    + by apply edge_from_connector.
  - destruct e as [a b]. by eapply edge_chain.
  - apply (ag_exporters _ _ _ Hag p pg E) in Hn as [_ Hn]. apply view_exporters in Hn as [(cfg' & Hin' & Hn)|(c & r & Hc & Her & ->)].
    + apply list_elem_of_fmap in Hn as (x & -> & Hx). by eapply edge_exporter.
    + by eapply edge_to_connector.
Qed.

Lemma edge_fanOut p n : edge set (fanOutNode p) n <->
  (exists cfg, (p, cfg) ∈ pcs /\ n ∈ exporter_nodes set (p, cfg)) \/
  (exists c r, c ∈ used_connectors set pcs /\ (p, r) ∈ connector_pairs set c pcs /\ n = pair_node c (p, r)).
Proof.
  split.
  - intros He. remember (fanOutNode p) as u eqn:Eu.
    destruct He as [q cfg r Hin _|c e r Hc Her|q cfg a b Hin Hc|q cfg x Hin Hx'|c e r Hc Her]; try done.
    + subst. apply elem_of_chain in Hc as [[?|(c & ? & _)%list_elem_of_fmap]%elem_of_cons _]; done.
    + injection Eu as ->. left. exists cfg. split; [done|]. by apply list_elem_of_fmap_2.
    + injection Eu as ->. right. by exists c, r.
  - intros [(cfg & Hin & (x & -> & Hx)%list_elem_of_fmap)|(c & r & Hc & Her & ->)];
      [by eapply edge_exporter|by apply edge_to_connector].
Qed.

Lemma edge_drawn a b : edge set a b -> exists p pg cfg, pipelines g !! p = Some pg /\ (p, cfg) ∈ pcs /\ (a, b) ∈ edges_of p cfg pg.
Proof.
  assert (forall p cfg, (p, cfg) ∈ pcs -> exists pg, pipelines g !! p = Some pg) as Hpg.
  { intros p cfg Hin. apply pipelines_in. by apply (list_elem_of_fmap_2 fst _ (p, cfg)). }
  assert (forall p, p ∈ pcs.*1 -> exists pg cfg, pipelines g !! p = Some pg /\ (p, cfg) ∈ pcs) as Hpg'.
  { intros p ([q cfg] & -> & Hin)%list_elem_of_fmap. destruct (Hpg q cfg Hin) as [pg ?]. by exists pg, cfg. }
  assert (forall p pg n, pipelines g !! p = Some pg -> (p, n) ∈ v_receivers v -> (n, capabilitiesNode p) ∈
    (fun x : Z * node => (x.2, capabilitiesNode p)) <$> map_to_list (receivers pg)) as Hr.
  { intros p pg n E Hn. apply list_elem_of_fmap. exists (node_ID n, n). split; [done|].
    apply elem_of_map_to_list. by apply (ag_receivers _ _ _ Hag p pg E). }
  assert (forall p pg n, pipelines g !! p = Some pg -> (p, n) ∈ v_exporters v -> (fanOutNode p, n) ∈
    (fun x : Z * node => (fanOutNode p, x.2)) <$> map_to_list (exporters pg)) as Hx.
  { intros p pg n E Hn. apply list_elem_of_fmap. exists (node_ID n, n). split; [done|].
    apply elem_of_map_to_list. by apply (ag_exporters _ _ _ Hag p pg E). }
  unfold edges_of. intros [p cfg r Hin Hr'|c e r Hc Her|p cfg a' b' Hin Hc|p cfg x Hin Hx'|c e r Hc Her].
  - destruct (Hpg p cfg Hin) as [pg E]. exists p, pg, cfg. split_and!; [done..|]. apply elem_of_app. left.
    apply Hr; [done|]. apply view_receivers. left. exists cfg. split; [done|]. by apply list_elem_of_fmap_2.
  - destruct (Hpg' r) as (pg & cfg & E & Hin); [apply (pair_pipelines _ _ _ Her)|]. exists r, pg, cfg. split_and!; [done..|].
    apply elem_of_app. left. apply Hr; [done|]. apply view_receivers. right. by exists c, e.
  - destruct (Hpg p cfg Hin) as [pg E]. exists p, pg, cfg. split_and!; [done..|]. rewrite !elem_of_app. by right; left.
  - destruct (Hpg p cfg Hin) as [pg E]. exists p, pg, cfg. split_and!; [done..|]. rewrite !elem_of_app. right. right.
    apply Hx; [done|]. apply view_exporters. left. exists cfg. split; [done|]. by apply list_elem_of_fmap_2.
  - destruct (Hpg' e) as (pg & cfg & E & Hin); [apply (pair_pipelines _ _ _ Her)|]. exists e, pg, cfg. split_and!; [done..|].
    rewrite !elem_of_app. right. right. apply Hx; [done|]. apply view_exporters. right. by exists c, r.
Qed.

(** *** The ends of the edges *)

Lemma own_nodes p cfg n : (p, cfg) ∈ pcs -> n ∈ pipeline_nodes set (p, cfg) -> n ∈ all_nodes set.
Proof. intros Hin Hn. by eapply pipeline_nodes_in. Qed.

Lemma pair_in c er : c ∈ used_connectors set pcs -> er ∈ connector_pairs set c pcs -> pair_node c er ∈ all_nodes set.
Proof. intros Hc Her. apply (connector_nodes_in c Hc). by apply list_elem_of_fmap_2. Qed.

Lemma chain_nodes p cfg a b : (p, cfg) ∈ pcs ->
  (a, b) ∈ chain (capabilitiesNode p) (processorNode p <$> Processors cfg) (fanOutNode p) ->
  a ∈ all_nodes set /\ b ∈ all_nodes set /\ a <> b.
Proof.
  intros Hin Hc. destruct (elem_of_chain _ _ _ _ _ Hc) as [Ha Hb]. split_and!.
  - eapply own_nodes; [exact Hin|]. apply elem_of_pipeline_nodes. apply elem_of_cons in Ha as [->|Ha]; auto.
  - eapply own_nodes; [exact Hin|]. apply elem_of_pipeline_nodes. apply elem_of_app in Hb as [Hb|Hb%list_elem_of_singleton]; auto.
  - eapply chain_distinct; [|exact Hc]. apply NoDup_cons. split.
    + rewrite elem_of_app, list_elem_of_fmap, list_elem_of_singleton. by intros [(? & ? & _)|?].
    + apply NoDup_app. split_and!; [|intros n (x & -> & _)%list_elem_of_fmap; by intros ?%list_elem_of_singleton|apply NoDup_singleton].
      apply NoDup_fmap_2; [by intros ?? [=]|]. by apply (vs_processors _ Hvalid (p, cfg)).
Qed.

Lemma edge_ends a b : edge set a b -> a ∈ all_nodes set /\ b ∈ all_nodes set /\ a <> b.
Proof.
  assert (forall p, p ∈ pcs.*1 -> capabilitiesNode p ∈ all_nodes set /\ fanOutNode p ∈ all_nodes set) as Hown.
  { intros p ([q cfg] & -> & Hin)%list_elem_of_fmap.
    split; (eapply own_nodes; [exact Hin|apply elem_of_pipeline_nodes; simpl; tauto]). }
  intros [p cfg r Hin Hr'|c e r Hc Her|p cfg a' b' Hin Hc|p cfg x Hin Hx'|c e r Hc Her].
  - split_and!; [|apply Hown; by apply (list_elem_of_fmap_2 fst _ (p, cfg))|done].
    eapply own_nodes; [exact Hin|]. apply elem_of_pipeline_nodes. left. left. by apply list_elem_of_fmap_2.
  - split_and!; [by apply (pair_in c (e, r))|apply Hown, (pair_pipelines _ _ _ Her)|done].
  - by eapply chain_nodes.
  - split_and!; [apply Hown; by apply (list_elem_of_fmap_2 fst _ (p, cfg))| |done].
    eapply own_nodes; [exact Hin|]. apply elem_of_pipeline_nodes. left. right. right. by apply list_elem_of_fmap_2.
  - split_and!; [apply Hown, (pair_pipelines _ _ _ Her)|by apply (pair_in c (e, r))|done].
Qed.

(** The two nodes of a pipeline are ends of its chain. *)
Lemma own_drawn p cfg pg : exists x y,
  (capabilitiesNode p, x) ∈ edges_of p cfg pg /\ (y, fanOutNode p) ∈ edges_of p cfg pg.
Proof.
  destruct (chain_first (capabilitiesNode p) (processorNode p <$> Processors cfg) (fanOutNode p)) as [x Hx].
  destruct (chain_last (capabilitiesNode p) (processorNode p <$> Processors cfg) (fanOutNode p)) as [y Hy].
  exists x, y. unfold edges_of. rewrite !elem_of_app. auto.
Qed.

Lemma createEdges_spec : exists g', createEdges g = ok g' /\ shape set g'.
Proof.
  unfold createEdges.
  destruct (foldM_inv (fun cg (x : pipelineID * pipelineNodes) => rbind (must (pipelineEdges x.2)) (fun es => foldM addEdge es cg))
    (fun k cg => exists done, drawn (v_nodes v) done cg /\
       (forall e, e ∈ done <-> exists p pg cfg, (p, pg) ∈ k /\ (p, cfg) ∈ pcs /\ e ∈ edges_of p cfg pg))
    (map_to_list (pipelines g)) (componentGraph g)) as (cg & E & done & Hdr & Hdone).
  - exists []. split; [|intros e; split; [by intros ?%elem_of_nil|by intros (?&?&?&?%elem_of_nil&_)]].
    split; [apply Hag| |].
    + intros id n. split.
      * intros E. destruct (agrees_node _ _ _ _ _ Hag E) as [? ->]. auto.
      * intros [-> [Hn|(e & ?%elem_of_nil & _)]]; [|done]. by apply (ag_nodes _ _ _ Hag).
    + intros id x. rewrite (ag_edges _ _ _ Hag). split; [by intros ?%elem_of_nil|by intros (u & _ & ?%elem_of_nil)].
  - intros k [p pg] r cg El (done & Hdr & Hdone).
    assert (pipelines g !! p = Some pg) as Ep.
    { apply elem_of_map_to_list. rewrite El. apply elem_of_app. right. by left. }
    destruct (pipeline_config p pg Ep) as [cfg Hin]. simpl. rewrite (pipelineEdges_eq p pg cfg Ep Hin). simpl.
    destruct (addEdges_ok (v_nodes v) done (edges_of p cfg pg) cg) as (cg' & E' & Hdr'); [apply Hag|done| |].
    { intros e He. apply edge_ends. apply elem_of_app in He as [(q & pg' & cfg' & Hq & Hin' & He)%Hdone|He].
      - eapply edges_of_edge; [|exact Hin'|exact He]. apply elem_of_map_to_list. rewrite El. apply elem_of_app. by left.
      - by eapply edges_of_edge. }
    exists cg'. split; [done|]. exists (done ++ edges_of p cfg pg). split; [done|]. intros e. rewrite elem_of_app, Hdone. split.
    + intros [(q & pg' & cfg' & Hq & ? & ?)|He].
      * exists q, pg', cfg'. rewrite elem_of_app. auto.
      * exists p, pg, cfg. rewrite elem_of_app, list_elem_of_singleton. auto.
    + intros (q & pg' & cfg' & [Hq|Hq%list_elem_of_singleton]%elem_of_app & Hin' & He); [left; by exists q, pg', cfg'|].
      simplify_eq. right. assert (cfg' = cfg) as ->; [|done].
      apply (NoDup_fst_unique pcs p); [apply Hvalid|done|done].
  - rewrite E. simpl. eexists. split; [done|].
    assert (forall a b, (a, b) ∈ done <-> edge set a b) as Hedges.
    { intros a b. rewrite Hdone. split.
      - intros (p & pg & cfg & Hp%elem_of_map_to_list & Hin & He). by apply (edges_of_edge p cfg pg (a, b)).
      - intros (p & pg & cfg & Ep & Hin & He)%edge_drawn. exists p, pg, cfg. by rewrite elem_of_map_to_list. }
    split; simpl.
    + apply Hdr.
    + intros id n. rewrite (dr_nodes _ _ _ Hdr), view_nodes. split; intros [-> Hn]; (split; [done|]).
      * destruct Hn as [Hn|([a b] & [Ha [Hb _]]%Hedges%edge_ends & Hn)]; [by left|].
        apply view_nodes. destruct Hn; by subst.
      * destruct Hn as [Hn|(p & Hp & Hn)]; [by left|]. right.
        apply pipelines_in in Hp as [pg Ep]. destruct (pipeline_config p pg Ep) as [cfg Hin].
        destruct (own_drawn p cfg pg) as (x & y & Hx & Hy).
        destruct Hn as [->| ->]; [exists (capabilitiesNode p, x)|exists (y, fanOutNode p)];
          (split; [|by auto]); apply Hdone; exists p, pg, cfg; by rewrite elem_of_map_to_list.
    + intros id w. rewrite (dr_edges _ _ _ Hdr). by setoid_rewrite Hedges.
    + apply pipelines_in.
    + intros p pg Ep. destruct (pipeline_config p pg Ep) as [cfg Hin]. by apply (pipeline_own p pg cfg).
    + intros p pg cfg Ep Hin. by apply (pipeline_own p pg cfg).
    + intros p pg id n Ep. rewrite (ag_exporters _ _ _ Hag p pg Ep), view_exporters, edge_fanOut. done.
    + intros n Hn Hc. apply (ag_instances _ _ _ Hag). apply view_nodes in Hn as [?|(p & _ & [->| ->])]; done.
Qed.
End nodes.

(** ** Both steps *)

(** createNodes and createEdges succeed exactly if the connectors are used correctly, and
    then the graph has the shape of the configuration. *)
Lemma create_spec {DG : DirectedGraph node} {DGL : DirectedGraphLaws node} set : valid_settings set ->
  ((forall c, c ∈ used_connectors set (PipelineConfigs set) -> connector_ok set (PipelineConfigs set) c) /\
   exists g g', createNodes set (newGraph set) = ok g /\ createEdges g = ok g' /\ shape set g') \/
  (exists c e, c ∈ used_connectors set (PipelineConfigs set) /\ ~ connector_ok set (PipelineConfigs set) c /\
     createNodes set (newGraph set) = fails e /\ connector_error set (PipelineConfigs set) c e).
Proof.
  intros Hv. destruct (createNodes_spec set Hv) as [(Hok & g & cs & E & Hcs & Hag & Hd)|Herr]; [left|by right].
  split; [done|]. destruct (createEdges_spec set Hv cs Hcs g Hag Hd) as (g' & E' & Hsh). by exists g, g'.
Qed.
