(* ===== verification/GraphBuild.v ===== *)
(** * GraphBuild: building the components

    buildComponents visits the nodes so that every node comes after those it sends to, so
    it never meets a consumer that is not built, and the consumers it makes declare what
    they do to their data. *)

From S2P Require Import Prelude.
From S2P Require Import GoErrors.
From S2P Require Import Ids.
From S2P Require Import Digraph.
From S2P Require Import Consumers.
From S2P Require Import ConsumersProofs.
From S2P Require Import Graph.
From S2P Require Import GraphNodes.
From S2P Require Import GraphEdges.

(** The signal a node consumes; for a receiver, which consumes none, what it sends. *)
Definition signal_in (n : node) : Signal :=
  match n with
  | receiverNode s _ | exporterNode s _ | connectorNode s _ _ => s
  | processorNode p _ | capabilitiesNode p | fanOutNode p => signal p
  end.

Definition signal_out (n : node) : Signal := match n with connectorNode _ r _ => r | _ => signal_in n end.

Lemma Capabilities_NewFanout cs : Capabilities (NewFanout cs) = true -> exists c, c ∈ cs /\ Capabilities c = true.
Proof.
  unfold NewFanout. set (w := tracesConsumer _ _). intros E.
  assert (Capabilities w = true -> exists c, c ∈ cs /\ Capabilities c = true) as Hw.
  { intros [Hl _]%andb_true_iff. destruct (filter (fun c => Capabilities c = true) cs) as [|c l] eqn:Ef; [done|].
    exists c. apply and_comm, (list_elem_of_filter (fun c => Capabilities c = true)). rewrite Ef. by left. }
  destruct cs as [|c [|? ?]]; auto. destruct (Capabilities c) eqn:Ec; simpl in E; [auto|congruence].
Qed.

(** A consumer that is well formed and declares what it does; and one that, in addition,
    may be given read-only data. *)
Definition sound (c : consumer) : Prop := well_formed c /\ honest c.
Definition good_feed (c : consumer) : Prop := well_formed c /\ honest c /\ needs_mutable c = false.

Lemma sound_NewObs t c : sound c -> sound (NewObs t c).
Proof. unfold sound, honest. by destruct (NewObs_eq t c) as (-> & -> & _ & ->). Qed.

Lemma good_feed_NewObs t c : good_feed c -> good_feed (NewObs t c).
Proof. unfold good_feed, honest. by destruct (NewObs_eq t c) as (-> & -> & -> & ->). Qed.

Lemma NewFanout_good cs : Forall sound cs -> good_feed (NewFanout cs).
Proof.
  intros [Hw Hh]%Forall_and. split_and!; [by apply NewFanout_well_formed|by apply NewFanout_honest|by apply NewFanout_needs_nothing].
Qed.

Section build.
Context {DG : DirectedGraph node} {DGL : DirectedGraphLaws node} (set : Settings).
Notation pcs := (PipelineConfigs set).
Context (Hvalid : valid_settings set) (g : Graph) (Hg : shape set g).

(** ** Which node follows which *)

Lemma chain_nodes_inv p ps u w :
  (u, w) ∈ chain (capabilitiesNode p) (processorNode p <$> ps) (fanOutNode p) ->
  (u = capabilitiesNode p \/ exists c, u = processorNode p c) /\ (w = fanOutNode p \/ exists c, w = processorNode p c).
Proof.
  intros [Hu Hw]%elem_of_chain. split.
  - apply elem_of_cons in Hu as [->|(c & -> & _)%list_elem_of_fmap]; eauto.
  - apply elem_of_app in Hw as [(c & -> & _)%list_elem_of_fmap| ->%list_elem_of_singleton]; eauto.
Qed.

Lemma edge_inv u w : edge set u w ->
  match u with
  | receiverNode s _ => exists p, w = capabilitiesNode p /\ signal p = s
  | connectorNode _ r _ => exists p, w = capabilitiesNode p /\ signal p = r
  | exporterNode _ _ => False
  | capabilitiesNode p | processorNode p _ => w = fanOutNode p \/ exists c, w = processorNode p c
  | fanOutNode p => (exists c, w = exporterNode (signal p) c) \/ exists r c, w = connectorNode (signal p) r c
  end.
Proof.
  intros [p cfg r Hin Hr'|c e r Hc Her|p cfg a b Hin Hc|p cfg x Hin Hx'|c e r Hc Her]; eauto.
  apply chain_nodes_inv in Hc as [[->|[c ->]] Hb]; done.
Qed.

Lemma edge_signals u w : edge set u w -> signal_in w = signal_out u.
Proof. intros He%edge_inv. destruct u; naive_solver. Qed.

Lemma all_nodes_inv n : n ∈ all_nodes set ->
  match n with
  | processorNode p c => exists cfg, (p, cfg) ∈ pcs /\ c ∈ Processors cfg
  | capabilitiesNode p | fanOutNode p => exists cfg, (p, cfg) ∈ pcs
  | exporterNode _ _ => exists p, edge set (fanOutNode p) n
  | _ => True
  end.
Proof.
  intros [([q cfg] & Hn & Hin)%list_elem_of_bind|(c & (er & -> & _)%list_elem_of_fmap & _)%list_elem_of_bind]%elem_of_app; [|done].
  apply elem_of_pipeline_nodes in Hn as [[Hn|[Hn|Hn]]|[->| ->]]; simpl in *; eauto;
    apply list_elem_of_fmap in Hn as (c & -> & Hc); simpl; eauto. exists q. by eapply edge_exporter.
Qed.

Lemma chain_succ x a ps b : x ∈ a :: ps -> exists y, (x, y) ∈ chain a ps b.
Proof.
  revert a. induction ps as [|n ps IH]; intros a.
  - intros ->%list_elem_of_singleton. apply chain_first.
  - intros [->|Hx]%elem_of_cons; [apply chain_first|]. destruct (IH n Hx) as [y Hy]. exists y. rewrite chain_cons. by right.
Qed.

Lemma pipeline_succ n p : n ∈ all_nodes set -> (n = capabilitiesNode p \/ exists c, n = processorNode p c) ->
  exists w, edge set n w.
Proof.
  intros Hn Hk. pose proof (all_nodes_inv n Hn) as Hi.
  assert (exists cfg, (p, cfg) ∈ pcs /\ n ∈ capabilitiesNode p :: (processorNode p <$> Processors cfg)) as (cfg & Hin & Hc).
  { destruct Hk as [->|[c ->]]; simpl in Hi.
    - destruct Hi as [cfg ?]. exists cfg. split; [done|by left].
    - destruct Hi as (cfg & ? & ?). exists cfg. split; [done|]. right. by apply list_elem_of_fmap_2. }
  destruct (chain_succ n (capabilitiesNode p) _ (fanOutNode p) Hc) as [w Hw]. exists w. by eapply edge_chain.
Qed.

(** ** The consumers *)

(** Somebody in the pipeline declares to change the data. *)
Definition declared (p : pipelineID) (b : built) : Prop :=
  exists n c, (n = fanOutNode p \/ exists x, n = processorNode p x) /\ n ∈ all_nodes set /\
    consumers b !! node_ID n = Some c /\ Capabilities (cons c) = true.

Record good (n : node) (c : baseConsumer) (b : built) : Prop := {
  gd_signal : cons_signal c = signal_in n;
  gd_pipeline : cons_pipeline c = match n with capabilitiesNode p => Some p | _ => None end;
  gd_well_formed : well_formed (cons c);
  gd_honest : match n with processorNode p _ => mutates_input (cons c) = true -> declared p b | _ => honest (cons c) end;
}.

Definition consumes (n : node) : bool := match n with receiverNode _ _ => false | _ => true end.
Definition is_feeder (n : node) : bool := match n with receiverNode _ _ | connectorNode _ _ _ => true | _ => false end.

(** The nodes [done] are built. *)
Record built_ok (done : list node) (b : built) : Prop := {
  bo_nodes : done ⊆ all_nodes set;
  bo_closed : forall n w, n ∈ done -> edge set n w -> w ∈ done;
  bo_consumers : forall n, n ∈ done -> consumes n = true -> exists c, consumers b !! node_ID n = Some c /\ good n c b;
  bo_feeds : forall n, n ∈ done -> is_feeder n = true -> exists c, feeds b !! node_ID n = Some c /\ good_feed c;
  bo_created : forall n, n ∈ done -> is_component n = true -> exists c, Create set n = inl c;
  bo_dom : forall id c, consumers b !! id = Some c -> exists n, n ∈ done /\ id = node_ID n;
}.

Definition create_error (e : error) : Prop :=
  exists n err, n ∈ all_nodes set /\ is_component n = true /\ Create set n = inr err /\ (e = err \/ exists msg, e = ErrWrap msg err).

Lemma id_inj n m : n ∈ all_nodes set -> m ∈ all_nodes set -> node_ID n = node_ID m -> n = m.
Proof. apply (vs_no_collision _ Hvalid). Qed.

Lemma From_edge n w : n ∈ all_nodes set -> w ∈ From (componentGraph g) (node_ID n) <-> edge set n w.
Proof.
  intros Hn. rewrite (sh_edges _ _ Hg). split; [|by exists n]. intros (u & Hid & He).
  destruct (edge_ends set Hvalid u w He) as (Hu & _). by rewrite (id_inj n u Hn Hu Hid).
Qed.

Lemma good_mono n c b b' : consumers b ⊆ consumers b' -> good n c b -> good n c b'.
Proof.
  intros Hsub [? ? ? Hh]. split; try done. destruct n; try done. intros Hm.
  destruct (Hh Hm) as (x & cx & ? & ? & E & ?). exists x, cx. split_and!; [done..| |done]. by eapply lookup_weaken.
Qed.

Lemma declared_mono p b b' : consumers b ⊆ consumers b' -> declared p b -> declared p b'.
Proof. intros Hsub (x & c & ? & ? & ? & ?). exists x, c. split_and!; [done..| |done]. by eapply lookup_weaken. Qed.

Lemma fresh done b n : built_ok done b -> n ∈ all_nodes set -> n ∉ done ->
  (forall m, m ∈ done -> node_ID n <> node_ID m) /\ consumers b !! node_ID n = None.
Proof.
  intros [Hnodes _ _ _ _ Hdom] Hn Hnew.
  assert (forall m, m ∈ done -> node_ID n <> node_ID m) as Hne.
  { intros m Hm E. apply Hnew. by rewrite (id_inj n m Hn (Hnodes _ Hm) E). }
  split; [done|]. destruct (consumers b !! node_ID n) as [c|] eqn:E; [|done].
  destruct (Hdom _ _ E) as (m & Hm & Hid). by destruct (Hne m Hm).
Qed.

(** A node more, with its consumer and what it feeds. *)
Lemma built_ok_add done b n cs fd b' :
  built_ok done b -> n ∈ all_nodes set -> n ∉ done -> (forall w, edge set n w -> w ∈ done) ->
  consumers b' = (match cs with Some c => <[node_ID n := c]> (consumers b) | None => consumers b end) ->
  feeds b' = (match fd with Some c => <[node_ID n := c]> (feeds b) | None => feeds b end) ->
  (consumes n = true -> exists c, cs = Some c /\ good n c b') ->
  (is_feeder n = true -> exists c, fd = Some c /\ good_feed c) ->
  (is_component n = true -> exists c, Create set n = inl c) ->
  built_ok (done ++ [n]) b'.
Proof.
  intros Hb Hn Hnew Hsucc Ec Ef Hgc Hgf Hcr. destruct (fresh done b n Hb Hn Hnew) as [Hne Hnone].
  destruct Hb as [Hnodes Hclosed Hcons Hfeeds Hcreated Hdom].
  assert (consumers b ⊆ consumers b') as Hsub.
  { rewrite Ec. destruct cs; [by apply insert_subseteq|done]. }
  split.
  - intros m [Hm| ->%list_elem_of_singleton]%elem_of_app; auto.
  - intros m w [Hm| ->%list_elem_of_singleton]%elem_of_app Hw; apply elem_of_app; left; eauto.
  - intros m [Hm| ->%list_elem_of_singleton]%elem_of_app Hc.
    + destruct (Hcons m Hm Hc) as (c & E & Hgood). exists c. split; [by eapply lookup_weaken|by eapply good_mono].
    + destruct (Hgc Hc) as (c & -> & ?). exists c. rewrite Ec. by rewrite lookup_insert_eq.
  - intros m [Hm| ->%list_elem_of_singleton]%elem_of_app Hc.
    + destruct (Hfeeds m Hm Hc) as (c & E & Hgood). exists c. split; [|done]. rewrite Ef. destruct fd; [|done].
      rewrite lookup_insert_ne; auto.
    + destruct (Hgf Hc) as (c & -> & ?). exists c. rewrite Ef. by rewrite lookup_insert_eq.
  - intros m [Hm| ->%list_elem_of_singleton]%elem_of_app; auto.
  - intros id c E. rewrite Ec in E. destruct cs as [c'|].
    + apply lookup_insert_Some in E as [[<- _]|[_ E]].
      * exists n. split; [|done]. apply elem_of_app. right. by left.
      * destruct (Hdom _ _ E) as (m & ? & ?). exists m. rewrite elem_of_app. auto.
    + destruct (Hdom _ _ E) as (m & ? & ?). exists m. rewrite elem_of_app. auto.
Qed.

(** ** The next consumers of a node *)

Section node.
Context (done : list node) (b : built) (Hb : built_ok done b).
Context (n : node) (Hn : n ∈ all_nodes set) (Hnew : n ∉ done) (Hsucc : forall w, edge set n w -> w ∈ done).

Lemma next_built w : edge set n w -> exists c, consumers b !! node_ID w = Some c /\ good w c b.
Proof.
  intros He. apply (bo_consumers _ _ Hb); [by apply Hsucc|]. apply edge_inv in He. destruct n; naive_solver.
Qed.

Abbreviation nexts := (nextConsumers g b (node_ID n)).

(** The consumers that the type assertions give. *)
Definition is_next (c : consumer) : Prop :=
  exists w bc, edge set n w /\ consumers b !! node_ID w = Some bc /\ good w bc b /\ cons bc = c.

Lemma nexts_ok : exists cs, mapM (asSignal (signal_out n)) nexts = Some cs /\ Forall is_next cs.
Proof.
  unfold nextConsumers.
  assert (forall w, w ∈ From (componentGraph g) (node_ID n) -> edge set n w) as Hw by (intros w; by apply From_edge).
  induction (From (componentGraph g) (node_ID n)) as [|w ws IH]; [by exists []|].
  destruct IH as (cs & E & Hcs); [intros; apply Hw; by right|].
  assert (edge set n w) as He by (apply Hw; by left). destruct (next_built w He) as (c & Ec & Hgood).
  exists (cons c :: cs). rewrite fmap_cons. simpl. rewrite Ec. simpl.
  rewrite (gd_signal _ _ _ Hgood), (edge_signals _ _ He), decide_True by done. simpl. rewrite E. simpl. split; [done|].
  constructor; [|done]. by exists w, c.
Qed.

Lemma capabilities_ok : (forall w, edge set n w -> exists p, w = capabilitiesNode p) ->
  exists cs, mapM (asCapabilities (signal_out n)) nexts = Some cs /\ Forall is_next cs.*2.
Proof.
  intros Hcap. unfold nextConsumers.
  assert (forall w, w ∈ From (componentGraph g) (node_ID n) -> edge set n w) as Hw by (intros w; by apply From_edge).
  induction (From (componentGraph g) (node_ID n)) as [|w ws IH]; [by exists []|].
  destruct IH as (cs & E & Hcs); [intros; apply Hw; by right|].
  assert (edge set n w) as He by (apply Hw; by left). destruct (next_built w He) as (c & Ec & Hgood).
  destruct (Hcap w He) as [p ->].
  exists ((p, cons c) :: cs). rewrite fmap_cons. simpl. rewrite Ec. simpl. rewrite (gd_pipeline _ _ _ Hgood). simpl.
  rewrite (gd_signal _ _ _ Hgood), (edge_signals _ _ He), decide_True by done. simpl. rewrite E. simpl. split; [done|].
  constructor; [|done]. by exists (capabilitiesNode p), c.
Qed.

Lemma next_ok p : (n = capabilitiesNode p \/ exists c, n = processorNode p c) ->
  exists next rest, nexts = next :: rest /\ exists c, asSignal (signal p) next = Some c /\ is_next c.
Proof.
  intros Hk. destruct (pipeline_succ n p Hn Hk) as [w0 Hw0%From_edge]; [|done]. unfold nextConsumers.
  destruct (From (componentGraph g) (node_ID n)) as [|w ws] eqn:EF; [by apply elem_of_nil in Hw0|].
  assert (edge set n w) as He by (apply From_edge; [done|]; rewrite EF; by left).
  destruct (next_built w He) as (c & Ec & Hgood). eexists _, _. split; [done|]. exists (cons c). rewrite Ec. simpl.
  rewrite (gd_signal _ _ _ Hgood), (edge_signals _ _ He), decide_True by by destruct Hk as [->|[? ->]]. split; [done|].
  by exists w, c.
Qed.

Lemma next_well_formed c : is_next c -> well_formed c.
Proof. by intros (w & bc & _ & _ & [] & <-). Qed.

Lemma next_honest c : (forall p x, ~ edge set n (processorNode p x)) -> is_next c -> honest c.
Proof. intros Hno (w & bc & He & _ & [_ _ _ Hh] & <-). destruct w; try done. by destruct (Hno _ _ He). Qed.

Lemma next_sound cs : (forall p x, ~ edge set n (processorNode p x)) -> Forall is_next cs -> Forall sound cs.
Proof.
  intros Hno Hcs. eapply Forall_impl; [exact Hcs|]. intros c Hc. split; [by apply next_well_formed|by apply next_honest].
Qed.

(** What follows in a pipeline changes its argument only if somebody declares it. *)
Lemma next_declared p c : (n = capabilitiesNode p \/ exists i, n = processorNode p i) -> is_next c ->
  mutates_input c = true -> declared p b.
Proof.
  intros Hk (w & bc & He & E & [_ _ _ Hh] & <-) Hm.
  assert (w = fanOutNode p \/ exists i, w = processorNode p i) as [->|[i ->]]
    by by apply edge_inv in He; destruct Hk as [->|[i ->]].
  - exists (fanOutNode p), bc. split_and!; [by left|by apply (edge_ends set Hvalid) in He as (_ & ? & _)|done|by apply Hh].
  - by apply Hh.
Qed.

(** ** Each kind of node *)

(** The node is built, or its factory failed. *)
Definition node_built : Prop :=
  (exists b', buildNode set g b n = ok b' /\ built_ok (done ++ [n]) b') \/
  (exists e, buildNode set g b n = fails e /\ create_error e).

Lemma create_failed e err : is_component n = true -> Create set n = inr err -> buildNode set g b n = fails e ->
  (e = err \/ exists msg, e = ErrWrap msg err) -> node_built.
Proof. intros Hk E Eb He. right. exists e. split; [done|]. by exists n, err. Qed.

(** A node without feed, or with one. *)
Lemma consumer_built c : buildNode set g b n = ok (set_consumer (node_ID n) c b) -> is_feeder n = false ->
  (is_component n = true -> exists c, Create set n = inl c) -> good n c (set_consumer (node_ID n) c b) -> node_built.
Proof.
  intros E Hf Hcr Hgood. left. eexists. split; [exact E|].
  apply (built_ok_add done b n (Some c) None); auto; [by eauto|by rewrite Hf].
Qed.

Lemma receiver_built s i : n = receiverNode s i -> node_built.
Proof.
  intros En. destruct nexts_ok as (cs & E & Hcs).
  assert (buildNode set g b n = buildReceiver set n s nexts b) as Eb by (by rewrite En).
  unfold buildReceiver in Eb. replace s with (signal_out n) in Eb by by rewrite En. rewrite E in Eb. simpl in Eb.
  destruct (Create set n) as [c|err] eqn:Ec; [|eapply create_failed; [by rewrite En|by eauto..]].
  left. eexists. split; [exact Eb|].
  eapply (built_ok_add done b n None (Some _)); try done; [by rewrite En| |by eauto]. intros _. eexists. split; [done|].
  apply good_feed_NewObs, NewFanout_good, next_sound; [|done]. intros p x He%edge_inv. rewrite En in He. naive_solver.
Qed.

Lemma exporter_built s i : n = exporterNode s i -> node_built.
Proof.
  intros En. assert (buildNode set g b n = buildExporter set n s b) as Eb by (by rewrite En).
  unfold buildExporter in Eb. destruct (Create set n) as [c|err] eqn:Ec; [|eapply create_failed; [by rewrite En|by eauto..]].
  eapply consumer_built; [exact Eb|by rewrite En|rewrite ?En in *; by eauto|]. set (b' := set_consumer _ _ _). clearbody b'. generalize (node_ID n) as id. intros id. rewrite En.
  destruct (NewObs_eq (newPipelineTelemetry set) (exporter id (how c) (async c))) as (Ecap & Em & _ & Hw).
  split; simpl; try done; [by apply Hw|]. unfold honest. simpl. by rewrite Em, Ecap.
Qed.

Lemma fanOut_built p : n = fanOutNode p -> node_built.
Proof.
  intros En. destruct nexts_ok as (cs & E & Hcs).
  assert (buildNode set g b n = buildFanOut n p nexts b) as Eb by (by rewrite En).
  unfold buildFanOut in Eb. replace (signal p) with (signal_out n) in Eb at 1 by by rewrite En. rewrite E in Eb. simpl in Eb.
  eapply consumer_built; [exact Eb|by rewrite En|rewrite ?En in *; by eauto|]. set (b' := set_consumer _ _ _). clearbody b'. rewrite En.
  destruct (NewFanout_good cs) as (? & ? & _); [|by split].
  apply next_sound; [|done]. intros q x He%edge_inv. rewrite En in He. naive_solver.
Qed.

Lemma processor_built p i : n = processorNode p i -> node_built.
Proof.
  intros En. destruct (next_ok p) as (nx & rest & Enx & c & Ec & Hnx); [eauto|].
  assert (buildNode set g b n = buildProcessor set n (signal p) nx b) as Eb by (rewrite En; simpl; rewrite <- En, Enx; done).
  unfold buildProcessor in Eb. rewrite Ec in Eb. simpl in Eb.
  destruct (Create set n) as [cp|err] eqn:Ecr; [|eapply create_failed; [by rewrite En|by eauto..]].
  eapply consumer_built; [exact Eb|by rewrite En|rewrite ?En in *; by eauto|].
  set (t := newPipelineTelemetry set). set (comp := processor _ _ _).
  destruct (NewObs_eq t comp) as (Ecap & Em & _ & Hw). destruct (NewObs_eq t c) as (_ & Em' & _ & Hw').
  set (bc := mkBaseConsumer _ _ _).
  assert (consumers b ⊆ consumers (set_consumer (node_ID n) bc b)) as Hsub by by apply insert_subseteq, fresh with done.
  split; rewrite ?En; try done; simpl.
  - apply Hw. simpl. apply Hw'. by apply next_well_formed.
  - rewrite Em. destruct (how cp) eqn:Eh; unfold comp; simpl; [|intros _|done].
    + rewrite Em', <- En. intros Hm. eapply declared_mono; [exact Hsub|]. eapply next_declared; eauto.
    + rewrite <- En. exists n, bc. split_and!; [eauto|done|by apply lookup_insert_eq|]. simpl. by rewrite Ecap.
Qed.

(** The router of a connector has a consumer for each pipeline it may send to. *)
Lemma connector_built e r i : n = connectorNode e r i -> node_built.
Proof.
  intros En. destruct capabilities_ok as (cs & E & Hcs).
  { intros w He%edge_inv. rewrite En in He. naive_solver. }
  assert (buildNode set g b n = buildConnector set n e r nexts b) as Eb by (by rewrite En).
  unfold buildConnector in Eb. replace (signal_out n) with r in E by by rewrite En. rewrite E in Eb. cbn [must rbind ok] in Eb.
  set (t := newPipelineTelemetry set) in *. set (router := (map_to_list _).*2) in Eb.
  assert (forall c, c ∈ router -> c ∈ cs.*2) as Hrouter.
  { intros c ([q c'] & -> & Hin)%list_elem_of_fmap. apply elem_of_map_to_list, elem_of_list_to_map_2 in Hin.
    by apply (list_elem_of_fmap_2 snd) in Hin. }
  assert (Forall sound cs.*2) as Hsound.
  { apply next_sound; [|done]. intros p x He%edge_inv. rewrite En in He. naive_solver. }
  assert (good_feed (NewFanout (NewObs t <$> router))) as Hfeed.
  { apply NewFanout_good, Forall_forall. intros c (c' & -> & Hc%Hrouter)%list_elem_of_fmap.
    rewrite Forall_forall in Hsound. by apply sound_NewObs, Hsound. }
  destruct (Create set n) as [c|err] eqn:Ecr; [|eapply create_failed; [by rewrite En|by eauto..]].
  set (bc := mkBaseConsumer _ _ _) in Eb.
  left. eexists. split; [exact Eb|]. apply (built_ok_add done b n (Some bc) (Some (NewFanout (NewObs t <$> router)))); try done; [|by eauto..].
  intros _. exists bc. split; [done|].
  assert (sound (cons bc)) as [Hw Hh]; [|split; rewrite ?En; done].
  subst bc. simpl. case_decide.
  - set (comp := processor _ _ _). destruct Hfeed as (Hwf & Hhf & _).
    destruct (NewCapabilities_eq comp (aggregateCap comp cs.*2)) as (Ec & Em & _ & Hw & _).
    apply (sound_NewObs t). unfold sound, honest. rewrite Ec, Em, Hw. split; [done|]. intros Hm. unfold aggregateCap.
    unfold comp in *. simpl in Hm |- *. destruct (how c); [|done|done]. simpl.
    apply existsb_true. destruct (Capabilities_NewFanout _ (Hhf Hm)) as (y & (x & -> & Hx)%list_elem_of_fmap & Hy).
    exists x. rewrite <- (proj1 (NewObs_eq t x)). auto.
  - apply (sound_NewObs t). split; [exact I|by intros Hm].
Qed.

Lemma chain_closed_all a ps z : (forall x, (a, x) ∈ chain a ps z -> x ∈ done) ->
  (forall x y, (x, y) ∈ chain a ps z -> x ∈ done -> y ∈ done) -> forall x, x ∈ ps ++ [z] -> x ∈ done.
Proof.
  revert a. induction ps as [|q ps IH]; intros a Ha Hcl x.
  - intros ->%list_elem_of_singleton. apply Ha. by left.
  - rewrite chain_cons in Ha, Hcl. assert (q ∈ done) as Hq by (apply Ha; by left).
    rewrite <- app_comm_cons. intros [->|Hx]%elem_of_cons; [done|]. apply (IH q); [| |done].
    + intros y Hy. by apply (Hcl q y); [right|].
    + intros y y' Hy. apply Hcl. by right.
Qed.

Lemma pipeline_done p cfg : n = capabilitiesNode p -> (p, cfg) ∈ pcs ->
  forall x, x ∈ (processorNode p <$> Processors cfg) ++ [fanOutNode p] -> x ∈ done.
Proof.
  intros En Hin. apply chain_closed_all with (capabilitiesNode p).
  - intros x Hx. apply Hsucc. rewrite En. by eapply edge_chain.
  - intros x y Hx Hd. eapply (bo_closed _ _ Hb); [exact Hd|]. by eapply edge_chain.
Qed.

(** The consumers that buildCapabilities asks what they declare. *)
Lemma own_built p pg cfg : n = capabilitiesNode p -> pipelines g !! p = Some pg -> (p, cfg) ∈ pcs ->
  exists procs, mapM (fun x => consumers b !! node_ID x) (processors pg) = Some procs /\
    forall c, c ∈ Processors cfg -> exists bc, bc ∈ procs /\ consumers b !! node_ID (processorNode p c) = Some bc.
Proof.
  intros En Hp Hin. rewrite (sh_processors _ _ Hg p pg cfg Hp Hin).
  assert (forall x, x ∈ processorNode p <$> Processors cfg -> x ∈ done) as Hdone.
  { intros x Hx. eapply (pipeline_done p cfg En Hin). apply elem_of_app. by left. }
  revert Hdone. generalize (Processors cfg) as ps. intros ps Hdone.
  induction ps as [|c cs IH]; [exists []; split; [done|by intros c ?%elem_of_nil]|].
  destruct IH as (procs & E & Hall); [intros x Hx; apply Hdone; by right|].
  destruct (bo_consumers _ _ Hb (processorNode p c)) as (bc & Ebc & _); [apply Hdone; by left|done|].
  exists (bc :: procs). rewrite fmap_cons. simpl. rewrite Ebc. simpl. rewrite E. split; [done|].
  intros c' [->|Hc]%elem_of_cons; [exists bc; split; [by left|done]|].
  destruct (Hall c' Hc) as (bc' & ? & ?). exists bc'. split; [by right|done].
Qed.

Lemma capabilities_built p : n = capabilitiesNode p -> node_built.
Proof.
  intros En. destruct (next_ok p) as (nx & rest & Enx & c & Ec & Hnx); [eauto|].
  assert (exists cfg, (p, cfg) ∈ pcs) as [cfg Hin] by (pose proof (all_nodes_inv n Hn) as Hi; by rewrite En in Hi).
  assert (is_Some (pipelines g !! p)) as [pg Hp] by (apply (sh_pipelines _ _ Hg); by apply (list_elem_of_fmap_2 fst) in Hin).
  destruct (own_built p pg cfg En Hp Hin) as (procs & Eprocs & Hprocs).
  assert (exists f, consumers b !! node_ID (fanOutNode p) = Some f) as [f Ef].
  { destruct (bo_consumers _ _ Hb (fanOutNode p)) as (f & Ef & _); [|done|by exists f].
    apply (pipeline_done p cfg En Hin), elem_of_app. right. by left. }
  assert (buildNode set g b n = buildCapabilities g n p nexts b) as Eb by (by rewrite En).
  unfold buildCapabilities in Eb. rewrite Hp in Eb. cbn [must rbind ok] in Eb. rewrite (sh_fanOut _ _ Hg p pg Hp) in Eb. simpl in Eb.
  rewrite Ef in Eb. simpl in Eb. rewrite Eprocs in Eb. simpl in Eb. rewrite Enx in Eb. simpl in Eb. rewrite Ec in Eb. simpl in Eb.
  eapply consumer_built; [exact Eb|by rewrite En|rewrite ?En in *; by eauto|].
  match goal with |- context [NewCapabilities c ?cap] => set (capability := cap) end.
  destruct (NewCapabilities_eq c capability) as (Ecap & Em & _ & Hw & _).
  split; simpl; [by rewrite En|by rewrite En|by apply Hw, next_well_formed|].
  assert (honest (NewCapabilities c capability)); [|by rewrite En].
  intros Hm. rewrite Em in Hm. rewrite Ecap. destruct (next_declared p c) as (x & cx & Hx & Hall & Ex & Hcap); [eauto..|].
  unfold capability. apply orb_true_iff. destruct Hx as [->|[i ->]].
  - left. by rewrite Ef in Ex; injection Ex as ->.
  - right. apply all_nodes_inv in Hall as (cfg' & Hin' & Hi).
    rewrite (NoDup_fst_unique _ _ _ _ (vs_pipelines _ Hvalid) Hin' Hin) in Hi.
    destruct (Hprocs i Hi) as (bc & Hbc & E). rewrite E in Ex. injection Ex as ->. apply existsb_true. eauto.
Qed.

Lemma buildNode_spec : node_built.
Proof.
  case_eq n.
  - exact receiver_built.
  - exact processor_built.
  - exact exporter_built.
  - exact connector_built.
  - exact capabilities_built.
  - exact fanOut_built.
Qed.
End node.

(** ** The loop *)

Lemma split_unique {A} (n : A) a b c d : NoDup (a ++ n :: b) -> a ++ n :: b = c ++ n :: d -> a = c.
Proof.
  revert c. induction a as [|x a IH]; intros [|y c] Hnd E; simplify_eq/=; [done|..];
    apply NoDup_cons in Hnd as [Hnew Hnd].
  - destruct Hnew. apply elem_of_app. right. by left.
  - destruct Hnew. apply elem_of_app. right. by left.
  - f_equal. eauto.
Qed.

Lemma NoDup_rev_list {A} (l : list A) : NoDup l -> NoDup (reverse l).
Proof. by rewrite (reverse_Permutation l). Qed.

Lemma reverse_before {A} (l done rest : list A) n w : NoDup l -> reverse l = done ++ n :: rest -> before l n w -> w ∈ done.
Proof.
  intros Hnd%NoDup_rev_list Hl (l1 & l2 & l3 & ->).
  assert (reverse (l1 ++ n :: l2 ++ w :: l3) = (reverse l3 ++ w :: reverse l2) ++ n :: reverse l1) as E.
  { by rewrite reverse_app, reverse_cons, reverse_app, reverse_cons, <- !app_assoc. }
  rewrite Hl in E, Hnd. rewrite (split_unique _ _ _ _ _ Hnd E), elem_of_app. right. by left.
Qed.

Lemma buildComponents_spec nodes : Sort (componentGraph g) = Some nodes ->
  (exists b, buildComponents set g = ok b /\ built_ok (reverse nodes) b) \/
  (exists e, buildComponents set g = fails e /\ create_error e).
Proof.
  intros E. unfold buildComponents. rewrite E.
  pose proof (sh_ok _ _ Hg) as Hok. pose proof (Sort_nodup _ _ Hok E) as Hnd.
  assert (forall n, n ∈ nodes <-> n ∈ all_nodes set) as Hin.
  { intros n. rewrite (Sort_nodes _ _ Hok E), (sh_nodes _ _ Hg). tauto. }
  apply foldM_inv_err.
  - split; simpl; try by intros n ?%elem_of_nil.
    + by intros n w ?%elem_of_nil.
    + by intros id c.
  - intros done n rest b El Hb. 
    assert (n ∈ all_nodes set) as Hn by (apply Hin, elem_of_reverse; rewrite El, elem_of_app; right; by left).
    apply buildNode_spec; [done..| |].
    + intros Hd. apply NoDup_rev_list in Hnd. rewrite El in Hnd. apply NoDup_app in Hnd as (_ & Hnd & _). apply (Hnd n Hd). by left.
    + intros w Hw. eapply reverse_before; [exact Hnd|exact El|]. eapply Sort_order; [done..| |by apply From_edge].
      apply (sh_nodes _ _ Hg). auto.
Qed.
End build.
