(* ===== verification/GraphOrder.v ===== *)
(** * GraphOrder: when the pipelines can be ordered, and what Build makes of a configuration

    The graph of a configuration has a topological order exactly when the pipelines can be
    numbered so that every connector leads from a lower to a higher number. *)

From S2P Require Import Prelude.
From S2P Require Import Ids.
From S2P Require Import Digraph.
From S2P Require Import Consumers.
From S2P Require Import Graph.
From S2P Require Import GraphNodes.
From S2P Require Import GraphEdges.
From S2P Require Import GoErrors.
From S2P Require Import ConsumersProofs.
From S2P Require Import GraphBuild.

(** ** The position of an element *)

Fixpoint position {A} `{EqDecision A} (x : A) (l : list A) : nat :=
  match l with
  | [] => 0
  | y :: l => if decide (x = y) then 0 else S (position x l)
  end%nat.

Lemma position_app {A} `{EqDecision A} (x : A) l k : x ∉ l -> position x (l ++ x :: k) = length l.
Proof.
  induction l as [|y l IH]; simpl; [by rewrite decide_True by done|].
  intros [Hxy Hx]%not_elem_of_cons. rewrite decide_False by done. by rewrite IH.
Qed.

Lemma position_lookup {A} `{EqDecision A} (x : A) l i : NoDup l -> l !! i = Some x -> position x l = i.
Proof.
  intros Hnd Hi. rewrite <- (take_drop_middle l i x Hi) in Hnd |- *. apply NoDup_app in Hnd as (_ & Hnd & _).
  rewrite position_app by (intros Hx; apply (Hnd x Hx); by left).
  rewrite length_take. apply lookup_lt_Some in Hi. lia.
Qed.

Lemma before_position {A} `{EqDecision A} (l : list A) x y : NoDup l -> before l x y -> (position x l < position y l)%nat.
Proof.
  intros Hnd (l1 & l2 & l3 & ->).
  rewrite (position_lookup x _ (length l1)), (position_lookup y _ (length l1 + S (length l2))); [lia|done| |done|].
  - rewrite lookup_app_r by lia. replace (length l1 + S (length l2) - length l1)%nat with (S (length l2)) by lia.
    simpl. by rewrite list_lookup_middle.
  - by rewrite list_lookup_middle.
Qed.

Lemma chain_lookup u w a ps z : (u, w) ∈ chain a ps z <-> exists i, (a :: ps) !! i = Some u /\ (ps ++ [z]) !! i = Some w.
Proof. unfold chain. rewrite list_elem_of_lookup. by setoid_rewrite lookup_zip_Some. Qed.

Lemma max_list_le l m : (forall x, x ∈ l -> (x <= m)%nat) -> (max_list l <= m)%nat.
Proof.
  induction l as [|x l IH]; intros Hl; simpl; [lia|].
  apply Nat.max_lub; [apply Hl; by left|apply IH; intros y Hy; apply Hl; by right].
Qed.

(** A number that grows along the steps grows along the chain. *)
Lemma chain_grows (f : node -> nat) a ps z :
  (forall u w, (u, w) ∈ chain a ps z -> (f u < f w)%nat) -> (f a < f z)%nat.
Proof.
  revert a. induction ps as [|n ps IH]; intros a Hf; [apply Hf; by left|].
  rewrite chain_cons in Hf. apply Nat.lt_trans with (f n); [apply Hf; by left|].
  apply IH. intros u w Huw. apply Hf. by right.
Qed.

Section order.
Context {DG : DirectedGraph node} {DGL : DirectedGraphLaws node} (set : Settings).
Notation pcs := (PipelineConfigs set).
Context (Hvalid : valid_settings set) (g : Graph) (Hg : shape set g).

Definition goes_up (rank : pipelineID -> nat) : Prop :=
  forall c e r, c ∈ used_connectors set pcs -> (e, r) ∈ connector_pairs set c pcs -> (rank e < rank r)%nat.

Definition acyclic : Prop := exists rank, goes_up rank.

(** A connector joins every pair of its pipelines with the signals it supports. *)
Lemma pairs_same_signal c e r e' r' : (e, r) ∈ connector_pairs set c pcs -> (e', r') ∈ connector_pairs set c pcs ->
  signal e' = signal e -> (e', r) ∈ connector_pairs set c pcs.
Proof.
  unfold connector_pairs. destruct (ConnectorFactory set (typeVal c)) as [f|]; [|by intros ?%elem_of_nil].
  intros (x & (y & Hxy & [Hs Hr]%list_elem_of_filter)%list_elem_of_fmap & _)%list_elem_of_bind
    (x' & (y' & Hxy' & _)%list_elem_of_fmap & He')%list_elem_of_bind Es. simplify_eq.
  apply list_elem_of_bind. exists x'. split; [|done]. apply list_elem_of_fmap_2, list_elem_of_filter. by rewrite Es.
Qed.

Lemma sorted_acyclic l : Sort (componentGraph g) = Some l -> acyclic.
Proof.
  intros E. pose proof (sh_ok _ _ Hg) as Hok. pose proof (Sort_nodup _ _ Hok E) as Hnd.
  assert (forall u w, edge set u w -> (position u l < position w l)%nat) as Hup.
  { intros u w He. apply before_position; [done|]. apply (Sort_order (componentGraph g)); [done..| |].
    - apply (sh_nodes _ _ Hg). split; [done|]. by apply (edge_ends set Hvalid) in He as [? _].
    - apply (sh_edges _ _ Hg). by exists u. }
  exists (fun p => position (capabilitiesNode p) l). intros c e r Hc Her.
  destruct (pair_pipelines _ _ _ _ Her) as [([e' cfg] & -> & Hin)%list_elem_of_fmap _]. simpl in *.
  apply Nat.lt_trans with (position (fanOutNode e') l).
  - apply (chain_grows (fun n => position n l) _ (processorNode e' <$> Processors cfg)). intros u w Huw. apply Hup. by eapply edge_chain.
  - apply Nat.lt_trans with (position (connectorNode (signal e') (signal r) c) l); apply Hup;
      [by eapply edge_to_connector|by eapply edge_from_connector].
Qed.

(** ** A number for each node *)

Section rank.
Context (rank : pipelineID -> nat) (Hrank : goes_up rank).

Definition width : nat := (3 + max_list ((fun pc => length (Processors pc.2)) <$> pcs))%nat.
Definition processors_of (p : pipelineID) : list ID :=
  default [] (Processors <$> (list_to_map pcs : gmap pipelineID PipelineConfig) !! p).
Definition entered_from (n : node) : list nat :=
  match n with
  | connectorNode s r c => (fun er => S (rank er.1)) <$> filter (fun er => pair_node c er = n) (connector_pairs set c pcs)
  | _ => []
  end.

Definition node_rank (n : node) : nat :=
  match n with
  | receiverNode _ _ => 0
  | capabilitiesNode p => width * rank p + 1
  | processorNode p c => width * rank p + 2 + position c (processors_of p)
  | fanOutNode p => width * rank p + (width - 1)
  | connectorNode _ _ _ => width * max_list (entered_from n)
  | exporterNode _ _ => width * max_list ((fun pc => S (rank pc.1)) <$> pcs)
  end%nat.

Lemma processors_of_eq p cfg : (p, cfg) ∈ pcs -> processors_of p = Processors cfg.
Proof.
  intros Hin. unfold processors_of.
  assert ((list_to_map pcs : gmap pipelineID PipelineConfig) !! p = Some cfg) as ->; [|done].
  apply elem_of_list_to_map; [apply Hvalid|done].
Qed.

Lemma width_ge p cfg : (p, cfg) ∈ pcs -> (3 + length (Processors cfg) <= width)%nat.
Proof.
  intros Hin. unfold width. apply Nat.add_le_mono_l, max_list_elem_of_le.
  by apply (list_elem_of_fmap_2 (fun pc => length (Processors pc.2)) pcs (p, cfg)).
Qed.

Lemma chain_rank p cfg u w : (p, cfg) ∈ pcs ->
  (u, w) ∈ chain (capabilitiesNode p) (processorNode p <$> Processors cfg) (fanOutNode p) -> (node_rank u < node_rank w)%nat.
Proof.
  intros Hin (i & Hu & Hw)%chain_lookup. pose proof (width_ge p cfg Hin) as Hwidth.
  pose proof (vs_processors _ Hvalid _ Hin) as Hnd. simpl in Hnd.
  assert (node_rank u = width * rank p + 1 + i /\ (i <= length (Processors cfg)))%nat as [-> Hi].
  { destruct i as [|i]; simpl in Hu; [simplify_eq; cbn [node_rank]; lia|].
    apply list_lookup_fmap_Some in Hu as (c & -> & Hc). pose proof (lookup_lt_Some _ _ _ Hc).
    cbn [node_rank]. rewrite (processors_of_eq p cfg Hin), (position_lookup c _ i Hnd Hc). lia. }
  apply lookup_app_Some in Hw as [Hw|[Hlen Hw]].
  - apply list_lookup_fmap_Some in Hw as (c & -> & Hc).
    cbn [node_rank]. rewrite (processors_of_eq p cfg Hin), (position_lookup c _ i Hnd Hc). lia.
  - apply list_lookup_singleton_Some in Hw as [_ <-]. cbn [node_rank]. lia.
Qed.

Lemma edge_rank u w : edge set u w -> (node_rank u < node_rank w)%nat.
Proof.
  assert (0 < width)%nat as Hpos by (unfold width; lia).
  intros [p cfg r Hin _|c e r Hc Her|p cfg a b Hin Hc|p cfg x Hin _|c e r Hc Her].
  - cbn [node_rank]. lia.
  - cbn [node_rank]. enough (max_list (entered_from (connectorNode (signal e) (signal r) c)) <= rank r)%nat by nia.
    apply max_list_le. intros m (er & -> & [Epair Hin]%list_elem_of_filter)%list_elem_of_fmap.
    apply (Hrank c er.1 r Hc). destruct er as [e' r']. injection Epair as Es Er. simpl in *.
    by apply (pairs_same_signal c e r e' r').
  - by eapply chain_rank.
  - cbn [node_rank]. enough (S (rank p) <= max_list ((fun pc => S (rank pc.1)) <$> pcs))%nat by nia.
    apply max_list_elem_of_le. by apply (list_elem_of_fmap_2 (fun pc => S (rank pc.1)) pcs (p, cfg)).
  - cbn [node_rank]. enough (S (rank e) <= max_list (entered_from (connectorNode (signal e) (signal r) c)))%nat by nia.
    apply max_list_elem_of_le. apply (list_elem_of_fmap_2 (fun er => S (rank er.1)) _ (e, r)).
    by apply list_elem_of_filter.
Qed.

Lemma acyclic_ranked : ranked (componentGraph g).
Proof.
  exists (fun id => match Node (componentGraph g) id with Some n => node_rank n | None => 0%nat end).
  intros u n v E Hv. rewrite E. apply (sh_nodes _ _ Hg) in E as [-> Hn].
  apply (sh_edges _ _ Hg) in Hv as (u & Hid & He). destruct (edge_ends set Hvalid u v He) as (Hu & Hv & _).
  rewrite (vs_no_collision _ Hvalid n u Hn Hu Hid). rewrite (proj2 (sh_nodes _ _ Hg (node_ID v) v)) by done.
  by apply edge_rank.
Qed.
End rank.

Lemma sorted_iff : (exists l, Sort (componentGraph g) = Some l) <-> acyclic.
Proof.
  split; [intros [l E]; by eapply sorted_acyclic|]. intros [rank Hrank].
  apply Sort_total; [apply (sh_ok _ _ Hg)|by eapply acyclic_ranked].
Qed.
End order.

(** * What Build makes of a configuration *)

Section theorems.
Context {DG : DirectedGraph node} {DGL : DirectedGraphLaws node} (set : Settings).
Notation pcs := (PipelineConfigs set).

Definition connectors_ok : Prop := forall c, c ∈ used_connectors set pcs -> connector_ok set pcs c.
Definition factories_ok : Prop := forall n, n ∈ all_nodes set -> is_component n = true -> exists c, Create set n = inl c.

Definition cycle_error (e : error) : Prop := e = errUnorderable \/ exists cycle, e = errCycle cycle.

Lemma cycleErr_ok (g : Graph) : graph_ok (componentGraph g) ->
  exists e, cycleErr (DirectedCyclesIn (componentGraph g)) = ok e /\ cycle_error e.
Proof.
  intros Hok. unfold cycleErr, cycle_error.
  destruct (DirectedCyclesIn (componentGraph g)) as [|[|x c] cs] eqn:E; [eauto..|].
  destruct (Cycles_closed (componentGraph g) (x :: c) Hok) as (n & l & El); [rewrite E; by left|].
  injection El as -> ->. replace (take (length (n :: l ++ [n]) - 1) (n :: l ++ [n])) with (n :: l).
  - unfold rotate_to_connector. destruct (list_find _ (n :: l)) as [[i m]|] eqn:Ef; [|eauto].
    apply list_find_Some in Ef as (Hi & _). destruct (drop i (n :: l) ++ take i (n :: l)) as [|y k] eqn:Ed; [|eauto].
    apply (f_equal length) in Ed. rewrite length_app, length_drop, length_take in Ed.
    apply lookup_lt_Some in Hi. simpl in *. lia.
  - change (n :: l ++ [n]) with ((n :: l) ++ [n]). rewrite length_app. simpl length.
    replace (S (length l) + 1 - 1)%nat with (length (n :: l)) by (simpl; lia). by rewrite take_app_length.
Qed.

Definition build_error (e : error) : Prop :=
  (~ connectors_ok /\ exists c, c ∈ used_connectors set pcs /\ connector_error set pcs c e) \/ (connectors_ok /\ ~ acyclic set /\ cycle_error e) \/
  (connectors_ok /\ acyclic set /\ ~ factories_ok /\ create_error set e).

Lemma Build_cases : valid_settings set ->
  (exists g b, Build set = ok (g, b) /\ connectors_ok /\ acyclic set /\ factories_ok /\ shape set g /\
     forall n, n ∈ all_nodes set -> is_feeder n = true -> exists c, feeds b !! node_ID n = Some c /\ good_feed c) \/
  (exists e, Build set = fails e /\ build_error e).
Proof.
  intros Hv. unfold Build.
  destruct (create_spec set Hv) as [(Hco & g1 & g & -> & E & Hg)|(c & e & Hc & Hnot & -> & He)].
  2: { right. exists e. split; [done|]. left. split; [|by exists c]. intros Hco. by apply Hnot, Hco. }
  simpl. rewrite E. simpl. pose proof (sh_ok _ _ Hg) as Hok.
  pose proof (sorted_iff set Hv g Hg) as Hsort.
  destruct (Sort (componentGraph g)) as [l|] eqn:El.
  2: { right. unfold buildComponents. rewrite El. destruct (cycleErr_ok g Hok) as (e & -> & He). exists e.
       split; [done|]. right; left. split; [done|]. split; [|done]. by intros [l ?]%Hsort. }
  assert (acyclic set) as Hac by (apply Hsort; eauto).
  assert (forall n, n ∈ reverse l <-> n ∈ all_nodes set) as Hin.
  { intros n. rewrite elem_of_reverse, (Sort_nodes _ _ Hok El), (sh_nodes _ _ Hg). tauto. }
  destruct (buildComponents_spec set Hv g Hg l El) as [(b & Eb & Hb)|(e & Eb & He)]; rewrite Eb; simpl.
  - left. exists g, b. split_and!; try done.
    + intros n Hn. apply (bo_created _ _ _ Hb). by apply Hin.
    + intros n Hn. apply (bo_feeds _ _ _ Hb). by apply Hin.
  - right. exists e. split; [done|]. do 2 right. split_and!; try done.
    intros Hfac. destruct He as (n & err & Hn & Hk & Ec & _).
    destruct (Hfac n Hn Hk) as [c Ec']. congruence.
Qed.


End theorems.

(** ** A configuration *)

Lemma NoDup_no_collision (l : list node) : NoDup (node_ID <$> l) ->
  forall n m, n ∈ l -> m ∈ l -> node_ID n = node_ID m -> n = m.
Proof.
  intros Hnd n m [i Hi]%list_elem_of_lookup [j Hj]%list_elem_of_lookup E.
  assert (i = j) as ->; [|congruence].
  eapply NoDup_lookup; [exact Hnd|by rewrite list_lookup_fmap, Hi|by rewrite list_lookup_fmap, Hj, E].
Qed.

Definition an_id (name : string) : ID := mkID (mkType name) "".
Definition traces : pipelineID := mkPipelineID SignalTraces "".

(** A receiver, a processor that changes the data and two exporters. *)
Definition some_settings : Settings := {|
  PipelineConfigs := [(traces, mkPipelineConfig [an_id "otlp"] [an_id "batch"] [an_id "debug"; an_id "otlp"])];
  IsConfigured _ := false;
  ConnectorFactory _ := None;
  Create n := inl (match n with processorNode _ _ => mkComponent InPlace false | _ => mkComponent Reads true end);
  newPipelineTelemetry := true;
|}.

Lemma some_settings_valid : valid_settings some_settings.
Proof.
  split.
  - apply NoDup_singleton.
  - intros pc ->%list_elem_of_singleton. apply NoDup_singleton.
  - apply NoDup_no_collision. apply (bool_decide_eq_true_1 _). vm_compute. reflexivity.
Qed.

#[local] Existing Instance adjacency_graph.
#[local] Existing Instance adjacency_laws.

Lemma some_settings_acyclic : acyclic some_settings.
Proof. exists (fun _ => 0%nat). intros c e r Hc. inversion Hc. Qed.

Lemma some_graph : exists g, shape some_settings g.
Proof.
  destruct (Build_cases some_settings some_settings_valid) as [(g & b & _ & _ & _ & _ & Hg & _)|(e & _ & He)]; [by exists g|].
  exfalso. destruct He as [[Hn _]|[(_ & Hn & _)|(_ & _ & Hn & _)]]; apply Hn.
  - intros c Hc. inversion Hc.
  - apply some_settings_acyclic.
  - intros n _ _. by eexists.
Qed.


