(* ===== verification/Lifecycle.v ===== *)
(** * Lifecycle: starting and stopping the components and the extensions

    Models StartAll, ShutdownAll and GetExporters of service/internal/graph/graph.go,
    service/extensions (extensions.go and graph.go) and Start and Shutdown of
    service/service.go.

    The calls of components, extensions and telemetry providers, and the status reports,
    are effects: a function returns the list of those it makes, in order, and its error.
    What a call returns is read from an environment. *)

From S2P Require Import Prelude.
From S2P Require Import GoErrors.
From S2P Require Import Ids.
From S2P Require Import Digraph.
From S2P Require Import Consumers.
From S2P Require Import Status.
From S2P Require Import Graph.
#[local] Open Scope result_scope.

(** ** Effects *)

Inductive target := anExtension (id : ID) | aComponent (n : node).

#[export] Instance target_eq_dec : EqDecision target.
Proof. solve_decision. Defined.

Inductive notification := PipelineReady | PipelineNotReady | ConfigSnapshot | EffectiveConfig.
Inductive provider := TracerProvider | MeterProvider | LoggerProvider.

Inductive action :=
| reports (t : target) (s : Z) (e : option error)   (* ReportStatus of NewEvent or NewPermanentErrorEvent *)
| reportsOK (t : target)                            (* ReportOKIfStarting *)
| starts (t : target)                               (* Start of a component *)
| shuts (t : target)                                (* Shutdown of a component *)
| notifies (id : ID) (n : notification)             (* a method of a watcher *)
| closes (p : provider).                            (* Shutdown of a telemetry provider *)

(** The effects of a function and its error. *)
Abbreviation script := (list action * option error)%type.

(** The interfaces an extension implements, apart from component.Component. *)
Inductive watcher := noWatcher | ConfigSnapshotWatcher | ConfigWatcher.
Record extension := mkExtension {
  Dependencies : option (list ID);
  PipelineWatcher : bool;
  configWatcher : watcher;
}.

(** What the calls return. *)
Record environment := mkEnvironment {
  onStart : target -> option error;
  onShutdown : target -> option error;
  onNotify : ID -> notification -> option error;
  onClose : provider -> option error;
}.

Section lifecycle.
Context `{MultiErr} (env : environment).

Definition append_some (errs err : option error) : option error :=
  match err with Some _ => multierr_Append errs err | None => errs end.

(** ** Extensions *)

(** Extensions: the instances, and the order of starting. *)
Record Extensions := mkExtensions { extMap : gmap ID extension; extensionIDs : list ID }.

Fixpoint startExtensions (ids : list ID) : script :=
  match ids with
  | [] => ([], None)
  | id :: ids =>
      let t := anExtension id in
      match onStart env t with
      | Some err => ([reports t StatusStarting None; starts t; reports t StatusPermanentError (Some err)], Some err)
      | None =>
          let '(acts, err) := startExtensions ids in
          ([reports t StatusStarting None; starts t; reportsOK t] ++ acts, err)
      end
  end.

Definition Extensions_Start (bes : Extensions) : script := startExtensions (extensionIDs bes).

Fixpoint shutdownExtensions (ids : list ID) (errs : option error) : script :=
  match ids with
  | [] => ([], errs)
  | id :: ids =>
      let t := anExtension id in
      match onShutdown env t with
      | Some err =>
          let '(acts, errs) := shutdownExtensions ids (multierr_Append errs (Some err)) in
          ([reports t StatusStopping None; shuts t; reports t StatusPermanentError (Some err)] ++ acts, errs)
      | None =>
          let '(acts, errs) := shutdownExtensions ids errs in
          ([reports t StatusStopping None; shuts t; reports t StatusStopped None] ++ acts, errs)
      end
  end.

Definition Extensions_Shutdown (bes : Extensions) : script := shutdownExtensions (reverse (extensionIDs bes)) None.

Definition isPipelineWatcher (bes : Extensions) (id : ID) : bool :=
  match extMap bes !! id with Some e => PipelineWatcher e | None => false end.

Fixpoint notifyReady (bes : Extensions) (ids : list ID) : script :=
  match ids with
  | [] => ([], None)
  | id :: ids =>
      if isPipelineWatcher bes id then
        match onNotify env id PipelineReady with
        | Some err => ([notifies id PipelineReady], Some (ErrWrap "failed to notify extension: " err))
        | None => let '(acts, err) := notifyReady bes ids in (notifies id PipelineReady :: acts, err)
        end
      else notifyReady bes ids
  end.

Definition NotifyPipelineReady (bes : Extensions) : script := notifyReady bes (extensionIDs bes).

Fixpoint notifyNotReady (bes : Extensions) (ids : list ID) (errs : option error) : script :=
  match ids with
  | [] => ([], errs)
  | id :: ids =>
      if isPipelineWatcher bes id then
        let '(acts, errs) := notifyNotReady bes ids (multierr_Append errs (onNotify env id PipelineNotReady)) in
        (notifies id PipelineNotReady :: acts, errs)
      else notifyNotReady bes ids errs
  end.

Definition NotifyPipelineNotReady (bes : Extensions) : script := notifyNotReady bes (extensionIDs bes) None.

(** [effective]: the snapshot has an effective configuration. *)
Fixpoint notifySnapshot (bes : Extensions) (effective : bool) (ids : list ID) (errs : option error) : script :=
  match ids with
  | [] => ([], errs)
  | id :: ids =>
      match default noWatcher (configWatcher <$> extMap bes !! id) with
      | ConfigSnapshotWatcher =>
          let '(acts, errs) := notifySnapshot bes effective ids (multierr_Append errs (onNotify env id ConfigSnapshot)) in
          (notifies id ConfigSnapshot :: acts, errs)
      | ConfigWatcher =>
          if effective then
            let '(acts, errs) := notifySnapshot bes effective ids (multierr_Append errs (onNotify env id EffectiveConfig)) in
            (notifies id EffectiveConfig :: acts, errs)
          else notifySnapshot bes effective ids errs
      | noWatcher => notifySnapshot bes effective ids errs
      end
  end.

(** [None] stands for a nil snapshot. *)
Definition NotifyConfigSnapshot (bes : Extensions) (snapshot : option bool) : script :=
  match snapshot with
  | None => ([], None)
  | Some effective => notifySnapshot bes effective (extensionIDs bes) None
  end.

(** ** The order of the extensions *)

(** The node of graph.go. *)
Record extNode := mkExtNode { nodeID : Z; extID : ID }.

#[export] Instance extNode_HasID : HasID extNode := nodeID.

Definition errMissingDependency : error := ErrNew "unable to find extension on which extension depends".
Definition errExtensionCycle (cycle : list ID) : error :=
  ErrWrap "unable to order extensions by dependencies, cycle found" errUnorderable.

Definition extCycleErr (cycles : list (list extNode)) : error :=
  match cycles with
  | [] | [] :: _ => errUnorderable
  | cycle :: _ => errExtensionCycle (extID <$> cycle)
  end.

Section order.
Context {DG : DirectedGraph extNode}.

Definition addExtension (gn : digraph * gmap ID extNode) (x : ID * extension) : result (digraph * gmap ID extNode) :=
  let n := mkExtNode (Z.of_nat (size gn.2) + 1) x.1 in
  g <- must (AddNode n gn.1);;
  ok (g, <[x.1 := n]> gn.2).

Definition addDependency (nodes : gmap ID extNode) (n : extNode) (g : digraph) (depID : ID) : result digraph :=
  match nodes !! depID with
  | None => fails errMissingDependency
  | Some d => must (SetEdge d n g)
  end.

Definition addDependencies (nodes : gmap ID extNode) (g : digraph) (x : ID * extension) : result digraph :=
  match Dependencies x.2 with
  | None => ok g
  | Some deps => n <- must (nodes !! x.1);; foldM (addDependency nodes n) deps g
  end.

(** [l1] and [l2]: the two loops over extMap. *)
Definition computeOrder (l1 l2 : list (ID * extension)) : result (list ID) :=
  gn <- foldM addExtension l1 (NewDirectedGraph, ∅);;
  g <- foldM (addDependencies gn.2) l2 gn.1;;
  match Sort g with
  | None => fails (extCycleErr (DirectedCyclesIn g))
  | Some orderedNodes => ok (extID <$> orderedNodes)
  end.

Definition errNilExtension : error := ErrNew "factory produced a nil extension".

Fixpoint createExtensions (Create : ID -> option extension + error) (cfg : list ID) (m : gmap ID extension) :
    result (gmap ID extension) :=
  match cfg with
  | [] => ok m
  | id :: cfg =>
      match Create id with
      | inr err => fails (ErrWrap "failed to create extension: " err)
      | inl None => fails errNilExtension
      | inl (Some ext) => createExtensions Create cfg (<[id := ext]> m)
      end
  end.

Definition NewExtensions (Create : ID -> option extension + error)
    (range1 range2 : gmap ID extension -> list (ID * extension)) (cfg : list ID) : result Extensions :=
  m <- createExtensions Create cfg ∅;;
  order <- computeOrder (range1 m) (range2 m);;
  ok (mkExtensions m order).
End order.

(** ** The pipelines *)

Section pipelines.
Context {DG : DirectedGraph node}.

Definition errHostNil : error := ErrNew "host cannot be nil".
Definition errTopoSort : error := errUnorderable.

Fixpoint startNodes (nodes : list node) : script :=
  match nodes with
  | [] => ([], None)
  | n :: nodes =>
      if is_component n then
        let t := aComponent n in
        match onStart env t with
        | Some err =>
            ([reports t StatusStarting None; starts t; reports t StatusPermanentError (Some err)],
             Some (ErrWrap "failed to start: " err))
        | None =>
            let '(acts, err) := startNodes nodes in
            ([reports t StatusStarting None; starts t; reportsOK t] ++ acts, err)
        end
      else startNodes nodes
  end.

(** [host]: the host is not nil. *)
Definition StartAll (host : bool) (g : Graph) : script :=
  if negb host then ([], Some errHostNil)
  else match Sort (componentGraph g) with
       | None => ([], Some errTopoSort)
       | Some nodes => startNodes (reverse nodes)
       end.

Fixpoint shutdownNodes (nodes : list node) (errs : option error) : script :=
  match nodes with
  | [] => ([], errs)
  | n :: nodes =>
      if is_component n then
        let t := aComponent n in
        match onShutdown env t with
        | Some err =>
            let '(acts, errs) := shutdownNodes nodes (multierr_Append errs (Some err)) in
            ([reports t StatusStopping None; shuts t; reports t StatusPermanentError (Some err)] ++ acts, errs)
        | None =>
            let '(acts, errs) := shutdownNodes nodes errs in
            ([reports t StatusStopping None; shuts t; reports t StatusStopped None] ++ acts, errs)
        end
      else shutdownNodes nodes errs
  end.

Definition ShutdownAll (g : Graph) : script :=
  match Sort (componentGraph g) with
  | None => ([], Some errTopoSort)
  | Some nodes => shutdownNodes nodes None
  end.

(** The exporters by signal and identifier; a connector is skipped.  [None]: the panic of
    the assignment to the nil map of an unknown signal, which [Signal] has none of. *)
Definition addExporterOf (g : Graph) (m : gmap Signal (gmap ID node)) (x : Z * node) : gmap Signal (gmap ID node) :=
  match Node (componentGraph g) (node_ID x.2) with
  | Some (exporterNode s c as n) => alter (<[c := n]>) s m
  | _ => m
  end.

Definition GetExporters (g : Graph) : gmap Signal (gmap ID node) :=
  foldl (fun m (x : pipelineID * pipelineNodes) => foldl (addExporterOf g) m (map_to_list (exporters x.2)))
    (list_to_map ((fun s => (s, ∅)) <$> [SignalTraces; SignalMetrics; SignalLogs; SignalProfiles]))
    (map_to_list (pipelines g)).

(** ** The service *)

Record Service := mkService {
  ServiceExtensions : Extensions;
  Pipelines : Graph;
  configSnapshot : option bool;
}.

(** A step, and the next ones if it succeeds. *)
Definition then_ (s1 : script) (wrap : error -> error) (s2 : script) : script :=
  match s1.2 with
  | Some err => (s1.1, Some (wrap err))
  | None => (s1.1 ++ s2.1, s2.2)
  end.

Definition Service_Start (srv : Service) : script :=
  then_ (Extensions_Start (ServiceExtensions srv)) (ErrWrap "failed to start extensions: ")
  (then_ (NotifyConfigSnapshot (ServiceExtensions srv) (configSnapshot srv)) id
  (then_ (StartAll true (Pipelines srv)) (ErrWrap "cannot start pipelines: ")
  (then_ (NotifyPipelineReady (ServiceExtensions srv)) id ([], None)))).

(** A step of the shutdown: its error is wrapped and kept. *)
Definition and_also (s : list action * option error) (msg : string) (next : script) : script :=
  (s.1 ++ next.1, append_some s.2 (ErrWrap msg <$> next.2)).

Definition close (p : provider) : script := ([closes p], onClose env p).

Definition Service_Shutdown (srv : Service) : script :=
  let s := ([], None) in
  let s := and_also s "failed to notify that pipeline is not ready: " (NotifyPipelineNotReady (ServiceExtensions srv)) in
  let s := and_also s "failed to shutdown pipelines: " (ShutdownAll (Pipelines srv)) in
  let s := and_also s "failed to shutdown extensions: " (Extensions_Shutdown (ServiceExtensions srv)) in
  let s := and_also s "failed to shutdown tracer provider: " (close TracerProvider) in
  let s := and_also s "failed to shutdown meter provider: " (close MeterProvider) in
  and_also s "failed to shutdown logger: " (close LoggerProvider).
End pipelines.
End lifecycle.
