(* ===== verification/LifecycleProofs.v ===== *)
(** * LifecycleProofs: the order of starting and stopping nodes, and of a service

    First the scripts of StartAll and ShutdownAll over the nodes of a graph, then those of
    Start and Shutdown of a service; last, extensions start after the extensions they depend
    on. *)

From S2P Require Import Prelude.
From S2P Require Import GoErrors.
From S2P Require Import Ids.
From S2P Require Import Digraph.
From S2P Require Import Consumers.
From S2P Require Import Status.
From S2P Require Import Graph.
From S2P Require Import GraphEdges.
From S2P Require Import GraphBuild.
From S2P Require Import Lifecycle.
From S2P Require Import GraphOrder.
From S2P Require Import GraphNodes.

(** ** What a list of effects starts and stops *)

Definition started (acts : list action) : list target := omap (fun a => match a with starts t => Some t | _ => None end) acts.
Definition stopped (acts : list action) : list target := omap (fun a => match a with shuts t => Some t | _ => None end) acts.

Lemma started_app l k : started (l ++ k) = started l ++ started k.
Proof. apply omap_app. Qed.
Lemma stopped_app l k : stopped (l ++ k) = stopped l ++ stopped k.
Proof. apply omap_app. Qed.

#[export] Hint Rewrite started_app stopped_app : lifecycle.

Definition components (nodes : list node) : list target := aComponent <$> filter (fun n => is_component n = true) nodes.
Definition extensionsOf (ids : list ID) : list target := anExtension <$> ids.

Lemma components_cons n nodes :
  components (n :: nodes) = if is_component n then aComponent n :: components nodes else components nodes.
Proof.
  unfold components. destruct (is_component n) eqn:E.
  - by rewrite filter_cons_True.
  - by rewrite filter_cons_False by congruence.
Qed.

(** ** The status of a target after its reports *)

Definition status_step (t : target) (s : Z) (a : action) : Z :=
  match a with
  | reports t' st _ => if decide (t' = t) then if allowed s st then st else s else s
  | reportsOK t' => if decide (t' = t) then if decide (s = StatusStarting) then StatusOK else s else s
  | _ => s
  end.

Definition status_after (t : target) : Z -> list action -> Z := foldl (status_step t).

(** The calls of the reporter; [inst] numbers the instances. *)
Definition call_of (inst : target -> nat) (now : Z) (a : action) : option call :=
  match a with
  | reports t st e => Some (Report now (inst t) (mkEvent st e now))
  | reportsOK t => Some (ReportOK now (inst t))
  | _ => None
  end.

Lemma run_fst cs c r : (run (c :: cs) r).1 = (run cs (run_call c r).1).1.
Proof. simpl. destruct (run_call c r) as [r1 n1]. simpl. by destruct (run cs r1). Qed.

Lemma transitionOf_status i j ev m r : status_of j (transitionOf i ev m r).1 =
  if decide (i = j) then if allowed (status (current m)) (status ev) then status ev else status (current m) else status_of j r.
Proof.
  unfold transitionOf, transition, status_of. destruct (allowed _ _); simpl;
    (case_decide as E; [subst; by rewrite lookup_insert_eq|by rewrite lookup_insert_ne]).
Qed.

Lemma componentFSM_status now i j r : status_of j (componentFSM now i r).1 = status_of j r /\
  status (current (componentFSM now i r).2) = status_of i r.
Proof.
  unfold componentFSM, status_of. destruct (fsmMap r !! i) as [m|] eqn:E; simpl; [done|]. split; [|done].
  destruct (decide (i = j)) as [<-|Hij]; [by rewrite lookup_insert_eq, E|by rewrite lookup_insert_ne].
Qed.

Lemma call_status (inst : target -> nat) `{!Inj eq eq inst} now t a c r : call_of inst now a = Some c ->
  status_of (inst t) (run_call c r).1 = status_step t (status_of (inst t) r) a.
Proof.
  assert (forall t', t' <> t -> inst t' <> inst t) as Hinj by (intros t' Ht E; by apply Ht, (inj inst)).
  destruct a as [t' st e|t'|t'|t'|id n|p]; intros [= <-]; simpl; unfold ReportStatus, ReportOKIfStarting;
    destruct (componentFSM_status now (inst t') (inst t) r) as [Et Em];
    destruct (componentFSM now (inst t') r) as [r1 m]; simpl in Et, Em.
  - rewrite transitionOf_status. simpl. rewrite Em, Et. destruct (decide (t' = t)) as [->|Ht].
    + by rewrite decide_True by done.
    + by rewrite decide_False by auto.
  - rewrite Em. destruct (decide (t' = t)) as [->|Ht].
    + case_decide as Es; [|done]. by rewrite transitionOf_status, decide_True, Em, Es by done.
    + case_decide as Es; [|done]. by rewrite transitionOf_status, decide_False by auto.
Qed.

Lemma run_status (inst : target -> nat) `{!Inj eq eq inst} now t acts r :
  status_of (inst t) (run (omap (call_of inst now) acts) r).1 = status_after t (status_of (inst t) r) acts.
Proof.
  revert r. induction acts as [|a acts IH]; intros r; [done|].
  change (status_after t (status_of (inst t) r) (a :: acts))
    with (status_after t (status_step t (status_of (inst t) r) a) acts).
  simpl omap. destruct (call_of inst now a) as [c|] eqn:E.
  - by rewrite run_fst, IH, (call_status inst now t a c r E).
  - rewrite IH. by destruct a.
Qed.

Section proofs.
Context `{ML : MultiErrLaws} (env : environment).

Notation startExtensions := (startExtensions env).
Notation startNodes := (startNodes env).
Notation shutdownExtensions := (shutdownExtensions env).
Notation shutdownNodes := (shutdownNodes env).

(** The loops over the extensions and over the nodes do the same to their targets. *)
Fixpoint startTargets (wrap : error -> error) (ts : list target) : script :=
  match ts with
  | [] => ([], None)
  | t :: ts =>
      match onStart env t with
      | Some err => ([reports t StatusStarting None; starts t; reports t StatusPermanentError (Some err)], Some (wrap err))
      | None =>
          let '(acts, err) := startTargets wrap ts in
          ([reports t StatusStarting None; starts t; reportsOK t] ++ acts, err)
      end
  end.

Fixpoint shutdownTargets (ts : list target) (errs : option error) : script :=
  match ts with
  | [] => ([], errs)
  | t :: ts =>
      let err := onShutdown env t in
      let '(acts, errs) := shutdownTargets ts (multierr_Append errs err) in
      ([reports t StatusStopping None; shuts t;
        reports t (match err with Some _ => StatusPermanentError | None => StatusStopped end) err] ++ acts, errs)
  end.

Lemma startExtensions_eq ids : startExtensions ids = startTargets id (extensionsOf ids).
Proof. induction ids as [|x ids IH]; [done|]. simpl. by rewrite IH. Qed.

Lemma startNodes_eq nodes : startNodes nodes = startTargets (ErrWrap "failed to start: ") (components nodes).
Proof.
  induction nodes as [|n nodes IH]; [done|]. rewrite components_cons. simpl.
  destruct (is_component n); [|done]. simpl. by rewrite IH.
Qed.

Lemma shutdownExtensions_eq ids errs : shutdownExtensions ids errs = shutdownTargets (extensionsOf ids) errs.
Proof.
  revert errs. induction ids as [|x ids IH]; intros errs; [done|]. simpl.
  destruct (onShutdown env (anExtension x)); rewrite ?multierr_nil_r, IH; done.
Qed.

Lemma shutdownNodes_eq nodes errs : shutdownNodes nodes errs = shutdownTargets (components nodes) errs.
Proof.
  revert errs. induction nodes as [|n nodes IH]; intros errs; [done|]. rewrite components_cons. simpl.
  destruct (is_component n); [|done]. simpl.
  destruct (onShutdown env (aComponent n)); rewrite ?multierr_nil_r, IH; done.
Qed.

(** The first targets in order, all of them unless there is an error. *)
Record starts_of (ts : list target) (s : script) : Prop := {
  so_prefix : started s.1 `prefix_of` ts;
  so_all : s.2 = None -> started s.1 = ts;
  so_none : stopped s.1 = [];
}.

Lemma startTargets_of wrap ts : starts_of ts (startTargets wrap ts).
Proof.
  induction ts as [|t ts [IHp IHa IHn]]; [by split|]. simpl. destruct (onStart env t) as [e|].
  - split; try done. by exists ts.
  - destruct (startTargets wrap ts) as [acts err]. simpl in *. split; simpl; [by apply prefix_cons| |done].
    intros E. by rewrite (IHa E).
Qed.

(** All the targets are stopped in order, and there is an error if one of them returns one. *)
Record stops_of (ts : list target) (errs : option error) (s : script) : Prop := {
  to_all : stopped s.1 = ts;
  to_err : s.2 = None <-> errs = None /\ Forall (fun t => onShutdown env t = None) ts;
  to_none : started s.1 = [];
}.

Lemma shutdownTargets_of ts errs : stops_of ts errs (shutdownTargets ts errs).
Proof.
  revert errs. induction ts as [|t ts IH]; intros errs; simpl; [split; try done; rewrite Forall_nil; simpl; tauto|].
  destruct (IH (multierr_Append errs (onShutdown env t))) as [Ha He Hn].
  destruct (shutdownTargets ts _) as [acts err]. simpl in *. split; simpl; [by f_equal| |done].
  rewrite He, multierr_some, Forall_cons. tauto.
Qed.

(** *** Statuses *)

Definition start_status (t : target) : Z :=
  match onStart env t with None => StatusOK | Some _ => StatusPermanentError end.
Definition stop_status (t : target) : Z :=
  match onShutdown env t with None => StatusStopped | Some _ => StatusPermanentError end.

Lemma startTargets_other wrap ts t s : t ∉ ts -> status_after t s (startTargets wrap ts).1 = s.
Proof.
  revert s. induction ts as [|t' ts IH]; intros s; [done|]. intros [Ht Hts]%not_elem_of_cons. simpl.
  destruct (onStart env t'); simpl; [by rewrite !decide_False by done|].
  destruct (startTargets wrap ts) as [acts err] eqn:E. simpl. rewrite !decide_False by done. by apply IH.
Qed.

Lemma shutdownTargets_other ts errs t s : t ∉ ts -> status_after t s (shutdownTargets ts errs).1 = s.
Proof.
  revert errs s. induction ts as [|t' ts IH]; intros errs s; [done|]. intros [Ht Hts]%not_elem_of_cons. simpl.
  specialize (IH (multierr_Append errs (onShutdown env t')) s Hts).
  destruct (shutdownTargets ts _) as [acts err]. simpl. by rewrite !decide_False by done.
Qed.

Lemma startTargets_status wrap ts t : NoDup ts ->
  status_after t StatusNone (startTargets wrap ts).1 =
    if decide (t ∈ started (startTargets wrap ts).1) then start_status t else StatusNone.
Proof.
  unfold start_status. induction ts as [|t' ts IH]; [done|]. intros [Hnew Hnd]%NoDup_cons. simpl.
  destruct (onStart env t') as [e|] eqn:Ee.
  - change (started _) with [t']. simpl. destruct (decide (t' = t)) as [->|Ht].
    + by rewrite (decide_True (P := t ∈ _)), Ee by by left.
    + rewrite decide_False; [done|]. by intros ->%list_elem_of_singleton.
  - specialize (IH Hnd). pose proof (startTargets_other wrap ts) as Hnot.
    destruct (startTargets wrap ts) as [acts err]. simpl in *.
    change (started (_ :: _ :: _ :: acts)) with (t' :: started acts). destruct (decide (t' = t)) as [->|Ht].
    + rewrite (decide_True (P := t ∈ _)), Ee by by left. by apply Hnot.
    + rewrite IH. by rewrite (decide_ext (t ∈ started acts) (t ∈ t' :: started acts)) by (rewrite elem_of_cons; naive_solver).
Qed.

Lemma shutdownTargets_status ts errs t s : NoDup ts -> s = StatusNone \/ s = start_status t ->
  status_after t s (shutdownTargets ts errs).1 = if decide (t ∈ ts /\ s <> StatusNone) then stop_status t else s.
Proof.
  unfold stop_status. intros Hnd Hs. assert (s = StatusNone \/ s = StatusOK \/ s = StatusPermanentError) as Hs'.
  { unfold start_status in Hs. destruct (onStart env t); tauto. }
  clear Hs. rename Hs' into Hs.
  revert errs. induction ts as [|t' ts IH]; intros errs; [done|]. apply NoDup_cons in Hnd as [Hnew Hnd]. simpl.
  set (errs' := multierr_Append errs (onShutdown env t')).
  specialize (IH Hnd errs'). pose proof (shutdownTargets_other ts errs') as Hnot.
  destruct (shutdownTargets ts _) as [acts err]. simpl in *. destruct (decide (t' = t)) as [->|Ht].
  - rewrite Hnot by done. destruct Hs as [->|[->| ->]].
    + rewrite decide_False by by intros []. by destruct (onShutdown env t).
    + rewrite decide_True by (split; [by left|done]). by destruct (onShutdown env t).
    + rewrite decide_True by (split; [by left|done]). by destruct (onShutdown env t).
  - rewrite IH. by rewrite (decide_ext (t ∈ ts /\ s <> StatusNone) (t ∈ t' :: ts /\ s <> StatusNone))
      by (rewrite elem_of_cons; naive_solver).
Qed.

(** A script that only notifies extensions and closes providers. *)
Definition quiet (acts : list action) : Prop :=
  Forall (fun a => match a with notifies _ _ | closes _ => True | _ => False end) acts.

Lemma quiet_eq acts : quiet acts -> started acts = [] /\ stopped acts = [] /\ forall t s, status_after t s acts = s.
Proof. induction 1 as [|a acts Ha _ (IH1 & IH2 & IH3)]; [done|]. destruct a; try done. Qed.

Lemma notifyReady_quiet bes ids : quiet (notifyReady env bes ids).1.
Proof.
  induction ids as [|id ids IH]; [constructor|]. simpl. destruct (isPipelineWatcher bes id); [|done].
  destruct (onNotify env id PipelineReady); [by repeat constructor|]. destruct (notifyReady env bes ids). by constructor.
Qed.

Lemma notifyNotReady_quiet bes ids errs : quiet (notifyNotReady env bes ids errs).1.
Proof.
  revert errs. induction ids as [|id ids IH]; intros errs; [constructor|]. simpl. destruct (isPipelineWatcher bes id); [|done].
  specialize (IH (multierr_Append errs (onNotify env id PipelineNotReady))). destruct (notifyNotReady env bes ids _). by constructor.
Qed.

Lemma NotifyConfigSnapshot_quiet bes snapshot : quiet (NotifyConfigSnapshot env bes snapshot).1.
Proof.
  destruct snapshot as [b|]; [|constructor]. simpl. generalize (extensionIDs bes) as ids, (@None error) as errs.
  induction ids as [|id ids IH]; intros errs; [constructor|]. simpl. destruct (default _ _); [done| |].
  - specialize (IH (multierr_Append errs (onNotify env id ConfigSnapshot))). destruct (notifySnapshot env bes b ids _). by constructor.
  - destruct b; [|done]. specialize (IH (multierr_Append errs (onNotify env id EffectiveConfig))).
    destruct (notifySnapshot env bes true ids _). by constructor.
Qed.

(** The targets start in order until one fails, with their statuses. *)
Record brings_up (ts : list target) (s : script) : Prop := {
  bu_starts : starts_of ts s;
  bu_status : forall t, status_after t StatusNone s.1 = if decide (t ∈ started s.1) then start_status t else StatusNone;
  bu_other : forall t st, t ∉ ts -> status_after t st s.1 = st;
}.

Lemma startTargets_up wrap ts : NoDup ts -> brings_up ts (startTargets wrap ts).
Proof.
  intros Hnd. split; [apply startTargets_of|intros t; by apply startTargets_status|intros t st; apply startTargets_other].
Qed.

Lemma quiet_up s : quiet s.1 -> brings_up [] s.
Proof.
  intros (Hs & Ht & Hst)%quiet_eq. split; [split; [by rewrite Hs|done..]| |by intros]. intros t. rewrite Hs, Hst.
  rewrite decide_False; [done|]. apply not_elem_of_nil.
Qed.

Lemma status_after_app t st l k : status_after t st (l ++ k) = status_after t (status_after t st l) k.
Proof. apply foldl_app. Qed.

Lemma then_up ts1 ts2 s1 s2 wrap : (forall t, t ∈ ts1 -> t ∉ ts2) ->
  brings_up ts1 s1 -> brings_up ts2 s2 -> brings_up (ts1 ++ ts2) (then_ s1 wrap s2).
Proof.
  intros Hdisj [[Hp1 Ha1 Hn1] Hs1 Ho1] [[Hp2 Ha2 Hn2] Hs2 Ho2]. unfold then_.
  destruct (s1.2) as [e|] eqn:E; (split; [split|..]); simpl; try done.
  - by apply prefix_app_r.
  - intros t st [? _]%not_elem_of_app. auto.
  - rewrite started_app, (Ha1 eq_refl). by apply prefix_app.
  - intros E2. by rewrite started_app, (Ha1 eq_refl), (Ha2 E2).
  - by rewrite stopped_app, Hn1, Hn2.
  - intros t. rewrite status_after_app, started_app, Hs1, (Ha1 eq_refl). destruct (decide (t ∈ ts1)) as [H1|H1].
    + rewrite decide_True by (apply elem_of_app; by left). apply Ho2. auto.
    + rewrite Hs2. by rewrite (decide_ext (t ∈ started s2.1) (t ∈ ts1 ++ started s2.1)) by (rewrite elem_of_app; tauto).
  - intros t st [? ?]%not_elem_of_app. rewrite status_after_app, Ho1, Ho2; auto.
Qed.

(** ** The service *)

Section service.
Context {DG : DirectedGraph node} {DGL : DirectedGraphLaws node}.
Context (srv : Service) (nodes : list node) (Hsort : Sort (componentGraph (Pipelines srv)) = Some nodes).
Context (Hnodes : NoDup nodes) (Hids : NoDup (extensionIDs (ServiceExtensions srv))).
Notation ids := (extensionIDs (ServiceExtensions srv)).

Lemma components_NoDup l : NoDup l -> NoDup (components l).
Proof. intros Hl. apply NoDup_fmap_2; [by intros ?? [=]|]. by apply NoDup_filter. Qed.

Lemma extensions_NoDup l : NoDup l -> NoDup (extensionsOf l).
Proof. intros Hl. apply NoDup_fmap_2; [by intros ?? [=]|done]. Qed.

Lemma extension_not_component t l k : t ∈ extensionsOf l -> t ∉ components k.
Proof. by intros (? & -> & _)%list_elem_of_fmap (? & ? & _)%list_elem_of_fmap. Qed.

Lemma Service_Start_up : brings_up (extensionsOf ids ++ components (reverse nodes)) (Service_Start env srv).
Proof.
  unfold Service_Start, StartAll, Extensions_Start. rewrite Hsort. simpl.
  apply then_up; [by intros t; apply extension_not_component|rewrite startExtensions_eq; apply startTargets_up, extensions_NoDup, Hids|].
  apply (then_up [] (components (reverse nodes))); [by intros t ?%elem_of_nil|apply quiet_up, NotifyConfigSnapshot_quiet|].
  rewrite <- (app_nil_r (components (reverse nodes))). apply then_up; [by intros t _ ?%elem_of_nil| |].
  - rewrite startNodes_eq. by apply startTargets_up, components_NoDup, NoDup_rev_list.
  - apply (then_up [] []); [by intros t ?%elem_of_nil|apply quiet_up, notifyReady_quiet|apply quiet_up; constructor].
Qed.

(** The order of the shutdown. *)
Definition stop_order : list target := components nodes ++ extensionsOf (reverse ids).

Lemma Service_Shutdown_acts : exists l1 l2, quiet l1 /\ quiet l2 /\
  (Service_Shutdown env srv).1 = l1 ++ (shutdownTargets (components nodes) None).1 ++
    (shutdownTargets (extensionsOf (reverse ids)) None).1 ++ l2.
Proof.
  exists (NotifyPipelineNotReady env (ServiceExtensions srv)).1, [closes TracerProvider; closes MeterProvider; closes LoggerProvider].
  split_and!; [apply notifyNotReady_quiet|by repeat constructor|].
  unfold Service_Shutdown, ShutdownAll, Extensions_Shutdown, and_also, close. rewrite Hsort. simpl.
  by rewrite shutdownNodes_eq, shutdownExtensions_eq, <- !app_assoc.
Qed.

Lemma Service_Shutdown_stops : stopped (Service_Shutdown env srv).1 = stop_order.
Proof.
  destruct Service_Shutdown_acts as (l1 & l2 & Hl1 & Hl2 & ->).
  destruct (quiet_eq l1 Hl1) as (_ & H1 & _), (quiet_eq l2 Hl2) as (_ & H2 & _).
  rewrite !stopped_app, H1, H2, !(to_all _ _ _ (shutdownTargets_of _ _)), app_nil_r. done.
Qed.

Lemma Service_Shutdown_status t s : s = StatusNone \/ s = start_status t ->
  status_after t s (Service_Shutdown env srv).1 = if decide (t ∈ stop_order /\ s <> StatusNone) then stop_status t else s.
Proof.
  intros Hs. destruct Service_Shutdown_acts as (l1 & l2 & Hl1 & Hl2 & ->).
  destruct (quiet_eq l1 Hl1) as (_ & _ & H1), (quiet_eq l2 Hl2) as (_ & _ & H2).
  rewrite !status_after_app, H2, H1. destruct (decide (t ∈ components nodes)) as [Hc|Hc].
  - rewrite shutdownTargets_other by (intros Hx; by destruct (extension_not_component _ _ nodes Hx)).
    rewrite shutdownTargets_status by (try apply components_NoDup; done).
    by rewrite (decide_ext (t ∈ components nodes /\ s <> StatusNone) (t ∈ stop_order /\ s <> StatusNone))
      by (unfold stop_order; rewrite elem_of_app; tauto).
  - rewrite (shutdownTargets_other (components nodes)) by done.
    rewrite shutdownTargets_status by (try apply extensions_NoDup, NoDup_rev_list; done).
    by rewrite (decide_ext (t ∈ extensionsOf (reverse ids) /\ s <> StatusNone) (t ∈ stop_order /\ s <> StatusNone))
      by (unfold stop_order; rewrite elem_of_app; tauto).
Qed.

Lemma and_also_error s msg next : (and_also s msg next).2 = None <-> s.2 = None /\ next.2 = None.
Proof.
  unfold and_also, append_some. simpl. destruct (next.2); simpl; [|tauto]. rewrite multierr_some. naive_solver.
Qed.

Lemma Service_Shutdown_error : (Service_Shutdown env srv).2 = None <->
  Forall (fun t => onShutdown env t = None) stop_order /\ (NotifyPipelineNotReady env (ServiceExtensions srv)).2 = None /\
  forall p, onClose env p = None.
Proof.
  unfold Service_Shutdown. rewrite !and_also_error. unfold ShutdownAll, Extensions_Shutdown. rewrite Hsort. simpl.
  rewrite shutdownNodes_eq, shutdownExtensions_eq, !(to_err _ _ _ (shutdownTargets_of _ _)).
  unfold stop_order. rewrite Forall_app. split.
  - intros ((((((_ & ?) & _ & ?) & _ & ?) & ?) & ?) & ?). split_and!; try done. by intros [].
  - intros ([? ?] & ? & Hp). split_and!; done || apply Hp.
Qed.
End service.
End proofs.

(** * Starting and stopping a service *)

(** Data may flow from [u] to [w]. *)
Abbreviation flows set := (tc (edge set)).

Section theorems.
Context `{ML : MultiErrLaws} (env : environment).
Context {DG : DirectedGraph node} {DGL : DirectedGraphLaws node} (set : Settings) (srv : Service).
Notation ids := (extensionIDs (ServiceExtensions srv)).

(** A service whose pipelines Build made. *)
Record service_ok : Prop := {
  ok_settings : valid_settings set;
  ok_acyclic : acyclic set;
  ok_graph : shape set (Pipelines srv);
  ok_extensions : NoDup ids;
}.

(** The extensions and the components of the service. *)
Definition is_part (t : target) : Prop :=
  match t with
  | anExtension id => id ∈ ids
  | aComponent n => n ∈ all_nodes set /\ is_component n = true
  end.

Lemma sorted : service_ok -> exists nodes, Sort (componentGraph (Pipelines srv)) = Some nodes /\ NoDup nodes /\
  (forall n, n ∈ nodes <-> n ∈ all_nodes set) /\
  (forall u w done rest, flows set u w -> reverse nodes = done ++ u :: rest -> w ∈ done).
Proof.
  intros [Hv Hac Hg _]. destruct (proj2 (sorted_iff set Hv _ Hg) Hac) as [nodes E]. exists nodes.
  pose proof (sh_ok _ _ Hg) as Hok. pose proof (Sort_nodup _ _ Hok E) as Hnd. split_and!; [done..| |].
  - intros n. rewrite (Sort_nodes _ _ Hok E), (sh_nodes _ _ Hg). tauto.
  - assert (forall u w done rest, edge set u w -> reverse nodes = done ++ u :: rest -> w ∈ done) as Hstep.
    { intros u w done rest He Er. eapply reverse_before; [exact Hnd|exact Er|].
      apply (Sort_order (componentGraph (Pipelines srv))); [done..| |].
      - apply (sh_nodes _ _ Hg). split; [done|]. by apply (edge_ends set Hv) in He as [? _].
      - apply (sh_edges _ _ Hg). by exists u. }
    intros u w done rest Hf. revert done rest. induction Hf as [u w He|u v w He _ IH]; intros done rest Er; [by eapply Hstep|].
    assert (v ∈ done) as (d1 & d2 & ->)%list_elem_of_split by by eapply Hstep.
    apply elem_of_app. left. apply (IH d1 (d2 ++ u :: rest)). by rewrite Er, <- app_assoc.
Qed.

Lemma split_components l pre t post : components l = pre ++ t :: post ->
  exists done u rest, l = done ++ u :: rest /\ pre = components done /\ t = aComponent u /\ is_component u = true.
Proof.
  revert pre. induction l as [|n l IH]; intros pre E; [by destruct pre|]. rewrite components_cons in E.
  destruct (is_component n) eqn:En.
  - destruct pre as [|t' pre]; injection E as <- E; [by exists [], n, l|].
    destruct (IH pre E) as (done & u & rest & -> & -> & -> & ?). exists (n :: done), u, rest.
    by rewrite components_cons, En.
  - destruct (IH pre E) as (done & u & rest & -> & -> & -> & ?). exists (n :: done), u, rest.
    by rewrite components_cons, En.
Qed.

Lemma elem_of_components n l : aComponent n ∈ components l <-> n ∈ l /\ is_component n = true.
Proof.
  unfold components. split.
  - by intros (? & [= <-] & [? ?]%list_elem_of_filter)%list_elem_of_fmap.
  - intros [? ?]. by apply list_elem_of_fmap_2, list_elem_of_filter.
Qed.

Lemma elem_of_extensions id l : anExtension id ∈ extensionsOf l <-> id ∈ l.
Proof. unfold extensionsOf. rewrite list_elem_of_fmap. split; [by intros (? & [= <-] & ?)|by exists id]. Qed.

(** What was started when [t] is: the extensions before it, or all the extensions and the
    components that may get data from it. *)
Definition ready_before (t : target) (pre : list target) : Prop :=
  match t with
  | anExtension id => exists l rest, ids = l ++ id :: rest /\ pre = extensionsOf l
  | aComponent u =>
      (forall id, id ∈ ids -> anExtension id ∈ pre) /\
      (forall w, flows set u w -> is_component w = true -> aComponent w ∈ pre)
  end.

Lemma start_split nodes pre t post :
  (forall u w done rest, flows set u w -> reverse nodes = done ++ u :: rest -> w ∈ done) ->
  extensionsOf ids ++ components (reverse nodes) = pre ++ t :: post -> ready_before t pre.
Proof.
  intros Hflow [(k & E1 & E2)|(k & -> & E2)]%app_eq_inv.
  - destruct k as [|t' k].
    + destruct (split_components (reverse nodes) [] t post) as (d & u & rest & Er & Ed & -> & Hu); [done|].
      rewrite app_nil_r in E1. rewrite <- E1. split; [intros id; apply elem_of_extensions|].
      intros w Hw Hc. assert (aComponent w ∈ components d) as Hin; [|by rewrite <- Ed in Hin; apply elem_of_nil in Hin].
      apply elem_of_components. eauto.
    + injection E2 as <- _. apply fmap_app_inv in E1 as (l & m & -> & Em & Eids).
      destruct m as [|id m]; [done|]. injection Em as -> _. by exists l, m.
  - destruct (split_components _ _ _ _ E2) as (d & u & rest & Er & -> & -> & Hu). split.
    + intros id Hid. apply elem_of_app. left. by apply elem_of_extensions.
    + intros w Hw Hc. apply elem_of_app. right. apply elem_of_components. eauto.
Qed.

Lemma part_started nodes t : (forall n, n ∈ nodes <-> n ∈ all_nodes set) ->
  t ∈ extensionsOf ids ++ components (reverse nodes) <-> is_part t.
Proof.
  intros Hin. rewrite elem_of_app. destruct t as [id|n]; simpl.
  - rewrite elem_of_extensions. split; [intros [?|(? & ? & _)%list_elem_of_fmap]; done|by left].
  - rewrite elem_of_components, elem_of_reverse, Hin. split; [intros [(? & ? & _)%list_elem_of_fmap|?]; done|by right].
Qed.

Lemma part_stopped nodes t : (forall n, n ∈ nodes <-> n ∈ all_nodes set) -> t ∈ stop_order srv nodes <-> is_part t.
Proof.
  intros Hin. unfold stop_order. rewrite elem_of_app. destruct t as [id|n]; simpl.
  - rewrite elem_of_extensions, elem_of_reverse. split; [intros [(? & ? & _)%list_elem_of_fmap|?]; done|tauto].
  - rewrite elem_of_components, Hin. split; [intros [?|(? & ? & _)%list_elem_of_fmap]; done|by left].
Qed.

(** What was stopped before [t]: the components it may get data from; for an extension,
    all the components and the extensions started after it. *)
Definition drained_before (t : target) (pre : list target) : Prop :=
  match t with
  | aComponent w => forall u, u ∈ all_nodes set -> flows set u w -> is_component u = true -> aComponent u ∈ pre
  | anExtension id =>
      (forall n, n ∈ all_nodes set -> is_component n = true -> aComponent n ∈ pre) /\
      (forall l x l' y l'', ids = l ++ x :: l' ++ y :: l'' -> id = x -> anExtension y ∈ pre)
  end.

Lemma upstream_before nodes d w rest u : NoDup nodes -> nodes = d ++ w :: rest -> u ∈ nodes ->
  (forall u w done rest, flows set u w -> reverse nodes = done ++ u :: rest -> w ∈ done) -> flows set u w -> u ∈ d.
Proof.
  intros Hnd -> Hu Hflow Hf. apply elem_of_app in Hu as [Hu|Hu]; [done|exfalso].
  assert (exists a b, w :: rest = a ++ u :: b) as (a & b & Eab) by by apply list_elem_of_split.
  assert (w ∈ reverse b) as Hw.
  { apply (Hflow u w _ (reverse a ++ reverse d)); [done|].
    by rewrite Eab, reverse_app, reverse_app, reverse_cons, <- !app_assoc. }
  rewrite elem_of_reverse in Hw. apply NoDup_app in Hnd as (_ & _ & Hnd). destruct a as [|x a]; injection Eab as -> Eab.
  - apply NoDup_cons in Hnd as [Hnd _]. by rewrite Eab in Hnd.
  - apply NoDup_cons in Hnd as [Hnd _]. apply Hnd. rewrite Eab, elem_of_app. right. by right.
Qed.

Lemma extensions_drained nodes k t post : NoDup ids -> (forall n, n ∈ nodes <-> n ∈ all_nodes set) ->
  extensionsOf (reverse ids) = k ++ t :: post -> drained_before t (components nodes ++ k).
Proof.
  intros Hids Hin (l1 & m & -> & Em & Er)%fmap_app_inv. destruct m as [|id l2]; [done|]. injection Em as -> _. split.
  - intros n Hn Hc. apply elem_of_app. left. apply elem_of_components. by rewrite Hin.
  - intros l x l' y l'' E <-. apply elem_of_app. right. apply elem_of_extensions.
    apply (f_equal reverse) in Er. rewrite reverse_involutive, reverse_app, reverse_cons, <- app_assoc in Er. simpl in Er.
    rewrite Er in E, Hids. assert (reverse l2 = l) as Hl by by apply (split_unique id _ (reverse l1) l (l' ++ y :: l'')).
    rewrite Hl in E. apply app_inv_head in E. injection E as E. rewrite <- elem_of_reverse, E, elem_of_app. right. by left.
Qed.

(** C24: extensions start in their order, before any component; a component starts after all
    the components that may get data from it, so that a consumer is always ready before
    it is called.  Nothing starts twice; a start that succeeds starts everything, and
    one that fails stops there. *)
Theorem downstream_starts_first : service_ok ->
  (forall pre t post, started (Service_Start env srv).1 = pre ++ t :: post -> is_part t /\ t ∉ pre /\ ready_before t pre) /\
  ((Service_Start env srv).2 = None -> forall t, is_part t -> t ∈ started (Service_Start env srv).1).
Proof.
  intros Hok. destruct (sorted Hok) as (nodes & Hsort & Hnd & Hin & Hflow).
  destruct (Service_Start_up env srv nodes Hsort Hnd (ok_extensions Hok)) as [[[rest Hpre] Hall _] _ _]. split.
  2: { intros E t. by rewrite (Hall E), (part_started nodes t Hin). }
  intros pre t post E. rewrite E, <- app_assoc in Hpre. simpl in Hpre. split_and!; [| |by eapply start_split].
  - apply (part_started nodes t Hin). rewrite Hpre. apply elem_of_app. right. by left.
  - assert (NoDup (extensionsOf ids ++ components (reverse nodes))) as Hall'.
    { apply NoDup_app. split_and!; [apply extensions_NoDup, Hok|by intros x; apply extension_not_component|].
      by apply components_NoDup, NoDup_rev_list. }
    rewrite Hpre in Hall'. apply NoDup_app in Hall' as (_ & Hd & _). intros Ht. apply (Hd t Ht). by left.
Qed.

(** C23: A shutdown stops every component and every extension exactly once, whatever the calls
    return and whether the service was started or not.  A component stops after all those
    it may get data from, and the extensions stop last, in the reverse order.  There is an
    error if and only if some call returned one. *)
Theorem upstream_stops_first : service_ok ->
  (forall t, t ∈ stopped (Service_Shutdown env srv).1 <-> is_part t) /\ NoDup (stopped (Service_Shutdown env srv).1) /\
  (forall pre t post, stopped (Service_Shutdown env srv).1 = pre ++ t :: post -> drained_before t pre) /\
  ((Service_Shutdown env srv).2 = None <-> (forall t, is_part t -> onShutdown env t = None) /\
     (NotifyPipelineNotReady env (ServiceExtensions srv)).2 = None /\ forall p, onClose env p = None).
Proof.
  intros Hok. destruct (sorted Hok) as (nodes & Hsort & Hnd & Hin & Hflow).
  rewrite (Service_Shutdown_stops env srv nodes Hsort), (Service_Shutdown_error env srv nodes Hsort), Forall_forall.
  split_and!; [by intros t; apply part_stopped| | |by setoid_rewrite (part_stopped nodes _ Hin)].
  - apply NoDup_app. split_and!; [by apply components_NoDup| |by apply extensions_NoDup, NoDup_rev_list, Hok].
    intros t Ht Ht'. by apply (extension_not_component _ _ nodes Ht').
  - unfold stop_order. intros pre t post [(k & E1 & E2)|(k & -> & E2)]%app_eq_inv.
    + destruct k as [|t' k].
      * rewrite app_nil_r in E1. rewrite <- E1, <- (app_nil_r (components nodes)). apply (extensions_drained nodes [] t post); [apply Hok|done|by symmetry].
      * injection E2 as <- _. destruct (split_components _ _ _ _ E1) as (d & w & rest & En & -> & -> & Hw).
        intros u Hu Hf Hc. apply elem_of_components. split; [|done]. eapply upstream_before; [exact Hnd|exact En|by apply Hin|exact Hflow|done].
    + apply (extensions_drained nodes k t post); [apply Hok|done|done].
Qed.

(** The reporter, told of every start and every stop, and of nothing else, knows at the
    end of the start which targets run: those that were started are StatusOK, or
    StatusPermanentError if the start failed, and the others have no status yet.  After a
    shutdown, of a service that started or did not, a target that was started is
    StatusStopped, or StatusPermanentError if its shutdown failed, and one that was not
    still has no status. *)
Theorem statuses_follow_the_service (inst : target -> nat) `{!Inj eq eq inst} now : service_ok -> forall t,
  let up := omap (call_of inst now) (Service_Start env srv).1 in
  let down := omap (call_of inst now) (Service_Shutdown env srv).1 in
  let runs := bool_decide (t ∈ started (Service_Start env srv).1) in
  status_of (inst t) (run up NewReporter).1 =
    (if runs then match onStart env t with None => StatusOK | Some _ => StatusPermanentError end else StatusNone) /\
  status_of (inst t) (run (up ++ down) NewReporter).1 =
    (if runs then match onShutdown env t with None => StatusStopped | Some _ => StatusPermanentError end else StatusNone).
Proof.
  intros Hok t up down runs. destruct (sorted Hok) as (nodes & Hsort & Hnd & Hin & _).
  pose proof (Service_Start_up env srv nodes Hsort Hnd (ok_extensions Hok)) as [[[rest Hpre] _ _] Hst _].
  assert (up ++ down = omap (call_of inst now) ((Service_Start env srv).1 ++ (Service_Shutdown env srv).1)) as ->
    by by rewrite omap_app.
  unfold up. rewrite !run_status by done. change (status_of (inst t) NewReporter) with StatusNone.
  rewrite status_after_app, Hst. unfold runs. rewrite bool_decide_decide.
  destruct (decide (t ∈ started (Service_Start env srv).1)) as [Ht|Ht].
  - split; [done|]. rewrite (Service_Shutdown_status env srv nodes Hsort Hnd) by (try apply Hok; by right).
    rewrite decide_True; [done|]. split.
    + apply (part_stopped nodes t Hin), (part_started nodes t Hin). rewrite Hpre, elem_of_app. by left.
    + unfold start_status. by destruct (onStart env t).
  - split; [done|]. rewrite (Service_Shutdown_status env srv nodes Hsort Hnd) by (try apply Hok; by left).
    rewrite decide_False; [done|]. by intros [_ []].
Qed.
End theorems.

(** ** The exporters *)

Section exporters.
Context {DG : DirectedGraph node} {DGL : DirectedGraphLaws node} (set : Settings) (g : Graph).
Context (Hvalid : valid_settings set) (Hg : shape set g).

Definition exporter_at (m : gmap Signal (gmap ID node)) (s : Signal) (c : ID) : option node := m !! s ≫= (.!! c).

(** What the visited nodes [l] leave in a map that has every signal. *)
Record collected (l : list (Z * node)) (m : gmap Signal (gmap ID node)) : Prop := {
  co_signals : forall s, is_Some (m !! s);
  co_nodes : forall s c n, exporter_at m s c = Some n <-> n = exporterNode s c /\ n ∈ l.*2;
}.

Lemma addExporterOf_collected l m x : collected l m -> x.2 ∈ all_nodes set -> collected (l ++ [x]) (addExporterOf g m x).
Proof.
  intros [Hs Hn] Hx. unfold addExporterOf.
  assert (Node (componentGraph g) (node_ID x.2) = Some x.2) as -> by by apply (sh_nodes _ _ Hg).
  assert (forall s c, x.2 <> exporterNode s c -> exporterNode s c ∈ (l ++ [x]).*2 <-> exporterNode s c ∈ l.*2) as Hother.
  { intros s c Hne. rewrite fmap_app, elem_of_app. simpl. rewrite list_elem_of_singleton. naive_solver. }
  destruct (x.2) as [s i|p i|s i|e r i|p|p] eqn:Ex;
    try (split; [done|intros s' c n; rewrite Hn; split; intros [-> ?]; (split; [done|]); by apply Hother]).
  split.
  - intros s'. destruct (decide (s = s')) as [->|]; [rewrite lookup_alter_eq|by rewrite lookup_alter_ne].
    destruct (Hs s') as [? ->]. by eexists.
  - intros s' c n. unfold exporter_at in *. destruct (decide (s = s')) as [->|Hs'].
    + rewrite lookup_alter_eq. destruct (Hs s') as [t Et]. specialize (Hn s'). rewrite Et in Hn |- *. simpl in *.
      destruct (decide (i = c)) as [->|Hc].
      * rewrite lookup_insert_eq, fmap_app, elem_of_app. simpl. rewrite list_elem_of_singleton, Ex. naive_solver.
      * rewrite lookup_insert_ne, Hn by done. split; intros [-> ?]; (split; [done|]); apply Hother; done || congruence.
    + rewrite lookup_alter_ne, Hn by done. split; intros [-> ?]; (split; [done|]); apply Hother; done || congruence.
Qed.

Lemma exporters_collected k l m : Forall (fun x : Z * node => x.2 ∈ all_nodes set) l -> collected k m ->
  collected (k ++ l) (foldl (addExporterOf g) m l).
Proof.
  intros Hl. revert k m. induction Hl as [|x l Hx _ IH]; intros k m Hm; simpl; [by rewrite app_nil_r|].
  replace (k ++ x :: l) with ((k ++ [x]) ++ l) by by rewrite <- app_assoc. by apply IH, addExporterOf_collected.
Qed.

Lemma pipelines_collected (l : list (pipelineID * pipelineNodes)) k m :
  Forall (fun x => pipelines g !! x.1 = Some x.2) l -> collected k m ->
  collected (k ++ (l ≫= fun x => map_to_list (exporters x.2)))
    (foldl (fun m (x : pipelineID * pipelineNodes) => foldl (addExporterOf g) m (map_to_list (exporters x.2))) m l).
Proof.
  intros Hl. revert k m. induction Hl as [|x l Hx _ IH]; intros k m Hm; simpl; [by rewrite app_nil_r|].
  rewrite app_assoc. apply IH, exporters_collected; [|done]. apply Forall_forall. intros [id n] Hn%elem_of_map_to_list.
  apply (sh_exporters _ _ Hg _ _ _ _ Hx) in Hn as [_ He]. by apply (edge_ends set Hvalid) in He as (_ & ? & _).
Qed.

(** GetExporters has exactly the exporters of the configuration, and no connector. *)
Lemma GetExporters_spec s c n : exporter_at (GetExporters g) s c = Some n <-> n = exporterNode s c /\ n ∈ all_nodes set.
Proof.
  unfold GetExporters. edestruct (pipelines_collected (map_to_list (pipelines g)) []) as [_ ->].
  - apply Forall_forall. intros [p pg]. apply elem_of_map_to_list.
  - split; [by intros []; eexists|]. intros s' c' n'. split; [|by intros [_ ?%elem_of_nil]].
    unfold exporter_at. by destruct s'.
  - simpl. split; intros [-> Hn]; (split; [done|]).
    + apply list_elem_of_fmap in Hn as ([id m] & -> & Hm).
      apply list_elem_of_bind in Hm as ([p pg] & Hm%elem_of_map_to_list & Hp%elem_of_map_to_list).
      apply (sh_exporters _ _ Hg _ _ _ _ Hp) in Hm as [_ He]. by apply (edge_ends set Hvalid) in He as (_ & ? & _).
    + destruct (all_nodes_inv set _ Hn) as [p He]. destruct (edge_ends set Hvalid _ _ He) as (Hp & _).
      destruct (all_nodes_inv set _ Hp) as [cfg Hin].
      assert (is_Some (pipelines g !! p)) as [pg Hpg] by (apply (sh_pipelines _ _ Hg); by apply (list_elem_of_fmap_2 fst) in Hin).
      apply (list_elem_of_fmap_2 snd _ (node_ID (exporterNode s c), exporterNode s c)).
      apply list_elem_of_bind. exists (p, pg). rewrite !elem_of_map_to_list. split; [|done]. by apply (sh_exporters _ _ Hg p pg).
Qed.
End exporters.

(** ** A service *)

#[local] Existing Instance adjacency_graph.
#[local] Existing Instance adjacency_laws.
#[local] Existing Instance multierr_first.
#[local] Existing Instance multierr_first_laws.

(** The processor cannot be started, and the receiver not be stopped. *)
Definition some_environment : environment := {|
  onStart t := match t with aComponent (processorNode _ _) => Some (ErrNew "start") | _ => None end;
  onShutdown t := match t with aComponent (receiverNode _ _) => Some (ErrNew "stop") | _ => None end;
  onNotify _ _ := None;
  onClose _ := None;
|}.

Definition some_extensions : Extensions :=
  mkExtensions {[an_id "health" := mkExtension None true noWatcher]} [an_id "health"].

Lemma some_service : exists srv, service_ok some_settings srv /\ ServiceExtensions srv = some_extensions.
Proof.
  destruct some_graph as [g Hg]. exists (mkService some_extensions g None). split; [|done]. split; simpl.
  - exact some_settings_valid.
  - exact some_settings_acyclic.
  - exact Hg.
  - apply NoDup_singleton.
Qed.

Lemma downstream_starts_first_witness : exists srv, ServiceExtensions srv = some_extensions /\
  ((Service_Start some_environment srv).2 = None -> anExtension (an_id "health") ∈ started (Service_Start some_environment srv).1).
Proof.
  destruct some_service as (srv & Hok & E). exists srv. split; [exact E|]. intros Hn.
  apply (proj2 (downstream_starts_first some_environment some_settings srv Hok) Hn). simpl. rewrite E. left.
Defined.

Lemma upstream_stops_first_witness : exists srv,
  anExtension (an_id "health") ∈ stopped (Service_Shutdown some_environment srv).1.
Proof.
  destruct some_service as (srv & Hok & E). exists srv.
  apply (proj1 (upstream_stops_first some_environment some_settings srv Hok)). simpl. rewrite E. left.
Defined.

#[local] Instance node_countable : Countable node.
Proof.
  refine (inj_countable'
    (fun n => match n with
              | receiverNode s i => inl (inl (s, i)) | exporterNode s i => inl (inr (s, i))
              | processorNode p i => inr (inl (inl (p, i))) | connectorNode e r i => inr (inl (inr (e, r, i)))
              | capabilitiesNode p => inr (inr (inl p)) | fanOutNode p => inr (inr (inr p))
              end)
    (fun x => match x with
              | inl (inl (s, i)) => receiverNode s i | inl (inr (s, i)) => exporterNode s i
              | inr (inl (inl (p, i))) => processorNode p i | inr (inl (inr (e, r, i))) => connectorNode e r i
              | inr (inr (inl p)) => capabilitiesNode p | inr (inr (inr p)) => fanOutNode p
              end) _).
  by intros [].
Defined.

#[local] Instance target_countable : Countable target.
Proof.
  refine (inj_countable' (fun t => match t with anExtension i => inl i | aComponent n => inr n end)
    (fun x => match x with inl i => anExtension i | inr n => aComponent n end) _).
  by intros [].
Defined.

Lemma statuses_follow_the_service_witness : exists srv,
  status_of (encode_nat (anExtension (an_id "health")))
    (run (omap (call_of encode_nat 7) (Service_Start some_environment srv).1) NewReporter).1 =
  if bool_decide (anExtension (an_id "health") ∈ started (Service_Start some_environment srv).1) then StatusOK else StatusNone.
Proof.
  destruct some_service as (srv & Hok & E). exists srv.
  apply (proj1 (statuses_follow_the_service some_environment some_settings srv encode_nat 7 Hok (anExtension (an_id "health")))).
Defined.

(** * Extensions start after the extensions they depend on *)

Section order.
Context {DG : DirectedGraph extNode} {DGL : DirectedGraphLaws extNode}.
Context (exts : gmap ID extension).

Definition depends (id dep : ID) : Prop :=
  exists e deps, exts !! id = Some e /\ Dependencies e = Some deps /\ dep ∈ deps.

(** The nodes of the extensions [keys], whatever the edges. *)
Record numbered (keys : list ID) (g : digraph) (nodes : gmap ID extNode) : Prop := {
  nb_ok : graph_ok g;
  nb_dom : forall id, is_Some (nodes !! id) <-> id ∈ keys;
  nb_ext : forall id n, nodes !! id = Some n -> extID n = id /\ 0 < nodeID n <= Z.of_nat (size nodes);
  nb_inj : forall id id' n n', nodes !! id = Some n -> nodes !! id' = Some n' -> nodeID n = nodeID n' -> id = id';
  nb_Node : forall i n, Node g i = Some n <-> i = nodeID n /\ nodes !! extID n = Some n;
}.

Lemma addExtension_ok keys g nodes x : numbered keys g nodes -> x.1 ∉ keys -> (forall i, From g i = []) ->
  exists g' nodes', addExtension (g, nodes) x = ok (g', nodes') /\ numbered (keys ++ [x.1]) g' nodes' /\ (forall i, From g' i = []).
Proof.
  intros [Hok Hdom Hext Hinj HNode] Hx Hfrom. unfold addExtension. simpl.
  set (n := mkExtNode (Z.of_nat (size nodes) + 1) x.1).
  assert (nodes !! x.1 = None) as Hnone.
  { destruct (nodes !! x.1) eqn:E; [|done]. destruct Hx. apply Hdom. eauto. }
  destruct (AddNode_new n g Hok) as (g' & -> & Hok' & HN & HF).
  { destruct (Node g (node_ID n)) as [m|] eqn:E; [|done]. apply HNode in E as [Ei Em].
    apply Hext in Em as [_ Hm]. unfold node_ID, extNode_HasID in Ei. simpl in Ei. lia. }
  exists g', (<[x.1 := n]> nodes). split; [done|].
  assert (size (<[x.1 := n]> nodes) = S (size nodes)) as Hsize by by apply map_size_insert_None.
  split; [split|].
  - done.
  - intros id. rewrite elem_of_app, list_elem_of_singleton, <- Hdom. destruct (decide (id = x.1)) as [->|Hid].
    + rewrite lookup_insert_eq. split; [by right|by eauto].
    + rewrite lookup_insert_ne by done. tauto.
  - intros id m Hm. rewrite Hsize. apply lookup_insert_Some in Hm as [[<- <-]|[_ Hm]]; [simpl; split; [done|lia]|].
    apply Hext in Hm as [-> ?]. split; [done|lia].
  - intros id id' m m' Hm Hm' E. apply lookup_insert_Some in Hm as [[<- <-]|[? Hm]], Hm' as [[<- <-]|[? Hm']]; [done| | |eauto].
    + apply Hext in Hm' as [_ ?]. simpl in *. lia.
    + apply Hext in Hm as [_ ?]. simpl in *. lia.
  - intros i m. rewrite HN. case_decide as Hi.
    + split; [intros [= <-]; by rewrite lookup_insert_eq|]. intros [-> Hm].
      apply lookup_insert_Some in Hm as [[_ ->]|[_ Hm]]; [done|]. apply Hext in Hm as [_ ?].
      unfold node_ID, extNode_HasID in Hi. simpl in Hi. lia.
    + rewrite HNode. split; intros [-> Hm]; (split; [done|]).
      * rewrite lookup_insert_ne; [done|]. intros E. congruence.
      * apply lookup_insert_Some in Hm as [[_ <-]|[_ Hm]]; done.
  - intros i. by rewrite HF.
Qed.

Lemma addExtensions_ok (l : list (ID * extension)) : NoDup l.*1 ->
  exists g nodes, foldM addExtension l (NewDirectedGraph, ∅) = ok (g, nodes) /\ numbered l.*1 g nodes /\ (forall i, From g i = []).
Proof.
  intros Hnd. destruct (foldM_inv addExtension
    (fun k gn => numbered k.*1 gn.1 gn.2 /\ forall i, From gn.1 i = []) l (NewDirectedGraph, ∅)) as ([g nodes] & E & H1 & H2).
  - split; [split|]; simpl; [apply new_ok|..]; try done.
    + intros id. rewrite lookup_empty. split; [by intros []|by intros ?%elem_of_nil].
    + intros i n. rewrite Node_new, lookup_empty. split; [done|by intros []].
    + apply From_new.
  - intros k x r [g nodes] -> [H1 H2]. destruct (addExtension_ok k.*1 g nodes x) as (g' & nodes' & E & H1' & H2'); [done| |done|].
    + rewrite fmap_app, fmap_cons in Hnd. apply NoDup_app in Hnd as (_ & Hnd & _). intros Hx. apply (Hnd _ Hx). by left.
    + exists (g', nodes'). by rewrite fmap_app.
  - by exists g, nodes.
Qed.

(** ** The edges *)

Context (keys : list ID) (nodes : gmap ID extNode) (Hkeys : forall id, id ∈ keys <-> is_Some (exts !! id)).

(** The edges [E], each from a dependency to its dependent, are drawn. *)
Record drawn (E : list (ID * ID)) (g : digraph) : Prop := {
  dr_numbered : numbered keys g nodes;
  dr_edges : forall i v, v ∈ From g i <-> exists d u, (d, extID v) ∈ E /\ nodes !! d = Some u /\ nodeID u = i /\ nodes !! extID v = Some v;
}.

Lemma addDependency_ok E g id n dep : drawn E g -> nodes !! id = Some n -> dep <> id ->
  (exists g', addDependency nodes n g dep = ok g' /\ drawn (E ++ [(dep, id)]) g' /\ dep ∈ keys) \/
  (addDependency nodes n g dep = fails errMissingDependency /\ dep ∉ keys).
Proof.
  intros [Hnb Hedges] Hn Hne. unfold addDependency. destruct (nodes !! dep) as [d|] eqn:Ed.
  2: { right. split; [done|]. rewrite <- (nb_dom _ _ _ Hnb), Ed. by intros []. }
  left. destruct (nb_ext _ _ _ Hnb id n Hn) as [Hid _], (nb_ext _ _ _ Hnb dep d Ed) as [Hdep _].
  assert (Node g (node_ID d) = Some d) as Nd by by apply (nb_Node _ _ _ Hnb); rewrite Hdep.
  assert (Node g (node_ID n) = Some n) as Nn by by apply (nb_Node _ _ _ Hnb); rewrite Hid.
  destruct (SetEdge_new d n g) as (g' & -> & Hok' & HN & HF); [apply Hnb| |by right|by right|].
  { intros Hd. apply Hne. by apply (nb_inj _ _ _ Hnb dep id d n). }
  exists g'. split; [done|]. split; [split; [split|]|].
  - done.
  - apply Hnb.
  - apply Hnb.
  - apply Hnb.
  - intros i m. rewrite HN. rewrite <- (nb_Node _ _ _ Hnb). case_decide as Hi; [subst; by rewrite Nn|].
    case_decide as Hi'; [subst; by rewrite Nd|done].
  - intros i v. rewrite HF, Hedges. split.
    + intros [(x & u & Hin & ?)|[-> ->]]; [exists x, u; rewrite elem_of_app; tauto|].
      exists dep, d. rewrite elem_of_app, list_elem_of_singleton, Hid. auto.
    + intros (x & u & [Hin|[= -> ->]%list_elem_of_singleton]%elem_of_app & Hu & <- & Hv); [left; by exists x, u|].
      right. simplify_eq. done.
  - apply (nb_dom _ _ _ Hnb). eauto.
Qed.

Definition dependencies_of (x : ID * extension) : list (ID * ID) := (fun d => (d, x.1)) <$> default [] (Dependencies x.2).

Lemma addDependencies_ok E g x : drawn E g -> exts !! x.1 = Some x.2 -> ~ depends x.1 x.1 ->
  (exists g', addDependencies nodes g x = ok g' /\ drawn (E ++ dependencies_of x) g' /\ (forall d, depends x.1 d -> d ∈ keys)) \/
  (exists e, addDependencies nodes g x = fails e /\ e = errMissingDependency /\ exists d, depends x.1 d /\ d ∉ keys).
Proof.
  intros Hdr Hx Hself. unfold addDependencies, dependencies_of. destruct (Dependencies x.2) as [deps|] eqn:Ed.
  2: { left. exists g. split; [done|]. simpl. rewrite app_nil_r. split; [done|]. intros d (e & deps & ? & ? & _). congruence. }
  assert (is_Some (nodes !! x.1)) as [n Hn] by (apply (nb_dom _ _ _ (dr_numbered _ _ Hdr)), Hkeys; eauto).
  rewrite Hn. simpl.
  assert (forall d, d ∈ deps -> depends x.1 d) as Hdeps by (intros d Hd; by exists x.2, deps).
  destruct (foldM_inv_err (addDependency nodes n)
    (fun k g' => drawn (E ++ ((fun d => (d, x.1)) <$> k)) g' /\ forall d, d ∈ k -> d ∈ keys)
    (fun e => e = errMissingDependency /\ exists d, depends x.1 d /\ d ∉ keys) deps g) as [(g' & E' & Hdr' & Hall)|(e & E' & He)].
  - simpl. rewrite app_nil_r. split; [done|by intros d ?%elem_of_nil].
  - intros k d r g1 El [Hd1 Hall]. assert (d ∈ deps) as Hd by (rewrite El, elem_of_app; right; by left).
    destruct (addDependency_ok _ g1 x.1 n d Hd1 Hn) as [(g2 & E2 & Hd2 & ?)|[E2 Hd2]].
    + intros ->. by apply Hself, Hdeps.
    + left. exists g2. split; [done|]. rewrite fmap_app, app_assoc. split; [done|].
      intros d' [?| ->%list_elem_of_singleton]%elem_of_app; auto.
    + right. exists errMissingDependency. split_and!; [done..|]. exists d. auto.
  - left. exists g'. split; [done|]. split; [done|]. intros d (e' & deps' & ? & ? & ?). simplify_eq. auto.
  - right. by exists e.
Qed.

Lemma elem_of_dependencies l id d : (forall x, x ∈ l <-> exts !! x.1 = Some x.2) ->
  (d, id) ∈ l ≫= dependencies_of <-> depends id d.
Proof.
  intros Hl. rewrite list_elem_of_bind. unfold dependencies_of. split.
  - intros ([i e] & (d' & [= -> ->] & Hd)%list_elem_of_fmap & Hx%Hl). simpl in *.
    destruct (Dependencies e) as [deps|] eqn:Ed; [|by apply elem_of_nil in Hd]. by exists e, deps.
  - intros (e & deps & He & Ed & Hd). exists (id, e). split; [|by apply Hl]. simpl. rewrite Ed.
    by apply (list_elem_of_fmap_2 (fun x => (x, id))).
Qed.

Lemma drawn_all l g : numbered keys g nodes -> (forall i, From g i = []) -> (forall x, x ∈ l <-> exts !! x.1 = Some x.2) ->
  (forall id, ~ depends id id) ->
  (exists g', foldM (addDependencies nodes) l g = ok g' /\ drawn (l ≫= dependencies_of) g' /\ (forall id d, depends id d -> d ∈ keys)) \/
  (foldM (addDependencies nodes) l g = fails errMissingDependency /\ exists id d, depends id d /\ d ∉ keys).
Proof.
  intros Hnb Hfrom Hl Hself.
  destruct (foldM_inv_err (addDependencies nodes)
    (fun k g' => drawn (k ≫= dependencies_of) g' /\ forall x d, x ∈ k -> depends x.1 d -> d ∈ keys)
    (fun e => e = errMissingDependency /\ exists id d, depends id d /\ d ∉ keys) l g) as [(g' & E & Hdr & Hall)|(e & E & -> & He)].
  - split; [split|]; [done| |by intros x d ?%elem_of_nil]. intros i v. rewrite Hfrom. split; [by intros ?%elem_of_nil|].
    by intros (d & u & ?%elem_of_nil & _).
  - intros k x r g1 El [Hd1 Hall].
    assert (exts !! x.1 = Some x.2) as Hx by (apply Hl; rewrite El, elem_of_app; right; by left).
    destruct (addDependencies_ok _ g1 x Hd1 Hx (Hself x.1)) as [(g2 & E2 & Hd2 & Hx2)|(e & E2 & He & d & ? & ?)].
    + left. exists g2. split; [done|]. rewrite bind_app. simpl. rewrite app_nil_r. split; [done|].
      intros y d [?| ->%list_elem_of_singleton]%elem_of_app; eauto.
    + right. exists e. split_and!; [done..|]. eauto.
  - left. exists g'. split; [done|]. split; [done|]. intros id d Hd. destruct Hd as (x & deps & Hx & Hrest).
    apply (Hall (id, x)); [by apply Hl|]. by exists x, deps.
  - by right.
Qed.

(** *** The sorted nodes *)

(** The edges are the dependencies. *)
Definition complete (E : list (ID * ID)) : Prop :=
  (forall id d, (d, id) ∈ E <-> depends id d) /\ (forall id d, depends id d -> d ∈ keys).

Lemma drawn_edge E g id d : drawn E g -> complete E -> depends id d ->
  exists n u, Node g (nodeID u) = Some u /\ n ∈ From g (nodeID u) /\ extID n = id /\ extID u = d.
Proof.
  intros [[Hok Hdom Hext Hinj HN] Hedges] [HE Hall] Hd.
  assert (is_Some (nodes !! d)) as [u Hu] by by apply Hdom, (Hall id).
  assert (is_Some (nodes !! id)) as [n Hn] by (apply Hdom, Hkeys; destruct Hd as (e & ? & ? & _); eauto).
  destruct (Hext id n Hn) as [En _], (Hext d u Hu) as [Eu _]. exists n, u. split_and!; try done.
  - apply HN. by rewrite Eu.
  - apply Hedges. exists d, u. rewrite En. split_and!; [by apply HE|done..].
Qed.

Lemma sorted_extensions E g ns : drawn E g -> complete E -> Sort g = Some ns ->
  NoDup (extID <$> ns) /\ (forall id, id ∈ extID <$> ns <-> is_Some (exts !! id)) /\
  (forall id d, depends id d -> before (extID <$> ns) d id).
Proof.
  intros Hdr HE Es. pose proof Hdr as [[Hok Hdom Hext Hinj HN] Hedges].
  assert (forall n, n ∈ ns <-> nodes !! extID n = Some n) as Hns.
  { intros n. rewrite (Sort_nodes g ns Hok Es), HN. tauto. }
  split_and!.
  - apply NoDup_fmap_2_strong; [|by apply (Sort_nodup g)]. intros x y Hx%Hns Hy%Hns Exy. congruence.
  - intros id. rewrite list_elem_of_fmap, <- Hkeys, <- Hdom. split.
    + intros (n & -> & Hn%Hns). eauto.
    + intros [n Hn]. destruct (Hext id n Hn) as [<- _]. exists n. by rewrite Hns.
  - intros id d Hd. destruct (drawn_edge E g id d Hdr HE Hd) as (n & u & Nu & Hn & <- & <-).
    destruct (Sort_order g ns u n Hok Es Nu Hn) as (l1 & l2 & l3 & ->).
    exists (extID <$> l1), (extID <$> l2), (extID <$> l3). by rewrite !fmap_app, fmap_cons, fmap_app.
Qed.

Lemma ranked_extensions E g (rank : ID -> nat) : drawn E g -> complete E ->
  (forall id d, depends id d -> (rank d < rank id)%nat) -> ranked g.
Proof.
  intros [[Hok Hdom Hext Hinj HN] Hedges] [HE _] Hrank.
  exists (fun i => match Node g i with Some n => rank (extID n) | None => 0%nat end).
  intros i n v Hn Hv. rewrite Hn. apply HN in Hn as [-> Hn]. apply Hedges in Hv as (d & u & Hin%HE & Hu & Eid & Hv).
  rewrite (proj2 (HN (node_ID v) v)) by done.
  assert (d = extID n) as -> by by apply (Hinj d (extID n) u n). by apply Hrank.
Qed.
End order.

Section theorems.
Context {DG : DirectedGraph extNode} {DGL : DirectedGraphLaws extNode}.

(** C34: an extension comes after those it depends on, so it is started after them and stopped
    before them.  The order has every extension once.  It exists unless an extension that
    another depends on is missing, or the dependencies have no order.  Provided that no
    extension depends on itself, this does not depend on the order in which the map of the
    extensions is visited, and nothing panics. *)
Theorem extensions_start_after_their_dependencies (exts : gmap ID extension) l1 l2 :
  l1 ≡ₚ map_to_list exts -> l2 ≡ₚ map_to_list exts -> (forall id, ~ depends exts id id) ->
  (exists order, computeOrder l1 l2 = ok order /\ NoDup order /\ (forall id, id ∈ order <-> is_Some (exts !! id)) /\
     (forall id d, depends exts id d -> before order d id)) \/
  (exists e, computeOrder l1 l2 = fails e /\
     ((e = errMissingDependency /\ exists id d, depends exts id d /\ exts !! d = None) \/
      (~ exists rank : ID -> nat, forall id d, depends exts id d -> (rank d < rank id)%nat))).
Proof.
  intros H1 H2 Hself. unfold computeOrder.
  assert (NoDup l1.*1) as Hnd by by rewrite H1; apply NoDup_fst_map_to_list.
  assert (forall x, x ∈ l2 <-> exts !! x.1 = Some x.2) as Hl2 by by intros [id e]; rewrite H2, elem_of_map_to_list.
  assert (forall id, id ∈ l1.*1 <-> is_Some (exts !! id)) as Hkeys.
  { intros id. rewrite H1, list_elem_of_fmap. split.
    - intros ([i e] & -> & ?%elem_of_map_to_list). by exists e.
    - intros [e He]. exists (id, e). by rewrite elem_of_map_to_list. }
  destruct (addExtensions_ok l1 Hnd) as (g & nodes & -> & Hnb & Hfrom). simpl.
  destruct (drawn_all exts l1.*1 nodes Hkeys l2 g Hnb Hfrom Hl2 Hself) as [(g' & -> & Hdr & Hall)|(-> & id & d & Hd & Hmiss)]; simpl.
  2: { right. exists errMissingDependency. split; [done|]. left. split; [done|]. exists id, d. split; [done|].
       rewrite Hkeys in Hmiss. by apply eq_None_not_Some. }
  assert (complete exts l1.*1 (l2 ≫= dependencies_of)) as HE by (split; [intros id d; by apply elem_of_dependencies|done]).
  destruct (Sort g') as [ns|] eqn:Es.
  - left. exists (extID <$> ns). split; [done|]. by eapply sorted_extensions.
  - right. eexists. split; [done|]. right. intros [rank Hrank].
    destruct (Sort_total g') as [l ?]; [apply Hdr|by eapply ranked_extensions|congruence].
Qed.

(** An extension that depends on itself is not reported as a cycle: the graph does not
    admit the edge, and the collector panics. *)
Theorem self_dependency_panics id e : Dependencies e = Some [id] -> computeOrder [(id, e)] [(id, e)] = None.
Proof.
  intros E. unfold computeOrder. cbn [foldM]. unfold addExtension. cbn [fst snd].
  destruct (AddNode_new (mkExtNode (Z.of_nat (size (∅ : gmap ID extNode)) + 1) id) NewDirectedGraph new_ok) as (g & -> & _); [apply Node_new|]. simpl.
  unfold addDependencies. simpl. rewrite E, lookup_insert_eq. simpl. unfold addDependency. rewrite lookup_insert_eq.
  by rewrite SetEdge_self.
Qed.
End theorems.

#[local] Existing Instance adjacency_graph.
#[local] Existing Instance adjacency_laws.

(** An extension that authenticates with the tokens of another. *)
Definition dependent_extensions : gmap ID extension :=
  {[mkID (mkType "auth") "" := mkExtension (Some [mkID (mkType "token") ""]) false noWatcher;
    mkID (mkType "token") "" := mkExtension None false noWatcher]}.

Lemma extensions_start_after_their_dependencies_witness :
  exists r, computeOrder (map_to_list dependent_extensions) (map_to_list dependent_extensions) = Some r.
Proof.
  destruct (extensions_start_after_their_dependencies dependent_extensions (map_to_list dependent_extensions)
    (map_to_list dependent_extensions)) as [(order & E & _)|(e & E & _)].
  - reflexivity.
  - reflexivity.
  - intros id (e & deps & He & Ed & Hd). unfold dependent_extensions in He.
    apply lookup_insert_Some in He as [[<- <-]|[_ He]].
    + injection Ed as <-. apply list_elem_of_singleton in Hd. discriminate Hd.
    + apply lookup_singleton_Some in He as [<- <-]. discriminate Ed.
  - eexists. exact E.
  - eexists. exact E.
Defined.

Lemma self_dependency_panics_witness :
  computeOrder [(mkID (mkType "auth") "", mkExtension (Some [mkID (mkType "auth") ""]) false noWatcher)]
    [(mkID (mkType "auth") "", mkExtension (Some [mkID (mkType "auth") ""]) false noWatcher)] = None.
Proof. apply self_dependency_panics. reflexivity. Defined.
