(* ===== verification/Collector.v ===== *)
(** * Collector: the life cycle of the collector

    Models otelcol/collector.go: setupConfigurationComponents, reloadConfiguration, Run and
    shutdown, as a function of the events that the select statement of Run receives, in
    their order; and, with it, NotifyComponentStatusChange of service/internal/graph/host.go
    and the mutex of service/internal/status/status.go, as a step relation: how a fatal
    error of a component reaches Run.

    Services are numbered in the order in which they are created. *)

From S2P Require Import Prelude.
From S2P Require Import GoErrors.

(** State *)
Definition StateStarting : Z := 0.
Definition StateRunning : Z := 1.
Definition StateClosing : Z := 2.
Definition StateClosed : Z := 3.

Definition State_String (s : Z) : string :=
  if decide (s = StateStarting) then "Starting"
  else if decide (s = StateRunning) then "Running"
  else if decide (s = StateClosing) then "Closing"
  else if decide (s = StateClosed) then "Closed"
  else "UNKNOWN".

(** What the calls of setupConfigurationComponents return, when it is called for the n-th time. *)
Record attempt := mkAttempt {
  onFactories : option error;
  onGet : option error;
  onValidate : option error;
  onMarshal : option error;
  onNew : option error;
  onServiceStart : option error;
  onServiceShutdown : option error;
}.

Inductive effect :=
| setsState (s : Z)
| creates (k : nat)          (* service.New *)
| startsService (k : nat)    (* service.Start *)
| stopsService (k : nat)     (* service.Shutdown *)
| closesConfigProvider.

(** What Run receives. *)
Inductive event :=
| configChanged (err : option error)     (* configProvider.Watch *)
| asyncError (err : error)
| signalled (sighup : bool)
| shutdownRequested
| contextDone.

Section collector.
Context `{MultiErr} (world : nat -> attempt) (onProviderShutdown onFallbackLogger : option error).

(** The collector: its state, the service it holds, the calls of setup so far, and the
    effects. *)
Record Collector := mkCollector { col_state : Z; service : option nat; setups : nat; log : list effect }.

Definition emit (e : effect) (col : Collector) : Collector :=
  mkCollector (col_state col) (service col) (setups col) (log col ++ [e]).
Definition setCollectorState (s : Z) (col : Collector) : Collector :=
  emit (setsState s) (mkCollector s (service col) (setups col) (log col)).
Definition setService (k : option nat) (col : Collector) : Collector :=
  mkCollector (col_state col) k (setups col) (log col).
Definition count_setup (col : Collector) : Collector :=
  mkCollector (col_state col) (service col) (S (setups col)) (log col).

Definition NewCollector : Collector := mkCollector StateStarting None 0 [].

(** col.service.Shutdown; [None]: the panic when there is no service. *)
Definition shutdownService (col : Collector) : option (Collector * option error) :=
  match service col with
  | Some k => Some (emit (stopsService k) col, onServiceShutdown (world k))
  | None => None
  end.

Definition setupConfigurationComponents (col : Collector) : option (Collector * option error) :=
  let k := setups col in
  let w := world k in
  let col := count_setup (setCollectorState StateStarting col) in
  match onFactories w with
  | Some err => Some (col, Some (ErrWrap "failed to initialize factories: " err))
  | None =>
  match onGet w with
  | Some err => Some (col, Some (ErrWrap "failed to get config: " err))
  | None =>
  match onValidate w with
  | Some err => Some (col, Some (ErrWrap "invalid configuration: " err))
  | None =>
  match onMarshal w with
  | Some err => Some (col, Some (ErrWrap "could not marshal configuration: " err))
  | None =>
  match onNew w with
  | Some err => Some (setService None col, Some err)
  | None =>
      let col := emit (startsService k) (setService (Some k) (emit (creates k) col)) in
      match onServiceStart w with
      | Some err =>
          match shutdownService col with
          | Some (col, err') => Some (col, multierr_Append (Some err) err')
          | None => None
          end
      | None => Some (setCollectorState StateRunning col, None)
      end
  end end end end end.

Definition reloadConfiguration (col : Collector) : option (Collector * option error) :=
  match shutdownService (setCollectorState StateClosing col) with
  | None => None
  | Some (col, Some err) => Some (col, Some (ErrWrap "failed to shutdown the retiring config: " err))
  | Some (col, None) =>
      match setupConfigurationComponents col with
      | Some (col, Some err) => Some (col, Some (ErrWrap "failed to setup configuration components: " err))
      | r => r
      end
  end.

Definition wrapping (msg : string) (errs err : option error) : option error :=
  match err with Some e => multierr_Append errs (Some (ErrWrap msg e)) | None => errs end.

Definition shutdown (col : Collector) : option (Collector * option error) :=
  let col := emit closesConfigProvider (setCollectorState StateClosing col) in
  let errs := wrapping "failed to shutdown config provider: " None onProviderShutdown in
  match shutdownService col with
  | None => None
  | Some (col, err) =>
      Some (setCollectorState StateClosed col, wrapping "failed to shutdown service after error: " errs err)
  end.

(** Where Run is: in the loop, or done with its result. *)
Inductive running := waits (col : Collector) | returns (col : Collector) (err : option error).

(** One turn of the loop of Run. *)
Definition reload (col : Collector) : option running :=
  match reloadConfiguration col with
  | None => None
  | Some (col, Some err) => Some (returns col (Some err))
  | Some (col, None) => Some (waits col)
  end.

Definition leave (col : Collector) : option running :=
  match shutdown col with None => None | Some (col, err) => Some (returns col err) end.

Definition receive (e : event) (col : Collector) : option running :=
  match e with
  | configChanged (Some _) => leave col
  | configChanged None => reload col
  | asyncError _ => leave col
  | signalled true => reload col
  | signalled false => leave col
  | shutdownRequested => leave col
  | contextDone => leave col
  end.

Fixpoint loop (es : list event) (col : Collector) : option running :=
  match es with
  | [] => Some (waits col)
  | e :: es =>
      match receive e col with
      | Some (waits col) => loop es col
      | r => r
      end
  end.

(** [shut]: Shutdown was called before. *)
Definition Run (shut : bool) (es : list event) (col : Collector) : option running :=
  if shut then
    let col := emit closesConfigProvider (setCollectorState StateClosed col) in
    Some (returns col (ErrWrap "failed to shutdown config provider: " <$> onProviderShutdown))
  else
    match setupConfigurationComponents col with
    | None => None
    | Some (col, Some err) =>
        let col := setCollectorState StateClosed col in
        Some (returns col (Some (match onFallbackLogger with Some err' => errors_Join err (ErrWrap "unable to create fallback logger: " err') | None => err end)))
    | Some (col, None) => loop es col
    end.
End collector.

(** ** How a fatal error reaches Run

    ReportStatus holds the mutex of the reporter while NotifyComponentStatusChange sends
    the error to the channel of Run, which has no buffer.  One component reports a fatal
    error in a goroutine of its own; Run starts the service, with [n] reports to make. *)
Module FatalError.

Inductive main_pc :=
| starting (n : nat)     (* about to make the first of n reports *)
| reporting (n : nat)    (* in a report, with n more to make *)
| selecting              (* in the select statement of Run *)
| terminating.           (* received the error *)

Inductive component_pc :=
| working
| calling     (* about to lock the mutex *)
| sending     (* has the mutex and sends to the channel *)
| finished.

Inductive owner := runs | component.

Record system := mkSystem { main : main_pc; comp : component_pc; mu : option owner }.

Inductive step : system -> system -> Prop :=
| main_locks n c : step (mkSystem (starting (S n)) c None) (mkSystem (reporting n) c (Some runs))
| main_unlocks n c : step (mkSystem (reporting n) c (Some runs)) (mkSystem (starting n) c None)
| main_selects c m : step (mkSystem (starting 0) c m) (mkSystem selecting c m)
| component_fails p m : step (mkSystem p working m) (mkSystem p calling m)
| component_locks p : step (mkSystem p calling None) (mkSystem p sending (Some component))
| delivers : step (mkSystem selecting sending (Some component)) (mkSystem terminating finished None).

Definition initial (n : nat) : system := mkSystem (starting n) working None.
End FatalError.

(** * Runs of the collector *)

(** ** The life of the services in a log

    [None] if a service is created while another one lives, or is started or stopped while
    it does not live; otherwise the service that lives at the end. *)
Definition service_step (live : option nat) (e : effect) : option (option nat) :=
  match e, live with
  | creates k, None => Some (Some k)
  | startsService k, Some k' => if decide (k = k') then Some live else None
  | stopsService k, Some k' => if decide (k = k') then Some None else None
  | creates _, Some _ | startsService _, None | stopsService _, None => None
  | setsState _, _ | closesConfigProvider, _ => Some live
  end.

Definition services : list effect -> option (option nat) :=
  foldl (fun live e => live ≫= fun l => service_step l e) (Some None).

Lemma services_snoc l e : services (l ++ [e]) = services l ≫= fun live => service_step live e.
Proof. unfold services. by rewrite foldl_app. Qed.

(** The collector holds the service that lives. *)
Definition lives (col : Collector) (live : option nat) : Prop := services (log col) = Some live.

Lemma lives_emit col e live live' : lives col live -> service_step live e = Some live' -> lives (emit e col) live'.
Proof. intros Hl Hs. unfold lives in *. simpl. by rewrite services_snoc, Hl. Qed.

Lemma lives_state col s live : lives col live -> lives (setCollectorState s col) live.
Proof. intros Hl. unfold setCollectorState. by apply (lives_emit (mkCollector s (service col) (setups col) (log col)) _ live). Qed.

Definition ends_loop (e : event) : Prop :=
  match e with configChanged None | signalled true => False | _ => True end.

Section proofs.
Context `{ML : MultiErrLaws} (world : nat -> attempt) (onProviderShutdown onFallbackLogger : option error).

(** Run is in its loop: a service runs. *)
Definition in_loop (col : Collector) : Prop :=
  col_state col = StateRunning /\ exists k, service col = Some k /\ lives col (Some k).

Lemma setup_spec col : lives col None ->
  exists col' err, setupConfigurationComponents world col = Some (col', err) /\
    match err with
    | None => in_loop col'
    | Some _ => lives col' None /\ col_state col' = StateStarting
    end.
Proof.
  intros Hl. assert (lives (count_setup (setCollectorState StateStarting col)) None) as Hl1 by by apply lives_state.
  unfold setupConfigurationComponents.
  destruct (onFactories _); [by eexists _, _|]. destruct (onGet _); [by eexists _, _|].
  destruct (onValidate _); [by eexists _, _|]. destruct (onMarshal _); [by eexists _, _|].
  destruct (onNew _); [by eexists _, _|]. set (col2 := emit (startsService _) _).
  assert (lives col2 (Some (setups col))) as Hl2.
  { eapply (lives_emit (setService (Some (setups col)) (emit (creates (setups col)) _)) _ (Some (setups col))).
    - by apply (lives_emit _ (creates (setups col)) None).
    - simpl. by rewrite decide_True. }
  destruct (onServiceStart _) as [e|].
  - simpl. eexists _, (multierr_Append (Some e) _). split; [done|].
    destruct (multierr_Append _ _) as [e'|] eqn:Ee; [|by apply multierr_some in Ee as [? _]].
    split; [|done]. eapply lives_emit; [exact Hl2|]. simpl. by rewrite decide_True.
  - eexists _, None. split; [done|]. split; [done|]. exists (setups col). split; [done|]. by apply lives_state.
Qed.

Lemma shutdownService_spec col k : service col = Some k -> lives col (Some k) ->
  shutdownService world col = Some (emit (stopsService k) col, onServiceShutdown (world k)) /\
  lives (emit (stopsService k) col) None.
Proof.
  intros E Hl. unfold shutdownService. rewrite E. split; [done|]. eapply lives_emit; [exact Hl|]. simpl. by rewrite decide_True.
Qed.

(** The result of Run. *)
Definition run_ok (r : running) : Prop :=
  match r with
  | waits col => in_loop col
  | returns col err => lives col None /\ (err = None -> col_state col = StateClosed /\ closesConfigProvider ∈ log col)
  end.

Lemma reload_spec col : in_loop col -> exists r, reload world col = Some r /\ run_ok r.
Proof.
  intros (_ & k & Ek & Hl). unfold reload, reloadConfiguration.
  destruct (shutdownService_spec (setCollectorState StateClosing col) k Ek) as [-> Hl']; [by apply lives_state|].
  destruct (onServiceShutdown _) as [e|]; [by eexists|].
  destruct (setup_spec _ Hl') as (col' & err & -> & Hr). destruct err as [e|]; eexists; (split; [done|]); [|done].
  split; [apply Hr|done].
Qed.

Lemma leave_spec col : in_loop col -> exists col' err, leave world onProviderShutdown col = Some (returns col' err) /\ run_ok (returns col' err).
Proof.
  intros (_ & k & Ek & Hl). unfold leave, shutdown.
  destruct (shutdownService_spec (emit closesConfigProvider (setCollectorState StateClosing col)) k Ek) as [-> Hl'].
  { eapply lives_emit; [by apply lives_state|done]. }
  eexists _, _. split; [done|]. split; [by apply lives_state|]. intros _. split; [done|].
  simpl. rewrite !elem_of_app. left. left. right. by left.
Qed.

Lemma receive_spec e col : in_loop col -> exists r, receive world onProviderShutdown e col = Some r /\ run_ok r /\
  (ends_loop e -> exists col' err, r = returns col' err).
Proof.
  intros Hc. destruct (reload_spec col Hc) as (r & Er & Hr), (leave_spec col Hc) as (col' & err & El & Hl).
  destruct e as [[]| |[]| |]; simpl; rewrite ?Er, ?El; eexists; (split; [done|]); (split; [done|]); by eauto.
Qed.

Lemma loop_spec es col : in_loop col -> exists r, loop world onProviderShutdown es col = Some r /\ run_ok r /\
  (Exists ends_loop es -> exists col' err, r = returns col' err).
Proof.
  revert col. induction es as [|e es IH]; intros col Hc; simpl; [exists (waits col); split_and!; [done..|by intros ?%Exists_nil]|].
  destruct (receive_spec e col Hc) as (r & -> & Hr & Hend). destruct r as [col'|col' err].
  - destruct (IH col' Hr) as (r & -> & Hr' & Hend'). exists r. split_and!; [done..|].
    intros [He|He]%Exists_cons; [by destruct (Hend He) as (? & ? & ?)|auto].
  - exists (returns col' err). split_and!; [done..|]. by eauto.
Qed.

(** C25: whatever the calls return and whatever Run receives, in whatever order: it does not
    panic; services live one at a time, each is stopped exactly once, before the next one
    is created and before Run returns, even those that fail to start; while Run waits
    the collector is StateRunning; when it returns without an error the collector is
    StateClosed and the configuration provider is closed; and it returns when it
    receives an event that ends the loop. *)
Theorem one_service_at_a_time shut es :
  exists r, Run world onProviderShutdown onFallbackLogger shut es NewCollector = Some r /\
    match r with
    | waits col => col_state col = StateRunning /\ exists k, service col = Some k /\ services (log col) = Some (Some k)
    | returns col err => services (log col) = Some None /\
        (err = None -> col_state col = StateClosed /\ closesConfigProvider ∈ log col)
    end /\
    (shut = true \/ Exists ends_loop es -> exists col err, r = returns col err).
Proof.
  unfold Run. destruct shut.
  - eexists. split; [done|]. split; [|by eauto]. split; [done|]. intros _. split; [done|]. simpl. right. by left.
  - destruct (setup_spec NewCollector) as (col & err & -> & Hr); [done|]. destruct err as [e|].
    + eexists. split; [done|]. split; [|by eauto]. split; [apply lives_state, Hr|done].
    + destruct (loop_spec es col Hr) as (r & -> & Hr' & Hend). exists r. split; [done|]. split; [by destruct r|].
      intros [|]; [done|auto].
Qed.

(** If the configuration cannot be read again after a change, Run returns the error, but
    the state of the collector is StateStarting for ever, and the configuration provider
    is not closed; if the first attempt fails in the same way the state is StateClosed. *)
Theorem failed_reload_is_not_closed err :
  onFactories (world 0) = None -> onGet (world 0) = None -> onValidate (world 0) = None -> onMarshal (world 0) = None ->
  onNew (world 0) = None -> onServiceStart (world 0) = None -> onServiceShutdown (world 0) = None ->
  onFactories (world 1) = None -> onGet (world 1) = Some err ->
  exists col e, Run world onProviderShutdown onFallbackLogger false [signalled true] NewCollector = Some (returns col (Some e)) /\
    col_state col = StateStarting /\ closesConfigProvider ∉ log col.
Proof.
  intros E1 E2 E3 E4 E5 E6 E7 E8 E9. unfold Run, setupConfigurationComponents. simpl.
  rewrite E1, E2, E3, E4, E5, E6. simpl. unfold reload, reloadConfiguration. simpl. rewrite E7.
  unfold setupConfigurationComponents. simpl. rewrite E8, E9. eexists _, _. split; [done|]. split; [done|]. simpl.
  by rewrite !not_elem_of_cons; split_and!; try done; apply not_elem_of_nil.
Qed.
End proofs.

(** ** Fatal errors *)

Module FatalErrorProofs.
Import FatalError.

(** The mutex is held by who is in a report, and Run has not received the error before the
    component sent it. *)
Definition holds (s : system) : option owner :=
  match main s, comp s with
  | reporting _, sending => None
  | reporting _, _ => Some runs
  | _, sending => Some component
  | _, _ => None
  end.

Definition consistent (s : system) : Prop :=
  mu s = holds s /\ (main s = terminating <-> comp s = finished) /\
  ~ (exists n, main s = reporting n /\ comp s = sending).

Lemma step_consistent s s' : step s s' -> consistent s -> consistent s'.
Proof.
  unfold consistent, holds. destruct 1; simpl in *; intros (Hmu & Ht & Hx); subst; split_and!; try done;
    try (by destruct c); try (by destruct p); try (by destruct p; naive_solver); naive_solver.
Qed.

Lemma reachable_consistent n s : rtc step (initial n) s -> consistent s.
Proof.
  intros Hr. assert (consistent (initial n)) as H0 by (split_and!; [done|done|by intros (? & ? & ?)]).
  induction Hr as [|s s1 s2 Hs _ IH]; [done|]. by apply IH, (step_consistent s).
Qed.

(** The component has the mutex and waits for Run, which waits for the mutex. *)
Definition deadlocked (s : system) : Prop := exists n, s = mkSystem (starting (S n)) sending (Some component).

(** A fatal error that a component reports before Run has reached its loop can stop the
    collector for ever: the report holds the mutex of the reporter until Run receives
    the error, and Run waits for the mutex to report the next status. *)
Theorem early_fatal_error_deadlocks n :
  exists s, rtc step (initial (S n)) s /\ deadlocked s /\ forall s', ~ step s s'.
Proof.
  exists (mkSystem (starting (S n)) sending (Some component)). split_and!.
  - eapply rtc_l; [apply component_fails|]. eapply rtc_l; [apply component_locks|]. apply rtc_refl.
  - by exists n.
  - by inversion 1.
Qed.

End FatalErrorProofs.

(** ** Witnesses *)

#[local] Existing Instance multierr_first.
#[local] Existing Instance multierr_first_laws.

(** The second attempt finds no configuration. *)
Definition some_world (n : nat) : attempt :=
  mkAttempt None (match n with 1%nat => Some (ErrNew "no such file") | _ => None end) None None None None None.

Lemma failed_reload_is_not_closed_witness :
  exists col e, Run some_world None None false [signalled true] NewCollector = Some (returns col (Some e)) /\
    col_state col = StateStarting /\ closesConfigProvider ∉ log col.
Proof. apply (failed_reload_is_not_closed some_world None None (ErrNew "no such file")); reflexivity. Defined.


Lemma one_service_at_a_time_witness : exists r, Run some_world None None false [signalled true; shutdownRequested] NewCollector = Some r.
Proof.
  destruct (one_service_at_a_time some_world None None false [signalled true; shutdownRequested]) as (r & E & _).
  exists r. exact E.
Defined.
