(* ===== verification/GoStrings.v ===== *)
(** * GoStrings: the functions of package strings, and those of path/filepath, bufio and
    strconv that read files of the kernel

    A string is its bytes; indexes are [Z], [-1] when nothing is found, and slices are
    [from] and [upto].  A path is read as its list of elements. *)

From Stdlib Require Import Ascii.
From S2P Require Import Prelude.

#[global] Arguments String.append !_ _ / : simpl nomatch.

(** ** Slices: s[i:], s[:i] and s[i] *)

Fixpoint dropString (n : nat) (s : string) : string :=
  match n, s with
  | S n, String _ s => dropString n s
  | _, _ => s
  end.

Fixpoint takeString (n : nat) (s : string) : string :=
  match n, s with
  | S n, String c s => String c (takeString n s)
  | _, _ => ""
  end.

Definition from (i : Z) (s : string) : string := dropString (Z.to_nat i) s.
Definition upto (i : Z) (s : string) : string := takeString (Z.to_nat i) s.

(** ** strings.HasPrefix, Index, LastIndex, Contains *)

Fixpoint HasPrefix (s prefix : string) {struct prefix} : bool :=
  match prefix, s with
  | EmptyString, _ => true
  | String a prefix, String b s => bool_decide (a = b) && HasPrefix s prefix
  | _, _ => false
  end.

Fixpoint index_from (s sub : string) : option nat :=
  if HasPrefix s sub then Some 0%nat
  else match s with
       | EmptyString => None
       | String _ s => S <$> index_from s sub
       end.

Fixpoint last_index_from (s sub : string) : option nat :=
  match s with
  | EmptyString => if HasPrefix s sub then Some 0%nat else None
  | String _ s' =>
      match last_index_from s' sub with
      | Some n => Some (S n)
      | None => if HasPrefix s sub then Some 0%nat else None
      end
  end.

Definition toIndex (o : option nat) : Z := match o with Some n => Z.of_nat n | None => -1 end.
Definition Index (s sub : string) : Z := toIndex (index_from s sub).
Definition LastIndex (s sub : string) : Z := toIndex (last_index_from s sub).
Definition Contains (s sub : string) : bool := 0 <=? Index s sub.

(** strings.Cut *)
Definition CutString (s sep : string) : string * string * bool :=
  let i := Index s sep in
  if 0 <=? i then (upto i s, from (i + Z.of_nat (String.length sep)) s, true) else (s, "", false).

(** strings.ReplaceAll with an [old] that is not empty: [skip] counts the bytes of the
    occurrence that was just replaced. *)
Fixpoint replace_from (old new : string) (skip : nat) (s : string) : string :=
  match s with
  | EmptyString => ""
  | String c s' =>
      match skip with
      | S k => replace_from old new k s'
      | O =>
          if HasPrefix s old then new +:+ replace_from old new (String.length old - 1) s'
          else String c (replace_from old new 0 s')
      end
  end.

Definition ReplaceAll (s old new : string) : string := replace_from old new 0 s.

Example Index_test : Index "a}b}" "}" = 1 /\ Index "ab" "}" = -1 /\ LastIndex "${${x" "${" = 2.
Proof. vm_compute. auto. Qed.
Example ReplaceAll_test : ReplaceAll "$$$x$$" "$$" "$" = "$$x$" /\ ReplaceAll "abab" "ab" "abc" = "abcabc".
Proof. vm_compute. auto. Qed.

(** ** Strings as lists of bytes *)

Lemma app_String_assoc (a b c : string) : (a +:+ b) +:+ c = a +:+ b +:+ c.
Proof. induction a; simpl; congruence. Qed.

Lemma app_String_nil (a : string) : a +:+ "" = a.
Proof. induction a; simpl; congruence. Qed.

Lemma length_app_String (a b : string) :
  String.length (a +:+ b) = (String.length a + String.length b)%nat.
Proof. induction a; simpl; lia. Qed.

Lemma takeString_dropString n s : takeString n s +:+ dropString n s = s.
Proof. revert s. induction n; intros [|c s]; simpl; f_equal; auto. Qed.

Lemma length_takeString n s : (n <= String.length s)%nat -> String.length (takeString n s) = n.
Proof. revert s. induction n; intros [|c s]; simpl; intros; try lia. f_equal; apply IHn; lia. Qed.

Lemma length_dropString n s : String.length (dropString n s) = (String.length s - n)%nat.
Proof. revert s. induction n; intros [|c s]; simpl; auto. Qed.

Lemma takeString_app a b : takeString (String.length a) (a +:+ b) = a.
Proof. induction a; simpl; congruence. Qed.

Lemma dropString_app a b : dropString (String.length a) (a +:+ b) = b.
Proof. induction a; simpl; auto. Qed.

(** ** What the searches find *)

Lemma HasPrefix_spec s p : HasPrefix s p = true <-> exists t, s = p +:+ t.
Proof.
  revert s. induction p as [|a p IH]; intros s; simpl.
  { split; [by exists s|done]. }
  destruct s as [|b s]; [split; [done|by intros [? ?]]|].
  rewrite andb_true_iff, bool_decide_eq_true, IH. split.
  - intros [<- [t ->]]. by exists t.
  - intros [t [= -> ->]]. eauto.
Qed.

Lemma HasPrefix_app s p : HasPrefix (p +:+ s) p = true.
Proof. apply HasPrefix_spec. eauto. Qed.

(** [occurs s sub]: sub is a part of s. *)
Definition occurs (s sub : string) : Prop := exists a b, s = a +:+ sub +:+ b.

Lemma occurs_cons c s sub : occurs s sub -> occurs (String c s) sub.
Proof. intros (a & b & ->). by exists (String c a), b. Qed.

Lemma index_from_Some s sub n :
  index_from s sub = Some n ->
  exists a b, s = a +:+ sub +:+ b /\ String.length a = n.
Proof.
  revert n. induction s as [|c s IH]; intros n; simpl; destruct (HasPrefix _ _) eqn:E.
  1,3: intros [= <-]; apply HasPrefix_spec in E as [t ->]; by exists "", t.
  { done. }
  destruct (index_from s sub) as [m|]; [|done]. intros [= <-].
  destruct (IH m eq_refl) as (a & b & -> & <-). by exists (String c a), b.
Qed.

Lemma index_from_None s sub : index_from s sub = None <-> ~ occurs s sub.
Proof.
  induction s as [|c s IH]; simpl; destruct (HasPrefix _ _) eqn:E.
  1,3: split; [done|]; intros []; apply HasPrefix_spec in E as [t E]; by exists "", t.
  { split; [|done]. intros _ ([|] & b & Hs); [|done].
    assert (HasPrefix "" sub = true) by (apply HasPrefix_spec; by exists b). congruence. }
  rewrite fmap_None, IH. split.
  - intros Hn ([|d a] & b & Hs).
    + assert (HasPrefix (String c s) sub = true) by (apply HasPrefix_spec; by exists b). congruence.
    + injection Hs as -> Hs. apply Hn. by exists a, b.
  - intros Hn Ho. by apply Hn, occurs_cons.
Qed.

Lemma Contains_spec s sub : Contains s sub = true <-> occurs s sub.
Proof.
  unfold Contains, Index. destruct (index_from s sub) as [n|] eqn:E; simpl.
  - rewrite Z.leb_le. split; [|lia]. intros _.
    destruct (index_from_Some _ _ _ E) as (a & b & -> & _). by exists a, b.
  - apply index_from_None in E. split; [done|]. tauto.
Qed.

Lemma Contains_false s sub : Contains s sub = false <-> ~ occurs s sub.
Proof. rewrite <- Contains_spec. by destruct (Contains s sub). Qed.

(** Index returns the first position. *)
Lemma index_from_least s sub n a b :
  index_from s sub = Some n -> s = a +:+ sub +:+ b -> (n <= String.length a)%nat.
Proof.
  revert n a. induction s as [|c s IH]; intros n a; simpl; destruct (HasPrefix _ _) eqn:E.
  1,3: intros [= <-]; lia.
  { done. }
  destruct (index_from s sub) as [m|] eqn:Em; [|done]. intros [= <-] Hs.
  destruct a as [|d a]; simpl in *.
  - assert (HasPrefix (String c s) sub = true) by (apply HasPrefix_spec; by exists b). congruence.
  - injection Hs as -> Hs. specialize (IH m a eq_refl Hs). lia.
Qed.

(** LastIndex returns the last position. *)
Lemma last_index_from_Some s sub n :
  last_index_from s sub = Some n ->
  exists a b, s = a +:+ sub +:+ b /\ String.length a = n.
Proof.
  revert n. induction s as [|c s IH]; intros n; cbn [last_index_from].
  { destruct (HasPrefix "" sub) eqn:E; [|done]. intros [= <-].
    apply HasPrefix_spec in E as [t E]. by exists "", t. }
  destruct (last_index_from s sub) as [m|].
  - intros [= <-]. destruct (IH m eq_refl) as (a & b & -> & <-). by exists (String c a), b.
  - destruct (HasPrefix (String c s) sub) eqn:E; [|done]. intros [= <-].
    apply HasPrefix_spec in E as [t E]. by exists "", t.
Qed.

Lemma last_index_from_None s sub : last_index_from s sub = None -> ~ occurs s sub.
Proof.
  induction s as [|c s IH]; cbn [last_index_from].
  { destruct (HasPrefix "" sub) eqn:E; [done|]. intros _ ([|] & b & Hs); [|done].
    assert (HasPrefix "" sub = true) by (apply HasPrefix_spec; by exists b). congruence. }
  destruct (last_index_from s sub) as [m|]; [done|].
  destruct (HasPrefix (String c s) sub) eqn:E; [done|]. intros _ ([|d a] & b & Hs).
  - assert (HasPrefix (String c s) sub = true) by (apply HasPrefix_spec; by exists b). congruence.
  - injection Hs as -> Hs. apply IH; [done|]. by exists a, b.
Qed.

Lemma last_index_from_greatest s sub n a b :
  last_index_from s sub = Some n -> s = a +:+ sub +:+ b -> (String.length a <= n)%nat.
Proof.
  revert n a. induction s as [|c s IH]; intros n a; cbn [last_index_from].
  { destruct (HasPrefix "" sub); [|done]. intros [= <-]. destruct a; [simpl; lia|done]. }
  destruct (last_index_from s sub) as [m|] eqn:Em.
  - intros [= <-] Hs. destruct a as [|d a]; simpl in *; [lia|].
    injection Hs as -> Hs. specialize (IH m a eq_refl Hs). lia.
  - destruct (HasPrefix (String c s) sub); [|done]. intros [= <-] Hs.
    destruct a as [|d a]; [simpl; lia|]. injection Hs as -> Hs.
    destruct (last_index_from_None _ _ Em). by exists a, b.
Qed.

(** ** ReplaceAll *)

Lemma replace_from_skip old new a s : replace_from old new (String.length a) (a +:+ s) = replace_from old new 0 s.
Proof. induction a; simpl; auto. Qed.

Lemma ReplaceAll_here old new s :
  old <> "" -> ReplaceAll (old +:+ s) old new = new +:+ ReplaceAll s old new.
Proof.
  intros Ho. unfold ReplaceAll. destruct old as [|c o]; [done|].
  assert (E : HasPrefix (String c o +:+ s) (String c o) = true) by apply HasPrefix_app.
  change (String c o +:+ s) with (String c (o +:+ s)) in *. cbn [replace_from]. rewrite E.
  replace (String.length (String c o) - 1)%nat with (String.length o) by (simpl; lia).
  by rewrite replace_from_skip.
Qed.

Lemma ReplaceAll_there old new c s :
  HasPrefix (String c s) old = false -> ReplaceAll (String c s) old new = String c (ReplaceAll s old new).
Proof. intros E. unfold ReplaceAll. cbn [replace_from]. by rewrite E. Qed.

Lemma ReplaceAll_absent s old new : ~ occurs s old -> ReplaceAll s old new = s.
Proof.
  unfold ReplaceAll. induction s as [|c s IH]; [done|]. intros Hn. cbn [replace_from].
  destruct (HasPrefix (String c s) old) eqn:E.
  { apply HasPrefix_spec in E as [t E]. destruct Hn. by exists "", t. }
  rewrite IH; [done|]. intros Ho. by apply Hn, occurs_cons.
Qed.

(** ** strings.Split and SplitN, with a separator of one byte, and strings.Join *)

Fixpoint Split (s : string) (sep : ascii) : list string :=
  match s with
  | EmptyString => [""]
  | String c s =>
      if decide (c = sep) then "" :: Split s sep
      else match Split s sep with p :: ps => String c p :: ps | [] => [] end
  end.

Fixpoint SplitN (s : string) (sep : ascii) (n : nat) : list string :=
  match n with
  | O => []
  | S O => [s]
  | S n =>
      let '(before, after, found) := CutString s (String sep "") in
      if (found : bool) then before :: SplitN after sep n else [s]
  end.

Fixpoint Join (l : list string) (sep : string) : string :=
  match l with
  | [] => ""
  | [x] => x
  | x :: l => x +:+ sep +:+ Join l sep
  end.

(** [free sep s]: the byte [sep] is not in [s]. *)
Fixpoint free (sep : ascii) (s : string) : Prop :=
  match s with EmptyString => True | String c s => c <> sep /\ free sep s end.

#[export] Instance free_dec sep s : Decision (free sep s).
Proof. induction s; simpl; apply _. Defined.

Lemma Split_cons s sep : exists p ps, Split s sep = p :: ps.
Proof.
  induction s as [|c s (p & ps & E)]; simpl; [by eexists _, _|].
  case_decide; rewrite ?E; by eexists _, _.
Qed.

Lemma Split_free s sep : free sep s -> Split s sep = [s].
Proof.
  induction s as [|c s IH]; [done|]. simpl. intros [Hc Hs]. by rewrite decide_False, (IH Hs).
Qed.

Lemma Split_app a b sep : Split (a +:+ String sep b) sep = Split a sep ++ Split b sep.
Proof.
  induction a as [|c a IH]; simpl; [by rewrite decide_True|].
  rewrite IH. case_decide; [done|]. by destruct (Split_cons a sep) as (p & ps & ->).
Qed.

Lemma Split_pieces s sep : Forall (free sep) (Split s sep).
Proof.
  induction s as [|c s IH]; simpl; [by repeat constructor|].
  destruct (Split_cons s sep) as (p & ps & E). rewrite E in *. apply Forall_cons in IH as [Hp Hps].
  case_decide; by repeat constructor.
Qed.

(** Splitting inverts joining. *)
Lemma Split_Join l sep : l <> [] -> Forall (free sep) l -> Split (Join l (String sep "")) sep = l.
Proof.
  induction l as [|x l IH]; [done|]. intros _ [Hx Hl]%Forall_cons.
  destruct l as [|y l]; [by apply Split_free|].
  change (Split (x +:+ String sep "" +:+ Join (y :: l) (String sep "")) sep = x :: y :: l).
  change (String sep "" +:+ ?s) with (String sep s). rewrite Split_app, (Split_free x), IH by done. done.
Qed.

(** ** bufio.Scanner: the lines of a file, and why scanning stops

    A line of 64 KiB or more stops the scanner with [ErrTooLong].  A file is what can be
    read of it, and the error that reading ends with in place of the end of the file. *)

Definition newline : ascii := ascii_of_N 10.
Definition carriage : ascii := ascii_of_N 13.

Fixpoint dropCR (s : string) : string :=
  match s with
  | EmptyString => ""
  | String c EmptyString => if decide (c = carriage) then "" else s
  | String c s => String c (dropCR s)
  end.

Fixpoint dropLastEmpty (l : list string) : list string :=
  match l with
  | [] => []
  | [x] => if decide (x = "") then [] else [x]
  | x :: l => x :: dropLastEmpty l
  end.

Definition maxLine : Z := 64 * 1024.

Fixpoint scanLines {E} (tooLong : E) (atEOF : option E) (lines : list string) : list string * option E :=
  match lines with
  | [] => ([], atEOF)
  | l :: lines =>
      if decide (maxLine <= Z.of_nat (String.length l)) then ([], Some tooLong)
      else let '(ls, err) := scanLines tooLong atEOF lines in (dropCR l :: ls, err)
  end.

Definition Scan {E} (tooLong : E) (file : string * option E) : list string * option E :=
  scanLines tooLong file.2 (dropLastEmpty (Split file.1 newline)).

(** ** strconv.ParseInt in base 10 with 64 bits, and Atoi

    The value beside a range error is the nearest int64. *)

Definition digitValue (c : ascii) : option Z :=
  let b := Z.of_N (N_of_ascii c) in
  if (48 <=? b) && (b <=? 57) then Some (b - 48) else None.

Fixpoint parseDigits (acc : Z) (s : string) : option Z :=
  match s with
  | EmptyString => Some acc
  | String c s => d ← digitValue c; parseDigits (10 * acc + d) s
  end.

Inductive numError := ErrSyntax | ErrRange.

Definition ParseInt (s : string) : Z * option numError :=
  let '(neg, digits) :=
    match s with
    | String c s' =>
        if decide (c = "-"%char) then (true, s')
        else if decide (c = "+"%char) then (false, s') else (false, s)
    | EmptyString => (false, s)
    end in
  match (if decide (digits = "") then None else parseDigits 0 digits) with
  | None => (0, Some ErrSyntax)
  | Some n =>
      if (neg : bool) then if decide (n <= 2 ^ 63) then (- n, None) else (- 2 ^ 63, Some ErrRange)
      else if decide (n < 2 ^ 63) then (n, None) else (2 ^ 63 - 1, Some ErrRange)
  end.

Lemma parseDigits_bound s : forall acc n, 0 <= acc -> parseDigits acc s = Some n -> 0 <= n.
Proof.
  induction s as [|c s IH]; simpl; intros acc n Ha E; [by simplify_eq|].
  unfold digitValue in E. destruct (_ && _) eqn:Eb; simplify_eq/=. apply andb_true_iff in Eb as [?%Z.leb_le ?].
  eapply IH; [|done]. lia.
Qed.

Lemma ParseInt_range s n err : ParseInt s = (n, err) -> - 2 ^ 63 <= n < 2 ^ 63.
Proof.
  unfold ParseInt.
  destruct (match s with EmptyString => _ | _ => _ end) as [neg digits].
  destruct (if decide (digits = "") then _ else _) as [m|] eqn:E; [|intros; simplify_eq; lia].
  case_decide; [done|]. apply parseDigits_bound in E; [|lia].
  destruct neg; case_decide; intros; simplify_eq; lia.
Qed.

Example ParseInt_test :
  ParseInt "-5" = (-5, None) /\ ParseInt "12 " = (0, Some ErrSyntax) /\ ParseInt "" = (0, Some ErrSyntax) /\
  ParseInt "9223372036854775808" = (2 ^ 63 - 1, Some ErrRange).
Proof. vm_compute. auto. Qed.
