(* ===== verification/FeatureGate.v ===== *)
(** * FeatureGate: the registry of feature gates and its command line flag

    Models featuregate (stage.go, gate.go, registry.go and flag.go).  The registry is a
    sync.Map whose LoadOrStore is atomic, so an execution is a sequence of calls.  Versions
    are those of github.com/hashicorp/go-version; whether url.Parse accepts a URL is a
    parameter.  Messages that are printed are left out. *)

From Stdlib Require Import Ascii.
From stdpp Require Import sorting.
From S2P Require Import Prelude.
From S2P Require Import GoErrors.
From S2P Require Import Ids.
From S2P Require Import GoStrings.

(** github.com/hashicorp/go-version *)
Class Versions := { Version : Type; NewVersion : string -> option Version; LessThan : Version -> Version -> bool }.

(** Stage is an int8. *)
Definition StageAlpha : Z := 0.
Definition StageBeta : Z := 1.
Definition StageStable : Z := 2.
Definition StageDeprecated : Z := 3.

Definition Stage_String (s : Z) : string :=
  if decide (s = StageAlpha) then "Alpha"
  else if decide (s = StageBeta) then "Beta"
  else if decide (s = StageStable) then "Stable"
  else if decide (s = StageDeprecated) then "Deprecated"
  else "Unknown".

Section featuregate.
Context `{Versions} `{MultiErr} (url_Parse : string -> option error).

Record Gate := mkGate {
  id : string;
  description : string;
  referenceURL : string;
  fromVersion : option Version;
  toVersion : option Version;
  stage : Z;
  enabled : bool;
}.

Definition IsEnabled (g : Gate) : bool := enabled g.
Definition Store (b : bool) (g : Gate) : Gate :=
  mkGate (id g) (description g) (referenceURL g) (fromVersion g) (toVersion g) (stage g) b.

(** Registry: the sync.Map of the gates. *)
Abbreviation Registry := (gmap string Gate).
Definition NewRegistry : Registry := ∅.

(** ** Registration *)

Inductive RegisterOption :=
| WithRegisterDescription (description : string)
| WithRegisterReferenceURL (referenceURL : string)
| WithRegisterFromVersion (fromVersion : string)
| WithRegisterToVersion (toVersion : string).

Definition errMalformedVersion : error := ErrNew "malformed version".

Definition apply (opt : RegisterOption) (g : Gate) : Gate + error :=
  match opt with
  | WithRegisterDescription d =>
      inl (mkGate (id g) d (referenceURL g) (fromVersion g) (toVersion g) (stage g) (enabled g))
  | WithRegisterReferenceURL u =>
      match url_Parse u with
      | Some err => inr (ErrWrap "WithRegisterReferenceURL: invalid reference URL: " err)
      | None => inl (mkGate (id g) (description g) u (fromVersion g) (toVersion g) (stage g) (enabled g))
      end
  | WithRegisterFromVersion v =>
      match NewVersion v with
      | None => inr (ErrWrap "WithRegisterFromVersion: invalid version: " errMalformedVersion)
      | Some from => inl (mkGate (id g) (description g) (referenceURL g) (Some from) (toVersion g) (stage g) (enabled g))
      end
  | WithRegisterToVersion v =>
      match NewVersion v with
      | None => inr (ErrWrap "WithRegisterToVersion: invalid version: " errMalformedVersion)
      | Some to => inl (mkGate (id g) (description g) (referenceURL g) (fromVersion g) (Some to) (stage g) (enabled g))
      end
  end.

Definition errEmptyGateID : error := ErrNew "empty ID".
Definition errGateIDCharacters : error := ErrNew "invalid character(s) in ID".
Definition ErrAlreadyRegistered : error := ErrNew "gate is already registered".
Definition errUnknownStage : error := ErrNew "unknown stage value".
Definition errNoRemovalVersion : error := ErrNew "no removal version set".
Definition errVersionOrder : error := ErrNew "toVersion is before fromVersion".

(** idRegexp: [0-9a-zA-Z.]* *)
Definition idRegexp_MatchString : string -> bool := all_bytes (fun b => letter b || digit b || (b =? 46)).

Definition validateID (id : string) : option error :=
  if decide (id = "") then Some errEmptyGateID
  else if negb (idRegexp_MatchString id) then Some errGateIDCharacters
  else None.

Fixpoint applyAll (opts : list RegisterOption) (g : Gate) : Gate + error :=
  match opts with
  | [] => inl g
  | opt :: opts =>
      match apply opt g with
      | inr err => inr (ErrWrap "failed to apply option: " err)
      | inl g => applyAll opts g
      end
  end.

Definition Register (r : Registry) (gid : string) (st : Z) (opts : list RegisterOption) : Registry * (Gate + error) :=
  match validateID gid with
  | Some err => (r, inr (ErrWrap "invalid ID: " err))
  | None =>
  match applyAll opts (mkGate gid "" "" None None st false) with
  | inr err => (r, inr err)
  | inl g =>
  match (if decide (stage g = StageAlpha \/ stage g = StageDeprecated) then Some (Store false g)
         else if decide (stage g = StageBeta \/ stage g = StageStable) then Some (Store true g)
         else None) with
  | None => (r, inr errUnknownStage)
  | Some g =>
      if (bool_decide (stage g = StageStable) || bool_decide (stage g = StageDeprecated)) &&
         match toVersion g with None => true | Some _ => false end then (r, inr errNoRemovalVersion)
      else if match fromVersion g, toVersion g with Some from, Some to => LessThan to from | _, _ => false end then
        (r, inr errVersionOrder)
      else match r !! gid with
           | Some _ => (r, inr (ErrWrap "failed to register: " ErrAlreadyRegistered))
           | None => (<[gid := g]> r, inl g)
           end
  end end end.

(** ** Setting *)

Definition errNoSuchGate : error := ErrNew "no such feature gate".
Definition errStable : error := ErrNew "feature gate is stable, can not be disabled".
Definition errDeprecated : error := ErrNew "feature gate is deprecated, can not be enabled".

Definition Registry_Set (r : Registry) (gid : string) (b : bool) : Registry * option error :=
  match r !! gid with
  | None => (r, Some errNoSuchGate)
  | Some g =>
      if decide (stage g = StageStable) then (r, if negb b then Some errStable else None)
      else if decide (stage g = StageDeprecated) then (r, if b then Some errDeprecated else None)
      else (<[gid := Store b g]> r, None)
  end.

Definition id_le (g h : Gate) : Prop := String.leb (id g) (id h) = true.
#[export] Instance id_le_dec : RelDecision id_le.
Proof. intros g h. unfold id_le. apply _. Defined.

(** The gates in lexicographical order. *)
Definition VisitAll (r : Registry) : list Gate := merge_sort id_le (map_to_list r).*2.

(** ** The flag *)

Definition flag_of (g : Gate) : string := if negb (IsEnabled g) then "-" +:+ id g else id g.

(** [None]: the receiver that reflect makes, without a registry. *)
Definition flagValue_String (reg : option Registry) : string :=
  match reg with None => "" | Some r => Join (flag_of <$> VisitAll r) "," end.

(** The loop over the parts of the flag; [None]: the panic of [id[0]] on an empty part. *)
Fixpoint setFlags (r : Registry) (ids : list string) (errs : option error) : option (Registry * option error) :=
  match ids with
  | [] => Some (r, errs)
  | EmptyString :: _ => None
  | (String c rest as part) :: ids =>
      let '(gid, val) :=
        if decide (c = "-"%char) then (rest, false) else if decide (c = "+"%char) then (rest, true) else (part, true) in
      let '(r, err) := Registry_Set r gid val in
      setFlags r ids (multierr_Append errs err)
  end.

Definition flagValue_Set (r : Registry) (s : string) : option (Registry * option error) :=
  if decide (s = "") then Some (r, None) else setFlags r (Split s ","%char) None.

(** ** Executions *)

Inductive operation :=
| registers (gid : string) (st : Z) (opts : list RegisterOption)
| sets (gid : string) (b : bool)
| setsFlag (s : string).

(** [None]: a panic. *)
Definition operate (r : Registry) (o : operation) : option Registry :=
  match o with
  | registers gid st opts => Some (Register r gid st opts).1
  | sets gid b => Some (Registry_Set r gid b).1
  | setsFlag s => fst <$> flagValue_Set r s
  end.

Fixpoint operations (r : Registry) (os : list operation) : option Registry :=
  match os with
  | [] => Some r
  | o :: os => operate r o ≫= fun r => operations r os
  end.
End featuregate.

(** * Stages bound the gates, and the flag reads what it prints *)

(** ** Split *)

Lemma no_byte_free c s : no_byte c s -> free c s.
Proof.
  unfold no_byte. induction s as [|d s IH]; simpl; [done|]. intros [Hd Hs]%andb_true_iff.
  split; [|by apply IH]. intros ->. by rewrite Z.eqb_refl in Hd.
Qed.

(** ** Registration and setting *)

Abbreviation Registry := (gmap string Gate).

Section registry.
Context `{Versions} `{MultiErr} (url_Parse : string -> option error).

Record gate_ok (k : string) (g : Gate) : Prop := {
  go_id : id g = k;
  go_valid : validateID k = None;
  go_stage : stage g = StageAlpha \/ stage g = StageBeta \/ stage g = StageStable \/ stage g = StageDeprecated;
  go_stable : stage g = StageStable -> enabled g = true;
  go_deprecated : stage g = StageDeprecated -> enabled g = false;
  go_removal : stage g = StageStable \/ stage g = StageDeprecated -> is_Some (toVersion g);
  go_versions : forall from to, fromVersion g = Some from -> toVersion g = Some to -> LessThan to from = false;
}.

Definition registry_ok (r : Registry) : Prop := map_Forall gate_ok r.

(** A gate may only be enabled or disabled, and only if it is alpha or beta. *)
Definition evolves_to (g g' : Gate) : Prop :=
  g' = Store (enabled g') g /\ (stage g = StageStable \/ stage g = StageDeprecated -> g' = g).

Definition keeps (r r' : Registry) : Prop := forall k g, r !! k = Some g -> exists g', r' !! k = Some g' /\ evolves_to g g'.

Lemma Store_self g : Store (enabled g) g = g.
Proof. by destruct g. Qed.

Lemma gate_evolves_refl g : evolves_to g g.
Proof. split; [by rewrite Store_self|done]. Qed.

#[export] Instance keeps_preorder : PreOrder keeps.
Proof.
  split.
  - intros r k g E. exists g. split; [done|apply gate_evolves_refl].
  - intros r1 r2 r3 H12 H23 k g E. destruct (H12 k g E) as (g2 & E2 & S2 & F2), (H23 k g2 E2) as (g3 & E3 & S3 & F3).
    exists g3. split; [done|]. split; [rewrite S3, S2; done|]. intros Hs. rewrite <- F2 by done. apply F3. by rewrite S2.
Qed.

Lemma apply_keeps opt g g' : apply url_Parse opt g = inl g' -> id g' = id g /\ stage g' = stage g.
Proof.
  destruct opt as [d|u|v|v]; simpl; [by intros [= <-]| | |].
  - by destruct (url_Parse u); intros [= <-].
  - by destruct (NewVersion v); intros [= <-].
  - by destruct (NewVersion v); intros [= <-].
Qed.

Lemma applyAll_keeps opts g g' : applyAll url_Parse opts g = inl g' -> id g' = id g /\ stage g' = stage g.
Proof.
  revert g. induction opts as [|opt opts IH]; intros g; simpl; [by intros [= <-]|].
  destruct (apply url_Parse opt g) as [g1|] eqn:E; [|done]. intros [-> ->]%IH. by apply apply_keeps in E.
Qed.

Lemma Register_ok r gid st opts : registry_ok r ->
  registry_ok (Register url_Parse r gid st opts).1 /\ keeps r (Register url_Parse r gid st opts).1.
Proof.
  intros Hr. unfold Register. destruct (validateID gid) eqn:Ev; [done|].
  destruct (applyAll url_Parse opts _) as [g|] eqn:Ea; [|done]. apply applyAll_keeps in Ea as [Eid Est]. simpl in Eid, Est.
  set (o := if decide (stage g = StageAlpha \/ _) then _ else _).
  assert (forall g', o = Some g' -> exists b, g' = Store b g /\ (b = true <-> stage g = StageBeta \/ stage g = StageStable) /\
    (stage g = StageAlpha \/ stage g = StageBeta \/ stage g = StageStable \/ stage g = StageDeprecated)) as Ho.
  { unfold StageAlpha, StageBeta, StageStable, StageDeprecated in *. intros g'. unfold o.
    case_decide as Ha; [|case_decide as Hb; [|done]]; intros [= <-]; eexists; (split; [done|]); split; try tauto.
    split; [done|]. intros []; destruct Ha; congruence. }
  clearbody o.
  destruct o as [g'|]; [|done]. destruct (Ho g' eq_refl) as (b & -> & Hb & Hst). simpl.
  match goal with |- context [if ?c then (r, inr errNoRemovalVersion) else _] => destruct c eqn:Erem; [done|] end.
  match goal with |- context [if ?c then (r, inr errVersionOrder) else _] => destruct c eqn:Ever; [done|] end.
  destruct (r !! gid) eqn:El; [done|]. simpl. split.
  - apply map_Forall_insert_2; [|done]. split; simpl; try done.
    + intros Hs. apply Hb. by right.
    + intros Hd. destruct b; [|done]. destruct (proj1 Hb eq_refl); unfold StageBeta, StageStable, StageDeprecated in *; congruence.
    + intros Hs. destruct (toVersion g) as [v|]; [by exists v|]. rewrite andb_true_r in Erem.
      apply orb_false_iff in Erem as [?%bool_decide_eq_false ?%bool_decide_eq_false]. tauto.
    + intros from to Ef Et. by rewrite Ef, Et in Ever.
  - intros k g' E. exists g'. rewrite lookup_insert_ne by congruence. split; [done|apply gate_evolves_refl].
Qed.

Lemma Set_ok r gid b : registry_ok r -> registry_ok (Registry_Set r gid b).1 /\ keeps r (Registry_Set r gid b).1.
Proof.
  intros Hr. unfold Registry_Set. destruct (r !! gid) as [g|] eqn:E; [|done].
  destruct (decide (stage g = StageStable)); [done|]. destruct (decide (stage g = StageDeprecated)); [done|]. simpl.
  destruct (Hr gid g E) as [Hid Hv Hs _ _ Hrem Hver]. split.
  - apply map_Forall_insert_2; [|done]. split; simpl; done.
  - intros k g' Ek. destruct (decide (k = gid)) as [->|Hk].
    + rewrite lookup_insert_eq. simplify_eq. eexists. split; [done|]. split; [done|]. intros []; done.
    + rewrite lookup_insert_ne by done. exists g'. split; [done|apply gate_evolves_refl].
Qed.

Lemma setFlags_ok ids r errs r' errs' : registry_ok r -> setFlags r ids errs = Some (r', errs') -> registry_ok r' /\ keeps r r'.
Proof.
  revert r errs. induction ids as [|[|c rest] ids IH]; intros r errs Hr; simpl; [by intros [= <- _]|done|].
  destruct (if decide (c = _) then _ else _) as [gid val]. pose proof (Set_ok r gid val Hr) as [Hr1 Hk1].
  destruct (Registry_Set r gid val) as [r1 err1]. simpl in *. intros E. destruct (IH _ _ Hr1 E) as [? Hk2].
  split; [done|]. by transitivity r1.
Qed.

Lemma operate_ok r o r' : registry_ok r -> operate url_Parse r o = Some r' -> registry_ok r' /\ keeps r r'.
Proof.
  intros Hr. destruct o as [gid st opts|gid b|s]; simpl.
  - intros [= <-]. by apply Register_ok.
  - intros [= <-]. by apply Set_ok.
  - unfold flagValue_Set. case_decide; [by intros [= <-]|].
    destruct (setFlags _ _ _) as [[r1 errs1]|] eqn:E; [|done]. intros [= <-]. by eapply setFlags_ok.
Qed.

Lemma operations_ok os r r' : registry_ok r -> operations url_Parse r os = Some r' -> registry_ok r' /\ keeps r r'.
Proof.
  revert r. induction os as [|o os IH]; intros r Hr; simpl; [by intros [= <-]|].
  destruct (operate url_Parse r o) as [r1|] eqn:E; simpl; [|done]. destruct (operate_ok _ _ _ Hr E) as [Hr1 Hk1].
  intros E2. destruct (IH _ Hr1 E2) as [? ?]. split; [done|]. by transitivity r1.
Qed.

(** Whatever is registered and set, through the API or the flag: a gate keeps its
    identifier, stage, versions and description for ever; a stable gate is enabled and a
    deprecated one disabled, both have a version in which they are removed and never
    change; and no gate is removed in an earlier version than it came in. *)
Theorem stages_bound_the_gates os os' r r' :
  operations url_Parse NewRegistry os = Some r -> operations url_Parse r os' = Some r' ->
  forall k g, r !! k = Some g -> gate_ok k g /\ exists g', r' !! k = Some g' /\ gate_ok k g' /\ evolves_to g g'.
Proof.
  intros E E' k g Ek. assert (registry_ok NewRegistry) as Hnew by apply map_Forall_empty.
  destruct (operations_ok _ _ _ Hnew E) as [Hr _], (operations_ok _ _ _ Hr E') as [Hr' Hk].
  split; [by apply Hr|]. destruct (Hk k g Ek) as (g' & E2 & Hev). exists g'. split_and!; [done| |done]. by apply Hr'.
Qed.

End registry.

(** ** The flag *)

Section flag.
Context `{Versions} `{ML : MultiErrLaws}.

(** The registries have the same gates, enabled or not. *)
Definition same_gates (r r' : Registry) : Prop := forall k, Store false <$> r !! k = Store false <$> r' !! k.

Lemma setFlags_panics r ids errs : setFlags r ids errs = None <-> "" ∈ ids.
Proof.
  revert r errs. induction ids as [|[|c rest] ids IH]; intros r errs; simpl.
  - split; [done|by intros ?%elem_of_nil].
  - split; [by left|done].
  - destruct (if decide (c = _) then _ else _) as [gid val]. destruct (Registry_Set r gid val) as [r1 err1].
    rewrite IH, elem_of_cons. split; [by right|by intros [|]].
Qed.

Lemma same_stage r r' k g g' : same_gates r r' -> r !! k = Some g -> r' !! k = Some g' ->
  stage g' = stage g /\ Store (enabled g) g' = g.
Proof.
  intros Hs E E'. specialize (Hs k). rewrite E, E' in Hs. injection Hs as Hs. destruct g, g'. simpl in *. by simplify_eq.
Qed.

Lemma same_gates_insert r r' k g : same_gates r r' -> r !! k = Some g -> same_gates r (<[k := g]> r').
Proof.
  intros Hs E j. destruct (decide (k = j)) as [->|]; [by rewrite lookup_insert_eq, E|by rewrite lookup_insert_ne].
Qed.

(** Setting a gate to what it is in another registry makes it the same. *)
Lemma Set_same r r' k g : registry_ok r -> registry_ok r' -> same_gates r r' -> r !! k = Some g ->
  Registry_Set r' k (enabled g) = (<[k := g]> r', None).
Proof.
  intros Hr Hr' Hs E. assert (exists g', r' !! k = Some g') as [g' E'].
  { specialize (Hs k). rewrite E in Hs. destruct (r' !! k); [by eexists|done]. }
  destruct (same_stage _ _ _ _ _ Hs E E') as [Est Eg]. pose proof (Hr _ _ E) as Ho. pose proof (Hr' _ _ E') as Ho'.
  unfold Registry_Set. rewrite E'. destruct (decide (stage g' = StageStable)) as [Hst|_]; [|destruct (decide (stage g' = StageDeprecated)) as [Hd|_]].
  - rewrite (go_stable _ _ Ho) by congruence. simpl. rewrite (go_stable _ _ Ho), <- (go_stable _ _ Ho' Hst), Store_self in Eg by congruence.
    subst g'. by rewrite insert_id.
  - rewrite (go_deprecated _ _ Ho) by congruence. rewrite (go_deprecated _ _ Ho), <- (go_deprecated _ _ Ho' Hd), Store_self in Eg by congruence.
    subst g'. by rewrite insert_id.
  - by rewrite Eg.
Qed.

Lemma validateID_bytes k : validateID k = None -> exists c rest, k = String c rest /\ c <> "-"%char /\ c <> "+"%char /\ no_byte ","%char k.
Proof.
  unfold validateID. case_decide; [done|]. destruct (idRegexp_MatchString k) eqn:E; [|done]. intros _.
  unfold idRegexp_MatchString in E. destruct k as [|c rest]; [done|]. exists c, rest.
  assert (forall b, letter b || digit b || (b =? 46) = true -> b <> 45 /\ b <> 43 /\ b <> 44) as Hb.
  { intros b. unfold letter, digit. intros Hb. split_and!; intros ->; done. }
  split_and!; [done| | |].
  - by intros ->.
  - by intros ->.
  - eapply all_bytes_impl; [|exact E]. intros b (_ & _ & Hne)%Hb. by apply negb_true_iff, Z.eqb_neq.
Qed.

Lemma setFlags_same (r : Registry) gs : registry_ok r -> Forall (fun g => r !! id g = Some g) gs -> forall r',
  registry_ok r' -> same_gates r r' ->
  setFlags r' (flag_of <$> gs) None = Some (foldl (fun m g => <[id g := g]> m) r' gs, None).
Proof.
  intros Hr Hgs. induction Hgs as [|g gs Hg Hgs IH]; intros r' Hr' Hs; [done|].
  assert (setFlags r' (flag_of <$> g :: gs) None =
    setFlags (<[id g := g]> r') (flag_of <$> gs) None) as ->.
  { pose proof (Set_same _ _ _ _ Hr Hr' Hs Hg) as Eset. rewrite fmap_cons. unfold flag_of at 1, IsEnabled.
    destruct (validateID_bytes _ (go_valid _ _ (Hr _ _ Hg))) as (c & rest & Ek & Hm & Hp & _).
    destruct (enabled g) eqn:Een; simpl.
    - rewrite Ek. simpl. rewrite !decide_False by done. rewrite <- Ek, Eset. by rewrite multierr_nil_l.
    - change ("" +:+ id g) with (id g). rewrite Eset. by rewrite multierr_nil_l. }
  simpl. apply IH; [|by apply same_gates_insert].
  apply map_Forall_insert_2; [by apply Hr|done].
Qed.

Lemma foldl_insert_lookup (gs : list Gate) (r r' : Registry) k : Forall (fun g => r !! id g = Some g) gs ->
  foldl (fun m g => <[id g := g]> m) r' gs !! k = if decide (k ∈ id <$> gs) then r !! k else r' !! k.
Proof.
  intros Hgs. revert r'. induction Hgs as [|g gs Hg Hgs IH]; intros r'; [done|]. simpl. rewrite IH.
  destruct (decide (k ∈ id <$> gs)) as [Hk|Hk].
  - rewrite decide_True; [done|]. by right.
  - destruct (decide (k = id g)) as [->|Hne].
    + rewrite lookup_insert_eq, decide_True by by left. done.
    + rewrite lookup_insert_ne, decide_False by (rewrite ?elem_of_cons; naive_solver). done.
Qed.

(** The value of the flag is a faithful picture of the registry: given back to the flag
    of a registry with the same gates, in any state, it is accepted without an error and
    restores every gate. *)
Theorem flag_roundtrip r r' : registry_ok r -> registry_ok r' -> same_gates r r' ->
  flagValue_Set r' (flagValue_String (Some r)) = Some (r, None).
Proof.
  intros Hr Hr' Hs. unfold flagValue_String.
  assert (forall g, g ∈ VisitAll r <-> r !! id g = Some g) as Hvisit.
  { intros g. unfold VisitAll. rewrite merge_sort_Permutation, list_elem_of_fmap. split.
    - intros ([k g'] & -> & E%elem_of_map_to_list). simpl. by rewrite (go_id _ _ (Hr _ _ E)).
    - intros E. exists (id g, g). by rewrite elem_of_map_to_list. }
  assert (Forall (fun g => r !! id g = Some g) (VisitAll r)) as Hall by (apply Forall_forall; intros g; by rewrite Hvisit).
  assert (foldl (fun m g => <[id g := g]> m) r' (VisitAll r) = r) as Hfold.
  { apply map_eq. intros k. rewrite (foldl_insert_lookup _ r) by done. case_decide as Hk; [done|].
    destruct (r !! k) as [g|] eqn:E.
    - destruct Hk. apply list_elem_of_fmap. exists g. rewrite Hvisit, (go_id _ _ (Hr _ _ E)). done.
    - specialize (Hs k). rewrite E in Hs. by destruct (r' !! k). }
  assert (Forall (fun s => s <> "" /\ no_byte ","%char s) (flag_of <$> VisitAll r)) as Hflags.
  { apply Forall_forall. intros s (g & -> & Hg%Hvisit)%list_elem_of_fmap.
    destruct (validateID_bytes _ (go_valid _ _ (Hr _ _ Hg))) as (c & rest & Ek & _ & _ & Hc).
    unfold flag_of. destruct (negb _); [|by rewrite Ek in *]. split; [done|]. exact Hc. }
  unfold flagValue_Set. destruct (VisitAll r) as [|g gs] eqn:Ev.
  { simpl in Hfold. by rewrite Hfold. }
  rewrite decide_False.
  - rewrite Split_Join; [|done|]; [|eapply Forall_impl; [exact Hflags|by intros ? [? ?%no_byte_free]]].
    by rewrite (setFlags_same r), Hfold.
  - apply Forall_cons in Hflags as [[Hne _] _]. simpl. destruct (flag_of g) as [|a s]; [done|].
    rewrite string_cons_app. by destruct (list_fmap _ _ flag_of gs).
Qed.

(** A feature gate flag with an empty part, such as one that ends with a comma, makes the
    collector panic. *)
Theorem empty_flag_part_panics r s : flagValue_Set r s = None <-> s <> "" /\ "" ∈ Split s ","%char.
Proof. unfold flagValue_Set. case_decide; [naive_solver|]. rewrite setFlags_panics. tauto. Qed.
End flag.

(** ** Witnesses *)

#[local] Existing Instance multierr_first.
#[local] Existing Instance multierr_first_laws.

(** A version by the length of its text. *)
#[local] Instance some_versions : Versions :=
  {| Version := nat; NewVersion s := Some (String.length s); LessThan := Nat.ltb |}.

Definition some_registrations : list operation :=
  [registers "a.b" StageBeta [WithRegisterDescription "on by default"];
   registers "c" StageStable [WithRegisterFromVersion "v0.9.0"; WithRegisterToVersion "v0.10.0"];
   registers "d" StageAlpha []].

Definition registry_after (os : list operation) : gmap string Gate := default ∅ (operations (fun _ => None) NewRegistry os).

Lemma some_operations_eq : operations (fun _ => None) NewRegistry (some_registrations ++ [setsFlag "-a.b,+d"]) =
  Some (registry_after (some_registrations ++ [setsFlag "-a.b,+d"])).
Proof. vm_compute. reflexivity. Qed.

Lemma some_registrations_eq : operations (fun _ => None) NewRegistry some_registrations = Some (registry_after some_registrations).
Proof. vm_compute. reflexivity. Qed.

Lemma stages_bound_the_gates_witness : exists g, registry_after some_registrations !! "c" = Some g /\ gate_ok "c" g.
Proof.
  destruct (registry_after some_registrations !! "c") as [g|] eqn:E; [|vm_compute in E; discriminate E].
  exists g. split; [reflexivity|].
  apply (stages_bound_the_gates (fun _ => None) some_registrations [] _ _ some_registrations_eq eq_refl "c" g E).
Defined.

Lemma flag_roundtrip_witness :
  flagValue_Set (registry_after some_registrations)
    (flagValue_String (Some (registry_after (some_registrations ++ [setsFlag "-a.b,+d"])))) =
  Some (registry_after (some_registrations ++ [setsFlag "-a.b,+d"]), None).
Proof.
  apply flag_roundtrip.
  - exact (proj1 (operations_ok (fun _ => None) _ _ _ (map_Forall_empty _) some_operations_eq)).
  - exact (proj1 (operations_ok (fun _ => None) _ _ _ (map_Forall_empty _) some_registrations_eq)).
  - assert (Store false <$> registry_after (some_registrations ++ [setsFlag "-a.b,+d"]) =
      Store false <$> registry_after some_registrations) as E by (vm_compute; reflexivity).
    intros k. rewrite <- !lookup_fmap, E. reflexivity.
Defined.
