(* ===== verification/ProtoMessage.v ===== *)
(** * ProtoMessage: how the generated messages of pdata/internal are sized, written and read

    The generator (internal/cmd/pdatagen/internal/proto, proto_size.go, proto_marshal.go
    and proto_unmarshal.go) emits the same code for every field of a kind.  This file has
    that code once per kind; CommonProto, the files of the signals, OtlpMessages and
    RequestProto put the messages together from it.

    MarshalProto writes its fields from the end of the buffer to its start, the first
    field last: a [writer] takes the buffer and the position that was reached.  A position
    out of range panics: [None].  A float64 is represented by its bits. *)

From S2P Require Import Prelude.
From S2P Require Import GoErrors.
From S2P Require Import PData.
From S2P Require Import Storage.
From S2P Require Import ProtoWire.

Declare Scope writer_scope.
Delimit Scope writer_scope with writer.

(** ** proto_marshal.go *)

Definition writer : Type := bytes * Z -> option (bytes * Z).

Definition nothing : writer := Some.
Definition and_then (w1 w2 : writer) : writer := fun s => match w1 s with Some s => w2 s | None => None end.

Notation "w1 ;; w2" := (and_then w1 w2) : writer_scope.

(** if b { w } *)
Definition when (b : bool) (w : writer) : writer := if b then w else nothing.

(** pos--; buf[pos] = b *)
Definition putByte (b : Z) : writer := fun '(buf, pos) =>
  match store buf (pos - 1) b with Some buf => Some (buf, pos - 1) | None => None end.

(** pos = proto.EncodeVarint(buf, pos, v) *)
Definition putVarint (v : Z) : writer := fun '(buf, pos) => EncodeVarint buf pos v.

(** copy(buf[pos:], s) *)
Definition copy_at (buf : bytes) (pos : Z) (s : bytes) : option bytes :=
  if decide (0 <= pos <= len buf) then
    let s := take (Z.to_nat (len buf - pos)) s in
    Some (take (Z.to_nat pos) buf ++ s ++ drop (Z.to_nat (pos + len s)) buf)
  else None.

(** pos -= len(s); copy(buf[pos:], s) *)
Definition putBytes (s : bytes) : writer := fun '(buf, pos) =>
  match copy_at buf (pos - len s) s with Some buf => Some (buf, pos - len s) | None => None end.

(** The [n] low bytes of [v], the lowest first. *)
Fixpoint to_littleEndian (n : nat) (v : Z) : bytes :=
  match n with O => [] | S n => Z.land v 255 :: to_littleEndian n (Z.shiftr v 8) end.

(** pos -= n; binary.LittleEndian.PutUintN(buf[pos:], v), which needs n bytes there *)
Definition putFixed (n : nat) (v : Z) : writer := fun '(buf, pos) =>
  let pos := pos - Z.of_nat n in
  if decide (pos + Z.of_nat n <= len buf) then
    match copy_at buf pos (to_littleEndian n v) with Some buf => Some (buf, pos) | None => None end
  else None.

(** l = x.MarshalProto(buf[:pos]); pos -= l; pos = proto.EncodeVarint(buf, pos, uint64(l)) *)
Definition putMessage (MarshalProto : bytes -> option (bytes * Z)) : writer := fun '(buf, pos) =>
  if decide (0 <= pos <= len buf) then
    match MarshalProto (take (Z.to_nat pos) buf) with
    | Some (sub, l) => EncodeVarint (sub ++ drop (Z.to_nat pos) buf) (pos - l) (u64 l)
    | None => None
    end
  else None.

(** l := len(s); pos -= l; copy(buf[pos:], s); pos = proto.EncodeVarint(buf, pos, uint64(l)) *)
Definition putString (s : bytes) : writer := (putBytes s ;; putVarint (u64 (len s)))%writer.

(** for i := len(l) - 1; i >= 0; i-- { w(l[i]) } *)
Definition backwards {A} (w : A -> writer) : list A -> writer :=
  fix go l := match l with [] => nothing | x :: l => (go l ;; w x)%writer end.

(** if orig.HasX() { w(orig.X) }: an optional field is [None] until SetX *)
Definition when_some {A} (o : option A) (w : A -> writer) : writer :=
  match o with Some x => w x | None => nothing end.

(** endPos := pos; w; pos = proto.EncodeVarint(buf, pos, uint64(endPos-pos)) *)
Definition putCounted (w : writer) : writer := fun '(buf, pos) =>
  match w (buf, pos) with Some (buf', pos') => EncodeVarint buf' pos' (u64 (pos - pos')) | None => None end.

(** The elements of a packed field of 8 bytes each: for i := l - 1; i >= 0; i-- { ... };
    pos = proto.EncodeVarint(buf, pos, uint64(l*8)) *)
Definition putPackedFixed (l : list Z) : writer :=
  (backwards (putFixed 8) l ;; putVarint (u64 (len l * 8)))%writer.

(** A packed field of varints. *)
Definition putPackedVarint (l : list Z) : writer := putCounted (backwards putVarint l).

(** uint64((uint32(x)<<1)^uint32(x>>31)) of an int32, and its inverse of a varint:
    int32(uint32(num>>1) ^ uint32(int32((num&1)<<31)>>31)) *)
Definition zigzag32 (x : Z) : Z := Z.lxor (u32 (Z.shiftl (u32 x) 1)) (u32 (Z.shiftr x 31)).
Definition unzigzag32 (num : Z) : Z :=
  i32 (Z.lxor (u32 (Z.shiftr num 1)) (u32 (Z.shiftr (i32 (u64 (Z.shiftl (Z.land num 1) 31))) 31))).

(** x != float64(0), which negative zero does not fulfil *)
Definition double_nonzero (bits : Z) : bool := negb (bits =? 0) && negb (bits =? 2 ^ 63).

(** MarshalProto from the writer of its fields: pos := len(buf); ...; return len(buf) - pos *)
Definition marshal (w : writer) (buf : bytes) : option (bytes * Z) :=
  match w (buf, len buf) with Some (buf', pos) => Some (buf', len buf - pos) | None => None end.

(** ** proto_size.go *)

(** The size of what putString and putMessage write for [l] bytes; a loop over a slice is
    [sum_of]. *)
Definition lengthPrefixed (l : Z) : Z := Sov (u64 l) + l.

Definition size_if (b : bool) (n : Z) : Z := if b then n else 0.

Definition size_some {A} (o : option A) (n : Z) : Z := match o with Some _ => n | None => 0 end.

(** ** proto_unmarshal.go *)

(** What reading a field gives: the message and the new position, or an error. *)
Definition consumed (M : Type) : Type := option ((M * Z) + error).

(** The cases of the switch over the field number. *)
Definition switch (M : Type) : Type := M -> Z -> Z -> bytes -> Z -> consumed M.

Definition errWrongWireType : error := ErrNew "proto: wrong wireType".

Definition slice (buf : bytes) (i j : Z) : option bytes :=
  if decide (0 <= i <= j /\ j <= len buf) then Some (take (Z.to_nat (j - i)) (drop (Z.to_nat i) buf)) else None.

(** A case of a length-delimited field: [f] is what is done with buf[startPos:pos]. *)
Definition lenCase {M} (wireType : Z) (buf : bytes) (pos : Z) (f : bytes -> option (M + error)) : consumed M :=
  if decide (wireType <> WireTypeLen) then Some (inr errWrongWireType)
  else match ConsumeLen buf pos with
       | Some (inl (length, pos)) =>
           match slice buf (pos - length) pos with
           | Some s =>
               match f s with
               | Some (inl orig) => Some (inl (orig, pos))
               | Some (inr err) => Some (inr err)
               | None => None
               end
           | None => None
           end
       | Some (inr err) => Some (inr err)
       | None => None
       end.

(** A case of a number: [f] is what is done with the number read. *)
Definition numCase {M} (want : Z) (consume : bytes -> Z -> option ((Z * Z) + error))
    (wireType : Z) (buf : bytes) (pos : Z) (f : Z -> M) : consumed M :=
  if decide (wireType <> want) then Some (inr errWrongWireType)
  else match consume buf pos with
       | Some (inl (num, pos)) => Some (inl (f num, pos))
       | Some (inr err) => Some (inr err)
       | None => None
       end.

Definition varintCase {M} : Z -> bytes -> Z -> (Z -> M) -> consumed M := numCase WireTypeVarint ConsumeVarint.
Definition i64Case {M} : Z -> bytes -> Z -> (Z -> M) -> consumed M := numCase WireTypeI64 ConsumeI64.
Definition i32Case {M} : Z -> bytes -> Z -> (Z -> M) -> consumed M := numCase WireTypeI32 ConsumeI32.

(** for i := 0; i < size; i++ { num, startPos, err = proto.ConsumeI64(buf[:pos], startPos) } *)
Fixpoint consumeI64s (size : nat) (buf : bytes) (startPos : Z) : option ((list Z * Z) + error) :=
  match size with
  | O => Some (inl ([], startPos))
  | S size =>
      match ConsumeI64 buf startPos with
      | Some (inl (num, startPos)) =>
          match consumeI64s size buf startPos with
          | Some (inl (nums, startPos)) => Some (inl (num :: nums, startPos))
          | Some (inr err) => Some (inr err)
          | None => None
          end
      | Some (inr err) => Some (inr err)
      | None => None
      end
  end.

(** for startPos < pos { num, startPos, err = proto.ConsumeVarint(buf[:pos], startPos) };
    a round consumes a byte at least, so that there are at most as many as bytes *)
Fixpoint consumeVarints (fuel : nat) (buf : bytes) (startPos pos : Z) : option ((list Z * Z) + error) :=
  if decide (startPos < pos) then
    match fuel with
    | O => None
    | S fuel =>
        match ConsumeVarint buf startPos with
        | Some (inl (num, startPos)) =>
            match consumeVarints fuel buf startPos pos with
            | Some (inl (nums, startPos)) => Some (inl (num :: nums, startPos))
            | Some (inr err) => Some (inr err)
            | None => None
            end
        | Some (inr err) => Some (inr err)
        | None => None
        end
    end
  else Some (inl ([], startPos)).

Definition errInvalidFieldLen : error := ErrNew "proto: invalid field len".

(** A packed field: [elements] reads from buf[:pos], whose end it has to reach. *)
Definition packedCase {M} (elements : Z -> bytes -> Z -> Z -> option ((list Z * Z) + error)) (buf : bytes) (pos : Z)
    (set : list Z -> M) : consumed M :=
  match ConsumeLen buf pos with
  | Some (inl (length, pos)) =>
      match slice buf 0 pos with
      | Some sub =>
          match elements length sub (pos - length) pos with
          | Some (inl (nums, startPos)) =>
              if decide (startPos <> pos) then Some (inr errInvalidFieldLen) else Some (inl (set nums, pos))
          | Some (inr err) => Some (inr err)
          | None => None
          end
      | None => None
      end
  | Some (inr err) => Some (inr err)
  | None => None
  end.

(** A repeated field of 8 bytes each: a packed field takes the place of the elements read
    before, an element that is not packed is appended. *)
Definition fixedsCase {M} (wireType : Z) (buf : bytes) (pos : Z) (l : list Z) (set : list Z -> M) : consumed M :=
  if decide (wireType = WireTypeLen) then
    packedCase (fun length sub startPos _ => consumeI64s (Z.to_nat (length / 8)) sub startPos) buf pos set
  else if decide (wireType = WireTypeI64) then i64Case wireType buf pos (fun num => set (l ++ [num]))
  else Some (inr errWrongWireType).

(** A repeated field of varints: both kinds append. *)
Definition varintsCase {M} (wireType : Z) (buf : bytes) (pos : Z) (l : list Z) (set : list Z -> M) : consumed M :=
  if decide (wireType = WireTypeLen) then
    packedCase (fun _ sub startPos pos => consumeVarints (length sub) sub startPos pos) buf pos
      (fun nums => set (l ++ nums))
  else if decide (wireType = WireTypeVarint) then varintCase wireType buf pos (fun num => set (l ++ [num]))
  else Some (inr errWrongWireType).

(** The default case. *)
Definition unknownCase {M} (orig : M) (wireType : Z) (buf : bytes) (pos : Z) : consumed M :=
  match ConsumeUnknown buf pos wireType with
  | Some (inl pos) => Some (inl (orig, pos))
  | Some (inr err) => Some (inr err)
  | None => None
  end.

(** The assignment of a field that always succeeds. *)
Definition sets {M} (orig : M) : option (M + error) := Some (inl orig).

(** The message a field holds, put back in its parent. *)
Definition sets_message {N M} (set : N -> M) (r : option (N + error)) : option (M + error) :=
  match r with Some (inl x) => Some (inl (set x)) | Some (inr err) => Some (inr err) | None => None end.

(** for pos < l: a tag and its case; a round consumes a byte at least. *)
Fixpoint unmarshalLoop {M} (cases : switch M) (fuel : nat) (buf : bytes) (pos : Z) (orig : M) : option (M + error) :=
  if decide (pos < len buf) then
    match fuel with
    | O => None
    | S fuel =>
        match ConsumeTag buf pos with
        | Some (inl (fieldNum, wireType, pos)) =>
            match cases orig fieldNum wireType buf pos with
            | Some (inl (orig, pos)) => unmarshalLoop cases fuel buf pos orig
            | Some (inr err) => Some (inr err)
            | None => None
            end
        | Some (inr err) => Some (inr err)
        | None => None
        end
    end
  else Some (inl orig).

Definition unmarshal {M} (cases : switch M) (buf : bytes) (orig : M) : option (M + error) :=
  unmarshalLoop cases (length buf) buf 0 orig.
