(* ===== verification/ProtoMessageProofs.v ===== *)
(** * ProtoMessageProofs: what a writer emits, a switch reads back

    [emits w n bs]: given room for [n] bytes, [w] writes exactly [bs] before its position
    and nothing else.  [reads cases bs m m']: the loop that meets [bs] goes from the
    message [m] to [m'].  [carries] joins the two for one field, and the fields of a
    message compose: what is written first is read last.  [codec] is the result for a
    whole message, and [safe] says that reading any bytes neither panics nor runs out of
    rounds.  The second part is about packed, zigzag and optional fields. *)

From S2P Require Import Prelude.
From S2P Require Import GoErrors.
From S2P Require Import PData.
From S2P Require Import Storage.
From S2P Require Import BatchLemmas.
From S2P Require Import ProtoWire.
From S2P Require Import ProtoMessage.

(** ** Buffers *)

Lemma len_app (a b : bytes) : len (a ++ b) = len a + len b.
Proof. unfold len. rewrite length_app. lia. Qed.

Lemma len_nonneg (a : bytes) : 0 <= len a.
Proof. unfold len. lia. Qed.

Lemma len_take (a : bytes) i : 0 <= i <= len a -> len (take (Z.to_nat i) a) = i.
Proof. unfold len. intros. rewrite length_take. lia. Qed.

Lemma len_drop (a : bytes) i : 0 <= i <= len a -> len (drop (Z.to_nat i) a) = len a - i.
Proof. unfold len. intros. rewrite length_drop. lia. Qed.

Lemma take_app_len (a b : bytes) : take (Z.to_nat (len a)) (a ++ b) = a.
Proof. unfold len. rewrite Nat2Z.id. by rewrite take_app_length. Qed.

Lemma drop_app_len (a b : bytes) : drop (Z.to_nat (len a)) (a ++ b) = b.
Proof. unfold len. rewrite Nat2Z.id. by rewrite drop_app_length. Qed.

(** A buffer seen from a position that leaves room for [n] bytes before it. *)
Lemma room (buf : bytes) n pos :
  0 <= n <= pos -> pos <= len buf ->
  exists pre old post, buf = pre ++ old ++ post /\ len pre = pos - n /\ len old = n.
Proof.
  intros Hn Hp. exists (take (Z.to_nat (pos - n)) buf), (take (Z.to_nat n) (drop (Z.to_nat (pos - n)) buf)),
    (drop (Z.to_nat pos) buf).
  rewrite len_take by lia. rewrite (len_take _ n) by (rewrite len_drop; lia).
  split; [|done]. rewrite <- (take_drop (Z.to_nat (pos - n)) buf) at 1. f_equal.
  rewrite <- (take_drop (Z.to_nat n) (drop _ buf)) at 1. rewrite drop_drop. do 2 f_equal. lia.
Qed.

(** ** Writers *)

Record emits (w : writer) (n : Z) (bs : bytes) : Prop := {
  emits_len : len bs = n;
  emits_spec pre old post : len old = n -> len (pre ++ old ++ post) < 2 ^ 63 ->
    w (pre ++ old ++ post, len pre + n) = Some (pre ++ bs ++ post, len pre);
}.

Lemma emits_nothing : emits nothing 0 [].
Proof.
  split; [done|]. intros pre old post Ho _. destruct old as [|? ?]; [|unfold len in Ho; simpl in Ho; lia].
  unfold nothing. do 2 f_equal. lia.
Qed.

Lemma emits_then w1 w2 n1 n2 b1 b2 :
  emits w1 n1 b1 -> emits w2 n2 b2 -> emits (w1 ;; w2)%writer (n1 + n2) (b2 ++ b1).
Proof.
  intros [L1 E1] [L2 E2]. pose proof (len_nonneg b1). pose proof (len_nonneg b2).
  split; [rewrite len_app; lia|]. intros pre old post Ho Hb.
  destruct (room old n1 (n1 + n2)) as (o2 & o1 & rest & -> & Ho2 & Ho1); [lia|lia|].
  rewrite !len_app in Ho. destruct rest; [|unfold len in *; simpl in *; lia].
  rewrite app_nil_r, <- !app_assoc in *. unfold and_then.
  replace (len pre + (n1 + n2)) with (len (pre ++ o2) + n1) by (rewrite len_app; lia).
  rewrite (app_assoc pre o2), E1 by (rewrite <- ?app_assoc; done).
  rewrite <- app_assoc, len_app, Ho2. replace (n1 + n2 - n1) with n2 by lia.
  rewrite E2; [done|lia|]. rewrite !len_app in *. lia.
Qed.

Lemma emits_byte b : emits (putByte b) 1 [b].
Proof.
  split; [done|]. intros pre old post Ho _. destruct old as [|b0 [|? ?]]; unfold len in Ho; simpl in Ho; try lia.
  unfold putByte. replace (len pre + 1 - 1) with (len pre) by lia. simpl. by rewrite store_middle.
Qed.

Lemma emits_varint v : 0 <= v < 2 ^ 64 -> emits (putVarint v) (Sov v) (varint_bytes v).
Proof.
  intros Hv. pose proof (Sov_pos v ltac:(lia)).
  assert (len (varint_bytes v) = Sov v) as L
    by (apply varint_length; change (7 * Z.of_nat 10) with 70; lia).
  split; [done|]. intros pre old post Ho Hb. unfold putVarint.
  rewrite EncodeVarint_spec; [|done|rewrite !len_app; pose proof (len_nonneg pre); pose proof (len_nonneg post); lia|done].
  replace (len pre + Sov v - Sov v) with (len pre) by lia. rewrite take_app_len.
  do 4 f_equal. rewrite app_assoc, <- Ho, <- len_app. apply drop_app_len.
Qed.

Lemma copy_at_middle (pre old post s : bytes) :
  len old = len s -> copy_at (pre ++ old ++ post) (len pre) s = Some (pre ++ s ++ post).
Proof.
  intros Ho. pose proof (len_nonneg pre). pose proof (len_nonneg post). pose proof (len_nonneg s). unfold copy_at.
  rewrite decide_True by (rewrite !len_app; lia).
  rewrite (take_ge s) by (rewrite !len_app; unfold len in *; lia).
  rewrite take_app_len, <- Ho, <- len_app. do 3 f_equal. rewrite app_assoc. apply drop_app_len.
Qed.

Lemma emits_bytes s : emits (putBytes s) (len s) s.
Proof.
  split; [done|]. intros pre old post Ho Hb. unfold putBytes.
  replace (len pre + len s - len s) with (len pre) by lia. by rewrite copy_at_middle.
Qed.

Lemma len_to_littleEndian n v : len (to_littleEndian n v) = Z.of_nat n.
Proof. revert v. induction n as [|n IH]; intros v; [done|]. specialize (IH (Z.shiftr v 8)). unfold len in *. simpl in *. lia. Qed.

Lemma emits_fixed n v : emits (putFixed n v) (Z.of_nat n) (to_littleEndian n v).
Proof.
  pose proof (len_to_littleEndian n v) as L. split; [done|]. intros pre old post Ho Hb. unfold putFixed.
  pose proof (len_nonneg post). rewrite decide_True by (rewrite !len_app; lia).
  replace (len pre + Z.of_nat n - Z.of_nat n) with (len pre) by lia. rewrite copy_at_middle by lia. done.
Qed.

(** ** Messages *)

Record marshals (m : bytes -> option (bytes * Z)) (n : Z) (bs : bytes) : Prop := {
  marshals_len : len bs = n;
  marshals_spec pre old : len old = n -> len (pre ++ old) < 2 ^ 63 -> m (pre ++ old) = Some (pre ++ bs, n);
}.

Lemma emits_marshals w n bs : emits w n bs -> marshals (marshal w) n bs.
Proof.
  intros [L E]. split; [done|]. intros pre old Ho Hb. unfold marshal.
  specialize (E pre old [] Ho). rewrite !app_nil_r in E. rewrite len_app, Ho.
  rewrite E by (rewrite len_app in Hb; rewrite ?len_app; lia). do 2 f_equal. lia.
Qed.

(** The encoding of a length and what it counts. *)
Definition prefixed (bs : bytes) : bytes := varint_bytes (u64 (len bs)) ++ bs.

Lemma emits_message m n bs : marshals m n bs -> emits (putMessage m) (lengthPrefixed n) (prefixed bs).
Proof.
  intros [L E]. pose proof (u64_range n) as Hn. pose proof (Sov_pos (u64 n) ltac:(lia)) as Hs.
  destruct (emits_varint (u64 n) Hn) as [Lv Ev]. unfold lengthPrefixed, prefixed.
  split; [rewrite len_app; subst n; lia|]. intros pre old post Ho Hb. unfold putMessage.
  pose proof (len_nonneg pre). pose proof (len_nonneg bs). pose proof (len_nonneg post).
  rewrite decide_True by (rewrite !len_app; lia).
  destruct (room old n (Sov (u64 n) + n)) as (ov & ob & rest & -> & Hov & Hob); [lia|lia|].
  rewrite !len_app in Ho. destruct rest; [|unfold len in *; simpl in *; lia]. rewrite app_nil_r in *.
  replace (len pre + (Sov (u64 n) + n)) with (len (pre ++ ov ++ ob)) by (rewrite !len_app; lia).
  replace (pre ++ (ov ++ ob) ++ post) with ((pre ++ ov ++ ob) ++ post) in * by (by rewrite !app_assoc).
  rewrite take_app_len, drop_app_len, app_assoc.
  rewrite E by (rewrite !len_app in *; lia).
  replace (len ((pre ++ ov) ++ ob) - n) with (len pre + Sov (u64 n)) by (rewrite !len_app; lia).
  rewrite <- !app_assoc. specialize (Ev pre ov (bs ++ post)). unfold putVarint in Ev. subst n.
  rewrite Ev; [done|lia|]. rewrite !len_app in *. lia.
Qed.

Lemma emits_string s : emits (putString s) (lengthPrefixed (len s)) (prefixed s).
Proof.
  unfold lengthPrefixed. rewrite Z.add_comm. apply emits_then; [apply emits_bytes|].
  apply emits_varint, u64_range.
Qed.

(** ** Reading *)

Section loop.
Context {M : Type} (cases : switch M).

(** A round of the loop. *)
Definition round (buf : bytes) (s s' : M * Z) : Prop :=
  s.2 < s'.2 <= len buf /\
  exists f wt p, ConsumeTag buf s.2 = Some (inl (f, wt, p)) /\ cases s.1 f wt buf p = Some (inl s').

Definition reads (bs : bytes) (m m' : M) : Prop :=
  forall pre post, len (pre ++ bs ++ post) < 2 ^ 63 ->
    rtc (round (pre ++ bs ++ post)) (m, len pre) (m', len pre + len bs).

Lemma reads_nil m : reads [] m m.
Proof. intros pre post _. rewrite Z.add_0_r. apply rtc_refl. Qed.

Lemma reads_append b1 b2 m m1 m2 : reads b1 m m1 -> reads b2 m1 m2 -> reads (b1 ++ b2) m m2.
Proof.
  intros R1 R2 pre post Hb. rewrite <- app_assoc in *. specialize (R1 pre (b2 ++ post) Hb).
  specialize (R2 (pre ++ b1) post). rewrite <- !app_assoc in R2. specialize (R2 Hb).
  rewrite !len_app in *. rewrite Z.add_assoc. by etrans.
Qed.

Lemma unmarshalLoop_rounds buf m m' pos fuel :
  rtc (round buf) (m, pos) (m', len buf) -> len buf - pos <= Z.of_nat fuel ->
  unmarshalLoop cases fuel buf pos m = Some (inl m').
Proof.
  intros R. remember (m, pos) as s eqn:Es. remember (m', len buf) as s' eqn:Es'.
  revert m pos Es fuel. induction R as [s|s s1 s' Hr _ IH]; intros m pos -> fuel Hf.
  - injection Es' as -> ->. destruct fuel; simpl; rewrite decide_False by lia; done.
  - destruct s1 as [m1 p1], Hr as [Hp (f & wt & p & Et & Ec)]. simpl in *.
    destruct fuel as [|fuel]; [lia|]. simpl. rewrite decide_True, Et, Ec by lia.
    apply IH; [done|done|lia].
Qed.

Lemma reads_unmarshal bs m m' : reads bs m m' -> len bs < 2 ^ 63 -> unmarshal cases bs m = Some (inl m').
Proof.
  intros R Hb. specialize (R [] []). rewrite app_nil_r in R. specialize (R Hb).
  apply unmarshalLoop_rounds; [exact R|unfold len; lia].
Qed.

(** What one case makes of the bytes of its field, after the tag. *)
Definition parses (f wt : Z) (bs : bytes) (m m' : M) : Prop :=
  forall pre post, len (pre ++ bs ++ post) < 2 ^ 63 ->
    cases m f wt (pre ++ bs ++ post) (len pre) = Some (inl (m', len pre + len bs)).

Lemma ConsumeTag_varint tag pre post :
  0 <= tag < 2 ^ 64 -> 0 < i32 (Z.shiftr tag 3) -> len (pre ++ varint_bytes tag ++ post) < 2 ^ 63 ->
  ConsumeTag (pre ++ varint_bytes tag ++ post) (len pre) =
    Some (inl (i32 (Z.shiftr tag 3), Z.land tag 7, len pre + len (varint_bytes tag))).
Proof.
  intros Ht Hf Hb. unfold ConsumeTag, ConsumeVarint, varint_bytes.
  rewrite (consumeLoop_varint 9) by (exact Hb || lia || (change (7 * Z.of_nat 10) with 70; lia)).
  rewrite Z.mul_1_r, Z.add_0_l, decide_False by lia. done.
Qed.

Lemma reads_field tag f wt bs m m' :
  0 <= tag < 2 ^ 31 -> f = Z.shiftr tag 3 -> wt = Z.land tag 7 -> 0 < f ->
  parses f wt bs m m' -> reads (varint_bytes tag ++ bs) m m'.
Proof.
  intros Ht -> -> Hf P pre post Hb.
  assert (i32 (Z.shiftr tag 3) = Z.shiftr tag 3) as E.
  { rewrite (Z.shiftr_div_pow2 tag 3 ltac:(lia)). change (2 ^ 3) with 8.
    assert (0 <= tag / 8 < 2 ^ 31) by (split; [apply Z.div_pos|apply Z.div_lt_upper_bound]; lia). unfold i32. rewrite Z.mod_small; lia. }
  assert (0 < len (varint_bytes tag)) as Hl.
  { unfold varint_bytes. simpl. case_decide; unfold len; simpl; lia. }
  pose proof (len_nonneg bs). pose proof (len_nonneg post).
  apply rtc_once. split; [rewrite !len_app in *; simpl; lia|].
  rewrite <- app_assoc in *. do 3 eexists. split.
  - apply ConsumeTag_varint; [lia|by rewrite E|done].
  - rewrite E. simpl. specialize (P (pre ++ varint_bytes tag) post). rewrite <- !app_assoc in P.
    specialize (P Hb). rewrite !len_app in *. rewrite P. do 3 f_equal. lia.
Qed.
End loop.

Lemma ConsumeVarint_middle v pre post :
  0 <= v < 2 ^ 64 -> len (pre ++ varint_bytes v ++ post) < 2 ^ 63 ->
  ConsumeVarint (pre ++ varint_bytes v ++ post) (len pre) = Some (inl (v, len pre + len (varint_bytes v))).
Proof.
  intros Hv Hb. unfold ConsumeVarint, varint_bytes.
  rewrite (consumeLoop_varint 9) by (exact Hb || lia || (change (7 * Z.of_nat 10) with 70; lia)).
  by rewrite Z.mul_1_r, Z.add_0_l.
Qed.

Lemma ConsumeLen_middle body pre post :
  len (pre ++ prefixed body ++ post) < 2 ^ 63 ->
  ConsumeLen (pre ++ prefixed body ++ post) (len pre) = Some (inl (len body, len pre + len (prefixed body))) /\
  slice (pre ++ prefixed body ++ post) (len pre + len (prefixed body) - len body) (len pre + len (prefixed body)) =
    Some body.
Proof.
  intros Hb. unfold prefixed in *. rewrite <- app_assoc in *.
  pose proof (len_nonneg body). pose proof (len_nonneg post). pose proof (len_nonneg pre).
  pose proof (len_nonneg (varint_bytes (u64 (len body)))).
  assert (u64 (len body) = len body) as E by (rewrite !len_app in Hb; apply u64_id; lia). rewrite E in *.
  split.
  - unfold ConsumeLen. rewrite ConsumeVarint_middle by (exact Hb || (rewrite !len_app in Hb; lia)).
    rewrite !len_app in *. rewrite i64_id by lia. rewrite decide_False by lia.
    rewrite i64_id by lia. rewrite decide_False by lia. do 3 f_equal. lia.
  - set (vb := varint_bytes (len body)) in *.
    assert (len pre + len (vb ++ body) - len body = len (pre ++ vb)) as -> by (rewrite !len_app; lia).
    assert (len pre + len (vb ++ body) = len (pre ++ vb) + len body) as -> by (rewrite !len_app; lia).
    unfold slice. rewrite decide_True by (rewrite !len_app in *; lia).
    rewrite app_assoc, drop_app_len. f_equal.
    replace (_ + len body - _) with (len body) by lia.
    apply take_app_len.
Qed.

Lemma littleEndian_round n v : 0 <= v < 2 ^ (8 * Z.of_nat n) -> littleEndian (to_littleEndian n v) = v.
Proof.
  revert v. induction n as [|n IH]; intros v Hv; cbn [to_littleEndian littleEndian]; [simpl in Hv; lia|].
  rewrite Z.shiftr_div_pow2 by lia. rewrite IH.
  - change 255 with (Z.ones 8). rewrite Z.land_ones by lia.
    rewrite lor_shiftl by (lia || apply Z.mod_pos_bound; lia). pose proof (Z.div_mod v (2 ^ 8)). lia.
  - replace (8 * Z.of_nat (S n)) with (8 + 8 * Z.of_nat n) in Hv by lia. rewrite Z.pow_add_r in Hv by lia.
    split; [apply Z.div_pos; lia|]. apply Z.div_lt_upper_bound; lia.
Qed.

Lemma ConsumeFixed_middle n v pre post :
  0 <= v < 2 ^ (8 * Z.of_nat n) -> len (pre ++ to_littleEndian n v ++ post) < 2 ^ 63 ->
  ConsumeFixed (Z.of_nat n) (pre ++ to_littleEndian n v ++ post) (len pre) =
    Some (inl (v, len pre + len (to_littleEndian n v))).
Proof.
  intros Hv Hb. pose proof (len_nonneg pre). pose proof (len_nonneg post). pose proof (len_to_littleEndian n v) as L.
  unfold ConsumeFixed. rewrite i64_id by (rewrite !len_app in *; lia).
  rewrite decide_False by (rewrite !len_app in *; lia). rewrite decide_True by lia.
  replace (len pre + Z.of_nat n - Z.of_nat n) with (len pre) by lia.
  rewrite drop_app_len, <- L, take_app_len, littleEndian_round by done. done.
Qed.

(** ** Fields *)

Section fields.
Context {M : Type} (cases : switch M).

Definition carries (w : writer) (n : Z) (m m' : M) : Prop := exists bs, emits w n bs /\ reads cases bs m m'.

Lemma carries_then w1 w2 n1 n2 m m1 m2 :
  carries w2 n2 m m1 -> carries w1 n1 m1 m2 -> carries (w1 ;; w2)%writer (n1 + n2) m m2.
Proof.
  intros (b2 & E2 & R2) (b1 & E1 & R1). exists (b2 ++ b1). split; [by apply emits_then|by eapply reads_append].
Qed.

Lemma carries_nothing m : carries nothing 0 m m.
Proof. exists []. split; [apply emits_nothing|apply reads_nil]. Qed.

Lemma carries_when b w n m m' :
  (b = true -> carries w n m m') -> (b = false -> m = m') -> carries (when b w) (size_if b n) m m'.
Proof. destruct b; intros C E; [by apply C|]. rewrite <- (E eq_refl). apply carries_nothing. Qed.

Lemma carries_list {A} (w : A -> writer) (size : A -> Z) (set : list A -> M) l acc :
  (forall x acc, x ∈ l -> carries (w x) (size x) (set acc) (set (acc ++ [x]))) ->
  carries (backwards w l) (sum_of size l) (set acc) (set (acc ++ l)).
Proof.
  revert acc. induction l as [|x l IH]; intros acc C; simpl; [rewrite app_nil_r; apply carries_nothing|].
  rewrite Z.add_comm. apply carries_then with (m1 := set (acc ++ [x])).
  - apply C. left.
  - replace (acc ++ x :: l) with ((acc ++ [x]) ++ l) by (by rewrite <- app_assoc). apply IH.
    intros y a Hy. apply C. by right.
Qed.

(** A tag of one byte, and of two, the last one first. *)
Lemma carries_tag1 w n bs t m m' :
  8 <= t < 128 -> emits w n bs -> parses cases (Z.shiftr t 3) (Z.land t 7) bs m m' ->
  carries (w ;; putByte t)%writer (1 + n) m m'.
Proof.
  intros Ht E P. exists (varint_bytes t ++ bs). split.
  - rewrite Z.add_comm. apply emits_then; [done|]. unfold varint_bytes, varint. rewrite decide_True by lia. apply emits_byte.
  - eapply reads_field; try done; [lia|]. rewrite Z.shiftr_div_pow2 by lia. apply Z.div_str_pos. lia.
Qed.

Lemma carries_tag2 w n bs hi lo m m' :
  0 < hi < 128 -> 128 <= lo < 256 -> emits w n bs ->
  parses cases (Z.shiftr (hi * 128 + (lo - 128)) 3) (Z.land (hi * 128 + (lo - 128)) 7) bs m m' ->
  carries (w ;; putByte hi ;; putByte lo)%writer (2 + n) m m'.
Proof.
  intros Hh Hl E P. exists (varint_bytes (hi * 128 + (lo - 128)) ++ bs). split.
  - rewrite Z.add_comm. apply emits_then; [done|]. change 2 with (1 + 1).
    replace (varint_bytes (hi * 128 + (lo - 128))) with ([lo] ++ [hi]); [by apply emits_then; apply emits_byte|].
    unfold varint_bytes. cbn [varint]. rewrite decide_False by lia.
    rewrite <- (Z.mod_unique (hi * 128 + (lo - 128)) 128 hi (lo - 128)) by lia.
    rewrite <- (Z.div_unique (hi * 128 + (lo - 128)) 128 hi (lo - 128)) by lia.
    rewrite decide_True by lia. simpl. do 2 f_equal. lia.
  - eapply reads_field; try done; [lia|]. rewrite Z.shiftr_div_pow2 by lia. apply Z.div_str_pos. lia.
Qed.

Lemma parses_len f wt bs g m m' :
  (forall buf pos, cases m f wt buf pos = lenCase WireTypeLen buf pos g) ->
  (len bs < 2 ^ 63 -> g bs = Some (inl m')) -> parses cases f wt (prefixed bs) m m'.
Proof.
  intros C G pre post Hb. rewrite C. unfold lenCase. rewrite decide_False by (intros []; done).
  destruct (ConsumeLen_middle bs pre post Hb) as [-> ->]. rewrite G; [done|].
  unfold prefixed in Hb. rewrite !len_app in Hb. pose proof (len_nonneg pre). pose proof (len_nonneg post).
  pose proof (len_nonneg (varint_bytes (u64 (len bs)))). lia.
Qed.

Lemma parses_varint f wt v g m :
  (forall buf pos, cases m f wt buf pos = varintCase WireTypeVarint buf pos g) ->
  0 <= v < 2 ^ 64 -> parses cases f wt (varint_bytes v) m (g v).
Proof.
  intros C Hv pre post Hb. rewrite C. unfold varintCase, numCase. rewrite decide_False by (intros []; done).
  by rewrite ConsumeVarint_middle.
Qed.

Lemma parses_i64 f wt v g m :
  (forall buf pos, cases m f wt buf pos = i64Case WireTypeI64 buf pos g) ->
  0 <= v < 2 ^ 64 -> parses cases f wt (to_littleEndian 8 v) m (g v).
Proof.
  intros C Hv pre post Hb. rewrite C. unfold i64Case, numCase. rewrite decide_False by (intros []; done).
  unfold ConsumeI64. change 8 with (Z.of_nat 8). by rewrite ConsumeFixed_middle.
Qed.

Lemma parses_i32 f wt v g m :
  (forall buf pos, cases m f wt buf pos = i32Case WireTypeI32 buf pos g) ->
  0 <= v < 2 ^ 32 -> parses cases f wt (to_littleEndian 4 v) m (g v).
Proof.
  intros C Hv pre post Hb. rewrite C. unfold i32Case, numCase. rewrite decide_False by (intros []; done).
  unfold ConsumeI32. change 4 with (Z.of_nat 4). by rewrite ConsumeFixed_middle.
Qed.
End fields.

(** ** Messages as a whole *)

(** [m] is written in [n] bytes, which [um] reads back on top of [m0]. *)
Definition codec {M} (mp : bytes -> option (bytes * Z)) (n : Z) (um : bytes -> option (M + error)) (m : M) : Prop :=
  exists bs, marshals mp n bs /\ (len bs < 2 ^ 63 -> um bs = Some (inl m)).

Lemma carries_codec {M} (cases : switch M) w n n' m0 m :
  carries cases w n m0 m -> n' = n -> codec (marshal w) n' (fun bs => unmarshal cases bs m0) m.
Proof.
  intros (bs & E & R) ->. exists bs. split; [by apply emits_marshals|]. by apply reads_unmarshal.
Qed.

Lemma codec_nonneg {M} mp n um (m : M) : codec mp n um m -> 0 <= n.
Proof. intros (bs & [<- _] & _). apply len_nonneg. Qed.

(** A buffer of exactly the size, as MarshalTraces allocates it. *)
Lemma codec_buffer {M} mp n um (m : M) :
  codec mp n um m -> n < 2 ^ 63 -> forall buf, len buf = n ->
  exists bs, mp buf = Some (bs, n) /\ len bs = n /\ um bs = Some (inl m).
Proof.
  intros (bs & [L E] & U) Hn buf Hb. exists bs. split; [|split; [done|apply U; lia]].
  specialize (E [] buf Hb). simpl in E. apply E. lia.
Qed.

(** ** Safety: any bytes give a well-formed message or an error *)

Lemma bytes_ok_sub (buf : bytes) i j : bytes_ok buf -> bytes_ok (take i (drop j buf)).
Proof. intros. by apply Forall_take, Forall_drop. Qed.

Lemma littleEndian_range bs : bytes_ok bs -> 0 <= littleEndian bs < 2 ^ (8 * len bs).
Proof.
  induction 1 as [|b bs Hb _ IH]; [done|]. cbn [littleEndian]. rewrite lor_shiftl by (lia || done).
  replace (8 * len (b :: bs)) with (8 + 8 * len bs) by (unfold len; simpl; lia).
  rewrite Z.pow_add_r by (unfold len; lia). lia.
Qed.

Lemma ConsumeFixed_range n buf pos v p :
  bytes_ok buf -> 0 <= n -> ConsumeFixed n buf pos = Some (inl (v, p)) -> 0 <= v < 2 ^ (8 * n).
Proof.
  intros Hok Hn. unfold ConsumeFixed. repeat case_decide; try done. intros [= <- <-].
  pose proof (littleEndian_range _ (bytes_ok_sub buf (Z.to_nat n) (Z.to_nat (i64 (pos + n) - n)) Hok)) as H1.
  split; [lia|]. eapply Z.lt_le_trans; [apply H1|]. apply Z.pow_le_mono_r; [lia|].
  unfold len. rewrite length_take. lia.
Qed.

Section safe.
Context {M : Type} (P : M -> Prop).

Definition outcome_ok (r : option (M + error)) : Prop := exists x, r = Some x /\ forall m, x = inl m -> P m.

Definition case_ok (buf : bytes) (pos : Z) (c : consumed M) : Prop :=
  exists r, c = Some r /\ forall m p, r = inl (m, p) -> P m /\ pos <= p <= len buf.

(** The cases do no harm in a buffer of at most [n] bytes. *)
Definition cases_ok (n : Z) (cases : switch M) : Prop :=
  forall m f wt buf pos, P m -> bytes_ok buf -> len buf < 2 ^ 63 -> len buf <= n -> 0 < pos <= len buf ->
    case_ok buf pos (cases m f wt buf pos).

Lemma sets_ok m : P m -> outcome_ok (sets m).
Proof. intros Hm. eexists. split; [done|]. by intros m' [= <-]. Qed.

Lemma error_ok err : outcome_ok (Some (inr err)).
Proof. by eexists. Qed.

Lemma lenCase_ok wt buf pos g :
  bytes_ok buf -> len buf < 2 ^ 63 -> 0 < pos <= len buf ->
  (forall s, bytes_ok s -> len s < len buf -> outcome_ok (g s)) -> case_ok buf pos (lenCase wt buf pos g).
Proof.
  intros Hok Hb Hp G. unfold lenCase. case_decide; [by eexists|].
  destruct (ConsumeLen_safe buf pos Hb ltac:(lia)) as ([[n p]|e] & -> & Hr); [|by eexists].
  destruct (Hr n p eq_refl) as (Hn & Hpos & Hpl). unfold slice. rewrite decide_True by lia.
  destruct (G (take (Z.to_nat (p - (p - n))) (drop (Z.to_nat (p - n)) buf))) as ([m|e] & -> & Hm).
  - by apply bytes_ok_sub.
  - unfold len in *. rewrite length_take, length_drop. lia.
  - eexists. split; [done|]. intros m' p' [= <- <-]. split; [by apply Hm|lia].
  - by eexists.
Qed.

Lemma numCase_ok want consume wt buf pos g bound :
  (exists r, consume buf pos = Some r /\ forall v p, r = inl (v, p) -> pos < p <= len buf) ->
  (forall v p, consume buf pos = Some (inl (v, p)) -> 0 <= v < bound) ->
  (forall v, 0 <= v < bound -> P (g v)) -> case_ok buf pos (numCase want consume wt buf pos g).
Proof.
  intros ([[v p]|e] & Ec & Hr) Hv G; unfold numCase; (case_decide; [by eexists|]); rewrite Ec; [|by eexists].
  eexists. split; [done|]. intros m' p' [= <- <-]. specialize (Hr v p eq_refl). split; [|lia].
  by apply G, (Hv v p).
Qed.

Lemma varintCase_ok wt buf pos g :
  len buf < 2 ^ 63 -> 0 < pos <= len buf -> (forall v, 0 <= v < 2 ^ 64 -> P (g v)) ->
  case_ok buf pos (varintCase wt buf pos g).
Proof.
  intros Hb Hp. destruct (ConsumeVarint_safe buf pos Hb ltac:(lia)) as (r & Er & Hr). apply numCase_ok.
  - exists r. split; [done|]. intros v p E. by apply (Hr v p).
  - intros v p E. rewrite Er in E. injection E as ->. by apply (Hr v p).
Qed.

Lemma i64Case_ok wt buf pos g :
  bytes_ok buf -> len buf < 2 ^ 63 -> 0 < pos <= len buf -> (forall v, 0 <= v < 2 ^ 64 -> P (g v)) ->
  case_ok buf pos (i64Case wt buf pos g).
Proof.
  intros Hok Hb Hp. apply numCase_ok; [apply (ConsumeFixed_safe 8); lia|]. intros v p E.
  exact (ConsumeFixed_range 8 buf pos v p Hok ltac:(lia) E).
Qed.

Lemma i32Case_ok wt buf pos g :
  bytes_ok buf -> len buf < 2 ^ 63 -> 0 < pos <= len buf -> (forall v, 0 <= v < 2 ^ 32 -> P (g v)) ->
  case_ok buf pos (i32Case wt buf pos g).
Proof.
  intros Hok Hb Hp. apply numCase_ok; [apply (ConsumeFixed_safe 4); lia|]. intros v p E.
  exact (ConsumeFixed_range 4 buf pos v p Hok ltac:(lia) E).
Qed.

Lemma unknownCase_ok m wt buf pos :
  P m -> len buf < 2 ^ 63 -> 0 < pos <= len buf -> case_ok buf pos (unknownCase m wt buf pos).
Proof.
  intros Hm Hb Hp. unfold unknownCase, ConsumeUnknown.
  destruct (unknownLoop_safe (length buf) buf pos wt 0) as ([p|e] & -> & Hr); [done|lia|unfold len; lia| |by eexists].
  eexists. split; [done|]. intros m' p' [= <- <-]. split; [done|by apply Hr].
Qed.

Lemma unmarshalLoop_ok cases fuel buf pos m :
  cases_ok (len buf) cases -> bytes_ok buf -> len buf < 2 ^ 63 -> 0 <= pos -> len buf - pos <= Z.of_nat fuel -> P m ->
  outcome_ok (unmarshalLoop cases fuel buf pos m).
Proof.
  intros C Hok Hb. revert pos m. induction fuel as [|fuel IH]; intros pos m Hp Hf Hm; simpl.
  - rewrite decide_False by lia. by apply sets_ok.
  - case_decide; [|by apply sets_ok].
    destruct (ConsumeTag_safe buf pos Hb Hp) as ([[[f wt] p]|e] & -> & Hr); [|by apply error_ok].
    destruct (Hr f wt p eq_refl) as [Hpp _].
    destruct (C m f wt buf p Hm Hok Hb ltac:(lia) ltac:(lia)) as ([[m' p']|e] & -> & Hc); [|by apply error_ok].
    destruct (Hc m' p' eq_refl) as [Hm' Hp']. apply IH; [lia|lia|done].
Qed.

Lemma unmarshal_ok cases buf m :
  cases_ok (len buf) cases -> bytes_ok buf -> len buf < 2 ^ 63 -> P m -> outcome_ok (unmarshal cases buf m).
Proof. intros. apply unmarshalLoop_ok; try done. unfold len. lia. Qed.
End safe.

Lemma sets_message_ok {N M} (Q : N -> Prop) (P : M -> Prop) set r :
  outcome_ok Q r -> (forall x, Q x -> P (set x)) -> outcome_ok P (sets_message set r).
Proof.
  intros ([x|e] & -> & Hx) S; simpl; [|by apply error_ok]. apply sets_ok, S. by apply Hx.
Qed.

(** What is written does not depend on the way it is described. *)
Lemma marshals_unique m n b b' : marshals m n b -> marshals m n b' -> n < 2 ^ 63 -> b = b'.
Proof.
  intros [L E] [L' E'] Hn. specialize (E [] b L). specialize (E' [] b L). simpl in *.
  rewrite E in E' by lia. by injection (E' ltac:(lia)).
Qed.

(** A repeated field starts with its tag. *)
Lemma emits_backwards {A} (w : A -> writer) (size : A -> Z) t l :
  (forall x, x ∈ l -> exists b, emits (w x) (size x) b) ->
  exists bs, emits (backwards (fun x => w x ;; putByte t) l)%writer (sum_of (fun x => 1 + size x) l) bs /\
    (bs = [] \/ exists rest, bs = t :: rest).
Proof.
  induction l as [|x l IH]; intros W; simpl; [exists []; split; [apply emits_nothing|by left]|].
  destruct (W x ltac:(by left)) as (b & E). destruct IH as (bs & Es & _); [intros y Hy; apply W; by right|].
  exists (([t] ++ b) ++ bs). split; [|right; by exists (b ++ bs)].
  rewrite Z.add_comm. apply emits_then; [done|]. rewrite Z.add_comm. apply emits_then; [done|apply emits_byte].
Qed.

(** * Packed, zigzag and optional fields *)

(** ** Zigzag *)

Definition zigzag (x : Z) : Z := if decide (0 <= x) then 2 * x else - (2 * x) - 1.

(** Exclusive or with ones is a subtraction. *)
Lemma lxor_ones a n : 0 <= n -> 0 <= a < 2 ^ n -> Z.lxor a (Z.ones n) = 2 ^ n - 1 - a.
Proof.
  intros Hn Ha. transitivity (Z.ones n - a); [|rewrite Z.ones_equiv; lia].
  assert (a = a mod 2 ^ n) as E by (rewrite Z.mod_small; lia).
  rewrite Z.sub_nocarry_ldiff.
  - apply Z.bits_inj'. intros i Hi. rewrite Z.lxor_spec, Z.ldiff_spec.
    destruct (decide (i < n)) as [Hin|Hin].
    + rewrite Z.ones_spec_low by lia. by destruct (Z.testbit a i).
    + rewrite Z.ones_spec_high by lia. rewrite E, Z.mod_pow2_bits_high by lia. done.
  - rewrite Z.ldiff_ones_r, E, Z.shiftr_div_pow2, Z.div_small by lia. apply Z.shiftl_0_l.
Qed.

Lemma sign_shift n x : 0 <= n -> - 2 ^ n <= x < 2 ^ n -> Z.shiftr x n = if decide (0 <= x) then 0 else -1.
Proof.
  intros Hn Hx. rewrite Z.shiftr_div_pow2 by lia. case_decide; [apply Z.div_small; lia|].
  symmetry. apply (Z.div_unique x (2 ^ n) (-1) (x + 2 ^ n)); lia.
Qed.

Lemma zigzag32_eq x : - 2 ^ 31 <= x < 2 ^ 31 -> zigzag32 x = zigzag x.
Proof.
  intros Hx. unfold zigzag32, zigzag. rewrite (sign_shift 31) by lia. rewrite Z.shiftl_mul_pow2 by lia.
  unfold u32. case_decide.
  - rewrite Z.lxor_0_r, (Z.mod_small x), Z.mod_small; lia.
  - change (-1 mod 2 ^ 32) with (Z.ones 32).
    replace (x mod 2 ^ 32) with (x + 2 ^ 32) by (apply (Z.mod_unique x (2 ^ 32) (-1)); lia).
    replace (((x + 2 ^ 32) * 2 ^ 1) mod 2 ^ 32) with (2 * x + 2 ^ 32) by (apply (Z.mod_unique _ (2 ^ 32) 1); lia).
    rewrite lxor_ones by lia. lia.
Qed.

Lemma Soz_zigzag x : - 2 ^ 31 <= x < 2 ^ 31 -> Soz (u64 x) = Sov (zigzag x).
Proof.
  intros Hx. unfold Soz, zigzag. f_equal.
  assert (i64 (u64 x) = x) as -> by (unfold i64, u64; rewrite Zplus_mod_idemp_l, Z.mod_small; lia).
  rewrite (sign_shift 63) by lia. rewrite Z.shiftl_mul_pow2 by lia. unfold u64. case_decide.
  - rewrite Z.lxor_0_r, (Z.mod_small x), Z.mod_small; lia.
  - change (-1 mod 2 ^ 64) with (Z.ones 64).
    replace (x mod 2 ^ 64) with (x + 2 ^ 64) by (apply (Z.mod_unique x (2 ^ 64) (-1)); lia).
    replace (((x + 2 ^ 64) * 2 ^ 1) mod 2 ^ 64) with (2 * x + 2 ^ 64) by (apply (Z.mod_unique _ (2 ^ 64) 1); lia).
    rewrite lxor_ones by lia. lia.
Qed.

Lemma zigzag_range x : - 2 ^ 31 <= x < 2 ^ 31 -> 0 <= zigzag x < 2 ^ 32.
Proof. intros. unfold zigzag. case_decide; lia. Qed.

Lemma unzigzag_zigzag x : - 2 ^ 31 <= x < 2 ^ 31 -> unzigzag32 (zigzag x) = x.
Proof.
  intros Hx. unfold unzigzag32, zigzag.
  assert (forall a, Z.land a 1 = a mod 2) as L by (intros a; apply (Z.land_ones a 1); lia).
  rewrite L, Z.shiftr_div_pow2 by lia. change (2 ^ 1) with 2. case_decide.
  - replace (2 * x / 2) with x by (apply (Z.div_unique _ 2 x 0); lia).
    replace ((2 * x) mod 2) with 0 by (apply (Z.mod_unique _ 2 x 0); lia).
    change (u32 (Z.shiftr (i32 (u64 (Z.shiftl 0 31))) 31)) with 0. rewrite Z.lxor_0_r. unfold u32, i32.
    rewrite (Z.mod_small x), Z.mod_small; lia.
  - replace ((- (2 * x) - 1) / 2) with (- x - 1) by (apply (Z.div_unique _ 2 (- x - 1) 1); lia).
    replace ((- (2 * x) - 1) mod 2) with 1 by (apply (Z.mod_unique _ 2 (- x - 1) 1); lia).
    change (u32 (Z.shiftr (i32 (u64 (Z.shiftl 1 31))) 31)) with (Z.ones 32). unfold u32, i32.
    rewrite (Z.mod_small (- x - 1)), lxor_ones by lia.
    replace (2 ^ 32 - 1 - (- x - 1) + 2 ^ 31) with (x + 2 ^ 31 + 1 * 2 ^ 32) by lia.
    rewrite Z_mod_plus_full, Z.mod_small; lia.
Qed.

(** ** Writers *)

Lemma emits_counted w n bs : emits w n bs -> emits (putCounted w) (lengthPrefixed n) (prefixed bs).
Proof.
  intros [L E]. pose proof (u64_range n) as Hn. pose proof (Sov_pos (u64 n) ltac:(lia)) as Hs.
  destruct (emits_varint (u64 n) Hn) as [Lv Ev]. unfold lengthPrefixed, prefixed.
  split; [rewrite len_app; subst n; lia|]. intros pre old post Ho Hb. unfold putCounted.
  pose proof (len_nonneg bs).
  destruct (room old n (Sov (u64 n) + n)) as (ov & ob & rest & -> & Hov & Hob); [lia|lia|].
  rewrite !len_app in Ho. destruct rest; [|unfold len in *; simpl in *; lia]. rewrite app_nil_r in *.
  replace (len pre + (Sov (u64 n) + n)) with (len (pre ++ ov) + n) by (rewrite len_app; lia).
  rewrite <- app_assoc in *. rewrite app_assoc. rewrite E by (rewrite <- ?app_assoc; (done || lia)).
  replace (len (pre ++ ov) + n - len (pre ++ ov)) with n by lia.
  specialize (Ev pre ov (bs ++ post)). unfold putVarint in Ev. rewrite len_app, <- app_assoc.
  replace (len ov) with (Sov (u64 n)) by lia. subst n. rewrite Ev; [by rewrite <- app_assoc|lia|].
  rewrite !len_app in *. lia.
Qed.

Lemma emits_list {A} (w : A -> writer) (size : A -> Z) (enc : A -> bytes) l :
  (forall x, x ∈ l -> emits (w x) (size x) (enc x)) -> emits (backwards w l) (sum_of size l) (concat (map enc l)).
Proof.
  induction l as [|x l IH]; intros W; simpl; [apply emits_nothing|].
  rewrite Z.add_comm. apply emits_then; [apply IH; intros y Hy; apply W; by right|apply W; by left].
Qed.

Definition fixeds (l : list Z) : bytes := concat (map (to_littleEndian 8) l).
Definition varints (l : list Z) : bytes := concat (map varint_bytes l).

Lemma len_fixeds l : len (fixeds l) = len l * 8.
Proof.
  induction l as [|v l IH]; [done|]. unfold fixeds in *. cbn [map concat]. rewrite len_app, IH, len_to_littleEndian.
  unfold len. cbn [length]. lia.
Qed.

Lemma emits_packedFixed l : emits (putPackedFixed l) (lengthPrefixed (len l * 8)) (prefixed (fixeds l)).
Proof.
  unfold lengthPrefixed, prefixed, putPackedFixed. rewrite <- len_fixeds, Z.add_comm.
  apply emits_then; [|apply emits_varint, u64_range].
  pose proof (emits_list (putFixed 8) (fun _ => 8) (to_littleEndian 8) l) as E. fold (fixeds l) in E.
  rewrite (emits_len _ _ _ (E ltac:(intros x _; apply (emits_fixed 8)))). apply E. intros x _. apply (emits_fixed 8).
Qed.

Lemma emits_packedVarint l :
  Forall (fun v => 0 <= v < 2 ^ 64) l -> emits (putPackedVarint l) (lengthPrefixed (sum_of Sov l)) (prefixed (varints l)).
Proof.
  rewrite Forall_forall. intros F. apply emits_counted, emits_list. intros x Hx. by apply emits_varint, F.
Qed.

(** ** Reading *)

Lemma consumeI64s_fixeds l pre post :
  Forall (fun v => 0 <= v < 2 ^ 64) l -> len (pre ++ fixeds l ++ post) < 2 ^ 63 ->
  consumeI64s (length l) (pre ++ fixeds l ++ post) (len pre) = Some (inl (l, len pre + len (fixeds l))).
Proof.
  intros F. revert pre. induction F as [|v l Hv _ IH]; intros pre Hb; [by rewrite Z.add_0_r|].
  unfold fixeds in *. cbn [map concat length consumeI64s] in *. rewrite <- app_assoc in *.
  unfold ConsumeI64. change 8 with (Z.of_nat 8). rewrite ConsumeFixed_middle by done.
  specialize (IH (pre ++ to_littleEndian 8 v)). rewrite <- !app_assoc, !len_app in IH. rewrite IH by (by rewrite !len_app in *).
  rewrite len_app, Z.add_assoc. done.
Qed.

Lemma varint_bytes_pos v : 0 < len (varint_bytes v).
Proof. unfold varint_bytes. simpl. case_decide; unfold len; simpl; lia. Qed.

Lemma consumeVarints_varints l pre fuel :
  Forall (fun v => 0 <= v < 2 ^ 64) l -> len (pre ++ varints l) < 2 ^ 63 -> (length l <= fuel)%nat ->
  consumeVarints fuel (pre ++ varints l) (len pre) (len (pre ++ varints l)) = Some (inl (l, len (pre ++ varints l))).
Proof.
  intros F. revert pre fuel. induction F as [|v l Hv _ IH]; intros pre fuel Hb Hf.
  - unfold varints. simpl. rewrite app_nil_r. destruct fuel; simpl; by rewrite decide_False by lia.
  - unfold varints in *. cbn [map concat length] in *. destruct fuel as [|fuel]; [lia|]. cbn [consumeVarints].
    pose proof (varint_bytes_pos v). pose proof (len_nonneg (concat (map varint_bytes l))).
    rewrite decide_True by (rewrite !len_app; lia). rewrite ConsumeVarint_middle by done.
    specialize (IH (pre ++ varint_bytes v) fuel). rewrite <- len_app, app_assoc.
    rewrite IH; [done|by rewrite <- app_assoc|lia].
Qed.

Lemma len_varints l : Z.of_nat (length l) <= len (varints l).
Proof.
  induction l as [|v l IH]; [done|]. unfold varints in *. cbn [map concat length]. rewrite len_app.
  pose proof (varint_bytes_pos v). lia.
Qed.

Section packed.
Context {M : Type} (cases : switch M).

Lemma parses_packed f wt body l elements set m :
  (forall buf pos, cases m f wt buf pos = packedCase elements buf pos set) ->
  (forall pre, len (pre ++ body) < 2 ^ 63 ->
     elements (len body) (pre ++ body) (len pre) (len (pre ++ body)) = Some (inl (l, len (pre ++ body)))) ->
  parses cases f wt (prefixed body) m (set l).
Proof.
  intros C G pre post Hb. rewrite C. unfold packedCase. destruct (ConsumeLen_middle body pre post Hb) as [-> _].
  pose proof (len_nonneg pre). pose proof (len_nonneg post). pose proof (len_nonneg body).
  pose proof (len_nonneg (prefixed body)).
  assert (slice (pre ++ prefixed body ++ post) 0 (len pre + len (prefixed body)) = Some (pre ++ prefixed body)) as ->.
  { unfold slice. rewrite decide_True by (rewrite !len_app; lia). simpl. rewrite drop_0, Z.sub_0_r, app_assoc.
    rewrite <- len_app. by rewrite take_app_len. }
  unfold prefixed in *. set (vb := varint_bytes (u64 (len body))) in *.
  replace (len pre + len (vb ++ body) - len body) with (len (pre ++ vb)) by (rewrite !len_app; lia).
  rewrite <- len_app, (app_assoc pre vb body).
  rewrite G by (rewrite !len_app in *; pose proof (len_nonneg vb); lia). by rewrite decide_False by lia.
Qed.

Lemma parses_fixeds f l l0 set m :
  (forall buf pos, cases m f WireTypeLen buf pos = fixedsCase WireTypeLen buf pos l0 set) ->
  Forall (fun v => 0 <= v < 2 ^ 64) l -> parses cases f WireTypeLen (prefixed (fixeds l)) m (set l).
Proof.
  intros C F. eapply parses_packed; [intros buf pos; rewrite C; reflexivity|]. intros pre Hb. cbv beta.
  rewrite len_fixeds, Z.div_mul by lia. unfold len at 1. rewrite Nat2Z.id.
  pose proof (consumeI64s_fixeds l pre [] F) as R. rewrite !app_nil_r in R. rewrite R by done. by rewrite len_app.
Qed.

Lemma parses_varints f l l0 set m :
  (forall buf pos, cases m f WireTypeLen buf pos = varintsCase WireTypeLen buf pos l0 set) ->
  Forall (fun v => 0 <= v < 2 ^ 64) l -> parses cases f WireTypeLen (prefixed (varints l)) m (set (l0 ++ l)).
Proof.
  intros C F.
  eapply (parses_packed _ _ _ l _ (fun nums => set (l0 ++ nums))); [intros buf pos; rewrite C; reflexivity|].
  intros pre Hb. cbv beta. apply consumeVarints_varints; [done|done|].
  pose proof (len_varints l). rewrite length_app. unfold len in *. lia.
Qed.
End packed.

(** ** Safety *)

Lemma consumeI64s_safe n buf pos :
  bytes_ok buf -> len buf < 2 ^ 63 -> 0 <= pos <= len buf ->
  exists r, consumeI64s n buf pos = Some r /\
    forall l p, r = inl (l, p) -> Forall (fun v => 0 <= v < 2 ^ 64) l.
Proof.
  intros Hok Hb. revert pos. induction n as [|n IH]; intros pos Hp; cbn [consumeI64s].
  - eexists. split; [done|]. by intros l p [= <- <-].
  - destruct (ConsumeFixed_safe 8 buf pos ltac:(lia) Hb Hp) as ([[v p]|e] & E & Hr); fold ConsumeI64 in E; rewrite E;
      [|by eexists].
    specialize (Hr v p eq_refl). pose proof (ConsumeFixed_range 8 buf pos v p Hok ltac:(lia) E) as Hv.
    destruct (IH p ltac:(lia)) as ([[l p']|e] & -> & Hl); [|by eexists].
    eexists. split; [done|]. intros l' q [= <- <-]. constructor; [exact Hv|by eapply Hl].
Qed.

Lemma consumeVarints_safe fuel buf pos :
  len buf < 2 ^ 63 -> 0 <= pos -> len buf - pos <= Z.of_nat fuel ->
  exists r, consumeVarints fuel buf pos (len buf) = Some r /\
    forall l p, r = inl (l, p) -> Forall (fun v => 0 <= v < 2 ^ 64) l.
Proof.
  intros Hb. revert pos. induction fuel as [|fuel IH]; intros pos Hp Hf; cbn [consumeVarints].
  - rewrite decide_False by lia. eexists. split; [done|]. by intros l p [= <- <-].
  - case_decide; [|eexists; split; [done|]; by intros l p [= <- <-]].
    destruct (ConsumeVarint_safe buf pos Hb Hp) as ([[v p]|e] & -> & Hr); [|by eexists].
    destruct (Hr v p eq_refl) as [Hpp Hv].
    destruct (IH p ltac:(lia) ltac:(lia)) as ([[l p']|e] & -> & Hl); [|by eexists].
    eexists. split; [done|]. intros l' q [= <- <-]. constructor; [exact Hv|by eapply Hl].
Qed.

Section safe.
Context {M : Type} (P : M -> Prop).

Lemma packedCase_ok elements buf pos set :
  bytes_ok buf -> len buf < 2 ^ 63 -> 0 < pos <= len buf ->
  (forall n sub start, bytes_ok sub -> len sub < 2 ^ 63 -> 0 <= start <= len sub ->
     exists r, elements n sub start (len sub) = Some r /\
       forall l p, r = inl (l, p) -> Forall (fun v => 0 <= v < 2 ^ 64) l) ->
  (forall l, Forall (fun v => 0 <= v < 2 ^ 64) l -> P (set l)) -> case_ok P buf pos (packedCase elements buf pos set).
Proof.
  intros Hok Hb Hp E G. unfold packedCase.
  destruct (ConsumeLen_safe buf pos Hb ltac:(lia)) as ([[n p]|e] & -> & Hr); [|by eexists].
  destruct (Hr n p eq_refl) as (Hn & Hpos & Hpl). unfold slice. rewrite decide_True by lia.
  set (sub := take _ _). assert (len sub = p) as Hs
    by (unfold sub, len in *; rewrite length_take, length_drop; lia).
  destruct (E n sub (p - n)) as (r & Er & Hl); [by apply bytes_ok_sub|lia|lia|]. rewrite Hs in Er. rewrite Er.
  destruct r as [[l q]|e]; [|by eexists]. case_decide; [by eexists|].
  eexists. split; [done|]. intros m' p' [= <- <-]. split; [by eapply G, Hl|lia].
Qed.

Lemma fixedsCase_ok wt buf pos l0 set :
  bytes_ok buf -> len buf < 2 ^ 63 -> 0 < pos <= len buf ->
  Forall (fun v => 0 <= v < 2 ^ 64) l0 -> (forall l, Forall (fun v => 0 <= v < 2 ^ 64) l -> P (set l)) ->
  case_ok P buf pos (fixedsCase wt buf pos l0 set).
Proof.
  intros Hok Hb Hp Hl0 G. unfold fixedsCase. case_decide; [|case_decide; [|by eexists]].
  - apply packedCase_ok; try done. intros n sub start. apply consumeI64s_safe.
  - apply i64Case_ok; try done. intros v Hv. apply G, Forall_app. split; [done|by apply Forall_singleton].
Qed.

Lemma varintsCase_ok wt buf pos l0 set :
  bytes_ok buf -> len buf < 2 ^ 63 -> 0 < pos <= len buf ->
  Forall (fun v => 0 <= v < 2 ^ 64) l0 -> (forall l, Forall (fun v => 0 <= v < 2 ^ 64) l -> P (set l)) ->
  case_ok P buf pos (varintsCase wt buf pos l0 set).
Proof.
  intros Hok Hb Hp Hl0 G. unfold varintsCase. case_decide; [|case_decide; [|by eexists]].
  - apply packedCase_ok; try done.
    + intros n sub start Hsub Hlen Hstart. apply consumeVarints_safe; [done|lia|unfold len in *; lia].
    + intros l Hl. by apply G, Forall_app.
  - apply varintCase_ok; try done. intros v Hv. apply G, Forall_app. split; [done|by apply Forall_singleton].
Qed.
End safe.
