(* ===== verification/CommonProto.v ===== *)
(** * CommonProto: the messages every signal uses

    pdata/internal: TraceID and SpanID (traceid.go, spanid.go), AnyValue, ArrayValue,
    KeyValue and KeyValueList, which refer to each other, EntityRef, Resource and
    InstrumentationScope (generated_proto_*.go): their sizes, MarshalProto and
    UnmarshalProto.  The [_cases] of a message are the switch of its UnmarshalProto; what
    [_writer] writes is the body of its MarshalProto.

    A string and a []byte are the list of their bytes, a float64 is its bits, and a nil
    pointer in a oneof is [None].  Messages that contain themselves are read with fuel:
    each level of nesting is at least two bytes shorter than the one around it. *)

From S2P Require Import Prelude.
From S2P Require Import GoErrors.
From S2P Require Import PData.
From S2P Require Import Storage.
From S2P Require Import ProtoWire.
From S2P Require Import ProtoMessage.

(** ** The integer types of the fields *)

Definition in_range (lo hi z : Z) : bool := (lo <=? z) && (z <? hi).
Definition is_i32 : Z -> bool := in_range (- 2 ^ 31) (2 ^ 31).
Definition is_u32 : Z -> bool := in_range 0 (2 ^ 32).
Definition is_i64 : Z -> bool := in_range (- 2 ^ 63) (2 ^ 63).
Definition is_u64 : Z -> bool := in_range 0 (2 ^ 64).

Definition nonzero (z : Z) : bool := negb (z =? 0).
Definition nonempty (s : bytes) : bool := 0 <? len s.

(** A float64 that is a plain field and not negative zero, which is not told from zero. *)
Definition plain_double (bits : Z) : bool := is_u64 bits && negb (bits =? 2 ^ 63).
Definition option_ok {A} (ok : A -> bool) (o : option A) : bool := match o with Some x => ok x | None => true end.

(** ** Identifiers of a fixed number of bytes: TraceID (16) and SpanID (8) *)

Definition traceIDSize : nat := 16.
Definition spanIDSize : nat := 8.
Definition emptyID (n : nat) : bytes := replicate n 0.
Definition errUnmarshalTraceID : error := ErrNew "unmarshal: invalid TraceID length".
Definition errUnmarshalSpanID : error := ErrNew "unmarshal: invalid SpanID length".

Definition ID_IsEmpty (n : nat) (id : bytes) : bool := bool_decide (id = emptyID n).
Definition ID_SizeProto (n : nat) (id : bytes) : Z := if ID_IsEmpty n id then 0 else Z.of_nat n.

(** buf[len(buf)-n:] panics when the buffer is shorter. *)
Definition ID_MarshalProto (n : nat) (id : bytes) (buf : bytes) : option (bytes * Z) :=
  if ID_IsEmpty n id then Some (buf, 0)
  else match copy_at buf (len buf - Z.of_nat n) id with Some buf => Some (buf, Z.of_nat n) | None => None end.

Definition ID_UnmarshalProto (n : nat) (err : error) (buf : bytes) : option (bytes + error) :=
  if decide (length buf = 0%nat) then Some (inl (emptyID n))
  else if decide (length buf <> n) then Some (inr err)
  else Some (inl buf).

Definition TraceID_SizeProto : bytes -> Z := ID_SizeProto traceIDSize.
Definition TraceID_MarshalProto : bytes -> bytes -> option (bytes * Z) := ID_MarshalProto traceIDSize.
Definition TraceID_UnmarshalProto : bytes -> option (bytes + error) := ID_UnmarshalProto traceIDSize errUnmarshalTraceID.
Definition SpanID_SizeProto : bytes -> Z := ID_SizeProto spanIDSize.
Definition SpanID_MarshalProto : bytes -> bytes -> option (bytes * Z) := ID_MarshalProto spanIDSize.
Definition SpanID_UnmarshalProto : bytes -> option (bytes + error) := ID_UnmarshalProto spanIDSize errUnmarshalSpanID.

Definition is_ID (n : nat) (id : bytes) : bool := bool_decide (length id = n).

(** ** AnyValue, ArrayValue, KeyValue and KeyValueList *)

Inductive AnyValue :=
| AnyValue_nil
| AnyValue_StringValue (s : bytes)
| AnyValue_BoolValue (b : bool)
| AnyValue_IntValue (z : Z)
| AnyValue_DoubleValue (bits : Z)
| AnyValue_ArrayValue (a : option ArrayValue)
| AnyValue_KvlistValue (l : option KeyValueList)
| AnyValue_BytesValue (s : bytes)
| AnyValue_StringValueStrindex (z : Z)
with ArrayValue := mkArrayValue (Values : list AnyValue)
with KeyValue := mkKeyValue (Value : AnyValue) (Key : bytes) (KeyStrindex : Z)
with KeyValueList := mkKeyValueList (Values : list KeyValue).

Definition zeroArrayValue : ArrayValue := mkArrayValue [].
Definition zeroKeyValue : KeyValue := mkKeyValue AnyValue_nil [] 0.
Definition zeroKeyValueList : KeyValueList := mkKeyValueList [].

Definition KeyValue_Key (kv : KeyValue) : bytes := let '(mkKeyValue _ k _) := kv in k.
Definition KeyValue_Value (kv : KeyValue) : AnyValue := let '(mkKeyValue v _ _) := kv in v.

(** The values the Go types hold, with no nil message in a oneof. *)
Fixpoint AnyValue_ok (v : AnyValue) : bool :=
  match v with
  | AnyValue_IntValue z => is_i64 z
  | AnyValue_DoubleValue bits => is_u64 bits
  | AnyValue_ArrayValue (Some a) => ArrayValue_ok a
  | AnyValue_KvlistValue (Some l) => KeyValueList_ok l
  | AnyValue_ArrayValue None | AnyValue_KvlistValue None => false
  | AnyValue_StringValueStrindex z => is_i32 z
  | _ => true
  end
with ArrayValue_ok (a : ArrayValue) : bool := let '(mkArrayValue vs) := a in forallb AnyValue_ok vs
with KeyValue_ok (kv : KeyValue) : bool := let '(mkKeyValue v _ i) := kv in AnyValue_ok v && is_i32 i
with KeyValueList_ok (l : KeyValueList) : bool := let '(mkKeyValueList kvs) := l in forallb KeyValue_ok kvs.

(** *** Sizes *)

Fixpoint AnyValue_SizeProto (v : AnyValue) : Z :=
  match v with
  | AnyValue_nil => 0
  | AnyValue_StringValue s => 1 + lengthPrefixed (len s)
  | AnyValue_BoolValue _ => 2
  | AnyValue_IntValue z => 1 + Sov (u64 z)
  | AnyValue_DoubleValue _ => 9
  | AnyValue_ArrayValue None => 0
  | AnyValue_ArrayValue (Some a) => 1 + lengthPrefixed (ArrayValue_SizeProto a)
  | AnyValue_KvlistValue None => 0
  | AnyValue_KvlistValue (Some l) => 1 + lengthPrefixed (KeyValueList_SizeProto l)
  | AnyValue_BytesValue s => 1 + lengthPrefixed (len s)
  | AnyValue_StringValueStrindex z => 1 + Sov (u64 z)
  end
with ArrayValue_SizeProto (a : ArrayValue) : Z :=
  let '(mkArrayValue vs) := a in sum_of (fun v => 1 + lengthPrefixed (AnyValue_SizeProto v)) vs
with KeyValue_SizeProto (kv : KeyValue) : Z :=
  let '(mkKeyValue v k i) := kv in
  size_if (nonempty k) (1 + lengthPrefixed (len k)) +
  (1 + lengthPrefixed (AnyValue_SizeProto v)) +
  size_if (nonzero i) (1 + Sov (u64 i))
with KeyValueList_SizeProto (l : KeyValueList) : Z :=
  let '(mkKeyValueList kvs) := l in sum_of (fun kv => 1 + lengthPrefixed (KeyValue_SizeProto kv)) kvs.

(** *** MarshalProto *)

Fixpoint AnyValue_MarshalProto (v : AnyValue) : bytes -> option (bytes * Z) :=
  marshal (
    match v with
    | AnyValue_nil => nothing
    | AnyValue_StringValue s => putString s ;; putByte 0xa
    | AnyValue_BoolValue b => putByte (if b then 1 else 0) ;; putByte 0x10
    | AnyValue_IntValue z => putVarint (u64 z) ;; putByte 0x18
    | AnyValue_DoubleValue bits => putFixed 8 bits ;; putByte 0x21
    | AnyValue_ArrayValue None => nothing
    | AnyValue_ArrayValue (Some a) => putMessage (ArrayValue_MarshalProto a) ;; putByte 0x2a
    | AnyValue_KvlistValue None => nothing
    | AnyValue_KvlistValue (Some l) => putMessage (KeyValueList_MarshalProto l) ;; putByte 0x32
    | AnyValue_BytesValue s => putString s ;; putByte 0x3a
    | AnyValue_StringValueStrindex z => putVarint (u64 z) ;; putByte 0x40
    end)%writer
with ArrayValue_MarshalProto (a : ArrayValue) : bytes -> option (bytes * Z) :=
  let '(mkArrayValue vs) := a in
  marshal (backwards (fun v => putMessage (AnyValue_MarshalProto v) ;; putByte 0xa) vs)%writer
with KeyValue_MarshalProto (kv : KeyValue) : bytes -> option (bytes * Z) :=
  let '(mkKeyValue v k i) := kv in
  marshal (
    when (nonempty k) (putString k ;; putByte 0xa) ;;
    (putMessage (AnyValue_MarshalProto v) ;; putByte 0x12) ;;
    when (nonzero i) (putVarint (u64 i) ;; putByte 0x18))%writer
with KeyValueList_MarshalProto (l : KeyValueList) : bytes -> option (bytes * Z) :=
  let '(mkKeyValueList kvs) := l in
  marshal (backwards (fun kv => putMessage (KeyValue_MarshalProto kv) ;; putByte 0xa) kvs)%writer.

(** *** UnmarshalProto *)

(** An empty bytes field leaves what a new oneof holds: nil. *)
Definition AnyValue_cases (unmarshalArrayValue : bytes -> option (ArrayValue + error))
    (unmarshalKeyValueList : bytes -> option (KeyValueList + error)) : switch AnyValue :=
  fun orig fieldNum wireType buf pos =>
  match fieldNum with
  | 1 => lenCase wireType buf pos (fun s => sets (AnyValue_StringValue s))
  | 2 => varintCase wireType buf pos (fun num => AnyValue_BoolValue (nonzero num))
  | 3 => varintCase wireType buf pos (fun num => AnyValue_IntValue (i64 num))
  | 4 => i64Case wireType buf pos AnyValue_DoubleValue
  | 5 => lenCase wireType buf pos (fun s => sets_message (fun a => AnyValue_ArrayValue (Some a)) (unmarshalArrayValue s))
  | 6 => lenCase wireType buf pos (fun s => sets_message (fun l => AnyValue_KvlistValue (Some l)) (unmarshalKeyValueList s))
  | 7 => lenCase wireType buf pos (fun s => sets (AnyValue_BytesValue s))
  | 8 => varintCase wireType buf pos (fun num => AnyValue_StringValueStrindex (i32 num))
  | _ => unknownCase orig wireType buf pos
  end.

Definition ArrayValue_cases (unmarshalAnyValue : bytes -> AnyValue -> option (AnyValue + error)) : switch ArrayValue :=
  fun orig fieldNum wireType buf pos =>
  let '(mkArrayValue vs) := orig in
  match fieldNum with
  | 1 => lenCase wireType buf pos (fun s =>
           sets_message (fun v => mkArrayValue (vs ++ [v])) (unmarshalAnyValue s AnyValue_nil))
  | _ => unknownCase orig wireType buf pos
  end.

Definition KeyValue_cases (unmarshalAnyValue : bytes -> AnyValue -> option (AnyValue + error)) : switch KeyValue :=
  fun orig fieldNum wireType buf pos =>
  let '(mkKeyValue v k i) := orig in
  match fieldNum with
  | 1 => lenCase wireType buf pos (fun s => sets (mkKeyValue v s i))
  | 2 => lenCase wireType buf pos (fun s => sets_message (fun v => mkKeyValue v k i) (unmarshalAnyValue s v))
  | 3 => varintCase wireType buf pos (fun num => mkKeyValue v k (i32 num))
  | _ => unknownCase orig wireType buf pos
  end.

Definition KeyValueList_cases (unmarshalKeyValue : bytes -> option (KeyValue + error)) : switch KeyValueList :=
  fun orig fieldNum wireType buf pos =>
  let '(mkKeyValueList kvs) := orig in
  match fieldNum with
  | 1 => lenCase wireType buf pos (fun s => sets_message (fun kv => mkKeyValueList (kvs ++ [kv])) (unmarshalKeyValue s))
  | _ => unknownCase orig wireType buf pos
  end.

Fixpoint unmarshalAnyValue (fuel : nat) (buf : bytes) (orig : AnyValue) : option (AnyValue + error) :=
  match fuel with
  | O => None
  | S fuel =>
      unmarshal (AnyValue_cases
        (fun s => unmarshal (ArrayValue_cases (unmarshalAnyValue fuel)) s zeroArrayValue)
        (fun s => unmarshal (KeyValueList_cases (fun s =>
           unmarshal (KeyValue_cases (unmarshalAnyValue fuel)) s zeroKeyValue)) s zeroKeyValueList)) buf orig
  end.

Definition AnyValue_UnmarshalProto (buf : bytes) (orig : AnyValue) : option (AnyValue + error) :=
  unmarshalAnyValue (S (length buf)) buf orig.
Definition ArrayValue_UnmarshalProto (buf : bytes) (orig : ArrayValue) : option (ArrayValue + error) :=
  unmarshal (ArrayValue_cases AnyValue_UnmarshalProto) buf orig.
Definition KeyValue_UnmarshalProto (buf : bytes) (orig : KeyValue) : option (KeyValue + error) :=
  unmarshal (KeyValue_cases AnyValue_UnmarshalProto) buf orig.
Definition KeyValueList_UnmarshalProto (buf : bytes) (orig : KeyValueList) : option (KeyValueList + error) :=
  unmarshal (KeyValueList_cases (fun s => KeyValue_UnmarshalProto s zeroKeyValue)) buf orig.

(** ** EntityRef *)

Record EntityRef := mkEntityRef {
  EntityRef_SchemaUrl : bytes;
  EntityRef_Type : bytes;
  EntityRef_IdKeys : list bytes;
  EntityRef_DescriptionKeys : list bytes;
}.

Definition zeroEntityRef : EntityRef := mkEntityRef [] [] [] [].

Definition EntityRef_SizeProto (orig : EntityRef) : Z :=
  size_if (nonempty (EntityRef_SchemaUrl orig)) (1 + lengthPrefixed (len (EntityRef_SchemaUrl orig))) +
  size_if (nonempty (EntityRef_Type orig)) (1 + lengthPrefixed (len (EntityRef_Type orig))) +
  sum_of (fun s => 1 + lengthPrefixed (len s)) (EntityRef_IdKeys orig) +
  sum_of (fun s => 1 + lengthPrefixed (len s)) (EntityRef_DescriptionKeys orig).

Definition EntityRef_MarshalProto (orig : EntityRef) : bytes -> option (bytes * Z) :=
  marshal (
    when (nonempty (EntityRef_SchemaUrl orig)) (putString (EntityRef_SchemaUrl orig) ;; putByte 0xa) ;;
    when (nonempty (EntityRef_Type orig)) (putString (EntityRef_Type orig) ;; putByte 0x12) ;;
    backwards (fun s => putString s ;; putByte 0x1a) (EntityRef_IdKeys orig) ;;
    backwards (fun s => putString s ;; putByte 0x22) (EntityRef_DescriptionKeys orig))%writer.

Definition EntityRef_cases : switch EntityRef := fun orig fieldNum wireType buf pos =>
  let '(mkEntityRef url ty ids descs) := orig in
  match fieldNum with
  | 1 => lenCase wireType buf pos (fun s => sets (mkEntityRef s ty ids descs))
  | 2 => lenCase wireType buf pos (fun s => sets (mkEntityRef url s ids descs))
  | 3 => lenCase wireType buf pos (fun s => sets (mkEntityRef url ty (ids ++ [s]) descs))
  | 4 => lenCase wireType buf pos (fun s => sets (mkEntityRef url ty ids (descs ++ [s])))
  | _ => unknownCase orig wireType buf pos
  end.

Definition EntityRef_UnmarshalProto : bytes -> EntityRef -> option (EntityRef + error) := unmarshal EntityRef_cases.

(** ** Resource *)

Record Resource := mkResource {
  Resource_Attributes : list KeyValue;
  Resource_EntityRefs : list EntityRef;
  Resource_DroppedAttributesCount : Z;
}.

Definition zeroResource : Resource := mkResource [] [] 0.

Definition Resource_ok (r : Resource) : bool :=
  forallb KeyValue_ok (Resource_Attributes r) && is_u32 (Resource_DroppedAttributesCount r).

Definition Resource_SizeProto (orig : Resource) : Z :=
  sum_of (fun kv => 1 + lengthPrefixed (KeyValue_SizeProto kv)) (Resource_Attributes orig) +
  size_if (nonzero (Resource_DroppedAttributesCount orig)) (1 + Sov (u64 (Resource_DroppedAttributesCount orig))) +
  sum_of (fun e => 1 + lengthPrefixed (EntityRef_SizeProto e)) (Resource_EntityRefs orig).

Definition Resource_MarshalProto (orig : Resource) : bytes -> option (bytes * Z) :=
  marshal (
    backwards (fun kv => putMessage (KeyValue_MarshalProto kv) ;; putByte 0xa) (Resource_Attributes orig) ;;
    when (nonzero (Resource_DroppedAttributesCount orig))
      (putVarint (u64 (Resource_DroppedAttributesCount orig)) ;; putByte 0x10) ;;
    backwards (fun e => putMessage (EntityRef_MarshalProto e) ;; putByte 0x1a) (Resource_EntityRefs orig))%writer.

Definition Resource_cases : switch Resource := fun orig fieldNum wireType buf pos =>
  let '(mkResource attrs refs dropped) := orig in
  match fieldNum with
  | 1 => lenCase wireType buf pos (fun s =>
           sets_message (fun kv => mkResource (attrs ++ [kv]) refs dropped) (KeyValue_UnmarshalProto s zeroKeyValue))
  | 2 => varintCase wireType buf pos (fun num => mkResource attrs refs (u32 num))
  | 3 => lenCase wireType buf pos (fun s =>
           sets_message (fun e => mkResource attrs (refs ++ [e]) dropped) (EntityRef_UnmarshalProto s zeroEntityRef))
  | _ => unknownCase orig wireType buf pos
  end.

Definition Resource_UnmarshalProto : bytes -> Resource -> option (Resource + error) := unmarshal Resource_cases.

(** ** InstrumentationScope *)

Record InstrumentationScope := mkInstrumentationScope {
  InstrumentationScope_Name : bytes;
  InstrumentationScope_Version : bytes;
  InstrumentationScope_Attributes : list KeyValue;
  InstrumentationScope_DroppedAttributesCount : Z;
}.

Definition zeroInstrumentationScope : InstrumentationScope := mkInstrumentationScope [] [] [] 0.

Definition InstrumentationScope_ok (s : InstrumentationScope) : bool :=
  forallb KeyValue_ok (InstrumentationScope_Attributes s) && is_u32 (InstrumentationScope_DroppedAttributesCount s).

Definition InstrumentationScope_SizeProto (orig : InstrumentationScope) : Z :=
  size_if (nonempty (InstrumentationScope_Name orig)) (1 + lengthPrefixed (len (InstrumentationScope_Name orig))) +
  size_if (nonempty (InstrumentationScope_Version orig)) (1 + lengthPrefixed (len (InstrumentationScope_Version orig))) +
  sum_of (fun kv => 1 + lengthPrefixed (KeyValue_SizeProto kv)) (InstrumentationScope_Attributes orig) +
  size_if (nonzero (InstrumentationScope_DroppedAttributesCount orig))
    (1 + Sov (u64 (InstrumentationScope_DroppedAttributesCount orig))).

Definition InstrumentationScope_MarshalProto (orig : InstrumentationScope) : bytes -> option (bytes * Z) :=
  marshal (
    when (nonempty (InstrumentationScope_Name orig)) (putString (InstrumentationScope_Name orig) ;; putByte 0xa) ;;
    when (nonempty (InstrumentationScope_Version orig)) (putString (InstrumentationScope_Version orig) ;; putByte 0x12) ;;
    backwards (fun kv => putMessage (KeyValue_MarshalProto kv) ;; putByte 0x1a) (InstrumentationScope_Attributes orig) ;;
    when (nonzero (InstrumentationScope_DroppedAttributesCount orig))
      (putVarint (u64 (InstrumentationScope_DroppedAttributesCount orig)) ;; putByte 0x20))%writer.

Definition InstrumentationScope_cases : switch InstrumentationScope := fun orig fieldNum wireType buf pos =>
  let '(mkInstrumentationScope name version attrs dropped) := orig in
  match fieldNum with
  | 1 => lenCase wireType buf pos (fun s => sets (mkInstrumentationScope s version attrs dropped))
  | 2 => lenCase wireType buf pos (fun s => sets (mkInstrumentationScope name s attrs dropped))
  | 3 => lenCase wireType buf pos (fun s =>
           sets_message (fun kv => mkInstrumentationScope name version (attrs ++ [kv]) dropped)
             (KeyValue_UnmarshalProto s zeroKeyValue))
  | 4 => varintCase wireType buf pos (fun num => mkInstrumentationScope name version attrs (u32 num))
  | _ => unknownCase orig wireType buf pos
  end.

Definition InstrumentationScope_UnmarshalProto :
    bytes -> InstrumentationScope -> option (InstrumentationScope + error) := unmarshal InstrumentationScope_cases.
