(* ===== verification/CommonProtoProofs.v ===== *)
(** * CommonProtoProofs: the messages every signal uses round-trip and are read safely *)

From S2P Require Import Prelude.
From S2P Require Import GoErrors.
From S2P Require Import PData.
From S2P Require Import Storage.
From S2P Require Import BatchLemmas.
From S2P Require Import ProtoWire.
From S2P Require Import ProtoMessage.
From S2P Require Import ProtoMessageProofs.
From S2P Require Import CommonProto.

(** ** Fields: a writer with its tag, next to the case that reads it *)

Lemma in_range_iff lo hi z : in_range lo hi z = true <-> lo <= z < hi.
Proof. unfold in_range. rewrite andb_true_iff, Z.leb_le, Z.ltb_lt. done. Qed.

Lemma i64_u64 z : is_i64 z = true -> i64 (u64 z) = z.
Proof.
  unfold is_i64. rewrite in_range_iff. intros Hz. unfold i64, u64. rewrite Zplus_mod_idemp_l.
  rewrite Z.mod_small; lia.
Qed.

Lemma i32_u64 z : is_i32 z = true -> i32 (u64 z) = z.
Proof.
  unfold is_i32. rewrite in_range_iff. intros Hz. unfold i32, u64.
  rewrite <- Zplus_mod_idemp_l, <- (Znumtheory.Zmod_div_mod (2 ^ 32) (2 ^ 64)), Zplus_mod_idemp_l; try lia.
  - rewrite Z.mod_small; lia.
  - by exists (2 ^ 32).
Qed.

Lemma u32_u64 z : is_u32 z = true -> u32 (u64 z) = z.
Proof. unfold is_u32. rewrite in_range_iff. intros Hz. rewrite u64_id by lia. unfold u32. apply Z.mod_small. lia. Qed.

Section fields.
Context {M : Type} (cases : switch M).

Lemma carries_string t s g m m' :
  8 <= t < 128 -> (forall buf pos, cases m (Z.shiftr t 3) (Z.land t 7) buf pos = lenCase WireTypeLen buf pos g) ->
  g s = sets m' -> carries cases (putString s ;; putByte t)%writer (1 + lengthPrefixed (len s)) m m'.
Proof.
  intros Ht C G. eapply carries_tag1; [done|apply emits_string|]. eapply parses_len; [done|]. by intros _.
Qed.

Lemma carries_message {N} t mp n um (x : N) set g m m' :
  8 <= t < 128 -> (forall buf pos, cases m (Z.shiftr t 3) (Z.land t 7) buf pos = lenCase WireTypeLen buf pos g) ->
  codec mp n um x -> (forall s, g s = sets_message set (um s)) -> set x = m' ->
  carries cases (putMessage mp ;; putByte t)%writer (1 + lengthPrefixed n) m m'.
Proof.
  intros Ht C (bs & Mb & U) G <-. eapply carries_tag1; [done|by apply emits_message|].
  eapply parses_len; [done|]. intros Hb. by rewrite G, U.
Qed.

Lemma carries_message2 {N} hi lo mp n um (x : N) set g m m' :
  0 < hi < 128 -> 128 <= lo < 256 ->
  (forall buf pos, cases m (Z.shiftr (hi * 128 + (lo - 128)) 3) (Z.land (hi * 128 + (lo - 128)) 7) buf pos =
     lenCase WireTypeLen buf pos g) ->
  codec mp n um x -> (forall s, g s = sets_message set (um s)) -> set x = m' ->
  carries cases (putMessage mp ;; putByte hi ;; putByte lo)%writer (2 + lengthPrefixed n) m m'.
Proof.
  intros Hh Hl C (bs & Mb & U) G <-. eapply carries_tag2; [done|done|by apply emits_message|].
  eapply parses_len; [done|]. intros Hb. by rewrite G, U.
Qed.

Lemma carries_varint t v g m m' :
  8 <= t < 128 -> (forall buf pos, cases m (Z.shiftr t 3) (Z.land t 7) buf pos = varintCase WireTypeVarint buf pos g) ->
  g (u64 v) = m' -> carries cases (putVarint (u64 v) ;; putByte t)%writer (1 + Sov (u64 v)) m m'.
Proof.
  intros Ht C <-. eapply carries_tag1; [done|apply emits_varint, u64_range|].
  eapply parses_varint; [done|apply u64_range].
Qed.

Lemma carries_i64 t v g m m' :
  8 <= t < 128 -> (forall buf pos, cases m (Z.shiftr t 3) (Z.land t 7) buf pos = i64Case WireTypeI64 buf pos g) ->
  is_u64 v = true -> g v = m' -> carries cases (putFixed 8 v ;; putByte t)%writer 9 m m'.
Proof.
  intros Ht C Hv%in_range_iff <-. change 9 with (1 + Z.of_nat 8). eapply carries_tag1; [done|apply emits_fixed|].
  by eapply parses_i64.
Qed.

Lemma carries_i32 t v g m m' :
  8 <= t < 128 -> (forall buf pos, cases m (Z.shiftr t 3) (Z.land t 7) buf pos = i32Case WireTypeI32 buf pos g) ->
  is_u32 v = true -> g v = m' -> carries cases (putFixed 4 v ;; putByte t)%writer 5 m m'.
Proof.
  intros Ht C Hv%in_range_iff <-. change 5 with (1 + Z.of_nat 4). eapply carries_tag1; [done|apply emits_fixed|].
  by eapply parses_i32.
Qed.

(** A bool is written as one byte, which is a varint. *)
Lemma carries_bool t (b : bool) g m m' :
  8 <= t < 128 -> (forall buf pos, cases m (Z.shiftr t 3) (Z.land t 7) buf pos = varintCase WireTypeVarint buf pos g) ->
  g (if b then 1 else 0) = m' -> carries cases (putByte (if b then 1 else 0) ;; putByte t)%writer 2 m m'.
Proof.
  intros Ht C <-. change 2 with (1 + 1). eapply carries_tag1; [done|apply emits_byte|].
  replace ([if b then 1 else 0] : bytes) with (varint_bytes (if b then 1 else 0)) by (by destruct b).
  eapply parses_varint; [done|by destruct b].
Qed.
End fields.

Lemma ID_codec n err id : is_ID n id = true -> codec (ID_MarshalProto n id) (ID_SizeProto n id) (ID_UnmarshalProto n err) id.
Proof.
  unfold is_ID, ID_MarshalProto, ID_SizeProto, ID_UnmarshalProto, ID_IsEmpty. rewrite bool_decide_eq_true. intros Hn.
  case_bool_decide as E.
  - exists []. split; [|by intros _; rewrite decide_True, E]. split; [done|].
    intros pre old Ho _. destruct old; [done|unfold len in Ho; simpl in Ho; lia].
  - exists id. split.
    + split; [unfold len; lia|]. intros pre old Ho _. rewrite len_app.
      replace (len pre + len old - Z.of_nat n) with (len pre) by lia.
      pose proof (copy_at_middle pre old [] id) as C. rewrite !app_nil_r in C. rewrite C; [done|].
      rewrite Ho. unfold len. lia.
    + intros _. rewrite decide_False; [by rewrite decide_False by lia|]. intros Hz. apply E. subst n.
      destruct id; done.
Qed.

Lemma TraceID_codec id : is_ID traceIDSize id = true ->
  codec (TraceID_MarshalProto id) (TraceID_SizeProto id) TraceID_UnmarshalProto id.
Proof. apply ID_codec. Qed.

Lemma SpanID_codec id : is_ID spanIDSize id = true ->
  codec (SpanID_MarshalProto id) (SpanID_SizeProto id) SpanID_UnmarshalProto id.
Proof. apply ID_codec. Qed.

(** The fields of a message, the last one first; a loop needs its own step. *)
Ltac carry_field :=
  first [ eapply carries_string; [lia|reflexivity|reflexivity]
        | eapply carries_varint; [lia|reflexivity|reflexivity]
        | eapply carries_bool; [lia|reflexivity|reflexivity]
        | eapply carries_i64; [lia|reflexivity|eassumption|reflexivity]
        | eapply carries_i32; [lia|reflexivity|eassumption|reflexivity]
        | eapply carries_message; [lia|reflexivity|eauto with codec|reflexivity|reflexivity]
        | eapply carries_message2; [lia|lia|reflexivity|eauto with codec|reflexivity|reflexivity] ].

Create HintDb codec.

Lemma nonempty_nil s : nonempty s = false -> s = [].
Proof. unfold nonempty, len. rewrite Z.ltb_ge. destruct s; simpl; [done|lia]. Qed.

Lemma nonzero_0 z : nonzero z = false -> z = 0.
Proof. unfold nonzero. rewrite negb_false_iff. apply Z.eqb_eq. Qed.

(** An optional field whose value is the zero one is not written. *)
Ltac carry_when :=
  eapply carries_when; [intros _; carry_field|
    let E := fresh in intros E; first [apply nonempty_nil in E|apply nonzero_0 in E|idtac]; by rewrite ?E].

(** ** Unfolding the recursion *)

Lemma unmarshal_ext {M} (c1 c2 : switch M) buf m :
  (forall m f wt pos, c1 m f wt buf pos = c2 m f wt buf pos) -> unmarshal c1 buf m = unmarshal c2 buf m.
Proof.
  intros C. unfold unmarshal. generalize 0 as pos. revert m.
  induction (length buf) as [|fuel IH]; intros m pos; simpl; [done|]. case_decide; [|done].
  destruct (ConsumeTag buf pos) as [[[[f wt] p]|e]|]; [|done|done]. rewrite C.
  destruct (c2 m f wt buf p) as [[[m' p']|e]|]; [apply IH|done|done].
Qed.

Lemma consumeLoop_negative fuel buf pos : pos < 0 -> consumeLoop fuel buf pos 0 0 = None.
Proof.
  intros Hp. assert (0 < 64) by lia. destruct fuel; cbn [consumeLoop]; rewrite !decide_False by (unfold len; lia);
    unfold load; by rewrite decide_False by lia.
Qed.

(** What a length-delimited field holds is shorter than its message. *)
Lemma lenCase_ext {M} wt buf pos (g1 g2 : bytes -> option (M + error)) :
  len buf < 2 ^ 63 -> (forall s, len s < len buf -> g1 s = g2 s) -> lenCase wt buf pos g1 = lenCase wt buf pos g2.
Proof.
  intros Hb G. unfold lenCase. case_decide; [done|].
  destruct (ConsumeLen buf pos) as [[[n p]|e]|] eqn:E; [|done|done].
  destruct (slice buf (p - n) p) as [s|] eqn:Es; [|done]. rewrite G; [done|].
  assert (0 <= pos) as Hp.
  { destruct (decide (0 <= pos)); [done|]. unfold ConsumeLen, ConsumeVarint in E.
    by rewrite consumeLoop_negative in E by lia. }
  destruct (ConsumeLen_safe buf pos Hb Hp) as (r & E' & Hr). rewrite E in E'. injection E' as <-.
  destruct (Hr n p eq_refl) as (Hn & Hpos & Hpl). unfold slice in Es. case_decide; [|done]. injection Es as <-.
  unfold len in *. rewrite length_take, length_drop. lia.
Qed.

(** The cases of a switch, where the two sides differ. *)
Ltac on_field f :=
  destruct f as [|f|f]; try reflexivity; repeat (destruct f as [f|f|]; try reflexivity).

(** One level of AnyValue's UnmarshalProto, given the next. *)
Definition level (u : bytes -> AnyValue -> option (AnyValue + error)) : switch AnyValue :=
  AnyValue_cases
    (fun s => unmarshal (ArrayValue_cases u) s zeroArrayValue)
    (fun s => unmarshal (KeyValueList_cases (fun s => unmarshal (KeyValue_cases u) s zeroKeyValue)) s zeroKeyValueList).

Lemma level_ext u1 u2 buf v :
  len buf < 2 ^ 63 -> (forall s v, len s < len buf -> u1 s v = u2 s v) ->
  unmarshal (level u1) buf v = unmarshal (level u2) buf v.
Proof.
  intros Hb F. apply unmarshal_ext. intros m f wt pos. unfold level, AnyValue_cases. on_field f.
  - apply lenCase_ext; [done|]. intros s Hs. f_equal. apply unmarshal_ext. clear m wt pos. intros [vs] f wt pos.
    unfold ArrayValue_cases. on_field f. apply lenCase_ext; [lia|]. intros s' Hs'. f_equal. apply F. lia.
  - apply lenCase_ext; [done|]. intros s Hs. f_equal. apply unmarshal_ext. clear m wt pos. intros [kvs] f wt pos.
    unfold KeyValueList_cases. on_field f. apply lenCase_ext; [lia|]. intros s' Hs'. f_equal.
    apply unmarshal_ext. clear wt pos. intros [v' k' i'] f wt pos. unfold KeyValue_cases. on_field f.
    apply lenCase_ext; [lia|]. intros s'' Hs''. f_equal. apply F. lia.
Qed.

(** UnmarshalProto does not depend on the fuel. *)
Lemma unmarshalAnyValue_fuel n k buf v :
  len buf < 2 ^ 63 -> (length buf < n)%nat -> (length buf < k)%nat -> unmarshalAnyValue n buf v = unmarshalAnyValue k buf v.
Proof.
  revert k buf v. induction n as [|n IH]; intros [|k] buf v Hb Hn Hk; try lia. cbn [unmarshalAnyValue].
  apply level_ext; [done|]. intros s w Hs. apply IH; unfold len in *; lia.
Qed.

Lemma AnyValue_UnmarshalProto_eq buf v :
  len buf < 2 ^ 63 -> AnyValue_UnmarshalProto buf v = unmarshal (level AnyValue_UnmarshalProto) buf v.
Proof.
  intros Hb. unfold AnyValue_UnmarshalProto at 1. cbn [unmarshalAnyValue]. apply level_ext; [done|].
  intros s w Hs. apply unmarshalAnyValue_fuel; unfold len in *; lia.
Qed.

(** ** Round trips *)

(** Induction on a value and the messages that hold values. *)
Section induction.
Context (P : AnyValue -> Prop) (PA : ArrayValue -> Prop) (PK : KeyValue -> Prop) (PL : KeyValueList -> Prop).
Context (Hleaf : forall v, match v with
                           | AnyValue_ArrayValue (Some a) => PA a -> P v
                           | AnyValue_KvlistValue (Some l) => PL l -> P v
                           | _ => P v
                           end).
Context (HA : forall vs, Forall P vs -> PA (mkArrayValue vs)).
Context (HK : forall v k i, P v -> PK (mkKeyValue v k i)).
Context (HL : forall kvs, Forall PK kvs -> PL (mkKeyValueList kvs)).

Fixpoint AnyValue_induct (v : AnyValue) : P v :=
  match v as v return (match v with
                       | AnyValue_ArrayValue (Some a) => PA a -> P v
                       | AnyValue_KvlistValue (Some l) => PL l -> P v
                       | _ => P v
                       end) -> P v with
  | AnyValue_ArrayValue (Some a) => fun H => H (ArrayValue_induct a)
  | AnyValue_KvlistValue (Some l) => fun H => H (KeyValueList_induct l)
  | _ => fun H => H
  end (Hleaf v)
with ArrayValue_induct (a : ArrayValue) : PA a :=
  match a with
  | mkArrayValue vs =>
      HA vs ((fix go l := match l return Forall P l with
                          | [] => List.Forall_nil _
                          | v :: l => List.Forall_cons P v l (AnyValue_induct v) (go l)
                          end) vs)
  end
with KeyValue_induct (kv : KeyValue) : PK kv :=
  match kv with mkKeyValue v k i => HK v k i (AnyValue_induct v) end
with KeyValueList_induct (l : KeyValueList) : PL l :=
  match l with
  | mkKeyValueList kvs =>
      HL kvs ((fix go l := match l return Forall PK l with
                           | [] => List.Forall_nil _
                           | kv :: l => List.Forall_cons PK kv l (KeyValue_induct kv) (go l)
                           end) kvs)
  end.
End induction.

Definition AnyValue_codes (v : AnyValue) : Prop :=
  AnyValue_ok v = true ->
  codec (AnyValue_MarshalProto v) (AnyValue_SizeProto v) (fun s => AnyValue_UnmarshalProto s AnyValue_nil) v.
Definition ArrayValue_codes (a : ArrayValue) : Prop :=
  ArrayValue_ok a = true ->
  codec (ArrayValue_MarshalProto a) (ArrayValue_SizeProto a) (fun s => ArrayValue_UnmarshalProto s zeroArrayValue) a.
Definition KeyValue_codes (kv : KeyValue) : Prop :=
  KeyValue_ok kv = true ->
  codec (KeyValue_MarshalProto kv) (KeyValue_SizeProto kv) (fun s => KeyValue_UnmarshalProto s zeroKeyValue) kv.
Definition KeyValueList_codes (l : KeyValueList) : Prop :=
  KeyValueList_ok l = true ->
  codec (KeyValueList_MarshalProto l) (KeyValueList_SizeProto l)
    (fun s => KeyValueList_UnmarshalProto s zeroKeyValueList) l.

Lemma codec_ext {M} mp n (u1 u2 : bytes -> option (M + error)) m :
  (forall s, len s < 2 ^ 63 -> u1 s = u2 s) -> codec mp n u1 m -> codec mp n u2 m.
Proof. intros E (bs & Mb & U). exists bs. split; [done|]. intros Hb. rewrite <- E by done. by apply U. Qed.

Lemma AnyValue_leaf v :
  match v with
  | AnyValue_ArrayValue (Some a) => ArrayValue_codes a -> AnyValue_codes v
  | AnyValue_KvlistValue (Some l) => KeyValueList_codes l -> AnyValue_codes v
  | _ => AnyValue_codes v
  end.
Proof.
  destruct v as [|s|b|z|bits|[a|]|[l|]|s|z]; 
    (lazymatch goal with |- AnyValue_codes _ => idtac | _ => intros H end); intros Hok; simpl in Hok; try done;
    (eapply codec_ext; [intros s' Hs'; symmetry; by apply AnyValue_UnmarshalProto_eq|]);
    cbn [AnyValue_MarshalProto AnyValue_SizeProto]; (eapply carries_codec; [|reflexivity]).
  - apply carries_nothing.
  - carry_field.
  - eapply carries_bool; [lia|reflexivity|by destruct b].
  - eapply carries_varint; [lia|reflexivity|]. simpl. by rewrite i64_u64.
  - carry_field.
  - specialize (H Hok). eapply carries_message; [lia|reflexivity|exact H|reflexivity|reflexivity].
  - specialize (H Hok). eapply carries_message; [lia|reflexivity|exact H|reflexivity|reflexivity].
  - carry_field.
  - eapply carries_varint; [lia|reflexivity|]. simpl. by rewrite i32_u64.
Qed.

(** A repeated message field: its elements are appended to those that were read before. *)
Lemma carries_more_messages {M N} (cases : switch M) t (mp : N -> bytes -> option (bytes * Z)) (size : N -> Z)
    (um : bytes -> option (N + error)) (set : list N -> M) g l acc :
  8 <= t < 128 ->
  (forall acc buf pos, cases (set acc) (Z.shiftr t 3) (Z.land t 7) buf pos = lenCase WireTypeLen buf pos (g acc)) ->
  (forall acc s, g acc s = sets_message (fun x => set (acc ++ [x])) (um s)) ->
  Forall (fun x => codec (mp x) (size x) um x) l ->
  carries cases (backwards (fun x => putMessage (mp x) ;; putByte t) l)%writer
    (sum_of (fun x => 1 + lengthPrefixed (size x)) l) (set acc) (set (acc ++ l)).
Proof.
  intros Ht C G F. apply carries_list. intros x acc' Hx.
  eapply (carries_message cases t (mp x) (size x) um x); [done|apply C| |apply G|done].
  rewrite Forall_forall in F. by apply F.
Qed.

Lemma carries_messages {M N} (cases : switch M) t (mp : N -> bytes -> option (bytes * Z)) (size : N -> Z)
    (um : bytes -> option (N + error)) (set : list N -> M) g l :
  8 <= t < 128 ->
  (forall acc buf pos, cases (set acc) (Z.shiftr t 3) (Z.land t 7) buf pos = lenCase WireTypeLen buf pos (g acc)) ->
  (forall acc s, g acc s = sets_message (fun x => set (acc ++ [x])) (um s)) ->
  Forall (fun x => codec (mp x) (size x) um x) l ->
  carries cases (backwards (fun x => putMessage (mp x) ;; putByte t) l)%writer
    (sum_of (fun x => 1 + lengthPrefixed (size x)) l) (set []) (set l).
Proof. intros. by eapply (carries_more_messages cases t mp size um set g l []). Qed.

Lemma Forall_ok {A} (ok : A -> bool) (P : A -> Prop) l :
  Forall (fun x => ok x = true -> P x) l -> forallb ok l = true -> Forall P l.
Proof. induction 1 as [|x l Hx _ IH]; simpl; [done|]. intros [H1 H2]%andb_true_iff. eauto. Qed.

Lemma carries_messages2 {M N} (cases : switch M) hi lo (mp : N -> bytes -> option (bytes * Z)) (size : N -> Z)
    (um : bytes -> option (N + error)) (set : list N -> M) g l :
  0 < hi < 128 -> 128 <= lo < 256 ->
  (forall acc buf pos, cases (set acc) (Z.shiftr (hi * 128 + (lo - 128)) 3) (Z.land (hi * 128 + (lo - 128)) 7) buf pos =
     lenCase WireTypeLen buf pos (g acc)) ->
  (forall acc s, g acc s = sets_message (fun x => set (acc ++ [x])) (um s)) ->
  Forall (fun x => codec (mp x) (size x) um x) l ->
  carries cases (backwards (fun x => putMessage (mp x) ;; putByte hi ;; putByte lo) l)%writer
    (sum_of (fun x => 2 + lengthPrefixed (size x)) l) (set []) (set l).
Proof.
  intros Hh Hl C G F. apply (carries_list cases _ _ set l []). intros x acc Hx.
  eapply (carries_message2 cases hi lo (mp x) (size x) um x); [done|done|apply C| |apply G|done].
  rewrite Forall_forall in F. by apply F.
Qed.

(** A repeated string field. *)
Lemma carries_strings {M} (cases : switch M) t (set : list bytes -> M) g l :
  8 <= t < 128 ->
  (forall acc buf pos, cases (set acc) (Z.shiftr t 3) (Z.land t 7) buf pos = lenCase WireTypeLen buf pos (g acc)) ->
  (forall acc s, g acc s = sets (set (acc ++ [s]))) ->
  carries cases (backwards (fun s => putString s ;; putByte t) l)%writer
    (sum_of (fun s => 1 + lengthPrefixed (len s)) l) (set []) (set l).
Proof.
  intros Ht C G. apply (carries_list cases _ _ set l []). intros s acc _.
  eapply carries_string; [done|apply C|apply G].
Qed.

Lemma ArrayValue_step vs : Forall AnyValue_codes vs -> ArrayValue_codes (mkArrayValue vs).
Proof.
  intros F Hok. eapply carries_codec; [|reflexivity].
  eapply (carries_messages _ 0xa AnyValue_MarshalProto AnyValue_SizeProto _ mkArrayValue);
    [lia|reflexivity|reflexivity|]. by eapply Forall_ok.
Qed.

Lemma KeyValue_step v k i : AnyValue_codes v -> KeyValue_codes (mkKeyValue v k i).
Proof.
  intros V [Hv Hi]%andb_true_iff. specialize (V Hv). eapply carries_codec.
  - eapply carries_then; [eapply carries_then|].
    + eapply carries_when with (m' := mkKeyValue AnyValue_nil [] i); [|intros E%nonzero_0; by rewrite E].
      intros _. eapply carries_varint; [lia|reflexivity|]. simpl. by rewrite i32_u64.
    + eapply carries_message; [lia|reflexivity|exact V|reflexivity|reflexivity].
    + carry_when.
  - simpl. lia.
Qed.

Lemma KeyValueList_step kvs : Forall KeyValue_codes kvs -> KeyValueList_codes (mkKeyValueList kvs).
Proof.
  intros F Hok. eapply carries_codec; [|reflexivity].
  eapply (carries_messages _ 0xa KeyValue_MarshalProto KeyValue_SizeProto _ mkKeyValueList);
    [lia|reflexivity|reflexivity|]. by eapply Forall_ok.
Qed.

Lemma AnyValue_codec v : AnyValue_codes v.
Proof. exact (AnyValue_induct _ _ _ _ AnyValue_leaf ArrayValue_step KeyValue_step KeyValueList_step v). Qed.

Lemma KeyValue_codec kv : KeyValue_codes kv.
Proof. destruct kv as [v k i]. apply KeyValue_step, AnyValue_codec. Qed.

Lemma KeyValues_codec kvs : forallb KeyValue_ok kvs = true ->
  Forall (fun kv => codec (KeyValue_MarshalProto kv) (KeyValue_SizeProto kv)
                      (fun s => KeyValue_UnmarshalProto s zeroKeyValue) kv) kvs.
Proof. apply Forall_ok, Forall_true. apply KeyValue_codec. Qed.

#[export] Hint Resolve KeyValues_codec : codec.

(** ** Optional fields, by what sets them *)

Section optional.
Context {M : Type} (cases : switch M).

Lemma carries_opt_string t s (set : bytes -> M) :
  8 <= t < 128 ->
  (forall buf pos, cases (set []) (Z.shiftr t 3) (Z.land t 7) buf pos =
     lenCase WireTypeLen buf pos (fun s => sets (set s))) ->
  carries cases (when (nonempty s) (putString s ;; putByte t)%writer)
    (size_if (nonempty s) (1 + lengthPrefixed (len s))) (set []) (set s).
Proof.
  intros Ht C. eapply carries_when; [|intros ->%nonempty_nil; done].
  intros _. by eapply carries_string.
Qed.

(** A []byte is only assigned when it is not empty. *)
Lemma carries_opt_bytes t s (set : bytes -> M) :
  8 <= t < 128 ->
  (forall buf pos, cases (set []) (Z.shiftr t 3) (Z.land t 7) buf pos =
     lenCase WireTypeLen buf pos (fun s => sets (if decide (len s <> 0) then set s else set []))) ->
  carries cases (when (nonempty s) (putString s ;; putByte t)%writer)
    (size_if (nonempty s) (1 + lengthPrefixed (len s))) (set []) (set s).
Proof.
  intros Ht C. eapply carries_when; [|intros ->%nonempty_nil; done].
  intros Hs%Z.ltb_lt. eapply carries_string; [done|exact C|]. cbv beta. by rewrite decide_True by lia.
Qed.

Lemma carries_opt_bool t b (set : bool -> M) :
  8 <= t < 128 ->
  (forall buf pos, cases (set false) (Z.shiftr t 3) (Z.land t 7) buf pos =
     varintCase WireTypeVarint buf pos (fun num => set (nonzero num))) ->
  carries cases (when b (putByte (if b then 1 else 0) ;; putByte t)%writer) (size_if b 2) (set false) (set b).
Proof.
  intros Ht C. eapply carries_when; [|by intros ->].
  intros ->. by eapply (carries_bool cases t true).
Qed.

Lemma carries_opt_varint t v (conv : Z -> Z) (set : Z -> M) :
  8 <= t < 128 ->
  (forall buf pos, cases (set 0) (Z.shiftr t 3) (Z.land t 7) buf pos =
     varintCase WireTypeVarint buf pos (fun num => set (conv num))) ->
  conv (u64 v) = v ->
  carries cases (when (nonzero v) (putVarint (u64 v) ;; putByte t)%writer)
    (size_if (nonzero v) (1 + Sov (u64 v))) (set 0) (set v).
Proof.
  intros Ht C Hv. eapply carries_when; [|intros ->%nonzero_0; done].
  intros _. eapply carries_varint; [done|done|]. simpl. by rewrite Hv.
Qed.

Lemma carries_opt_i64 t v (set : Z -> M) :
  8 <= t < 128 ->
  (forall buf pos, cases (set 0) (Z.shiftr t 3) (Z.land t 7) buf pos = i64Case WireTypeI64 buf pos set) ->
  is_u64 v = true ->
  carries cases (when (nonzero v) (putFixed 8 v ;; putByte t)%writer) (size_if (nonzero v) 9) (set 0) (set v).
Proof.
  intros Ht C Hv. eapply carries_when; [|intros ->%nonzero_0; done].
  intros _. by eapply carries_i64.
Qed.

Lemma carries_opt_i32 t v (set : Z -> M) :
  8 <= t < 128 ->
  (forall buf pos, cases (set 0) (Z.shiftr t 3) (Z.land t 7) buf pos = i32Case WireTypeI32 buf pos set) ->
  is_u32 v = true ->
  carries cases (when (nonzero v) (putFixed 4 v ;; putByte t)%writer) (size_if (nonzero v) 5) (set 0) (set v).
Proof.
  intros Ht C Hv. eapply carries_when; [|intros ->%nonzero_0; done].
  intros _. by eapply carries_i32.
Qed.

Lemma carries_opt_i32_2 hi lo v (set : Z -> M) :
  0 < hi < 128 -> 128 <= lo < 256 ->
  (forall buf pos, cases (set 0) (Z.shiftr (hi * 128 + (lo - 128)) 3) (Z.land (hi * 128 + (lo - 128)) 7) buf pos =
     i32Case WireTypeI32 buf pos set) ->
  is_u32 v = true ->
  carries cases (when (nonzero v) (putFixed 4 v ;; putByte hi ;; putByte lo)%writer) (size_if (nonzero v) 6) (set 0) (set v).
Proof.
  intros Hh Hl C Hv. eapply carries_when; [|intros ->%nonzero_0; done]. intros _.
  apply in_range_iff in Hv. change 6 with (2 + Z.of_nat 4). eapply carries_tag2; [done|done|apply emits_fixed|].
  by eapply parses_i32.
Qed.

Lemma carries_double t v (set : Z -> M) :
  8 <= t < 128 ->
  (forall buf pos, cases (set 0) (Z.shiftr t 3) (Z.land t 7) buf pos = i64Case WireTypeI64 buf pos set) ->
  plain_double v = true ->
  carries cases (when (double_nonzero v) (putFixed 8 v ;; putByte t)%writer) (size_if (double_nonzero v) 9) (set 0) (set v).
Proof.
  intros Ht C [Hv Hz]%andb_true_iff. unfold double_nonzero. eapply carries_when.
  - intros _. by eapply carries_i64.
  - rewrite Hz, andb_true_r. by intros ->%nonzero_0.
Qed.

Lemma carries_some_i64 t (x : option Z) (set : option Z -> M) :
  8 <= t < 128 ->
  (forall buf pos, cases (set None) (Z.shiftr t 3) (Z.land t 7) buf pos =
     i64Case WireTypeI64 buf pos (fun num => set (Some num))) ->
  option_ok is_u64 x = true ->
  carries cases (when_some x (fun v => putFixed 8 v ;; putByte t)%writer) (size_some x 9) (set None) (set x).
Proof.
  intros Ht C Hx. destruct x as [v|]; [|apply carries_nothing].
  by eapply (carries_i64 cases t v (fun num => set (Some num))).
Qed.

(** A signed fixed integer in a oneof. *)
Lemma carries_si64 t v m (set : Z -> M) :
  8 <= t < 128 ->
  (forall buf pos, cases m (Z.shiftr t 3) (Z.land t 7) buf pos = i64Case WireTypeI64 buf pos (fun num => set (i64 num))) ->
  is_i64 v = true -> carries cases (putFixed 8 (u64 v) ;; putByte t)%writer 9 m (set v).
Proof.
  intros Ht C Hv. eapply (carries_i64 cases t (u64 v)); [done|exact C| |cbv beta; by rewrite i64_u64].
  apply in_range_iff, u64_range.
Qed.

Lemma carries_zigzag t v (set : Z -> M) :
  8 <= t < 128 ->
  (forall buf pos, cases (set 0) (Z.shiftr t 3) (Z.land t 7) buf pos =
     varintCase WireTypeVarint buf pos (fun num => set (unzigzag32 num))) ->
  is_i32 v = true ->
  carries cases (when (nonzero v) (putVarint (zigzag32 v) ;; putByte t)%writer)
    (size_if (nonzero v) (1 + Soz (u64 v))) (set 0) (set v).
Proof.
  intros Ht C Hv%in_range_iff. eapply carries_when; [|intros ->%nonzero_0; done]. intros _.
  pose proof (zigzag_range v Hv). rewrite zigzag32_eq, Soz_zigzag by done.
  eapply carries_tag1; [done|apply emits_varint; lia|].
  rewrite <- (unzigzag_zigzag v Hv) at 2. eapply (parses_varint cases _ _ _ (fun num => set (unzigzag32 num))); [done|lia].
Qed.

Lemma forallb_u64 l : Forall (fun v => 0 <= v < 2 ^ 64) l <-> forallb is_u64 l = true.
Proof.
  rewrite forallb_forall, List.Forall_forall. split; intros F x Hx; apply in_range_iff, (F x Hx).
Qed.

Lemma carries_fixeds t l (set : list Z -> M) :
  8 <= t < 128 -> Z.land t 7 = WireTypeLen ->
  (forall buf pos, cases (set []) (Z.shiftr t 3) WireTypeLen buf pos = fixedsCase WireTypeLen buf pos [] set) ->
  forallb is_u64 l = true ->
  carries cases (when (nonempty l) (putPackedFixed l ;; putByte t)%writer)
    (size_if (nonempty l) (1 + lengthPrefixed (len l * 8))) (set []) (set l).
Proof.
  intros Ht Hw C Hl%forallb_u64. eapply carries_when; [|intros ->%nonempty_nil; done]. intros _.
  eapply carries_tag1; [done|apply emits_packedFixed|]. rewrite Hw. by eapply parses_fixeds.
Qed.

Lemma carries_varints t l (set : list Z -> M) :
  8 <= t < 128 -> Z.land t 7 = WireTypeLen ->
  (forall buf pos, cases (set []) (Z.shiftr t 3) WireTypeLen buf pos = varintsCase WireTypeLen buf pos [] set) ->
  forallb is_u64 l = true ->
  carries cases (when (nonempty l) (putPackedVarint l ;; putByte t)%writer)
    (size_if (nonempty l) (1 + lengthPrefixed (sum_of Sov l))) (set []) (set l).
Proof.
  intros Ht Hw C Hl%forallb_u64. eapply carries_when; [|intros ->%nonempty_nil; done]. intros _.
  eapply carries_tag1; [done|by apply emits_packedVarint|]. rewrite Hw. by eapply (parses_varints cases _ l []).
Qed.

(** A message that is always written. *)
Lemma carries_sub {N} t mp n um x0 (x : N) (set : N -> M) g :
  8 <= t < 128 ->
  (forall buf pos, cases (set x0) (Z.shiftr t 3) (Z.land t 7) buf pos = lenCase WireTypeLen buf pos g) ->
  (forall s, g s = sets_message set (um s)) -> codec mp n um x ->
  carries cases (putMessage mp ;; putByte t)%writer (1 + lengthPrefixed n) (set x0) (set x).
Proof. intros Ht C G X. by eapply carries_message. Qed.
(** A pointer to a message, which nil does not write. *)
Lemma carries_ptr {N} t (mp : N -> bytes -> option (bytes * Z)) (size : N -> Z) um (x : option N) (set : option N -> M) g :
  8 <= t < 128 ->
  (forall buf pos, cases (set None) (Z.shiftr t 3) (Z.land t 7) buf pos = lenCase WireTypeLen buf pos g) ->
  (forall s, g s = sets_message (fun x => set (Some x)) (um s)) ->
  (forall y, x = Some y -> codec (mp y) (size y) um y) ->
  carries cases (match x with Some y => putMessage (mp y) ;; putByte t | None => nothing end)%writer
    (match x with Some y => 1 + lengthPrefixed (size y) | None => 0 end) (set None) (set x).
Proof.
  intros Ht C G X. destruct x as [y|]; [|apply carries_nothing].
  eapply (carries_message cases t (mp y) (size y) um y); [done|exact C|by apply X|exact G|done].
Qed.
End optional.

(** The composition of the fields of a message: the last one comes first. *)
Ltac fields n :=
  lazymatch n with
  | O => idtac
  | S ?n => eapply carries_then; [fields n|]
  end.

(** The size of a oneof, which the alternatives share. *)
Ltac oneof size v := lazymatch goal with |- carries _ _ ?n _ _ => unify n (size v) end.

Lemma EntityRef_codec e :
  codec (EntityRef_MarshalProto e) (EntityRef_SizeProto e) (fun s => EntityRef_UnmarshalProto s zeroEntityRef) e.
Proof.
  destruct e as [url ty ids descs]. eapply carries_codec.
  - fields 3%nat.
    + eapply (carries_strings _ 0x22 (fun l => mkEntityRef [] [] [] l) _ descs); [lia|reflexivity|reflexivity].
    + eapply (carries_strings _ 0x1a (fun l => mkEntityRef [] [] l descs) _ ids); [lia|reflexivity|reflexivity].
    + apply (carries_opt_string _ 0x12 ty (fun s => mkEntityRef [] s ids descs)); [lia|reflexivity].
    + apply (carries_opt_string _ 0xa url (fun s => mkEntityRef s ty ids descs)); [lia|reflexivity].
  - unfold EntityRef_SizeProto. simpl. lia.
Qed.

Lemma Resource_codec r : Resource_ok r = true ->
  codec (Resource_MarshalProto r) (Resource_SizeProto r) (fun s => Resource_UnmarshalProto s zeroResource) r.
Proof.
  destruct r as [attrs refs dropped]. intros [Ha Hd]%andb_true_iff. simpl in *. eapply carries_codec.
  - fields 2%nat.
    + eapply (carries_messages _ 0x1a EntityRef_MarshalProto EntityRef_SizeProto _ (fun l => mkResource [] l 0));
        [lia|reflexivity|reflexivity|]. apply Forall_true, EntityRef_codec.
    + eapply (carries_opt_varint _ 0x10 dropped u32 (fun d => mkResource [] refs d)); [lia|reflexivity|by apply u32_u64].
    + eapply (carries_messages _ 0xa KeyValue_MarshalProto KeyValue_SizeProto _ (fun l => mkResource l refs dropped));
        [lia|reflexivity|reflexivity|]. by apply KeyValues_codec.
  - unfold Resource_SizeProto. simpl. lia.
Qed.

Lemma InstrumentationScope_codec x : InstrumentationScope_ok x = true ->
  codec (InstrumentationScope_MarshalProto x) (InstrumentationScope_SizeProto x)
    (fun s => InstrumentationScope_UnmarshalProto s zeroInstrumentationScope) x.
Proof.
  destruct x as [name version attrs dropped]. intros [Ha Hd]%andb_true_iff. simpl in *. eapply carries_codec.
  - fields 3%nat.
    + eapply (carries_opt_varint _ 0x20 dropped u32 (fun d => mkInstrumentationScope [] [] [] d));
        [lia|reflexivity|by apply u32_u64].
    + eapply (carries_messages _ 0x1a KeyValue_MarshalProto KeyValue_SizeProto _
               (fun l => mkInstrumentationScope [] [] l dropped));
        [lia|reflexivity|reflexivity|]. by apply KeyValues_codec.
    + apply (carries_opt_string _ 0x12 version (fun s => mkInstrumentationScope [] s attrs dropped)); [lia|reflexivity].
    + apply (carries_opt_string _ 0xa name (fun s => mkInstrumentationScope s version attrs dropped)); [lia|reflexivity].
  - unfold InstrumentationScope_SizeProto. simpl. lia.
Qed.

(** ** Safety *)

Lemma i64_is v : is_i64 (i64 v) = true.
Proof. apply in_range_iff, i64_range. Qed.

Lemma i32_is v : is_i32 (i32 v) = true.
Proof. apply in_range_iff. unfold i32. pose proof (Z.mod_pos_bound (v + 2 ^ 31) (2 ^ 32)). lia. Qed.

Lemma u32_is v : is_u32 (u32 v) = true.
Proof. apply in_range_iff. unfold u32. pose proof (Z.mod_pos_bound v (2 ^ 32)). lia. Qed.

Lemma u64_fits v : 0 <= v < 2 ^ 64 -> is_u64 v = true.
Proof. apply in_range_iff. Qed.

Lemma u32_fits v : 0 <= v < 2 ^ 32 -> is_u32 v = true.
Proof. apply in_range_iff. Qed.

Lemma forallb_snoc {A} (ok : A -> bool) l x : forallb ok l = true -> ok x = true -> forallb ok (l ++ [x]) = true.
Proof. intros Hl Hx. by rewrite forallb_app, Hl, andb_true_l; simpl; rewrite Hx. Qed.

Lemma unzigzag32_is v : is_i32 (unzigzag32 v) = true.
Proof. apply i32_is. Qed.

Lemma u64s_fit l : Forall (fun v => 0 <= v < 2 ^ 64) l -> forallb is_u64 l = true.
Proof. apply forallb_u64. Qed.

Lemma u64s_range l : forallb is_u64 l = true -> Forall (fun v => 0 <= v < 2 ^ 64) l.
Proof. apply forallb_u64. Qed.

#[export] Hint Resolve i64_is i32_is u32_is u64_fits u32_fits unzigzag32_is u64s_fit forallb_snoc : codec.

(** Every case of a switch is of a kind that does no harm. *)
Ltac case_kind :=
  first [ apply unknownCase_ok; [assumption|assumption|assumption]
        | apply lenCase_ok; [assumption|assumption|assumption|intros ? ? ?]
        | apply varintCase_ok; [assumption|assumption|intros ? ?]
        | apply i64Case_ok; [assumption|assumption|assumption|intros ? ?]
        | apply i32Case_ok; [assumption|assumption|assumption|intros ? ?]
        | apply fixedsCase_ok; [assumption|assumption|assumption| |intros ? ?]
        | apply varintsCase_ok; [assumption|assumption|assumption| |intros ? ?] ].

Ltac each_case f :=
  destruct f as [|f|f]; try (case_kind; fail); repeat (destruct f as [f|f|]; try (case_kind; fail)); case_kind.

Definition is_ok {M} (ok : M -> bool) (m : M) : Prop := ok m = true.

(** What the fields below hold is read safely when it is shorter than [n]. *)
Definition reads_ok {M} (ok : M -> bool) (n : Z) (u : bytes -> M -> option (M + error)) : Prop :=
  forall s m, bytes_ok s -> len s < n -> is_ok ok m -> outcome_ok (is_ok ok) (u s m).

Lemma ArrayValue_cases_ok u n : reads_ok AnyValue_ok n u -> cases_ok (is_ok ArrayValue_ok) n (ArrayValue_cases u).
Proof.
  intros U [vs] f wt buf pos Hv Hb1 Hb2 Hn Hp. unfold ArrayValue_cases. each_case f.
  eapply sets_message_ok; [apply U; [done|lia|done]|]. intros v' Hv'. by apply forallb_snoc.
Qed.

Lemma KeyValue_cases_ok u n : reads_ok AnyValue_ok n u -> cases_ok (is_ok KeyValue_ok) n (KeyValue_cases u).
Proof.
  intros U [v k i] f wt buf pos Hv Hb1 Hb2 Hn Hp. pose proof Hv as [Hv1 Hv2]%andb_true_iff.
  unfold KeyValue_cases. each_case f.
  - apply andb_true_iff. eauto with codec.
  - eapply sets_message_ok; [apply U; [done|lia|done]|]. intros v' Hv'. by apply andb_true_iff.
  - by apply sets_ok.
Qed.

Lemma KeyValueList_cases_ok u n :
  (forall s, bytes_ok s -> len s < n -> outcome_ok (is_ok KeyValue_ok) (u s)) ->
  cases_ok (is_ok KeyValueList_ok) n (KeyValueList_cases u).
Proof.
  intros U [kvs] f wt buf pos Hv Hb1 Hb2 Hn Hp. unfold KeyValueList_cases. each_case f.
  eapply sets_message_ok; [apply U; [done|lia]|]. intros v' Hv'. by apply forallb_snoc.
Qed.

Lemma level_ok u n : n < 2 ^ 63 -> reads_ok AnyValue_ok n u -> cases_ok (is_ok AnyValue_ok) n (level u).
Proof.
  intros Hn' U v f wt buf pos Hv Hb1 Hb2 Hn Hp. unfold level, AnyValue_cases.
  assert (forall k, k < n -> reads_ok AnyValue_ok k u) as U' by (intros k Hk s m Hs Hl; apply U; [done|lia]).
  each_case f; try (apply sets_ok; done); try done; try (apply i64_is); try (apply i32_is); try (by apply in_range_iff).
  - eapply sets_message_ok; [apply unmarshal_ok with (P := is_ok ArrayValue_ok); [|done|lia|done]|done].
    apply ArrayValue_cases_ok, U'. lia.
  - eapply sets_message_ok; [apply unmarshal_ok with (P := is_ok KeyValueList_ok); [|done|lia|done]|done].
    apply KeyValueList_cases_ok. intros s' Hs' Hl.
    apply unmarshal_ok; [|done|lia|done]. apply KeyValue_cases_ok, U'. lia.
Qed.

Lemma unmarshalAnyValue_ok fuel buf v :
  bytes_ok buf -> len buf < 2 ^ 63 -> (length buf < fuel)%nat -> is_ok AnyValue_ok v ->
  outcome_ok (is_ok AnyValue_ok) (unmarshalAnyValue fuel buf v).
Proof.
  revert buf v. induction fuel as [|fuel IH]; intros buf v Hok Hb Hf Hv; [lia|].
  cbn [unmarshalAnyValue]. apply unmarshal_ok; try done. apply level_ok; [done|].
  intros s m Hs Hl. apply IH; [done|lia|unfold len in *; lia].
Qed.

Lemma KeyValue_UnmarshalProto_ok s : bytes_ok s -> len s < 2 ^ 63 ->
  outcome_ok (is_ok KeyValue_ok) (KeyValue_UnmarshalProto s zeroKeyValue).
Proof.
  intros Hs Hl. apply unmarshal_ok; [|done|done|done]. apply KeyValue_cases_ok. intros s' m Hs' Hl' Hm.
  apply unmarshalAnyValue_ok; [done|lia|lia|done].
Qed.

Lemma AnyValue_nil_ok : is_ok AnyValue_ok AnyValue_nil.
Proof. done. Qed.

Lemma AnyValue_UnmarshalProto_ok s v : bytes_ok s -> len s < 2 ^ 63 -> is_ok AnyValue_ok v ->
  outcome_ok (is_ok AnyValue_ok) (AnyValue_UnmarshalProto s v).
Proof. intros. apply unmarshalAnyValue_ok; [done|done|lia|done]. Qed.

Lemma EntityRef_UnmarshalProto_ok s : bytes_ok s -> len s < 2 ^ 63 ->
  outcome_ok (fun _ => True) (EntityRef_UnmarshalProto s zeroEntityRef).
Proof.
  intros Hs Hl. apply unmarshal_ok; [|done|done|done].
  intros [url ty ids descs] f wt buf pos Hv Hb1 Hb2 Hn Hp. unfold EntityRef_cases. each_case f; by apply sets_ok.
Qed.

Lemma ID_UnmarshalProto_ok n err s : outcome_ok (is_ok (is_ID n)) (ID_UnmarshalProto n err s).
Proof.
  unfold ID_UnmarshalProto. repeat case_decide; try apply error_ok; apply sets_ok, bool_decide_eq_true.
  - apply length_replicate.
  - lia.
Qed.

Lemma TraceID_UnmarshalProto_ok s : outcome_ok (is_ok (is_ID traceIDSize)) (TraceID_UnmarshalProto s).
Proof. apply ID_UnmarshalProto_ok. Qed.

Lemma SpanID_UnmarshalProto_ok s : outcome_ok (is_ok (is_ID spanIDSize)) (SpanID_UnmarshalProto s).
Proof. apply ID_UnmarshalProto_ok. Qed.

#[export] Hint Resolve TraceID_UnmarshalProto_ok SpanID_UnmarshalProto_ok : codec.
#[export] Hint Resolve KeyValue_UnmarshalProto_ok EntityRef_UnmarshalProto_ok : codec.
#[export] Hint Resolve AnyValue_nil_ok AnyValue_UnmarshalProto_ok : codec.
#[export] Hint Extern 1 (len _ < 2 ^ 63) => lia : codec.

(** A case leaves every field in its range: the new one by its kind, the others as they were. *)
Ltac ranges Hv ok :=
  pose proof Hv as Hr; unfold is_ok, ok in Hr; cbn -[is_u32 is_u64 is_i64 is_i32] in Hr;
  rewrite ?andb_true_iff in Hr; destruct_and?.
Ltac in_its_range ok :=
  unfold is_ok, ok in *; cbn -[is_u32 is_u64 is_i64 is_i32] in *; rewrite ?andb_true_iff;
  repeat match goal with |- _ /\ _ => split end; eauto with codec.
Ltac case_value ok :=
  repeat case_decide;
  first [ by apply u64s_range
        | apply sets_ok; in_its_range ok; fail
        | eapply sets_message_ok; [solve [eauto with codec]|intros ? ?; in_its_range ok]; fail
        | in_its_range ok; fail ].

Lemma Resource_cases_ok n : cases_ok (is_ok Resource_ok) n Resource_cases.
Proof.
  intros [attrs refs dropped] f wt buf pos Hv Hb1 Hb2 Hn Hp. 
  unfold Resource_cases. each_case f; ranges Hv Resource_ok; case_value Resource_ok.
Qed.

Lemma InstrumentationScope_cases_ok n : cases_ok (is_ok InstrumentationScope_ok) n InstrumentationScope_cases.
Proof.
  intros [name version attrs dropped] f wt buf pos Hv Hb1 Hb2 Hn Hp. 
  unfold InstrumentationScope_cases. each_case f; ranges Hv InstrumentationScope_ok; case_value InstrumentationScope_ok.
Qed.

Lemma Resource_UnmarshalProto_ok s r : bytes_ok s -> len s < 2 ^ 63 -> is_ok Resource_ok r ->
  outcome_ok (is_ok Resource_ok) (Resource_UnmarshalProto s r).
Proof. intros. apply unmarshal_ok; [apply Resource_cases_ok|done|done|done]. Qed.

Lemma InstrumentationScope_UnmarshalProto_ok s x : bytes_ok s -> len s < 2 ^ 63 -> is_ok InstrumentationScope_ok x ->
  outcome_ok (is_ok InstrumentationScope_ok) (InstrumentationScope_UnmarshalProto s x).
Proof. intros. apply unmarshal_ok; [apply InstrumentationScope_cases_ok|done|done|done]. Qed.

#[export] Hint Resolve Resource_UnmarshalProto_ok InstrumentationScope_UnmarshalProto_ok : codec.

(** ** Requests: one repeated field *)

(** A buffer of the right size is filled. *)
Lemma marshals_buffer m n bs : marshals m n bs -> n < 2 ^ 63 -> m (replicate (Z.to_nat n) 0) = Some (bs, n).
Proof.
  intros [L E] Hn. pose proof (len_nonneg bs).
  assert (len (replicate (Z.to_nat n) 0) = n) as Hl by (unfold len; rewrite length_replicate; lia).
  specialize (E [] _ Hl). simpl in E. apply E. lia.
Qed.

(** What a request writes adds its elements to those that were read before it. *)
Lemma request_carries {M N} (cases : switch M) (mp : N -> bytes -> option (bytes * Z)) (size : N -> Z)
    (um : bytes -> option (N + error)) (set : list N -> M) g l acc :
  (forall acc buf pos, cases (set acc) 1 2 buf pos = lenCase WireTypeLen buf pos (g acc)) ->
  (forall acc s, g acc s = sets_message (fun x => set (acc ++ [x])) (um s)) ->
  Forall (fun x => codec (mp x) (size x) um x) l ->
  let n := sum_of (fun x => 1 + lengthPrefixed (size x)) l in
  let m := marshal (backwards (fun x => putMessage (mp x) ;; putByte 0xa) l)%writer in
  n < 2 ^ 63 ->
  exists buf, m (replicate (Z.to_nat n) 0) = Some (buf, n) /\ marshals m n buf /\ reads cases buf (set acc) (set (acc ++ l)).
Proof.
  intros C G F n m Hn.
  destruct (carries_more_messages cases 0xa mp size um set g l acc) as (buf & E & R); [lia|exact C|exact G|exact F|].
  apply emits_marshals in E. exists buf. split; [by apply marshals_buffer|by split].
Qed.

(** What a request writes is empty or starts with the tag of its elements. *)
Lemma request_head {N} (mp : N -> bytes -> option (bytes * Z)) (size : N -> Z) (um : bytes -> option (N + error)) l bs :
  Forall (fun x => codec (mp x) (size x) um x) l ->
  let n := sum_of (fun x => 1 + lengthPrefixed (size x)) l in
  marshals (marshal (backwards (fun x => putMessage (mp x) ;; putByte 0xa) l)%writer) n bs -> n < 2 ^ 63 ->
  bs = [] \/ exists rest, bs = 0xa :: rest.
Proof.
  intros F n M Hn.
  destruct (emits_backwards (fun x => putMessage (mp x)) (fun x => lengthPrefixed (size x)) 0xa l) as (bs' & E & Hh).
  { intros x Hx. rewrite Forall_forall in F. destruct (F x Hx) as (b & Mb & _). exists (prefixed b). by apply emits_message. }
  apply emits_marshals in E. by rewrite (marshals_unique _ _ _ _ M E Hn).
Qed.
