(* ===== verification/TracesProto.v ===== *)
(** * TracesProto: the messages of traces

    pdata/internal: Status, SpanEvent, SpanLink, Span, ScopeSpans, ResourceSpans,
    TracesData and ExportTraceServiceRequest (generated_proto_*.go), and the marshaler and
    unmarshaler of pdata/ptrace/pb.go.  A slice of pointers holds no nil. *)

From S2P Require Import Prelude.
From S2P Require Import GoErrors.
From S2P Require Import PData.
From S2P Require Import Storage.
From S2P Require Import ProtoWire.
From S2P Require Import ProtoMessage.
From S2P Require Import CommonProto.

(** ** Status *)

Record Status := mkStatus {
  Status_Message : bytes;
  Status_Code : Z;
}.

Definition zeroStatus : Status := mkStatus [] 0.

Definition Status_ok (x : Status) : bool :=
  is_i32 (Status_Code x).

Definition Status_SizeProto (orig : Status) : Z :=
  size_if (nonempty (Status_Message orig)) (1 + lengthPrefixed (len (Status_Message orig))) +
  size_if (nonzero (Status_Code orig)) (1 + Sov (u64 (Status_Code orig))).

Definition Status_MarshalProto (orig : Status) : bytes -> option (bytes * Z) :=
  marshal (
    when (nonempty (Status_Message orig)) (putString (Status_Message orig) ;; putByte 0x12) ;;
    when (nonzero (Status_Code orig)) (putVarint (u64 (Status_Code orig)) ;; putByte 0x18))%writer.

Definition Status_cases : switch Status := fun orig fieldNum wireType buf pos =>
  let '(mkStatus message code) := orig in
  match fieldNum with
  | 2 => lenCase wireType buf pos (fun s => sets (mkStatus s code))
  | 3 => varintCase wireType buf pos (fun num => mkStatus message (i32 num))
  | _ => unknownCase orig wireType buf pos
  end.

Definition Status_UnmarshalProto : bytes -> Status -> option (Status + error) := unmarshal Status_cases.

(** ** SpanEvent *)

Record SpanEvent := mkSpanEvent {
  SpanEvent_TimeUnixNano : Z;
  SpanEvent_Name : bytes;
  SpanEvent_Attributes : list KeyValue;
  SpanEvent_DroppedAttributesCount : Z;
}.

Definition zeroSpanEvent : SpanEvent := mkSpanEvent 0 [] [] 0.

Definition SpanEvent_ok (x : SpanEvent) : bool :=
  is_u64 (SpanEvent_TimeUnixNano x) &&
  forallb KeyValue_ok (SpanEvent_Attributes x) &&
  is_u32 (SpanEvent_DroppedAttributesCount x).

Definition SpanEvent_SizeProto (orig : SpanEvent) : Z :=
  size_if (nonzero (SpanEvent_TimeUnixNano orig)) 9 +
  size_if (nonempty (SpanEvent_Name orig)) (1 + lengthPrefixed (len (SpanEvent_Name orig))) +
  sum_of (fun x => 1 + lengthPrefixed (KeyValue_SizeProto x)) (SpanEvent_Attributes orig) +
  size_if (nonzero (SpanEvent_DroppedAttributesCount orig)) (1 + Sov (u64 (SpanEvent_DroppedAttributesCount orig))).

Definition SpanEvent_MarshalProto (orig : SpanEvent) : bytes -> option (bytes * Z) :=
  marshal (
    when (nonzero (SpanEvent_TimeUnixNano orig)) (putFixed 8 (SpanEvent_TimeUnixNano orig) ;; putByte 0x9) ;;
    when (nonempty (SpanEvent_Name orig)) (putString (SpanEvent_Name orig) ;; putByte 0x12) ;;
    backwards (fun x => putMessage (KeyValue_MarshalProto x) ;; putByte 0x1a) (SpanEvent_Attributes orig) ;;
    when (nonzero (SpanEvent_DroppedAttributesCount orig)) (putVarint (u64 (SpanEvent_DroppedAttributesCount orig))
      ;; putByte 0x20))%writer.

Definition SpanEvent_cases : switch SpanEvent := fun orig fieldNum wireType buf pos =>
  let '(mkSpanEvent time name attrs dropped) := orig in
  match fieldNum with
  | 1 => i64Case wireType buf pos (fun num => mkSpanEvent num name attrs dropped)
  | 2 => lenCase wireType buf pos (fun s => sets (mkSpanEvent time s attrs dropped))
  | 3 => lenCase wireType buf pos (fun s =>
           sets_message (fun x => mkSpanEvent time name (attrs ++ [x]) dropped) (KeyValue_UnmarshalProto s
             zeroKeyValue))
  | 4 => varintCase wireType buf pos (fun num => mkSpanEvent time name attrs (u32 num))
  | _ => unknownCase orig wireType buf pos
  end.

Definition SpanEvent_UnmarshalProto : bytes -> SpanEvent -> option (SpanEvent + error) := unmarshal SpanEvent_cases.

(** ** SpanLink *)

Record SpanLink := mkSpanLink {
  SpanLink_TraceId : bytes;
  SpanLink_SpanId : bytes;
  SpanLink_TraceState : bytes;
  SpanLink_Attributes : list KeyValue;
  SpanLink_DroppedAttributesCount : Z;
  SpanLink_Flags : Z;
}.

Definition zeroSpanLink : SpanLink := mkSpanLink (emptyID traceIDSize) (emptyID spanIDSize) [] [] 0 0.

Definition SpanLink_ok (x : SpanLink) : bool :=
  is_ID traceIDSize (SpanLink_TraceId x) &&
  is_ID spanIDSize (SpanLink_SpanId x) &&
  forallb KeyValue_ok (SpanLink_Attributes x) &&
  is_u32 (SpanLink_DroppedAttributesCount x) &&
  is_u32 (SpanLink_Flags x).

Definition SpanLink_SizeProto (orig : SpanLink) : Z :=
  (1 + lengthPrefixed (TraceID_SizeProto (SpanLink_TraceId orig))) +
  (1 + lengthPrefixed (SpanID_SizeProto (SpanLink_SpanId orig))) +
  size_if (nonempty (SpanLink_TraceState orig)) (1 + lengthPrefixed (len (SpanLink_TraceState orig))) +
  sum_of (fun x => 1 + lengthPrefixed (KeyValue_SizeProto x)) (SpanLink_Attributes orig) +
  size_if (nonzero (SpanLink_DroppedAttributesCount orig)) (1 + Sov (u64 (SpanLink_DroppedAttributesCount orig))) +
  size_if (nonzero (SpanLink_Flags orig)) 5.

Definition SpanLink_MarshalProto (orig : SpanLink) : bytes -> option (bytes * Z) :=
  marshal (
    (putMessage (TraceID_MarshalProto (SpanLink_TraceId orig)) ;; putByte 0xa) ;;
    (putMessage (SpanID_MarshalProto (SpanLink_SpanId orig)) ;; putByte 0x12) ;;
    when (nonempty (SpanLink_TraceState orig)) (putString (SpanLink_TraceState orig) ;; putByte 0x1a) ;;
    backwards (fun x => putMessage (KeyValue_MarshalProto x) ;; putByte 0x22) (SpanLink_Attributes orig) ;;
    when (nonzero (SpanLink_DroppedAttributesCount orig)) (putVarint (u64 (SpanLink_DroppedAttributesCount orig))
      ;; putByte 0x28) ;;
    when (nonzero (SpanLink_Flags orig)) (putFixed 4 (SpanLink_Flags orig) ;; putByte 0x35))%writer.

Definition SpanLink_cases : switch SpanLink := fun orig fieldNum wireType buf pos =>
  let '(mkSpanLink tid sid state attrs dropped flags) := orig in
  match fieldNum with
  | 1 => lenCase wireType buf pos (fun s =>
           sets_message (fun id => mkSpanLink id sid state attrs dropped flags) (TraceID_UnmarshalProto s))
  | 2 => lenCase wireType buf pos (fun s =>
           sets_message (fun id => mkSpanLink tid id state attrs dropped flags) (SpanID_UnmarshalProto s))
  | 3 => lenCase wireType buf pos (fun s => sets (mkSpanLink tid sid s attrs dropped flags))
  | 4 => lenCase wireType buf pos (fun s =>
           sets_message (fun x => mkSpanLink tid sid state (attrs ++ [x]) dropped flags) (KeyValue_UnmarshalProto s
             zeroKeyValue))
  | 5 => varintCase wireType buf pos (fun num => mkSpanLink tid sid state attrs (u32 num) flags)
  | 6 => i32Case wireType buf pos (fun num => mkSpanLink tid sid state attrs dropped num)
  | _ => unknownCase orig wireType buf pos
  end.

Definition SpanLink_UnmarshalProto : bytes -> SpanLink -> option (SpanLink + error) := unmarshal SpanLink_cases.

(** ** Span *)

Record Span := mkSpan {
  Span_TraceId : bytes;
  Span_SpanId : bytes;
  Span_TraceState : bytes;
  Span_ParentSpanId : bytes;
  Span_Flags : Z;
  Span_Name : bytes;
  Span_Kind : Z;
  Span_StartTimeUnixNano : Z;
  Span_EndTimeUnixNano : Z;
  Span_Attributes : list KeyValue;
  Span_DroppedAttributesCount : Z;
  Span_Events : list SpanEvent;
  Span_DroppedEventsCount : Z;
  Span_Links : list SpanLink;
  Span_DroppedLinksCount : Z;
  Span_Status : Status;
}.

Definition zeroSpan : Span := mkSpan (emptyID traceIDSize) (emptyID spanIDSize) [] (emptyID spanIDSize) 0 [] 0 0 0
  [] 0 [] 0 [] 0 zeroStatus.

Definition Span_ok (x : Span) : bool :=
  is_ID traceIDSize (Span_TraceId x) &&
  is_ID spanIDSize (Span_SpanId x) &&
  is_ID spanIDSize (Span_ParentSpanId x) &&
  is_u32 (Span_Flags x) &&
  is_i32 (Span_Kind x) &&
  is_u64 (Span_StartTimeUnixNano x) &&
  is_u64 (Span_EndTimeUnixNano x) &&
  forallb KeyValue_ok (Span_Attributes x) &&
  is_u32 (Span_DroppedAttributesCount x) &&
  forallb SpanEvent_ok (Span_Events x) &&
  is_u32 (Span_DroppedEventsCount x) &&
  forallb SpanLink_ok (Span_Links x) &&
  is_u32 (Span_DroppedLinksCount x) &&
  Status_ok (Span_Status x).

Definition Span_SizeProto (orig : Span) : Z :=
  (1 + lengthPrefixed (TraceID_SizeProto (Span_TraceId orig))) +
  (1 + lengthPrefixed (SpanID_SizeProto (Span_SpanId orig))) +
  size_if (nonempty (Span_TraceState orig)) (1 + lengthPrefixed (len (Span_TraceState orig))) +
  (1 + lengthPrefixed (SpanID_SizeProto (Span_ParentSpanId orig))) +
  size_if (nonzero (Span_Flags orig)) 6 +
  size_if (nonempty (Span_Name orig)) (1 + lengthPrefixed (len (Span_Name orig))) +
  size_if (nonzero (Span_Kind orig)) (1 + Sov (u64 (Span_Kind orig))) +
  size_if (nonzero (Span_StartTimeUnixNano orig)) 9 +
  size_if (nonzero (Span_EndTimeUnixNano orig)) 9 +
  sum_of (fun x => 1 + lengthPrefixed (KeyValue_SizeProto x)) (Span_Attributes orig) +
  size_if (nonzero (Span_DroppedAttributesCount orig)) (1 + Sov (u64 (Span_DroppedAttributesCount orig))) +
  sum_of (fun x => 1 + lengthPrefixed (SpanEvent_SizeProto x)) (Span_Events orig) +
  size_if (nonzero (Span_DroppedEventsCount orig)) (1 + Sov (u64 (Span_DroppedEventsCount orig))) +
  sum_of (fun x => 1 + lengthPrefixed (SpanLink_SizeProto x)) (Span_Links orig) +
  size_if (nonzero (Span_DroppedLinksCount orig)) (1 + Sov (u64 (Span_DroppedLinksCount orig))) +
  (1 + lengthPrefixed (Status_SizeProto (Span_Status orig))).

Definition Span_MarshalProto (orig : Span) : bytes -> option (bytes * Z) :=
  marshal (
    (putMessage (TraceID_MarshalProto (Span_TraceId orig)) ;; putByte 0xa) ;;
    (putMessage (SpanID_MarshalProto (Span_SpanId orig)) ;; putByte 0x12) ;;
    when (nonempty (Span_TraceState orig)) (putString (Span_TraceState orig) ;; putByte 0x1a) ;;
    (putMessage (SpanID_MarshalProto (Span_ParentSpanId orig)) ;; putByte 0x22) ;;
    when (nonzero (Span_Flags orig)) (putFixed 4 (Span_Flags orig) ;; putByte 0x1 ;; putByte 0x85) ;;
    when (nonempty (Span_Name orig)) (putString (Span_Name orig) ;; putByte 0x2a) ;;
    when (nonzero (Span_Kind orig)) (putVarint (u64 (Span_Kind orig)) ;; putByte 0x30) ;;
    when (nonzero (Span_StartTimeUnixNano orig)) (putFixed 8 (Span_StartTimeUnixNano orig) ;; putByte 0x39) ;;
    when (nonzero (Span_EndTimeUnixNano orig)) (putFixed 8 (Span_EndTimeUnixNano orig) ;; putByte 0x41) ;;
    backwards (fun x => putMessage (KeyValue_MarshalProto x) ;; putByte 0x4a) (Span_Attributes orig) ;;
    when (nonzero (Span_DroppedAttributesCount orig)) (putVarint (u64 (Span_DroppedAttributesCount orig)) ;;
      putByte 0x50) ;;
    backwards (fun x => putMessage (SpanEvent_MarshalProto x) ;; putByte 0x5a) (Span_Events orig) ;;
    when (nonzero (Span_DroppedEventsCount orig)) (putVarint (u64 (Span_DroppedEventsCount orig)) ;; putByte 0x60)
      ;;
    backwards (fun x => putMessage (SpanLink_MarshalProto x) ;; putByte 0x6a) (Span_Links orig) ;;
    when (nonzero (Span_DroppedLinksCount orig)) (putVarint (u64 (Span_DroppedLinksCount orig)) ;; putByte 0x70) ;;
    (putMessage (Status_MarshalProto (Span_Status orig)) ;; putByte 0x7a))%writer.

Definition Span_cases : switch Span := fun orig fieldNum wireType buf pos =>
  let '(mkSpan tid sid state parent flags name kind start stop attrs dattrs events devents links dlinks status) :=
    orig in
  match fieldNum with
  | 1 => lenCase wireType buf pos (fun s =>
           sets_message (fun id => mkSpan id sid state parent flags name kind start stop attrs dattrs events
             devents links dlinks status) (TraceID_UnmarshalProto s))
  | 2 => lenCase wireType buf pos (fun s =>
           sets_message (fun id => mkSpan tid id state parent flags name kind start stop attrs dattrs events
             devents links dlinks status) (SpanID_UnmarshalProto s))
  | 3 => lenCase wireType buf pos (fun s => sets (mkSpan tid sid s parent flags name kind start stop attrs dattrs
    events devents links dlinks status))
  | 4 => lenCase wireType buf pos (fun s =>
           sets_message (fun id => mkSpan tid sid state id flags name kind start stop attrs dattrs events devents
             links dlinks status) (SpanID_UnmarshalProto s))
  | 16 => i32Case wireType buf pos (fun num => mkSpan tid sid state parent num name kind start stop attrs dattrs
    events devents links dlinks status)
  | 5 => lenCase wireType buf pos (fun s => sets (mkSpan tid sid state parent flags s kind start stop attrs dattrs
    events devents links dlinks status))
  | 6 => varintCase wireType buf pos (fun num => mkSpan tid sid state parent flags name (i32 num) start stop attrs
    dattrs events devents links dlinks status)
  | 7 => i64Case wireType buf pos (fun num => mkSpan tid sid state parent flags name kind num stop attrs dattrs
    events devents links dlinks status)
  | 8 => i64Case wireType buf pos (fun num => mkSpan tid sid state parent flags name kind start num attrs dattrs
    events devents links dlinks status)
  | 9 => lenCase wireType buf pos (fun s =>
           sets_message (fun x => mkSpan tid sid state parent flags name kind start stop (attrs ++ [x]) dattrs
             events devents links dlinks status) (KeyValue_UnmarshalProto s zeroKeyValue))
  | 10 => varintCase wireType buf pos (fun num => mkSpan tid sid state parent flags name kind start stop attrs (u32
    num) events devents links dlinks status)
  | 11 => lenCase wireType buf pos (fun s =>
           sets_message (fun x => mkSpan tid sid state parent flags name kind start stop attrs dattrs (events ++
             [x]) devents links dlinks status) (SpanEvent_UnmarshalProto s zeroSpanEvent))
  | 12 => varintCase wireType buf pos (fun num => mkSpan tid sid state parent flags name kind start stop attrs
    dattrs events (u32 num) links dlinks status)
  | 13 => lenCase wireType buf pos (fun s =>
           sets_message (fun x => mkSpan tid sid state parent flags name kind start stop attrs dattrs events
             devents (links ++ [x]) dlinks status) (SpanLink_UnmarshalProto s zeroSpanLink))
  | 14 => varintCase wireType buf pos (fun num => mkSpan tid sid state parent flags name kind start stop attrs
    dattrs events devents links (u32 num) status)
  | 15 => lenCase wireType buf pos (fun s =>
           sets_message (fun x => mkSpan tid sid state parent flags name kind start stop attrs dattrs events
             devents links dlinks x) (Status_UnmarshalProto s status))
  | _ => unknownCase orig wireType buf pos
  end.

Definition Span_UnmarshalProto : bytes -> Span -> option (Span + error) := unmarshal Span_cases.

(** ** ScopeSpans *)

Record ScopeSpans := mkScopeSpans {
  ScopeSpans_Scope : InstrumentationScope;
  ScopeSpans_Spans : list Span;
  ScopeSpans_SchemaUrl : bytes;
}.

Definition zeroScopeSpans : ScopeSpans := mkScopeSpans zeroInstrumentationScope [] [].

Definition ScopeSpans_ok (x : ScopeSpans) : bool :=
  InstrumentationScope_ok (ScopeSpans_Scope x) &&
  forallb Span_ok (ScopeSpans_Spans x).

Definition ScopeSpans_SizeProto (orig : ScopeSpans) : Z :=
  (1 + lengthPrefixed (InstrumentationScope_SizeProto (ScopeSpans_Scope orig))) +
  sum_of (fun x => 1 + lengthPrefixed (Span_SizeProto x)) (ScopeSpans_Spans orig) +
  size_if (nonempty (ScopeSpans_SchemaUrl orig)) (1 + lengthPrefixed (len (ScopeSpans_SchemaUrl orig))).

Definition ScopeSpans_MarshalProto (orig : ScopeSpans) : bytes -> option (bytes * Z) :=
  marshal (
    (putMessage (InstrumentationScope_MarshalProto (ScopeSpans_Scope orig)) ;; putByte 0xa) ;;
    backwards (fun x => putMessage (Span_MarshalProto x) ;; putByte 0x12) (ScopeSpans_Spans orig) ;;
    when (nonempty (ScopeSpans_SchemaUrl orig)) (putString (ScopeSpans_SchemaUrl orig) ;; putByte 0x1a))%writer.

Definition ScopeSpans_cases : switch ScopeSpans := fun orig fieldNum wireType buf pos =>
  let '(mkScopeSpans scope spans url) := orig in
  match fieldNum with
  | 1 => lenCase wireType buf pos (fun s =>
           sets_message (fun x => mkScopeSpans x spans url) (InstrumentationScope_UnmarshalProto s scope))
  | 2 => lenCase wireType buf pos (fun s =>
           sets_message (fun x => mkScopeSpans scope (spans ++ [x]) url) (Span_UnmarshalProto s zeroSpan))
  | 3 => lenCase wireType buf pos (fun s => sets (mkScopeSpans scope spans s))
  | _ => unknownCase orig wireType buf pos
  end.

Definition ScopeSpans_UnmarshalProto : bytes -> ScopeSpans -> option (ScopeSpans + error) := unmarshal
  ScopeSpans_cases.

(** ** ResourceSpans *)

Record ResourceSpans := mkResourceSpans {
  ResourceSpans_Resource : Resource;
  ResourceSpans_ScopeSpans : list ScopeSpans;
  ResourceSpans_SchemaUrl : bytes;
  ResourceSpans_DeprecatedScopeSpans : list ScopeSpans;
}.

Definition zeroResourceSpans : ResourceSpans := mkResourceSpans zeroResource [] [] [].

Definition ResourceSpans_ok (x : ResourceSpans) : bool :=
  Resource_ok (ResourceSpans_Resource x) &&
  forallb ScopeSpans_ok (ResourceSpans_ScopeSpans x) &&
  forallb ScopeSpans_ok (ResourceSpans_DeprecatedScopeSpans x).

Definition ResourceSpans_SizeProto (orig : ResourceSpans) : Z :=
  (1 + lengthPrefixed (Resource_SizeProto (ResourceSpans_Resource orig))) +
  sum_of (fun x => 1 + lengthPrefixed (ScopeSpans_SizeProto x)) (ResourceSpans_ScopeSpans orig) +
  size_if (nonempty (ResourceSpans_SchemaUrl orig)) (1 + lengthPrefixed (len (ResourceSpans_SchemaUrl orig))) +
  sum_of (fun x => 2 + lengthPrefixed (ScopeSpans_SizeProto x)) (ResourceSpans_DeprecatedScopeSpans orig).

Definition ResourceSpans_MarshalProto (orig : ResourceSpans) : bytes -> option (bytes * Z) :=
  marshal (
    (putMessage (Resource_MarshalProto (ResourceSpans_Resource orig)) ;; putByte 0xa) ;;
    backwards (fun x => putMessage (ScopeSpans_MarshalProto x) ;; putByte 0x12) (ResourceSpans_ScopeSpans orig) ;;
    when (nonempty (ResourceSpans_SchemaUrl orig)) (putString (ResourceSpans_SchemaUrl orig) ;; putByte 0x1a) ;;
    backwards (fun x => putMessage (ScopeSpans_MarshalProto x) ;; putByte 0x3e ;; putByte 0xc2)
      (ResourceSpans_DeprecatedScopeSpans orig))%writer.

Definition ResourceSpans_cases : switch ResourceSpans := fun orig fieldNum wireType buf pos =>
  let '(mkResourceSpans resource scopes url deprecated) := orig in
  match fieldNum with
  | 1 => lenCase wireType buf pos (fun s =>
           sets_message (fun x => mkResourceSpans x scopes url deprecated) (Resource_UnmarshalProto s resource))
  | 2 => lenCase wireType buf pos (fun s =>
           sets_message (fun x => mkResourceSpans resource (scopes ++ [x]) url deprecated)
             (ScopeSpans_UnmarshalProto s zeroScopeSpans))
  | 3 => lenCase wireType buf pos (fun s => sets (mkResourceSpans resource scopes s deprecated))
  | 1000 => lenCase wireType buf pos (fun s =>
           sets_message (fun x => mkResourceSpans resource scopes url (deprecated ++ [x]))
             (ScopeSpans_UnmarshalProto s zeroScopeSpans))
  | _ => unknownCase orig wireType buf pos
  end.

Definition ResourceSpans_UnmarshalProto : bytes -> ResourceSpans -> option (ResourceSpans + error) := unmarshal
  ResourceSpans_cases.

(** ** TracesData *)

Record TracesData := mkTracesData {
  TracesData_ResourceSpans : list ResourceSpans;
}.

Definition zeroTracesData : TracesData := mkTracesData [].

Definition TracesData_ok (x : TracesData) : bool :=
  forallb ResourceSpans_ok (TracesData_ResourceSpans x).

Definition TracesData_SizeProto (orig : TracesData) : Z :=
  sum_of (fun x => 1 + lengthPrefixed (ResourceSpans_SizeProto x)) (TracesData_ResourceSpans orig).

Definition TracesData_MarshalProto (orig : TracesData) : bytes -> option (bytes * Z) :=
  marshal (
    backwards (fun x => putMessage (ResourceSpans_MarshalProto x) ;; putByte 0xa) (TracesData_ResourceSpans
      orig))%writer.

Definition TracesData_cases : switch TracesData := fun orig fieldNum wireType buf pos =>
  let '(mkTracesData rss) := orig in
  match fieldNum with
  | 1 => lenCase wireType buf pos (fun s =>
           sets_message (fun x => mkTracesData (rss ++ [x])) (ResourceSpans_UnmarshalProto s zeroResourceSpans))
  | _ => unknownCase orig wireType buf pos
  end.

Definition TracesData_UnmarshalProto : bytes -> TracesData -> option (TracesData + error) := unmarshal
  TracesData_cases.

(** ** ExportTraceServiceRequest *)

Record ExportTraceServiceRequest := mkExportTraceServiceRequest {
  ExportTraceServiceRequest_ResourceSpans : list ResourceSpans;
}.

Definition zeroExportTraceServiceRequest : ExportTraceServiceRequest := mkExportTraceServiceRequest [].

Definition ExportTraceServiceRequest_ok (x : ExportTraceServiceRequest) : bool :=
  forallb ResourceSpans_ok (ExportTraceServiceRequest_ResourceSpans x).

Definition ExportTraceServiceRequest_SizeProto (orig : ExportTraceServiceRequest) : Z :=
  sum_of (fun x => 1 + lengthPrefixed (ResourceSpans_SizeProto x)) (ExportTraceServiceRequest_ResourceSpans orig).

Definition ExportTraceServiceRequest_MarshalProto (orig : ExportTraceServiceRequest) : bytes -> option (bytes * Z)
  :=
  marshal (
    backwards (fun x => putMessage (ResourceSpans_MarshalProto x) ;; putByte 0xa)
      (ExportTraceServiceRequest_ResourceSpans orig))%writer.

Definition ExportTraceServiceRequest_cases : switch ExportTraceServiceRequest := fun orig fieldNum wireType buf pos
  =>
  let '(mkExportTraceServiceRequest rss) := orig in
  match fieldNum with
  | 1 => lenCase wireType buf pos (fun s =>
           sets_message (fun x => mkExportTraceServiceRequest (rss ++ [x])) (ResourceSpans_UnmarshalProto s
             zeroResourceSpans))
  | _ => unknownCase orig wireType buf pos
  end.

Definition ExportTraceServiceRequest_UnmarshalProto : bytes -> ExportTraceServiceRequest -> option
  (ExportTraceServiceRequest + error) := unmarshal ExportTraceServiceRequest_cases.


(** ** pdata/ptrace/pb.go

    The Traces of the API wraps an ExportTraceServiceRequest, which starts empty. *)

Definition ProtoMarshaler_MarshalTraces (td : ExportTraceServiceRequest) : option bytes :=
  let size := ExportTraceServiceRequest_SizeProto td in
  match ExportTraceServiceRequest_MarshalProto td (replicate (Z.to_nat size) 0) with
  | Some (buf, _) => Some buf
  | None => None
  end.

Definition ProtoUnmarshaler_UnmarshalTraces (buf : bytes) : option (ExportTraceServiceRequest + error) :=
  ExportTraceServiceRequest_UnmarshalProto buf zeroExportTraceServiceRequest.
