(* ===== verification/TracesProtoProofs.v ===== *)
(** * TracesProtoProofs: traces round-trip through the wire format

    One lemma per message composes its fields; the theorems are about whole traces. *)

From S2P Require Import Prelude.
From S2P Require Import GoErrors.
From S2P Require Import PData.
From S2P Require Import Storage.
From S2P Require Import ProtoWire.
From S2P Require Import ProtoMessage.
From S2P Require Import ProtoMessageProofs.
From S2P Require Import CommonProto.
From S2P Require Import CommonProtoProofs.
From S2P Require Import TracesProto.

(** ** Status *)

Lemma Status_codec x : Status_ok x = true ->
  codec (Status_MarshalProto x) (Status_SizeProto x) (fun s => Status_UnmarshalProto s zeroStatus) x.
Proof.
  destruct x as [message code]. intros Hok. unfold Status_ok in Hok. cbn in Hok.
  rewrite ?andb_true_iff in Hok. destruct_and?. eapply carries_codec.
  - fields 1%nat.
    + apply (carries_opt_varint _ 0x18 code i32 (fun v => mkStatus [] v)); [lia|reflexivity|by apply i32_u64].
    + apply (carries_opt_string _ 0x12 message (fun v => mkStatus v code)); [lia|reflexivity].
  - unfold Status_SizeProto. cbn -[lengthPrefixed size_if]. lia.
Qed.

Lemma Status_list_codec l : forallb Status_ok l = true ->
  Forall (fun x => codec (Status_MarshalProto x) (Status_SizeProto x) (fun s => Status_UnmarshalProto s zeroStatus)
    x) l.
Proof. apply Forall_ok, Forall_true, Status_codec. Qed.

Lemma zeroStatus_ok : is_ok Status_ok zeroStatus.
Proof. done. Qed.

Lemma Status_UnmarshalProto_ok s x : bytes_ok s -> len s < 2 ^ 63 -> is_ok Status_ok x ->
  outcome_ok (is_ok Status_ok) (Status_UnmarshalProto s x).
Proof.
  intros Hs Hl Hx. apply unmarshal_ok; [|done|done|done]. clear x Hx.
  intros [message code] f wt buf pos Hv Hb1 Hb2 Hn Hp.
  unfold Status_cases. each_case f; ranges Hv Status_ok; case_value Status_ok.
Qed.

#[export] Hint Resolve zeroStatus_ok Status_UnmarshalProto_ok : codec.

(** ** SpanEvent *)

Lemma SpanEvent_codec x : SpanEvent_ok x = true ->
  codec (SpanEvent_MarshalProto x) (SpanEvent_SizeProto x) (fun s => SpanEvent_UnmarshalProto s zeroSpanEvent) x.
Proof.
  destruct x as [time name attrs dropped]. intros Hok. unfold SpanEvent_ok in Hok. cbn in Hok.
  rewrite ?andb_true_iff in Hok. destruct_and?. eapply carries_codec.
  - fields 3%nat.
    + apply (carries_opt_varint _ 0x20 dropped u32 (fun v => mkSpanEvent 0 [] [] v)); [lia|reflexivity|by apply
      u32_u64].
    + eapply (carries_messages _ 0x1a KeyValue_MarshalProto KeyValue_SizeProto _ (fun v => mkSpanEvent 0 [] v
      dropped));
        [lia|reflexivity|reflexivity|by apply KeyValues_codec].
    + apply (carries_opt_string _ 0x12 name (fun v => mkSpanEvent 0 v attrs dropped)); [lia|reflexivity].
    + apply (carries_opt_i64 _ 0x9 time (fun v => mkSpanEvent v name attrs dropped)); [lia|reflexivity|done].
  - unfold SpanEvent_SizeProto. cbn -[lengthPrefixed size_if]. lia.
Qed.

Lemma SpanEvent_list_codec l : forallb SpanEvent_ok l = true ->
  Forall (fun x => codec (SpanEvent_MarshalProto x) (SpanEvent_SizeProto x) (fun s => SpanEvent_UnmarshalProto s
    zeroSpanEvent) x) l.
Proof. apply Forall_ok, Forall_true, SpanEvent_codec. Qed.

Lemma zeroSpanEvent_ok : is_ok SpanEvent_ok zeroSpanEvent.
Proof. done. Qed.

Lemma SpanEvent_UnmarshalProto_ok s x : bytes_ok s -> len s < 2 ^ 63 -> is_ok SpanEvent_ok x ->
  outcome_ok (is_ok SpanEvent_ok) (SpanEvent_UnmarshalProto s x).
Proof.
  intros Hs Hl Hx. apply unmarshal_ok; [|done|done|done]. clear x Hx.
  intros [time name attrs dropped] f wt buf pos Hv Hb1 Hb2 Hn Hp.
  unfold SpanEvent_cases. each_case f; ranges Hv SpanEvent_ok; case_value SpanEvent_ok.
Qed.

#[export] Hint Resolve zeroSpanEvent_ok SpanEvent_UnmarshalProto_ok : codec.

(** ** SpanLink *)

Lemma SpanLink_codec x : SpanLink_ok x = true ->
  codec (SpanLink_MarshalProto x) (SpanLink_SizeProto x) (fun s => SpanLink_UnmarshalProto s zeroSpanLink) x.
Proof.
  destruct x as [tid sid state attrs dropped flags]. intros Hok. unfold SpanLink_ok in Hok. cbn in Hok.
  rewrite ?andb_true_iff in Hok. destruct_and?. eapply carries_codec.
  - fields 5%nat.
    + apply (carries_opt_i32 _ 0x35 flags (fun v => mkSpanLink (emptyID traceIDSize) (emptyID spanIDSize) [] [] 0
      v)); [lia|reflexivity|done].
    + apply (carries_opt_varint _ 0x28 dropped u32 (fun v => mkSpanLink (emptyID traceIDSize) (emptyID spanIDSize)
      [] [] v flags)); [lia|reflexivity|by apply u32_u64].
    + eapply (carries_messages _ 0x22 KeyValue_MarshalProto KeyValue_SizeProto _ (fun v => mkSpanLink (emptyID
      traceIDSize) (emptyID spanIDSize) [] v dropped flags));
        [lia|reflexivity|reflexivity|by apply KeyValues_codec].
    + apply (carries_opt_string _ 0x1a state (fun v => mkSpanLink (emptyID traceIDSize) (emptyID spanIDSize) v
      attrs dropped flags)); [lia|reflexivity].
    + eapply (carries_sub _ 0x12 _ _ _ _ sid (fun v => mkSpanLink (emptyID traceIDSize) v state attrs dropped
      flags)); [lia|reflexivity|reflexivity|by apply SpanID_codec].
    + eapply (carries_sub _ 0xa _ _ _ _ tid (fun v => mkSpanLink v sid state attrs dropped flags));
      [lia|reflexivity|reflexivity|by apply TraceID_codec].
  - unfold SpanLink_SizeProto. cbn -[lengthPrefixed size_if]. lia.
Qed.

Lemma SpanLink_list_codec l : forallb SpanLink_ok l = true ->
  Forall (fun x => codec (SpanLink_MarshalProto x) (SpanLink_SizeProto x) (fun s => SpanLink_UnmarshalProto s
    zeroSpanLink) x) l.
Proof. apply Forall_ok, Forall_true, SpanLink_codec. Qed.

Lemma zeroSpanLink_ok : is_ok SpanLink_ok zeroSpanLink.
Proof. done. Qed.

Lemma SpanLink_UnmarshalProto_ok s x : bytes_ok s -> len s < 2 ^ 63 -> is_ok SpanLink_ok x ->
  outcome_ok (is_ok SpanLink_ok) (SpanLink_UnmarshalProto s x).
Proof.
  intros Hs Hl Hx. apply unmarshal_ok; [|done|done|done]. clear x Hx.
  intros [tid sid state attrs dropped flags] f wt buf pos Hv Hb1 Hb2 Hn Hp.
  unfold SpanLink_cases. each_case f; ranges Hv SpanLink_ok; case_value SpanLink_ok.
Qed.

#[export] Hint Resolve zeroSpanLink_ok SpanLink_UnmarshalProto_ok : codec.

(** ** Span *)

Lemma Span_codec x : Span_ok x = true ->
  codec (Span_MarshalProto x) (Span_SizeProto x) (fun s => Span_UnmarshalProto s zeroSpan) x.
Proof.
  destruct x as [tid sid state parent flags name kind start stop attrs dattrs events devents links dlinks status].
    intros Hok. unfold Span_ok in Hok. cbn in Hok.
  rewrite ?andb_true_iff in Hok. destruct_and?. eapply carries_codec.
  - fields 15%nat.
    + eapply (carries_sub _ 0x7a _ _ _ _ status (fun v => mkSpan (emptyID traceIDSize) (emptyID spanIDSize) []
      (emptyID spanIDSize) 0 [] 0 0 0 [] 0 [] 0 [] 0 v)); [lia|reflexivity|reflexivity|by apply Status_codec].
    + apply (carries_opt_varint _ 0x70 dlinks u32 (fun v => mkSpan (emptyID traceIDSize) (emptyID spanIDSize) []
      (emptyID spanIDSize) 0 [] 0 0 0 [] 0 [] 0 [] v status)); [lia|reflexivity|by apply u32_u64].
    + eapply (carries_messages _ 0x6a SpanLink_MarshalProto SpanLink_SizeProto _ (fun v => mkSpan (emptyID
      traceIDSize) (emptyID spanIDSize) [] (emptyID spanIDSize) 0 [] 0 0 0 [] 0 [] 0 v dlinks status));
        [lia|reflexivity|reflexivity|by apply SpanLink_list_codec].
    + apply (carries_opt_varint _ 0x60 devents u32 (fun v => mkSpan (emptyID traceIDSize) (emptyID spanIDSize) []
      (emptyID spanIDSize) 0 [] 0 0 0 [] 0 [] v links dlinks status)); [lia|reflexivity|by apply u32_u64].
    + eapply (carries_messages _ 0x5a SpanEvent_MarshalProto SpanEvent_SizeProto _ (fun v => mkSpan (emptyID
      traceIDSize) (emptyID spanIDSize) [] (emptyID spanIDSize) 0 [] 0 0 0 [] 0 v devents links dlinks status));
        [lia|reflexivity|reflexivity|by apply SpanEvent_list_codec].
    + apply (carries_opt_varint _ 0x50 dattrs u32 (fun v => mkSpan (emptyID traceIDSize) (emptyID spanIDSize) []
      (emptyID spanIDSize) 0 [] 0 0 0 [] v events devents links dlinks status)); [lia|reflexivity|by apply u32_u64].
    + eapply (carries_messages _ 0x4a KeyValue_MarshalProto KeyValue_SizeProto _ (fun v => mkSpan (emptyID
      traceIDSize) (emptyID spanIDSize) [] (emptyID spanIDSize) 0 [] 0 0 0 v dattrs events devents links dlinks
      status));
        [lia|reflexivity|reflexivity|by apply KeyValues_codec].
    + apply (carries_opt_i64 _ 0x41 stop (fun v => mkSpan (emptyID traceIDSize) (emptyID spanIDSize) [] (emptyID
      spanIDSize) 0 [] 0 0 v attrs dattrs events devents links dlinks status)); [lia|reflexivity|done].
    + apply (carries_opt_i64 _ 0x39 start (fun v => mkSpan (emptyID traceIDSize) (emptyID spanIDSize) [] (emptyID
      spanIDSize) 0 [] 0 v stop attrs dattrs events devents links dlinks status)); [lia|reflexivity|done].
    + apply (carries_opt_varint _ 0x30 kind i32 (fun v => mkSpan (emptyID traceIDSize) (emptyID spanIDSize) []
      (emptyID spanIDSize) 0 [] v start stop attrs dattrs events devents links dlinks status)); [lia|reflexivity|by
      apply i32_u64].
    + apply (carries_opt_string _ 0x2a name (fun v => mkSpan (emptyID traceIDSize) (emptyID spanIDSize) [] (emptyID
      spanIDSize) 0 v kind start stop attrs dattrs events devents links dlinks status)); [lia|reflexivity].
    + apply (carries_opt_i32_2 _ 0x1 0x85 flags (fun v => mkSpan (emptyID traceIDSize) (emptyID spanIDSize) []
      (emptyID spanIDSize) v name kind start stop attrs dattrs events devents links dlinks status));
      [lia|lia|reflexivity|done].
    + eapply (carries_sub _ 0x22 _ _ _ _ parent (fun v => mkSpan (emptyID traceIDSize) (emptyID spanIDSize) [] v
      flags name kind start stop attrs dattrs events devents links dlinks status)); [lia|reflexivity|reflexivity|by
      apply SpanID_codec].
    + apply (carries_opt_string _ 0x1a state (fun v => mkSpan (emptyID traceIDSize) (emptyID spanIDSize) v parent
      flags name kind start stop attrs dattrs events devents links dlinks status)); [lia|reflexivity].
    + eapply (carries_sub _ 0x12 _ _ _ _ sid (fun v => mkSpan (emptyID traceIDSize) v state parent flags name kind
      start stop attrs dattrs events devents links dlinks status)); [lia|reflexivity|reflexivity|by apply
      SpanID_codec].
    + eapply (carries_sub _ 0xa _ _ _ _ tid (fun v => mkSpan v sid state parent flags name kind start stop attrs
      dattrs events devents links dlinks status)); [lia|reflexivity|reflexivity|by apply TraceID_codec].
  - unfold Span_SizeProto. cbn -[lengthPrefixed size_if]. lia.
Qed.

Lemma Span_list_codec l : forallb Span_ok l = true ->
  Forall (fun x => codec (Span_MarshalProto x) (Span_SizeProto x) (fun s => Span_UnmarshalProto s zeroSpan) x) l.
Proof. apply Forall_ok, Forall_true, Span_codec. Qed.

Lemma zeroSpan_ok : is_ok Span_ok zeroSpan.
Proof. done. Qed.

Lemma Span_UnmarshalProto_ok s x : bytes_ok s -> len s < 2 ^ 63 -> is_ok Span_ok x ->
  outcome_ok (is_ok Span_ok) (Span_UnmarshalProto s x).
Proof.
  intros Hs Hl Hx. apply unmarshal_ok; [|done|done|done]. clear x Hx.
  intros [tid sid state parent flags name kind start stop attrs dattrs events devents links dlinks status] f wt buf
    pos Hv Hb1 Hb2 Hn Hp.
  unfold Span_cases. each_case f; ranges Hv Span_ok; case_value Span_ok.
Qed.

#[export] Hint Resolve zeroSpan_ok Span_UnmarshalProto_ok : codec.

(** ** ScopeSpans *)

Lemma ScopeSpans_codec x : ScopeSpans_ok x = true ->
  codec (ScopeSpans_MarshalProto x) (ScopeSpans_SizeProto x) (fun s => ScopeSpans_UnmarshalProto s zeroScopeSpans)
    x.
Proof.
  destruct x as [scope spans url]. intros Hok. unfold ScopeSpans_ok in Hok. cbn in Hok.
  rewrite ?andb_true_iff in Hok. destruct_and?. eapply carries_codec.
  - fields 2%nat.
    + apply (carries_opt_string _ 0x1a url (fun v => mkScopeSpans zeroInstrumentationScope [] v));
      [lia|reflexivity].
    + eapply (carries_messages _ 0x12 Span_MarshalProto Span_SizeProto _ (fun v => mkScopeSpans
      zeroInstrumentationScope v url));
        [lia|reflexivity|reflexivity|by apply Span_list_codec].
    + eapply (carries_sub _ 0xa _ _ _ _ scope (fun v => mkScopeSpans v spans url)); [lia|reflexivity|reflexivity|by
      apply InstrumentationScope_codec].
  - unfold ScopeSpans_SizeProto. cbn -[lengthPrefixed size_if]. lia.
Qed.

Lemma ScopeSpans_list_codec l : forallb ScopeSpans_ok l = true ->
  Forall (fun x => codec (ScopeSpans_MarshalProto x) (ScopeSpans_SizeProto x) (fun s => ScopeSpans_UnmarshalProto s
    zeroScopeSpans) x) l.
Proof. apply Forall_ok, Forall_true, ScopeSpans_codec. Qed.

Lemma zeroScopeSpans_ok : is_ok ScopeSpans_ok zeroScopeSpans.
Proof. done. Qed.

Lemma ScopeSpans_UnmarshalProto_ok s x : bytes_ok s -> len s < 2 ^ 63 -> is_ok ScopeSpans_ok x ->
  outcome_ok (is_ok ScopeSpans_ok) (ScopeSpans_UnmarshalProto s x).
Proof.
  intros Hs Hl Hx. apply unmarshal_ok; [|done|done|done]. clear x Hx.
  intros [scope spans url] f wt buf pos Hv Hb1 Hb2 Hn Hp.
  unfold ScopeSpans_cases. each_case f; ranges Hv ScopeSpans_ok; case_value ScopeSpans_ok.
Qed.

#[export] Hint Resolve zeroScopeSpans_ok ScopeSpans_UnmarshalProto_ok : codec.

(** ** ResourceSpans *)

Lemma ResourceSpans_codec x : ResourceSpans_ok x = true ->
  codec (ResourceSpans_MarshalProto x) (ResourceSpans_SizeProto x) (fun s => ResourceSpans_UnmarshalProto s
    zeroResourceSpans) x.
Proof.
  destruct x as [resource scopes url deprecated]. intros Hok. unfold ResourceSpans_ok in Hok. cbn in Hok.
  rewrite ?andb_true_iff in Hok. destruct_and?. eapply carries_codec.
  - fields 3%nat.
    + eapply (carries_messages2 _ 0x3e 0xc2 ScopeSpans_MarshalProto ScopeSpans_SizeProto _ (fun v =>
      mkResourceSpans zeroResource [] [] v));
        [lia|lia|reflexivity|reflexivity|by apply ScopeSpans_list_codec].
    + apply (carries_opt_string _ 0x1a url (fun v => mkResourceSpans zeroResource [] v deprecated));
      [lia|reflexivity].
    + eapply (carries_messages _ 0x12 ScopeSpans_MarshalProto ScopeSpans_SizeProto _ (fun v => mkResourceSpans
      zeroResource v url deprecated));
        [lia|reflexivity|reflexivity|by apply ScopeSpans_list_codec].
    + eapply (carries_sub _ 0xa _ _ _ _ resource (fun v => mkResourceSpans v scopes url deprecated));
      [lia|reflexivity|reflexivity|by apply Resource_codec].
  - unfold ResourceSpans_SizeProto. cbn -[lengthPrefixed size_if]. lia.
Qed.

Lemma ResourceSpans_list_codec l : forallb ResourceSpans_ok l = true ->
  Forall (fun x => codec (ResourceSpans_MarshalProto x) (ResourceSpans_SizeProto x) (fun s =>
    ResourceSpans_UnmarshalProto s zeroResourceSpans) x) l.
Proof. apply Forall_ok, Forall_true, ResourceSpans_codec. Qed.

Lemma zeroResourceSpans_ok : is_ok ResourceSpans_ok zeroResourceSpans.
Proof. done. Qed.

Lemma ResourceSpans_UnmarshalProto_ok s x : bytes_ok s -> len s < 2 ^ 63 -> is_ok ResourceSpans_ok x ->
  outcome_ok (is_ok ResourceSpans_ok) (ResourceSpans_UnmarshalProto s x).
Proof.
  intros Hs Hl Hx. apply unmarshal_ok; [|done|done|done]. clear x Hx.
  intros [resource scopes url deprecated] f wt buf pos Hv Hb1 Hb2 Hn Hp.
  unfold ResourceSpans_cases. each_case f; ranges Hv ResourceSpans_ok; case_value ResourceSpans_ok.
Qed.

#[export] Hint Resolve zeroResourceSpans_ok ResourceSpans_UnmarshalProto_ok : codec.

(** ** TracesData *)

Lemma TracesData_codec x : TracesData_ok x = true ->
  codec (TracesData_MarshalProto x) (TracesData_SizeProto x) (fun s => TracesData_UnmarshalProto s zeroTracesData)
    x.
Proof.
  destruct x as [rss]. intros Hok. unfold TracesData_ok in Hok. cbn in Hok.
  rewrite ?andb_true_iff in Hok. destruct_and?. eapply carries_codec.
  - eapply (carries_messages _ 0xa ResourceSpans_MarshalProto ResourceSpans_SizeProto _ (fun v => mkTracesData v));
        [lia|reflexivity|reflexivity|by apply ResourceSpans_list_codec].
  - done.
Qed.

Lemma TracesData_list_codec l : forallb TracesData_ok l = true ->
  Forall (fun x => codec (TracesData_MarshalProto x) (TracesData_SizeProto x) (fun s => TracesData_UnmarshalProto s
    zeroTracesData) x) l.
Proof. apply Forall_ok, Forall_true, TracesData_codec. Qed.

Lemma zeroTracesData_ok : is_ok TracesData_ok zeroTracesData.
Proof. done. Qed.

Lemma TracesData_UnmarshalProto_ok s x : bytes_ok s -> len s < 2 ^ 63 -> is_ok TracesData_ok x ->
  outcome_ok (is_ok TracesData_ok) (TracesData_UnmarshalProto s x).
Proof.
  intros Hs Hl Hx. apply unmarshal_ok; [|done|done|done]. clear x Hx.
  intros [rss] f wt buf pos Hv Hb1 Hb2 Hn Hp.
  unfold TracesData_cases. each_case f; ranges Hv TracesData_ok; case_value TracesData_ok.
Qed.

#[export] Hint Resolve zeroTracesData_ok TracesData_UnmarshalProto_ok : codec.

(** ** ExportTraceServiceRequest *)

Lemma ExportTraceServiceRequest_codec x : ExportTraceServiceRequest_ok x = true ->
  codec (ExportTraceServiceRequest_MarshalProto x) (ExportTraceServiceRequest_SizeProto x) (fun s =>
    ExportTraceServiceRequest_UnmarshalProto s zeroExportTraceServiceRequest) x.
Proof.
  destruct x as [rss]. intros Hok. unfold ExportTraceServiceRequest_ok in Hok. cbn in Hok.
  rewrite ?andb_true_iff in Hok. destruct_and?. eapply carries_codec.
  - eapply (carries_messages _ 0xa ResourceSpans_MarshalProto ResourceSpans_SizeProto _ (fun v =>
    mkExportTraceServiceRequest v));
        [lia|reflexivity|reflexivity|by apply ResourceSpans_list_codec].
  - done.
Qed.

Lemma ExportTraceServiceRequest_list_codec l : forallb ExportTraceServiceRequest_ok l = true ->
  Forall (fun x => codec (ExportTraceServiceRequest_MarshalProto x) (ExportTraceServiceRequest_SizeProto x) (fun s
    => ExportTraceServiceRequest_UnmarshalProto s zeroExportTraceServiceRequest) x) l.
Proof. apply Forall_ok, Forall_true, ExportTraceServiceRequest_codec. Qed.

Lemma zeroExportTraceServiceRequest_ok : is_ok ExportTraceServiceRequest_ok zeroExportTraceServiceRequest.
Proof. done. Qed.

Lemma ExportTraceServiceRequest_UnmarshalProto_ok s x : bytes_ok s -> len s < 2 ^ 63 -> is_ok
  ExportTraceServiceRequest_ok x ->
  outcome_ok (is_ok ExportTraceServiceRequest_ok) (ExportTraceServiceRequest_UnmarshalProto s x).
Proof.
  intros Hs Hl Hx. apply unmarshal_ok; [|done|done|done]. clear x Hx.
  intros [rss] f wt buf pos Hv Hb1 Hb2 Hn Hp.
  unfold ExportTraceServiceRequest_cases. each_case f; ranges Hv ExportTraceServiceRequest_ok; case_value
    ExportTraceServiceRequest_ok.
Qed.

#[export] Hint Resolve zeroExportTraceServiceRequest_ok ExportTraceServiceRequest_UnmarshalProto_ok : codec.

(** ** Whole traces *)

(** What the writer of a request emits is what MarshalTraces returns, and adds its resource
    spans to those read before it. *)
Lemma MarshalTraces_carries td acc :
  ExportTraceServiceRequest_ok td = true -> ExportTraceServiceRequest_SizeProto td < 2 ^ 63 ->
  exists buf, ProtoMarshaler_MarshalTraces td = Some buf /\
    marshals (ExportTraceServiceRequest_MarshalProto td) (ExportTraceServiceRequest_SizeProto td) buf /\
    reads ExportTraceServiceRequest_cases buf (mkExportTraceServiceRequest acc)
      (mkExportTraceServiceRequest (acc ++ ExportTraceServiceRequest_ResourceSpans td)).
Proof.
  destruct td as [rss]. intros Hok Hs.
  destruct (request_carries ExportTraceServiceRequest_cases ResourceSpans_MarshalProto ResourceSpans_SizeProto
    (fun s => ResourceSpans_UnmarshalProto s zeroResourceSpans) mkExportTraceServiceRequest _ rss acc
    ltac:(reflexivity) ltac:(reflexivity) (ResourceSpans_list_codec _ Hok) Hs) as (buf & E & M & R).
  exists buf. split; [|by split]. unfold ProtoMarshaler_MarshalTraces. cbv zeta.
  unfold ExportTraceServiceRequest_MarshalProto, ExportTraceServiceRequest_SizeProto. cbn [ExportTraceServiceRequest_ResourceSpans].
  by rewrite E.
Qed.

(** An encoding of traces is empty or starts with the tag of its resource spans. *)
Lemma MarshalTraces_head td buf :
  ExportTraceServiceRequest_ok td = true -> ExportTraceServiceRequest_SizeProto td < 2 ^ 63 ->
  ProtoMarshaler_MarshalTraces td = Some buf -> buf = [] \/ exists rest, buf = 0xa :: rest.
Proof.
  intros Hok Hs M. destruct (MarshalTraces_carries td [] Hok Hs) as (b & M' & W & _). rewrite M in M'. injection M' as <-.
  exact (request_head _ _ _ _ buf (ResourceSpans_list_codec _ Hok) W Hs).
Qed.

(** C5: the wire format of traces: within any buffer with room, MarshalProto writes exactly
    SizeProto bytes and nothing before them; MarshalTraces returns those bytes, and
    UnmarshalTraces reads them back to the same traces, every field of every span
    included. *)
Theorem traces_wire_roundtrip td :
  ExportTraceServiceRequest_ok td = true -> ExportTraceServiceRequest_SizeProto td < 2 ^ 63 ->
  exists buf, ProtoMarshaler_MarshalTraces td = Some buf /\ len buf = ExportTraceServiceRequest_SizeProto td /\
    ProtoUnmarshaler_UnmarshalTraces buf = Some (inl td) /\
    forall pre old, len old = len buf -> len (pre ++ old) < 2 ^ 63 ->
      ExportTraceServiceRequest_MarshalProto td (pre ++ old) = Some (pre ++ buf, len buf).
Proof.
  intros Hok Hs. destruct (MarshalTraces_carries td [] Hok Hs) as (buf & M & [L W] & R). exists buf.
  split; [done|split; [done|split]].
  - apply reads_unmarshal in R; [|lia]. unfold ProtoUnmarshaler_UnmarshalTraces. by destruct td.
  - intros pre old Ho Hb. rewrite L in *. by apply W.
Qed.

(** Reading traces from any bytes whatever: UnmarshalTraces returns traces or an error, it
    never indexes out of range and always ends; and the traces it returns hold only values
    of their Go types, so that they are written and read back without a change. *)
Theorem traces_read_safely buf :
  bytes_ok buf -> len buf < 2 ^ 63 ->
  exists r, ProtoUnmarshaler_UnmarshalTraces buf = Some r /\
    forall td, r = inl td -> ExportTraceServiceRequest_ok td = true /\
      (ExportTraceServiceRequest_SizeProto td < 2 ^ 63 ->
       exists buf', ProtoMarshaler_MarshalTraces td = Some buf' /\
         ProtoUnmarshaler_UnmarshalTraces buf' = Some (inl td)).
Proof.
  intros Hb Hl.
  destruct (ExportTraceServiceRequest_UnmarshalProto_ok buf zeroExportTraceServiceRequest Hb Hl) as (r & E & Hr); [done|].
  exists r. split; [exact E|]. intros td Htd. specialize (Hr td Htd). split; [exact Hr|]. intros Hs.
  destruct (MarshalTraces_carries td [] Hr Hs) as (buf' & M & [L _] & R). exists buf'. split; [done|].
  apply reads_unmarshal in R; [|lia]. unfold ProtoUnmarshaler_UnmarshalTraces. by destruct td.
Qed.

(** Two payloads of traces, one after the other, are read as one that has the resource
    spans of both in order: the merge of the protobuf encoding. *)
Theorem concatenated_traces_merge td1 td2 :
  ExportTraceServiceRequest_ok td1 = true -> ExportTraceServiceRequest_ok td2 = true ->
  ExportTraceServiceRequest_SizeProto td1 + ExportTraceServiceRequest_SizeProto td2 < 2 ^ 63 ->
  exists buf1 buf2, ProtoMarshaler_MarshalTraces td1 = Some buf1 /\ ProtoMarshaler_MarshalTraces td2 = Some buf2 /\
    ProtoUnmarshaler_UnmarshalTraces (buf1 ++ buf2) =
      Some (inl (mkExportTraceServiceRequest
                   (ExportTraceServiceRequest_ResourceSpans td1 ++ ExportTraceServiceRequest_ResourceSpans td2))).
Proof.
  intros Ok1 Ok2 Hs.
  pose proof (codec_nonneg _ _ _ _ (ExportTraceServiceRequest_codec td1 Ok1)).
  pose proof (codec_nonneg _ _ _ _ (ExportTraceServiceRequest_codec td2 Ok2)).
  destruct (MarshalTraces_carries td1 [] Ok1 ltac:(lia)) as (b1 & M1 & [L1 _] & R1).
  destruct (MarshalTraces_carries td2 (ExportTraceServiceRequest_ResourceSpans td1) Ok2 ltac:(lia)) as (b2 & M2 & [L2 _] & R2).
  exists b1, b2. split; [done|split; [done|]].
  eapply reads_unmarshal; [by eapply reads_append|]. rewrite len_app. lia.
Qed.

(** ** Witnesses: a span with an attribute that nests values, an event, a link and flags *)

Definition some_value : AnyValue :=
  AnyValue_KvlistValue (Some (mkKeyValueList
    [mkKeyValue (AnyValue_ArrayValue (Some (mkArrayValue [AnyValue_IntValue (-1); AnyValue_nil; AnyValue_BoolValue true])))
       [107] 0;
     mkKeyValue (AnyValue_DoubleValue (2 ^ 63)) [] (-7)])).

Definition some_span : Span :=
  mkSpan (replicate 16 1) (replicate 8 2) [97; 61; 98] (emptyID spanIDSize) 257 [71; 69; 84] 2 (2 ^ 64 - 1) 300
    [mkKeyValue some_value [110] 0] 5 [mkSpanEvent 9 [101] [] 0] 0
    [mkSpanLink (replicate 16 3) (replicate 8 4) [] [] 1 256] (2 ^ 32 - 1) (mkStatus [98; 97; 100] 2).

Definition some_traces (spans : list Span) : ExportTraceServiceRequest :=
  mkExportTraceServiceRequest
    [mkResourceSpans (mkResource [mkKeyValue (AnyValue_StringValue [118]) [107] 0] [mkEntityRef [] [104] [[105]; []] []] 0)
       [mkScopeSpans (mkInstrumentationScope [115] [] [] 0) spans [117]] [] [mkScopeSpans zeroInstrumentationScope [] []]].

Lemma traces_wire_roundtrip_witness :
  ExportTraceServiceRequest_ok (some_traces [some_span]) = true /\
  exists buf, ProtoMarshaler_MarshalTraces (some_traces [some_span]) = Some buf /\
    ProtoUnmarshaler_UnmarshalTraces buf = Some (inl (some_traces [some_span])).
Proof.
  split; [vm_compute; reflexivity|].
  destruct (traces_wire_roundtrip (some_traces [some_span])) as (buf & M & _ & U & _);
    [vm_compute; reflexivity|vm_compute; reflexivity|]. exists buf. exact (conj M U).
Defined.

Lemma traces_read_safely_witness :
  bytes_ok [10; 2; 10] /\ ProtoUnmarshaler_UnmarshalTraces [10; 2; 10] = Some (inr ErrUnexpectedEOF) /\
  exists r, ProtoUnmarshaler_UnmarshalTraces [10; 2; 10] = Some r.
Proof.
  assert (bytes_ok [10; 2; 10]) as Hb by (repeat (apply Forall_cons; split; [lia|]); by apply Forall_nil).
  split; [exact Hb|split; [vm_compute; reflexivity|]].
  destruct (traces_read_safely [10; 2; 10] Hb) as (r & E & _); [vm_compute; reflexivity|]. exists r. exact E.
Defined.

Lemma concatenated_traces_merge_witness :
  exists buf1 buf2, ProtoMarshaler_MarshalTraces (some_traces [some_span]) = Some buf1 /\
    ProtoMarshaler_MarshalTraces (some_traces []) = Some buf2 /\
    ProtoUnmarshaler_UnmarshalTraces (buf1 ++ buf2) =
      Some (inl (mkExportTraceServiceRequest
        (ExportTraceServiceRequest_ResourceSpans (some_traces [some_span]) ++
         ExportTraceServiceRequest_ResourceSpans (some_traces [])))).
Proof.
  apply (concatenated_traces_merge (some_traces [some_span]) (some_traces [])); vm_compute; reflexivity.
Defined.
