(* ===== verification/LogsProto.v ===== *)
(** * LogsProto: the messages of logs

    pdata/internal: LogRecord, ScopeLogs, ResourceLogs, LogsData and
    ExportLogsServiceRequest (generated_proto_*.go), and the marshaler and unmarshaler of
    pdata/plog/pb.go.  A slice of pointers holds no nil. *)

From S2P Require Import Prelude.
From S2P Require Import GoErrors.
From S2P Require Import PData.
From S2P Require Import Storage.
From S2P Require Import ProtoWire.
From S2P Require Import ProtoMessage.
From S2P Require Import CommonProto.

(** ** LogRecord *)

Record LogRecord := mkLogRecord {
  LogRecord_TimeUnixNano : Z;
  LogRecord_ObservedTimeUnixNano : Z;
  LogRecord_SeverityNumber : Z;
  LogRecord_SeverityText : bytes;
  LogRecord_Body : AnyValue;
  LogRecord_Attributes : list KeyValue;
  LogRecord_DroppedAttributesCount : Z;
  LogRecord_Flags : Z;
  LogRecord_TraceId : bytes;
  LogRecord_SpanId : bytes;
  LogRecord_EventName : bytes;
}.

Definition zeroLogRecord : LogRecord := mkLogRecord 0 0 0 [] AnyValue_nil [] 0 0 (emptyID traceIDSize) (emptyID
  spanIDSize) [].

Definition LogRecord_ok (x : LogRecord) : bool :=
  is_u64 (LogRecord_TimeUnixNano x) &&
  is_u64 (LogRecord_ObservedTimeUnixNano x) &&
  is_i32 (LogRecord_SeverityNumber x) &&
  AnyValue_ok (LogRecord_Body x) &&
  forallb KeyValue_ok (LogRecord_Attributes x) &&
  is_u32 (LogRecord_DroppedAttributesCount x) &&
  is_u32 (LogRecord_Flags x) &&
  is_ID traceIDSize (LogRecord_TraceId x) &&
  is_ID spanIDSize (LogRecord_SpanId x).

Definition LogRecord_SizeProto (orig : LogRecord) : Z :=
  size_if (nonzero (LogRecord_TimeUnixNano orig)) 9 +
  size_if (nonzero (LogRecord_ObservedTimeUnixNano orig)) 9 +
  size_if (nonzero (LogRecord_SeverityNumber orig)) (1 + Sov (u64 (LogRecord_SeverityNumber orig))) +
  size_if (nonempty (LogRecord_SeverityText orig)) (1 + lengthPrefixed (len (LogRecord_SeverityText orig))) +
  (1 + lengthPrefixed (AnyValue_SizeProto (LogRecord_Body orig))) +
  sum_of (fun x => 1 + lengthPrefixed (KeyValue_SizeProto x)) (LogRecord_Attributes orig) +
  size_if (nonzero (LogRecord_DroppedAttributesCount orig)) (1 + Sov (u64 (LogRecord_DroppedAttributesCount orig)))
    +
  size_if (nonzero (LogRecord_Flags orig)) 5 +
  (1 + lengthPrefixed (TraceID_SizeProto (LogRecord_TraceId orig))) +
  (1 + lengthPrefixed (SpanID_SizeProto (LogRecord_SpanId orig))) +
  size_if (nonempty (LogRecord_EventName orig)) (1 + lengthPrefixed (len (LogRecord_EventName orig))).

Definition LogRecord_MarshalProto (orig : LogRecord) : bytes -> option (bytes * Z) :=
  marshal (
    when (nonzero (LogRecord_TimeUnixNano orig)) (putFixed 8 (LogRecord_TimeUnixNano orig) ;; putByte 0x9) ;;
    when (nonzero (LogRecord_ObservedTimeUnixNano orig)) (putFixed 8 (LogRecord_ObservedTimeUnixNano orig) ;;
      putByte 0x59) ;;
    when (nonzero (LogRecord_SeverityNumber orig)) (putVarint (u64 (LogRecord_SeverityNumber orig)) ;; putByte
      0x10) ;;
    when (nonempty (LogRecord_SeverityText orig)) (putString (LogRecord_SeverityText orig) ;; putByte 0x1a) ;;
    (putMessage (AnyValue_MarshalProto (LogRecord_Body orig)) ;; putByte 0x2a) ;;
    backwards (fun x => putMessage (KeyValue_MarshalProto x) ;; putByte 0x32) (LogRecord_Attributes orig) ;;
    when (nonzero (LogRecord_DroppedAttributesCount orig)) (putVarint (u64 (LogRecord_DroppedAttributesCount orig))
      ;; putByte 0x38) ;;
    when (nonzero (LogRecord_Flags orig)) (putFixed 4 (LogRecord_Flags orig) ;; putByte 0x45) ;;
    (putMessage (TraceID_MarshalProto (LogRecord_TraceId orig)) ;; putByte 0x4a) ;;
    (putMessage (SpanID_MarshalProto (LogRecord_SpanId orig)) ;; putByte 0x52) ;;
    when (nonempty (LogRecord_EventName orig)) (putString (LogRecord_EventName orig) ;; putByte 0x62))%writer.

Definition LogRecord_cases : switch LogRecord := fun orig fieldNum wireType buf pos =>
  let '(mkLogRecord time observed severity text body attrs dropped flags tid sid event) := orig in
  match fieldNum with
  | 1 => i64Case wireType buf pos (fun num => mkLogRecord num observed severity text body attrs dropped flags tid
    sid event)
  | 11 => i64Case wireType buf pos (fun num => mkLogRecord time num severity text body attrs dropped flags tid sid
    event)
  | 2 => varintCase wireType buf pos (fun num => mkLogRecord time observed (i32 num) text body attrs dropped flags
    tid sid event)
  | 3 => lenCase wireType buf pos (fun s => sets (mkLogRecord time observed severity s body attrs dropped flags tid
    sid event))
  | 5 => lenCase wireType buf pos (fun s =>
           sets_message (fun x => mkLogRecord time observed severity text x attrs dropped flags tid sid event)
             (AnyValue_UnmarshalProto s body))
  | 6 => lenCase wireType buf pos (fun s =>
           sets_message (fun x => mkLogRecord time observed severity text body (attrs ++ [x]) dropped flags tid sid
             event) (KeyValue_UnmarshalProto s zeroKeyValue))
  | 7 => varintCase wireType buf pos (fun num => mkLogRecord time observed severity text body attrs (u32 num) flags
    tid sid event)
  | 8 => i32Case wireType buf pos (fun num => mkLogRecord time observed severity text body attrs dropped num tid
    sid event)
  | 9 => lenCase wireType buf pos (fun s =>
           sets_message (fun id => mkLogRecord time observed severity text body attrs dropped flags id sid event)
             (TraceID_UnmarshalProto s))
  | 10 => lenCase wireType buf pos (fun s =>
           sets_message (fun id => mkLogRecord time observed severity text body attrs dropped flags tid id event)
             (SpanID_UnmarshalProto s))
  | 12 => lenCase wireType buf pos (fun s => sets (mkLogRecord time observed severity text body attrs dropped flags
    tid sid s))
  | _ => unknownCase orig wireType buf pos
  end.

Definition LogRecord_UnmarshalProto : bytes -> LogRecord -> option (LogRecord + error) := unmarshal LogRecord_cases.

(** ** ScopeLogs *)

Record ScopeLogs := mkScopeLogs {
  ScopeLogs_Scope : InstrumentationScope;
  ScopeLogs_LogRecords : list LogRecord;
  ScopeLogs_SchemaUrl : bytes;
}.

Definition zeroScopeLogs : ScopeLogs := mkScopeLogs zeroInstrumentationScope [] [].

Definition ScopeLogs_ok (x : ScopeLogs) : bool :=
  InstrumentationScope_ok (ScopeLogs_Scope x) &&
  forallb LogRecord_ok (ScopeLogs_LogRecords x).

Definition ScopeLogs_SizeProto (orig : ScopeLogs) : Z :=
  (1 + lengthPrefixed (InstrumentationScope_SizeProto (ScopeLogs_Scope orig))) +
  sum_of (fun x => 1 + lengthPrefixed (LogRecord_SizeProto x)) (ScopeLogs_LogRecords orig) +
  size_if (nonempty (ScopeLogs_SchemaUrl orig)) (1 + lengthPrefixed (len (ScopeLogs_SchemaUrl orig))).

Definition ScopeLogs_MarshalProto (orig : ScopeLogs) : bytes -> option (bytes * Z) :=
  marshal (
    (putMessage (InstrumentationScope_MarshalProto (ScopeLogs_Scope orig)) ;; putByte 0xa) ;;
    backwards (fun x => putMessage (LogRecord_MarshalProto x) ;; putByte 0x12) (ScopeLogs_LogRecords orig) ;;
    when (nonempty (ScopeLogs_SchemaUrl orig)) (putString (ScopeLogs_SchemaUrl orig) ;; putByte 0x1a))%writer.

Definition ScopeLogs_cases : switch ScopeLogs := fun orig fieldNum wireType buf pos =>
  let '(mkScopeLogs scope records url) := orig in
  match fieldNum with
  | 1 => lenCase wireType buf pos (fun s =>
           sets_message (fun x => mkScopeLogs x records url) (InstrumentationScope_UnmarshalProto s scope))
  | 2 => lenCase wireType buf pos (fun s =>
           sets_message (fun x => mkScopeLogs scope (records ++ [x]) url) (LogRecord_UnmarshalProto s
             zeroLogRecord))
  | 3 => lenCase wireType buf pos (fun s => sets (mkScopeLogs scope records s))
  | _ => unknownCase orig wireType buf pos
  end.

Definition ScopeLogs_UnmarshalProto : bytes -> ScopeLogs -> option (ScopeLogs + error) := unmarshal ScopeLogs_cases.

(** ** ResourceLogs *)

Record ResourceLogs := mkResourceLogs {
  ResourceLogs_Resource : Resource;
  ResourceLogs_ScopeLogs : list ScopeLogs;
  ResourceLogs_SchemaUrl : bytes;
  ResourceLogs_DeprecatedScopeLogs : list ScopeLogs;
}.

Definition zeroResourceLogs : ResourceLogs := mkResourceLogs zeroResource [] [] [].

Definition ResourceLogs_ok (x : ResourceLogs) : bool :=
  Resource_ok (ResourceLogs_Resource x) &&
  forallb ScopeLogs_ok (ResourceLogs_ScopeLogs x) &&
  forallb ScopeLogs_ok (ResourceLogs_DeprecatedScopeLogs x).

Definition ResourceLogs_SizeProto (orig : ResourceLogs) : Z :=
  (1 + lengthPrefixed (Resource_SizeProto (ResourceLogs_Resource orig))) +
  sum_of (fun x => 1 + lengthPrefixed (ScopeLogs_SizeProto x)) (ResourceLogs_ScopeLogs orig) +
  size_if (nonempty (ResourceLogs_SchemaUrl orig)) (1 + lengthPrefixed (len (ResourceLogs_SchemaUrl orig))) +
  sum_of (fun x => 2 + lengthPrefixed (ScopeLogs_SizeProto x)) (ResourceLogs_DeprecatedScopeLogs orig).

Definition ResourceLogs_MarshalProto (orig : ResourceLogs) : bytes -> option (bytes * Z) :=
  marshal (
    (putMessage (Resource_MarshalProto (ResourceLogs_Resource orig)) ;; putByte 0xa) ;;
    backwards (fun x => putMessage (ScopeLogs_MarshalProto x) ;; putByte 0x12) (ResourceLogs_ScopeLogs orig) ;;
    when (nonempty (ResourceLogs_SchemaUrl orig)) (putString (ResourceLogs_SchemaUrl orig) ;; putByte 0x1a) ;;
    backwards (fun x => putMessage (ScopeLogs_MarshalProto x) ;; putByte 0x3e ;; putByte 0xc2)
      (ResourceLogs_DeprecatedScopeLogs orig))%writer.

Definition ResourceLogs_cases : switch ResourceLogs := fun orig fieldNum wireType buf pos =>
  let '(mkResourceLogs resource scopes url deprecated) := orig in
  match fieldNum with
  | 1 => lenCase wireType buf pos (fun s =>
           sets_message (fun x => mkResourceLogs x scopes url deprecated) (Resource_UnmarshalProto s resource))
  | 2 => lenCase wireType buf pos (fun s =>
           sets_message (fun x => mkResourceLogs resource (scopes ++ [x]) url deprecated) (ScopeLogs_UnmarshalProto
             s zeroScopeLogs))
  | 3 => lenCase wireType buf pos (fun s => sets (mkResourceLogs resource scopes s deprecated))
  | 1000 => lenCase wireType buf pos (fun s =>
           sets_message (fun x => mkResourceLogs resource scopes url (deprecated ++ [x])) (ScopeLogs_UnmarshalProto
             s zeroScopeLogs))
  | _ => unknownCase orig wireType buf pos
  end.

Definition ResourceLogs_UnmarshalProto : bytes -> ResourceLogs -> option (ResourceLogs + error) := unmarshal
  ResourceLogs_cases.

(** ** LogsData *)

Record LogsData := mkLogsData {
  LogsData_ResourceLogs : list ResourceLogs;
}.

Definition zeroLogsData : LogsData := mkLogsData [].

Definition LogsData_ok (x : LogsData) : bool :=
  forallb ResourceLogs_ok (LogsData_ResourceLogs x).

Definition LogsData_SizeProto (orig : LogsData) : Z :=
  sum_of (fun x => 1 + lengthPrefixed (ResourceLogs_SizeProto x)) (LogsData_ResourceLogs orig).

Definition LogsData_MarshalProto (orig : LogsData) : bytes -> option (bytes * Z) :=
  marshal (
    backwards (fun x => putMessage (ResourceLogs_MarshalProto x) ;; putByte 0xa) (LogsData_ResourceLogs
      orig))%writer.

Definition LogsData_cases : switch LogsData := fun orig fieldNum wireType buf pos =>
  let '(mkLogsData rls) := orig in
  match fieldNum with
  | 1 => lenCase wireType buf pos (fun s =>
           sets_message (fun x => mkLogsData (rls ++ [x])) (ResourceLogs_UnmarshalProto s zeroResourceLogs))
  | _ => unknownCase orig wireType buf pos
  end.

Definition LogsData_UnmarshalProto : bytes -> LogsData -> option (LogsData + error) := unmarshal LogsData_cases.

(** ** ExportLogsServiceRequest *)

Record ExportLogsServiceRequest := mkExportLogsServiceRequest {
  ExportLogsServiceRequest_ResourceLogs : list ResourceLogs;
}.

Definition zeroExportLogsServiceRequest : ExportLogsServiceRequest := mkExportLogsServiceRequest [].

Definition ExportLogsServiceRequest_ok (x : ExportLogsServiceRequest) : bool :=
  forallb ResourceLogs_ok (ExportLogsServiceRequest_ResourceLogs x).

Definition ExportLogsServiceRequest_SizeProto (orig : ExportLogsServiceRequest) : Z :=
  sum_of (fun x => 1 + lengthPrefixed (ResourceLogs_SizeProto x)) (ExportLogsServiceRequest_ResourceLogs orig).

Definition ExportLogsServiceRequest_MarshalProto (orig : ExportLogsServiceRequest) : bytes -> option (bytes * Z) :=
  marshal (
    backwards (fun x => putMessage (ResourceLogs_MarshalProto x) ;; putByte 0xa)
      (ExportLogsServiceRequest_ResourceLogs orig))%writer.

Definition ExportLogsServiceRequest_cases : switch ExportLogsServiceRequest := fun orig fieldNum wireType buf pos =>
  let '(mkExportLogsServiceRequest rls) := orig in
  match fieldNum with
  | 1 => lenCase wireType buf pos (fun s =>
           sets_message (fun x => mkExportLogsServiceRequest (rls ++ [x])) (ResourceLogs_UnmarshalProto s
             zeroResourceLogs))
  | _ => unknownCase orig wireType buf pos
  end.

Definition ExportLogsServiceRequest_UnmarshalProto : bytes -> ExportLogsServiceRequest -> option
  (ExportLogsServiceRequest + error) := unmarshal ExportLogsServiceRequest_cases.

(** ** pdata/plog/pb.go

    The Logs of the API wraps an ExportLogsServiceRequest, which starts empty. *)

Definition ProtoMarshaler_MarshalLogs (ld : ExportLogsServiceRequest) : option bytes :=
  let size := ExportLogsServiceRequest_SizeProto ld in
  match ExportLogsServiceRequest_MarshalProto ld (replicate (Z.to_nat size) 0) with
  | Some (buf, _) => Some buf
  | None => None
  end.

Definition ProtoUnmarshaler_UnmarshalLogs (buf : bytes) : option (ExportLogsServiceRequest + error) :=
  ExportLogsServiceRequest_UnmarshalProto buf zeroExportLogsServiceRequest.
