(* ===== verification/LogsProtoProofs.v ===== *)
(** * LogsProtoProofs: logs round-trip through the wire format

    One lemma per message composes its fields; the theorems are about whole logs. *)

From S2P Require Import Prelude.
From S2P Require Import GoErrors.
From S2P Require Import PData.
From S2P Require Import Storage.
From S2P Require Import ProtoWire.
From S2P Require Import ProtoMessage.
From S2P Require Import ProtoMessageProofs.
From S2P Require Import CommonProto.
From S2P Require Import CommonProtoProofs.
From S2P Require Import LogsProto.

(** ** LogRecord *)

Lemma LogRecord_codec x : LogRecord_ok x = true ->
  codec (LogRecord_MarshalProto x) (LogRecord_SizeProto x) (fun s => LogRecord_UnmarshalProto s zeroLogRecord) x.
Proof.
  destruct x as [time observed severity text body attrs dropped flags tid sid event]. intros Hok. unfold
    LogRecord_ok in Hok. cbn in Hok.
  rewrite ?andb_true_iff in Hok. destruct_and?. eapply carries_codec.
  - fields 10%nat.
    + apply (carries_opt_string _ 0x62 event (fun v => mkLogRecord 0 0 0 [] AnyValue_nil [] 0 0 (emptyID
      traceIDSize) (emptyID spanIDSize) v)); [lia|reflexivity].
    + eapply (carries_sub _ 0x52 _ _ _ _ sid (fun v => mkLogRecord 0 0 0 [] AnyValue_nil [] 0 0 (emptyID
      traceIDSize) v event)); [lia|reflexivity|reflexivity|by apply SpanID_codec].
    + eapply (carries_sub _ 0x4a _ _ _ _ tid (fun v => mkLogRecord 0 0 0 [] AnyValue_nil [] 0 0 v sid event));
      [lia|reflexivity|reflexivity|by apply TraceID_codec].
    + apply (carries_opt_i32 _ 0x45 flags (fun v => mkLogRecord 0 0 0 [] AnyValue_nil [] 0 v tid sid event));
      [lia|reflexivity|done].
    + apply (carries_opt_varint _ 0x38 dropped u32 (fun v => mkLogRecord 0 0 0 [] AnyValue_nil [] v flags tid sid
      event)); [lia|reflexivity|by apply u32_u64].
    + eapply (carries_messages _ 0x32 KeyValue_MarshalProto KeyValue_SizeProto _ (fun v => mkLogRecord 0 0 0 []
      AnyValue_nil v dropped flags tid sid event));
        [lia|reflexivity|reflexivity|by apply KeyValues_codec].
    + eapply (carries_sub _ 0x2a _ _ _ _ body (fun v => mkLogRecord 0 0 0 [] v attrs dropped flags tid sid event));
      [lia|reflexivity|reflexivity|by apply AnyValue_codec].
    + apply (carries_opt_string _ 0x1a text (fun v => mkLogRecord 0 0 0 v body attrs dropped flags tid sid event));
      [lia|reflexivity].
    + apply (carries_opt_varint _ 0x10 severity i32 (fun v => mkLogRecord 0 0 v text body attrs dropped flags tid
      sid event)); [lia|reflexivity|by apply i32_u64].
    + apply (carries_opt_i64 _ 0x59 observed (fun v => mkLogRecord 0 v severity text body attrs dropped flags tid
      sid event)); [lia|reflexivity|done].
    + apply (carries_opt_i64 _ 0x9 time (fun v => mkLogRecord v observed severity text body attrs dropped flags tid
      sid event)); [lia|reflexivity|done].
  - unfold LogRecord_SizeProto. cbn -[lengthPrefixed size_if]. lia.
Qed.

Lemma LogRecord_list_codec l : forallb LogRecord_ok l = true ->
  Forall (fun x => codec (LogRecord_MarshalProto x) (LogRecord_SizeProto x) (fun s => LogRecord_UnmarshalProto s
    zeroLogRecord) x) l.
Proof. apply Forall_ok, Forall_true, LogRecord_codec. Qed.

Lemma zeroLogRecord_ok : is_ok LogRecord_ok zeroLogRecord.
Proof. done. Qed.

Lemma LogRecord_UnmarshalProto_ok s x : bytes_ok s -> len s < 2 ^ 63 -> is_ok LogRecord_ok x ->
  outcome_ok (is_ok LogRecord_ok) (LogRecord_UnmarshalProto s x).
Proof.
  intros Hs Hl Hx. apply unmarshal_ok; [|done|done|done]. clear x Hx.
  intros [time observed severity text body attrs dropped flags tid sid event] f wt buf pos Hv Hb1 Hb2 Hn Hp.
  unfold LogRecord_cases. each_case f; ranges Hv LogRecord_ok; case_value LogRecord_ok.
Qed.

#[export] Hint Resolve zeroLogRecord_ok LogRecord_UnmarshalProto_ok : codec.

(** ** ScopeLogs *)

Lemma ScopeLogs_codec x : ScopeLogs_ok x = true ->
  codec (ScopeLogs_MarshalProto x) (ScopeLogs_SizeProto x) (fun s => ScopeLogs_UnmarshalProto s zeroScopeLogs) x.
Proof.
  destruct x as [scope records url]. intros Hok. unfold ScopeLogs_ok in Hok. cbn in Hok.
  rewrite ?andb_true_iff in Hok. destruct_and?. eapply carries_codec.
  - fields 2%nat.
    + apply (carries_opt_string _ 0x1a url (fun v => mkScopeLogs zeroInstrumentationScope [] v)); [lia|reflexivity].
    + eapply (carries_messages _ 0x12 LogRecord_MarshalProto LogRecord_SizeProto _ (fun v => mkScopeLogs
      zeroInstrumentationScope v url));
        [lia|reflexivity|reflexivity|by apply LogRecord_list_codec].
    + eapply (carries_sub _ 0xa _ _ _ _ scope (fun v => mkScopeLogs v records url));
      [lia|reflexivity|reflexivity|by apply InstrumentationScope_codec].
  - unfold ScopeLogs_SizeProto. cbn -[lengthPrefixed size_if]. lia.
Qed.

Lemma ScopeLogs_list_codec l : forallb ScopeLogs_ok l = true ->
  Forall (fun x => codec (ScopeLogs_MarshalProto x) (ScopeLogs_SizeProto x) (fun s => ScopeLogs_UnmarshalProto s
    zeroScopeLogs) x) l.
Proof. apply Forall_ok, Forall_true, ScopeLogs_codec. Qed.

Lemma zeroScopeLogs_ok : is_ok ScopeLogs_ok zeroScopeLogs.
Proof. done. Qed.

Lemma ScopeLogs_UnmarshalProto_ok s x : bytes_ok s -> len s < 2 ^ 63 -> is_ok ScopeLogs_ok x ->
  outcome_ok (is_ok ScopeLogs_ok) (ScopeLogs_UnmarshalProto s x).
Proof.
  intros Hs Hl Hx. apply unmarshal_ok; [|done|done|done]. clear x Hx.
  intros [scope records url] f wt buf pos Hv Hb1 Hb2 Hn Hp.
  unfold ScopeLogs_cases. each_case f; ranges Hv ScopeLogs_ok; case_value ScopeLogs_ok.
Qed.

#[export] Hint Resolve zeroScopeLogs_ok ScopeLogs_UnmarshalProto_ok : codec.

(** ** ResourceLogs *)

Lemma ResourceLogs_codec x : ResourceLogs_ok x = true ->
  codec (ResourceLogs_MarshalProto x) (ResourceLogs_SizeProto x) (fun s => ResourceLogs_UnmarshalProto s
    zeroResourceLogs) x.
Proof.
  destruct x as [resource scopes url deprecated]. intros Hok. unfold ResourceLogs_ok in Hok. cbn in Hok.
  rewrite ?andb_true_iff in Hok. destruct_and?. eapply carries_codec.
  - fields 3%nat.
    + eapply (carries_messages2 _ 0x3e 0xc2 ScopeLogs_MarshalProto ScopeLogs_SizeProto _ (fun v => mkResourceLogs
      zeroResource [] [] v));
        [lia|lia|reflexivity|reflexivity|by apply ScopeLogs_list_codec].
    + apply (carries_opt_string _ 0x1a url (fun v => mkResourceLogs zeroResource [] v deprecated));
      [lia|reflexivity].
    + eapply (carries_messages _ 0x12 ScopeLogs_MarshalProto ScopeLogs_SizeProto _ (fun v => mkResourceLogs
      zeroResource v url deprecated));
        [lia|reflexivity|reflexivity|by apply ScopeLogs_list_codec].
    + eapply (carries_sub _ 0xa _ _ _ _ resource (fun v => mkResourceLogs v scopes url deprecated));
      [lia|reflexivity|reflexivity|by apply Resource_codec].
  - unfold ResourceLogs_SizeProto. cbn -[lengthPrefixed size_if]. lia.
Qed.

Lemma ResourceLogs_list_codec l : forallb ResourceLogs_ok l = true ->
  Forall (fun x => codec (ResourceLogs_MarshalProto x) (ResourceLogs_SizeProto x) (fun s =>
    ResourceLogs_UnmarshalProto s zeroResourceLogs) x) l.
Proof. apply Forall_ok, Forall_true, ResourceLogs_codec. Qed.

Lemma zeroResourceLogs_ok : is_ok ResourceLogs_ok zeroResourceLogs.
Proof. done. Qed.

Lemma ResourceLogs_UnmarshalProto_ok s x : bytes_ok s -> len s < 2 ^ 63 -> is_ok ResourceLogs_ok x ->
  outcome_ok (is_ok ResourceLogs_ok) (ResourceLogs_UnmarshalProto s x).
Proof.
  intros Hs Hl Hx. apply unmarshal_ok; [|done|done|done]. clear x Hx.
  intros [resource scopes url deprecated] f wt buf pos Hv Hb1 Hb2 Hn Hp.
  unfold ResourceLogs_cases. each_case f; ranges Hv ResourceLogs_ok; case_value ResourceLogs_ok.
Qed.

#[export] Hint Resolve zeroResourceLogs_ok ResourceLogs_UnmarshalProto_ok : codec.

(** ** LogsData *)

Lemma LogsData_codec x : LogsData_ok x = true ->
  codec (LogsData_MarshalProto x) (LogsData_SizeProto x) (fun s => LogsData_UnmarshalProto s zeroLogsData) x.
Proof.
  destruct x as [rls]. intros Hok. unfold LogsData_ok in Hok. cbn in Hok.
  rewrite ?andb_true_iff in Hok. destruct_and?. eapply carries_codec.
  - eapply (carries_messages _ 0xa ResourceLogs_MarshalProto ResourceLogs_SizeProto _ (fun v => mkLogsData v));
        [lia|reflexivity|reflexivity|by apply ResourceLogs_list_codec].
  - done.
Qed.

Lemma LogsData_list_codec l : forallb LogsData_ok l = true ->
  Forall (fun x => codec (LogsData_MarshalProto x) (LogsData_SizeProto x) (fun s => LogsData_UnmarshalProto s
    zeroLogsData) x) l.
Proof. apply Forall_ok, Forall_true, LogsData_codec. Qed.

Lemma zeroLogsData_ok : is_ok LogsData_ok zeroLogsData.
Proof. done. Qed.

Lemma LogsData_UnmarshalProto_ok s x : bytes_ok s -> len s < 2 ^ 63 -> is_ok LogsData_ok x ->
  outcome_ok (is_ok LogsData_ok) (LogsData_UnmarshalProto s x).
Proof.
  intros Hs Hl Hx. apply unmarshal_ok; [|done|done|done]. clear x Hx.
  intros [rls] f wt buf pos Hv Hb1 Hb2 Hn Hp.
  unfold LogsData_cases. each_case f; ranges Hv LogsData_ok; case_value LogsData_ok.
Qed.

#[export] Hint Resolve zeroLogsData_ok LogsData_UnmarshalProto_ok : codec.

(** ** ExportLogsServiceRequest *)

Lemma ExportLogsServiceRequest_codec x : ExportLogsServiceRequest_ok x = true ->
  codec (ExportLogsServiceRequest_MarshalProto x) (ExportLogsServiceRequest_SizeProto x) (fun s =>
    ExportLogsServiceRequest_UnmarshalProto s zeroExportLogsServiceRequest) x.
Proof.
  destruct x as [rls]. intros Hok. unfold ExportLogsServiceRequest_ok in Hok. cbn in Hok.
  rewrite ?andb_true_iff in Hok. destruct_and?. eapply carries_codec.
  - eapply (carries_messages _ 0xa ResourceLogs_MarshalProto ResourceLogs_SizeProto _ (fun v =>
    mkExportLogsServiceRequest v));
        [lia|reflexivity|reflexivity|by apply ResourceLogs_list_codec].
  - done.
Qed.

Lemma ExportLogsServiceRequest_list_codec l : forallb ExportLogsServiceRequest_ok l = true ->
  Forall (fun x => codec (ExportLogsServiceRequest_MarshalProto x) (ExportLogsServiceRequest_SizeProto x) (fun s =>
    ExportLogsServiceRequest_UnmarshalProto s zeroExportLogsServiceRequest) x) l.
Proof. apply Forall_ok, Forall_true, ExportLogsServiceRequest_codec. Qed.

Lemma zeroExportLogsServiceRequest_ok : is_ok ExportLogsServiceRequest_ok zeroExportLogsServiceRequest.
Proof. done. Qed.

Lemma ExportLogsServiceRequest_UnmarshalProto_ok s x : bytes_ok s -> len s < 2 ^ 63 -> is_ok
  ExportLogsServiceRequest_ok x ->
  outcome_ok (is_ok ExportLogsServiceRequest_ok) (ExportLogsServiceRequest_UnmarshalProto s x).
Proof.
  intros Hs Hl Hx. apply unmarshal_ok; [|done|done|done]. clear x Hx.
  intros [rls] f wt buf pos Hv Hb1 Hb2 Hn Hp.
  unfold ExportLogsServiceRequest_cases. each_case f; ranges Hv ExportLogsServiceRequest_ok; case_value
    ExportLogsServiceRequest_ok.
Qed.

#[export] Hint Resolve zeroExportLogsServiceRequest_ok ExportLogsServiceRequest_UnmarshalProto_ok : codec.

(** ** Whole logs *)

(** What the writer of a request emits is what MarshalLogs returns, and adds its resource
    logs to those read before it. *)
Lemma MarshalLogs_carries ld acc :
  ExportLogsServiceRequest_ok ld = true -> ExportLogsServiceRequest_SizeProto ld < 2 ^ 63 ->
  exists buf, ProtoMarshaler_MarshalLogs ld = Some buf /\
    marshals (ExportLogsServiceRequest_MarshalProto ld) (ExportLogsServiceRequest_SizeProto ld) buf /\
    reads ExportLogsServiceRequest_cases buf (mkExportLogsServiceRequest acc)
      (mkExportLogsServiceRequest (acc ++ ExportLogsServiceRequest_ResourceLogs ld)).
Proof.
  destruct ld as [rls]. intros Hok Hs.
  destruct (request_carries ExportLogsServiceRequest_cases ResourceLogs_MarshalProto ResourceLogs_SizeProto
    (fun s => ResourceLogs_UnmarshalProto s zeroResourceLogs) mkExportLogsServiceRequest _ rls acc
    ltac:(reflexivity) ltac:(reflexivity) (ResourceLogs_list_codec _ Hok) Hs) as (buf & E & M & R).
  exists buf. split; [|by split]. unfold ProtoMarshaler_MarshalLogs. cbv zeta.
  unfold ExportLogsServiceRequest_MarshalProto, ExportLogsServiceRequest_SizeProto. cbn [ExportLogsServiceRequest_ResourceLogs].
  by rewrite E.
Qed.

(** An encoding of logs is empty or starts with the tag of its elements. *)
Lemma MarshalLogs_head ld buf :
  ExportLogsServiceRequest_ok ld = true -> ExportLogsServiceRequest_SizeProto ld < 2 ^ 63 ->
  ProtoMarshaler_MarshalLogs ld = Some buf -> buf = [] \/ exists rest, buf = 0xa :: rest.
Proof.
  intros Hok Hs M. destruct (MarshalLogs_carries ld [] Hok Hs) as (b & M' & W & _). rewrite M in M'. injection M' as <-.
  exact (request_head _ _ _ _ buf (ResourceLogs_list_codec _ Hok) W Hs).
Qed.

(** The wire format of logs: within any buffer with room, MarshalProto writes exactly
    SizeProto bytes and nothing before them; MarshalLogs returns those bytes, and
    UnmarshalLogs reads them back to the same logs, the nested body of every record
    included. *)
Theorem logs_wire_roundtrip ld :
  ExportLogsServiceRequest_ok ld = true -> ExportLogsServiceRequest_SizeProto ld < 2 ^ 63 ->
  exists buf, ProtoMarshaler_MarshalLogs ld = Some buf /\ len buf = ExportLogsServiceRequest_SizeProto ld /\
    ProtoUnmarshaler_UnmarshalLogs buf = Some (inl ld) /\
    forall pre old, len old = len buf -> len (pre ++ old) < 2 ^ 63 ->
      ExportLogsServiceRequest_MarshalProto ld (pre ++ old) = Some (pre ++ buf, len buf).
Proof.
  intros Hok Hs. destruct (MarshalLogs_carries ld [] Hok Hs) as (buf & M & [L W] & R). exists buf.
  split; [done|split; [done|split]].
  - apply reads_unmarshal in R; [|lia]. unfold ProtoUnmarshaler_UnmarshalLogs. by destruct ld.
  - intros pre old Ho Hb. rewrite L in *. by apply W.
Qed.

(** Reading logs from any bytes whatever: UnmarshalLogs returns logs or an error, it never
    indexes out of range and always ends; and the logs it returns hold only values of their
    Go types. *)
Theorem logs_read_safely buf :
  bytes_ok buf -> len buf < 2 ^ 63 ->
  exists r, ProtoUnmarshaler_UnmarshalLogs buf = Some r /\
    forall ld, r = inl ld -> ExportLogsServiceRequest_ok ld = true.
Proof.
  intros Hb Hl.
  destruct (ExportLogsServiceRequest_UnmarshalProto_ok buf zeroExportLogsServiceRequest Hb Hl) as (r & E & Hr); [done|].
  exists r. split; [exact E|exact Hr].
Qed.

(** Two payloads of logs, one after the other, are read as one that has the resource logs of
    both in order. *)
Theorem concatenated_logs_merge ld1 ld2 :
  ExportLogsServiceRequest_ok ld1 = true -> ExportLogsServiceRequest_ok ld2 = true ->
  ExportLogsServiceRequest_SizeProto ld1 + ExportLogsServiceRequest_SizeProto ld2 < 2 ^ 63 ->
  exists buf1 buf2, ProtoMarshaler_MarshalLogs ld1 = Some buf1 /\ ProtoMarshaler_MarshalLogs ld2 = Some buf2 /\
    ProtoUnmarshaler_UnmarshalLogs (buf1 ++ buf2) =
      Some (inl (mkExportLogsServiceRequest
                   (ExportLogsServiceRequest_ResourceLogs ld1 ++ ExportLogsServiceRequest_ResourceLogs ld2))).
Proof.
  intros Ok1 Ok2 Hs.
  pose proof (codec_nonneg _ _ _ _ (ExportLogsServiceRequest_codec ld1 Ok1)).
  pose proof (codec_nonneg _ _ _ _ (ExportLogsServiceRequest_codec ld2 Ok2)).
  destruct (MarshalLogs_carries ld1 [] Ok1 ltac:(lia)) as (b1 & M1 & [L1 _] & R1).
  destruct (MarshalLogs_carries ld2 (ExportLogsServiceRequest_ResourceLogs ld1) Ok2 ltac:(lia)) as (b2 & M2 & [L2 _] & R2).
  exists b1, b2. split; [done|split; [done|]].
  eapply reads_unmarshal; [by eapply reads_append|]. rewrite len_app. lia.
Qed.

(** ** Witnesses: a record whose body nests values *)

Definition some_record : LogRecord :=
  mkLogRecord 1 (2 ^ 64 - 1) 9 [105; 110; 102; 111]
    (AnyValue_KvlistValue (Some (mkKeyValueList
       [mkKeyValue (AnyValue_ArrayValue (Some (mkArrayValue [AnyValue_IntValue (-1); AnyValue_nil]))) [107] 0])))
    [mkKeyValue (AnyValue_BytesValue [0; 255]) [98] 0] 7 (2 ^ 32 - 1) (replicate 16 5) (emptyID spanIDSize) [101].

Definition some_logs (records : list LogRecord) : ExportLogsServiceRequest :=
  mkExportLogsServiceRequest
    [mkResourceLogs zeroResource [mkScopeLogs (mkInstrumentationScope [115] [] [] 0) records [117]] [104]
       [mkScopeLogs zeroInstrumentationScope [] []]].

Lemma logs_wire_roundtrip_witness :
  ExportLogsServiceRequest_ok (some_logs [some_record]) = true /\
  exists buf, ProtoMarshaler_MarshalLogs (some_logs [some_record]) = Some buf /\
    ProtoUnmarshaler_UnmarshalLogs buf = Some (inl (some_logs [some_record])).
Proof.
  split; [vm_compute; reflexivity|].
  destruct (logs_wire_roundtrip (some_logs [some_record])) as (buf & M & _ & U & _);
    [vm_compute; reflexivity|vm_compute; reflexivity|]. exists buf. exact (conj M U).
Defined.

Lemma logs_read_safely_witness :
  bytes_ok [10; 2; 10] /\ exists r, ProtoUnmarshaler_UnmarshalLogs [10; 2; 10] = Some r.
Proof.
  assert (bytes_ok [10; 2; 10]) as Hb by (repeat (apply Forall_cons; split; [lia|]); by apply Forall_nil).
  split; [exact Hb|].
  destruct (logs_read_safely [10; 2; 10] Hb) as (r & E & _); [vm_compute; reflexivity|]. exists r. exact E.
Defined.

Lemma concatenated_logs_merge_witness :
  exists buf1 buf2, ProtoMarshaler_MarshalLogs (some_logs [some_record]) = Some buf1 /\
    ProtoMarshaler_MarshalLogs (some_logs []) = Some buf2 /\
    ProtoUnmarshaler_UnmarshalLogs (buf1 ++ buf2) =
      Some (inl (mkExportLogsServiceRequest
        (ExportLogsServiceRequest_ResourceLogs (some_logs [some_record]) ++
         ExportLogsServiceRequest_ResourceLogs (some_logs [])))).
Proof.
  apply (concatenated_logs_merge (some_logs [some_record]) (some_logs [])); vm_compute; reflexivity.
Defined.
