(* ===== verification/MetricsProto.v ===== *)
(** * MetricsProto: the messages of metrics

    pdata/internal: Exemplar, the data points of the five kinds of metrics, Gauge, Sum,
    Histogram, ExponentialHistogram, Summary, Metric, ScopeMetrics, ResourceMetrics,
    MetricsData and ExportMetricsServiceRequest (generated_proto_*.go), and the marshaler
    and unmarshaler of pdata/pmetric/pb.go.  A float64 is its bits; a field with a HasX is
    an option; the [dbl] of an [_ok] says which bits a float64 without a HasX may hold.  A
    slice of pointers holds no nil. *)

From S2P Require Import Prelude.
From S2P Require Import GoErrors.
From S2P Require Import PData.
From S2P Require Import Storage.
From S2P Require Import ProtoWire.
From S2P Require Import ProtoMessage.
From S2P Require Import CommonProto.

(** ** Exemplar *)

Inductive isExemplar_Value :=
| Exemplar_nil
| Exemplar_AsDouble (bits : Z)
| Exemplar_AsInt (z : Z).

Definition isExemplar_Value_ok (v : isExemplar_Value) : bool :=
  match v with
  | Exemplar_nil => true
  | Exemplar_AsDouble bits => is_u64 bits
  | Exemplar_AsInt z => is_i64 z
  end.

Definition isExemplar_Value_SizeProto (v : isExemplar_Value) : Z :=
  match v with Exemplar_nil => 0 | Exemplar_AsDouble _ => 9 | Exemplar_AsInt _ => 9 end.

Definition isExemplar_Value_writer (v : isExemplar_Value) : writer :=
  match v with
  | Exemplar_nil => nothing
  | Exemplar_AsDouble bits => putFixed 8 bits ;; putByte 0x19
  | Exemplar_AsInt z => putFixed 8 (u64 z) ;; putByte 0x31
  end%writer.

Record Exemplar := mkExemplar {
  Exemplar_FilteredAttributes : list KeyValue;
  Exemplar_TimeUnixNano : Z;
  Exemplar_Value : isExemplar_Value;
  Exemplar_TraceId : bytes;
  Exemplar_SpanId : bytes;
}.

Definition zeroExemplar : Exemplar := mkExemplar [] 0 Exemplar_nil (emptyID traceIDSize) (emptyID spanIDSize).

Definition Exemplar_ok (x : Exemplar) : bool :=
  forallb KeyValue_ok (Exemplar_FilteredAttributes x) &&
  is_u64 (Exemplar_TimeUnixNano x) &&
  isExemplar_Value_ok (Exemplar_Value x) &&
  is_ID traceIDSize (Exemplar_TraceId x) &&
  is_ID spanIDSize (Exemplar_SpanId x).

Definition Exemplar_SizeProto (orig : Exemplar) : Z :=
  sum_of (fun x => 1 + lengthPrefixed (KeyValue_SizeProto x)) (Exemplar_FilteredAttributes orig) +
  size_if (nonzero (Exemplar_TimeUnixNano orig)) 9 +
  isExemplar_Value_SizeProto (Exemplar_Value orig) +
  (1 + lengthPrefixed (TraceID_SizeProto (Exemplar_TraceId orig))) +
  (1 + lengthPrefixed (SpanID_SizeProto (Exemplar_SpanId orig))).

Definition Exemplar_MarshalProto (orig : Exemplar) : bytes -> option (bytes * Z) :=
  marshal (
    backwards (fun x => putMessage (KeyValue_MarshalProto x) ;; putByte 0x3a) (Exemplar_FilteredAttributes orig) ;;
    when (nonzero (Exemplar_TimeUnixNano orig)) (putFixed 8 (Exemplar_TimeUnixNano orig) ;; putByte 0x11) ;;
    isExemplar_Value_writer (Exemplar_Value orig) ;;
    (putMessage (TraceID_MarshalProto (Exemplar_TraceId orig)) ;; putByte 0x2a) ;;
    (putMessage (SpanID_MarshalProto (Exemplar_SpanId orig)) ;; putByte 0x22))%writer.

Definition Exemplar_cases : switch Exemplar := fun orig fieldNum wireType buf pos =>
  let '(mkExemplar attrs time value tid sid) := orig in
  match fieldNum with
  | 7 => lenCase wireType buf pos (fun s =>
           sets_message (fun x => mkExemplar (attrs ++ [x]) time value tid sid) (KeyValue_UnmarshalProto s
             zeroKeyValue))
  | 2 => i64Case wireType buf pos (fun num => mkExemplar attrs num value tid sid)
  | 3 => i64Case wireType buf pos (fun num => mkExemplar attrs time (Exemplar_AsDouble num) tid sid)
  | 6 => i64Case wireType buf pos (fun num => mkExemplar attrs time (Exemplar_AsInt (i64 num)) tid sid)
  | 5 => lenCase wireType buf pos (fun s =>
           sets_message (fun id => mkExemplar attrs time value id sid) (TraceID_UnmarshalProto s))
  | 4 => lenCase wireType buf pos (fun s =>
           sets_message (fun id => mkExemplar attrs time value tid id) (SpanID_UnmarshalProto s))
  | _ => unknownCase orig wireType buf pos
  end.

Definition Exemplar_UnmarshalProto : bytes -> Exemplar -> option (Exemplar + error) := unmarshal Exemplar_cases.

(** ** NumberDataPoint *)

Inductive isNumberDataPoint_Value :=
| NumberDataPoint_nil
| NumberDataPoint_AsDouble (bits : Z)
| NumberDataPoint_AsInt (z : Z).

Definition isNumberDataPoint_Value_ok (v : isNumberDataPoint_Value) : bool :=
  match v with
  | NumberDataPoint_nil => true
  | NumberDataPoint_AsDouble bits => is_u64 bits
  | NumberDataPoint_AsInt z => is_i64 z
  end.

Definition isNumberDataPoint_Value_SizeProto (v : isNumberDataPoint_Value) : Z :=
  match v with NumberDataPoint_nil => 0 | NumberDataPoint_AsDouble _ => 9 | NumberDataPoint_AsInt _ => 9 end.

Definition isNumberDataPoint_Value_writer (v : isNumberDataPoint_Value) : writer :=
  match v with
  | NumberDataPoint_nil => nothing
  | NumberDataPoint_AsDouble bits => putFixed 8 bits ;; putByte 0x21
  | NumberDataPoint_AsInt z => putFixed 8 (u64 z) ;; putByte 0x31
  end%writer.

Record NumberDataPoint := mkNumberDataPoint {
  NumberDataPoint_Attributes : list KeyValue;
  NumberDataPoint_StartTimeUnixNano : Z;
  NumberDataPoint_TimeUnixNano : Z;
  NumberDataPoint_Value : isNumberDataPoint_Value;
  NumberDataPoint_Exemplars : list Exemplar;
  NumberDataPoint_Flags : Z;
}.

Definition zeroNumberDataPoint : NumberDataPoint := mkNumberDataPoint [] 0 0 NumberDataPoint_nil [] 0.

Definition NumberDataPoint_ok (x : NumberDataPoint) : bool :=
  forallb KeyValue_ok (NumberDataPoint_Attributes x) &&
  is_u64 (NumberDataPoint_StartTimeUnixNano x) &&
  is_u64 (NumberDataPoint_TimeUnixNano x) &&
  isNumberDataPoint_Value_ok (NumberDataPoint_Value x) &&
  forallb Exemplar_ok (NumberDataPoint_Exemplars x) &&
  is_u32 (NumberDataPoint_Flags x).

Definition NumberDataPoint_SizeProto (orig : NumberDataPoint) : Z :=
  sum_of (fun x => 1 + lengthPrefixed (KeyValue_SizeProto x)) (NumberDataPoint_Attributes orig) +
  size_if (nonzero (NumberDataPoint_StartTimeUnixNano orig)) 9 +
  size_if (nonzero (NumberDataPoint_TimeUnixNano orig)) 9 +
  isNumberDataPoint_Value_SizeProto (NumberDataPoint_Value orig) +
  sum_of (fun x => 1 + lengthPrefixed (Exemplar_SizeProto x)) (NumberDataPoint_Exemplars orig) +
  size_if (nonzero (NumberDataPoint_Flags orig)) (1 + Sov (u64 (NumberDataPoint_Flags orig))).

Definition NumberDataPoint_MarshalProto (orig : NumberDataPoint) : bytes -> option (bytes * Z) :=
  marshal (
    backwards (fun x => putMessage (KeyValue_MarshalProto x) ;; putByte 0x3a) (NumberDataPoint_Attributes orig) ;;
    when (nonzero (NumberDataPoint_StartTimeUnixNano orig)) (putFixed 8 (NumberDataPoint_StartTimeUnixNano orig) ;;
      putByte 0x11) ;;
    when (nonzero (NumberDataPoint_TimeUnixNano orig)) (putFixed 8 (NumberDataPoint_TimeUnixNano orig) ;; putByte
      0x19) ;;
    isNumberDataPoint_Value_writer (NumberDataPoint_Value orig) ;;
    backwards (fun x => putMessage (Exemplar_MarshalProto x) ;; putByte 0x2a) (NumberDataPoint_Exemplars orig) ;;
    when (nonzero (NumberDataPoint_Flags orig)) (putVarint (u64 (NumberDataPoint_Flags orig)) ;; putByte
      0x40))%writer.

Definition NumberDataPoint_cases : switch NumberDataPoint := fun orig fieldNum wireType buf pos =>
  let '(mkNumberDataPoint attrs start time value exemplars flags) := orig in
  match fieldNum with
  | 7 => lenCase wireType buf pos (fun s =>
           sets_message (fun x => mkNumberDataPoint (attrs ++ [x]) start time value exemplars flags)
             (KeyValue_UnmarshalProto s zeroKeyValue))
  | 2 => i64Case wireType buf pos (fun num => mkNumberDataPoint attrs num time value exemplars flags)
  | 3 => i64Case wireType buf pos (fun num => mkNumberDataPoint attrs start num value exemplars flags)
  | 4 => i64Case wireType buf pos (fun num => mkNumberDataPoint attrs start time (NumberDataPoint_AsDouble num)
    exemplars flags)
  | 6 => i64Case wireType buf pos (fun num => mkNumberDataPoint attrs start time (NumberDataPoint_AsInt (i64 num))
    exemplars flags)
  | 5 => lenCase wireType buf pos (fun s =>
           sets_message (fun x => mkNumberDataPoint attrs start time value (exemplars ++ [x]) flags)
             (Exemplar_UnmarshalProto s zeroExemplar))
  | 8 => varintCase wireType buf pos (fun num => mkNumberDataPoint attrs start time value exemplars (u32 num))
  | _ => unknownCase orig wireType buf pos
  end.

Definition NumberDataPoint_UnmarshalProto : bytes -> NumberDataPoint -> option (NumberDataPoint + error) :=
  unmarshal NumberDataPoint_cases.

(** ** HistogramDataPoint *)

Record HistogramDataPoint := mkHistogramDataPoint {
  HistogramDataPoint_Attributes : list KeyValue;
  HistogramDataPoint_StartTimeUnixNano : Z;
  HistogramDataPoint_TimeUnixNano : Z;
  HistogramDataPoint_Count : Z;
  HistogramDataPoint_Sum : option Z;
  HistogramDataPoint_BucketCounts : list Z;
  HistogramDataPoint_ExplicitBounds : list Z;
  HistogramDataPoint_Exemplars : list Exemplar;
  HistogramDataPoint_Flags : Z;
  HistogramDataPoint_Min : option Z;
  HistogramDataPoint_Max : option Z;
}.

Definition zeroHistogramDataPoint : HistogramDataPoint := mkHistogramDataPoint [] 0 0 0 None [] [] [] 0 None None.

Definition HistogramDataPoint_ok (x : HistogramDataPoint) : bool :=
  forallb KeyValue_ok (HistogramDataPoint_Attributes x) &&
  is_u64 (HistogramDataPoint_StartTimeUnixNano x) &&
  is_u64 (HistogramDataPoint_TimeUnixNano x) &&
  is_u64 (HistogramDataPoint_Count x) &&
  option_ok is_u64 (HistogramDataPoint_Sum x) &&
  forallb is_u64 (HistogramDataPoint_BucketCounts x) &&
  forallb is_u64 (HistogramDataPoint_ExplicitBounds x) &&
  forallb Exemplar_ok (HistogramDataPoint_Exemplars x) &&
  is_u32 (HistogramDataPoint_Flags x) &&
  option_ok is_u64 (HistogramDataPoint_Min x) &&
  option_ok is_u64 (HistogramDataPoint_Max x).

Definition HistogramDataPoint_SizeProto (orig : HistogramDataPoint) : Z :=
  sum_of (fun x => 1 + lengthPrefixed (KeyValue_SizeProto x)) (HistogramDataPoint_Attributes orig) +
  size_if (nonzero (HistogramDataPoint_StartTimeUnixNano orig)) 9 +
  size_if (nonzero (HistogramDataPoint_TimeUnixNano orig)) 9 +
  size_if (nonzero (HistogramDataPoint_Count orig)) 9 +
  size_some (HistogramDataPoint_Sum orig) 9 +
  size_if (nonempty (HistogramDataPoint_BucketCounts orig)) (1 + lengthPrefixed (len
    (HistogramDataPoint_BucketCounts orig) * 8)) +
  size_if (nonempty (HistogramDataPoint_ExplicitBounds orig)) (1 + lengthPrefixed (len
    (HistogramDataPoint_ExplicitBounds orig) * 8)) +
  sum_of (fun x => 1 + lengthPrefixed (Exemplar_SizeProto x)) (HistogramDataPoint_Exemplars orig) +
  size_if (nonzero (HistogramDataPoint_Flags orig)) (1 + Sov (u64 (HistogramDataPoint_Flags orig))) +
  size_some (HistogramDataPoint_Min orig) 9 +
  size_some (HistogramDataPoint_Max orig) 9.

Definition HistogramDataPoint_MarshalProto (orig : HistogramDataPoint) : bytes -> option (bytes * Z) :=
  marshal (
    backwards (fun x => putMessage (KeyValue_MarshalProto x) ;; putByte 0x4a) (HistogramDataPoint_Attributes orig)
      ;;
    when (nonzero (HistogramDataPoint_StartTimeUnixNano orig)) (putFixed 8 (HistogramDataPoint_StartTimeUnixNano
      orig) ;; putByte 0x11) ;;
    when (nonzero (HistogramDataPoint_TimeUnixNano orig)) (putFixed 8 (HistogramDataPoint_TimeUnixNano orig) ;;
      putByte 0x19) ;;
    when (nonzero (HistogramDataPoint_Count orig)) (putFixed 8 (HistogramDataPoint_Count orig) ;; putByte 0x21) ;;
    when_some (HistogramDataPoint_Sum orig) (fun v => putFixed 8 v ;; putByte 0x29) ;;
    when (nonempty (HistogramDataPoint_BucketCounts orig)) (putPackedFixed (HistogramDataPoint_BucketCounts orig)
      ;; putByte 0x32) ;;
    when (nonempty (HistogramDataPoint_ExplicitBounds orig)) (putPackedFixed (HistogramDataPoint_ExplicitBounds
      orig) ;; putByte 0x3a) ;;
    backwards (fun x => putMessage (Exemplar_MarshalProto x) ;; putByte 0x42) (HistogramDataPoint_Exemplars orig) ;;
    when (nonzero (HistogramDataPoint_Flags orig)) (putVarint (u64 (HistogramDataPoint_Flags orig)) ;; putByte
      0x50) ;;
    when_some (HistogramDataPoint_Min orig) (fun v => putFixed 8 v ;; putByte 0x59) ;;
    when_some (HistogramDataPoint_Max orig) (fun v => putFixed 8 v ;; putByte 0x61))%writer.

Definition HistogramDataPoint_cases : switch HistogramDataPoint := fun orig fieldNum wireType buf pos =>
  let '(mkHistogramDataPoint attrs start time count total counts bounds exemplars flags least most) := orig in
  match fieldNum with
  | 9 => lenCase wireType buf pos (fun s =>
           sets_message (fun x => mkHistogramDataPoint (attrs ++ [x]) start time count total counts bounds
             exemplars flags least most) (KeyValue_UnmarshalProto s zeroKeyValue))
  | 2 => i64Case wireType buf pos (fun num => mkHistogramDataPoint attrs num time count total counts bounds
    exemplars flags least most)
  | 3 => i64Case wireType buf pos (fun num => mkHistogramDataPoint attrs start num count total counts bounds
    exemplars flags least most)
  | 4 => i64Case wireType buf pos (fun num => mkHistogramDataPoint attrs start time num total counts bounds
    exemplars flags least most)
  | 5 => i64Case wireType buf pos (fun num => mkHistogramDataPoint attrs start time count (Some num) counts bounds
    exemplars flags least most)
  | 6 => fixedsCase wireType buf pos counts (fun l => mkHistogramDataPoint attrs start time count total l bounds
    exemplars flags least most)
  | 7 => fixedsCase wireType buf pos bounds (fun l => mkHistogramDataPoint attrs start time count total counts l
    exemplars flags least most)
  | 8 => lenCase wireType buf pos (fun s =>
           sets_message (fun x => mkHistogramDataPoint attrs start time count total counts bounds (exemplars ++
             [x]) flags least most) (Exemplar_UnmarshalProto s zeroExemplar))
  | 10 => varintCase wireType buf pos (fun num => mkHistogramDataPoint attrs start time count total counts bounds
    exemplars (u32 num) least most)
  | 11 => i64Case wireType buf pos (fun num => mkHistogramDataPoint attrs start time count total counts bounds
    exemplars flags (Some num) most)
  | 12 => i64Case wireType buf pos (fun num => mkHistogramDataPoint attrs start time count total counts bounds
    exemplars flags least (Some num))
  | _ => unknownCase orig wireType buf pos
  end.

Definition HistogramDataPoint_UnmarshalProto : bytes -> HistogramDataPoint -> option (HistogramDataPoint + error)
  := unmarshal HistogramDataPoint_cases.

(** ** ExponentialHistogramDataPointBuckets *)

Record ExponentialHistogramDataPointBuckets := mkExponentialHistogramDataPointBuckets {
  ExponentialHistogramDataPointBuckets_Offset : Z;
  ExponentialHistogramDataPointBuckets_BucketCounts : list Z;
}.

Definition zeroExponentialHistogramDataPointBuckets : ExponentialHistogramDataPointBuckets :=
  mkExponentialHistogramDataPointBuckets 0 [].

Definition ExponentialHistogramDataPointBuckets_ok (x : ExponentialHistogramDataPointBuckets) : bool :=
  is_i32 (ExponentialHistogramDataPointBuckets_Offset x) &&
  forallb is_u64 (ExponentialHistogramDataPointBuckets_BucketCounts x).

Definition ExponentialHistogramDataPointBuckets_SizeProto (orig : ExponentialHistogramDataPointBuckets) : Z :=
  size_if (nonzero (ExponentialHistogramDataPointBuckets_Offset orig)) (1 + Soz (u64
    (ExponentialHistogramDataPointBuckets_Offset orig))) +
  size_if (nonempty (ExponentialHistogramDataPointBuckets_BucketCounts orig)) (1 + lengthPrefixed (sum_of Sov
    (ExponentialHistogramDataPointBuckets_BucketCounts orig))).

Definition ExponentialHistogramDataPointBuckets_MarshalProto (orig : ExponentialHistogramDataPointBuckets) : bytes
  -> option (bytes * Z) :=
  marshal (
    when (nonzero (ExponentialHistogramDataPointBuckets_Offset orig)) (putVarint (zigzag32
      (ExponentialHistogramDataPointBuckets_Offset orig)) ;; putByte 0x8) ;;
    when (nonempty (ExponentialHistogramDataPointBuckets_BucketCounts orig)) (putPackedVarint
      (ExponentialHistogramDataPointBuckets_BucketCounts orig) ;; putByte 0x12))%writer.

Definition ExponentialHistogramDataPointBuckets_cases : switch ExponentialHistogramDataPointBuckets := fun orig
  fieldNum wireType buf pos =>
  let '(mkExponentialHistogramDataPointBuckets offset counts) := orig in
  match fieldNum with
  | 1 => varintCase wireType buf pos (fun num => mkExponentialHistogramDataPointBuckets (unzigzag32 num) counts)
  | 2 => varintsCase wireType buf pos counts (fun l => mkExponentialHistogramDataPointBuckets offset l)
  | _ => unknownCase orig wireType buf pos
  end.

Definition ExponentialHistogramDataPointBuckets_UnmarshalProto : bytes -> ExponentialHistogramDataPointBuckets ->
  option (ExponentialHistogramDataPointBuckets + error) := unmarshal ExponentialHistogramDataPointBuckets_cases.

(** ** ExponentialHistogramDataPoint *)

Record ExponentialHistogramDataPoint := mkExponentialHistogramDataPoint {
  ExponentialHistogramDataPoint_Attributes : list KeyValue;
  ExponentialHistogramDataPoint_StartTimeUnixNano : Z;
  ExponentialHistogramDataPoint_TimeUnixNano : Z;
  ExponentialHistogramDataPoint_Count : Z;
  ExponentialHistogramDataPoint_Sum : option Z;
  ExponentialHistogramDataPoint_Scale : Z;
  ExponentialHistogramDataPoint_ZeroCount : Z;
  ExponentialHistogramDataPoint_Positive : ExponentialHistogramDataPointBuckets;
  ExponentialHistogramDataPoint_Negative : ExponentialHistogramDataPointBuckets;
  ExponentialHistogramDataPoint_Flags : Z;
  ExponentialHistogramDataPoint_Exemplars : list Exemplar;
  ExponentialHistogramDataPoint_Min : option Z;
  ExponentialHistogramDataPoint_Max : option Z;
  ExponentialHistogramDataPoint_ZeroThreshold : Z;
}.

Definition zeroExponentialHistogramDataPoint : ExponentialHistogramDataPoint := mkExponentialHistogramDataPoint []
  0 0 0 None 0 0 zeroExponentialHistogramDataPointBuckets zeroExponentialHistogramDataPointBuckets 0 [] None None 0.

Definition ExponentialHistogramDataPoint_ok (dbl : Z -> bool) (x : ExponentialHistogramDataPoint) : bool :=
  forallb KeyValue_ok (ExponentialHistogramDataPoint_Attributes x) &&
  is_u64 (ExponentialHistogramDataPoint_StartTimeUnixNano x) &&
  is_u64 (ExponentialHistogramDataPoint_TimeUnixNano x) &&
  is_u64 (ExponentialHistogramDataPoint_Count x) &&
  option_ok is_u64 (ExponentialHistogramDataPoint_Sum x) &&
  is_i32 (ExponentialHistogramDataPoint_Scale x) &&
  is_u64 (ExponentialHistogramDataPoint_ZeroCount x) &&
  ExponentialHistogramDataPointBuckets_ok (ExponentialHistogramDataPoint_Positive x) &&
  ExponentialHistogramDataPointBuckets_ok (ExponentialHistogramDataPoint_Negative x) &&
  is_u32 (ExponentialHistogramDataPoint_Flags x) &&
  forallb Exemplar_ok (ExponentialHistogramDataPoint_Exemplars x) &&
  option_ok is_u64 (ExponentialHistogramDataPoint_Min x) &&
  option_ok is_u64 (ExponentialHistogramDataPoint_Max x) &&
  dbl (ExponentialHistogramDataPoint_ZeroThreshold x).

Definition ExponentialHistogramDataPoint_SizeProto (orig : ExponentialHistogramDataPoint) : Z :=
  sum_of (fun x => 1 + lengthPrefixed (KeyValue_SizeProto x)) (ExponentialHistogramDataPoint_Attributes orig) +
  size_if (nonzero (ExponentialHistogramDataPoint_StartTimeUnixNano orig)) 9 +
  size_if (nonzero (ExponentialHistogramDataPoint_TimeUnixNano orig)) 9 +
  size_if (nonzero (ExponentialHistogramDataPoint_Count orig)) 9 +
  size_some (ExponentialHistogramDataPoint_Sum orig) 9 +
  size_if (nonzero (ExponentialHistogramDataPoint_Scale orig)) (1 + Soz (u64 (ExponentialHistogramDataPoint_Scale
    orig))) +
  size_if (nonzero (ExponentialHistogramDataPoint_ZeroCount orig)) 9 +
  (1 + lengthPrefixed (ExponentialHistogramDataPointBuckets_SizeProto (ExponentialHistogramDataPoint_Positive
    orig))) +
  (1 + lengthPrefixed (ExponentialHistogramDataPointBuckets_SizeProto (ExponentialHistogramDataPoint_Negative
    orig))) +
  size_if (nonzero (ExponentialHistogramDataPoint_Flags orig)) (1 + Sov (u64 (ExponentialHistogramDataPoint_Flags
    orig))) +
  sum_of (fun x => 1 + lengthPrefixed (Exemplar_SizeProto x)) (ExponentialHistogramDataPoint_Exemplars orig) +
  size_some (ExponentialHistogramDataPoint_Min orig) 9 +
  size_some (ExponentialHistogramDataPoint_Max orig) 9 +
  size_if (double_nonzero (ExponentialHistogramDataPoint_ZeroThreshold orig)) 9.

Definition ExponentialHistogramDataPoint_MarshalProto (orig : ExponentialHistogramDataPoint) : bytes -> option
  (bytes * Z) :=
  marshal (
    backwards (fun x => putMessage (KeyValue_MarshalProto x) ;; putByte 0xa)
      (ExponentialHistogramDataPoint_Attributes orig) ;;
    when (nonzero (ExponentialHistogramDataPoint_StartTimeUnixNano orig)) (putFixed 8
      (ExponentialHistogramDataPoint_StartTimeUnixNano orig) ;; putByte 0x11) ;;
    when (nonzero (ExponentialHistogramDataPoint_TimeUnixNano orig)) (putFixed 8
      (ExponentialHistogramDataPoint_TimeUnixNano orig) ;; putByte 0x19) ;;
    when (nonzero (ExponentialHistogramDataPoint_Count orig)) (putFixed 8 (ExponentialHistogramDataPoint_Count
      orig) ;; putByte 0x21) ;;
    when_some (ExponentialHistogramDataPoint_Sum orig) (fun v => putFixed 8 v ;; putByte 0x29) ;;
    when (nonzero (ExponentialHistogramDataPoint_Scale orig)) (putVarint (zigzag32
      (ExponentialHistogramDataPoint_Scale orig)) ;; putByte 0x30) ;;
    when (nonzero (ExponentialHistogramDataPoint_ZeroCount orig)) (putFixed 8
      (ExponentialHistogramDataPoint_ZeroCount orig) ;; putByte 0x39) ;;
    (putMessage (ExponentialHistogramDataPointBuckets_MarshalProto (ExponentialHistogramDataPoint_Positive orig))
      ;; putByte 0x42) ;;
    (putMessage (ExponentialHistogramDataPointBuckets_MarshalProto (ExponentialHistogramDataPoint_Negative orig))
      ;; putByte 0x4a) ;;
    when (nonzero (ExponentialHistogramDataPoint_Flags orig)) (putVarint (u64 (ExponentialHistogramDataPoint_Flags
      orig)) ;; putByte 0x50) ;;
    backwards (fun x => putMessage (Exemplar_MarshalProto x) ;; putByte 0x5a)
      (ExponentialHistogramDataPoint_Exemplars orig) ;;
    when_some (ExponentialHistogramDataPoint_Min orig) (fun v => putFixed 8 v ;; putByte 0x61) ;;
    when_some (ExponentialHistogramDataPoint_Max orig) (fun v => putFixed 8 v ;; putByte 0x69) ;;
    when (double_nonzero (ExponentialHistogramDataPoint_ZeroThreshold orig)) (putFixed 8
      (ExponentialHistogramDataPoint_ZeroThreshold orig) ;; putByte 0x71))%writer.

Definition ExponentialHistogramDataPoint_cases : switch ExponentialHistogramDataPoint := fun orig fieldNum wireType
  buf pos =>
  let '(mkExponentialHistogramDataPoint attrs start time count total scale zeros positive negative flags exemplars
    least most threshold) := orig in
  match fieldNum with
  | 1 => lenCase wireType buf pos (fun s =>
           sets_message (fun x => mkExponentialHistogramDataPoint (attrs ++ [x]) start time count total scale zeros
             positive negative flags exemplars least most threshold) (KeyValue_UnmarshalProto s zeroKeyValue))
  | 2 => i64Case wireType buf pos (fun num => mkExponentialHistogramDataPoint attrs num time count total scale
    zeros positive negative flags exemplars least most threshold)
  | 3 => i64Case wireType buf pos (fun num => mkExponentialHistogramDataPoint attrs start num count total scale
    zeros positive negative flags exemplars least most threshold)
  | 4 => i64Case wireType buf pos (fun num => mkExponentialHistogramDataPoint attrs start time num total scale
    zeros positive negative flags exemplars least most threshold)
  | 5 => i64Case wireType buf pos (fun num => mkExponentialHistogramDataPoint attrs start time count (Some num)
    scale zeros positive negative flags exemplars least most threshold)
  | 6 => varintCase wireType buf pos (fun num => mkExponentialHistogramDataPoint attrs start time count total
    (unzigzag32 num) zeros positive negative flags exemplars least most threshold)
  | 7 => i64Case wireType buf pos (fun num => mkExponentialHistogramDataPoint attrs start time count total scale
    num positive negative flags exemplars least most threshold)
  | 8 => lenCase wireType buf pos (fun s =>
           sets_message (fun x => mkExponentialHistogramDataPoint attrs start time count total scale zeros x
             negative flags exemplars least most threshold) (ExponentialHistogramDataPointBuckets_UnmarshalProto s
             positive))
  | 9 => lenCase wireType buf pos (fun s =>
           sets_message (fun x => mkExponentialHistogramDataPoint attrs start time count total scale zeros positive
             x flags exemplars least most threshold) (ExponentialHistogramDataPointBuckets_UnmarshalProto s
             negative))
  | 10 => varintCase wireType buf pos (fun num => mkExponentialHistogramDataPoint attrs start time count total
    scale zeros positive negative (u32 num) exemplars least most threshold)
  | 11 => lenCase wireType buf pos (fun s =>
           sets_message (fun x => mkExponentialHistogramDataPoint attrs start time count total scale zeros positive
             negative flags (exemplars ++ [x]) least most threshold) (Exemplar_UnmarshalProto s zeroExemplar))
  | 12 => i64Case wireType buf pos (fun num => mkExponentialHistogramDataPoint attrs start time count total scale
    zeros positive negative flags exemplars (Some num) most threshold)
  | 13 => i64Case wireType buf pos (fun num => mkExponentialHistogramDataPoint attrs start time count total scale
    zeros positive negative flags exemplars least (Some num) threshold)
  | 14 => i64Case wireType buf pos (fun num => mkExponentialHistogramDataPoint attrs start time count total scale
    zeros positive negative flags exemplars least most num)
  | _ => unknownCase orig wireType buf pos
  end.

Definition ExponentialHistogramDataPoint_UnmarshalProto : bytes -> ExponentialHistogramDataPoint -> option
  (ExponentialHistogramDataPoint + error) := unmarshal ExponentialHistogramDataPoint_cases.

(** ** SummaryDataPointValueAtQuantile *)

Record SummaryDataPointValueAtQuantile := mkSummaryDataPointValueAtQuantile {
  SummaryDataPointValueAtQuantile_Quantile : Z;
  SummaryDataPointValueAtQuantile_Value : Z;
}.

Definition zeroSummaryDataPointValueAtQuantile : SummaryDataPointValueAtQuantile :=
  mkSummaryDataPointValueAtQuantile 0 0.

Definition SummaryDataPointValueAtQuantile_ok (dbl : Z -> bool) (x : SummaryDataPointValueAtQuantile) : bool :=
  dbl (SummaryDataPointValueAtQuantile_Quantile x) &&
  dbl (SummaryDataPointValueAtQuantile_Value x).

Definition SummaryDataPointValueAtQuantile_SizeProto (orig : SummaryDataPointValueAtQuantile) : Z :=
  size_if (double_nonzero (SummaryDataPointValueAtQuantile_Quantile orig)) 9 +
  size_if (double_nonzero (SummaryDataPointValueAtQuantile_Value orig)) 9.

Definition SummaryDataPointValueAtQuantile_MarshalProto (orig : SummaryDataPointValueAtQuantile) : bytes -> option
  (bytes * Z) :=
  marshal (
    when (double_nonzero (SummaryDataPointValueAtQuantile_Quantile orig)) (putFixed 8
      (SummaryDataPointValueAtQuantile_Quantile orig) ;; putByte 0x9) ;;
    when (double_nonzero (SummaryDataPointValueAtQuantile_Value orig)) (putFixed 8
      (SummaryDataPointValueAtQuantile_Value orig) ;; putByte 0x11))%writer.

Definition SummaryDataPointValueAtQuantile_cases : switch SummaryDataPointValueAtQuantile := fun orig fieldNum
  wireType buf pos =>
  let '(mkSummaryDataPointValueAtQuantile quantile value) := orig in
  match fieldNum with
  | 1 => i64Case wireType buf pos (fun num => mkSummaryDataPointValueAtQuantile num value)
  | 2 => i64Case wireType buf pos (fun num => mkSummaryDataPointValueAtQuantile quantile num)
  | _ => unknownCase orig wireType buf pos
  end.

Definition SummaryDataPointValueAtQuantile_UnmarshalProto : bytes -> SummaryDataPointValueAtQuantile -> option
  (SummaryDataPointValueAtQuantile + error) := unmarshal SummaryDataPointValueAtQuantile_cases.

(** ** SummaryDataPoint *)

Record SummaryDataPoint := mkSummaryDataPoint {
  SummaryDataPoint_Attributes : list KeyValue;
  SummaryDataPoint_StartTimeUnixNano : Z;
  SummaryDataPoint_TimeUnixNano : Z;
  SummaryDataPoint_Count : Z;
  SummaryDataPoint_Sum : Z;
  SummaryDataPoint_QuantileValues : list SummaryDataPointValueAtQuantile;
  SummaryDataPoint_Flags : Z;
}.

Definition zeroSummaryDataPoint : SummaryDataPoint := mkSummaryDataPoint [] 0 0 0 0 [] 0.

Definition SummaryDataPoint_ok (dbl : Z -> bool) (x : SummaryDataPoint) : bool :=
  forallb KeyValue_ok (SummaryDataPoint_Attributes x) &&
  is_u64 (SummaryDataPoint_StartTimeUnixNano x) &&
  is_u64 (SummaryDataPoint_TimeUnixNano x) &&
  is_u64 (SummaryDataPoint_Count x) &&
  dbl (SummaryDataPoint_Sum x) &&
  forallb (SummaryDataPointValueAtQuantile_ok dbl) (SummaryDataPoint_QuantileValues x) &&
  is_u32 (SummaryDataPoint_Flags x).

Definition SummaryDataPoint_SizeProto (orig : SummaryDataPoint) : Z :=
  sum_of (fun x => 1 + lengthPrefixed (KeyValue_SizeProto x)) (SummaryDataPoint_Attributes orig) +
  size_if (nonzero (SummaryDataPoint_StartTimeUnixNano orig)) 9 +
  size_if (nonzero (SummaryDataPoint_TimeUnixNano orig)) 9 +
  size_if (nonzero (SummaryDataPoint_Count orig)) 9 +
  size_if (double_nonzero (SummaryDataPoint_Sum orig)) 9 +
  sum_of (fun x => 1 + lengthPrefixed (SummaryDataPointValueAtQuantile_SizeProto x))
    (SummaryDataPoint_QuantileValues orig) +
  size_if (nonzero (SummaryDataPoint_Flags orig)) (1 + Sov (u64 (SummaryDataPoint_Flags orig))).

Definition SummaryDataPoint_MarshalProto (orig : SummaryDataPoint) : bytes -> option (bytes * Z) :=
  marshal (
    backwards (fun x => putMessage (KeyValue_MarshalProto x) ;; putByte 0x3a) (SummaryDataPoint_Attributes orig) ;;
    when (nonzero (SummaryDataPoint_StartTimeUnixNano orig)) (putFixed 8 (SummaryDataPoint_StartTimeUnixNano orig)
      ;; putByte 0x11) ;;
    when (nonzero (SummaryDataPoint_TimeUnixNano orig)) (putFixed 8 (SummaryDataPoint_TimeUnixNano orig) ;; putByte
      0x19) ;;
    when (nonzero (SummaryDataPoint_Count orig)) (putFixed 8 (SummaryDataPoint_Count orig) ;; putByte 0x21) ;;
    when (double_nonzero (SummaryDataPoint_Sum orig)) (putFixed 8 (SummaryDataPoint_Sum orig) ;; putByte 0x29) ;;
    backwards (fun x => putMessage (SummaryDataPointValueAtQuantile_MarshalProto x) ;; putByte 0x32)
      (SummaryDataPoint_QuantileValues orig) ;;
    when (nonzero (SummaryDataPoint_Flags orig)) (putVarint (u64 (SummaryDataPoint_Flags orig)) ;; putByte
      0x40))%writer.

Definition SummaryDataPoint_cases : switch SummaryDataPoint := fun orig fieldNum wireType buf pos =>
  let '(mkSummaryDataPoint attrs start time count total quantiles flags) := orig in
  match fieldNum with
  | 7 => lenCase wireType buf pos (fun s =>
           sets_message (fun x => mkSummaryDataPoint (attrs ++ [x]) start time count total quantiles flags)
             (KeyValue_UnmarshalProto s zeroKeyValue))
  | 2 => i64Case wireType buf pos (fun num => mkSummaryDataPoint attrs num time count total quantiles flags)
  | 3 => i64Case wireType buf pos (fun num => mkSummaryDataPoint attrs start num count total quantiles flags)
  | 4 => i64Case wireType buf pos (fun num => mkSummaryDataPoint attrs start time num total quantiles flags)
  | 5 => i64Case wireType buf pos (fun num => mkSummaryDataPoint attrs start time count num quantiles flags)
  | 6 => lenCase wireType buf pos (fun s =>
           sets_message (fun x => mkSummaryDataPoint attrs start time count total (quantiles ++ [x]) flags)
             (SummaryDataPointValueAtQuantile_UnmarshalProto s zeroSummaryDataPointValueAtQuantile))
  | 8 => varintCase wireType buf pos (fun num => mkSummaryDataPoint attrs start time count total quantiles (u32
    num))
  | _ => unknownCase orig wireType buf pos
  end.

Definition SummaryDataPoint_UnmarshalProto : bytes -> SummaryDataPoint -> option (SummaryDataPoint + error) :=
  unmarshal SummaryDataPoint_cases.

(** ** Gauge *)

Record Gauge := mkGauge {
  Gauge_DataPoints : list NumberDataPoint;
}.

Definition zeroGauge : Gauge := mkGauge [].

Definition Gauge_ok (x : Gauge) : bool :=
  forallb NumberDataPoint_ok (Gauge_DataPoints x).

Definition Gauge_SizeProto (orig : Gauge) : Z :=
  sum_of (fun x => 1 + lengthPrefixed (NumberDataPoint_SizeProto x)) (Gauge_DataPoints orig).

Definition Gauge_MarshalProto (orig : Gauge) : bytes -> option (bytes * Z) :=
  marshal (
    backwards (fun x => putMessage (NumberDataPoint_MarshalProto x) ;; putByte 0xa) (Gauge_DataPoints orig))%writer.

Definition Gauge_cases : switch Gauge := fun orig fieldNum wireType buf pos =>
  let '(mkGauge points) := orig in
  match fieldNum with
  | 1 => lenCase wireType buf pos (fun s =>
           sets_message (fun x => mkGauge (points ++ [x])) (NumberDataPoint_UnmarshalProto s zeroNumberDataPoint))
  | _ => unknownCase orig wireType buf pos
  end.

Definition Gauge_UnmarshalProto : bytes -> Gauge -> option (Gauge + error) := unmarshal Gauge_cases.

(** ** Sum *)

Record Sum := mkSum {
  Sum_DataPoints : list NumberDataPoint;
  Sum_AggregationTemporality : Z;
  Sum_IsMonotonic : bool;
}.

Definition zeroSum : Sum := mkSum [] 0 false.

Definition Sum_ok (x : Sum) : bool :=
  forallb NumberDataPoint_ok (Sum_DataPoints x) &&
  is_i32 (Sum_AggregationTemporality x).

Definition Sum_SizeProto (orig : Sum) : Z :=
  sum_of (fun x => 1 + lengthPrefixed (NumberDataPoint_SizeProto x)) (Sum_DataPoints orig) +
  size_if (nonzero (Sum_AggregationTemporality orig)) (1 + Sov (u64 (Sum_AggregationTemporality orig))) +
  size_if (Sum_IsMonotonic orig) 2.

Definition Sum_MarshalProto (orig : Sum) : bytes -> option (bytes * Z) :=
  marshal (
    backwards (fun x => putMessage (NumberDataPoint_MarshalProto x) ;; putByte 0xa) (Sum_DataPoints orig) ;;
    when (nonzero (Sum_AggregationTemporality orig)) (putVarint (u64 (Sum_AggregationTemporality orig)) ;; putByte
      0x10) ;;
    when (Sum_IsMonotonic orig) (putByte (if (Sum_IsMonotonic orig) then 1 else 0) ;; putByte 0x18))%writer.

Definition Sum_cases : switch Sum := fun orig fieldNum wireType buf pos =>
  let '(mkSum points temporality monotonic) := orig in
  match fieldNum with
  | 1 => lenCase wireType buf pos (fun s =>
           sets_message (fun x => mkSum (points ++ [x]) temporality monotonic) (NumberDataPoint_UnmarshalProto s
             zeroNumberDataPoint))
  | 2 => varintCase wireType buf pos (fun num => mkSum points (i32 num) monotonic)
  | 3 => varintCase wireType buf pos (fun num => mkSum points temporality (nonzero num))
  | _ => unknownCase orig wireType buf pos
  end.

Definition Sum_UnmarshalProto : bytes -> Sum -> option (Sum + error) := unmarshal Sum_cases.

(** ** Histogram *)

Record Histogram := mkHistogram {
  Histogram_DataPoints : list HistogramDataPoint;
  Histogram_AggregationTemporality : Z;
}.

Definition zeroHistogram : Histogram := mkHistogram [] 0.

Definition Histogram_ok (x : Histogram) : bool :=
  forallb HistogramDataPoint_ok (Histogram_DataPoints x) &&
  is_i32 (Histogram_AggregationTemporality x).

Definition Histogram_SizeProto (orig : Histogram) : Z :=
  sum_of (fun x => 1 + lengthPrefixed (HistogramDataPoint_SizeProto x)) (Histogram_DataPoints orig) +
  size_if (nonzero (Histogram_AggregationTemporality orig)) (1 + Sov (u64 (Histogram_AggregationTemporality orig))).

Definition Histogram_MarshalProto (orig : Histogram) : bytes -> option (bytes * Z) :=
  marshal (
    backwards (fun x => putMessage (HistogramDataPoint_MarshalProto x) ;; putByte 0xa) (Histogram_DataPoints orig)
      ;;
    when (nonzero (Histogram_AggregationTemporality orig)) (putVarint (u64 (Histogram_AggregationTemporality orig))
      ;; putByte 0x10))%writer.

Definition Histogram_cases : switch Histogram := fun orig fieldNum wireType buf pos =>
  let '(mkHistogram points temporality) := orig in
  match fieldNum with
  | 1 => lenCase wireType buf pos (fun s =>
           sets_message (fun x => mkHistogram (points ++ [x]) temporality) (HistogramDataPoint_UnmarshalProto s
             zeroHistogramDataPoint))
  | 2 => varintCase wireType buf pos (fun num => mkHistogram points (i32 num))
  | _ => unknownCase orig wireType buf pos
  end.

Definition Histogram_UnmarshalProto : bytes -> Histogram -> option (Histogram + error) := unmarshal Histogram_cases.

(** ** ExponentialHistogram *)

Record ExponentialHistogram := mkExponentialHistogram {
  ExponentialHistogram_DataPoints : list ExponentialHistogramDataPoint;
  ExponentialHistogram_AggregationTemporality : Z;
}.

Definition zeroExponentialHistogram : ExponentialHistogram := mkExponentialHistogram [] 0.

Definition ExponentialHistogram_ok (dbl : Z -> bool) (x : ExponentialHistogram) : bool :=
  forallb (ExponentialHistogramDataPoint_ok dbl) (ExponentialHistogram_DataPoints x) &&
  is_i32 (ExponentialHistogram_AggregationTemporality x).

Definition ExponentialHistogram_SizeProto (orig : ExponentialHistogram) : Z :=
  sum_of (fun x => 1 + lengthPrefixed (ExponentialHistogramDataPoint_SizeProto x)) (ExponentialHistogram_DataPoints
    orig) +
  size_if (nonzero (ExponentialHistogram_AggregationTemporality orig)) (1 + Sov (u64
    (ExponentialHistogram_AggregationTemporality orig))).

Definition ExponentialHistogram_MarshalProto (orig : ExponentialHistogram) : bytes -> option (bytes * Z) :=
  marshal (
    backwards (fun x => putMessage (ExponentialHistogramDataPoint_MarshalProto x) ;; putByte 0xa)
      (ExponentialHistogram_DataPoints orig) ;;
    when (nonzero (ExponentialHistogram_AggregationTemporality orig)) (putVarint (u64
      (ExponentialHistogram_AggregationTemporality orig)) ;; putByte 0x10))%writer.

Definition ExponentialHistogram_cases : switch ExponentialHistogram := fun orig fieldNum wireType buf pos =>
  let '(mkExponentialHistogram points temporality) := orig in
  match fieldNum with
  | 1 => lenCase wireType buf pos (fun s =>
           sets_message (fun x => mkExponentialHistogram (points ++ [x]) temporality)
             (ExponentialHistogramDataPoint_UnmarshalProto s zeroExponentialHistogramDataPoint))
  | 2 => varintCase wireType buf pos (fun num => mkExponentialHistogram points (i32 num))
  | _ => unknownCase orig wireType buf pos
  end.

Definition ExponentialHistogram_UnmarshalProto : bytes -> ExponentialHistogram -> option (ExponentialHistogram +
  error) := unmarshal ExponentialHistogram_cases.

(** ** Summary *)

Record Summary := mkSummary {
  Summary_DataPoints : list SummaryDataPoint;
}.

Definition zeroSummary : Summary := mkSummary [].

Definition Summary_ok (dbl : Z -> bool) (x : Summary) : bool :=
  forallb (SummaryDataPoint_ok dbl) (Summary_DataPoints x).

Definition Summary_SizeProto (orig : Summary) : Z :=
  sum_of (fun x => 1 + lengthPrefixed (SummaryDataPoint_SizeProto x)) (Summary_DataPoints orig).

Definition Summary_MarshalProto (orig : Summary) : bytes -> option (bytes * Z) :=
  marshal (
    backwards (fun x => putMessage (SummaryDataPoint_MarshalProto x) ;; putByte 0xa) (Summary_DataPoints
      orig))%writer.

Definition Summary_cases : switch Summary := fun orig fieldNum wireType buf pos =>
  let '(mkSummary points) := orig in
  match fieldNum with
  | 1 => lenCase wireType buf pos (fun s =>
           sets_message (fun x => mkSummary (points ++ [x])) (SummaryDataPoint_UnmarshalProto s
             zeroSummaryDataPoint))
  | _ => unknownCase orig wireType buf pos
  end.

Definition Summary_UnmarshalProto : bytes -> Summary -> option (Summary + error) := unmarshal Summary_cases.

(** ** Metric *)

Inductive isMetric_Data :=
| Metric_nil
| Metric_Gauge (x : option Gauge)
| Metric_Sum (x : option Sum)
| Metric_Histogram (x : option Histogram)
| Metric_ExponentialHistogram (x : option ExponentialHistogram)
| Metric_Summary (x : option Summary).

Definition isMetric_Data_ok (dbl : Z -> bool) (v : isMetric_Data) : bool :=
  match v with
  | Metric_nil => true
  | Metric_Gauge (Some x) => Gauge_ok x
  | Metric_Sum (Some x) => Sum_ok x
  | Metric_Histogram (Some x) => Histogram_ok x
  | Metric_ExponentialHistogram (Some x) => ExponentialHistogram_ok dbl x
  | Metric_Summary (Some x) => Summary_ok dbl x
  | _ => false
  end.

Definition isMetric_Data_SizeProto (v : isMetric_Data) : Z :=
  match v with
  | Metric_Gauge (Some x) => 1 + lengthPrefixed (Gauge_SizeProto x)
  | Metric_Sum (Some x) => 1 + lengthPrefixed (Sum_SizeProto x)
  | Metric_Histogram (Some x) => 1 + lengthPrefixed (Histogram_SizeProto x)
  | Metric_ExponentialHistogram (Some x) => 1 + lengthPrefixed (ExponentialHistogram_SizeProto x)
  | Metric_Summary (Some x) => 1 + lengthPrefixed (Summary_SizeProto x)
  | _ => 0
  end.

Definition isMetric_Data_writer (v : isMetric_Data) : writer :=
  match v with
  | Metric_Gauge (Some x) => putMessage (Gauge_MarshalProto x) ;; putByte 0x2a
  | Metric_Sum (Some x) => putMessage (Sum_MarshalProto x) ;; putByte 0x3a
  | Metric_Histogram (Some x) => putMessage (Histogram_MarshalProto x) ;; putByte 0x4a
  | Metric_ExponentialHistogram (Some x) => putMessage (ExponentialHistogram_MarshalProto x) ;; putByte 0x52
  | Metric_Summary (Some x) => putMessage (Summary_MarshalProto x) ;; putByte 0x5a
  | _ => nothing
  end%writer.

Record Metric := mkMetric {
  Metric_Name : bytes;
  Metric_Description : bytes;
  Metric_Unit : bytes;
  Metric_Data : isMetric_Data;
  Metric_Metadata : list KeyValue;
}.

Definition zeroMetric : Metric := mkMetric [] [] [] Metric_nil [].

Definition Metric_ok (dbl : Z -> bool) (x : Metric) : bool :=
  isMetric_Data_ok dbl (Metric_Data x) &&
  forallb KeyValue_ok (Metric_Metadata x).

Definition Metric_SizeProto (orig : Metric) : Z :=
  size_if (nonempty (Metric_Name orig)) (1 + lengthPrefixed (len (Metric_Name orig))) +
  size_if (nonempty (Metric_Description orig)) (1 + lengthPrefixed (len (Metric_Description orig))) +
  size_if (nonempty (Metric_Unit orig)) (1 + lengthPrefixed (len (Metric_Unit orig))) +
  isMetric_Data_SizeProto (Metric_Data orig) +
  sum_of (fun x => 1 + lengthPrefixed (KeyValue_SizeProto x)) (Metric_Metadata orig).

Definition Metric_MarshalProto (orig : Metric) : bytes -> option (bytes * Z) :=
  marshal (
    when (nonempty (Metric_Name orig)) (putString (Metric_Name orig) ;; putByte 0xa) ;;
    when (nonempty (Metric_Description orig)) (putString (Metric_Description orig) ;; putByte 0x12) ;;
    when (nonempty (Metric_Unit orig)) (putString (Metric_Unit orig) ;; putByte 0x1a) ;;
    isMetric_Data_writer (Metric_Data orig) ;;
    backwards (fun x => putMessage (KeyValue_MarshalProto x) ;; putByte 0x62) (Metric_Metadata orig))%writer.

Definition Metric_cases : switch Metric := fun orig fieldNum wireType buf pos =>
  let '(mkMetric name description unt data meta) := orig in
  match fieldNum with
  | 1 => lenCase wireType buf pos (fun s => sets (mkMetric s description unt data meta))
  | 2 => lenCase wireType buf pos (fun s => sets (mkMetric name s unt data meta))
  | 3 => lenCase wireType buf pos (fun s => sets (mkMetric name description s data meta))
  | 5 => lenCase wireType buf pos (fun s =>
           sets_message (fun x => mkMetric name description unt (Metric_Gauge (Some x)) meta) (Gauge_UnmarshalProto
             s zeroGauge))
  | 7 => lenCase wireType buf pos (fun s =>
           sets_message (fun x => mkMetric name description unt (Metric_Sum (Some x)) meta) (Sum_UnmarshalProto s
             zeroSum))
  | 9 => lenCase wireType buf pos (fun s =>
           sets_message (fun x => mkMetric name description unt (Metric_Histogram (Some x)) meta)
             (Histogram_UnmarshalProto s zeroHistogram))
  | 10 => lenCase wireType buf pos (fun s =>
           sets_message (fun x => mkMetric name description unt (Metric_ExponentialHistogram (Some x)) meta)
             (ExponentialHistogram_UnmarshalProto s zeroExponentialHistogram))
  | 11 => lenCase wireType buf pos (fun s =>
           sets_message (fun x => mkMetric name description unt (Metric_Summary (Some x)) meta)
             (Summary_UnmarshalProto s zeroSummary))
  | 12 => lenCase wireType buf pos (fun s =>
           sets_message (fun x => mkMetric name description unt data (meta ++ [x])) (KeyValue_UnmarshalProto s
             zeroKeyValue))
  | _ => unknownCase orig wireType buf pos
  end.

Definition Metric_UnmarshalProto : bytes -> Metric -> option (Metric + error) := unmarshal Metric_cases.

(** ** ScopeMetrics *)

Record ScopeMetrics := mkScopeMetrics {
  ScopeMetrics_Scope : InstrumentationScope;
  ScopeMetrics_Metrics : list Metric;
  ScopeMetrics_SchemaUrl : bytes;
}.

Definition zeroScopeMetrics : ScopeMetrics := mkScopeMetrics zeroInstrumentationScope [] [].

Definition ScopeMetrics_ok (dbl : Z -> bool) (x : ScopeMetrics) : bool :=
  InstrumentationScope_ok (ScopeMetrics_Scope x) &&
  forallb (Metric_ok dbl) (ScopeMetrics_Metrics x).

Definition ScopeMetrics_SizeProto (orig : ScopeMetrics) : Z :=
  (1 + lengthPrefixed (InstrumentationScope_SizeProto (ScopeMetrics_Scope orig))) +
  sum_of (fun x => 1 + lengthPrefixed (Metric_SizeProto x)) (ScopeMetrics_Metrics orig) +
  size_if (nonempty (ScopeMetrics_SchemaUrl orig)) (1 + lengthPrefixed (len (ScopeMetrics_SchemaUrl orig))).

Definition ScopeMetrics_MarshalProto (orig : ScopeMetrics) : bytes -> option (bytes * Z) :=
  marshal (
    (putMessage (InstrumentationScope_MarshalProto (ScopeMetrics_Scope orig)) ;; putByte 0xa) ;;
    backwards (fun x => putMessage (Metric_MarshalProto x) ;; putByte 0x12) (ScopeMetrics_Metrics orig) ;;
    when (nonempty (ScopeMetrics_SchemaUrl orig)) (putString (ScopeMetrics_SchemaUrl orig) ;; putByte 0x1a))%writer.

Definition ScopeMetrics_cases : switch ScopeMetrics := fun orig fieldNum wireType buf pos =>
  let '(mkScopeMetrics scope metrics url) := orig in
  match fieldNum with
  | 1 => lenCase wireType buf pos (fun s =>
           sets_message (fun x => mkScopeMetrics x metrics url) (InstrumentationScope_UnmarshalProto s scope))
  | 2 => lenCase wireType buf pos (fun s =>
           sets_message (fun x => mkScopeMetrics scope (metrics ++ [x]) url) (Metric_UnmarshalProto s zeroMetric))
  | 3 => lenCase wireType buf pos (fun s => sets (mkScopeMetrics scope metrics s))
  | _ => unknownCase orig wireType buf pos
  end.

Definition ScopeMetrics_UnmarshalProto : bytes -> ScopeMetrics -> option (ScopeMetrics + error) := unmarshal
  ScopeMetrics_cases.

(** ** ResourceMetrics *)

Record ResourceMetrics := mkResourceMetrics {
  ResourceMetrics_Resource : Resource;
  ResourceMetrics_ScopeMetrics : list ScopeMetrics;
  ResourceMetrics_SchemaUrl : bytes;
  ResourceMetrics_DeprecatedScopeMetrics : list ScopeMetrics;
}.

Definition zeroResourceMetrics : ResourceMetrics := mkResourceMetrics zeroResource [] [] [].

Definition ResourceMetrics_ok (dbl : Z -> bool) (x : ResourceMetrics) : bool :=
  Resource_ok (ResourceMetrics_Resource x) &&
  forallb (ScopeMetrics_ok dbl) (ResourceMetrics_ScopeMetrics x) &&
  forallb (ScopeMetrics_ok dbl) (ResourceMetrics_DeprecatedScopeMetrics x).

Definition ResourceMetrics_SizeProto (orig : ResourceMetrics) : Z :=
  (1 + lengthPrefixed (Resource_SizeProto (ResourceMetrics_Resource orig))) +
  sum_of (fun x => 1 + lengthPrefixed (ScopeMetrics_SizeProto x)) (ResourceMetrics_ScopeMetrics orig) +
  size_if (nonempty (ResourceMetrics_SchemaUrl orig)) (1 + lengthPrefixed (len (ResourceMetrics_SchemaUrl orig))) +
  sum_of (fun x => 2 + lengthPrefixed (ScopeMetrics_SizeProto x)) (ResourceMetrics_DeprecatedScopeMetrics orig).

Definition ResourceMetrics_MarshalProto (orig : ResourceMetrics) : bytes -> option (bytes * Z) :=
  marshal (
    (putMessage (Resource_MarshalProto (ResourceMetrics_Resource orig)) ;; putByte 0xa) ;;
    backwards (fun x => putMessage (ScopeMetrics_MarshalProto x) ;; putByte 0x12) (ResourceMetrics_ScopeMetrics
      orig) ;;
    when (nonempty (ResourceMetrics_SchemaUrl orig)) (putString (ResourceMetrics_SchemaUrl orig) ;; putByte 0x1a) ;;
    backwards (fun x => putMessage (ScopeMetrics_MarshalProto x) ;; putByte 0x3e ;; putByte 0xc2)
      (ResourceMetrics_DeprecatedScopeMetrics orig))%writer.

Definition ResourceMetrics_cases : switch ResourceMetrics := fun orig fieldNum wireType buf pos =>
  let '(mkResourceMetrics resource scopes url deprecated) := orig in
  match fieldNum with
  | 1 => lenCase wireType buf pos (fun s =>
           sets_message (fun x => mkResourceMetrics x scopes url deprecated) (Resource_UnmarshalProto s resource))
  | 2 => lenCase wireType buf pos (fun s =>
           sets_message (fun x => mkResourceMetrics resource (scopes ++ [x]) url deprecated)
             (ScopeMetrics_UnmarshalProto s zeroScopeMetrics))
  | 3 => lenCase wireType buf pos (fun s => sets (mkResourceMetrics resource scopes s deprecated))
  | 1000 => lenCase wireType buf pos (fun s =>
           sets_message (fun x => mkResourceMetrics resource scopes url (deprecated ++ [x]))
             (ScopeMetrics_UnmarshalProto s zeroScopeMetrics))
  | _ => unknownCase orig wireType buf pos
  end.

Definition ResourceMetrics_UnmarshalProto : bytes -> ResourceMetrics -> option (ResourceMetrics + error) :=
  unmarshal ResourceMetrics_cases.

(** ** MetricsData *)

Record MetricsData := mkMetricsData {
  MetricsData_ResourceMetrics : list ResourceMetrics;
}.

Definition zeroMetricsData : MetricsData := mkMetricsData [].

Definition MetricsData_ok (dbl : Z -> bool) (x : MetricsData) : bool :=
  forallb (ResourceMetrics_ok dbl) (MetricsData_ResourceMetrics x).

Definition MetricsData_SizeProto (orig : MetricsData) : Z :=
  sum_of (fun x => 1 + lengthPrefixed (ResourceMetrics_SizeProto x)) (MetricsData_ResourceMetrics orig).

Definition MetricsData_MarshalProto (orig : MetricsData) : bytes -> option (bytes * Z) :=
  marshal (
    backwards (fun x => putMessage (ResourceMetrics_MarshalProto x) ;; putByte 0xa) (MetricsData_ResourceMetrics
      orig))%writer.

Definition MetricsData_cases : switch MetricsData := fun orig fieldNum wireType buf pos =>
  let '(mkMetricsData rms) := orig in
  match fieldNum with
  | 1 => lenCase wireType buf pos (fun s =>
           sets_message (fun x => mkMetricsData (rms ++ [x])) (ResourceMetrics_UnmarshalProto s
             zeroResourceMetrics))
  | _ => unknownCase orig wireType buf pos
  end.

Definition MetricsData_UnmarshalProto : bytes -> MetricsData -> option (MetricsData + error) := unmarshal
  MetricsData_cases.

(** ** ExportMetricsServiceRequest *)

Record ExportMetricsServiceRequest := mkExportMetricsServiceRequest {
  ExportMetricsServiceRequest_ResourceMetrics : list ResourceMetrics;
}.

Definition zeroExportMetricsServiceRequest : ExportMetricsServiceRequest := mkExportMetricsServiceRequest [].

Definition ExportMetricsServiceRequest_ok (dbl : Z -> bool) (x : ExportMetricsServiceRequest) : bool :=
  forallb (ResourceMetrics_ok dbl) (ExportMetricsServiceRequest_ResourceMetrics x).

Definition ExportMetricsServiceRequest_SizeProto (orig : ExportMetricsServiceRequest) : Z :=
  sum_of (fun x => 1 + lengthPrefixed (ResourceMetrics_SizeProto x)) (ExportMetricsServiceRequest_ResourceMetrics
    orig).

Definition ExportMetricsServiceRequest_MarshalProto (orig : ExportMetricsServiceRequest) : bytes -> option (bytes *
  Z) :=
  marshal (
    backwards (fun x => putMessage (ResourceMetrics_MarshalProto x) ;; putByte 0xa)
      (ExportMetricsServiceRequest_ResourceMetrics orig))%writer.

Definition ExportMetricsServiceRequest_cases : switch ExportMetricsServiceRequest := fun orig fieldNum wireType buf
  pos =>
  let '(mkExportMetricsServiceRequest rms) := orig in
  match fieldNum with
  | 1 => lenCase wireType buf pos (fun s =>
           sets_message (fun x => mkExportMetricsServiceRequest (rms ++ [x])) (ResourceMetrics_UnmarshalProto s
             zeroResourceMetrics))
  | _ => unknownCase orig wireType buf pos
  end.

Definition ExportMetricsServiceRequest_UnmarshalProto : bytes -> ExportMetricsServiceRequest -> option
  (ExportMetricsServiceRequest + error) := unmarshal ExportMetricsServiceRequest_cases.

(** ** pdata/pmetric/pb.go

    The Metrics of the API wraps an ExportMetricsServiceRequest, which starts empty. *)

Definition ProtoMarshaler_MarshalMetrics (md : ExportMetricsServiceRequest) : option bytes :=
  let size := ExportMetricsServiceRequest_SizeProto md in
  match ExportMetricsServiceRequest_MarshalProto md (replicate (Z.to_nat size) 0) with
  | Some (buf, _) => Some buf
  | None => None
  end.

Definition ProtoUnmarshaler_UnmarshalMetrics (buf : bytes) : option (ExportMetricsServiceRequest + error) :=
  ExportMetricsServiceRequest_UnmarshalProto buf zeroExportMetricsServiceRequest.
