(* ===== verification/MetricsProtoProofs.v ===== *)
(** * MetricsProtoProofs: metrics round-trip through the wire format

    One lemma per message composes its fields; the theorems are about whole metrics. *)

From S2P Require Import Prelude.
From S2P Require Import GoErrors.
From S2P Require Import PData.
From S2P Require Import Storage.
From S2P Require Import ProtoWire.
From S2P Require Import ProtoMessage.
From S2P Require Import ProtoMessageProofs.
From S2P Require Import CommonProto.
From S2P Require Import CommonProtoProofs.
From S2P Require Import MetricsProto.

(** ** Exemplar *)

Lemma Exemplar_codec x : Exemplar_ok x = true ->
  codec (Exemplar_MarshalProto x) (Exemplar_SizeProto x) (fun s => Exemplar_UnmarshalProto s zeroExemplar) x.
Proof.
  destruct x as [attrs time value tid sid]. intros Hok. unfold Exemplar_ok in Hok. cbn in Hok.
  rewrite ?andb_true_iff in Hok. destruct_and?. eapply carries_codec.
  - fields 4%nat.
    + eapply (carries_sub _ 0x22 _ _ _ _ sid (fun v => mkExemplar [] 0 Exemplar_nil (emptyID traceIDSize) v));
      [lia|reflexivity|reflexivity|by apply SpanID_codec].
    + eapply (carries_sub _ 0x2a _ _ _ _ tid (fun v => mkExemplar [] 0 Exemplar_nil v sid));
      [lia|reflexivity|reflexivity|by apply TraceID_codec].
    + oneof isExemplar_Value_SizeProto value. destruct value as [|w|w]; [apply carries_nothing|by eapply
      (carries_i64 _ 0x19 _ (fun w => mkExemplar [] 0 (Exemplar_AsDouble w) tid sid))|by eapply (carries_si64 _
      0x31 _ _ (fun w => mkExemplar [] 0 (Exemplar_AsInt w) tid sid))].
    + apply (carries_opt_i64 _ 0x11 time (fun v => mkExemplar [] v value tid sid)); [lia|reflexivity|done].
    + eapply (carries_messages _ 0x3a KeyValue_MarshalProto KeyValue_SizeProto _ (fun v => mkExemplar v time value
      tid sid));
        [lia|reflexivity|reflexivity|by apply KeyValues_codec].
  - unfold Exemplar_SizeProto. cbn -[lengthPrefixed size_if]. lia.
Qed.

Lemma Exemplar_list_codec l : forallb Exemplar_ok l = true ->
  Forall (fun x => codec (Exemplar_MarshalProto x) (Exemplar_SizeProto x) (fun s => Exemplar_UnmarshalProto s
    zeroExemplar) x) l.
Proof. apply Forall_ok, Forall_true, Exemplar_codec. Qed.

Lemma zeroExemplar_ok : is_ok Exemplar_ok zeroExemplar.
Proof. done. Qed.

Lemma Exemplar_UnmarshalProto_ok s x : bytes_ok s -> len s < 2 ^ 63 -> is_ok Exemplar_ok x ->
  outcome_ok (is_ok Exemplar_ok) (Exemplar_UnmarshalProto s x).
Proof.
  intros Hs Hl Hx. apply unmarshal_ok; [|done|done|done]. clear x Hx.
  intros [attrs time value tid sid] f wt buf pos Hv Hb1 Hb2 Hn Hp.
  unfold Exemplar_cases. each_case f; ranges Hv Exemplar_ok; case_value Exemplar_ok.
Qed.

#[export] Hint Resolve zeroExemplar_ok Exemplar_UnmarshalProto_ok : codec.

(** ** NumberDataPoint *)

Lemma NumberDataPoint_codec x : NumberDataPoint_ok x = true ->
  codec (NumberDataPoint_MarshalProto x) (NumberDataPoint_SizeProto x) (fun s => NumberDataPoint_UnmarshalProto s
    zeroNumberDataPoint) x.
Proof.
  destruct x as [attrs start time value exemplars flags]. intros Hok. unfold NumberDataPoint_ok in Hok. cbn in Hok.
  rewrite ?andb_true_iff in Hok. destruct_and?. eapply carries_codec.
  - fields 5%nat.
    + apply (carries_opt_varint _ 0x40 flags u32 (fun v => mkNumberDataPoint [] 0 0 NumberDataPoint_nil [] v));
      [lia|reflexivity|by apply u32_u64].
    + eapply (carries_messages _ 0x2a Exemplar_MarshalProto Exemplar_SizeProto _ (fun v => mkNumberDataPoint [] 0 0
      NumberDataPoint_nil v flags));
        [lia|reflexivity|reflexivity|by apply Exemplar_list_codec].
    + oneof isNumberDataPoint_Value_SizeProto value. destruct value as [|w|w]; [apply carries_nothing|by eapply
      (carries_i64 _ 0x21 _ (fun w => mkNumberDataPoint [] 0 0 (NumberDataPoint_AsDouble w) exemplars flags))|by
      eapply (carries_si64 _ 0x31 _ _ (fun w => mkNumberDataPoint [] 0 0 (NumberDataPoint_AsInt w) exemplars
      flags))].
    + apply (carries_opt_i64 _ 0x19 time (fun v => mkNumberDataPoint [] 0 v value exemplars flags));
      [lia|reflexivity|done].
    + apply (carries_opt_i64 _ 0x11 start (fun v => mkNumberDataPoint [] v time value exemplars flags));
      [lia|reflexivity|done].
    + eapply (carries_messages _ 0x3a KeyValue_MarshalProto KeyValue_SizeProto _ (fun v => mkNumberDataPoint v
      start time value exemplars flags));
        [lia|reflexivity|reflexivity|by apply KeyValues_codec].
  - unfold NumberDataPoint_SizeProto. cbn -[lengthPrefixed size_if]. lia.
Qed.

Lemma NumberDataPoint_list_codec l : forallb NumberDataPoint_ok l = true ->
  Forall (fun x => codec (NumberDataPoint_MarshalProto x) (NumberDataPoint_SizeProto x) (fun s =>
    NumberDataPoint_UnmarshalProto s zeroNumberDataPoint) x) l.
Proof. apply Forall_ok, Forall_true, NumberDataPoint_codec. Qed.

Lemma zeroNumberDataPoint_ok : is_ok NumberDataPoint_ok zeroNumberDataPoint.
Proof. done. Qed.

Lemma NumberDataPoint_UnmarshalProto_ok s x : bytes_ok s -> len s < 2 ^ 63 -> is_ok NumberDataPoint_ok x ->
  outcome_ok (is_ok NumberDataPoint_ok) (NumberDataPoint_UnmarshalProto s x).
Proof.
  intros Hs Hl Hx. apply unmarshal_ok; [|done|done|done]. clear x Hx.
  intros [attrs start time value exemplars flags] f wt buf pos Hv Hb1 Hb2 Hn Hp.
  unfold NumberDataPoint_cases. each_case f; ranges Hv NumberDataPoint_ok; case_value NumberDataPoint_ok.
Qed.

#[export] Hint Resolve zeroNumberDataPoint_ok NumberDataPoint_UnmarshalProto_ok : codec.

(** ** HistogramDataPoint *)

Lemma HistogramDataPoint_codec x : HistogramDataPoint_ok x = true ->
  codec (HistogramDataPoint_MarshalProto x) (HistogramDataPoint_SizeProto x) (fun s =>
    HistogramDataPoint_UnmarshalProto s zeroHistogramDataPoint) x.
Proof.
  destruct x as [attrs start time count total counts bounds exemplars flags least most]. intros Hok. unfold
    HistogramDataPoint_ok in Hok. cbn in Hok.
  rewrite ?andb_true_iff in Hok. destruct_and?. eapply carries_codec.
  - fields 10%nat.
    + apply (carries_some_i64 _ 0x61 most (fun v => mkHistogramDataPoint [] 0 0 0 None [] [] [] 0 None v));
      [lia|reflexivity|done].
    + apply (carries_some_i64 _ 0x59 least (fun v => mkHistogramDataPoint [] 0 0 0 None [] [] [] 0 v most));
      [lia|reflexivity|done].
    + apply (carries_opt_varint _ 0x50 flags u32 (fun v => mkHistogramDataPoint [] 0 0 0 None [] [] [] v least
      most)); [lia|reflexivity|by apply u32_u64].
    + eapply (carries_messages _ 0x42 Exemplar_MarshalProto Exemplar_SizeProto _ (fun v => mkHistogramDataPoint []
      0 0 0 None [] [] v flags least most));
        [lia|reflexivity|reflexivity|by apply Exemplar_list_codec].
    + apply (carries_fixeds _ 0x3a bounds (fun v => mkHistogramDataPoint [] 0 0 0 None [] v exemplars flags least
      most)); [lia|reflexivity|reflexivity|done].
    + apply (carries_fixeds _ 0x32 counts (fun v => mkHistogramDataPoint [] 0 0 0 None v bounds exemplars flags
      least most)); [lia|reflexivity|reflexivity|done].
    + apply (carries_some_i64 _ 0x29 total (fun v => mkHistogramDataPoint [] 0 0 0 v counts bounds exemplars flags
      least most)); [lia|reflexivity|done].
    + apply (carries_opt_i64 _ 0x21 count (fun v => mkHistogramDataPoint [] 0 0 v total counts bounds exemplars
      flags least most)); [lia|reflexivity|done].
    + apply (carries_opt_i64 _ 0x19 time (fun v => mkHistogramDataPoint [] 0 v count total counts bounds exemplars
      flags least most)); [lia|reflexivity|done].
    + apply (carries_opt_i64 _ 0x11 start (fun v => mkHistogramDataPoint [] v time count total counts bounds
      exemplars flags least most)); [lia|reflexivity|done].
    + eapply (carries_messages _ 0x4a KeyValue_MarshalProto KeyValue_SizeProto _ (fun v => mkHistogramDataPoint v
      start time count total counts bounds exemplars flags least most));
        [lia|reflexivity|reflexivity|by apply KeyValues_codec].
  - unfold HistogramDataPoint_SizeProto. cbn -[lengthPrefixed size_if]. lia.
Qed.

Lemma HistogramDataPoint_list_codec l : forallb HistogramDataPoint_ok l = true ->
  Forall (fun x => codec (HistogramDataPoint_MarshalProto x) (HistogramDataPoint_SizeProto x) (fun s =>
    HistogramDataPoint_UnmarshalProto s zeroHistogramDataPoint) x) l.
Proof. apply Forall_ok, Forall_true, HistogramDataPoint_codec. Qed.

Lemma zeroHistogramDataPoint_ok : is_ok HistogramDataPoint_ok zeroHistogramDataPoint.
Proof. done. Qed.

Lemma HistogramDataPoint_UnmarshalProto_ok s x : bytes_ok s -> len s < 2 ^ 63 -> is_ok HistogramDataPoint_ok x ->
  outcome_ok (is_ok HistogramDataPoint_ok) (HistogramDataPoint_UnmarshalProto s x).
Proof.
  intros Hs Hl Hx. apply unmarshal_ok; [|done|done|done]. clear x Hx.
  intros [attrs start time count total counts bounds exemplars flags least most] f wt buf pos Hv Hb1 Hb2 Hn Hp.
  unfold HistogramDataPoint_cases. each_case f; ranges Hv HistogramDataPoint_ok; case_value HistogramDataPoint_ok.
Qed.

#[export] Hint Resolve zeroHistogramDataPoint_ok HistogramDataPoint_UnmarshalProto_ok : codec.

(** ** ExponentialHistogramDataPointBuckets *)

Lemma ExponentialHistogramDataPointBuckets_codec x : ExponentialHistogramDataPointBuckets_ok x = true ->
  codec (ExponentialHistogramDataPointBuckets_MarshalProto x) (ExponentialHistogramDataPointBuckets_SizeProto x)
    (fun s => ExponentialHistogramDataPointBuckets_UnmarshalProto s zeroExponentialHistogramDataPointBuckets) x.
Proof.
  destruct x as [offset counts]. intros Hok. unfold ExponentialHistogramDataPointBuckets_ok in Hok. cbn in Hok.
  rewrite ?andb_true_iff in Hok. destruct_and?. eapply carries_codec.
  - fields 1%nat.
    + apply (carries_varints _ 0x12 counts (fun v => mkExponentialHistogramDataPointBuckets 0 v));
      [lia|reflexivity|reflexivity|done].
    + apply (carries_zigzag _ 0x8 offset (fun v => mkExponentialHistogramDataPointBuckets v counts));
      [lia|reflexivity|done].
  - unfold ExponentialHistogramDataPointBuckets_SizeProto. cbn -[lengthPrefixed size_if]. lia.
Qed.

Lemma ExponentialHistogramDataPointBuckets_list_codec l : forallb ExponentialHistogramDataPointBuckets_ok l = true
  ->
  Forall (fun x => codec (ExponentialHistogramDataPointBuckets_MarshalProto x)
    (ExponentialHistogramDataPointBuckets_SizeProto x) (fun s =>
    ExponentialHistogramDataPointBuckets_UnmarshalProto s zeroExponentialHistogramDataPointBuckets) x) l.
Proof. apply Forall_ok, Forall_true, ExponentialHistogramDataPointBuckets_codec. Qed.

Lemma zeroExponentialHistogramDataPointBuckets_ok : is_ok ExponentialHistogramDataPointBuckets_ok
  zeroExponentialHistogramDataPointBuckets.
Proof. done. Qed.

Lemma ExponentialHistogramDataPointBuckets_UnmarshalProto_ok s x : bytes_ok s -> len s < 2 ^ 63 -> is_ok
  ExponentialHistogramDataPointBuckets_ok x ->
  outcome_ok (is_ok ExponentialHistogramDataPointBuckets_ok) (ExponentialHistogramDataPointBuckets_UnmarshalProto s
    x).
Proof.
  intros Hs Hl Hx. apply unmarshal_ok; [|done|done|done]. clear x Hx.
  intros [offset counts] f wt buf pos Hv Hb1 Hb2 Hn Hp.
  unfold ExponentialHistogramDataPointBuckets_cases. each_case f; ranges Hv
    ExponentialHistogramDataPointBuckets_ok; case_value ExponentialHistogramDataPointBuckets_ok.
Qed.

#[export] Hint Resolve zeroExponentialHistogramDataPointBuckets_ok
  ExponentialHistogramDataPointBuckets_UnmarshalProto_ok : codec.

(** ** ExponentialHistogramDataPoint *)

Lemma ExponentialHistogramDataPoint_codec x : ExponentialHistogramDataPoint_ok plain_double x = true ->
  codec (ExponentialHistogramDataPoint_MarshalProto x) (ExponentialHistogramDataPoint_SizeProto x) (fun s =>
    ExponentialHistogramDataPoint_UnmarshalProto s zeroExponentialHistogramDataPoint) x.
Proof.
  destruct x as [attrs start time count total scale zeros positive negative flags exemplars least most threshold].
    intros Hok. unfold ExponentialHistogramDataPoint_ok in Hok. cbn in Hok.
  rewrite ?andb_true_iff in Hok. destruct_and?. eapply carries_codec.
  - fields 13%nat.
    + apply (carries_double _ 0x71 threshold (fun v => mkExponentialHistogramDataPoint [] 0 0 0 None 0 0
      zeroExponentialHistogramDataPointBuckets zeroExponentialHistogramDataPointBuckets 0 [] None None v));
      [lia|reflexivity|done].
    + apply (carries_some_i64 _ 0x69 most (fun v => mkExponentialHistogramDataPoint [] 0 0 0 None 0 0
      zeroExponentialHistogramDataPointBuckets zeroExponentialHistogramDataPointBuckets 0 [] None v threshold));
      [lia|reflexivity|done].
    + apply (carries_some_i64 _ 0x61 least (fun v => mkExponentialHistogramDataPoint [] 0 0 0 None 0 0
      zeroExponentialHistogramDataPointBuckets zeroExponentialHistogramDataPointBuckets 0 [] v most threshold));
      [lia|reflexivity|done].
    + eapply (carries_messages _ 0x5a Exemplar_MarshalProto Exemplar_SizeProto _ (fun v =>
      mkExponentialHistogramDataPoint [] 0 0 0 None 0 0 zeroExponentialHistogramDataPointBuckets
      zeroExponentialHistogramDataPointBuckets 0 v least most threshold));
        [lia|reflexivity|reflexivity|by apply Exemplar_list_codec].
    + apply (carries_opt_varint _ 0x50 flags u32 (fun v => mkExponentialHistogramDataPoint [] 0 0 0 None 0 0
      zeroExponentialHistogramDataPointBuckets zeroExponentialHistogramDataPointBuckets v exemplars least most
      threshold)); [lia|reflexivity|by apply u32_u64].
    + eapply (carries_sub _ 0x4a _ _ _ _ negative (fun v => mkExponentialHistogramDataPoint [] 0 0 0 None 0 0
      zeroExponentialHistogramDataPointBuckets v flags exemplars least most threshold));
      [lia|reflexivity|reflexivity|by apply ExponentialHistogramDataPointBuckets_codec].
    + eapply (carries_sub _ 0x42 _ _ _ _ positive (fun v => mkExponentialHistogramDataPoint [] 0 0 0 None 0 0 v
      negative flags exemplars least most threshold)); [lia|reflexivity|reflexivity|by apply
      ExponentialHistogramDataPointBuckets_codec].
    + apply (carries_opt_i64 _ 0x39 zeros (fun v => mkExponentialHistogramDataPoint [] 0 0 0 None 0 v positive
      negative flags exemplars least most threshold)); [lia|reflexivity|done].
    + apply (carries_zigzag _ 0x30 scale (fun v => mkExponentialHistogramDataPoint [] 0 0 0 None v zeros positive
      negative flags exemplars least most threshold)); [lia|reflexivity|done].
    + apply (carries_some_i64 _ 0x29 total (fun v => mkExponentialHistogramDataPoint [] 0 0 0 v scale zeros
      positive negative flags exemplars least most threshold)); [lia|reflexivity|done].
    + apply (carries_opt_i64 _ 0x21 count (fun v => mkExponentialHistogramDataPoint [] 0 0 v total scale zeros
      positive negative flags exemplars least most threshold)); [lia|reflexivity|done].
    + apply (carries_opt_i64 _ 0x19 time (fun v => mkExponentialHistogramDataPoint [] 0 v count total scale zeros
      positive negative flags exemplars least most threshold)); [lia|reflexivity|done].
    + apply (carries_opt_i64 _ 0x11 start (fun v => mkExponentialHistogramDataPoint [] v time count total scale
      zeros positive negative flags exemplars least most threshold)); [lia|reflexivity|done].
    + eapply (carries_messages _ 0xa KeyValue_MarshalProto KeyValue_SizeProto _ (fun v =>
      mkExponentialHistogramDataPoint v start time count total scale zeros positive negative flags exemplars least
      most threshold));
        [lia|reflexivity|reflexivity|by apply KeyValues_codec].
  - unfold ExponentialHistogramDataPoint_SizeProto. cbn -[lengthPrefixed size_if]. lia.
Qed.

Lemma ExponentialHistogramDataPoint_list_codec l : forallb (ExponentialHistogramDataPoint_ok plain_double) l = true
  ->
  Forall (fun x => codec (ExponentialHistogramDataPoint_MarshalProto x) (ExponentialHistogramDataPoint_SizeProto x)
    (fun s => ExponentialHistogramDataPoint_UnmarshalProto s zeroExponentialHistogramDataPoint) x) l.
Proof. apply Forall_ok, Forall_true, ExponentialHistogramDataPoint_codec. Qed.

Lemma zeroExponentialHistogramDataPoint_ok : is_ok (ExponentialHistogramDataPoint_ok is_u64)
  zeroExponentialHistogramDataPoint.
Proof. done. Qed.

Lemma ExponentialHistogramDataPoint_UnmarshalProto_ok s x : bytes_ok s -> len s < 2 ^ 63 -> is_ok
  (ExponentialHistogramDataPoint_ok is_u64) x ->
  outcome_ok (is_ok (ExponentialHistogramDataPoint_ok is_u64)) (ExponentialHistogramDataPoint_UnmarshalProto s x).
Proof.
  intros Hs Hl Hx. apply unmarshal_ok; [|done|done|done]. clear x Hx.
  intros [attrs start time count total scale zeros positive negative flags exemplars least most threshold] f wt buf
    pos Hv Hb1 Hb2 Hn Hp.
  unfold ExponentialHistogramDataPoint_cases. each_case f; ranges Hv ExponentialHistogramDataPoint_ok; case_value
    ExponentialHistogramDataPoint_ok.
Qed.

#[export] Hint Resolve zeroExponentialHistogramDataPoint_ok ExponentialHistogramDataPoint_UnmarshalProto_ok : codec.

(** ** SummaryDataPointValueAtQuantile *)

Lemma SummaryDataPointValueAtQuantile_codec x : SummaryDataPointValueAtQuantile_ok plain_double x = true ->
  codec (SummaryDataPointValueAtQuantile_MarshalProto x) (SummaryDataPointValueAtQuantile_SizeProto x) (fun s =>
    SummaryDataPointValueAtQuantile_UnmarshalProto s zeroSummaryDataPointValueAtQuantile) x.
Proof.
  destruct x as [quantile value]. intros Hok. unfold SummaryDataPointValueAtQuantile_ok in Hok. cbn in Hok.
  rewrite ?andb_true_iff in Hok. destruct_and?. eapply carries_codec.
  - fields 1%nat.
    + apply (carries_double _ 0x11 value (fun v => mkSummaryDataPointValueAtQuantile 0 v)); [lia|reflexivity|done].
    + apply (carries_double _ 0x9 quantile (fun v => mkSummaryDataPointValueAtQuantile v value));
      [lia|reflexivity|done].
  - unfold SummaryDataPointValueAtQuantile_SizeProto. cbn -[lengthPrefixed size_if]. lia.
Qed.

Lemma SummaryDataPointValueAtQuantile_list_codec l : forallb (SummaryDataPointValueAtQuantile_ok plain_double) l =
  true ->
  Forall (fun x => codec (SummaryDataPointValueAtQuantile_MarshalProto x)
    (SummaryDataPointValueAtQuantile_SizeProto x) (fun s => SummaryDataPointValueAtQuantile_UnmarshalProto s
    zeroSummaryDataPointValueAtQuantile) x) l.
Proof. apply Forall_ok, Forall_true, SummaryDataPointValueAtQuantile_codec. Qed.

Lemma zeroSummaryDataPointValueAtQuantile_ok : is_ok (SummaryDataPointValueAtQuantile_ok is_u64)
  zeroSummaryDataPointValueAtQuantile.
Proof. done. Qed.

Lemma SummaryDataPointValueAtQuantile_UnmarshalProto_ok s x : bytes_ok s -> len s < 2 ^ 63 -> is_ok
  (SummaryDataPointValueAtQuantile_ok is_u64) x ->
  outcome_ok (is_ok (SummaryDataPointValueAtQuantile_ok is_u64)) (SummaryDataPointValueAtQuantile_UnmarshalProto s
    x).
Proof.
  intros Hs Hl Hx. apply unmarshal_ok; [|done|done|done]. clear x Hx.
  intros [quantile value] f wt buf pos Hv Hb1 Hb2 Hn Hp.
  unfold SummaryDataPointValueAtQuantile_cases. each_case f; ranges Hv SummaryDataPointValueAtQuantile_ok;
    case_value SummaryDataPointValueAtQuantile_ok.
Qed.

#[export] Hint Resolve zeroSummaryDataPointValueAtQuantile_ok SummaryDataPointValueAtQuantile_UnmarshalProto_ok :
  codec.

(** ** SummaryDataPoint *)

Lemma SummaryDataPoint_codec x : SummaryDataPoint_ok plain_double x = true ->
  codec (SummaryDataPoint_MarshalProto x) (SummaryDataPoint_SizeProto x) (fun s => SummaryDataPoint_UnmarshalProto
    s zeroSummaryDataPoint) x.
Proof.
  destruct x as [attrs start time count total quantiles flags]. intros Hok. unfold SummaryDataPoint_ok in Hok. cbn
    in Hok.
  rewrite ?andb_true_iff in Hok. destruct_and?. eapply carries_codec.
  - fields 6%nat.
    + apply (carries_opt_varint _ 0x40 flags u32 (fun v => mkSummaryDataPoint [] 0 0 0 0 [] v));
      [lia|reflexivity|by apply u32_u64].
    + eapply (carries_messages _ 0x32 SummaryDataPointValueAtQuantile_MarshalProto
      SummaryDataPointValueAtQuantile_SizeProto _ (fun v => mkSummaryDataPoint [] 0 0 0 0 v flags));
        [lia|reflexivity|reflexivity|by apply SummaryDataPointValueAtQuantile_list_codec].
    + apply (carries_double _ 0x29 total (fun v => mkSummaryDataPoint [] 0 0 0 v quantiles flags));
      [lia|reflexivity|done].
    + apply (carries_opt_i64 _ 0x21 count (fun v => mkSummaryDataPoint [] 0 0 v total quantiles flags));
      [lia|reflexivity|done].
    + apply (carries_opt_i64 _ 0x19 time (fun v => mkSummaryDataPoint [] 0 v count total quantiles flags));
      [lia|reflexivity|done].
    + apply (carries_opt_i64 _ 0x11 start (fun v => mkSummaryDataPoint [] v time count total quantiles flags));
      [lia|reflexivity|done].
    + eapply (carries_messages _ 0x3a KeyValue_MarshalProto KeyValue_SizeProto _ (fun v => mkSummaryDataPoint v
      start time count total quantiles flags));
        [lia|reflexivity|reflexivity|by apply KeyValues_codec].
  - unfold SummaryDataPoint_SizeProto. cbn -[lengthPrefixed size_if]. lia.
Qed.

Lemma SummaryDataPoint_list_codec l : forallb (SummaryDataPoint_ok plain_double) l = true ->
  Forall (fun x => codec (SummaryDataPoint_MarshalProto x) (SummaryDataPoint_SizeProto x) (fun s =>
    SummaryDataPoint_UnmarshalProto s zeroSummaryDataPoint) x) l.
Proof. apply Forall_ok, Forall_true, SummaryDataPoint_codec. Qed.

Lemma zeroSummaryDataPoint_ok : is_ok (SummaryDataPoint_ok is_u64) zeroSummaryDataPoint.
Proof. done. Qed.

Lemma SummaryDataPoint_UnmarshalProto_ok s x : bytes_ok s -> len s < 2 ^ 63 -> is_ok (SummaryDataPoint_ok is_u64) x
  ->
  outcome_ok (is_ok (SummaryDataPoint_ok is_u64)) (SummaryDataPoint_UnmarshalProto s x).
Proof.
  intros Hs Hl Hx. apply unmarshal_ok; [|done|done|done]. clear x Hx.
  intros [attrs start time count total quantiles flags] f wt buf pos Hv Hb1 Hb2 Hn Hp.
  unfold SummaryDataPoint_cases. each_case f; ranges Hv SummaryDataPoint_ok; case_value SummaryDataPoint_ok.
Qed.

#[export] Hint Resolve zeroSummaryDataPoint_ok SummaryDataPoint_UnmarshalProto_ok : codec.

(** ** Gauge *)

Lemma Gauge_codec x : Gauge_ok x = true ->
  codec (Gauge_MarshalProto x) (Gauge_SizeProto x) (fun s => Gauge_UnmarshalProto s zeroGauge) x.
Proof.
  destruct x as [points]. intros Hok. unfold Gauge_ok in Hok. cbn in Hok.
  rewrite ?andb_true_iff in Hok. destruct_and?. eapply carries_codec.
  - eapply (carries_messages _ 0xa NumberDataPoint_MarshalProto NumberDataPoint_SizeProto _ (fun v => mkGauge v));
        [lia|reflexivity|reflexivity|by apply NumberDataPoint_list_codec].
  - done.
Qed.

Lemma Gauge_list_codec l : forallb Gauge_ok l = true ->
  Forall (fun x => codec (Gauge_MarshalProto x) (Gauge_SizeProto x) (fun s => Gauge_UnmarshalProto s zeroGauge) x)
    l.
Proof. apply Forall_ok, Forall_true, Gauge_codec. Qed.

Lemma zeroGauge_ok : is_ok Gauge_ok zeroGauge.
Proof. done. Qed.

Lemma Gauge_UnmarshalProto_ok s x : bytes_ok s -> len s < 2 ^ 63 -> is_ok Gauge_ok x ->
  outcome_ok (is_ok Gauge_ok) (Gauge_UnmarshalProto s x).
Proof.
  intros Hs Hl Hx. apply unmarshal_ok; [|done|done|done]. clear x Hx.
  intros [points] f wt buf pos Hv Hb1 Hb2 Hn Hp.
  unfold Gauge_cases. each_case f; ranges Hv Gauge_ok; case_value Gauge_ok.
Qed.

#[export] Hint Resolve zeroGauge_ok Gauge_UnmarshalProto_ok : codec.

(** ** Sum *)

Lemma Sum_codec x : Sum_ok x = true ->
  codec (Sum_MarshalProto x) (Sum_SizeProto x) (fun s => Sum_UnmarshalProto s zeroSum) x.
Proof.
  destruct x as [points temporality monotonic]. intros Hok. unfold Sum_ok in Hok. cbn in Hok.
  rewrite ?andb_true_iff in Hok. destruct_and?. eapply carries_codec.
  - fields 2%nat.
    + apply (carries_opt_bool _ 0x18 monotonic (fun v => mkSum [] 0 v)); [lia|reflexivity].
    + apply (carries_opt_varint _ 0x10 temporality i32 (fun v => mkSum [] v monotonic)); [lia|reflexivity|by apply
      i32_u64].
    + eapply (carries_messages _ 0xa NumberDataPoint_MarshalProto NumberDataPoint_SizeProto _ (fun v => mkSum v
      temporality monotonic));
        [lia|reflexivity|reflexivity|by apply NumberDataPoint_list_codec].
  - unfold Sum_SizeProto. cbn -[lengthPrefixed size_if]. lia.
Qed.

Lemma Sum_list_codec l : forallb Sum_ok l = true ->
  Forall (fun x => codec (Sum_MarshalProto x) (Sum_SizeProto x) (fun s => Sum_UnmarshalProto s zeroSum) x) l.
Proof. apply Forall_ok, Forall_true, Sum_codec. Qed.

Lemma zeroSum_ok : is_ok Sum_ok zeroSum.
Proof. done. Qed.

Lemma Sum_UnmarshalProto_ok s x : bytes_ok s -> len s < 2 ^ 63 -> is_ok Sum_ok x ->
  outcome_ok (is_ok Sum_ok) (Sum_UnmarshalProto s x).
Proof.
  intros Hs Hl Hx. apply unmarshal_ok; [|done|done|done]. clear x Hx.
  intros [points temporality monotonic] f wt buf pos Hv Hb1 Hb2 Hn Hp.
  unfold Sum_cases. each_case f; ranges Hv Sum_ok; case_value Sum_ok.
Qed.

#[export] Hint Resolve zeroSum_ok Sum_UnmarshalProto_ok : codec.

(** ** Histogram *)

Lemma Histogram_codec x : Histogram_ok x = true ->
  codec (Histogram_MarshalProto x) (Histogram_SizeProto x) (fun s => Histogram_UnmarshalProto s zeroHistogram) x.
Proof.
  destruct x as [points temporality]. intros Hok. unfold Histogram_ok in Hok. cbn in Hok.
  rewrite ?andb_true_iff in Hok. destruct_and?. eapply carries_codec.
  - fields 1%nat.
    + apply (carries_opt_varint _ 0x10 temporality i32 (fun v => mkHistogram [] v)); [lia|reflexivity|by apply
      i32_u64].
    + eapply (carries_messages _ 0xa HistogramDataPoint_MarshalProto HistogramDataPoint_SizeProto _ (fun v =>
      mkHistogram v temporality));
        [lia|reflexivity|reflexivity|by apply HistogramDataPoint_list_codec].
  - unfold Histogram_SizeProto. cbn -[lengthPrefixed size_if]. lia.
Qed.

Lemma Histogram_list_codec l : forallb Histogram_ok l = true ->
  Forall (fun x => codec (Histogram_MarshalProto x) (Histogram_SizeProto x) (fun s => Histogram_UnmarshalProto s
    zeroHistogram) x) l.
Proof. apply Forall_ok, Forall_true, Histogram_codec. Qed.

Lemma zeroHistogram_ok : is_ok Histogram_ok zeroHistogram.
Proof. done. Qed.

Lemma Histogram_UnmarshalProto_ok s x : bytes_ok s -> len s < 2 ^ 63 -> is_ok Histogram_ok x ->
  outcome_ok (is_ok Histogram_ok) (Histogram_UnmarshalProto s x).
Proof.
  intros Hs Hl Hx. apply unmarshal_ok; [|done|done|done]. clear x Hx.
  intros [points temporality] f wt buf pos Hv Hb1 Hb2 Hn Hp.
  unfold Histogram_cases. each_case f; ranges Hv Histogram_ok; case_value Histogram_ok.
Qed.

#[export] Hint Resolve zeroHistogram_ok Histogram_UnmarshalProto_ok : codec.

(** ** ExponentialHistogram *)

Lemma ExponentialHistogram_codec x : ExponentialHistogram_ok plain_double x = true ->
  codec (ExponentialHistogram_MarshalProto x) (ExponentialHistogram_SizeProto x) (fun s =>
    ExponentialHistogram_UnmarshalProto s zeroExponentialHistogram) x.
Proof.
  destruct x as [points temporality]. intros Hok. unfold ExponentialHistogram_ok in Hok. cbn in Hok.
  rewrite ?andb_true_iff in Hok. destruct_and?. eapply carries_codec.
  - fields 1%nat.
    + apply (carries_opt_varint _ 0x10 temporality i32 (fun v => mkExponentialHistogram [] v)); [lia|reflexivity|by
      apply i32_u64].
    + eapply (carries_messages _ 0xa ExponentialHistogramDataPoint_MarshalProto
      ExponentialHistogramDataPoint_SizeProto _ (fun v => mkExponentialHistogram v temporality));
        [lia|reflexivity|reflexivity|by apply ExponentialHistogramDataPoint_list_codec].
  - unfold ExponentialHistogram_SizeProto. cbn -[lengthPrefixed size_if]. lia.
Qed.

Lemma ExponentialHistogram_list_codec l : forallb (ExponentialHistogram_ok plain_double) l = true ->
  Forall (fun x => codec (ExponentialHistogram_MarshalProto x) (ExponentialHistogram_SizeProto x) (fun s =>
    ExponentialHistogram_UnmarshalProto s zeroExponentialHistogram) x) l.
Proof. apply Forall_ok, Forall_true, ExponentialHistogram_codec. Qed.

Lemma zeroExponentialHistogram_ok : is_ok (ExponentialHistogram_ok is_u64) zeroExponentialHistogram.
Proof. done. Qed.

Lemma ExponentialHistogram_UnmarshalProto_ok s x : bytes_ok s -> len s < 2 ^ 63 -> is_ok (ExponentialHistogram_ok
  is_u64) x ->
  outcome_ok (is_ok (ExponentialHistogram_ok is_u64)) (ExponentialHistogram_UnmarshalProto s x).
Proof.
  intros Hs Hl Hx. apply unmarshal_ok; [|done|done|done]. clear x Hx.
  intros [points temporality] f wt buf pos Hv Hb1 Hb2 Hn Hp.
  unfold ExponentialHistogram_cases. each_case f; ranges Hv ExponentialHistogram_ok; case_value
    ExponentialHistogram_ok.
Qed.

#[export] Hint Resolve zeroExponentialHistogram_ok ExponentialHistogram_UnmarshalProto_ok : codec.

(** ** Summary *)

Lemma Summary_codec x : Summary_ok plain_double x = true ->
  codec (Summary_MarshalProto x) (Summary_SizeProto x) (fun s => Summary_UnmarshalProto s zeroSummary) x.
Proof.
  destruct x as [points]. intros Hok. unfold Summary_ok in Hok. cbn in Hok.
  rewrite ?andb_true_iff in Hok. destruct_and?. eapply carries_codec.
  - eapply (carries_messages _ 0xa SummaryDataPoint_MarshalProto SummaryDataPoint_SizeProto _ (fun v => mkSummary
    v));
        [lia|reflexivity|reflexivity|by apply SummaryDataPoint_list_codec].
  - done.
Qed.

Lemma Summary_list_codec l : forallb (Summary_ok plain_double) l = true ->
  Forall (fun x => codec (Summary_MarshalProto x) (Summary_SizeProto x) (fun s => Summary_UnmarshalProto s
    zeroSummary) x) l.
Proof. apply Forall_ok, Forall_true, Summary_codec. Qed.

Lemma zeroSummary_ok : is_ok (Summary_ok is_u64) zeroSummary.
Proof. done. Qed.

Lemma Summary_UnmarshalProto_ok s x : bytes_ok s -> len s < 2 ^ 63 -> is_ok (Summary_ok is_u64) x ->
  outcome_ok (is_ok (Summary_ok is_u64)) (Summary_UnmarshalProto s x).
Proof.
  intros Hs Hl Hx. apply unmarshal_ok; [|done|done|done]. clear x Hx.
  intros [points] f wt buf pos Hv Hb1 Hb2 Hn Hp.
  unfold Summary_cases. each_case f; ranges Hv Summary_ok; case_value Summary_ok.
Qed.

#[export] Hint Resolve zeroSummary_ok Summary_UnmarshalProto_ok : codec.

(** ** Metric *)

Lemma Metric_codec x : Metric_ok plain_double x = true ->
  codec (Metric_MarshalProto x) (Metric_SizeProto x) (fun s => Metric_UnmarshalProto s zeroMetric) x.
Proof.
  destruct x as [name description unt data meta]. intros Hok. unfold Metric_ok in Hok. cbn in Hok.
  rewrite ?andb_true_iff in Hok. destruct_and?. eapply carries_codec.
  - fields 4%nat.
    + eapply (carries_messages _ 0x62 KeyValue_MarshalProto KeyValue_SizeProto _ (fun v => mkMetric [] [] []
      Metric_nil v));
        [lia|reflexivity|reflexivity|by apply KeyValues_codec].
    + oneof isMetric_Data_SizeProto data. destruct data as [|[w|]|[w|]|[w|]|[w|]|[w|]]; try done; [apply
      carries_nothing|eapply carries_message; [lia|reflexivity|by apply Gauge_codec|reflexivity|reflexivity]|eapply
      carries_message; [lia|reflexivity|by apply Sum_codec|reflexivity|reflexivity]|eapply carries_message;
      [lia|reflexivity|by apply Histogram_codec|reflexivity|reflexivity]|eapply carries_message;
      [lia|reflexivity|by apply ExponentialHistogram_codec|reflexivity|reflexivity]|eapply carries_message;
      [lia|reflexivity|by apply Summary_codec|reflexivity|reflexivity]].
    + apply (carries_opt_string _ 0x1a unt (fun v => mkMetric [] [] v data meta)); [lia|reflexivity].
    + apply (carries_opt_string _ 0x12 description (fun v => mkMetric [] v unt data meta)); [lia|reflexivity].
    + apply (carries_opt_string _ 0xa name (fun v => mkMetric v description unt data meta)); [lia|reflexivity].
  - unfold Metric_SizeProto. cbn -[lengthPrefixed size_if]. lia.
Qed.

Lemma Metric_list_codec l : forallb (Metric_ok plain_double) l = true ->
  Forall (fun x => codec (Metric_MarshalProto x) (Metric_SizeProto x) (fun s => Metric_UnmarshalProto s zeroMetric)
    x) l.
Proof. apply Forall_ok, Forall_true, Metric_codec. Qed.

Lemma zeroMetric_ok : is_ok (Metric_ok is_u64) zeroMetric.
Proof. done. Qed.

Lemma Metric_UnmarshalProto_ok s x : bytes_ok s -> len s < 2 ^ 63 -> is_ok (Metric_ok is_u64) x ->
  outcome_ok (is_ok (Metric_ok is_u64)) (Metric_UnmarshalProto s x).
Proof.
  intros Hs Hl Hx. apply unmarshal_ok; [|done|done|done]. clear x Hx.
  intros [name description unt data meta] f wt buf pos Hv Hb1 Hb2 Hn Hp.
  unfold Metric_cases. each_case f; ranges Hv Metric_ok; case_value Metric_ok.
Qed.

#[export] Hint Resolve zeroMetric_ok Metric_UnmarshalProto_ok : codec.

(** ** ScopeMetrics *)

Lemma ScopeMetrics_codec x : ScopeMetrics_ok plain_double x = true ->
  codec (ScopeMetrics_MarshalProto x) (ScopeMetrics_SizeProto x) (fun s => ScopeMetrics_UnmarshalProto s
    zeroScopeMetrics) x.
Proof.
  destruct x as [scope metrics url]. intros Hok. unfold ScopeMetrics_ok in Hok. cbn in Hok.
  rewrite ?andb_true_iff in Hok. destruct_and?. eapply carries_codec.
  - fields 2%nat.
    + apply (carries_opt_string _ 0x1a url (fun v => mkScopeMetrics zeroInstrumentationScope [] v));
      [lia|reflexivity].
    + eapply (carries_messages _ 0x12 Metric_MarshalProto Metric_SizeProto _ (fun v => mkScopeMetrics
      zeroInstrumentationScope v url));
        [lia|reflexivity|reflexivity|by apply Metric_list_codec].
    + eapply (carries_sub _ 0xa _ _ _ _ scope (fun v => mkScopeMetrics v metrics url));
      [lia|reflexivity|reflexivity|by apply InstrumentationScope_codec].
  - unfold ScopeMetrics_SizeProto. cbn -[lengthPrefixed size_if]. lia.
Qed.

Lemma ScopeMetrics_list_codec l : forallb (ScopeMetrics_ok plain_double) l = true ->
  Forall (fun x => codec (ScopeMetrics_MarshalProto x) (ScopeMetrics_SizeProto x) (fun s =>
    ScopeMetrics_UnmarshalProto s zeroScopeMetrics) x) l.
Proof. apply Forall_ok, Forall_true, ScopeMetrics_codec. Qed.

Lemma zeroScopeMetrics_ok : is_ok (ScopeMetrics_ok is_u64) zeroScopeMetrics.
Proof. done. Qed.

Lemma ScopeMetrics_UnmarshalProto_ok s x : bytes_ok s -> len s < 2 ^ 63 -> is_ok (ScopeMetrics_ok is_u64) x ->
  outcome_ok (is_ok (ScopeMetrics_ok is_u64)) (ScopeMetrics_UnmarshalProto s x).
Proof.
  intros Hs Hl Hx. apply unmarshal_ok; [|done|done|done]. clear x Hx.
  intros [scope metrics url] f wt buf pos Hv Hb1 Hb2 Hn Hp.
  unfold ScopeMetrics_cases. each_case f; ranges Hv ScopeMetrics_ok; case_value ScopeMetrics_ok.
Qed.

#[export] Hint Resolve zeroScopeMetrics_ok ScopeMetrics_UnmarshalProto_ok : codec.

(** ** ResourceMetrics *)

Lemma ResourceMetrics_codec x : ResourceMetrics_ok plain_double x = true ->
  codec (ResourceMetrics_MarshalProto x) (ResourceMetrics_SizeProto x) (fun s => ResourceMetrics_UnmarshalProto s
    zeroResourceMetrics) x.
Proof.
  destruct x as [resource scopes url deprecated]. intros Hok. unfold ResourceMetrics_ok in Hok. cbn in Hok.
  rewrite ?andb_true_iff in Hok. destruct_and?. eapply carries_codec.
  - fields 3%nat.
    + eapply (carries_messages2 _ 0x3e 0xc2 ScopeMetrics_MarshalProto ScopeMetrics_SizeProto _ (fun v =>
      mkResourceMetrics zeroResource [] [] v));
        [lia|lia|reflexivity|reflexivity|by apply ScopeMetrics_list_codec].
    + apply (carries_opt_string _ 0x1a url (fun v => mkResourceMetrics zeroResource [] v deprecated));
      [lia|reflexivity].
    + eapply (carries_messages _ 0x12 ScopeMetrics_MarshalProto ScopeMetrics_SizeProto _ (fun v =>
      mkResourceMetrics zeroResource v url deprecated));
        [lia|reflexivity|reflexivity|by apply ScopeMetrics_list_codec].
    + eapply (carries_sub _ 0xa _ _ _ _ resource (fun v => mkResourceMetrics v scopes url deprecated));
      [lia|reflexivity|reflexivity|by apply Resource_codec].
  - unfold ResourceMetrics_SizeProto. cbn -[lengthPrefixed size_if]. lia.
Qed.

Lemma ResourceMetrics_list_codec l : forallb (ResourceMetrics_ok plain_double) l = true ->
  Forall (fun x => codec (ResourceMetrics_MarshalProto x) (ResourceMetrics_SizeProto x) (fun s =>
    ResourceMetrics_UnmarshalProto s zeroResourceMetrics) x) l.
Proof. apply Forall_ok, Forall_true, ResourceMetrics_codec. Qed.

Lemma zeroResourceMetrics_ok : is_ok (ResourceMetrics_ok is_u64) zeroResourceMetrics.
Proof. done. Qed.

Lemma ResourceMetrics_UnmarshalProto_ok s x : bytes_ok s -> len s < 2 ^ 63 -> is_ok (ResourceMetrics_ok is_u64) x ->
  outcome_ok (is_ok (ResourceMetrics_ok is_u64)) (ResourceMetrics_UnmarshalProto s x).
Proof.
  intros Hs Hl Hx. apply unmarshal_ok; [|done|done|done]. clear x Hx.
  intros [resource scopes url deprecated] f wt buf pos Hv Hb1 Hb2 Hn Hp.
  unfold ResourceMetrics_cases. each_case f; ranges Hv ResourceMetrics_ok; case_value ResourceMetrics_ok.
Qed.

#[export] Hint Resolve zeroResourceMetrics_ok ResourceMetrics_UnmarshalProto_ok : codec.

(** ** MetricsData *)

Lemma MetricsData_codec x : MetricsData_ok plain_double x = true ->
  codec (MetricsData_MarshalProto x) (MetricsData_SizeProto x) (fun s => MetricsData_UnmarshalProto s
    zeroMetricsData) x.
Proof.
  destruct x as [rms]. intros Hok. unfold MetricsData_ok in Hok. cbn in Hok.
  rewrite ?andb_true_iff in Hok. destruct_and?. eapply carries_codec.
  - eapply (carries_messages _ 0xa ResourceMetrics_MarshalProto ResourceMetrics_SizeProto _ (fun v => mkMetricsData
    v));
        [lia|reflexivity|reflexivity|by apply ResourceMetrics_list_codec].
  - done.
Qed.

Lemma MetricsData_list_codec l : forallb (MetricsData_ok plain_double) l = true ->
  Forall (fun x => codec (MetricsData_MarshalProto x) (MetricsData_SizeProto x) (fun s =>
    MetricsData_UnmarshalProto s zeroMetricsData) x) l.
Proof. apply Forall_ok, Forall_true, MetricsData_codec. Qed.

Lemma zeroMetricsData_ok : is_ok (MetricsData_ok is_u64) zeroMetricsData.
Proof. done. Qed.

Lemma MetricsData_UnmarshalProto_ok s x : bytes_ok s -> len s < 2 ^ 63 -> is_ok (MetricsData_ok is_u64) x ->
  outcome_ok (is_ok (MetricsData_ok is_u64)) (MetricsData_UnmarshalProto s x).
Proof.
  intros Hs Hl Hx. apply unmarshal_ok; [|done|done|done]. clear x Hx.
  intros [rms] f wt buf pos Hv Hb1 Hb2 Hn Hp.
  unfold MetricsData_cases. each_case f; ranges Hv MetricsData_ok; case_value MetricsData_ok.
Qed.

#[export] Hint Resolve zeroMetricsData_ok MetricsData_UnmarshalProto_ok : codec.

(** ** ExportMetricsServiceRequest *)

Lemma ExportMetricsServiceRequest_codec x : ExportMetricsServiceRequest_ok plain_double x = true ->
  codec (ExportMetricsServiceRequest_MarshalProto x) (ExportMetricsServiceRequest_SizeProto x) (fun s =>
    ExportMetricsServiceRequest_UnmarshalProto s zeroExportMetricsServiceRequest) x.
Proof.
  destruct x as [rms]. intros Hok. unfold ExportMetricsServiceRequest_ok in Hok. cbn in Hok.
  rewrite ?andb_true_iff in Hok. destruct_and?. eapply carries_codec.
  - eapply (carries_messages _ 0xa ResourceMetrics_MarshalProto ResourceMetrics_SizeProto _ (fun v =>
    mkExportMetricsServiceRequest v));
        [lia|reflexivity|reflexivity|by apply ResourceMetrics_list_codec].
  - done.
Qed.

Lemma ExportMetricsServiceRequest_list_codec l : forallb (ExportMetricsServiceRequest_ok plain_double) l = true ->
  Forall (fun x => codec (ExportMetricsServiceRequest_MarshalProto x) (ExportMetricsServiceRequest_SizeProto x)
    (fun s => ExportMetricsServiceRequest_UnmarshalProto s zeroExportMetricsServiceRequest) x) l.
Proof. apply Forall_ok, Forall_true, ExportMetricsServiceRequest_codec. Qed.

Lemma zeroExportMetricsServiceRequest_ok : is_ok (ExportMetricsServiceRequest_ok is_u64)
  zeroExportMetricsServiceRequest.
Proof. done. Qed.

Lemma ExportMetricsServiceRequest_UnmarshalProto_ok s x : bytes_ok s -> len s < 2 ^ 63 -> is_ok
  (ExportMetricsServiceRequest_ok is_u64) x ->
  outcome_ok (is_ok (ExportMetricsServiceRequest_ok is_u64)) (ExportMetricsServiceRequest_UnmarshalProto s x).
Proof.
  intros Hs Hl Hx. apply unmarshal_ok; [|done|done|done]. clear x Hx.
  intros [rms] f wt buf pos Hv Hb1 Hb2 Hn Hp.
  unfold ExportMetricsServiceRequest_cases. each_case f; ranges Hv ExportMetricsServiceRequest_ok; case_value
    ExportMetricsServiceRequest_ok.
Qed.

#[export] Hint Resolve zeroExportMetricsServiceRequest_ok ExportMetricsServiceRequest_UnmarshalProto_ok : codec.

(** ** Whole metrics *)

(** What the writer of a request emits is what MarshalMetrics returns, and adds its resource
    metrics to those read before it. *)
Lemma MarshalMetrics_carries md acc :
  ExportMetricsServiceRequest_ok plain_double md = true -> ExportMetricsServiceRequest_SizeProto md < 2 ^ 63 ->
  exists buf, ProtoMarshaler_MarshalMetrics md = Some buf /\
    marshals (ExportMetricsServiceRequest_MarshalProto md) (ExportMetricsServiceRequest_SizeProto md) buf /\
    reads ExportMetricsServiceRequest_cases buf (mkExportMetricsServiceRequest acc)
      (mkExportMetricsServiceRequest (acc ++ ExportMetricsServiceRequest_ResourceMetrics md)).
Proof.
  destruct md as [rms]. intros Hok Hs.
  destruct (request_carries ExportMetricsServiceRequest_cases ResourceMetrics_MarshalProto ResourceMetrics_SizeProto
    (fun s => ResourceMetrics_UnmarshalProto s zeroResourceMetrics) mkExportMetricsServiceRequest _ rms acc
    ltac:(reflexivity) ltac:(reflexivity) (ResourceMetrics_list_codec _ Hok) Hs) as (buf & E & M & R).
  exists buf. split; [|by split]. unfold ProtoMarshaler_MarshalMetrics. cbv zeta.
  unfold ExportMetricsServiceRequest_MarshalProto, ExportMetricsServiceRequest_SizeProto.
  cbn [ExportMetricsServiceRequest_ResourceMetrics]. by rewrite E.
Qed.

(** An encoding of metrics is empty or starts with the tag of its elements. *)
Lemma MarshalMetrics_head md buf :
  ExportMetricsServiceRequest_ok plain_double md = true -> ExportMetricsServiceRequest_SizeProto md < 2 ^ 63 ->
  ProtoMarshaler_MarshalMetrics md = Some buf -> buf = [] \/ exists rest, buf = 0xa :: rest.
Proof.
  intros Hok Hs M. destruct (MarshalMetrics_carries md [] Hok Hs) as (b & M' & W & _). rewrite M in M'. injection M' as <-.
  exact (request_head _ _ _ _ buf (ResourceMetrics_list_codec _ Hok) W Hs).
Qed.

(** C6: the wire format of metrics: within any buffer with room, MarshalProto writes exactly
    SizeProto bytes and nothing before them; MarshalMetrics returns those bytes, and
    UnmarshalMetrics reads them back to the same metrics, every point of the five kinds
    included, when no field that is a plain float64 holds negative zero. *)
Theorem metrics_wire_roundtrip md :
  ExportMetricsServiceRequest_ok plain_double md = true -> ExportMetricsServiceRequest_SizeProto md < 2 ^ 63 ->
  exists buf, ProtoMarshaler_MarshalMetrics md = Some buf /\ len buf = ExportMetricsServiceRequest_SizeProto md /\
    ProtoUnmarshaler_UnmarshalMetrics buf = Some (inl md) /\
    forall pre old, len old = len buf -> len (pre ++ old) < 2 ^ 63 ->
      ExportMetricsServiceRequest_MarshalProto md (pre ++ old) = Some (pre ++ buf, len buf).
Proof.
  intros Hok Hs. destruct (MarshalMetrics_carries md [] Hok Hs) as (buf & M & [L W] & R). exists buf.
  split; [done|split; [done|split]].
  - apply reads_unmarshal in R; [|lia]. unfold ProtoUnmarshaler_UnmarshalMetrics. by destruct md.
  - intros pre old Ho Hb. rewrite L in *. by apply W.
Qed.

(** C26: reading metrics from any bytes whatever: UnmarshalMetrics returns metrics or an error,
    it never indexes out of range and always ends; and the metrics it returns are well
    typed: every integer fits its width, every identifier has its length, and no oneof
    holds a nil message. *)
Theorem metrics_read_well_typed buf :
  bytes_ok buf -> len buf < 2 ^ 63 ->
  exists r, ProtoUnmarshaler_UnmarshalMetrics buf = Some r /\
    forall md, r = inl md -> ExportMetricsServiceRequest_ok is_u64 md = true.
Proof.
  intros Hb Hl.
  destruct (ExportMetricsServiceRequest_UnmarshalProto_ok buf zeroExportMetricsServiceRequest Hb Hl) as (r & E & Hr); [done|].
  exists r. split; [exact E|exact Hr].
Qed.

(** ** The packed fields of a histogram

    A packed field of fixed numbers takes the place of what was read before it, so that of
    two chunks the first is lost; numbers that are not packed, and the packed varints of an
    exponential histogram, are appended. *)
Definition chunk (tag : Z) (body : bytes) : bytes := tag :: prefixed body.

Theorem packed_fixed_chunks_replace l1 l2 :
  forallb is_u64 l1 = true -> forallb is_u64 l2 = true ->
  len (chunk 0x32 (fixeds l1) ++ chunk 0x32 (fixeds l2)) < 2 ^ 63 ->
  HistogramDataPoint_UnmarshalProto (chunk 0x32 (fixeds l1) ++ chunk 0x32 (fixeds l2)) zeroHistogramDataPoint =
    Some (inl (mkHistogramDataPoint [] 0 0 0 None l2 [] [] 0 None None)).
Proof.
  intros H1%forallb_u64 H2%forallb_u64 Hb. eapply reads_unmarshal; [|done].
  set (point l := mkHistogramDataPoint [] 0 0 0 None l [] [] 0 None None).
  assert (forall l0 l, Forall (fun v => 0 <= v < 2 ^ 64) l ->
            reads HistogramDataPoint_cases (chunk 0x32 (fixeds l)) (point l0) (point l)) as R.
  { intros l0 l F. change (chunk 0x32 (fixeds l)) with (varint_bytes 0x32 ++ prefixed (fixeds l)).
    eapply (reads_field _ 0x32 6 2); [lia|reflexivity|reflexivity|lia|].
    by apply (parses_fixeds HistogramDataPoint_cases 6 l l0 point). }
  eapply reads_append; by apply R.
Qed.

Theorem packed_varint_chunks_append l1 l2 :
  forallb is_u64 l1 = true -> forallb is_u64 l2 = true ->
  len (chunk 0x12 (varints l1) ++ chunk 0x12 (varints l2)) < 2 ^ 63 ->
  ExponentialHistogramDataPointBuckets_UnmarshalProto (chunk 0x12 (varints l1) ++ chunk 0x12 (varints l2))
    zeroExponentialHistogramDataPointBuckets =
    Some (inl (mkExponentialHistogramDataPointBuckets 0 (l1 ++ l2))).
Proof.
  intros H1%forallb_u64 H2%forallb_u64 Hb. eapply reads_unmarshal; [|done].
  set (buckets l := mkExponentialHistogramDataPointBuckets 0 l).
  assert (forall l0 l, Forall (fun v => 0 <= v < 2 ^ 64) l ->
            reads ExponentialHistogramDataPointBuckets_cases (chunk 0x12 (varints l)) (buckets l0) (buckets (l0 ++ l))) as R.
  { intros l0 l F. change (chunk 0x12 (varints l)) with (varint_bytes 0x12 ++ prefixed (varints l)).
    eapply (reads_field _ 0x12 2 2); [lia|reflexivity|reflexivity|lia|].
    by apply (parses_varints ExponentialHistogramDataPointBuckets_cases 2 l l0 buckets). }
  eapply reads_append; by apply R.
Qed.

(** Negative zero in a plain float64 is not written, and so is read back as zero. *)
Theorem negative_zero_loses_its_sign :
  let q := mkSummaryDataPointValueAtQuantile 0 (2 ^ 63) in
  SummaryDataPointValueAtQuantile_ok is_u64 q = true /\
  SummaryDataPointValueAtQuantile_MarshalProto q [] = Some ([], 0) /\
  SummaryDataPointValueAtQuantile_UnmarshalProto [] zeroSummaryDataPointValueAtQuantile =
    Some (inl (mkSummaryDataPointValueAtQuantile 0 0)).
Proof. by vm_compute. Qed.

(** ** Witnesses: a metric of each kind *)

Definition some_exemplar : Exemplar :=
  mkExemplar [mkKeyValue (AnyValue_IntValue 3) [102] 0] 7 (Exemplar_AsInt (-5)) (replicate 16 1) (replicate 8 2).

Definition some_buckets : ExponentialHistogramDataPointBuckets :=
  mkExponentialHistogramDataPointBuckets (- 2 ^ 31) [0; 300; 2 ^ 64 - 1].

Definition some_metrics : ExportMetricsServiceRequest :=
  let attrs := [mkKeyValue (AnyValue_StringValue [118]) [107] 0] in
  let metric data := mkMetric [109] [100] [117] data attrs in
  mkExportMetricsServiceRequest
    [mkResourceMetrics zeroResource
       [mkScopeMetrics zeroInstrumentationScope
          [metric Metric_nil;
           metric (Metric_Gauge (Some (mkGauge [mkNumberDataPoint attrs 1 2 (NumberDataPoint_AsDouble (2 ^ 63)) [some_exemplar] 1])));
           metric (Metric_Sum (Some (mkSum [mkNumberDataPoint [] 1 2 (NumberDataPoint_AsInt (- 2 ^ 63)) [] 0] 2 true)));
           metric (Metric_Histogram (Some (mkHistogram
             [mkHistogramDataPoint attrs 1 2 3 (Some (2 ^ 63)) [1; 2 ^ 64 - 1] [4607182418800017408] [some_exemplar] 0 None (Some 0)] 1)));
           metric (Metric_ExponentialHistogram (Some (mkExponentialHistogram
             [mkExponentialHistogramDataPoint attrs 1 2 3 None (-3) 4 some_buckets zeroExponentialHistogramDataPointBuckets 0
                [] (Some 9) None 4607182418800017408] 2)));
           metric (Metric_Summary (Some (mkSummary
             [mkSummaryDataPoint attrs 1 2 3 4607182418800017408 [mkSummaryDataPointValueAtQuantile 4602678819172646912 5] 0])))]
          [115]] [] []].

Lemma metrics_wire_roundtrip_witness :
  ExportMetricsServiceRequest_ok plain_double some_metrics = true /\
  exists buf, ProtoMarshaler_MarshalMetrics some_metrics = Some buf /\
    ProtoUnmarshaler_UnmarshalMetrics buf = Some (inl some_metrics).
Proof.
  split; [vm_compute; reflexivity|].
  destruct (metrics_wire_roundtrip some_metrics) as (buf & M & _ & U & _);
    [vm_compute; reflexivity|vm_compute; reflexivity|]. exists buf. exact (conj M U).
Defined.

Lemma metrics_read_well_typed_witness :
  bytes_ok [10; 2; 10] /\ exists r, ProtoUnmarshaler_UnmarshalMetrics [10; 2; 10] = Some r.
Proof.
  assert (bytes_ok [10; 2; 10]) as Hb by (repeat (apply Forall_cons; split; [lia|]); by apply Forall_nil).
  split; [exact Hb|].
  destruct (metrics_read_well_typed [10; 2; 10] Hb) as (r & E & _); [vm_compute; reflexivity|]. exists r. exact E.
Defined.

Lemma packed_fixed_chunks_replace_witness :
  HistogramDataPoint_UnmarshalProto (chunk 0x32 (fixeds [1; 2]) ++ chunk 0x32 (fixeds [3])) zeroHistogramDataPoint =
    Some (inl (mkHistogramDataPoint [] 0 0 0 None [3] [] [] 0 None None)).
Proof. apply packed_fixed_chunks_replace; vm_compute; reflexivity. Defined.

Lemma packed_varint_chunks_append_witness :
  ExponentialHistogramDataPointBuckets_UnmarshalProto (chunk 0x12 (varints [1; 2]) ++ chunk 0x12 (varints [3]))
    zeroExponentialHistogramDataPointBuckets =
    Some (inl (mkExponentialHistogramDataPointBuckets 0 ([1; 2] ++ [3]))).
Proof. apply packed_varint_chunks_append; vm_compute; reflexivity. Defined.
