(* ===== verification/ProfilesProto.v ===== *)
(** * ProfilesProto: the messages of profiles

    generated_proto_*.go of the messages from Sample to ExportProfilesServiceRequest,
    profileid.go, and pdata/pprofile: pb.go, and dictionary_helpers.go, which puts the
    strings of attributes in the string table of the dictionary before they are written and
    takes them out again when they were read.

    The fields of a record are in the order in which MarshalProto writes them. *)

From S2P Require Import Prelude.
From S2P Require Import GoErrors.
From S2P Require Import PData.
From S2P Require Import Storage.
From S2P Require Import ProtoWire.
From S2P Require Import ProtoMessage.
From S2P Require Import CommonProto.

(** ** ProfileID *)

Definition profileIDSize : nat := 16.
Definition errUnmarshalProfileID : error := ErrNew "unmarshal: invalid ProfileID length".
Definition ProfileID_SizeProto : bytes -> Z := ID_SizeProto profileIDSize.
Definition ProfileID_MarshalProto : bytes -> bytes -> option (bytes * Z) := ID_MarshalProto profileIDSize.
Definition ProfileID_UnmarshalProto : bytes -> option (bytes + error) := ID_UnmarshalProto profileIDSize errUnmarshalProfileID.

(** ** ValueType *)

Record ValueType := mkValueType {
  ValueType_TypeStrindex : Z;
  ValueType_UnitStrindex : Z;
}.

Definition zeroValueType : ValueType := mkValueType 0 0.

Definition ValueType_ok (x : ValueType) : bool :=
  is_i32 (ValueType_TypeStrindex x) &&
  is_i32 (ValueType_UnitStrindex x).

Definition ValueType_SizeProto (orig : ValueType) : Z :=
  size_if (nonzero (ValueType_TypeStrindex orig)) (1 + Sov (u64 (ValueType_TypeStrindex orig))) +
  size_if (nonzero (ValueType_UnitStrindex orig)) (1 + Sov (u64 (ValueType_UnitStrindex orig))).

Definition ValueType_MarshalProto (orig : ValueType) : bytes -> option (bytes * Z) :=
  marshal (
    when (nonzero (ValueType_TypeStrindex orig)) (putVarint (u64 (ValueType_TypeStrindex orig)) ;; putByte 0x8) ;;
    when (nonzero (ValueType_UnitStrindex orig)) (putVarint (u64 (ValueType_UnitStrindex orig)) ;; putByte
      0x10))%writer.

Definition ValueType_cases : switch ValueType := fun orig fieldNum wireType buf pos =>
  let '(mkValueType type unt) := orig in
  match fieldNum with
  | 1 => varintCase wireType buf pos (fun num => mkValueType (i32 num) unt)
  | 2 => varintCase wireType buf pos (fun num => mkValueType type (i32 num))
  | _ => unknownCase orig wireType buf pos
  end.

Definition ValueType_UnmarshalProto : bytes -> ValueType -> option (ValueType + error) := unmarshal ValueType_cases.

(** ** Sample *)

Record Sample := mkSample {
  Sample_StackIndex : Z;
  Sample_AttributeIndices : list Z;
  Sample_LinkIndex : Z;
  Sample_Values : list Z;
  Sample_TimestampsUnixNano : list Z;
}.

Definition zeroSample : Sample := mkSample 0 [] 0 [] [].

Definition Sample_ok (x : Sample) : bool :=
  is_i32 (Sample_StackIndex x) &&
  forallb is_i32 (Sample_AttributeIndices x) &&
  is_i32 (Sample_LinkIndex x) &&
  forallb is_i64 (Sample_Values x) &&
  forallb is_u64 (Sample_TimestampsUnixNano x).

Definition Sample_SizeProto (orig : Sample) : Z :=
  size_if (nonzero (Sample_StackIndex orig)) (1 + Sov (u64 (Sample_StackIndex orig))) +
  size_if (nonempty (Sample_AttributeIndices orig)) (1 + lengthPrefixed (sum_of (fun e => Sov (u64 e))
    (Sample_AttributeIndices orig))) +
  size_if (nonzero (Sample_LinkIndex orig)) (1 + Sov (u64 (Sample_LinkIndex orig))) +
  size_if (nonempty (Sample_Values orig)) (1 + lengthPrefixed (sum_of (fun e => Sov (u64 e)) (Sample_Values orig)))
    +
  size_if (nonempty (Sample_TimestampsUnixNano orig)) (1 + lengthPrefixed (len (Sample_TimestampsUnixNano orig) *
    8)).

Definition Sample_MarshalProto (orig : Sample) : bytes -> option (bytes * Z) :=
  marshal (
    when (nonzero (Sample_StackIndex orig)) (putVarint (u64 (Sample_StackIndex orig)) ;; putByte 0x8) ;;
    when (nonempty (Sample_AttributeIndices orig)) (putPackedVarint (map u64 (Sample_AttributeIndices orig)) ;;
      putByte 0x12) ;;
    when (nonzero (Sample_LinkIndex orig)) (putVarint (u64 (Sample_LinkIndex orig)) ;; putByte 0x18) ;;
    when (nonempty (Sample_Values orig)) (putPackedVarint (map u64 (Sample_Values orig)) ;; putByte 0x22) ;;
    when (nonempty (Sample_TimestampsUnixNano orig)) (putPackedFixed (Sample_TimestampsUnixNano orig) ;; putByte
      0x2a))%writer.

Definition Sample_cases : switch Sample := fun orig fieldNum wireType buf pos =>
  let '(mkSample stack attrs link vals times) := orig in
  match fieldNum with
  | 1 => varintCase wireType buf pos (fun num => mkSample (i32 num) attrs link vals times)
  | 2 => varintsCase wireType buf pos [] (fun l => mkSample stack (attrs ++ map i32 l) link vals times)
  | 3 => varintCase wireType buf pos (fun num => mkSample stack attrs (i32 num) vals times)
  | 4 => varintsCase wireType buf pos [] (fun l => mkSample stack attrs link (vals ++ map i64 l) times)
  | 5 => fixedsCase wireType buf pos times (fun l => mkSample stack attrs link vals l)
  | _ => unknownCase orig wireType buf pos
  end.

Definition Sample_UnmarshalProto : bytes -> Sample -> option (Sample + error) := unmarshal Sample_cases.

(** ** Profile *)

Record Profile := mkProfile {
  Profile_SampleType : ValueType;
  Profile_Samples : list Sample;
  Profile_TimeUnixNano : Z;
  Profile_DurationNano : Z;
  Profile_PeriodType : ValueType;
  Profile_Period : Z;
  Profile_ProfileId : bytes;
  Profile_DroppedAttributesCount : Z;
  Profile_OriginalPayloadFormat : bytes;
  Profile_OriginalPayload : bytes;
  Profile_AttributeIndices : list Z;
}.

Definition zeroProfile : Profile := mkProfile zeroValueType [] 0 0 zeroValueType 0 (emptyID profileIDSize) 0 [] []
  [].

Definition Profile_ok (x : Profile) : bool :=
  ValueType_ok (Profile_SampleType x) &&
  forallb Sample_ok (Profile_Samples x) &&
  is_u64 (Profile_TimeUnixNano x) &&
  is_u64 (Profile_DurationNano x) &&
  ValueType_ok (Profile_PeriodType x) &&
  is_i64 (Profile_Period x) &&
  is_ID profileIDSize (Profile_ProfileId x) &&
  is_u32 (Profile_DroppedAttributesCount x) &&
  forallb is_i32 (Profile_AttributeIndices x).

Definition Profile_SizeProto (orig : Profile) : Z :=
  (1 + lengthPrefixed (ValueType_SizeProto (Profile_SampleType orig))) +
  sum_of (fun x => 1 + lengthPrefixed (Sample_SizeProto x)) (Profile_Samples orig) +
  size_if (nonzero (Profile_TimeUnixNano orig)) 9 +
  size_if (nonzero (Profile_DurationNano orig)) (1 + Sov (u64 (Profile_DurationNano orig))) +
  (1 + lengthPrefixed (ValueType_SizeProto (Profile_PeriodType orig))) +
  size_if (nonzero (Profile_Period orig)) (1 + Sov (u64 (Profile_Period orig))) +
  (1 + lengthPrefixed (ProfileID_SizeProto (Profile_ProfileId orig))) +
  size_if (nonzero (Profile_DroppedAttributesCount orig)) (1 + Sov (u64 (Profile_DroppedAttributesCount orig))) +
  size_if (nonempty (Profile_OriginalPayloadFormat orig)) (1 + lengthPrefixed (len (Profile_OriginalPayloadFormat
    orig))) +
  size_if (nonempty (Profile_OriginalPayload orig)) (1 + lengthPrefixed (len (Profile_OriginalPayload orig))) +
  size_if (nonempty (Profile_AttributeIndices orig)) (1 + lengthPrefixed (sum_of (fun e => Sov (u64 e))
    (Profile_AttributeIndices orig))).

Definition Profile_MarshalProto (orig : Profile) : bytes -> option (bytes * Z) :=
  marshal (
    (putMessage (ValueType_MarshalProto (Profile_SampleType orig)) ;; putByte 0xa) ;;
    backwards (fun x => putMessage (Sample_MarshalProto x) ;; putByte 0x12) (Profile_Samples orig) ;;
    when (nonzero (Profile_TimeUnixNano orig)) (putFixed 8 (Profile_TimeUnixNano orig) ;; putByte 0x19) ;;
    when (nonzero (Profile_DurationNano orig)) (putVarint (u64 (Profile_DurationNano orig)) ;; putByte 0x20) ;;
    (putMessage (ValueType_MarshalProto (Profile_PeriodType orig)) ;; putByte 0x2a) ;;
    when (nonzero (Profile_Period orig)) (putVarint (u64 (Profile_Period orig)) ;; putByte 0x30) ;;
    (putMessage (ProfileID_MarshalProto (Profile_ProfileId orig)) ;; putByte 0x3a) ;;
    when (nonzero (Profile_DroppedAttributesCount orig)) (putVarint (u64 (Profile_DroppedAttributesCount orig)) ;;
      putByte 0x40) ;;
    when (nonempty (Profile_OriginalPayloadFormat orig)) (putString (Profile_OriginalPayloadFormat orig) ;; putByte
      0x4a) ;;
    when (nonempty (Profile_OriginalPayload orig)) (putString (Profile_OriginalPayload orig) ;; putByte 0x52) ;;
    when (nonempty (Profile_AttributeIndices orig)) (putPackedVarint (map u64 (Profile_AttributeIndices orig)) ;;
      putByte 0x5a))%writer.

Definition Profile_cases : switch Profile := fun orig fieldNum wireType buf pos =>
  let '(mkProfile sampleType samples time duration periodType period pid dropped format payload attrs) := orig in
  match fieldNum with
  | 1 => lenCase wireType buf pos (fun s =>
           sets_message (fun x => mkProfile x samples time duration periodType period pid dropped format payload
             attrs) (ValueType_UnmarshalProto s sampleType))
  | 2 => lenCase wireType buf pos (fun s =>
           sets_message (fun x => mkProfile sampleType (samples ++ [x]) time duration periodType period pid dropped
             format payload attrs) (Sample_UnmarshalProto s zeroSample))
  | 3 => i64Case wireType buf pos (fun num => mkProfile sampleType samples num duration periodType period pid
    dropped format payload attrs)
  | 4 => varintCase wireType buf pos (fun num => mkProfile sampleType samples time num periodType period pid
    dropped format payload attrs)
  | 5 => lenCase wireType buf pos (fun s =>
           sets_message (fun x => mkProfile sampleType samples time duration x period pid dropped format payload
             attrs) (ValueType_UnmarshalProto s periodType))
  | 6 => varintCase wireType buf pos (fun num => mkProfile sampleType samples time duration periodType (i64 num)
    pid dropped format payload attrs)
  | 7 => lenCase wireType buf pos (fun s =>
           sets_message (fun id => mkProfile sampleType samples time duration periodType period id dropped format
             payload attrs) (ProfileID_UnmarshalProto s))
  | 8 => varintCase wireType buf pos (fun num => mkProfile sampleType samples time duration periodType period pid
    (u32 num) format payload attrs)
  | 9 => lenCase wireType buf pos (fun s => sets (mkProfile sampleType samples time duration periodType period pid
    dropped s payload attrs))
  | 10 => lenCase wireType buf pos (fun s =>
           sets (if decide (len s <> 0) then mkProfile sampleType samples time duration periodType period pid
             dropped format s attrs else orig))
  | 11 => varintsCase wireType buf pos [] (fun l => mkProfile sampleType samples time duration periodType period
    pid dropped format payload (attrs ++ map i32 l))
  | _ => unknownCase orig wireType buf pos
  end.

Definition Profile_UnmarshalProto : bytes -> Profile -> option (Profile + error) := unmarshal Profile_cases.

(** ** ScopeProfiles *)

Record ScopeProfiles := mkScopeProfiles {
  ScopeProfiles_Scope : InstrumentationScope;
  ScopeProfiles_Profiles : list Profile;
  ScopeProfiles_SchemaUrl : bytes;
}.

Definition zeroScopeProfiles : ScopeProfiles := mkScopeProfiles zeroInstrumentationScope [] [].

Definition ScopeProfiles_ok (x : ScopeProfiles) : bool :=
  InstrumentationScope_ok (ScopeProfiles_Scope x) &&
  forallb Profile_ok (ScopeProfiles_Profiles x).

Definition ScopeProfiles_SizeProto (orig : ScopeProfiles) : Z :=
  (1 + lengthPrefixed (InstrumentationScope_SizeProto (ScopeProfiles_Scope orig))) +
  sum_of (fun x => 1 + lengthPrefixed (Profile_SizeProto x)) (ScopeProfiles_Profiles orig) +
  size_if (nonempty (ScopeProfiles_SchemaUrl orig)) (1 + lengthPrefixed (len (ScopeProfiles_SchemaUrl orig))).

Definition ScopeProfiles_MarshalProto (orig : ScopeProfiles) : bytes -> option (bytes * Z) :=
  marshal (
    (putMessage (InstrumentationScope_MarshalProto (ScopeProfiles_Scope orig)) ;; putByte 0xa) ;;
    backwards (fun x => putMessage (Profile_MarshalProto x) ;; putByte 0x12) (ScopeProfiles_Profiles orig) ;;
    when (nonempty (ScopeProfiles_SchemaUrl orig)) (putString (ScopeProfiles_SchemaUrl orig) ;; putByte
      0x1a))%writer.

Definition ScopeProfiles_cases : switch ScopeProfiles := fun orig fieldNum wireType buf pos =>
  let '(mkScopeProfiles scope profiles url) := orig in
  match fieldNum with
  | 1 => lenCase wireType buf pos (fun s =>
           sets_message (fun x => mkScopeProfiles x profiles url) (InstrumentationScope_UnmarshalProto s scope))
  | 2 => lenCase wireType buf pos (fun s =>
           sets_message (fun x => mkScopeProfiles scope (profiles ++ [x]) url) (Profile_UnmarshalProto s
             zeroProfile))
  | 3 => lenCase wireType buf pos (fun s => sets (mkScopeProfiles scope profiles s))
  | _ => unknownCase orig wireType buf pos
  end.

Definition ScopeProfiles_UnmarshalProto : bytes -> ScopeProfiles -> option (ScopeProfiles + error) := unmarshal
  ScopeProfiles_cases.

(** ** ResourceProfiles *)

Record ResourceProfiles := mkResourceProfiles {
  ResourceProfiles_Resource : Resource;
  ResourceProfiles_ScopeProfiles : list ScopeProfiles;
  ResourceProfiles_SchemaUrl : bytes;
}.

Definition zeroResourceProfiles : ResourceProfiles := mkResourceProfiles zeroResource [] [].

Definition ResourceProfiles_ok (x : ResourceProfiles) : bool :=
  Resource_ok (ResourceProfiles_Resource x) &&
  forallb ScopeProfiles_ok (ResourceProfiles_ScopeProfiles x).

Definition ResourceProfiles_SizeProto (orig : ResourceProfiles) : Z :=
  (1 + lengthPrefixed (Resource_SizeProto (ResourceProfiles_Resource orig))) +
  sum_of (fun x => 1 + lengthPrefixed (ScopeProfiles_SizeProto x)) (ResourceProfiles_ScopeProfiles orig) +
  size_if (nonempty (ResourceProfiles_SchemaUrl orig)) (1 + lengthPrefixed (len (ResourceProfiles_SchemaUrl orig))).

Definition ResourceProfiles_MarshalProto (orig : ResourceProfiles) : bytes -> option (bytes * Z) :=
  marshal (
    (putMessage (Resource_MarshalProto (ResourceProfiles_Resource orig)) ;; putByte 0xa) ;;
    backwards (fun x => putMessage (ScopeProfiles_MarshalProto x) ;; putByte 0x12) (ResourceProfiles_ScopeProfiles
      orig) ;;
    when (nonempty (ResourceProfiles_SchemaUrl orig)) (putString (ResourceProfiles_SchemaUrl orig) ;; putByte
      0x1a))%writer.

Definition ResourceProfiles_cases : switch ResourceProfiles := fun orig fieldNum wireType buf pos =>
  let '(mkResourceProfiles resource scopes url) := orig in
  match fieldNum with
  | 1 => lenCase wireType buf pos (fun s =>
           sets_message (fun x => mkResourceProfiles x scopes url) (Resource_UnmarshalProto s resource))
  | 2 => lenCase wireType buf pos (fun s =>
           sets_message (fun x => mkResourceProfiles resource (scopes ++ [x]) url) (ScopeProfiles_UnmarshalProto s
             zeroScopeProfiles))
  | 3 => lenCase wireType buf pos (fun s => sets (mkResourceProfiles resource scopes s))
  | _ => unknownCase orig wireType buf pos
  end.

Definition ResourceProfiles_UnmarshalProto : bytes -> ResourceProfiles -> option (ResourceProfiles + error) :=
  unmarshal ResourceProfiles_cases.

(** ** Mapping *)

Record Mapping := mkMapping {
  Mapping_MemoryStart : Z;
  Mapping_MemoryLimit : Z;
  Mapping_FileOffset : Z;
  Mapping_FilenameStrindex : Z;
  Mapping_AttributeIndices : list Z;
}.

Definition zeroMapping : Mapping := mkMapping 0 0 0 0 [].

Definition Mapping_ok (x : Mapping) : bool :=
  is_u64 (Mapping_MemoryStart x) &&
  is_u64 (Mapping_MemoryLimit x) &&
  is_u64 (Mapping_FileOffset x) &&
  is_i32 (Mapping_FilenameStrindex x) &&
  forallb is_i32 (Mapping_AttributeIndices x).

Definition Mapping_SizeProto (orig : Mapping) : Z :=
  size_if (nonzero (Mapping_MemoryStart orig)) (1 + Sov (u64 (Mapping_MemoryStart orig))) +
  size_if (nonzero (Mapping_MemoryLimit orig)) (1 + Sov (u64 (Mapping_MemoryLimit orig))) +
  size_if (nonzero (Mapping_FileOffset orig)) (1 + Sov (u64 (Mapping_FileOffset orig))) +
  size_if (nonzero (Mapping_FilenameStrindex orig)) (1 + Sov (u64 (Mapping_FilenameStrindex orig))) +
  size_if (nonempty (Mapping_AttributeIndices orig)) (1 + lengthPrefixed (sum_of (fun e => Sov (u64 e))
    (Mapping_AttributeIndices orig))).

Definition Mapping_MarshalProto (orig : Mapping) : bytes -> option (bytes * Z) :=
  marshal (
    when (nonzero (Mapping_MemoryStart orig)) (putVarint (u64 (Mapping_MemoryStart orig)) ;; putByte 0x8) ;;
    when (nonzero (Mapping_MemoryLimit orig)) (putVarint (u64 (Mapping_MemoryLimit orig)) ;; putByte 0x10) ;;
    when (nonzero (Mapping_FileOffset orig)) (putVarint (u64 (Mapping_FileOffset orig)) ;; putByte 0x18) ;;
    when (nonzero (Mapping_FilenameStrindex orig)) (putVarint (u64 (Mapping_FilenameStrindex orig)) ;; putByte
      0x20) ;;
    when (nonempty (Mapping_AttributeIndices orig)) (putPackedVarint (map u64 (Mapping_AttributeIndices orig)) ;;
      putByte 0x2a))%writer.

Definition Mapping_cases : switch Mapping := fun orig fieldNum wireType buf pos =>
  let '(mkMapping start limit offset filename attrs) := orig in
  match fieldNum with
  | 1 => varintCase wireType buf pos (fun num => mkMapping num limit offset filename attrs)
  | 2 => varintCase wireType buf pos (fun num => mkMapping start num offset filename attrs)
  | 3 => varintCase wireType buf pos (fun num => mkMapping start limit num filename attrs)
  | 4 => varintCase wireType buf pos (fun num => mkMapping start limit offset (i32 num) attrs)
  | 5 => varintsCase wireType buf pos [] (fun l => mkMapping start limit offset filename (attrs ++ map i32 l))
  | _ => unknownCase orig wireType buf pos
  end.

Definition Mapping_UnmarshalProto : bytes -> Mapping -> option (Mapping + error) := unmarshal Mapping_cases.

(** ** Line *)

Record Line := mkLine {
  Line_FunctionIndex : Z;
  Line_Line : Z;
  Line_Column : Z;
}.

Definition zeroLine : Line := mkLine 0 0 0.

Definition Line_ok (x : Line) : bool :=
  is_i32 (Line_FunctionIndex x) &&
  is_i64 (Line_Line x) &&
  is_i64 (Line_Column x).

Definition Line_SizeProto (orig : Line) : Z :=
  size_if (nonzero (Line_FunctionIndex orig)) (1 + Sov (u64 (Line_FunctionIndex orig))) +
  size_if (nonzero (Line_Line orig)) (1 + Sov (u64 (Line_Line orig))) +
  size_if (nonzero (Line_Column orig)) (1 + Sov (u64 (Line_Column orig))).

Definition Line_MarshalProto (orig : Line) : bytes -> option (bytes * Z) :=
  marshal (
    when (nonzero (Line_FunctionIndex orig)) (putVarint (u64 (Line_FunctionIndex orig)) ;; putByte 0x8) ;;
    when (nonzero (Line_Line orig)) (putVarint (u64 (Line_Line orig)) ;; putByte 0x10) ;;
    when (nonzero (Line_Column orig)) (putVarint (u64 (Line_Column orig)) ;; putByte 0x18))%writer.

Definition Line_cases : switch Line := fun orig fieldNum wireType buf pos =>
  let '(mkLine fn line column) := orig in
  match fieldNum with
  | 1 => varintCase wireType buf pos (fun num => mkLine (i32 num) line column)
  | 2 => varintCase wireType buf pos (fun num => mkLine fn (i64 num) column)
  | 3 => varintCase wireType buf pos (fun num => mkLine fn line (i64 num))
  | _ => unknownCase orig wireType buf pos
  end.

Definition Line_UnmarshalProto : bytes -> Line -> option (Line + error) := unmarshal Line_cases.

(** ** Location *)

Record Location := mkLocation {
  Location_MappingIndex : Z;
  Location_Address : Z;
  Location_Lines : list Line;
  Location_AttributeIndices : list Z;
}.

Definition zeroLocation : Location := mkLocation 0 0 [] [].

Definition Location_ok (x : Location) : bool :=
  is_i32 (Location_MappingIndex x) &&
  is_u64 (Location_Address x) &&
  forallb Line_ok (Location_Lines x) &&
  forallb is_i32 (Location_AttributeIndices x).

Definition Location_SizeProto (orig : Location) : Z :=
  size_if (nonzero (Location_MappingIndex orig)) (1 + Sov (u64 (Location_MappingIndex orig))) +
  size_if (nonzero (Location_Address orig)) (1 + Sov (u64 (Location_Address orig))) +
  sum_of (fun x => 1 + lengthPrefixed (Line_SizeProto x)) (Location_Lines orig) +
  size_if (nonempty (Location_AttributeIndices orig)) (1 + lengthPrefixed (sum_of (fun e => Sov (u64 e))
    (Location_AttributeIndices orig))).

Definition Location_MarshalProto (orig : Location) : bytes -> option (bytes * Z) :=
  marshal (
    when (nonzero (Location_MappingIndex orig)) (putVarint (u64 (Location_MappingIndex orig)) ;; putByte 0x8) ;;
    when (nonzero (Location_Address orig)) (putVarint (u64 (Location_Address orig)) ;; putByte 0x10) ;;
    backwards (fun x => putMessage (Line_MarshalProto x) ;; putByte 0x1a) (Location_Lines orig) ;;
    when (nonempty (Location_AttributeIndices orig)) (putPackedVarint (map u64 (Location_AttributeIndices orig)) ;;
      putByte 0x22))%writer.

Definition Location_cases : switch Location := fun orig fieldNum wireType buf pos =>
  let '(mkLocation mapping address lines attrs) := orig in
  match fieldNum with
  | 1 => varintCase wireType buf pos (fun num => mkLocation (i32 num) address lines attrs)
  | 2 => varintCase wireType buf pos (fun num => mkLocation mapping num lines attrs)
  | 3 => lenCase wireType buf pos (fun s =>
           sets_message (fun x => mkLocation mapping address (lines ++ [x]) attrs) (Line_UnmarshalProto s zeroLine))
  | 4 => varintsCase wireType buf pos [] (fun l => mkLocation mapping address lines (attrs ++ map i32 l))
  | _ => unknownCase orig wireType buf pos
  end.

Definition Location_UnmarshalProto : bytes -> Location -> option (Location + error) := unmarshal Location_cases.

(** ** Function *)

Record Function := mkFunction {
  Function_NameStrindex : Z;
  Function_SystemNameStrindex : Z;
  Function_FilenameStrindex : Z;
  Function_StartLine : Z;
}.

Definition zeroFunction : Function := mkFunction 0 0 0 0.

Definition Function_ok (x : Function) : bool :=
  is_i32 (Function_NameStrindex x) &&
  is_i32 (Function_SystemNameStrindex x) &&
  is_i32 (Function_FilenameStrindex x) &&
  is_i64 (Function_StartLine x).

Definition Function_SizeProto (orig : Function) : Z :=
  size_if (nonzero (Function_NameStrindex orig)) (1 + Sov (u64 (Function_NameStrindex orig))) +
  size_if (nonzero (Function_SystemNameStrindex orig)) (1 + Sov (u64 (Function_SystemNameStrindex orig))) +
  size_if (nonzero (Function_FilenameStrindex orig)) (1 + Sov (u64 (Function_FilenameStrindex orig))) +
  size_if (nonzero (Function_StartLine orig)) (1 + Sov (u64 (Function_StartLine orig))).

Definition Function_MarshalProto (orig : Function) : bytes -> option (bytes * Z) :=
  marshal (
    when (nonzero (Function_NameStrindex orig)) (putVarint (u64 (Function_NameStrindex orig)) ;; putByte 0x8) ;;
    when (nonzero (Function_SystemNameStrindex orig)) (putVarint (u64 (Function_SystemNameStrindex orig)) ;;
      putByte 0x10) ;;
    when (nonzero (Function_FilenameStrindex orig)) (putVarint (u64 (Function_FilenameStrindex orig)) ;; putByte
      0x18) ;;
    when (nonzero (Function_StartLine orig)) (putVarint (u64 (Function_StartLine orig)) ;; putByte 0x20))%writer.

Definition Function_cases : switch Function := fun orig fieldNum wireType buf pos =>
  let '(mkFunction name system filename start) := orig in
  match fieldNum with
  | 1 => varintCase wireType buf pos (fun num => mkFunction (i32 num) system filename start)
  | 2 => varintCase wireType buf pos (fun num => mkFunction name (i32 num) filename start)
  | 3 => varintCase wireType buf pos (fun num => mkFunction name system (i32 num) start)
  | 4 => varintCase wireType buf pos (fun num => mkFunction name system filename (i64 num))
  | _ => unknownCase orig wireType buf pos
  end.

Definition Function_UnmarshalProto : bytes -> Function -> option (Function + error) := unmarshal Function_cases.

(** ** Link *)

Record Link := mkLink {
  Link_TraceId : bytes;
  Link_SpanId : bytes;
}.

Definition zeroLink : Link := mkLink (emptyID traceIDSize) (emptyID spanIDSize).

Definition Link_ok (x : Link) : bool :=
  is_ID traceIDSize (Link_TraceId x) &&
  is_ID spanIDSize (Link_SpanId x).

Definition Link_SizeProto (orig : Link) : Z :=
  (1 + lengthPrefixed (TraceID_SizeProto (Link_TraceId orig))) +
  (1 + lengthPrefixed (SpanID_SizeProto (Link_SpanId orig))).

Definition Link_MarshalProto (orig : Link) : bytes -> option (bytes * Z) :=
  marshal (
    (putMessage (TraceID_MarshalProto (Link_TraceId orig)) ;; putByte 0xa) ;;
    (putMessage (SpanID_MarshalProto (Link_SpanId orig)) ;; putByte 0x12))%writer.

Definition Link_cases : switch Link := fun orig fieldNum wireType buf pos =>
  let '(mkLink tid sid) := orig in
  match fieldNum with
  | 1 => lenCase wireType buf pos (fun s =>
           sets_message (fun id => mkLink id sid) (TraceID_UnmarshalProto s))
  | 2 => lenCase wireType buf pos (fun s =>
           sets_message (fun id => mkLink tid id) (SpanID_UnmarshalProto s))
  | _ => unknownCase orig wireType buf pos
  end.

Definition Link_UnmarshalProto : bytes -> Link -> option (Link + error) := unmarshal Link_cases.

(** ** KeyValueAndUnit *)

Record KeyValueAndUnit := mkKeyValueAndUnit {
  KeyValueAndUnit_KeyStrindex : Z;
  KeyValueAndUnit_Value : AnyValue;
  KeyValueAndUnit_UnitStrindex : Z;
}.

Definition zeroKeyValueAndUnit : KeyValueAndUnit := mkKeyValueAndUnit 0 AnyValue_nil 0.

Definition KeyValueAndUnit_ok (x : KeyValueAndUnit) : bool :=
  is_i32 (KeyValueAndUnit_KeyStrindex x) &&
  AnyValue_ok (KeyValueAndUnit_Value x) &&
  is_i32 (KeyValueAndUnit_UnitStrindex x).

Definition KeyValueAndUnit_SizeProto (orig : KeyValueAndUnit) : Z :=
  size_if (nonzero (KeyValueAndUnit_KeyStrindex orig)) (1 + Sov (u64 (KeyValueAndUnit_KeyStrindex orig))) +
  (1 + lengthPrefixed (AnyValue_SizeProto (KeyValueAndUnit_Value orig))) +
  size_if (nonzero (KeyValueAndUnit_UnitStrindex orig)) (1 + Sov (u64 (KeyValueAndUnit_UnitStrindex orig))).

Definition KeyValueAndUnit_MarshalProto (orig : KeyValueAndUnit) : bytes -> option (bytes * Z) :=
  marshal (
    when (nonzero (KeyValueAndUnit_KeyStrindex orig)) (putVarint (u64 (KeyValueAndUnit_KeyStrindex orig)) ;;
      putByte 0x8) ;;
    (putMessage (AnyValue_MarshalProto (KeyValueAndUnit_Value orig)) ;; putByte 0x12) ;;
    when (nonzero (KeyValueAndUnit_UnitStrindex orig)) (putVarint (u64 (KeyValueAndUnit_UnitStrindex orig)) ;;
      putByte 0x18))%writer.

Definition KeyValueAndUnit_cases : switch KeyValueAndUnit := fun orig fieldNum wireType buf pos =>
  let '(mkKeyValueAndUnit key val unt) := orig in
  match fieldNum with
  | 1 => varintCase wireType buf pos (fun num => mkKeyValueAndUnit (i32 num) val unt)
  | 2 => lenCase wireType buf pos (fun s =>
           sets_message (fun x => mkKeyValueAndUnit key x unt) (AnyValue_UnmarshalProto s val))
  | 3 => varintCase wireType buf pos (fun num => mkKeyValueAndUnit key val (i32 num))
  | _ => unknownCase orig wireType buf pos
  end.

Definition KeyValueAndUnit_UnmarshalProto : bytes -> KeyValueAndUnit -> option (KeyValueAndUnit + error) :=
  unmarshal KeyValueAndUnit_cases.

(** ** Stack *)

Record Stack := mkStack {
  Stack_LocationIndices : list Z;
}.

Definition zeroStack : Stack := mkStack [].

Definition Stack_ok (x : Stack) : bool :=
  forallb is_i32 (Stack_LocationIndices x).

Definition Stack_SizeProto (orig : Stack) : Z :=
  size_if (nonempty (Stack_LocationIndices orig)) (1 + lengthPrefixed (sum_of (fun e => Sov (u64 e))
    (Stack_LocationIndices orig))).

Definition Stack_MarshalProto (orig : Stack) : bytes -> option (bytes * Z) :=
  marshal (
    when (nonempty (Stack_LocationIndices orig)) (putPackedVarint (map u64 (Stack_LocationIndices orig)) ;; putByte
      0xa))%writer.

Definition Stack_cases : switch Stack := fun orig fieldNum wireType buf pos =>
  let '(mkStack locations) := orig in
  match fieldNum with
  | 1 => varintsCase wireType buf pos [] (fun l => mkStack (locations ++ map i32 l))
  | _ => unknownCase orig wireType buf pos
  end.

Definition Stack_UnmarshalProto : bytes -> Stack -> option (Stack + error) := unmarshal Stack_cases.

(** ** ProfilesDictionary *)

Record ProfilesDictionary := mkProfilesDictionary {
  ProfilesDictionary_MappingTable : list Mapping;
  ProfilesDictionary_LocationTable : list Location;
  ProfilesDictionary_FunctionTable : list Function;
  ProfilesDictionary_LinkTable : list Link;
  ProfilesDictionary_StringTable : list bytes;
  ProfilesDictionary_AttributeTable : list KeyValueAndUnit;
  ProfilesDictionary_StackTable : list Stack;
}.

Definition zeroProfilesDictionary : ProfilesDictionary := mkProfilesDictionary [] [] [] [] [] [] [].

Definition ProfilesDictionary_ok (x : ProfilesDictionary) : bool :=
  forallb Mapping_ok (ProfilesDictionary_MappingTable x) &&
  forallb Location_ok (ProfilesDictionary_LocationTable x) &&
  forallb Function_ok (ProfilesDictionary_FunctionTable x) &&
  forallb Link_ok (ProfilesDictionary_LinkTable x) &&
  forallb KeyValueAndUnit_ok (ProfilesDictionary_AttributeTable x) &&
  forallb Stack_ok (ProfilesDictionary_StackTable x).

Definition ProfilesDictionary_SizeProto (orig : ProfilesDictionary) : Z :=
  sum_of (fun x => 1 + lengthPrefixed (Mapping_SizeProto x)) (ProfilesDictionary_MappingTable orig) +
  sum_of (fun x => 1 + lengthPrefixed (Location_SizeProto x)) (ProfilesDictionary_LocationTable orig) +
  sum_of (fun x => 1 + lengthPrefixed (Function_SizeProto x)) (ProfilesDictionary_FunctionTable orig) +
  sum_of (fun x => 1 + lengthPrefixed (Link_SizeProto x)) (ProfilesDictionary_LinkTable orig) +
  sum_of (fun s => 1 + lengthPrefixed (len s)) (ProfilesDictionary_StringTable orig) +
  sum_of (fun x => 1 + lengthPrefixed (KeyValueAndUnit_SizeProto x)) (ProfilesDictionary_AttributeTable orig) +
  sum_of (fun x => 1 + lengthPrefixed (Stack_SizeProto x)) (ProfilesDictionary_StackTable orig).

Definition ProfilesDictionary_MarshalProto (orig : ProfilesDictionary) : bytes -> option (bytes * Z) :=
  marshal (
    backwards (fun x => putMessage (Mapping_MarshalProto x) ;; putByte 0xa) (ProfilesDictionary_MappingTable orig)
      ;;
    backwards (fun x => putMessage (Location_MarshalProto x) ;; putByte 0x12) (ProfilesDictionary_LocationTable
      orig) ;;
    backwards (fun x => putMessage (Function_MarshalProto x) ;; putByte 0x1a) (ProfilesDictionary_FunctionTable
      orig) ;;
    backwards (fun x => putMessage (Link_MarshalProto x) ;; putByte 0x22) (ProfilesDictionary_LinkTable orig) ;;
    backwards (fun s => putString s ;; putByte 0x2a) (ProfilesDictionary_StringTable orig) ;;
    backwards (fun x => putMessage (KeyValueAndUnit_MarshalProto x) ;; putByte 0x32)
      (ProfilesDictionary_AttributeTable orig) ;;
    backwards (fun x => putMessage (Stack_MarshalProto x) ;; putByte 0x3a) (ProfilesDictionary_StackTable
      orig))%writer.

Definition ProfilesDictionary_cases : switch ProfilesDictionary := fun orig fieldNum wireType buf pos =>
  let '(mkProfilesDictionary mappings locations functions links strings attributes stacks) := orig in
  match fieldNum with
  | 1 => lenCase wireType buf pos (fun s =>
           sets_message (fun x => mkProfilesDictionary (mappings ++ [x]) locations functions links strings
             attributes stacks) (Mapping_UnmarshalProto s zeroMapping))
  | 2 => lenCase wireType buf pos (fun s =>
           sets_message (fun x => mkProfilesDictionary mappings (locations ++ [x]) functions links strings
             attributes stacks) (Location_UnmarshalProto s zeroLocation))
  | 3 => lenCase wireType buf pos (fun s =>
           sets_message (fun x => mkProfilesDictionary mappings locations (functions ++ [x]) links strings
             attributes stacks) (Function_UnmarshalProto s zeroFunction))
  | 4 => lenCase wireType buf pos (fun s =>
           sets_message (fun x => mkProfilesDictionary mappings locations functions (links ++ [x]) strings
             attributes stacks) (Link_UnmarshalProto s zeroLink))
  | 5 => lenCase wireType buf pos (fun s => sets (mkProfilesDictionary mappings locations functions links (strings
    ++ [s]) attributes stacks))
  | 6 => lenCase wireType buf pos (fun s =>
           sets_message (fun x => mkProfilesDictionary mappings locations functions links strings (attributes ++
             [x]) stacks) (KeyValueAndUnit_UnmarshalProto s zeroKeyValueAndUnit))
  | 7 => lenCase wireType buf pos (fun s =>
           sets_message (fun x => mkProfilesDictionary mappings locations functions links strings attributes
             (stacks ++ [x])) (Stack_UnmarshalProto s zeroStack))
  | _ => unknownCase orig wireType buf pos
  end.

Definition ProfilesDictionary_UnmarshalProto : bytes -> ProfilesDictionary -> option (ProfilesDictionary + error)
  := unmarshal ProfilesDictionary_cases.

(** ** ProfilesData *)

Record ProfilesData := mkProfilesData {
  ProfilesData_ResourceProfiles : list ResourceProfiles;
  ProfilesData_Dictionary : ProfilesDictionary;
}.

Definition zeroProfilesData : ProfilesData := mkProfilesData [] zeroProfilesDictionary.

Definition ProfilesData_ok (x : ProfilesData) : bool :=
  forallb ResourceProfiles_ok (ProfilesData_ResourceProfiles x) &&
  ProfilesDictionary_ok (ProfilesData_Dictionary x).

Definition ProfilesData_SizeProto (orig : ProfilesData) : Z :=
  sum_of (fun x => 1 + lengthPrefixed (ResourceProfiles_SizeProto x)) (ProfilesData_ResourceProfiles orig) +
  (1 + lengthPrefixed (ProfilesDictionary_SizeProto (ProfilesData_Dictionary orig))).

Definition ProfilesData_MarshalProto (orig : ProfilesData) : bytes -> option (bytes * Z) :=
  marshal (
    backwards (fun x => putMessage (ResourceProfiles_MarshalProto x) ;; putByte 0xa) (ProfilesData_ResourceProfiles
      orig) ;;
    (putMessage (ProfilesDictionary_MarshalProto (ProfilesData_Dictionary orig)) ;; putByte 0x12))%writer.

Definition ProfilesData_cases : switch ProfilesData := fun orig fieldNum wireType buf pos =>
  let '(mkProfilesData rps dict) := orig in
  match fieldNum with
  | 1 => lenCase wireType buf pos (fun s =>
           sets_message (fun x => mkProfilesData (rps ++ [x]) dict) (ResourceProfiles_UnmarshalProto s
             zeroResourceProfiles))
  | 2 => lenCase wireType buf pos (fun s =>
           sets_message (fun x => mkProfilesData rps x) (ProfilesDictionary_UnmarshalProto s dict))
  | _ => unknownCase orig wireType buf pos
  end.

Definition ProfilesData_UnmarshalProto : bytes -> ProfilesData -> option (ProfilesData + error) := unmarshal
  ProfilesData_cases.

(** ** ExportProfilesServiceRequest *)

Record ExportProfilesServiceRequest := mkExportProfilesServiceRequest {
  ExportProfilesServiceRequest_ResourceProfiles : list ResourceProfiles;
  ExportProfilesServiceRequest_Dictionary : ProfilesDictionary;
}.

Definition zeroExportProfilesServiceRequest : ExportProfilesServiceRequest := mkExportProfilesServiceRequest []
  zeroProfilesDictionary.

Definition ExportProfilesServiceRequest_ok (x : ExportProfilesServiceRequest) : bool :=
  forallb ResourceProfiles_ok (ExportProfilesServiceRequest_ResourceProfiles x) &&
  ProfilesDictionary_ok (ExportProfilesServiceRequest_Dictionary x).

Definition ExportProfilesServiceRequest_SizeProto (orig : ExportProfilesServiceRequest) : Z :=
  sum_of (fun x => 1 + lengthPrefixed (ResourceProfiles_SizeProto x))
    (ExportProfilesServiceRequest_ResourceProfiles orig) +
  (1 + lengthPrefixed (ProfilesDictionary_SizeProto (ExportProfilesServiceRequest_Dictionary orig))).

Definition ExportProfilesServiceRequest_MarshalProto (orig : ExportProfilesServiceRequest) : bytes -> option (bytes
  * Z) :=
  marshal (
    backwards (fun x => putMessage (ResourceProfiles_MarshalProto x) ;; putByte 0xa)
      (ExportProfilesServiceRequest_ResourceProfiles orig) ;;
    (putMessage (ProfilesDictionary_MarshalProto (ExportProfilesServiceRequest_Dictionary orig)) ;; putByte
      0x12))%writer.

Definition ExportProfilesServiceRequest_cases : switch ExportProfilesServiceRequest := fun orig fieldNum wireType
  buf pos =>
  let '(mkExportProfilesServiceRequest rps dict) := orig in
  match fieldNum with
  | 1 => lenCase wireType buf pos (fun s =>
           sets_message (fun x => mkExportProfilesServiceRequest (rps ++ [x]) dict)
             (ResourceProfiles_UnmarshalProto s zeroResourceProfiles))
  | 2 => lenCase wireType buf pos (fun s =>
           sets_message (fun x => mkExportProfilesServiceRequest rps x) (ProfilesDictionary_UnmarshalProto s dict))
  | _ => unknownCase orig wireType buf pos
  end.

Definition ExportProfilesServiceRequest_UnmarshalProto : bytes -> ExportProfilesServiceRequest -> option
  (ExportProfilesServiceRequest + error) := unmarshal ExportProfilesServiceRequest_cases.


(** ** The strings of attributes

    dictionary_helpers.go.  The table of strings and the index that getStringIndex builds
    when it first needs one are its state; the last of two equal strings of the table has
    the index.  The conversions change the attributes in place, and so return them. *)

Record interner := mkInterner {
  stringTable : list bytes;
  stringIndex : option (gmap bytes Z);
}.

(** for i := 0; i < stringTable.Len(); i++ { stringIndex[stringTable.At(i)] = int32(i) } *)
Fixpoint indexStrings (i : nat) (table : list bytes) (index : gmap bytes Z) : gmap bytes Z :=
  match table with
  | [] => index
  | s :: table => indexStrings (S i) table (<[s := i32 (Z.of_nat i)]> index)
  end.

Definition getStringIndex (s : bytes) (st : interner) : Z * interner :=
  let index := match stringIndex st with Some index => index | None => indexStrings 0 (stringTable st) ∅ end in
  match index !! s with
  | Some idx => (idx, mkInterner (stringTable st) (Some index))
  | None =>
      let idx := i32 (Z.of_nat (length (stringTable st))) in
      (idx, mkInterner (stringTable st ++ [s]) (Some (<[s := idx]> index)))
  end.

Fixpoint convertAnyValueToReference (v : AnyValue) (st : interner) : AnyValue * interner :=
  match v with
  | AnyValue_StringValue s =>
      if nonempty s then let '(idx, st) := getStringIndex s st in (AnyValue_StringValueStrindex idx, st) else (v, st)
  | AnyValue_KvlistValue (Some l) =>
      let '(l, st) := convertKeyValueListToReferences l st in (AnyValue_KvlistValue (Some l), st)
  | AnyValue_ArrayValue (Some a) =>
      let '(a, st) := convertArrayValueToReferences a st in (AnyValue_ArrayValue (Some a), st)
  | _ => (v, st)
  end
with convertArrayValueToReferences (a : ArrayValue) (st : interner) : ArrayValue * interner :=
  let '(mkArrayValue vs) := a in
  let '(vs, st) := traverse convertAnyValueToReference vs st in (mkArrayValue vs, st)
with convertKeyValueListToReferences (l : KeyValueList) (st : interner) : KeyValueList * interner :=
  let '(mkKeyValueList kvs) := l in
  let '(kvs, st) := traverse convertKeyValueToReference kvs st in (mkKeyValueList kvs, st)
with convertKeyValueToReference (kv : KeyValue) (st : interner) : KeyValue * interner :=
  let '(mkKeyValue v k i) := kv in
  let '((k, i), st) :=
    if nonempty k then let '(idx, st) := getStringIndex k st in (([], idx), st) else ((k, i), st) in
  let '(v, st) := convertAnyValueToReference v st in (mkKeyValue v k i, st).

Definition convertKeyValueToReferences : list KeyValue -> interner -> list KeyValue * interner :=
  traverse convertKeyValueToReference.

Definition convertResource (r : Resource) (st : interner) : Resource * interner :=
  let '(mkResource attrs refs dropped) := r in
  let '(attrs, st) := convertKeyValueToReferences attrs st in (mkResource attrs refs dropped, st).

Definition convertScopeProfiles (sp : ScopeProfiles) (st : interner) : ScopeProfiles * interner :=
  let '(mkScopeProfiles (mkInstrumentationScope name version attrs dropped) ps url) := sp in
  let '(attrs, st) := convertKeyValueToReferences attrs st in
  (mkScopeProfiles (mkInstrumentationScope name version attrs dropped) ps url, st).

Definition convertResourceProfiles (rp : ResourceProfiles) (st : interner) : ResourceProfiles * interner :=
  let '(mkResourceProfiles r sps url) := rp in
  let '(r, st) := convertResource r st in
  let '(sps, st) := traverse convertScopeProfiles sps st in (mkResourceProfiles r sps url, st).

Definition set_StringTable (table : list bytes) (d : ProfilesDictionary) : ProfilesDictionary :=
  let '(mkProfilesDictionary ms ls fs links _ attrs stacks) := d in
  mkProfilesDictionary ms ls fs links table attrs stacks.

Definition convertProfilesToReferences (profiles : ExportProfilesServiceRequest) : ExportProfilesServiceRequest :=
  let '(mkExportProfilesServiceRequest rps dict) := profiles in
  let '(rps, st) := traverse convertResourceProfiles rps (mkInterner (ProfilesDictionary_StringTable dict) None) in
  mkExportProfilesServiceRequest rps (set_StringTable (stringTable st) dict).

(** StringTable().At(idx) under its guards *)
Definition stringAt (table : list bytes) (idx : Z) : option bytes :=
  if decide (0 <= idx) then table !! Z.to_nat idx else None.

Fixpoint resolveAnyValueReference (table : list bytes) (v : AnyValue) : AnyValue :=
  match v with
  | AnyValue_StringValueStrindex idx =>
      if nonzero idx then match stringAt table idx with Some str => AnyValue_StringValue str | None => v end else v
  | AnyValue_KvlistValue (Some (mkKeyValueList kvs)) =>
      AnyValue_KvlistValue (Some (mkKeyValueList (map (resolveKeyValueReference table) kvs)))
  | AnyValue_ArrayValue (Some (mkArrayValue vs)) =>
      AnyValue_ArrayValue (Some (mkArrayValue (map (resolveAnyValueReference table) vs)))
  | _ => v
  end
with resolveKeyValueReference (table : list bytes) (kv : KeyValue) : KeyValue :=
  let '(mkKeyValue v k i) := kv in mkKeyValue (resolveAnyValueReference table v) (default k (stringAt table i)) i.

Definition resolveKeyValueReferences (table : list bytes) : list KeyValue -> list KeyValue :=
  map (resolveKeyValueReference table).

Definition resolveResource (table : list bytes) (r : Resource) : Resource :=
  let '(mkResource attrs refs dropped) := r in mkResource (resolveKeyValueReferences table attrs) refs dropped.

Definition resolveScopeProfiles (table : list bytes) (sp : ScopeProfiles) : ScopeProfiles :=
  let '(mkScopeProfiles (mkInstrumentationScope name version attrs dropped) ps url) := sp in
  mkScopeProfiles (mkInstrumentationScope name version (resolveKeyValueReferences table attrs) dropped) ps url.

Definition resolveResourceProfiles (table : list bytes) (rp : ResourceProfiles) : ResourceProfiles :=
  let '(mkResourceProfiles r sps url) := rp in
  mkResourceProfiles (resolveResource table r) (map (resolveScopeProfiles table) sps) url.

Definition resolveProfilesReferences (profiles : ExportProfilesServiceRequest) : ExportProfilesServiceRequest :=
  let '(mkExportProfilesServiceRequest rps dict) := profiles in
  mkExportProfilesServiceRequest (map (resolveResourceProfiles (ProfilesDictionary_StringTable dict)) rps) dict.

(** ** ProtoMarshaler and ProtoUnmarshaler

    The Profiles of the API wraps an ExportProfilesServiceRequest, which starts empty.
    MarshalProfiles changes the data it is given, unless it is read-only: the second result
    is what the caller has afterwards. *)

Definition ProtoMarshaler_MarshalProfiles (readOnly : bool) (pd : ExportProfilesServiceRequest) :
    option (bytes * ExportProfilesServiceRequest) :=
  let pdToUse := convertProfilesToReferences pd in
  let size := ExportProfilesServiceRequest_SizeProto pdToUse in
  match ExportProfilesServiceRequest_MarshalProto pdToUse (replicate (Z.to_nat size) 0) with
  | Some (buf, _) => Some (buf, if readOnly then pd else pdToUse)
  | None => None
  end.

Definition ProtoMarshaler_ProfilesSize : ExportProfilesServiceRequest -> Z := ExportProfilesServiceRequest_SizeProto.
Definition ProtoMarshaler_ResourceProfilesSize : ResourceProfiles -> Z := ResourceProfiles_SizeProto.
Definition ProtoMarshaler_ScopeProfilesSize : ScopeProfiles -> Z := ScopeProfiles_SizeProto.
Definition ProtoMarshaler_ProfileSize : Profile -> Z := Profile_SizeProto.

Definition ProtoUnmarshaler_UnmarshalProfiles (buf : bytes) : option (ExportProfilesServiceRequest + error) :=
  match ExportProfilesServiceRequest_UnmarshalProto buf zeroExportProfilesServiceRequest with
  | Some (inl pd) => Some (inl (resolveProfilesReferences pd))
  | r => r
  end.

(** ** What the conversions are about

    [spells]: strings are spelled out, there are no references to the table of strings.
    [refers]: they are all references.  [forget] drops what the indices of keys are, which
    the API does not show. *)

Fixpoint AnyValue_spells (v : AnyValue) : bool :=
  match v with
  | AnyValue_StringValueStrindex _ => false
  | AnyValue_ArrayValue (Some (mkArrayValue vs)) => forallb AnyValue_spells vs
  | AnyValue_KvlistValue (Some (mkKeyValueList kvs)) => forallb KeyValue_spells kvs
  | _ => true
  end
with KeyValue_spells (kv : KeyValue) : bool :=
  let '(mkKeyValue v k i) := kv in AnyValue_spells v && (nonempty k || (i =? 0)).

Fixpoint AnyValue_refers (v : AnyValue) : bool :=
  match v with
  | AnyValue_StringValue s => negb (nonempty s)
  | AnyValue_ArrayValue (Some (mkArrayValue vs)) => forallb AnyValue_refers vs
  | AnyValue_KvlistValue (Some (mkKeyValueList kvs)) => forallb KeyValue_refers kvs
  | _ => true
  end
with KeyValue_refers (kv : KeyValue) : bool :=
  let '(mkKeyValue v k i) := kv in AnyValue_refers v && negb (nonempty k).

Fixpoint AnyValue_forget (v : AnyValue) : AnyValue :=
  match v with
  | AnyValue_ArrayValue (Some (mkArrayValue vs)) => AnyValue_ArrayValue (Some (mkArrayValue (map AnyValue_forget vs)))
  | AnyValue_KvlistValue (Some (mkKeyValueList kvs)) =>
      AnyValue_KvlistValue (Some (mkKeyValueList (map KeyValue_forget kvs)))
  | _ => v
  end
with KeyValue_forget (kv : KeyValue) : KeyValue := let '(mkKeyValue v k _) := kv in mkKeyValue (AnyValue_forget v) k 0.

Definition ScopeProfiles_attrs (sp : ScopeProfiles) : list KeyValue := InstrumentationScope_Attributes (ScopeProfiles_Scope sp).
Definition Resource_attrs (rp : ResourceProfiles) : list KeyValue := Resource_Attributes (ResourceProfiles_Resource rp).

Definition ScopeProfiles_forget (sp : ScopeProfiles) : ScopeProfiles :=
  let '(mkScopeProfiles (mkInstrumentationScope name version attrs dropped) ps url) := sp in
  mkScopeProfiles (mkInstrumentationScope name version (map KeyValue_forget attrs) dropped) ps url.
Definition ResourceProfiles_forget (rp : ResourceProfiles) : ResourceProfiles :=
  let '(mkResourceProfiles (mkResource attrs refs dropped) sps url) := rp in
  mkResourceProfiles (mkResource (map KeyValue_forget attrs) refs dropped) (map ScopeProfiles_forget sps) url.

(** A property of all attributes of resources and scopes. *)
Definition all_attributes (p : KeyValue -> bool) (rp : ResourceProfiles) : bool :=
  forallb p (Resource_attrs rp) && forallb (fun sp => forallb p (ScopeProfiles_attrs sp)) (ResourceProfiles_ScopeProfiles rp).
