(* ===== verification/ProfilesProtoProofs.v ===== *)
(** * ProfilesProtoProofs: profiles round-trip through the wire format

    One lemma per message composes its fields; the theorems are about whole profiles, and
    about the references to the string table that replace the strings of attributes. *)

From S2P Require Import Prelude.
From S2P Require Import GoErrors.
From S2P Require Import PData.
From S2P Require Import Storage.
From S2P Require Import ProtoWire.
From S2P Require Import ProtoMessage.
From S2P Require Import ProtoMessageProofs.
From S2P Require Import CommonProto.
From S2P Require Import CommonProtoProofs.
From S2P Require Import ProfilesProto.

(** ** Fields that only profiles have *)

Lemma u64_small v : is_u64 v = true -> u64 v = v.
Proof. intros Hv%in_range_iff. by apply u64_id. Qed.

Lemma map_conv_u64 (conv : Z -> Z) (ok : Z -> bool) l :
  (forall z, ok z = true -> conv (u64 z) = z) -> forallb ok l = true -> map conv (map u64 l) = l.
Proof.
  intros C F. induction l as [|z l IH]; simpl in *; [done|]. apply andb_true_iff in F as [Hz F]. by rewrite C, IH.
Qed.

Lemma sum_of_map {A B} (f : B -> Z) (g : A -> B) l : sum_of f (map g l) = sum_of (fun x => f (g x)) l.
Proof. induction l; simpl; congruence. Qed.

(** A packed field of signed varints. *)
Lemma carries_svarints {M} (cases : switch M) t (conv : Z -> Z) ok l (set : list Z -> M) :
  8 <= t < 128 -> Z.land t 7 = WireTypeLen ->
  (forall buf pos, cases (set []) (Z.shiftr t 3) WireTypeLen buf pos =
     varintsCase WireTypeLen buf pos [] (fun nums => set (map conv nums))) ->
  (forall z, ok z = true -> conv (u64 z) = z) -> forallb ok l = true ->
  carries cases (when (nonempty l) (putPackedVarint (map u64 l) ;; putByte t)%writer)
    (size_if (nonempty l) (1 + lengthPrefixed (sum_of (fun e => Sov (u64 e)) l))) (set []) (set l).
Proof.
  intros Ht Hw C Hc Hl. eapply carries_when; [|intros ->%nonempty_nil; done]. intros _.
  rewrite <- sum_of_map. assert (Forall (fun v => 0 <= v < 2 ^ 64) (map u64 l)) as F.
  { rewrite Forall_forall. intros v Hv. apply list_elem_of_fmap in Hv as (z & -> & _). apply u64_range. }
  eapply carries_tag1; [done|by apply emits_packedVarint|]. rewrite Hw. rewrite <- (map_conv_u64 conv ok l Hc Hl) at 2.
  by eapply (parses_varints cases _ (map u64 l) [] (fun nums => set (map conv nums))).
Qed.

Lemma ProfileID_codec id : is_ID profileIDSize id = true ->
  codec (ProfileID_MarshalProto id) (ProfileID_SizeProto id) ProfileID_UnmarshalProto id.
Proof. apply (ID_codec profileIDSize). Qed.

Lemma ProfileID_UnmarshalProto_ok s : outcome_ok (is_ok (is_ID profileIDSize)) (ProfileID_UnmarshalProto s).
Proof. apply ID_UnmarshalProto_ok. Qed.

Lemma i32s_fit l k : forallb is_i32 l = true -> forallb is_i32 (l ++ map i32 k) = true.
Proof. intros Hl. rewrite forallb_app, Hl. simpl. induction k; simpl; [done|]. by rewrite i32_is. Qed.

Lemma i64s_fit l k : forallb is_i64 l = true -> forallb is_i64 (l ++ map i64 k) = true.
Proof. intros Hl. rewrite forallb_app, Hl. simpl. induction k; simpl; [done|]. by rewrite i64_is. Qed.

#[export] Hint Resolve ProfileID_UnmarshalProto_ok i32s_fit i64s_fit : codec.

(** ** ValueType *)

Lemma ValueType_codec x : ValueType_ok x = true ->
  codec (ValueType_MarshalProto x) (ValueType_SizeProto x) (fun s => ValueType_UnmarshalProto s zeroValueType) x.
Proof.
  destruct x as [type unt]. intros Hok. unfold ValueType_ok in Hok. cbn in Hok.
  rewrite ?andb_true_iff in Hok. destruct_and?. eapply carries_codec.
  - fields 1%nat.
    + apply (carries_opt_varint _ 0x10 unt i32 (fun v => mkValueType 0 v)); [lia|reflexivity|by apply i32_u64].
    + apply (carries_opt_varint _ 0x8 type i32 (fun v => mkValueType v unt)); [lia|reflexivity|by apply i32_u64].
  - unfold ValueType_SizeProto. cbn -[lengthPrefixed size_if]. lia.
Qed.

Lemma ValueType_list_codec l : forallb ValueType_ok l = true ->
  Forall (fun x => codec (ValueType_MarshalProto x) (ValueType_SizeProto x) (fun s => ValueType_UnmarshalProto s
    zeroValueType) x) l.
Proof. apply Forall_ok, Forall_true, ValueType_codec. Qed.

Lemma zeroValueType_ok : is_ok ValueType_ok zeroValueType.
Proof. done. Qed.

Lemma ValueType_UnmarshalProto_ok s x : bytes_ok s -> len s < 2 ^ 63 -> is_ok ValueType_ok x ->
  outcome_ok (is_ok ValueType_ok) (ValueType_UnmarshalProto s x).
Proof.
  intros Hs Hl Hx. apply unmarshal_ok; [|done|done|done]. clear x Hx.
  intros [type unt] f wt buf pos Hv Hb1 Hb2 Hn Hp.
  unfold ValueType_cases. each_case f; ranges Hv ValueType_ok; case_value ValueType_ok.
Qed.

#[export] Hint Resolve zeroValueType_ok ValueType_UnmarshalProto_ok : codec.

(** ** Sample *)

Lemma Sample_codec x : Sample_ok x = true ->
  codec (Sample_MarshalProto x) (Sample_SizeProto x) (fun s => Sample_UnmarshalProto s zeroSample) x.
Proof.
  destruct x as [stack attrs link vals times]. intros Hok. unfold Sample_ok in Hok. cbn in Hok.
  rewrite ?andb_true_iff in Hok. destruct_and?. eapply carries_codec.
  - fields 4%nat.
    + apply (carries_fixeds _ 0x2a times (fun v => mkSample 0 [] 0 [] v)); [lia|reflexivity|reflexivity|done].
    + eapply (carries_svarints _ 0x22 i64 is_i64 vals (fun v => mkSample 0 [] 0 v times));
      [lia|reflexivity|reflexivity|apply i64_u64|done].
    + apply (carries_opt_varint _ 0x18 link i32 (fun v => mkSample 0 [] v vals times)); [lia|reflexivity|by apply
      i32_u64].
    + eapply (carries_svarints _ 0x12 i32 is_i32 attrs (fun v => mkSample 0 v link vals times));
      [lia|reflexivity|reflexivity|apply i32_u64|done].
    + apply (carries_opt_varint _ 0x8 stack i32 (fun v => mkSample v attrs link vals times)); [lia|reflexivity|by
      apply i32_u64].
  - unfold Sample_SizeProto. cbn -[lengthPrefixed size_if]. lia.
Qed.

Lemma Sample_list_codec l : forallb Sample_ok l = true ->
  Forall (fun x => codec (Sample_MarshalProto x) (Sample_SizeProto x) (fun s => Sample_UnmarshalProto s zeroSample)
    x) l.
Proof. apply Forall_ok, Forall_true, Sample_codec. Qed.

Lemma zeroSample_ok : is_ok Sample_ok zeroSample.
Proof. done. Qed.

Lemma Sample_UnmarshalProto_ok s x : bytes_ok s -> len s < 2 ^ 63 -> is_ok Sample_ok x ->
  outcome_ok (is_ok Sample_ok) (Sample_UnmarshalProto s x).
Proof.
  intros Hs Hl Hx. apply unmarshal_ok; [|done|done|done]. clear x Hx.
  intros [stack attrs link vals times] f wt buf pos Hv Hb1 Hb2 Hn Hp.
  unfold Sample_cases. each_case f; ranges Hv Sample_ok; case_value Sample_ok.
Qed.

#[export] Hint Resolve zeroSample_ok Sample_UnmarshalProto_ok : codec.

(** ** Profile *)

Lemma Profile_codec x : Profile_ok x = true ->
  codec (Profile_MarshalProto x) (Profile_SizeProto x) (fun s => Profile_UnmarshalProto s zeroProfile) x.
Proof.
  destruct x as [sampleType samples time duration periodType period pid dropped format payload attrs]. intros Hok.
    unfold Profile_ok in Hok. cbn in Hok.
  rewrite ?andb_true_iff in Hok. destruct_and?. eapply carries_codec.
  - fields 10%nat.
    + eapply (carries_svarints _ 0x5a i32 is_i32 attrs (fun v => mkProfile zeroValueType [] 0 0 zeroValueType 0
      (emptyID profileIDSize) 0 [] [] v)); [lia|reflexivity|reflexivity|apply i32_u64|done].
    + apply (carries_opt_bytes _ 0x52 payload (fun v => mkProfile zeroValueType [] 0 0 zeroValueType 0 (emptyID
      profileIDSize) 0 [] v attrs)); [lia|reflexivity].
    + apply (carries_opt_string _ 0x4a format (fun v => mkProfile zeroValueType [] 0 0 zeroValueType 0 (emptyID
      profileIDSize) 0 v payload attrs)); [lia|reflexivity].
    + apply (carries_opt_varint _ 0x40 dropped u32 (fun v => mkProfile zeroValueType [] 0 0 zeroValueType 0
      (emptyID profileIDSize) v format payload attrs)); [lia|reflexivity|by apply u32_u64].
    + eapply (carries_sub _ 0x3a _ _ _ _ pid (fun v => mkProfile zeroValueType [] 0 0 zeroValueType 0 v dropped
      format payload attrs)); [lia|reflexivity|reflexivity|by apply ProfileID_codec].
    + apply (carries_opt_varint _ 0x30 period i64 (fun v => mkProfile zeroValueType [] 0 0 zeroValueType v pid
      dropped format payload attrs)); [lia|reflexivity|by apply i64_u64].
    + eapply (carries_sub _ 0x2a _ _ _ _ periodType (fun v => mkProfile zeroValueType [] 0 0 v period pid dropped
      format payload attrs)); [lia|reflexivity|reflexivity|by apply ValueType_codec].
    + apply (carries_opt_varint _ 0x20 duration (fun num => num) (fun v => mkProfile zeroValueType [] 0 v
      periodType period pid dropped format payload attrs)); [lia|reflexivity|by apply u64_small].
    + apply (carries_opt_i64 _ 0x19 time (fun v => mkProfile zeroValueType [] v duration periodType period pid
      dropped format payload attrs)); [lia|reflexivity|done].
    + eapply (carries_messages _ 0x12 Sample_MarshalProto Sample_SizeProto _ (fun v => mkProfile zeroValueType v
      time duration periodType period pid dropped format payload attrs));
        [lia|reflexivity|reflexivity|by apply Sample_list_codec].
    + eapply (carries_sub _ 0xa _ _ _ _ sampleType (fun v => mkProfile v samples time duration periodType period
      pid dropped format payload attrs)); [lia|reflexivity|reflexivity|by apply ValueType_codec].
  - unfold Profile_SizeProto. cbn -[lengthPrefixed size_if]. lia.
Qed.

Lemma Profile_list_codec l : forallb Profile_ok l = true ->
  Forall (fun x => codec (Profile_MarshalProto x) (Profile_SizeProto x) (fun s => Profile_UnmarshalProto s
    zeroProfile) x) l.
Proof. apply Forall_ok, Forall_true, Profile_codec. Qed.

Lemma zeroProfile_ok : is_ok Profile_ok zeroProfile.
Proof. done. Qed.

Lemma Profile_UnmarshalProto_ok s x : bytes_ok s -> len s < 2 ^ 63 -> is_ok Profile_ok x ->
  outcome_ok (is_ok Profile_ok) (Profile_UnmarshalProto s x).
Proof.
  intros Hs Hl Hx. apply unmarshal_ok; [|done|done|done]. clear x Hx.
  intros [sampleType samples time duration periodType period pid dropped format payload attrs] f wt buf pos Hv Hb1
    Hb2 Hn Hp.
  unfold Profile_cases. each_case f; ranges Hv Profile_ok; case_value Profile_ok.
Qed.

#[export] Hint Resolve zeroProfile_ok Profile_UnmarshalProto_ok : codec.

(** ** ScopeProfiles *)

Lemma ScopeProfiles_codec x : ScopeProfiles_ok x = true ->
  codec (ScopeProfiles_MarshalProto x) (ScopeProfiles_SizeProto x) (fun s => ScopeProfiles_UnmarshalProto s
    zeroScopeProfiles) x.
Proof.
  destruct x as [scope profiles url]. intros Hok. unfold ScopeProfiles_ok in Hok. cbn in Hok.
  rewrite ?andb_true_iff in Hok. destruct_and?. eapply carries_codec.
  - fields 2%nat.
    + apply (carries_opt_string _ 0x1a url (fun v => mkScopeProfiles zeroInstrumentationScope [] v));
      [lia|reflexivity].
    + eapply (carries_messages _ 0x12 Profile_MarshalProto Profile_SizeProto _ (fun v => mkScopeProfiles
      zeroInstrumentationScope v url));
        [lia|reflexivity|reflexivity|by apply Profile_list_codec].
    + eapply (carries_sub _ 0xa _ _ _ _ scope (fun v => mkScopeProfiles v profiles url));
      [lia|reflexivity|reflexivity|by apply InstrumentationScope_codec].
  - unfold ScopeProfiles_SizeProto. cbn -[lengthPrefixed size_if]. lia.
Qed.

Lemma ScopeProfiles_list_codec l : forallb ScopeProfiles_ok l = true ->
  Forall (fun x => codec (ScopeProfiles_MarshalProto x) (ScopeProfiles_SizeProto x) (fun s =>
    ScopeProfiles_UnmarshalProto s zeroScopeProfiles) x) l.
Proof. apply Forall_ok, Forall_true, ScopeProfiles_codec. Qed.

Lemma zeroScopeProfiles_ok : is_ok ScopeProfiles_ok zeroScopeProfiles.
Proof. done. Qed.

Lemma ScopeProfiles_UnmarshalProto_ok s x : bytes_ok s -> len s < 2 ^ 63 -> is_ok ScopeProfiles_ok x ->
  outcome_ok (is_ok ScopeProfiles_ok) (ScopeProfiles_UnmarshalProto s x).
Proof.
  intros Hs Hl Hx. apply unmarshal_ok; [|done|done|done]. clear x Hx.
  intros [scope profiles url] f wt buf pos Hv Hb1 Hb2 Hn Hp.
  unfold ScopeProfiles_cases. each_case f; ranges Hv ScopeProfiles_ok; case_value ScopeProfiles_ok.
Qed.

#[export] Hint Resolve zeroScopeProfiles_ok ScopeProfiles_UnmarshalProto_ok : codec.

(** ** ResourceProfiles *)

Lemma ResourceProfiles_codec x : ResourceProfiles_ok x = true ->
  codec (ResourceProfiles_MarshalProto x) (ResourceProfiles_SizeProto x) (fun s => ResourceProfiles_UnmarshalProto
    s zeroResourceProfiles) x.
Proof.
  destruct x as [resource scopes url]. intros Hok. unfold ResourceProfiles_ok in Hok. cbn in Hok.
  rewrite ?andb_true_iff in Hok. destruct_and?. eapply carries_codec.
  - fields 2%nat.
    + apply (carries_opt_string _ 0x1a url (fun v => mkResourceProfiles zeroResource [] v)); [lia|reflexivity].
    + eapply (carries_messages _ 0x12 ScopeProfiles_MarshalProto ScopeProfiles_SizeProto _ (fun v =>
      mkResourceProfiles zeroResource v url));
        [lia|reflexivity|reflexivity|by apply ScopeProfiles_list_codec].
    + eapply (carries_sub _ 0xa _ _ _ _ resource (fun v => mkResourceProfiles v scopes url));
      [lia|reflexivity|reflexivity|by apply Resource_codec].
  - unfold ResourceProfiles_SizeProto. cbn -[lengthPrefixed size_if]. lia.
Qed.

Lemma ResourceProfiles_list_codec l : forallb ResourceProfiles_ok l = true ->
  Forall (fun x => codec (ResourceProfiles_MarshalProto x) (ResourceProfiles_SizeProto x) (fun s =>
    ResourceProfiles_UnmarshalProto s zeroResourceProfiles) x) l.
Proof. apply Forall_ok, Forall_true, ResourceProfiles_codec. Qed.

Lemma zeroResourceProfiles_ok : is_ok ResourceProfiles_ok zeroResourceProfiles.
Proof. done. Qed.

Lemma ResourceProfiles_UnmarshalProto_ok s x : bytes_ok s -> len s < 2 ^ 63 -> is_ok ResourceProfiles_ok x ->
  outcome_ok (is_ok ResourceProfiles_ok) (ResourceProfiles_UnmarshalProto s x).
Proof.
  intros Hs Hl Hx. apply unmarshal_ok; [|done|done|done]. clear x Hx.
  intros [resource scopes url] f wt buf pos Hv Hb1 Hb2 Hn Hp.
  unfold ResourceProfiles_cases. each_case f; ranges Hv ResourceProfiles_ok; case_value ResourceProfiles_ok.
Qed.

#[export] Hint Resolve zeroResourceProfiles_ok ResourceProfiles_UnmarshalProto_ok : codec.

(** ** Mapping *)

Lemma Mapping_codec x : Mapping_ok x = true ->
  codec (Mapping_MarshalProto x) (Mapping_SizeProto x) (fun s => Mapping_UnmarshalProto s zeroMapping) x.
Proof.
  destruct x as [start limit offset filename attrs]. intros Hok. unfold Mapping_ok in Hok. cbn in Hok.
  rewrite ?andb_true_iff in Hok. destruct_and?. eapply carries_codec.
  - fields 4%nat.
    + eapply (carries_svarints _ 0x2a i32 is_i32 attrs (fun v => mkMapping 0 0 0 0 v));
      [lia|reflexivity|reflexivity|apply i32_u64|done].
    + apply (carries_opt_varint _ 0x20 filename i32 (fun v => mkMapping 0 0 0 v attrs)); [lia|reflexivity|by apply
      i32_u64].
    + apply (carries_opt_varint _ 0x18 offset (fun num => num) (fun v => mkMapping 0 0 v filename attrs));
      [lia|reflexivity|by apply u64_small].
    + apply (carries_opt_varint _ 0x10 limit (fun num => num) (fun v => mkMapping 0 v offset filename attrs));
      [lia|reflexivity|by apply u64_small].
    + apply (carries_opt_varint _ 0x8 start (fun num => num) (fun v => mkMapping v limit offset filename attrs));
      [lia|reflexivity|by apply u64_small].
  - unfold Mapping_SizeProto. cbn -[lengthPrefixed size_if]. lia.
Qed.

Lemma Mapping_list_codec l : forallb Mapping_ok l = true ->
  Forall (fun x => codec (Mapping_MarshalProto x) (Mapping_SizeProto x) (fun s => Mapping_UnmarshalProto s
    zeroMapping) x) l.
Proof. apply Forall_ok, Forall_true, Mapping_codec. Qed.

Lemma zeroMapping_ok : is_ok Mapping_ok zeroMapping.
Proof. done. Qed.

Lemma Mapping_UnmarshalProto_ok s x : bytes_ok s -> len s < 2 ^ 63 -> is_ok Mapping_ok x ->
  outcome_ok (is_ok Mapping_ok) (Mapping_UnmarshalProto s x).
Proof.
  intros Hs Hl Hx. apply unmarshal_ok; [|done|done|done]. clear x Hx.
  intros [start limit offset filename attrs] f wt buf pos Hv Hb1 Hb2 Hn Hp.
  unfold Mapping_cases. each_case f; ranges Hv Mapping_ok; case_value Mapping_ok.
Qed.

#[export] Hint Resolve zeroMapping_ok Mapping_UnmarshalProto_ok : codec.

(** ** Line *)

Lemma Line_codec x : Line_ok x = true ->
  codec (Line_MarshalProto x) (Line_SizeProto x) (fun s => Line_UnmarshalProto s zeroLine) x.
Proof.
  destruct x as [fn line column]. intros Hok. unfold Line_ok in Hok. cbn in Hok.
  rewrite ?andb_true_iff in Hok. destruct_and?. eapply carries_codec.
  - fields 2%nat.
    + apply (carries_opt_varint _ 0x18 column i64 (fun v => mkLine 0 0 v)); [lia|reflexivity|by apply i64_u64].
    + apply (carries_opt_varint _ 0x10 line i64 (fun v => mkLine 0 v column)); [lia|reflexivity|by apply i64_u64].
    + apply (carries_opt_varint _ 0x8 fn i32 (fun v => mkLine v line column)); [lia|reflexivity|by apply i32_u64].
  - unfold Line_SizeProto. cbn -[lengthPrefixed size_if]. lia.
Qed.

Lemma Line_list_codec l : forallb Line_ok l = true ->
  Forall (fun x => codec (Line_MarshalProto x) (Line_SizeProto x) (fun s => Line_UnmarshalProto s zeroLine) x) l.
Proof. apply Forall_ok, Forall_true, Line_codec. Qed.

Lemma zeroLine_ok : is_ok Line_ok zeroLine.
Proof. done. Qed.

Lemma Line_UnmarshalProto_ok s x : bytes_ok s -> len s < 2 ^ 63 -> is_ok Line_ok x ->
  outcome_ok (is_ok Line_ok) (Line_UnmarshalProto s x).
Proof.
  intros Hs Hl Hx. apply unmarshal_ok; [|done|done|done]. clear x Hx.
  intros [fn line column] f wt buf pos Hv Hb1 Hb2 Hn Hp.
  unfold Line_cases. each_case f; ranges Hv Line_ok; case_value Line_ok.
Qed.

#[export] Hint Resolve zeroLine_ok Line_UnmarshalProto_ok : codec.

(** ** Location *)

Lemma Location_codec x : Location_ok x = true ->
  codec (Location_MarshalProto x) (Location_SizeProto x) (fun s => Location_UnmarshalProto s zeroLocation) x.
Proof.
  destruct x as [mapping address lines attrs]. intros Hok. unfold Location_ok in Hok. cbn in Hok.
  rewrite ?andb_true_iff in Hok. destruct_and?. eapply carries_codec.
  - fields 3%nat.
    + eapply (carries_svarints _ 0x22 i32 is_i32 attrs (fun v => mkLocation 0 0 [] v));
      [lia|reflexivity|reflexivity|apply i32_u64|done].
    + eapply (carries_messages _ 0x1a Line_MarshalProto Line_SizeProto _ (fun v => mkLocation 0 0 v attrs));
        [lia|reflexivity|reflexivity|by apply Line_list_codec].
    + apply (carries_opt_varint _ 0x10 address (fun num => num) (fun v => mkLocation 0 v lines attrs));
      [lia|reflexivity|by apply u64_small].
    + apply (carries_opt_varint _ 0x8 mapping i32 (fun v => mkLocation v address lines attrs)); [lia|reflexivity|by
      apply i32_u64].
  - unfold Location_SizeProto. cbn -[lengthPrefixed size_if]. lia.
Qed.

Lemma Location_list_codec l : forallb Location_ok l = true ->
  Forall (fun x => codec (Location_MarshalProto x) (Location_SizeProto x) (fun s => Location_UnmarshalProto s
    zeroLocation) x) l.
Proof. apply Forall_ok, Forall_true, Location_codec. Qed.

Lemma zeroLocation_ok : is_ok Location_ok zeroLocation.
Proof. done. Qed.

Lemma Location_UnmarshalProto_ok s x : bytes_ok s -> len s < 2 ^ 63 -> is_ok Location_ok x ->
  outcome_ok (is_ok Location_ok) (Location_UnmarshalProto s x).
Proof.
  intros Hs Hl Hx. apply unmarshal_ok; [|done|done|done]. clear x Hx.
  intros [mapping address lines attrs] f wt buf pos Hv Hb1 Hb2 Hn Hp.
  unfold Location_cases. each_case f; ranges Hv Location_ok; case_value Location_ok.
Qed.

#[export] Hint Resolve zeroLocation_ok Location_UnmarshalProto_ok : codec.

(** ** Function *)

Lemma Function_codec x : Function_ok x = true ->
  codec (Function_MarshalProto x) (Function_SizeProto x) (fun s => Function_UnmarshalProto s zeroFunction) x.
Proof.
  destruct x as [name system filename start]. intros Hok. unfold Function_ok in Hok. cbn in Hok.
  rewrite ?andb_true_iff in Hok. destruct_and?. eapply carries_codec.
  - fields 3%nat.
    + apply (carries_opt_varint _ 0x20 start i64 (fun v => mkFunction 0 0 0 v)); [lia|reflexivity|by apply i64_u64].
    + apply (carries_opt_varint _ 0x18 filename i32 (fun v => mkFunction 0 0 v start)); [lia|reflexivity|by apply
      i32_u64].
    + apply (carries_opt_varint _ 0x10 system i32 (fun v => mkFunction 0 v filename start)); [lia|reflexivity|by
      apply i32_u64].
    + apply (carries_opt_varint _ 0x8 name i32 (fun v => mkFunction v system filename start)); [lia|reflexivity|by
      apply i32_u64].
  - unfold Function_SizeProto. cbn -[lengthPrefixed size_if]. lia.
Qed.

Lemma Function_list_codec l : forallb Function_ok l = true ->
  Forall (fun x => codec (Function_MarshalProto x) (Function_SizeProto x) (fun s => Function_UnmarshalProto s
    zeroFunction) x) l.
Proof. apply Forall_ok, Forall_true, Function_codec. Qed.

Lemma zeroFunction_ok : is_ok Function_ok zeroFunction.
Proof. done. Qed.

Lemma Function_UnmarshalProto_ok s x : bytes_ok s -> len s < 2 ^ 63 -> is_ok Function_ok x ->
  outcome_ok (is_ok Function_ok) (Function_UnmarshalProto s x).
Proof.
  intros Hs Hl Hx. apply unmarshal_ok; [|done|done|done]. clear x Hx.
  intros [name system filename start] f wt buf pos Hv Hb1 Hb2 Hn Hp.
  unfold Function_cases. each_case f; ranges Hv Function_ok; case_value Function_ok.
Qed.

#[export] Hint Resolve zeroFunction_ok Function_UnmarshalProto_ok : codec.

(** ** Link *)

Lemma Link_codec x : Link_ok x = true ->
  codec (Link_MarshalProto x) (Link_SizeProto x) (fun s => Link_UnmarshalProto s zeroLink) x.
Proof.
  destruct x as [tid sid]. intros Hok. unfold Link_ok in Hok. cbn in Hok.
  rewrite ?andb_true_iff in Hok. destruct_and?. eapply carries_codec.
  - fields 1%nat.
    + eapply (carries_sub _ 0x12 _ _ _ _ sid (fun v => mkLink (emptyID traceIDSize) v));
      [lia|reflexivity|reflexivity|by apply SpanID_codec].
    + eapply (carries_sub _ 0xa _ _ _ _ tid (fun v => mkLink v sid)); [lia|reflexivity|reflexivity|by apply
      TraceID_codec].
  - unfold Link_SizeProto. cbn -[lengthPrefixed size_if]. lia.
Qed.

Lemma Link_list_codec l : forallb Link_ok l = true ->
  Forall (fun x => codec (Link_MarshalProto x) (Link_SizeProto x) (fun s => Link_UnmarshalProto s zeroLink) x) l.
Proof. apply Forall_ok, Forall_true, Link_codec. Qed.

Lemma zeroLink_ok : is_ok Link_ok zeroLink.
Proof. done. Qed.

Lemma Link_UnmarshalProto_ok s x : bytes_ok s -> len s < 2 ^ 63 -> is_ok Link_ok x ->
  outcome_ok (is_ok Link_ok) (Link_UnmarshalProto s x).
Proof.
  intros Hs Hl Hx. apply unmarshal_ok; [|done|done|done]. clear x Hx.
  intros [tid sid] f wt buf pos Hv Hb1 Hb2 Hn Hp.
  unfold Link_cases. each_case f; ranges Hv Link_ok; case_value Link_ok.
Qed.

#[export] Hint Resolve zeroLink_ok Link_UnmarshalProto_ok : codec.

(** ** KeyValueAndUnit *)

Lemma KeyValueAndUnit_codec x : KeyValueAndUnit_ok x = true ->
  codec (KeyValueAndUnit_MarshalProto x) (KeyValueAndUnit_SizeProto x) (fun s => KeyValueAndUnit_UnmarshalProto s
    zeroKeyValueAndUnit) x.
Proof.
  destruct x as [key val unt]. intros Hok. unfold KeyValueAndUnit_ok in Hok. cbn in Hok.
  rewrite ?andb_true_iff in Hok. destruct_and?. eapply carries_codec.
  - fields 2%nat.
    + apply (carries_opt_varint _ 0x18 unt i32 (fun v => mkKeyValueAndUnit 0 AnyValue_nil v)); [lia|reflexivity|by
      apply i32_u64].
    + eapply (carries_sub _ 0x12 _ _ _ _ val (fun v => mkKeyValueAndUnit 0 v unt)); [lia|reflexivity|reflexivity|by
      apply AnyValue_codec].
    + apply (carries_opt_varint _ 0x8 key i32 (fun v => mkKeyValueAndUnit v val unt)); [lia|reflexivity|by apply
      i32_u64].
  - unfold KeyValueAndUnit_SizeProto. cbn -[lengthPrefixed size_if]. lia.
Qed.

Lemma KeyValueAndUnit_list_codec l : forallb KeyValueAndUnit_ok l = true ->
  Forall (fun x => codec (KeyValueAndUnit_MarshalProto x) (KeyValueAndUnit_SizeProto x) (fun s =>
    KeyValueAndUnit_UnmarshalProto s zeroKeyValueAndUnit) x) l.
Proof. apply Forall_ok, Forall_true, KeyValueAndUnit_codec. Qed.

Lemma zeroKeyValueAndUnit_ok : is_ok KeyValueAndUnit_ok zeroKeyValueAndUnit.
Proof. done. Qed.

Lemma KeyValueAndUnit_UnmarshalProto_ok s x : bytes_ok s -> len s < 2 ^ 63 -> is_ok KeyValueAndUnit_ok x ->
  outcome_ok (is_ok KeyValueAndUnit_ok) (KeyValueAndUnit_UnmarshalProto s x).
Proof.
  intros Hs Hl Hx. apply unmarshal_ok; [|done|done|done]. clear x Hx.
  intros [key val unt] f wt buf pos Hv Hb1 Hb2 Hn Hp.
  unfold KeyValueAndUnit_cases. each_case f; ranges Hv KeyValueAndUnit_ok; case_value KeyValueAndUnit_ok.
Qed.

#[export] Hint Resolve zeroKeyValueAndUnit_ok KeyValueAndUnit_UnmarshalProto_ok : codec.

(** ** Stack *)

Lemma Stack_codec x : Stack_ok x = true ->
  codec (Stack_MarshalProto x) (Stack_SizeProto x) (fun s => Stack_UnmarshalProto s zeroStack) x.
Proof.
  destruct x as [locations]. intros Hok. unfold Stack_ok in Hok. cbn in Hok.
  rewrite ?andb_true_iff in Hok. destruct_and?. eapply carries_codec.
  - eapply (carries_svarints _ 0xa i32 is_i32 locations (fun v => mkStack v)); [lia|reflexivity|reflexivity|apply
    i32_u64|done].
  - done.
Qed.

Lemma Stack_list_codec l : forallb Stack_ok l = true ->
  Forall (fun x => codec (Stack_MarshalProto x) (Stack_SizeProto x) (fun s => Stack_UnmarshalProto s zeroStack) x)
    l.
Proof. apply Forall_ok, Forall_true, Stack_codec. Qed.

Lemma zeroStack_ok : is_ok Stack_ok zeroStack.
Proof. done. Qed.

Lemma Stack_UnmarshalProto_ok s x : bytes_ok s -> len s < 2 ^ 63 -> is_ok Stack_ok x ->
  outcome_ok (is_ok Stack_ok) (Stack_UnmarshalProto s x).
Proof.
  intros Hs Hl Hx. apply unmarshal_ok; [|done|done|done]. clear x Hx.
  intros [locations] f wt buf pos Hv Hb1 Hb2 Hn Hp.
  unfold Stack_cases. each_case f; ranges Hv Stack_ok; case_value Stack_ok.
Qed.

#[export] Hint Resolve zeroStack_ok Stack_UnmarshalProto_ok : codec.

(** ** ProfilesDictionary *)

Lemma ProfilesDictionary_codec x : ProfilesDictionary_ok x = true ->
  codec (ProfilesDictionary_MarshalProto x) (ProfilesDictionary_SizeProto x) (fun s =>
    ProfilesDictionary_UnmarshalProto s zeroProfilesDictionary) x.
Proof.
  destruct x as [mappings locations functions links strings attributes stacks]. intros Hok. unfold
    ProfilesDictionary_ok in Hok. cbn in Hok.
  rewrite ?andb_true_iff in Hok. destruct_and?. eapply carries_codec.
  - fields 6%nat.
    + eapply (carries_messages _ 0x3a Stack_MarshalProto Stack_SizeProto _ (fun v => mkProfilesDictionary [] [] []
      [] [] [] v));
        [lia|reflexivity|reflexivity|by apply Stack_list_codec].
    + eapply (carries_messages _ 0x32 KeyValueAndUnit_MarshalProto KeyValueAndUnit_SizeProto _ (fun v =>
      mkProfilesDictionary [] [] [] [] [] v stacks));
        [lia|reflexivity|reflexivity|by apply KeyValueAndUnit_list_codec].
    + eapply (carries_strings _ 0x2a (fun v => mkProfilesDictionary [] [] [] [] v attributes stacks) _ strings);
      [lia|reflexivity|reflexivity].
    + eapply (carries_messages _ 0x22 Link_MarshalProto Link_SizeProto _ (fun v => mkProfilesDictionary [] [] [] v
      strings attributes stacks));
        [lia|reflexivity|reflexivity|by apply Link_list_codec].
    + eapply (carries_messages _ 0x1a Function_MarshalProto Function_SizeProto _ (fun v => mkProfilesDictionary []
      [] v links strings attributes stacks));
        [lia|reflexivity|reflexivity|by apply Function_list_codec].
    + eapply (carries_messages _ 0x12 Location_MarshalProto Location_SizeProto _ (fun v => mkProfilesDictionary []
      v functions links strings attributes stacks));
        [lia|reflexivity|reflexivity|by apply Location_list_codec].
    + eapply (carries_messages _ 0xa Mapping_MarshalProto Mapping_SizeProto _ (fun v => mkProfilesDictionary v
      locations functions links strings attributes stacks));
        [lia|reflexivity|reflexivity|by apply Mapping_list_codec].
  - unfold ProfilesDictionary_SizeProto. cbn -[lengthPrefixed size_if]. lia.
Qed.

Lemma ProfilesDictionary_list_codec l : forallb ProfilesDictionary_ok l = true ->
  Forall (fun x => codec (ProfilesDictionary_MarshalProto x) (ProfilesDictionary_SizeProto x) (fun s =>
    ProfilesDictionary_UnmarshalProto s zeroProfilesDictionary) x) l.
Proof. apply Forall_ok, Forall_true, ProfilesDictionary_codec. Qed.

Lemma zeroProfilesDictionary_ok : is_ok ProfilesDictionary_ok zeroProfilesDictionary.
Proof. done. Qed.

Lemma ProfilesDictionary_UnmarshalProto_ok s x : bytes_ok s -> len s < 2 ^ 63 -> is_ok ProfilesDictionary_ok x ->
  outcome_ok (is_ok ProfilesDictionary_ok) (ProfilesDictionary_UnmarshalProto s x).
Proof.
  intros Hs Hl Hx. apply unmarshal_ok; [|done|done|done]. clear x Hx.
  intros [mappings locations functions links strings attributes stacks] f wt buf pos Hv Hb1 Hb2 Hn Hp.
  unfold ProfilesDictionary_cases. each_case f; ranges Hv ProfilesDictionary_ok; case_value ProfilesDictionary_ok.
Qed.

#[export] Hint Resolve zeroProfilesDictionary_ok ProfilesDictionary_UnmarshalProto_ok : codec.

(** ** ProfilesData *)

Lemma ProfilesData_codec x : ProfilesData_ok x = true ->
  codec (ProfilesData_MarshalProto x) (ProfilesData_SizeProto x) (fun s => ProfilesData_UnmarshalProto s
    zeroProfilesData) x.
Proof.
  destruct x as [rps dict]. intros Hok. unfold ProfilesData_ok in Hok. cbn in Hok.
  rewrite ?andb_true_iff in Hok. destruct_and?. eapply carries_codec.
  - fields 1%nat.
    + eapply (carries_sub _ 0x12 _ _ _ _ dict (fun v => mkProfilesData [] v)); [lia|reflexivity|reflexivity|by
      apply ProfilesDictionary_codec].
    + eapply (carries_messages _ 0xa ResourceProfiles_MarshalProto ResourceProfiles_SizeProto _ (fun v =>
      mkProfilesData v dict));
        [lia|reflexivity|reflexivity|by apply ResourceProfiles_list_codec].
  - unfold ProfilesData_SizeProto. cbn -[lengthPrefixed size_if]. lia.
Qed.

Lemma ProfilesData_list_codec l : forallb ProfilesData_ok l = true ->
  Forall (fun x => codec (ProfilesData_MarshalProto x) (ProfilesData_SizeProto x) (fun s =>
    ProfilesData_UnmarshalProto s zeroProfilesData) x) l.
Proof. apply Forall_ok, Forall_true, ProfilesData_codec. Qed.

Lemma zeroProfilesData_ok : is_ok ProfilesData_ok zeroProfilesData.
Proof. done. Qed.

Lemma ProfilesData_UnmarshalProto_ok s x : bytes_ok s -> len s < 2 ^ 63 -> is_ok ProfilesData_ok x ->
  outcome_ok (is_ok ProfilesData_ok) (ProfilesData_UnmarshalProto s x).
Proof.
  intros Hs Hl Hx. apply unmarshal_ok; [|done|done|done]. clear x Hx.
  intros [rps dict] f wt buf pos Hv Hb1 Hb2 Hn Hp.
  unfold ProfilesData_cases. each_case f; ranges Hv ProfilesData_ok; case_value ProfilesData_ok.
Qed.

#[export] Hint Resolve zeroProfilesData_ok ProfilesData_UnmarshalProto_ok : codec.

(** ** ExportProfilesServiceRequest *)

Lemma ExportProfilesServiceRequest_codec x : ExportProfilesServiceRequest_ok x = true ->
  codec (ExportProfilesServiceRequest_MarshalProto x) (ExportProfilesServiceRequest_SizeProto x) (fun s =>
    ExportProfilesServiceRequest_UnmarshalProto s zeroExportProfilesServiceRequest) x.
Proof.
  destruct x as [rps dict]. intros Hok. unfold ExportProfilesServiceRequest_ok in Hok. cbn in Hok.
  rewrite ?andb_true_iff in Hok. destruct_and?. eapply carries_codec.
  - fields 1%nat.
    + eapply (carries_sub _ 0x12 _ _ _ _ dict (fun v => mkExportProfilesServiceRequest [] v));
      [lia|reflexivity|reflexivity|by apply ProfilesDictionary_codec].
    + eapply (carries_messages _ 0xa ResourceProfiles_MarshalProto ResourceProfiles_SizeProto _ (fun v =>
      mkExportProfilesServiceRequest v dict));
        [lia|reflexivity|reflexivity|by apply ResourceProfiles_list_codec].
  - unfold ExportProfilesServiceRequest_SizeProto. cbn -[lengthPrefixed size_if]. lia.
Qed.

Lemma ExportProfilesServiceRequest_list_codec l : forallb ExportProfilesServiceRequest_ok l = true ->
  Forall (fun x => codec (ExportProfilesServiceRequest_MarshalProto x) (ExportProfilesServiceRequest_SizeProto x)
    (fun s => ExportProfilesServiceRequest_UnmarshalProto s zeroExportProfilesServiceRequest) x) l.
Proof. apply Forall_ok, Forall_true, ExportProfilesServiceRequest_codec. Qed.

Lemma zeroExportProfilesServiceRequest_ok : is_ok ExportProfilesServiceRequest_ok zeroExportProfilesServiceRequest.
Proof. done. Qed.

Lemma ExportProfilesServiceRequest_UnmarshalProto_ok s x : bytes_ok s -> len s < 2 ^ 63 -> is_ok
  ExportProfilesServiceRequest_ok x ->
  outcome_ok (is_ok ExportProfilesServiceRequest_ok) (ExportProfilesServiceRequest_UnmarshalProto s x).
Proof.
  intros Hs Hl Hx. apply unmarshal_ok; [|done|done|done]. clear x Hx.
  intros [rps dict] f wt buf pos Hv Hb1 Hb2 Hn Hp.
  unfold ExportProfilesServiceRequest_cases. each_case f; ranges Hv ExportProfilesServiceRequest_ok; case_value
    ExportProfilesServiceRequest_ok.
Qed.

#[export] Hint Resolve zeroExportProfilesServiceRequest_ok ExportProfilesServiceRequest_UnmarshalProto_ok : codec.

(** ** The strings of attributes

    The index that getStringIndex keeps names, for every string of the table, a place where
    it is; the table only grows, and by strings it did not hold. *)

Definition indexes (table : list bytes) (index : gmap bytes Z) : Prop :=
  (forall s i, index !! s = Some i -> exists n, i = i32 (Z.of_nat n) /\ table !! n = Some s) /\
  (forall s, s ∈ table -> is_Some (index !! s)).

Definition interner_ok (st : interner) : Prop :=
  forall index, stringIndex st = Some index -> indexes (stringTable st) index.

Record grows (st st' : interner) : Prop := {
  grows_ok : interner_ok st';
  grows_prefix : stringTable st `prefix_of` stringTable st';
  grows_nodup : NoDup (stringTable st) -> NoDup (stringTable st');
}.

Lemma grows_refl st : interner_ok st -> grows st st.
Proof. by split. Qed.

Lemma grows_trans st1 st2 st3 : grows st1 st2 -> grows st2 st3 -> grows st1 st3.
Proof. intros [O1 P1 N1] [O2 P2 N2]. split; [done|by etrans|auto]. Qed.

Lemma indexStrings_indexes table done index :
  indexes done index -> indexes (done ++ table) (indexStrings (length done) table index).
Proof.
  revert done index. induction table as [|s table IH]; intros dn index [H1 H2]; simpl; [by rewrite app_nil_r|].
  replace (dn ++ s :: table) with ((dn ++ [s]) ++ table) by (by rewrite <- app_assoc).
  replace (S (length dn)) with (length (dn ++ [s])) by (rewrite length_app; simpl; lia). apply IH. split.
  - intros s' i E. destruct (decide (s = s')) as [<-|Ns].
    + rewrite lookup_insert_eq in E. injection E as <-. exists (length dn). split; [done|]. by apply list_lookup_middle.
    + rewrite lookup_insert_ne in E by done. apply H1 in E as (n & -> & E). exists n. split; [done|].
      by apply lookup_app_l_Some.
  - intros s' [E|E%list_elem_of_singleton]%elem_of_app.
    + destruct (decide (s = s')) as [<-|Ns]; [by rewrite lookup_insert_eq|]. rewrite lookup_insert_ne by done. auto.
    + subst s'. by rewrite lookup_insert_eq.
Qed.

(** What getStringIndex answers: a place of the string, in a table that may have grown. *)
Lemma getStringIndex_grows s st : interner_ok st ->
  let '(idx, st') := getStringIndex s st in
  grows st st' /\ exists n, idx = i32 (Z.of_nat n) /\ stringTable st' !! n = Some s.
Proof.
  intros Hok. unfold getStringIndex. destruct st as [table oi]. simpl.
  set (index := match oi with Some index => index | None => _ end).
  assert (indexes table index) as [H1 H2].
  { subst index. destruct oi as [index|]; [by apply Hok|]. apply (indexStrings_indexes table [] ∅).
    split; [intros ? ? E; by rewrite lookup_empty in E|intros ? E; by apply elem_of_nil in E]. }
  destruct (index !! s) as [idx|] eqn:E.
  - split; [|by apply H1]. split; [|done|done]. intros ? [= <-]. by split.
  - assert (s ∉ table) as Hs by (intros [? D]%H2; congruence). split.
    + split; simpl.
      * intros ? [= <-]. simpl. split.
        -- intros s' i. destruct (decide (s = s')) as [<-|Ns].
           ++ rewrite lookup_insert_eq. intros [= <-]. exists (length table). split; [done|]. by apply list_lookup_middle.
           ++ rewrite lookup_insert_ne by done. intros (n & -> & ?)%H1. exists n. split; [done|]. by apply lookup_app_l_Some.
        -- intros s' Hs'. destruct (decide (s = s')) as [<-|Ns]; [by rewrite lookup_insert_eq|].
           rewrite lookup_insert_ne by done. apply elem_of_app in Hs' as [?|D%list_elem_of_singleton]; [auto|congruence].
      * by apply prefix_app_r.
      * intros N. apply NoDup_app. split; [done|]. split; [|apply NoDup_singleton].
        intros x Hx D%list_elem_of_singleton. congruence.
    + exists (length table). split; [done|]. by apply list_lookup_middle.
Qed.

(** A table that other data reads from: its first string is empty, as the protocol wants,
    and an int32 indexes it. *)
Definition readable (table : list bytes) : Prop := table !! 0%nat = Some [] /\ Z.of_nat (length table) <= 2 ^ 31.

Lemma stringAt_index table n s : readable table -> table !! n = Some s -> stringAt table (i32 (Z.of_nat n)) = Some s.
Proof.
  intros [_ L] E. assert (n < length table)%nat by (by eapply lookup_lt_Some).
  replace (i32 (Z.of_nat n)) with (Z.of_nat n) by (unfold i32; rewrite Z.mod_small; lia).
  unfold stringAt. rewrite decide_True by lia. by rewrite Nat2Z.id.
Qed.

Lemma nonzero_index table n s : readable table -> table !! n = Some s -> nonempty s = true ->
  nonzero (i32 (Z.of_nat n)) = true.
Proof.
  intros [E0 L] E Hs. assert (n < length table)%nat by (by eapply lookup_lt_Some).
  replace (i32 (Z.of_nat n)) with (Z.of_nat n) by (unfold i32; rewrite Z.mod_small; lia).
  destruct n as [|n]; [|apply negb_true_iff, Z.eqb_neq; lia]. rewrite E0 in E. injection E as <-. done.
Qed.

Lemma is_i32_i32 z : is_i32 (i32 z) = true.
Proof. unfold is_i32. rewrite in_range_iff. unfold i32. pose proof (Z.mod_pos_bound (z + 2 ^ 31) (2 ^ 32)). lia. Qed.

(** *** Converting one piece of data

    What a conversion does, for each piece of data: the table grows, the Go types still
    hold the result, strings are references afterwards, and resolving these from any table
    that extends the one left gives back what there was. *)
Section converts.
Context {X : Type}.
Context (convert : X -> interner -> X * interner) (ok spells refers : X -> bool) (resolve : list bytes -> X -> X) (forget : X -> X).

Definition converts (x : X) : Prop := forall st, interner_ok st ->
  let '(x', st') := convert x st in
  grows st st' /\ (ok x = true -> ok x' = true) /\ refers x' = true /\
  (spells x = true -> forall table, readable table -> stringTable st' `prefix_of` table -> forget (resolve table x') = forget x).

(** A second conversion finds nothing to convert. *)
Definition settled (x : X) : Prop := refers x = true -> forall st, convert x st = (x, st).
End converts.

Lemma traverse_converts {X} convert ok spells refers resolve (forget : X -> X) l :
  Forall (converts convert ok spells refers resolve forget) l ->
  converts (traverse convert) (forallb ok) (forallb spells) (forallb refers) (fun table => map (resolve table)) (map forget) l.
Proof.
  induction 1 as [|x l Hx Hl IH]; intros st Hst; simpl; [split; [by apply grows_refl|done]|].
  specialize (Hx st Hst). destruct (convert x st) as [x' st1]. destruct Hx as (G1 & O1 & R1 & E1).
  specialize (IH st1 (grows_ok _ _ G1)). destruct (traverse convert l st1) as [l' st2]. destruct IH as (G2 & O2 & R2 & E2).
  split; [by eapply grows_trans|]. simpl. rewrite !andb_true_iff. split; [tauto|]. split; [done|].
  intros [S1 S2] table Ht Hp. rewrite E1, E2; try done. etrans; [apply (grows_prefix _ _ G2)|done].
Qed.

Lemma traverse_settled {X} (convert : X -> interner -> X * interner) refers l :
  Forall (settled convert refers) l -> settled (traverse convert) (forallb refers) l.
Proof.
  induction 1 as [|x l Hx Hl IH]; intros R st; [done|]. simpl in R. apply andb_true_iff in R as [R1 R2].
  simpl. by rewrite (Hx R1), (IH R2).
Qed.

Definition AnyValue_converts : AnyValue -> Prop :=
  converts convertAnyValueToReference AnyValue_ok AnyValue_spells AnyValue_refers resolveAnyValueReference AnyValue_forget.
Definition KeyValue_converts : KeyValue -> Prop :=
  converts convertKeyValueToReference KeyValue_ok KeyValue_spells KeyValue_refers resolveKeyValueReference KeyValue_forget.
Definition KeyValues_convert : list KeyValue -> Prop :=
  converts convertKeyValueToReferences (forallb KeyValue_ok) (forallb KeyValue_spells) (forallb KeyValue_refers)
    resolveKeyValueReferences (map KeyValue_forget).

Lemma AnyValue_leaf_converts v :
  match v with
  | AnyValue_ArrayValue (Some (mkArrayValue vs)) => Forall AnyValue_converts vs -> AnyValue_converts v
  | AnyValue_KvlistValue (Some (mkKeyValueList kvs)) => Forall KeyValue_converts kvs -> AnyValue_converts v
  | _ => AnyValue_converts v
  end.
Proof.
  destruct v as [|s| | | |[[vs]|]|[[kvs]|]| |z];
    try (intros st Hst; simpl; split; [by apply grows_refl|by repeat split]).
  - intros st Hst. simpl. destruct (nonempty s) eqn:Hs.
    + pose proof (getStringIndex_grows s st Hst) as G. destruct (getStringIndex s st) as [idx st'].
      destruct G as (G & n & -> & E). split; [done|]. split; [intros _; apply is_i32_i32|]. split; [done|].
      intros _ table Ht Hp. assert (table !! n = Some s) as E' by (by eapply prefix_lookup_Some).
      simpl. by rewrite (nonzero_index table n s), (stringAt_index table n s).
    + split; [by apply grows_refl|]. simpl. rewrite Hs. by repeat split.
  - intros F st Hst. apply traverse_converts in F. specialize (F st Hst). simpl.
    destruct (traverse _ vs st) as [vs' st']. destruct F as (G & O & R & E).
    split; [done|]. split; [exact O|]. split; [exact R|]. intros S table Ht Hp. simpl. by rewrite E.
  - intros F st Hst. apply traverse_converts in F. specialize (F st Hst). simpl.
    destruct (traverse _ kvs st) as [kvs' st']. destruct F as (G & O & R & E).
    split; [done|]. split; [exact O|]. split; [exact R|]. intros S table Ht Hp. simpl. by rewrite E.
Qed.

Lemma KeyValue_step_converts v k i : AnyValue_converts v -> KeyValue_converts (mkKeyValue v k i).
Proof.
  intros Hv st Hst. simpl. destruct (nonempty k) eqn:Hk.
  - pose proof (getStringIndex_grows k st Hst) as G. destruct (getStringIndex k st) as [idx st1].
    destruct G as (G1 & n & -> & En). specialize (Hv st1 (grows_ok _ _ G1)).
    destruct (convertAnyValueToReference v st1) as [v' st2]. destruct Hv as (G2 & O & R & E).
    split; [by eapply grows_trans|]. simpl. rewrite !andb_true_iff. split; [intros []; split; [auto|apply is_i32_i32]|].
    split; [done|]. intros [S _] table Ht Hp. rewrite E by done. f_equal.
    rewrite (stringAt_index table n k); [done|done|].
    eapply prefix_lookup_Some; [|etrans; [apply (grows_prefix _ _ G2)|exact Hp]]. done.
  - specialize (Hv st Hst). destruct (convertAnyValueToReference v st) as [v' st2]. destruct Hv as (G2 & O & R & E).
    split; [done|]. simpl. rewrite Hk, !andb_true_iff. simpl. split; [intros []; auto|]. split; [done|].
    intros [S I] table Ht Hp. rewrite E by done. f_equal. apply Z.eqb_eq in I as ->.
    destruct k as [|? ?]; [|done]. destruct Ht as [T0 _]. unfold stringAt. simpl. destruct table; [done|]. simpl in T0. by injection T0 as ->.
Qed.

Lemma AnyValue_convert v : AnyValue_converts v.
Proof.
  apply (AnyValue_induct AnyValue_converts (fun a => let '(mkArrayValue vs) := a in Forall AnyValue_converts vs)
    KeyValue_converts (fun l => let '(mkKeyValueList kvs) := l in Forall KeyValue_converts kvs)); [|done| |done].
  - intros w. pose proof (AnyValue_leaf_converts w). by destruct w as [| | | | |[[]|]|[[]|]| |].
  - apply KeyValue_step_converts.
Qed.

Lemma KeyValue_convert kv : KeyValue_converts kv.
Proof. destruct kv. apply KeyValue_step_converts, AnyValue_convert. Qed.

Lemma KeyValues_converts kvs : KeyValues_convert kvs.
Proof. apply traverse_converts. apply Forall_true, KeyValue_convert. Qed.

(** *** Resources and scopes *)

Lemma ScopeProfiles_convert : forall sp,
  converts convertScopeProfiles ScopeProfiles_ok (fun sp => forallb KeyValue_spells (ScopeProfiles_attrs sp))
    (fun sp => forallb KeyValue_refers (ScopeProfiles_attrs sp)) resolveScopeProfiles ScopeProfiles_forget sp.
Proof.
  intros [[name version attrs dropped] ps url] st Hst. simpl. pose proof (KeyValues_converts attrs st Hst) as H.
  destruct (convertKeyValueToReferences attrs st) as [attrs' st']. destruct H as (G & O & R & E).
  unfold ScopeProfiles_ok, InstrumentationScope_ok. simpl. rewrite !andb_true_iff. split; [done|]. split; [tauto|].
  split; [done|]. intros S table Ht Hp. by rewrite (E S table Ht Hp).
Qed.

Lemma ResourceProfiles_convert : forall rp,
  converts convertResourceProfiles ResourceProfiles_ok (all_attributes KeyValue_spells) (all_attributes KeyValue_refers)
    resolveResourceProfiles ResourceProfiles_forget rp.
Proof.
  intros [[attrs refs dropped] sps url] st Hst. simpl. pose proof (KeyValues_converts attrs st Hst) as H.
  destruct (convertKeyValueToReferences attrs st) as [attrs' st1]. destruct H as (G1 & O1 & R1 & E1).
  pose proof (traverse_converts _ _ _ _ _ _ sps (Forall_true _ _ ScopeProfiles_convert) st1 (grows_ok _ _ G1)) as H.
  destruct (traverse convertScopeProfiles sps st1) as [sps' st2]. destruct H as (G2 & O2 & R2 & E2).
  split; [by eapply grows_trans|]. unfold ResourceProfiles_ok, Resource_ok, all_attributes, Resource_attrs. simpl.
  rewrite !andb_true_iff. split; [tauto|]. split; [done|]. intros [S1 S2] table Ht Hp.
  rewrite (E1 S1 table Ht), (E2 S2 table Ht Hp); [done|]. etrans; [apply (grows_prefix _ _ G2)|done].
Qed.

(** *** Converting twice *)

Lemma AnyValue_leaf_settles v :
  match v with
  | AnyValue_ArrayValue (Some (mkArrayValue vs)) =>
      Forall (settled convertAnyValueToReference AnyValue_refers) vs -> settled convertAnyValueToReference AnyValue_refers v
  | AnyValue_KvlistValue (Some (mkKeyValueList kvs)) =>
      Forall (settled convertKeyValueToReference KeyValue_refers) kvs -> settled convertAnyValueToReference AnyValue_refers v
  | _ => settled convertAnyValueToReference AnyValue_refers v
  end.
Proof.
  destruct v as [|s| | | |[[vs]|]|[[kvs]|]| |z]; try done.
  - intros R st. simpl in *. by apply negb_true_iff in R as ->.
  - intros F R st. simpl. by rewrite (traverse_settled _ _ _ F R).
  - intros F R st. simpl. by rewrite (traverse_settled _ _ _ F R).
Qed.

Lemma AnyValue_settles v : settled convertAnyValueToReference AnyValue_refers v.
Proof.
  apply (AnyValue_induct (settled convertAnyValueToReference AnyValue_refers)
    (fun a => let '(mkArrayValue vs) := a in Forall (settled convertAnyValueToReference AnyValue_refers) vs)
    (settled convertKeyValueToReference KeyValue_refers)
    (fun l => let '(mkKeyValueList kvs) := l in Forall (settled convertKeyValueToReference KeyValue_refers) kvs)); [|done| |done].
  - intros w. pose proof (AnyValue_leaf_settles w). by destruct w as [| | | | |[[]|]|[[]|]| |].
  - intros w k i Hw R st. simpl in *. apply andb_true_iff in R as [R ->%negb_true_iff]. by rewrite (Hw R st).
Qed.

Lemma KeyValue_settles kv : settled convertKeyValueToReference KeyValue_refers kv.
Proof. destruct kv as [v k i]. intros R st. simpl in *. apply andb_true_iff in R as [R ->%negb_true_iff]. by rewrite AnyValue_settles. Qed.

Lemma KeyValues_settle kvs : settled convertKeyValueToReferences (forallb KeyValue_refers) kvs.
Proof. apply traverse_settled, Forall_true, KeyValue_settles. Qed.

Lemma ResourceProfiles_settles rp : settled convertResourceProfiles (all_attributes KeyValue_refers) rp.
Proof.
  destruct rp as [[attrs refs dropped] sps url]. intros R st. unfold all_attributes, Resource_attrs in R.
  simpl in R. apply andb_true_iff in R as [R1 R2]. simpl. rewrite (KeyValues_settle attrs R1 st).
  rewrite (traverse_settled convertScopeProfiles (fun sp => forallb KeyValue_refers (ScopeProfiles_attrs sp))); [done| |done].
  apply Forall_true. intros [[name version ats dr] ps u] R st'. simpl in *. by rewrite (KeyValues_settle ats R st').
Qed.

(** ** Profiles *)

Definition Profiles_strings (pd : ExportProfilesServiceRequest) : list bytes :=
  ProfilesDictionary_StringTable (ExportProfilesServiceRequest_Dictionary pd).

Lemma convert_profiles rps dict :
  exists rps' st, traverse convertResourceProfiles rps (mkInterner (ProfilesDictionary_StringTable dict) None) = (rps', st) /\
  convertProfilesToReferences (mkExportProfilesServiceRequest rps dict) =
    mkExportProfilesServiceRequest rps' (set_StringTable (stringTable st) dict) /\
  grows (mkInterner (ProfilesDictionary_StringTable dict) None) st /\
  (forallb ResourceProfiles_ok rps = true -> forallb ResourceProfiles_ok rps' = true) /\
  forallb (all_attributes KeyValue_refers) rps' = true /\
  (forallb (all_attributes KeyValue_spells) rps = true -> readable (stringTable st) ->
    map ResourceProfiles_forget (map (resolveResourceProfiles (stringTable st)) rps') = map ResourceProfiles_forget rps).
Proof.
  assert (interner_ok (mkInterner (ProfilesDictionary_StringTable dict) None)) as Hst by done.
  pose proof (traverse_converts _ _ _ _ _ _ rps (Forall_true _ _ ResourceProfiles_convert) _ Hst) as H. simpl.
  destruct (traverse convertResourceProfiles rps _) as [rps' st] eqn:E. destruct H as (G & O & R & B).
  exists rps', st. split; [done|]. split; [done|]. split; [done|]. split; [done|]. split; [done|].
  intros S T. by apply (B S).
Qed.

Lemma strings_set table dict : ProfilesDictionary_StringTable (set_StringTable table dict) = table.
Proof. by destruct dict. Qed.
Lemma dictionary_set_ok table dict : ProfilesDictionary_ok (set_StringTable table dict) = ProfilesDictionary_ok dict.
Proof. by destruct dict. Qed.

Lemma convert_ok pd : ExportProfilesServiceRequest_ok pd = true ->
  ExportProfilesServiceRequest_ok (convertProfilesToReferences pd) = true.
Proof.
  destruct pd as [rps dict]. unfold ExportProfilesServiceRequest_ok. simpl. rewrite andb_true_iff. intros [H1 H2].
  destruct (convert_profiles rps dict) as (rps' & st & -> & _ & _ & O & _). simpl. by rewrite O, dictionary_set_ok.
Qed.

Lemma convert_twice pd : convertProfilesToReferences (convertProfilesToReferences pd) = convertProfilesToReferences pd.
Proof.
  destruct pd as [rps dict]. destruct (convert_profiles rps dict) as (rps' & st & _ & -> & _ & _ & R & _).
  simpl. rewrite (traverse_settled _ _ rps' (Forall_true _ _ ResourceProfiles_settles) R). by destruct dict.
Qed.

(** What MarshalProfiles writes is what UnmarshalProto reads. *)
Lemma MarshalProfiles_writes readOnly pd :
  ExportProfilesServiceRequest_ok pd = true -> ExportProfilesServiceRequest_SizeProto (convertProfilesToReferences pd) < 2 ^ 63 ->
  exists buf, ProtoMarshaler_MarshalProfiles readOnly pd = Some (buf, if readOnly then pd else convertProfilesToReferences pd) /\
    len buf = ExportProfilesServiceRequest_SizeProto (convertProfilesToReferences pd) /\
    ExportProfilesServiceRequest_UnmarshalProto buf zeroExportProfilesServiceRequest = Some (inl (convertProfilesToReferences pd)).
Proof.
  intros Hok Hs. apply convert_ok, ExportProfilesServiceRequest_codec in Hok as (buf & M & R).
  exists buf. unfold ProtoMarshaler_MarshalProfiles. cbv zeta. rewrite (marshals_buffer _ _ buf M Hs).
  destruct M as [L _]. split; [done|]. split; [done|]. apply R. lia.
Qed.


(** *** Reading any bytes *)

Lemma forallb_map_ok {A} (ok : A -> bool) (f : A -> A) l :
  Forall (fun x => ok x = true -> ok (f x) = true) l -> forallb ok l = true -> forallb ok (map f l) = true.
Proof. induction 1 as [|x l Hx Hl IH]; [done|]. simpl. rewrite !andb_true_iff. intros []. auto. Qed.

Lemma AnyValue_resolves_ok table v : AnyValue_ok v = true -> AnyValue_ok (resolveAnyValueReference table v) = true.
Proof.
  apply (AnyValue_induct (fun v => AnyValue_ok v = true -> AnyValue_ok (resolveAnyValueReference table v) = true)
    (fun a => let '(mkArrayValue vs) := a in Forall (fun v => AnyValue_ok v = true -> AnyValue_ok (resolveAnyValueReference table v) = true) vs)
    (fun kv => KeyValue_ok kv = true -> KeyValue_ok (resolveKeyValueReference table kv) = true)
    (fun l => let '(mkKeyValueList kvs) := l in
       Forall (fun kv => KeyValue_ok kv = true -> KeyValue_ok (resolveKeyValueReference table kv) = true) kvs)); [|done| |done].
  - intros [|s| | | |[[vs]|]|[[kvs]|]| |z]; try done; [intros F; apply (forallb_map_ok _ _ _ F)|intros F; apply (forallb_map_ok _ _ _ F)|].
    simpl. destruct (nonzero z); [|done]. by destruct (stringAt table z).
  - intros w k i Hw. simpl. rewrite !andb_true_iff. intros []. auto.
Qed.

Lemma KeyValues_resolve_ok table kvs :
  forallb KeyValue_ok kvs = true -> forallb KeyValue_ok (resolveKeyValueReferences table kvs) = true.
Proof.
  apply forallb_map_ok, Forall_true. intros [w k i]. simpl. rewrite !andb_true_iff. intros []. auto using AnyValue_resolves_ok.
Qed.

Lemma resolve_ok pd : ExportProfilesServiceRequest_ok pd = true ->
  ExportProfilesServiceRequest_ok (resolveProfilesReferences pd) = true.
Proof.
  destruct pd as [rps dict]. unfold ExportProfilesServiceRequest_ok. simpl. rewrite !andb_true_iff. intros [H ->]. split; [|done].
  revert H. apply forallb_map_ok, Forall_true. intros [[attrs refs dropped] sps url]. unfold ResourceProfiles_ok, Resource_ok. simpl.
  rewrite !andb_true_iff. intros [[H1 H2] H4]. split_and!; [by apply KeyValues_resolve_ok|done|].
  revert H4. apply forallb_map_ok, Forall_true. intros [[name version ats dr] ps u].
  unfold ScopeProfiles_ok, InstrumentationScope_ok. simpl. rewrite !andb_true_iff. intros [[H5 H6] H7].
  split_and!; [by apply KeyValues_resolve_ok|done|done].
Qed.

(** Reading profiles from any bytes whatever: UnmarshalProfiles returns profiles or an
    error, it never indexes out of range, and the profiles hold only values of their Go
    types. *)
Lemma UnmarshalProfiles_ok buf : bytes_ok buf -> len buf < 2 ^ 63 ->
  outcome_ok (fun pd => ExportProfilesServiceRequest_ok pd = true) (ProtoUnmarshaler_UnmarshalProfiles buf).
Proof.
  intros Hb Hl. unfold ProtoUnmarshaler_UnmarshalProfiles.
  destruct (ExportProfilesServiceRequest_UnmarshalProto_ok buf zeroExportProfilesServiceRequest Hb Hl) as (r & -> & Hr); [done|].
  destruct r as [pd|err]; eexists; (split; [done|]); [|done]. intros ? [= <-]. by apply resolve_ok, Hr.
Qed.

(** *** Where references go wrong

    A key that was sent spelled out, with the zero index that an absent field has, is
    replaced by the first string of the table, which is the empty one. *)
Lemma spelled_keys_are_lost v k s table : resolveKeyValueReference (s :: table) (mkKeyValue v k 0) =
  mkKeyValue (resolveAnyValueReference (s :: table) v) s 0.
Proof. done. Qed.

Definition with_attributes (attrs : list KeyValue) (table : list bytes) : ExportProfilesServiceRequest :=
  mkExportProfilesServiceRequest [mkResourceProfiles (mkResource attrs [] 0) [] []] (mkProfilesDictionary [] [] [] [] table [] []).

(** NewProfiles has an empty table: the first string interned gets index 0, which reads as
    no reference, so that a value equal to the first key is not read back. *)
Lemma first_string_is_lost :
  ('(buf, _) ← ProtoMarshaler_MarshalProfiles true (with_attributes [mkKeyValue (AnyValue_StringValue [97]) [97] 0] []);
    ProtoUnmarshaler_UnmarshalProfiles buf) =
  Some (inl (with_attributes [mkKeyValue (AnyValue_StringValueStrindex 0) [97] 0] [[97]])).
Proof. vm_compute. reflexivity. Qed.

(** ProfilesSize is the size of data with its strings spelled out, and is not what
    MarshalProfiles writes. *)
Lemma ProfilesSize_differs :
  let pd := with_attributes (replicate 5 (mkKeyValue (AnyValue_StringValue (replicate 20 97)) [98] 0)) [[]] in
  (fun p => len p.1) <$> ProtoMarshaler_MarshalProfiles true pd = Some 73 /\ ProtoMarshaler_ProfilesSize pd = 155.
Proof. split; vm_compute; reflexivity. Qed.

(** Data that MarshalProfiles changed has no keys left for the API to find. *)
Lemma marshalled_keys_are_gone :
  snd <$> ProtoMarshaler_MarshalProfiles false (with_attributes [mkKeyValue (AnyValue_BoolValue true) [97] 0] [[]]) =
  Some (with_attributes [mkKeyValue (AnyValue_BoolValue true) [] 1] [[]; [97]]).
Proof. vm_compute. reflexivity. Qed.

(** *** Witness *)

Definition some_profiles : ExportProfilesServiceRequest :=
  with_attributes [mkKeyValue (AnyValue_StringValue [97; 98]) [97] 0;
    mkKeyValue (AnyValue_ArrayValue (Some (mkArrayValue [AnyValue_StringValue [97]; AnyValue_IntValue 5]))) [98] 0] [[]; [98]].

