(* ===== verification/ProfilesMerge.v ===== *)
(** * ProfilesMerge: profiles of two dictionaries become one

    pdata/pprofile: profiles_merge.go and the switchDictionary of profiles.go,
    resourceprofiles.go, scopeprofiles.go, profile.go, sample.go, valuetype.go,
    keyvalueandunit.go, function.go, mapping.go, location.go, line.go and stack.go, with the
    Set functions that look entries up in the tables of a dictionary or append them.

    Profiles hold the indices of their strings, attributes, locations ... in a dictionary.
    MergeTo changes the indices of one to those of the dictionary of another, where the
    entries are found or appended, and moves the profiles there.  The entries of the source
    dictionary are changed first, in place, in an order in which no entry is changed before
    those it refers to: the code that changes a table does not read it. *)

From S2P Require Import Prelude.
From S2P Require Import GoErrors.
From S2P Require Import PData.
From S2P Require Import Storage.
From S2P Require Import PCommon.
From S2P Require Import ProtoWire.
From S2P Require Import ProtoMessage.
From S2P Require Import CommonProto.
From S2P Require Import CommonProtoProofs.
From S2P Require Import ProfilesProto.

(** ** Equal

    pcommon.Value on the values of messages: [None] is the nil dereference of a list or map
    that is missing. *)

Definition AnyValue_Type (v : AnyValue) : PCommon.ValueType :=
  match v with
  | AnyValue_StringValue _ => ValueTypeStr
  | AnyValue_BoolValue _ => ValueTypeBool
  | AnyValue_IntValue _ => ValueTypeInt
  | AnyValue_DoubleValue _ => ValueTypeDouble
  | AnyValue_KvlistValue _ => ValueTypeMap
  | AnyValue_ArrayValue _ => ValueTypeSlice
  | AnyValue_BytesValue _ => ValueTypeBytes
  | AnyValue_nil | AnyValue_StringValueStrindex _ => ValueTypeEmpty
  end.

Fixpoint KeyValues_Get (key : bytes) (m : list KeyValue) : option AnyValue :=
  match m with
  | [] => None
  | mkKeyValue v k _ :: m => if bool_decide (k = key) then Some v else KeyValues_Get key m
  end.

Fixpoint AnyValue_Equal (v c : AnyValue) : option bool :=
  match v, c with
  | (AnyValue_nil | AnyValue_StringValueStrindex _), (AnyValue_nil | AnyValue_StringValueStrindex _) => Some true
  | AnyValue_StringValue s, AnyValue_StringValue t => Some (bool_decide (s = t))
  | AnyValue_BoolValue a, AnyValue_BoolValue b => Some (Bool.eqb a b)
  | AnyValue_IntValue a, AnyValue_IntValue b => Some (a =? b)
  | AnyValue_DoubleValue a, AnyValue_DoubleValue b => Some (float64_eqb a b)
  | AnyValue_BytesValue s, AnyValue_BytesValue t => Some (bool_decide (s = t))
  | AnyValue_KvlistValue (Some (mkKeyValueList m)), AnyValue_KvlistValue (Some (mkKeyValueList val)) =>
      if decide (length m <> length val) then Some false
      else
        (fix go m := match m with
          | [] => Some true
          | mkKeyValue v k _ :: m =>
              match KeyValues_Get k val with
              | None => Some false
              | Some vv => e ← AnyValue_Equal v vv; if (e : bool) then go m else Some false
              end
          end) m
  | AnyValue_ArrayValue (Some (mkArrayValue es)), AnyValue_ArrayValue (Some (mkArrayValue val)) =>
      if decide (length es <> length val) then Some false
      else
        (fix go es val := match es, val with
          | v :: es, c :: val => e ← AnyValue_Equal v c; if (e : bool) then go es val else Some false
          | _, _ => Some true
          end) es val
  | AnyValue_KvlistValue _, AnyValue_KvlistValue _ | AnyValue_ArrayValue _, AnyValue_ArrayValue _ => None
  | _, _ => Some false
  end.

Definition KeyValueAndUnit_Equal (ms val : KeyValueAndUnit) : option bool :=
  if (KeyValueAndUnit_KeyStrindex ms =? KeyValueAndUnit_KeyStrindex val) &&
     (KeyValueAndUnit_UnitStrindex ms =? KeyValueAndUnit_UnitStrindex val)
  then AnyValue_Equal (KeyValueAndUnit_Value ms) (KeyValueAndUnit_Value val) else Some false.

Definition Function_Equal (fn val : Function) : bool :=
  (Function_NameStrindex fn =? Function_NameStrindex val) &&
  (Function_SystemNameStrindex fn =? Function_SystemNameStrindex val) &&
  (Function_FilenameStrindex fn =? Function_FilenameStrindex val) &&
  (Function_StartLine fn =? Function_StartLine val).

Definition Link_Equal (ms val : Link) : bool :=
  bool_decide (Link_TraceId ms = Link_TraceId val) && bool_decide (Link_SpanId ms = Link_SpanId val).

Definition Mapping_Equal (ms val : Mapping) : bool :=
  (Mapping_MemoryStart ms =? Mapping_MemoryStart val) &&
  (Mapping_MemoryLimit ms =? Mapping_MemoryLimit val) &&
  (Mapping_FileOffset ms =? Mapping_FileOffset val) &&
  (Mapping_FilenameStrindex ms =? Mapping_FilenameStrindex val) &&
  bool_decide (Mapping_AttributeIndices ms = Mapping_AttributeIndices val).

Definition Line_Equal (l val : Line) : bool :=
  (Line_Column l =? Line_Column val) &&
  (Line_FunctionIndex l =? Line_FunctionIndex val) &&
  (Line_Line l =? Line_Line val).

(** if l.Len() != val.Len() { return false }, then the elements one by one *)
Fixpoint elements_Equal {A} (eq : A -> A -> bool) (l val : list A) : bool :=
  match l, val with
  | [], [] => true
  | a :: l, b :: val => eq a b && elements_Equal eq l val
  | _, _ => false
  end.

Definition LineSlice_Equal : list Line -> list Line -> bool := elements_Equal Line_Equal.

Definition Location_Equal (ms val : Location) : bool :=
  (Location_MappingIndex ms =? Location_MappingIndex val) &&
  (Location_Address ms =? Location_Address val) &&
  bool_decide (Location_AttributeIndices ms = Location_AttributeIndices val) &&
  LineSlice_Equal (Location_Lines ms) (Location_Lines val).

Definition Stack_Equal (ms val : Stack) : bool :=
  elements_Equal Z.eqb (Stack_LocationIndices ms) (Stack_LocationIndices val).

(** ** Tables

    The first equal entry of a table has the index; an entry that is not there is appended,
    while an int32 can index it. *)

Definition MaxInt32 : Z := 2 ^ 31 - 1.

Fixpoint findEntry {A} (eq : A -> option bool) (j : nat) (table : list A) : option (option nat) :=
  match table with
  | [] => Some None
  | a :: table => e ← eq a; if (e : bool) then Some (Some j) else findEntry eq (S j) table
  end.

Definition setEntry {A} (eq : A -> A -> option bool) (tooMany full : error) (table : list A) (x : A) :
    option ((Z + error) * list A) :=
  found ← findEntry (fun a => eq a x) 0 table;
  match found with
  | Some j => if MaxInt32 <? Z.of_nat j then Some (inr tooMany, table) else Some (inl (i32 (Z.of_nat j)), table)
  | None =>
      if MaxInt32 <=? Z.of_nat (length table) then Some (inr full, table)
      else Some (inl (i32 (Z.of_nat (length (table ++ [x])) - 1)), table ++ [x])
  end.

Definition errTooManyStringTableEntries : error := ErrNew "too many entries in StringTable".
Definition errTooManyMappingTableEntries : error := ErrNew "too many entries in MappingTable".
Definition errTooManyAttributeTableEntries : error := ErrNew "too many entries in AttributeTable".
Definition errTooManyFunctionTableEntries : error := ErrNew "too many entries in FunctionTable".
Definition errTooManyLinkTableEntries : error := ErrNew "too many entries in LinkTable".
Definition errTooManyLocationTableEntries : error := ErrNew "too many entries in LocationTable".
Definition errTooManyStackTableEntries : error := ErrNew "too many entries in StackTable".

Definition SetString : list bytes -> bytes -> option ((Z + error) * list bytes) :=
  setEntry (fun v val => Some (bool_decide (v = val))) errTooManyStringTableEntries errTooManyMappingTableEntries.
Definition SetAttribute : list KeyValueAndUnit -> KeyValueAndUnit -> option ((Z + error) * list KeyValueAndUnit) :=
  setEntry KeyValueAndUnit_Equal errTooManyAttributeTableEntries errTooManyAttributeTableEntries.
Definition SetFunction : list Function -> Function -> option ((Z + error) * list Function) :=
  setEntry (fun m fn => Some (Function_Equal m fn)) errTooManyFunctionTableEntries errTooManyFunctionTableEntries.
Definition SetMapping : list Mapping -> Mapping -> option ((Z + error) * list Mapping) :=
  setEntry (fun m ma => Some (Mapping_Equal m ma)) errTooManyMappingTableEntries errTooManyMappingTableEntries.
Definition SetLocation : list Location -> Location -> option ((Z + error) * list Location) :=
  setEntry (fun a loc => Some (Location_Equal a loc)) errTooManyLocationTableEntries errTooManyLocationTableEntries.
Definition SetLink : list Link -> Link -> option ((Z + error) * list Link) :=
  setEntry (fun l li => Some (Link_Equal l li)) errTooManyLinkTableEntries errTooManyLinkTableEntries.
Definition SetStack : list Stack -> Stack -> option ((Z + error) * list Stack) :=
  setEntry (fun l st => Some (Stack_Equal l st)) errTooManyStackTableEntries errTooManyStackTableEntries.

(** table.At(i): [None] is the panic of an index out of range. *)
Definition entryAt {A} (table : list A) (i : Z) : option A := if decide (0 <= i) then table !! Z.to_nat i else None.

(** ** switchDictionary

    A step changes a piece of data and the destination dictionary, and may fail half way:
    then both are left as they are. *)

Definition switch (X : Type) : Type := X -> ProfilesDictionary -> option (X * option error * ProfilesDictionary).

Definition andThen {X} (f g : switch X) : switch X := fun x dst =>
  '(x, err, dst) ← f x dst;
  match err with Some _ => Some (x, err, dst) | None => g x dst end.

(** A step of one field. *)
Definition within {X A} (get : X -> A) (set : A -> X -> X) (f : switch A) : switch X := fun x dst =>
  '(a, err, dst) ← f (get x) dst; Some (set a x, err, dst).

(** A step of each element, which the error names. *)
Definition each {A} (f : nat -> switch A) : switch (list A) :=
  (fix go i l dst :=
    match l with
    | [] => Some ([], None, dst)
    | a :: l =>
        '(a, err, dst) ← f i a dst;
        match err with
        | Some _ => Some (a :: l, err, dst)
        | None => '(l, err, dst) ← go (S i) l dst; Some (a :: l, err, dst)
        end
    end) 0%nat.

Definition wrapping {X} (msg : string) (f : switch X) : switch X := fun x dst =>
  '(x, err, dst) ← f x dst; Some (x, option_map (ErrWrap msg) err, dst).

Definition wrapping_each {X} (msg : string) (f : switch X) : switch (list X) :=
  each (fun i => wrapping (msg +:+ pretty i +:+ ": ") f).

(** An index into the source's table becomes one into the destination's. *)
Definition switchIndex {A} (invalid : string) (table : list A)
    (set : A -> ProfilesDictionary -> option ((Z + error) * ProfilesDictionary)) (msg : string) : switch Z := fun v dst =>
  if Z.of_nat (length table) <=? v then Some (v, Some (ErrNew (invalid +:+ pretty v)), dst)
  else
    entry ← entryAt table v;
    '(r, dst) ← set entry dst;
    match r with
    | inl idx => Some (idx, None, dst)
    | inr err => Some (v, Some (ErrWrap msg err), dst)
    end.

(** if ms.Index() > 0 { ... } *)
Definition whenPositive (f : switch Z) : switch Z := fun v dst => if 0 <? v then f v dst else Some (v, None, dst).

Definition set_MappingTable t (d : ProfilesDictionary) : ProfilesDictionary :=
  let '(mkProfilesDictionary _ ls fs links strings attrs stacks) := d in mkProfilesDictionary t ls fs links strings attrs stacks.
Definition set_LocationTable t (d : ProfilesDictionary) : ProfilesDictionary :=
  let '(mkProfilesDictionary ms _ fs links strings attrs stacks) := d in mkProfilesDictionary ms t fs links strings attrs stacks.
Definition set_FunctionTable t (d : ProfilesDictionary) : ProfilesDictionary :=
  let '(mkProfilesDictionary ms ls _ links strings attrs stacks) := d in mkProfilesDictionary ms ls t links strings attrs stacks.
Definition set_LinkTable t (d : ProfilesDictionary) : ProfilesDictionary :=
  let '(mkProfilesDictionary ms ls fs _ strings attrs stacks) := d in mkProfilesDictionary ms ls fs t strings attrs stacks.
Definition set_AttributeTable t (d : ProfilesDictionary) : ProfilesDictionary :=
  let '(mkProfilesDictionary ms ls fs links strings _ stacks) := d in mkProfilesDictionary ms ls fs links strings t stacks.
Definition set_StackTable t (d : ProfilesDictionary) : ProfilesDictionary :=
  let '(mkProfilesDictionary ms ls fs links strings attrs _) := d in mkProfilesDictionary ms ls fs links strings attrs t.

Definition setIn {A} (get : ProfilesDictionary -> list A) (set : list A -> ProfilesDictionary -> ProfilesDictionary)
    (put : list A -> A -> option ((Z + error) * list A)) (x : A) (dst : ProfilesDictionary) :
    option ((Z + error) * ProfilesDictionary) :=
  '(r, table) ← put (get dst) x; Some (r, set table dst).

Definition switchString (src : ProfilesDictionary) (what : string) : switch Z :=
  whenPositive (switchIndex ("invalid " +:+ what +:+ " index ") (ProfilesDictionary_StringTable src)
    (setIn ProfilesDictionary_StringTable set_StringTable SetString) ("couldn't set " +:+ what +:+ ": ")).
Definition switchFunction (src : ProfilesDictionary) : switch Z :=
  whenPositive (switchIndex "invalid function index " (ProfilesDictionary_FunctionTable src)
    (setIn ProfilesDictionary_FunctionTable set_FunctionTable SetFunction) "couldn't set function: ").
Definition switchMapping (src : ProfilesDictionary) : switch Z :=
  whenPositive (switchIndex "invalid mapping index " (ProfilesDictionary_MappingTable src)
    (setIn ProfilesDictionary_MappingTable set_MappingTable SetMapping) "couldn't set mapping: ").
Definition switchLink (src : ProfilesDictionary) : switch Z :=
  whenPositive (switchIndex "invalid link index " (ProfilesDictionary_LinkTable src)
    (setIn ProfilesDictionary_LinkTable set_LinkTable SetLink) "couldn't set link: ").
Definition switchStack (src : ProfilesDictionary) : switch Z :=
  whenPositive (switchIndex "invalid stack index " (ProfilesDictionary_StackTable src)
    (setIn ProfilesDictionary_StackTable set_StackTable SetStack) "couldn't set stack: ").
Definition switchLocations (src : ProfilesDictionary) : switch (list Z) :=
  each (fun i => switchIndex "invalid location index " (ProfilesDictionary_LocationTable src)
    (setIn ProfilesDictionary_LocationTable set_LocationTable SetLocation) ("couldn't set location " +:+ pretty i +:+ ": ")).
Definition switchAttributes (src : ProfilesDictionary) : switch (list Z) :=
  each (fun i => switchIndex "invalid attribute index " (ProfilesDictionary_AttributeTable src)
    (setIn ProfilesDictionary_AttributeTable set_AttributeTable SetAttribute) ("couldn't set attribute " +:+ pretty i +:+ ": ")).

(** *** The entries of a dictionary *)

Definition KeyValueAndUnit_switchDictionary (src : ProfilesDictionary) : switch KeyValueAndUnit :=
  andThen
    (within KeyValueAndUnit_KeyStrindex (fun v '(mkKeyValueAndUnit _ value unit) => mkKeyValueAndUnit v value unit)
      (switchString src "key"))
    (within KeyValueAndUnit_UnitStrindex (fun v '(mkKeyValueAndUnit key value _) => mkKeyValueAndUnit key value v)
      (switchString src "unit")).

Definition Function_switchDictionary (src : ProfilesDictionary) : switch Function :=
  andThen
    (within Function_NameStrindex (fun v '(mkFunction _ system file line) => mkFunction v system file line)
      (switchString src "name"))
    (andThen
      (within Function_SystemNameStrindex (fun v '(mkFunction name _ file line) => mkFunction name v file line)
        (switchString src "system name"))
      (within Function_FilenameStrindex (fun v '(mkFunction name system _ line) => mkFunction name system v line)
        (switchString src "filename"))).

Definition Mapping_switchDictionary (src : ProfilesDictionary) : switch Mapping :=
  andThen
    (within Mapping_FilenameStrindex (fun v '(mkMapping start limit offset _ attrs) => mkMapping start limit offset v attrs)
      (switchString src "filename"))
    (within Mapping_AttributeIndices (fun v '(mkMapping start limit offset file _) => mkMapping start limit offset file v)
      (switchAttributes src)).

Definition Line_switchDictionary (src : ProfilesDictionary) : switch Line :=
  within Line_FunctionIndex (fun v '(mkLine _ line column) => mkLine v line column) (switchFunction src).

Definition Location_switchDictionary (src : ProfilesDictionary) : switch Location :=
  andThen
    (within Location_MappingIndex (fun v '(mkLocation _ address lines attrs) => mkLocation v address lines attrs)
      (switchMapping src))
    (andThen
      (within Location_AttributeIndices (fun v '(mkLocation mapping address lines _) => mkLocation mapping address lines v)
        (switchAttributes src))
      (within Location_Lines (fun v '(mkLocation mapping address _ attrs) => mkLocation mapping address v attrs)
        (wrapping_each "couldn't switch dictionary for line " (Line_switchDictionary src)))).

Definition Stack_switchDictionary (src : ProfilesDictionary) : switch Stack :=
  within Stack_LocationIndices (fun v _ => mkStack v) (switchLocations src).

(** *** Profiles *)

Definition ValueType_switchDictionary (src : ProfilesDictionary) : switch ValueType :=
  andThen
    (within ValueType_TypeStrindex (fun v '(mkValueType _ unit) => mkValueType v unit) (switchString src "type"))
    (within ValueType_UnitStrindex (fun v '(mkValueType ty _) => mkValueType ty v) (switchString src "unit")).

Definition Sample_switchDictionary (src : ProfilesDictionary) : switch Sample :=
  andThen
    (within Sample_AttributeIndices (fun v '(mkSample stack _ link values times) => mkSample stack v link values times)
      (switchAttributes src))
    (andThen
      (within Sample_LinkIndex (fun v '(mkSample stack attrs _ values times) => mkSample stack attrs v values times)
        (switchLink src))
      (within Sample_StackIndex (fun v '(mkSample _ attrs link values times) => mkSample v attrs link values times)
        (switchStack src))).

Definition set_AttributeIndices v (p : Profile) : Profile :=
  let '(mkProfile st samples time duration pt period id dropped format payload _) := p in
  mkProfile st samples time duration pt period id dropped format payload v.
Definition set_Samples v (p : Profile) : Profile :=
  let '(mkProfile st _ time duration pt period id dropped format payload attrs) := p in
  mkProfile st v time duration pt period id dropped format payload attrs.
Definition set_PeriodType v (p : Profile) : Profile :=
  let '(mkProfile st samples time duration _ period id dropped format payload attrs) := p in
  mkProfile st samples time duration v period id dropped format payload attrs.
Definition set_SampleType v (p : Profile) : Profile :=
  let '(mkProfile _ samples time duration pt period id dropped format payload attrs) := p in
  mkProfile v samples time duration pt period id dropped format payload attrs.

Definition Profile_switchDictionary (src : ProfilesDictionary) : switch Profile :=
  andThen (within Profile_AttributeIndices set_AttributeIndices (switchAttributes src))
  (andThen (within Profile_Samples set_Samples
             (wrapping_each "error switching dictionary for sample " (Sample_switchDictionary src)))
  (andThen (within Profile_PeriodType set_PeriodType
             (wrapping "error switching dictionary for period type: " (ValueType_switchDictionary src)))
           (within Profile_SampleType set_SampleType
             (wrapping "error switching dictionary for sample type: " (ValueType_switchDictionary src))))).

Definition ScopeProfiles_switchDictionary (src : ProfilesDictionary) : switch ScopeProfiles :=
  within ScopeProfiles_Profiles (fun v '(mkScopeProfiles scope _ url) => mkScopeProfiles scope v url)
    (wrapping_each "error switching dictionary for profile " (Profile_switchDictionary src)).

Definition ResourceProfiles_switchDictionary (src : ProfilesDictionary) : switch ResourceProfiles :=
  within ResourceProfiles_ScopeProfiles (fun v '(mkResourceProfiles r _ url) => mkResourceProfiles r v url)
    (wrapping_each "error switching dictionary for scope profile " (ScopeProfiles_switchDictionary src)).

(** The steps of Profiles read the dictionary that they change. *)
Definition ofDictionary (f : ProfilesDictionary -> switch ProfilesDictionary) : switch ExportProfilesServiceRequest :=
  fun ms => within ExportProfilesServiceRequest_Dictionary
    (fun v '(mkExportProfilesServiceRequest rps _) => mkExportProfilesServiceRequest rps v)
    (f (ExportProfilesServiceRequest_Dictionary ms)) ms.

Definition Profiles_switchDictionary : switch ExportProfilesServiceRequest :=
  andThen (ofDictionary (fun src => within ProfilesDictionary_AttributeTable set_AttributeTable
             (wrapping_each "couldn't switch attribute " (KeyValueAndUnit_switchDictionary src))))
  (andThen (ofDictionary (fun src => within ProfilesDictionary_FunctionTable set_FunctionTable
             (wrapping_each "couldn't switch function " (Function_switchDictionary src))))
  (andThen (ofDictionary (fun src => within ProfilesDictionary_MappingTable set_MappingTable
             (wrapping_each "couldn't switch mapping " (Mapping_switchDictionary src))))
  (andThen (ofDictionary (fun src => within ProfilesDictionary_LocationTable set_LocationTable
             (wrapping_each "couldn't switch location " (Location_switchDictionary src))))
  (andThen (ofDictionary (fun src => within ProfilesDictionary_StackTable set_StackTable
             (wrapping_each "couldn't switch stack " (Stack_switchDictionary src))))
           (fun ms => within ExportProfilesServiceRequest_ResourceProfiles
             (fun v '(mkExportProfilesServiceRequest _ dict) => mkExportProfilesServiceRequest v dict)
             (wrapping_each "error switching dictionary for resource profile "
               (ResourceProfiles_switchDictionary (ExportProfilesServiceRequest_Dictionary ms))) ms))))).

(** ** Profiles: MergeTo and the counts

    [same]: the two are the same data. *)

Record Profiles := mkProfiles { orig : ExportProfilesServiceRequest; readOnly : bool }.

Definition NewProfiles : Profiles := mkProfiles zeroExportProfilesServiceRequest false.

Definition ResourceProfiles_ (ms : Profiles) : list ResourceProfiles := ExportProfilesServiceRequest_ResourceProfiles (orig ms).
Definition Dictionary_ (ms : Profiles) : ProfilesDictionary := ExportProfilesServiceRequest_Dictionary (orig ms).

Definition MergeTo (same : bool) (ms dest : Profiles) : option (Profiles * Profiles * option error) :=
  if readOnly ms || readOnly dest then None
  else if same then Some (ms, dest, None)
  else
    '(m, err, dict) ← Profiles_switchDictionary (orig ms) (Dictionary_ dest);
    match err with
    | Some err => Some (mkProfiles m false, mkProfiles (mkExportProfilesServiceRequest (ResourceProfiles_ dest) dict) false, Some err)
    | None =>
        Some (mkProfiles (mkExportProfilesServiceRequest [] (ExportProfilesServiceRequest_Dictionary m)) true,
              mkProfiles (mkExportProfilesServiceRequest
                (ResourceProfiles_ dest ++ ExportProfilesServiceRequest_ResourceProfiles m) dict) false,
              None)
    end.

Definition SampleCount (ms : Profiles) : Z :=
  sum_of (fun rp => sum_of (fun sp => sum_of (fun p => Z.of_nat (length (Profile_Samples p))) (ScopeProfiles_Profiles sp))
    (ResourceProfiles_ScopeProfiles rp)) (ResourceProfiles_ ms).
Definition ProfileCount (ms : Profiles) : Z :=
  sum_of (fun rp => sum_of (fun sp => Z.of_nat (length (ScopeProfiles_Profiles sp))) (ResourceProfiles_ScopeProfiles rp)) (ResourceProfiles_ ms).

(** ** What a merge keeps

    Two pieces of data, each with its dictionary, are the same when their indices lead to
    the same entries.  Index 0 of a field that may be absent is the zero entry.  Values of
    attributes are compared as the code compares them. *)

Definition entry {A} (zero : A) (table : list A) (i : Z) : option A := if 0 <? i then table !! Z.to_nat i else Some zero.

Definition sameIndex {A} (R : A -> A -> Prop) (t t' : list A) (i i' : Z) : Prop :=
  exists a a', entryAt t i = Some a /\ entryAt t' i' = Some a' /\ R a a'.
Definition sameRef {A} (zero : A) (R : A -> A -> Prop) (t t' : list A) (i i' : Z) : Prop :=
  exists a a', entry zero t i = Some a /\ entry zero t' i' = Some a' /\ R a a'.

Section same.
Context (d d' : ProfilesDictionary).

Definition sameString : Z -> Z -> Prop :=
  sameRef [] eq (ProfilesDictionary_StringTable d) (ProfilesDictionary_StringTable d').
Definition sameValue (v v' : AnyValue) : Prop := v' = v \/ AnyValue_Equal v' v = Some true.

Definition sameAttribute (a a' : KeyValueAndUnit) : Prop :=
  sameString (KeyValueAndUnit_KeyStrindex a) (KeyValueAndUnit_KeyStrindex a') /\
  sameString (KeyValueAndUnit_UnitStrindex a) (KeyValueAndUnit_UnitStrindex a') /\
  sameValue (KeyValueAndUnit_Value a) (KeyValueAndUnit_Value a').
Definition sameAttributes : list Z -> list Z -> Prop :=
  Forall2 (sameIndex sameAttribute (ProfilesDictionary_AttributeTable d) (ProfilesDictionary_AttributeTable d')).

Definition sameFunction (f f' : Function) : Prop :=
  sameString (Function_NameStrindex f) (Function_NameStrindex f') /\
  sameString (Function_SystemNameStrindex f) (Function_SystemNameStrindex f') /\
  sameString (Function_FilenameStrindex f) (Function_FilenameStrindex f') /\
  Function_StartLine f' = Function_StartLine f.

Definition sameFunctionRef : Z -> Z -> Prop := sameRef zeroFunction sameFunction (ProfilesDictionary_FunctionTable d) (ProfilesDictionary_FunctionTable d').

Definition sameMapping (m m' : Mapping) : Prop :=
  Mapping_MemoryStart m' = Mapping_MemoryStart m /\ Mapping_MemoryLimit m' = Mapping_MemoryLimit m /\
  Mapping_FileOffset m' = Mapping_FileOffset m /\
  sameString (Mapping_FilenameStrindex m) (Mapping_FilenameStrindex m') /\
  sameAttributes (Mapping_AttributeIndices m) (Mapping_AttributeIndices m').

Definition sameMappingRef : Z -> Z -> Prop := sameRef zeroMapping sameMapping (ProfilesDictionary_MappingTable d) (ProfilesDictionary_MappingTable d').

Definition sameLine (l l' : Line) : Prop :=
  sameFunctionRef (Line_FunctionIndex l) (Line_FunctionIndex l') /\
  Line_Line l' = Line_Line l /\ Line_Column l' = Line_Column l.

Definition sameLocation (l l' : Location) : Prop :=
  sameMappingRef (Location_MappingIndex l) (Location_MappingIndex l') /\
  Location_Address l' = Location_Address l /\
  Forall2 sameLine (Location_Lines l) (Location_Lines l') /\
  sameAttributes (Location_AttributeIndices l) (Location_AttributeIndices l').

Definition sameLocations : list Z -> list Z -> Prop :=
  Forall2 (sameIndex sameLocation (ProfilesDictionary_LocationTable d) (ProfilesDictionary_LocationTable d')).

Definition sameStack (s s' : Stack) : Prop :=
  sameLocations (Stack_LocationIndices s) (Stack_LocationIndices s').

Definition sameStackRef : Z -> Z -> Prop := sameRef zeroStack sameStack (ProfilesDictionary_StackTable d) (ProfilesDictionary_StackTable d').
Definition sameLinkRef : Z -> Z -> Prop := sameRef zeroLink eq (ProfilesDictionary_LinkTable d) (ProfilesDictionary_LinkTable d').

Definition sameValueType (v v' : ValueType) : Prop :=
  sameString (ValueType_TypeStrindex v) (ValueType_TypeStrindex v') /\
  sameString (ValueType_UnitStrindex v) (ValueType_UnitStrindex v').

Definition sameSample (s s' : Sample) : Prop :=
  sameStackRef (Sample_StackIndex s) (Sample_StackIndex s') /\
  sameAttributes (Sample_AttributeIndices s) (Sample_AttributeIndices s') /\
  sameLinkRef (Sample_LinkIndex s) (Sample_LinkIndex s') /\
  Sample_Values s' = Sample_Values s /\ Sample_TimestampsUnixNano s' = Sample_TimestampsUnixNano s.

Definition sameProfile (p p' : Profile) : Prop := exists st samples pt attrs,
  p' = set_SampleType st (set_PeriodType pt (set_Samples samples (set_AttributeIndices attrs p))) /\
  sameValueType (Profile_SampleType p) st /\ Forall2 sameSample (Profile_Samples p) samples /\
  sameValueType (Profile_PeriodType p) pt /\ sameAttributes (Profile_AttributeIndices p) attrs.

Definition sameScopeProfiles (sp sp' : ScopeProfiles) : Prop :=
  ScopeProfiles_Scope sp' = ScopeProfiles_Scope sp /\ ScopeProfiles_SchemaUrl sp' = ScopeProfiles_SchemaUrl sp /\
  Forall2 sameProfile (ScopeProfiles_Profiles sp) (ScopeProfiles_Profiles sp').
Definition sameResourceProfiles (rp rp' : ResourceProfiles) : Prop :=
  ResourceProfiles_Resource rp' = ResourceProfiles_Resource rp /\
  ResourceProfiles_SchemaUrl rp' = ResourceProfiles_SchemaUrl rp /\
  Forall2 sameScopeProfiles (ResourceProfiles_ScopeProfiles rp) (ResourceProfiles_ScopeProfiles rp').
End same.

(** The tables of [d'] start with those of [d]: what indices into [d] lead to stays. *)
Record extends (d d' : ProfilesDictionary) : Prop := {
  extends_mappings : ProfilesDictionary_MappingTable d `prefix_of` ProfilesDictionary_MappingTable d';
  extends_locations : ProfilesDictionary_LocationTable d `prefix_of` ProfilesDictionary_LocationTable d';
  extends_functions : ProfilesDictionary_FunctionTable d `prefix_of` ProfilesDictionary_FunctionTable d';
  extends_links : ProfilesDictionary_LinkTable d `prefix_of` ProfilesDictionary_LinkTable d';
  extends_strings : ProfilesDictionary_StringTable d `prefix_of` ProfilesDictionary_StringTable d';
  extends_attributes : ProfilesDictionary_AttributeTable d `prefix_of` ProfilesDictionary_AttributeTable d';
  extends_stacks : ProfilesDictionary_StackTable d `prefix_of` ProfilesDictionary_StackTable d';
}.

(** A dictionary as the protocol wants it: the zero entry is the first of each table; and
    the values of attributes have no nil message. *)
Record conforms (d : ProfilesDictionary) : Prop := {
  zero_mapping : ProfilesDictionary_MappingTable d !! 0%nat = Some zeroMapping;
  zero_function : ProfilesDictionary_FunctionTable d !! 0%nat = Some zeroFunction;
  zero_link : ProfilesDictionary_LinkTable d !! 0%nat = Some zeroLink;
  zero_string : ProfilesDictionary_StringTable d !! 0%nat = Some [];
  zero_stack : ProfilesDictionary_StackTable d !! 0%nat = Some zeroStack;
  values_ok : Forall (fun a => AnyValue_ok (KeyValueAndUnit_Value a) = true) (ProfilesDictionary_AttributeTable d);
}.

(** A table that no int32 can index one more entry of. *)
Definition full (d : ProfilesDictionary) : Prop :=
  MaxInt32 <= Z.of_nat (length (ProfilesDictionary_StringTable d) `max` length (ProfilesDictionary_AttributeTable d) `max`
    length (ProfilesDictionary_FunctionTable d) `max` length (ProfilesDictionary_MappingTable d) `max`
    length (ProfilesDictionary_LocationTable d) `max` length (ProfilesDictionary_LinkTable d) `max`
    length (ProfilesDictionary_StackTable d)).

(** Data whose indices lead to entries of its dictionary. *)
Section valid.
Context (d : ProfilesDictionary).

Definition isIndex {A} (t : list A) (i : Z) : bool := (0 <=? i) && (i <? Z.of_nat (length t)).
Definition isRef {A} (t : list A) (i : Z) : bool := i <? Z.of_nat (length t) `max` 1.
Definition validString : Z -> bool := isRef (ProfilesDictionary_StringTable d).
Definition validAttributes : list Z -> bool := forallb (isIndex (ProfilesDictionary_AttributeTable d)).

Definition validAttribute (a : KeyValueAndUnit) : bool :=
  validString (KeyValueAndUnit_KeyStrindex a) && validString (KeyValueAndUnit_UnitStrindex a).
Definition validFunction (f : Function) : bool :=
  validString (Function_NameStrindex f) && validString (Function_SystemNameStrindex f) && validString (Function_FilenameStrindex f).
Definition validMapping (m : Mapping) : bool :=
  validString (Mapping_FilenameStrindex m) && validAttributes (Mapping_AttributeIndices m).
Definition validLine (l : Line) : bool := isRef (ProfilesDictionary_FunctionTable d) (Line_FunctionIndex l).
Definition validLocation (l : Location) : bool :=
  isRef (ProfilesDictionary_MappingTable d) (Location_MappingIndex l) && validAttributes (Location_AttributeIndices l) &&
  forallb validLine (Location_Lines l).
Definition validStack (s : Stack) : bool := forallb (isIndex (ProfilesDictionary_LocationTable d)) (Stack_LocationIndices s).
Definition validValueType (v : ValueType) : bool := validString (ValueType_TypeStrindex v) && validString (ValueType_UnitStrindex v).
Definition validSample (s : Sample) : bool :=
  isRef (ProfilesDictionary_StackTable d) (Sample_StackIndex s) && validAttributes (Sample_AttributeIndices s) &&
  isRef (ProfilesDictionary_LinkTable d) (Sample_LinkIndex s).
Definition validProfile (p : Profile) : bool :=
  validValueType (Profile_SampleType p) && forallb validSample (Profile_Samples p) &&
  validValueType (Profile_PeriodType p) && validAttributes (Profile_AttributeIndices p).
Definition validScopeProfiles (sp : ScopeProfiles) : bool := forallb validProfile (ScopeProfiles_Profiles sp).
Definition validResourceProfiles (rp : ResourceProfiles) : bool := forallb validScopeProfiles (ResourceProfiles_ScopeProfiles rp).

Definition validDictionary : bool :=
  forallb validAttribute (ProfilesDictionary_AttributeTable d) && forallb validFunction (ProfilesDictionary_FunctionTable d) &&
  forallb validMapping (ProfilesDictionary_MappingTable d) && forallb validLocation (ProfilesDictionary_LocationTable d) &&
  forallb validStack (ProfilesDictionary_StackTable d).
End valid.

Definition validProfiles (pd : ExportProfilesServiceRequest) : bool :=
  let '(mkExportProfilesServiceRequest rps d) := pd in validDictionary d && forallb (validResourceProfiles d) rps.

(** ** Dictionaries grow *)

Lemma extends_refl d : extends d d.
Proof. by split. Qed.
Lemma extends_trans d1 d2 d3 : extends d1 d2 -> extends d2 d3 -> extends d1 d3.
Proof. intros [] []. split; by etrans. Qed.

#[export] Hint Resolve extends_refl : merge.

(** A table of a dictionary, and what an entry appended to it must be. *)
Class Table {A} (get : ProfilesDictionary -> list A) (set : list A -> ProfilesDictionary -> ProfilesDictionary)
    (ok : A -> Prop) : Prop := {
  set_get d : set (get d) d = d;
  get_set t d : get (set t d) = t;
  set_extends d x : extends d (set (get d ++ [x]) d);
  set_conforms d x : conforms d -> ok x -> conforms (set (get d ++ [x]) d);
  table_full d : MaxInt32 <= Z.of_nat (length (get d)) -> full d;
  table_prefix d d' : extends d d' -> get d `prefix_of` get d';
}.

Definition value_ok (a : KeyValueAndUnit) : Prop := AnyValue_ok (KeyValueAndUnit_Value a) = true.

Ltac table := split;
  [intros []; done|intros ? []; done|intros []; split; simpl; (done || by apply prefix_app_r)
  |intros [] x [] Hx; split; simpl in *;
    (done || (by apply lookup_app_l_Some) || (apply Forall_app; split; [done|by apply Forall_singleton]))
  |intros []; unfold full; simpl; lia|intros ? ? []; done].

#[export] Instance strings_table : Table ProfilesDictionary_StringTable set_StringTable (fun _ => True).
Proof. table. Qed.
#[export] Instance attributes_table : Table ProfilesDictionary_AttributeTable set_AttributeTable value_ok.
Proof. table. Qed.
#[export] Instance functions_table : Table ProfilesDictionary_FunctionTable set_FunctionTable (fun _ => True).
Proof. table. Qed.
#[export] Instance mappings_table : Table ProfilesDictionary_MappingTable set_MappingTable (fun _ => True).
Proof. table. Qed.
#[export] Instance locations_table : Table ProfilesDictionary_LocationTable set_LocationTable (fun _ => True).
Proof. table. Qed.
#[export] Instance links_table : Table ProfilesDictionary_LinkTable set_LinkTable (fun _ => True).
Proof. table. Qed.
#[export] Instance stacks_table : Table ProfilesDictionary_StackTable set_StackTable (fun _ => True).
Proof. table. Qed.

(** *** What the Set functions answer *)

Lemma findEntry_spec {A} (eq : A -> option bool) table j : Forall (fun a => is_Some (eq a)) table ->
  exists found, findEntry eq j table = Some found /\
    match found with
    | None => True
    | Some k => (j <= k)%nat /\ exists a, table !! (k - j)%nat = Some a /\ eq a = Some true
    end.
Proof.
  intros F. revert j. induction F as [|a table [e E] F IH]; intros j; simpl; [by exists None|]. rewrite E. simpl.
  destruct e; [exists (Some j); split; [done|]; split; [lia|]; exists a; by rewrite Nat.sub_diag|].
  destruct (IH (S j)) as (found & -> & H). exists found. split; [done|]. destruct found as [k|]; [|done].
  destruct H as (L & b & Hb & Eb). split; [lia|]. exists b. split; [|done].
  by replace (k - j)%nat with (S (k - S j)) by lia.
Qed.

Lemma setEntry_spec {A} (eq : A -> A -> option bool) tooMany full table x :
  Forall (fun a => is_Some (eq a x)) table ->
  exists r table', setEntry eq tooMany full table x = Some (r, table') /\
    match r with
    | inl idx => (table' = table \/ table' = table ++ [x]) /\
        exists a, entryAt table' idx = Some a /\ (a = x \/ a ∈ table /\ eq a x = Some true)
    | inr _ => table' = table /\ MaxInt32 <= Z.of_nat (length table)
    end.
Proof.
  intros F. unfold setEntry. destruct (findEntry_spec (fun a => eq a x) table 0 F) as (found & -> & H). simpl.
  assert (forall n, Z.of_nat n <= MaxInt32 -> i32 (Z.of_nat n) = Z.of_nat n) as I.
  { intros n Hn. unfold i32, MaxInt32 in *. rewrite Z.mod_small; lia. }
  destruct found as [k|].
  - destruct H as (_ & a & Ha & Ea). rewrite Nat.sub_0_r in Ha. pose proof (lookup_lt_Some _ _ _ Ha).
    destruct (MaxInt32 <? Z.of_nat k) eqn:L; eexists _, _; (split; [done|]); simpl; [split; [done|lia]|].
    split; [by left|]. exists a. rewrite I by lia. unfold entryAt. rewrite decide_True, Nat2Z.id by lia. split; [done|].
    right. split; [by eapply list_elem_of_lookup_2|done].
  - destruct (MaxInt32 <=? Z.of_nat (length table)) eqn:L; eexists _, _; (split; [done|]); simpl; [split; [done|lia]|].
    split; [by right|]. exists x. split; [|by left]. rewrite length_app. simpl.
    replace (Z.of_nat (length table + 1) - 1) with (Z.of_nat (length table)) by lia. rewrite I by lia.
    unfold entryAt. rewrite decide_True, Nat2Z.id by lia. by apply list_lookup_middle.
Qed.

Lemma setIn_spec {A} get set ok `{T : !Table (A := A) get set ok} eq e1 e2 x d :
  Forall (fun a => is_Some (eq a x)) (get d) -> ok x -> conforms d ->
  exists r d', setIn get set (setEntry eq e1 e2) x d = Some (r, d') /\ extends d d' /\ conforms d' /\
    match r with
    | inl idx => exists a, entryAt (get d') idx = Some a /\ (a = x \/ a ∈ get d /\ eq a x = Some true)
    | inr _ => full d'
    end.
Proof.
  intros F Hx C. unfold setIn. destruct (setEntry_spec eq e1 e2 (get d) x F) as (r & t & -> & H). simpl.
  exists r, (set t d). split; [done|]. destruct r as [idx|err].
  - destruct H as [E (a & Ea & Ha)]. rewrite get_set. split; [|split; [|by exists a]]; destruct E as [-> | ->].
    + rewrite set_get. auto with merge.
    + apply set_extends.
    + by rewrite set_get.
    + by apply set_conforms.
  - destruct H as [-> L]. rewrite set_get. split; [auto with merge|]. split; [done|by apply table_full].
Qed.

(** ** Steps

    [switches P f x V R]: from a dictionary where [P] holds, the step [f] of [x] extends the
    dictionary; when it succeeds [R] holds of what it leaves; and when [x] is valid, [V],
    it succeeds, or a table is full. *)

Definition keeps (P : ProfilesDictionary -> Prop) : Prop := forall d d', extends d d' -> P d -> P d'.

Definition switches {X} (P : ProfilesDictionary -> Prop) (f : switch X) (x : X) (V : Prop) (R : ProfilesDictionary -> X -> Prop) : Prop :=
  forall d, conforms d -> P d ->
  match f x d with
  | None => ~ V
  | Some (x', err, d') => extends d d' /\ conforms d' /\ match err with None => R d' x' | Some _ => V -> full d' end
  end.

Lemma switches_weaken {X} (P Q : ProfilesDictionary -> Prop) f (x : X) (V W : Prop) R S :
  switches P f x V R -> (forall d, Q d -> P d) -> (W -> V) -> (forall d x', conforms d -> R d x' -> S d x') -> switches Q f x W S.
Proof.
  intros H HQ HW HS d C Hd. specialize (H d C (HQ d Hd)). destruct (f x d) as [[[x' err] d']|]; [|tauto].
  destruct H as (E & C' & H). split; [done|]. split; [done|]. destruct err; auto.
Qed.

Lemma switches_then {X} (P : ProfilesDictionary -> Prop) f g (x : X) V R S : keeps P ->
  switches P f x V R -> (forall x', switches (fun d => P d /\ R d x') g x' V S) -> switches P (andThen f g) x V S.
Proof.
  intros K Hf Hg d C HP. specialize (Hf d C HP). unfold andThen. destruct (f x d) as [[[x1 err] d1]|]; [|done]. simpl.
  destruct Hf as (E1 & C1 & H1). destruct err as [err|]; [done|]. specialize (Hg x1 d1 C1 (conj (K _ _ E1 HP) H1)).
  destruct (g x1 d1) as [[[x2 err] d2]|]; [|done]. destruct Hg as (E2 & C2 & H2). split; [by eapply extends_trans|done].
Qed.

Lemma switches_within {X A} (get : X -> A) set P f x V R :
  switches P f (get x) V R -> switches P (within get set f) x V (fun d x' => exists a, x' = set a x /\ R d a).
Proof.
  intros H d C HP. specialize (H d C HP). unfold within. destruct (f (get x) d) as [[[a err] d']|]; [|done]. simpl.
  destruct H as (E & C' & H). split; [done|]. split; [done|]. destruct err; [done|by exists a].
Qed.

Lemma switches_wrapping {X} msg P f (x : X) V R : switches P f x V R -> switches P (wrapping msg f) x V R.
Proof.
  intros H d C HP. specialize (H d C HP). unfold wrapping. destruct (f x d) as [[[a err] d']|]; [|done].
  destruct H as (E & C' & H). by destruct err.
Qed.

(** A relation between data of the source and of a destination that grows. *)
Definition lasting {A} (R : ProfilesDictionary -> A -> A -> Prop) : Prop := forall a a', keeps (fun d => R d a a').

Lemma switches_each {A} P (f : nat -> switch A) l V R : keeps P -> lasting R ->
  (forall i a, a ∈ l -> switches P (f i) a V (fun d a' => R d a a')) -> switches P (each f) l V (fun d l' => Forall2 (R d) l l').
Proof.
  intros K L. unfold each. generalize 0%nat. induction l as [|a l IH]; intros i F d C HP; [auto with merge|].
  pose proof (F i a (list_elem_of_here _ _) d C HP) as Ha. destruct (f i a d) as [[[a' err] d1]|]; [|done]. simpl.
  destruct Ha as (E1 & C1 & H1). destruct err as [err|]; [done|].
  assert (forall i b, b ∈ l -> switches P (f i) b V (fun d b' => R d b b')) as F' by (intros; by apply F, list_elem_of_further).
  specialize (IH (S i) F' d1 C1 (K _ _ E1 HP)).
  destruct ((fix go i l dst := match l with [] => _ | _ => _ end) (S i) l d1) as [[[l' err] d2]|]; [|done]. simpl.
  destruct IH as (E2 & C2 & H2). split; [by eapply extends_trans|]. split; [done|]. destruct err; [done|].
  constructor; [by eapply (L a a')|done].
Qed.

Lemma switches_wrapping_each {A} msg P (f : switch A) l V R : keeps P -> lasting R ->
  (forall a, a ∈ l -> switches P f a V (fun d a' => R d a a')) -> switches P (wrapping_each msg f) l V (fun d l' => Forall2 (R d) l l').
Proof. intros K L F. apply switches_each; [done|done|]. intros i a Ha. by apply switches_wrapping, F. Qed.

(** Steps of fields one after the other: what the earlier ones left holds at the end. *)

Lemma keeps_and P Q : keeps P -> keeps Q -> keeps (fun d => P d /\ Q d).
Proof. intros KP KQ d d' E []. split; [by eapply KP|by eapply KQ]. Qed.
Lemma lasting_keeps {A} R (a a' : A) : lasting R -> keeps (fun d => R d a a').
Proof. intros L. apply L. Qed.

Lemma switches_first {X A} (get : X -> A) set P f g x V R S : keeps P ->
  switches P f (get x) V R -> (forall y, switches (fun d => P d /\ R d y) g (set y x) V S) ->
  switches P (andThen (within get set f) g) x V S.
Proof.
  intros K Hf Hg. eapply switches_then; [done|by apply switches_within|].
  intros x' d C [HP (y & -> & Hy)]. exact (Hg y d C (conj HP Hy)).
Qed.

Lemma switches_last {X A} (get : X -> A) set P f x V R S : keeps P ->
  switches P f (get x) V R -> (forall d y, P d -> R d y -> S d (set y x)) -> switches P (within get set f) x V S.
Proof.
  intros K Hf HS d C HP. pose proof (switches_within get set P f x V R Hf d C HP) as H.
  destruct (within get set f x d) as [[[x' err] d']|]; [|done]. destruct H as (E & C' & H). split; [done|]. split; [done|].
  destruct err; [done|]. destruct H as (y & -> & Hy). apply HS; [by eapply K|done].
Qed.

(** *** Indices *)

Section index.
Context {A : Type} (get : ProfilesDictionary -> list A) (set : list A -> ProfilesDictionary -> ProfilesDictionary) (ok : A -> Prop).
Context `{T : !Table get set ok}.
Context (eq : A -> A -> option bool) (R1 R : ProfilesDictionary -> A -> A -> Prop) (P : ProfilesDictionary -> Prop) (t0 t : list A).
Context (R_lasting : lasting R).
Context (related : forall d, conforms d -> P d -> Forall2 (fun a a1 => R1 d a a1 /\ ok a1) t0 t).
Context (eq_defined : forall d a1, conforms d -> ok a1 -> Forall (fun a' => is_Some (eq a' a1)) (get d)).
Context (eq_related : forall d a a1 a', R1 d a a1 -> a' = a1 \/ eq a' a1 = Some true -> R d a a').

Lemma switches_index invalid e1 e2 msg v V :
  (V -> isIndex t0 v = true) ->
  switches P (switchIndex invalid t (setIn get set (setEntry eq e1 e2)) msg) v V (fun d v' => sameIndex (R d) t0 (get d) v v').
Proof.
  intros HV d C HP. pose proof (related d C HP) as F. pose proof (Forall2_length _ _ _ F) as L. unfold switchIndex.
  destruct (Z.of_nat (length t) <=? v) eqn:Hv.
  { split; [auto with merge|]. split; [done|]. intros V'%HV. unfold isIndex in V'. lia. }
  destruct (entryAt t v) as [a1|] eqn:E1; simpl.
  2: { intros V'%HV. unfold isIndex in V'. unfold entryAt in E1. case_decide; [|lia].
       apply lookup_ge_None in E1. lia. }
  assert (exists a, entryAt t0 v = Some a /\ R1 d a a1 /\ ok a1) as (a & Ea & Ra & Oa).
  { unfold entryAt in *. case_decide; [|done]. by apply (Forall2_lookup_r _ _ _ _ _ F). }
  destruct (setIn_spec get set ok eq e1 e2 a1 d (eq_defined d a1 C Oa) Oa C) as (r & d' & -> & E & C' & H). simpl.
  destruct r as [idx|err]; [|auto]. split; [done|]. split; [done|]. destruct H as (a' & Ea' & Ha').
  exists a, a'. split; [done|]. split; [done|]. apply (R_lasting a a' _ _ E). apply (eq_related d a a1 a' Ra).
  destruct Ha' as [Ha'|[_ Ha']]; [by left|by right].
Qed.

Lemma switches_ref zero invalid e1 e2 msg v V :
  (forall d, conforms d -> get d !! 0%nat = Some zero) -> (forall d, conforms d -> R d zero zero) -> (V -> isRef t0 v = true) ->
  switches P (whenPositive (switchIndex invalid t (setIn get set (setEntry eq e1 e2)) msg)) v V
    (fun d v' => sameRef zero (R d) t0 (get d) v v').
Proof.
  intros Z0 R0 HV d C HP. unfold whenPositive. destruct (0 <? v) eqn:Hv.
  2: { split; [auto with merge|]. split; [done|]. exists zero, zero. unfold entry. rewrite Hv. by auto. }
  assert (V -> isIndex t0 v = true) as HV' by (intros V'%HV; unfold isRef, isIndex in *; lia).
  pose proof (switches_index invalid e1 e2 msg v V HV' d C HP) as H.
  destruct (switchIndex _ _ _ _ v d) as [[[v' err] d']|]; [|done]. destruct H as (E & C' & H).
  split; [done|]. split; [done|]. destruct err; [done|]. destruct H as (a & a' & Ea & Ea' & Ra). exists a, a'.
  unfold entry, entryAt in *. rewrite Hv. rewrite decide_True in Ea by lia. split; [done|]. split; [|done].
  case_decide; [|done]. destruct (0 <? v') eqn:Hv'; [done|]. replace v' with 0 in * by lia.
  change (Z.to_nat 0) with 0%nat in Ea'. rewrite (Z0 d' C') in Ea'. congruence.
Qed.
End index.

(** ** What indices lead to stays *)

Lemma entryAt_prefix {A} (t t' : list A) i a : t `prefix_of` t' -> entryAt t i = Some a -> entryAt t' i = Some a.
Proof. unfold entryAt. case_decide; [|done]. intros. by eapply prefix_lookup_Some. Qed.
Lemma entry_prefix {A} zero (t t' : list A) i a : t `prefix_of` t' -> entry zero t i = Some a -> entry zero t' i = Some a.
Proof. unfold entry. destruct (0 <? i); [|done]. intros. by eapply prefix_lookup_Some. Qed.

Section lasting.
Context {A : Type} (get : ProfilesDictionary -> list A) {set ok} {T : Table get set ok} (R : ProfilesDictionary -> A -> A -> Prop) (t0 : list A).
Context (R_lasting : lasting R).

Lemma sameIndex_lasting : lasting (fun d => sameIndex (R d) t0 (get d)).
Proof.
  intros i i' d d' E (a & a' & Ha & Ha' & Ra). exists a, a'. split; [done|]. split; [|by eapply (R_lasting a a')].
  eapply entryAt_prefix; [by apply table_prefix|done].
Qed.
Lemma sameRef_lasting zero : lasting (fun d => sameRef zero (R d) t0 (get d)).
Proof.
  intros i i' d d' E (a & a' & Ha & Ha' & Ra). exists a, a'. split; [done|]. split; [|by eapply (R_lasting a a')].
  eapply entry_prefix; [by apply table_prefix|done].
Qed.
End lasting.

Lemma Forall2_lasting {A} (R : ProfilesDictionary -> A -> A -> Prop) : lasting R -> lasting (fun d => Forall2 (R d)).
Proof. intros L l l' d d' E F. eapply Forall2_impl; [exact F|]. intros a a' H. by eapply (L a a'). Qed.

Lemma eq_lasting {A} : lasting (fun _ => @eq A).
Proof. by intros a a' d d' _. Qed.

Section relations.
Context (d0 : ProfilesDictionary).

Lemma sameString_lasting : lasting (sameString d0).
Proof. apply (sameRef_lasting ProfilesDictionary_StringTable (fun _ => eq)), eq_lasting. Qed.

(** A conjunction of lasting parts. *)
Ltac lasts := intros a a' d d' E H; unfold sameAttribute, sameFunction, sameMapping, sameLine, sameLocation, sameSample, sameValueType,
  sameScopeProfiles, sameResourceProfiles in *; destruct_and?; split_and?; eauto with merge.

#[local] Hint Extern 1 (sameString _ _ _ _) => (eapply sameString_lasting; [eassumption|eassumption]) : merge.

Lemma sameAttribute_lasting : lasting (sameAttribute d0).
Proof. lasts. Qed.
Lemma sameAttributes_lasting : lasting (sameAttributes d0).
Proof. apply Forall2_lasting, (sameIndex_lasting ProfilesDictionary_AttributeTable), sameAttribute_lasting. Qed.
#[local] Hint Extern 1 (sameAttributes _ _ _ _) => (eapply sameAttributes_lasting; [eassumption|eassumption]) : merge.

Lemma sameFunction_lasting : lasting (sameFunction d0).
Proof. lasts. Qed.
Lemma sameMapping_lasting : lasting (sameMapping d0).
Proof. lasts. Qed.
Lemma sameFunctionRef_lasting : lasting (sameFunctionRef d0).
Proof. apply (sameRef_lasting ProfilesDictionary_FunctionTable), sameFunction_lasting. Qed.
Lemma sameMappingRef_lasting : lasting (sameMappingRef d0).
Proof. apply (sameRef_lasting ProfilesDictionary_MappingTable), sameMapping_lasting. Qed.
Lemma sameLine_lasting : lasting (sameLine d0).
Proof. lasts. by eapply sameFunctionRef_lasting. Qed.
Lemma sameLocation_lasting : lasting (sameLocation d0).
Proof.
  lasts; [by eapply sameMappingRef_lasting|].
  by eapply (Forall2_lasting _ sameLine_lasting).
Qed.
Lemma sameLocations_lasting : lasting (sameLocations d0).
Proof. apply Forall2_lasting, (sameIndex_lasting ProfilesDictionary_LocationTable), sameLocation_lasting. Qed.
Lemma sameStack_lasting : lasting (sameStack d0).
Proof. intros a a' d d' E H. by eapply sameLocations_lasting. Qed.
Lemma sameStackRef_lasting : lasting (sameStackRef d0).
Proof. apply (sameRef_lasting ProfilesDictionary_StackTable), sameStack_lasting. Qed.
Lemma sameLinkRef_lasting : lasting (sameLinkRef d0).
Proof. apply (sameRef_lasting ProfilesDictionary_LinkTable (fun _ => eq)), eq_lasting. Qed.
Lemma sameValueType_lasting : lasting (sameValueType d0).
Proof. lasts. Qed.
Lemma sameSample_lasting : lasting (sameSample d0).
Proof.
  lasts; [by eapply sameStackRef_lasting|by eapply sameLinkRef_lasting].
Qed.
Lemma sameProfile_lasting : lasting (sameProfile d0).
Proof.
  intros p p' d d' E (st & samples & pt & attrs & -> & S & F & Q & H). exists st, samples, pt, attrs. split; [done|].
  split; [by eapply sameValueType_lasting|]. split; [by eapply (Forall2_lasting _ sameSample_lasting)|].
  split; [by eapply sameValueType_lasting|by eapply sameAttributes_lasting].
Qed.
Lemma sameScopeProfiles_lasting : lasting (sameScopeProfiles d0).
Proof. lasts. by eapply (Forall2_lasting _ sameProfile_lasting). Qed.
Lemma sameResourceProfiles_lasting : lasting (sameResourceProfiles d0).
Proof. lasts. by eapply (Forall2_lasting _ sameScopeProfiles_lasting). Qed.
End relations.

#[export] Hint Resolve eq_lasting sameString_lasting sameAttribute_lasting sameAttributes_lasting sameFunction_lasting
  sameFunctionRef_lasting sameMapping_lasting sameMappingRef_lasting sameLine_lasting sameLocation_lasting sameLocations_lasting
  sameStack_lasting sameStackRef_lasting sameLinkRef_lasting sameValueType_lasting sameSample_lasting
  sameProfile_lasting sameScopeProfiles_lasting sameResourceProfiles_lasting : merge.

(** ** Equal on what it compares *)

Lemma elements_Equal_eq {A} (eq : A -> A -> bool) l val :
  (forall a b, eq a b = true -> a = b) -> elements_Equal eq l val = true -> l = val.
Proof.
  intros H. revert val. induction l as [|a l IH]; intros [|b val]; try done. simpl. rewrite andb_true_iff.
  intros [E1 E2]. f_equal; auto.
Qed.

Ltac equal_fields := rewrite ?andb_true_iff, ?Z.eqb_eq, ?bool_decide_eq_true; intuition congruence.

Lemma Function_Equal_eq f g : Function_Equal f g = true -> f = g.
Proof. destruct f, g. unfold Function_Equal. simpl. equal_fields. Qed.
Lemma Link_Equal_eq f g : Link_Equal f g = true -> f = g.
Proof. destruct f, g. unfold Link_Equal. simpl. equal_fields. Qed.
Lemma Mapping_Equal_eq f g : Mapping_Equal f g = true -> f = g.
Proof. destruct f, g. unfold Mapping_Equal. simpl. equal_fields. Qed.
Lemma Line_Equal_eq f g : Line_Equal f g = true -> f = g.
Proof. destruct f, g. unfold Line_Equal. simpl. equal_fields. Qed.
Lemma Location_Equal_eq f g : Location_Equal f g = true -> f = g.
Proof.
  destruct f, g. unfold Location_Equal, LineSlice_Equal. simpl. rewrite !andb_true_iff. intros [H L].
  apply (elements_Equal_eq _ _ _ Line_Equal_eq) in L as ->. revert H. equal_fields.
Qed.
Lemma Stack_Equal_eq f g : Stack_Equal f g = true -> f = g.
Proof.
  destruct f, g. unfold Stack_Equal. simpl. intros H. f_equal. eapply elements_Equal_eq; [|done].
  intros a b. apply Z.eqb_eq.
Qed.

(** Equal answers on values with no nil message. *)
Definition Equal_defined (v : AnyValue) : Prop := AnyValue_ok v = true -> forall c, AnyValue_ok c = true -> is_Some (AnyValue_Equal v c).

Lemma KeyValues_Get_ok k m v : forallb KeyValue_ok m = true -> KeyValues_Get k m = Some v -> AnyValue_ok v = true.
Proof.
  induction m as [|[w k' i] m IH]; [done|]. simpl. rewrite !andb_true_iff. intros [[Hw _] Hm]. case_bool_decide; [|by apply IH].
  by intros [= ->].
Qed.

Lemma AnyValue_leaf_Equal v :
  match v with
  | AnyValue_ArrayValue (Some (mkArrayValue vs)) => Forall Equal_defined vs -> Equal_defined v
  | AnyValue_KvlistValue (Some (mkKeyValueList kvs)) => Forall (fun kv => Equal_defined (KeyValue_Value kv)) kvs -> Equal_defined v
  | _ => Equal_defined v
  end.
Proof.
  destruct v as [|s| | | |[[vs]|]|[[kvs]|]| |z]; try (intros ? [| | | | |[[]|]|[[]|]| |] ?; solve [done|by eexists]); try done.
  - intros F Hok c Hc. destruct c as [|?| | | |[[val]|]|[[?]|]| |?]; try solve [done|by eexists]. simpl in *.
    case_decide; [by eexists|]. clear H. revert val Hc. induction F as [|v vs Hv F IH]; intros [|c val] Hc; try by eexists.
    simpl in Hok, Hc. apply andb_true_iff in Hok as [O1 O2], Hc as [C1 C2].
    destruct (Hv O1 c C1) as [e ->]. simpl. destruct e; [by apply IH|by eexists].
  - intros F Hok c Hc. destruct c as [|?| | | |[[?]|]|[[val]|]| |?]; try solve [done|by eexists]. simpl in *.
    case_decide; [by eexists|]. clear H. induction F as [|[v k i] kvs Hv F IH]; [by eexists|].
    simpl in Hok. rewrite !andb_true_iff in Hok. destruct Hok as [[O1 _] O2].
    destruct (KeyValues_Get k val) as [vv|] eqn:G; [|by eexists].
    cbn [KeyValue_Value] in Hv. destruct (Hv O1 vv (KeyValues_Get_ok _ _ _ Hc G)) as [e ->]. simpl. destruct e; [by apply IH|by eexists].
Qed.

Lemma AnyValue_Equal_defined v : Equal_defined v.
Proof.
  apply (AnyValue_induct Equal_defined (fun a => let '(mkArrayValue vs) := a in Forall Equal_defined vs)
    (fun kv => Equal_defined (KeyValue_Value kv))
    (fun l => let '(mkKeyValueList kvs) := l in Forall (fun kv => Equal_defined (KeyValue_Value kv)) kvs)); [|done|done|done].
  intros w. pose proof (AnyValue_leaf_Equal w). by destruct w as [| | | | |[[]|]|[[]|]| |].
Qed.

Lemma KeyValueAndUnit_Equal_defined a b : value_ok a -> value_ok b -> is_Some (KeyValueAndUnit_Equal a b).
Proof. intros. unfold KeyValueAndUnit_Equal. case_match; [by apply AnyValue_Equal_defined|by eexists]. Qed.

(** ** The source while it is switched

    [related k s d]: the first [k] of the tables of attributes, functions, mappings,
    locations and stacks are switched in the source [s], those after them are still those
    of [d0]. *)
Section steps.
Context (d0 : ProfilesDictionary).

(** Switching an attribute does not touch its value. *)
Definition switchedAttribute (d : ProfilesDictionary) (a a' : KeyValueAndUnit) : Prop :=
  sameString d0 d (KeyValueAndUnit_KeyStrindex a) (KeyValueAndUnit_KeyStrindex a') /\
  sameString d0 d (KeyValueAndUnit_UnitStrindex a) (KeyValueAndUnit_UnitStrindex a') /\
  KeyValueAndUnit_Value a' = KeyValueAndUnit_Value a.

Lemma switchedAttribute_lasting : lasting switchedAttribute.
Proof. intros a a' d d' E (H1 & H2 & H3). split_and!; [by eapply sameString_lasting|by eapply sameString_lasting|done]. Qed.

Definition upto {A} (done : bool) (R : A -> A -> Prop) (t0 t : list A) : Prop := if done then Forall2 R t0 t else t = t0.

Record related (k : nat) (s d : ProfilesDictionary) : Prop := {
  related_strings : ProfilesDictionary_StringTable s = ProfilesDictionary_StringTable d0;
  related_links : ProfilesDictionary_LinkTable s = ProfilesDictionary_LinkTable d0;
  related_attributes : upto (1 <=? k)%nat (switchedAttribute d) (ProfilesDictionary_AttributeTable d0) (ProfilesDictionary_AttributeTable s);
  related_functions : upto (2 <=? k)%nat (sameFunction d0 d) (ProfilesDictionary_FunctionTable d0) (ProfilesDictionary_FunctionTable s);
  related_mappings : upto (3 <=? k)%nat (sameMapping d0 d) (ProfilesDictionary_MappingTable d0) (ProfilesDictionary_MappingTable s);
  related_locations : upto (4 <=? k)%nat (sameLocation d0 d) (ProfilesDictionary_LocationTable d0) (ProfilesDictionary_LocationTable s);
  related_stacks : upto (5 <=? k)%nat (sameStack d0 d) (ProfilesDictionary_StackTable d0) (ProfilesDictionary_StackTable s);
  related_ok : Forall value_ok (ProfilesDictionary_AttributeTable d0);
}.

Lemma upto_lasting {A} done (R : ProfilesDictionary -> A -> A -> Prop) : lasting R -> lasting (fun d => upto done (R d)).
Proof. intros L. destruct done; [by apply Forall2_lasting|]. intros t t' d d' E H. exact H. Qed.

Lemma related_keeps k s : keeps (related k s).
Proof.
  intros d d' E []. split; try done; eapply upto_lasting; eauto using switchedAttribute_lasting with merge.
Qed.

(** *** Indices into the source *)

Context (k : nat) (s : ProfilesDictionary) (P : ProfilesDictionary -> Prop) (HP : forall d, P d -> related k s d) (P_keeps : keeps P).

Lemma Forall2_true {A} (R : A -> A -> Prop) l l' : Forall2 R l l' -> Forall2 (fun a a' => R a a' /\ True) l l'.
Proof. intros H. eapply Forall2_impl; [exact H|]. by split. Qed.

(** The entry found is the entry set, for the tables whose Equal is equality. *)
Ltac total := intros; apply Forall_true; by eexists.
Ltac found lem := intros d a a1 a' H [->|[= E]]; [done|by apply lem in E as ->].

Lemma string_step what v V : (V -> validString d0 v = true) ->
  switches P (switchString s what) v V (fun d v' => sameString d0 d v v').
Proof.
  intros HV. apply (switches_ref ProfilesDictionary_StringTable set_StringTable (fun _ => True)
    (fun v val => Some (bool_decide (v = val))) (fun _ => eq) (fun _ => eq)); try done.
  - apply eq_lasting.
  - intros d C Hd. rewrite (related_strings _ _ _ (HP d Hd)). by apply Forall2_true, Forall_Forall2_diag, Forall_true.
  - total.
  - intros d a a1 a' -> [->|[= ->%bool_decide_eq_true]]; done.
  - intros d []. done.
Qed.

Lemma link_step v V : (V -> isRef (ProfilesDictionary_LinkTable d0) v = true) ->
  switches P (switchLink s) v V (fun d v' => sameLinkRef d0 d v v').
Proof.
  intros HV. apply (switches_ref ProfilesDictionary_LinkTable set_LinkTable (fun _ => True)
    (fun l li => Some (Link_Equal l li)) (fun _ => eq) (fun _ => eq)); try done.
  - apply eq_lasting.
  - intros d C Hd. rewrite (related_links _ _ _ (HP d Hd)). by apply Forall2_true, Forall_Forall2_diag, Forall_true.
  - total.
  - found Link_Equal_eq.
  - intros d []. done.
Qed.

Lemma KeyValueAndUnit_Equal_same d a a1 a' : switchedAttribute d a a1 ->
  a' = a1 \/ KeyValueAndUnit_Equal a' a1 = Some true -> sameAttribute d0 d a a'.
Proof.
  intros (K & U & E) [->|H]; [by split_and!; [| |left]|]. unfold KeyValueAndUnit_Equal in H.
  destruct (_ && _) eqn:B; [|done]. rewrite andb_true_iff, !Z.eqb_eq in B. destruct B as [B1 B2]. unfold sameAttribute. rewrite B1, B2.
  split; [done|]. split; [done|]. right. by rewrite <- E.
Qed.

Lemma attributes_step l V : (1 <= k)%nat -> (V -> validAttributes d0 l = true) ->
  switches P (switchAttributes s) l V (fun d l' => sameAttributes d0 d l l').
Proof.
  intros Hk HV. apply switches_each.
  - by apply P_keeps.
  - apply (sameIndex_lasting ProfilesDictionary_AttributeTable), sameAttribute_lasting.
  - intros i v Hv. apply (switches_index ProfilesDictionary_AttributeTable set_AttributeTable value_ok
      KeyValueAndUnit_Equal switchedAttribute (sameAttribute d0)).
    + apply sameAttribute_lasting.
    + intros d C Hd. destruct (HP d Hd) as [_ _ H _ _ _ _ O]. replace (1 <=? k)%nat with true in H by (symmetry; apply Nat.leb_le; lia).
      simpl in H. rewrite Forall_forall in O. apply Forall2_same_length_lookup_2; [by eapply Forall2_length|].
      intros j a a1 Ha Ha1. destruct (Forall2_lookup_lr _ _ _ _ _ _ H Ha Ha1) as (S1 & S2 & E). split; [done|].
      unfold value_ok. rewrite E. eapply O, list_elem_of_lookup_2, Ha.
    + intros d a1 [_ _ _ _ _ O] Oa. eapply Forall_impl; [exact O|]. intros. by apply KeyValueAndUnit_Equal_defined.
    + apply KeyValueAndUnit_Equal_same.
    + intros V'%HV. unfold validAttributes in V'. rewrite forallb_forall in V'. apply V'. by apply list_elem_of_In.
Qed.

(** The first [k] tables of the source are switched. *)
Ltac switched_table lem := intros d C Hd; destruct (HP d Hd); unfold upto in *;
  match goal with H : (if (?j <=? k)%nat then Forall2 (lem d0 d) _ _ else _) |- _ =>
    replace (j <=? k)%nat with true in H by (symmetry; apply Nat.leb_le; lia); by apply Forall2_true end.

Lemma function_step v V : (2 <= k)%nat -> (V -> isRef (ProfilesDictionary_FunctionTable d0) v = true) ->
  switches P (switchFunction s) v V
    (fun d v' => sameFunctionRef d0 d v v').
Proof.
  intros Hk HV. apply (switches_ref ProfilesDictionary_FunctionTable set_FunctionTable (fun _ => True)
    (fun m fn => Some (Function_Equal m fn)) (sameFunction d0) (sameFunction d0)); try done.
  - apply sameFunction_lasting.
  - switched_table sameFunction.
  - total.
  - found Function_Equal_eq.
  - intros d []. done.
  - intros d C. unfold sameFunction. split_and!; try done; by exists [], [].
Qed.

Lemma mapping_step v V : (3 <= k)%nat -> (V -> isRef (ProfilesDictionary_MappingTable d0) v = true) ->
  switches P (switchMapping s) v V
    (fun d v' => sameMappingRef d0 d v v').
Proof.
  intros Hk HV. apply (switches_ref ProfilesDictionary_MappingTable set_MappingTable (fun _ => True)
    (fun m ma => Some (Mapping_Equal m ma)) (sameMapping d0) (sameMapping d0)); try done.
  - apply sameMapping_lasting.
  - switched_table sameMapping.
  - total.
  - found Mapping_Equal_eq.
  - intros d []. done.
  - intros d C. unfold sameMapping. split_and!; try done; [by exists [], []|by apply Forall2_nil].
Qed.

Lemma stack_step v V : (5 <= k)%nat -> (V -> isRef (ProfilesDictionary_StackTable d0) v = true) ->
  switches P (switchStack s) v V
    (fun d v' => sameStackRef d0 d v v').
Proof.
  intros Hk HV. apply (switches_ref ProfilesDictionary_StackTable set_StackTable (fun _ => True)
    (fun l st => Some (Stack_Equal l st)) (sameStack d0) (sameStack d0)); try done.
  - apply sameStack_lasting.
  - switched_table sameStack.
  - total.
  - found Stack_Equal_eq.
  - intros d []. done.
  - intros d C. by apply Forall2_nil.
Qed.

Lemma locations_step l V : (4 <= k)%nat -> (V -> forallb (isIndex (ProfilesDictionary_LocationTable d0)) l = true) ->
  switches P (switchLocations s) l V
    (fun d l' => sameLocations d0 d l l').
Proof.
  intros Hk HV. apply switches_each.
  - by apply P_keeps.
  - apply (sameIndex_lasting ProfilesDictionary_LocationTable), sameLocation_lasting.
  - intros i v Hv. apply (switches_index ProfilesDictionary_LocationTable set_LocationTable (fun _ => True)
      (fun a loc => Some (Location_Equal a loc)) (sameLocation d0) (sameLocation d0)).
    + apply sameLocation_lasting.
    + switched_table sameLocation.
    + total.
    + found Location_Equal_eq.
    + intros V'%HV. rewrite forallb_forall in V'. apply V'. by apply list_elem_of_In.
Qed.
End steps.

(** ** The pieces, from attributes to resources *)

Section pieces.
Context (d0 : ProfilesDictionary) (k : nat) (s : ProfilesDictionary).
Context (P : ProfilesDictionary -> Prop) (HP : forall d, P d -> related d0 k s d) (P_keeps : keeps P).

#[local] Hint Resolve switchedAttribute_lasting : merge.

Ltac lasting_parts := first [solve [eauto with merge] | apply Forall2_lasting; lasting_parts].
Ltac keeping := repeat apply keeps_and; first [assumption | apply lasting_keeps; lasting_parts | eapply Forall2_lasting; lasting_parts].
Ltac sub := intros ? ?; destruct_and?; by apply HP.
Ltac valid HV f := let H := fresh in intros H; apply HV in H; unfold f in H; simpl in H; rewrite ?andb_true_iff in H; tauto.
Ltac first_field step := eapply switches_first; [keeping|eapply step; try solve [sub|keeping|lia]|intros ?; cbn].
Ltac last_field step := eapply switches_last; [keeping|eapply step; try solve [sub|keeping|lia]|].

Lemma attribute_piece a V : value_ok a -> (V -> validAttribute d0 a = true) ->
  switches P (KeyValueAndUnit_switchDictionary s) a V (fun d a' => switchedAttribute d0 d a a').
Proof.
  destruct a as [key value unit]. intros Ha HV. unfold KeyValueAndUnit_switchDictionary.
  first_field string_step; [valid HV validAttribute|]. last_field string_step; [valid HV validAttribute|].
  intros ? ? [_ H1] H2. by split_and!.
Qed.

Lemma function_piece f V : (V -> validFunction d0 f = true) ->
  switches P (Function_switchDictionary s) f V (fun d f' => sameFunction d0 d f f').
Proof.
  destruct f as [name system file line]. intros HV. unfold Function_switchDictionary.
  first_field string_step; [valid HV validFunction|]. first_field string_step; [valid HV validFunction|].
  last_field string_step; [valid HV validFunction|]. intros ? ? [[_ H1] H2] H3. by split_and!.
Qed.

Lemma mapping_piece m V : (1 <= k)%nat -> (V -> validMapping d0 m = true) ->
  switches P (Mapping_switchDictionary s) m V (fun d m' => sameMapping d0 d m m').
Proof.
  destruct m as [start limit offset file attrs]. intros Hk HV. unfold Mapping_switchDictionary.
  first_field string_step; [valid HV validMapping|]. last_field attributes_step; [valid HV validMapping|].
  intros ? ? [_ H1] H2. by split_and!.
Qed.

Lemma line_piece l V : (2 <= k)%nat -> (V -> validLine d0 l = true) ->
  switches P (Line_switchDictionary s) l V (fun d l' => sameLine d0 d l l').
Proof.
  destruct l as [f line column]. intros Hk HV. unfold Line_switchDictionary.
  last_field function_step. intros ? ? _ H. by split_and!.
Qed.

Lemma location_piece l V : (3 <= k)%nat -> (V -> validLocation d0 l = true) ->
  switches P (Location_switchDictionary s) l V (fun d l' => sameLocation d0 d l l').
Proof.
  destruct l as [mapping address lines attrs]. intros Hk HV. unfold Location_switchDictionary.
  first_field mapping_step; [valid HV validLocation|]. first_field attributes_step; [valid HV validLocation|].
  eapply switches_last; [keeping|apply (switches_wrapping_each _ _ _ _ V (sameLine d0)); [keeping|lasting_parts|]|].
  - intros l Hl. eapply switches_weaken; [apply line_piece; [lia|]|by intros ? [[]]|exact id|done].
    intros V'%HV. unfold validLocation in V'. rewrite !andb_true_iff, forallb_forall in V'. apply V'. by apply list_elem_of_In.
  - intros ? ? [[_ H1] H2] H3. by split_and!.
Qed.

Lemma stack_piece st V : (4 <= k)%nat -> (V -> validStack d0 st = true) ->
  switches P (Stack_switchDictionary s) st V (fun d st' => sameStack d0 d st st').
Proof.
  destruct st as [locs]. intros Hk HV. unfold Stack_switchDictionary. last_field locations_step. by intros ? ? _ H.
Qed.

Lemma valuetype_piece v V : (V -> validValueType d0 v = true) ->
  switches P (ValueType_switchDictionary s) v V (fun d v' => sameValueType d0 d v v').
Proof.
  destruct v as [ty unit]. intros HV. unfold ValueType_switchDictionary.
  first_field string_step; [valid HV validValueType|]. last_field string_step; [valid HV validValueType|].
  intros ? ? [_ H1] H2. by split_and!.
Qed.

Lemma sample_piece x V : (5 <= k)%nat -> (V -> validSample d0 x = true) ->
  switches P (Sample_switchDictionary s) x V (fun d x' => sameSample d0 d x x').
Proof.
  destruct x as [stack attrs link values times]. intros Hk HV. unfold Sample_switchDictionary.
  first_field attributes_step; [valid HV validSample|]. first_field link_step; [valid HV validSample|].
  last_field stack_step; [valid HV validSample|]. intros ? ? [[_ H1] H2] H3. by split_and!.
Qed.

(** One of the pieces in a list of them. *)
Lemma of_list {A} (valid : A -> bool) l V : (V -> forallb valid l = true) -> forall a, a ∈ l -> V -> valid a = true.
Proof. intros H a Ha V'%H. rewrite forallb_forall in V'. apply V'. by apply list_elem_of_In. Qed.

Lemma profile_piece p V : (5 <= k)%nat -> (V -> validProfile d0 p = true) ->
  switches P (Profile_switchDictionary s) p V (fun d p' => sameProfile d0 d p p').
Proof.
  intros Hk HV. assert (V -> validValueType d0 (Profile_SampleType p) = true /\ forallb (validSample d0) (Profile_Samples p) = true /\
    validValueType d0 (Profile_PeriodType p) = true /\ validAttributes d0 (Profile_AttributeIndices p) = true) as HV'.
  { intros H%HV. unfold validProfile in H. rewrite !andb_true_iff in H. tauto. }
  clear HV. destruct p as [st samples time duration pt period id dropped format payload attrs]. simpl in HV'.
  unfold Profile_switchDictionary. first_field attributes_step; [tauto|].
  eapply switches_first; [keeping|apply (switches_wrapping_each _ _ _ _ V (sameSample d0)); [keeping|lasting_parts|]|intros ?; cbn].
  { intros x Hx. eapply switches_weaken; [apply sample_piece; [done|]|by intros ? []|exact (fun v => v)|done].
    apply (of_list _ samples); [tauto|done]. }
  eapply switches_first; [keeping|apply switches_wrapping; eapply switches_weaken;
    [apply (valuetype_piece pt V); tauto|by intros ? [[]]|exact (fun v => v)|by intros ? ? _ H; exact H]|intros ?; cbn].
  eapply switches_last; [keeping|apply switches_wrapping; eapply switches_weaken;
    [apply (valuetype_piece st V); tauto|by intros ? [[[]]]|exact (fun v => v)|by intros ? ? _ H; exact H]|].
  intros ? st' [[[_ H1] H2] H3] H4. eexists st', _, _, _. by split_and!.
Qed.

Lemma scope_piece sp V : (5 <= k)%nat -> (V -> validScopeProfiles d0 sp = true) ->
  switches P (ScopeProfiles_switchDictionary s) sp V (fun d sp' => sameScopeProfiles d0 d sp sp').
Proof.
  destruct sp as [scope ps url]. intros Hk HV. unfold ScopeProfiles_switchDictionary.
  eapply switches_last; [keeping|apply (switches_wrapping_each _ _ _ _ V (sameProfile d0)); [keeping|lasting_parts|]|].
  - intros p Hp. apply profile_piece; [done|]. by apply (of_list _ ps).
  - intros ? ? _ H. by split_and!.
Qed.

Lemma resource_piece rp V : (5 <= k)%nat -> (V -> validResourceProfiles d0 rp = true) ->
  switches P (ResourceProfiles_switchDictionary s) rp V (fun d rp' => sameResourceProfiles d0 d rp rp').
Proof.
  destruct rp as [r sps url]. intros Hk HV. unfold ResourceProfiles_switchDictionary.
  eapply switches_last; [keeping|apply (switches_wrapping_each _ _ _ _ V (sameScopeProfiles d0)); [keeping|lasting_parts|]|].
  - intros sp Hsp. apply scope_piece; [done|]. by apply (of_list _ sps).
  - intros ? ? _ H. by split_and!.
Qed.
End pieces.

(** ** The tables of the source, one after the other *)

Section stages.
Context (d0 : ProfilesDictionary) (V : Prop) (HV : V -> validDictionary d0 = true).

(** A fact about the source that any destination shows. *)
Lemma switches_known {X} (P : ProfilesDictionary -> Prop) (Q : Prop) f (x : X) R :
  (forall d, P d -> Q) -> (Q -> switches P f x V R) -> switches P f x V R.
Proof. intros HQ H d C HP. exact (H (HQ d HP) d C HP). Qed.

Lemma stage {A} get set (piece : switch A) msg k s (R : ProfilesDictionary -> A -> A -> Prop) :
  (forall d, related d0 k s d -> get s = get d0) -> lasting R ->
  (forall a, a ∈ get d0 -> switches (related d0 k s) piece a V (fun d a' => R d a a')) ->
  (forall d t, related d0 k s d -> Forall2 (R d) (get d0) t -> related d0 (S k) (set t s) d) ->
  switches (related d0 k s) (within get set (wrapping_each msg piece)) s V (fun d s' => related d0 (S k) s' d).
Proof.
  intros G L F S. eapply switches_known; [exact G|]. intros E. eapply switches_last; [apply related_keeps| |exact S].
  rewrite E. apply switches_wrapping_each; [apply related_keeps|done|done].
Qed.

Lemma validDictionary_parts : V ->
  (forall a, a ∈ ProfilesDictionary_AttributeTable d0 -> validAttribute d0 a = true) /\
  (forall f, f ∈ ProfilesDictionary_FunctionTable d0 -> validFunction d0 f = true) /\
  (forall m, m ∈ ProfilesDictionary_MappingTable d0 -> validMapping d0 m = true) /\
  (forall l, l ∈ ProfilesDictionary_LocationTable d0 -> validLocation d0 l = true) /\
  (forall x, x ∈ ProfilesDictionary_StackTable d0 -> validStack d0 x = true).
Proof.
  intros H%HV. unfold validDictionary in H. rewrite !andb_true_iff, !forallb_forall in H. destruct_and?.
  split_and!; intros x Hx; apply list_elem_of_In in Hx; auto.
Qed.

(** The table before its turn, and the source with the table switched. *)
Ltac before := intros ? []; unfold upto in *; simpl in *; assumption.
Ltac after s := intros ? ? [] ?; destruct s; split; unfold upto in *; simpl in *; assumption.

Lemma attributes_stage msg s :
  switches (related d0 0 s) (within ProfilesDictionary_AttributeTable set_AttributeTable
    (wrapping_each msg (KeyValueAndUnit_switchDictionary s))) s V (fun d s' => related d0 1 s' d).
Proof.
  intros d C HP. pose proof (related_ok _ _ _ _ HP) as O. revert d C HP.
  apply (stage _ _ _ _ 0 s (switchedAttribute d0)); [before|apply switchedAttribute_lasting| |after s].
  intros a Ha. apply (attribute_piece d0 0 s (related d0 0 s)); [done|apply related_keeps| |].
  - rewrite Forall_forall in O. by apply O.
  - intros H%validDictionary_parts. by apply H.
Qed.

Lemma functions_stage msg s :
  switches (related d0 1 s) (within ProfilesDictionary_FunctionTable set_FunctionTable
    (wrapping_each msg (Function_switchDictionary s))) s V (fun d s' => related d0 2 s' d).
Proof.
  apply (stage _ _ _ _ 1 s (sameFunction d0)); [before|apply sameFunction_lasting| |after s].
  intros a Ha. apply (function_piece d0 1 s (related d0 1 s)); [done|apply related_keeps|].
  intros H%validDictionary_parts. by apply H.
Qed.

Lemma mappings_stage msg s :
  switches (related d0 2 s) (within ProfilesDictionary_MappingTable set_MappingTable
    (wrapping_each msg (Mapping_switchDictionary s))) s V (fun d s' => related d0 3 s' d).
Proof.
  apply (stage _ _ _ _ 2 s (sameMapping d0)); [before|apply sameMapping_lasting| |after s].
  intros a Ha. apply (mapping_piece d0 2 s (related d0 2 s)); [done|apply related_keeps|lia|].
  intros H%validDictionary_parts. by apply H.
Qed.

Lemma locations_stage msg s :
  switches (related d0 3 s) (within ProfilesDictionary_LocationTable set_LocationTable
    (wrapping_each msg (Location_switchDictionary s))) s V (fun d s' => related d0 4 s' d).
Proof.
  apply (stage _ _ _ _ 3 s (sameLocation d0)); [before|apply sameLocation_lasting| |after s].
  intros a Ha. apply (location_piece d0 3 s (related d0 3 s)); [done|apply related_keeps|lia|].
  intros H%validDictionary_parts. by apply H.
Qed.

Lemma stacks_stage msg s :
  switches (related d0 4 s) (within ProfilesDictionary_StackTable set_StackTable
    (wrapping_each msg (Stack_switchDictionary s))) s V (fun d s' => related d0 5 s' d).
Proof.
  apply (stage _ _ _ _ 4 s (sameStack d0)); [before|apply sameStack_lasting| |after s].
  intros a Ha. apply (stack_piece d0 4 s (related d0 4 s)); [done|apply related_keeps|lia|].
  intros H%validDictionary_parts. by apply H.
Qed.

(** A table of the dictionary, and the tables after it. *)
Lemma dictionary_stage (f : ProfilesDictionary -> switch ProfilesDictionary) g rps s P (Q : ProfilesDictionary -> ProfilesDictionary -> Prop) S :
  switches P (f s) s V (fun d s' => Q s' d) ->
  (forall s', switches (Q s') g (mkExportProfilesServiceRequest rps s') V S) ->
  switches P (andThen (ofDictionary f) g) (mkExportProfilesServiceRequest rps s) V S.
Proof.
  intros Hf Hg d C HP. unfold andThen, ofDictionary, within. simpl. specialize (Hf d C HP).
  destruct (f s s d) as [[[s' err] d1]|]; [|done]. simpl. destruct Hf as (E1 & C1 & H1). destruct err as [err|]; [done|].
  specialize (Hg s' d1 C1 H1). destruct (g _ d1) as [[[x err] d2]|]; [|done]. destruct Hg as (E2 & C2 & H2).
  split; [by eapply extends_trans|done].
Qed.

Lemma Profiles_switches rps :
  (V -> forallb (validResourceProfiles d0) rps = true) -> Forall value_ok (ProfilesDictionary_AttributeTable d0) ->
  switches (fun _ => True) Profiles_switchDictionary (mkExportProfilesServiceRequest rps d0) V
    (fun d pd => Forall2 (sameResourceProfiles d0 d) rps (ExportProfilesServiceRequest_ResourceProfiles pd)).
Proof.
  intros HR O. eapply (switches_weaken (related d0 0 d0)); [|intros d _; by split|exact (fun v => v)|by intros ? ? _ H; exact H].
  apply dictionary_stage with (Q := related d0 1); [apply attributes_stage|intros s1].
  apply dictionary_stage with (Q := related d0 2); [apply functions_stage|intros s2].
  apply dictionary_stage with (Q := related d0 3); [apply mappings_stage|intros s3].
  apply dictionary_stage with (Q := related d0 4); [apply locations_stage|intros s4].
  apply dictionary_stage with (Q := related d0 5); [apply stacks_stage|intros s5].
  eapply switches_last; [apply related_keeps|apply (switches_wrapping_each _ _ _ _ V (sameResourceProfiles d0));
    [apply related_keeps|apply sameResourceProfiles_lasting|]|].
  - intros rp Hrp. apply (resource_piece d0 5 s5); [done|apply related_keeps|done|by apply (of_list _ rps)].
  - intros d rps' _ H. exact H.
Qed.
End stages.

(** ** Properties *)

Lemma sum_of_Forall2 {A} (R : A -> A -> Prop) (f : A -> Z) l l' :
  (forall a a', R a a' -> f a' = f a) -> Forall2 R l l' -> sum_of f l' = sum_of f l.
Proof. intros H. induction 1 as [|a a' l l' Ha _ IH]; [done|]. simpl. by rewrite IH, (H _ _ Ha). Qed.

Lemma same_samples d d' rps rps' : Forall2 (sameResourceProfiles d d') rps rps' ->
  SampleCount (mkProfiles (mkExportProfilesServiceRequest rps' d') false) =
  SampleCount (mkProfiles (mkExportProfilesServiceRequest rps d) false).
Proof.
  unfold SampleCount, ResourceProfiles_. simpl. apply sum_of_Forall2. intros rp rp' (_ & _ & H). revert H. apply sum_of_Forall2.
  intros sp sp' (_ & _ & H). revert H. apply sum_of_Forall2. intros p p' (st & samples & pt & attrs & -> & _ & H & _).
  destruct p. simpl. by apply Forall2_length in H as <-.
Qed.

(** C12: merging profiles whose indices lead to entries of their dictionary, into profiles whose
    dictionary starts its tables with the zero entries: MergeTo never panics.  It succeeds
    unless a table is full, and then the profiles of the source are those of the
    destination, after those it had, with indices into the destination's dictionary that
    lead to the same strings, attributes, functions, mappings, locations, stacks and links
    as before; no sample is lost; and the source is empty and read-only.  Whether or not it
    succeeds, what the destination's own indices lead to stays. *)
Theorem merge_keeps_meaning ms dest :
  readOnly ms = false -> readOnly dest = false -> validProfiles (orig ms) = true ->
  Forall value_ok (ProfilesDictionary_AttributeTable (Dictionary_ ms)) -> conforms (Dictionary_ dest) ->
  exists ms' dest' err, MergeTo false ms dest = Some (ms', dest', err) /\
    extends (Dictionary_ dest) (Dictionary_ dest') /\ conforms (Dictionary_ dest') /\
    (forall d rp rp', sameResourceProfiles d (Dictionary_ dest) rp rp' -> sameResourceProfiles d (Dictionary_ dest') rp rp') /\
    match err with
    | None => exists rps,
        ResourceProfiles_ dest' = ResourceProfiles_ dest ++ rps /\
        Forall2 (sameResourceProfiles (Dictionary_ ms) (Dictionary_ dest')) (ResourceProfiles_ ms) rps /\
        SampleCount dest' = SampleCount dest + SampleCount ms /\
        ResourceProfiles_ ms' = [] /\ readOnly ms' = true
    | Some _ => full (Dictionary_ dest') /\ ResourceProfiles_ dest' = ResourceProfiles_ dest
    end.
Proof.
  destruct ms as [[rps d0] ro], dest as [[drps dd] dro]. unfold Dictionary_, ResourceProfiles_. simpl.
  intros -> -> HV O C. rewrite andb_true_iff in HV. destruct HV as [HV HR].
  pose proof (Profiles_switches d0 True (fun _ => HV) rps (fun _ => HR) O dd C I) as H.
  unfold MergeTo, Dictionary_, ResourceProfiles_. simpl. destruct (Profiles_switchDictionary _ dd) as [[[m err] d']|]; [|tauto].
  destruct H as (E & C' & H). simpl. assert (forall d rp rp', sameResourceProfiles d dd rp rp' -> sameResourceProfiles d d' rp rp') as L.
  { intros d rp rp'. by apply sameResourceProfiles_lasting. }
  destruct err as [err|]; eexists _, _, _; (split; [reflexivity|]); simpl; (split; [done|]); (split; [done|]); (split; [done|]).
  - split; [by apply H|done].
  - eexists. split; [done|]. split; [done|]. split; [|done]. apply same_samples in H.
    unfold SampleCount, ResourceProfiles_ in *. simpl in *. rewrite sum_of_app. by f_equal.
Qed.

(** ** Where merging goes wrong

    Profiles of one profile, with a sample type and the indices of attributes. *)

Definition one_profile (ty : Z) (attrs : list Z) (d : ProfilesDictionary) : Profiles :=
  mkProfiles (mkExportProfilesServiceRequest
    [mkResourceProfiles zeroResource [mkScopeProfiles zeroInstrumentationScope
      [set_SampleType (mkValueType ty 0) (set_AttributeIndices attrs zeroProfile)] []] []] d) false.

Definition dictionary_of (strings : list bytes) (attrs : list KeyValueAndUnit) : ProfilesDictionary :=
  mkProfilesDictionary [zeroMapping] [zeroLocation] [zeroFunction] [zeroLink] strings attrs [zeroStack].

(** NewProfiles, where scrapeProfiles merges, has empty tables: the first string of a merge
    gets index 0.  Here the type of samples, "cpu", becomes the zero that says that there is
    none, and so the unit, which there was none of, reads as the same. *)
Lemma merge_into_new_profiles :
  let ms := one_profile 1 [] (dictionary_of [[]; [99; 112; 117]] []) in
  exists ms', MergeTo false ms NewProfiles =
    Some (ms', one_profile 0 [] (mkProfilesDictionary [] [] [] [] [[99; 112; 117]] [] []), None).
Proof. eexists. vm_compute. reflexivity. Qed.

(** An index of an attribute that is below zero, which can be read from the wire, panics:
    the guards look only for those that are too large. *)
Lemma negative_index_panics d dest : readOnly dest = false ->
  ProfilesDictionary_AttributeTable d = [] -> ProfilesDictionary_FunctionTable d = [] -> ProfilesDictionary_MappingTable d = [] ->
  ProfilesDictionary_LocationTable d = [] -> ProfilesDictionary_StackTable d = [] ->
  MergeTo false (one_profile 0 [-1] d) dest = None.
Proof. destruct d, dest. simpl. intros -> -> -> -> -> ->. done. Qed.

(** A merge that fails leaves its source with some indices switched: here the key of its
    first attribute was "a" and is now, in the source's own dictionary, "b". *)
Lemma failed_merge_corrupts_source :
  let attr key := mkKeyValueAndUnit key (AnyValue_BoolValue true) 0 in
  let source attrs := mkProfiles (mkExportProfilesServiceRequest [] (dictionary_of [[]; [97]; [98]] attrs)) false in
  let dest := mkProfiles (mkExportProfilesServiceRequest [] (dictionary_of [[]; [120]] [])) false in
  exists dest' err, MergeTo false (source [attr 1; attr 9]) dest = Some (source [attr 2; attr 9], dest', Some err).
Proof. eexists _, _. vm_compute. reflexivity. Qed.

(** A full table of strings is reported as a full table of mappings. *)
Lemma SetString_names_the_wrong_table table s : s ∉ table -> MaxInt32 <= Z.of_nat (length table) ->
  SetString table s = Some (inr errTooManyMappingTableEntries, table).
Proof.
  intros Hs L. unfold SetString, setEntry.
  assert (forall j, findEntry (fun v => Some (bool_decide (v = s))) j table = Some None) as E.
  { clear L. induction table as [|v table IH]; intros j; [done|]. apply not_elem_of_cons in Hs as [Hv Hs]. simpl.
    rewrite bool_decide_false by congruence. by apply IH. }
  rewrite E. simpl. by rewrite (proj2 (Z.leb_le _ _) L).
Qed.

(** ** Witness *)

Definition some_source : Profiles :=
  one_profile 1 [1; 0] (dictionary_of [[]; [99; 112; 117]; [107]]
    [mkKeyValueAndUnit 2 (AnyValue_IntValue 5) 0; mkKeyValueAndUnit 2 (AnyValue_StringValue [97]) 1]).
Definition some_dest : Profiles := one_profile 1 [] (dictionary_of [[]; [119]] [mkKeyValueAndUnit 1 (AnyValue_IntValue 5) 0]).

Lemma merge_keeps_meaning_witness :
  validProfiles (orig some_source) = true /\
  exists ms' dest' err, MergeTo false some_source some_dest = Some (ms', dest', err) /\
    extends (Dictionary_ some_dest) (Dictionary_ dest').
Proof.
  split; [vm_compute; reflexivity|].
  destruct (merge_keeps_meaning some_source some_dest) as (ms' & dest' & err & M & E & _);
    [reflexivity|reflexivity|vm_compute; reflexivity| | |exact (ex_intro _ ms' (ex_intro _ dest' (ex_intro _ err (conj M E))))].
  - repeat (apply List.Forall_cons; [reflexivity|]). apply List.Forall_nil.
  - split; [reflexivity|reflexivity|reflexivity|reflexivity|reflexivity|].
    repeat (apply List.Forall_cons; [reflexivity|]). apply List.Forall_nil.
Defined.
