(* ===== verification/ProfilesBatch.v ===== *)
(** * ProfilesBatch: merging and splitting of requests of profiles

    exporterhelper/xexporterhelper/profiles_batch.go, the request of profiles.go there, and
    exporterhelper/internal/sizer/profiles_sizer.go.  The extraction walks as that of traces,
    logs and metrics does (Batch); merging is MergeTo of pprofile, which may fail, and every
    piece takes a copy of the dictionary. *)

From S2P Require Import Prelude.
From S2P Require Import GoErrors.
From S2P Require Import Request.
From S2P Require Import PData.
From S2P Require Import Batch.
From S2P Require Import BatchLemmas.
From S2P Require Import Storage.
From S2P Require Import ProtoWire.
From S2P Require Import ProtoMessage.
From S2P Require Import CommonProto.
From S2P Require Import ProfilesProto.
From S2P Require Import ProfilesMerge.

(** ** Sizers

    The one that counts counts samples in profiles, and profiles in their parts. *)

Inductive ProfilesSizer := ProfilesBytesSizer | ProfilesCountSizer.

Definition ProfilesSize (sz : ProfilesSizer) (pd : Profiles) : Z :=
  match sz with
  | ProfilesBytesSizer => ProtoMarshaler_ProfilesSize (orig pd)
  | ProfilesCountSizer => SampleCount pd
  end.
Definition ResourceProfilesSize (sz : ProfilesSizer) (rp : ResourceProfiles) : Z :=
  match sz with
  | ProfilesBytesSizer => ProtoMarshaler_ResourceProfilesSize rp
  | ProfilesCountSizer => sum_of (fun sp => Z.of_nat (length (ScopeProfiles_Profiles sp))) (ResourceProfiles_ScopeProfiles rp)
  end.
Definition ScopeProfilesSize (sz : ProfilesSizer) (sp : ScopeProfiles) : Z :=
  match sz with
  | ProfilesBytesSizer => ProtoMarshaler_ScopeProfilesSize sp
  | ProfilesCountSizer => Z.of_nat (length (ScopeProfiles_Profiles sp))
  end.
Definition ProfileSize (sz : ProfilesSizer) (p : Profile) : Z :=
  match sz with ProfilesBytesSizer => ProtoMarshaler_ProfileSize p | ProfilesCountSizer => 1 end.
Definition DeltaSize (sz : ProfilesSizer) (newItemSize : Z) : Z :=
  match sz with ProfilesBytesSizer => protoDeltaSize newItemSize | ProfilesCountSizer => newItemSize end.

(** ** Extraction: the source, what was extracted from it, and the removed size *)

Definition set_Profiles l (sp : ScopeProfiles) : ScopeProfiles :=
  let '(mkScopeProfiles scope _ url) := sp in mkScopeProfiles scope l url.
Definition set_ScopeProfiles l (rp : ResourceProfiles) : ResourceProfiles :=
  let '(mkResourceProfiles r _ url) := rp in mkResourceProfiles r l url.

Definition extractScopeProfiles (sz : ProfilesSizer) (srcSS : ScopeProfiles) (capacity : Z) : ScopeProfiles * (ScopeProfiles * Z) :=
  let destSS := set_Profiles [] srcSS in
  let capLeft := capacity - (DeltaSize sz capacity - capacity) - ScopeProfilesSize sz destSS in
  let '(x, rest) :=
    RemoveIf (moveOrStop zeroProfile (ProfileSize sz) (DeltaSize sz)) (mkExtraction capLeft 0 []) (ScopeProfiles_Profiles srcSS) in
  (set_Profiles rest srcSS, (set_Profiles (dest x) destSS, removedSize x)).

Definition extractResourceProfiles (sz : ProfilesSizer) (srcRP : ResourceProfiles) (capacity : Z) :
    ResourceProfiles * (ResourceProfiles * Z) :=
  let destRP := set_ScopeProfiles [] srcRP in
  let capLeft := capacity - (DeltaSize sz capacity - capacity) - ResourceProfilesSize sz destRP in
  let '(x, rest) :=
    RemoveIf (moveOrExtract zeroScopeProfiles (fun sp => Z.of_nat (length (ScopeProfiles_Profiles sp)))
                (ScopeProfilesSize sz) (DeltaSize sz) (extractScopeProfiles sz))
             (mkExtraction capLeft 0 []) (ResourceProfiles_ScopeProfiles srcRP) in
  (set_ScopeProfiles rest srcRP, (set_ScopeProfiles (dest x) destRP, removedSize x)).

(** The capacity is reckoned before the dictionary is copied.  [None]: the source is read-only,
    and RemoveIf panics. *)
Definition extractProfiles (sz : ProfilesSizer) (srcProfiles : Profiles) (capacity : Z) : option (Profiles * (Profiles * Z)) :=
  let capLeft := capacity - ProfilesSize sz NewProfiles in
  let dict := Dictionary_ srcProfiles in
  if readOnly srcProfiles then None
  else
    let '(x, rest) :=
      RemoveIf (moveOrExtract zeroResourceProfiles (fun rp => Z.of_nat (length (ResourceProfiles_ScopeProfiles rp)))
                  (ResourceProfilesSize sz) (DeltaSize sz) (extractResourceProfiles sz))
               (mkExtraction capLeft 0 []) (ResourceProfiles_ srcProfiles) in
    Some (mkProfiles (mkExportProfilesServiceRequest rest dict) false,
          (mkProfiles (mkExportProfilesServiceRequest (dest x) dict) false, removedSize x)).

(** ** Requests *)

Definition profilesRequest : Type := request Profiles.
Definition newProfilesRequest (pd : Profiles) : profilesRequest := newRequest pd.
Definition profiles_ItemsCount (req : profilesRequest) : Z := SampleCount (data req).
Definition profiles_BytesSize (req : profilesRequest) : Z := ProtoMarshaler_ProfilesSize (orig (data req)).
Definition profiles_setCachedSize (size : Z) (req : profilesRequest) : profilesRequest := mkRequest (data req) size.
Definition profiles_size (sz : ProfilesSizer) (req : profilesRequest) : profilesRequest * Z :=
  let req := if decide (cachedSize req = -1) then mkRequest (data req) (ProfilesSize sz (data req)) else req in
  (req, cachedSize req).

Definition errSampleTooLarge (count : Z) : error :=
  ErrNew ("one sample size is greater than max size, dropping items: " +:+ pretty count).

(** The loop of split, at most [fuel] extractions; [None]: out of fuel, or a panic. *)
Fixpoint profiles_splitLoop (fuel : nat) (maxSize : Z) (sz : ProfilesSizer) (req : profilesRequest) :
    option (list profilesRequest * option error) :=
  let '(req, sz0) := profiles_size sz req in
  if decide (sz0 > maxSize) then
    match fuel with
    | O => None
    | S fuel =>
        '(src, (pd, rmSize)) ← extractProfiles sz (data req) maxSize;
        let req := mkRequest src (cachedSize req) in
        if decide (SampleCount pd = 0) then Some ([], Some (errSampleTooLarge (SampleCount (data req))))
        else
          let '(req, sz1) := profiles_size sz req in
          let req := profiles_setCachedSize (sz1 - rmSize) req in
          '(res, err) ← profiles_splitLoop fuel maxSize sz req;
          Some (newProfilesRequest pd :: res, err)
    end
  else Some ([req], None).

(** Every extraction the loop goes on after takes at least one sample. *)
Definition profiles_split (maxSize : Z) (sz : ProfilesSizer) (req : profilesRequest) :=
  profiles_splitLoop (S (Z.to_nat (SampleCount (data req)))) maxSize sz req.

(** The destination after [req.mergeTo(dst, sz)], or the error of MergeTo: the sizes are set
    before. *)
Definition profiles_mergeTo (sz : ProfilesSizer) (req dst : profilesRequest) : option (profilesRequest * option error) :=
  let '(dst, dsize) := profiles_size sz dst in
  let '(req, rsize) := profiles_size sz req in
  let dst := profiles_setCachedSize (dsize + rsize) dst in
  '(_, pd, err) ← MergeTo false (data req) (data dst);
  Some (mkRequest pd (cachedSize dst), err).

Definition profiles_sizer (szt : SizerType) : option ProfilesSizer :=
  if decide (szt = SizerTypeItems) then Some ProfilesCountSizer
  else if decide (szt = SizerTypeBytes) then Some ProfilesBytesSizer
  else None.

(** [r2]: no request, a request of profiles, or one of another type with a number of items. *)
Definition profiles_MergeSplit (maxSize : Z) (szt : SizerType) (r2 : option (profilesRequest + Z)) (req : profilesRequest) :
    option (list profilesRequest * option error) :=
  match profiles_sizer szt with
  | None => Some ([], Some (ErrNew "unknown sizer type"))
  | Some sz =>
      let finish req := if decide (maxSize = 0) then Some ([req], None) else profiles_split maxSize sz req in
      match r2 with
      | Some (inr items) => if decide (items > 0) then Some ([], Some (ErrNew "invalid input type")) else finish req
      | Some (inl req2) =>
          if decide (profiles_ItemsCount req2 > 0) then
            '(req, err) ← profiles_mergeTo sz req2 req;
            match err with
            | Some err => Some ([], Some (ErrWrap "failed merging profiles; " err))
            | None => finish req
            end
          else finish req
      | None => finish req
      end
  end.

(** ** No profile is lost

    A profile with the scope and the resource it is under. *)

Abbreviation scoped := (InstrumentationScope * bytes * Profile)%type.
Abbreviation located := (Resource * bytes * scoped)%type.

Definition scope_items (sp : ScopeProfiles) : list scoped :=
  (fun p => (ScopeProfiles_Scope sp, ScopeProfiles_SchemaUrl sp, p)) <$> ScopeProfiles_Profiles sp.
Definition resource_items (rp : ResourceProfiles) : list located :=
  (fun x => (ResourceProfiles_Resource rp, ResourceProfiles_SchemaUrl rp, x)) <$> concat (scope_items <$> ResourceProfiles_ScopeProfiles rp).
Definition profiles_items (pd : Profiles) : list located := concat (resource_items <$> ResourceProfiles_ pd).

Definition samples (x : located) : Z := Z.of_nat (length (Profile_Samples x.2.2)).

Lemma sum_of_concat {A} (f : A -> Z) (l : list (list A)) : sum_of f (concat l) = sum_of (sum_of f) l.
Proof. induction l as [|a l IH]; [done|]. simpl. by rewrite sum_of_app, IH. Qed.

Lemma SampleCount_items pd : SampleCount pd = sum_of samples (profiles_items pd).
Proof.
  unfold SampleCount, profiles_items. rewrite sum_of_concat, sum_of_fmap. apply sum_of_ext. intros rp. unfold resource_items.
  rewrite sum_of_fmap, sum_of_concat, sum_of_fmap. apply sum_of_ext. intros sp. unfold scope_items. by rewrite sum_of_fmap.
Qed.

Lemma samples_nonneg x : 0 <= samples x.
Proof. unfold samples. lia. Qed.
Lemma SampleCount_nonneg pd : 0 <= SampleCount pd.
Proof. rewrite SampleCount_items. apply sum_of_nonneg, samples_nonneg. Qed.

Lemma extractScopeProfiles_items sz src cap src' ext r : extractScopeProfiles sz src cap = (src', (ext, r)) ->
  scope_items ext ++ scope_items src' = scope_items src /\
  (Z.of_nat (length (ScopeProfiles_Profiles ext)) = 0 -> scope_items ext = []).
Proof.
  destruct src as [scope ps url]. unfold extractScopeProfiles. destruct (RemoveIf _ _ _) as [x rest] eqn:E. intros [= <- <- <-].
  apply moveOrStop_spec in E as [Hd _]. simpl in Hd. unfold scope_items; simpl.
  rewrite <- fmap_app, Hd. split; [done|]. destruct (dest x); [done|simpl; lia].
Qed.

Lemma extractResourceProfiles_items sz src cap src' ext r : extractResourceProfiles sz src cap = (src', (ext, r)) ->
  resource_items ext ++ resource_items src' = resource_items src /\
  (Z.of_nat (length (ResourceProfiles_ScopeProfiles ext)) = 0 -> resource_items ext = []).
Proof.
  destruct src as [rs sps url]. unfold extractResourceProfiles. destruct (RemoveIf _ _ _) as [x rest] eqn:E. intros [= <- <- <-].
  apply (moveOrExtract_items scope_items) in E; [|done|lia|apply extractScopeProfiles_items].
  simpl in E. unfold resource_items; simpl. rewrite <- fmap_app, E. split; [done|].
  destruct (dest x); [done|simpl; lia].
Qed.

Lemma extractProfiles_items sz src cap : readOnly src = false ->
  exists src' ext r, extractProfiles sz src cap = Some (src', (ext, r)) /\
    profiles_items ext ++ profiles_items src' = profiles_items src /\
    readOnly src' = false /\ readOnly ext = false /\ Dictionary_ src' = Dictionary_ src /\ Dictionary_ ext = Dictionary_ src.
Proof.
  intros Hr. unfold extractProfiles. rewrite Hr. destruct (RemoveIf _ _ _) as [x rest] eqn:E.
  eexists _, _, _. split; [done|]. split; [|by split_and!].
  apply (moveOrExtract_items resource_items) in E; [exact E|done|lia|apply extractResourceProfiles_items].
Qed.

Lemma profiles_size_data sz req req' n : profiles_size sz req = (req', n) -> data req' = data req.
Proof. unfold profiles_size. intros [= <- _]. by case_decide. Qed.

(** What the loop leaves: the pieces hold the profiles in order, an error counts the samples
    of those that are dropped. *)
Definition conserves (pd : Profiles) (o : option (list profilesRequest * option error)) : Prop :=
  exists res err dropped, o = Some (res, err) /\
    concat ((fun r => profiles_items (data r)) <$> res) ++ dropped = profiles_items pd /\
    match err with None => dropped = [] | Some e => e = errSampleTooLarge (sum_of samples dropped) end /\
    Forall (fun r => readOnly (data r) = false /\ Dictionary_ (data r) = Dictionary_ pd) res.

Lemma profiles_splitLoop_conserves fuel maxSize sz (req : profilesRequest) :
  readOnly (data req) = false -> SampleCount (data req) < Z.of_nat fuel ->
  conserves (data req) (profiles_splitLoop fuel maxSize sz req).
Proof.
  revert req. induction fuel as [|fuel IH]; intros req Hr Hf; [pose proof (SampleCount_nonneg (data req)); lia|].
  cbn [profiles_splitLoop]. destruct (profiles_size sz req) as [req0 sz0] eqn:E0. apply profiles_size_data in E0.
  case_decide.
  2: { exists [req0], None, []. simpl. rewrite E0, !app_nil_r. split; [done|]. split; [done|]. split; [done|]. apply Forall_singleton. by rewrite E0. }
  rewrite E0. destruct (extractProfiles_items sz (data req) maxSize Hr) as (src & ext & r & -> & Hi & R1 & R2 & D1 & D2). cbn [mbind option_bind].
  assert (SampleCount ext + SampleCount src = SampleCount (data req)) as Hc by (rewrite !SampleCount_items, <- Hi, sum_of_app; lia).
  pose proof (SampleCount_nonneg ext). case_decide as Hz.
  - exists [], (Some (errSampleTooLarge (SampleCount src))), (profiles_items (data req)). simpl. split; [done|]. split; [done|].
    split; [|done]. f_equal. rewrite <- SampleCount_items. lia.
  - destruct (profiles_size sz (mkRequest src (cachedSize req0))) as [req1 sz1] eqn:E1. apply profiles_size_data in E1. simpl in E1.
    destruct (IH (profiles_setCachedSize (sz1 - r) req1)) as (res & err & dr & El & Hres & He & Hd); [by simpl; rewrite E1|simpl; rewrite E1; lia|].
    rewrite El. simpl in Hres, Hd. rewrite E1 in Hres, Hd. simpl. eexists _, _, dr. split; [done|].
    split; [rewrite fmap_cons; cbn [concat]; by rewrite <- app_assoc, Hres|]. split; [done|]. constructor; [done|].
    eapply Forall_impl; [exact Hd|]. intros q [Q1 Q2]. split; [done|]. by rewrite Q2.
Qed.

(** What a request holds after the request [r2] is merged into it. *)
Definition merges (r2 : option (profilesRequest + Z)) (req : profilesRequest) (pd : Profiles) : Prop :=
  match r2 with
  | Some (inl req2) =>
      if decide (SampleCount (data req2) > 0) then exists src, MergeTo false (data req2) (data req) = Some (src, pd, None) else pd = data req
  | Some (inr items) => items <= 0 /\ pd = data req
  | None => pd = data req
  end.

(** When merging succeeds MergeSplit returns, whatever the limit and the sizer: its requests
    hold the profiles of the merged data in order, under their scopes and resources, and each
    a copy of its dictionary, so that no index changes what it leads to; profiles are dropped
    only with an error, which counts their samples. *)
Theorem profiles_MergeSplit_conserves maxSize szt sz r2 (req : profilesRequest) pd :
  profiles_sizer szt = Some sz -> merges r2 req pd -> readOnly pd = false ->
  exists res err dropped, profiles_MergeSplit maxSize szt r2 req = Some (res, err) /\
    concat ((fun r => profiles_items (data r)) <$> res) ++ dropped = profiles_items pd /\
    match err with None => dropped = [] | Some e => e = errSampleTooLarge (sum_of samples dropped) end /\
    Forall (fun r => readOnly (data r) = false /\ Dictionary_ (data r) = Dictionary_ pd) res.
Proof.
  intros Hs Hm Hr.
  assert (forall req, readOnly (data req) = false -> conserves (data req)
    (if decide (maxSize = 0) then Some ([req], None) else profiles_split maxSize sz req)) as H.
  { intros q Hq. case_decide; [|apply profiles_splitLoop_conserves; [done|pose proof (SampleCount_nonneg (data q)); lia]].
    exists [q], None, []. simpl. rewrite !app_nil_r. split; [done|]. split; [done|]. split; [done|]. by constructor. }
  unfold profiles_MergeSplit. rewrite Hs. destruct r2 as [[req2|items]|]; simpl in Hm.
  - unfold profiles_ItemsCount. destruct (decide (SampleCount (data req2) > 0)); [|by subst; apply H]. destruct Hm as [src Hm]. unfold profiles_mergeTo.
    destruct (profiles_size sz req) as [dst dsize] eqn:E1. destruct (profiles_size sz req2) as [r rsize] eqn:E2.
    apply profiles_size_data in E1, E2. simpl. rewrite E1, E2, Hm. simpl. apply (H (mkRequest pd _) Hr).
  - destruct Hm as [Hn ->]. rewrite decide_False by lia. by apply H.
  - subst. by apply H.
Qed.

(** ** Splitting by samples *)

(** A profile for a sample: what the sizer that counts takes profiles to be. *)
Definition single (pd : Profiles) : Prop := Forall (fun x => samples x = 1) (profiles_items pd).

Lemma single_count pd : single pd -> SampleCount pd = sum_of (ResourceProfilesSize ProfilesCountSizer) (ResourceProfiles_ pd).
Proof.
  intros H. rewrite SampleCount_items.
  assert (sum_of samples (profiles_items pd) = Z.of_nat (length (profiles_items pd))) as ->.
  { induction H as [|x l Hx _ IH]; [done|]. simpl. rewrite Hx, IH. lia. }
  unfold profiles_items. rewrite <- sum_of_length. apply sum_of_ext. intros rp. unfold resource_items. rewrite length_fmap, <- sum_of_length.
  simpl. apply sum_of_ext. intros sp. unfold scope_items. by rewrite length_fmap.
Qed.

Lemma extractScopeProfiles_size src cap src' ext r : extractScopeProfiles ProfilesCountSizer src cap = (src', (ext, r)) ->
  ScopeProfilesSize ProfilesCountSizer src' = ScopeProfilesSize ProfilesCountSizer src - r.
Proof.
  destruct src as [scope ps url]. unfold extractScopeProfiles. destruct (RemoveIf _ _ _) as [x rest] eqn:E. intros [= <- <- <-].
  apply moveOrStop_spec in E as [Hd Hr]. simpl in *. apply (f_equal length) in Hd. rewrite length_app in Hd.
  rewrite (sum_of_const _ _ 1) in Hr by done. lia.
Qed.

Lemma extractScopeProfiles_count src cap src' ext r :
  extractScopeProfiles ProfilesCountSizer src cap = (src', (ext, r)) -> 0 <= cap ->
  r = Z.min cap (ScopeProfilesSize ProfilesCountSizer src).
Proof.
  destruct src as [scope ps url]. unfold extractScopeProfiles. destruct (RemoveIf _ _ _) as [x rest] eqn:E. intros [= <- <- <-] Hc.
  apply moveOrStop_count in E; simpl in *; try done; lia.
Qed.

Lemma ResourceProfilesSize_eq r sps url : ResourceProfilesSize ProfilesCountSizer (mkResourceProfiles r sps url) =
  sum_of (fun sp => DeltaSize ProfilesCountSizer (ScopeProfilesSize ProfilesCountSizer sp)) sps.
Proof. done. Qed.

Lemma extractResourceProfiles_size src cap src' ext r : extractResourceProfiles ProfilesCountSizer src cap = (src', (ext, r)) ->
  ResourceProfilesSize ProfilesCountSizer src' = ResourceProfilesSize ProfilesCountSizer src - r.
Proof.
  destruct src as [rs sps url]. unfold extractResourceProfiles. destruct (RemoveIf _ _ _) as [x rest] eqn:E. intros [= <- <- <-].
  apply moveOrExtract_removed in E; [|done|lia|apply extractScopeProfiles_size].
  cbn [removedSize ResourceProfiles_ScopeProfiles] in E. cbn [set_ScopeProfiles]. rewrite !ResourceProfilesSize_eq. lia.
Qed.

Lemma extractResourceProfiles_count src cap src' ext r :
  extractResourceProfiles ProfilesCountSizer src cap = (src', (ext, r)) -> 0 <= cap ->
  r = Z.min cap (ResourceProfilesSize ProfilesCountSizer src).
Proof.
  destruct src as [rs sps url]. unfold extractResourceProfiles. destruct (RemoveIf _ _ _) as [x rest] eqn:E. intros [= <- <- <-] Hc.
  apply (moveOrExtract_count zeroScopeProfiles _ (ScopeProfilesSize ProfilesCountSizer)) in E; simpl in *; try done; try lia.
  - change (sum_of (ScopeProfilesSize ProfilesCountSizer) sps) with
      (sum_of (fun sp => Z.of_nat (length (ScopeProfiles_Profiles sp))) sps) in E. lia.
  - apply extractScopeProfiles_count.
Qed.

Lemma ResourceProfilesSize_nonneg rp : 0 <= ResourceProfilesSize ProfilesCountSizer rp.
Proof. apply sum_of_nonneg. lia. Qed.

Lemma single_app pd1 pd2 pd : profiles_items pd1 ++ profiles_items pd2 = profiles_items pd -> single pd -> single pd1 /\ single pd2.
Proof. unfold single. intros <-. apply Forall_app. Qed.

(** As many samples are extracted as may be, and the removed size is their number. *)
Lemma extractProfiles_count src cap src' ext r : single src -> 0 <= cap ->
  extractProfiles ProfilesCountSizer src cap = Some (src', (ext, r)) ->
  r = Z.min cap (SampleCount src) /\ SampleCount ext = r /\ SampleCount src' = SampleCount src - r /\ single src'.
Proof.
  intros Hs Hc E. assert (readOnly src = false) as Hr by (unfold extractProfiles in E; by destruct (readOnly src)).
  destruct (extractProfiles_items ProfilesCountSizer src cap Hr) as (s & e & r' & E' & Hi & _).
  rewrite E' in E. injection E as -> -> ->. destruct (single_app _ _ _ Hi Hs) as [He Hs'].
  assert (SampleCount ext + SampleCount src' = SampleCount src) as Hsum by (rewrite !SampleCount_items, <- Hi, sum_of_app; lia).
  pose proof (single_count src Hs) as C1. pose proof (single_count src' Hs') as C2.
  unfold extractProfiles in E'. rewrite Hr in E'. destruct (RemoveIf _ _ _) as [x rest] eqn:Ex.
  change (ProfilesSize ProfilesCountSizer NewProfiles) with 0 in Ex. rewrite Z.sub_0_r in Ex. pose proof Ex as Ex2.
  apply (moveOrExtract_count zeroResourceProfiles _ (ResourceProfilesSize ProfilesCountSizer)) in Ex;
    [|done|lia|apply ResourceProfilesSize_nonneg|apply extractResourceProfiles_count|done].
  apply moveOrExtract_removed in Ex2; [|done|lia|apply extractResourceProfiles_size].
  change (fun a => DeltaSize ProfilesCountSizer (ResourceProfilesSize ProfilesCountSizer a)) with (ResourceProfilesSize ProfilesCountSizer) in Ex2.
  injection E' as <- <- <-. cbn [removedSize capacityLeft] in Ex, Ex2. unfold ResourceProfiles_ at 1 in C2. cbn [orig ExportProfilesServiceRequest_ResourceProfiles] in C2.
  rewrite <- C1 in Ex, Ex2. split; [lia|]. split; [lia|]. split; [lia|done].
Qed.

(** Splitting by samples, when each profile holds one: no error, and pieces of as many
    samples as the limit says, the last one excepted. *)
Theorem profiles_split_by_samples maxSize (req : profilesRequest) :
  0 < maxSize -> readOnly (data req) = false -> single (data req) ->
  cachedSize req = -1 \/ cachedSize req = SampleCount (data req) ->
  exists pieces last, profiles_split maxSize ProfilesCountSizer req = Some (pieces ++ [last], None) /\
    Forall (fun r => SampleCount (data r) = maxSize) pieces /\ SampleCount (data last) <= maxSize.
Proof.
  intros Hm. unfold profiles_split. pose proof (SampleCount_nonneg (data req)).
  assert (SampleCount (data req) < Z.of_nat (S (Z.to_nat (SampleCount (data req))))) as Hf by lia. revert Hf.
  generalize (S (Z.to_nat (SampleCount (data req)))). intros fuel. clear H. revert req.
  induction fuel as [|fuel IH]; intros req Hf Hr Hs Hc; [pose proof (SampleCount_nonneg (data req)); lia|].
  cbn [profiles_splitLoop]. pose proof (SampleCount_nonneg (data req)).
  assert (profiles_size ProfilesCountSizer req = (mkRequest (data req) (SampleCount (data req)), SampleCount (data req))) as ->.
  { unfold profiles_size. destruct req as [pd c]. simpl in *. case_decide; [done|]. by destruct Hc as [->| ->]. }
  case_decide; [|exists [], (mkRequest (data req) (SampleCount (data req))); split; [done|]; split; [done|simpl; lia]].
  cbn [data cachedSize]. destruct (extractProfiles_items ProfilesCountSizer (data req) maxSize Hr) as (src & ext & r & E & Hi & R1 & R2 & _).
  rewrite E. cbn [mbind option_bind]. destruct (extractProfiles_count _ _ _ _ _ Hs (Z.lt_le_incl _ _ Hm) E) as (Hrm & Hext & Hsrc & Hss).
  rewrite decide_False by lia. unfold profiles_size. cbn [data cachedSize]. rewrite decide_False by lia.
  destruct (IH (profiles_setCachedSize (SampleCount (data req) - r) (mkRequest src (SampleCount (data req))))) as (pieces & l & El & Hp & Hl);
    [simpl; lia|done|done|right; simpl; lia|].
  cbn [cachedSize]. rewrite El. simpl. exists (newProfilesRequest ext :: pieces), l. split; [done|]. split; [|done].
  constructor; [simpl; lia|done].
Qed.

(** *** Where it goes wrong *)

Definition profile_of (n : nat) : Profile := set_Samples (replicate n zeroSample) zeroProfile.
Definition request_of (ps : list Profile) (d : ProfilesDictionary) : profilesRequest :=
  newProfilesRequest (mkProfiles (mkExportProfilesServiceRequest
    [mkResourceProfiles zeroResource [mkScopeProfiles zeroInstrumentationScope ps []] []] d) false).

(** The sizer that counts takes a profile for one item whatever its samples: a profile of
    three, with a limit of one, is one piece, larger than the limit; the request is left with
    a size of two and is then asked for more than it holds: an error that drops no item. *)
Lemma samples_exceed_the_limit :
  profiles_MergeSplit 1 SizerTypeItems None (request_of [profile_of 3] zeroProfilesDictionary) =
    Some ([request_of [profile_of 3] zeroProfilesDictionary], Some (errSampleTooLarge 0)).
Proof. vm_compute. reflexivity. Qed.

(** The size of the dictionary is left out of the capacity: with a limit of 60 bytes the
    piece has more than 100, and what is left, the dictionary alone, is still too large. *)
Lemma dictionary_exceeds_the_limit :
  let d := mkProfilesDictionary [] [] [] [] [replicate 100 97] [] [] in
  profiles_MergeSplit 60 SizerTypeBytes None (request_of [profile_of 1] d) =
    Some ([request_of [profile_of 1] d], Some (errSampleTooLarge 0)) /\
  ProfilesSize ProfilesBytesSizer (data (request_of [profile_of 1] d)) > 60.
Proof. split; vm_compute; reflexivity. Qed.

(** *** Witnesses *)

Lemma profiles_MergeSplit_conserves_witness :
  exists res err dropped,
    profiles_MergeSplit 2 SizerTypeItems (Some (inr 0)) (request_of [profile_of 1; profile_of 2; profile_of 0] zeroProfilesDictionary) = Some (res, err) /\
    concat ((fun r => profiles_items (data r)) <$> res) ++ dropped =
      profiles_items (data (request_of [profile_of 1; profile_of 2; profile_of 0] zeroProfilesDictionary)).
Proof.
  destruct (profiles_MergeSplit_conserves 2 SizerTypeItems ProfilesCountSizer (Some (inr 0))
    (request_of [profile_of 1; profile_of 2; profile_of 0] zeroProfilesDictionary)
    (data (request_of [profile_of 1; profile_of 2; profile_of 0] zeroProfilesDictionary))) as (res & err & dr & E & H & _);
    [reflexivity|split; [lia|reflexivity]|reflexivity|].
  exists res, err, dr. exact (conj E H).
Defined.

Lemma profiles_split_by_samples_witness :
  exists pieces last,
    profiles_split 2 ProfilesCountSizer (request_of [profile_of 1; profile_of 1; profile_of 1] zeroProfilesDictionary) =
      Some (pieces ++ [last], None) /\ Forall (fun r => SampleCount (data r) = 2) pieces.
Proof.
  destruct (profiles_split_by_samples 2 (request_of [profile_of 1; profile_of 1; profile_of 1] zeroProfilesDictionary))
    as (pieces & l & E & H & _); [lia|reflexivity| |left; reflexivity|exists pieces, l; exact (conj E H)].
  repeat (apply List.Forall_cons; [reflexivity|]). apply List.Forall_nil.
Defined.
