(* ===== verification/RequestProto.v ===== *)
(** * RequestProto: how a request is kept in a persistent queue

    pdata/internal: SpanContext, IPAddr, TCPAddr, UDPAddr, UnixAddr, RequestContext,
    TracesRequest, LogsRequest, MetricsRequest and ProfilesRequest (generated_proto_*.go);
    pdata/xpdata/request: the context of a request (context.go), its payload
    (traces_request.go, logs_request.go, metrics_request.go, profiles_request.go) and the
    check of its version (version_check.go); client/client.go; and tracesEncoding,
    logsEncoding and metricsEncoding of EH/queuebatch and profilesEncoding of
    EH/xexporterhelper, the encodings the persistent queue is given.

    The code of the four signals differs in the type of the data only: it is written once,
    against the interfaces [Wire] (a message with its wire format) and [Signal] (the data
    of the API around it).

    A context.Context is what the modelled code reads from it: the span context and the
    client information. *)

From S2P Require Import Prelude.
From S2P Require Import GoErrors.
From S2P Require Import PData.
From S2P Require Import Storage.
From S2P Require Import ProtoWire.
From S2P Require Import ProtoMessage.
From S2P Require Import CommonProto.
From S2P Require Import TracesProto.
From S2P Require Import LogsProto.
From S2P Require Import MetricsProto.
From S2P Require Import ProfilesProto.

(** ** SpanContext *)

Record SpanContext := mkSpanContext {
  SpanContext_TraceID : bytes;
  SpanContext_SpanID : bytes;
  SpanContext_TraceFlags : Z;
  SpanContext_TraceState : bytes;
  SpanContext_Remote : bool;
}.

Definition zeroSpanContext : SpanContext := mkSpanContext (emptyID traceIDSize) (emptyID spanIDSize) 0 [] false.

Definition SpanContext_ok (x : SpanContext) : bool :=
  is_ID traceIDSize (SpanContext_TraceID x) &&
  is_ID spanIDSize (SpanContext_SpanID x) &&
  is_u32 (SpanContext_TraceFlags x).

Definition SpanContext_SizeProto (orig : SpanContext) : Z :=
  (1 + lengthPrefixed (TraceID_SizeProto (SpanContext_TraceID orig))) +
  (1 + lengthPrefixed (SpanID_SizeProto (SpanContext_SpanID orig))) +
  size_if (nonzero (SpanContext_TraceFlags orig)) 5 +
  size_if (nonempty (SpanContext_TraceState orig)) (1 + lengthPrefixed (len (SpanContext_TraceState orig))) +
  size_if (SpanContext_Remote orig) 2.

Definition SpanContext_MarshalProto (orig : SpanContext) : bytes -> option (bytes * Z) :=
  marshal (
    (putMessage (TraceID_MarshalProto (SpanContext_TraceID orig)) ;; putByte 0xa) ;;
    (putMessage (SpanID_MarshalProto (SpanContext_SpanID orig)) ;; putByte 0x12) ;;
    when (nonzero (SpanContext_TraceFlags orig)) (putFixed 4 (SpanContext_TraceFlags orig) ;; putByte 0x1d) ;;
    when (nonempty (SpanContext_TraceState orig)) (putString (SpanContext_TraceState orig) ;; putByte 0x22) ;;
    when (SpanContext_Remote orig) (putByte (if SpanContext_Remote orig then 1 else 0) ;; putByte 0x28))%writer.

Definition SpanContext_cases : switch SpanContext := fun orig fieldNum wireType buf pos =>
  let '(mkSpanContext tid sid flags state remote) := orig in
  match fieldNum with
  | 1 => lenCase wireType buf pos (fun s =>
           sets_message (fun id => mkSpanContext id sid flags state remote) (TraceID_UnmarshalProto s))
  | 2 => lenCase wireType buf pos (fun s =>
           sets_message (fun id => mkSpanContext tid id flags state remote) (SpanID_UnmarshalProto s))
  | 3 => i32Case wireType buf pos (fun num => mkSpanContext tid sid num state remote)
  | 4 => lenCase wireType buf pos (fun s => sets (mkSpanContext tid sid flags s remote))
  | 5 => varintCase wireType buf pos (fun num => mkSpanContext tid sid flags state (nonzero num))
  | _ => unknownCase orig wireType buf pos
  end.

Definition SpanContext_UnmarshalProto : bytes -> SpanContext -> option (SpanContext + error) := unmarshal
  SpanContext_cases.

(** ** IPAddr *)

Record IPAddr := mkIPAddr {
  IPAddr_IP : bytes;
  IPAddr_Zone : bytes;
}.

Definition zeroIPAddr : IPAddr := mkIPAddr [] [].

Definition IPAddr_ok (x : IPAddr) : bool :=
  true.

Definition IPAddr_SizeProto (orig : IPAddr) : Z :=
  size_if (nonempty (IPAddr_IP orig)) (1 + lengthPrefixed (len (IPAddr_IP orig))) +
  size_if (nonempty (IPAddr_Zone orig)) (1 + lengthPrefixed (len (IPAddr_Zone orig))).

Definition IPAddr_MarshalProto (orig : IPAddr) : bytes -> option (bytes * Z) :=
  marshal (
    when (nonempty (IPAddr_IP orig)) (putString (IPAddr_IP orig) ;; putByte 0xa) ;;
    when (nonempty (IPAddr_Zone orig)) (putString (IPAddr_Zone orig) ;; putByte 0x12))%writer.

Definition IPAddr_cases : switch IPAddr := fun orig fieldNum wireType buf pos =>
  let '(mkIPAddr ip zone) := orig in
  match fieldNum with
  | 1 => lenCase wireType buf pos (fun s =>
           sets (if decide (len s <> 0) then mkIPAddr s zone else orig))
  | 2 => lenCase wireType buf pos (fun s => sets (mkIPAddr ip s))
  | _ => unknownCase orig wireType buf pos
  end.

Definition IPAddr_UnmarshalProto : bytes -> IPAddr -> option (IPAddr + error) := unmarshal IPAddr_cases.

(** ** TCPAddr *)

Record TCPAddr := mkTCPAddr {
  TCPAddr_IP : bytes;
  TCPAddr_Port : Z;
  TCPAddr_Zone : bytes;
}.

Definition zeroTCPAddr : TCPAddr := mkTCPAddr [] 0 [].

Definition TCPAddr_ok (x : TCPAddr) : bool :=
  is_i64 (TCPAddr_Port x).

Definition TCPAddr_SizeProto (orig : TCPAddr) : Z :=
  size_if (nonempty (TCPAddr_IP orig)) (1 + lengthPrefixed (len (TCPAddr_IP orig))) +
  size_if (nonzero (TCPAddr_Port orig)) (1 + Sov (u64 (TCPAddr_Port orig))) +
  size_if (nonempty (TCPAddr_Zone orig)) (1 + lengthPrefixed (len (TCPAddr_Zone orig))).

Definition TCPAddr_MarshalProto (orig : TCPAddr) : bytes -> option (bytes * Z) :=
  marshal (
    when (nonempty (TCPAddr_IP orig)) (putString (TCPAddr_IP orig) ;; putByte 0xa) ;;
    when (nonzero (TCPAddr_Port orig)) (putVarint (u64 (TCPAddr_Port orig)) ;; putByte 0x10) ;;
    when (nonempty (TCPAddr_Zone orig)) (putString (TCPAddr_Zone orig) ;; putByte 0x1a))%writer.

Definition TCPAddr_cases : switch TCPAddr := fun orig fieldNum wireType buf pos =>
  let '(mkTCPAddr ip port zone) := orig in
  match fieldNum with
  | 1 => lenCase wireType buf pos (fun s =>
           sets (if decide (len s <> 0) then mkTCPAddr s port zone else orig))
  | 2 => varintCase wireType buf pos (fun num => mkTCPAddr ip (i64 num) zone)
  | 3 => lenCase wireType buf pos (fun s => sets (mkTCPAddr ip port s))
  | _ => unknownCase orig wireType buf pos
  end.

Definition TCPAddr_UnmarshalProto : bytes -> TCPAddr -> option (TCPAddr + error) := unmarshal TCPAddr_cases.

(** ** UDPAddr *)

Record UDPAddr := mkUDPAddr {
  UDPAddr_IP : bytes;
  UDPAddr_Port : Z;
  UDPAddr_Zone : bytes;
}.

Definition zeroUDPAddr : UDPAddr := mkUDPAddr [] 0 [].

Definition UDPAddr_ok (x : UDPAddr) : bool :=
  is_i64 (UDPAddr_Port x).

Definition UDPAddr_SizeProto (orig : UDPAddr) : Z :=
  size_if (nonempty (UDPAddr_IP orig)) (1 + lengthPrefixed (len (UDPAddr_IP orig))) +
  size_if (nonzero (UDPAddr_Port orig)) (1 + Sov (u64 (UDPAddr_Port orig))) +
  size_if (nonempty (UDPAddr_Zone orig)) (1 + lengthPrefixed (len (UDPAddr_Zone orig))).

Definition UDPAddr_MarshalProto (orig : UDPAddr) : bytes -> option (bytes * Z) :=
  marshal (
    when (nonempty (UDPAddr_IP orig)) (putString (UDPAddr_IP orig) ;; putByte 0xa) ;;
    when (nonzero (UDPAddr_Port orig)) (putVarint (u64 (UDPAddr_Port orig)) ;; putByte 0x10) ;;
    when (nonempty (UDPAddr_Zone orig)) (putString (UDPAddr_Zone orig) ;; putByte 0x1a))%writer.

Definition UDPAddr_cases : switch UDPAddr := fun orig fieldNum wireType buf pos =>
  let '(mkUDPAddr ip port zone) := orig in
  match fieldNum with
  | 1 => lenCase wireType buf pos (fun s =>
           sets (if decide (len s <> 0) then mkUDPAddr s port zone else orig))
  | 2 => varintCase wireType buf pos (fun num => mkUDPAddr ip (i64 num) zone)
  | 3 => lenCase wireType buf pos (fun s => sets (mkUDPAddr ip port s))
  | _ => unknownCase orig wireType buf pos
  end.

Definition UDPAddr_UnmarshalProto : bytes -> UDPAddr -> option (UDPAddr + error) := unmarshal UDPAddr_cases.

(** ** UnixAddr *)

Record UnixAddr := mkUnixAddr {
  UnixAddr_Name : bytes;
  UnixAddr_Net : bytes;
}.

Definition zeroUnixAddr : UnixAddr := mkUnixAddr [] [].

Definition UnixAddr_ok (x : UnixAddr) : bool :=
  true.

Definition UnixAddr_SizeProto (orig : UnixAddr) : Z :=
  size_if (nonempty (UnixAddr_Name orig)) (1 + lengthPrefixed (len (UnixAddr_Name orig))) +
  size_if (nonempty (UnixAddr_Net orig)) (1 + lengthPrefixed (len (UnixAddr_Net orig))).

Definition UnixAddr_MarshalProto (orig : UnixAddr) : bytes -> option (bytes * Z) :=
  marshal (
    when (nonempty (UnixAddr_Name orig)) (putString (UnixAddr_Name orig) ;; putByte 0xa) ;;
    when (nonempty (UnixAddr_Net orig)) (putString (UnixAddr_Net orig) ;; putByte 0x12))%writer.

Definition UnixAddr_cases : switch UnixAddr := fun orig fieldNum wireType buf pos =>
  let '(mkUnixAddr name net) := orig in
  match fieldNum with
  | 1 => lenCase wireType buf pos (fun s => sets (mkUnixAddr s net))
  | 2 => lenCase wireType buf pos (fun s => sets (mkUnixAddr name s))
  | _ => unknownCase orig wireType buf pos
  end.

Definition UnixAddr_UnmarshalProto : bytes -> UnixAddr -> option (UnixAddr + error) := unmarshal UnixAddr_cases.

(** ** RequestContext *)

Inductive ClientAddress :=
| ClientAddress_nil
| RequestContext_IP (a : option IPAddr)
| RequestContext_TCP (a : option TCPAddr)
| RequestContext_UDP (a : option UDPAddr)
| RequestContext_Unix (a : option UnixAddr).

Record RequestContext := mkRequestContext {
  RequestContext_SpanContext : option SpanContext;
  RequestContext_ClientMetadata : list KeyValue;
  RequestContext_ClientAddress : ClientAddress;
}.

Definition zeroRequestContext : RequestContext := mkRequestContext None [] ClientAddress_nil.

Definition ClientAddress_ok (a : ClientAddress) : bool :=
  match a with
  | ClientAddress_nil => true
  | RequestContext_IP (Some x) => IPAddr_ok x
  | RequestContext_TCP (Some x) => TCPAddr_ok x
  | RequestContext_UDP (Some x) => UDPAddr_ok x
  | RequestContext_Unix (Some x) => UnixAddr_ok x
  | _ => false
  end.

Definition RequestContext_ok (x : RequestContext) : bool :=
  match RequestContext_SpanContext x with Some sc => SpanContext_ok sc | None => true end &&
  forallb KeyValue_ok (RequestContext_ClientMetadata x) &&
  ClientAddress_ok (RequestContext_ClientAddress x).

Definition ClientAddress_SizeProto (a : ClientAddress) : Z :=
  match a with
  | RequestContext_IP (Some x) => 1 + lengthPrefixed (IPAddr_SizeProto x)
  | RequestContext_TCP (Some x) => 1 + lengthPrefixed (TCPAddr_SizeProto x)
  | RequestContext_UDP (Some x) => 1 + lengthPrefixed (UDPAddr_SizeProto x)
  | RequestContext_Unix (Some x) => 1 + lengthPrefixed (UnixAddr_SizeProto x)
  | _ => 0
  end.

Definition RequestContext_SizeProto (orig : RequestContext) : Z :=
  match RequestContext_SpanContext orig with
  | Some sc => 1 + lengthPrefixed (SpanContext_SizeProto sc)
  | None => 0
  end +
  sum_of (fun kv => 1 + lengthPrefixed (KeyValue_SizeProto kv)) (RequestContext_ClientMetadata orig) +
  ClientAddress_SizeProto (RequestContext_ClientAddress orig).

Definition ClientAddress_writer (a : ClientAddress) : writer :=
  match a with
  | RequestContext_IP (Some x) => putMessage (IPAddr_MarshalProto x) ;; putByte 0x1a
  | RequestContext_TCP (Some x) => putMessage (TCPAddr_MarshalProto x) ;; putByte 0x22
  | RequestContext_UDP (Some x) => putMessage (UDPAddr_MarshalProto x) ;; putByte 0x2a
  | RequestContext_Unix (Some x) => putMessage (UnixAddr_MarshalProto x) ;; putByte 0x32
  | _ => nothing
  end%writer.

Definition RequestContext_MarshalProto (orig : RequestContext) : bytes -> option (bytes * Z) :=
  marshal (
    match RequestContext_SpanContext orig with
    | Some sc => putMessage (SpanContext_MarshalProto sc) ;; putByte 0xa
    | None => nothing
    end ;;
    backwards (fun kv => putMessage (KeyValue_MarshalProto kv) ;; putByte 0x12) (RequestContext_ClientMetadata orig) ;;
    ClientAddress_writer (RequestContext_ClientAddress orig))%writer.

Definition RequestContext_cases : switch RequestContext := fun orig fieldNum wireType buf pos =>
  let '(mkRequestContext sc md addr) := orig in
  match fieldNum with
  | 1 => lenCase wireType buf pos (fun s =>
           sets_message (fun x => mkRequestContext (Some x) md addr) (SpanContext_UnmarshalProto s zeroSpanContext))
  | 2 => lenCase wireType buf pos (fun s =>
           sets_message (fun x => mkRequestContext sc (md ++ [x]) addr) (KeyValue_UnmarshalProto s zeroKeyValue))
  | 3 => lenCase wireType buf pos (fun s =>
           sets_message (fun x => mkRequestContext sc md (RequestContext_IP (Some x)))
             (IPAddr_UnmarshalProto s zeroIPAddr))
  | 4 => lenCase wireType buf pos (fun s =>
           sets_message (fun x => mkRequestContext sc md (RequestContext_TCP (Some x)))
             (TCPAddr_UnmarshalProto s zeroTCPAddr))
  | 5 => lenCase wireType buf pos (fun s =>
           sets_message (fun x => mkRequestContext sc md (RequestContext_UDP (Some x)))
             (UDPAddr_UnmarshalProto s zeroUDPAddr))
  | 6 => lenCase wireType buf pos (fun s =>
           sets_message (fun x => mkRequestContext sc md (RequestContext_Unix (Some x)))
             (UnixAddr_UnmarshalProto s zeroUnixAddr))
  | _ => unknownCase orig wireType buf pos
  end.

Definition RequestContext_UnmarshalProto : bytes -> RequestContext -> option (RequestContext + error) :=
  unmarshal RequestContext_cases.

(** ** TracesRequest, LogsRequest, MetricsRequest and ProfilesRequest *)

(** A message and its generated code; [wire_ok] are the values its Go types hold,
    [wire_exact] those that are read back as they were written. *)
Class Wire (T : Type) := {
  wire_zero : T;
  wire_ok : T -> bool;
  wire_exact : T -> bool;
  wire_SizeProto : T -> Z;
  wire_MarshalProto : T -> bytes -> option (bytes * Z);
  wire_UnmarshalProto : bytes -> T -> option (T + error);
}.

#[export] Instance TracesData_wire : Wire TracesData := {|
  wire_zero := zeroTracesData; wire_ok := TracesData_ok; wire_exact := TracesData_ok;
  wire_SizeProto := TracesData_SizeProto; wire_MarshalProto := TracesData_MarshalProto;
  wire_UnmarshalProto := TracesData_UnmarshalProto;
|}.

#[export] Instance LogsData_wire : Wire LogsData := {|
  wire_zero := zeroLogsData; wire_ok := LogsData_ok; wire_exact := LogsData_ok;
  wire_SizeProto := LogsData_SizeProto; wire_MarshalProto := LogsData_MarshalProto;
  wire_UnmarshalProto := LogsData_UnmarshalProto;
|}.

#[export] Instance MetricsData_wire : Wire MetricsData := {|
  wire_zero := zeroMetricsData; wire_ok := MetricsData_ok is_u64; wire_exact := MetricsData_ok plain_double;
  wire_SizeProto := MetricsData_SizeProto; wire_MarshalProto := MetricsData_MarshalProto;
  wire_UnmarshalProto := MetricsData_UnmarshalProto;
|}.

#[export] Instance ProfilesData_wire : Wire ProfilesData := {|
  wire_zero := zeroProfilesData; wire_ok := ProfilesData_ok; wire_exact := ProfilesData_ok;
  wire_SizeProto := ProfilesData_SizeProto; wire_MarshalProto := ProfilesData_MarshalProto;
  wire_UnmarshalProto := ProfilesData_UnmarshalProto;
|}.

Record SignalRequest (T : Type) := mkSignalRequest {
  SignalRequest_RequestContext : option RequestContext;
  SignalRequest_Data : T;
  SignalRequest_FormatVersion : Z;
}.
Arguments mkSignalRequest {T}.
Arguments SignalRequest_RequestContext {T}.
Arguments SignalRequest_Data {T}.
Arguments SignalRequest_FormatVersion {T}.

Section request.
Context {T : Type} `{Wire T}.

Definition zeroSignalRequest : SignalRequest T := mkSignalRequest None wire_zero 0.

Definition SignalRequest_ok (ok : T -> bool) (x : SignalRequest T) : bool :=
  option_ok RequestContext_ok (SignalRequest_RequestContext x) &&
  ok (SignalRequest_Data x) &&
  is_u32 (SignalRequest_FormatVersion x).

Definition SignalRequest_SizeProto (orig : SignalRequest T) : Z :=
  match SignalRequest_RequestContext orig with
  | Some rc => 1 + lengthPrefixed (RequestContext_SizeProto rc)
  | None => 0
  end +
  (1 + lengthPrefixed (wire_SizeProto (SignalRequest_Data orig))) +
  size_if (nonzero (SignalRequest_FormatVersion orig)) 5.

Definition SignalRequest_MarshalProto (orig : SignalRequest T) : bytes -> option (bytes * Z) :=
  marshal (
    match SignalRequest_RequestContext orig with
    | Some rc => putMessage (RequestContext_MarshalProto rc) ;; putByte 0x12
    | None => nothing
    end ;;
    (putMessage (wire_MarshalProto (SignalRequest_Data orig)) ;; putByte 0x1a) ;;
    when (nonzero (SignalRequest_FormatVersion orig))
      (putFixed 4 (SignalRequest_FormatVersion orig) ;; putByte 0xd))%writer.

Definition SignalRequest_cases : switch (SignalRequest T) := fun orig fieldNum wireType buf pos =>
  let '(mkSignalRequest rc td version) := orig in
  match fieldNum with
  | 2 => lenCase wireType buf pos (fun s =>
           sets_message (fun x => mkSignalRequest (Some x) td version)
             (RequestContext_UnmarshalProto s zeroRequestContext))
  | 3 => lenCase wireType buf pos (fun s =>
           sets_message (fun x => mkSignalRequest rc x version) (wire_UnmarshalProto s td))
  | 1 => i32Case wireType buf pos (fun num => mkSignalRequest rc td num)
  | _ => unknownCase orig wireType buf pos
  end.

Definition SignalRequest_UnmarshalProto : bytes -> SignalRequest T -> option (SignalRequest T + error) :=
  unmarshal SignalRequest_cases.
End request.

Definition TracesRequest : Type := SignalRequest TracesData.
Definition TracesRequest_SizeProto : TracesRequest -> Z := SignalRequest_SizeProto.
Definition TracesRequest_MarshalProto : TracesRequest -> bytes -> option (bytes * Z) := SignalRequest_MarshalProto.
Definition TracesRequest_UnmarshalProto : bytes -> TracesRequest -> option (TracesRequest + error) :=
  SignalRequest_UnmarshalProto.

Definition LogsRequest : Type := SignalRequest LogsData.
Definition LogsRequest_SizeProto : LogsRequest -> Z := SignalRequest_SizeProto.
Definition LogsRequest_MarshalProto : LogsRequest -> bytes -> option (bytes * Z) := SignalRequest_MarshalProto.
Definition LogsRequest_UnmarshalProto : bytes -> LogsRequest -> option (LogsRequest + error) :=
  SignalRequest_UnmarshalProto.

Definition MetricsRequest : Type := SignalRequest MetricsData.
Definition MetricsRequest_SizeProto : MetricsRequest -> Z := SignalRequest_SizeProto.
Definition MetricsRequest_MarshalProto : MetricsRequest -> bytes -> option (bytes * Z) := SignalRequest_MarshalProto.
Definition MetricsRequest_UnmarshalProto : bytes -> MetricsRequest -> option (MetricsRequest + error) :=
  SignalRequest_UnmarshalProto.

Definition ProfilesRequest : Type := SignalRequest ProfilesData.
Definition ProfilesRequest_SizeProto : ProfilesRequest -> Z := SignalRequest_SizeProto.
Definition ProfilesRequest_MarshalProto : ProfilesRequest -> bytes -> option (bytes * Z) := SignalRequest_MarshalProto.
Definition ProfilesRequest_UnmarshalProto : bytes -> ProfilesRequest -> option (ProfilesRequest + error) :=
  SignalRequest_UnmarshalProto.

(** ** The data of the API: internal.TracesWrapper, LogsWrapper, MetricsWrapper and ProfilesWrapper

    [signal_ToProto] and [signal_FromProto] change the type around the same slice; the
    others are the marshaler and the unmarshaler of pb.go. *)
Class Signal (E T : Type) := {
  signal_ToProto : E -> T;
  signal_FromProto : T -> E;
  signal_Marshal : E -> option bytes;
  signal_Unmarshal : bytes -> option (E + error);
}.

#[export] Instance traces_signal : Signal ExportTraceServiceRequest TracesData := {|
  signal_ToProto := fun l => mkTracesData (ExportTraceServiceRequest_ResourceSpans l);
  signal_FromProto := fun orig => mkExportTraceServiceRequest (TracesData_ResourceSpans orig);
  signal_Marshal := ProtoMarshaler_MarshalTraces;
  signal_Unmarshal := ProtoUnmarshaler_UnmarshalTraces;
|}.

#[export] Instance logs_signal : Signal ExportLogsServiceRequest LogsData := {|
  signal_ToProto := fun l => mkLogsData (ExportLogsServiceRequest_ResourceLogs l);
  signal_FromProto := fun orig => mkExportLogsServiceRequest (LogsData_ResourceLogs orig);
  signal_Marshal := ProtoMarshaler_MarshalLogs;
  signal_Unmarshal := ProtoUnmarshaler_UnmarshalLogs;
|}.

#[export] Instance metrics_signal : Signal ExportMetricsServiceRequest MetricsData := {|
  signal_ToProto := fun l => mkMetricsData (ExportMetricsServiceRequest_ResourceMetrics l);
  signal_FromProto := fun orig => mkExportMetricsServiceRequest (MetricsData_ResourceMetrics orig);
  signal_Marshal := ProtoMarshaler_MarshalMetrics;
  signal_Unmarshal := ProtoUnmarshaler_UnmarshalMetrics;
|}.

#[export] Instance profiles_signal : Signal ExportProfilesServiceRequest ProfilesData := {|
  signal_ToProto := fun l =>
    mkProfilesData (ExportProfilesServiceRequest_ResourceProfiles l) (ExportProfilesServiceRequest_Dictionary l);
  signal_FromProto := fun orig =>
    mkExportProfilesServiceRequest (ProfilesData_ResourceProfiles orig) (ProfilesData_Dictionary orig);
  signal_Marshal := fun l => fst <$> ProtoMarshaler_MarshalProfiles true l;
  signal_Unmarshal := ProtoUnmarshaler_UnmarshalProfiles;
|}.

(** ** The context *)

(** Code that is not under src: the trace state of OpenTelemetry's API, which trace ids
    and span ids make a valid span context, the data of an authenticator, lower-casing,
    and the order, which the language leaves open, in which a range visits a map. *)
Class RequestEnvironment := {
  TraceState : Type;
  noTraceState : TraceState;
  TraceState_String : TraceState -> bytes;
  ParseTraceState : bytes -> option TraceState;
  validIDs : bytes -> bytes -> bool;
  AuthData : Type;
  ToLower : bytes -> bytes;
  range_map : gmap bytes (list bytes) -> list (bytes * list bytes);
}.

Class RequestEnvironmentLaws `{RequestEnvironment} := {
  ParseTraceState_String ts : ParseTraceState (TraceState_String ts) = Some ts;
  range_map_all m : range_map m ≡ₚ map_to_list m;
}.

Section context.
Context `{RequestEnvironment}.

(** trace.SpanContext *)
Record trace_SpanContext := mkTraceSpanContext {
  trace_TraceID : bytes;
  trace_SpanID : bytes;
  trace_TraceFlags : Z;
  trace_TraceState : TraceState;
  trace_Remote : bool;
}.

Definition noSpanContext : trace_SpanContext :=
  mkTraceSpanContext (emptyID traceIDSize) (emptyID spanIDSize) 0 noTraceState false.

Definition trace_IsValid (sc : trace_SpanContext) : bool := validIDs (trace_TraceID sc) (trace_SpanID sc).

(** net.Addr *)
Inductive net_Addr :=
| net_IPAddr (ip zone : bytes)
| net_TCPAddr (ip : bytes) (port : Z) (zone : bytes)
| net_UDPAddr (ip : bytes) (port : Z) (zone : bytes)
| net_UnixAddr (name net : bytes)
| net_OtherAddr (network text : bytes).

(** client.Info and its Metadata *)
Record Info := mkInfo {
  info_Addr : option net_Addr;
  info_Auth : option AuthData;
  info_Metadata : gmap bytes (list bytes);
}.

Definition zeroInfo : Info := mkInfo None None ∅.

Definition NewMetadata (md : gmap bytes (list bytes)) : gmap bytes (list bytes) :=
  foldl (fun c kv => <[ToLower kv.1 := kv.2]> c) ∅ (range_map md).

Definition Metadata_Keys (data : gmap bytes (list bytes)) : list bytes := (range_map data).*1.

Definition Metadata_Get (data : gmap bytes (list bytes)) (key : bytes) : list bytes :=
  if decide (data = ∅) then [] else default [] (data !! ToLower key).

Record Ctx := mkCtx { ctx_span : trace_SpanContext; ctx_info : option Info }.

Definition Background : Ctx := mkCtx noSpanContext None.
Definition client_FromContext (ctx : Ctx) : Info := default zeroInfo (ctx_info ctx).
Definition client_NewContext (ctx : Ctx) (c : Info) : Ctx := mkCtx (ctx_span ctx) (Some c).
Definition ContextWithSpanContext (ctx : Ctx) (sc : trace_SpanContext) : Ctx := mkCtx sc (ctx_info ctx).

(** *** encodeContext *)

Definition encodeSpanContext (ctx : Ctx) (rc : RequestContext) : RequestContext :=
  let spanCtx := ctx_span ctx in
  if negb (trace_IsValid spanCtx) then rc
  else mkRequestContext
         (Some (mkSpanContext (trace_TraceID spanCtx) (trace_SpanID spanCtx) (u32 (trace_TraceFlags spanCtx))
                  (TraceState_String (trace_TraceState spanCtx)) (trace_Remote spanCtx)))
         (RequestContext_ClientMetadata rc) (RequestContext_ClientAddress rc).

Definition encodeMetadataValue (k : bytes) (vals : list bytes) : KeyValue :=
  match vals with
  | [v] => mkKeyValue (AnyValue_StringValue v) k 0
  | _ => mkKeyValue (AnyValue_ArrayValue (Some (mkArrayValue (AnyValue_StringValue <$> vals)))) k 0
  end.

Definition encodeClientMetadata (ctx : Ctx) (rc : RequestContext) : RequestContext :=
  let clientMetadata := info_Metadata (client_FromContext ctx) in
  mkRequestContext (RequestContext_SpanContext rc)
    (RequestContext_ClientMetadata rc ++
     ((fun k => encodeMetadataValue k (Metadata_Get clientMetadata k)) <$> Metadata_Keys clientMetadata))
    (RequestContext_ClientAddress rc).

Definition encodeClientAddress (ctx : Ctx) (rc : RequestContext) : RequestContext :=
  let set a := mkRequestContext (RequestContext_SpanContext rc) (RequestContext_ClientMetadata rc) a in
  match info_Addr (client_FromContext ctx) with
  | Some (net_IPAddr ip zone) => set (RequestContext_IP (Some (mkIPAddr ip zone)))
  | Some (net_TCPAddr ip port zone) => set (RequestContext_TCP (Some (mkTCPAddr ip (i64 port) zone)))
  | Some (net_UDPAddr ip port zone) => set (RequestContext_UDP (Some (mkUDPAddr ip (i64 port) zone)))
  | Some (net_UnixAddr name net) => set (RequestContext_Unix (Some (mkUnixAddr name net)))
  | _ => rc
  end.

Definition encodeContext (ctx : Ctx) : RequestContext :=
  let rc := zeroRequestContext in
  let rc := encodeSpanContext ctx rc in
  let rc := encodeClientMetadata ctx rc in
  encodeClientAddress ctx rc.

(** *** decodeContext; a nil message in a oneof panics: [None] *)

Definition decodeSpanContext (ctx : Ctx) (sc : option SpanContext) : Ctx :=
  match sc with
  | None => ctx
  | Some sc =>
      let traceState := default noTraceState (ParseTraceState (SpanContext_TraceState sc)) in
      ContextWithSpanContext Background
        (mkTraceSpanContext (SpanContext_TraceID sc) (SpanContext_SpanID sc) (SpanContext_TraceFlags sc mod 2 ^ 8)
           traceState (SpanContext_Remote sc))
  end.

Definition GetStringValue (v : AnyValue) : bytes := match v with AnyValue_StringValue s => s | _ => [] end.

Fixpoint decodeClientMetadata (l : list KeyValue) (metadataMap : gmap bytes (list bytes)) :
    option (gmap bytes (list bytes)) :=
  match l with
  | [] => Some metadataMap
  | kv :: l =>
      match KeyValue_Value kv with
      | AnyValue_StringValue s => decodeClientMetadata l (<[KeyValue_Key kv := [s]]> metadataMap)
      | AnyValue_ArrayValue (Some (mkArrayValue vs)) =>
          decodeClientMetadata l (<[KeyValue_Key kv := GetStringValue <$> vs]> metadataMap)
      | AnyValue_ArrayValue None => None
      | _ => decodeClientMetadata l metadataMap
      end
  end.

Definition decodeClientAddress (a : ClientAddress) : option (option net_Addr) :=
  match a with
  | RequestContext_IP (Some a) => Some (Some (net_IPAddr (IPAddr_IP a) (IPAddr_Zone a)))
  | RequestContext_TCP (Some a) => Some (Some (net_TCPAddr (TCPAddr_IP a) (TCPAddr_Port a) (TCPAddr_Zone a)))
  | RequestContext_UDP (Some a) => Some (Some (net_UDPAddr (UDPAddr_IP a) (UDPAddr_Port a) (UDPAddr_Zone a)))
  | RequestContext_Unix (Some a) => Some (Some (net_UnixAddr (UnixAddr_Name a) (UnixAddr_Net a)))
  | ClientAddress_nil => Some None
  | _ => None
  end.

Definition decodeContext (ctx : Ctx) (rc : option RequestContext) : option Ctx :=
  match rc with
  | None => Some ctx
  | Some rc =>
      let ctx := decodeSpanContext ctx (RequestContext_SpanContext rc) in
      metadataMap ← decodeClientMetadata (RequestContext_ClientMetadata rc) ∅;
      clientAddress ← decodeClientAddress (RequestContext_ClientAddress rc);
      if decide (metadataMap <> ∅ \/ clientAddress <> None) then
        Some (client_NewContext ctx (mkInfo clientAddress None (NewMetadata metadataMap)))
      else Some ctx
  end.

(** ** The payload: version_check.go and traces_request.go, logs_request.go, metrics_request.go *)

Definition protoTag1TypeByte : Z := 0x0D.
Definition requestFormatVersion : Z := 1.
Definition ErrInvalidFormat : error := ErrNew "invalid request payload format".

Definition isRequestPayloadV1 (data : bytes) : bool :=
  if decide (len data < 5) then false
  else if decide (data !! 0%nat <> Some protoTag1TypeByte) then false
  else littleEndian (take 4 (drop 1 data)) =? requestFormatVersion.

Section encoding.
Context {E T : Type} `{Wire T} `{!Signal E T}.

Definition payload (ctx : Ctx) (data : E) : SignalRequest T :=
  mkSignalRequest (Some (encodeContext ctx)) (signal_ToProto data) requestFormatVersion.

Definition MarshalSignal (ctx : Ctx) (data : E) : option bytes :=
  let r := payload ctx data in
  match SignalRequest_MarshalProto r (replicate (Z.to_nat (SignalRequest_SizeProto r)) 0) with
  | Some (buf, _) => Some buf
  | None => None
  end.

(** [failed] is the text of the error that wraps the one of UnmarshalProto. *)
Definition UnmarshalSignal (failed : string) (buf : bytes) : option ((Ctx * E) + error) :=
  if negb (isRequestPayloadV1 buf) then Some (inr ErrInvalidFormat)
  else match SignalRequest_UnmarshalProto buf zeroSignalRequest with
       | Some (inl r) =>
           ctx ← decodeContext Background (SignalRequest_RequestContext r);
           Some (inl (ctx, signal_FromProto (SignalRequest_Data r)))
       | Some (inr err) => Some (inr (ErrWrap failed err))
       | None => None
       end.

(** The encoding of a queue: a payload without a version is read as the data alone. *)
Definition encoding_Unmarshal (failed : string) (buf : bytes) : option ((Ctx * E) + error) :=
  match UnmarshalSignal failed buf with
  | Some (inr err) =>
      if errors_Is err ErrInvalidFormat then
        match signal_Unmarshal buf with
        | Some (inl data) => Some (inl (Background, data))
        | Some (inr err) => Some (inr err)
        | None => None
        end
      else Some (inr err)
  | r => r
  end.
End encoding.

Definition MarshalTraces : Ctx -> ExportTraceServiceRequest -> option bytes := MarshalSignal.
Definition UnmarshalTraces : bytes -> option ((Ctx * ExportTraceServiceRequest) + error) :=
  UnmarshalSignal "failed to unmarshal traces request: ".
Definition tracesEncoding_Marshal : Ctx -> ExportTraceServiceRequest -> option bytes := MarshalTraces.
Definition tracesEncoding_Unmarshal : bytes -> option ((Ctx * ExportTraceServiceRequest) + error) :=
  encoding_Unmarshal "failed to unmarshal traces request: ".

Definition MarshalLogs : Ctx -> ExportLogsServiceRequest -> option bytes := MarshalSignal.
Definition UnmarshalLogs : bytes -> option ((Ctx * ExportLogsServiceRequest) + error) :=
  UnmarshalSignal "failed to unmarshal logs request: ".
Definition logsEncoding_Marshal : Ctx -> ExportLogsServiceRequest -> option bytes := MarshalLogs.
Definition logsEncoding_Unmarshal : bytes -> option ((Ctx * ExportLogsServiceRequest) + error) :=
  encoding_Unmarshal "failed to unmarshal logs request: ".

Definition MarshalMetrics : Ctx -> ExportMetricsServiceRequest -> option bytes := MarshalSignal.
Definition UnmarshalMetrics : bytes -> option ((Ctx * ExportMetricsServiceRequest) + error) :=
  UnmarshalSignal "failed to unmarshal metrics request: ".
Definition metricsEncoding_Marshal : Ctx -> ExportMetricsServiceRequest -> option bytes := MarshalMetrics.
Definition metricsEncoding_Unmarshal : bytes -> option ((Ctx * ExportMetricsServiceRequest) + error) :=
  encoding_Unmarshal "failed to unmarshal metrics request: ".

Definition MarshalProfiles : Ctx -> ExportProfilesServiceRequest -> option bytes := MarshalSignal.
Definition UnmarshalProfiles : bytes -> option ((Ctx * ExportProfilesServiceRequest) + error) :=
  UnmarshalSignal "failed to unmarshal profiles request: ".
Definition profilesEncoding_Marshal : Ctx -> ExportProfilesServiceRequest -> option bytes := MarshalProfiles.
Definition profilesEncoding_Unmarshal : bytes -> option ((Ctx * ExportProfilesServiceRequest) + error) :=
  encoding_Unmarshal "failed to unmarshal profiles request: ".
End context.
