(* ===== verification/RequestProtoProofs.v ===== *)
(** * RequestProtoProofs: what the persistent queue stores is what it gives back

    The payload of a request round-trips with its context, is recognised by its version,
    and a payload of an older version is read as well; reading is safe on any bytes. *)

From S2P Require Import Prelude.
From S2P Require Import GoErrors.
From S2P Require Import PData.
From S2P Require Import Storage.
From S2P Require Import ProtoWire.
From S2P Require Import ProtoMessage.
From S2P Require Import ProtoMessageProofs.
From S2P Require Import CommonProto.
From S2P Require Import CommonProtoProofs.
From S2P Require Import TracesProto.
From S2P Require Import TracesProtoProofs.
From S2P Require Import LogsProto.
From S2P Require Import LogsProtoProofs.
From S2P Require Import MetricsProto.
From S2P Require Import MetricsProtoProofs.
From S2P Require Import ProfilesProto.
From S2P Require Import ProfilesProtoProofs.
From S2P Require Import RequestProto.

(** ** SpanContext *)

Lemma SpanContext_codec x : SpanContext_ok x = true ->
  codec (SpanContext_MarshalProto x) (SpanContext_SizeProto x) (fun s => SpanContext_UnmarshalProto s
    zeroSpanContext) x.
Proof.
  destruct x as [tid sid flags state remote]. intros Hok. unfold SpanContext_ok in Hok. cbn in Hok.
  rewrite ?andb_true_iff in Hok. destruct_and?. eapply carries_codec.
  - fields 4%nat.
    + apply (carries_opt_bool _ 0x28 remote (fun v => mkSpanContext (emptyID traceIDSize) (emptyID spanIDSize) 0 []
      v)); [lia|reflexivity].
    + apply (carries_opt_string _ 0x22 state (fun v => mkSpanContext (emptyID traceIDSize) (emptyID spanIDSize) 0 v
      remote)); [lia|reflexivity].
    + apply (carries_opt_i32 _ 0x1d flags (fun v => mkSpanContext (emptyID traceIDSize) (emptyID spanIDSize) v
      state remote)); [lia|reflexivity|done].
    + eapply (carries_sub _ 0x12 _ _ _ _ sid (fun v => mkSpanContext (emptyID traceIDSize) v flags state remote));
      [lia|reflexivity|reflexivity|by apply SpanID_codec].
    + eapply (carries_sub _ 0xa _ _ _ _ tid (fun v => mkSpanContext v sid flags state remote));
      [lia|reflexivity|reflexivity|by apply TraceID_codec].
  - unfold SpanContext_SizeProto. cbn -[lengthPrefixed size_if]. lia.
Qed.

Lemma SpanContext_list_codec l : forallb SpanContext_ok l = true ->
  Forall (fun x => codec (SpanContext_MarshalProto x) (SpanContext_SizeProto x) (fun s =>
    SpanContext_UnmarshalProto s zeroSpanContext) x) l.
Proof. apply Forall_ok, Forall_true, SpanContext_codec. Qed.

Lemma zeroSpanContext_ok : is_ok SpanContext_ok zeroSpanContext.
Proof. done. Qed.

Lemma SpanContext_UnmarshalProto_ok s x : bytes_ok s -> len s < 2 ^ 63 -> is_ok SpanContext_ok x ->
  outcome_ok (is_ok SpanContext_ok) (SpanContext_UnmarshalProto s x).
Proof.
  intros Hs Hl Hx. apply unmarshal_ok; [|done|done|done]. clear x Hx.
  intros [tid sid flags state remote] f wt buf pos Hv Hb1 Hb2 Hn Hp.
  unfold SpanContext_cases. each_case f; ranges Hv SpanContext_ok; case_value SpanContext_ok.
Qed.

#[export] Hint Resolve zeroSpanContext_ok SpanContext_UnmarshalProto_ok : codec.

(** ** IPAddr *)

Lemma IPAddr_codec x : IPAddr_ok x = true ->
  codec (IPAddr_MarshalProto x) (IPAddr_SizeProto x) (fun s => IPAddr_UnmarshalProto s zeroIPAddr) x.
Proof.
  destruct x as [ip zone]. intros Hok. unfold IPAddr_ok in Hok. cbn in Hok.
  rewrite ?andb_true_iff in Hok. destruct_and?. eapply carries_codec.
  - fields 1%nat.
    + apply (carries_opt_string _ 0x12 zone (fun v => mkIPAddr [] v)); [lia|reflexivity].
    + apply (carries_opt_bytes _ 0xa ip (fun v => mkIPAddr v zone)); [lia|reflexivity].
  - unfold IPAddr_SizeProto. cbn -[lengthPrefixed size_if]. lia.
Qed.

Lemma IPAddr_list_codec l : forallb IPAddr_ok l = true ->
  Forall (fun x => codec (IPAddr_MarshalProto x) (IPAddr_SizeProto x) (fun s => IPAddr_UnmarshalProto s zeroIPAddr)
    x) l.
Proof. apply Forall_ok, Forall_true, IPAddr_codec. Qed.

Lemma zeroIPAddr_ok : is_ok IPAddr_ok zeroIPAddr.
Proof. done. Qed.

Lemma IPAddr_UnmarshalProto_ok s x : bytes_ok s -> len s < 2 ^ 63 -> is_ok IPAddr_ok x ->
  outcome_ok (is_ok IPAddr_ok) (IPAddr_UnmarshalProto s x).
Proof.
  intros Hs Hl Hx. apply unmarshal_ok; [|done|done|done]. clear x Hx.
  intros [ip zone] f wt buf pos Hv Hb1 Hb2 Hn Hp.
  unfold IPAddr_cases. each_case f; ranges Hv IPAddr_ok; case_value IPAddr_ok.
Qed.

#[export] Hint Resolve zeroIPAddr_ok IPAddr_UnmarshalProto_ok : codec.

(** ** TCPAddr *)

Lemma TCPAddr_codec x : TCPAddr_ok x = true ->
  codec (TCPAddr_MarshalProto x) (TCPAddr_SizeProto x) (fun s => TCPAddr_UnmarshalProto s zeroTCPAddr) x.
Proof.
  destruct x as [ip port zone]. intros Hok. unfold TCPAddr_ok in Hok. cbn in Hok.
  rewrite ?andb_true_iff in Hok. destruct_and?. eapply carries_codec.
  - fields 2%nat.
    + apply (carries_opt_string _ 0x1a zone (fun v => mkTCPAddr [] 0 v)); [lia|reflexivity].
    + apply (carries_opt_varint _ 0x10 port i64 (fun v => mkTCPAddr [] v zone)); [lia|reflexivity|by apply i64_u64].
    + apply (carries_opt_bytes _ 0xa ip (fun v => mkTCPAddr v port zone)); [lia|reflexivity].
  - unfold TCPAddr_SizeProto. cbn -[lengthPrefixed size_if]. lia.
Qed.

Lemma TCPAddr_list_codec l : forallb TCPAddr_ok l = true ->
  Forall (fun x => codec (TCPAddr_MarshalProto x) (TCPAddr_SizeProto x) (fun s => TCPAddr_UnmarshalProto s
    zeroTCPAddr) x) l.
Proof. apply Forall_ok, Forall_true, TCPAddr_codec. Qed.

Lemma zeroTCPAddr_ok : is_ok TCPAddr_ok zeroTCPAddr.
Proof. done. Qed.

Lemma TCPAddr_UnmarshalProto_ok s x : bytes_ok s -> len s < 2 ^ 63 -> is_ok TCPAddr_ok x ->
  outcome_ok (is_ok TCPAddr_ok) (TCPAddr_UnmarshalProto s x).
Proof.
  intros Hs Hl Hx. apply unmarshal_ok; [|done|done|done]. clear x Hx.
  intros [ip port zone] f wt buf pos Hv Hb1 Hb2 Hn Hp.
  unfold TCPAddr_cases. each_case f; ranges Hv TCPAddr_ok; case_value TCPAddr_ok.
Qed.

#[export] Hint Resolve zeroTCPAddr_ok TCPAddr_UnmarshalProto_ok : codec.

(** ** UDPAddr *)

Lemma UDPAddr_codec x : UDPAddr_ok x = true ->
  codec (UDPAddr_MarshalProto x) (UDPAddr_SizeProto x) (fun s => UDPAddr_UnmarshalProto s zeroUDPAddr) x.
Proof.
  destruct x as [ip port zone]. intros Hok. unfold UDPAddr_ok in Hok. cbn in Hok.
  rewrite ?andb_true_iff in Hok. destruct_and?. eapply carries_codec.
  - fields 2%nat.
    + apply (carries_opt_string _ 0x1a zone (fun v => mkUDPAddr [] 0 v)); [lia|reflexivity].
    + apply (carries_opt_varint _ 0x10 port i64 (fun v => mkUDPAddr [] v zone)); [lia|reflexivity|by apply i64_u64].
    + apply (carries_opt_bytes _ 0xa ip (fun v => mkUDPAddr v port zone)); [lia|reflexivity].
  - unfold UDPAddr_SizeProto. cbn -[lengthPrefixed size_if]. lia.
Qed.

Lemma UDPAddr_list_codec l : forallb UDPAddr_ok l = true ->
  Forall (fun x => codec (UDPAddr_MarshalProto x) (UDPAddr_SizeProto x) (fun s => UDPAddr_UnmarshalProto s
    zeroUDPAddr) x) l.
Proof. apply Forall_ok, Forall_true, UDPAddr_codec. Qed.

Lemma zeroUDPAddr_ok : is_ok UDPAddr_ok zeroUDPAddr.
Proof. done. Qed.

Lemma UDPAddr_UnmarshalProto_ok s x : bytes_ok s -> len s < 2 ^ 63 -> is_ok UDPAddr_ok x ->
  outcome_ok (is_ok UDPAddr_ok) (UDPAddr_UnmarshalProto s x).
Proof.
  intros Hs Hl Hx. apply unmarshal_ok; [|done|done|done]. clear x Hx.
  intros [ip port zone] f wt buf pos Hv Hb1 Hb2 Hn Hp.
  unfold UDPAddr_cases. each_case f; ranges Hv UDPAddr_ok; case_value UDPAddr_ok.
Qed.

#[export] Hint Resolve zeroUDPAddr_ok UDPAddr_UnmarshalProto_ok : codec.

(** ** UnixAddr *)

Lemma UnixAddr_codec x : UnixAddr_ok x = true ->
  codec (UnixAddr_MarshalProto x) (UnixAddr_SizeProto x) (fun s => UnixAddr_UnmarshalProto s zeroUnixAddr) x.
Proof.
  destruct x as [name net]. intros Hok. unfold UnixAddr_ok in Hok. cbn in Hok.
  rewrite ?andb_true_iff in Hok. destruct_and?. eapply carries_codec.
  - fields 1%nat.
    + apply (carries_opt_string _ 0x12 net (fun v => mkUnixAddr [] v)); [lia|reflexivity].
    + apply (carries_opt_string _ 0xa name (fun v => mkUnixAddr v net)); [lia|reflexivity].
  - unfold UnixAddr_SizeProto. cbn -[lengthPrefixed size_if]. lia.
Qed.

Lemma UnixAddr_list_codec l : forallb UnixAddr_ok l = true ->
  Forall (fun x => codec (UnixAddr_MarshalProto x) (UnixAddr_SizeProto x) (fun s => UnixAddr_UnmarshalProto s
    zeroUnixAddr) x) l.
Proof. apply Forall_ok, Forall_true, UnixAddr_codec. Qed.

Lemma zeroUnixAddr_ok : is_ok UnixAddr_ok zeroUnixAddr.
Proof. done. Qed.

Lemma UnixAddr_UnmarshalProto_ok s x : bytes_ok s -> len s < 2 ^ 63 -> is_ok UnixAddr_ok x ->
  outcome_ok (is_ok UnixAddr_ok) (UnixAddr_UnmarshalProto s x).
Proof.
  intros Hs Hl Hx. apply unmarshal_ok; [|done|done|done]. clear x Hx.
  intros [name net] f wt buf pos Hv Hb1 Hb2 Hn Hp.
  unfold UnixAddr_cases. each_case f; ranges Hv UnixAddr_ok; case_value UnixAddr_ok.
Qed.

#[export] Hint Resolve zeroUnixAddr_ok UnixAddr_UnmarshalProto_ok : codec.

(** ** RequestContext *)

Lemma ClientAddress_carries a : ClientAddress_ok a = true ->
  carries RequestContext_cases (ClientAddress_writer a) (ClientAddress_SizeProto a) zeroRequestContext
    (mkRequestContext None [] a).
Proof.
  destruct a as [|[x|]|[x|]|[x|]|[x|]]; intros Hok; simpl in Hok; try done; [apply carries_nothing|..].
  - eapply (carries_message _ 0x1a _ _ _ x); [lia|reflexivity|by apply IPAddr_codec|reflexivity|done].
  - eapply (carries_message _ 0x22 _ _ _ x); [lia|reflexivity|by apply TCPAddr_codec|reflexivity|done].
  - eapply (carries_message _ 0x2a _ _ _ x); [lia|reflexivity|by apply UDPAddr_codec|reflexivity|done].
  - eapply (carries_message _ 0x32 _ _ _ x); [lia|reflexivity|by apply UnixAddr_codec|reflexivity|done].
Qed.

Lemma RequestContext_codec x : RequestContext_ok x = true ->
  codec (RequestContext_MarshalProto x) (RequestContext_SizeProto x)
    (fun s => RequestContext_UnmarshalProto s zeroRequestContext) x.
Proof.
  destruct x as [sc md addr]. intros [[Hsc Hmd]%andb_true_iff Ha]%andb_true_iff. cbn in *. eapply carries_codec.
  - fields 2%nat.
    + by apply ClientAddress_carries.
    + eapply (carries_messages _ 0x12 KeyValue_MarshalProto KeyValue_SizeProto _ (fun l => mkRequestContext None l addr));
        [lia|reflexivity|reflexivity|by apply KeyValues_codec].
    + eapply (carries_ptr _ 0xa SpanContext_MarshalProto SpanContext_SizeProto _ sc (fun x => mkRequestContext x md addr));
        [lia|reflexivity|reflexivity|]. intros y ->. by apply SpanContext_codec.
  - unfold RequestContext_SizeProto. cbn -[lengthPrefixed]. lia.
Qed.

Lemma RequestContext_UnmarshalProto_ok s x : bytes_ok s -> len s < 2 ^ 63 -> is_ok RequestContext_ok x ->
  outcome_ok (is_ok RequestContext_ok) (RequestContext_UnmarshalProto s x).
Proof.
  intros Hs Hl Hx. apply unmarshal_ok; [|done|done|done]. clear x Hx.
  intros [sc md addr] f wt buf pos Hv Hb1 Hb2 Hn Hp.
  unfold RequestContext_cases. each_case f; ranges Hv RequestContext_ok; case_value RequestContext_ok.
Qed.

#[export] Hint Resolve RequestContext_UnmarshalProto_ok : codec.

(** ** The messages of a signal, and what their files prove of them *)

Class WireLaws (T : Type) `{Wire T} := {
  wire_codec x : wire_exact x = true ->
    codec (wire_MarshalProto x) (wire_SizeProto x) (fun s => wire_UnmarshalProto s wire_zero) x;
  wire_zero_is_ok : is_ok wire_ok wire_zero;
  wire_reads s x : bytes_ok s -> len s < 2 ^ 63 -> is_ok wire_ok x ->
    outcome_ok (is_ok wire_ok) (wire_UnmarshalProto s x);
}.

#[export] Instance TracesData_laws : WireLaws TracesData.
Proof. split; [exact TracesData_codec|exact zeroTracesData_ok|exact TracesData_UnmarshalProto_ok]. Qed.

#[export] Instance LogsData_laws : WireLaws LogsData.
Proof. split; [exact LogsData_codec|exact zeroLogsData_ok|exact LogsData_UnmarshalProto_ok]. Qed.

#[export] Instance MetricsData_laws : WireLaws MetricsData.
Proof. split; [exact MetricsData_codec|exact zeroMetricsData_ok|exact MetricsData_UnmarshalProto_ok]. Qed.

#[export] Instance ProfilesData_laws : WireLaws ProfilesData.
Proof. split; [exact ProfilesData_codec|exact zeroProfilesData_ok|exact ProfilesData_UnmarshalProto_ok]. Qed.

(** What the data around a message promises: nothing is lost in it, and the unmarshaler of
    pb.go is safe. *)
Class SignalData (E T : Type) `{Wire T} `{!Signal E T} := {
  signal_from_to e : signal_FromProto (signal_ToProto e) = e;
  signal_to_from t : signal_ToProto (signal_FromProto t) = t;
  signal_reads buf : bytes_ok buf -> len buf < 2 ^ 63 ->
    outcome_ok (fun e => wire_ok (signal_ToProto e) = true) (signal_Unmarshal buf);
}.

(** What the marshaler and the unmarshaler of pb.go promise, but for profiles, whose strings
    they change: a round trip, and an encoding that does not start like a payload with a
    version. *)
Class SignalLaws (E T : Type) `{SignalData E T} := {
  signal_written e : wire_exact (signal_ToProto e) = true -> wire_SizeProto (signal_ToProto e) < 2 ^ 63 ->
    exists buf, signal_Marshal e = Some buf /\ (buf = [] \/ exists rest, buf = 0xa :: rest) /\
      signal_Unmarshal buf = Some (inl e);
}.

#[export] Instance traces_signal_data : SignalData ExportTraceServiceRequest TracesData.
Proof.
  split; [by intros []|by intros []|].
  intros buf Hb Hl. exact (ExportTraceServiceRequest_UnmarshalProto_ok buf _ Hb Hl zeroExportTraceServiceRequest_ok).
Qed.

#[export] Instance traces_signal_laws : SignalLaws ExportTraceServiceRequest TracesData.
Proof.
  split. intros e Hok Hs. destruct (MarshalTraces_carries e [] Hok Hs) as (buf & M & [L _] & R). exists buf.
    split; [exact M|split; [by apply (MarshalTraces_head e)|]]. apply reads_unmarshal in R; [by destruct e|].
    rewrite L. exact Hs.
Qed.

#[export] Instance logs_signal_data : SignalData ExportLogsServiceRequest LogsData.
Proof.
  split; [by intros []|by intros []|].
  intros buf Hb Hl. exact (ExportLogsServiceRequest_UnmarshalProto_ok buf _ Hb Hl zeroExportLogsServiceRequest_ok).
Qed.

#[export] Instance logs_signal_laws : SignalLaws ExportLogsServiceRequest LogsData.
Proof.
  split. intros e Hok Hs. destruct (MarshalLogs_carries e [] Hok Hs) as (buf & M & [L _] & R). exists buf.
    split; [exact M|split; [by apply (MarshalLogs_head e)|]]. apply reads_unmarshal in R; [by destruct e|].
    rewrite L. exact Hs.
Qed.

#[export] Instance metrics_signal_data : SignalData ExportMetricsServiceRequest MetricsData.
Proof.
  split; [by intros []|by intros []|].
  intros buf Hb Hl. exact (ExportMetricsServiceRequest_UnmarshalProto_ok buf _ Hb Hl zeroExportMetricsServiceRequest_ok).
Qed.

#[export] Instance metrics_signal_laws : SignalLaws ExportMetricsServiceRequest MetricsData.
Proof.
  split. intros e Hok Hs. destruct (MarshalMetrics_carries e [] Hok Hs) as (buf & M & [L _] & R). exists buf.
    split; [exact M|split; [by apply (MarshalMetrics_head e)|]]. apply reads_unmarshal in R; [by destruct e|].
    rewrite L. exact Hs.
Qed.

#[export] Instance profiles_signal_data : SignalData ExportProfilesServiceRequest ProfilesData.
Proof.
  split; [by intros []|by intros []|].
  intros buf Hb Hl. destruct (UnmarshalProfiles_ok buf Hb Hl) as (r & E & Hr). exists r. split; [exact E|].
  intros [] ->. exact (Hr _ eq_refl).
Qed.

(** ** TracesRequest, LogsRequest and MetricsRequest *)

Section request.
Context {T : Type} `{WireLaws T}.

(** The payload starts with the version. *)
Lemma SignalRequest_written (x : SignalRequest T) :
  SignalRequest_ok wire_exact x = true -> SignalRequest_FormatVersion x <> 0 ->
  exists rest,
    let bs := [0xd] ++ to_littleEndian 4 (SignalRequest_FormatVersion x) ++ rest in
    marshals (SignalRequest_MarshalProto x) (SignalRequest_SizeProto x) bs /\
    (len bs < 2 ^ 63 -> SignalRequest_UnmarshalProto bs zeroSignalRequest = Some (inl x)).
Proof.
  destruct x as [rc td version]. intros [[Hrc Htd]%andb_true_iff Hv]%andb_true_iff Hnz.
  cbn [SignalRequest_RequestContext SignalRequest_Data SignalRequest_FormatVersion] in *.
  assert (nonzero version = true) as Enz by (unfold nonzero; rewrite negb_true_iff; by apply Z.eqb_neq).
  destruct (carries_sub SignalRequest_cases 0x1a (wire_MarshalProto td) (wire_SizeProto td)
    (fun s => wire_UnmarshalProto s wire_zero) wire_zero td (fun x => mkSignalRequest None x version)
    (fun s => sets_message (fun x => mkSignalRequest None x version) (wire_UnmarshalProto s wire_zero)))
    as (b2 & E2 & R2); [lia|reflexivity|reflexivity|by apply wire_codec|].
  destruct (carries_ptr SignalRequest_cases 0x12 RequestContext_MarshalProto RequestContext_SizeProto
    (fun s => RequestContext_UnmarshalProto s zeroRequestContext) rc (fun x => mkSignalRequest x td version)
    (fun s => sets_message (fun x => mkSignalRequest (Some x) td version)
                (RequestContext_UnmarshalProto s zeroRequestContext)))
    as (b3 & E3 & R3); [lia|reflexivity|reflexivity|intros y ->; by apply RequestContext_codec|].
  assert (reads SignalRequest_cases ([0xd] ++ to_littleEndian 4 version) zeroSignalRequest
            (mkSignalRequest None wire_zero version)) as R1.
  { apply (reads_field _ 0xd 1 WireTypeI32); [lia|reflexivity|reflexivity|lia|].
    eapply parses_i32; [reflexivity|by apply in_range_iff]. }
  exists (b2 ++ b3). cbv zeta.
  replace ([0xd] ++ to_littleEndian 4 version ++ b2 ++ b3) with ((([0xd] ++ to_littleEndian 4 version) ++ b2) ++ b3)
    by (by rewrite <- !app_assoc).
  split.
  - unfold SignalRequest_SizeProto, SignalRequest_MarshalProto.
    cbn [SignalRequest_RequestContext SignalRequest_Data SignalRequest_FormatVersion].
    rewrite Enz. cbn [size_if when].
    rewrite <- Z.add_assoc. apply emits_marshals, (emits_then _ _ _ _ b3 (([0xd] ++ to_littleEndian 4 version) ++ b2) E3).
    apply (emits_then _ _ _ 5 b2 ([0xd] ++ to_littleEndian 4 version) E2).
    apply (emits_then _ _ 4 1 (to_littleEndian 4 version) [0xd] (emits_fixed 4 version) (emits_byte 0xd)).
  - intros Hb. unfold SignalRequest_UnmarshalProto. apply reads_unmarshal; [|exact Hb].
    apply (reads_append _ _ _ _ _ _ (reads_append _ _ _ _ _ _ R1 R2) R3).
Qed.

Lemma SignalRequest_UnmarshalProto_ok s (x : SignalRequest T) :
  bytes_ok s -> len s < 2 ^ 63 -> is_ok (SignalRequest_ok wire_ok) x ->
  outcome_ok (is_ok (SignalRequest_ok wire_ok)) (SignalRequest_UnmarshalProto s x).
Proof.
  intros Hs Hl Hx. apply unmarshal_ok; [|done|done|done]. clear x Hx.
  intros [rc td version] f wt buf pos Hv Hb1 Hb2 Hn Hp. pose proof wire_reads as W.
  unfold SignalRequest_cases. each_case f; ranges Hv (@SignalRequest_ok); case_value (@SignalRequest_ok).
Qed.
End request.

(** ** The context *)

Section context.
Context `{RequestEnvironment} `{!RequestEnvironmentLaws}.

(** The values the Go types hold, and metadata as NewMetadata makes it. *)
Definition addr_ok (a : net_Addr) : bool :=
  match a with net_TCPAddr _ port _ | net_UDPAddr _ port _ => is_i64 port | _ => true end.

Record ctx_ok (ctx : Ctx) : Prop := {
  ctx_TraceID : is_ID traceIDSize (trace_TraceID (ctx_span ctx)) = true;
  ctx_SpanID : is_ID spanIDSize (trace_SpanID (ctx_span ctx)) = true;
  ctx_TraceFlags : 0 <= trace_TraceFlags (ctx_span ctx) < 2 ^ 8;
  ctx_addr a : info_Addr (client_FromContext ctx) = Some a -> addr_ok a = true;
  ctx_lower k vals : info_Metadata (client_FromContext ctx) !! k = Some vals -> ToLower k = k;
}.

(** What the payload keeps of a context: a valid span context, an address of a known kind
    and the metadata; the data of the authenticator is not part of it. *)
Definition known_addr (a : option net_Addr) : option net_Addr :=
  match a with Some (net_OtherAddr _ _) => None | _ => a end.
Definition kept_span (sc : trace_SpanContext) : trace_SpanContext := if trace_IsValid sc then sc else noSpanContext.
Definition kept_info (i : Info) : Info := mkInfo (known_addr (info_Addr i)) None (info_Metadata i).

Lemma foldl_inserts {A : Type} (md m0 : gmap bytes (list bytes)) (g : A -> bytes * list bytes) l k :
  (forall a, a ∈ l -> md !! (g a).1 = Some (g a).2) ->
  foldl (fun m a => <[(g a).1 := (g a).2]> m) m0 l !! k =
    if decide (k ∈ ((fun a => (g a).1) <$> l)) then md !! k else m0 !! k.
Proof.
  revert m0. induction l as [|a l IH]; intros m0 Hg; cbn [foldl]; [by rewrite decide_False by (apply not_elem_of_nil)|].
  rewrite IH by (intros; apply Hg; by right). rewrite fmap_cons. specialize (Hg a ltac:(by left)).
  destruct (decide (k = (g a).1)) as [->|Hk].
  - rewrite (decide_True _ _ (P := (g a).1 ∈ (g a).1 :: _)) by (by left). case_decide; [done|].
    by rewrite lookup_insert_eq.
  - rewrite lookup_insert_ne by done. do 2 case_decide; try done; set_solver.
Qed.

Lemma NewMetadata_lower md : (forall k vals, md !! k = Some vals -> ToLower k = k) -> NewMetadata md = md.
Proof.
  intros Hl. unfold NewMetadata. apply map_eq. intros k.
  etrans; [apply (foldl_inserts md ∅ (fun kv => (ToLower kv.1, kv.2)))|].
  - intros [k' vals]. rewrite range_map_all. intros Hv%elem_of_map_to_list. simpl. by rewrite (Hl k' vals Hv).
  - cbn. case_decide as Hk; [done|]. rewrite lookup_empty. symmetry. apply eq_None_not_Some. intros [vals Hv]. apply Hk.
    apply list_elem_of_fmap. exists (k, vals). split; [cbn; by rewrite (Hl k vals Hv)|].
    rewrite range_map_all. by apply elem_of_map_to_list.
Qed.

Lemma decode_encoded k vals l m :
  decodeClientMetadata (encodeMetadataValue k vals :: l) m = decodeClientMetadata l (<[k := vals]> m).
Proof.
  destruct vals as [|v [|v' vals]]; [done|done|]. simpl. do 4 f_equal. rewrite <- list_fmap_compose.
  by apply list_fmap_id.
Qed.

Lemma decode_metadata (md : gmap bytes (list bytes)) :
  (forall k vals, md !! k = Some vals -> ToLower k = k) ->
  decodeClientMetadata ((fun k => encodeMetadataValue k (Metadata_Get md k)) <$> Metadata_Keys md) ∅ = Some md.
Proof.
  intros Hl.
  assert (forall ks m, decodeClientMetadata ((fun k => encodeMetadataValue k (Metadata_Get md k)) <$> ks) m =
            Some (foldl (fun m k => <[k := Metadata_Get md k]> m) m ks)) as E.
  { induction ks as [|k ks IH]; intros m; [done|]. rewrite fmap_cons, decode_encoded. apply IH. }
  rewrite E. f_equal. apply map_eq. intros k.
  assert (forall k, k ∈ Metadata_Keys md <-> is_Some (md !! k)) as Hk.
  { intros k'. unfold Metadata_Keys. rewrite range_map_all. rewrite list_elem_of_fmap. split.
    - intros ([k1 v1] & -> & Hv%elem_of_map_to_list). by exists v1.
    - intros [v Hv]. exists (k', v). split; [done|]. by apply elem_of_map_to_list. }
  etrans; [apply (foldl_inserts md ∅ (fun k => (k, Metadata_Get md k)))|].
  - intros k' [vals Hv]%Hk. simpl. unfold Metadata_Get. rewrite decide_False by (intros ->; done).
    by rewrite (Hl k' vals Hv), Hv.
  - cbn. rewrite list_fmap_id. case_decide as Hin; [done|]. rewrite lookup_empty. symmetry.
    apply eq_None_not_Some. by rewrite <- Hk.
Qed.

Lemma encodeContext_ok ctx : ctx_ok ctx -> RequestContext_ok (encodeContext ctx) = true.
Proof.
  intros [Ht Hs Hf Ha _]. unfold encodeContext, encodeClientAddress, encodeClientMetadata.
  assert (forall vs, forallb KeyValue_ok ((fun k => encodeMetadataValue k (vs k)) <$> Metadata_Keys
            (info_Metadata (client_FromContext ctx))) = true) as Hmd.
  { intros vs. apply forallb_forall. intros kv (k & <- & _)%in_map_iff. unfold encodeMetadataValue.
    assert (forallb AnyValue_ok (AnyValue_StringValue <$> vs k) = true) as Hvs
      by (apply forallb_forall; by intros v (s & <- & _)%in_map_iff).
    destruct (vs k) as [|v [|v' vals]]; [done|done|]. simpl in *. by rewrite Hvs. }
  assert (forall a, ClientAddress_ok a = true -> RequestContext_ok (mkRequestContext
            (RequestContext_SpanContext (encodeSpanContext ctx zeroRequestContext))
            ((fun k => encodeMetadataValue k (Metadata_Get (info_Metadata (client_FromContext ctx)) k)) <$>
               Metadata_Keys (info_Metadata (client_FromContext ctx))) a) = true) as Hok.
  { intros a Hca. unfold RequestContext_ok. cbn [RequestContext_ClientMetadata RequestContext_SpanContext
      RequestContext_ClientAddress]. rewrite Hmd, Hca, !andb_true_r. unfold encodeSpanContext.
    destruct (trace_IsValid (ctx_span ctx)); [|done]. unfold SpanContext_ok. cbn -[is_u32 is_ID u32].
    by rewrite Ht, Hs, u32_is. }
  destruct (info_Addr (client_FromContext ctx)) as [[ip zone|ip port zone|ip port zone|name net|x y]|];
    unfold encodeSpanContext in *; destruct (trace_IsValid (ctx_span ctx)); apply Hok; try done; apply i64_is.
Qed.

Lemma context_restored ctx : ctx_ok ctx -> exists ctx',
  decodeContext Background (Some (encodeContext ctx)) = Some ctx' /\
  ctx_span ctx' = kept_span (ctx_span ctx) /\ client_FromContext ctx' = kept_info (client_FromContext ctx).
Proof.
  intros [Ht Hs Hf Ha Hl]. unfold decodeContext.
  assert (RequestContext_ClientMetadata (encodeContext ctx) =
            ((fun k => encodeMetadataValue k (Metadata_Get (info_Metadata (client_FromContext ctx)) k)) <$>
               Metadata_Keys (info_Metadata (client_FromContext ctx)))) as ->.
  { unfold encodeContext, encodeClientAddress, encodeClientMetadata, encodeSpanContext.
    destruct (info_Addr (client_FromContext ctx)) as [[]|]; by destruct (trace_IsValid (ctx_span ctx)). }
  assert (decodeClientAddress (RequestContext_ClientAddress (encodeContext ctx)) =
            Some (known_addr (info_Addr (client_FromContext ctx)))) as ->.
  { unfold encodeContext, encodeClientAddress, encodeClientMetadata, encodeSpanContext.
    destruct (info_Addr (client_FromContext ctx)) as [[ip zone|ip port zone|ip port zone|name net|x y]|] eqn:E;
      destruct (trace_IsValid (ctx_span ctx)); try done; simpl; specialize (Ha _ eq_refl); simpl in Ha;
      apply in_range_iff in Ha; by rewrite i64_id. }
  assert (RequestContext_SpanContext (encodeContext ctx) =
            RequestContext_SpanContext (encodeSpanContext ctx zeroRequestContext)) as ->.
  { unfold encodeContext, encodeClientAddress, encodeClientMetadata.
    by destruct (info_Addr (client_FromContext ctx)) as [[]|]. }
  assert (ctx_span (decodeSpanContext Background
            (RequestContext_SpanContext (encodeSpanContext ctx zeroRequestContext))) = kept_span (ctx_span ctx) /\
          ctx_info (decodeSpanContext Background
            (RequestContext_SpanContext (encodeSpanContext ctx zeroRequestContext))) = None) as [Hsp Hin].
  { unfold encodeSpanContext, kept_span. destruct (trace_IsValid (ctx_span ctx)); [|done].
    destruct (ctx_span ctx) as [tid sid flags ts remote]. cbn -[u32] in *. split; [|done].
    rewrite ParseTraceState_String. unfold u32. rewrite (Z.mod_small flags (2 ^ 32)) by lia.
    by rewrite Z.mod_small by lia. }
  rewrite decode_metadata by exact Hl. cbn.
  case_decide as Hd.
  - eexists. split; [done|]. cbn. split; [done|]. unfold kept_info. by rewrite NewMetadata_lower.
  - eexists. split; [done|]. split; [done|]. unfold client_FromContext at 1. rewrite Hin. cbn. unfold kept_info, zeroInfo.
    f_equal.
    + destruct (known_addr _); [|done]. exfalso. apply Hd. by right.
    + symmetry. apply dec_stable. intros Hne. apply Hd. by left.
Qed.

(** ** Safety *)

Lemma decodeClientMetadata_total l m : forallb KeyValue_ok l = true -> is_Some (decodeClientMetadata l m).
Proof.
  revert m. induction l as [|[v k i] l IH]; intros m; simpl; [by eexists|].
  intros [[Hv _]%andb_true_iff Hl]%andb_true_iff. destruct v as [| | | | |[[vs]|]|[]| |]; simpl in *; try done; by apply IH.
Qed.

Lemma decodeContext_total ctx rc : RequestContext_ok rc = true -> is_Some (decodeContext ctx (Some rc)).
Proof.
  destruct rc as [sc md a]. intros [[_ Hmd]%andb_true_iff Ha]%andb_true_iff. cbn in *.
  destruct (decodeClientMetadata_total md ∅ Hmd) as [m ->]. cbn.
  destruct a as [|[]|[]|[]|[]]; try done; cbn; case_decide; by eexists.
Qed.

(** ** The encoding of the persistent queue *)

Section encoding.
Context {E T : Type} `{SignalData E T} `{!WireLaws T}.
Implicit Types (e : E) (ctx : Ctx).

Lemma payload_ok ctx e : ctx_ok ctx -> wire_exact (signal_ToProto e) = true ->
  SignalRequest_ok wire_exact (payload ctx e) = true.
Proof.
  intros Hc He. unfold SignalRequest_ok, payload.
  cbn [SignalRequest_RequestContext SignalRequest_Data SignalRequest_FormatVersion option_ok].
  by rewrite (encodeContext_ok ctx Hc), He.
Qed.

(** A request that is stored with its context is read again as it was. *)
Lemma payload_is_restored failed ctx e :
  ctx_ok ctx -> wire_exact (signal_ToProto e) = true -> SignalRequest_SizeProto (payload ctx e) < 2 ^ 63 ->
  exists buf ctx', MarshalSignal ctx e = Some buf /\
    len buf = SignalRequest_SizeProto (payload ctx e) /\ isRequestPayloadV1 buf = true /\
    encoding_Unmarshal failed buf = Some (inl (ctx', e)) /\
    ctx_span ctx' = kept_span (ctx_span ctx) /\ client_FromContext ctx' = kept_info (client_FromContext ctx).
Proof.
  intros Hc He Hs. destruct (SignalRequest_written (payload ctx e) (payload_ok ctx e Hc He)) as (rest & M & U); [done|].
  destruct (context_restored ctx Hc) as (ctx' & D & Hsp & Hi). cbv zeta in *.
  set (buf := [0xd] ++ to_littleEndian 4 (SignalRequest_FormatVersion (payload ctx e)) ++ rest) in *.
  pose proof (marshals_len _ _ _ M) as L.
  assert (isRequestPayloadV1 buf = true) as Hv.
  { unfold isRequestPayloadV1. rewrite decide_False; [done|]. unfold buf. rewrite !len_app, len_to_littleEndian.
    pose proof (len_nonneg rest). unfold len at 1. simpl. lia. }
  exists buf, ctx'. split; [|split; [done|split; [done|split; [|done]]]].
  - unfold MarshalSignal. cbv zeta. by rewrite (marshals_buffer _ _ _ M Hs).
  - unfold encoding_Unmarshal, UnmarshalSignal. rewrite Hv, U by lia. cbn [negb].
    change (SignalRequest_RequestContext (payload ctx e)) with (Some (encodeContext ctx)). rewrite D. cbn.
    by rewrite signal_from_to.
Qed.

(** A payload without a version is read as the data alone. *)
Lemma old_payload_is_restored `{!SignalLaws E T} failed e :
  wire_exact (signal_ToProto e) = true -> wire_SizeProto (signal_ToProto e) < 2 ^ 63 ->
  exists buf, signal_Marshal e = Some buf /\ isRequestPayloadV1 buf = false /\
    encoding_Unmarshal failed buf = Some (inl (Background, e)).
Proof.
  intros He Hs. destruct (signal_written e He Hs) as (buf & M & Hh & U).
  assert (isRequestPayloadV1 buf = false) as Hv.
  { destruct Hh as [->|[rest ->]]; [done|]. unfold isRequestPayloadV1. by case_decide. }
  exists buf. split; [done|split; [done|]]. unfold encoding_Unmarshal, UnmarshalSignal. rewrite Hv. cbn [negb].
  change (errors_Is ErrInvalidFormat ErrInvalidFormat) with true. cbv iota. by rewrite U.
Qed.

(** Any bytes are read safely. *)
Lemma payload_bytes_are_read_safely failed buf :
  bytes_ok buf -> len buf < 2 ^ 63 ->
  outcome_ok (fun x : Ctx * E => wire_ok (signal_ToProto x.2) = true) (encoding_Unmarshal failed buf).
Proof.
  intros Hb Hl. unfold encoding_Unmarshal, UnmarshalSignal.
  assert (outcome_ok (fun x : Ctx * E => wire_ok (signal_ToProto x.2) = true)
            match signal_Unmarshal buf with
            | Some (inl data) => Some (inl (Background, data))
            | Some (inr err) => Some (inr err)
            | None => None
            end) as Hold.
  { destruct (signal_reads buf Hb Hl) as ([e|err] & -> & Hr); [|apply error_ok]. apply sets_ok. by apply Hr. }
  destruct (isRequestPayloadV1 buf); cbn [negb]; [|exact Hold].
  destruct (SignalRequest_UnmarshalProto_ok buf zeroSignalRequest Hb Hl) as ([r|err] & -> & Hr).
  { unfold is_ok, SignalRequest_ok, zeroSignalRequest. cbn. by rewrite wire_zero_is_ok. }
  - specialize (Hr r eq_refl). destruct r as [rc data version].
    apply andb_true_iff in Hr as [[Hrc Hd]%andb_true_iff _].
    cbn [SignalRequest_RequestContext SignalRequest_Data] in *.
    assert (is_Some (decodeContext Background rc)) as [ctx ->]
      by (destruct rc as [rc|]; [by apply decodeContext_total|by eexists]).
    cbn. apply sets_ok. cbn. by rewrite signal_to_from.
  - destruct (errors_Is _ _); [exact Hold|apply error_ok].
Qed.
End encoding.

(** C4: A request that is stored with its context and read again is the same request: the same
    traces, the span context when it was valid, the client's metadata and its address, when
    it is of one of the four kinds of package net; the payload has the length it was sized
    for and starts with its version. *)
Theorem stored_request_is_restored ctx td :
  ctx_ok ctx -> ExportTraceServiceRequest_ok td = true -> TracesRequest_SizeProto (payload ctx td) < 2 ^ 63 ->
  exists buf ctx', tracesEncoding_Marshal ctx td = Some buf /\
    len buf = TracesRequest_SizeProto (payload ctx td) /\ isRequestPayloadV1 buf = true /\
    tracesEncoding_Unmarshal buf = Some (inl (ctx', td)) /\
    ctx_span ctx' = kept_span (ctx_span ctx) /\ client_FromContext ctx' = kept_info (client_FromContext ctx).
Proof.
  exact (payload_is_restored _ ctx td).
Qed.

(** A payload that was stored before there were versions, the traces alone, is still read,
    without a context: no encoding of traces can be taken for a payload with a version. *)
Theorem old_payload_is_read td :
  ExportTraceServiceRequest_ok td = true -> ExportTraceServiceRequest_SizeProto td < 2 ^ 63 ->
  exists buf, ProtoMarshaler_MarshalTraces td = Some buf /\ isRequestPayloadV1 buf = false /\
    tracesEncoding_Unmarshal buf = Some (inl (Background, td)).
Proof.
  exact (old_payload_is_restored _ td).
Qed.

(** Whatever bytes a storage returns for an item, the encoding gives a request or an error:
    it never panics, and a nil value, which stands for an item that is not in the storage,
    is read as a request with no data at all, without an error. *)
Theorem stored_bytes_are_read_safely buf :
  bytes_ok buf -> len buf < 2 ^ 63 ->
  (exists r, tracesEncoding_Unmarshal buf = Some r /\
     forall ctx td, r = inl (ctx, td) -> ExportTraceServiceRequest_ok td = true) /\
  tracesEncoding_Unmarshal [] = Some (inl (Background, mkExportTraceServiceRequest [])).
Proof.
  intros Hb Hl. split; [|reflexivity]. destruct (payload_bytes_are_read_safely (E := ExportTraceServiceRequest) "failed to unmarshal traces request: " buf Hb Hl)
    as (r & E & Hr). exists r. split; [exact E|]. intros ctx td ->. exact (Hr _ eq_refl).
Qed.

(** A stored request of logs, with the nested bodies of its records, is restored with its
    context, and a payload of logs without a version is still read. *)
Theorem stored_logs_are_restored ctx ld :
  ctx_ok ctx -> ExportLogsServiceRequest_ok ld = true -> LogsRequest_SizeProto (payload ctx ld) < 2 ^ 63 ->
  (exists buf ctx', logsEncoding_Marshal ctx ld = Some buf /\ isRequestPayloadV1 buf = true /\
     logsEncoding_Unmarshal buf = Some (inl (ctx', ld)) /\
     ctx_span ctx' = kept_span (ctx_span ctx) /\ client_FromContext ctx' = kept_info (client_FromContext ctx)) /\
  (ExportLogsServiceRequest_SizeProto ld < 2 ^ 63 ->
   exists buf, ProtoMarshaler_MarshalLogs ld = Some buf /\
     logsEncoding_Unmarshal buf = Some (inl (Background, ld))).
Proof.
  intros Hc Hok Hs. split.
  - destruct (payload_is_restored (T := LogsData) "failed to unmarshal logs request: " ctx ld Hc)
      as (buf & ctx' & M & _ & V & U & Hx); [exact Hok|exact Hs|]. by exists buf, ctx'.
  - intros Hs'. destruct (old_payload_is_restored (T := LogsData) "failed to unmarshal logs request: " ld)
      as (buf & M & _ & U); [exact Hok|exact Hs'|]. by exists buf.
Qed.

(** The same for metrics, when no plain float64 holds negative zero. *)
Theorem stored_metrics_are_restored ctx md :
  ctx_ok ctx -> ExportMetricsServiceRequest_ok plain_double md = true -> MetricsRequest_SizeProto (payload ctx md) < 2 ^ 63 ->
  (exists buf ctx', metricsEncoding_Marshal ctx md = Some buf /\ isRequestPayloadV1 buf = true /\
     metricsEncoding_Unmarshal buf = Some (inl (ctx', md)) /\
     ctx_span ctx' = kept_span (ctx_span ctx) /\ client_FromContext ctx' = kept_info (client_FromContext ctx)) /\
  (ExportMetricsServiceRequest_SizeProto md < 2 ^ 63 ->
   exists buf, ProtoMarshaler_MarshalMetrics md = Some buf /\
     metricsEncoding_Unmarshal buf = Some (inl (Background, md))).
Proof.
  intros Hc Hok Hs. split.
  - destruct (payload_is_restored (T := MetricsData) "failed to unmarshal metrics request: " ctx md Hc)
      as (buf & ctx' & M & _ & V & U & Hx); [exact Hok|exact Hs|]. by exists buf, ctx'.
  - intros Hs'. destruct (old_payload_is_restored (T := MetricsData) "failed to unmarshal metrics request: " md)
      as (buf & M & _ & U); [exact Hok|exact Hs'|]. by exists buf.
Qed.

(** A stored request of profiles is restored with its dictionary and its context, without
    the conversion of its strings; whatever bytes a storage returns, it gives a request or an
    error. *)
Theorem stored_profiles_are_restored :
  (forall ctx pd, ctx_ok ctx -> ExportProfilesServiceRequest_ok pd = true -> ProfilesRequest_SizeProto (payload ctx pd) < 2 ^ 63 ->
     exists buf ctx', profilesEncoding_Marshal ctx pd = Some buf /\ isRequestPayloadV1 buf = true /\
       profilesEncoding_Unmarshal buf = Some (inl (ctx', pd)) /\
       ctx_span ctx' = kept_span (ctx_span ctx) /\ client_FromContext ctx' = kept_info (client_FromContext ctx)) /\
  (forall buf, bytes_ok buf -> len buf < 2 ^ 63 -> exists r, profilesEncoding_Unmarshal buf = Some r).
Proof.
  split.
  - intros ctx pd Hc Hok Hs. destruct (payload_is_restored (T := ProfilesData) "failed to unmarshal profiles request: " ctx pd Hc)
      as (buf & ctx' & M & _ & V & U & Hx); [exact Hok|exact Hs|]. by exists buf, ctx'.
  - intros buf Hb Hl. destruct (payload_bytes_are_read_safely (E := ExportProfilesServiceRequest) "failed to unmarshal profiles request: " buf Hb Hl)
      as (r & E & _). by exists r.
Qed.

End context.

(** ** Witnesses *)

(** Trace states are their text, ids are valid when they are not empty, and a range visits
    a map in the order of its list. *)
#[local] Instance some_environment : RequestEnvironment := {|
  TraceState := bytes;
  noTraceState := [];
  TraceState_String := fun ts => ts;
  ParseTraceState := Some;
  validIDs := fun tid sid => negb (ID_IsEmpty traceIDSize tid) && negb (ID_IsEmpty spanIDSize sid);
  AuthData := unit;
  ToLower := fun s => s;
  range_map := map_to_list;
|}.

#[local] Instance some_environment_laws : RequestEnvironmentLaws.
Proof. by split. Qed.

Definition some_ctx : Ctx :=
  mkCtx (mkTraceSpanContext (replicate 16 1) (replicate 8 2) 1 [97; 61; 98] true)
    (Some (mkInfo (Some (net_TCPAddr [127; 0; 0; 1] 4317 [])) (Some tt) {[ [120] := [[49]; [50]]; [121] := [[51]] ]})).

Lemma some_ctx_ok : ctx_ok some_ctx.
Proof.
  split; [reflexivity|reflexivity|cbn; lia|intros a [= <-]; reflexivity|intros k vals _; reflexivity].
Qed.

Lemma stored_request_is_restored_witness :
  exists buf ctx', tracesEncoding_Marshal some_ctx (some_traces [some_span]) = Some buf /\
    tracesEncoding_Unmarshal buf = Some (inl (ctx', some_traces [some_span])) /\
    client_FromContext ctx' = kept_info (client_FromContext some_ctx).
Proof.
  destruct (stored_request_is_restored some_ctx (some_traces [some_span]) some_ctx_ok) as (buf & ctx' & M & _ & _ & U & _ & I);
    [vm_compute; reflexivity|vm_compute; reflexivity|].
  exists buf, ctx'. exact (conj M (conj U I)).
Defined.

Lemma old_payload_is_read_witness :
  exists buf, ProtoMarshaler_MarshalTraces (some_traces [some_span]) = Some buf /\
    tracesEncoding_Unmarshal buf = Some (inl (Background, some_traces [some_span])).
Proof.
  destruct (old_payload_is_read (some_traces [some_span])) as (buf & M & _ & U);
    [vm_compute; reflexivity|vm_compute; reflexivity|]. exists buf. exact (conj M U).
Defined.

Lemma stored_bytes_are_read_safely_witness :
  tracesEncoding_Unmarshal [13; 1; 0; 0; 0] = Some (inl (Background, mkExportTraceServiceRequest [])) /\
  exists r, tracesEncoding_Unmarshal [13; 1; 0; 0; 0] = Some r.
Proof.
  split; [vm_compute; reflexivity|].
  destruct (stored_bytes_are_read_safely [13; 1; 0; 0; 0]) as [(r & E & _) _]; 
    [repeat (apply Forall_cons; split; [lia|]); by apply Forall_nil|vm_compute; reflexivity|].
  exists r. exact E.
Defined.

Lemma stored_logs_are_restored_witness :
  exists buf ctx', logsEncoding_Marshal some_ctx (some_logs [some_record]) = Some buf /\
    logsEncoding_Unmarshal buf = Some (inl (ctx', some_logs [some_record])).
Proof.
  destruct (stored_logs_are_restored some_ctx (some_logs [some_record]) some_ctx_ok) as [(buf & ctx' & M & _ & U & _) _];
    [vm_compute; reflexivity|vm_compute; reflexivity|]. exists buf, ctx'. exact (conj M U).
Defined.

Lemma stored_metrics_are_restored_witness :
  exists buf ctx', metricsEncoding_Marshal some_ctx some_metrics = Some buf /\
    metricsEncoding_Unmarshal buf = Some (inl (ctx', some_metrics)).
Proof.
  destruct (stored_metrics_are_restored some_ctx some_metrics some_ctx_ok) as [(buf & ctx' & M & _ & U & _) _];
    [vm_compute; reflexivity|vm_compute; reflexivity|]. exists buf, ctx'. exact (conj M U).
Defined.
