(* ===== verification/OtlpMessages.v ===== *)
(** * OtlpMessages: the requests and responses of OTLP

    pdata/internal: ExportTracePartialSuccess, ExportTraceServiceResponse and those of logs,
    metrics and profiles (generated_proto_*.go); pdata/internal/otlp: the migration of the
    deprecated scope lists (traces.go, logs.go, metrics.go, profiles.go); MarshalProto and
    UnmarshalProto of ExportRequest and ExportResponse in pdata/ptrace/ptraceotlp,
    pdata/plog/plogotlp, pdata/pmetric/pmetricotlp and pdata/pprofile/pprofileotlp; what Export of receiver/otlpreceiver/internal hands to the
    next consumer.  Definitions first; the theorems are about one OTLP hop. *)

From S2P Require Import Prelude.
From S2P Require Import GoErrors.
From S2P Require Import PData.
From S2P Require Import Storage.
From S2P Require Import ProfilesMerge.
From S2P Require Import ProtoWire.
From S2P Require Import ProtoMessage.
From S2P Require Import ProtoMessageProofs.
From S2P Require Import CommonProto.
From S2P Require Import CommonProtoProofs.
From S2P Require Import TracesProto.
From S2P Require Import TracesProtoProofs.
From S2P Require Import LogsProto.
From S2P Require Import LogsProtoProofs.
From S2P Require Import MetricsProto.
From S2P Require Import MetricsProtoProofs.
From S2P Require Import ProfilesProto.
From S2P Require Import ProfilesProtoProofs.

(** ** ExportTracePartialSuccess *)

Record ExportTracePartialSuccess := mkExportTracePartialSuccess {
  ExportTracePartialSuccess_RejectedSpans : Z;
  ExportTracePartialSuccess_ErrorMessage : bytes;
}.

Definition zeroExportTracePartialSuccess : ExportTracePartialSuccess := mkExportTracePartialSuccess 0 [].

Definition ExportTracePartialSuccess_ok (x : ExportTracePartialSuccess) : bool :=
  is_i64 (ExportTracePartialSuccess_RejectedSpans x).

Definition ExportTracePartialSuccess_SizeProto (orig : ExportTracePartialSuccess) : Z :=
  size_if (nonzero (ExportTracePartialSuccess_RejectedSpans orig)) (1 + Sov (u64
    (ExportTracePartialSuccess_RejectedSpans orig))) +
  size_if (nonempty (ExportTracePartialSuccess_ErrorMessage orig)) (1 + lengthPrefixed (len
    (ExportTracePartialSuccess_ErrorMessage orig))).

Definition ExportTracePartialSuccess_MarshalProto (orig : ExportTracePartialSuccess) : bytes -> option (bytes * Z)
  :=
  marshal (
    when (nonzero (ExportTracePartialSuccess_RejectedSpans orig)) (putVarint (u64
      (ExportTracePartialSuccess_RejectedSpans orig)) ;; putByte 0x8) ;;
    when (nonempty (ExportTracePartialSuccess_ErrorMessage orig)) (putString
      (ExportTracePartialSuccess_ErrorMessage orig) ;; putByte 0x12))%writer.

Definition ExportTracePartialSuccess_cases : switch ExportTracePartialSuccess := fun orig fieldNum wireType buf pos
  =>
  let '(mkExportTracePartialSuccess rejected message) := orig in
  match fieldNum with
  | 1 => varintCase wireType buf pos (fun num => mkExportTracePartialSuccess (i64 num) message)
  | 2 => lenCase wireType buf pos (fun s => sets (mkExportTracePartialSuccess rejected s))
  | _ => unknownCase orig wireType buf pos
  end.

Definition ExportTracePartialSuccess_UnmarshalProto : bytes -> ExportTracePartialSuccess -> option
  (ExportTracePartialSuccess + error) := unmarshal ExportTracePartialSuccess_cases.

(** ** ExportTraceServiceResponse *)

Record ExportTraceServiceResponse := mkExportTraceServiceResponse {
  ExportTraceServiceResponse_PartialSuccess : ExportTracePartialSuccess;
}.

Definition zeroExportTraceServiceResponse : ExportTraceServiceResponse := mkExportTraceServiceResponse
  zeroExportTracePartialSuccess.

Definition ExportTraceServiceResponse_ok (x : ExportTraceServiceResponse) : bool :=
  ExportTracePartialSuccess_ok (ExportTraceServiceResponse_PartialSuccess x).

Definition ExportTraceServiceResponse_SizeProto (orig : ExportTraceServiceResponse) : Z :=
  (1 + lengthPrefixed (ExportTracePartialSuccess_SizeProto (ExportTraceServiceResponse_PartialSuccess orig))).

Definition ExportTraceServiceResponse_MarshalProto (orig : ExportTraceServiceResponse) : bytes -> option (bytes *
  Z) :=
  marshal (
    (putMessage (ExportTracePartialSuccess_MarshalProto (ExportTraceServiceResponse_PartialSuccess orig)) ;;
      putByte 0xa))%writer.

Definition ExportTraceServiceResponse_cases : switch ExportTraceServiceResponse := fun orig fieldNum wireType buf
  pos =>
  let '(mkExportTraceServiceResponse success) := orig in
  match fieldNum with
  | 1 => lenCase wireType buf pos (fun s =>
           sets_message (fun x => mkExportTraceServiceResponse x) (ExportTracePartialSuccess_UnmarshalProto s
             success))
  | _ => unknownCase orig wireType buf pos
  end.

Definition ExportTraceServiceResponse_UnmarshalProto : bytes -> ExportTraceServiceResponse -> option
  (ExportTraceServiceResponse + error) := unmarshal ExportTraceServiceResponse_cases.

(** ** ExportLogsPartialSuccess *)

Record ExportLogsPartialSuccess := mkExportLogsPartialSuccess {
  ExportLogsPartialSuccess_RejectedLogRecords : Z;
  ExportLogsPartialSuccess_ErrorMessage : bytes;
}.

Definition zeroExportLogsPartialSuccess : ExportLogsPartialSuccess := mkExportLogsPartialSuccess 0 [].

Definition ExportLogsPartialSuccess_ok (x : ExportLogsPartialSuccess) : bool :=
  is_i64 (ExportLogsPartialSuccess_RejectedLogRecords x).

Definition ExportLogsPartialSuccess_SizeProto (orig : ExportLogsPartialSuccess) : Z :=
  size_if (nonzero (ExportLogsPartialSuccess_RejectedLogRecords orig)) (1 + Sov (u64
    (ExportLogsPartialSuccess_RejectedLogRecords orig))) +
  size_if (nonempty (ExportLogsPartialSuccess_ErrorMessage orig)) (1 + lengthPrefixed (len
    (ExportLogsPartialSuccess_ErrorMessage orig))).

Definition ExportLogsPartialSuccess_MarshalProto (orig : ExportLogsPartialSuccess) : bytes -> option (bytes * Z) :=
  marshal (
    when (nonzero (ExportLogsPartialSuccess_RejectedLogRecords orig)) (putVarint (u64
      (ExportLogsPartialSuccess_RejectedLogRecords orig)) ;; putByte 0x8) ;;
    when (nonempty (ExportLogsPartialSuccess_ErrorMessage orig)) (putString (ExportLogsPartialSuccess_ErrorMessage
      orig) ;; putByte 0x12))%writer.

Definition ExportLogsPartialSuccess_cases : switch ExportLogsPartialSuccess := fun orig fieldNum wireType buf pos =>
  let '(mkExportLogsPartialSuccess rejected message) := orig in
  match fieldNum with
  | 1 => varintCase wireType buf pos (fun num => mkExportLogsPartialSuccess (i64 num) message)
  | 2 => lenCase wireType buf pos (fun s => sets (mkExportLogsPartialSuccess rejected s))
  | _ => unknownCase orig wireType buf pos
  end.

Definition ExportLogsPartialSuccess_UnmarshalProto : bytes -> ExportLogsPartialSuccess -> option
  (ExportLogsPartialSuccess + error) := unmarshal ExportLogsPartialSuccess_cases.

(** ** ExportLogsServiceResponse *)

Record ExportLogsServiceResponse := mkExportLogsServiceResponse {
  ExportLogsServiceResponse_PartialSuccess : ExportLogsPartialSuccess;
}.

Definition zeroExportLogsServiceResponse : ExportLogsServiceResponse := mkExportLogsServiceResponse
  zeroExportLogsPartialSuccess.

Definition ExportLogsServiceResponse_ok (x : ExportLogsServiceResponse) : bool :=
  ExportLogsPartialSuccess_ok (ExportLogsServiceResponse_PartialSuccess x).

Definition ExportLogsServiceResponse_SizeProto (orig : ExportLogsServiceResponse) : Z :=
  (1 + lengthPrefixed (ExportLogsPartialSuccess_SizeProto (ExportLogsServiceResponse_PartialSuccess orig))).

Definition ExportLogsServiceResponse_MarshalProto (orig : ExportLogsServiceResponse) : bytes -> option (bytes * Z)
  :=
  marshal (
    (putMessage (ExportLogsPartialSuccess_MarshalProto (ExportLogsServiceResponse_PartialSuccess orig)) ;; putByte
      0xa))%writer.

Definition ExportLogsServiceResponse_cases : switch ExportLogsServiceResponse := fun orig fieldNum wireType buf pos
  =>
  let '(mkExportLogsServiceResponse success) := orig in
  match fieldNum with
  | 1 => lenCase wireType buf pos (fun s =>
           sets_message (fun x => mkExportLogsServiceResponse x) (ExportLogsPartialSuccess_UnmarshalProto s
             success))
  | _ => unknownCase orig wireType buf pos
  end.

Definition ExportLogsServiceResponse_UnmarshalProto : bytes -> ExportLogsServiceResponse -> option
  (ExportLogsServiceResponse + error) := unmarshal ExportLogsServiceResponse_cases.

(** ** ExportMetricsPartialSuccess *)

Record ExportMetricsPartialSuccess := mkExportMetricsPartialSuccess {
  ExportMetricsPartialSuccess_RejectedDataPoints : Z;
  ExportMetricsPartialSuccess_ErrorMessage : bytes;
}.

Definition zeroExportMetricsPartialSuccess : ExportMetricsPartialSuccess := mkExportMetricsPartialSuccess 0 [].

Definition ExportMetricsPartialSuccess_ok (x : ExportMetricsPartialSuccess) : bool :=
  is_i64 (ExportMetricsPartialSuccess_RejectedDataPoints x).

Definition ExportMetricsPartialSuccess_SizeProto (orig : ExportMetricsPartialSuccess) : Z :=
  size_if (nonzero (ExportMetricsPartialSuccess_RejectedDataPoints orig)) (1 + Sov (u64
    (ExportMetricsPartialSuccess_RejectedDataPoints orig))) +
  size_if (nonempty (ExportMetricsPartialSuccess_ErrorMessage orig)) (1 + lengthPrefixed (len
    (ExportMetricsPartialSuccess_ErrorMessage orig))).

Definition ExportMetricsPartialSuccess_MarshalProto (orig : ExportMetricsPartialSuccess) : bytes -> option (bytes *
  Z) :=
  marshal (
    when (nonzero (ExportMetricsPartialSuccess_RejectedDataPoints orig)) (putVarint (u64
      (ExportMetricsPartialSuccess_RejectedDataPoints orig)) ;; putByte 0x8) ;;
    when (nonempty (ExportMetricsPartialSuccess_ErrorMessage orig)) (putString
      (ExportMetricsPartialSuccess_ErrorMessage orig) ;; putByte 0x12))%writer.

Definition ExportMetricsPartialSuccess_cases : switch ExportMetricsPartialSuccess := fun orig fieldNum wireType buf
  pos =>
  let '(mkExportMetricsPartialSuccess rejected message) := orig in
  match fieldNum with
  | 1 => varintCase wireType buf pos (fun num => mkExportMetricsPartialSuccess (i64 num) message)
  | 2 => lenCase wireType buf pos (fun s => sets (mkExportMetricsPartialSuccess rejected s))
  | _ => unknownCase orig wireType buf pos
  end.

Definition ExportMetricsPartialSuccess_UnmarshalProto : bytes -> ExportMetricsPartialSuccess -> option
  (ExportMetricsPartialSuccess + error) := unmarshal ExportMetricsPartialSuccess_cases.

(** ** ExportMetricsServiceResponse *)

Record ExportMetricsServiceResponse := mkExportMetricsServiceResponse {
  ExportMetricsServiceResponse_PartialSuccess : ExportMetricsPartialSuccess;
}.

Definition zeroExportMetricsServiceResponse : ExportMetricsServiceResponse := mkExportMetricsServiceResponse
  zeroExportMetricsPartialSuccess.

Definition ExportMetricsServiceResponse_ok (x : ExportMetricsServiceResponse) : bool :=
  ExportMetricsPartialSuccess_ok (ExportMetricsServiceResponse_PartialSuccess x).

Definition ExportMetricsServiceResponse_SizeProto (orig : ExportMetricsServiceResponse) : Z :=
  (1 + lengthPrefixed (ExportMetricsPartialSuccess_SizeProto (ExportMetricsServiceResponse_PartialSuccess orig))).

Definition ExportMetricsServiceResponse_MarshalProto (orig : ExportMetricsServiceResponse) : bytes -> option (bytes
  * Z) :=
  marshal (
    (putMessage (ExportMetricsPartialSuccess_MarshalProto (ExportMetricsServiceResponse_PartialSuccess orig)) ;;
      putByte 0xa))%writer.

Definition ExportMetricsServiceResponse_cases : switch ExportMetricsServiceResponse := fun orig fieldNum wireType
  buf pos =>
  let '(mkExportMetricsServiceResponse success) := orig in
  match fieldNum with
  | 1 => lenCase wireType buf pos (fun s =>
           sets_message (fun x => mkExportMetricsServiceResponse x) (ExportMetricsPartialSuccess_UnmarshalProto s
             success))
  | _ => unknownCase orig wireType buf pos
  end.

Definition ExportMetricsServiceResponse_UnmarshalProto : bytes -> ExportMetricsServiceResponse -> option
  (ExportMetricsServiceResponse + error) := unmarshal ExportMetricsServiceResponse_cases.

(** ** ExportProfilesPartialSuccess *)

Record ExportProfilesPartialSuccess := mkExportProfilesPartialSuccess {
  ExportProfilesPartialSuccess_RejectedProfiles : Z;
  ExportProfilesPartialSuccess_ErrorMessage : bytes;
}.

Definition zeroExportProfilesPartialSuccess : ExportProfilesPartialSuccess := mkExportProfilesPartialSuccess 0 [].

Definition ExportProfilesPartialSuccess_ok (x : ExportProfilesPartialSuccess) : bool :=
  is_i64 (ExportProfilesPartialSuccess_RejectedProfiles x).

Definition ExportProfilesPartialSuccess_SizeProto (orig : ExportProfilesPartialSuccess) : Z :=
  size_if (nonzero (ExportProfilesPartialSuccess_RejectedProfiles orig)) (1 + Sov (u64
    (ExportProfilesPartialSuccess_RejectedProfiles orig))) +
  size_if (nonempty (ExportProfilesPartialSuccess_ErrorMessage orig)) (1 + lengthPrefixed (len
    (ExportProfilesPartialSuccess_ErrorMessage orig))).

Definition ExportProfilesPartialSuccess_MarshalProto (orig : ExportProfilesPartialSuccess) : bytes -> option (bytes
  * Z) :=
  marshal (
    when (nonzero (ExportProfilesPartialSuccess_RejectedProfiles orig)) (putVarint (u64
      (ExportProfilesPartialSuccess_RejectedProfiles orig)) ;; putByte 0x8) ;;
    when (nonempty (ExportProfilesPartialSuccess_ErrorMessage orig)) (putString
      (ExportProfilesPartialSuccess_ErrorMessage orig) ;; putByte 0x12))%writer.

Definition ExportProfilesPartialSuccess_cases : switch ExportProfilesPartialSuccess := fun orig fieldNum wireType
  buf pos =>
  let '(mkExportProfilesPartialSuccess rejected message) := orig in
  match fieldNum with
  | 1 => varintCase wireType buf pos (fun num => mkExportProfilesPartialSuccess (i64 num) message)
  | 2 => lenCase wireType buf pos (fun s => sets (mkExportProfilesPartialSuccess rejected s))
  | _ => unknownCase orig wireType buf pos
  end.

Definition ExportProfilesPartialSuccess_UnmarshalProto : bytes -> ExportProfilesPartialSuccess -> option
  (ExportProfilesPartialSuccess + error) := unmarshal ExportProfilesPartialSuccess_cases.

(** ** ExportProfilesServiceResponse *)

Record ExportProfilesServiceResponse := mkExportProfilesServiceResponse {
  ExportProfilesServiceResponse_PartialSuccess : ExportProfilesPartialSuccess;
}.

Definition zeroExportProfilesServiceResponse : ExportProfilesServiceResponse := mkExportProfilesServiceResponse
  zeroExportProfilesPartialSuccess.

Definition ExportProfilesServiceResponse_ok (x : ExportProfilesServiceResponse) : bool :=
  ExportProfilesPartialSuccess_ok (ExportProfilesServiceResponse_PartialSuccess x).

Definition ExportProfilesServiceResponse_SizeProto (orig : ExportProfilesServiceResponse) : Z :=
  (1 + lengthPrefixed (ExportProfilesPartialSuccess_SizeProto (ExportProfilesServiceResponse_PartialSuccess orig))).

Definition ExportProfilesServiceResponse_MarshalProto (orig : ExportProfilesServiceResponse) : bytes -> option
  (bytes * Z) :=
  marshal (
    (putMessage (ExportProfilesPartialSuccess_MarshalProto (ExportProfilesServiceResponse_PartialSuccess orig)) ;;
      putByte 0xa))%writer.

Definition ExportProfilesServiceResponse_cases : switch ExportProfilesServiceResponse := fun orig fieldNum wireType
  buf pos =>
  let '(mkExportProfilesServiceResponse success) := orig in
  match fieldNum with
  | 1 => lenCase wireType buf pos (fun s =>
           sets_message (fun x => mkExportProfilesServiceResponse x) (ExportProfilesPartialSuccess_UnmarshalProto s
             success))
  | _ => unknownCase orig wireType buf pos
  end.

Definition ExportProfilesServiceResponse_UnmarshalProto : bytes -> ExportProfilesServiceResponse -> option
  (ExportProfilesServiceResponse + error) := unmarshal ExportProfilesServiceResponse_cases.

(** ** pdata/internal/otlp: the deprecated lists are used when the others are empty, and dropped *)

Definition MigrateTraces (rss : list ResourceSpans) : list ResourceSpans :=
  map (fun rs =>
    mkResourceSpans (ResourceSpans_Resource rs)
      (if decide (length (ResourceSpans_ScopeSpans rs) = 0%nat) then ResourceSpans_DeprecatedScopeSpans rs
       else ResourceSpans_ScopeSpans rs) (ResourceSpans_SchemaUrl rs) []) rss.

Definition MigrateLogs (rls : list ResourceLogs) : list ResourceLogs :=
  map (fun rl =>
    mkResourceLogs (ResourceLogs_Resource rl)
      (if decide (length (ResourceLogs_ScopeLogs rl) = 0%nat) then ResourceLogs_DeprecatedScopeLogs rl
       else ResourceLogs_ScopeLogs rl) (ResourceLogs_SchemaUrl rl) []) rls.

Definition MigrateMetrics (rms : list ResourceMetrics) : list ResourceMetrics :=
  map (fun rm =>
    mkResourceMetrics (ResourceMetrics_Resource rm)
      (if decide (length (ResourceMetrics_ScopeMetrics rm) = 0%nat) then ResourceMetrics_DeprecatedScopeMetrics rm
       else ResourceMetrics_ScopeMetrics rm) (ResourceMetrics_SchemaUrl rm) []) rms.

(** Profiles have no deprecated lists. *)
Definition MigrateProfiles (rps : list ResourceProfiles) : list ResourceProfiles := rps.

(** ** The counts of the API: SpanCount, LogRecordCount and DataPointCount *)

Definition SpanCount (td : ExportTraceServiceRequest) : Z :=
  sum_of (fun rs => sum_of (fun ss => Z.of_nat (length (ScopeSpans_Spans ss))) (ResourceSpans_ScopeSpans rs))
    (ExportTraceServiceRequest_ResourceSpans td).

Definition LogRecordCount (ld : ExportLogsServiceRequest) : Z :=
  sum_of (fun rl => sum_of (fun sl => Z.of_nat (length (ScopeLogs_LogRecords sl))) (ResourceLogs_ScopeLogs rl))
    (ExportLogsServiceRequest_ResourceLogs ld).

(** A oneof without a message counts no points; a nil message would panic, and is excluded
    by [MetricsProto.isMetric_Data_ok]. *)
Definition Metric_points (m : Metric) : Z :=
  match Metric_Data m with
  | Metric_Gauge (Some x) => Z.of_nat (length (Gauge_DataPoints x))
  | Metric_Sum (Some x) => Z.of_nat (length (Sum_DataPoints x))
  | Metric_Histogram (Some x) => Z.of_nat (length (Histogram_DataPoints x))
  | Metric_ExponentialHistogram (Some x) => Z.of_nat (length (ExponentialHistogram_DataPoints x))
  | Metric_Summary (Some x) => Z.of_nat (length (Summary_DataPoints x))
  | _ => 0
  end.

Definition DataPointCount (md : ExportMetricsServiceRequest) : Z :=
  sum_of (fun rm => sum_of (fun sm => sum_of Metric_points (ScopeMetrics_Metrics sm)) (ResourceMetrics_ScopeMetrics rm))
    (ExportMetricsServiceRequest_ResourceMetrics md).

(** ** ExportRequest: what an exporter sends and what a receiver makes of it *)

Definition ptraceotlp_MarshalProto (td : ExportTraceServiceRequest) : option bytes :=
  match ExportTraceServiceRequest_MarshalProto td (replicate (Z.to_nat (ExportTraceServiceRequest_SizeProto td)) 0) with
  | Some (buf, _) => Some buf
  | None => None
  end.

Definition ptraceotlp_UnmarshalProto (data : bytes) : option (ExportTraceServiceRequest + error) :=
  match ExportTraceServiceRequest_UnmarshalProto data zeroExportTraceServiceRequest with
  | Some (inl td) => Some (inl (mkExportTraceServiceRequest (MigrateTraces (ExportTraceServiceRequest_ResourceSpans td))))
  | r => r
  end.

Definition plogotlp_MarshalProto (ld : ExportLogsServiceRequest) : option bytes :=
  match ExportLogsServiceRequest_MarshalProto ld (replicate (Z.to_nat (ExportLogsServiceRequest_SizeProto ld)) 0) with
  | Some (buf, _) => Some buf
  | None => None
  end.

Definition plogotlp_UnmarshalProto (data : bytes) : option (ExportLogsServiceRequest + error) :=
  match ExportLogsServiceRequest_UnmarshalProto data zeroExportLogsServiceRequest with
  | Some (inl ld) => Some (inl (mkExportLogsServiceRequest (MigrateLogs (ExportLogsServiceRequest_ResourceLogs ld))))
  | r => r
  end.

Definition pmetricotlp_MarshalProto (md : ExportMetricsServiceRequest) : option bytes :=
  match ExportMetricsServiceRequest_MarshalProto md (replicate (Z.to_nat (ExportMetricsServiceRequest_SizeProto md)) 0) with
  | Some (buf, _) => Some buf
  | None => None
  end.

Definition pmetricotlp_UnmarshalProto (data : bytes) : option (ExportMetricsServiceRequest + error) :=
  match ExportMetricsServiceRequest_UnmarshalProto data zeroExportMetricsServiceRequest with
  | Some (inl md) => Some (inl (mkExportMetricsServiceRequest (MigrateMetrics (ExportMetricsServiceRequest_ResourceMetrics md))))
  | r => r
  end.

Definition pprofileotlp_MarshalProto (pd : ExportProfilesServiceRequest) : option bytes :=
  match ExportProfilesServiceRequest_MarshalProto pd (replicate (Z.to_nat (ExportProfilesServiceRequest_SizeProto pd)) 0) with
  | Some (buf, _) => Some buf
  | None => None
  end.

Definition pprofileotlp_UnmarshalProto (data : bytes) : option (ExportProfilesServiceRequest + error) :=
  match ExportProfilesServiceRequest_UnmarshalProto data zeroExportProfilesServiceRequest with
  | Some (inl pd) => Some (inl (mkExportProfilesServiceRequest
      (MigrateProfiles (ExportProfilesServiceRequest_ResourceProfiles pd)) (ExportProfilesServiceRequest_Dictionary pd)))
  | r => r
  end.

(** Receiver.Export: the data that reaches the next consumer; a request without an item is
    answered at once. *)
Definition Export_traces (td : ExportTraceServiceRequest) : option ExportTraceServiceRequest :=
  if decide (SpanCount td = 0) then None else Some td.

Definition Export_logs (ld : ExportLogsServiceRequest) : option ExportLogsServiceRequest :=
  if decide (LogRecordCount ld = 0) then None else Some ld.

Definition Export_metrics (md : ExportMetricsServiceRequest) : option ExportMetricsServiceRequest :=
  if decide (DataPointCount md = 0) then None else Some md.

Definition Export_profiles (pd : ExportProfilesServiceRequest) : option ExportProfilesServiceRequest :=
  if decide (SampleCount (mkProfiles pd false) = 0) then None else Some pd.

(** The body of a request, from its bytes to the next consumer. *)
Definition received {A} (unmarshalProto : bytes -> option (A + error)) (Export : A -> option A) (data : bytes) :
    option (option A + error) :=
  match unmarshalProto data with
  | Some (inl req) => Some (inl (Export req))
  | Some (inr err) => Some (inr err)
  | None => None
  end.

(** ** The messages of responses *)

(** *** ExportTracePartialSuccess *)

Lemma ExportTracePartialSuccess_codec x : ExportTracePartialSuccess_ok x = true ->
  codec (ExportTracePartialSuccess_MarshalProto x) (ExportTracePartialSuccess_SizeProto x) (fun s =>
    ExportTracePartialSuccess_UnmarshalProto s zeroExportTracePartialSuccess) x.
Proof.
  destruct x as [rejected message]. intros Hok. unfold ExportTracePartialSuccess_ok in Hok. cbn in Hok.
  rewrite ?andb_true_iff in Hok. destruct_and?. eapply carries_codec.
  - fields 1%nat.
    + apply (carries_opt_string _ 0x12 message (fun v => mkExportTracePartialSuccess 0 v)); [lia|reflexivity].
    + apply (carries_opt_varint _ 0x8 rejected i64 (fun v => mkExportTracePartialSuccess v message));
      [lia|reflexivity|by apply i64_u64].
  - unfold ExportTracePartialSuccess_SizeProto. cbn -[lengthPrefixed size_if]. lia.
Qed.

Lemma ExportTracePartialSuccess_list_codec l : forallb ExportTracePartialSuccess_ok l = true ->
  Forall (fun x => codec (ExportTracePartialSuccess_MarshalProto x) (ExportTracePartialSuccess_SizeProto x) (fun s
    => ExportTracePartialSuccess_UnmarshalProto s zeroExportTracePartialSuccess) x) l.
Proof. apply Forall_ok, Forall_true, ExportTracePartialSuccess_codec. Qed.

Lemma zeroExportTracePartialSuccess_ok : is_ok ExportTracePartialSuccess_ok zeroExportTracePartialSuccess.
Proof. done. Qed.

Lemma ExportTracePartialSuccess_UnmarshalProto_ok s x : bytes_ok s -> len s < 2 ^ 63 -> is_ok
  ExportTracePartialSuccess_ok x ->
  outcome_ok (is_ok ExportTracePartialSuccess_ok) (ExportTracePartialSuccess_UnmarshalProto s x).
Proof.
  intros Hs Hl Hx. apply unmarshal_ok; [|done|done|done]. clear x Hx.
  intros [rejected message] f wt buf pos Hv Hb1 Hb2 Hn Hp.
  unfold ExportTracePartialSuccess_cases. each_case f; ranges Hv ExportTracePartialSuccess_ok; case_value
    ExportTracePartialSuccess_ok.
Qed.

#[export] Hint Resolve zeroExportTracePartialSuccess_ok ExportTracePartialSuccess_UnmarshalProto_ok : codec.

(** *** ExportTraceServiceResponse *)

Lemma ExportTraceServiceResponse_codec x : ExportTraceServiceResponse_ok x = true ->
  codec (ExportTraceServiceResponse_MarshalProto x) (ExportTraceServiceResponse_SizeProto x) (fun s =>
    ExportTraceServiceResponse_UnmarshalProto s zeroExportTraceServiceResponse) x.
Proof.
  destruct x as [success]. intros Hok. unfold ExportTraceServiceResponse_ok in Hok. cbn in Hok.
  rewrite ?andb_true_iff in Hok. destruct_and?. eapply carries_codec.
  - eapply (carries_sub _ 0xa _ _ _ _ success (fun v => mkExportTraceServiceResponse v));
    [lia|reflexivity|reflexivity|by apply ExportTracePartialSuccess_codec].
  - done.
Qed.

Lemma ExportTraceServiceResponse_list_codec l : forallb ExportTraceServiceResponse_ok l = true ->
  Forall (fun x => codec (ExportTraceServiceResponse_MarshalProto x) (ExportTraceServiceResponse_SizeProto x) (fun
    s => ExportTraceServiceResponse_UnmarshalProto s zeroExportTraceServiceResponse) x) l.
Proof. apply Forall_ok, Forall_true, ExportTraceServiceResponse_codec. Qed.

Lemma zeroExportTraceServiceResponse_ok : is_ok ExportTraceServiceResponse_ok zeroExportTraceServiceResponse.
Proof. done. Qed.

Lemma ExportTraceServiceResponse_UnmarshalProto_ok s x : bytes_ok s -> len s < 2 ^ 63 -> is_ok
  ExportTraceServiceResponse_ok x ->
  outcome_ok (is_ok ExportTraceServiceResponse_ok) (ExportTraceServiceResponse_UnmarshalProto s x).
Proof.
  intros Hs Hl Hx. apply unmarshal_ok; [|done|done|done]. clear x Hx.
  intros [success] f wt buf pos Hv Hb1 Hb2 Hn Hp.
  unfold ExportTraceServiceResponse_cases. each_case f; ranges Hv ExportTraceServiceResponse_ok; case_value
    ExportTraceServiceResponse_ok.
Qed.

#[export] Hint Resolve zeroExportTraceServiceResponse_ok ExportTraceServiceResponse_UnmarshalProto_ok : codec.

(** *** ExportLogsPartialSuccess *)

Lemma ExportLogsPartialSuccess_codec x : ExportLogsPartialSuccess_ok x = true ->
  codec (ExportLogsPartialSuccess_MarshalProto x) (ExportLogsPartialSuccess_SizeProto x) (fun s =>
    ExportLogsPartialSuccess_UnmarshalProto s zeroExportLogsPartialSuccess) x.
Proof.
  destruct x as [rejected message]. intros Hok. unfold ExportLogsPartialSuccess_ok in Hok. cbn in Hok.
  rewrite ?andb_true_iff in Hok. destruct_and?. eapply carries_codec.
  - fields 1%nat.
    + apply (carries_opt_string _ 0x12 message (fun v => mkExportLogsPartialSuccess 0 v)); [lia|reflexivity].
    + apply (carries_opt_varint _ 0x8 rejected i64 (fun v => mkExportLogsPartialSuccess v message));
      [lia|reflexivity|by apply i64_u64].
  - unfold ExportLogsPartialSuccess_SizeProto. cbn -[lengthPrefixed size_if]. lia.
Qed.

Lemma ExportLogsPartialSuccess_list_codec l : forallb ExportLogsPartialSuccess_ok l = true ->
  Forall (fun x => codec (ExportLogsPartialSuccess_MarshalProto x) (ExportLogsPartialSuccess_SizeProto x) (fun s =>
    ExportLogsPartialSuccess_UnmarshalProto s zeroExportLogsPartialSuccess) x) l.
Proof. apply Forall_ok, Forall_true, ExportLogsPartialSuccess_codec. Qed.

Lemma zeroExportLogsPartialSuccess_ok : is_ok ExportLogsPartialSuccess_ok zeroExportLogsPartialSuccess.
Proof. done. Qed.

Lemma ExportLogsPartialSuccess_UnmarshalProto_ok s x : bytes_ok s -> len s < 2 ^ 63 -> is_ok
  ExportLogsPartialSuccess_ok x ->
  outcome_ok (is_ok ExportLogsPartialSuccess_ok) (ExportLogsPartialSuccess_UnmarshalProto s x).
Proof.
  intros Hs Hl Hx. apply unmarshal_ok; [|done|done|done]. clear x Hx.
  intros [rejected message] f wt buf pos Hv Hb1 Hb2 Hn Hp.
  unfold ExportLogsPartialSuccess_cases. each_case f; ranges Hv ExportLogsPartialSuccess_ok; case_value
    ExportLogsPartialSuccess_ok.
Qed.

#[export] Hint Resolve zeroExportLogsPartialSuccess_ok ExportLogsPartialSuccess_UnmarshalProto_ok : codec.

(** *** ExportLogsServiceResponse *)

Lemma ExportLogsServiceResponse_codec x : ExportLogsServiceResponse_ok x = true ->
  codec (ExportLogsServiceResponse_MarshalProto x) (ExportLogsServiceResponse_SizeProto x) (fun s =>
    ExportLogsServiceResponse_UnmarshalProto s zeroExportLogsServiceResponse) x.
Proof.
  destruct x as [success]. intros Hok. unfold ExportLogsServiceResponse_ok in Hok. cbn in Hok.
  rewrite ?andb_true_iff in Hok. destruct_and?. eapply carries_codec.
  - eapply (carries_sub _ 0xa _ _ _ _ success (fun v => mkExportLogsServiceResponse v));
    [lia|reflexivity|reflexivity|by apply ExportLogsPartialSuccess_codec].
  - done.
Qed.

Lemma ExportLogsServiceResponse_list_codec l : forallb ExportLogsServiceResponse_ok l = true ->
  Forall (fun x => codec (ExportLogsServiceResponse_MarshalProto x) (ExportLogsServiceResponse_SizeProto x) (fun s
    => ExportLogsServiceResponse_UnmarshalProto s zeroExportLogsServiceResponse) x) l.
Proof. apply Forall_ok, Forall_true, ExportLogsServiceResponse_codec. Qed.

Lemma zeroExportLogsServiceResponse_ok : is_ok ExportLogsServiceResponse_ok zeroExportLogsServiceResponse.
Proof. done. Qed.

Lemma ExportLogsServiceResponse_UnmarshalProto_ok s x : bytes_ok s -> len s < 2 ^ 63 -> is_ok
  ExportLogsServiceResponse_ok x ->
  outcome_ok (is_ok ExportLogsServiceResponse_ok) (ExportLogsServiceResponse_UnmarshalProto s x).
Proof.
  intros Hs Hl Hx. apply unmarshal_ok; [|done|done|done]. clear x Hx.
  intros [success] f wt buf pos Hv Hb1 Hb2 Hn Hp.
  unfold ExportLogsServiceResponse_cases. each_case f; ranges Hv ExportLogsServiceResponse_ok; case_value
    ExportLogsServiceResponse_ok.
Qed.

#[export] Hint Resolve zeroExportLogsServiceResponse_ok ExportLogsServiceResponse_UnmarshalProto_ok : codec.

(** *** ExportMetricsPartialSuccess *)

Lemma ExportMetricsPartialSuccess_codec x : ExportMetricsPartialSuccess_ok x = true ->
  codec (ExportMetricsPartialSuccess_MarshalProto x) (ExportMetricsPartialSuccess_SizeProto x) (fun s =>
    ExportMetricsPartialSuccess_UnmarshalProto s zeroExportMetricsPartialSuccess) x.
Proof.
  destruct x as [rejected message]. intros Hok. unfold ExportMetricsPartialSuccess_ok in Hok. cbn in Hok.
  rewrite ?andb_true_iff in Hok. destruct_and?. eapply carries_codec.
  - fields 1%nat.
    + apply (carries_opt_string _ 0x12 message (fun v => mkExportMetricsPartialSuccess 0 v)); [lia|reflexivity].
    + apply (carries_opt_varint _ 0x8 rejected i64 (fun v => mkExportMetricsPartialSuccess v message));
      [lia|reflexivity|by apply i64_u64].
  - unfold ExportMetricsPartialSuccess_SizeProto. cbn -[lengthPrefixed size_if]. lia.
Qed.

Lemma ExportMetricsPartialSuccess_list_codec l : forallb ExportMetricsPartialSuccess_ok l = true ->
  Forall (fun x => codec (ExportMetricsPartialSuccess_MarshalProto x) (ExportMetricsPartialSuccess_SizeProto x)
    (fun s => ExportMetricsPartialSuccess_UnmarshalProto s zeroExportMetricsPartialSuccess) x) l.
Proof. apply Forall_ok, Forall_true, ExportMetricsPartialSuccess_codec. Qed.

Lemma zeroExportMetricsPartialSuccess_ok : is_ok ExportMetricsPartialSuccess_ok zeroExportMetricsPartialSuccess.
Proof. done. Qed.

Lemma ExportMetricsPartialSuccess_UnmarshalProto_ok s x : bytes_ok s -> len s < 2 ^ 63 -> is_ok
  ExportMetricsPartialSuccess_ok x ->
  outcome_ok (is_ok ExportMetricsPartialSuccess_ok) (ExportMetricsPartialSuccess_UnmarshalProto s x).
Proof.
  intros Hs Hl Hx. apply unmarshal_ok; [|done|done|done]. clear x Hx.
  intros [rejected message] f wt buf pos Hv Hb1 Hb2 Hn Hp.
  unfold ExportMetricsPartialSuccess_cases. each_case f; ranges Hv ExportMetricsPartialSuccess_ok; case_value
    ExportMetricsPartialSuccess_ok.
Qed.

#[export] Hint Resolve zeroExportMetricsPartialSuccess_ok ExportMetricsPartialSuccess_UnmarshalProto_ok : codec.

(** *** ExportMetricsServiceResponse *)

Lemma ExportMetricsServiceResponse_codec x : ExportMetricsServiceResponse_ok x = true ->
  codec (ExportMetricsServiceResponse_MarshalProto x) (ExportMetricsServiceResponse_SizeProto x) (fun s =>
    ExportMetricsServiceResponse_UnmarshalProto s zeroExportMetricsServiceResponse) x.
Proof.
  destruct x as [success]. intros Hok. unfold ExportMetricsServiceResponse_ok in Hok. cbn in Hok.
  rewrite ?andb_true_iff in Hok. destruct_and?. eapply carries_codec.
  - eapply (carries_sub _ 0xa _ _ _ _ success (fun v => mkExportMetricsServiceResponse v));
    [lia|reflexivity|reflexivity|by apply ExportMetricsPartialSuccess_codec].
  - done.
Qed.

Lemma ExportMetricsServiceResponse_list_codec l : forallb ExportMetricsServiceResponse_ok l = true ->
  Forall (fun x => codec (ExportMetricsServiceResponse_MarshalProto x) (ExportMetricsServiceResponse_SizeProto x)
    (fun s => ExportMetricsServiceResponse_UnmarshalProto s zeroExportMetricsServiceResponse) x) l.
Proof. apply Forall_ok, Forall_true, ExportMetricsServiceResponse_codec. Qed.

Lemma zeroExportMetricsServiceResponse_ok : is_ok ExportMetricsServiceResponse_ok zeroExportMetricsServiceResponse.
Proof. done. Qed.

Lemma ExportMetricsServiceResponse_UnmarshalProto_ok s x : bytes_ok s -> len s < 2 ^ 63 -> is_ok
  ExportMetricsServiceResponse_ok x ->
  outcome_ok (is_ok ExportMetricsServiceResponse_ok) (ExportMetricsServiceResponse_UnmarshalProto s x).
Proof.
  intros Hs Hl Hx. apply unmarshal_ok; [|done|done|done]. clear x Hx.
  intros [success] f wt buf pos Hv Hb1 Hb2 Hn Hp.
  unfold ExportMetricsServiceResponse_cases. each_case f; ranges Hv ExportMetricsServiceResponse_ok; case_value
    ExportMetricsServiceResponse_ok.
Qed.

#[export] Hint Resolve zeroExportMetricsServiceResponse_ok ExportMetricsServiceResponse_UnmarshalProto_ok : codec.

(** *** ExportProfilesPartialSuccess *)

Lemma ExportProfilesPartialSuccess_codec x : ExportProfilesPartialSuccess_ok x = true ->
  codec (ExportProfilesPartialSuccess_MarshalProto x) (ExportProfilesPartialSuccess_SizeProto x) (fun s =>
    ExportProfilesPartialSuccess_UnmarshalProto s zeroExportProfilesPartialSuccess) x.
Proof.
  destruct x as [rejected message]. intros Hok. unfold ExportProfilesPartialSuccess_ok in Hok. cbn in Hok.
  rewrite ?andb_true_iff in Hok. destruct_and?. eapply carries_codec.
  - fields 1%nat.
    + apply (carries_opt_string _ 0x12 message (fun v => mkExportProfilesPartialSuccess 0 v)); [lia|reflexivity].
    + apply (carries_opt_varint _ 0x8 rejected i64 (fun v => mkExportProfilesPartialSuccess v message));
      [lia|reflexivity|by apply i64_u64].
  - unfold ExportProfilesPartialSuccess_SizeProto. cbn -[lengthPrefixed size_if]. lia.
Qed.

Lemma ExportProfilesPartialSuccess_list_codec l : forallb ExportProfilesPartialSuccess_ok l = true ->
  Forall (fun x => codec (ExportProfilesPartialSuccess_MarshalProto x) (ExportProfilesPartialSuccess_SizeProto x)
    (fun s => ExportProfilesPartialSuccess_UnmarshalProto s zeroExportProfilesPartialSuccess) x) l.
Proof. apply Forall_ok, Forall_true, ExportProfilesPartialSuccess_codec. Qed.

Lemma zeroExportProfilesPartialSuccess_ok : is_ok ExportProfilesPartialSuccess_ok zeroExportProfilesPartialSuccess.
Proof. done. Qed.

Lemma ExportProfilesPartialSuccess_UnmarshalProto_ok s x : bytes_ok s -> len s < 2 ^ 63 -> is_ok
  ExportProfilesPartialSuccess_ok x ->
  outcome_ok (is_ok ExportProfilesPartialSuccess_ok) (ExportProfilesPartialSuccess_UnmarshalProto s x).
Proof.
  intros Hs Hl Hx. apply unmarshal_ok; [|done|done|done]. clear x Hx.
  intros [rejected message] f wt buf pos Hv Hb1 Hb2 Hn Hp.
  unfold ExportProfilesPartialSuccess_cases. each_case f; ranges Hv ExportProfilesPartialSuccess_ok; case_value
    ExportProfilesPartialSuccess_ok.
Qed.

#[export] Hint Resolve zeroExportProfilesPartialSuccess_ok ExportProfilesPartialSuccess_UnmarshalProto_ok : codec.

(** *** ExportProfilesServiceResponse *)

Lemma ExportProfilesServiceResponse_codec x : ExportProfilesServiceResponse_ok x = true ->
  codec (ExportProfilesServiceResponse_MarshalProto x) (ExportProfilesServiceResponse_SizeProto x) (fun s =>
    ExportProfilesServiceResponse_UnmarshalProto s zeroExportProfilesServiceResponse) x.
Proof.
  destruct x as [success]. intros Hok. unfold ExportProfilesServiceResponse_ok in Hok. cbn in Hok.
  rewrite ?andb_true_iff in Hok. destruct_and?. eapply carries_codec.
  - eapply (carries_sub _ 0xa _ _ _ _ success (fun v => mkExportProfilesServiceResponse v));
    [lia|reflexivity|reflexivity|by apply ExportProfilesPartialSuccess_codec].
  - done.
Qed.

Lemma ExportProfilesServiceResponse_list_codec l : forallb ExportProfilesServiceResponse_ok l = true ->
  Forall (fun x => codec (ExportProfilesServiceResponse_MarshalProto x) (ExportProfilesServiceResponse_SizeProto x)
    (fun s => ExportProfilesServiceResponse_UnmarshalProto s zeroExportProfilesServiceResponse) x) l.
Proof. apply Forall_ok, Forall_true, ExportProfilesServiceResponse_codec. Qed.

Lemma zeroExportProfilesServiceResponse_ok : is_ok ExportProfilesServiceResponse_ok
  zeroExportProfilesServiceResponse.
Proof. done. Qed.

Lemma ExportProfilesServiceResponse_UnmarshalProto_ok s x : bytes_ok s -> len s < 2 ^ 63 -> is_ok
  ExportProfilesServiceResponse_ok x ->
  outcome_ok (is_ok ExportProfilesServiceResponse_ok) (ExportProfilesServiceResponse_UnmarshalProto s x).
Proof.
  intros Hs Hl Hx. apply unmarshal_ok; [|done|done|done]. clear x Hx.
  intros [success] f wt buf pos Hv Hb1 Hb2 Hn Hp.
  unfold ExportProfilesServiceResponse_cases. each_case f; ranges Hv ExportProfilesServiceResponse_ok; case_value
    ExportProfilesServiceResponse_ok.
Qed.

#[export] Hint Resolve zeroExportProfilesServiceResponse_ok ExportProfilesServiceResponse_UnmarshalProto_ok : codec.

(** ** One OTLP hop *)

(** The migration of a request, and the requests it leaves as they are: those without a
    deprecated list. *)
Definition migratedTraces (td : ExportTraceServiceRequest) : ExportTraceServiceRequest :=
  mkExportTraceServiceRequest (MigrateTraces (ExportTraceServiceRequest_ResourceSpans td)).
Definition migratedLogs (ld : ExportLogsServiceRequest) : ExportLogsServiceRequest :=
  mkExportLogsServiceRequest (MigrateLogs (ExportLogsServiceRequest_ResourceLogs ld)).
Definition migratedMetrics (md : ExportMetricsServiceRequest) : ExportMetricsServiceRequest :=
  mkExportMetricsServiceRequest (MigrateMetrics (ExportMetricsServiceRequest_ResourceMetrics md)).

(** A map that changes only elements which do not satisfy [P], and whose results do. *)
Lemma map_fixed {A} (P : A -> Prop) (f : A -> A) l :
  (forall x, P x -> f x = x) -> (forall x, P (f x)) -> (Forall P l -> map f l = l) /\ Forall P (map f l) /\ map f (map f l) = map f l.
Proof.
  intros Hid HP. assert (forall k, Forall P k -> map f k = k) as E
    by (intros k; induction 1 as [|x k Hx _ IH]; [done|]; simpl; by rewrite Hid, IH).
  assert (Forall P (map f l)) as F by (induction l; constructor; done). split; [apply E|split; [exact F|by apply E]].
Qed.

Definition undeprecated_traces (td : ExportTraceServiceRequest) : Prop :=
  Forall (fun rs => ResourceSpans_DeprecatedScopeSpans rs = []) (ExportTraceServiceRequest_ResourceSpans td).
Definition undeprecated_logs (ld : ExportLogsServiceRequest) : Prop :=
  Forall (fun rl => ResourceLogs_DeprecatedScopeLogs rl = []) (ExportLogsServiceRequest_ResourceLogs ld).
Definition undeprecated_metrics (md : ExportMetricsServiceRequest) : Prop :=
  Forall (fun rm => ResourceMetrics_DeprecatedScopeMetrics rm = []) (ExportMetricsServiceRequest_ResourceMetrics md).

(** The goals about the migration of [l], whose elements have no deprecated list when [P]. *)
Ltac migrates P l :=
  lazymatch goal with
  | |- context [map ?f l] =>
      let E := fresh in let F := fresh in let Hl := fresh in
      destruct (map_fixed P f l ltac:(intros [? [|? ?] ? ?]; simpl; intros ->; reflexivity) ltac:(reflexivity)) as (E & F & _);
      split; [intros Hl; f_equal; exact (E Hl)|exact F]
  end.

Lemma migratedTraces_fixed td :
  (undeprecated_traces td -> migratedTraces td = td) /\ undeprecated_traces (migratedTraces td).
Proof.
  destruct td as [l]. unfold undeprecated_traces, migratedTraces, MigrateTraces. simpl. migrates (fun rs => ResourceSpans_DeprecatedScopeSpans rs = []) l.
Qed.

Lemma migratedLogs_fixed ld : (undeprecated_logs ld -> migratedLogs ld = ld) /\ undeprecated_logs (migratedLogs ld).
Proof.
  destruct ld as [l]. unfold undeprecated_logs, migratedLogs, MigrateLogs. simpl. migrates (fun rl => ResourceLogs_DeprecatedScopeLogs rl = []) l.
Qed.

Lemma migratedMetrics_fixed md :
  (undeprecated_metrics md -> migratedMetrics md = md) /\ undeprecated_metrics (migratedMetrics md).
Proof.
  destruct md as [l]. unfold undeprecated_metrics, migratedMetrics, MigrateMetrics. simpl. migrates (fun rm => ResourceMetrics_DeprecatedScopeMetrics rm = []) l.
Qed.

(** What is written, unmarshaled, migrated and handed on. *)
Lemma hop_delivers {A} mp n (um : bytes -> option (A + error)) (migrate : A -> A) (Export : A -> option A) x :
  codec mp n um x -> n < 2 ^ 63 ->
  exists buf, match mp (replicate (Z.to_nat n) 0) with Some (buf, _) => Some buf | None => None end = Some buf /\
    received (fun data => match um data with Some (inl y) => Some (inl (migrate y)) | r => r end) Export buf =
      Some (inl (Export (migrate x))).
Proof.
  intros C Hn. pose proof (codec_nonneg _ _ _ _ C).
  destruct (codec_buffer _ _ _ _ C Hn (replicate (Z.to_nat n) 0)) as (buf & M & _ & U).
  { unfold len. rewrite length_replicate. lia. }
  exists buf. unfold received. by rewrite M, U.
Qed.


(** The two ways to write profiles do not go together: what MarshalProfiles wrote, with its
    strings in the table, the receiver hands on with keys that are empty, and it does not
    resolve them. *)
Lemma receiver_does_not_resolve :
  let pd := with_attributes [mkKeyValue (AnyValue_BoolValue true) [97] 0] [[]] in
  ('(buf, _) ← ProtoMarshaler_MarshalProfiles true pd; pprofileotlp_UnmarshalProto buf) =
    Some (inl (with_attributes [mkKeyValue (AnyValue_BoolValue true) [] 1] [[]; [97]])) /\
  ('(buf, _) ← ProtoMarshaler_MarshalProfiles true pd; ProtoUnmarshaler_UnmarshalProfiles buf) =
    Some (inl (with_attributes [mkKeyValue (AnyValue_BoolValue true) [97] 1] [[]; [97]])).
Proof. split; vm_compute; reflexivity. Qed.

(** The unmarshaler of pb.go does not migrate: of a payload whose spans are in a deprecated
    list it returns traces without a span, and the receiver a span. *)
Theorem unmarshaler_does_not_migrate :
  let td := mkExportTraceServiceRequest
    [mkResourceSpans zeroResource [] [] [mkScopeSpans zeroInstrumentationScope [zeroSpan] []]] in
  exists buf, ptraceotlp_MarshalProto td = Some buf /\
    ProtoUnmarshaler_UnmarshalTraces buf = Some (inl td) /\ SpanCount td = 0 /\
    exists td', received ptraceotlp_UnmarshalProto Export_traces buf = Some (inl (Some td')) /\ SpanCount td' = 1.
Proof.
  eexists. split; [vm_compute; reflexivity|]. split; [vm_compute; reflexivity|]. split; [reflexivity|].
  eexists. split; [vm_compute; reflexivity|reflexivity].
Qed.

