(* ===== verification/Cgroups.v ===== *)
(** * Cgroups: the memory a process may use

    Models internal/memorylimiter/cgroups (mountpoint.go, subsys.go, cgroup.go, cgroups.go)
    and iruntime/total_memory_linux.go, over the files of /proc and of the cgroups.  The
    first part is path/filepath on Unix: a path is the list of its elements.  What reads
    /proc/meminfo is a parameter. *)

From Stdlib Require Import Ascii.
From S2P Require Import Prelude GoErrors Ids GoStrings MemoryLimiter.

(** ** path/filepath: Clean, Join and Rel *)

Definition slash : ascii := "/"%char.

Definition isAbs (path : string) : bool := HasPrefix path "/".

(** One element of a path after those of [acc], the last one first. *)
Definition cleanStep (rooted : bool) (acc : list string) (e : string) : list string :=
  if decide (e = "" \/ e = ".") then acc
  else if decide (e = "..") then
    match acc with
    | [] => if rooted then [] else [e]
    | x :: acc' => if decide (x = "..") then e :: acc else acc'
    end
  else e :: acc.

Definition elements (path : string) : list string :=
  reverse (foldl (cleanStep (isAbs path)) [] (Split path slash)).

Definition fromElements (rooted : bool) (es : list string) : string :=
  if rooted then "/" +:+ Join es "/" else if decide (es = []) then "." else Join es "/".

Definition Clean (path : string) : string := fromElements (isAbs path) (elements path).

Definition PathJoin (a b : string) : string :=
  match filter (fun s => s <> "") [a; b] with [] => "" | l => Clean (Join l "/") end.

(** What is left of two lists behind their longest common prefix. *)
Fixpoint diverge (base targ : list string) : list string * list string :=
  match base, targ with
  | b :: base', t :: targ' => if decide (b = t) then diverge base' targ' else (base, targ)
  | _, _ => (base, targ)
  end.

Definition errRel (basepath targpath : string) : error :=
  ErrNew ("Rel: can't make " +:+ targpath +:+ " relative to " +:+ basepath).

Definition Rel (basepath targpath : string) : string + error :=
  if decide (Clean basepath = Clean targpath) then inl "."
  else if decide (isAbs basepath <> isAbs targpath) then inr (errRel basepath targpath)
  else
    let '(b, t) := diverge (elements basepath) (elements targpath) in
    if decide (head b = Some "..") then inr (errRel basepath targpath)
    else inl (Join (replicate (length b) ".." ++ t) "/").

Example Clean_test :
  Clean "/a/../../b//./c/" = "/b/c" /\ Clean "a/../.." = ".." /\ Clean "" = "." /\ PathJoin "" "" = "" /\
  Rel "/a/b" "/a/c/d" = inl "../c/d" /\ Rel "/" "/x" = inl "x" /\ Rel "/a" "a" = inr (errRel "/a" "a").
Proof. vm_compute. auto 8. Qed.

(** ** mountpoint.go *)

Record MountPoint := mkMountPoint {
  MountID : Z;
  ParentID : Z;
  DeviceID : string;
  Root : string;
  MountedAt : string;  (** the field MountPoint *)
  Options : list string;
  OptionalFields : list string;
  FSType : string;
  MountSource : string;
  SuperOptions : list string;
}.

Definition mountPointFormatInvalidError (line : string) : error :=
  ErrNew ("invalid format for MountPoint: " +:+ line).
Definition pathNotExposedFromMountPointError (mountPoint root path : string) : error :=
  ErrNew ("path " +:+ path +:+ " is not a descendant of mount point root " +:+ root +:+
          " and cannot be exposed from " +:+ mountPoint).

Definition miFieldCountFirstHalf : nat := 7.
Definition miFieldCountSecondHalf : nat := 3.
Definition miFieldCountMin : nat := miFieldCountFirstHalf + miFieldCountSecondHalf.

Definition errNum (s : string) (e : numError) : error :=
  ErrNew ("strconv.Atoi: parsing " +:+ s +:+ match e with ErrSyntax => ": invalid syntax" | ErrRange => ": value out of range" end).

Definition Atoi (s : string) : Z + error :=
  match ParseInt s with (n, None) => inl n | (_, Some e) => inr (errNum s e) end.

(** The loop over the fields from the optional ones on: [i] of them were no separator. *)
Fixpoint separator (fields : list string) (i : nat) : option nat :=
  match fields with
  | [] => None
  | f :: fields => if decide (f = "-") then Some i else separator fields (S i)
  end.

Definition field (fields : list string) (i : nat) : string := nth i fields "".

Definition NewMountPointFromLine (line : string) : MountPoint + error :=
  let fields := Split line " "%char in
  if decide (length fields < miFieldCountMin)%nat then inr (mountPointFormatInvalidError line)
  else
    match Atoi (field fields 0) with
    | inr err => inr err
    | inl mountID =>
        match Atoi (field fields 1) with
        | inr err => inr err
        | inl parentID =>
            match separator (drop 6 fields) 0 with
            | None => inr (mountPointFormatInvalidError line)
            | Some i =>
                let fsTypeStart := (6 + i + 1)%nat in
                if decide (length fields <> fsTypeStart + miFieldCountSecondHalf)%nat
                then inr (mountPointFormatInvalidError line)
                else
                  inl (mkMountPoint mountID parentID (field fields 2) (field fields 3) (field fields 4)
                         (Split (field fields 5) ","%char) (take (fsTypeStart - 1 - 6) (drop 6 fields))
                         (field fields fsTypeStart) (field fields (1 + fsTypeStart))
                         (Split (field fields (2 + fsTypeStart)) ","%char))
            end
        end
    end.

Definition Translate (mp : MountPoint) (absPath : string) : string + error :=
  match Rel (Root mp) absPath with
  | inr err => inr err
  | inl relPath =>
      if decide (relPath = ".." \/ HasPrefix relPath "../" = true)
      then inr (pathNotExposedFromMountPointError (MountedAt mp) (Root mp) absPath)
      else inl (PathJoin (MountedAt mp) relPath)
  end.

(** ** subsys.go *)

Record CGroupSubsys := mkCGroupSubsys { ID : Z; Subsystems : list string; Name : string }.

Definition cgroupSubsysFormatInvalidError (line : string) : error :=
  ErrNew ("invalid format for CGroupSubsys: " +:+ line).

Definition csFieldCount : nat := 3.

Definition NewCGroupSubsysFromLine (line : string) : CGroupSubsys + error :=
  let fields := SplitN line ":"%char csFieldCount in
  if decide (length fields <> csFieldCount) then inr (cgroupSubsysFormatInvalidError line)
  else
    match Atoi (field fields 0) with
    | inr err => inr err
    | inl id => inl (mkCGroupSubsys id (Split (field fields 1) ","%char) (field fields 2))
    end.

(** The file system, and os.IsNotExist.  [Open] gives what can be read of a file, and the
    error that reading ends with in place of the end of the file. *)
Class FileSystem := {
  Open : string -> (string * option error) + error;
  IsNotExist : error -> bool;
}.

Definition errTooLong : error := ErrNew "bufio.Scanner: token too long".
Definition errUnexpectedEOF : error := ErrNew "unexpected EOF".

(** A loop over the lines of a file that ends with the first error. *)
Fixpoint eachLine {S} (f : string -> S -> S + error) (lines : list string) (s : S) : S + error :=
  match lines with
  | [] => inl s
  | l :: lines => match f l s with inl s => eachLine f lines s | inr err => inr err end
  end.

Section files.
Context `{FileSystem}.

Definition scanFile {S} (path : string) (f : string -> S -> S + error) (s : S) : S + error :=
  match Open (Clean path) with
  | inr err => inr err
  | inl file =>
      let '(lines, scanErr) := Scan errTooLong file in
      match eachLine f lines s with
      | inr err => inr err
      | inl s => match scanErr with Some err => inr err | None => inl s end
      end
  end.

Definition addSubsystem (line : string) (subsystems : gmap string CGroupSubsys) : gmap string CGroupSubsys + error :=
  match NewCGroupSubsysFromLine line with
  | inr err => inr err
  | inl cgroup => inl (foldl (fun m subsys => <[subsys := cgroup]> m) subsystems (Subsystems cgroup))
  end.

Definition parseCGroupSubsystems (procPathCGroup : string) : gmap string CGroupSubsys + error :=
  scanFile procPathCGroup addSubsystem ∅.

Definition parseMountInfo {S} (procPathMountInfo : string) (newMountPoint : MountPoint -> S -> S + error) : S -> S + error :=
  scanFile procPathMountInfo (fun line s =>
    match NewMountPointFromLine line with inr err => inr err | inl mp => newMountPoint mp s end).

(** ** cgroup.go: a CGroup is its path *)

Definition ParamPath (cg param : string) : string := PathJoin cg param.

Definition firstLine (file : string * option error) : string + error :=
  match Scan errTooLong file with
  | (text :: _, _) => inl text
  | ([], Some err) => inr err
  | ([], None) => inr errUnexpectedEOF
  end.

Definition readFirstLine (cg param : string) : string + error :=
  match Open (ParamPath cg param) with inr err => inr err | inl file => firstLine file end.

Definition errInt (s : string) (e : numError) : error :=
  ErrNew ("strconv.ParseInt: parsing " +:+ s +:+ match e with ErrSyntax => ": invalid syntax" | ErrRange => ": value out of range" end).

Definition readInt (cg param : string) : Z * option error :=
  match readFirstLine cg param with
  | inr err => (0, Some err)
  | inl text => let '(n, e) := ParseInt text in (n, errInt text <$> e)
  end.

(** ** cgroups.go: the path of the CGroup of each subsystem *)

Definition CGroups := gmap string string.

Fixpoint addOptions (cgroupSubsystems : gmap string CGroupSubsys) (mp : MountPoint) (opts : list string)
    (cgroups : CGroups) : CGroups + error :=
  match opts with
  | [] => inl cgroups
  | opt :: opts =>
      match cgroupSubsystems !! opt with
      | None => addOptions cgroupSubsystems mp opts cgroups
      | Some subsys =>
          match Translate mp (Name subsys) with
          | inr err => inr err
          | inl cgroupPath =>
              addOptions cgroupSubsystems mp opts
                (if HasPrefix cgroupPath "/sys" then <[opt := cgroupPath]> cgroups else cgroups)
          end
      end
  end.

Definition NewCGroups (procPathMountInfo procPathCGroup : string) : CGroups + error :=
  match parseCGroupSubsystems procPathCGroup with
  | inr err => inr err
  | inl cgroupSubsystems =>
      parseMountInfo procPathMountInfo
        (fun mp cgroups =>
           if decide (FSType mp <> "cgroup") then inl cgroups
           else addOptions cgroupSubsystems mp (SuperOptions mp) cgroups) ∅
  end.

Definition procPathCGroup : string := "/proc/self/cgroup".
Definition procPathMountInfo : string := "/proc/self/mountinfo".
Definition cgroupv2MountPoint : string := "/sys/fs/cgroup".

Definition NewCGroupsForCurrentProcess : CGroups + error := NewCGroups procPathMountInfo procPathCGroup.

(** The quota, whether it is defined, and the error. *)
Definition MemoryQuota (cg : CGroups) : Z * bool * option error :=
  match cg !! "memory" with
  | None => (-1, false, None)
  | Some memCGroup =>
      let '(memLimitBytes, err) := readInt memCGroup "memory.limit_in_bytes" in
      let defined := bool_decide (0 < memLimitBytes) in
      match err, defined with
      | None, true => (memLimitBytes, true, None)
      | _, _ => (-1, defined, err)
      end
  end.

Definition isCGroupV2 (procPathMountInfo : string) : bool + error :=
  parseMountInfo procPathMountInfo
    (fun mp isV2 =>
       inl (if decide (FSType mp = "cgroup2" /\ MountedAt mp = cgroupv2MountPoint) then true else isV2)) false.

Definition IsCGroupV2 : bool + error := isCGroupV2 procPathMountInfo.

Definition memoryQuotaV2 (cgroupv2MountPoint cgroupv2MemoryMax : string) : Z * bool * option error :=
  match Open (Clean (PathJoin cgroupv2MountPoint cgroupv2MemoryMax)) with
  | inr err => if IsNotExist err then (-1, false, None) else (-1, false, Some err)
  | inl file =>
      match firstLine file with
      | inr err => (-1, false, Some err)
      | inl text =>
          let value := TrimSpace text in
          if decide (value = "max") then (-1, false, None)
          else match ParseInt value with
               | (_, Some e) => (-1, false, Some (errInt value e))
               | (maxVal, None) => (maxVal, true, None)
               end
      end
  end.

Definition MemoryQuotaV2 : Z * bool * option error := memoryQuotaV2 cgroupv2MountPoint "memory.max".

(** ** iruntime: the total memory; [readMemInfo] is what gopsutil reports *)

Context (readMemInfo : Z + error).

Definition unlimitedMemorySize : Z := 9223372036854771712.

Definition TotalMemory : Z + error :=
  match IsCGroupV2 with
  | inr err => inr err
  | inl isV2 =>
      let quota :=
        if (isV2 : bool) then inl MemoryQuotaV2
        else match NewCGroupsForCurrentProcess with inr err => inr err | inl cgv1 => inl (MemoryQuota cgv1) end in
      match quota with
      | inr err => inr err
      | inl (_, _, Some err) => inr err
      | inl (memoryQuota, defined, None) =>
          if decide (memoryQuota = unlimitedMemorySize \/ defined = false) then readMemInfo
          else inl (u64 memoryQuota)
      end
  end.
End files.

(** ** The elements of a clean path *)

Definition plain (e : string) : Prop := (e <> "" /\ e <> ".") /\ e <> ".." /\ free slash e.

(** The shape of a list of elements, the last one first. *)
Definition shape (rooted : bool) (acc : list string) : Prop :=
  exists es n, acc = es ++ replicate n ".." /\ Forall plain es /\ (rooted = true -> n = 0%nat).

Lemma cleanStep_shape rooted acc e : free slash e -> shape rooted acc -> shape rooted (cleanStep rooted acc e).
Proof.
  intros He (es & n & -> & Hes & Hn). unfold cleanStep.
  case_decide; [by exists es, n|]. case_decide; subst.
  - destruct es as [|x es]; simpl.
    + destruct n as [|n]; simpl.
      * destruct rooted; [by exists [], 0%nat|]. by exists [], 1%nat.
      * exists [], (S (S n)). split_and!; [done|done|]. intros Hr. by specialize (Hn Hr).
    + apply Forall_cons in Hes as [(_ & Hx & _) Hes]. rewrite decide_False by done. by exists es, n.
  - exists (e :: es), n. split_and!; [done| |done]. constructor; [|done]. unfold plain. tauto.
Qed.

Lemma elements_shape path : shape (isAbs path) (reverse (elements path)).
Proof.
  unfold elements. rewrite reverse_involutive. generalize (isAbs path) as rooted. intros rooted.
  assert (Hs : shape rooted []) by (by exists [], 0%nat).
  revert Hs. generalize (@nil string) as acc. induction (Split_pieces path slash) as [|e l He Hl IH]; intros acc Hacc; [done|].
  simpl. by apply IH, cleanStep_shape.
Qed.

Lemma elements_plain path : isAbs path = true -> Forall plain (elements path).
Proof.
  intros Ha. destruct (elements_shape path) as (es & n & E & Hes & Hn). rewrite (Hn Ha), app_nil_r in E.
  apply (f_equal reverse) in E. rewrite reverse_involutive in E. rewrite E. by apply Forall_reverse.
Qed.

Lemma fold_plain rooted es acc : Forall plain es -> foldl (cleanStep rooted) acc es = reverse es ++ acc.
Proof.
  intros Hes. revert acc. induction Hes as [|e es (Hd & Hdd & Hf) Hes IH]; intros acc; [done|].
  simpl. rewrite IH, reverse_cons, <- app_assoc. unfold cleanStep.
  rewrite decide_False by tauto. by rewrite decide_False.
Qed.

Lemma fold_dots acc n : (forall x, head acc = Some x -> x = "..") ->
  foldl (cleanStep false) acc (replicate n "..") = replicate n ".." ++ acc.
Proof.
  revert acc. induction n as [|n IH]; intros acc Hacc; [done|]. simpl.
  assert (E : cleanStep false acc ".." = ".." :: acc).
  { unfold cleanStep. rewrite decide_False by (intros [|]; done). rewrite decide_True by done.
    destruct acc as [|x acc]; [done|]. by rewrite decide_True by (apply Hacc; done). }
  rewrite E, IH by (by intros x [= <-]). clear. change (replicate n ".." ++ [".."] ++ acc = (".." :: replicate n "..") ++ acc).
  rewrite app_assoc, <- replicate_cons_app. done.
Qed.

Lemma plain_frees es : Forall plain es -> Forall (free slash) es.
Proof. intros Hes. eapply Forall_impl; [exact Hes|]. unfold plain. tauto. Qed.

Lemma isAbs_cons c s : c <> slash -> isAbs (String c s) = false.
Proof. intros Hc. change (bool_decide (slash = c) && HasPrefix s "" = false). by rewrite bool_decide_eq_false_2 by done. Qed.

(** A rooted list of elements and its path say the same. *)
Lemma elements_fromElements rooted es :
  shape rooted (reverse es) -> elements (fromElements rooted es) = es /\ isAbs (fromElements rooted es) = rooted.
Proof.
  intros (es' & n & E & Hes & Hn). apply (f_equal reverse) in E.
  rewrite reverse_involutive, reverse_app in E. apply Forall_reverse in Hes.
  revert E Hes. generalize (reverse es'). clear es'. intros l. rewrite reverse_replicate. intros -> Hl.
  unfold fromElements. destruct rooted.
  - rewrite Hn by done. simpl. split; [|done]. unfold elements. cbn [isAbs HasPrefix]. 
    change (Split _ slash) with ("" :: Split (Join l "/") slash). simpl.
    change (cleanStep _ [] "") with (@nil string).
    destruct l as [|e l]; [done|]. rewrite Split_Join by (done || by apply plain_frees).
    rewrite fold_plain by done. by rewrite app_nil_r, reverse_involutive.
  - case_decide as Hnil.
    { rewrite Hnil. done. }
    assert (Hf : Forall (free slash) (replicate n ".." ++ l)).
    { apply Forall_app; split; [|by apply plain_frees]. apply Forall_replicate. repeat split; done. }
    assert (Ha : isAbs (Join (replicate n ".." ++ l) "/") = false).
    { destruct n as [|n]; [|destruct n, l; done]. destruct l as [|e l]; [done|].
      apply Forall_cons in Hl as [((He & _) & _ & Hs) _]. destruct e as [|c e]; [done|]. destruct Hs as [Hc _].
      destruct l; by apply isAbs_cons. }
    split; [|done]. unfold elements. rewrite Ha, Split_Join, foldl_app by done.
    rewrite fold_dots, fold_plain, app_nil_r by done. by rewrite reverse_app, reverse_involutive, reverse_replicate.
Qed.

Lemma Clean_inj p q : Clean p = Clean q <-> isAbs p = isAbs q /\ elements p = elements q.
Proof.
  unfold Clean. split; [|by intros [-> ->]]. intros E.
  destruct (elements_fromElements _ _ (elements_shape p)) as [Ep Ap].
  destruct (elements_fromElements _ _ (elements_shape q)) as [Eq Aq].
  rewrite E in Ep, Ap. split; congruence.
Qed.

Lemma diverge_spec base targ b t : diverge base targ = (b, t) ->
  exists p, base = p ++ b /\ targ = p ++ t /\ (b = [] \/ t = [] \/ head b <> head t).
Proof.
  revert targ. induction base as [|x base IH]; intros targ; simpl.
  { intros [= <- <-]. exists []. auto. }
  destruct targ as [|y targ]; [intros [= <- <-]; exists []; auto|].
  case_decide as Hxy; [subst|intros [= <- <-]; exists []; split_and!; [done..|]; right; right; by intros [= ?]].
  intros (p & -> & -> & Hd)%IH. by exists (y :: p).
Qed.

Lemma diverge_prefix base rest : diverge base (base ++ rest) = ([], rest).
Proof. induction base as [|x base IH]; simpl; [done|]. by rewrite decide_True. Qed.

(** The relative path below a directory. *)
Definition below (rest : list string) : string := if decide (rest = []) then "." else Join rest "/".

Lemma below_nonempty rest : Forall plain rest -> below rest <> "".
Proof.
  unfold below. intros Hr. case_decide; [done|]. destruct Hr as [|e l [[He _] _]]; [done|]. destruct e, l; done.
Qed.

Lemma fold_below rooted rest acc : Forall plain rest ->
  foldl (cleanStep rooted) acc (Split (below rest) slash) = reverse rest ++ acc.
Proof.
  intros Hr. unfold below. case_decide as Hn; [by subst|].
  rewrite Split_Join by (done || by apply plain_frees). by apply fold_plain.
Qed.

Lemma below_relative rest : Forall plain rest -> isAbs (below rest) = false.
Proof.
  unfold below. intros Hr. case_decide; [done|]. destruct Hr as [|e l ((He & _) & _ & Hs) _]; [done|].
  destruct e as [|c e]; [done|]. destruct Hs as [Hc _]. destruct l; by apply isAbs_cons.
Qed.

Lemma PathJoin_below m rest : Forall plain rest ->
  PathJoin m (below rest) = fromElements (isAbs m) (elements m ++ rest).
Proof.
  intros Hr. pose proof (below_nonempty rest Hr) as Hb. unfold PathJoin.
  destruct (decide (m = "")) as [->|Hm].
  - rewrite filter_cons_False, filter_cons_True by auto.
    change (Clean (below rest) = fromElements false rest). unfold Clean, elements.
    rewrite below_relative, fold_below by done. by rewrite app_nil_r, reverse_involutive.
  - rewrite !filter_cons_True by auto. change (Join _ "/") with (m +:+ String slash (below rest)).
    assert (Ha : isAbs (m +:+ String slash (below rest)) = isAbs m) by (destruct m; done).
    unfold Clean, elements. rewrite Ha, Split_app, foldl_app, fold_below by done.
    by rewrite reverse_app, reverse_involutive.
Qed.

Lemma parents_rejected n rest : HasPrefix (Join (replicate (S n) ".." ++ rest) "/") "../" = true \/
  Join (replicate (S n) ".." ++ rest) "/" = "..".
Proof.
  simpl. destruct (replicate n ".." ++ rest) as [|x l] eqn:E; [by right|left].
  change (HasPrefix (".." +:+ "/" +:+ Join (x :: l) "/") "../" = true). done.
Qed.

Lemma below_accepted rest : Forall plain rest -> ~ (below rest = ".." \/ HasPrefix (below rest) "../" = true).
Proof.
  intros Hr Hd.
  assert (E : exists t, below rest = ".." +:+ t /\ (t = "" \/ exists u, t = String slash u)).
  { destruct Hd as [->|[t ->]%HasPrefix_spec]; [exists ""; auto|exists (String slash t); eauto]. }
  clear Hd. destruct E as (t & E & Ht).
  unfold below in E. case_decide as Hn; [by destruct Ht as [->|[u ->]]|].
  pose proof (f_equal (fun s => Split s slash) E) as Es. cbv beta in Es.
  rewrite Split_Join in Es by (done || by apply plain_frees).
  assert (Hh : head rest = Some "..").
  { rewrite Es. destruct Ht as [->|[u ->]]; [done|]. by rewrite Split_app. }
  destruct Hr as [|e l (_ & He & _) _]; [done|]. by injection Hh.
Qed.

(** ** What Translate exposes *)

Definition exposed (mp : MountPoint) (rest : list string) : string :=
  fromElements (isAbs (MountedAt mp)) (elements (MountedAt mp) ++ rest).

Lemma exposed_elements mp rest : Forall plain rest ->
  elements (exposed mp rest) = elements (MountedAt mp) ++ rest.
Proof.
  intros Hr. apply elements_fromElements. destruct (elements_shape (MountedAt mp)) as (es & n & E & Hes & Hn).
  exists (reverse rest ++ es), n. rewrite reverse_app, E, app_assoc. split_and!; [done| |done].
  apply Forall_app. split; [by apply Forall_reverse|done].
Qed.

Lemma Rel_below root path rest : isAbs root = true -> isAbs path = true ->
  elements path = elements root ++ rest -> Rel root path = inl (below rest).
Proof.
  intros Hr Hp E. unfold Rel, below. case_decide as Hc.
  - apply Clean_inj in Hc as [_ Hc]. rewrite Hc in E. rewrite <- (app_nil_r (elements path)) in E at 1.
    apply app_inv_head in E as <-. done.
  - rewrite decide_False by congruence. rewrite E, diverge_prefix. simpl.
    rewrite (decide_False (P := rest = [])); [done|]. intros ->. apply Hc, Clean_inj.
    rewrite app_nil_r in E. split; congruence.
Qed.

Lemma Rel_outside root path r : isAbs root = true -> isAbs path = true ->
  (forall rest, elements path <> elements root ++ rest) -> Rel root path = inl r ->
  r = ".." \/ HasPrefix r "../" = true.
Proof.
  intros Hr Hp Hout. unfold Rel. case_decide as Hc.
  { apply Clean_inj in Hc as [_ Hc]. destruct (Hout []). by rewrite app_nil_r. }
  rewrite decide_False by congruence. destruct (diverge _ _) as [b t] eqn:Ed.
  apply diverge_spec in Ed as (p & Eb & Et & _). case_decide; [done|]. intros [= <-].
  destruct b as [|x b]; [by destruct (Hout t); rewrite Et, Eb, app_nil_r|].
  destruct (parents_rejected (length b) t); auto.
Qed.

(** the path of a cgroup is exposed by a mount point exactly when its elements extend those
    of the mounted root; it is then the same number of elements below the place of the
    mount, whatever dots it has, and never outside of that. *)
Theorem Translate_exact mp path :
  isAbs (Root mp) = true -> isAbs path = true ->
  (forall p, Translate mp path = inl p <->
    exists rest, elements path = elements (Root mp) ++ rest /\ p = exposed mp rest) /\
  (forall p, Translate mp path = inl p -> elements (MountedAt mp) `prefix_of` elements p).
Proof.
  intros Hr Hp.
  assert (Hplain : forall rest, elements path = elements (Root mp) ++ rest -> Forall plain rest).
  { intros rest E. pose proof (elements_plain path Hp) as Hl. rewrite E in Hl. by apply Forall_app in Hl as [_ ?]. }
  assert (Hiff : forall p, Translate mp path = inl p <->
    exists rest, elements path = elements (Root mp) ++ rest /\ p = exposed mp rest).
  { intros p. unfold Translate, exposed. split.
    - destruct (decide (elements (Root mp) `prefix_of` elements path)) as [[rest E]|Hn].
      + pose proof (Hplain rest E). rewrite (Rel_below _ _ rest) by done.
        rewrite decide_False by by apply below_accepted. rewrite PathJoin_below by done. intros [= <-]. eauto.
      + destruct (Rel _ _) as [r|] eqn:Er; [|done].
        rewrite decide_True; [done|]. eapply (Rel_outside (Root mp) path); [done..| |exact Er].
        intros rest E. apply Hn. by exists rest.
    - intros (rest & E & ->). pose proof (Hplain rest E). rewrite (Rel_below _ _ rest) by done.
      rewrite decide_False by by apply below_accepted. by rewrite PathJoin_below. }
  split; [done|]. intros p (rest & E & ->)%Hiff. exists rest. by apply exposed_elements, Hplain.
Qed.

(** ** Lines of /proc/self/mountinfo and /proc/self/cgroup *)

(** The fields of a line, with the texts of its two numbers. *)
Definition mountFields (mountID parentID : string) (mp : MountPoint) : list string :=
  [mountID; parentID; DeviceID mp; Root mp; MountedAt mp; Join (Options mp) ","] ++ OptionalFields mp ++
  ["-"; FSType mp; MountSource mp; Join (SuperOptions mp) ","].

Record wellFormed (mountID parentID : string) (mp : MountPoint) : Prop := {
  wf_mountID : ParseInt mountID = (MountID mp, None);
  wf_parentID : ParseInt parentID = (ParentID mp, None);
  wf_fields : Forall (free " ") (mountFields mountID parentID mp);
  wf_optional : Forall (fun f => f <> "-") (OptionalFields mp);
  wf_options : Options mp <> [] /\ Forall (free ",") (Options mp);
  wf_super : SuperOptions mp <> [] /\ Forall (free ",") (SuperOptions mp);
}.

Lemma separator_spec l k i : Forall (fun f => f <> "-") l -> separator (l ++ "-" :: k) i = Some (i + length l)%nat.
Proof.
  intros Hl. revert i. induction Hl as [|f l Hf Hl IH]; intros i; simpl; [by rewrite Nat.add_0_r|].
  rewrite decide_False by done. rewrite IH. f_equal. lia.
Qed.

Lemma field_app l k i : field (l ++ k) (length l + i) = field k i.
Proof. unfold field. rewrite app_nth2 by lia. f_equal. lia. Qed.

(** a well-formed line of mountinfo is read back field by field, with any number of optional
    fields. *)
Theorem mount_line_is_read mountID parentID mp : wellFormed mountID parentID mp ->
  NewMountPointFromLine (Join (mountFields mountID parentID mp) " ") = inl mp.
Proof.
  intros [Hm Hp Hf Ho [On Oc] [Sn Sc]]. unfold NewMountPointFromLine. rewrite Split_Join by done. cbv zeta.
  set (fields := mountFields mountID parentID mp).
  assert (Hl : length fields = (6 + length (OptionalFields mp) + 4)%nat) by (unfold fields, mountFields; rewrite !length_app; done).
  rewrite decide_False by (rewrite Hl; unfold miFieldCountMin, miFieldCountFirstHalf, miFieldCountSecondHalf; lia).
  assert (Hd : drop 6 fields = OptionalFields mp ++ ["-"; FSType mp; MountSource mp; Join (SuperOptions mp) ","]) by done.
  unfold Atoi. change (field fields 0) with mountID. change (field fields 1) with parentID.
  rewrite Hm, Hp, Hd, separator_spec by done. simpl (0 + _)%nat.
  rewrite decide_False by (rewrite Hl; unfold miFieldCountSecondHalf; lia).
  set (tail := ["-"; FSType mp; MountSource mp; Join (SuperOptions mp) ","]).
  set (front := [mountID; parentID; DeviceID mp; Root mp; MountedAt mp; Join (Options mp) ","]).
  assert (Hi : forall i, field fields (6 + length (OptionalFields mp) + i) = field tail i).
  { intros i. replace (6 + length (OptionalFields mp) + i)%nat with (length front + (length (OptionalFields mp) + i))%nat
      by (simpl; lia). change fields with (front ++ OptionalFields mp ++ tail). by rewrite !field_app. }
  replace (1 + (6 + length (OptionalFields mp) + 1))%nat with (6 + length (OptionalFields mp) + 2)%nat by lia.
  replace (2 + (6 + length (OptionalFields mp) + 1))%nat with (6 + length (OptionalFields mp) + 3)%nat by lia.
  rewrite !Hi. replace (6 + length (OptionalFields mp) + 1 - 1 - 6)%nat with (length (OptionalFields mp)) by lia.
  rewrite take_app_length. change (field fields 5) with (Join (Options mp) ",").
  change (field tail 3) with (Join (SuperOptions mp) ","). rewrite !Split_Join by done. by destruct mp.
Qed.

(** ** Where the total comes from *)

Section totals.
Context `{FileSystem} (readMemInfo : Z + error).

Lemma MemoryQuota_defined cg q : MemoryQuota cg = (q, true, None) ->
  0 < q < 2 ^ 63 /\ exists path text, cg !! "memory" = Some path /\
    readFirstLine path "memory.limit_in_bytes" = inl text /\ ParseInt text = (q, None).
Proof.
  unfold MemoryQuota. destruct (cg !! "memory") as [path|]; [|done]. unfold readInt.
  destruct (readFirstLine path _) as [text|err] eqn:Er; [|done].
  destruct (ParseInt text) as [n e] eqn:Ep. pose proof (ParseInt_range _ _ _ Ep).
  destruct e; [done|]. simpl. case_bool_decide; intros [= <-]. split; [lia|]. eauto 6.
Qed.

Lemma MemoryQuotaV2_defined q : MemoryQuotaV2 = (q, true, None) ->
  - 2 ^ 63 <= q < 2 ^ 63 /\ exists file text, Open "/sys/fs/cgroup/memory.max" = inl file /\
    firstLine file = inl text /\ ParseInt (TrimSpace text) = (q, None).
Proof.
  unfold MemoryQuotaV2, memoryQuotaV2. change (Clean _) with "/sys/fs/cgroup/memory.max".
  destruct (Open _) as [file|err] eqn:Eo; [|by destruct (IsNotExist err)].
  destruct (firstLine file) as [text|err] eqn:Ef; [|done].
  case_decide; [done|]. destruct (ParseInt _) as [n [|]] eqn:Ep; [done|]. intros [= <-].
  split; [by eapply ParseInt_range|]. eauto 6.
Qed.

(** the total memory is that of the host, or the quota that the file of the process's
    cgroup holds, which then is not the value for no quota; a host's total in 64 bits makes
    the result one. *)
Theorem TotalMemory_sources total :
  (forall m, readMemInfo = inl m -> 0 <= m < 2 ^ 64) ->
  TotalMemory readMemInfo = inl total ->
  0 <= total < 2 ^ 64 /\
  (readMemInfo = inl total \/
   (IsCGroupV2 = inl true /\ exists file text q, Open "/sys/fs/cgroup/memory.max" = inl file /\
     firstLine file = inl text /\ ParseInt (TrimSpace text) = (q, None) /\ total = u64 q) \/
   (IsCGroupV2 = inl false /\ exists cg path text, NewCGroupsForCurrentProcess = inl cg /\
     cg !! "memory" = Some path /\ readFirstLine path "memory.limit_in_bytes" = inl text /\
     ParseInt text = (total, None) /\ 0 < total < 2 ^ 63 /\ total <> unlimitedMemorySize)).
Proof.
  intros Hm. unfold TotalMemory. destruct IsCGroupV2 as [[]|err] eqn:Ev; [| |done]; cbv zeta.
  - destruct MemoryQuotaV2 as [[q d] [err|]] eqn:Eq; [done|].
    case_decide as Hu; [eauto|]. intros [= <-]. destruct d; [|tauto].
    apply MemoryQuotaV2_defined in Eq as (Hq & file & text & Ho & Hf & Hp).
    split; [apply u64_range|]. right; left. eauto 8.
  - destruct NewCGroupsForCurrentProcess as [cg|err] eqn:En; [|done].
    destruct (MemoryQuota cg) as [[q d] [err|]] eqn:Eq; [done|].
    case_decide as Hu; [eauto|]. intros [= <-]. destruct d; [|tauto].
    apply MemoryQuota_defined in Eq as (Hq & path & text & Hc & Hr & Hp).
    rewrite u64_id by lia. split; [lia|]. right; right. split; [done|]. exists cg, path, text. split_and!; tauto || lia || done.
Qed.
End totals.

(** ** A concrete file system: a container with a memory limit *)

Definition textLines (l : list string) : string := foldr (fun x s => x +:+ String newline s) "" l.

Definition mountinfo_text : string := textLines
  ["4 1 0:3 / /sys rw,nosuid shared:4 - sysfs sysfs rw";
   "7 5 0:6 /docker /sys/fs/cgroup/cpu,cpuacct rw shared:7 - cgroup cgroup rw,cpu,cpuacct";
   "8 5 0:7 /docker /sys/fs/cgroup/memory rw,nosuid shared:8 - cgroup cgroup rw,memory";
   "10 9 0:9 /docker /var/lib/docker/sys/fs/cgroup/memory ro master:17 - cgroup cgroup rw,memory"].

Definition cgroup_text : string := textLines ["3:memory:/docker/large"; "2:cpu,cpuacct:/docker"; "1:cpuset:/"].

Definition container (limit : string) : FileSystem := {|
  Open path :=
    if decide (path = "/proc/self/mountinfo") then inl (mountinfo_text, None)
    else if decide (path = "/proc/self/cgroup") then inl (cgroup_text, None)
    else if decide (path = "/sys/fs/cgroup/memory/large/memory.limit_in_bytes") then inl (textLines [limit], None)
    else inr (ErrNew "file does not exist");
  IsNotExist err := bool_decide (err = ErrNew "file does not exist") |}.

Lemma TotalMemory_sources_witness :
  let H := container "8796093018112" in
  TotalMemory (inl 1000000) = inl 8796093018112 /\ 0 <= 8796093018112 < 2 ^ 64.
Proof.
  split; [by vm_compute|].
  apply (@TotalMemory_sources (container "8796093018112") (inl 1000000) 8796093018112); [intros m [= <-]; lia|by vm_compute].
Defined.

Definition memory_mount : MountPoint :=
  mkMountPoint 8 5 "0:7" "/docker" "/sys/fs/cgroup/memory" ["rw"; "nosuid"] ["shared:8"] "cgroup" "cgroup" ["rw"; "memory"].

Lemma mount_line_is_read_witness :
  NewMountPointFromLine "8 5 0:7 /docker /sys/fs/cgroup/memory rw,nosuid shared:8 - cgroup cgroup rw,memory" = inl memory_mount.
Proof.
  apply (mount_line_is_read "8" "5" memory_mount). constructor; [by vm_compute..| | | |].
  - eapply bool_decide_eq_true_1. by vm_compute.
  - by repeat constructor.
  - split; [done|]. eapply bool_decide_eq_true_1. by vm_compute.
  - split; [done|]. eapply bool_decide_eq_true_1. by vm_compute.
Defined.

(** A path that climbs out of the root is not exposed, and one that comes back is. *)
Lemma Translate_exact_witness :
  Translate memory_mount "/docker/../etc" = inr (pathNotExposedFromMountPointError "/sys/fs/cgroup/memory" "/docker" "/docker/../etc") /\
  Translate memory_mount "/docker/x/../large" = inl "/sys/fs/cgroup/memory/large" /\
  elements (MountedAt memory_mount) `prefix_of` elements "/sys/fs/cgroup/memory/large".
Proof.
  split; [by vm_compute|]. split; [by vm_compute|].
  apply (Translate_exact memory_mount "/docker/x/../large"); by vm_compute.
Defined.

(** On a kernel with pages of 64 KiB the limit of a cgroup without one is
    9223372036854710272: it is taken for a quota, and the percentage of it wraps to 80 times
    64 KiB less than a multiple of 2^64; the memory of the host plays no part. *)
Lemma unlimited_with_large_pages :
  let H := container "9223372036854710272" in
  TotalMemory (inl (16 * 2 ^ 30)) = inl 9223372036854710272 /\
  getMemUsageChecker (TotalMemory (inl (16 * 2 ^ 30))) (mkConfig 1000 10 5 0 0 80 20) =
    inl (mkMemUsageChecker ((2 ^ 64 - 80 * 65536) / 100) ((2 ^ 64 - 20 * 65536) / 100)) /\
  let H := container "9223372036854771712" in
  TotalMemory (inl (16 * 2 ^ 30)) = inl (16 * 2 ^ 30).
Proof. vm_compute. auto. Qed.

(** One mount of a cgroup that the process is not below fails everything: the paths of the
    other subsystems are not reported. *)
Lemma untranslatable_mount_fails :
  addOptions {["memory" := mkCGroupSubsys 3 ["memory"] "/user"]} memory_mount ["memory"] {["cpu" := "/sys/fs/cgroup/cpu"]} =
  inr (pathNotExposedFromMountPointError "/sys/fs/cgroup/memory" "/docker" "/user").
Proof. by vm_compute. Qed.
