(* ===== verification/ConfMap.v ===== *)
(** * ConfMap: configuration values, retrieved values, merging of configurations

    Models confmap/provider.go, confmap/internal/expand.go, conf.go and merge.go.  A map is
    the list of its entries in the order a range loop visits them.  The packages koanf, glob
    and yaml are interfaces.  A panic is [None] of an outer option. *)

From S2P Require Import Prelude GoErrors GoStrings.

(** ** Values *)

Inductive int_kind := int | int32 | int64.

#[export] Instance int_kind_eq_dec : EqDecision int_kind.
Proof. solve_decision. Defined.

(** What an [any] of a configuration can hold; a float is its bits.  [VOther] is a value of
    a type NewRetrieved does not accept, which is not a slice or a map of the other cases. *)
Inductive value :=
| VNil
| VBool (b : bool)
| VInt (k : int_kind) (n : Z)
| VFloat32 (bits : Z)
| VFloat64 (bits : Z)
| VTime (t : Z)
| VOther (type data : string)
| VString (s : string)
| VList (l : list value)
| VMap (m : list (string * value))
| ExpandedValue (Value : value) (Original : string).

Abbreviation go_map := (list (string * value)).

Section value_ind.
Context (P : value -> Prop).
Context (Hnil : P VNil) (Hbool : forall b, P (VBool b)) (Hint : forall k n, P (VInt k n)).
Context (H32 : forall b, P (VFloat32 b)) (H64 : forall b, P (VFloat64 b)) (Htime : forall t, P (VTime t)).
Context (Hother : forall t d, P (VOther t d)) (Hstring : forall s, P (VString s)).
Context (Hlist : forall l, Forall P l -> P (VList l)).
Context (Hmap : forall m, Forall (fun x => P x.2) m -> P (VMap m)).
Context (Hexp : forall v o, P v -> P (ExpandedValue v o)).

Fixpoint value_induction (v : value) : P v :=
  match v with
  | VNil => Hnil | VBool b => Hbool b | VInt k n => Hint k n | VFloat32 b => H32 b
  | VFloat64 b => H64 b | VTime t => Htime t | VOther t d => Hother t d | VString s => Hstring s
  | VList l =>
      Hlist l ((fix go l : Forall P l :=
        match l with [] => Forall_nil_2 _ | x :: l => Forall_cons_2 _ _ _ (value_induction x) (go l) end) l)
  | VMap m =>
      Hmap m ((fix go m : Forall (fun x => P x.2) m :=
        match m with
        | [] => Forall_nil_2 _
        | (k, x) :: m => Forall_cons_2 (fun x => P x.2) (k, x) m (value_induction x) (go m)
        end) m)
  | ExpandedValue v o => Hexp v o (value_induction v)
  end.
End value_ind.

(** m[k] of a map. *)
Fixpoint lookupEntry {A} (k : string) (m : list (string * A)) : option A :=
  match m with
  | [] => None
  | (k', x) :: m => if decide (k' = k) then Some x else lookupEntry k m
  end.

(** == of two floats with [e] bits of exponent and [f] of fraction: NaN differs from
    itself, the zeros are equal. *)
Definition float_eqb (e f : Z) (a b : Z) : bool :=
  let magnitude x := x mod 2 ^ (e + f) in
  let isNaN x := (2 ^ e - 1) * 2 ^ f <? magnitude x in
  negb (isNaN a) && negb (isNaN b) && ((a =? b) || ((magnitude a =? 0) && (magnitude b =? 0))).

Section each.
Context {A B : Type} (eq : A -> B -> bool).
Fixpoint all_equal (l : list A) (k : list B) : bool :=
  match l, k with
  | [], [] => true
  | x :: l, y :: k => eq x y && all_equal l k
  | _, _ => false
  end.
Fixpoint entries_in (m : list (string * A)) (n : list (string * B)) : bool :=
  match m with
  | [] => true
  | (k, x) :: m => (match lookupEntry k n with Some y => eq x y | None => false end) && entries_in m n
  end.
End each.

(** reflect.DeepEqual *)
Fixpoint DeepEqual (a b : value) : bool :=
  match a, b with
  | VNil, VNil => true
  | VBool x, VBool y => bool_decide (x = y)
  | VInt k x, VInt l y => bool_decide (k = l) && (x =? y)
  | VFloat32 x, VFloat32 y => float_eqb 8 23 x y
  | VFloat64 x, VFloat64 y => float_eqb 11 52 x y
  | VTime x, VTime y => x =? y
  | VOther t x, VOther u y => bool_decide (t = u) && bool_decide (x = y)
  | VString x, VString y => bool_decide (x = y)
  | VList l, VList k => all_equal DeepEqual l k
  | VMap m, VMap n => bool_decide (length m = length n) && entries_in DeepEqual m n
  | ExpandedValue v o, ExpandedValue w p => DeepEqual v w && bool_decide (o = p)
  | _, _ => false
  end.

(** ** confmap/provider.go *)

Record Retrieved := {
  rawConf : value;
  errorHint : option error;
  (** what closeFunc returns, [None] for a nil closeFunc *)
  closeFunc : option (option error);
  stringRepresentation : string;
  isSetString : bool;
}.

Record retrievedSettings := {
  set_errorHint : option error;
  set_stringRepresentation : string;
  set_isSetString : bool;
  set_closeFunc : option (option error);
}.

Abbreviation RetrievedOption := (retrievedSettings -> retrievedSettings).

Definition WithRetrievedClose (close : option error) : RetrievedOption := fun set =>
  {| set_errorHint := set_errorHint set; set_stringRepresentation := set_stringRepresentation set;
     set_isSetString := set_isSetString set; set_closeFunc := Some close |}.

Definition withStringRepresentation (s : string) : RetrievedOption := fun set =>
  {| set_errorHint := set_errorHint set; set_stringRepresentation := s;
     set_isSetString := true; set_closeFunc := set_closeFunc set |}.

Definition withErrorHint (e : error) : RetrievedOption := fun set =>
  {| set_errorHint := Some e; set_stringRepresentation := set_stringRepresentation set;
     set_isSetString := set_isSetString set; set_closeFunc := set_closeFunc set |}.

Definition checkRawConfType (raw : value) : option error :=
  match raw with
  | VOther _ _ | ExpandedValue _ _ => Some (ErrNew "unsupported type for retrieved config")
  | _ => None
  end.

Definition NewRetrieved (raw : value) (opts : list RetrievedOption) : error + Retrieved :=
  match checkRawConfType raw with
  | Some err => inl err
  | None =>
      let set := foldl (fun set opt => opt set) (Build_retrievedSettings None "" false None) opts in
      inr {| rawConf := raw; errorHint := set_errorHint set; closeFunc := set_closeFunc set;
             stringRepresentation := set_stringRepresentation set; isSetString := set_isSetString set |}
  end.

(** yaml.Unmarshal into an [any]. *)
Class YAML := { yaml_Unmarshal : string -> error + value }.

Definition NewRetrievedFromYAML `{YAML} (yamlBytes : string) (opts : list RetrievedOption) : error + Retrieved :=
  match yaml_Unmarshal yamlBytes with
  | inl err =>
      NewRetrieved (VString yamlBytes)
        (opts ++ [withStringRepresentation yamlBytes;
                  withErrorHint (ErrWrap "assuming string type since contents are not valid YAML" err)])
  | inr (VString _) => NewRetrieved (VString yamlBytes) (opts ++ [withStringRepresentation yamlBytes])
  | inr raw => NewRetrieved raw (opts ++ [withStringRepresentation yamlBytes])
  end.

Definition AsRaw (r : Retrieved) : error + value := inr (rawConf r).

Definition AsString (r : Retrieved) : error + string :=
  if negb (isSetString r) then
    match rawConf r with
    | VString s => inr s
    | _ => inl (ErrNew "retrieved value does not have unambiguous string representation")
    end
  else inr (stringRepresentation r).

Definition Retrieved_Close (r : Retrieved) : option error :=
  match closeFunc r with None => None | Some result => result end.

(** ** confmap/internal/merge.go *)

Definition KeyDelimiter : string := "::".

Definition isPresent (slice : list value) (val : value) : bool := existsb (fun x => DeepEqual val x) slice.

(** reflect.Value.Cap panics on a value that is not a slice. *)
Definition mergeSlice (src : list value) (dest : value) : option (list value) :=
  match dest with
  | VList dest => Some (foldl (fun slice x => if isPresent slice x then slice else slice ++ [x]) dest src)
  | _ => None
  end.

(** The packages koanf/maps and glob. *)
Class KoanfMaps := {
  maps_Flatten : go_map -> go_map;
  maps_Unflatten : go_map -> go_map;
  (** maps.Merge(a, b): b afterwards *)
  maps_Merge : go_map -> go_map -> go_map;
  glob_Compile : string -> option (string -> bool);
}.

Section merge.
Context `{KoanfMaps}.

Definition patterns : list string :=
  ["service::extensions"; "service::**::receivers"; "service::**::exporters"].

Definition globs : list (string -> bool) := omap glob_Compile patterns.

Definition isMatch (key : string) (globs : list (string -> bool)) : bool := existsb (fun g => g key) globs.

Definition mergeEntry (destFlat : go_map) (entry : string * value) : option (string * value) :=
  let '(sKey, sVal) := entry in
  if negb (isMatch sKey globs) then Some entry
  else
    match lookupEntry sKey destFlat with
    | None => Some entry
    | Some dVal =>
        match sVal with
        | VList src => (fun l => (sKey, VList l)) <$> mergeSlice src dVal
        | _ => Some entry
        end
    end.

(** The dest map after the merge. *)
Definition mergeAppend (src dest : go_map) : option go_map :=
  let destFlat := maps_Flatten dest in
  match mapM (mergeEntry destFlat) (maps_Flatten src) with
  | None => None
  | Some srcFlat => Some (maps_Merge (maps_Unflatten srcFlat) dest)
  end.
End merge.

(** ** confmap/internal/conf.go *)

(** A *koanf.Koanf with the methods Conf calls. *)
Class Koanf `{KoanfMaps} := {
  koanf : Type;
  koanf_New : koanf;
  (** Load(confmap.Provider(data, KeyDelimiter), nil) *)
  koanf_Load : koanf -> go_map -> koanf;
  (** Load(confmap.Provider(data, ""), nil, WithMergeFunc(f)) *)
  koanf_LoadMerge : (go_map -> go_map -> option go_map) -> koanf -> go_map -> option koanf;
  koanf_Keys : koanf -> list string;
  koanf_Get : koanf -> string -> value;
  koanf_Exists : koanf -> string -> bool;
  koanf_Merge : koanf -> koanf -> error + koanf;
  koanf_Delete : koanf -> string -> koanf;
  koanf_All : koanf -> go_map;
}.

Section conf.
Context `{Koanf}.

(** Without skipTopLevelUnmarshaler, which only Unmarshal reads. *)
Record Conf := { k : koanf; isNil : bool }.

Definition New : Conf := {| k := koanf_New; isNil := false |}.

(** [None] is a nil map. *)
Definition NewFromStringMap (data : option go_map) : Conf :=
  match data with
  | None => {| k := koanf_New; isNil := true |}
  | Some data => {| k := koanf_Load koanf_New data; isNil := false |}
  end.

Definition AllKeys (l : Conf) : list string := koanf_Keys (k l).
Definition unsanitizedGet (l : Conf) (key : string) : value := koanf_Get (k l) key.
Definition IsSet (l : Conf) (key : string) : bool := koanf_Exists (k l) key.

Definition Delete (l : Conf) (key : string) : Conf * bool :=
  let wasSet := IsSet l key in
  ({| k := koanf_Delete (k l) key; isNil := isNil l |}, wasSet).

Fixpoint sanitizeExpanded (a : value) (useOriginal : bool) : value :=
  match a with
  | VMap m => VMap (map (fun x => (x.1, sanitizeExpanded x.2 useOriginal)) m)
  | VList l => VList (map (fun x => sanitizeExpanded x useOriginal) l)
  | ExpandedValue v o => if useOriginal then VString o else v
  | _ => a
  end.

Definition sanitize (a : value) : value := sanitizeExpanded a false.

Definition Get (l : Conf) (key : string) : value := sanitizeExpanded (unsanitizedGet l key) false.

Definition toStringMapWithExpand (l : Conf) : option go_map :=
  if isNil l then None else Some (maps_Unflatten (koanf_All (k l))).

Definition sanitizeMap (m : go_map) : go_map := map (fun x => (x.1, sanitizeExpanded x.2 false)) m.

Definition ToStringMap (l : Conf) : option go_map := sanitizeMap <$> toStringMapWithExpand l.

Definition Conf_mergeAppend (l inn : Conf) : option Conf :=
  let data := match ToStringMap inn with Some m => m | None => [] end in
  match koanf_LoadMerge mergeAppend (k l) data with
  | None => None
  | Some k' => Some {| k := k'; isNil := isNil l && isNil inn |}
  end.

(** Conf.Merge, with the value of the feature gate confmap.enableMergeAppendOption. *)
Definition Conf_Merge (enabled : bool) (l inn : Conf) : option (error + Conf) :=
  if enabled then inr <$> Conf_mergeAppend l inn
  else
    Some (match koanf_Merge (k l) (k inn) with
          | inl err => inl err
          | inr k' => inr {| k := k'; isNil := isNil l && isNil inn |}
          end).

Definition Sub (l : Conf) (key : string) : error + Conf :=
  let empty := {| k := koanf_New; isNil := true |} in
  match unsanitizedGet l key with
  | VNil | ExpandedValue VNil _ => inr empty
  | VMap m | ExpandedValue (VMap m) _ => inr (NewFromStringMap (Some m))
  | _ => inl (ErrNew "unexpected sub-config value kind")
  end.

(** Retrieved.AsConf *)
Definition AsConf (r : Retrieved) : error + Conf :=
  match rawConf r with
  | VNil => inr New
  | VMap m => inr (NewFromStringMap (Some m))
  | _ =>
      inl (match errorHint r with
           | Some hint => ErrWrap "retrieved value cannot be used as a Conf" hint
           | None => ErrNew "retrieved value cannot be used as a Conf"
           end)
  end.
End conf.
