(* ===== verification/ConfResolver.v ===== *)
(** * ConfResolver: expanding references and resolving a configuration

    Models confmap/expand.go and confmap/resolver.go.  The state of a resolver has the
    closers of what was retrieved and a log of what the providers see.  A provider may
    answer every call differently: it is a function of the number of the call.  Maps are
    visited in the order of their entries. *)

From Stdlib Require Import Ascii.
From S2P Require Import Prelude GoErrors GoStrings ConfMap.

(** ** State *)

Inductive event :=
| Retrieved_ (call : nat)
| Closed (call : nat)
| ProviderShutdown (scheme : string)
| WatcherClosed.

#[export] Instance event_eq_dec : EqDecision event.
Proof. solve_decision. Defined.

Record Provider := {
  Scheme : string;
  Retrieve : nat -> string -> error + Retrieved;
  Shutdown_result : option error;
}.

Record location := { scheme : string; opaqueValue : string }.

Definition asString (c : location) : string := scheme c +:+ ":" +:+ opaqueValue c.

(** What the methods of a resolver change.  A closer is the call that retrieved the value
    and the value. *)
Record rstate := {
  closers : list (nat * Retrieved);
  calls : nat;
  log : list event;
}.

Definition start : rstate := {| closers := []; calls := 0; log := [] |}.

(** ** A result or an error, with the state *)

Definition M (A : Type) : Type := rstate -> (error + A) * rstate.
#[export] Instance M_ret : MRet M := fun A a s => (inr a, s).
#[export] Instance M_bind : MBind M := fun A B f m s =>
  let '(r, s) := m s in match r with inl e => (inl e, s) | inr a => f a s end.
Definition throw {A} (e : error) : M A := fun s => (inl e, s).
Definition lift {A} (r : error + A) : M A := fun s => (r, s).

(** ** confmap/expand.go *)

(** A character of [A-Za-z] and one of [A-Za-z0-9+.-]. *)
Definition is_letter (c : ascii) : bool :=
  let b := Z.of_N (N_of_ascii c) in ((65 <=? b) && (b <=? 90)) || ((97 <=? b) && (b <=? 122)).

Definition is_scheme_char (c : ascii) : bool :=
  let b := Z.of_N (N_of_ascii c) in is_letter c || ((48 <=? b) && (b <=? 57)) || (b =? 43) || (b =? 46) || (b =? 45).

Fixpoint all_chars (p : ascii -> bool) (s : string) : bool :=
  match s with EmptyString => true | String c s => p c && all_chars p s end.

(** The whole string matches schemePattern. *)
Definition isScheme (s : string) : bool :=
  match s with
  | String c s => is_letter c && negb (bool_decide (s = "")) && all_chars is_scheme_char s
  | EmptyString => false
  end.

(** Some part of the string matches schemePattern. *)
Fixpoint schemePattern_MatchString (s : string) : bool :=
  match s with
  | String a (String b _ as s') => (is_letter a && is_scheme_char b) || schemePattern_MatchString s'
  | _ => false
  end.

Definition newLocation (uri : string) : error + location :=
  let '(s, opaque, found) := CutString uri ":" in
  if (found : bool) && isScheme s then inr {| scheme := s; opaqueValue := opaque |}
  else inl (ErrNew "invalid uri").

Definition isDollar (c : option ascii) : bool := match c with Some "$"%char => true | _ => false end.

(** The loop that counts the dollars before [index]. *)
Fixpoint dollarsBefore (input : string) (index : nat) : nat :=
  match index with
  | O => O
  | S i => if isDollar (String.get i input) then S (dollarsBefore input i) else O
  end.

Fixpoint findURI_rounds (fuel : nat) (defaultScheme input : string) : string :=
  match fuel with
  | O => ""
  | S fuel =>
      let closeIndex := Index input "}" in
      let remaining := from (closeIndex + 1) input in
      let openIndex := LastIndex (upto (closeIndex + 1) input) "${" in
      if (openIndex <? 0) ||
         (bool_decide (defaultScheme = "") && negb (Contains (from openIndex (upto (closeIndex + 1) input)) ":")) then
        if negb (Contains remaining "}") then "" else findURI_rounds fuel defaultScheme remaining
      else if Nat.odd (dollarsBefore input (Z.to_nat openIndex)) then ""
      else from openIndex (upto (closeIndex + 1) input)
  end.

Definition findURI (defaultScheme input : string) : string :=
  findURI_rounds (S (String.length input)) defaultScheme input.

Definition errTooManyRecursiveExpansions : error := ErrNew "too many recursive expansions".

Section each.
Context {A B : Type} (f : A -> M (B * bool)).
(** The loops of expandValue over a slice and over a map. *)
Fixpoint expandEach (l : list A) : M (list B * bool) :=
  match l with
  | [] => mret ([], false)
  | x :: l =>
      '(y, changed) ← f x; '(l', nchanged) ← expandEach l;
      mret (y :: l', changed || nchanged)
  end.
Fixpoint expandEntries (m : list (string * A)) : M (list (string * B) * bool) :=
  match m with
  | [] => mret ([], false)
  | (k, x) :: m =>
      '(y, changed) ← f x; '(m', nchanged) ← expandEntries m;
      mret ((k, y) :: m', changed || nchanged)
  end.
End each.

Section expand.
(** mr.providers, in the order of a range loop, and mr.defaultScheme. *)
Context (providers : list (string * Provider)) (defaultScheme : string).

(** Resolver.retrieveValue; the caller registers the closer. *)
Definition retrieveValue (uri : location) : M (nat * Retrieved) := fun s =>
  match lookupEntry (scheme uri) providers with
  | None => (inl (ErrNew "scheme is not supported for uri"), s)
  | Some p =>
      let n := calls s in
      match Retrieve p n (asString uri) with
      | inl err => (inl err, {| closers := closers s; calls := S n; log := log s |})
      | inr r => (inr (n, r), {| closers := closers s; calls := S n; log := log s ++ [Retrieved_ n] |})
      end
  end.

(** mr.closers = append(mr.closers, ret.Close) *)
Definition addCloser (x : nat * Retrieved) : M Retrieved := fun s =>
  (inr x.2, {| closers := closers s ++ [x]; calls := calls s; log := log s |}).

Definition expandURI (input : string) : M Retrieved :=
  let uri := upto (Z.of_nat (String.length input) - 1 - 2) (from 2 input) in
  let uri := if negb (Contains uri ":") then defaultScheme +:+ ":" +:+ uri else uri in
  lURI ← lift (newLocation uri);
  if Contains (opaqueValue lURI) "$" then throw (ErrNew "the uri contains unsupported characters ('$')")
  else x ← retrieveValue lURI; addCloser x.

Definition findAndExpandURI (input : string) : M (value * bool) :=
  let uri := findURI defaultScheme input in
  if decide (uri = "") then mret (VString input, false)
  else if decide (uri = input) then
    r ← expandURI input;
    val ← lift (AsRaw r);
    match AsString r with
    | inr asStr => mret (ExpandedValue val asStr, true)
    | inl _ => mret (val, true)
    end
  else
    expanded ← expandURI uri;
    match AsString expanded with
    | inl err => throw (ErrWrap "expanding" err)
    | inr repl => mret (VString (ReplaceAll input uri repl), true)
    end.

(** The case of a string of expandValue. *)
Definition expandString (v : string) : M (value * bool) :=
  if negb (Contains v "${") || negb (Contains v "}") then mret (VString v, false) else findAndExpandURI v.

Definition expandOriginal (expanded : value) (changed : bool) (Original : string) : M (value * bool) := fun s =>
  match expandString Original s with
  | (inl _, s) => (inr (expanded, changed), s)
  | (inr (VString originalExpanded, originalChanged), s) =>
      (inr (ExpandedValue expanded originalExpanded, changed || originalChanged), s)
  | (inr _, s) => (inr (expanded, changed), s)
  end.

Fixpoint expandValue (v : value) : M (value * bool) :=
  match v with
  | ExpandedValue Value Original =>
      '(expanded, changed) ← expandValue Value;
      match expanded with
      | ExpandedValue _ _ | VString _ => mret (expanded, changed)
      | _ => expandOriginal expanded changed Original
      end
  | VString s => expandString s
  | VList l => '(nslice, nchanged) ← expandEach expandValue l; mret (VList nslice, nchanged)
  | VMap m => '(nmap, nchanged) ← expandEntries expandValue m; mret (VMap nmap, nchanged)
  | _ => mret (v, false)
  end.

Fixpoint expandRounds (rounds : nat) (v : value) : M value :=
  match rounds with
  | O => throw errTooManyRecursiveExpansions
  | S rounds =>
      '(val, changed) ← expandValue v;
      if (changed : bool) then expandRounds rounds val else mret val
  end.

Definition expandValueRecursively (v : value) : M value := expandRounds 1000 v.
End expand.

(** ** confmap/resolver.go *)

Fixpoint escapeDollarSigns (val : value) : value :=
  match val with
  | VString v => VString (ReplaceAll v "$$" "$")
  | ExpandedValue Value Original => ExpandedValue (escapeDollarSigns Value) (ReplaceAll Original "$$" "$")
  | VList l => VList (map escapeDollarSigns l)
  | VMap m => VMap (map (fun x => (x.1, escapeDollarSigns x.2)) m)
  | _ => val
  end.

(** driverLetterRegexp: ^[A-z]: *)
Definition driverLetterRegexp_MatchString (uri : string) : bool :=
  match uri with
  | String c (String ":" _) => let b := Z.of_N (N_of_ascii c) in (65 <=? b) && (b <=? 122)
  | _ => false
  end.

Section resolver.
Context `{Koanf, MultiErr}.

(** A converter changes the configuration in place. *)
Abbreviation Converter := (Conf -> error + Conf).

Record ResolverSettings := {
  URIs : list string;
  ProviderFactories : list Provider;
  DefaultScheme : string;
  ConverterFactories : list Converter;
}.

Record Resolver := {
  uris : list location;
  providers : list (string * Provider);
  defaultScheme : string;
  converters : list Converter;
  state : rstate;
  unexpandedConfMap : option go_map;
  (** whether mr.watcher is closed *)
  watcherClosed : bool;
}.

Fixpoint collectProviders (acc : list (string * Provider)) (factories : list Provider) :
    error + list (string * Provider) :=
  match factories with
  | [] => inr acc
  | p :: factories =>
      if negb (schemePattern_MatchString (Scheme p)) then inl (ErrNew "invalid 'confmap.Provider' scheme")
      else
        match lookupEntry (Scheme p) acc with
        | Some _ => inl (ErrNew "duplicate 'confmap.Provider' scheme")
        | None => collectProviders (acc ++ [(Scheme p, p)]) factories
        end
  end.

Definition newURI (providers : list (string * Provider)) (uri : string) : error + location :=
  if driverLetterRegexp_MatchString uri || negb (Contains uri ":") then
    inr {| scheme := "file"; opaqueValue := uri |}
  else
    match newLocation uri with
    | inl err => inl err
    | inr lURI =>
        match lookupEntry (scheme lURI) providers with
        | None => inl (ErrNew "unsupported scheme on URI")
        | Some _ => inr lURI
        end
    end.

Fixpoint newURIs (providers : list (string * Provider)) (l : list string) : error + list location :=
  match l with
  | [] => inr []
  | uri :: l =>
      match newURI providers uri with
      | inl err => inl err
      | inr u => match newURIs providers l with inl err => inl err | inr us => inr (u :: us) end
      end
  end.

Definition NewResolver (set : ResolverSettings) : error + Resolver :=
  match URIs set, ProviderFactories set with
  | [], _ => inl (ErrNew "invalid 'confmap.ResolverSettings' configuration: no URIs")
  | _, [] => inl (ErrNew "invalid 'confmap.ResolverSettings' configuration: no Providers")
  | _, _ =>
      match collectProviders [] (ProviderFactories set) with
      | inl err => inl err
      | inr ps =>
          if negb (bool_decide (DefaultScheme set = "")) &&
             match lookupEntry (DefaultScheme set) ps with None => true | Some _ => false end
          then inl (ErrNew "invalid 'confmap.ResolverSettings' configuration: DefaultScheme not found in providers list")
          else
            match newURIs ps (URIs set) with
            | inl err => inl err
            | inr us =>
                inr {| uris := us; providers := ps; defaultScheme := DefaultScheme set;
                       converters := ConverterFactories set; state := start;
                       unexpandedConfMap := None; watcherClosed := false |}
            end
      end
  end.

(** closeIfNeeded: every closer is called, whatever the others return. *)
Definition closeIfNeeded (s : rstate) : option error * rstate :=
  (foldl (fun err c => multierr_Append err (Retrieved_Close c.2)) None (closers s),
   {| closers := []; calls := calls s; log := log s ++ map (fun c => Closed c.1) (closers s) |}).

(** The loop of Resolve over the URIs; [None] is a panic of Merge. *)
Fixpoint mergeURIs (gate : bool) (ps : list (string * Provider)) (retMap : Conf) (l : list location) (s : rstate) :
    option ((error + Conf) * rstate) :=
  match l with
  | [] => Some (inr retMap, s)
  | uri :: l =>
      let '(r, s) := (retrieveValue ps uri ≫= addCloser) s in
      match r with
      | inl err => Some (inl (ErrWrap "cannot retrieve the configuration" err), s)
      | inr r =>
          match AsConf r with
          | inl err => Some (inl err, s)
          | inr retCfgMap =>
              match Conf_Merge gate retMap retCfgMap with
              | None => None
              | Some (inl err) => Some (inl err, s)
              | Some (inr retMap) => mergeURIs gate ps retMap l s
              end
          end
      end
  end.

(** The loop of Resolve over the keys. *)
Fixpoint expandKeys (ps : list (string * Provider)) (scheme : string) (retMap : Conf) (keys : list string) : M go_map :=
  match keys with
  | [] => mret []
  | k :: keys =>
      val ← expandValueRecursively ps scheme (unsanitizedGet retMap k);
      m ← expandKeys ps scheme retMap keys;
      mret ((k, escapeDollarSigns val) :: m)
  end.

Fixpoint convert (l : list Converter) (retMap : Conf) : error + Conf :=
  match l with
  | [] => inr retMap
  | c :: l =>
      match c retMap with
      | inl err => inl (ErrWrap "cannot convert the confmap.Conf" err)
      | inr retMap => convert l retMap
      end
  end.

Definition set_state (s : rstate) (mr : Resolver) : Resolver :=
  {| uris := uris mr; providers := providers mr; defaultScheme := defaultScheme mr; converters := converters mr;
     state := s; unexpandedConfMap := unexpandedConfMap mr; watcherClosed := watcherClosed mr |}.

Definition set_unexpanded (m : option go_map) (mr : Resolver) : Resolver :=
  {| uris := uris mr; providers := providers mr; defaultScheme := defaultScheme mr; converters := converters mr;
     state := state mr; unexpandedConfMap := m; watcherClosed := watcherClosed mr |}.

Definition Resolve (gate : bool) (mr : Resolver) : option ((error + Conf) * Resolver) :=
  let '(err, s) := closeIfNeeded (state mr) in
  let mr := set_state s mr in
  match err with
  | Some err => Some (inl (ErrWrap "cannot close previous watch" err), mr)
  | None =>
      match mergeURIs gate (providers mr) New (uris mr) s with
      | None => None
      | Some (inl err, s) => Some (inl err, set_state s mr)
      | Some (inr retMap, s) =>
          let mr := set_unexpanded (ToStringMap retMap) mr in
          let '(r, s) := expandKeys (providers mr) (defaultScheme mr) retMap (AllKeys retMap) s in
          let mr := set_state s mr in
          match r with
          | inl err => Some (inl err, mr)
          | inr cfgMap => Some (convert (converters mr) (NewFromStringMap (Some cfgMap)), mr)
          end
      end
  end.

Definition UnexpandedConf (mr : Resolver) : option Conf :=
  match unexpandedConfMap mr with None => None | Some m => Some (NewFromStringMap (Some m)) end.

(** Shutdown, with the order in which the loop over the providers visits them; [None] is the
    panic of closing a closed channel. *)
Definition Shutdown (visited : list (string * Provider)) (mr : Resolver) : option (option error * Resolver) :=
  let '(err, s) := closeIfNeeded (state mr) in
  let errs := multierr_Append None err in
  let errs := foldl (fun errs p => multierr_Append errs (Shutdown_result p.2)) errs visited in
  let s := {| closers := closers s; calls := calls s;
              log := log s ++ map (fun p => ProviderShutdown p.1) visited |} in
  if watcherClosed mr then None
  else
    Some (errs,
      {| uris := uris mr; providers := providers mr; defaultScheme := defaultScheme mr; converters := converters mr;
         state := {| closers := closers s; calls := calls s; log := log s ++ [WatcherClosed] |};
         unexpandedConfMap := unexpandedConfMap mr; watcherClosed := true |}).

(** What the owner of a resolver does: Resolve any number of times, then Shutdown. *)
Fixpoint resolveTimes (n : nat) (gate : bool) (mr : Resolver) : option Resolver :=
  match n with
  | O => Some mr
  | S n => match Resolve gate mr with None => None | Some (_, mr) => resolveTimes n gate mr end
  end.
End resolver.
