(* ===== verification/ConfExpandProofs.v ===== *)
(** * ConfExpandProofs: finding, expanding and escaping references *)

From Stdlib Require Import Ascii.
From S2P Require Import Prelude GoErrors GoStrings ConfMap ConfResolver.

(** ** Splitting strings *)

Lemma app_String_eq a b x y :
  a +:+ x = b +:+ y -> (exists c, b = a +:+ c /\ x = c +:+ y) \/ (exists c, a = b +:+ c /\ y = c +:+ x).
Proof.
  revert b. induction a as [|c a IH]; intros [|d b]; simpl.
  - intros ->. left. by exists "".
  - intros ->. left. by exists (String d b).
  - intros <-. right. by exists (String c a).
  - intros [= -> E]. destruct (IH _ E) as [(z & -> & ->)|(z & -> & ->)]; eauto.
Qed.

Lemma app_String_inj a b c : a +:+ b = a +:+ c -> b = c.
Proof. induction a; simpl; [done|]. intros [= E]. auto. Qed.

Lemma occurs_app_l a b c : occurs a c -> occurs (a +:+ b) c.
Proof. intros (x & y & ->). exists x, (y +:+ b). by rewrite !app_String_assoc. Qed.

Lemma occurs_app_r a b c : occurs b c -> occurs (a +:+ b) c.
Proof. intros (x & y & ->). exists (a +:+ x), y. by rewrite app_String_assoc. Qed.

Lemma occurs_here a b c : occurs (a +:+ b +:+ c) b.
Proof. by exists a, c. Qed.

Lemma occurs_char c a b : occurs (a +:+ b) (String c "") -> occurs a (String c "") \/ occurs b (String c "").
Proof.
  intros (x & y & E). apply app_String_eq in E as [(z & -> & ->)|(z & -> & E)].
  - right. by exists z, y.
  - destruct z as [|d z]; simpl in E; [right; exists "", y; by rewrite <- E|].
    injection E as <- ->. left. by exists x, z.
Qed.

#[export] Hint Resolve occurs_app_l occurs_app_r occurs_here : go.

(** ** References *)

(** "${body}" is a reference of [input], without references in it. *)
Record reference (ds input pre body post : string) : Prop := {
  reference_parts : input = pre +:+ "${" +:+ body +:+ "}" +:+ post;
  reference_closed : ~ occurs body "}";
  reference_inner : ~ occurs body "${";
  reference_scheme : ds = "" -> occurs body ":";
}.

(** The number of dollars a string ends with. *)
Definition trailing (s : string) : nat := dollarsBefore s (String.length s).

Lemma trailing_le s : (trailing s <= String.length s)%nat.
Proof.
  unfold trailing. induction (String.length s) as [|n IH]; simpl; [lia|]. destruct (isDollar _); lia.
Qed.

Lemma get_app a b n : (n < String.length a)%nat -> String.get n (a +:+ b) = String.get n a.
Proof. revert n. induction a as [|c a IH]; intros [|n]; simpl; intros; try lia; [done|]. apply IH; lia. Qed.

Lemma dollarsBefore_app a b n : (n <= String.length a)%nat -> dollarsBefore (a +:+ b) n = dollarsBefore a n.
Proof.
  induction n as [|n IH]; [done|]. intros Hn. cbn [dollarsBefore]. rewrite get_app by lia.
  destruct (isDollar _); [|done]. by rewrite IH by lia.
Qed.

Lemma trailing_here a b : dollarsBefore (a +:+ b) (String.length a) = trailing a.
Proof. by apply dollarsBefore_app. Qed.

Lemma dollarsBefore_cons c s n :
  dollarsBefore (String c s) (S n) =
  if decide (dollarsBefore s n = n) then (n + Nat.b2n (isDollar (Some c)))%nat else dollarsBefore s n.
Proof.
  induction n as [|n IH].
  { simpl. by destruct (isDollar (Some c)). }
  cbn [dollarsBefore] in *. cbn [String.get] in *.
  destruct (isDollar (String.get n s)); [|by rewrite decide_False].
  rewrite IH. clear. destruct (decide (dollarsBefore s n = n)) as [E|E].
  - rewrite E, decide_True by done. lia.
  - rewrite decide_False by lia. done.
Qed.

Lemma trailing_cons c s :
  trailing (String c s) =
  if decide (trailing s = String.length s) then (String.length s + Nat.b2n (isDollar (Some c)))%nat else trailing s.
Proof. apply dollarsBefore_cons. Qed.

Lemma trailing_after a c b : c <> "$"%char -> trailing (a +:+ String c b) = trailing b.
Proof.
  intros Hc. assert (trailing (String c b) = trailing b) as E.
  { rewrite trailing_cons. case_decide as E; [|done]. rewrite E.
    destruct c as [[] [] [] [] [] [] [] []]; simpl; try lia; by destruct Hc. }
  induction a as [|d a IH]; simpl; [done|]. rewrite trailing_cons, decide_False; [done|].
  rewrite IH, length_app_String. simpl. pose proof (trailing_le b). lia.
Qed.

(** ** findURI, one bracket at a time *)

Lemma upto_app n a b : n = Z.of_nat (String.length a) -> upto n (a +:+ b) = a.
Proof. intros ->. unfold upto. rewrite Nat2Z.id. apply takeString_app. Qed.

Lemma from_app n a b : n = Z.of_nat (String.length a) -> from n (a +:+ b) = b.
Proof. intros ->. unfold from. rewrite Nat2Z.id. apply dropString_app. Qed.

(** The text up to the first closing bracket. *)
Lemma first_bracket input :
  occurs input "}" ->
  exists a b, input = a +:+ "}" +:+ b /\ ~ occurs a "}" /\ Index input "}" = Z.of_nat (String.length a).
Proof.
  intros Ho. unfold Index. destruct (index_from input "}") as [n|] eqn:E; [|by apply index_from_None in E].
  destruct (index_from_Some _ _ _ E) as (a & b & -> & <-). exists a, b. split_and!; [done| |done].
  intros (x & y & ->). pose proof (index_from_least _ _ _ x (y +:+ "}" +:+ b) E) as Hl.
  rewrite !app_String_assoc in Hl. specialize (Hl eq_refl). rewrite length_app_String in Hl. simpl in Hl. lia.
Qed.

Lemma Index_first a b : ~ occurs a "}" -> Index (a +:+ "}" +:+ b) "}" = Z.of_nat (String.length a).
Proof.
  intros Ha. destruct (first_bracket (a +:+ "}" +:+ b)) as (a' & b' & E & Ha' & ->); [apply occurs_here|].
  apply app_String_eq in E as [(z & -> & E)|(z & -> & E)]; (destruct z as [|d z]; [by rewrite app_String_nil|]);
    injection E as <- E.
  - destruct Ha'. by exists a, z.
  - destruct Ha. by exists a', z.
Qed.

Lemma LastIndex_None s sub : ~ occurs s sub -> LastIndex s sub = -1.
Proof.
  intros Hn. unfold LastIndex. destruct (last_index_from s sub) as [n|] eqn:E; [|done].
  apply last_index_from_Some in E as (a & b & -> & _). destruct Hn. apply occurs_here.
Qed.

(** The last opening before a text that has none. *)
Lemma LastIndex_last a b :
  ~ occurs b "${" -> LastIndex (a +:+ "${" +:+ b +:+ "}") "${" = Z.of_nat (String.length a).
Proof.
  intros Hb. unfold LastIndex.
  destruct (last_index_from (a +:+ "${" +:+ b +:+ "}") "${") as [n|] eqn:E.
  2: { apply last_index_from_None in E. destruct E. apply occurs_here. }
  pose proof (last_index_from_greatest _ _ _ a (b +:+ "}") E eq_refl) as Hge.
  destruct (last_index_from_Some _ _ _ E) as (x & y & Exy & <-). simpl. f_equal.
  apply app_String_eq in Exy as [(z & -> & Ez)|(z & -> & Ez)].
  - destruct z as [|c z]; [by rewrite app_String_nil|]. exfalso.
    injection Ez as <- Ez. destruct z as [|c z]; [done|]. injection Ez as <- Ez.
    apply app_String_eq in Ez as [(w & -> & Ew)|(w & -> & Ew)].
    + destruct w as [|c [|d [|e w]]]; simplify_eq/=.
    + destruct w as [|c [|d w]]; simplify_eq/=. apply Hb. by exists z, w.
  - rewrite length_app_String in Hge. destruct z; [by rewrite app_String_nil|simpl in Hge; lia].
Qed.

Lemma occurs_open_bracket a : occurs (a +:+ "}") "${" <-> occurs a "${".
Proof.
  split; [|apply occurs_app_l]. intros (x & y & E). symmetry in E.
  apply app_String_eq in E as [(z & -> & E)|(z & -> & E)].
  - destruct z as [|c [|d z]]; simplify_eq/=. by exists x, z.
  - destruct z as [|c [|]]; simplify_eq/=.
Qed.

(** Cutting at the first bracket. *)
Lemma from_bracket a b : from (Z.of_nat (String.length a) + 1) (a +:+ "}" +:+ b) = b.
Proof.
  rewrite <- app_String_assoc. apply from_app. rewrite length_app_String. simpl. lia.
Qed.

Lemma upto_bracket a b : upto (Z.of_nat (String.length a) + 1) (a +:+ "}" +:+ b) = a +:+ "}".
Proof.
  rewrite <- app_String_assoc. apply upto_app. rewrite length_app_String. simpl. lia.
Qed.

Lemma remaining_shorter input :
  Contains (from (Index input "}" + 1) input) "}" = true ->
  (String.length (from (Index input "}" + 1) input) < String.length input)%nat.
Proof.
  destruct (index_from input "}") as [n|] eqn:E.
  - intros _. destruct (first_bracket input) as (a & b & -> & _ & ->).
    { destruct (index_from_Some _ _ _ E) as (a & b & -> & _). apply occurs_here. }
    rewrite from_bracket, !length_app_String. simpl. lia.
  - unfold Index. rewrite E. intros Hc. apply Contains_spec in Hc. by apply index_from_None in E.
Qed.

Lemma colon_inside body : occurs ("${" +:+ body +:+ "}") ":" -> occurs body ":".
Proof.
  intros Ho. apply (occurs_char _ "${") in Ho as [(x & y & E)|Ho].
  { destruct x as [|? [|? [|]]]; simplify_eq/=. }
  apply occurs_char in Ho as [?|(x & y & E)]; [done|]. destruct x as [|? [|]]; simplify_eq/=.
Qed.

Section find.
Context (ds : string).

Lemma rounds_enough f1 f2 input :
  (String.length input < f1)%nat -> (String.length input < f2)%nat ->
  findURI_rounds f1 ds input = findURI_rounds f2 ds input.
Proof.
  revert f2 input. induction f1 as [|f1 IH]; intros [|f2] input H1 H2; try lia. cbn [findURI_rounds].
  destruct (_ || _); [|done]. destruct (Contains (from _ _) "}") eqn:E; simpl; [|done].
  apply remaining_shorter in E. apply IH; lia.
Qed.

(** The bracket closes a reference. *)
Lemma findURI_here pre body b :
  ~ occurs (pre +:+ "${" +:+ body) "}" -> ~ occurs body "${" -> (ds = "" -> occurs body ":") ->
  findURI ds (pre +:+ "${" +:+ body +:+ "}" +:+ b) =
  if Nat.odd (trailing pre) then "" else "${" +:+ body +:+ "}".
Proof.
  intros Hc Hi Hs. pose (a := pre +:+ "${" +:+ body).
  assert (pre +:+ "${" +:+ body +:+ "}" +:+ b = a +:+ "}" +:+ b) as -> by (unfold a; by rewrite !app_String_assoc).
  unfold findURI. cbn [findURI_rounds]. rewrite Index_first, from_bracket, upto_bracket by done.
  assert (a +:+ "}" = pre +:+ "${" +:+ body +:+ "}") as Ea by (unfold a; by rewrite !app_String_assoc).
  rewrite Ea, LastIndex_last, from_app by done. rewrite (proj2 (Z.ltb_ge _ _)) by lia. cbn [orb].
  assert (bool_decide (ds = "") && negb (Contains ("${" +:+ body +:+ "}") ":") = false) as ->.
  { case_bool_decide; [|done]. simpl. rewrite negb_false_iff. apply Contains_spec.
    destruct (Hs ltac:(done)) as (x & y & ->). exists ("${" +:+ x), (y +:+ "}"). by rewrite !app_String_assoc. }
  rewrite Nat2Z.id. unfold a. rewrite app_String_assoc, trailing_here. done.
Qed.

(** The bracket closes nothing. *)
Lemma findURI_next a b :
  ~ occurs a "}" -> (forall pre body, a = pre +:+ "${" +:+ body -> ~ occurs body "${" -> ds = "" /\ ~ occurs body ":") ->
  findURI ds (a +:+ "}" +:+ b) = if Contains b "}" then findURI ds b else "".
Proof.
  intros Ha Hno. unfold findURI. cbn [findURI_rounds]. rewrite Index_first, from_bracket, upto_bracket by done.
  match goal with |- (if ?c then _ else _) = _ => assert (c = true) as -> end.
  { unfold LastIndex. destruct (last_index_from (a +:+ "}") "${") as [n|] eqn:E; [|done].
    pose proof (fun x y => last_index_from_greatest _ _ _ x y E) as Hge.
    destruct (last_index_from_Some _ _ _ E) as (x & y & Exy & <-). simpl.
    rewrite Exy, from_app by done. rewrite orb_true_iff. right.
    apply app_String_eq in Exy as [(z & -> & Ez)|(z & -> & Ez)].
    { destruct z as [|c [|]]; simplify_eq/=. }
    destruct z as [|c [|d z]]; simplify_eq/=.
    destruct (Hno x z) as [-> Hz]; [done| |].
    { intros (p & q & ->). specialize (Hge (x +:+ "${" +:+ p) (q +:+ "}")).
      specialize (Hge ltac:(simpl; do 4 (rewrite ?app_String_assoc; simpl); done)).
      rewrite !length_app_String in Hge. simpl in Hge. lia. }
    simpl. rewrite negb_true_iff. apply Contains_false. intros Ho. apply Hz.
    by apply colon_inside. }
  destruct (Contains b "}") eqn:E; [|done]. cbn [negb].
  transitivity (findURI_rounds (S (String.length b)) ds b); [|done]. apply rounds_enough; [|lia].
  rewrite !length_app_String. simpl. lia.
Qed.

Lemma findURI_none input : ~ occurs input "}" -> findURI ds input = "".
Proof.
  intros Hn. unfold findURI. cbn [findURI_rounds].
  assert (index_from input "}" = None) as E by by apply index_from_None.
  unfold Index. rewrite E. simpl. rewrite (proj2 (Contains_false _ _)) by done. done.
Qed.

(** A reference is closed by the first bracket or comes after it. *)
Lemma reference_chunk a b pre body post :
  ~ occurs a "}" -> reference ds (a +:+ "}" +:+ b) pre body post ->
  (a = pre +:+ "${" +:+ body /\ b = post) \/
  exists pre', pre = a +:+ "}" +:+ pre' /\ reference ds b pre' body post.
Proof.
  intros Ha [E Hc Hi Hs].
  assert (a +:+ "}" +:+ b = (pre +:+ "${" +:+ body) +:+ "}" +:+ post) as E' by by rewrite !app_String_assoc.
  apply app_String_eq in E' as [(z & Ez & E')|(z & Ez & E')].
  - destruct z as [|c z]; simpl in E'; [rewrite app_String_nil in Ez; injection E' as ->; by left|].
    injection E' as <- E'. right.
    apply app_String_eq in Ez as [(w & -> & Ew)|(w & -> & Ew)].
    + destruct w as [|c [|d w]]; simplify_eq/=. destruct Hc. by exists w, z.
    + destruct w as [|c w]; simpl in Ew; [done|]. injection Ew as <- ->.
      exists w. split; [done|]. split; [|done..]. by rewrite E', !app_String_assoc.
  - destruct z as [|c z]; simpl in E'; [rewrite app_String_nil in Ez; injection E' as ->; by left|].
    injection E' as <- E'. destruct Ha. rewrite Ez. eexists _, z. done.
Qed.

Lemma last_reference pre body pre' body' :
  pre +:+ "${" +:+ body = pre' +:+ "${" +:+ body' -> ~ occurs body "${" -> ~ occurs body' "${" -> pre = pre'.
Proof.
  intros E H1 H2. apply app_String_eq in E as [(z & -> & E)|(z & -> & E)];
    (destruct z as [|c [|d z]]; simplify_eq/=; [by rewrite app_String_nil|]).
  - destruct H1. by exists z, body'.
  - destruct H2. by exists z, body.
Qed.

(** Whether a reference begins before the first bracket. *)
Lemma open_reference a :
  (exists pre body, a = pre +:+ "${" +:+ body /\ ~ occurs body "${" /\ (ds = "" -> occurs body ":")) \/
  (forall pre body, a = pre +:+ "${" +:+ body -> ~ occurs body "${" -> ds = "" /\ ~ occurs body ":").
Proof.
  destruct (last_index_from a "${") as [n|] eqn:E.
  2: { right. intros pre body -> _. apply last_index_from_None in E. destruct E. by exists pre, body. }
  destruct (last_index_from_Some _ _ _ E) as (pre & body & -> & <-).
  assert (~ occurs body "${") as Hi.
  { intros (p & q & ->). pose proof (last_index_from_greatest _ _ _ (pre +:+ "${" +:+ p) q E) as Hge.
    rewrite !app_String_assoc in Hge. specialize (Hge eq_refl). rewrite !length_app_String in Hge. simpl in Hge. lia. }
  destruct (decide (ds = "")) as [Hd|Hd]; [destruct (Contains body ":") eqn:Eb|].
  - apply Contains_spec in Eb. left. eauto.
  - apply Contains_false in Eb. right. intros pre' body' E' Hi'. split; [done|].
    pose proof (last_reference _ _ _ _ E' Hi Hi') as <-. apply app_String_inj in E'. by simplify_eq/=.
  - left. exists pre, body. by split_and!.
Qed.

(** findURI looks at the first reference: it returns it unless an odd number of dollars
    comes before it, and otherwise nothing. *)
Lemma findURI_first input :
  (findURI ds input = "" /\ forall pre body post, ~ reference ds input pre body post) \/
  (exists pre body post, reference ds input pre body post /\
     (forall pre' body' post', reference ds input pre' body' post' -> (String.length pre <= String.length pre')%nat) /\
     findURI ds input = if Nat.odd (trailing pre) then "" else "${" +:+ body +:+ "}").
Proof.
  remember (String.length input) as n eqn:En. revert input En.
  induction (lt_wf n) as [n _ IH]. intros input ->.
  destruct (Contains input "}") eqn:Ec.
  2: { apply Contains_false in Ec. left. split; [by apply findURI_none|].
       intros pre body post [-> _ _ _]. destruct Ec. exists (pre +:+ "${" +:+ body), post.
       by rewrite !app_String_assoc. }
  apply Contains_spec, first_bracket in Ec as (a & b & -> & Ha & _).
  destruct (open_reference a) as [(pre & body & -> & Hi & Hs)|Hno].
  - right. exists pre, body, b.
    assert (~ occurs body "}") as Hc by (intros ?; apply Ha; auto with go).
    split_and!.
    + split; [by rewrite !app_String_assoc|done..].
    + intros pre' body' post' Hr. apply reference_chunk in Hr as Hc'; [|done].
      destruct Hc' as [[E _]|(p & -> & _)].
      * pose proof (reference_inner _ _ _ _ _ Hr) as Hi'. by rewrite (last_reference _ _ _ _ E Hi Hi').
      * rewrite !length_app_String. simpl. lia.
    + rewrite !app_String_assoc. by apply findURI_here.
  - rewrite findURI_next by done.
    assert (forall pre body post, reference ds (a +:+ "}" +:+ b) pre body post ->
      exists pre', pre = a +:+ "}" +:+ pre' /\ reference ds b pre' body post) as Hb.
    { intros pre body post Hr. apply reference_chunk in Hr as Hc'; [|done]. destruct Hc' as [[-> ->]|?]; [|done].
      destruct Hr as [_ Hc Hi Hs]. destruct (Hno _ _ eq_refl Hi) as [Hd Hn]. by destruct Hn; apply Hs. }
    destruct (IH (String.length b)) with (input := b) as [[-> Hn]|(pre & body & post & Hr & Hf & E)];
      [rewrite !length_app_String; simpl; lia|done| |].
    + left. split; [by destruct (Contains b "}")|]. intros pre body post Hr.
      apply Hb in Hr as (p & _ & Hr). by apply Hn in Hr.
    + right. exists (a +:+ "}" +:+ pre), body, post. destruct Hr as [Eb Hc Hi Hs]. split_and!.
      * split; [by rewrite Eb, !app_String_assoc|done..].
      * intros pre' body' post' Hr. apply Hb in Hr as (p & -> & Hr). specialize (Hf _ _ _ Hr).
        rewrite !length_app_String. lia.
      * assert (Contains b "}" = true) as ->.
        { apply Contains_spec. rewrite Eb. exists (pre +:+ "${" +:+ body), post. by rewrite !app_String_assoc. }
        rewrite E. change ("}" +:+ pre) with (String "}" pre). by rewrite trailing_after.
Qed.
End find.

(** ** Escaping *)

(** The text in which every dollar is written twice. *)
Fixpoint double (s : string) : string :=
  match s with
  | EmptyString => ""
  | String c s => if decide (c = "$"%char) then "$$" +:+ double s else String c (double s)
  end.

Fixpoint escape (v : value) : value :=
  match v with
  | VString s => VString (double s)
  | VList l => VList (map escape l)
  | VMap m => VMap (map (fun x => (x.1, escape x.2)) m)
  | _ => v
  end.

(** A value as it is in a file: without expanded values in it. *)
Fixpoint plain (v : value) : bool :=
  match v with
  | VList l => forallb plain l
  | VMap m => forallb (fun x => plain x.2) m
  | ExpandedValue _ _ => false
  | _ => true
  end.

Lemma trailing_snoc pre : trailing (pre +:+ "$") = S (trailing pre).
Proof.
  unfold trailing at 1. rewrite length_app_String, Nat.add_1_r. cbn [dollarsBefore].
  rewrite trailing_here. replace (String.get _ _) with (Some "$"%char); [done|].
  induction pre; simpl; auto.
Qed.

Lemma trailing_double pre : Nat.even (trailing (String "$" (String "$" pre))) = Nat.even (trailing pre).
Proof.
  rewrite (trailing_cons _ (String "$" pre)), (trailing_cons _ pre). cbn [String.length isDollar Nat.b2n].
  destruct (decide (trailing pre = String.length pre)) as [E|E].
  - rewrite decide_True by lia. rewrite E, !Nat.add_1_r. done.
  - pose proof (trailing_le pre). by rewrite decide_False by lia.
Qed.

Lemma double_even s pre c rest :
  double s = pre +:+ String c rest -> c <> "$"%char -> Nat.even (trailing pre) = true.
Proof.
  intros E Hc. revert pre E. induction s as [|d s IH]; intros pre; simpl; [by destruct pre|].
  case_decide as Hd; simpl.
  - destruct pre as [|e [|f pre]]; intros E; simplify_eq/=. rewrite trailing_double. by apply IH.
  - destruct pre as [|e pre]; intros E; simplify_eq/=; [done|].
    assert (trailing (String e pre) = trailing pre) as -> by by apply (trailing_after "").
    by apply IH.
Qed.

Lemma findURI_double ds s : findURI ds (double s) = "".
Proof.
  destruct (findURI_first ds (double s)) as [[-> _]|(pre & body & post & [E _ _ _] & _ & ->)]; [done|].
  assert (Nat.even (trailing (pre +:+ "$")) = true) as He.
  { apply (double_even s _ "{" (body +:+ "}" +:+ post)); [|done]. by rewrite E, app_String_assoc. }
  rewrite trailing_snoc, Nat.even_succ in He. by rewrite He.
Qed.

Lemma ReplaceAll_double s : ReplaceAll (double s) "$$" "$" = s.
Proof.
  induction s as [|c s IH]; [done|]. cbn [double]. case_decide as Hc.
  - rewrite ReplaceAll_here, IH by done. by subst.
  - rewrite ReplaceAll_there, IH; [done|]. cbn [HasPrefix]. by rewrite bool_decide_eq_false_2 by congruence.
Qed.

Lemma escapeDollarSigns_escape v : plain v = true -> escapeDollarSigns (escape v) = v.
Proof.
  induction v as [| | | | | | |s|l IH|m IH|] using value_induction; simpl; try done.
  - intros _. by rewrite ReplaceAll_double.
  - intros Hp. f_equal. induction IH; simpl in *; [done|]. apply andb_prop in Hp as [? ?]. f_equal; auto.
  - intros Hp. f_equal. induction IH as [|[k x]]; simpl in *; [done|]. apply andb_prop in Hp as [? ?]. repeat f_equal; auto.
Qed.

(** ** Values in which nothing is left to expand *)

Section settled.
Context (providers : list (string * Provider)) (ds : string).

Definition noURI (s : string) : bool :=
  negb (Contains s "${") || negb (Contains s "}") || bool_decide (findURI ds s = "").

Fixpoint settled (v : value) : bool :=
  match v with
  | VString s => noURI s
  | VList l => forallb settled l
  | VMap m => forallb (fun x => settled x.2) m
  | ExpandedValue v o =>
      settled v && noURI o && match v with VString _ | ExpandedValue _ _ => false | _ => true end
  | _ => true
  end.

Lemma expandString_settled s st :
  noURI s = true -> expandString providers ds s st = (inr (VString s, false), st).
Proof.
  unfold noURI, expandString, findAndExpandURI. destruct (negb (Contains s "${") || _); [done|]. simpl.
  intros E%bool_decide_eq_true. by rewrite decide_True by done.
Qed.

Lemma bind_inr {A B} (m : M A) (f : A -> M B) st b st' :
  (m ≫= f) st = (inr b, st') -> exists a st1, m st = (inr a, st1) /\ f a st1 = (inr b, st').
Proof.
  unfold mbind, M_bind. destruct (m st) as [[e|a] st1]; [done|]. eauto.
Qed.

(** Only a string without a reference stays as it is. *)
Lemma expandString_unchanged s st v st' :
  expandString providers ds s st = (inr (v, false), st') -> v = VString s /\ noURI s = true.
Proof.
  unfold expandString, noURI. destruct (negb (Contains s "${") || _); [by intros [= <- _]|].
  unfold findAndExpandURI. case_decide as Hu; [intros [= <- _]; by rewrite bool_decide_eq_true_2, orb_true_r|].
  case_decide as Hi; intros (r & st1 & _ & Hr)%bind_inr.
  - apply bind_inr in Hr as (val & st2 & _ & Hr). by destruct (AsString r); simplify_eq/=.
  - by destruct (AsString r); simplify_eq/=.
Qed.

Lemma expandEach_unchanged (P : value -> bool) l :
  Forall (fun v => forall st w st', expandValue providers ds v st = (inr (w, false), st') -> P w = true) l ->
  forall st l' st', expandEach (expandValue providers ds) l st = (inr (l', false), st') -> forallb P l' = true.
Proof.
  induction 1 as [|v l Hv _ IH]; intros st l' st'; cbn [expandEach]; [by intros [= <- _]|].
  intros ([y c] & st1 & Hy & E)%bind_inr. apply bind_inr in E as ([l2 c2] & st2 & Hl & E).
  injection E as <- Ec _. apply orb_false_elim in Ec as [-> ->]. simpl.
  by rewrite (Hv _ _ _ Hy), (IH _ _ _ Hl).
Qed.

Lemma expandEntries_unchanged (P : value -> bool) m :
  Forall (fun x => forall st w st', expandValue providers ds x.2 st = (inr (w, false), st') -> P w = true) m ->
  forall st m' st', expandEntries (expandValue providers ds) m st = (inr (m', false), st') ->
    forallb (fun x => P x.2) m' = true.
Proof.
  induction 1 as [|[k v] m Hv _ IH]; intros st m' st'; cbn [expandEntries]; [by intros [= <- _]|].
  intros ([y c] & st1 & Hy & E)%bind_inr. apply bind_inr in E as ([l2 c2] & st2 & Hl & E).
  injection E as <- Ec _. apply orb_false_elim in Ec as [-> ->]. simpl.
  by rewrite (Hv _ _ _ Hy), (IH _ _ _ Hl).
Qed.

Lemma expandValue_unchanged v st w st' :
  expandValue providers ds v st = (inr (w, false), st') -> settled w = true.
Proof.
  revert st w st'. induction v as [| | | | | | |s|l IH|m IH|v o IH] using value_induction; intros st w st';
    cbn [expandValue]; try by intros [= <- _].
  - by intros [-> ?]%expandString_unchanged.
  - intros ([l' c] & st1 & Hl & [= <- -> _])%bind_inr. exact (expandEach_unchanged _ _ IH _ _ _ Hl).
  - intros ([m' c] & st1 & Hm & [= <- -> _])%bind_inr. exact (expandEntries_unchanged _ _ IH _ _ _ Hm).
  - intros ([e c] & st1 & He & Hw)%bind_inr.
    assert (forall w', expandOriginal providers ds e c o st1 = (inr (w', false), st') ->
      (match e with VString _ | ExpandedValue _ _ => false | _ => true end) = true -> settled w' = true) as Ho.
    { intros w' Eo Hm. unfold expandOriginal in Eo.
      destruct (expandString providers ds o st1) as [[err|[o' oc]] st2] eqn:E; [by simplify_eq; eauto|].
      destruct o'; simplify_eq/=; try by eauto.
      apply orb_false_elim in H0 as [-> ->]. apply expandString_unchanged in E as [[= <-] E].
      simpl. by rewrite (IH _ _ _ He), E, Hm. }
    destruct e; try (by apply Ho); injection Hw as <- -> _; eauto.
Qed.

Lemma settled_unchanged v st : settled v = true -> expandValue providers ds v st = (inr (v, false), st).
Proof.
  induction v as [| | | | | | |s|l IH|m IH|v o IH] using value_induction; cbn [expandValue settled]; try done.
  - apply expandString_settled.
  - intros Hs. assert (expandEach (expandValue providers ds) l st = (inr (l, false), st)) as E.
    { induction IH as [|x l Hx _ IHl]; [done|]. simpl in Hs. apply andb_prop in Hs as [? ?].
      cbn [expandEach]. unfold mbind, M_bind. rewrite Hx, IHl by done. done. }
    unfold mbind, M_bind. by rewrite E.
  - intros Hs. assert (expandEntries (expandValue providers ds) m st = (inr (m, false), st)) as E.
    { induction IH as [|[k x] m Hx _ IHl]; [done|]. simpl in Hs. apply andb_prop in Hs as [? ?].
      cbn [expandEntries snd] in *. unfold mbind, M_bind. rewrite Hx, IHl by done. done. }
    unfold mbind, M_bind. by rewrite E.
  - intros [[Hv Ho]%andb_prop Hm]%andb_prop. unfold mbind, M_bind. rewrite IH by done.
    unfold expandOriginal. by destruct v; try done; rewrite expandString_settled.
Qed.
End settled.

(** ** The rounds of an expansion *)

Section rounds.
Context (providers : list (string * Provider)) (ds : string).

(** One round that changed something. *)
Definition round (x y : value * rstate) : Prop :=
  expandValue providers ds x.1 x.2 = (inr (y.1, true), y.2).

(** After [m] rounds that changed something the next call returns [r]. *)
Definition ends (m : nat) (v : value) (st : rstate) (r : (error + (value * bool)) * rstate) : Prop :=
  exists v1 st1, nsteps round m (v, st) (v1, st1) /\ expandValue providers ds v1 st1 = r.

Lemma ends_0 v st r : ends 0 v st r <-> expandValue providers ds v st = r.
Proof.
  split; [|intros <-; exists v, st; split; [constructor|done]].
  intros (v1 & st1 & Hn & <-). by inversion Hn; subst.
Qed.

Lemma ends_S m v st r :
  ends (S m) v st r <->
  exists v' s', expandValue providers ds v st = (inr (v', true), s') /\ ends m v' s' r.
Proof.
  split.
  - intros (v1 & st1 & Hn & Hr). inversion Hn as [|? ? [v' s'] ? Hs Hn']; subst. exists v', s'. split; [done|].
    by exists v1, st1.
  - intros (v' & s' & Hs & v1 & st1 & Hn & Hr). exists v1, st1. split; [|done]. by apply nsteps_l with (v', s').
Qed.

(** The expansion stops at the first call that changes nothing or fails. *)
Lemma expandRounds_ends n v st r st' :
  expandRounds providers ds n v st = (r, st') ->
  (exists m, (m < n)%nat /\
     ends m v st (match r with inl e => inl e | inr w => inr (w, false) end, st')) \/
  (r = inl errTooManyRecursiveExpansions /\ exists v', nsteps round n (v, st) (v', st')).
Proof.
  revert v st. induction n as [|n IH]; intros v st; cbn [expandRounds].
  { intros [= <- <-]. right. split; [done|]. exists v. constructor. }
  unfold mbind, M_bind. destruct (expandValue providers ds v st) as [[e|[v' []]] s'] eqn:E.
  - intros [= <- <-]. left. exists 0%nat. rewrite ends_0. split; [lia|done].
  - intros [(m & Hm & He)|(-> & w & Hn)]%IH.
    + left. exists (S m). rewrite ends_S. split; [lia|eauto].
    + right. split; [done|]. exists w. by apply nsteps_l with (v', s').
  - intros [= <- <-]. left. exists 0%nat. rewrite ends_0. split; [lia|done].
Qed.

Lemma ends_expandRounds n m v st r st' :
  (m < n)%nat -> ends m v st (match r with inl e => inl e | inr w => inr (w, false) end, st') ->
  expandRounds providers ds n v st = (r, st').
Proof.
  revert n v st. induction m as [|m IH]; intros [|n] v st Hm; try lia; cbn [expandRounds]; unfold mbind, M_bind.
  - rewrite ends_0. intros ->. by destruct r.
  - rewrite ends_S. intros (v' & s' & -> & He). apply IH; [lia|done].
Qed.

Lemma rounds_expandRounds n v st v' st' :
  nsteps round n (v, st) (v', st') ->
  expandRounds providers ds n v st = (inl errTooManyRecursiveExpansions, st').
Proof.
  revert v st. induction n as [|n IH]; intros v st Hn; inversion Hn as [|? ? [v2 s2] ? Hr Hn']; subst; [done|].
  cbn [expandRounds]. unfold mbind, M_bind. unfold round in Hr. simpl in Hr. rewrite Hr. by apply IH.
Qed.
End rounds.

Lemma expandValueRecursively_settled providers ds v st :
  settled ds v = true -> expandValueRecursively providers ds v st = (inr v, st).
Proof.
  intros Hs. unfold expandValueRecursively. apply (ends_expandRounds _ _ _ 0); [lia|]. apply ends_0.
  by apply settled_unchanged.
Qed.

Lemma settled_escape ds v : plain v = true -> settled ds (escape v) = true.
Proof.
  induction v as [| | | | | | |s|l IH|m IH|] using value_induction; simpl; try done.
  - intros _. unfold noURI. by rewrite findURI_double, bool_decide_eq_true_2, orb_true_r.
  - intros Hp. induction IH; simpl in *; [done|]. apply andb_prop in Hp as [? ?]. apply andb_true_intro; auto.
  - intros Hp. induction IH as [|[k x]]; simpl in *; [done|]. apply andb_prop in Hp as [? ?]. apply andb_true_intro; auto.
Qed.
