(* ===== verification/ConfResolverProofs.v ===== *)
(** * ConfResolverProofs: what a resolver retrieves, returns and closes *)

From Stdlib Require Import Ascii.
From S2P Require Import Prelude GoErrors GoStrings ConfMap ConfResolver ConfExpandProofs.

(** ** Every operation only adds retrieved values with their closers *)

(** The calls of the generations of values that were closed, then those not closed yet. *)
Record retrieved_by (gens : list (list nat)) (s : rstate) : Prop := {
  retrieved_log : log s = concat (map (fun g => map Retrieved_ g ++ map Closed g) gens) ++ map Retrieved_ (closers s).*1;
  retrieved_once : NoDup (concat gens ++ (closers s).*1);
  retrieved_calls : Forall (fun n => (n < calls s)%nat) (concat gens ++ (closers s).*1);
}.

Definition keeps {A} (m : M A) : Prop := forall gens s, retrieved_by gens s -> retrieved_by gens (m s).2.

Lemma keeps_ret {A} (a : A) : keeps (mret a).
Proof. by intros gens s Hs. Qed.

Lemma keeps_throw {A} e : keeps (throw (A := A) e).
Proof. by intros gens s Hs. Qed.

Lemma keeps_bind {A B} (m : M A) (f : A -> M B) : keeps m -> (forall a, keeps (f a)) -> keeps (m ≫= f).
Proof.
  intros Hm Hf gens s Hs. unfold mbind, M_bind. specialize (Hm gens s Hs).
  destruct (m s) as [[e|a] s']; [done|]. by apply Hf.
Qed.

Lemma keeps_lift {A B} (r : error + A) (f : A -> M B) : (forall a, keeps (f a)) -> keeps (lift r ≫= f).
Proof. intros Hf. apply keeps_bind; [|done]. by intros gens s Hs. Qed.

#[local] Hint Resolve keeps_ret keeps_throw : core.

Section resolving.
Context (providers : list (string * Provider)) (ds : string).

Lemma keeps_retrieve uri : keeps (retrieveValue providers uri ≫= addCloser).
Proof.
  intros gens s [Hl Hn Hc]. unfold mbind, M_bind, retrieveValue.
  destruct (lookupEntry _ _) as [p|]; [|done].
  destruct (Retrieve p _ _) as [e|r]; cbn [snd fst addCloser]; split; cbn [log closers calls]; try done.
  - eapply Forall_impl; [done|]. cbn beta. lia.
  - by rewrite fmap_app, map_app, Hl, app_assoc.
  - rewrite fmap_app, app_assoc. apply NoDup_app. split_and!; [done| |apply NoDup_singleton].
    intros n Hin ->%list_elem_of_singleton. rewrite Forall_forall in Hc. specialize (Hc _ Hin). simpl in Hc. lia.
  - rewrite fmap_app, app_assoc. apply Forall_app. split; [|constructor; [simpl; lia|done]].
    eapply Forall_impl; [done|]. cbn beta. lia.
Qed.

Lemma keeps_expandURI uri : keeps (expandURI providers ds uri).
Proof.
  unfold expandURI. apply keeps_lift. intros l. destruct (Contains _ _); [done|]. apply keeps_retrieve.
Qed.

Lemma keeps_expandString s : keeps (expandString providers ds s).
Proof.
  unfold expandString, findAndExpandURI. destruct (_ || _); [done|]. case_decide; [done|].
  case_decide; apply keeps_bind; auto using keeps_expandURI; intros r.
  - apply keeps_lift. intros v. by destruct (AsString r).
  - by destruct (AsString r).
Qed.

Lemma keeps_each {A B} (f : A -> M (B * bool)) l : Forall (fun x => keeps (f x)) l -> keeps (expandEach f l).
Proof.
  induction 1; cbn [expandEach]; [done|]. apply keeps_bind; [done|]. intros []. apply keeps_bind; [done|]. by intros [].
Qed.

Lemma keeps_entries {A B} (f : A -> M (B * bool)) m :
  Forall (fun x => keeps (f x.2)) m -> keeps (expandEntries f m).
Proof.
  induction 1 as [|[k x]]; cbn [expandEntries]; [done|]. apply keeps_bind; [done|]. intros [].
  apply keeps_bind; [done|]. by intros [].
Qed.

Lemma keeps_expandOriginal e c o : keeps (expandOriginal providers ds e c o).
Proof.
  intros gens s Hs. unfold expandOriginal. pose proof (keeps_expandString o gens s Hs) as Hk.
  destruct (expandString providers ds o s) as [[err|[[] oc]] s']; done.
Qed.

Lemma keeps_expandValue v : keeps (expandValue providers ds v).
Proof.
  induction v using value_induction; cbn [expandValue]; auto using keeps_expandString.
  - apply keeps_bind; [by apply keeps_each|]. by intros [].
  - apply keeps_bind; [by apply keeps_entries|]. by intros [].
  - apply keeps_bind; [done|]. intros [[] c]; auto using keeps_expandOriginal.
Qed.

Lemma keeps_rounds n v : keeps (expandRounds providers ds n v).
Proof.
  revert v. induction n as [|n IH]; intros v; cbn [expandRounds]; [done|].
  apply keeps_bind; [apply keeps_expandValue|]. intros [w []]; auto.
Qed.

Context `{Koanf, MultiErr}.

Lemma keeps_expandKeys retMap keys : keeps (expandKeys providers ds retMap keys).
Proof.
  induction keys as [|k keys IH]; cbn [expandKeys]; [done|].
  apply keeps_bind; [apply keeps_rounds|]. intros v. by apply keeps_bind.
Qed.

Lemma keeps_mergeURIs gate retMap l s r s' gens :
  mergeURIs gate providers retMap l s = Some (r, s') -> retrieved_by gens s -> retrieved_by gens s'.
Proof.
  revert retMap s. induction l as [|uri l IH]; intros retMap s; cbn [mergeURIs]; [by intros [= _ <-]|].
  intros E Hs. apply (keeps_retrieve uri) in Hs. destruct ((retrieveValue providers uri ≫= addCloser) s) as [[e|x] s1].
  - by simplify_eq/=.
  - destruct (AsConf x) as [e|c]; [by simplify_eq/=|].
    destruct (Conf_Merge gate retMap c) as [[e|retMap']|]; simplify_eq/=; eauto.
Qed.
End resolving.

(** ** Closing *)

Section life.
Context `{Koanf, MultiErr}.

Lemma closeIfNeeded_retrieved gens s :
  retrieved_by gens s -> retrieved_by (gens ++ [(closers s).*1]) (closeIfNeeded s).2.
Proof.
  intros [Hl Hn Hc]. split; cbn [closeIfNeeded snd log closers calls]; rewrite ?fmap_nil, ?app_nil_r.
  - rewrite Hl, map_app, concat_app. cbn [map concat]. rewrite !app_nil_r, <- !app_assoc. repeat f_equal.
    by rewrite map_map.
  - by rewrite concat_app, concat_cons, app_nil_r.
  - by rewrite concat_app, concat_cons, app_nil_r.
Qed.

(** What Resolve leaves as it is. *)
Definition same_settings (mr mr' : Resolver) : Prop :=
  uris mr' = uris mr /\ providers mr' = providers mr /\ defaultScheme mr' = defaultScheme mr /\
  converters mr' = converters mr /\ watcherClosed mr' = watcherClosed mr.

Lemma Resolve_retrieved gate mr r mr' gens :
  Resolve gate mr = Some (r, mr') -> retrieved_by gens (state mr) ->
  retrieved_by (gens ++ [(closers (state mr)).*1]) (state mr') /\ same_settings mr mr'.
Proof.
  intros E Hs%closeIfNeeded_retrieved. unfold Resolve in E.
  destruct (closeIfNeeded (state mr)) as [err s]. cbn [snd] in Hs.
  destruct err as [err|]; [injection E as <- <-; done|].
  destruct (mergeURIs _ _ _ _ _) as [[[e|retMap] s1]|] eqn:Em; [| |done];
    cbn [set_state providers] in *; pose proof (keeps_mergeURIs _ _ _ _ _ _ _ _ Em Hs) as Hs1.
  { injection E as <- <-. done. }
  pose proof (keeps_expandKeys (providers mr) (defaultScheme mr) retMap (AllKeys retMap) _ _ Hs1) as Hs2.
  cbn [set_unexpanded set_state providers defaultScheme] in E.
  destruct (expandKeys _ _ _ _ s1) as [[e|m] s2]; injection E as <- <-; done.
Qed.

Lemma resolveTimes_retrieved n gate mr mr' gens :
  resolveTimes n gate mr = Some mr' -> retrieved_by gens (state mr) ->
  exists gens', length gens' = (length gens + n)%nat /\ retrieved_by gens' (state mr') /\ same_settings mr mr'.
Proof.
  revert mr gens. induction n as [|n IH]; intros mr gens; cbn [resolveTimes].
  { intros [= <-] Hs. exists gens. split_and!; [lia|done|done]. }
  destruct (Resolve gate mr) as [[r mr1]|] eqn:E; [|done]. intros En Hs.
  destruct (Resolve_retrieved _ _ _ _ _ E Hs) as [Hs1 (?&?&?&?&?)].
  destruct (IH _ _ En Hs1) as (gens' & Hl & Hg & (?&?&?&?&?)).
  rewrite length_app in Hl. simpl in Hl. exists gens'. unfold same_settings. split_and!; [lia|done|congruence..].
Qed.

(** The errors of a list of calls are collected: no error exactly when no call has one. *)
Lemma collected_None `{!MultiErrLaws} {A} (f : A -> option error) l e :
  foldl (fun err x => multierr_Append err (f x)) e l = None <-> e = None /\ Forall (fun x => f x = None) l.
Proof.
  revert e. induction l as [|x l IH]; intros e; simpl; [rewrite Forall_nil; tauto|].
  rewrite IH, multierr_some, Forall_cons. tauto.
Qed.

Lemma NewResolver_start set mr : NewResolver set = inr mr -> state mr = start /\ watcherClosed mr = false.
Proof.
  unfold NewResolver. destruct (URIs set), (ProviderFactories set); try done.
  destruct (collectProviders _ _); [done|]. destruct (_ && _); [done|].
  destruct (newURIs _ _); [done|]. by intros [= <-].
Qed.

Lemma start_retrieved : retrieved_by [] start.
Proof. by split; [|constructor|constructor]. Qed.
End life.

(** ** The checks of NewResolver *)

Section checks.
Context `{Koanf, MultiErr}.

Lemma lookupEntry_None {A} k (m : list (string * A)) : lookupEntry k m = None <-> k ∉ m.*1.
Proof.
  induction m as [|[k' x] m IH]; simpl; [set_solver|]. case_decide; [subst; set_solver|].
  rewrite IH. set_solver.
Qed.

(** What a list of providers must be for NewResolver. *)
Definition providers_ok (acc : list string) (l : list Provider) : Prop :=
  Forall (fun p => schemePattern_MatchString (Scheme p) = true) l /\ NoDup (acc ++ map Scheme l).

Lemma collectProviders_spec acc l :
  NoDup acc.*1 ->
  match collectProviders acc l with
  | inr ps => ps = acc ++ map (fun p => (Scheme p, p)) l /\ providers_ok acc.*1 l
  | inl _ => ~ providers_ok acc.*1 l
  end.
Proof.
  unfold providers_ok. revert acc. induction l as [|p l IH]; intros acc Hacc; cbn [collectProviders map].
  { by rewrite !app_nil_r. }
  destruct (schemePattern_MatchString (Scheme p)) eqn:Ep; cbn [negb].
  2: { intros [Hf _]. apply Forall_cons_1 in Hf as [? _]. congruence. }
  destruct (lookupEntry (Scheme p) acc) as [q|] eqn:Eq.
  { intros [_ Hn]. apply NoDup_app in Hn as (_ & Hd & _).
    assert (Scheme p ∈ acc.*1) as Hi.
    { apply dec_stable. intros Hi. apply lookupEntry_None in Hi. congruence. }
    destruct (Hd _ Hi). left. }
  apply lookupEntry_None in Eq.
  specialize (IH (acc ++ [(Scheme p, p)])). rewrite fmap_app in IH. cbn [fmap list_fmap fst] in IH.
  assert (NoDup (acc.*1 ++ [Scheme p])) as Hn by (apply NoDup_app; split_and!; [done|set_solver|apply NoDup_singleton]).
  specialize (IH Hn). destruct (collectProviders _ l) as [e|ps]; rewrite <- !app_assoc in IH; cbn [app] in IH;
    rewrite Forall_cons; tauto.
Qed.

(** A URI names a registered provider, or is the path of a file. *)
Definition file_path (uri : string) : Prop := driverLetterRegexp_MatchString uri = true \/ ~ occurs uri ":".

Definition located (schemes : list string) (uri : string) (l : location) : Prop :=
  (file_path uri /\ l = {| scheme := "file"; opaqueValue := uri |}) \/
  (~ file_path uri /\ asString l = uri /\ isScheme (scheme l) = true /\ scheme l ∈ schemes).

Lemma isScheme_colonless s : isScheme s = true -> ~ occurs s ":".
Proof.
  assert (forall s, all_chars is_scheme_char s = true -> ~ occurs s ":") as Hc.
  { clear s. intros s Hs (a & b & ->). induction a as [|c a IH]; simpl in Hs; [done|].
    apply andb_prop in Hs as [_ Hs]. by apply IH. }
  destruct s as [|c s]; [done|]. simpl. intros [[Hl _]%andb_prop Hs]%andb_prop Ho.
  apply (occurs_char _ (String c "")) in Ho as [(x & y & E)|Ho]; [|by apply (Hc s)].
  destruct x as [|d [|]]; simplify_eq/=.
Qed.

Lemma newLocation_spec uri :
  match newLocation uri with
  | inr l => asString l = uri /\ isScheme (scheme l) = true
  | inl _ => forall s o, uri = s +:+ ":" +:+ o -> isScheme s = false
  end.
Proof.
  unfold newLocation, CutString, Index.
  destruct (index_from uri ":") as [n|] eqn:E; cbn [toIndex].
  - destruct (index_from_Some _ _ _ E) as (a & b & -> & <-).
    rewrite (proj2 (Z.leb_le _ _)), upto_app by lia. cbn [andb].
    destruct (isScheme a) eqn:Ea; cbn [asString scheme opaqueValue]; [split; [|done]|].
    + rewrite <- (app_String_assoc a), from_app; [by rewrite app_String_assoc|].
      rewrite length_app_String. simpl. lia.
    + intros s o Hs. destruct (isScheme s) eqn:Es; [|done]. apply isScheme_colonless in Es as Hc.
      pose proof (index_from_least _ _ _ _ _ E Hs) as Hl.
      apply app_String_eq in Hs as [(z & -> & Hs)|(z & -> & Hs)].
      * destruct z as [|c z]; [rewrite app_String_nil in Es; congruence|]. injection Hs as <- _.
        destruct Hc. by exists a, z.
      * destruct z as [|c z]; [rewrite app_String_nil in Ea; congruence|].
        rewrite length_app_String in Hl. simpl in Hl. lia.
  - apply index_from_None in E. intros s o ->. destruct E. by exists s, o.
Qed.

Lemma newURI_spec ps uri :
  match newURI ps uri with
  | inr l => located ps.*1 uri l
  | inl _ => forall l, ~ located ps.*1 uri l
  end.
Proof.
  unfold newURI, located.
  destruct (driverLetterRegexp_MatchString uri || negb (Contains uri ":")) eqn:Ef.
  { left. split; [|done]. apply orb_prop in Ef as [?|Hn]; [by left|]. right.
    apply Contains_false. by apply negb_true_iff. }
  assert (~ file_path uri) as Hf.
  { apply orb_false_elim in Ef as [Hd Hn]. apply negb_false_iff, Contains_spec in Hn. intros [?|?]; [congruence|done]. }
  pose proof (newLocation_spec uri) as Hl. destruct (newLocation uri) as [e|l].
  - intros l [[? _]|(_ & <- & Hs & _)]; [done|]. by rewrite (Hl (scheme l) (opaqueValue l) eq_refl) in Hs.
  - destruct Hl as [Hu Hs]. destruct (lookupEntry (scheme l) ps) as [p|] eqn:Ep.
    + right. split_and!; [done..|]. apply dec_stable. intros Hi. apply lookupEntry_None in Hi. congruence.
    + apply lookupEntry_None in Ep. intros l' [[? _]|(_ & Hu' & Hs' & Hi)]; [done|].
      assert (scheme l' = scheme l) as El; [|by rewrite El in Hi].
      rewrite <- Hu in Hu'. unfold asString in Hu'.
      apply app_String_eq in Hu' as [(z & Ez & E)|(z & Ez & E)];
        (destruct z as [|c z]; [by rewrite app_String_nil in Ez|]; injection E as <- _).
      * apply isScheme_colonless in Hs as []. rewrite Ez. by exists (scheme l'), z.
      * apply isScheme_colonless in Hs' as []. rewrite Ez. by exists (scheme l), z.
Qed.

Lemma newURIs_spec ps us :
  match newURIs ps us with
  | inr ls => Forall2 (located ps.*1) us ls
  | inl _ => ~ exists ls, Forall2 (located ps.*1) us ls
  end.
Proof.
  induction us as [|uri us IH]; cbn [newURIs]; [done|]. pose proof (newURI_spec ps uri) as Hu.
  destruct (newURI ps uri) as [e|l].
  { intros [ls Hf]. apply Forall2_cons_inv_l in Hf as (l & ? & ? & _). by apply (Hu l). }
  destruct (newURIs ps us) as [e|ls]; [|by constructor].
  intros [ls' Hf]. apply Forall2_cons_inv_l in Hf as (? & ls & ? & ? & _). apply IH. by exists ls.
Qed.
End checks.
