(* ===== verification/ConfTheorems.v ===== *)
(** * ConfTheorems: what the resolver and the merge of lists promise *)

From Stdlib Require Import Ascii.
From S2P Require Import Prelude GoErrors GoStrings ConfMap ConfResolver ConfExpandProofs ConfResolverProofs.

(** ** An instance of the koanf interface

    A configuration is the tree of its maps; a key joins the keys on the way to a leaf with
    the delimiter. *)

(** The parts of a key. *)
Fixpoint split_key (fuel : nat) (key : string) : list string :=
  match fuel with
  | O => [key]
  | S fuel =>
      let '(a, rest, found) := CutString key KeyDelimiter in
      if (found : bool) then a :: split_key fuel rest else [key]
  end.

Definition path (key : string) : list string := split_key (String.length key) key.

Fixpoint setEntry (k : string) (v : value) (m : go_map) : go_map :=
  match m with
  | [] => [(k, v)]
  | (k', x) :: m => if decide (k' = k) then (k, v) :: m else (k', x) :: setEntry k v m
  end.

Fixpoint set_path (p : list string) (v : value) (m : go_map) : go_map :=
  match p with
  | [] => m
  | [k] => setEntry k v m
  | k :: p =>
      let sub := match lookupEntry k m with Some (VMap n) => n | _ => [] end in
      setEntry k (VMap (set_path p v sub)) m
  end.

Definition unflatten (m : go_map) : go_map := foldl (fun acc x => set_path (path x.1) x.2 acc) [] m.

(** The leaves of a value; a map without entries is a leaf. *)
Fixpoint leaves (key : string) (v : value) : go_map :=
  match v with
  | VMap [] => [(key, v)]
  | VMap m => concat (map (fun x => leaves (key +:+ KeyDelimiter +:+ x.1) x.2) m)
  | _ => [(key, v)]
  end.

Definition flatten (m : go_map) : go_map := concat (map (fun x => leaves x.1 x.2) m).

Fixpoint get_path (p : list string) (v : value) : option value :=
  match p, v with
  | [], _ => Some v
  | k :: p, VMap m => match lookupEntry k m with Some x => get_path p x | None => None end
  | _, _ => None
  end.

(** [a] over [b]. *)
Fixpoint merge_value (a b : value) : value :=
  match a, b with
  | VMap m, VMap n =>
      VMap (foldl (fun acc x => setEntry x.1 x.2 acc) n
        (map (fun x => (x.1, match lookupEntry x.1 n with Some y => merge_value x.2 y | None => x.2 end)) m))
  | _, _ => a
  end.

Definition merge_maps (a b : go_map) : go_map :=
  match merge_value (VMap a) (VMap b) with VMap m => m | _ => b end.

Fixpoint remove_path (p : list string) (m : go_map) : go_map :=
  match p with
  | [] => m
  | [k] => List.filter (fun x => negb (bool_decide (x.1 = k))) m
  | k :: p => match lookupEntry k m with Some (VMap n) => setEntry k (VMap (remove_path p n)) m | _ => m end
  end.

(** A glob with at most one "**". *)
Definition simple_glob (pattern : string) : option (string -> bool) :=
  let '(before, after, found) := CutString pattern "**" in
  Some (fun key =>
    if (found : bool) then
      HasPrefix key before && bool_decide (String.length before + String.length after <= String.length key)%nat &&
      bool_decide (from (Z.of_nat (String.length key) - Z.of_nat (String.length after)) key = after)
    else bool_decide (key = pattern)).

#[export] Instance tree_maps : KoanfMaps := {|
  maps_Flatten := flatten;
  maps_Unflatten := unflatten;
  maps_Merge := merge_maps;
  glob_Compile := simple_glob;
|}.

#[export] Instance tree : Koanf := {|
  koanf := go_map;
  koanf_New := [];
  koanf_Load k data := merge_maps (unflatten data) k;
  koanf_LoadMerge f k data := f data k;
  koanf_Keys k := map fst (flatten k);
  koanf_Get k key := default VNil (get_path (path key) (VMap k));
  koanf_Exists k key := bool_decide (is_Some (get_path (path key) (VMap k)));
  koanf_Merge k k' := inr (merge_maps k' k);
  koanf_Delete k key := remove_path (path key) k;
  koanf_All k := flatten k;
|}.

Example tree_test :
  let m := [("service", VMap [("extensions", VList [VString "a"]); ("x", VInt int 1)])] in
  unflatten (flatten m) = m /\
  map fst (flatten m) = ["service::extensions"; "service::x"] /\
  mergeAppend [("service", VMap [("extensions", VList [VString "b"; VString "a"])])] m =
    Some [("service", VMap [("extensions", VList [VString "a"; VString "b"]); ("x", VInt int 1)])].
Proof. vm_compute. auto. Qed.

(** ** A provider for the witnesses *)

(** Environment variables: [B] refers to [A], and [L] to itself. *)
Definition test_env : Provider := {|
  Scheme := "env";
  Retrieve n uri :=
    if decide (uri = "env:A") then NewRetrieved (VInt int 5) [withStringRepresentation "5"]
    else if decide (uri = "env:B") then NewRetrieved (VString "b${env:A}") []
    else if decide (uri = "env:L") then NewRetrieved (VString "${env:L}") []
    else inl (ErrNew "no variable");
  Shutdown_result := None;
|}.

(** A file, whose closing fails. *)
Definition test_file (m : go_map) : Provider := {|
  Scheme := "file";
  Retrieve n uri := NewRetrieved (VMap m) [WithRetrievedClose (Some (ErrNew "close"))];
  Shutdown_result := None;
|}.

Definition test_settings (m : go_map) : ResolverSettings := {|
  URIs := ["file:config.yaml"];
  ProviderFactories := [test_env; test_file m];
  DefaultScheme := "env";
  ConverterFactories := [];
|}.

Definition test_resolver (m : go_map) : Resolver :=
  match NewResolver (test_settings m) with
  | inr mr => mr
  | inl _ => @Build_Resolver tree_maps tree [] [] "" [] start None false
  end.

(** ** Expansion *)

Section expansion.
Context (providers : list (string * Provider)) (ds : string).


(** What a string becomes: itself if its first reference is escaped or there is none;
    otherwise the value of that reference, with its text, if the string is nothing else,
    and else the string with the text in place of the reference wherever it occurs. *)
Theorem text_expansion s st :
  (expandString providers ds s st = (inr (VString s, false), st) /\
   forall pre body post, reference ds s pre body post ->
     exists pre' body' post', reference ds s pre' body' post' /\
       (String.length pre' <= String.length pre)%nat /\ Nat.odd (trailing pre') = true) \/
  (exists pre body post, reference ds s pre body post /\
     (forall pre' body' post', reference ds s pre' body' post' -> (String.length pre <= String.length pre')%nat) /\
     Nat.even (trailing pre) = true /\
     let uri := "${" +:+ body +:+ "}" in
     expandString providers ds s st =
     match expandURI providers ds uri st with
     | (inl err, st') => (inl err, st')
     | (inr r, st') =>
         (match AsString r with
          | inr text => inr (if decide (uri = s) then ExpandedValue (rawConf r) text
                             else VString (ReplaceAll s uri text), true)
          | inl err => if decide (uri = s) then inr (rawConf r, true) else inl (ErrWrap "expanding" err)
          end, st')
     end).
Proof.
  assert (forall pre body post, reference ds s pre body post -> Contains s "${" = true /\ Contains s "}" = true) as Hb.
  { intros pre body post [-> _ _ _]. rewrite !Contains_spec. split; [by exists pre, (body +:+ "}" +:+ post)|].
    exists (pre +:+ "${" +:+ body), post. by rewrite !app_String_assoc. }
  destruct (findURI_first ds s) as [[E Hn]|(pre & body & post & Hr & Hf & E)].
  - left. split; [|by intros ? ? ? ?%Hn]. apply expandString_settled. unfold noURI.
    by rewrite E, bool_decide_eq_true_2, orb_true_r.
  - rewrite <- Nat.negb_even in E. destruct (Nat.even (trailing pre)) eqn:Ho; cbn [negb] in E.
    + right. exists pre, body, post. split_and!; [done..|]. cbn zeta.
      destruct (Hb _ _ _ Hr) as [H1 H2]. unfold expandString, findAndExpandURI. rewrite H1, H2, E. cbn [negb orb].
      rewrite decide_False by done. unfold mbind, M_bind, lift, AsRaw, throw.
      destruct (decide (_ = s)) as [->|]; (destruct (expandURI providers ds _ st) as [[err|r] st']; [done|]);
        by destruct (AsString r).
    + left. split; [|intros pre' body' post' Hr'; exists pre, body, post; split_and!; [done|by eapply Hf|by rewrite <- Nat.negb_even, Ho]].
      apply expandString_settled. unfold noURI. by rewrite E, bool_decide_eq_true_2, orb_true_r.
Qed.
End expansion.

(** C21: text is kept as it is by doubling its dollars: if every value of the merged configuration
    is the escaped form of another, Resolve returns the configuration of the others and asks
    no provider for a reference. *)
Theorem escaped_configuration_is_literal `{Koanf, MultiErr} gate mr retMap s lit :
  (closeIfNeeded (state mr)).1 = None ->
  mergeURIs gate (providers mr) New (uris mr) (closeIfNeeded (state mr)).2 = Some (inr retMap, s) ->
  (forall k, k ∈ AllKeys retMap -> plain (lit k) = true /\ unsanitizedGet retMap k = escape (lit k)) ->
  Resolve gate mr =
  Some (convert (converters mr) (NewFromStringMap (Some (map (fun k => (k, lit k)) (AllKeys retMap)))),
        set_state s (set_unexpanded (ToStringMap retMap) mr)).
Proof.
  intros Hc Hm Hl. unfold Resolve. destruct (closeIfNeeded (state mr)) as [err s0]. cbn [fst snd] in *. subst err.
  cbn [set_state providers uris set_unexpanded defaultScheme converters]. rewrite Hm.
  assert (forall keys, keys ⊆ AllKeys retMap ->
    expandKeys (providers mr) (defaultScheme mr) retMap keys s = (inr (map (fun k => (k, lit k)) keys), s)) as ->; [|done|done].
  induction keys as [|k keys IH]; intros Hk; cbn [expandKeys map]; [done|].
  destruct (Hl k) as [Hp Eg]; [set_solver|]. rewrite Eg. unfold mbind, M_bind.
  rewrite expandValueRecursively_settled by by apply settled_escape.
  rewrite IH by set_solver. by rewrite escapeDollarSigns_escape.
Qed.

(** ** The life of a resolver *)

Section life.
Context `{Koanf, MultiErr, !MultiErrLaws}.

(** C13: whatever fails in between, after any number of calls of Resolve the first Shutdown closes
    the watcher once and shuts down every provider once, after every value that was ever
    retrieved has been closed exactly once, each by the first Resolve after the one that
    retrieved it or by Shutdown; it reports an error exactly when a close or a shutdown
    failed. *)
Theorem retrieved_values_are_closed_once gate set mr n mr1 visited :
  NewResolver set = inr mr ->
  resolveTimes n gate mr = Some mr1 ->
  visited ≡ₚ providers mr ->
  exists err mr2 gens,
    Shutdown visited mr1 = Some (err, mr2) /\
    length gens = S n /\ NoDup (concat gens) /\
    log (state mr2) =
      concat (map (fun g => map Retrieved_ g ++ map Closed g) gens) ++
      map (fun p => ProviderShutdown p.1) visited ++ [WatcherClosed] /\
    (err = None <->
     Forall (fun c => Retrieved_Close c.2 = None) (closers (state mr1)) /\
     Forall (fun p => Shutdown_result p.2 = None) (providers mr)).
Proof.
  intros Hnew Hn Hv. apply NewResolver_start in Hnew as [Hs Hw].
  destruct (resolveTimes_retrieved _ _ _ _ [] Hn) as (gens & Hl & Hg & Hsame).
  { rewrite Hs. apply start_retrieved. }
  apply closeIfNeeded_retrieved in Hg as [Hlog Honce _].
  destruct Hsame as (_ & _ & _ & _ & Hw'). unfold Shutdown. rewrite Hw', Hw.
  cbn [closeIfNeeded fst snd log closers calls] in *. rewrite fmap_nil, app_nil_r in *.
  eexists _, _, (gens ++ [(closers (state mr1)).*1]). split_and!; [done| |done| |].
  - rewrite length_app, Hl. simpl. lia.
  - cbn [state log]. by rewrite Hlog, <- app_assoc.
  - rewrite collected_None, multierr_some, collected_None, Hv. tauto.
Qed.

(** What NewResolver asks of its settings. *)
Definition settings_ok (set : ResolverSettings) : Prop :=
  URIs set <> [] /\ ProviderFactories set <> [] /\
  Forall (fun p => schemePattern_MatchString (Scheme p) = true) (ProviderFactories set) /\
  NoDup (map Scheme (ProviderFactories set)) /\
  (DefaultScheme set = "" \/ DefaultScheme set ∈ map Scheme (ProviderFactories set)) /\
  exists us, Forall2 (located (map Scheme (ProviderFactories set))) (URIs set) us.

(** NewResolver accepts exactly the settings with URIs and providers whose schemes are
    distinct and match the pattern somewhere, with a known default scheme, each URI of which
    is a file path or names a provider; every location is then the URI or its file path. *)
Theorem resolver_settings_are_checked set :
  match NewResolver set with
  | inr mr =>
      settings_ok set /\ Forall2 (located (map Scheme (ProviderFactories set))) (URIs set) (uris mr) /\
      providers mr = map (fun p => (Scheme p, p)) (ProviderFactories set) /\
      defaultScheme mr = DefaultScheme set /\ state mr = start
  | inl _ => ~ settings_ok set
  end.
Proof.
  unfold NewResolver, settings_ok.
  destruct (URIs set) as [|u us] eqn:Eu; [by intros [? _]|].
  destruct (ProviderFactories set) as [|p ps] eqn:Ep; [by intros (_ & ? & _)|].
  pose proof (collectProviders_spec [] (p :: ps) (NoDup_nil_2)) as Hc. unfold providers_ok in Hc. cbn [fmap list_fmap app] in Hc.
  destruct (collectProviders [] (p :: ps)) as [err|acc]; [intros (_ & _ & ? & ? & _); tauto|].
  destruct Hc as [-> [Hm Hd]].
  assert ((map (fun p => (Scheme p, p)) (p :: ps)).*1 = map Scheme (p :: ps)) as Ekeys.
  { clear. generalize (p :: ps). intros l. induction l; simpl; [done|]. by f_equal. }
  pose proof (newURIs_spec (map (fun p => (Scheme p, p)) (p :: ps)) (u :: us)) as Hu. rewrite Ekeys in Hu.
  assert (forall k, match lookupEntry k (map (fun p => (Scheme p, p)) (p :: ps)) with None => true | Some _ => false end = true <->
    k ∉ map Scheme (p :: ps)) as Hk.
  { intros k. rewrite <- Ekeys, <- lookupEntry_None. by destruct (lookupEntry k _). }
  destruct (negb _ && _) eqn:Ed.
  { apply andb_prop in Ed as [Hne%negb_true_iff%bool_decide_eq_false Hk'%Hk]. by intros (_ & _ & _ & _ & [?|?] & _). }
  destruct (newURIs _ _) as [err|ls]; [by intros (_ & _ & _ & _ & _ & ?)|].
  split_and!; [done|done|done|done| |by exists ls|done|done|done|done].
  apply andb_false_iff in Ed as [Hd'%negb_false_iff%bool_decide_eq_true|Hk']; [by left|]. right.
  apply dec_stable. intros Hn%Hk. congruence.
Qed.
End life.

(** ** Merging lists *)

(** [added] is what the list [src] adds to [dest]: in order, each once, nothing that is there. *)
Definition adds (dest added src : list value) : Prop :=
  sublist added src /\
  (forall pre x post, added = pre ++ x :: post -> isPresent (dest ++ pre) x = false) /\
  Forall (fun x => x ∈ added \/ isPresent (dest ++ added) x = true) src.

Lemma isPresent_app l k x : isPresent (l ++ k) x = isPresent l x || isPresent k x.
Proof. apply existsb_app. Qed.

Lemma mergeSlice_adds src dest : exists added, mergeSlice src (VList dest) = Some (dest ++ added) /\ adds dest added src.
Proof.
  unfold mergeSlice. revert dest. induction src as [|x src IH]; intros dest; cbn [foldl].
  { exists []. rewrite app_nil_r. split; [done|]. split_and!; [done|by intros [|]|done]. }
  destruct (isPresent dest x) eqn:Ex.
  - destruct (IH dest) as (added & E & Hs & Hf & Ha). exists added. split; [done|]. split_and!; [by constructor|done|].
    constructor; [|done]. right. by rewrite isPresent_app, Ex.
  - destruct (IH (dest ++ [x])) as (added & E & Hs & Hf & Ha). exists (x :: added). rewrite <- app_assoc in E.
    split; [done|]. split_and!.
    + by constructor.
    + intros [|y pre] z post; simpl; intros [= -> Ez]; [by rewrite app_nil_r|].
      specialize (Hf pre z post Ez). by rewrite <- app_assoc in Hf.
    + constructor; [left; set_solver|]. eapply Forall_impl; [done|]. cbn beta. rewrite <- app_assoc.
      intros y [?|?]; [left; set_solver|by right].
Qed.

Section merge.
Context `{KoanfMaps}.

(** An entry that is a list under one of the patterns, with a value of the old map. *)
Definition both_set (dest : go_map) (e : string * value) (l : list value) (d : value) : Prop :=
  e.2 = VList l /\ isMatch e.1 globs = true /\ lookupEntry e.1 (maps_Flatten dest) = Some d.

(** What becomes of an entry of the new map. *)
Inductive merged_entry (dest : go_map) (e : string * value) : string * value -> Prop :=
| merged_lists l d added : both_set dest e l (VList d) -> adds d added l -> merged_entry dest e (e.1, VList (d ++ added))
| merged_other : (forall l d, ~ both_set dest e l d) -> merged_entry dest e e.

Lemma mergeEntry_spec dest e :
  match mergeEntry (maps_Flatten dest) e with
  | Some e' => merged_entry dest e e'
  | None => exists l d, both_set dest e l d /\ forall dl, d <> VList dl
  end.
Proof.
  destruct e as [key v]. unfold mergeEntry, both_set.
  destruct (isMatch key globs) eqn:Em; cbn [negb]; [|by apply merged_other; intros l d (_ & ? & _); simpl in *; congruence].
  destruct (lookupEntry key (maps_Flatten dest)) as [d|] eqn:Ed;
    [|by apply merged_other; intros l d (_ & _ & ?); simpl in *; congruence].
  destruct v; try (by apply merged_other; intros ? ? (? & _ & _)).
  destruct d as [| | | | | | | |dl| |]; try by (eexists _, _; split; [split_and!; done|]; done).
  destruct (mergeSlice_adds l dl) as (added & -> & Ha). by apply (merged_lists dest (key, VList l) l dl).
Qed.

(** Merging with appended lists panics when a list of the new configuration meets a value
    that is not a list, and only then; otherwise every list of extensions, receivers or
    exporters that both have becomes the old list followed by the elements that are new, in
    order and each once, and everything else is left to maps.Merge. *)
Theorem lists_are_appended src dest :
  match mergeAppend src dest with
  | Some m =>
      exists flat, m = maps_Merge (maps_Unflatten flat) dest /\ Forall2 (merged_entry dest) (maps_Flatten src) flat
  | None => exists e l d, e ∈ maps_Flatten src /\ both_set dest e l d /\ forall dl, d <> VList dl
  end.
Proof.
  unfold mergeAppend. destruct (mapM _ _) as [flat|] eqn:E.
  - exists flat. split; [done|]. apply mapM_Some in E. eapply Forall2_impl; [done|]. cbn beta. intros e e' Ee.
    pose proof (mergeEntry_spec dest e) as Hs. by rewrite Ee in Hs.
  - apply mapM_None, Exists_exists in E as (e & He & En). pose proof (mergeEntry_spec dest e) as Hs.
    rewrite En in Hs. destruct Hs as (l & d & ? & ?). by exists e, l, d.
Qed.
End merge.

(** ** Sanitizing *)

(** The expanded values of [v] hold no expanded values. *)
Fixpoint not_nested (v : value) : bool :=
  match v with
  | VList l => forallb not_nested l
  | VMap m => forallb (fun x => not_nested x.2) m
  | ExpandedValue v _ => plain v
  | _ => true
  end.

Lemma sanitize_plain v : plain (sanitize v) = not_nested v.
Proof.
  unfold sanitize. induction v as [| | | | | | |s|l IH|m IH|] using value_induction;
    cbn [sanitizeExpanded plain not_nested]; try done.
  - induction IH as [|x l Hx _ IHl]; simpl; [done|]. by rewrite Hx, IHl.
  - induction IH as [|[k x] m Hx _ IHm]; simpl in *; [done|]. by rewrite Hx, IHm.
Qed.

(** ** Witnesses *)

#[local] Existing Instance multierr_first.

Definition test_literal (k : string) : value :=
  if decide (k = "a") then VString "cost: $5 ${env:A}" else VList [VString "$$"; VBool true].

Definition test_escaped : go_map := map (fun k => (k, escape (test_literal k))) ["a"; "b"].

Definition test_merged : Conf := {| k := test_escaped; isNil := false |}.

(** The state after the file was retrieved. *)
Definition test_retrieved : rstate :=
  match mergeURIs false (providers (test_resolver test_escaped)) New (uris (test_resolver test_escaped)) start with
  | Some (_, s) => s
  | None => start
  end.

Lemma test_keys k : k ∈ AllKeys test_merged -> plain (test_literal k) = true /\ unsanitizedGet test_merged k = escape (test_literal k).
Proof.
  assert (AllKeys test_merged = ["a"; "b"]) as -> by (vm_compute; reflexivity).
  intros [->|[->|[]%elem_of_nil]%elem_of_cons]%elem_of_cons; vm_compute; auto.
Qed.

Lemma escaped_configuration_is_literal_witness :
  Resolve false (test_resolver test_escaped) =
  Some (convert (converters (test_resolver test_escaped))
          (NewFromStringMap (Some (map (fun k => (k, test_literal k)) (AllKeys test_merged)))),
        set_state test_retrieved (set_unexpanded (ToStringMap test_merged) (test_resolver test_escaped))).
Proof.
  apply (escaped_configuration_is_literal false (test_resolver test_escaped) test_merged test_retrieved test_literal).
  - vm_compute. reflexivity.
  - vm_compute. reflexivity.
  - exact test_keys.
Defined.

Definition test_references : go_map := [("x", VString "${B}")].

(** The resolver after two calls of Resolve. *)
Definition test_resolved : Resolver := default (test_resolver []) (resolveTimes 2 false (test_resolver test_references)).

Lemma retrieved_values_are_closed_once_witness :
  exists err mr2 gens,
    Shutdown (providers (test_resolver test_references)) test_resolved = Some (err, mr2) /\ length gens = 3%nat /\
    NoDup (concat gens) /\
    log (state mr2) =
      concat (map (fun g => map Retrieved_ g ++ map Closed g) gens) ++
      map (fun p => ProviderShutdown p.1) (providers (test_resolver test_references)) ++ [WatcherClosed].
Proof.
  destruct (@retrieved_values_are_closed_once _ _ _ multierr_first_laws false (test_settings test_references)
    (test_resolver test_references) 2 test_resolved (providers (test_resolver test_references)))
    as (err & mr2 & gens & Hs & Hl & Hn & Hlog & _).
  - vm_compute. reflexivity.
  - vm_compute. reflexivity.
  - reflexivity.
  - exists err, mr2, gens. split; [exact Hs|]. split; [exact Hl|]. split; [exact Hn|exact Hlog].
Defined.

(** ** What modelling showed *)

(** An escaped reference is replaced together with the same reference that is not escaped. *)
Lemma escaped_reference_is_expanded :
  (expandString [("env", test_env)] "" "${env:A} $${env:A}" start).1 = inr (VString "5 $5", true).
Proof. vm_compute. reflexivity. Qed.

(** A reference after an escaped one is not expanded. *)
Lemma reference_after_escaped_one_stays :
  (expandValueRecursively [("env", test_env)] "" (VString "$${env:A} ${env:A}") start).1 =
  inr (VString "$${env:A} ${env:A}").
Proof. vm_compute. reflexivity. Qed.

(** ToStringMap keeps the expanded values inside an expanded map. *)
Lemma nested_expanded_value_stays :
  let f := {| Scheme := "file"; Shutdown_result := None;
              Retrieve n uri := NewRetrieved (VMap [("x", VString "${env:A}")]) [withStringRepresentation "x: ${env:A}"] |} in
  match (expandValueRecursively [("env", test_env); ("file", f)] "" (VString "${file:a.yaml}") start).1 with
  | inr v => ToStringMap (NewFromStringMap (Some [("foo", v)]))
  | inl _ => None
  end = Some [("foo", VMap [("x", ExpandedValue (VInt int 5) "5")])].
Proof. vm_compute. reflexivity. Qed.

(** The check of a provider's scheme accepts one that no URI can name. *)
Lemma scheme_check_accepts_no_scheme :
  let p := {| Scheme := "1:ab"; Retrieve n uri := inl (ErrNew ""); Shutdown_result := None |} in
  (exists mr, NewResolver {| URIs := ["file"]; ProviderFactories := [p]; DefaultScheme := ""; ConverterFactories := [] |} =
    inr mr) /\
  (forall uri l, newLocation uri = inr l -> scheme l <> Scheme p).
Proof.
  split; [by eexists|]. intros uri l E Hs. pose proof (newLocation_spec uri) as Hl. rewrite E in Hl.
  destruct Hl as [_ Hl]. by rewrite Hs in Hl.
Qed.

(** A null value under a listed key of the first file makes the merge panic. *)
Lemma merge_with_null_panics :
  mergeAppend [("service", VMap [("extensions", VList [VString "a"])])] [("service", VMap [("extensions", VNil)])] = None.
Proof. vm_compute. reflexivity. Qed.
