(* ===== verification/ConfProviders.v ===== *)
(** * ConfProviders: the providers of environment variables, files and text

    Models confmap/provider/{envprovider,fileprovider,yamlprovider}/provider.go and the
    checks of provider/internal/configurablehttpprovider.  The environment, the file system
    and the server are parameters.  The second part is the watcher channel of the resolver:
    changes that are reported while a configuration is closed. *)

From Stdlib Require Import Ascii.
From S2P Require Import Prelude GoErrors GoStrings ConfMap ConfResolver ConfExpandProofs.
From stdpp Require Import relations.
From S2P Require Import Prelude GoErrors.

Section providers.
Context `{YAML}.

(** ** envprovider *)

(** ValidationRegexp: ^[a-zA-Z_][a-zA-Z0-9_]*$ *)
Definition word_start (c : ascii) : bool := is_letter c || bool_decide (c = "_"%char).
Definition word_char (c : ascii) : bool :=
  word_start c || let b := Z.of_N (N_of_ascii c) in (48 <=? b) && (b <=? 57).

Definition ValidationRegexp_MatchString (s : string) : bool :=
  match s with EmptyString => false | String c s => word_start c && all_chars word_char s end.

Definition parseEnvVarURI (uri : string) : string * option string :=
  let '(name, defaultValue, hasDefault) := CutString uri ":-" in
  if (hasDefault : bool) then (name, Some defaultValue) else (uri, None).

Definition env_Retrieve (LookupEnv : string -> option string) (uri : string) : error + Retrieved :=
  if negb (HasPrefix uri "env:") then inl (ErrNew "uri is not supported by provider")
  else
    let '(envVarName, defaultValuePtr) := parseEnvVarURI (from 4 uri) in
    if negb (ValidationRegexp_MatchString envVarName) then inl (ErrNew "environment variable has invalid name")
    else
      let val :=
        match LookupEnv envVarName with
        | Some val => val
        | None => match defaultValuePtr with Some val => val | None => "" end
        end in
      NewRetrievedFromYAML val [].

(** ** fileprovider: os.ReadFile(filepath.Clean(path)) *)

Definition file_Retrieve (ReadFile : string -> error + string) (uri : string) : error + Retrieved :=
  if negb (HasPrefix uri "file:") then inl (ErrNew "uri is not supported by provider")
  else
    match ReadFile (from 5 uri) with
    | inl err => inl (ErrWrap "unable to read the file" err)
    | inr content => NewRetrievedFromYAML content []
    end.

(** ** yamlprovider *)

Definition yaml_Retrieve (uri : string) : error + Retrieved :=
  if negb (HasPrefix uri "yaml:") then inl (ErrNew "uri is not supported by provider")
  else NewRetrievedFromYAML (from 5 uri) [].

(** ** configurablehttpprovider: a GET request gives the status and the body *)

Definition http_Retrieve (scheme : string) (ParseRequestURI : string -> option error)
    (createClient : option error) (Get : string -> error + Z * (error + string)) (uri : string) : error + Retrieved :=
  if negb (HasPrefix uri (scheme +:+ ":")) then inl (ErrNew "uri is not supported by provider")
  else
    match ParseRequestURI uri with
    | Some err => inl (ErrWrap "invalid uri" err)
    | None =>
        match createClient with
        | Some err => inl (ErrWrap "unable to configure http transport layer" err)
        | None =>
            match Get uri with
            | inl err => inl (ErrWrap "unable to download the file via HTTP GET" err)
            | inr (status, body) =>
                if decide (status <> 200) then inl (ErrNew "failed to load resource")
                else
                  match body with
                  | inl err => inl (ErrWrap "fail to read the response body" err)
                  | inr body => NewRetrievedFromYAML body []
                  end
            end
        end
    end.

(** ** What text becomes of what was read *)

(** The text that stands for a retrieved value in the middle of a string is the text that was
    read, whatever YAML makes of it. *)
Lemma yaml_text text r : NewRetrievedFromYAML text [] = inr r -> AsString r = inr text.
Proof.
  unfold NewRetrievedFromYAML. destruct (yaml_Unmarshal text) as [e|[]]; cbn; try by intros [= <-].
  all: done.
Qed.

(** A name without the mark of a default. *)
Lemma parseEnvVarURI_name name : ~ occurs name ":-" -> parseEnvVarURI name = (name, None).
Proof.
  intros Hn. unfold parseEnvVarURI, CutString, Index. rewrite (proj2 (index_from_None _ _)) by done. done.
Qed.

Lemma word_colonless s : all_chars word_char s = true -> ~ occurs s ":".
Proof.
  intros Hs (a & b & ->). induction a as [|c a IH]; simpl in Hs; [done|].
  apply andb_prop in Hs as [_ Hs]. by apply IH.
Qed.

Lemma parseEnvVarURI_default name value :
  ~ occurs name ":" -> parseEnvVarURI (name +:+ ":-" +:+ value) = (name, Some value).
Proof.
  intros Hn. unfold parseEnvVarURI, CutString, Index.
  destruct (index_from (name +:+ ":-" +:+ value) ":-") as [n|] eqn:E.
  2: { apply index_from_None in E. destruct E. apply occurs_here. }
  destruct (index_from_Some _ _ _ E) as (a & b & Es & <-). cbn [toIndex].
  pose proof (index_from_least _ _ _ name value E eq_refl) as Hl.
  assert (a = name) as ->.
  { apply app_String_eq in Es as [(z & -> & Es)|(z & -> & Es)].
    - rewrite length_app_String in Hl. destruct z; [by rewrite app_String_nil|simpl in Hl; lia].
    - destruct z as [|c z]; [by rewrite app_String_nil|]. injection Es as <- _. destruct Hn. by exists a, z. }
  rewrite (proj2 (Z.leb_le _ _)) by lia. rewrite Es, upto_app by done.
  rewrite <- (app_String_assoc name), from_app by (rewrite length_app_String; simpl; lia).
  apply app_String_inj in Es. by simplify_eq/=.
Qed.

(** An environment variable is used as it is; one that is not set is its default, or empty;
    any other name is refused. *)
Theorem env_provider_reads LookupEnv name :
  (ValidationRegexp_MatchString name = true ->
   env_Retrieve LookupEnv ("env:" +:+ name) = NewRetrievedFromYAML (default "" (LookupEnv name)) [] /\
   forall value, env_Retrieve LookupEnv ("env:" +:+ name +:+ ":-" +:+ value) =
     NewRetrievedFromYAML (default value (LookupEnv name)) []) /\
  (ValidationRegexp_MatchString name = false -> ~ occurs name ":-" ->
   exists err, env_Retrieve LookupEnv ("env:" +:+ name) = inl err).
Proof.
  unfold env_Retrieve. split.
  - intros Hv. assert (~ occurs name ":") as Hc.
    { destruct name as [|c s]; [done|]. simpl in Hv. apply andb_prop in Hv as [Hw Hs].
      apply word_colonless. simpl. unfold word_char. by rewrite Hw. }
    split; [|intros value]; rewrite HasPrefix_app, from_app by done; cbn [negb].
    + rewrite parseEnvVarURI_name; [|intros (a & b & ->); apply Hc; by exists a, ("-" +:+ b)].
      rewrite Hv. by destruct (LookupEnv name).
    + rewrite parseEnvVarURI_default by done. rewrite Hv. by destruct (LookupEnv name).
  - intros Hv Hn. rewrite HasPrefix_app, from_app by done. cbn [negb].
    rewrite parseEnvVarURI_name, Hv by done. by eexists.
Qed.
End providers.

(** * Changes reported while a configuration is closed *)

(** The goroutine that watches one retrieved value. *)
Inductive goroutine :=
| Idle
| Sending (event : option error)
| Finished.

(** The loop: waiting for an event, about to close, in the closer of a value. *)
Inductive loop_pc :=
| Waiting
| Received
| Closing (value : nat).

Record watch := {
  watcher : list (option error);
  goroutines : list goroutine;
  loop : loop_pc;
}.

(** A change of value [i]: its provider calls onChange. *)
Inductive step : watch -> watch -> Prop :=
| onChange w gs pc i e :
    gs !! i = Some Idle ->
    step (Build_watch w gs pc) (Build_watch w (<[i := Sending e]> gs) pc)
| send w gs pc i e :
    gs !! i = Some (Sending e) -> (length w < 1)%nat ->
    step (Build_watch w gs pc) (Build_watch (w ++ [e]) (<[i := Idle]> gs) pc)
| receive e w gs : step (Build_watch (e :: w) gs Waiting) (Build_watch w gs Received)
(** a signal to reload or to stop *)
| signal w gs : step (Build_watch w gs Waiting) (Build_watch w gs Received)
| closeIfNeeded w gs : step (Build_watch w gs Received) (Build_watch w gs (Closing 0))
| closer w gs i :
    gs !! i = Some Idle ->
    step (Build_watch w gs (Closing i)) (Build_watch w (<[i := Finished]> gs) (Closing (S i)))
(** all closers have returned, and [n] values are retrieved *)
| resolved w gs n :
    step (Build_watch w gs (Closing (length gs))) (Build_watch w (replicate n Idle) Waiting).

Definition watching (n : nat) : watch := {| watcher := []; goroutines := replicate n Idle; loop := Waiting |}.

Definition sending (g : goroutine) : bool := match g with Sending _ => true | _ => false end.

(** The changes that were reported and not received. *)
Definition pending (s : watch) : nat := (length (watcher s) + length (List.filter sending (goroutines s)))%nat.

(** ** Invariant *)

Definition closed_below (s : watch) : nat := match loop s with Closing i => i | _ => 0%nat end.

Record watch_ok (s : watch) : Prop := {
  ok_room : (length (watcher s) <= 1)%nat;
  ok_finished : forall k g, goroutines s !! k = Some g -> g = Finished <-> (k < closed_below s)%nat;
  ok_bound : (closed_below s <= length (goroutines s))%nat;
}.

Lemma step_ok s s' : step s s' -> watch_ok s -> watch_ok s'.
Proof.
  intros Hs [H1 H2 H3]. destruct Hs; unfold closed_below in *; cbn [watcher goroutines loop] in *.
  - split; cbn; [done| |by rewrite length_insert].
    intros k g. rewrite list_lookup_insert_Some. intros [(<- & <- & _)|[_ Hk]]; [|by apply H2].
    rewrite <- (H2 _ _ H). done.
  - split; cbn; [rewrite length_app; simpl; lia| |by rewrite length_insert].
    intros k g. rewrite list_lookup_insert_Some. intros [(<- & <- & _)|[_ Hk]]; [|by apply H2].
    rewrite <- (H2 _ _ H). done.
  - split; cbn; [simpl in *; lia|done|lia].
  - by split.
  - by split.
  - pose proof (lookup_lt_Some _ _ _ H) as Hlt. split; cbn; [done| |rewrite length_insert; lia].
    intros k g. rewrite list_lookup_insert_Some. intros [(<- & <- & _)|[Hi Hk]]; [split; [lia|done]|].
    rewrite (H2 _ _ Hk). lia.
  - split; cbn; [done| |lia]. intros k g [-> _]%lookup_replicate. split; [done|lia].
Qed.

Lemma watching_ok n : watch_ok (watching n).
Proof. split; cbn; [lia| |lia]. intros k g [-> _]%lookup_replicate. split; [done|lia]. Qed.

Lemma reachable_ok s s' : rtc step s s' -> watch_ok s -> watch_ok s'.
Proof. induction 1; eauto using step_ok. Qed.

Lemma sending_insert i g g' gs :
  gs !! i = Some g ->
  (length (List.filter sending (<[i := g']> gs)) + Nat.b2n (sending g) =
   length (List.filter sending gs) + Nat.b2n (sending g'))%nat.
Proof.
  revert i. induction gs as [|x gs IH]; intros [|i]; simpl; try done.
  - intros [= ->]. destruct (sending g), (sending g'); simpl; lia.
  - intros Hi. specialize (IH i Hi). destruct (sending x); simpl; lia.
Qed.

(** With two changes pending the loop stays where it is closing. *)
Lemma stuck_step s s' :
  step s s' -> watch_ok s -> (exists i, loop s = Closing i) -> (2 <= pending s)%nat ->
  (exists i, loop s' = Closing i) /\ (2 <= pending s')%nat.
Proof.
  intros Hs Hok [j Hj] Hp. unfold pending in *. destruct Hs; cbn [watcher goroutines loop] in *; try done.
  - split; [by eexists|]. pose proof (sending_insert _ _ (Sending e) _ H) as Hl. simpl in Hl. lia.
  - split; [by eexists|]. pose proof (sending_insert _ _ Idle _ H) as Hl. simpl in Hl. rewrite length_app. simpl. lia.
  - split; [by eexists|]. pose proof (sending_insert _ _ Finished _ H) as Hl. simpl in Hl. lia.
  - exfalso. destruct Hok as [H1 H2 _]. cbn in *.
    assert (List.filter sending gs = []) as E; [|rewrite E in Hp; simpl in Hp; lia].
    assert (forall g, g ∈ gs -> g = Finished) as Hf.
    { intros g [k Hk]%list_elem_of_lookup. apply (H2 k g Hk). by eapply lookup_lt_Some. }
    clear -Hf. induction gs as [|g gs IH]; [done|]. simpl. rewrite (Hf g) by left. apply IH. intros x Hx. apply Hf. by right.
Qed.

(** With at most one the closers return one after the other. *)
Lemma closers_return w gs i :
  watch_ok (Build_watch w gs (Closing i)) -> List.filter sending gs = [] ->
  exists n, rtc step (Build_watch w gs (Closing i)) (Build_watch w (replicate n Idle) Waiting).
Proof.
  intros Hok Hq. remember (length gs - i)%nat as d eqn:Ed. revert gs i Hok Hq Ed.
  induction d as [|d IH]; intros gs i Hok Hq Ed; pose proof (ok_bound _ Hok) as Hb; cbn in Hb.
  - assert (i = length gs) as -> by lia. exists 0%nat. apply rtc_once. constructor.
  - destruct (lookup_lt_is_Some_2 gs i) as [g Hg]; [lia|].
    assert (g = Idle) as ->.
    { destruct g as [|e|]; [done| |].
      - assert (Sending e ∈ List.filter sending gs) as Hin; [|rewrite Hq in Hin; by apply not_elem_of_nil in Hin].
        apply list_elem_of_In, filter_In. split; [|done]. apply list_elem_of_In. by eapply list_elem_of_lookup_2.
      - apply (ok_finished _ Hok i) in Hg. cbn in Hg. destruct Hg as [Hg _]. specialize (Hg eq_refl). lia. }
    pose proof (closer w gs i Hg) as Hs. pose proof (step_ok _ _ Hs Hok) as Hok'.
    destruct (IH _ _ Hok') as [n Hn].
    + pose proof (sending_insert _ _ Finished _ Hg) as Hl. rewrite Hq in Hl. simpl in Hl.
      apply length_zero_iff_nil. lia.
    + rewrite length_insert. lia.
    + exists n. by eapply rtc_l.
Qed.

(** ** The property *)

(** While the configuration is being closed, the loop can finish when at most one change is
    pending, and never finishes, whatever happens, when two are. *)
Theorem two_changes_block_the_close n s i :
  rtc step (watching n) s -> loop s = Closing i ->
  ((pending s <= 1)%nat -> exists s', rtc step s s' /\ loop s' = Waiting) /\
  ((2 <= pending s)%nat -> forall s', rtc step s s' -> exists j, loop s' = Closing j).
Proof.
  intros Hr Hi. pose proof (reachable_ok _ _ Hr (watching_ok n)) as Hok. split.
  - destruct s as [w gs pc]. cbn in Hi. subst pc. unfold pending. cbn [watcher goroutines].
    destruct (List.filter sending gs) as [|g l] eqn:E; intros Hp.
    + destruct (closers_return _ _ _ Hok E) as [m Hm]. by eexists.
    + assert (In g (List.filter sending gs)) as [Hin Hg]%filter_In by (rewrite E; by left).
      apply list_elem_of_In, list_elem_of_lookup in Hin as [k Hk]. destruct g as [|e|]; [done| |done].
      simpl in Hp. assert (w = []) as -> by (apply length_zero_iff_nil; lia).
      pose proof (send [] gs (Closing i) k e Hk ltac:(simpl; lia)) as Hs.
      pose proof (sending_insert _ _ Idle _ Hk) as Hl. rewrite E in Hl. simpl in Hl.
      destruct (closers_return _ _ _ (step_ok _ _ Hs Hok)) as [m Hm]; [apply length_zero_iff_nil; lia|].
      eexists. split; [by eapply rtc_l|done].
  - intros Hp s' Hs'. clear Hr. revert i Hi Hp. induction Hs' as [|s s1 s' Hs _ IH]; intros i Hi Hp; [by exists i|].
    destruct (stuck_step _ _ Hs Hok) as [[j Hj] Hp']; [by exists i|done|].
    apply (IH (step_ok _ _ Hs Hok) j); done.
Qed.

(** Two changes during a reload: the loop is in the closer of the first value for ever. *)
Definition two_changes : watch :=
  {| watcher := [None]; goroutines := [Sending None; Idle]; loop := Closing 0 |}.

Lemma two_changes_reachable : rtc step (watching 2) two_changes.
Proof.
  eapply rtc_l; [apply (signal [] [Idle; Idle])|].
  eapply rtc_l; [apply (onChange [] [Idle; Idle] Received 1 None); done|].
  eapply rtc_l; [apply (send [] [Idle; Sending None] Received 1 None); [done|simpl; lia]|].
  eapply rtc_l; [apply (onChange [None] [Idle; Idle] Received 0 None); done|].
  apply rtc_once. constructor.
Qed.

Lemma two_changes_block_the_close_witness :
  rtc step (watching 2) two_changes /\ forall s', rtc step two_changes s' -> exists j, loop s' = Closing j.
Proof.
  split; [exact two_changes_reachable|].
  apply (proj2 (two_changes_block_the_close 2 two_changes 0 two_changes_reachable eq_refl)).
  vm_compute. lia.
Defined.
