(* ===== verification/ConfValidate.v ===== *)
(** * ConfValidate: validating a configuration

    Models confmap/internal/validation.go.  A configuration is seen through reflection, so
    a value is its kind, its parts, and what its Validate method, or that of a pointer to
    it, returns.  Names of fields are ASCII. *)

From Stdlib Require Import Ascii.
From S2P Require Import Prelude GoErrors GoStrings ConfMap.

(** [None] if neither the type nor its pointer implements Validator. *)
Abbreviation validator := (option (option error)).

Record StructField := {
  Name : string;
  (** the mapstructure tag *)
  Tag : option string;
  IsExported : bool;
}.

(** The cases of stringifyMapKey. *)
Inductive mapKey :=
| KeyString (s : string)
| KeyStringer (s : string)
| KeyComposite (type : string)
| KeyPrinted (s : string).

(** A reflect.Value by its kind. *)
Inductive rvalue :=
| Invalid
| Pointer (elem : rvalue)
| Struct (own : validator) (fields : list (StructField * rvalue))
| Slice (own : validator) (elems : list rvalue)
| Map (own : validator) (entries : list (mapKey * rvalue * rvalue))
| Scalar (own : validator).

Record pathError := mkPathError { path_err : error; path : list string }.

Definition callValidateIfPossible (own : validator) : option error :=
  match own with Some result => result | None => None end.

Fixpoint ToLower (s : string) : string :=
  match s with
  | EmptyString => ""
  | String c s =>
      let n := N_of_ascii c in
      String (if ((65 <=? n) && (n <=? 90))%N then ascii_of_N (n + 32) else c) (ToLower s)
  end.

(** tags[0] of strings.Split(tag, ","). *)
Definition firstTag (tag : string) : string := let '(before, _, _) := CutString tag "," in before.

Definition fieldName (f : StructField) : string :=
  let name := match Tag f with Some tag => firstTag tag | None => "" end in
  if decide (name = "") then ToLower (Name f) else name.

Definition stringifyMapKey (k : mapKey) : string :=
  match k with
  | KeyString s | KeyStringer s | KeyPrinted s => s
  | KeyComposite t => "[" +:+ t +:+ " key]"
  end.

(** The errors of a part, under the name of the part. *)
Definition under (name : string) (errs : list pathError) : list pathError :=
  map (fun e => mkPathError (path_err e) (path e ++ [name])) errs.

Definition own_errors (own : validator) : list pathError :=
  match callValidateIfPossible own with Some err => [mkPathError err []] | None => [] end.

Section parts.
Context {A : Type} (f : A -> list pathError).
Fixpoint validateFields (l : list (StructField * A)) : list pathError :=
  match l with
  | [] => []
  | (field, v) :: l =>
      (if negb (IsExported field) then [] else under (fieldName field) (f v)) ++ validateFields l
  end.
Fixpoint validateElems (i : nat) (l : list A) : list pathError :=
  match l with
  | [] => []
  | v :: l => under (pretty i) (f v) ++ validateElems (S i) l
  end.
Fixpoint validateEntries (l : list (mapKey * A * A)) : list pathError :=
  match l with
  | [] => []
  | (key, k, v) :: l =>
      under (stringifyMapKey key) (f k) ++ under (stringifyMapKey key) (f v) ++ validateEntries l
  end.
End parts.

Fixpoint validate (v : rvalue) : list pathError :=
  match v with
  | Invalid => []
  | Pointer elem => validate elem
  | Struct own fields => own_errors own ++ validateFields validate fields
  | Slice own elems => own_errors own ++ validateElems validate 0 elems
  | Map own entries => own_errors own ++ validateEntries validate entries
  | Scalar own => own_errors own
  end.

(** The text in front of the error in pathError.Error: the path from the outside. *)
Fixpoint joinPath (l : list string) : string :=
  match l with
  | [] => ""
  | [s] => s
  | s :: l => s +:+ KeyDelimiter +:+ joinPath l
  end.

Definition pathError_Error (text : error -> string) (pe : pathError) : string :=
  if decide (path pe = []) then text (path_err pe)
  else joinPath (reverse (path pe)) +:+ ": " +:+ text (path_err pe).

Definition Validate (text : error -> string) (cfg : rvalue) : option error :=
  foldl (fun err pe =>
    let e := ErrWrap (pathError_Error text pe) (path_err pe) in
    Some (match err with None => e | Some err => errors_Join err e end)) None (validate cfg).

(** ** Specification and proof *)

Section rvalue_ind.
Context (P : rvalue -> Prop) (HInvalid : P Invalid) (HPointer : forall v, P v -> P (Pointer v)).
Context (HStruct : forall own l, Forall (fun x => P x.2) l -> P (Struct own l)).
Context (HSlice : forall own l, Forall P l -> P (Slice own l)).
Context (HMap : forall own l, Forall (fun x => P x.1.2 /\ P x.2) l -> P (Map own l)).
Context (HScalar : forall own, P (Scalar own)).

Fixpoint rvalue_induction (v : rvalue) : P v :=
  match v with
  | Invalid => HInvalid
  | Pointer e => HPointer e (rvalue_induction e)
  | Struct own l =>
      HStruct own l ((fix go l : Forall (fun x => P x.2) l :=
        match l with
        | [] => Forall_nil_2 _
        | (f, v) :: l => Forall_cons_2 (fun x => P x.2) (f, v) l (rvalue_induction v) (go l)
        end) l)
  | Slice own l =>
      HSlice own l ((fix go l : Forall P l :=
        match l with [] => Forall_nil_2 _ | v :: l => Forall_cons_2 _ _ _ (rvalue_induction v) (go l) end) l)
  | Map own l =>
      HMap own l ((fix go l : Forall (fun x => P x.1.2 /\ P x.2) l :=
        match l with
        | [] => Forall_nil_2 _
        | (n, k, v) :: l =>
            Forall_cons_2 (fun x => P x.1.2 /\ P x.2) (n, k, v) l (conj (rvalue_induction k) (rvalue_induction v)) (go l)
        end) l)
  | Scalar own => HScalar own
  end.
End rvalue_ind.

(** [fails_at v p err]: on the way [p] into [v], through exported fields, elements, and keys
    and values of maps, there is a value whose Validate returns [err]. *)
Inductive fails_at : rvalue -> list string -> error -> Prop :=
| fails_pointer v p err : fails_at v p err -> fails_at (Pointer v) p err
| fails_struct err l : fails_at (Struct (Some (Some err)) l) [] err
| fails_field own l f v p err :
    (f, v) ∈ l -> IsExported f = true -> fails_at v p err -> fails_at (Struct own l) (fieldName f :: p) err
| fails_slice err l : fails_at (Slice (Some (Some err)) l) [] err
| fails_elem own l i v p err : l !! i = Some v -> fails_at v p err -> fails_at (Slice own l) (pretty i :: p) err
| fails_map err l : fails_at (Map (Some (Some err)) l) [] err
| fails_key own l n k v p err :
    (n, k, v) ∈ l -> fails_at k p err -> fails_at (Map own l) (stringifyMapKey n :: p) err
| fails_value own l n k v p err :
    (n, k, v) ∈ l -> fails_at v p err -> fails_at (Map own l) (stringifyMapKey n :: p) err
| fails_scalar err : fails_at (Scalar (Some (Some err))) [] err.

(** The path of an error from the outside. *)
Definition at_path (errs : list pathError) (p : list string) (err : error) : Prop :=
  mkPathError err (reverse p) ∈ errs.

Lemma at_path_app a b p err : at_path (a ++ b) p err <-> at_path a p err \/ at_path b p err.
Proof. apply elem_of_app. Qed.

Lemma at_path_nil p err : ~ at_path [] p err.
Proof. apply not_elem_of_nil. Qed.

Lemma at_path_own own p err : at_path (own_errors own) p err <-> p = [] /\ own = Some (Some err).
Proof.
  unfold at_path, own_errors. destruct own as [[e|]|]; cbn [callValidateIfPossible];
    rewrite ?list_elem_of_singleton, ?elem_of_nil; try naive_solver.
  split; [|by intros [-> [= ->]]]. intros [= -> E]. split; [|done].
  apply (f_equal reverse) in E. by rewrite reverse_involutive in E.
Qed.

Lemma at_path_under name errs p err :
  at_path (under name errs) p err <-> exists p', p = name :: p' /\ at_path errs p' err.
Proof.
  unfold at_path, under. rewrite list_elem_of_fmap. split.
  - intros ([e q] & E & Hin). simpl in E. injection E as -> E. exists (reverse q). rewrite reverse_involutive.
    split; [|done]. apply (f_equal reverse) in E. by rewrite reverse_involutive, reverse_snoc in E.
  - intros (p' & -> & Hin). exists (mkPathError err (reverse p')). split; [|done]. by rewrite reverse_cons.
Qed.

Section found.
Context (ok : rvalue -> Prop := fun v => forall p err, at_path (validate v) p err <-> fails_at v p err).

Lemma fields_found l p err :
  Forall (fun x => ok x.2) l ->
  at_path (validateFields validate l) p err <->
  exists f v p', p = fieldName f :: p' /\ (f, v) ∈ l /\ IsExported f = true /\ fails_at v p' err.
Proof.
  induction 1 as [|[f v] l Hv _ IH]; cbn [validateFields].
  { split; [by intros ?%at_path_nil|]. intros (f & v & p' & _ & Hin & _). by apply not_elem_of_nil in Hin. }
  rewrite at_path_app, IH. split.
  - intros [Ha|(f' & v' & p' & -> & Hin & Hx & Hf)].
    + destruct (IsExported f) eqn:Ex; [|by apply at_path_nil in Ha]. apply at_path_under in Ha as (p' & -> & Ha%Hv).
      exists f, v, p'. split_and!; [done|by left|done|done].
    + exists f', v', p'. split_and!; [done|by right|done|done].
  - intros (f' & v' & p' & -> & [E|Hin]%elem_of_cons & Hx & Hf).
    + injection E as -> ->. left. rewrite Hx. apply at_path_under. exists p'. split; [done|]. by apply Hv.
    + right. by exists f', v', p'.
Qed.

Lemma elems_found l i p err :
  Forall ok l ->
  at_path (validateElems validate i l) p err <->
  exists j v p', p = pretty (i + j)%nat :: p' /\ l !! j = Some v /\ fails_at v p' err.
Proof.
  intros Hl. revert i. induction Hl as [|v l Hv _ IH]; intros i; cbn [validateElems].
  { split; [by intros ?%at_path_nil|]. by intros (j & v & p' & _ & ? & _). }
  rewrite at_path_app, IH, at_path_under. split.
  - intros [(p' & -> & Ha%Hv)|(j & v' & p' & -> & Hj & Hf)].
    + exists 0%nat, v, p'. by rewrite Nat.add_0_r.
    + exists (S j), v', p'. by rewrite Nat.add_succ_r.
  - intros ([|j] & v' & p' & -> & Hj & Hf).
    + injection Hj as ->. left. exists p'. rewrite Nat.add_0_r. split; [done|]. by apply Hv.
    + right. exists j, v', p'. by rewrite Nat.add_succ_r.
Qed.

Lemma entries_found l p err :
  Forall (fun x => ok x.1.2 /\ ok x.2) l ->
  at_path (validateEntries validate l) p err <->
  exists n k v p', p = stringifyMapKey n :: p' /\ (n, k, v) ∈ l /\ (fails_at k p' err \/ fails_at v p' err).
Proof.
  induction 1 as [|[[n k] v] l [Hk Hv] _ IH]; cbn [validateEntries].
  { split; [by intros ?%at_path_nil|]. intros (n & k & v & p' & _ & Hin & _). by apply not_elem_of_nil in Hin. }
  rewrite !at_path_app, IH, !at_path_under. split.
  - intros [(p' & -> & Ha%Hk)|[(p' & -> & Ha%Hv)|(n' & k' & v' & p' & -> & Hin & Hf)]].
    + exists n, k, v, p'. split_and!; [done|by left|by left].
    + exists n, k, v, p'. split_and!; [done|by left|by right].
    + exists n', k', v', p'. split_and!; [done|by right|done].
  - intros (n' & k' & v' & p' & -> & [E|Hin]%elem_of_cons & Hf).
    + injection E as -> -> ->. destruct Hf as [Hf|Hf]; [left|right; left]; exists p'; (split; [done|]); [by apply Hk|by apply Hv].
    + right. right. by exists n', k', v', p'.
Qed.

Lemma validate_found v : ok v.
Proof.
  unfold ok. induction v as [|v IH|own l IH|own l IH|own l IH|own] using rvalue_induction; intros p err; cbn [validate].
  - split; [by intros ?%at_path_nil|by inversion 1].
  - rewrite IH. split; [by constructor|by inversion 1].
  - rewrite at_path_app, at_path_own, fields_found by done. split.
    + intros [[-> ->]|(f & v & p' & -> & ? & ? & ?)]; [constructor|by econstructor].
    + inversion 1; subst; naive_solver.
  - rewrite at_path_app, at_path_own, elems_found by done. split.
    + intros [[-> ->]|(j & v & p' & -> & ? & ?)]; [constructor|by econstructor].
    + inversion 1; subst; [by left|]. right. naive_solver.
  - rewrite at_path_app, at_path_own, entries_found by done. split.
    + intros [[-> ->]|(n & k & v & p' & -> & ? & [?|?])]; [constructor|by eapply fails_key|by eapply fails_value].
    + inversion 1; subst; naive_solver.
  - rewrite at_path_own. split; [by intros [-> ->]; constructor|by inversion 1].
Qed.
End found.

Lemma Validate_None text cfg : Validate text cfg = None <-> validate cfg = [].
Proof.
  assert (forall l o, foldl (fun err pe => Some (match err with None => ErrWrap (pathError_Error text pe) (path_err pe)
    | Some err => errors_Join err (ErrWrap (pathError_Error text pe) (path_err pe)) end)) o l = None <-> o = None /\ l = []) as Hf.
  { induction l as [|pe l IH]; intros o; simpl; [tauto|]. rewrite IH. naive_solver. }
  unfold Validate. rewrite Hf. tauto.
Qed.

(** Validation misses nothing and makes nothing up: the errors it collects are those of the
    Validate methods of all values inside the configuration, each with the way to it from the
    outside, and it returns no error exactly when none of them does. *)
Theorem validation_is_complete text cfg :
  (forall p err, mkPathError err (reverse p) ∈ validate cfg <-> fails_at cfg p err) /\
  (forall p err, pathError_Error text (mkPathError err (reverse p)) =
     if decide (p = []) then text err else joinPath p +:+ ": " +:+ text err) /\
  (Validate text cfg = None <-> forall p err, ~ fails_at cfg p err).
Proof.
  split; [apply validate_found|]. split.
  - intros p err. unfold pathError_Error. cbn [path path_err]. rewrite reverse_involutive.
    destruct (decide (p = [])) as [->|Hp]; [done|]. rewrite decide_False; [done|].
    intros E. apply Hp. apply (f_equal reverse) in E. by rewrite reverse_involutive in E.
  - rewrite Validate_None. split.
    + intros E p err Ha%validate_found. unfold at_path in Ha. rewrite E in Ha. by apply not_elem_of_nil in Ha.
    + intros Hn. destruct (validate cfg) as [|[err p] l] eqn:E; [done|].
      destruct (Hn (reverse p) err). apply validate_found. unfold at_path. rewrite E, reverse_involutive. by left.
Qed.
