(* ===== verification/SharedComponent.v ===== *)
(** * SharedComponent: one component behind several receivers

    Models internal/sharedcomponent/sharedcomponent.go.  The components of a Map are
    numbered in the order of their creation.  The lock of the map and the lock of a host
    wrapper make each operation below one step; the calls into the component take time, so
    Start and Shutdown are two steps each, the second with what the component returned.
    The graph calls Start of one node at a time; reports come at any time. *)

From S2P Require Import Prelude GoErrors Status.

(** ** State *)

Record hostWrapper := {
  (** numbered in the order of addSource *)
  sources : list nat;
  (** the ring, from its current element *)
  previousEvents : list (option Event);
}.

Record Component {K : Type} := {
  key : K;
  startOnce : bool;
  (** the component is between the call of its Start and its return; the same for Shutdown *)
  starting : bool;
  stopOnce : bool;
  stopping : bool;
  wrapper : option hostWrapper;
}.
Arguments Component : clear implicits.

(** What is seen of component [i]: the calls it gets, the events it remembers, and what its
    sources are told. *)
Inductive action :=
| Started (i : nat)
| Stopped (i : nat)
| Remembered (i : nat) (e : Event)
| Told (i source : nat) (e : Event).

#[export] Instance Event_eq_dec : EqDecision Event.
Proof. solve_decision. Defined.
#[export] Instance action_eq_dec : EqDecision action.
Proof. solve_decision. Defined.

Section shared.
Context {K : Type} `{Countable K}.

Record world := { components : gmap K nat; instances : list (Component K); trace : list action }.

Definition empty_map : world := {| components := ∅; instances := []; trace := [] |}.

(** ** Map.LoadOrStore *)

Definition LoadOrStore (key : K) (create : option error) (w : world) : (error + nat) * world :=
  match components w !! key with
  | Some c => (inr c, w)
  | None =>
      match create with
      | Some err => (inl err, w)
      | None =>
          let i := length (instances w) in
          let newComp := {| key := key; startOnce := false; starting := false; stopOnce := false;
                            stopping := false; wrapper := None |} in
          (inr i, {| components := <[key := i]> (components w); instances := instances w ++ [newComp]; trace := trace w |})
      end
  end.

(** ** hostWrapper *)

(** ring.New(5) *)
Definition newRing : list (option Event) := replicate 5 None.

(** Ring.Value = e, then Ring.Next. *)
Definition remember (e : Event) (r : list (option Event)) : list (option Event) := tail r ++ [Some e].

Definition Report (i : nat) (e : Event) (h : hostWrapper) : hostWrapper * list action :=
  match sources h with
  | [] => (h, [])
  | l =>
      ({| sources := l; previousEvents := remember e (previousEvents h) |},
       Remembered i e :: map (fun s => Told i s e) l)
  end.

Definition addSource (i : nat) (h : hostWrapper) : hostWrapper * list action :=
  let s := length (sources h) in
  ({| sources := sources h ++ [s]; previousEvents := previousEvents h |},
   omap (fun o => Told i s <$> o) (previousEvents h)).

(** addSource if the host is a componentstatus.Reporter. *)
Definition addHost (i : nat) (isStatusReporter : bool) (h : hostWrapper) : hostWrapper * list action :=
  if isStatusReporter then addSource i h else (h, []).

(** ** Component *)

Definition update (i : nat) (c : Component K) (acts : list action) (w : world) : world :=
  {| components := components w; instances := <[i := c]> (instances w); trace := trace w ++ acts |}.

Definition set_wrapper (h : option hostWrapper) (c : Component K) : Component K :=
  {| key := key c; startOnce := startOnce c; starting := starting c; stopOnce := stopOnce c;
     stopping := stopping c; wrapper := h |}.

Definition report (i : nat) (e : Event) (c : Component K) : Component K * list action :=
  match wrapper c with
  | None => (c, [])
  | Some h => let '(h, acts) := Report i e h in (set_wrapper (Some h) c, acts)
  end.

(** Start up to the call of the component's Start. *)
Definition Start (i : nat) (now : Z) (isStatusReporter : bool) (w : world) : option world :=
  match instances w !! i with
  | None => None
  | Some c =>
      match wrapper c with
      | Some h =>
          let '(h, acts) := addHost i isStatusReporter h in
          Some (update i (set_wrapper (Some h) c) acts w)
      | None =>
          if startOnce c then Some w
          else
            let '(h, acts1) := addHost i isStatusReporter {| sources := []; previousEvents := newRing |} in
            let '(h, acts2) := Report i (NewEvent now StatusStarting) h in
            Some (update i {| key := key c; startOnce := true; starting := true; stopOnce := stopOnce c;
                              stopping := stopping c; wrapper := Some h |} (acts1 ++ acts2 ++ [Started i]) w)
      end
  end.

(** Its return. *)
Definition StartReturns (i : nat) (now : Z) (err : option error) (w : world) : option world :=
  match instances w !! i with
  | Some c =>
      if starting c then
        let c := {| key := key c; startOnce := startOnce c; starting := false; stopOnce := stopOnce c;
                    stopping := stopping c; wrapper := wrapper c |} in
        match err with
        | None => Some (update i c [] w)
        | Some e => let '(c, acts) := report i (NewPermanentErrorEvent now e) c in Some (update i c acts w)
        end
      else None
  | None => None
  end.

(** A report of the component to its host. *)
Definition ComponentReports (i : nat) (e : Event) (w : world) : option world :=
  match instances w !! i with
  | Some c =>
      match wrapper c with
      | Some _ => let '(c, acts) := report i e c in Some (update i c acts w)
      | None => None
      end
  | None => None
  end.

(** Shutdown up to the call of the component's Shutdown; later calls do nothing. *)
Definition Shutdown (i : nat) (now : Z) (w : world) : option world :=
  match instances w !! i with
  | None => None
  | Some c =>
      if stopOnce c then Some w
      else
        let c := {| key := key c; startOnce := startOnce c; starting := starting c; stopOnce := true;
                    stopping := true; wrapper := wrapper c |} in
        let '(c, acts) := report i (NewEvent now StatusStopping) c in
        Some (update i c (acts ++ [Stopped i]) w)
  end.

Definition ShutdownReturns (i : nat) (now : Z) (err : option error) (w : world) : option world :=
  match instances w !! i with
  | Some c =>
      if stopping c then
        let c := {| key := key c; startOnce := startOnce c; starting := starting c; stopOnce := stopOnce c;
                    stopping := false; wrapper := wrapper c |} in
        let e := match err with Some e => NewPermanentErrorEvent now e | None => NewEvent now StatusStopped end in
        let '(c, acts) := report i e c in
        let w := update i c acts w in
        Some {| components := delete (key c) (components w); instances := instances w; trace := trace w |}
      else None
  | None => None
  end.

(** ** Runs *)

Inductive op :=
| OLoadOrStore (key : K) (create : option error)
| OStart (i : nat) (now : Z) (isStatusReporter : bool)
| OStartReturns (i : nat) (now : Z) (err : option error)
| OReport (i : nat) (e : Event)
| OShutdown (i : nat) (now : Z)
| OShutdownReturns (i : nat) (now : Z) (err : option error).

Definition exec (o : op) (w : world) : option world :=
  match o with
  | OLoadOrStore key create => Some (LoadOrStore key create w).2
  | OStart i now r => Start i now r w
  | OStartReturns i now err => StartReturns i now err w
  | OReport i e => ComponentReports i e w
  | OShutdown i now => Shutdown i now w
  | OShutdownReturns i now err => ShutdownReturns i now err w
  end.

Fixpoint run (l : list op) (w : world) : option world :=
  match l with
  | [] => Some w
  | o :: l => match exec o w with Some w => run l w | None => None end
  end.
End shared.
Arguments world K {_ _}.

(** * Runs of a shared component *)

(** ** What the trace says of one component *)

Definition remembered (i : nat) (tr : list action) : list Event :=
  omap (fun a => match a with Remembered j e => if decide (j = i) then Some e else None | _ => None end) tr.

Definition told (i s : nat) (tr : list action) : list Event :=
  omap (fun a => match a with Told j s' e => if decide (j = i /\ s' = s) then Some e else None | _ => None end) tr.

Definition of_component (i : nat) (a : action) : Prop :=
  match a with Started j | Stopped j | Remembered j _ | Told j _ _ => j = i end.

Lemma remembered_app i tr tr' : remembered i (tr ++ tr') = remembered i tr ++ remembered i tr'.
Proof. apply omap_app. Qed.

Lemma told_app i s tr tr' : told i s (tr ++ tr') = told i s tr ++ told i s tr'.
Proof. apply omap_app. Qed.

Lemma told_cons i s a tr : told i s (a :: tr) = told i s [a] ++ told i s tr.
Proof. apply (told_app i s [a]). Qed.

Lemma remembered_cons i a tr : remembered i (a :: tr) = remembered i [a] ++ remembered i tr.
Proof. apply (remembered_app i [a]). Qed.

Lemma others_unseen i j s acts :
  Forall (of_component i) acts -> j <> i ->
  remembered j acts = [] /\ told j s acts = [] /\ occ (Started j) acts = 0 /\ occ (Stopped j) acts = 0.
Proof.
  intros Hf Hj. induction Hf as [|a acts Ha _ (IH1 & IH2 & IH3 & IH4)]; [done|].
  unfold remembered, told in *. rewrite !occ_cons, IH3, IH4. cbn [omap list_omap]. rewrite IH1, IH2.
  destruct a; simpl in Ha; subst; repeat case_decide; try done; naive_solver.
Qed.

(** ** The ring *)

(** The ring after [evs] were remembered. *)
Definition ring_of (evs : list Event) : list (option Event) := drop (length evs) (replicate 5 None ++ map Some evs).

Lemma remember_ring e evs : remember e (ring_of evs) = ring_of (evs ++ [e]).
Proof.
  unfold remember, ring_of. rewrite length_app, map_app, app_assoc. simpl length.
  assert (length (replicate 5 None ++ map Some evs) = 5 + length evs)%nat as Hl
    by by rewrite length_app, length_replicate, length_map.
  rewrite (drop_app_le _ (map Some [e])) by (rewrite Hl; lia).
  assert (forall l : list (option Event), tail l = drop 1 l) as -> by by intros [|].
  by rewrite drop_drop.
Qed.

Lemma omap_map_Some (l : list Event) : omap id (map Some l) = l.
Proof. induction l as [|e l IH]; [done|]. simpl. f_equal. exact IH. Qed.

Lemma replay_ring evs : omap id (ring_of evs) = drop (length evs - 5) evs.
Proof.
  unfold ring_of. destruct (decide (length evs <= 5)%nat) as [Hl|Hl].
  - rewrite drop_app_le by (rewrite length_replicate; lia). rewrite omap_app, omap_map_Some.
    replace (length evs - 5)%nat with 0%nat by lia. rewrite drop_replicate.
    by induction (5 - length evs)%nat.
  - rewrite drop_app_ge by (rewrite length_replicate; lia). rewrite length_replicate, skipn_map. by rewrite omap_map_Some.
Qed.

(** ** Invariants *)

(** The sources of a wrapper that remembered [evs], and what each was told: the events since
    it was added and up to five before. *)
Record wrapper_ok (evs : list Event) (received : nat -> list Event) (h : hostWrapper) : Prop := {
  wrapper_ring : previousEvents h = ring_of evs;
  wrapper_sources : sources h = seq 0 (length (sources h));
  wrapper_silent : sources h = [] -> evs = [];
  wrapper_told : forall s, (s < length (sources h))%nat ->
    exists n, (n <= length evs)%nat /\ (s = 0%nat -> n = 0%nat) /\ received s = drop (n - 5) evs;
  wrapper_not_told : forall s, (length (sources h) <= s)%nat -> received s = [];
}.

Lemma new_wrapper : wrapper_ok [] (fun _ => []) {| sources := []; previousEvents := newRing |}.
Proof. split; simpl; [done|done|done|lia|done]. Qed.

Lemma told_seq i s e k n :
  told i s (map (fun s' => Told i s' e) (seq k n)) = if decide (k <= s < k + n)%nat then [e] else [].
Proof.
  revert k. induction n as [|n IH]; intros k; cbn [seq map].
  { by rewrite decide_False by lia. }
  rewrite told_cons, IH. unfold told. simpl. repeat case_decide; try done; try lia; naive_solver lia.
Qed.

Lemma remembered_told i j l (f : nat -> Event) : remembered i (map (fun s => Told j s (f s)) l) = [].
Proof. unfold remembered. induction l; [done|]. simpl. done. Qed.

Lemma Report_ok i e h h' acts evs received :
  Report i e h = (h', acts) -> wrapper_ok evs received h ->
  wrapper_ok (evs ++ remembered i acts) (fun s => received s ++ told i s acts) h'.
Proof.
  unfold Report. intros E [Hr Hs Hq Ht Hn]. destruct (sources h) as [|s0 l] eqn:El.
  { injection E as <- <-. simpl. rewrite app_nil_r.
    split; rewrite ?El; try done; intros s Hl; rewrite app_nil_r; auto. }
  rewrite <- El in *. injection E as <- <-. rewrite Hs.
  assert (remembered i (Remembered i e :: map (fun s => Told i s e) (seq 0 (length (sources h)))) = [e]) as ->.
  { rewrite remembered_cons, remembered_told, app_nil_r.
    unfold remembered. simpl. by rewrite decide_True. }
  split; cbn [sources previousEvents]; rewrite ?length_seq.
  - by rewrite Hr, remember_ring.
  - done.
  - intros E. apply (f_equal length) in E. rewrite length_seq, El in E. done.
  - intros s Hlt. destruct (Ht s Hlt) as (n & Hle & H0 & ->). exists n.
    rewrite length_app. split_and!; [lia|done|].
    rewrite told_cons, told_seq, decide_True by lia.
    rewrite drop_app_le by lia. done.
  - intros s Hge. rewrite told_cons, told_seq, decide_False by lia. by rewrite Hn.
Qed.

Lemma told_omap i s s' (r : list (option Event)) :
  told i s (omap (fun o => Told i s' <$> o) r) = if decide (s' = s) then omap id r else [].
Proof.
  induction r as [|[e|] r IH]; [by case_decide| |exact IH].
  change (omap ?f (Some e :: r)) with (Told i s' e :: omap f r) at 1. rewrite told_cons, IH.
  unfold told. simpl. repeat case_decide; naive_solver.
Qed.

Lemma remembered_omap i s (r : list (option Event)) : remembered i (omap (fun o => Told i s <$> o) r) = [].
Proof. unfold remembered. induction r as [|[e|] r IH]; simpl; auto. Qed.

Lemma addSource_ok i h h' acts evs received :
  addSource i h = (h', acts) -> wrapper_ok evs received h ->
  remembered i acts = [] /\ wrapper_ok evs (fun s => received s ++ told i s acts) h'.
Proof.
  unfold addSource. intros [= <- <-] [Hr Hs Hq Ht Hn]. split; [apply remembered_omap|].
  rewrite Hr. split; cbn [sources previousEvents]; rewrite ?length_app; simpl length.
  - done.
  - by rewrite seq_app, <- Hs.
  - by destruct (sources h).
  - intros s Hlt. rewrite told_omap, replay_ring. case_decide as Hd.
    + subst s. exists (length evs). rewrite Hn by lia. split_and!; [done| |done].
      intros E. destruct (sources h); [by rewrite Hq|done].
    + rewrite app_nil_r. apply Ht. lia.
  - intros s Hge. rewrite told_omap, decide_False, Hn by lia. done.
Qed.

Lemma addHost_ok i b h h' acts evs received :
  addHost i b h = (h', acts) -> wrapper_ok evs received h ->
  remembered i acts = [] /\ wrapper_ok evs (fun s => received s ++ told i s acts) h'.
Proof.
  destruct b; [apply addSource_ok|]. intros [= <- <-] [Hr Hs Hq Ht Hn]. split; [done|].
  split; try done; intros s Hl; simpl; rewrite app_nil_r; auto.
Qed.

Lemma wrapper_ok_ext evs evs' r r' h :
  evs = evs' -> (forall s, r s = r' s) -> wrapper_ok evs r h -> wrapper_ok evs' r' h.
Proof.
  intros <- Hr [H1 H2 H3 H4 H5]. split; try done; intros s Hs; rewrite <- Hr; auto.
Qed.

(** Reports and additions touch only what they are about. *)
Lemma Report_of_component i e h : Forall (of_component i) (Report i e h).2.
Proof.
  unfold Report. destruct (sources h) as [|s l]; [constructor|]. cbn [snd]. constructor; [done|].
  apply Forall_map, Forall_true. done.
Qed.

Lemma addHost_of_component i b h : Forall (of_component i) (addHost i b h).2.
Proof.
  destruct b; [|constructor]. unfold addHost, addSource. cbn [snd].
  induction (previousEvents h) as [|[e|] r IH]; [constructor|by constructor|exact IH].
Qed.

Definition calls_none (i : nat) (acts : list action) : Prop :=
  occ (Started i) acts = 0 /\ occ (Stopped i) acts = 0.

Lemma calls_none_told i s (r : list (option Event)) j : calls_none j (omap (fun o => Told i s <$> o) r).
Proof. unfold calls_none. induction r as [|[e|] r IH]; simpl; rewrite ?occ_cons, ?decide_False by done; auto. Qed.

Lemma Report_calls i e h j : calls_none j (Report i e h).2.
Proof.
  unfold Report, calls_none. destruct (sources h) as [|s l]; [done|]. cbn [snd].
  rewrite !occ_cons, !decide_False by done. generalize (s :: l) as l'. induction l' as [|x l' IH]; [done|].
  cbn [map]. rewrite !occ_cons, !decide_False by done. done.
Qed.

Lemma addHost_calls i b h j : calls_none j (addHost i b h).2.
Proof. destruct b; [apply calls_none_told|done]. Qed.

Section world.
Context {K : Type} `{Countable K}.

(** What the sources of a component were told. *)
Definition informed (i : nat) (c : Component K) (tr : list action) : Prop :=
  match wrapper c with
  | Some h => startOnce c = true /\ wrapper_ok (remembered i tr) (fun s => told i s tr) h
  | None => startOnce c = false /\ remembered i tr = [] /\ forall s, told i s tr = []
  end.

Record component_ok (i : nat) (c : Component K) (tr : list action) : Prop := {
  ok_started : occ (Started i) tr = Z.b2z (startOnce c);
  ok_stopped : occ (Stopped i) tr = Z.b2z (stopOnce c);
  ok_stopping : stopping c = true -> stopOnce c = true;
  ok_informed : informed i c tr;
}.

(** The component is still in the map. *)
Definition live (c : Component K) : Prop := stopOnce c = false \/ stopping c = true.

Definition untouched (i : nat) (tr : list action) : Prop :=
  calls_none i tr /\ remembered i tr = [] /\ forall s, told i s tr = [].

Record world_ok (w : world K) : Prop := {
  ok_components : forall i c, instances w !! i = Some c -> component_ok i c (trace w);
  ok_unborn : forall i, (length (instances w) <= i)%nat -> untouched i (trace w);
  ok_map : forall k i, components w !! k = Some i <->
    exists c, instances w !! i = Some c /\ key c = k /\ live c;
}.

Lemma component_ok_others i j c tr acts :
  component_ok j c tr -> Forall (of_component i) acts -> j <> i -> component_ok j c (tr ++ acts).
Proof.
  intros [H1 H2 H3 H4] Hf Hj.
  destruct (others_unseen i j 0 acts Hf Hj) as (Hr & _ & Hs & Hp).
  assert (forall s, told j s acts = []) as Ht by (intros s; by destruct (others_unseen i j s acts Hf Hj) as (_ & ? & _)).
  split; rewrite ?occ_app; [lia|lia|done|]. unfold informed in *. rewrite remembered_app, Hr, app_nil_r.
  destruct (wrapper c) as [h|]; destruct H4 as [Hst H4]; (split; [done|]).
  - eapply wrapper_ok_ext; [done| |done]. intros s. by rewrite told_app, Ht, app_nil_r.
  - destruct H4 as [? H4]. split; [done|]. intros s. by rewrite told_app, Ht, app_nil_r.
Qed.

Lemma untouched_others i j tr acts :
  untouched j tr -> Forall (of_component i) acts -> j <> i -> untouched j (tr ++ acts).
Proof.
  intros ([H1 H2] & H3 & H4) Hf Hj. destruct (others_unseen i j 0 acts Hf Hj) as (Hr & _ & Hs & Hp).
  split; [split; rewrite occ_app; lia|]. split; [by rewrite remembered_app, H3, Hr|].
  intros s. destruct (others_unseen i j s acts Hf Hj) as (_ & Ht & _). by rewrite told_app, H4, Ht.
Qed.

Lemma update_ok i c c' acts w :
  world_ok w -> instances w !! i = Some c -> Forall (of_component i) acts ->
  component_ok i c' (trace w ++ acts) -> key c' = key c -> (live c' <-> live c) ->
  world_ok (update i c' acts w).
Proof.
  intros [H1 H2 H3] Hi Hf Hc Hk Hl. pose proof (lookup_lt_Some _ _ _ Hi) as Hlt. split; cbn [update instances trace components].
  - intros j c2. rewrite list_lookup_insert_Some. intros [(<- & <- & _)|[Hj Hc2]]; [done|].
    eapply component_ok_others; eauto.
  - intros j. rewrite length_insert. intros Hge. eapply untouched_others; eauto. lia.
  - intros k j. rewrite H3. destruct (decide (j = i)) as [->|Hj].
    + rewrite Hi, list_lookup_insert_eq by done. split; intros (c2 & [= <-] & <- & ?); eexists; (split; [done|]); by split; [congruence|apply Hl].
    + by rewrite list_lookup_insert_ne.
Qed.

Lemma report_informed i e c c' acts tr :
  report i e c = (c', acts) -> informed i c tr ->
  informed i c' (tr ++ acts) /\ Forall (of_component i) acts /\ calls_none i acts /\
  key c' = key c /\ startOnce c' = startOnce c /\ stopOnce c' = stopOnce c /\ stopping c' = stopping c.
Proof.
  unfold report, informed. intros E Hc. destruct (wrapper c) as [h|] eqn:Ew.
  2: { injection E as <- <-. rewrite Ew, app_nil_r. split; [exact Hc|]. split; [constructor|]. by split. }
  destruct (Report i e h) as [h' a] eqn:Er. injection E as <- <-.
  pose proof (Report_calls i e h i) as Hn. pose proof (Report_of_component i e h) as Hf. rewrite Er in *. cbn [snd] in *.
  destruct Hc as [Hst Hw]. split_and!; [|done..]. cbn [wrapper set_wrapper startOnce]. split; [done|].
  eapply wrapper_ok_ext; [| |eapply Report_ok; [exact Er|exact Hw]]; [by rewrite remembered_app|].
  intros s. by rewrite told_app.
Qed.

Lemma LoadOrStore_ok k r w : world_ok w -> world_ok (LoadOrStore k r w).2.
Proof.
  intros Hw. unfold LoadOrStore. destruct (components w !! k) as [i|] eqn:Ek; [done|].
  destruct r as [e|]; [done|]. cbn [snd]. destruct Hw as [H1 H2 H3]. split; cbn [instances components trace].
  - intros i c [Hi|[Hl [_ <-]%list_lookup_singleton_Some]]%lookup_app_Some; [by apply H1|].
    destruct (H2 i Hl) as [[? ?] [? ?]]. by split.
  - intros i Hl. rewrite length_app in Hl. simpl in Hl. apply H2. lia.
  - intros k' i. rewrite lookup_insert_Some, H3. split.
    + intros [[<- <-]|[Hk (c & Hi & ? & ?)]].
      * eexists. rewrite lookup_app_r, Nat.sub_diag by lia. split; [done|]. by split; [|left].
      * exists c. rewrite lookup_app_l by (by eapply lookup_lt_Some). done.
    + intros (c & [Hi|[Hl Hc]]%lookup_app_Some & Hk & Hlive).
      * right. split; [|by exists c]. intros <-. rewrite (proj2 (H3 k i)) in Ek by by exists c. done.
      * destruct (i - length (instances w))%nat as [|n] eqn:En; [|done]. simpl in Hc. injection Hc as <-.
        left. simpl in Hk. split; [done|lia].
Qed.

Lemma Start_ok i now b w w' : Start i now b w = Some w' -> world_ok w -> world_ok w'.
Proof.
  unfold Start. intros E Hw. destruct (instances w !! i) as [c|] eqn:Hi; [|done].
  pose proof (ok_components _ Hw _ _ Hi) as [H1 H2 H3 H4].
  unfold informed in H4. destruct (wrapper c) as [h|] eqn:Ew.
  - destruct (addHost i b h) as [h' acts] eqn:Ea. injection E as <-. destruct H4 as [Hst Hh].
    pose proof (addHost_calls i b h i) as [Hs Hp]. pose proof (addHost_of_component i b h) as Hf. rewrite Ea in *. cbn [snd] in *.
    destruct (addHost_ok _ _ _ _ _ _ _ Ea Hh) as [Hr Hh'].
    apply (update_ok i c); try done. split; cbn [set_wrapper startOnce stopOnce stopping wrapper]; rewrite ?occ_app; [lia|lia|done|].
    unfold informed. cbn [wrapper set_wrapper startOnce].
    split; [done|]. eapply wrapper_ok_ext; [| |exact Hh']; [by rewrite remembered_app, Hr, app_nil_r|]. intros s. by rewrite told_app.
  - destruct H4 as (Hst & Hr & Ht). rewrite Hst in *.
    destruct (addHost i b _) as [h1 acts1] eqn:Ea. destruct (Report i _ h1) as [h2 acts2] eqn:Er. injection E as <-.
    pose proof (addHost_calls i b {| sources := []; previousEvents := newRing |} i) as [Hs1 Hp1].
    pose proof (addHost_of_component i b {| sources := []; previousEvents := newRing |}) as Hf1.
    pose proof (Report_calls i (NewEvent now StatusStarting) h1 i) as [Hs2 Hp2].
    pose proof (Report_of_component i (NewEvent now StatusStarting) h1) as Hf2. rewrite Ea, Er in *. cbn [snd] in *.
    destruct (addHost_ok _ _ _ _ _ _ _ Ea new_wrapper) as [Hr1 Hh1].
    pose proof (Report_ok _ _ _ _ _ _ _ Er Hh1) as Hh2.
    apply (update_ok i c); try done.
    { rewrite !Forall_app. split_and!; [done|done|by constructor]. }
    split; cbn [startOnce stopOnce stopping wrapper]; rewrite ?occ_app, ?occ_cons, ?occ_nil.
    + rewrite decide_True by done. simpl in *. lia.
    + rewrite decide_False by done. lia.
    + done.
    + unfold informed. cbn [wrapper startOnce]. split; [done|]. eapply wrapper_ok_ext; [| |exact Hh2].
      * rewrite !remembered_app, Hr, Hr1. simpl. by rewrite app_nil_r.
      * intros s. rewrite !told_app, Ht. simpl. by rewrite app_nil_r.
Qed.

(** A step that reports an event and makes the calls [calls]. *)
Lemma reported_ok i e c c1 c' acts calls w :
  world_ok w -> instances w !! i = Some c -> report i e c1 = (c', acts) ->
  key c1 = key c -> (live c1 <-> live c) -> informed i c1 (trace w) ->
  startOnce c1 = startOnce c -> (stopping c1 = true -> stopOnce c1 = true) ->
  (calls = [] /\ stopOnce c1 = stopOnce c \/ calls = [Stopped i] /\ stopOnce c = false /\ stopOnce c1 = true) ->
  world_ok (update i c' (acts ++ calls) w).
Proof.
  intros Hw Hi Er Hk Hl Hc Hst Hsp Hcalls. pose proof (ok_components _ Hw _ _ Hi) as [H1 H2 _ _].
  destruct (report_informed _ _ _ _ _ _ Er Hc) as (Hc' & Hf & [Hn1 Hn2] & Ek & Es & Eo & Ep).
  apply (update_ok i c); try done.
  - apply Forall_app. split; [done|]. destruct Hcalls as [[-> _]|(-> & _)]; by repeat constructor.
  - rewrite app_assoc. split; rewrite ?occ_app, ?Es, ?Eo, ?Ep.
    + destruct Hcalls as [[-> _]|(-> & _)]; rewrite ?occ_cons, ?occ_nil, ?decide_False by done; rewrite Hst; lia.
    + destruct Hcalls as [[-> ->]|(-> & Ho & ->)]; rewrite ?occ_cons, ?occ_nil; [lia|].
      rewrite decide_True, Ho in * by done. simpl in *. lia.
    + done.
    + destruct Hcalls as [[-> _]|(-> & _)]; [by rewrite app_nil_r|]. unfold informed in *.
      rewrite remembered_app. simpl. rewrite app_nil_r.
      destruct (wrapper c') as [h|]; destruct Hc' as [? Hc']; (split; [done|]).
      * eapply wrapper_ok_ext; [done| |done]. intros s. by rewrite (told_app i s (_ ++ _)), app_nil_r.
      * destruct Hc' as [? Hc']. split; [done|]. intros s. by rewrite (told_app i s (_ ++ _)), Hc'.
  - congruence.
  - rewrite <- Hl. unfold live. by rewrite Eo, Ep.
Qed.

(** The end of a shutdown: the component leaves the map. *)
Definition stopped_flag (c : Component K) : Component K :=
  {| key := key c; startOnce := startOnce c; starting := starting c; stopOnce := stopOnce c;
     stopping := false; wrapper := wrapper c |}.

Lemma report_stopped_flag i e c c' acts :
  report i e c = (c', acts) -> report i e (stopped_flag c) = (stopped_flag c', acts).
Proof.
  unfold report. cbn [stopped_flag wrapper]. destruct (wrapper c) as [h|]; [|by intros [= <- <-]].
  destruct (Report i e h). by intros [= <- <-].
Qed.

Lemma finish_ok i c w :
  world_ok w -> instances w !! i = Some c -> stopping c = true ->
  world_ok {| components := delete (key c) (components w); instances := <[i := stopped_flag c]> (instances w); trace := trace w |}.
Proof.
  intros [H1 H2 H3] Hi Hs. pose proof (lookup_lt_Some _ _ _ Hi) as Hlt. destruct (H1 _ _ Hi) as [C1 C2 C3 C4].
  assert (components w !! key c = Some i) as Hm by (apply H3; exists c; by split_and!; [| |right]).
  split; cbn [components instances trace].
  - intros j c2. rewrite list_lookup_insert_Some. intros [(<- & <- & _)|[Hj Hc2]]; [by split|by apply H1].
  - intros j. rewrite length_insert. apply H2.
  - intros k j. rewrite lookup_delete_Some, H3. split.
    + intros [Hk (c2 & Hj & <- & Hl)]. exists c2. rewrite list_lookup_insert_ne; [done|]. intros ->. congruence.
    + intros (c2 & Hj & Hk & Hl). rewrite list_lookup_insert_Some in Hj. destruct Hj as [(-> & <- & _)|[Hj Hc2]].
      * unfold live in Hl. simpl in Hl. rewrite (C3 Hs) in Hl. naive_solver.
      * split; [|by exists c2]. intros E. rewrite E in Hm.
        assert (components w !! k = Some j) as Hm' by (apply H3; by exists c2). congruence.
Qed.

Lemma exec_ok o w w' : exec o w = Some w' -> world_ok w -> world_ok w'.
Proof.
  destruct o as [k r|i now b|i now err|i e|i now|i now err]; cbn [exec].
  - intros [= <-]. apply LoadOrStore_ok.
  - apply Start_ok.
  - unfold StartReturns. destruct (instances w !! i) as [c|] eqn:Hi; [|done]. destruct (starting c); [|done].
    intros E Hw. pose proof (ok_components _ Hw _ _ Hi) as [H1 H2 H3 H4]. destruct err as [err|].
    + destruct (report _ _ _) as [c' acts] eqn:Er. injection E as <-. rewrite <- (app_nil_r acts).
      eapply reported_ok; [done|done|exact Er|done..|]. by left.
    + injection E as <-. apply (update_ok i c); try done. rewrite app_nil_r. by split.
  - unfold ComponentReports. destruct (instances w !! i) as [c|] eqn:Hi; [|done]. destruct (wrapper c); [|done].
    intros E Hw. pose proof (ok_components _ Hw _ _ Hi) as [H1 H2 H3 H4].
    destruct (report _ _ _) as [c' acts] eqn:Er. injection E as <-. rewrite <- (app_nil_r acts).
    eapply reported_ok; [done|done|exact Er|done..|]. by left.
  - unfold Shutdown. destruct (instances w !! i) as [c|] eqn:Hi; [|done].
    destruct (stopOnce c) eqn:Eo; [by intros [= <-]|].
    intros E Hw. pose proof (ok_components _ Hw _ _ Hi) as [H1 H2 H3 H4].
    destruct (report _ _ _) as [c' acts] eqn:Er. injection E as <-.
    eapply reported_ok; [done|done|exact Er|done| |done|done|done|by right].
    split; intros _; [by left|by right].
  - unfold ShutdownReturns. destruct (instances w !! i) as [c|] eqn:Hi; [|done].
    destruct (stopping c) eqn:Es; [|done]. intros E Hw. pose proof (ok_components _ Hw _ _ Hi) as [H1 H2 H3 H4].
    destruct (report i (match err with Some e => NewPermanentErrorEvent now e | None => NewEvent now StatusStopped end) c)
      as [c' acts] eqn:Er. pose proof (report_stopped_flag _ _ _ _ _ Er) as Er'. unfold stopped_flag at 1 in Er'.
    rewrite Er' in E. injection E as <-.
    destruct (report_informed _ _ _ _ _ _ Er H4) as (_ & _ & _ & Ek & _ & _ & Ep).
    assert (world_ok (update i c' acts w)) as Hw'.
    { rewrite <- (app_nil_r acts). eapply reported_ok; [done|done|exact Er|done..|]. by left. }
    assert (i < length (instances w))%nat as Hlt by by eapply lookup_lt_Some.
    pose proof (finish_ok i c' _ Hw') as Hf. cbn [update instances components trace] in *.
    rewrite list_lookup_insert_eq, list_insert_insert_eq in Hf by done. apply Hf; congruence.
Qed.

Lemma run_ok l w w' : run l w = Some w' -> world_ok w -> world_ok w'.
Proof.
  revert w. induction l as [|o l IH]; intros w; cbn [run]; [by intros [= <-]|].
  destruct (exec o w) as [w1|] eqn:E; [|done]. intros Hr Hw. eapply IH; [done|]. by eapply exec_ok.
Qed.

Lemma empty_ok : world_ok empty_map.
Proof.
  split; cbn [empty_map instances components trace]; [done| |].
  - done.
  - intros k i. split; [done|]. by intros (c & ? & _).
Qed.

(** ** The properties *)

(** C33: whatever the order of requests, starts, shutdowns and reports, the component behind a key
    is started at most once and stopped at most once, and until its Shutdown has returned it
    is the one instance that LoadOrStore gives for the key. *)
Theorem shared_component_runs_once l (w : world K) :
  run l empty_map = Some w ->
  (forall i, 0 <= occ (Started i) (trace w) <= 1 /\ 0 <= occ (Stopped i) (trace w) <= 1) /\
  (forall k create i, (LoadOrStore k create w).1 = inr i ->
     (components w !! k = Some i /\ exists c, instances w !! i = Some c /\ key c = k /\ live c) \/
     (create = None /\ i = length (instances w) /\
      forall j c, instances w !! j = Some c -> key c = k -> stopOnce c = true /\ stopping c = false)).
Proof.
  intros Hr. apply run_ok in Hr as [H1 H2 H3]; [|apply empty_ok]. split.
  - intros i. destruct (instances w !! i) as [c|] eqn:Hi.
    + destruct (H1 _ _ Hi) as [-> -> _ _]. by destruct (startOnce c), (stopOnce c).
    + apply lookup_ge_None in Hi. destruct (H2 _ Hi) as [[-> ->] _]. lia.
  - intros k create i. unfold LoadOrStore. destruct (components w !! k) as [j|] eqn:Ek.
    + intros [= ->]. left. split; [done|]. by apply H3.
    + destruct create as [e|]; [done|]. intros [= <-]. right. split_and!; [done|done|]. intros j c Hj Hk.
      destruct (stopOnce c) eqn:Eo, (stopping c) eqn:Es; try done;
        (rewrite (proj2 (H3 k j)) in Ek; [done|]; exists c; split_and!; [done|done|]; unfold live; rewrite Eo, Es; auto).
Qed.

(** A source that joins a shared component is told up to five of the last events at once and
    every later one, in order; the reporter of the first Start is told all. *)
Theorem shared_sources_are_informed l (w : world K) i c h s :
  run l empty_map = Some w -> instances w !! i = Some c -> wrapper c = Some h -> (s < length (sources h))%nat ->
  exists n, (n <= length (remembered i (trace w)))%nat /\ (s = 0%nat -> n = 0%nat) /\
    told i s (trace w) = drop (n - 5) (remembered i (trace w)).
Proof.
  intros Hr Hi Hh Hs. apply run_ok in Hr as [H1 _ _]; [|apply empty_ok].
  destruct (H1 _ _ Hi) as [_ _ _ Hc]. unfold informed in Hc. rewrite Hh in Hc. destruct Hc as [_ [_ _ _ Ht _]].
  by apply Ht.
Qed.
End world.

(** ** Witnesses *)

Definition test_event (n : Z) : Event := NewEvent n StatusOK.

(** Two receivers of one configuration: the second joins after seven events. *)
Definition test_ops : list (op (K := nat)) :=
  [OLoadOrStore 7%nat None; OLoadOrStore 7%nat None; OStart 0 1 true; OStartReturns 0 2 None] ++
  map (fun n => OReport 0 (test_event n)) [1; 2; 3; 4; 5; 6] ++
  [OStart 0 3 true; OReport 0 (test_event 7); OShutdown 0 8; OShutdownReturns 0 9 None; OLoadOrStore 7%nat None].

Definition test_world : world nat := default empty_map (run test_ops empty_map).

Definition test_wrapper : hostWrapper :=
  match instances test_world !! 0%nat with
  | Some {| wrapper := Some h |} => h
  | _ => {| sources := []; previousEvents := [] |}
  end.

Lemma shared_component_runs_once_witness :
  run test_ops empty_map = Some test_world /\
  (forall i, 0 <= occ (Started i) (trace test_world) <= 1 /\ 0 <= occ (Stopped i) (trace test_world) <= 1) /\
  components test_world !! 7%nat = Some 1%nat.
Proof.
  assert (E : run test_ops empty_map = Some test_world) by (vm_compute; reflexivity).
  split; [exact E|]. split; [exact (proj1 (shared_component_runs_once test_ops test_world E))|vm_compute; reflexivity].
Defined.

Lemma shared_sources_are_informed_witness :
  map timestamp (told 0 1 (trace test_world)) = [2; 3; 4; 5; 6; 7; 8; 9] /\
  exists n, told 0 1 (trace test_world) = drop (n - 5) (remembered 0 (trace test_world)).
Proof.
  split; [vm_compute; reflexivity|].
  destruct (shared_sources_are_informed test_ops test_world 0
    {| key := 7%nat; startOnce := true; starting := false; stopOnce := true; stopping := false; wrapper := Some test_wrapper |}
    test_wrapper 1) as (n & _ & _ & Ht).
  - vm_compute. reflexivity.
  - vm_compute. reflexivity.
  - reflexivity.
  - vm_compute. lia.
  - by exists n.
Defined.
