(* ===== verification/OtlpErrors.v ===== *)
(** * OtlpErrors: what becomes of an error between two collectors

    Models receiver/otlpreceiver/internal/errors/errors.go, the response side of
    receiver/otlpreceiver/otlphttp.go, internal/statusutil/helper.go, the error handling of
    exporter/otlpexporter/otlp.go and exporter/otlphttpexporter/otlp.go, and
    consumer/consumererror/error.go.  The gRPC status package is an interface.  Codes of
    statuses and of HTTP are numbers; a duration is in nanoseconds. *)

From Stdlib Require Import Ascii.
From S2P Require Import Prelude GoErrors.

(** ** google.golang.org/grpc/codes and net/http *)

Definition codes_OK : Z := 0.
Definition codes_Canceled : Z := 1.
Definition codes_Unknown : Z := 2.
Definition codes_InvalidArgument : Z := 3.
Definition codes_DeadlineExceeded : Z := 4.
Definition codes_PermissionDenied : Z := 7.
Definition codes_ResourceExhausted : Z := 8.
Definition codes_Aborted : Z := 10.
Definition codes_OutOfRange : Z := 11.
Definition codes_Unimplemented : Z := 12.
Definition codes_Internal : Z := 13.
Definition codes_Unavailable : Z := 14.
Definition codes_DataLoss : Z := 15.
Definition codes_Unauthenticated : Z := 16.

Definition StatusBadRequest : Z := 400.
Definition StatusUnauthorized : Z := 401.
Definition StatusForbidden : Z := 403.
Definition StatusNotFound : Z := 404.
Definition StatusMethodNotAllowed : Z := 405.
Definition StatusUnsupportedMediaType : Z := 415.
Definition StatusTooManyRequests : Z := 429.
Definition StatusInternalServerError : Z := 500.
Definition StatusBadGateway : Z := 502.
Definition StatusServiceUnavailable : Z := 503.
Definition StatusGatewayTimeout : Z := 504.

(** ** google.golang.org/grpc/status *)

(** The details a status can carry: a RetryInfo with its delay, or something else. *)
Inductive detail :=
| RetryInfo (delay : Z)
| OtherDetail.

Record Status := mkStatus { Code : Z; Message : string; Details : list detail }.

#[export] Instance detail_eq_dec : EqDecision detail.
Proof. solve_decision. Defined.
#[export] Instance Status_eq_dec : EqDecision Status.
Proof. solve_decision. Defined.

Definition status_New (c : Z) (msg : string) : Status := mkStatus c msg [].

Class Grpc := {
  (** the status an error carries or wraps, with the text of the error *)
  FromError : error -> option Status;
  (** the error of a status whose code is not OK *)
  status_error : Status -> error;
  (** err.Error() *)
  error_text : error -> string;
}.

(** Wrapping an error changes the text of its status only; the error of a status is neither
    permanent nor a throttle. *)
Class GrpcLaws `{Grpc} := {
  FromError_status : forall s, Code s <> codes_OK -> FromError (status_error s) = Some s;
  FromError_permanent : forall e,
    (fun s => (Code s, Details s)) <$> FromError (permanent e) = (fun s => (Code s, Details s)) <$> FromError e;
  FromError_throttle : forall e d,
    (fun s => (Code s, Details s)) <$> FromError (throttleRetry e d) = (fun s => (Code s, Details s)) <$> FromError e;
  status_error_not_permanent : forall s, IsPermanent (Some (status_error s)) = false;
  status_error_not_throttle : forall s, AsThrottleRetry (status_error s) = None;
}.

(** ** internal/statusutil *)

Definition NewStatusFromMsgAndHTTPCode (errMsg : string) (statusCode : Z) : Status :=
  let c :=
    if decide (statusCode = StatusBadRequest) then codes_InvalidArgument
    else if decide (statusCode = StatusUnauthorized) then codes_Unauthenticated
    else if decide (statusCode = StatusForbidden) then codes_PermissionDenied
    else if decide (statusCode = StatusNotFound) then codes_Unimplemented
    else if decide (statusCode = StatusTooManyRequests) then codes_ResourceExhausted
    else if decide (statusCode ∈ [StatusBadGateway; StatusServiceUnavailable; StatusGatewayTimeout]) then codes_Unavailable
    else codes_Unknown in
  status_New c errMsg.

Fixpoint firstRetryInfo (l : list detail) : option Z :=
  match l with
  | [] => None
  | RetryInfo d :: _ => Some d
  | OtherDetail :: l => firstRetryInfo l
  end.

Definition GetRetryInfo (s : Status) : option Z := firstRetryInfo (Details s).

(** ** receiver/otlpreceiver/internal/errors *)

Definition retryable_codes : list Z :=
  [codes_Canceled; codes_DeadlineExceeded; codes_Aborted; codes_OutOfRange; codes_Unavailable; codes_DataLoss].

Definition GetHTTPStatusCodeFromStatus (s : Status) : Z :=
  let c := Code s in
  if decide (c ∈ retryable_codes) then StatusServiceUnavailable
  else if decide (c = codes_ResourceExhausted) then StatusTooManyRequests
  else if decide (c = codes_InvalidArgument) then StatusBadRequest
  else if decide (c = codes_Unauthenticated) then StatusUnauthorized
  else if decide (c = codes_PermissionDenied) then StatusForbidden
  else if decide (c = codes_Unimplemented) then StatusNotFound
  else StatusInternalServerError.

Section errors.
Context `{Grpc}.

(** Status.Err: nil for the code OK. *)
Definition status_Err (s : Status) : option error :=
  if decide (Code s = codes_OK) then None else Some (status_error s).

Definition GetStatusFromError (err : error) : option error :=
  let s :=
    match FromError err with
    | Some s => s
    | None =>
        let code := if IsPermanent (Some err) then codes_Internal else codes_Unavailable in
        status_New code (error_text err)
    end in
  status_Err s.

(** Receiver.Export, given the number of items and what the next consumer returns. *)
Definition Export (numItems : Z) (consumed : option error) : option error :=
  if decide (numItems = 0) then None
  else match consumed with Some err => GetStatusFromError err | None => None end.

(** ** The response of receiver/otlpreceiver/otlphttp.go *)

(** The body is a status, a response of the export, or text. *)
Inductive body :=
| StatusBody (s : Status)
| ExportBody
| TextBody.

Record response := {
  StatusCode : Z;
  (** the header Retry-After, in seconds *)
  RetryAfter : option Z;
  Body : body;
}.

(** marshals: whether enc.marshalStatus succeeds. *)
Definition writeStatusResponse (marshals : bool) (statusCode : Z) (st : Status) : response :=
  let header :=
    if decide (statusCode = StatusTooManyRequests \/ statusCode = StatusServiceUnavailable) then
      (fun delay => Z.quot delay (10 ^ 9)) <$> GetRetryInfo st
    else None in
  if marshals then {| StatusCode := statusCode; RetryAfter := header; Body := StatusBody st |}
  else {| StatusCode := StatusInternalServerError; RetryAfter := header; Body := TextBody |}.

Definition writeError (marshals : bool) (err : error) (statusCode : Z) : response :=
  match FromError err with
  | Some s => writeStatusResponse marshals (GetHTTPStatusCodeFromStatus s) s
  | None => writeStatusResponse marshals statusCode (NewStatusFromMsgAndHTTPCode (error_text err) statusCode)
  end.

(** errorHandler answers for the server; the media type of the request is empty, known or not. *)
Definition errorHandler (marshals : bool) (contentType : option bool) (errMsg : string) (statusCode : Z) : response :=
  let s := NewStatusFromMsgAndHTTPCode errMsg statusCode in
  if default true contentType then writeStatusResponse marshals statusCode s
  else {| StatusCode := StatusInternalServerError; RetryAfter := None; Body := TextBody |}.

(** What arrives: the method, whether the media type is known, the errors of reading and of
    closing the body and of unmarshalling it, the number of its items. *)
Record request := {
  isPost : bool;
  knownContentType : bool;
  readErr : option error;
  closeErr : option error;
  unmarshalErr : option error;
  items : Z;
}.

(** handleTraces; the handlers of the other signals have the same code.  [marshalErr] is the
    error of marshalling the response. *)
Definition handleTraces (marshals : bool) (consumed marshalErr : option error) (req : request) : response :=
  if negb (isPost req) then {| StatusCode := StatusMethodNotAllowed; RetryAfter := None; Body := TextBody |}
  else if negb (knownContentType req) then
    {| StatusCode := StatusUnsupportedMediaType; RetryAfter := None; Body := TextBody |}
  else
    match readErr req, closeErr req, unmarshalErr req with
    | Some err, _, _ | None, Some err, _ | None, None, Some err => writeError marshals err StatusBadRequest
    | None, None, None =>
        match Export (items req) consumed with
        | Some err => writeError marshals err StatusInternalServerError
        | None =>
            match marshalErr with
            | Some err => writeError marshals err StatusInternalServerError
            | None => {| StatusCode := 200; RetryAfter := None; Body := ExportBody |}
            end
        end
    end.

(** ** exporter/otlpexporter/otlp.go *)

Definition shouldRetry (code : Z) (retryInfo : option Z) : bool :=
  if decide (code ∈ retryable_codes) then true
  else if decide (code = codes_ResourceExhausted) then bool_decide (is_Some retryInfo)
  else false.

(** status.Convert *)
Definition Convert (err : error) : Status :=
  match FromError err with Some s => s | None => status_New codes_Unknown (error_text err) end.

Definition processError (err : option error) : option error :=
  match err with
  | None => None
  | Some err =>
      let st := Convert err in
      if decide (Code st = codes_OK) then None
      else
        let retryInfo := GetRetryInfo st in
        if negb (shouldRetry (Code st) retryInfo) then Some (NewPermanent err)
        else
          let throttleDuration := default 0 retryInfo in
          if decide (throttleDuration <> 0) then Some (NewThrottleRetry err throttleDuration) else Some err
  end.

(** ** exporter/otlphttpexporter/otlp.go *)

Definition isRetryableStatusCode (code : Z) : bool :=
  bool_decide (code ∈ [StatusTooManyRequests; StatusBadGateway; StatusServiceUnavailable; StatusGatewayTimeout]).

(** A header Retry-After as the exporter reads it: a number of seconds, a date so far from
    now, or something else. *)
Inductive retryAfter :=
| DelaySeconds (n : Z)
| HTTPDate (until : Z)
| Unreadable.

(** The part of export after the request was made: the status code, the first value of the
    header, the text of the error and what the handler of a partial success returns. *)
Definition export_response (code : Z) (header : option retryAfter) (errString : string) (partial : option error) :
    option error :=
  if (200 <=? code) && (code <=? 299) then partial
  else
    let formattedErr := status_Err (NewStatusFromMsgAndHTTPCode errString code) in
    match formattedErr with
    | None => None
    | Some formattedErr =>
        if negb (isRetryableStatusCode code) then Some (NewPermanent formattedErr)
        else if decide (code = StatusTooManyRequests \/ code = StatusServiceUnavailable) then
          match header with
          | None | Some Unreadable => Some formattedErr
          | Some (DelaySeconds seconds) => Some (NewThrottleRetry formattedErr (i64 (seconds * 10 ^ 9)))
          | Some (HTTPDate until) => Some (NewThrottleRetry formattedErr until)
          end
        else Some formattedErr
    end.

(** export, with the errors of making the request and of sending it. *)
Definition export (newRequest : option error) (knownEncoding : bool) (do : error + Z * option retryAfter)
    (errString : string) (partial : option error) : option error :=
  match newRequest with
  | Some err => Some (NewPermanent err)
  | None =>
      if negb knownEncoding then Some (ErrNew "invalid encoding")
      else
        match do with
        | inl err => Some (ErrWrap "failed to make an HTTP request" err)
        | inr (code, header) => export_response code header errString partial
        end
  end.

(** ** consumer/consumererror/error.go *)

Record Error := {
  inner : option error;
  httpStatus : Z;
  grpcStatus : option Status;
  isRetryable : bool;
}.

(** The constructors; [None] is a panic. *)
Definition NewOTLPHTTPError (origErr : option error) (httpStatus : Z) : option Error :=
  if (200 <=? httpStatus) && (httpStatus <=? 299) then None
  else
    Some {| inner := origErr; httpStatus := httpStatus; grpcStatus := None;
            isRetryable := bool_decide (httpStatus ∈ [StatusTooManyRequests; StatusBadGateway; StatusServiceUnavailable; StatusGatewayTimeout]) |}.

Definition NewOTLPGRPCError (origErr : option error) (status : option Status) : option Error :=
  match status with
  | None => Some {| inner := origErr; httpStatus := 0; grpcStatus := None; isRetryable := false |}
  | Some st =>
      if decide (Code st = codes_OK) then None
      else
        Some {| inner := origErr; httpStatus := 0; grpcStatus := Some st;
                isRetryable := bool_decide (Code st ∈ retryable_codes) |}
  end.

Definition NewRetryableError (origErr : option error) : Error :=
  {| inner := origErr; httpStatus := 0; grpcStatus := None; isRetryable := true |}.

Definition Error_Error (e : Error) : string :=
  match inner e, grpcStatus e with
  | Some err, _ => error_text err
  | None, Some st => match status_Err st with Some err => error_text err | None => "" end
  | None, None => if 0 <? httpStatus e then "network error: received HTTP status " +:+ pretty (httpStatus e)
                  else "uninitialized consumererror.Error"
  end.

Definition Error_Unwrap (e : Error) : option error :=
  match inner e, grpcStatus e with
  | Some err, _ => Some err
  | None, Some st => status_Err st
  | None, None => None
  end.

(** The functions are given what errors.As finds in the error. *)
Definition ToHTTPStatus (as_ : option Error) : Z :=
  match as_ with
  | Some e =>
      if decide (httpStatus e <> 0) then httpStatus e
      else
        match grpcStatus e with
        | Some st => GetHTTPStatusCodeFromStatus st
        | None => if isRetryable e then StatusServiceUnavailable else StatusInternalServerError
        end
  | None => StatusInternalServerError
  end.

(** [None] is the panic of Error on a nil *Error. *)
Definition ToGRPCStatus (as_ : option Error) (err : error) : option Status :=
  let rest :=
    match FromError err with
    | Some st => Some st
    | None => match as_ with Some e => Some (status_New codes_Unknown (Error_Error e)) | None => None end
    end in
  match as_ with
  | Some e =>
      match grpcStatus e with
      | Some st => Some st
      | None =>
          if decide (httpStatus e <> 0) then Some (NewStatusFromMsgAndHTTPCode (Error_Error e) (httpStatus e))
          else if isRetryable e then Some (status_New codes_Unavailable (Error_Error e))
          else rest
      end
  | None => rest
  end.

(** ** From a consumer to the exporter of the collector before it *)

(** The error of a consumer crosses gRPC: the client of Export has the error of the status. *)
Definition grpc_hop (err : error) : option error := processError (Export 1 (Some err)).

(** It crosses HTTP; the server's Retry-After is a number of seconds. *)
Definition http_hop (err : error) : option error :=
  let req := {| isPost := true; knownContentType := true; readErr := None; closeErr := None; unmarshalErr := None; items := 1 |} in
  let resp := handleTraces true (Some err) None req in
  export None true (inr (StatusCode resp, DelaySeconds <$> RetryAfter resp)) "error exporting items" None.
End errors.

(** ** The classifications agree *)

Lemma http_code_known s :
  let h := GetHTTPStatusCodeFromStatus s in
  h = StatusServiceUnavailable \/ h = StatusTooManyRequests \/ h = StatusBadRequest \/ h = StatusUnauthorized \/
  h = StatusForbidden \/ h = StatusNotFound \/ h = StatusInternalServerError.
Proof. unfold GetHTTPStatusCodeFromStatus. repeat case_decide; tauto. Qed.

Lemma http_code_fails s :
  (200 <=? GetHTTPStatusCodeFromStatus s) && (GetHTTPStatusCodeFromStatus s <=? 299) = false.
Proof. unfold GetHTTPStatusCodeFromStatus. by repeat case_decide. Qed.

Lemma http_code_retryable s d :
  isRetryableStatusCode (GetHTTPStatusCodeFromStatus s) = shouldRetry (Code s) (Some d).
Proof.
  unfold GetHTTPStatusCodeFromStatus, shouldRetry. destruct (decide (Code s ∈ retryable_codes)); [done|].
  destruct (decide (Code s = codes_ResourceExhausted)); [done|]. by repeat case_decide.
Qed.

(** A code of HTTP and the status made of it are retryable alike. *)
Lemma status_retryable msg h d : shouldRetry (Code (NewStatusFromMsgAndHTTPCode msg h)) (Some d) = isRetryableStatusCode h.
Proof.
  unfold NewStatusFromMsgAndHTTPCode, isRetryableStatusCode, StatusTooManyRequests, StatusBadGateway,
    StatusServiceUnavailable, StatusGatewayTimeout.
  destruct (decide (h = 400)) as [->|]; [done|]. destruct (decide (h = StatusUnauthorized)) as [->|]; [done|].
  destruct (decide (h = StatusForbidden)) as [->|]; [done|]. destruct (decide (h = StatusNotFound)) as [->|]; [done|].
  cbn [Code status_New].
  destruct (decide (h = StatusBadRequest)) as [->|]; [done|].
  destruct (decide (h = 429)) as [->|]; [done|].
  destruct (decide (h ∈ _)) as [Hin|Hn]; cbn.
  - symmetry. apply bool_decide_eq_true. set_solver.
  - symmetry. apply bool_decide_eq_false. intros Hin. set_solver.
Qed.

Lemma http_code_stable msg s :
  GetHTTPStatusCodeFromStatus (NewStatusFromMsgAndHTTPCode msg (GetHTTPStatusCodeFromStatus s)) = GetHTTPStatusCodeFromStatus s.
Proof.
  generalize (GetHTTPStatusCodeFromStatus s), (http_code_known s). intros h Hh.
  by repeat destruct Hh as [->|Hh]; [..|subst].
Qed.

(** The receiver, both exporters and consumererror agree which codes are retryable, up to
    ResourceExhausted, which gRPC retries only with a RetryInfo and HTTP always; and an HTTP
    code survives the way through a status. *)
Theorem classifications_agree :
  (forall c, shouldRetry c None = bool_decide (c ∈ retryable_codes)) /\
  (forall c d, shouldRetry c (Some d) = shouldRetry c None || bool_decide (c = codes_ResourceExhausted)) /\
  (forall s d, isRetryableStatusCode (GetHTTPStatusCodeFromStatus s) = shouldRetry (Code s) (Some d)) /\
  (forall msg h d, shouldRetry (Code (NewStatusFromMsgAndHTTPCode msg h)) (Some d) = isRetryableStatusCode h) /\
  (forall msg s, GetHTTPStatusCodeFromStatus (NewStatusFromMsgAndHTTPCode msg (GetHTTPStatusCodeFromStatus s)) =
     GetHTTPStatusCodeFromStatus s) /\
  (forall e h err, NewOTLPHTTPError e h = Some err -> isRetryable err = isRetryableStatusCode h) /\
  (forall e s err, NewOTLPGRPCError e (Some s) = Some err -> isRetryable err = shouldRetry (Code s) None).
Proof.
  assert (forall c, shouldRetry c None = bool_decide (c ∈ retryable_codes)) as Hn.
  { intros c. unfold shouldRetry. destruct (decide (c ∈ retryable_codes)).
    - by rewrite bool_decide_eq_true_2.
    - rewrite (bool_decide_eq_false_2 (c ∈ retryable_codes)) by done. by case_decide. }
  split; [exact Hn|]. split.
  { intros c d. rewrite Hn. unfold shouldRetry. destruct (decide (c ∈ retryable_codes)).
    - by rewrite bool_decide_eq_true_2.
    - rewrite (bool_decide_eq_false_2 (c ∈ _)) by done. case_decide; [by rewrite (bool_decide_eq_true_2 (c = codes_ResourceExhausted))|by rewrite (bool_decide_eq_false_2 (c = codes_ResourceExhausted))]. }
  split; [apply http_code_retryable|]. split; [apply status_retryable|]. split; [apply http_code_stable|]. split.
  - intros e h err. unfold NewOTLPHTTPError. destruct (_ && _); [done|]. by intros [= <-].
  - intros e s err. unfold NewOTLPGRPCError. case_decide; [done|]. intros [= <-]. by rewrite Hn.
Qed.

(** ** Hops *)

Section hops.
Context `{GrpcLaws}.

(** The status a receiver gives an error. *)
Definition status_of (e : error) : Status :=
  match FromError e with
  | Some s => s
  | None => status_New (if IsPermanent (Some e) then codes_Internal else codes_Unavailable) (error_text e)
  end.

(** An error carries the code and the details of a status. *)
Definition carries (e : error) (c : Z) (l : list detail) : Prop :=
  (fun s => (Code s, Details s)) <$> FromError e = Some (c, l).

Lemma carries_status s : Code s <> codes_OK -> carries (status_error s) (Code s) (Details s).
Proof. intros Hc. unfold carries. by rewrite FromError_status. Qed.

Lemma carries_permanent e c l : carries (NewPermanent e) c l <-> carries e c l.
Proof. unfold carries, NewPermanent. by rewrite FromError_permanent. Qed.

Lemma carries_throttle e d c l : carries (NewThrottleRetry e d) c l <-> carries e c l.
Proof. unfold carries, NewThrottleRetry. by rewrite FromError_throttle. Qed.

Lemma throttle_not_permanent s d : IsPermanent (Some (NewThrottleRetry (status_error s) d)) = false.
Proof. exact (status_error_not_permanent s). Qed.

Lemma grpc_hop_ok e : Code (status_of e) = codes_OK -> grpc_hop e = None.
Proof.
  intros Hc. unfold grpc_hop, Export, GetStatusFromError. fold (status_of e). cbn [decide].
  rewrite decide_False by done. unfold status_Err. by rewrite decide_True.
Qed.

Lemma grpc_hop_error e :
  let s := status_of e in
  Code s <> codes_OK ->
  exists e', grpc_hop e = Some e' /\ carries e' (Code s) (Details s) /\
    IsPermanent (Some e') = negb (shouldRetry (Code s) (GetRetryInfo s)) /\
    AsThrottleRetry e' =
      if shouldRetry (Code s) (GetRetryInfo s) && bool_decide (default 0 (GetRetryInfo s) <> 0)
      then GetRetryInfo s else None.
Proof.
  intros s Hc. unfold grpc_hop, Export, GetStatusFromError. fold (status_of e). fold s.
  rewrite decide_False by done. unfold status_Err. rewrite decide_False by done.
  unfold processError, Convert. rewrite FromError_status by done. rewrite decide_False by done.
  pose proof (carries_status s Hc) as Hs.
  destruct (shouldRetry (Code s) (GetRetryInfo s)); cbn [negb andb].
  - destruct (decide (default 0 (GetRetryInfo s) <> 0)) as [Hd|Hd].
    + eexists. split; [done|]. rewrite carries_throttle, bool_decide_eq_true_2 by done. split_and!; [done|apply throttle_not_permanent|].
      cbn. by destruct (GetRetryInfo s).
    + eexists. split; [done|]. rewrite bool_decide_eq_false_2 by done.
      split_and!; [done|apply status_error_not_permanent|apply status_error_not_throttle].
  - eexists. split; [done|]. rewrite carries_permanent. split_and!; [done|done|]. apply status_error_not_throttle.
Qed.

Lemma http_hop_ok e : Code (status_of e) = codes_OK -> http_hop e = None.
Proof.
  intros Hc. unfold http_hop, handleTraces, Export, GetStatusFromError. fold (status_of e).
  cbn [isPost knownContentType readErr closeErr unmarshalErr items negb].
  rewrite decide_False by done. unfold status_Err. by rewrite decide_True.
Qed.

Lemma http_hop_error e :
  let s := status_of e in
  let h := GetHTTPStatusCodeFromStatus s in
  Code s <> codes_OK ->
  exists e', http_hop e = Some e' /\ carries e' (Code (NewStatusFromMsgAndHTTPCode "" h)) [] /\
    IsPermanent (Some e') = negb (isRetryableStatusCode h) /\
    AsThrottleRetry e' =
      if isRetryableStatusCode h then (fun d => i64 (Z.quot d (10 ^ 9) * 10 ^ 9)) <$> GetRetryInfo s else None.
Proof.
  intros s h Hc. unfold http_hop, handleTraces, Export, GetStatusFromError. fold (status_of e). fold s.
  cbn [isPost knownContentType readErr closeErr unmarshalErr items negb].
  rewrite decide_False by done. unfold status_Err. rewrite decide_False by done.
  unfold writeError. rewrite FromError_status by done. fold h. unfold writeStatusResponse.
  cbn [StatusCode RetryAfter export negb]. unfold export_response. rewrite (http_code_fails s : (200 <=? h) && (h <=? 299) = false).
  pose proof (http_code_known s) as Hh. cbn zeta in Hh. fold h in Hh. clearbody h.
  assert (forall msg, Code (NewStatusFromMsgAndHTTPCode msg h) = Code (NewStatusFromMsgAndHTTPCode "" h)) as Hm by done.
  pose proof (fun Hk => carries_status (NewStatusFromMsgAndHTTPCode "error exporting items" h) Hk) as Hcar.
  pose proof (status_error_not_permanent (NewStatusFromMsgAndHTTPCode "error exporting items" h)) as Hnp.
  pose proof (status_error_not_throttle (NewStatusFromMsgAndHTTPCode "error exporting items" h)) as Hnt.
  assert (Code (NewStatusFromMsgAndHTTPCode "error exporting items" h) <> codes_OK) as Hk.
  { repeat destruct Hh as [->|Hh]; [done..|by subst]. }
  specialize (Hcar Hk). unfold status_Err. rewrite decide_False by done.
  destruct (isRetryableStatusCode h) eqn:Er; cbn [negb].
  - assert (h = StatusTooManyRequests \/ h = StatusServiceUnavailable) as Ht.
    { repeat destruct Hh as [->|Hh]; auto; try done. by subst. }
    rewrite !decide_True by tauto. destruct (GetRetryInfo s) as [d|]; cbn [fmap option_fmap option_map].
    + eexists. split; [done|]. rewrite carries_throttle. split_and!; [exact Hcar|apply throttle_not_permanent|done].
    + eexists. split; [done|]. split_and!; [exact Hcar|done|done].
  - eexists. split; [done|]. rewrite carries_permanent. split_and!; [exact Hcar|done|exact Hnt].
Qed.

(** ** Chains of collectors *)

Inductive transport := OverGRPC | OverHTTP.

Definition hop (t : transport) (e : error) : option error :=
  match t with OverGRPC => grpc_hop e | OverHTTP => http_hop e end.

(** Each collector passes on the error of its exporter. *)
Fixpoint hops (ts : list transport) (e : error) : option error :=
  match ts with
  | [] => Some e
  | t :: ts => match hop t e with Some e => hops ts e | None => None end
  end.

(** The codes with one meaning everywhere. *)
Definition plain_code (c : Z) : Prop := c <> codes_OK /\ c <> codes_ResourceExhausted.

Definition unretryable (c : Z) : bool := negb (bool_decide (c ∈ retryable_codes)).

Lemma shouldRetry_plain c d : plain_code c -> shouldRetry c d = bool_decide (c ∈ retryable_codes).
Proof.
  intros [_ Hc]. unfold shouldRetry. destruct (decide (c ∈ retryable_codes)).
  - by rewrite bool_decide_eq_true_2.
  - by rewrite decide_False, bool_decide_eq_false_2 by done.
Qed.

Lemma carries_status_of e c l : carries e c l -> Code (status_of e) = c.
Proof. unfold carries, status_of. destruct (FromError e) as [s|]; [|done]. by intros [= -> _]. Qed.

Lemma hop_plain t e :
  plain_code (Code (status_of e)) ->
  exists e', hop t e = Some e' /\ plain_code (Code (status_of e')) /\
    IsPermanent (Some e') = unretryable (Code (status_of e)) /\
    unretryable (Code (status_of e')) = unretryable (Code (status_of e)).
Proof.
  intros Hp. unfold unretryable. destruct t; cbn [hop].
  - destruct (grpc_hop_error e (proj1 Hp)) as (e' & E & Hc & Hi & _). apply carries_status_of in Hc.
    exists e'. rewrite Hc, Hi, shouldRetry_plain by done. by split_and!.
  - destruct (http_hop_error e (proj1 Hp)) as (e' & E & Hc & Hi & _). apply carries_status_of in Hc.
    assert (plain_code (Code (status_of e'))) as Hp'.
    { rewrite Hc. pose proof (http_code_known (status_of e)) as Hh. cbn zeta in Hh. destruct Hp as [_ Hre].
      assert (GetHTTPStatusCodeFromStatus (status_of e) <> StatusTooManyRequests) as Hn.
      { unfold GetHTTPStatusCodeFromStatus. by repeat case_decide. }
      destruct Hh as [->|[?|Hh]]; [by split|done|]. by repeat destruct Hh as [->|Hh]; [..|rewrite Hh]; split. }
    exists e'. split_and!; [done|done| |].
    + by rewrite Hi, (http_code_retryable _ 0), shouldRetry_plain.
    + rewrite <- !(shouldRetry_plain _ (Some 0)) by done. by rewrite Hc, status_retryable, http_code_retryable with (d := 0).
Qed.


(** A request that a server throttles is retried with its delay over one hop of either kind,
    but the RetryInfo does not survive HTTP: over HTTP and then gRPC the error is permanent. *)
Theorem throttling_is_lost_after_http e s d :
  FromError e = Some s -> Code s = codes_ResourceExhausted -> GetRetryInfo s = Some d -> d <> 0 ->
  (exists e1, grpc_hop e = Some e1 /\ IsPermanent (Some e1) = false /\ AsThrottleRetry e1 = Some d) /\
  (exists e2, http_hop e = Some e2 /\ IsPermanent (Some e2) = false /\
     AsThrottleRetry e2 = Some (i64 (Z.quot d (10 ^ 9) * 10 ^ 9))) /\
  (exists e3, hops [OverHTTP; OverGRPC] e = Some e3 /\ IsPermanent (Some e3) = true).
Proof.
  intros He Hc Hd Hz. assert (status_of e = s) as Es by (unfold status_of; by rewrite He).
  assert (Code (status_of e) <> codes_OK) as Hk by by rewrite Es, Hc.
  assert (GetHTTPStatusCodeFromStatus s = StatusTooManyRequests) as Eh.
  { unfold GetHTTPStatusCodeFromStatus. by rewrite Hc. }
  pose proof (grpc_hop_error e Hk) as Hg. pose proof (http_hop_error e Hk) as Hh. cbn zeta in *. rewrite Es, Eh, Hc, Hd in *.
  destruct Hg as (e1 & E1 & _ & Hp1 & Ht1), Hh as (e2 & E2 & C2 & Hp2 & Ht2).
  split; [|split].
  - exists e1. split_and!; [done|done|]. rewrite Ht1. cbn. by rewrite bool_decide_eq_true_2.
  - by exists e2.
  - cbn [hops hop]. rewrite E2. apply carries_status_of in C2 as Hs2.
    destruct (grpc_hop_error e2) as (e3 & -> & _ & Hp3 & _); [by rewrite Hs2|]. exists e3. split; [done|].
    rewrite Hp3, Hs2. unfold carries in C2. unfold GetRetryInfo, status_of.
    destruct (FromError e2) as [s2|]; [|done]. cbn in C2. injection C2 as _ ->. done.
Qed.

(** ToGRPCStatus panics on an error that is neither an Error nor carries a status. *)
Theorem ToGRPCStatus_panics as_ e : ToGRPCStatus as_ e = None <-> as_ = None /\ FromError e = None.
Proof.
  unfold ToGRPCStatus. destruct as_ as [x|].
  - split; [|by intros []]. destruct (grpcStatus x); [done|]. case_decide; [done|]. destruct (isRetryable x); [done|].
    by destruct (FromError e).
  - destruct (FromError e); naive_solver.
Qed.
End hops.

(** ** An instance

    The error of a status is a chain of wrapped texts, which wrapping an error further does
    not hide. *)

Module Texts.
Fixpoint of_pos (p : positive) : string :=
  match p with xH => "" | xO p => String "0"%char (of_pos p) | xI p => String "1"%char (of_pos p) end.

Fixpoint to_pos (s : string) : positive :=
  match s with
  | EmptyString => xH
  | String c s => if decide (c = "0"%char) then xO (to_pos s) else xI (to_pos s)
  end.

Definition of_Z (z : Z) : string :=
  match z with Z0 => "" | Zpos p => String "+"%char (of_pos p) | Zneg p => String "-"%char (of_pos p) end.

Definition to_Z (s : string) : Z :=
  match s with
  | EmptyString => 0
  | String c s => if decide (c = "+"%char) then Zpos (to_pos s) else Zneg (to_pos s)
  end.

Lemma to_of_Z z : to_Z (of_Z z) = z.
Proof. assert (forall p, to_pos (of_pos p) = p) as Hp by (induction p; simpl; congruence). destruct z; simpl; by rewrite ?Hp. Qed.

Fixpoint of_details (l : list detail) : error :=
  match l with
  | [] => ErrNew ""
  | RetryInfo d :: l => ErrWrap (String "R"%char (of_Z d)) (of_details l)
  | OtherDetail :: l => ErrWrap "" (of_details l)
  end.

Fixpoint to_details (e : error) : list detail :=
  match e with
  | ErrWrap (String _ s) e => RetryInfo (to_Z s) :: to_details e
  | ErrWrap EmptyString e => OtherDetail :: to_details e
  | _ => []
  end.

Lemma to_of_details l : to_details (of_details l) = l.
Proof. induction l as [|[d|] l IH]; simpl; [done|by rewrite to_of_Z, IH|by rewrite IH]. Qed.

Definition status_error (s : Status) : error :=
  ErrWrap "rpc error" (ErrWrap (of_Z (Code s)) (ErrWrap (Message s) (of_details (Details s)))).

Fixpoint FromError (e : error) : option Status :=
  match e with
  | ErrWrap t e' =>
      match decide (t = "rpc error"), e' with
      | left _, ErrWrap c (ErrWrap m d) => Some (mkStatus (to_Z c) m (to_details d))
      | _, _ => FromError e'
      end
  | permanent e | shutdownErr e | throttleRetry e _ | downstreamError e => FromError e
  | joined e1 e2 => match FromError e1 with Some s => Some s | None => FromError e2 end
  | ErrNew _ => None
  end.
End Texts.

#[export] Instance texts : Grpc := {|
  FromError := Texts.FromError; status_error := Texts.status_error; error_text _ := "error" |}.

#[export] Instance texts_laws : GrpcLaws.
Proof.
  assert (forall l {A} (p : error -> option A), (forall t, p (ErrNew t) = None) -> (forall t e, p (ErrWrap t e) = None) ->
    errors_As p (Texts.of_details l) = None) as Hd.
  { intros l A p H1 H2. induction l as [|[d|] l IH]; simpl; by rewrite ?H1, ?H2. }
  split; try done.
  - intros s _. cbn. by rewrite Texts.to_of_Z, Texts.to_of_details; destruct s.
  - intros s. cbn. by rewrite Hd.
  - intros s. cbn. by rewrite Hd.
Qed.

(** ** Witnesses *)


(** A server that asks for two and a half seconds. *)
Definition test_throttled : error := Texts.status_error (mkStatus codes_ResourceExhausted "slow down" [OtherDetail; RetryInfo 2500000000]).

Lemma throttling_is_lost_after_http_witness :
  (exists e, http_hop test_throttled = Some e /\ AsThrottleRetry e = Some 2000000000) /\
  (exists e, hops [OverHTTP; OverGRPC] test_throttled = Some e /\ IsPermanent (Some e) = true).
Proof.
  destruct (throttling_is_lost_after_http test_throttled
    (mkStatus codes_ResourceExhausted "slow down" [OtherDetail; RetryInfo 2500000000]) 2500000000)
    as (_ & (e2 & E2 & _ & Ht) & He3).
  - vm_compute. reflexivity.
  - reflexivity.
  - reflexivity.
  - lia.
  - split; [exists e2; split; [exact E2|exact Ht]|exact He3].
Defined.
