(* ===== verification/Factories.v ===== *)
(** * Factories: component factories and the builders that ask them

    Models internal/componentalias/alias.go, the factories of receiver, processor, exporter
    and connector with their experimental variants (xreceiver, xprocessor, xexporter,
    xconnector), extension/extension.go, MakeFactoryMap of otelcol/factories.go,
    otelcol/internal/configunmarshaler/configs.go and service/internal/builders.

    The factories of a kind have one method for each thing they can make: a receiver, a
    processor or an exporter of a signal, or a connector between two signals.  What they can
    make is a slot, and the methods that differ in their signals only are one function of the
    slot.  Warnings and what a factory logs are left out. *)

From stdpp Require Import functions.
From S2P Require Import Prelude.
From S2P Require Import GoErrors.
From S2P Require Import Ids.
From S2P Require Import Graph.

#[export] Instance Type_countable : Countable Type_.
Proof. refine (inj_countable' type_name mkType _). by intros []. Defined.

Definition ErrSignalNotSupported : error := ErrNew "telemetry type is not supported".

(** ** Slots *)

(** What the factories of a kind can make: which of it the plain factory makes, and the
    error of a factory that does not make it. *)
Class Slots (S : Type) := {
  slot_dec :: EqDecision S;
  core : S -> bool;
  notSupported : ID -> S -> error;
}.

Definition is_core (s : Signal) : bool := match s with SignalProfiles => false | _ => true end.

#[export] Instance signal_slots : Slots Signal := {| core := is_core; notSupported _ _ := ErrSignalNotSupported |}.

(** internal.ErrDataTypes of the connectors, and errDataTypes of their builder. *)
Definition ErrDataTypes (id : ID) (from to : Signal) : error :=
  ErrWrap ("connector " +:+ ID_String id +:+ " cannot connect from " +:+ Signal_String from +:+ " to " +:+ Signal_String to)
    ErrSignalNotSupported.

#[export] Instance connector_slots : Slots (Signal * Signal) :=
  {| core s := is_core s.1 && is_core s.2; notSupported id s := ErrDataTypes id s.1 s.2 |}.

(** ** The factories of a kind *)

(** S: what they make; N: what a component is given (its next consumer, or nothing); C: a
    configuration; M: the component that is made. *)
Section factories.
Context {S N C M : Type} `{Slots S}.

(** CreateTracesFunc and its like. *)
Abbreviation createFn := (ID -> C -> N -> M + error).

(** The structure behind receiver.Factory and its like; the methods of a slot that is not
    core do not exist, so its entries are not used. *)
Record factory := mkFactory {
  cfgType : Type_;
  CreateDefaultConfig : C;
  (** the alias of its TypeAliasHolder; the zero type is none *)
  alias : Type_;
  createFunc : S -> option createFn;
  stabilityLevel : S -> Z;
}.

Definition zeroType : Type_ := mkType "".

(** WithTraces and its like; a nil function can be given. *)
Record FactoryOption := With { opt_slot : S; opt_create : option createFn; opt_level : Z }.

Definition applyOption (o : FactoryOption) (f : factory) : factory :=
  mkFactory (cfgType f) (CreateDefaultConfig f) (alias f)
    (<[opt_slot o := opt_create o]> (createFunc f)) (<[opt_slot o := opt_level o]> (stabilityLevel f)).

Definition NewFactory (cfgType : Type_) (createDefaultConfig : C) (options : list FactoryOption) : factory :=
  foldl (fun f o => applyOption o f)
    (mkFactory cfgType createDefaultConfig zeroType (fun _ => None) (fun _ => StabilityLevelUndefined)) options.

Definition SetDeprecatedAlias (t : Type_) (f : factory) : factory :=
  mkFactory (cfgType f) (CreateDefaultConfig f) t (createFunc f) (stabilityLevel f).

(** The factories of the experimental packages: a plain factory and the other slots. *)
Record xfactory := mkXFactory {
  x_Factory : factory;
  x_alias : Type_;
  x_createFunc : S -> option createFn;
  x_stabilityLevel : S -> Z;
}.

(** An option of the experimental package: one for the plain factory is kept for it, one for
    another slot is applied, or the alias is set. *)
Inductive XFactoryOption :=
| XWith (o : FactoryOption)
| WithDeprecatedTypeAlias (alias : Type_).

Definition x_opts (options : list XFactoryOption) : list FactoryOption :=
  omap (fun o => match o with XWith o => if core (opt_slot o) then Some o else None | _ => None end) options.

Definition applyXOption (f : xfactory) (o : XFactoryOption) : xfactory :=
  match o with
  | XWith o =>
      if core (opt_slot o) then f
      else mkXFactory (x_Factory f) (x_alias f) (<[opt_slot o := opt_create o]> (x_createFunc f))
             (<[opt_slot o := opt_level o]> (x_stabilityLevel f))
  | WithDeprecatedTypeAlias t => mkXFactory (x_Factory f) t (x_createFunc f) (x_stabilityLevel f)
  end.

Definition XNewFactory (cfgType : Type_) (createDefaultConfig : C) (options : list XFactoryOption) : xfactory :=
  let f := foldl applyXOption
    (mkXFactory (NewFactory cfgType createDefaultConfig []) zeroType (fun _ => None) (fun _ => StabilityLevelUndefined)) options in
  mkXFactory (SetDeprecatedAlias (x_alias f) (NewFactory cfgType createDefaultConfig (x_opts options)))
    (x_alias f) (x_createFunc f) (x_stabilityLevel f).

(** A factory as an interface; the assertion to the experimental interface holds for the
    second. *)
Inductive anyFactory :=
| Plain (f : factory)
| Experimental (f : xfactory).

(** The methods an experimental factory has from the plain one in it. *)
Definition plainOf (f : anyFactory) : factory :=
  match f with Plain f => f | Experimental f => x_Factory f end.

Definition factory_Type (f : anyFactory) : Type_ := cfgType (plainOf f).
Definition DeprecatedAlias (f : anyFactory) : Type_ :=
  match f with Plain f => alias f | Experimental f => x_alias f end.

(** *** internal/componentalias *)

Definition ValidateComponentType (f : factory) (id : ID) : option error :=
  if decide (typeVal id = cfgType f) then None
  else if decide (type_name (alias f) <> "" /\ typeVal id = alias f) then None
  else Some (ErrNew ("component type mismatch: component ID " +:+ ID_String id)).

(** *** Creating *)

(** CreateTraces and its like, of the plain factory. *)
Definition factory_Create (f : factory) (s : S) (id : ID) (cfg : C) (next : N) : M + error :=
  match createFunc f s with
  | None => inr (notSupported id s)
  | Some create =>
      match ValidateComponentType f id with
      | Some err => inr err
      | None => create id cfg next
      end
  end.

(** CreateProfiles and its like, of the experimental one. *)
Definition xfactory_Create (f : xfactory) (s : S) (id : ID) (cfg : C) (next : N) : M + error :=
  match x_createFunc f s with
  | None => inr (notSupported id s)
  | Some create =>
      match ValidateComponentType (x_Factory f) id with
      | Some err => inr err
      | None => create id cfg next
      end
  end.

(** ** MakeFactoryMap *)

Definition errDuplicateFactory (t : Type_) : error := ErrNew ("duplicate component factory " +:+ type_name t).
Definition errDuplicateAlias (t : Type_) : error := ErrNew ("duplicate component factory (alias) " +:+ type_name t).

Fixpoint addFactories (factories : list anyFactory) (fMap : gmap Type_ anyFactory) : gmap Type_ anyFactory * option error :=
  match factories with
  | [] => (fMap, None)
  | f :: factories =>
      if decide (is_Some (fMap !! factory_Type f)) then (fMap, Some (errDuplicateFactory (factory_Type f)))
      else
        let fMap := <[factory_Type f := f]> fMap in
        let alias := DeprecatedAlias f in
        if decide (type_name alias <> "") then
          if decide (is_Some (fMap !! alias)) then (fMap, Some (errDuplicateAlias alias))
          else addFactories factories (<[alias := f]> fMap)
        else addFactories factories fMap
  end.

Definition MakeFactoryMap (factories : list anyFactory) : gmap Type_ anyFactory * option error := addFactories factories ∅.

(** ** otelcol/internal/configunmarshaler *)

Section unmarshal.
(** K: a configuration map.  Decoding into structures, which is mapstructure's, is a
    parameter: the keys of a section, the part of an identifier, and a part laid over the
    default configuration. *)
Context {K : Type} (decodeKeys : K -> list ID + error) (Sub : K -> string -> K + error) (decode : K -> C -> C + error).

Definition errorUnknownType (id : ID) : error :=
  if decide (type_name (typeVal id) = "logging") then
    ErrNew "the logging exporter has been deprecated, use the debug exporter instead"
  else ErrNew ("unknown type for id " +:+ ID_String id).

Definition errorUnmarshalError (id : ID) (err : error) : error :=
  ErrWrap ("error reading configuration for " +:+ ID_String id) err.

(** The loop over the identifiers, in the order the map has them. *)
Fixpoint unmarshalEach (factories : gmap Type_ anyFactory) (conf : K) (ids : list ID) (cfgs : gmap ID C) : gmap ID C + error :=
  match ids with
  | [] => inl cfgs
  | id :: ids =>
      match factories !! typeVal id with
      | None => inr (errorUnknownType id)
      | Some f =>
          match Sub conf (ID_String id) with
          | inr err => inr (errorUnmarshalError id err)
          | inl sub =>
              match decode sub (CreateDefaultConfig (plainOf f)) with
              | inr err => inr (errorUnmarshalError id err)
              | inl cfg => unmarshalEach factories conf ids (<[id := cfg]> cfgs)
              end
          end
      end
  end.

Definition Configs_Unmarshal (factories : gmap Type_ anyFactory) (conf : K) : gmap ID C + error :=
  match decodeKeys conf with
  | inr err => inr err
  | inl ids => unmarshalEach factories conf ids ∅
  end.
End unmarshal.

(** ** service/internal/builders *)

Record builder := mkBuilder { cfgs : gmap ID C; builder_factories : gmap Type_ anyFactory }.

Definition errNilNextConsumer : error := ErrNew "nil next Consumer".
Definition errNotConfigured (kind : string) (id : ID) : error := ErrNew (kind +:+ " " +:+ ID_String id +:+ " is not configured").
Definition errNoFactory (kind : string) (id : ID) : error := ErrNew (kind +:+ " factory not available for: " +:+ ID_String id).

(** The part of the methods of a builder that the kinds share, after the check of the next
    consumer. *)
Definition createConfigured (kind : string) (b : builder) (s : S) (id : ID) (next : N) : M + error :=
  match cfgs b !! id with
  | None => inr (errNotConfigured kind id)
  | Some cfg =>
      match builder_factories b !! typeVal id with
      | None => inr (errNoFactory kind id)
      | Some f =>
          if core s then factory_Create (plainOf f) s id cfg next
          else
            match f with
            | Experimental f => xfactory_Create f s id cfg next
            | Plain _ => inr (notSupported id s)
            end
      end
  end.

(** The methods of the builders of receivers, processors and connectors; a next consumer can
    be nil. *)
Definition builder_Create (kind : string) (b : builder) (s : S) (id : ID) (next : option N) : M + error :=
  match next with
  | None => inr errNilNextConsumer
  | Some next => createConfigured kind b s id next
  end.

Definition ConnectorBuilder_IsConfigured (b : builder) (id : ID) : bool := bool_decide (is_Some (cfgs b !! id)).
End factories.

(** ** Extensions

    The factory of an extension has one function, which may not be nil; it is called with
    nothing but the configuration.  [None] is the panic of calling a nil function. *)
Section extensions.
Context {C M : Type}.

Definition extension_NewFactory (cfgType : Type_) (createDefaultConfig : C)
    (createServiceExtension : option (ID -> C -> unit -> M + error)) (sl : Z) : factory (S := unit) (N := unit) (C := C) (M := M) :=
  mkFactory cfgType createDefaultConfig zeroType (fun _ => createServiceExtension) (fun _ => sl).

Definition extension_Create (f : factory (S := unit)) (id : ID) (cfg : C) : option (M + error) :=
  match ValidateComponentType f id with
  | Some err => Some (inr err)
  | None => (fun create => create id cfg tt) <$> createFunc f tt
  end.

Definition ExtensionBuilder_Create (b : builder (S := unit)) (id : ID) : option (M + error) :=
  match cfgs b !! id with
  | None => Some (inr (errNotConfigured "extension" id))
  | Some cfg =>
      match builder_factories b !! typeVal id with
      | None => Some (inr (errNoFactory "extension" id))
      | Some f => extension_Create (plainOf f) id cfg
      end
  end.
End extensions.

Arguments factory : clear implicits.
Arguments xfactory : clear implicits.
Arguments anyFactory : clear implicits.
Arguments builder : clear implicits.

(** ** The kinds *)

Definition ReceiverBuilder_Create {N C M} := builder_Create (S := Signal) (N := N) (C := C) (M := M) "receiver".
Definition ProcessorBuilder_Create {N C M} := builder_Create (S := Signal) (N := N) (C := C) (M := M) "processor".
Definition ConnectorBuilder_Create {N C M} := builder_Create (S := Signal * Signal) (N := N) (C := C) (M := M) "connector".

(** An exporter has no next consumer. *)
Definition ExporterBuilder_Create {C M} (b : builder Signal unit C M) (s : Signal) (id : ID) : M + error :=
  createConfigured "exporter" b s id tt.

(** ** What the factories make *)

Section proofs.
Context {S N C M : Type} `{Slots S}.

(** The function of a slot: that of the plain factory, or that of the experimental one. *)
Definition maker (f : anyFactory S N C M) (s : S) : option (ID -> C -> N -> M + error) :=
  if core s then createFunc (plainOf f) s
  else match f with Experimental f => x_createFunc f s | Plain _ => None end.

(** The last of the options for a slot. *)
Definition last_given (s : S) (r : option (ID -> C -> N -> M + error)) (os : list FactoryOption) :
    option (ID -> C -> N -> M + error) :=
  foldl (fun r o => if decide (opt_slot o = s) then opt_create o else r) r os.
Abbreviation given s os := (last_given s None os).

Lemma applyOptions_createFunc os (f : factory S N C M) s :
  createFunc (foldl (fun f o => applyOption o f) f os) s = last_given s (createFunc f s) os.
Proof.
  revert f. induction os as [|o os IH]; intros f; [done|]. simpl. by rewrite IH.
Qed.

Lemma applyOptions_fixed os (f : factory S N C M) :
  let f' := foldl (fun f o => applyOption o f) f os in
  cfgType f' = cfgType f /\ alias f' = alias f /\ CreateDefaultConfig f' = CreateDefaultConfig f.
Proof. revert f. induction os as [|o os IH]; intros f; [done|]. exact (IH (applyOption o f)). Qed.

(** The options for slots, and the last alias, of the experimental options. *)
Definition x_slots (options : list XFactoryOption) : list (FactoryOption (S := S) (N := N) (C := C) (M := M)) :=
  omap (fun o => match o with XWith o => Some o | _ => None end) options.

Definition last_alias (options : list (XFactoryOption (S := S) (N := N) (C := C) (M := M))) : Type_ :=
  foldl (fun t o => match o with WithDeprecatedTypeAlias t => t | _ => t end) zeroType options.

Lemma x_opts_given os s r : core s = true -> last_given s r (x_opts os) = last_given s r (x_slots os).
Proof.
  intros Hs. revert r. induction os as [|[o|t] os IH]; intros r; [done| |apply IH].
  unfold x_opts, x_slots. simpl. destruct (core (opt_slot o)) eqn:Ho; [apply IH|]. simpl.
  rewrite decide_False by congruence. apply IH.
Qed.

Lemma x_options_createFunc os (f : xfactory S N C M) s : core s = false ->
  x_createFunc (foldl applyXOption f os) s = last_given s (x_createFunc f s) (x_slots os).
Proof.
  intros Hs. revert f. induction os as [|[o|t] os IH]; intros f; [done| |exact (IH (applyXOption f (WithDeprecatedTypeAlias t)))]. simpl. rewrite IH.
  unfold applyXOption, x_slots, last_given at 2. simpl. destruct (core (opt_slot o)) eqn:Ho; simpl; [|done].
  f_equal. by rewrite decide_False by congruence.
Qed.

Lemma x_options_alias os (f : xfactory S N C M) :
  x_alias (foldl applyXOption f os) = foldl (fun t o => match o with WithDeprecatedTypeAlias t => t | _ => t end) (x_alias f) os.
Proof.
  revert f. induction os as [|[o|t] os IH]; intros f; [done| |exact (IH (applyXOption f (WithDeprecatedTypeAlias t)))]. simpl. rewrite IH.
  unfold applyXOption. by destruct (core (opt_slot o)).
Qed.

(** How the factories of the packages are made. *)
Inductive made : anyFactory S N C M -> Prop :=
| made_plain t c os : made (Plain (NewFactory t c os))
| made_experimental t c os : made (Experimental (XNewFactory t c os)).

Lemma made_alias f : made f -> DeprecatedAlias f = alias (plainOf f).
Proof. by destruct 1. Qed.

Lemma NewFactory_facts t (c : C) os s :
  let f : anyFactory S N C M := Plain (NewFactory t c os) in
  factory_Type f = t /\ DeprecatedAlias f = zeroType /\ CreateDefaultConfig (plainOf f) = c /\
  maker f s = if core s then given s os else None.
Proof.
  destruct (applyOptions_fixed os (mkFactory t c zeroType (fun _ => None) (fun _ => StabilityLevelUndefined))) as (E1 & E2 & E3).
  split_and!; [exact E1|exact E2|exact E3|]. unfold maker. destruct (core s); [|done]. apply applyOptions_createFunc.
Qed.

Lemma XNewFactory_facts t (c : C) os s :
  let f : anyFactory S N C M := Experimental (XNewFactory t c os) in
  factory_Type f = t /\ DeprecatedAlias f = last_alias os /\ CreateDefaultConfig (plainOf f) = c /\
  maker f s = given s (x_slots os).
Proof.
  destruct (NewFactory_facts t c (x_opts os) s) as (E1 & _ & E3 & _).
  split_and!; [exact E1| |exact E3|].
  - simpl. by rewrite x_options_alias.
  - unfold maker. destruct (core s) eqn:Hs.
    + simpl. rewrite <- x_opts_given by done. apply applyOptions_createFunc.
    + simpl. by rewrite x_options_createFunc.
Qed.

(** *** Factory maps *)

(** The types a factory is registered under. *)
Definition type_names (f : anyFactory S N C M) : list Type_ :=
  factory_Type f :: if decide (type_name (DeprecatedAlias f) <> "") then [DeprecatedAlias f] else [].

Definition registrations (fs : list (anyFactory S N C M)) : list (Type_ * anyFactory S N C M) :=
  fs ≫= fun f => (fun t => (t, f)) <$> type_names f.

(** Adding entries whose keys are new. *)
Fixpoint insertNew (l : list (Type_ * anyFactory S N C M)) (m : gmap Type_ (anyFactory S N C M)) :
    option (gmap Type_ (anyFactory S N C M)) :=
  match l with
  | [] => Some m
  | (t, f) :: l => if decide (is_Some (m !! t)) then None else insertNew l (<[t := f]> m)
  end.

Lemma addFactories_insertNew fs m :
  insertNew (registrations fs) m = match addFactories fs m with (m', None) => Some m' | _ => None end.
Proof.
  revert m. induction fs as [|f fs IH]; intros m; [done|].
  unfold registrations, type_names. cbn [mbind list_bind addFactories]. fold (registrations fs).
  cbn [fmap list_fmap app insertNew]. destruct (decide (is_Some (m !! factory_Type f))); [done|].
  destruct (decide (type_name (DeprecatedAlias f) <> "")); cbn [fmap list_fmap app insertNew]; [|apply IH].
  destruct (decide (is_Some (_ !! DeprecatedAlias f))); [done|apply IH].
Qed.

Definition all_new (l : list (Type_ * anyFactory S N C M)) (m : gmap Type_ (anyFactory S N C M)) : Prop :=
  NoDup l.*1 /\ forall t, t ∈ l.*1 -> m !! t = None.

Lemma all_new_cons t f l m : all_new ((t, f) :: l) m <-> m !! t = None /\ all_new l (<[t := f]> m).
Proof.
  unfold all_new. rewrite fmap_cons, NoDup_cons. setoid_rewrite elem_of_cons. simpl. split.
  - intros [[Hn Hl] Hm]. split_and!; [by apply Hm; left|done|]. intros t' Ht'.
    rewrite lookup_insert_ne by congruence. apply Hm. by right.
  - intros [Ht [Hl Hm]]. split_and!; [|done|].
    + intros Hin. apply Hm in Hin. by rewrite lookup_insert_eq in Hin.
    + intros t' [->|Hin]; [done|]. apply Hm in Hin. by apply lookup_insert_None in Hin as [? _].
Qed.

Lemma insertNew_spec l m :
  match insertNew l m with
  | Some m' => all_new l m /\ forall t f, m' !! t = Some f <-> m !! t = Some f \/ (t, f) ∈ l
  | None => ~ all_new l m
  end.
Proof.
  revert m. induction l as [|[t f] l IH]; intros m.
  { simpl. split; [split; [constructor|by intros ? ?%elem_of_nil]|]. intros t f. rewrite elem_of_nil. tauto. }
  cbn [insertNew]. destruct (decide (is_Some (m !! t))) as [Hs|Hs%eq_None_not_Some].
  { rewrite all_new_cons. intros [E _]. rewrite E in Hs. by destruct Hs. }
  specialize (IH (<[t := f]> m)). destruct (insertNew l (<[t := f]> m)) as [m'|].
  - destruct IH as [Hn Hm']. split; [by apply all_new_cons|]. intros t' f'. rewrite Hm', elem_of_cons.
    rewrite lookup_insert_Some. naive_solver.
  - rewrite all_new_cons. tauto.
Qed.

Lemma registrations_types fs : (registrations fs).*1 = fs ≫= type_names.
Proof.
  induction fs as [|f fs IH]; [done|].
  change ((((fun t => (t, f)) <$> type_names f) ++ registrations fs).*1 = type_names f ++ (fs ≫= type_names)).
  rewrite fmap_app, IH. f_equal. rewrite <- list_fmap_compose. apply list_fmap_id.
Qed.

Lemma elem_of_registrations fs t f : (t, f) ∈ registrations fs <-> f ∈ fs /\ t ∈ type_names f.
Proof.
  unfold registrations. rewrite list_elem_of_bind. split.
  - intros (f' & (t' & E & Ht)%list_elem_of_fmap & Hf). by simplify_eq.
  - intros [Hf Ht]. exists f. split; [|done]. apply list_elem_of_fmap. by exists t.
Qed.

Lemma MakeFactoryMap_spec fs :
  ((MakeFactoryMap fs).2 = None <-> NoDup (fs ≫= type_names)) /\
  ((MakeFactoryMap fs).2 = None -> forall t f, (MakeFactoryMap fs).1 !! t = Some f <-> f ∈ fs /\ t ∈ type_names f).
Proof.
  unfold MakeFactoryMap. pose proof (insertNew_spec (registrations fs) ∅) as Hs. rewrite addFactories_insertNew in Hs.
  unfold all_new in Hs. rewrite registrations_types in Hs. destruct (addFactories fs ∅) as [m [e|]]; simpl.
  - split; [|done]. split; [done|]. intros Hn. exfalso. apply Hs. split; [done|]. intros. apply lookup_empty.
  - destruct Hs as [[Hn _] Hm]. split; [done|]. intros _ t f. rewrite Hm, elem_of_registrations.
    rewrite lookup_empty. naive_solver.
Qed.

Lemma type_names_valid f id : made f -> typeVal id ∈ type_names f -> ValidateComponentType (plainOf f) id = None.
Proof.
  intros Hf. unfold type_names, ValidateComponentType. rewrite (made_alias f Hf). fold (factory_Type f).
  destruct (decide (typeVal id = factory_Type f)); [done|]. rewrite elem_of_cons.
  intros [?|Hin]; [done|]. destruct (decide (type_name _ <> "")) as [Ha|]; [|by apply elem_of_nil in Hin].
  apply list_elem_of_singleton in Hin. by rewrite decide_True.
Qed.

(** ** Builders *)

(** The configurations of a kind, unmarshalled with a map of factories, all from the
    packages. *)
Record configured (b : builder S N C M) : Prop := {
  factories_made : exists fs, MakeFactoryMap fs = (builder_factories b, None) /\ Forall made fs;
  types_known : forall id, is_Some (cfgs b !! id) -> is_Some (builder_factories b !! typeVal id);
}.

Lemma configured_factory b id f : configured b -> builder_factories b !! typeVal id = Some f ->
  made f /\ ValidateComponentType (plainOf f) id = None.
Proof.
  intros [(fs & E & Hfs) _] Ef. destruct (MakeFactoryMap_spec fs) as [_ Hm]. rewrite E in Hm.
  apply Hm in Ef as [Hin Ht]; [|done]. rewrite Forall_forall in Hfs. specialize (Hfs f Hin).
  split; [done|]. by apply type_names_valid.
Qed.

Lemma createConfigured_maker kind b s id n cfg f :
  cfgs b !! id = Some cfg -> builder_factories b !! typeVal id = Some f -> ValidateComponentType (plainOf f) id = None ->
  createConfigured kind b s id n =
    match maker f s with Some create => create id cfg n | None => inr (notSupported id s) end.
Proof.
  intros Ec Ef Hv. unfold createConfigured, maker. rewrite Ec, Ef. destruct (core s).
  - unfold factory_Create. by rewrite Hv.
  - destruct f as [f|f]; [done|]. unfold xfactory_Create. simpl in Hv. by rewrite Hv.
Qed.

(** A builder calls the function that the factory was given for the slot, with the
    configuration of the component; it fails otherwise only if the factory has none. *)
Lemma createConfigured_ok kind b s id n : configured b -> is_Some (cfgs b !! id) ->
  exists cfg f, cfgs b !! id = Some cfg /\ builder_factories b !! typeVal id = Some f /\ made f /\
    createConfigured kind b s id n =
      match maker f s with Some create => create id cfg n | None => inr (notSupported id s) end.
Proof.
  intros Hb [cfg Ec]. destruct (types_known b Hb id) as [f Ef]; [by eexists|]. exists cfg, f.
  destruct (configured_factory b id f Hb Ef) as [Hf Hv]. split_and!; [done..|].
  by apply createConfigured_maker.
Qed.

(** MakeFactoryMap succeeds exactly if all types and aliases differ.  A builder with the map
    then makes a component of every configured identifier with the function that was given,
    for the slot, to the factory of its type or alias; if that factory was given none, or no
    factory has the type, it fails. *)
Theorem factory_maps_are_exact (fs : list (anyFactory S N C M)) :
  ((MakeFactoryMap fs).2 = None <-> NoDup (fs ≫= type_names)) /\
  ((MakeFactoryMap fs).2 = None -> Forall made fs -> forall kind cs s id cfg n, cs !! id = Some cfg ->
    let b := mkBuilder cs (MakeFactoryMap fs).1 in
    (forall f, f ∈ fs -> typeVal id ∈ type_names f ->
       builder_Create kind b s id (Some n) =
         match maker f s with Some create => create id cfg n | None => inr (notSupported id s) end) /\
    ((forall f, f ∈ fs -> typeVal id ∉ type_names f) -> builder_Create kind b s id (Some n) = inr (errNoFactory kind id))).
Proof.
  destruct (MakeFactoryMap_spec fs) as [Hn Hm]. split; [exact Hn|]. intros E Hfs kind cs s id cfg n Ec b.
  specialize (Hm E). split.
  - intros f Hf Ht. assert (builder_factories b !! typeVal id = Some f) as Ef by by apply Hm.
    cbn [builder_Create]. rewrite Forall_forall in Hfs. pose proof (type_names_valid f id (Hfs f Hf) Ht) as Hv.
    by apply createConfigured_maker.
  - intros Hno. unfold builder_Create, createConfigured. cbn [cfgs b builder_factories]. rewrite Ec.
    destruct (_ !! typeVal id) as [f|] eqn:Ef; [|done]. apply Hm in Ef as [Hf Ht]. by destruct (Hno f Hf).
Qed.

(** ** Unmarshalling *)

Section unmarshal.
Context {K : Type} (decodeKeys : K -> list ID + error) (Sub : K -> string -> K + error) (decode : K -> C -> C + error).
Context (fs : gmap Type_ (anyFactory S N C M)) (conf : K).

(** The configuration of an identifier: its part over the default of its factory. *)
Definition decoded (id : ID) (cfg : C) : Prop :=
  exists f sub, fs !! typeVal id = Some f /\ Sub conf (ID_String id) = inl sub /\
    decode sub (CreateDefaultConfig (plainOf f)) = inl cfg.

(** Why a section cannot be read. *)
Definition unmarshal_error (id : ID) (e : error) : Prop :=
  (fs !! typeVal id = None /\ e = errorUnknownType id) \/
  exists f, fs !! typeVal id = Some f /\
    ((exists err, Sub conf (ID_String id) = inr err /\ e = errorUnmarshalError id err) \/
     exists sub err, Sub conf (ID_String id) = inl sub /\ decode sub (CreateDefaultConfig (plainOf f)) = inr err /\
       e = errorUnmarshalError id err).

Lemma unmarshalEach_spec ids m :
  (forall id cfg, m !! id = Some cfg -> decoded id cfg) ->
  match unmarshalEach Sub decode fs conf ids m with
  | inl m' => (forall id, is_Some (m' !! id) <-> is_Some (m !! id) \/ id ∈ ids) /\ forall id cfg, m' !! id = Some cfg -> decoded id cfg
  | inr e => exists id, id ∈ ids /\ unmarshal_error id e
  end.
Proof.
  revert m. induction ids as [|id ids IH]; intros m Hm.
  { simpl. split; [|done]. intros id. rewrite elem_of_nil. tauto. }
  cbn [unmarshalEach]. destruct (fs !! typeVal id) as [f|] eqn:Ef; [|exists id; split; [by left|by left]].
  destruct (Sub conf (ID_String id)) as [sub|err] eqn:Es.
  2: { exists id. split; [by left|]. right. exists f. split; [done|]. left. by exists err. }
  destruct (decode sub (CreateDefaultConfig (plainOf f))) as [cfg|err] eqn:Ed.
  2: { exists id. split; [by left|]. right. exists f. split; [done|]. right. by exists sub, err. }
  specialize (IH (<[id := cfg]> m)). destruct (unmarshalEach Sub decode fs conf ids (<[id := cfg]> m)) as [m'|e].
  - destruct IH as [Hdom Hdec].
    { intros id' cfg' [[-> ->]|[_ E]]%lookup_insert_Some; [by exists f, sub|by apply Hm]. }
    split; [|done]. intros id'. rewrite Hdom, lookup_insert_is_Some, elem_of_cons.
    destruct (decide (id = id')); naive_solver.
  - destruct IH as (id' & Hin & He); [|exists id'; split; [by right|done]].
    intros id' cfg' [[-> ->]|[_ E]]%lookup_insert_Some; [by exists f, sub|by apply Hm].
Qed.

(** A section is read to a configuration for every identifier of its keys, and no other; or
    the error is that of one of the keys, or of the keys themselves. *)
Lemma Configs_Unmarshal_spec :
  match Configs_Unmarshal decodeKeys Sub decode fs conf with
  | inl m => exists ids, decodeKeys conf = inl ids /\ (forall id, is_Some (m !! id) <-> id ∈ ids) /\
      forall id cfg, m !! id = Some cfg -> decoded id cfg
  | inr e => decodeKeys conf = inr e \/ exists ids id, decodeKeys conf = inl ids /\ id ∈ ids /\ unmarshal_error id e
  end.
Proof.
  unfold Configs_Unmarshal. destruct (decodeKeys conf) as [ids|e]; [|by left].
  pose proof (unmarshalEach_spec ids ∅) as Hs. destruct (unmarshalEach Sub decode fs conf ids ∅) as [m|e].
  - destruct Hs as [Hdom Hdec]; [by intros ? ?; rewrite lookup_empty|]. exists ids. split_and!; [done| |done].
    intros id. rewrite Hdom, lookup_empty. split; [|tauto]. by intros [[]|].
  - destruct Hs as (id & Hin & He); [by intros ? ?; rewrite lookup_empty|]. right. by exists ids, id.
Qed.
End unmarshal.

(** A builder whose configurations were unmarshalled with its factories, which are from the
    packages. *)
Definition unmarshalled (b : builder S N C M) : Prop :=
  exists (K : Type) (decodeKeys : K -> list ID + error) Sub decode (conf : K) fs,
    MakeFactoryMap fs = (builder_factories b, None) /\ Forall made fs /\
    Configs_Unmarshal decodeKeys Sub decode (builder_factories b) conf = inl (cfgs b).

Lemma unmarshalled_configured b : unmarshalled b -> configured b.
Proof.
  intros (K & dk & Sub & dec & conf & fs & E & Hfs & Eu). split; [by exists fs|]. intros id [c Hc].
  pose proof (Configs_Unmarshal_spec dk Sub dec (builder_factories b) conf) as Hs. rewrite Eu in Hs.
  destruct Hs as (ids & _ & _ & Hdec). destruct (Hdec id c Hc) as (f & _ & Ef & _). by exists f.
Qed.
End proofs.
