(* ===== verification/OtelConfig.v ===== *)
(** * OtelConfig: from a validated configuration to a graph

    Models otelcol/config.go, service/pipelines/config.go, the structures of service/config.go
    and what service.New makes of them: the builders of service/internal/builders as the
    settings of graph.Build, and the telemetry providers around it.

    A range over a map visits it in any order, which is an argument.  The structures are seen
    by confmap.Validate as values of ConfValidate.  A *PipelineConfig is never nil: the decoder
    makes an empty one of a null (expandNilStructPointersHookFunc). *)

From S2P Require Import Prelude.
From S2P Require Import GoErrors.
From S2P Require Import Ids.
From S2P Require Import Digraph.
From S2P Require Import Consumers.
From S2P Require Import ConfValidate.
From S2P Require Import Graph.
From S2P Require Import GraphNodes.
From S2P Require Import GraphEdges.
From S2P Require Import GraphOrder.
From S2P Require Import GraphBuild.
From S2P Require Import Lifecycle.
From S2P Require Import Factories.

(** ** service/pipelines *)

(** The gates service.AllowNoPipelines and service.profilesSupport. *)
Record Gates := mkGates { AllowNoPipelines : bool; ServiceProfilesSupport : bool }.

Definition errMissingServicePipelines : error := ErrNew "service must have at least one pipeline".
Definition errMissingServicePipelineReceivers : error := ErrNew "must have at least one receiver".
Definition errMissingServicePipelineExporters : error := ErrNew "must have at least one exporter".
Definition errProfilesGated (p : pipelineID) : error :=
  ErrNew ("pipeline " +:+ pipelineID_String p +:+ ": profiling signal support is at alpha level").
Definition errProcessorTwice (ref : ID) : error := ErrNew ("references processor " +:+ ID_String ref +:+ " multiple times").

(** A loop that returns the first error. *)
Fixpoint firstError {A} (f : A -> option error) (l : list A) : option error :=
  match l with
  | [] => None
  | a :: l => match f a with Some err => Some err | None => firstError f l end
  end.

Definition pipelines_Validate (g : Gates) (ps : list (pipelineID * PipelineConfig)) : option error :=
  if decide (AllowNoPipelines g = false /\ ps = []) then Some errMissingServicePipelines
  else if negb (ServiceProfilesSupport g) then
    firstError (fun pc => if decide (signal pc.1 = SignalProfiles) then Some (errProfilesGated pc.1) else None) ps
  else None.

Fixpoint checkProcessors (procSet : gset ID) (l : list ID) : option error :=
  match l with
  | [] => None
  | ref :: l => if decide (ref ∈ procSet) then Some (errProcessorTwice ref) else checkProcessors ({[ref]} ∪ procSet) l
  end.

Definition PipelineConfig_Validate (cfg : PipelineConfig) : option error :=
  match Receivers cfg, Exporters cfg with
  | [], _ => Some errMissingServicePipelineReceivers
  | _ :: _, [] => Some errMissingServicePipelineExporters
  | _ :: _, _ :: _ => checkProcessors ∅ (Processors cfg)
  end.

(** ** otelcol/config.go *)

Section config.
(** C: the configurations of components, component.Config, which can be a nil interface. *)
Context {C : Type}.
Abbreviation configs := (gmap ID (option C)).

Record ServiceConfig := mkServiceConfig {
  Telemetry : option C;
  service_Extensions : list ID;
  Pipelines : gmap pipelineID PipelineConfig;
}.

Record Config := mkConfig {
  cfg_Receivers : configs;
  cfg_Exporters : configs;
  cfg_Processors : configs;
  cfg_Connectors : configs;
  cfg_Extensions : configs;
  Service : ServiceConfig;
}.

Definition errMissingExporters : error := ErrNew "no exporter configuration specified in config".
Definition errMissingReceivers : error := ErrNew "no receiver configuration specified in config".
Definition errEmptyConfigurationFile : error := ErrNew "empty configuration file".
Definition errAmbiguous (kind : string) (id : ID) : error :=
  ErrNew ("connectors::" +:+ ID_String id +:+ ": ambiguous ID: Found both " +:+ kind +:+ " and connector").
Definition errReference (where_ kind : string) (id : ID) : error :=
  ErrNew ("service::" +:+ where_ +:+ ": references " +:+ kind +:+ " " +:+ ID_String id +:+ " which is not configured").

Definition has (m : configs) (id : ID) : bool := bool_decide (is_Some (m !! id)).

(** m[id] == nil *)
Definition isNil (m : configs) (id : ID) : bool :=
  match m !! id with Some (Some _) => false | _ => true end.

Definition checkConnector (cfg : Config) (connID : ID) : option error :=
  if has (cfg_Exporters cfg) connID then Some (errAmbiguous "exporter" connID)
  else if has (cfg_Receivers cfg) connID then Some (errAmbiguous "receiver" connID)
  else None.

Definition checkExtension (cfg : Config) (ref : ID) : option error :=
  if isNil (cfg_Extensions cfg) ref then Some (errReference "extensions" "extension" ref) else None.

Definition pipelineName (p : pipelineID) : string := "pipelines::" +:+ pipelineID_String p.

Definition checkReceiver (cfg : Config) (p : pipelineID) (ref : ID) : option error :=
  if has (cfg_Receivers cfg) ref then None
  else if has (cfg_Connectors cfg) ref then None
  else Some (errReference (pipelineName p) "receiver" ref).

Definition checkProcessor (cfg : Config) (p : pipelineID) (ref : ID) : option error :=
  if isNil (cfg_Processors cfg) ref then Some (errReference (pipelineName p) "processor" ref) else None.

Definition checkExporter (cfg : Config) (p : pipelineID) (ref : ID) : option error :=
  if has (cfg_Exporters cfg) ref then None
  else if has (cfg_Connectors cfg) ref then None
  else Some (errReference (pipelineName p) "exporter" ref).

Definition checkPipeline (cfg : Config) (pc : pipelineID * PipelineConfig) : option error :=
  let '(p, pipeline) := pc in
  match firstError (checkReceiver cfg p) (Receivers pipeline) with
  | Some err => Some err
  | None =>
      match firstError (checkProcessor cfg p) (Processors pipeline) with
      | Some err => Some err
      | None => firstError (checkExporter cfg p) (Exporters pipeline)
      end
  end.

(** Config.Validate; [conns] and [ps] are the connectors and the pipelines in the order of
    their loops. *)
Definition Config_Validate (g : Gates) (conns : list ID) (ps : list (pipelineID * PipelineConfig)) (cfg : Config) : option error :=
  if decide (cfg_Receivers cfg = ∅ /\ cfg_Exporters cfg = ∅ /\ cfg_Processors cfg = ∅ /\ cfg_Connectors cfg = ∅ /\
             cfg_Extensions cfg = ∅)
  then Some errEmptyConfigurationFile
  else if decide (AllowNoPipelines g = false /\ cfg_Receivers cfg = ∅) then Some errMissingReceivers
  else if decide (AllowNoPipelines g = false /\ cfg_Exporters cfg = ∅) then Some errMissingExporters
  else
    match firstError (checkConnector cfg) conns with
    | Some err => Some err
    | None =>
        match firstError (checkExtension cfg) (service_Extensions (Service cfg)) with
        | Some err => Some err
        | None => firstError (checkPipeline cfg) ps
        end
    end.

(** ** The structures as confmap.Validate sees them *)

(** What it sees of the configuration of a component. *)
Context (part : C -> rvalue).

Definition field (name tag : string) : StructField := {| Name := name; Tag := Some tag; IsExported := true |}.
(** A field that is not exported; its tag is not looked at. *)
Definition hidden (name : string) : StructField := {| Name := name; Tag := None; IsExported := false |}.

(** component.Type, component.ID and pipeline.ID have no exported fields. *)
Definition idValue : rvalue :=
  Struct None [(hidden "typeVal", Struct None [(hidden "name", Scalar None)]); (hidden "nameVal", Scalar None)].
Definition pipelineIDValue : rvalue :=
  Struct None [(hidden "signal", Struct None [(hidden "name", Scalar None)]); (hidden "name", Scalar None)].

(** An interface value. *)
Definition interfaceValue (c : option C) : rvalue :=
  Pointer (match c with Some c => part c | None => Invalid end).

Definition idsValue (l : list ID) : rvalue := Slice None ((fun _ => idValue) <$> l).

Definition PipelineConfig_value (cfg : PipelineConfig) : rvalue :=
  Pointer (Struct (Some (PipelineConfig_Validate cfg))
    [(field "Receivers" "receivers", idsValue (Receivers cfg)); (field "Processors" "processors", idsValue (Processors cfg));
     (field "Exporters" "exporters", idsValue (Exporters cfg))]).

(** A map of configurations, in an order of its own. *)
Definition configs_value (m : list (ID * option C)) : rvalue :=
  Map None ((fun x => (KeyStringer (ID_String x.1), idValue, interfaceValue x.2)) <$> m).

Definition pipelines_value (g : Gates) (ps : list (pipelineID * PipelineConfig)) : rvalue :=
  Map (Some (pipelines_Validate g ps))
    ((fun pc => (KeyStringer (pipelineID_String pc.1), pipelineIDValue, PipelineConfig_value pc.2)) <$> ps).

Definition Service_value (g : Gates) (ps : list (pipelineID * PipelineConfig)) (s : ServiceConfig) : rvalue :=
  Struct None
    [(field "Telemetry" "telemetry", interfaceValue (Telemetry s));
     (field "Extensions" "extensions,omitempty", idsValue (service_Extensions s));
     (field "Pipelines" "pipelines", pipelines_value g ps); (hidden "_", Struct None [])].

(** [ps'] is the order of the pipelines in the loops of pipelines.Config.Validate and of
    confmap.Validate. *)
Definition Config_value (g : Gates) (conns : list ID) (ps ps' : list (pipelineID * PipelineConfig)) (cfg : Config) : rvalue :=
  Pointer (Struct (Some (Config_Validate g conns ps cfg))
    [(field "Receivers" "receivers", configs_value (map_to_list (cfg_Receivers cfg)));
     (field "Exporters" "exporters", configs_value (map_to_list (cfg_Exporters cfg)));
     (field "Processors" "processors", configs_value (map_to_list (cfg_Processors cfg)));
     (field "Connectors" "connectors", configs_value (map_to_list (cfg_Connectors cfg)));
     (field "Extensions" "extensions", configs_value (map_to_list (cfg_Extensions cfg)));
     (field "Service" "service", Service_value g ps' (Service cfg)); (hidden "_", Struct None [])]).
End config.

Arguments Config : clear implicits.
Arguments ServiceConfig : clear implicits.

(** ** The builders of a service, and the settings of its graph *)

Section host.
Context {C : Type}.
Abbreviation Cfg := (option C).

(** The part of otelcol.Factories the builders need. *)
Record FactoryMaps := mkFactoryMaps {
  fm_Receivers : gmap Type_ (anyFactory Signal unit Cfg component);
  fm_Processors : gmap Type_ (anyFactory Signal unit Cfg component);
  fm_Exporters : gmap Type_ (anyFactory Signal unit Cfg component);
  fm_Connectors : gmap Type_ (anyFactory (Signal * Signal) unit Cfg component);
}.

(** graph.Host, as service.New makes it. *)
Record Host := mkHost {
  host_Receivers : builder Signal unit Cfg component;
  host_Processors : builder Signal unit Cfg component;
  host_Exporters : builder Signal unit Cfg component;
  host_Connectors : builder (Signal * Signal) unit Cfg component;
}.

Definition newHost (fm : FactoryMaps) (cfg : Config C) : Host :=
  mkHost (mkBuilder (cfg_Receivers cfg) (fm_Receivers fm)) (mkBuilder (cfg_Processors cfg) (fm_Processors fm))
    (mkBuilder (cfg_Exporters cfg) (fm_Exporters fm)) (mkBuilder (cfg_Connectors cfg) (fm_Connectors fm)).

(** The stabilities of a connector factory, as connectorStability of the graph asks for them. *)
Definition graphFactory (f : anyFactory (Signal * Signal) unit Cfg component) : Factory :=
  Graph.mkFactory (fun e r => stabilityLevel (plainOf f) (e, r))
    match f with Plain _ => None | Experimental f => Some (fun e r => x_stabilityLevel f (e, r)) end.

(** buildComponent of a node up to the component it makes: the error of its telemetry
    builder, or the method of the builder for its signals.  The graph always gives a next
    consumer.  A node that is no component is not asked. *)
Definition createComponent (tel : node -> option error) (h : Host) (n : node) : component + error :=
  match tel n with
  | Some err => inr err
  | None =>
      match n with
      | receiverNode s id => ReceiverBuilder_Create (host_Receivers h) s id (Some tt)
      | processorNode p id => ProcessorBuilder_Create (host_Processors h) (signal p) id (Some tt)
      | exporterNode s id => ExporterBuilder_Create (host_Exporters h) s id
      | connectorNode e r id => ConnectorBuilder_Create (host_Connectors h) (e, r) id (Some tt)
      | capabilitiesNode _ | fanOutNode _ => inr (ErrNew "not a component")
      end
  end.

(** The graph.Settings of initGraph. *)
Definition graphSettings (tel : node -> option error) (gate : bool) (h : Host) (ps : list (pipelineID * PipelineConfig)) : Settings := {|
  PipelineConfigs := ps;
  IsConfigured := ConnectorBuilder_IsConfigured (host_Connectors h);
  ConnectorFactory := fun t => graphFactory <$> builder_factories (host_Connectors h) !! t;
  Create := createComponent tel h;
  newPipelineTelemetry := gate;
|}.
End host.

(** ** service.New *)

Section new.
Context `{MultiErr} {G X : Type}.

Inductive new_event :=
| created (p : provider)
| shutDown (p : provider)
| builtGraph
| builtExtensions.

(** What the telemetry factory and the calls of New return. *)
Record new_env := mkNewEnv {
  telemetryFactory : bool;
  onResource : option error;
  onCreate : provider -> option error;
  onClose : provider -> option error;
  onGraph : result G;
  onExtensions : result X;
  onProcessMetrics : option error;
}.
Context (env : new_env).

(** The events, and the results of the function. *)
Definition outcome : Type := list new_event * (option (G * X) * option error).
Definition failed (err : error) : outcome := ([], (None, Some err)).
Definition emits (e : new_event) (s : outcome) : outcome := (e :: s.1, s.2).

(** The deferred function of a provider. *)
Definition deferShutdown (p : provider) (s : outcome) : outcome :=
  match s.2.2 with
  | Some resultErr => (s.1 ++ [shutDown p], (s.2.1, multierr_Append (Some resultErr) (onClose env p)))
  | None => s
  end.

Definition withProvider (p : provider) (msg : string) (rest : option outcome) : option outcome :=
  match onCreate env p with
  | Some err => Some (failed (ErrWrap msg err))
  | None => (fun s => deferShutdown p (emits (created p) s)) <$> rest
  end.

(** initGraph, initExtensions and registerProcessMetrics. *)
Definition initService : option outcome :=
  match onGraph env with
  | None => None
  | Some (inr err) => Some (failed (ErrWrap "failed to build pipelines: " err))
  | Some (inl g) =>
      emits builtGraph <$>
      match onExtensions env with
      | None => None
      | Some (inr err) => Some (failed (ErrWrap "failed to build extensions: " err))
      | Some (inl x) =>
          emits builtExtensions <$>
          match onProcessMetrics env with
          | Some err => Some (failed err)
          | None => Some ([], (Some (g, x), None))
          end
      end
  end.

Definition New : option outcome :=
  if negb (telemetryFactory env) then Some (failed (ErrNew "telemetry factory not provided"))
  else
    match onResource env with
    | Some err => Some (failed (ErrWrap "failed to create resource: " err))
    | None =>
        withProvider LoggerProvider "failed to create logger: "
          (withProvider MeterProvider "failed to create meter provider: "
             (withProvider TracerProvider "failed to create tracer provider: " initService))
    end.

(** *** What a failure leaves behind *)

Definition is_build (e : new_event) : Prop := e = builtGraph \/ e = builtExtensions.

(** The providers [ps] are created one after the other; a failure shuts them down in the
    opposite order, at the end; a success shuts none down. *)
Definition cleans_up (ps : list provider) (s : outcome) : Prop :=
  exists made built, made `prefix_of` ps /\ Forall is_build built /\
    match s.2 with
    | (Some _, None) => made = ps /\ s.1 = (created <$> made) ++ built
    | (None, Some _) => s.1 = (created <$> made) ++ built ++ (shutDown <$> reverse made)
    | _ => False
    end.

Lemma failed_cleans_up ps err : cleans_up ps (failed err).
Proof. exists [], []. split_and!; [apply prefix_nil|constructor|done]. Qed.

Lemma initService_cleans_up s : initService = Some s -> cleans_up [] s.
Proof.
  unfold initService. destruct (onGraph env) as [[g|err]|]; [|intros [= <-]; apply failed_cleans_up|done].
  destruct (onExtensions env) as [[x|err]|]; simpl; [|intros [= <-]|done].
  - destruct (onProcessMetrics env); simpl; intros [= <-]; exists [], [builtGraph; builtExtensions];
      (split_and!; [done|repeat constructor; by (left + right)|done..]).
  - exists [], [builtGraph]. split_and!; [done|repeat constructor; by left|done].
Qed.

Lemma withProvider_cleans_up `{!MultiErrLaws} p msg ps rest s :
  (forall s, rest = Some s -> cleans_up ps s) -> withProvider p msg rest = Some s -> cleans_up (p :: ps) s.
Proof.
  intros Hrest. unfold withProvider. destruct (onCreate env p); [intros [= <-]; apply failed_cleans_up|].
  intros (s' & -> & Es)%fmap_Some. destruct (Hrest s' eq_refl) as (m & b & Hm & Hb & Hs). subst s. exists (p :: m), b.
  split; [by apply prefix_cons|]. split; [done|]. destruct s' as [ev [[a|] [err|]]]; simpl in *; try done.
  - destruct Hs as [-> ->]. done.
  - destruct (multierr_Append (Some err) (onClose env p)) as [e|] eqn:E; [|by apply multierr_some in E as [? _]].
    cbn [snd fst]. rewrite Hs, reverse_cons, fmap_app. simpl. by rewrite <- !app_assoc.
Qed.

Lemma withProvider_made p msg rest s : withProvider p msg rest = Some s ->
  is_Some s.2.1 <-> onCreate env p = None /\ exists s', rest = Some s' /\ is_Some s'.2.1.
Proof.
  unfold withProvider. destruct (onCreate env p); [intros [= <-]; split; [by intros []|naive_solver]|].
  intros (s' & -> & ->)%fmap_Some. assert ((deferShutdown p (emits (created p) s')).2.1 = s'.2.1) as ->.
  { unfold deferShutdown. by destruct (emits (created p) s').2.2. }
  naive_solver.
Qed.

Lemma initService_made s : initService = Some s ->
  is_Some s.2.1 <-> (exists g, onGraph env = Some (inl g)) /\ (exists x, onExtensions env = Some (inl x)) /\ onProcessMetrics env = None.
Proof.
  unfold initService. destruct (onGraph env) as [[g|err]|]; [|intros [= <-]; split; [by intros []|naive_solver]|done].
  destruct (onExtensions env) as [[x|err]|]; simpl; [|intros [= <-]; split; [by intros []|naive_solver]|done].
  destruct (onProcessMetrics env); simpl; intros [= <-]; split; [by intros []|naive_solver|naive_solver|by eexists].
Qed.

Definition providers : list provider := [LoggerProvider; MeterProvider; TracerProvider].

(** New gives either a service with its three providers, none shut down, or an error; then
    every provider that was created was shut down once, after everything else and in the
    opposite order.  It gives a service exactly if nothing it calls fails. *)
Theorem New_cleans_up `{!MultiErrLaws} s : New = Some s ->
  cleans_up providers s /\
  (is_Some s.2.1 <-> telemetryFactory env = true /\ onResource env = None /\ (forall p, onCreate env p = None) /\
     (exists g, onGraph env = Some (inl g)) /\ (exists x, onExtensions env = Some (inl x)) /\ onProcessMetrics env = None).
Proof.
  unfold New. destruct (telemetryFactory env); simpl;
    [|intros [= <-]; split; [apply failed_cleans_up|split; [by intros []|naive_solver]]].
  destruct (onResource env); [intros [= <-]; split; [apply failed_cleans_up|split; [by intros []|naive_solver]]|].
  intros E. split.
  - revert E. do 3 (apply withProvider_cleans_up; intros ?). apply initService_cleans_up.
  - rewrite (withProvider_made _ _ _ _ E). split.
    + intros (H1 & s1 & E1 & (H2 & s2 & E2 & (H3 & s3 & E3 & Hi%(initService_made _ E3))%(withProvider_made _ _ _ _ E2))%(withProvider_made _ _ _ _ E1)).
      split_and!; try done; [by intros []|naive_solver..].
    + intros (_ & _ & Hp & Hg & Hx & Hm). split; [apply Hp|]. revert E. unfold withProvider at 1. rewrite Hp.
      intros (s1 & E1 & _)%fmap_Some. exists s1. split; [done|]. rewrite (withProvider_made _ _ _ _ E1). split; [apply Hp|].
      revert E1. unfold withProvider at 1. rewrite Hp. intros (s2 & E2 & _)%fmap_Some. exists s2. split; [done|].
      rewrite (withProvider_made _ _ _ _ E2). split; [apply Hp|]. revert E2. unfold withProvider. rewrite Hp.
      intros (s3 & E3 & _)%fmap_Some. exists s3. split; [done|]. by rewrite (initService_made _ E3).
Qed.
End new.

(** ** What validation accepts *)

Section validation.
Context {C : Type} (part : C -> rvalue).

Record valid_pipeline (cfg : Config C) (pc : PipelineConfig) : Prop := {
  vp_some_receiver : Receivers pc <> [];
  vp_some_exporter : Exporters pc <> [];
  vp_processors_once : NoDup (Processors pc);
  vp_receivers : forall id, id ∈ Receivers pc -> is_Some (cfg_Receivers cfg !! id) \/ is_Some (cfg_Connectors cfg !! id);
  vp_processors : forall id, id ∈ Processors pc -> exists c, cfg_Processors cfg !! id = Some (Some c);
  vp_exporters : forall id, id ∈ Exporters pc -> is_Some (cfg_Exporters cfg !! id) \/ is_Some (cfg_Connectors cfg !! id);
}.

Record valid_config (g : Gates) (cfg : Config C) : Prop := {
  vc_some : ~ (cfg_Receivers cfg = ∅ /\ cfg_Exporters cfg = ∅ /\ cfg_Processors cfg = ∅ /\ cfg_Connectors cfg = ∅ /\
               cfg_Extensions cfg = ∅);
  vc_receivers : AllowNoPipelines g = false -> cfg_Receivers cfg <> ∅;
  vc_exporters : AllowNoPipelines g = false -> cfg_Exporters cfg <> ∅;
  vc_unambiguous : forall id, is_Some (cfg_Connectors cfg !! id) -> cfg_Exporters cfg !! id = None /\ cfg_Receivers cfg !! id = None;
  vc_extensions : forall id, id ∈ service_Extensions (Service cfg) -> exists c, cfg_Extensions cfg !! id = Some (Some c);
  vc_pipelines : AllowNoPipelines g = false -> Pipelines (Service cfg) <> ∅;
  vc_profiles : ServiceProfilesSupport g = false -> forall p pc, Pipelines (Service cfg) !! p = Some pc -> signal p <> SignalProfiles;
  vc_pipeline : forall p pc, Pipelines (Service cfg) !! p = Some pc -> valid_pipeline cfg pc;
}.

(** The configurations of components and of the telemetry. *)
Definition is_part (cfg : Config C) (c : C) : Prop :=
  Telemetry (Service cfg) = Some c \/
  exists id, cfg_Receivers cfg !! id = Some (Some c) \/ cfg_Exporters cfg !! id = Some (Some c) \/
    cfg_Processors cfg !! id = Some (Some c) \/ cfg_Connectors cfg !! id = Some (Some c) \/ cfg_Extensions cfg !! id = Some (Some c).

Lemma firstError_None {A} (f : A -> option error) l : firstError f l = None <-> forall a, a ∈ l -> f a = None.
Proof.
  induction l as [|a l IH]; simpl; [split; [by intros _ ? ?%elem_of_nil|done]|].
  setoid_rewrite elem_of_cons. destruct (f a) eqn:E; [split; [done|]; intros Hf; rewrite <- E; apply Hf; by left|].
  rewrite IH. naive_solver.
Qed.

Lemma checkProcessors_None s l : checkProcessors s l = None <-> NoDup l /\ forall id, id ∈ l -> id ∉ s.
Proof.
  revert s. induction l as [|id l IH]; intros s; simpl; [split; [split; [constructor|by intros ? ?%elem_of_nil]|done]|].
  rewrite NoDup_cons. setoid_rewrite elem_of_cons. case_decide; [naive_solver|]. rewrite IH. set_solver.
Qed.

Lemma PipelineConfig_Validate_None pc :
  PipelineConfig_Validate pc = None <-> Receivers pc <> [] /\ Exporters pc <> [] /\ NoDup (Processors pc).
Proof.
  unfold PipelineConfig_Validate. destruct (Receivers pc), (Exporters pc); [naive_solver..|].
  rewrite checkProcessors_None. set_solver.
Qed.

Lemma has_true (m : gmap ID (option C)) id : has m id = true <-> is_Some (m !! id).
Proof. apply bool_decide_eq_true. Qed.

Lemma isNil_false (m : gmap ID (option C)) id : isNil m id = false <-> exists c, m !! id = Some (Some c).
Proof. unfold isNil. destruct (m !! id) as [[c|]|]; naive_solver. Qed.

Lemma checkConnector_None cfg id : checkConnector cfg id = None <-> cfg_Exporters (C := C) cfg !! id = None /\ cfg_Receivers cfg !! id = None.
Proof.
  unfold checkConnector. rewrite !eq_None_not_Some, <- !has_true.
  destruct (has _ _), (has _ _); naive_solver.
Qed.

Lemma checkPipeline_None cfg p pc : checkPipeline (C := C) cfg (p, pc) = None <->
  (forall id, id ∈ Receivers pc -> is_Some (cfg_Receivers cfg !! id) \/ is_Some (cfg_Connectors cfg !! id)) /\
  (forall id, id ∈ Processors pc -> exists c, cfg_Processors cfg !! id = Some (Some c)) /\
  (forall id, id ∈ Exporters pc -> is_Some (cfg_Exporters cfg !! id) \/ is_Some (cfg_Connectors cfg !! id)).
Proof.
  unfold checkPipeline.
  assert (firstError (checkReceiver cfg p) (Receivers pc) = None <->
    forall id, id ∈ Receivers pc -> is_Some (cfg_Receivers cfg !! id) \/ is_Some (cfg_Connectors cfg !! id)) as <-.
  { rewrite firstError_None. setoid_rewrite <- has_true. unfold checkReceiver.
    split; intros Hf id Hid; specialize (Hf id Hid); destruct (has _ _), (has _ _); naive_solver. }
  assert (firstError (checkProcessor cfg p) (Processors pc) = None <->
    forall id, id ∈ Processors pc -> exists c, cfg_Processors cfg !! id = Some (Some c)) as <-.
  { rewrite firstError_None. setoid_rewrite <- isNil_false. unfold checkProcessor.
    split; intros Hf id Hid; specialize (Hf id Hid); destruct (isNil _ _); naive_solver. }
  assert (firstError (checkExporter cfg p) (Exporters pc) = None <->
    forall id, id ∈ Exporters pc -> is_Some (cfg_Exporters cfg !! id) \/ is_Some (cfg_Connectors cfg !! id)) as <-.
  { rewrite firstError_None. setoid_rewrite <- has_true. unfold checkExporter.
    split; intros Hf id Hid; specialize (Hf id Hid); destruct (has _ _), (has _ _); naive_solver. }
  destruct (firstError _ (Receivers pc)), (firstError _ (Processors pc)); naive_solver.
Qed.

Lemma Config_Validate_None g conns ps cfg :
  conns ≡ₚ (map_to_list (cfg_Connectors cfg)).*1 -> ps ≡ₚ map_to_list (Pipelines (Service cfg)) ->
  Config_Validate g conns ps cfg = None <->
  ~ (cfg_Receivers cfg = ∅ /\ cfg_Exporters cfg = ∅ /\ cfg_Processors cfg = ∅ /\ cfg_Connectors cfg = ∅ /\ cfg_Extensions cfg = ∅) /\
  (AllowNoPipelines g = false -> cfg_Receivers cfg <> ∅) /\ (AllowNoPipelines g = false -> cfg_Exporters cfg <> ∅) /\
  (forall id, is_Some (cfg_Connectors cfg !! id) -> cfg_Exporters cfg !! id = None /\ cfg_Receivers cfg !! id = None) /\
  (forall id, id ∈ service_Extensions (Service cfg) -> exists c, cfg_Extensions (C := C) cfg !! id = Some (Some c)) /\
  forall p pc, Pipelines (Service cfg) !! p = Some pc -> checkPipeline cfg (p, pc) = None.
Proof.
  intros Hconns Hps. unfold Config_Validate.
  assert (firstError (checkConnector cfg) conns = None <->
    forall id, is_Some (cfg_Connectors cfg !! id) -> cfg_Exporters cfg !! id = None /\ cfg_Receivers cfg !! id = None) as <-.
  { rewrite firstError_None. setoid_rewrite checkConnector_None. setoid_rewrite Hconns. split; intros Hf id Hid; apply Hf.
    - destruct Hid as [c Hc]. apply list_elem_of_fmap. exists (id, c). split; [done|]. by apply elem_of_map_to_list.
    - apply list_elem_of_fmap in Hid as ([? c] & -> & Hc%elem_of_map_to_list). by eexists. }
  assert (firstError (checkExtension cfg) (service_Extensions (Service cfg)) = None <->
    forall id, id ∈ service_Extensions (Service cfg) -> exists c, cfg_Extensions cfg !! id = Some (Some c)) as <-.
  { rewrite firstError_None. setoid_rewrite <- isNil_false. unfold checkExtension.
    split; intros Hf id Hid; specialize (Hf id Hid); destruct (isNil _ _); naive_solver. }
  assert (firstError (checkPipeline cfg) ps = None <->
    forall p pc, Pipelines (Service cfg) !! p = Some pc -> checkPipeline cfg (p, pc) = None) as <-.
  { rewrite firstError_None. setoid_rewrite Hps. split; [intros Hf p pc Hp|intros Hf [p pc] Hp]; apply Hf; by apply elem_of_map_to_list. }
  repeat case_decide; [naive_solver..|].
  destruct (firstError (checkConnector cfg) conns), (firstError (checkExtension cfg) _); naive_solver.
Qed.

Lemma pipelines_Validate_None g ps (cfg : Config C) : ps ≡ₚ map_to_list (Pipelines (Service cfg)) ->
  pipelines_Validate g ps = None <->
  (AllowNoPipelines g = false -> Pipelines (Service cfg) <> ∅) /\
  (ServiceProfilesSupport g = false -> forall p pc, Pipelines (Service cfg) !! p = Some pc -> signal p <> SignalProfiles).
Proof.
  intros Hps. unfold pipelines_Validate.
  assert (ps = [] <-> Pipelines (Service cfg) = ∅) as Hnil.
  { rewrite <- (map_to_list_empty_iff (Pipelines (Service cfg))). split; [|intros E; rewrite E in Hps; by apply Permutation_nil_r].
    intros ->. symmetry in Hps. by apply Permutation_nil_r in Hps. }
  assert (firstError (fun pc => if decide (signal pc.1 = SignalProfiles) then Some (errProfilesGated pc.1) else None) ps = None <->
    forall p pc, Pipelines (Service cfg) !! p = Some pc -> signal p <> SignalProfiles) as Hf.
  { rewrite firstError_None. setoid_rewrite Hps. split.
    - intros Hf p pc Hp%elem_of_map_to_list. specialize (Hf _ Hp). simpl in Hf. by case_decide.
    - intros Hf [p pc] Hp%elem_of_map_to_list. simpl. rewrite decide_False; [done|]. by eapply Hf. }
  case_decide; [naive_solver|]. destruct (ServiceProfilesSupport g); simpl; [naive_solver|]. rewrite Hf. naive_solver.
Qed.

(** *** The walk through the structures *)

Lemma own_errors_nil own : own_errors own = [] <-> callValidateIfPossible own = None.
Proof. unfold own_errors. by destruct (callValidateIfPossible own). Qed.

Lemma under_nil n errs : under n errs = [] <-> errs = [].
Proof. by destruct errs. Qed.

Lemma validateFields_nil {A} (f : A -> list pathError) l :
  validateFields f l = [] <-> Forall (fun x => IsExported x.1 = true -> f x.2 = []) l.
Proof.
  induction l as [|[fl v] l IH]; simpl; [done|]. rewrite app_nil, IH, Forall_cons. simpl.
  destruct (IsExported fl); simpl; rewrite ?under_nil; naive_solver.
Qed.

Lemma validateElems_nil {A} (f : A -> list pathError) i l : validateElems f i l = [] <-> Forall (fun v => f v = []) l.
Proof. revert i. induction l as [|v l IH]; intros i; simpl; [done|]. by rewrite app_nil, IH, Forall_cons, under_nil. Qed.

Lemma validateEntries_nil {A} (f : A -> list pathError) l :
  validateEntries f l = [] <-> Forall (fun x => f x.1.2 = [] /\ f x.2 = []) l.
Proof.
  induction l as [|[[n k] v] l IH]; simpl; [done|]. rewrite !app_nil, IH, Forall_cons, !under_nil. simpl. tauto.
Qed.

Lemma idsValue_valid l : validate (idsValue l) = [].
Proof. cbn [idsValue validate own_errors callValidateIfPossible app]. apply validateElems_nil, Forall_fmap. by apply Forall_true. Qed.

Definition good_part (c : option C) : Prop := match c with Some c => validate (part c) = [] | None => True end.

Lemma interface_valid c : validate (interfaceValue part c) = [] <-> good_part c.
Proof. by destruct c. Qed.

Lemma configs_valid (m : gmap ID (option C)) :
  validate (configs_value part (map_to_list m)) = [] <-> forall id c, m !! id = Some c -> good_part c.
Proof.
  cbn [configs_value validate own_errors callValidateIfPossible app]. rewrite validateEntries_nil, Forall_fmap, Forall_forall.
  split.
  - intros Hf id c Hc%elem_of_map_to_list. apply interface_valid. by apply (Hf (id, c)).
  - intros Hf [id c] Hc%elem_of_map_to_list. split; [done|]. simpl. apply interface_valid. by eapply Hf.
Qed.

Lemma PipelineConfig_valid pc : validate (PipelineConfig_value pc) = [] <-> PipelineConfig_Validate pc = None.
Proof.
  cbn [PipelineConfig_value validate]. rewrite app_nil, own_errors_nil, validateFields_nil. cbn [callValidateIfPossible].
  rewrite !Forall_cons. cbn [fst snd]. rewrite !idsValue_valid. split; [tauto|]. intros E. by split_and!.
Qed.

Lemma pipelines_valid g ps : validate (pipelines_value g ps) = [] <->
  pipelines_Validate g ps = None /\ forall p pc, (p, pc) ∈ ps -> PipelineConfig_Validate pc = None.
Proof.
  cbn [pipelines_value validate]. rewrite app_nil, own_errors_nil, validateEntries_nil, Forall_fmap, Forall_forall.
  cbn [callValidateIfPossible]. apply and_iff_compat_l. split.
  - intros Hf p pc Hp. apply PipelineConfig_valid. by apply (Hf (p, pc)).
  - intros Hf [p pc] Hp. split; [done|]. apply PipelineConfig_valid. by eapply Hf.
Qed.

Lemma Service_valid g ps s : validate (Service_value part g ps s) = [] <->
  good_part (Telemetry s) /\ validate (pipelines_value g ps) = [].
Proof.
  cbn [Service_value validate]. rewrite app_nil, own_errors_nil, validateFields_nil, !Forall_cons.
  cbn [fst snd callValidateIfPossible]. rewrite interface_valid, idsValue_valid. cbn [IsExported field hidden].
  split; [tauto|]. intros [Ht Hp]. by split_and!.
Qed.

Lemma parts_valid (cfg : Config C) : (forall c, is_part cfg c -> validate (part c) = []) <->
  good_part (Telemetry (Service cfg)) /\
  (forall id c, cfg_Receivers cfg !! id = Some c -> good_part c) /\ (forall id c, cfg_Exporters cfg !! id = Some c -> good_part c) /\
  (forall id c, cfg_Processors cfg !! id = Some c -> good_part c) /\ (forall id c, cfg_Connectors cfg !! id = Some c -> good_part c) /\
  (forall id c, cfg_Extensions cfg !! id = Some c -> good_part c).
Proof.
  unfold is_part. split.
  - intros Hf. split_and!; [destruct (Telemetry (Service cfg)) as [c|]; [|done]; apply Hf; by left|..];
      intros id [c|] Hc; [|done| |done| |done| |done| |done]; apply Hf; right; exists id; tauto.
  - intros (Ht & Hr & He & Hp & Hc & Hx) c [E|(id & [E|[E|[E|[E|E]]]])]; [by rewrite E in Ht|..];
      [by apply (Hr id (Some c))|by apply (He id (Some c))|by apply (Hp id (Some c))|by apply (Hc id (Some c))|by apply (Hx id (Some c))].
Qed.

Lemma validation_accepts text g conns ps ps' cfg :
  conns ≡ₚ (map_to_list (cfg_Connectors cfg)).*1 -> ps ≡ₚ map_to_list (Pipelines (Service cfg)) ->
  ps' ≡ₚ map_to_list (Pipelines (Service cfg)) ->
  Validate text (Config_value part g conns ps ps' cfg) = None <->
  valid_config g cfg /\ forall c, is_part cfg c -> Validate text (part c) = None.
Proof.
  intros Hconns Hps Hps'. setoid_rewrite Validate_None. rewrite parts_valid.
  cbn [Config_value validate]. rewrite app_nil, own_errors_nil, validateFields_nil. cbn [callValidateIfPossible].
  rewrite !Forall_cons. cbn [fst snd]. rewrite !configs_valid, Service_valid, pipelines_valid.
  rewrite (Config_Validate_None g conns ps cfg Hconns Hps), (pipelines_Validate_None g ps' cfg Hps').
  setoid_rewrite Hps'. setoid_rewrite elem_of_map_to_list. setoid_rewrite checkPipeline_None.
  setoid_rewrite PipelineConfig_Validate_None. cbn [IsExported field hidden]. split.
  - intros ((H1 & H2 & H3 & H4 & H5 & H6) & Hr & He & Hp & Hc & Hx & Hs & _).
    destruct (Hs eq_refl) as (Ht & [H7 H8] & H9). split; [|tauto].
    split; [done..|]. intros p pc E. destruct (H6 p pc E) as (? & ? & ?), (H9 p pc E) as (? & ? & ?). by split.
  - intros [[H1 H2 H3 H4 H5 H7 H8 H9] (Ht & Hr & He & Hp & Hc & Hx)].
    assert (forall p pc, Pipelines (Service cfg) !! p = Some pc ->
      Receivers pc <> [] /\ Exporters pc <> [] /\ NoDup (Processors pc)) as H9' by (intros p pc E; by destruct (H9 p pc E)).
    split_and!; try done. intros p pc E. by destruct (H9 p pc E).
Qed.

(** C32: validation accepts exactly the configurations that are valid as a whole, in every
    pipeline, and in the configuration of every component, in whatever order the maps are
    visited. *)
Theorem validation_accepts_the_valid text g conns ps ps' cfg :
  conns ≡ₚ (map_to_list (cfg_Connectors cfg)).*1 -> ps ≡ₚ map_to_list (Pipelines (Service cfg)) ->
  ps' ≡ₚ map_to_list (Pipelines (Service cfg)) ->
  Validate text (Config_value part g conns ps ps' cfg) = None <->
  valid_config g cfg /\ forall c, is_part cfg c -> Validate text (part c) = None.
Proof. apply validation_accepts. Qed.
End validation.

(** ** A validated configuration builds *)

Section build.
Context {DG : DirectedGraph node} {DGL : DirectedGraphLaws node} {C : Type}.

(** What the function makes that the factory of a configured component was given for a slot;
    an error if it was given none. *)
Definition factory_result {S} `{Slots S} (b : builder S unit (option C) component) (s : S) (id : ID) : option (component + error) :=
  cfg ← cfgs b !! id;
  f ← builder_factories b !! typeVal id;
  Some match maker f s with Some create => create id cfg tt | None => inr (notSupported id s) end.

Definition node_result (h : Host (C := C)) (n : node) : option (component + error) :=
  match n with
  | receiverNode s id => factory_result (host_Receivers h) s id
  | processorNode p id => factory_result (host_Processors h) (signal p) id
  | exporterNode s id => factory_result (host_Exporters h) s id
  | connectorNode e r id => factory_result (host_Connectors h) (e, r) id
  | capabilitiesNode _ | fanOutNode _ => None
  end.

(** A service made of a configuration that was validated, and whose parts were unmarshalled
    with factories of the packages. *)
Context (g : Gates) (cfg : Config C) (fm : FactoryMaps (C := C)) (tel : node -> option error) (gate : bool).
Context (ps : list (pipelineID * PipelineConfig)).
Notation host := (newHost fm cfg).
Notation set := (graphSettings tel gate host ps).

Record ready : Prop := {
  rd_valid : valid_config g cfg;
  rd_pipelines : ps ≡ₚ map_to_list (Pipelines (Service cfg));
  rd_receivers : configured (host_Receivers host);
  rd_processors : configured (host_Processors host);
  rd_exporters : configured (host_Exporters host);
  rd_connectors : configured (host_Connectors host);
  rd_no_collision : forall n m, n ∈ all_nodes set -> m ∈ all_nodes set -> node_ID n = node_ID m -> n = m;
}.
Context (Hready : ready).

Lemma pipeline_valid p pc : (p, pc) ∈ ps -> valid_pipeline cfg pc.
Proof. rewrite (rd_pipelines Hready). intros Hp%elem_of_map_to_list. by eapply (vc_pipeline _ _ (rd_valid Hready)). Qed.

Lemma ready_settings : valid_settings set.
Proof.
  split.
  - simpl. rewrite (rd_pipelines Hready). apply NoDup_fst_map_to_list.
  - intros [p pc] Hp. by destruct (pipeline_valid p pc Hp).
  - apply (rd_no_collision Hready).
Qed.

Lemma factory_result_some {S} `{Slots S} kind (b : builder S unit (option C) component) s id :
  configured b -> is_Some (cfgs b !! id) -> exists r, factory_result b s id = Some r /\ createConfigured kind b s id tt = r.
Proof.
  intros Hb Hid. destruct (createConfigured_ok kind b s id tt Hb Hid) as (c & f & Ec & Ef & _ & E).
  eexists. split; [|exact E]. unfold factory_result. by rewrite Ec, Ef.
Qed.

Lemma plain_receiver p pc id : (p, pc) ∈ ps -> id ∈ plain set (Receivers pc) -> is_Some (cfg_Receivers cfg !! id).
Proof.
  intros Hp [Hc Hid]%list_elem_of_filter. destruct (vp_receivers _ _ (pipeline_valid p pc Hp) id Hid) as [?|Hs]; [done|].
  by apply bool_decide_eq_false in Hc.
Qed.

Lemma plain_exporter p pc id : (p, pc) ∈ ps -> id ∈ plain set (Exporters pc) -> is_Some (cfg_Exporters cfg !! id).
Proof.
  intros Hp [Hc Hid]%list_elem_of_filter. destruct (vp_exporters _ _ (pipeline_valid p pc Hp) id Hid) as [?|Hs]; [done|].
  by apply bool_decide_eq_false in Hc.
Qed.

Lemma used_connector id : id ∈ used_connectors set ps -> is_Some (cfg_Connectors cfg !! id).
Proof.
  intros (pc & [Hc|Hc]%elem_of_app & _)%list_elem_of_bind; apply list_elem_of_filter in Hc as [Hc _]; by apply bool_decide_eq_true in Hc.
Qed.

(** Every component of the graph is made by the function of its factory. *)
Lemma createComponent_ok n : n ∈ all_nodes set -> is_component n = true ->
  exists r, node_result host n = Some r /\
    createComponent tel host n = match tel n with Some err => inr err | None => r end.
Proof.
  intros Hn Hk. unfold createComponent.
  assert (forall m : component + error, (exists r, node_result host n = Some r /\ m = r) ->
    exists r, node_result host n = Some r /\ match tel n with Some err => inr err | None => m end = match tel n with Some err => inr err | None => r end)
    as Htel by (intros m (r & E & ->); by exists r).
  destruct Hready as [Hv Hps Hr Hp He Hc _].
  apply elem_of_app in Hn as [([q pc] & Hn & Hin)%list_elem_of_bind|(c & Hn & Hused)%list_elem_of_bind].
  - apply elem_of_pipeline_nodes in Hn as [[Hn|[Hn|Hn]]|[-> | ->]]; [..|done|done]; apply list_elem_of_fmap in Hn as (id & -> & Hid); apply Htel.
    + apply factory_result_some; [done|]. by eapply plain_receiver.
    + apply factory_result_some; [done|]. destruct (vp_processors _ _ (pipeline_valid q pc Hin) id Hid) as [x E]. simpl in *. by rewrite E.
    + apply factory_result_some; [done|]. by eapply plain_exporter.
  - apply list_elem_of_fmap in Hn as (er & -> & _). apply Htel. apply factory_result_some; [done|]. by apply used_connector.
Qed.

(** What the error of Build can be: a use of a connector joins nothing, connectors make a cycle, or a
    component could not be made, by its telemetry builder or by its factory. *)
Inductive build_failure (e : error) : Prop :=
| connector_misused c f : c ∈ used_connectors set ps -> ConnectorFactory set (typeVal c) = Some f ->
    (e = errConnectorAsExporter /\ exists p, p ∈ exporter_uses set c ps /\
       forall r, r ∈ receiver_uses set c ps -> supported f (signal p) (signal r) = false) \/
    (e = errConnectorAsReceiver /\ exists p, p ∈ receiver_uses set c ps /\
       forall r, r ∈ exporter_uses set c ps -> supported f (signal r) (signal p) = false) -> build_failure e
| cycle_found : connectors_ok set -> ~ acyclic set -> cycle_error e -> build_failure e
| not_made n err : n ∈ all_nodes set -> is_component n = true ->
    tel n = Some err \/ node_result host n = Some (inr err) ->
    e = err \/ (exists msg, e = ErrWrap msg err) -> build_failure e.

Lemma ready_builds :
  (exists gr b, Build set = ok (gr, b) /\ shape set gr /\
     forall n, n ∈ all_nodes set -> is_component n = true -> tel n = None /\ exists c, node_result host n = Some (inl c)) \/
  (exists e, Build set = fails e /\ build_failure e).
Proof.
  destruct (Build_cases set ready_settings) as [(gr & b & E & _ & _ & Hfac & Hg & _)|(e & E & He)].
  - left. exists gr, b. split_and!; [done..|]. intros n Hn Hk. destruct (Hfac n Hn Hk) as [c Ec].
    destruct (createComponent_ok n Hn Hk) as (r & Er & Ecr). simpl in Ec. rewrite Ecr in Ec.
    destruct (tel n); [done|]. split; [done|]. exists c. by rewrite Er, Ec.
  - right. exists e. split; [done|]. destruct He as [[_ (c & Hc & [[_ Hno]|(f & Ef & He)])]|[(Hco & Hn & He)|(_ & _ & _ & n & err & Hin & Hk & Ec & He)]].
    + exfalso. destruct (types_known _ (rd_connectors Hready) c (used_connector c Hc)) as [f Ef].
      simpl in Hno, Ef. by rewrite Ef in Hno.
    + by apply (connector_misused e c f).
    + by apply cycle_found.
    + apply (not_made e n err); [done..| |done]. destruct (createComponent_ok n Hin Hk) as (r & Er & Ecr).
      simpl in Ec. rewrite Ecr in Ec. destruct (tel n); [left|right]; congruence.
Qed.
End build.

Section composition.
Context {DG : DirectedGraph node} {DGL : DirectedGraphLaws node} {C : Type}.

(** C15: A configuration that was unmarshalled with factories of the packages and that validation
    accepts either becomes a graph in which every component was made by the function its
    factory was given, or the error of a misused connector, of a cycle of connectors, or of a
    factory: no component is missing, ambiguous, without a factory, of a wrong type or
    without a next consumer. *)
Theorem validated_configuration_builds part text g conns ps ps' (cfg : Config C) fm tel gate :
  conns ≡ₚ (map_to_list (cfg_Connectors cfg)).*1 -> ps ≡ₚ map_to_list (Pipelines (Service cfg)) ->
  ps' ≡ₚ map_to_list (Pipelines (Service cfg)) ->
  Validate text (Config_value part g conns ps ps' cfg) = None ->
  let h := newHost fm cfg in
  let set := graphSettings tel gate h ps in
  unmarshalled (host_Receivers h) -> unmarshalled (host_Processors h) -> unmarshalled (host_Exporters h) ->
  unmarshalled (host_Connectors h) ->
  (forall n m, n ∈ all_nodes set -> m ∈ all_nodes set -> node_ID n = node_ID m -> n = m) ->
  (exists gr b, Build set = ok (gr, b) /\ shape set gr /\
     forall n, n ∈ all_nodes set -> is_component n = true -> tel n = None /\ exists c, node_result h n = Some (inl c)) \/
  (exists e, Build set = fails e /\ build_failure cfg fm tel gate ps e).
Proof.
  intros Hconns Hps Hps' [Hv _]%validation_accepts h set Hr Hp He Hc Hcol; [|done..].
  apply (ready_builds g). by split; [..|apply unmarshalled_configured|apply unmarshalled_configured|apply unmarshalled_configured|apply unmarshalled_configured|].
Qed.
End composition.

(** ** A configuration *)

(** A receiver and an exporter, joined by a connector from one pipeline of traces to another. *)
Definition test_maker {N} : option (ID -> option unit -> N -> component + error) :=
  Some (fun _ _ _ => inl (mkComponent Reads false)).

Definition test_factory (name : string) : anyFactory Signal unit (option unit) component :=
  Experimental (XNewFactory (mkType name) (Some tt)
    [XWith (With SignalTraces test_maker 3); WithDeprecatedTypeAlias (mkType ("old" +:+ name))]).

Definition test_connector : anyFactory (Signal * Signal) unit (option unit) component :=
  Plain (NewFactory (mkType "forward") (Some tt) [With (SignalTraces, SignalTraces) test_maker 3]).

Definition test_factories : FactoryMaps := mkFactoryMaps
  (MakeFactoryMap [test_factory "otlp"]).1 (MakeFactoryMap [test_factory "batch"]).1
  (MakeFactoryMap [test_factory "debug"; test_factory "otlp"]).1 (MakeFactoryMap [test_connector]).1.

Definition test_pipelines : list (pipelineID * PipelineConfig) :=
  [(mkPipelineID SignalTraces "in", mkPipelineConfig [mkID (mkType "oldotlp") ""] [] [an_id "forward"]);
   (mkPipelineID SignalTraces "out", mkPipelineConfig [an_id "forward"] [mkID (mkType "batch") "2"] [an_id "debug"])].

Definition test_section {S} (fs : gmap Type_ (anyFactory S unit (option unit) component)) (ids : list ID) : gmap ID (option unit) :=
  match Configs_Unmarshal inl (fun k _ => inl k) (fun _ c => inl c) fs ids with inl m => m | inr _ => ∅ end.

Definition test_config : Config unit := mkConfig
  (test_section (fm_Receivers test_factories) [mkID (mkType "oldotlp") ""])
  (test_section (fm_Exporters test_factories) [an_id "debug"])
  (test_section (fm_Processors test_factories) [mkID (mkType "batch") "2"])
  (test_section (fm_Connectors test_factories) [an_id "forward"]) ∅
  (mkServiceConfig (Some tt) [] (list_to_map test_pipelines)).

Definition test_gates : Gates := mkGates false false.
Definition test_conns : list ID := (map_to_list (cfg_Connectors test_config)).*1.
Definition test_order : list (pipelineID * PipelineConfig) := map_to_list (Pipelines (Service test_config)).

Lemma MakeFactoryMap_ok {S} (fs : list (anyFactory S unit (option unit) component)) :
  (MakeFactoryMap fs).2 = None -> MakeFactoryMap fs = ((MakeFactoryMap fs).1, None).
Proof. by destruct (MakeFactoryMap fs) as [m [e|]]. Qed.

(** The sections of the configuration were read with their factories. *)
Lemma test_section_unmarshalled {S} `{Slots S} (fs : list (anyFactory S unit (option unit) component)) ids :
  (MakeFactoryMap fs).2 = None -> Forall made fs ->
  match Configs_Unmarshal inl (fun (k : list ID) _ => inl k) (fun _ c => inl c) (MakeFactoryMap fs).1 ids with
  | inl _ => true | inr _ => false end = true ->
  unmarshalled (mkBuilder (test_section (MakeFactoryMap fs).1 ids) (MakeFactoryMap fs).1).
Proof.
  intros E Hfs Eu. exists (list ID), inl, (fun k _ => inl k), (fun _ c => inl c), ids, fs.
  split_and!; [by apply MakeFactoryMap_ok|done|]. simpl. unfold test_section. by destruct (Configs_Unmarshal _ _ _ _ ids).
Qed.

Lemma test_receivers : unmarshalled (host_Receivers (newHost test_factories test_config)).
Proof.
  apply (test_section_unmarshalled [test_factory "otlp"]); [vm_compute; reflexivity|repeat constructor|vm_compute; reflexivity].
Qed.

Lemma test_processors : unmarshalled (host_Processors (newHost test_factories test_config)).
Proof.
  apply (test_section_unmarshalled [test_factory "batch"]); [vm_compute; reflexivity|repeat constructor|vm_compute; reflexivity].
Qed.

Lemma test_exporters : unmarshalled (host_Exporters (newHost test_factories test_config)).
Proof.
  apply (test_section_unmarshalled [test_factory "debug"; test_factory "otlp"]); [vm_compute; reflexivity|repeat constructor|vm_compute; reflexivity].
Qed.

Lemma test_connectors : unmarshalled (host_Connectors (newHost test_factories test_config)).
Proof.
  apply (test_section_unmarshalled [test_connector]); [vm_compute; reflexivity|repeat constructor|vm_compute; reflexivity].
Qed.

Lemma validation_accepts_the_valid_witness :
  valid_config test_gates test_config /\ forall c, is_part test_config c -> Validate (fun _ => "") (Scalar None) = None.
Proof.
  apply (validation_accepts_the_valid (fun _ => Scalar None) (fun _ => "") test_gates test_conns test_order test_order test_config);
    [reflexivity..|]. vm_compute. reflexivity.
Defined.

#[local] Existing Instance adjacency_graph.
#[local] Existing Instance adjacency_laws.

Abbreviation test_settings := (graphSettings (fun _ => None) true (newHost test_factories test_config) test_order).

Lemma validated_configuration_builds_witness : exists r, Build test_settings = Some r.
Proof.
  destruct (validated_configuration_builds (fun _ => Scalar None) (fun _ => "") test_gates test_conns test_order test_order
    test_config test_factories (fun _ => None) true) as [(gr & b & E & _)|(e & E & _)].
  - reflexivity.
  - reflexivity.
  - reflexivity.
  - vm_compute. reflexivity.
  - exact test_receivers.
  - exact test_processors.
  - exact test_exporters.
  - exact test_connectors.
  - intros n m Hn Hm. apply (NoDup_no_collision (remove_dups (all_nodes test_settings))); [|by apply elem_of_remove_dups..].
    apply (bool_decide_eq_true_1 _). vm_compute. reflexivity.
  - eexists. exact E.
  - eexists. exact E.
Defined.

(** Extensions that cannot be built, after the graph was, and a meter provider that fails to
    shut down. *)
Definition test_env : new_env := mkNewEnv (G := unit) (X := unit) true None (fun _ => None)
  (fun p => match p with MeterProvider => Some (ErrNew "exporter gone") | _ => None end)
  (Some (inl tt)) (Some (inr (ErrNew "no such extension"))) None.

#[local] Existing Instance multierr_first.
#[local] Existing Instance multierr_first_laws.

Lemma New_cleans_up_witness : exists s, New test_env = Some s /\ cleans_up providers s /\ s.2.1 = None.
Proof.
  eexists. split; [vm_compute; reflexivity|]. split; [|reflexivity].
  apply (New_cleans_up test_env). vm_compute. reflexivity.
Defined.
